(* ===== verification/_CoqProject ===== *)
-Q . S2P
Prelude.v
SplInl.v
RingBuffer.v
SplMath.v
MinMax.v
VectorOps.v
Energy.v
ResampleInt.v
Resample2.v
SplittingFilter.v
ResampleFrac.v
Resample48.v
Resample22.v
VadInst.v
VadSp.v
VadGmm.v
VadFilterbank.v
VadCore.v
WebRtcVad.v
PcmCodecs.v
FftTables.v
Fft.v
FftRange.v
Filters.v
RandWindow.v
Lpc.v
G722.v
G722Spec.v
BitStream.v
BitFields.v
SeqNum.v
RtpLeb128.v
ByteIo.v
Rtcp.v
FeedbackChunk.v
TransportFeedback.v
FeedbackWire.v
RtpExtensionMap.v
RtpPacket.v
RtpWire.v
RtpEncode.v
RtpBuild.v
RtpExtend.v
RtpRoundtrip.v
RtpHeaderExtensions.v
RtpTypedExtensions.v
RtpEdit.v
RtcpFields.v
RtcpKinds.v
RtcpReports.v
RtcpFeedback.v
RtcpXr.v
RtcpCompound.v
FecTables.v
FecMasks.v
FecPacket.v
FecHeaders.v
FecEncode.v
FecDecode.v
FecRecovery.v
FecSystem.v
