(* ===== verification/Prelude.v ===== *)
(** * Verification of the integer core of WebRTC

    The repository is a checkout of WebRTC with two command-line wrappers.  Its own C code is
    the fixed-point audio core under [source_code/common_audio]: a byte ring buffer, a library
    of signal processing primitives ([signal_processing/]) and the voice activity detector
    ([vad/]) built on them, and the sample codecs PCM, G.711 and G.722 under
    [source_code/modules].  Around it are the C++ classes that put media on the network; of
    these the development takes the ones that are integer arithmetic on byte buffers: bit
    streams, wrapping sequence numbers, byte readers and writers, RTP packets and their header
    extensions, RTCP packets, transport feedback and forward error correction.  It models that
    code and proves what makes each part correct.  File names below are relative to
    [src/source_code/common_audio] unless they start with [modules/] or [rtc_base/].

    ** How the program is modelled

    - Integers.  A C integer is a [Z].  [s16], [s32], [u32], ... are the wraps of the C types;
      [⊞], [⊟], [⊠] are 32-bit two's complement addition, subtraction and multiplication.  A wrap is
      written wherever the C expression converts to a narrower type or may leave the range of
      [int]; it is left out only where the operands bound the result ([int16_t] products).
      A theorem that a function is "exact" says that none of these wraps ever acts.
      Signed overflow, undefined in C, wraps here.
    - Arrays are lists; [l.[i]] reads and [wr l i v] writes an element; [slice] and [store] are
      the reads and writes of [memcpy].  Where the code computes in place or shares a scratch
      block between stages, the model threads that one block, so that every store is seen by
      the later reads.
    - Loops with a counter are [for_up]; loops that consume a buffer sample by sample and carry
      a filter state are [run]; both are structurally recursive, so no fuel is needed.  The
      loops with data-dependent bounds carry explicit fuel: [autocorr_unrolled] has the vector
      length (every turn advances by four) and [valid_length_loop] has 4 (the counter leaves
      its range after three turns); [halve_while] has the number of stages, [fft_loop] and
      [ifft_loop] one more (the stage doubles in every turn); [decode_loop] has eight turns per
      byte plus the bits already waiting and [encode_loop] one per sample.  The last two yield
      [None] without fuel, which [g722_terminates] excludes; the theorems about the transforms
      show that theirs suffices.  The recovery loop [attempt_loop] starts again after each packet
      it recovers and has (n+1)^2 turns for n FEC packets, each start having one packet less;
      [AttemptRecovery_total] shows that it never runs out.  [make_room] has two turns, the second on
      an empty buffer, and [parse_chunks] one per byte of the payload; [feedback_roundtrip] and
      [ParseFrom_sound] show that both suffice.  [parse_extensions] has one turn more than there
      are bytes of extensions, each turn taking a byte at least; [rtp_parse_safe] shows that it
      ends.  [room_loop] has two turns as [make_room]; [sdes_items] and [parse_xr_blocks] have one
      per byte, [normalize_loop] one per bit; the instances of [LawfulPacket] show that all suffice.
      A loop with an early return is a [Fixpoint] over the turns left.
    - Pointers that may be null are [option]s.  [malloc] is a parameter of
      [WebRtc_CreateBuffer], and whether it succeeds one of [WebRtcSpl_CreateRealFFT] and of the
      G.722 constructors.  Local arrays, whose contents on entry are indeterminate, are
      parameters too, and the theorems quantify over them.
    - C++ objects are records, methods functions from the object to the new object and the
      result; a method that reports failure returns a [bool] or an [option] as the code does,
      with the object it leaves behind.  [absl::bit_width], which is not part of the
      repository, is the class [BitWidth] with its documented meaning as law.  Templates are
      functions of the width.  A class with virtual functions is a Rocq class: the two FEC header
      formats are values of [FecHeaderFormat], what encoder and decoder need of them is
      [FecHeaderOk], and each format has its instance.  Packets that the code shares by pointer
      and does not write any more are stored as their bytes.
    - RTP packets are written in a monad of outcomes: a result, an access outside the memory of
      the buffer, a failed [RTC_CHECK], or the end of the fuel.  The buffer is its memory up to
      the capacity and the number of bytes in use; [mem] is what new memory holds, and the
      theorems quantify over it.  The classes of header extensions, which the code passes as
      template arguments, are values of [HeaderExtension]; what the templates rely on is the
      class [LawfulExtension], which every extension is an instance of.  In the same way a class of
      RTCP packets is a value of [RtcpKind] and an instance of [LawfulPacket], over which compound
      packets are verified.

    ** Files

    - [Prelude]: wraps, ranges, arrays, loops, sums, and the tactics [cint], [cwrap], [zdiv],
      [unwrap].
    - [SplInl]: leading zeros, normalisation, saturation (signal_processing/include/spl_inl.h).
    - [RingBuffer]: ring_buffer.c, with the abstract bounded queue it refines.
    - [SplMath]: divisions and square roots (division_operations.c, spl_sqrt.c,
      spl_sqrt_floor.c, sqrt_of_one_minus_x_squared.c).
    - [MinMax]: min_max_operations.c; the class [MaxAbsValueW16_impl] stands for the function
      pointer set in spl_init.c.
    - [VectorOps]: copy_set_operations.c, vector_operations.c, vector_scaling_operations.c.
    - [Energy]: get_scaling_square.c, energy.c, auto_correlation.c, cross_correlation.c.
    - [ResampleInt]: resample_by_2_internal.c and the interface [Stage] of a resampling stage.
    - [Resample2]: resample_by_2.c.
    - [ResampleFrac]: resample_fractional.c, in place on a shared block.
    - [Resample48], [Resample22]: resample_48khz.c and resample.c, cascades of stages.
    - [VadInst]: the detector state of vad/vad_core.h.  [VadSp]: vad/vad_sp.c.  [VadGmm]:
      vad/vad_gmm.c.  [VadFilterbank]: vad/vad_filterbank.c.  [VadCore]: vad/vad_core.c.
      [WebRtcVad]: vad/webrtc_vad.c.
    - [SplittingFilter]: splitting_filter.c, the quadrature mirror filter bank.
    - [PcmCodecs]: the sample codecs of modules/audio_coding/codecs/pcm16b and g711 with
      modules/third_party/g711.
    - [FftTables], [Fft], [FftRange]: complex_fft_tables.h, complex_bit_reverse.c, complex_fft.c
      and real_fft.c; the first two hold the definitions, the recursive transform and the
      refinement, the last the ranges and the real transforms.
    - [Filters]: filter_ar.c, filter_ar_fast_q12.c, filter_ma_fast_q12.c, downsample_fast.c.
    - [RandWindow]: randomization_functions.c and get_hanning_window.c.
    - [Lpc]: levinson_durbin.c, auto_corr_to_refl_coef.c, lpc_to_refl_coef.c and
      refl_coef_to_lpc.c.
    - [G722], [G722Spec]: modules/third_party/g722 and
      modules/audio_coding/codecs/g722/g722_interface.c, definitions and theorems.
    - [BitStream], [BitFields]: rtc_base/bit_buffer.cc and rtc_base/bitstream_reader.cc; the
      first file holds writer and reader, the second a field language over all their codes.
    - [SeqNum]: rtc_base/numerics (mod_ops.h, sequence_number_util.h,
      sequence_number_unwrapper.h) and modules/include/module_common_types_public.h.
    - [RtpLeb128], [ByteIo]: leb128.cc and byte_io.h of modules/rtp_rtcp/source.
    - [Rtcp]: rtcp_packet.cc and rtcp_packet/{common_header,rtpfb,nack}.cc of
      modules/rtp_rtcp/source.
    - [FeedbackChunk], [TransportFeedback], [FeedbackWire]: rtcp_packet/transport_feedback.cc of
      modules/rtp_rtcp/source; the chunks, the report, the wire format.
    - [RtpExtensionMap]: rtp_header_extension_map.cc.  [RtpPacket]: the definitions of
      rtp_packet.cc, on the buffers of rtc_base/copy_on_write_buffer.cc.  [RtpWire]: parsing of
      any bytes.  [RtpEncode]: the contents of a packet and their encoding, which is parsed.
      [RtpBuild], [RtpExtend]: the operations on packets that hold some contents, the header
      extensions in the second.  [RtpRoundtrip]: sequences of operations, up to parsing.
      [RtpHeaderExtensions], [RtpTypedExtensions]: rtp_header_extensions.cc and the templates of
      rtp_packet.h.  [RtpEdit]: changes of complete packets (all in modules/rtp_rtcp/source).
    - [RtcpFields], [RtcpKinds]: sequences of fields; what classes of RTCP packets share and
      rtcp_packet/compound_packet.cc.  [RtcpReports], [RtcpFeedback], [RtcpXr]: the classes in
      rtcp_packet.  [RtcpCompound]: compound packets of all of them (all in
      modules/rtp_rtcp/source).
    - [FecTables], [FecMasks]: fec_private_tables_{random,bursty}.cc and
      forward_error_correction_internal.cc.  [FecPacket]: packets and the recovery of one packet;
      [FecEncode], [FecDecode]: EncodeFec and DecodeFec (all forward_error_correction.cc).
      [FecHeaders]: ulpfec_header_reader_writer.cc and flexfec_03_header_reader_writer.cc.
      [FecRecovery]: the invariant of the decoder over a frame.  [FecSystem]: encoder and decoder
      together (all in modules/rtp_rtcp/source).

    The detector calls the resamplers (48 kHz), the energy, the divisions and the
    normalisations; the resamplers between rates call the half-band and fractional stages.
    [Rtcp] calls [ByteIo] and [SeqNum]; compound packets call the classes of packets through
    their interface; transport feedback calls all three; [RtpLeb128] is
    compared with [BitStream].  RTP packets call [ByteIo] and the map of extensions; header
    extensions call both and are called by the packets through the interface.  FEC encoder and
    decoder call the masks, the packets and, through the interface, the headers; the decoder
    orders packets by [SeqNum].

    ** What the theorems show

    - Detector: an invariant of every instance a client can reach, by induction over the calls
      ([vad_invariant]); the results of [WebRtcVad_Process] on every path; the hangover state
      machine; the tracker of small values as sorted insertion; the likelihood test yields
      probability distributions; the fixed-point Gaussian, the log energy and the band split
      compute their mathematical functions without overflow in stated ranges.
    - Ring buffer: refinement of a bounded queue for all sequences of operations, creation,
      round trip.
    - Resamplers: framing and sub-blocking are invisible, scratch memory is invisible, in-place
      filters equal the filters on the original input, and no overflow on normalised input.
      The same holds of the quadrature mirror filter bank.
    - Transforms: bit reversal by table and by counter is the permutation it should be; the
      in-place transform is the recursive decimation-in-time FFT; the inverse never overflows,
      the forward transform does not on a disc of 16-bit radius; the real transforms.
    - Linear prediction: the in-place loops are the Schur, step-up, step-down and
      Levinson-Durbin recursions, with the exact condition under which a filter is refused,
      and reflection coefficients inside the unit circle.
    - Filters: the auto-regressive filter does not depend on the framing; the Q12 filters and
      the decimating filter are exact, rounded and saturated inner products.
    - Generator and window: full period of the generator; the window stays inside its table
      and is monotone.
    - G.711: quantisation to the midpoint, round trips.  G.722: the decoder follows the
      predictor of the encoder over any sequence of frames; in every mode the states keep their ranges
      and the output fits its buffer; the predictor update is the one over unbounded integers;
      error of the narrow-band round trip; termination in every mode.
    - Primitives: equivalence of optimised routines with reference definitions (leading zeros,
      unrolled correlation, integer square root, division in Q31, searches, saturation).
    - Bit streams: every sequence of fields that is written is read back; a write succeeds
      exactly when its code fits; a reader never leaves its array, whatever it holds.
    - Sequence numbers: the wrapped order is the order of the integers behind it; unwrapping
      returns these integers.
    - Bytes: all readers and writers are base 256 in both byte orders and inverse to each
      other, signed ones for full width or at most three bytes; the two LEB128 codecs agree.
    - RTCP: the headers accepted, exactly; a list of lost packets arrives complete and in order
      whatever the size of the buffers it is split into.  Thirteen further classes of packets
      parse what they write and any payload safely ([rtcp_packets_lawful]); packets of any lawful
      classes are sent in order, in groups filled as far as they go, and received; one that is
      too long stops the sending where it is.
    - Transport feedback: the object that packs statuses into chunks of three kinds refines a
      plain list of them and is consistent after every operation; a report is written, padded,
      parsed and the same again; no input makes the parser read outside or accept an inconsistent
      report; rounding of times does not add up.
    - RTP packets: any sequence of operations that fill a packet refines operations on its
      contents ([rtp_build_refines]), among them the change from one-byte to two-byte extension
      headers in the middle of it; the bytes parse to the same contents; parsing of any bytes
      ends, within them; header extensions are read as they were set, before and after the wire;
      erasing and removing extensions and copying headers do what they say, except that removal
      drops the padding of a packet of more than 1500 bytes; the map of extensions gives an id to one type only.
    - Forward error correction: the masks protect every media packet; the headers of both
      formats round trip; the encoder on every branch; the decoder never has a packet that was
      not sent, whatever arrives; within a frame it has all that single-packet recovery can
      give, in order, so that a lost packet, or with interleaved masks a burst, comes back.
    - [CalcVad48khz_first_block_only] and the lemmas [Energy_full_scale_negative],
      [DivResultInQ31_large_den], [FindMinimum_skips_ageing], [ConsumeBytes_wraps], [NewFeedback_inconsistent],
      [refused_packet_leaves_gap], [recreated_packet_differs], [parse_without_times_inconsistent],
      [comfort_noise_inverted], [copied_padding_bit], [removed_padding_lost], [padded_past_capacity]
      and [remove_empty_neighbour] record behaviour that differs from what the code means to do.

    ** Bounds

    Ranges in hypotheses are those the code itself maintains or documents: [max_count] is the
    largest ring buffer whose byte counts the moves can represent; [norm_bound] covers every
    16-bit sample with filter overshoot; [ds_bound] and [split_bound] are the largest round
    amplitudes for which the all-pass sections cannot exceed 16 bits.  A media packet is
    [sendable] if it fits into an IP packet with all headers, the condition under which the
    encoder does not warn; FEC packets in the stream of the media packets have sequence numbers
    at most 4096 behind the frame.  Operations on RTP packets are [allowed] under their
    RTC_DCHECKs; header extensions are set on packets whose capacity is a multiple of four and at
    most 65535, since the block is padded behind the check of the capacity
    ([padded_past_capacity]) and offsets have 16 bits.  Contents of RTCP packets are valid if their
    fields have the width of the wire format and their lists the length that the setters admit
    (1000 items where a class has no limit); bit rates are those that mantissa and exponent
    express ([representable]), others are rounded down.

    ** Not modelled

    Assembly and NEON variants, floating-point code (iSAC, the mixed-radix FFT, the colour space
    extension), vendored code, functions that only call [free], text for logs, and the C++ code
    other than the classes named above (echo cancellation, noise suppression, transport,
    signalling, the command-line wrappers).
    Of RTCP the remote estimate and the congestion control feedback (rtcp_packet/{remote_estimate,
    congestion_control_feedback}.cc, which compute with units of time and rate in floating point)
    are left out, as are the generator and the receiver around forward error correction
    (ulpfec_generator.cc, ulpfec_receiver.cc) and the header extensions that have files of
    their own. *)
From Stdlib Require Export ZArith Lia.
From stdpp Require Export base list numbers option.

#[global] Open Scope Z_scope.

(** * Machine integers

    A C integer of width [w] is a [Z].  Casts and every arithmetic operation
    whose result may leave the range of its C type go through one of the wraps
    below. *)

Definition s16 (x : Z) : Z := (x + 32768) `mod` 65536 - 32768.
Definition s32 (x : Z) : Z := (x + 2147483648) `mod` 4294967296 - 2147483648.
Definition u8 (x : Z) : Z := x `mod` 256.
Definition u16 (x : Z) : Z := x `mod` 65536.
Definition u32 (x : Z) : Z := x `mod` 4294967296.
Definition u64 (x : Z) : Z := x `mod` 18446744073709551616.

Definition int8 (x : Z) : Prop := -128 ≤ x ≤ 127.
Definition int16 (x : Z) : Prop := -32768 ≤ x ≤ 32767.
Definition int32 (x : Z) : Prop := -2147483648 ≤ x ≤ 2147483647.
Definition uint8 (x : Z) : Prop := 0 ≤ x ≤ 255.
Definition uint16 (x : Z) : Prop := 0 ≤ x ≤ 65535.
Definition uint32 (x : Z) : Prop := 0 ≤ x ≤ 4294967295.
Definition uint64 (x : Z) : Prop := 0 ≤ x ≤ 18446744073709551615.

Definition INT16_MAX : Z := 32767.
Definition INT16_MIN : Z := -32768.
Definition INT32_MAX : Z := 2147483647.
Definition INT32_MIN : Z := -2147483648.

(** Two's complement [int] arithmetic. *)
Definition add32 (a b : Z) : Z := s32 (a + b).
Definition sub32 (a b : Z) : Z := s32 (a - b).
Definition mul32 (a b : Z) : Z := s32 (a * b).
Definition neg32 (a : Z) : Z := s32 (- a).
Definition shl32 (a n : Z) : Z := s32 (a ≪ n).

Declare Scope cint_scope.
Delimit Scope cint_scope with cint.
Notation "a ⊞ b" := (add32 a b) (at level 50, left associativity) : cint_scope.
Notation "a ⊟ b" := (sub32 a b) (at level 50, left associativity) : cint_scope.
Notation "a ⊠ b" := (mul32 a b) (at level 40, left associativity) : cint_scope.
#[global] Open Scope cint_scope.

#[global] Arguments s16 : simpl never.
#[global] Arguments s32 : simpl never.
#[global] Arguments u8 : simpl never.
#[global] Arguments u16 : simpl never.
#[global] Arguments u32 : simpl never.
#[global] Arguments u64 : simpl never.
#[global] Arguments add32 : simpl never.
#[global] Arguments sub32 : simpl never.
#[global] Arguments mul32 : simpl never.
#[global] Arguments neg32 : simpl never.
#[global] Arguments shl32 : simpl never.

#[export] Instance int16_dec x : Decision (int16 x).
Proof. unfold int16. apply _. Defined.
#[export] Instance int32_dec x : Decision (int32 x).
Proof. unfold int32. apply _. Defined.
#[export] Instance uint8_dec x : Decision (uint8 x).
Proof. unfold uint8. apply _. Defined.
#[export] Instance uint16_dec x : Decision (uint16 x).
Proof. unfold uint16. apply _. Defined.
#[export] Instance uint32_dec x : Decision (uint32 x).
Proof. unfold uint32. apply _. Defined.

(** ** Tactics *)

(** [lia] after unfolding the ranges and turning division into equations. *)
Ltac zdiv := Z.div_mod_to_equations; lia.
Ltac unfold_ints :=
  unfold int8, int16, int32, uint8, uint16, uint32, uint64,
    INT16_MAX, INT16_MIN, INT32_MAX, INT32_MIN in *.
Ltac cint := unfold_ints; lia.
Ltac unfold_wraps :=
  unfold add32, sub32, mul32, neg32, shl32, s16, s32, u8, u16, u32, u64 in *.
Ltac cwrap := unfold_ints; unfold_wraps; zdiv.

(** Case analysis on the integer comparisons of the goal. *)
Ltac destruct_ltb :=
  repeat match goal with
  | |- context [?a <? ?b] => destruct (Z.ltb_spec a b)
  end.

(** Case analysis on every integer comparison of the goal. *)
Ltac destruct_cmp :=
  rewrite ?Z.gtb_ltb, ?Z.geb_leb;
  repeat match goal with
  | |- context [?a <? ?b] => destruct (Z.ltb_spec a b)
  | |- context [?a <=? ?b] => destruct (Z.leb_spec a b)
  | |- context [?a =? ?b] => destruct (Z.eqb_spec a b)
  end; simpl.


(** ** Laws of the wraps *)

Lemma s16_id x : int16 x → s16 x = x.
Proof. cwrap. Qed.
Lemma s32_id x : int32 x → s32 x = x.
Proof. cwrap. Qed.
Lemma u8_id x : uint8 x → u8 x = x.
Proof. cwrap. Qed.
Lemma u16_id x : uint16 x → u16 x = x.
Proof. cwrap. Qed.
Lemma u32_id x : uint32 x → u32 x = x.
Proof. cwrap. Qed.
Lemma u64_id x : uint64 x → u64 x = x.
Proof. cwrap. Qed.
Lemma s16_range x : int16 (s16 x).
Proof. cwrap. Qed.
Lemma s32_range x : int32 (s32 x).
Proof. cwrap. Qed.
Lemma u8_range x : uint8 (u8 x).
Proof. cwrap. Qed.
Lemma u16_range x : uint16 (u16 x).
Proof. cwrap. Qed.
Lemma u32_range x : uint32 (u32 x).
Proof. cwrap. Qed.

Lemma add32_id a b : int32 (a + b) → a ⊞ b = a + b.
Proof. apply s32_id. Qed.
Lemma sub32_id a b : int32 (a - b) → a ⊟ b = a - b.
Proof. apply s32_id. Qed.
Lemma mul32_id a b : int32 (a * b) → a ⊠ b = a * b.
Proof. apply s32_id. Qed.
Lemma neg32_id a : int32 (- a) → neg32 a = - a.
Proof. apply s32_id. Qed.
Lemma shl32_id a n : int32 (a ≪ n) → shl32 a n = a ≪ n.
Proof. apply s32_id. Qed.

Lemma add32_range a b : int32 (a ⊞ b).
Proof. apply s32_range. Qed.
Lemma sub32_range a b : int32 (a ⊟ b).
Proof. apply s32_range. Qed.
Lemma mul32_range a b : int32 (a ⊠ b).
Proof. apply s32_range. Qed.

(** Wrapping inside a sum is redundant. *)
Lemma s32_add_l a b : s32 (s32 a + b) = s32 (a + b).
Proof.
  unfold s32. replace ((a + 2147483648) `mod` 4294967296 - 2147483648 + b + 2147483648)
    with ((a + 2147483648) `mod` 4294967296 + b) by lia.
  rewrite Zplus_mod_idemp_l. do 2 f_equal. lia.
Qed.
Lemma s32_add_r a b : s32 (a + s32 b) = s32 (a + b).
Proof. by rewrite Z.add_comm, s32_add_l, Z.add_comm. Qed.

Create HintDb cint discriminated.
#[export] Hint Resolve s16_range s32_range u8_range u16_range u32_range
  add32_range sub32_range mul32_range : cint.

(** Remove the wraps whose argument is in range by linear arithmetic, innermost ones
    first when only those are. *)
Ltac unwrap1 :=
  match goal with
  | |- context [s16 ?x] => rewrite (s16_id x) by cint
  | |- context [s32 ?x] => rewrite (s32_id x) by cint
  | |- context [?a ⊞ ?b] => rewrite (add32_id a b) by cint
  | |- context [?a ⊟ ?b] => rewrite (sub32_id a b) by cint
  | |- context [?a ⊠ ?b] => rewrite (mul32_id a b) by cint
  | |- context [neg32 ?x] => rewrite (neg32_id x) by cint
  | |- context [u8 ?x] => rewrite (u8_id x) by cint
  | |- context [u16 ?x] => rewrite (u16_id x) by cint
  | |- context [u32 ?x] => rewrite (u32_id x) by cint
  | |- context [u64 ?x] => rewrite (u64_id x) by cint
  end.
Ltac unwrap := repeat unwrap1.

(** ** Shifts and clamping *)

Lemma shiftr_div x n : 0 ≤ n → x ≫ n = x `div` 2 ^ n.
Proof. apply Z.shiftr_div_pow2. Qed.
Lemma shiftl_mul x n : 0 ≤ n → x ≪ n = x * 2 ^ n.
Proof. apply Z.shiftl_mul_pow2. Qed.

Lemma shiftr_bounds x n lo hi :
  0 ≤ n → lo * 2 ^ n ≤ x < (hi + 1) * 2 ^ n → lo ≤ x ≫ n ≤ hi.
Proof.
  intros Hn Hx. rewrite shiftr_div by done.
  assert (0 < 2 ^ n) by (apply Z.pow_pos_nonneg; lia).
  split; [apply Z.div_le_lower_bound; lia|].
  apply Z.lt_succ_r, Z.div_lt_upper_bound; lia.
Qed.

Lemma shiftr_nonneg x n : 0 ≤ x → 0 ≤ x ≫ n.
Proof. apply Z.shiftr_nonneg. Qed.

Lemma shiftr_le x n : 0 ≤ x → 0 ≤ n → x ≫ n ≤ x.
Proof.
  intros. rewrite shiftr_div by done.
  assert (0 < 2 ^ n) by (apply Z.pow_pos_nonneg; lia).
  apply Z.div_le_upper_bound; nia.
Qed.

Definition clamp (lo hi x : Z) : Z := Z.max lo (Z.min hi x).

Lemma clamp_range lo hi x : lo ≤ hi → lo ≤ clamp lo hi x ≤ hi.
Proof. unfold clamp. lia. Qed.
Lemma clamp_id lo hi x : lo ≤ x ≤ hi → clamp lo hi x = x.
Proof. unfold clamp. lia. Qed.

(** * Arrays

    A C array is the list of its elements.  [l .[ i ]] reads element [i]; the
    definitions read only inside the array they own, and a read outside it
    (undefined in C) yields 0. *)

Definition rd (l : list Z) (i : Z) : Z :=
  if i <? 0 then 0 else nth (Z.to_nat i) l 0.
Definition wr (l : list Z) (i : Z) (v : Z) : list Z :=
  if i <? 0 then l else <[Z.to_nat i := v]> l.
Notation "l .[ i ]" := (rd l i) (at level 1, left associativity, format "l .[ i ]").

Abbreviation zlen l := (Z.of_nat (length l)).

#[global] Arguments rd : simpl never.
#[global] Arguments wr : simpl never.

(** Bytes or words [off .. off + n) of a block, and [memcpy] of [src] into it. *)
Definition slice {A} (l : list A) (off n : Z) : list A :=
  take (Z.to_nat n) (drop (Z.to_nat off) l).
Definition store {A} (l : list A) (off : Z) (src : list A) : list A :=
  take (Z.to_nat off) l ++ src ++ drop (Z.to_nat off + length src) l.

(** [for (i = a; i < a + n; i++) s = body(i, s)] *)
Fixpoint for_up {S} (a : Z) (n : nat) (body : Z → S → S) (s : S) : S :=
  match n with
  | O => s
  | Datatypes.S n' => for_up (a + 1) n' body (body a s)
  end.

(** [f(a) + f(a+1) + ... + f(a+n-1)] *)
Definition sumf (f : Z → Z) (a : Z) (n : nat) : Z := for_up a n (λ j s, s + f j) 0.

(** [p] holds on the [n] integers from [lo]: exhaustive checks by computation. *)
Fixpoint check_range (p : Z → bool) (lo : Z) (n : nat) : bool :=
  match n with
  | O => true
  | Datatypes.S n' => p lo && check_range p (lo + 1) n'
  end.

(** * Sample-by-sample processing

    A filter that consumes one input item per iteration and threads its state:
    [run step st xs] is the loop over the buffer [xs]. *)

Fixpoint run {St In Out} (step : St → In → St * Out) (st : St) (xs : list In)
  : St * list Out :=
  match xs with
  | [] => (st, [])
  | x :: xs' =>
      let '(st1, y) := step st x in
      let '(st2, ys) := run step st1 xs' in
      (st2, y :: ys)
  end.

(** [x0 x1 x2 x3 ...] as [(x0, x1) (x2, x3) ...]; an odd last item is dropped. *)
Fixpoint pairs {A} (l : list A) : list (A * A) :=
  match l with
  | a :: b :: l' => (a, b) :: pairs l'
  | _ => []
  end.

(** ** Lemmas on arrays and loops *)

Lemma rd_nth l i : 0 ≤ i → l.[i] = nth (Z.to_nat i) l 0.
Proof. intros. unfold rd. by destruct (Z.ltb_spec i 0); [lia|]. Qed.

Lemma rd_lookup (l : list Z) i : 0 ≤ i < zlen l → l !! Z.to_nat i = Some (l.[i]).
Proof.
  intros. rewrite rd_nth by lia.
  destruct (l !! Z.to_nat i) as [x|] eqn:E.
  - by rewrite (nth_lookup_Some _ _ _ _ E).
  - apply lookup_ge_None in E. lia.
Qed.

Lemma rd_Forall (P : Z → Prop) l i : Forall P l → P 0 → P (l.[i]).
Proof.
  intros Hl H0. unfold rd. destruct (i <? 0); [done|].
  rewrite nth_lookup. destruct (l !! Z.to_nat i) as [x|] eqn:E; simpl; [|done].
  by eapply Forall_lookup_1.
Qed.

Lemma wr_length l i v : length (wr l i v) = length l.
Proof. unfold wr. destruct (i <? 0); [done|]. apply length_insert. Qed.

Lemma rd_wr_eq l i v : 0 ≤ i < zlen l → (wr l i v).[i] = v.
Proof.
  intros. unfold wr, rd. destruct (Z.ltb_spec i 0); [lia|].
  rewrite nth_lookup, list_lookup_insert_eq by lia. done.
Qed.

Lemma rd_wr_ne l i j v : i ≠ j → (wr l i v).[j] = l.[j].
Proof.
  intros. unfold wr, rd.
  destruct (Z.ltb_spec j 0), (Z.ltb_spec i 0); try done.
  rewrite !nth_lookup, list_lookup_insert_ne by lia. done.
Qed.

Lemma wr_Forall (P : Z → Prop) l i v : Forall P l → P v → Forall P (wr l i v).
Proof. intros. unfold wr. destruct (i <? 0); [done|]. by apply Forall_insert. Qed.

(** ** Blocks *)

Lemma slice_0 {A} (l : list A) off : slice l off 0 = [].
Proof. done. Qed.

Lemma slice_app {A} (l : list A) off n m :
  0 ≤ off → 0 ≤ n → 0 ≤ m → slice l off (n + m) = slice l off n ++ slice l (off + n) m.
Proof.
  intros. unfold slice. rewrite Z2Nat.inj_add, <- take_take_drop by lia.
  f_equal. f_equal. rewrite drop_drop. f_equal. lia.
Qed.

Lemma slice_length {A} (l : list A) off n :
  0 ≤ off → 0 ≤ n → off + n ≤ zlen l → length (slice l off n) = Z.to_nat n.
Proof. intros. unfold slice. rewrite length_take, length_drop. lia. Qed.

Lemma slice_all {A} (l : list A) n : zlen l ≤ n → slice l 0 n = l.
Proof. intros. unfold slice. rewrite drop_0. apply take_ge. lia. Qed.

Lemma take_slice {A} (l : list A) off n k :
  0 ≤ k ≤ n → take (Z.to_nat k) (slice l off n) = slice l off k.
Proof. intros. unfold slice. rewrite take_take. f_equal. lia. Qed.

Lemma drop_slice {A} (l : list A) off n k :
  0 ≤ off → 0 ≤ k ≤ n → drop (Z.to_nat k) (slice l off n) = slice l (off + k) (n - k).
Proof.
  intros. unfold slice. rewrite skipn_firstn_comm, drop_drop. f_equal; [lia|]. f_equal. lia.
Qed.

Lemma store_length {A} (l src : list A) off :
  0 ≤ off → off + zlen src ≤ zlen l → length (store l off src) = length l.
Proof. intros. unfold store. rewrite !length_app, length_take, length_drop. lia. Qed.

Lemma slice_store_same {A} (l src : list A) off n :
  0 ≤ off ≤ zlen l → n = zlen src → slice (store l off src) off n = src.
Proof.
  intros ? ->. unfold slice, store.
  rewrite drop_app_ge by (rewrite length_take; lia).
  rewrite length_take, drop_app_le by lia.
  replace (Z.to_nat off - Z.to_nat off `min` length l)%nat with 0%nat by lia.
  rewrite drop_0, Nat2Z.id. apply take_app_length.
Qed.

Lemma slice_store_before {A} (l src : list A) o off n :
  0 ≤ off → 0 ≤ n → off + n ≤ o → o ≤ zlen l →
  slice (store l o src) off n = slice l off n.
Proof.
  intros. unfold slice, store.
  rewrite drop_app_le by (rewrite length_take; lia).
  rewrite take_app_le by (rewrite length_drop, length_take; lia).
  rewrite <- (take_drop (Z.to_nat o) l) at 2.
  rewrite drop_app_le by (rewrite length_take; lia).
  rewrite take_app_le by (rewrite length_drop, length_take; lia). done.
Qed.

Lemma slice_store_after {A} (l src : list A) o off n :
  0 ≤ o → o + zlen src ≤ off → o ≤ zlen l →
  slice (store l o src) off n = slice l off n.
Proof.
  intros. unfold slice, store. f_equal.
  rewrite app_assoc, drop_app_ge by (rewrite length_app, length_take; lia).
  rewrite length_app, length_take, drop_drop. f_equal. lia.
Qed.

Lemma rd_slice (l : list Z) off n k :
  0 ≤ off → 0 ≤ k < n → (slice l off n).[k] = l.[off + k].
Proof.
  intros. unfold slice. rewrite !rd_nth by lia. rewrite !nth_lookup.
  rewrite lookup_take_lt by lia. rewrite lookup_drop. do 2 f_equal. lia.
Qed.

(** Two blocks with the same length and the same reads are equal. *)
Lemma list_rd_eq (l k : list Z) :
  length l = length k → (∀ i, 0 ≤ i < zlen l → l.[i] = k.[i]) → l = k.
Proof.
  intros HL H. apply list_eq. intros i. destruct (decide (i < length l)%nat).
  - specialize (H (Z.of_nat i) ltac:(lia)).
    pose proof (rd_lookup l (Z.of_nat i) ltac:(lia)) as E1.
    pose proof (rd_lookup k (Z.of_nat i) ltac:(lia)) as E2.
    rewrite Nat2Z.id in E1, E2. congruence.
  - rewrite !lookup_ge_None_2 by lia. done.
Qed.

Lemma slice_rd_eq (l k : list Z) o1 o2 n :
  0 ≤ o1 → 0 ≤ o2 → 0 ≤ n → o1 + n ≤ zlen l → o2 + n ≤ zlen k →
  (∀ i, 0 ≤ i < n → l.[o1 + i] = k.[o2 + i]) → slice l o1 n = slice k o2 n.
Proof.
  intros ????? H. apply list_rd_eq; [by rewrite !slice_length by lia|].
  rewrite slice_length by lia. intros i Hi. rewrite !rd_slice by lia. apply H. lia.
Qed.

Lemma rd_app_l (l k : list Z) i : i < zlen l → (l ++ k).[i] = l.[i].
Proof.
  intros. unfold rd. destruct (Z.ltb_spec i 0); [done|]. rewrite app_nth1 by lia. done.
Qed.
Lemma rd_app_r (l k : list Z) i : zlen l ≤ i → (l ++ k).[i] = k.[i - zlen l].
Proof.
  intros. unfold rd. destruct (Z.ltb_spec i 0), (Z.ltb_spec (i - zlen l) 0); try lia.
  rewrite app_nth2 by lia. f_equal. lia.
Qed.

(** Reads after [memcpy]. *)
Lemma rd_store (l src : list Z) off i :
  0 ≤ off → off + zlen src ≤ zlen l →
  (store l off src).[i] = if (off <=? i) && (i <? off + zlen src) then src.[i - off] else l.[i].
Proof.
  intros. unfold store.
  destruct (Z.leb_spec off i); simpl.
  - rewrite rd_app_r by (rewrite length_take; lia). rewrite length_take.
    replace (i - Z.of_nat (Z.to_nat off `min` length l)) with (i - off) by lia.
    destruct (Z.ltb_spec i (off + zlen src)).
    + by rewrite rd_app_l by lia.
    + rewrite rd_app_r by lia. rewrite !rd_nth by lia. rewrite !nth_lookup, lookup_drop.
      do 2 f_equal. lia.
  - destruct (Z.ltb_spec i 0); [unfold rd; destruct (Z.ltb_spec i 0); [done|lia]|].
    rewrite rd_app_l by (rewrite length_take; lia).
    rewrite !rd_nth by lia. rewrite !nth_lookup, lookup_take_lt by lia. done.
Qed.

(** Loop rule: an invariant indexed by the counter. *)
Lemma for_up_inv {S} (P : Z → S → Prop) a n (body : Z → S → S) s :
  P a s →
  (∀ i s', a ≤ i < a + Z.of_nat n → P i s' → P (i + 1) (body i s')) →
  P (a + Z.of_nat n) (for_up a n body s).
Proof.
  revert a s. induction n as [|n IH]; intros a s H0 Hs; simpl.
  - by rewrite Z.add_0_r.
  - replace (a + Z.of_nat (Datatypes.S n)) with (a + 1 + Z.of_nat n) by lia.
    apply IH; [apply Hs; [lia|done]|]. intros i s' Hi. apply Hs. lia.
Qed.

Lemma for_up_ext {S} a n (f g : Z → S → S) s :
  (∀ i s', a ≤ i < a + Z.of_nat n → f i s' = g i s') →
  for_up a n f s = for_up a n g s.
Proof.
  revert a s. induction n as [|n IH]; intros a s H; simpl; [done|].
  rewrite H by lia. apply IH. intros. apply H. lia.
Qed.

Lemma for_up_S_r {S} a n (body : Z → S → S) s :
  for_up a (Datatypes.S n) body s = body (a + Z.of_nat n) (for_up a n body s).
Proof.
  revert a s. induction n as [|n IH]; intros a s; [simpl; f_equal; lia|].
  change (for_up a (Datatypes.S (Datatypes.S n)) body s)
    with (for_up (a + 1) (Datatypes.S n) body (body a s)).
  rewrite IH. simpl. f_equal. lia.
Qed.

Lemma for_up_app {S} a n m (body : Z → S → S) s :
  for_up a (n + m) body s = for_up (a + Z.of_nat n) m body (for_up a n body s).
Proof.
  revert a s. induction n as [|n IH]; intros a s; simpl; [by rewrite Z.add_0_r|].
  rewrite IH. f_equal. lia.
Qed.

(** ** Sums *)

Lemma for_up_add (f : Z → Z) a n s0 :
  for_up a n (λ j s, s + f j) s0 = s0 + sumf f a n.
Proof.
  unfold sumf. revert a s0. induction n as [|n IH]; intros a s0; simpl; [lia|].
  rewrite IH, (IH (a + 1) (0 + f a)). lia.
Qed.

Lemma sumf_S f a n : sumf f a (Datatypes.S n) = f a + sumf f (a + 1) n.
Proof. unfold sumf at 1. simpl. rewrite for_up_add. lia. Qed.

Lemma sumf_app f a n m : sumf f a (n + m) = sumf f a n + sumf f (a + Z.of_nat n) m.
Proof.
  revert a. induction n as [|n IH]; intros a; simpl.
  - rewrite Z.add_0_r. unfold sumf at 2. simpl. lia.
  - rewrite !sumf_S, IH. replace (a + Z.of_nat (Datatypes.S n)) with (a + 1 + Z.of_nat n) by lia. lia.
Qed.

Lemma sumf_bound f a n B :
  (∀ j, a ≤ j < a + Z.of_nat n → Z.abs (f j) ≤ B) → Z.abs (sumf f a n) ≤ Z.of_nat n * B.
Proof.
  revert a. induction n as [|n IH]; intros a H; [unfold sumf; simpl; lia|].
  rewrite sumf_S. specialize (IH (a + 1) ltac:(intros; apply H; lia)).
  specialize (H a ltac:(lia)). lia.
Qed.

(** A 32-bit accumulation of bounded terms is exact when the bounds leave room. *)
Lemma accum32 f a n s0 B :
  (∀ j, a ≤ j < a + Z.of_nat n → Z.abs (f j) ≤ B) →
  Z.abs s0 + Z.of_nat n * B ≤ INT32_MAX →
  for_up a n (λ j s, s ⊞ f j) s0 = s0 + sumf f a n.
Proof.
  revert a s0. induction n as [|n IH]; intros a s0 H Hs; simpl; [unfold sumf; simpl; lia|].
  pose proof (H a ltac:(lia)) as Ha. rewrite sumf_S, add32_id by (unfold_ints; nia).
  rewrite IH; [lia|intros; apply H; lia|lia].
Qed.

(** The same with a bound for each term. *)
Lemma accum32_weighted f w a n s0 :
  (∀ j, a ≤ j < a + Z.of_nat n → Z.abs (f j) ≤ w j) →
  Z.abs s0 + sumf w a n ≤ INT32_MAX →
  for_up a n (λ j s, s ⊞ f j) s0 = s0 + sumf f a n ∧ Z.abs (sumf f a n) ≤ sumf w a n.
Proof.
  revert a s0. induction n as [|n IH]; intros a s0 H Hs; simpl; [unfold sumf; simpl; lia|].
  pose proof (H a ltac:(lia)) as Ha. rewrite sumf_S in Hs |- *. rewrite sumf_S.
  assert (0 ≤ sumf w (a + 1) n).
  { assert (∀ j, a + 1 ≤ j < a + 1 + Z.of_nat n → 0 ≤ w j) as Hw
      by (intros j Hj; pose proof (H j ltac:(lia)); lia).
    clear - Hw. revert Hw. generalize (a + 1). induction n as [|n IH]; intros b Hw; [done|].
    rewrite sumf_S. pose proof (Hw b ltac:(lia)). specialize (IH (b + 1) ltac:(intros; apply Hw; lia)). lia. }
  rewrite add32_id by (unfold_ints; lia).
  destruct (IH (a + 1) (s0 + f a)) as [-> HB]; [intros; apply H; lia|lia|lia].
Qed.

Lemma accum32_list {A} (f : A → Z) l s0 B :
  Forall (λ x, Z.abs (f x) ≤ B) l → Z.abs s0 + zlen l * B ≤ INT32_MAX →
  foldl (λ s x, s ⊞ f x) s0 l = s0 + foldr (λ x s, f x + s) 0 l ∧
  Z.abs (foldr (λ x s, f x + s) 0 l) ≤ zlen l * B.
Proof.
  intros H. revert s0. induction H as [|x l Hx Hl IH]; intros s0 Hs; simpl in *; [lia|].
  destruct (IH (s0 + f x) ltac:(lia)) as [IH1 IH2].
  rewrite add32_id by (unfold_ints; nia). rewrite IH1. lia.
Qed.

Lemma check_range_spec (p : Z → bool) lo n k :
  check_range p lo n = true → lo ≤ k < lo + Z.of_nat n → p k = true.
Proof.
  revert lo. induction n as [|n IH]; intros lo H Hk; simpl in H; [lia|].
  apply andb_prop in H as [H1 H2]. destruct (Z.eq_dec k lo) as [->|]; [done|].
  apply (IH (lo + 1)); [done|lia].
Qed.

Lemma check_range_dec (P : Z → Prop) `{!∀ x, Decision (P x)} lo n k :
  check_range (λ x, bool_decide (P x)) lo n = true → lo ≤ k < lo + Z.of_nat n → P k.
Proof.
  intros Hc Hk. apply (bool_decide_eq_true_1 (P k)). exact (check_range_spec _ lo n k Hc Hk).
Qed.

(** ** Lemmas on [run] *)

Section run.
Context {St In Out : Type} (step : St → In → St * Out).

Lemma run_app st xs ys :
  run step st (xs ++ ys) =
    let '(st1, o1) := run step st xs in
    let '(st2, o2) := run step st1 ys in (st2, o1 ++ o2).
Proof.
  revert st. induction xs as [|x xs IH]; intros st; simpl.
  - by destruct (run step st ys).
  - destruct (step st x) as [st1 y]. rewrite IH.
    destruct (run step st1 xs) as [st2 o1]. by destruct (run step st2 ys).
Qed.

Lemma run_cons st x xs st1 y :
  step st x = (st1, y) → run step st (x :: xs) = ((run step st1 xs).1, y :: (run step st1 xs).2).
Proof. intros E. simpl. rewrite E. by destruct (run step st1 xs). Qed.

Lemma run_length st xs : length (run step st xs).2 = length xs.
Proof.
  revert st. induction xs as [|x xs IH]; intros st; simpl; [done|].
  destruct (step st x) as [st1 y]. specialize (IH st1).
  destruct (run step st1 xs). simpl in *. lia.
Qed.

(** A state invariant kept by every step, and what it gives for the outputs. *)
Lemma run_inv (I : St → Prop) (P : In → Prop) (Q : Out → Prop) st xs :
  (∀ s x, I s → P x → I (step s x).1 ∧ Q (step s x).2) →
  I st → Forall P xs → I (run step st xs).1 ∧ Forall Q (run step st xs).2.
Proof.
  intros Hstep. revert st. induction xs as [|x xs IH]; intros st Hst Hxs; simpl.
  - by split; [|constructor].
  - apply Forall_cons_1 in Hxs as [Hx Hxs]. destruct (Hstep st x Hst Hx) as [H1 H2].
    destruct (step st x) as [st1 y]. destruct (IH st1 H1 Hxs) as [H3 H4].
    destruct (run step st1 xs) as [st2 ys]. simpl in *. split; [done|].
    by constructor.
Qed.

(** Two step functions that agree on the states an invariant allows. *)
Lemma run_ext_inv (step' : St → In → St * Out) (I : St → Prop) (P : In → Prop) st xs :
  (∀ s x, I s → P x → step s x = step' s x ∧ I (step s x).1) →
  I st → Forall P xs → run step st xs = run step' st xs.
Proof.
  intros Hstep. revert st. induction xs as [|x xs IH]; intros st Hst Hxs; simpl; [done|].
  apply Forall_cons_1 in Hxs as [Hx Hxs]. destruct (Hstep st x Hst Hx) as [H1 H2].
  rewrite <- H1. destruct (step st x) as [st1 y]. by rewrite IH.
Qed.
End run.

(** Induction two items at a time. *)
Lemma list_pair_ind {A} (P : list A → Prop) :
  P [] → (∀ a, P [a]) → (∀ a b l, P l → P (a :: b :: l)) → ∀ l, P l.
Proof.
  intros H0 H1 H2. fix IH 1. intros [|a [|b l]]; [done|apply H1|].
  apply H2, IH.
Qed.

Lemma pairs_Forall (P : Z → Prop) l :
  Forall P l → Forall (λ p, P p.1 ∧ P p.2) (pairs l).
Proof.
  induction l as [|a|a b l IH] using list_pair_ind; simpl; intros H; [constructor..|].
  apply Forall_cons_1 in H as [Ha H]. apply Forall_cons_1 in H as [Hb H].
  constructor; [done|by apply IH].
Qed.

Lemma pairs_length {A} (l : list A) : length (pairs l) = Nat.div2 (length l).
Proof. induction l as [|a|a b l IH] using list_pair_ind; simpl; by rewrite ?IH. Qed.

Lemma pairs_app {A} (l k : list A) :
  Nat.Even (length l) → pairs (l ++ k) = pairs l ++ pairs k.
Proof.
  induction l as [|a|a b l IH] using list_pair_ind; simpl; intros [m Hm]; [done|lia|].
  rewrite IH; [done|]. exists (m - 1)%nat. lia.
Qed.

(** ** Loops that fill an array *)

(** [for (i = 0; i < n; i++) dst[i] = f(i);] *)
Definition fill (n : Z) (f : Z → Z) (dst : list Z) : list Z :=
  for_up 0 (Z.to_nat n) (λ i dst, wr dst i (f i)) dst.

Lemma wr_next (ys dst : list Z) k v :
  zlen ys = k → k < zlen dst →
  wr (ys ++ drop (Z.to_nat k) dst) k v = (ys ++ [v]) ++ drop (Z.to_nat (k + 1)) dst.
Proof.
  intros Hk Hd. unfold wr. destruct (Z.ltb_spec k 0); [lia|].
  rewrite insert_app_r_alt by lia. replace (Z.to_nat k - length ys)%nat with 0%nat by lia.
  destruct (drop (Z.to_nat k) dst) as [|z t] eqn:E.
  { apply (f_equal length) in E. rewrite length_drop in E. simpl in E. lia. }
  rewrite <- app_assoc. simpl. do 2 f_equal.
  replace (Z.to_nat (k + 1)) with (Z.to_nat k + 1)%nat by lia.
  by rewrite <- drop_drop, E.
Qed.

Lemma fill_spec n f dst :
  0 ≤ n ≤ zlen dst → fill n f dst = (f <$> seqZ 0 n) ++ drop (Z.to_nat n) dst.
Proof.
  intros Hn. unfold fill.
  pose proof (for_up_inv (λ k d, d = (f <$> seqZ 0 k) ++ drop (Z.to_nat k) dst) 0 (Z.to_nat n)
    (λ i d, wr d i (f i)) dst) as H.
  rewrite Z2Nat.id, Z.add_0_l in H by lia. apply H; [done|]. clear H.
  intros i d Hi ->. rewrite wr_next by (rewrite ?length_fmap, ?length_seqZ; lia).
  f_equal. replace (i + 1) with (Z.of_nat (S (Z.to_nat i))) by lia.
  by rewrite seqZ_S, fmap_app, Z2Nat.id, Z.add_0_l by lia.
Qed.

Lemma take_rd (l : list Z) k :
  0 ≤ k < zlen l → take (Z.to_nat (k + 1)) l = take (Z.to_nat k) l ++ [l.[k]].
Proof.
  intros. replace (Z.to_nat (k + 1)) with (S (Z.to_nat k)) by lia.
  by apply take_S_r, rd_lookup.
Qed.

Lemma rd_snoc (l : list Z) x i : i = zlen l → (l ++ [x]).[i] = x.
Proof. intros ->. by rewrite rd_app_r, Z.sub_diag by lia. Qed.

Lemma rd_prev (l k : list Z) i : 0 < i → zlen l = i → (l ++ k).[i - 1] = l.[i - 1].
Proof. intros. apply rd_app_l. lia. Qed.

Lemma rd_take (l : list Z) n i : i < n → (take (Z.to_nat n) l).[i] = l.[i].
Proof.
  intros. unfold rd. destruct (Z.ltb_spec i 0); [done|].
  rewrite !nth_lookup, lookup_take_lt by lia. done.
Qed.

Lemma take_prefix (ys l : list Z) n : zlen ys = n → take (Z.to_nat n) (ys ++ l) = ys.
Proof. intros. rewrite take_app_le by lia. apply take_ge. lia. Qed.

Lemma drop_prefix (ys l : list Z) n :
  zlen ys = n → drop (Z.to_nat n) (ys ++ l) = l.
Proof. intros. rewrite drop_app_ge by lia. by replace (Z.to_nat n - length ys)%nat with 0%nat by lia. Qed.

Lemma fmap_zip_with' {A B C D} (p : C → D) (f : A → B → C) l k :
  p <$> zip_with f l k = zip_with (λ x y, p (f x y)) l k.
Proof. revert k. induction l as [|x l IH]; intros [|y k]; [done..|]. simpl. by rewrite IH. Qed.

Lemma zip_with_ext_Forall {A B C} (P : A → Prop) (Q : B → Prop) (f g : A → B → C) l k :
  (∀ x y, P x → Q y → f x y = g x y) → Forall P l → Forall Q k →
  zip_with f l k = zip_with g l k.
Proof.
  intros H Hl. revert k. induction Hl as [|x l Hx Hl IH]; intros [|y k] Hk; [done..|].
  apply Forall_cons_1 in Hk as [? ?]. simpl. rewrite H, IH by done. done.
Qed.

Lemma fmap_seqZ_S {A} (f : Z → A) n :
  0 ≤ n → f <$> seqZ 0 (n + 1) = f 0 :: ((λ i, f (1 + i)) <$> seqZ 0 n).
Proof.
  intros. rewrite seqZ_cons by lia. simpl. f_equal.
  rewrite <- (fmap_add_seqZ 1 0), <- list_fmap_compose. do 2 f_equal. lia.
Qed.

(** A loop that reads two samples per turn, and one that reads a sample of each array. *)
Lemma seqZ_pairs {A} (g : Z → Z → A) (l : list Z) n :
  zlen l = 2 * n →
  ((λ i, g (l.[2 * i]) (l.[2 * i + 1])) <$> seqZ 0 n) = (λ p, g p.1 p.2) <$> pairs l.
Proof.
  revert n. induction l as [|a|a b l IH] using list_pair_ind; intros n Hn; simpl in Hn.
  - by replace n with 0 by lia.
  - lia.
  - replace n with ((n - 1) + 1) by lia. rewrite fmap_seqZ_S by lia. apply (f_equal2 cons); [done|].
    etransitivity; [|apply (IH (n - 1)); lia]. apply list_fmap_ext. intros i x Hx.
    apply lookup_seqZ in Hx. change (a :: b :: l) with ([a; b] ++ l).
    f_equal; (rewrite rd_app_r by (simpl; lia); f_equal; simpl; lia).
Qed.

Lemma seqZ_zip {A} (c : Z → Z → A) (l k : list Z) n :
  zlen l = n → zlen k = n → ((λ i, c (l.[i]) (k.[i])) <$> seqZ 0 n) = zip_with c l k.
Proof.
  revert k n. induction l as [|x l IH]; intros k n Hl Hk; destruct k as [|y k]; simpl in *; try lia.
  - by replace n with 0 by lia.
  - replace n with ((n - 1) + 1) by lia. rewrite fmap_seqZ_S by lia. apply (f_equal2 cons); [done|].
    etransitivity; [|apply (IH k (n - 1)); lia]. apply list_fmap_ext. intros i z Hz.
    apply lookup_seqZ in Hz. change (x :: l) with ([x] ++ l). change (y :: k) with ([y] ++ k).
    f_equal; (rewrite rd_app_r by (simpl; lia); f_equal; simpl; lia).
Qed.

Lemma flat_pairs_length (l : list (Z * Z)) : zlen (flat_map (λ p, [p.1; p.2]) l) = 2 * zlen l.
Proof. induction l as [|x l IH]; [done|]. simpl. lia. Qed.

(** A loop that stores two items per turn. *)
Lemma fill_pairs n (f g : Z → Z) dst :
  0 ≤ n → 2 * n ≤ zlen dst →
  for_up 0 (Z.to_nat n) (λ i d, wr (wr d (2 * i) (f i)) (2 * i + 1) (g i)) dst =
    flat_map (λ p, [p.1; p.2]) ((λ i, (f i, g i)) <$> seqZ 0 n) ++ drop (Z.to_nat (2 * n)) dst.
Proof.
  intros Hn Hd.
  pose proof (for_up_inv (λ k d, d = flat_map (λ p, [p.1; p.2]) ((λ i, (f i, g i)) <$> seqZ 0 k)
    ++ drop (Z.to_nat (2 * k)) dst) 0 (Z.to_nat n)
    (λ i d, wr (wr d (2 * i) (f i)) (2 * i + 1) (g i)) dst) as H.
  rewrite Z2Nat.id, Z.add_0_l in H by lia. apply H; [done|]. clear H.
  intros i d Hi ->. set (l := (λ i, (f i, g i)) <$> seqZ 0 i).
  assert (zlen (flat_map (λ p, [p.1; p.2]) l) = 2 * i) as HL.
  { rewrite flat_pairs_length. unfold l. rewrite length_fmap, length_seqZ. lia. }
  rewrite wr_next by lia. rewrite wr_next by (rewrite ?length_app; simpl; lia).
  replace (2 * i + 1 + 1) with (2 * (i + 1)) by lia. f_equal.
  replace (i + 1) with (Z.of_nat (S (Z.to_nat i))) by lia.
  rewrite seqZ_S, fmap_app, Z2Nat.id, Z.add_0_l by lia. fold l.
  rewrite flat_map_app, <- app_assoc. done.
Qed.

(** A loop that reads one item per turn. *)
Lemma seqZ_map {A} (f : Z → A) (l : list Z) n :
  zlen l = n → ((λ i, f (l.[i])) <$> seqZ 0 n) = f <$> l.
Proof.
  intros Hl. rewrite (seqZ_zip (λ x _, f x) l l n Hl Hl). clear.
  induction l as [|x l IH]; [done|]. simpl. by rewrite IH.
Qed.

Lemma seqZ_pairs_prefix {A} (g : Z → Z → A) (l k : list Z) n :
  zlen l = 2 * n →
  ((λ i, g ((l ++ k).[2 * i]) ((l ++ k).[2 * i + 1])) <$> seqZ 0 n) = (λ p, g p.1 p.2) <$> pairs l.
Proof.
  intros Hl. rewrite <- (seqZ_pairs g l n Hl). apply list_fmap_ext. intros i z Hz.
  apply lookup_seqZ in Hz. by rewrite !rd_app_l by lia.
Qed.

Lemma pairs_flat {A} (l : list (A * A)) : pairs (flat_map (λ p, [p.1; p.2]) l) = l.
Proof. induction l as [|[a b] l IH]; [done|]. simpl. by rewrite IH. Qed.

(** ** Prefixes, slices and clamps *)

Lemma drop_rd (l : list Z) i :
  0 ≤ i < zlen l → drop (Z.to_nat i) l = l.[i] :: drop (Z.to_nat (i + 1)) l.
Proof.
  intros Hi. replace (Z.to_nat (i + 1)) with (S (Z.to_nat i)) by lia.
  apply drop_S, rd_lookup. lia.
Qed.

Lemma drop_wr (l : list Z) i n v : 0 ≤ i < n → drop (Z.to_nat n) (wr l i v) = drop (Z.to_nat n) l.
Proof.
  intros Hi. unfold wr. destruct (Z.ltb_spec i 0); [lia|]. apply drop_insert_lt. lia.
Qed.

Lemma store_next (ys D src : list Z) k :
  zlen ys = k → k + zlen src ≤ zlen D →
  store (ys ++ drop (Z.to_nat k) D) k src = (ys ++ src) ++ drop (Z.to_nat (k + zlen src)) D.
Proof.
  intros Hk HD. unfold store. rewrite take_prefix by done. rewrite <- app_assoc. do 2 f_equal.
  rewrite drop_app_ge by lia. rewrite drop_drop. f_equal. lia.
Qed.

Lemma slice_cons (l : list Z) i n :
  0 ≤ i → 0 < n → i + n ≤ zlen l → slice l i n = l.[i] :: slice l (i + 1) (n - 1).
Proof.
  intros Hi Hn HL. unfold slice. rewrite drop_rd by lia.
  by replace (Z.to_nat n) with (S (Z.to_nat (n - 1))) by lia.
Qed.

Lemma for_up_pair {A B} (f : Z → A → A) (g : Z → B → B) a n x y :
  for_up a n (λ i '(u, v), (f i u, g i v)) (x, y) = (for_up a n f x, for_up a n g y).
Proof. revert a x y. induction n as [|n IH]; intros a x y; [done|]. cbn [for_up]. apply IH. Qed.

Lemma clamp_ifs lo hi x : lo ≤ hi →
  (if x >? hi then hi else if x <? lo then lo else x) = clamp lo hi x.
Proof.
  intros. rewrite Z.gtb_ltb. unfold clamp. destruct (Z.ltb_spec hi x), (Z.ltb_spec x lo); lia.
Qed.

Lemma table_bound (t : list Z) i B : Forall (λ v, Z.abs v ≤ B) t → 0 ≤ B → Z.abs (t.[i]) ≤ B.
Proof. intros. by apply (rd_Forall (λ v, Z.abs v ≤ B)). Qed.

(** ** Stores, and disjoint bits *)

Lemma zlen_app {A} (l k : list A) : zlen (l ++ k) = zlen l + zlen k.
Proof. rewrite length_app. lia. Qed.

Lemma store_cons (l src : list Z) off c : 0 ≤ off → off + 1 + zlen src ≤ zlen l →
  store l off (c :: src) = store (wr l off c) (off + 1) src.
Proof.
  intros Ho Hl. apply list_rd_eq.
  - rewrite !store_length, wr_length by (rewrite ?wr_length; simpl length; lia). done.
  - rewrite store_length by (simpl length; lia). intros i Hi.
    rewrite !rd_store by (rewrite ?wr_length; simpl length; lia). simpl length.
    destruct (decide (i = off)) as [->|].
    + rewrite rd_wr_eq, Z.sub_diag by lia. destruct_cmp; try lia; done.
    + rewrite rd_wr_ne by done. destruct_cmp; try lia; try done.
      change (c :: src) with ([c] ++ src). rewrite rd_app_r by (simpl length; lia). f_equal. simpl length. lia.
Qed.

Lemma store_1 (l : list Z) off c : 0 ≤ off < zlen l → store l off [c] = wr l off c.
Proof.
  intros Ho. rewrite store_cons by (simpl length; lia). unfold store. simpl.
  by rewrite Nat.add_0_r, take_drop.
Qed.

Lemma store_Forall (P : Z → Prop) l off src :
  Forall P l → Forall P src → Forall P (store l off src).
Proof.
  intros Hl Hs. unfold store. apply Forall_app_2; [by apply Forall_take|].
  apply Forall_app_2; [done|by apply Forall_drop].
Qed.

Lemma lor_shiftl_disjoint v x n : 0 ≤ n → 0 ≤ v < 2 ^ n → Z.lor v (x ≪ n) = v + x * 2 ^ n.
Proof.
  intros Hn Hv. rewrite <-(Z.shiftl_mul_pow2 x n Hn), <-Z.lxor_lor, Z.add_nocarry_lxor; try done;
    apply Z.bits_inj'; intros i Hi; rewrite Z.land_spec, Z.testbit_0_l, Z.shiftl_spec by done;
    (destruct (Z.ltb_spec i n); [by rewrite (Z.testbit_neg_r x), andb_false_r by lia|]);
    by rewrite <-(Z.mod_small v (2 ^ n)), Z.mod_pow2_bits_high by lia.
Qed.

(** ** Loops that write each element once *)

(** A loop that replaces the elements at distinct positions, each as a function of itself. *)
Lemma for_wr_rd (idx : Z → Z) (f : Z → Z → Z) n (l : list Z) :
  (∀ i, 0 ≤ i < Z.of_nat n → 0 ≤ idx i < zlen l) →
  (∀ i j, 0 ≤ i < Z.of_nat n → 0 ≤ j < Z.of_nat n → idx i = idx j → i = j) →
  let r := for_up 0 n (λ i m, wr m (idx i) (f i (m.[idx i]))) l in
  length r = length l ∧
  (∀ i, 0 ≤ i < Z.of_nat n → r.[idx i] = f i (l.[idx i])) ∧
  (∀ k, (∀ i, 0 ≤ i < Z.of_nat n → k ≠ idx i) → r.[k] = l.[k]).
Proof.
  intros Hin Hinj r.
  apply (for_up_inv (λ c r, length r = length l ∧
    (∀ i, 0 ≤ i < c → r.[idx i] = f i (l.[idx i])) ∧
    (∀ k, (∀ i, 0 ≤ i < c → k ≠ idx i) → r.[k] = l.[k])) 0 n
    (λ i m, wr m (idx i) (f i (m.[idx i]))) l).
  { split; [done|]. split; [lia|done]. }
  intros c m Hc (Hl & Hw & Ho). rewrite wr_length. split; [done|]. split.
  - intros i Hi. destruct (Z.eq_dec i c) as [->|].
    + rewrite rd_wr_eq by (rewrite Hl; apply Hin; lia). f_equal. apply Ho.
      intros j Hj He. apply Hinj in He; lia.
    + rewrite rd_wr_ne by (intros He; apply Hinj in He; lia). apply Hw. lia.
  - intros k Hk. rewrite rd_wr_ne by (intros He; symmetry in He; revert He; apply Hk; lia).
    apply Ho. intros i Hi. apply Hk. lia.
Qed.

Lemma row_index_inj W i j i' j' :
  0 ≤ j < W → 0 ≤ j' < W → i * W + j = i' * W + j' → i = i' ∧ j = j'.
Proof. intros Hj Hj' He. assert (i = i') by nia. subst. lia. Qed.

(** A loop over rows of stride [W] that sets the first [w] elements of each. *)
Lemma for_rows_rd (g : Z → Z → Z) p W w m (l : list Z) :
  0 ≤ p → 0 ≤ m → 0 ≤ w ≤ W → p + m * W ≤ zlen l →
  let r := for_up 0 (Z.to_nat m) (λ i a,
             for_up 0 (Z.to_nat w) (λ j a, wr a (p + (i * W + j)) (g i j)) a) l in
  length r = length l ∧
  (∀ i j, 0 ≤ i < m → 0 ≤ j < w → r.[p + (i * W + j)] = g i j) ∧
  (∀ k, (∀ i j, 0 ≤ i < m → 0 ≤ j < w → k ≠ p + (i * W + j)) → r.[k] = l.[k]).
Proof.
  intros Hp Hm Hw Hl r. subst r.
  pose (body := λ (i : Z) (a : list Z),
    for_up 0 (Z.to_nat w) (λ j a, wr a (p + (i * W + j)) (g i j)) a).
  change (for_up 0 (Z.to_nat m) _ l) with (for_up 0 (Z.to_nat m) body l).
  assert (∀ i a, 0 ≤ i < m → length a = length l → length (body i a) = length a ∧
    (∀ j, 0 ≤ j < w → (body i a).[p + (i * W + j)] = g i j) ∧
    (∀ k, (∀ j, 0 ≤ j < w → k ≠ p + (i * W + j)) → (body i a).[k] = a.[k])) as Hrow.
  { intros i a Hi Ha.
    pose proof (for_wr_rd (λ j, p + (i * W + j)) (λ j _, g i j) (Z.to_nat w) a) as H.
    rewrite !Z2Nat.id in H by lia. apply H; [intros; nia|lia]. }
  assert (H := for_up_inv (λ c r, length r = length l ∧
    (∀ i j, 0 ≤ i < c → 0 ≤ j < w → r.[p + (i * W + j)] = g i j) ∧
    (∀ k, (∀ i j, 0 ≤ i < c → 0 ≤ j < w → k ≠ p + (i * W + j)) → r.[k] = l.[k]))
    0 (Z.to_nat m) body l).
  rewrite Z.add_0_l, Z2Nat.id in H by lia. apply H; [split; [done|split; [lia|done]]|].
  intros c a Hc (Ha & Hset & Hold). destruct (Hrow c a ltac:(lia) Ha) as (R1 & R2 & R3).
  split; [congruence|]. split.
  - intros i j Hi Hj. destruct (Z.eq_dec i c) as [->|]; [by apply R2|].
    rewrite R3; [apply Hset; lia|]. intros j' Hj' He.
    destruct (row_index_inj W i j c j'); lia.
  - intros k Hk. rewrite R3 by (intros; apply Hk; lia). apply Hold. intros. apply Hk; lia.
Qed.

Lemma rd_replicate_0 n i : (replicate n 0).[i] = 0.
Proof.
  unfold rd. destruct (i <? 0); [done|]. rewrite nth_lookup.
  destruct (replicate n 0 !! Z.to_nat i) eqn:E; [|done].
  apply lookup_replicate in E as [-> _]. done.
Qed.
