(* ===== verification/SplInl.v ===== *)
(** The inline helpers of the fixed-point library
    (src/source_code/common_audio/signal_processing/include/spl_inl.h and
    spl_inl.c): counting leading zeros, normalisation shifts, and saturating
    arithmetic.  The theorems show that the table-driven leading-zero count agrees
    with the compiler builtin on every word, that the normalisation shift is the
    largest one that does not overflow, and that the saturating operations clamp the
    exact result. *)
From S2P Require Import Prelude.

(** * Definitions *)

Definition kWebRtcSpl_CountLeadingZeros32_Table : list Z :=
  [32; 8; 17; -1; -1; 14; -1; -1; -1; 20; -1; -1; -1; 28; -1; 18;
   -1; -1; -1; -1; -1; -1; -1; -1; -1; -1; -1; -1; 0; 26; 25; 24;
   4; 11; 23; 31; 3; 7; 10; 16; 22; 30; -1; -1; 2; 6; 13; 9;
   -1; 15; -1; 21; -1; 29; 19; -1; -1; -1; -1; -1; 1; 27; 5; 12].

(** The read of the table is the only one whose index is computed: [None] is a read
    outside the table. *)
Definition WebRtcSpl_CountLeadingZeros32_NotBuiltin (n : Z) : option Z :=
  let n := Z.lor n (n ≫ 1) in
  let n := Z.lor n (n ≫ 2) in
  let n := Z.lor n (n ≫ 4) in
  let n := Z.lor n (n ≫ 8) in
  let n := Z.lor n (n ≫ 16) in
  kWebRtcSpl_CountLeadingZeros32_Table !! Z.to_nat (u32 (n * 0x8c0b2891) ≫ 26).

Definition WebRtcSpl_CountLeadingZeros64_NotBuiltin (n : Z) : option Z :=
  let leading_zeros := if n ≫ 32 =? 0 then 32 else 0 in
  c ← WebRtcSpl_CountLeadingZeros32_NotBuiltin (u32 (n ≫ (32 - leading_zeros)));
  Some (leading_zeros + c).

(** The compiler builtins [__builtin_clz] and [__builtin_clzll], defined for a
    non-zero argument only. *)
Definition builtin_clz (n : Z) : Z := 31 - Z.log2 n.
Definition builtin_clzll (n : Z) : Z := 63 - Z.log2 n.

Definition WebRtcSpl_CountLeadingZeros32 (n : Z) : Z :=
  if n =? 0 then 32 else builtin_clz n.

Definition WebRtcSpl_CountLeadingZeros64 (n : Z) : Z :=
  if n =? 0 then 64 else builtin_clzll n.

Definition WebRtcSpl_SatW32ToW16 (value32 : Z) : Z :=
  let out16 := s16 value32 in
  if value32 >? 32767 then 32767
  else if value32 <? -32768 then -32768
  else out16.

Definition WebRtcSpl_AddSatW32 (a b : Z) : Z :=
  let sum := s32 (u32 (u32 a + u32 b)) in
  if eqb (a <? 0) (b <? 0) && negb (eqb (a <? 0) (sum <? 0))
  then if sum <? 0 then INT32_MAX else INT32_MIN
  else sum.

Definition WebRtcSpl_SubSatW32 (a b : Z) : Z :=
  let diff := s32 (u32 (u32 a - u32 b)) in
  if negb (eqb (a <? 0) (b <? 0)) && negb (eqb (a <? 0) (diff <? 0))
  then if diff <? 0 then INT32_MAX else INT32_MIN
  else diff.

Definition WebRtcSpl_AddSatW16 (a b : Z) : Z := WebRtcSpl_SatW32ToW16 (a + b).

Definition WebRtcSpl_SubSatW16 (var1 var2 : Z) : Z :=
  WebRtcSpl_SatW32ToW16 (var1 - var2).

Definition WebRtcSpl_GetSizeInBits (n : Z) : Z :=
  s16 (32 - WebRtcSpl_CountLeadingZeros32 n).

Definition WebRtcSpl_NormW32 (a : Z) : Z :=
  if a =? 0 then 0
  else s16 (WebRtcSpl_CountLeadingZeros32 (u32 (if a <? 0 then Z.lnot a else a)) - 1).

Definition WebRtcSpl_NormU32 (a : Z) : Z :=
  if a =? 0 then 0 else s16 (WebRtcSpl_CountLeadingZeros32 a).

Definition WebRtcSpl_NormW16 (a : Z) : Z :=
  let a32 := a in
  if a =? 0 then 0
  else s16 (WebRtcSpl_CountLeadingZeros32 (u32 (if a <? 0 then Z.lnot a32 else a32)) - 17).

Definition WebRtc_MulAccumW16 (a b c : Z) : Z := (a * b) ⊞ c.

(** * Bit smearing *)

(** Bit [k] is the top bit of [n], and the [j] bits from [k] down are set. *)
Definition smeared (k j n : Z) : Prop :=
  (∀ i, k < i → Z.testbit n i = false) ∧
  (∀ i, 0 ≤ i → k - j < i ≤ k → Z.testbit n i = true).

Lemma smeared_init n : 0 < n → smeared (Z.log2 n) 1 n.
Proof.
  intros Hn. split; intros i Hi.
  - apply Z.bits_above_log2; lia.
  - intros. replace i with (Z.log2 n) by lia. by apply Z.bit_log2.
Qed.

Lemma smeared_step k j n :
  0 ≤ k → 0 < j → smeared k j n → smeared k (2 * j) (Z.lor n (n ≫ j)).
Proof.
  intros Hk Hj [Hhi Hlo]. split; intros i Hi.
  - rewrite Z.lor_spec, Z.shiftr_spec, !Hhi by lia. done.
  - intros. rewrite Z.lor_spec, Z.shiftr_spec by lia.
    destruct (Z.lt_ge_cases (k - j) i); [rewrite Hlo by lia; done|].
    rewrite (Hlo (i + j)) by lia. apply orb_true_r.
Qed.

Lemma smeared_all k j n : 0 ≤ k < j → smeared k j n → n = 2 ^ (k + 1) - 1.
Proof.
  intros Hk [Hhi Hlo].
  replace (2 ^ (k + 1) - 1) with (Z.ones (k + 1)) by (rewrite Z.ones_equiv; lia).
  apply Z.bits_inj'. intros i Hi.
  destruct (Z.lt_ge_cases k i).
  - rewrite Hhi, Z.ones_spec_high by lia. done.
  - rewrite Hlo, Z.ones_spec_low by lia. done.
Qed.

Lemma log2_below n w : 0 < n < 2 ^ w → 0 ≤ w → 0 ≤ Z.log2 n < w.
Proof. intros. split; [apply Z.log2_nonneg|]. apply Z.log2_lt_pow2; lia. Qed.

(** The perfect hash of the 32 smeared words. *)
Lemma clz_table_ok k :
  0 ≤ k < 32 →
  kWebRtcSpl_CountLeadingZeros32_Table !!
    Z.to_nat (u32 ((2 ^ (k + 1) - 1) * 0x8c0b2891) ≫ 26) = Some (31 - k).
Proof.
  intros Hk.
  apply (check_range_dec (λ k, kWebRtcSpl_CountLeadingZeros32_Table !!
    Z.to_nat (u32 ((2 ^ (k + 1) - 1) * 0x8c0b2891) ≫ 26) = Some (31 - k)) 0 32);
    [vm_compute; done|lia].
Qed.

Lemma clz32_not_builtin n :
  uint32 n →
  WebRtcSpl_CountLeadingZeros32_NotBuiltin n = Some (WebRtcSpl_CountLeadingZeros32 n).
Proof.
  intros Hn. unfold WebRtcSpl_CountLeadingZeros32.
  destruct (Z.eqb_spec n 0) as [->|Hnz]; [vm_compute; done|].
  assert (0 < n < 2 ^ 32) as Hb by (change (2 ^ 32) with 4294967296; cint).
  pose proof (log2_below n 32 Hb ltac:(lia)) as Hk.
  pose proof (smeared_init n ltac:(lia)) as H.
  apply (smeared_step _ 1) in H; [|lia..]. apply (smeared_step _ 2) in H; [|lia..].
  apply (smeared_step _ 4) in H; [|lia..]. apply (smeared_step _ 8) in H; [|lia..].
  apply (smeared_step _ 16) in H; [|lia..]. apply smeared_all in H; [|lia].
  unfold WebRtcSpl_CountLeadingZeros32_NotBuiltin. cbv zeta. rewrite H.
  by rewrite clz_table_ok.
Qed.

(** * Normalisation shifts *)

Lemma clz32_bounds n :
  0 < n < 4294967296 →
  0 ≤ WebRtcSpl_CountLeadingZeros32 n ≤ 31 ∧
  2 ^ (31 - WebRtcSpl_CountLeadingZeros32 n) ≤ n < 2 ^ (32 - WebRtcSpl_CountLeadingZeros32 n).
Proof.
  intros Hn. unfold WebRtcSpl_CountLeadingZeros32, builtin_clz.
  destruct (Z.eqb_spec n 0); [lia|].
  pose proof (log2_below n 32 ltac:(change (2 ^ 32) with 4294967296; lia) ltac:(lia)).
  pose proof (Z.log2_spec n ltac:(lia)).
  replace (31 - (31 - Z.log2 n)) with (Z.log2 n) by lia.
  replace (32 - (31 - Z.log2 n)) with (Z.succ (Z.log2 n)) by lia. lia.
Qed.

Lemma pow2_split n m : 0 ≤ n ≤ m → 2 ^ m = 2 ^ (m - n) * 2 ^ n.
Proof. intros. rewrite <- Z.pow_add_r by lia. f_equal. lia. Qed.

(** The magnitude [m] (of [a] or of [~a]) is normalised by [clz m - 1]. *)
Lemma norm_magnitude m :
  0 < m < 2147483648 →
  let n := WebRtcSpl_CountLeadingZeros32 m - 1 in
  0 ≤ n ≤ 30 ∧ 1073741824 ≤ m * 2 ^ n ∧ (m + 1) * 2 ^ n ≤ 2147483648.
Proof.
  intros Hm n. destruct (clz32_bounds m ltac:(lia)) as [Hc [Hlo Hhi]].
  assert (0 ≤ n) as Hn.
  { subst n. destruct (Z.eq_dec (WebRtcSpl_CountLeadingZeros32 m) 0) as [E|]; [|lia].
    rewrite E in Hlo. change (2 ^ (31 - 0)) with 2147483648 in Hlo. lia. }
  replace (31 - WebRtcSpl_CountLeadingZeros32 m) with (30 - n) in Hlo by lia.
  replace (32 - WebRtcSpl_CountLeadingZeros32 m) with (31 - n) in Hhi by lia.
  pose proof (pow2_split n 30 ltac:(lia)) as E30. change (2 ^ 30) with 1073741824 in E30.
  pose proof (pow2_split n 31 ltac:(lia)) as E31. change (2 ^ 31) with 2147483648 in E31.
  assert (0 < 2 ^ n) by (apply Z.pow_pos_nonneg; lia).
  repeat split; [lia|lia|nia|nia].
Qed.

Lemma NormW32_pos a :
  0 < a → int32 a → WebRtcSpl_NormW32 a = WebRtcSpl_CountLeadingZeros32 a - 1.
Proof.
  intros Ha Hr. unfold WebRtcSpl_NormW32.
  destruct (Z.eqb_spec a 0); [lia|]. destruct (Z.ltb_spec a 0); [lia|].
  rewrite u32_id by cint.
  pose proof (clz32_bounds a ltac:(cint)). unwrap. done.
Qed.

Lemma NormW32_bounds_pos a :
  0 < a → int32 a →
  0 ≤ WebRtcSpl_NormW32 a ≤ 30 ∧ 1073741824 ≤ a * 2 ^ WebRtcSpl_NormW32 a ∧
  (a + 1) * 2 ^ WebRtcSpl_NormW32 a ≤ 2147483648.
Proof.
  intros Ha Hr. rewrite NormW32_pos by done. apply norm_magnitude. cint.
Qed.

Lemma NormW32_neg a :
  a < -1 → int32 a →
  0 ≤ WebRtcSpl_NormW32 a ≤ 30 ∧ - 2147483648 ≤ a * 2 ^ WebRtcSpl_NormW32 a ≤ - 1073741824 - 2 ^ WebRtcSpl_NormW32 a.
Proof.
  intros Ha Hr. unfold WebRtcSpl_NormW32.
  destruct (Z.eqb_spec a 0); [lia|]. destruct (Z.ltb_spec a 0); [|lia].
  assert (Z.lnot a = - a - 1) as El by (pose proof (Z.add_lnot_diag a); lia).
  rewrite El, u32_id by cint.
  pose proof (norm_magnitude (- a - 1) ltac:(cint)) as Hm. cbv zeta in Hm.
  destruct Hm as (H1 & H2 & H3). rewrite s16_id by cint.
  assert (0 < 2 ^ (WebRtcSpl_CountLeadingZeros32 (- a - 1) - 1)) by (apply Z.pow_pos_nonneg; lia).
  split; [lia|]. nia.
Qed.

Lemma GetSizeInBits_spec n :
  uint32 n → 0 ≤ WebRtcSpl_GetSizeInBits n ≤ 32 ∧ n < 2 ^ WebRtcSpl_GetSizeInBits n ∧
  (0 < n → 2 ^ (WebRtcSpl_GetSizeInBits n - 1) ≤ n).
Proof.
  intros Hn. unfold WebRtcSpl_GetSizeInBits.
  destruct (Z.eq_dec n 0) as [->|Hz]; [vm_compute; repeat split; congruence|].
  pose proof (clz32_bounds n ltac:(cint)) as [H1 H2]. rewrite s16_id by cint.
  split; [lia|]. split; [lia|]. intros _.
  replace (32 - WebRtcSpl_CountLeadingZeros32 n - 1)
    with (31 - WebRtcSpl_CountLeadingZeros32 n) by lia. apply H2.
Qed.

(** * Saturation *)

Lemma SatW32ToW16_clamp x : WebRtcSpl_SatW32ToW16 x = clamp (-32768) 32767 x.
Proof.
  unfold WebRtcSpl_SatW32ToW16, clamp. rewrite Z.gtb_ltb.
  destruct (Z.ltb_spec 32767 x); [lia|]. destruct (Z.ltb_spec x (-32768)); [lia|].
  unwrap. lia.
Qed.

Lemma SatW32ToW16_range x : int16 (WebRtcSpl_SatW32ToW16 x).
Proof. rewrite SatW32ToW16_clamp. unfold clamp. cint. Qed.
#[export] Hint Resolve SatW32ToW16_range : cint.

Lemma s32_u32 x : s32 (u32 x) = s32 x.
Proof. cwrap. Qed.
Lemma u32_add_idem a b : u32 (u32 a + u32 b) = u32 (a + b).
Proof. unfold u32. by rewrite <- Zplus_mod. Qed.
Lemma u32_sub_idem a b : u32 (u32 a - u32 b) = u32 (a - b).
Proof. unfold u32. by rewrite <- Zminus_mod. Qed.

Lemma AddSatW32_clamp a b :
  int32 a → int32 b → WebRtcSpl_AddSatW32 a b = clamp INT32_MIN INT32_MAX (a + b).
Proof.
  intros Ha Hb. unfold WebRtcSpl_AddSatW32. rewrite u32_add_idem, s32_u32. unfold clamp.
  destruct_ltb; simpl; cwrap.
Qed.

Lemma SubSatW32_clamp a b :
  int32 a → int32 b → WebRtcSpl_SubSatW32 a b = clamp INT32_MIN INT32_MAX (a - b).
Proof.
  intros Ha Hb. unfold WebRtcSpl_SubSatW32. rewrite u32_sub_idem, s32_u32. unfold clamp.
  destruct_ltb; simpl; cwrap.
Qed.

(** * Properties *)

(** The table-driven [WebRtcSpl_CountLeadingZeros32_NotBuiltin] never reads
    outside its 64-entry table and returns the same count as the builtin-based
    [WebRtcSpl_CountLeadingZeros32], for every 32-bit word; and likewise the 64-bit
    version built on it, for every 64-bit word. *)
Lemma clz_not_builtin_equiv n :
  (uint32 n → WebRtcSpl_CountLeadingZeros32_NotBuiltin n
              = Some (WebRtcSpl_CountLeadingZeros32 n)) ∧
  (uint64 n → WebRtcSpl_CountLeadingZeros64_NotBuiltin n
              = Some (WebRtcSpl_CountLeadingZeros64 n)).
Proof.
  split; [apply clz32_not_builtin|]. intros Hn.
  unfold WebRtcSpl_CountLeadingZeros64_NotBuiltin.
  assert (0 ≤ n ≫ 32 ≤ 4294967295) as Hh by (apply shiftr_bounds; cint).
  destruct (Z.eqb_spec (n ≫ 32) 0) as [E|E].
  - rewrite Z.sub_diag, Z.shiftr_0_r.
    assert (n < 4294967296) by (rewrite shiftr_div in E by lia; change (2 ^ 32) with 4294967296 in E; zdiv).
    rewrite u32_id, clz32_not_builtin by cint. simpl. f_equal.
    unfold WebRtcSpl_CountLeadingZeros32, WebRtcSpl_CountLeadingZeros64, builtin_clz, builtin_clzll.
    destruct (n =? 0); lia.
  - rewrite Z.sub_0_r, u32_id, clz32_not_builtin by cint. simpl. f_equal.
    unfold WebRtcSpl_CountLeadingZeros32, WebRtcSpl_CountLeadingZeros64, builtin_clz, builtin_clzll.
    destruct (Z.eqb_spec (n ≫ 32) 0); [lia|].
    destruct (Z.eqb_spec n 0) as [->|]; [done|].
    rewrite Z.log2_shiftr by cint. pose proof (Z.log2_nonneg n).
    enough (32 ≤ Z.log2 n) by lia. apply Z.log2_le_pow2; [cint|].
    rewrite shiftr_div in E, Hh by lia. change (2 ^ 32) with 4294967296 in *. cint || zdiv.
Qed.

(** For a non-zero 32-bit [a], [WebRtcSpl_NormW32 a] is the largest left shift that
    keeps [a] in the [int32_t] range; shifting once more overflows. *)
Lemma NormW32_maximal a :
  a ≠ 0 → int32 a →
  let n := WebRtcSpl_NormW32 a in
  0 ≤ n ≤ 31 ∧ int32 (a * 2 ^ n) ∧ ¬ int32 (a * 2 ^ (n + 1)).
Proof.
  intros Hz Hr n. destruct (Z.lt_trichotomy a 0) as [Hneg|[?|Hpos]]; [|lia|].
  - destruct (Z.eq_dec a (-1)) as [->|].
    { subst n. vm_compute. repeat split; try congruence. intros [H _]. by apply H. }
    destruct (NormW32_neg a ltac:(lia) Hr) as [H1 H2]. fold n in H1, H2.
    rewrite Z.pow_add_r by lia. assert (0 < 2 ^ n) by (apply Z.pow_pos_nonneg; lia).
    split; [lia|]. split; [cint|]. unfold_ints. change (2 ^ 1) with 2. lia.
  - destruct (NormW32_bounds_pos a Hpos Hr) as (H1 & H2 & H3). fold n in H1, H2, H3.
    rewrite Z.pow_add_r by lia. assert (0 < 2 ^ n) by (apply Z.pow_pos_nonneg; lia).
    split; [lia|]. split; [cint|]. unfold_ints. change (2 ^ 1) with 2. lia.
Qed.

Lemma NormW32_maximal_witness :
  let n := WebRtcSpl_NormW32 (-70000) in
  0 ≤ n ≤ 31 ∧ int32 (-70000 * 2 ^ n) ∧ ¬ int32 (-70000 * 2 ^ (n + 1)).
Proof. apply (NormW32_maximal (-70000)); [lia|cint]. Defined.

(** The 32-bit saturating addition and subtraction return the exact sum and
    difference clamped to the [int32_t] range, and the 16-bit ones the exact result
    clamped to the [int16_t] range. *)
Lemma saturating_arith_clamps a b :
  (int32 a → int32 b →
     WebRtcSpl_AddSatW32 a b = clamp INT32_MIN INT32_MAX (a + b) ∧
     WebRtcSpl_SubSatW32 a b = clamp INT32_MIN INT32_MAX (a - b)) ∧
  (int16 a → int16 b →
     WebRtcSpl_AddSatW16 a b = clamp INT16_MIN INT16_MAX (a + b) ∧
     WebRtcSpl_SubSatW16 a b = clamp INT16_MIN INT16_MAX (a - b)).
Proof.
  split; intros Ha Hb.
  - split; [by apply AddSatW32_clamp|by apply SubSatW32_clamp].
  - split; apply SatW32ToW16_clamp.
Qed.
