(* ===== verification/RingBuffer.v ===== *)
(** The ring buffer of src/source_code/common_audio/ring_buffer.c and ring_buffer.h.

    The state is the C struct; [data] is the byte block it owns.  A handle is an
    [option] ([None] is the null pointer), [size_t] arithmetic wraps at 64 bits and
    the [int] arithmetic of [WebRtc_MoveReadPtr] at 32.  The theorems give the
    representation invariant, that every operation keeps it, and the refinement of a
    bounded first-in first-out queue of elements by the buffer, for single operations
    and for every sequence of them. *)
From S2P Require Import Prelude.

(** * Definitions *)

Inductive Wrap := SAME_WRAP | DIFF_WRAP.

Record RingBuffer := mkRingBuffer {
  read_pos : Z;
  write_pos : Z;
  element_count : Z;
  element_size : Z;
  rw_wrap : Wrap;
  data : list Z;
}.

Definition set_read (b : RingBuffer) (p : Z) (w : Wrap) : RingBuffer :=
  mkRingBuffer p (write_pos b) (element_count b) (element_size b) w (data b).
Definition set_write (b : RingBuffer) (p : Z) (w : Wrap) (d : list Z) : RingBuffer :=
  mkRingBuffer (read_pos b) p (element_count b) (element_size b) w d.

Definition WebRtc_available_read (self : option RingBuffer) : Z :=
  match self with
  | None => 0
  | Some b =>
      match rw_wrap b with
      | SAME_WRAP => u64 (write_pos b - read_pos b)
      | DIFF_WRAP => u64 (u64 (element_count b - read_pos b) + write_pos b)
      end
  end.

Definition WebRtc_available_write (self : option RingBuffer) : Z :=
  match self with
  | None => 0
  | Some b => u64 (element_count b - WebRtc_available_read self)
  end.

(** A region is an offset into [data] and a size in bytes; the second region of a
    contiguous read is [NULL] with size 0. *)
Record Regions := mkRegions {
  data_ptr_1 : Z;
  data_ptr_bytes_1 : Z;
  data_ptr_2 : option Z;
  data_ptr_bytes_2 : Z;
}.

Definition GetBufferReadRegions (buf : RingBuffer) (element_count_arg : Z)
  : Z * Regions :=
  let readable_elements := WebRtc_available_read (Some buf) in
  let read_elements :=
    if readable_elements <? element_count_arg then readable_elements
    else element_count_arg in
  let margin := u64 (element_count buf - read_pos buf) in
  if read_elements >? margin then
    (read_elements,
     {| data_ptr_1 := read_pos buf * element_size buf;
        data_ptr_bytes_1 := u64 (margin * element_size buf);
        data_ptr_2 := Some 0;
        data_ptr_bytes_2 := u64 (u64 (read_elements - margin) * element_size buf) |})
  else
    (read_elements,
     {| data_ptr_1 := read_pos buf * element_size buf;
        data_ptr_bytes_1 := u64 (read_elements * element_size buf);
        data_ptr_2 := None;
        data_ptr_bytes_2 := 0 |}).

Definition WebRtc_InitBuffer (self : RingBuffer) : RingBuffer :=
  mkRingBuffer 0 0 (element_count self) (element_size self) SAME_WRAP
    (store (data self) 0
       (replicate (Z.to_nat (u64 (element_count self * element_size self))) 0)).

Definition sizeof_RingBuffer : Z := 48.

(** [malloc n] is [Some] block of [n] indeterminate bytes, or [None] on failure. *)
Definition WebRtc_CreateBuffer (malloc : Z → option (list Z))
    (element_count element_size : Z) : option RingBuffer :=
  if (element_count =? 0) || (element_size =? 0) then None
  else
    match malloc sizeof_RingBuffer with
    | None => None
    | Some _ =>
        match malloc (u64 (element_count * element_size)) with
        | None => None
        | Some block =>
            Some (WebRtc_InitBuffer
                    (mkRingBuffer 0 0 element_count element_size SAME_WRAP block))
        end
    end.

Definition WebRtc_MoveReadPtr (self : option RingBuffer) (element_count_arg : Z)
  : option RingBuffer * Z :=
  match self with
  | None => (None, 0)
  | Some b =>
      let free_elements := s32 (WebRtc_available_write self) in
      let readable_elements := s32 (WebRtc_available_read self) in
      let pos := s32 (read_pos b) in
      let n := element_count_arg in
      let n := if n >? readable_elements then readable_elements else n in
      let n := if n <? neg32 free_elements then neg32 free_elements else n in
      let pos := pos ⊞ n in
      let '(pos, w) :=
        if pos >? s32 (element_count b)
        then (pos ⊟ s32 (element_count b), SAME_WRAP)
        else (pos, rw_wrap b) in
      let '(pos, w) :=
        if pos <? 0 then (pos ⊞ s32 (element_count b), DIFF_WRAP) else (pos, w) in
      (Some (set_read b (u64 pos) w), n)
  end.

(** Where [*data_ptr] points after a read: nowhere, into the buffer, or to the
    caller's [data]. *)
Inductive Ptr := PNull | PBuffer (off : Z) | PData.

Record ReadResult := mkRead {
  r_self : option RingBuffer;
  r_data : option (list Z);       (* the caller's array, or NULL *)
  r_data_ptr : option Ptr;        (* what was stored through [data_ptr] *)
  r_count : Z;
}.

(** [want_ptr] is [data_ptr != NULL]. *)
Definition WebRtc_ReadBuffer (self : option RingBuffer) (want_ptr : bool)
    (out : option (list Z)) (element_count_arg : Z) : ReadResult :=
  match self, out with
  | None, _ => mkRead self out None 0
  | Some _, None => mkRead self out None 0
  | Some b, Some out_arr =>
      let '(read_count, rg) := GetBufferReadRegions b element_count_arg in
      let '(out_arr, buf_ptr_1) :=
        if data_ptr_bytes_2 rg >? 0 then
          let out_arr :=
            store out_arr 0 (slice (data b) (data_ptr_1 rg) (data_ptr_bytes_1 rg)) in
          let out_arr :=
            store out_arr (data_ptr_bytes_1 rg)
              (slice (data b) (default 0 (data_ptr_2 rg)) (data_ptr_bytes_2 rg)) in
          (out_arr, PData)
        else if negb want_ptr then
          (store out_arr 0 (slice (data b) (data_ptr_1 rg) (data_ptr_bytes_1 rg)),
           PBuffer (data_ptr_1 rg))
        else (out_arr, PBuffer (data_ptr_1 rg)) in
      let stored :=
        if want_ptr then Some (if read_count =? 0 then PNull else buf_ptr_1)
        else None in
      let '(self', _) := WebRtc_MoveReadPtr self (s32 read_count) in
      mkRead self' (Some out_arr) stored read_count
  end.

Definition WebRtc_WriteBuffer (self : option RingBuffer) (src : option (list Z))
    (element_count_arg : Z) : option RingBuffer * Z :=
  match self, src with
  | None, _ => (None, 0)
  | Some _, None => (self, 0)
  | Some b, Some src =>
      let free_elements := WebRtc_available_write self in
      let write_elements :=
        if free_elements <? element_count_arg then free_elements
        else element_count_arg in
      let n := write_elements in
      let margin := u64 (element_count b - write_pos b) in
      let es := element_size b in
      let '(b, n) :=
        if write_elements >? margin then
          (set_write b 0 DIFF_WRAP
             (store (data b) (write_pos b * es) (slice src 0 (u64 (margin * es)))),
           u64 (n - margin))
        else (b, n) in
      let d := store (data b) (write_pos b * es)
                 (slice src (u64 (u64 (write_elements - n) * es)) (u64 (n * es))) in
      (Some (set_write b (u64 (write_pos b + n)) (rw_wrap b) d), write_elements)
  end.

(** [WebRtc_FreeBuffer] releases the block and the struct: the handle is dead. *)
Definition WebRtc_FreeBuffer (handle : option RingBuffer) : option RingBuffer := None.

(** * Representation *)

(** [WebRtc_MoveReadPtr] adds a position and a count as [int]s: the sum of two counts
    has to fit. *)
Definition max_count : Z := 1073741823.

Record wf (b : RingBuffer) : Prop := {
  wf_count : 0 < element_count b ≤ max_count;
  wf_size : 0 < element_size b;
  wf_bytes : element_count b * element_size b ≤ 18446744073709551615;
  wf_data : zlen (data b) = element_count b * element_size b;
  wf_read : 0 ≤ read_pos b ≤ element_count b;
  wf_write : 0 ≤ write_pos b ≤ element_count b;
  wf_wrap : match rw_wrap b with
            | SAME_WRAP => read_pos b ≤ write_pos b
            | DIFF_WRAP => write_pos b ≤ read_pos b
            end;
}.

(** Number of stored elements, and their bytes in queue order. *)
Definition stored (b : RingBuffer) : Z :=
  match rw_wrap b with
  | SAME_WRAP => write_pos b - read_pos b
  | DIFF_WRAP => element_count b - read_pos b + write_pos b
  end.

Definition contents (b : RingBuffer) : list Z :=
  let es := element_size b in
  match rw_wrap b with
  | SAME_WRAP => slice (data b) (read_pos b * es) ((write_pos b - read_pos b) * es)
  | DIFF_WRAP =>
      slice (data b) (read_pos b * es) ((element_count b - read_pos b) * es)
      ++ slice (data b) 0 (write_pos b * es)
  end.

(** The bytes the caller of a read sees. *)
Definition read_bytes (b : RingBuffer) (r : ReadResult) : list Z :=
  let n := r_count r * element_size b in
  match r_data_ptr r with
  | Some (PBuffer off) => slice (data b) off n
  | Some PNull => []
  | Some PData | None => slice (default [] (r_data r)) 0 n
  end.

#[global] Arguments WebRtc_MoveReadPtr : simpl never.
#[global] Arguments WebRtc_ReadBuffer : simpl never.
#[global] Arguments WebRtc_WriteBuffer : simpl never.
#[global] Arguments WebRtc_InitBuffer : simpl never.

(** * Lemmas *)

Lemma stored_range b : wf b → 0 ≤ stored b ≤ element_count b.
Proof. intros []. unfold stored. destruct (rw_wrap b); lia. Qed.

Lemma available_read_stored b : wf b → WebRtc_available_read (Some b) = stored b.
Proof.
  intros H. pose proof (stored_range b H). destruct H. unfold stored, WebRtc_available_read in *.
  unfold max_count in *. destruct (rw_wrap b); unwrap; done.
Qed.

Lemma available_write_free b :
  wf b → WebRtc_available_write (Some b) = element_count b - stored b.
Proof.
  intros H. unfold WebRtc_available_write. rewrite available_read_stored by done.
  pose proof (stored_range b H). destruct H. unfold max_count in *. unwrap. done.
Qed.

Lemma bytes_le b m n : wf b → m ≤ n → m * element_size b ≤ n * element_size b.
Proof. intros [] ?. apply Z.mul_le_mono_nonneg_r; lia. Qed.

Lemma bytes_u64 b n :
  wf b → 0 ≤ n ≤ element_count b → u64 (n * element_size b) = n * element_size b.
Proof.
  intros H ?. apply u64_id. pose proof (bytes_le b 0 n H). pose proof (bytes_le b n (element_count b) H).
  destruct H. cint.
Qed.

(** The elements are consecutive in two copies of the block. *)
Lemma slice_double_shift {A} (d : list A) off n :
  0 ≤ off → 0 ≤ n → off + n ≤ zlen d → slice (d ++ d) (off + zlen d) n = slice (d ++ d) off n.
Proof.
  intros. unfold slice. rewrite drop_app_ge, drop_app_le by lia.
  rewrite take_app_le by (rewrite length_drop; lia). do 2 f_equal. lia.
Qed.

Lemma slice_double_low {A} (d : list A) off n :
  0 ≤ off → 0 ≤ n → off + n ≤ zlen d → slice (d ++ d) off n = slice d off n.
Proof.
  intros. unfold slice. rewrite drop_app_le by lia.
  by rewrite take_app_le by (rewrite length_drop; lia).
Qed.

Lemma contents_double b :
  wf b →
  contents b = slice (data b ++ data b) (read_pos b * element_size b) (stored b * element_size b).
Proof.
  intros H. pose proof (bytes_le b 0 (read_pos b) H). pose proof (bytes_le b 0 (write_pos b) H).
  pose proof (bytes_le b (write_pos b) (element_count b) H).
  pose proof (bytes_le b (read_pos b) (element_count b) H).
  pose proof (bytes_le b (read_pos b) (write_pos b) H).
  destruct H. unfold contents, stored. destruct (rw_wrap b).
  - rewrite slice_double_low; [done|lia..].
  - rewrite Z.mul_add_distr_r, slice_app by lia.
    f_equal; [rewrite slice_double_low; [done|lia..]|].
    replace (_ + _) with (0 + zlen (data b)) by lia.
    rewrite slice_double_shift, slice_double_low; [done|lia..].
Qed.

Lemma contents_length b : wf b → zlen (contents b) = stored b * element_size b.
Proof.
  intros H. rewrite contents_double by done. pose proof (stored_range b H).
  pose proof (bytes_le b 0 (stored b) H). pose proof (bytes_le b 0 (read_pos b) H).
  pose proof (bytes_le b (read_pos b + stored b) (element_count b + element_count b) H).
  destruct H. rewrite slice_length; rewrite ?length_app; try lia.
Qed.

(** The effect of moving the read position by [n] elements. *)
Definition moved (b : RingBuffer) (n : Z) : RingBuffer :=
  let pos := read_pos b + n in
  if pos >? element_count b then set_read b (pos - element_count b) SAME_WRAP
  else if pos <? 0 then set_read b (pos + element_count b) DIFF_WRAP
  else set_read b pos (rw_wrap b).

Lemma move_moved b k :
  wf b → int32 k →
  WebRtc_MoveReadPtr (Some b) k =
    (Some (moved b (clamp (stored b - element_count b) (stored b) k)),
     clamp (stored b - element_count b) (stored b) k).
Proof.
  intros H Hk. unfold WebRtc_MoveReadPtr, moved.
  rewrite available_read_stored, available_write_free by done.
  pose proof (stored_range b H) as Hs. destruct H.
  rewrite (s32_id (element_count b)), (s32_id (stored b)), (s32_id (element_count b - stored b)),
    (s32_id (read_pos b)), (neg32_id (element_count b - stored b)) by (unfold max_count in *; cint).
  set (n := if (if k >? stored b then stored b else k) <? - (element_count b - stored b)
            then - (element_count b - stored b) else (if k >? stored b then stored b else k)).
  assert (n = clamp (stored b - element_count b) (stored b) k) as <-.
  { subst n. unfold clamp. rewrite Z.gtb_ltb. repeat (destruct_ltb; try lia).
    all: destruct (stored b <? k); destruct_ltb; lia. }
  assert (stored b - element_count b ≤ n ≤ stored b) as Hn.
  { subst n. rewrite Z.gtb_ltb. destruct (Z.ltb_spec (stored b) k); destruct_ltb; lia. }
  clearbody n. unfold max_count in *. rewrite add32_id by cint. rewrite !Z.gtb_ltb.
  destruct (Z.ltb_spec (element_count b) (read_pos b + n)).
  - rewrite sub32_id by cint. unfold stored in *. destruct (rw_wrap b);
      destruct_ltb; unwrap; first [done|lia].
  - destruct_ltb; unwrap; done.
Qed.

Lemma moved_wf b n :
  wf b → stored b - element_count b ≤ n ≤ stored b →
  wf (moved b n) ∧ stored (moved b n) = stored b - n.
Proof.
  intros [] Hn. unfold moved, stored in *. rewrite Z.gtb_ltb.
  destruct (rw_wrap b) eqn:E; destruct_ltb; simpl; rewrite ?E;
    (split; [constructor; simpl; rewrite ?E|]; lia).
Qed.

Lemma moved_data b n : data (moved b n) = data b ∧ element_size (moved b n) = element_size b
  ∧ element_count (moved b n) = element_count b.
Proof. unfold moved. by repeat case_match. Qed.

Lemma moved_pos b n :
  read_pos (moved b n) = read_pos b + n ∨
  read_pos (moved b n) = read_pos b + n - element_count b ∧ element_count b < read_pos b + n ∨
  read_pos (moved b n) = read_pos b + n + element_count b ∧ read_pos b + n < 0.
Proof. unfold moved. rewrite Z.gtb_ltb. destruct_ltb; simpl; lia. Qed.

(** Moving forward drops the oldest elements. *)
Lemma moved_contents_forward b n :
  wf b → 0 ≤ n ≤ stored b →
  contents (moved b n) = drop (Z.to_nat (n * element_size b)) (contents b).
Proof.
  intros H Hn. pose proof (stored_range b H).
  destruct (moved_wf b n H ltac:(lia)) as [H' Hst].
  rewrite !contents_double by done. rewrite Hst.
  destruct (moved_data b n) as (-> & -> & Hc).
  pose proof (bytes_le b 0 n H). pose proof (bytes_le b n (stored b) H).
  pose proof (bytes_le b 0 (read_pos b) H).
  pose proof (bytes_le b (read_pos b + stored b) (element_count b + element_count b) H).
  pose proof (bytes_le b (read_pos b + n) (element_count b) H) as Hle.
  pose proof (bytes_le b (element_count b) (read_pos b + n) H) as Hge.
  pose proof (wf_data _ H). destruct H.
  rewrite drop_slice, <- Z.mul_sub_distr_r, <- Z.mul_add_distr_r by lia.
  destruct (moved_pos b n) as [->|[[-> ?]|[-> ?]]]; [done| |lia].
  replace ((read_pos b + n) * element_size b) with
    ((read_pos b + n - element_count b) * element_size b + zlen (data b)) by lia.
  rewrite slice_double_shift; [done|lia..].
Qed.

(** Moving backward puts elements in front of the queue. *)
Lemma moved_contents_backward b n :
  wf b → stored b - element_count b ≤ n ≤ 0 →
  drop (Z.to_nat (- n * element_size b)) (contents (moved b n)) = contents b.
Proof.
  intros H Hn. pose proof (stored_range b H).
  destruct (moved_wf b n H ltac:(lia)) as [H' Hst].
  rewrite !contents_double by done. rewrite Hst. pose proof (wf_read _ H') as Hr.
  destruct (moved_data b n) as (-> & -> & Hc). rewrite Hc in Hr.
  pose proof (bytes_le b 0 (- n) H). pose proof (bytes_le b 0 (stored b) H).
  pose proof (bytes_le b 0 (read_pos b) H).
  pose proof (bytes_le b 0 (read_pos (moved b n)) H).
  pose proof (bytes_le b (read_pos b + stored b) (element_count b) H) as Hle.
  pose proof (wf_data _ H). destruct H.
  rewrite drop_slice by lia.
  replace ((stored b - n) * element_size b - - n * element_size b)
    with (stored b * element_size b) by lia.
  destruct (moved_pos b n) as [->|[[-> ?]|[E ?]]]; [f_equal; lia|lia|]. rewrite E.
  replace ((read_pos b + n + element_count b) * element_size b + - n * element_size b)
    with (read_pos b * element_size b + zlen (data b)) by lia.
  assert (read_pos b + stored b ≤ element_count b)
    by (unfold stored in *; destruct (rw_wrap b); lia).
  apply slice_double_shift; lia.
Qed.

Lemma if_ltb_min a b : (if a <? b then a else b) = Z.min a b.
Proof. destruct_ltb; lia. Qed.

(** The first [n] elements, split at the end of the block. *)
Lemma contents_take b n :
  wf b → 0 ≤ n ≤ stored b →
  take (Z.to_nat (n * element_size b)) (contents b) =
  slice (data b ++ data b) (read_pos b * element_size b) (n * element_size b).
Proof.
  intros H Hn. rewrite contents_double by done. apply take_slice.
  pose proof (bytes_le b 0 n H). pose proof (bytes_le b n (stored b) H). lia.
Qed.

Lemma regions_spec b cnt :
  wf b → 0 ≤ cnt →
  let n := Z.min (stored b) cnt in
  let m := element_count b - read_pos b in
  let es := element_size b in
  GetBufferReadRegions b cnt =
    (n, if n >? m then mkRegions (read_pos b * es) (m * es) (Some 0) ((n - m) * es)
        else mkRegions (read_pos b * es) (n * es) None 0) ∧
  take (Z.to_nat (n * es)) (contents b) =
    (if n >? m then slice (data b) (read_pos b * es) (m * es) ++ slice (data b) 0 ((n - m) * es)
     else slice (data b) (read_pos b * es) (n * es)).
Proof.
  intros H Hc n m es. subst es. pose proof (stored_range b H).
  assert (0 ≤ n ≤ stored b) as Hn by lia.
  pose proof (bytes_le b 0 n H). pose proof (bytes_le b 0 (read_pos b) H).
  pose proof (bytes_le b 0 m H). pose proof (bytes_le b 0 (n - m) H).
  pose proof (bytes_le b (n - m) (element_count b) H).
  pose proof (bytes_le b (read_pos b + n) (element_count b) H).
  pose proof (wf_data _ H) as Hd. pose proof (wf_read _ H). pose proof (wf_count _ H).
  unfold max_count in *.
  split.
  - unfold GetBufferReadRegions. rewrite available_read_stored, if_ltb_min by done. fold n.
    rewrite (u64_id (element_count b - read_pos b)) by cint. fold m. rewrite Z.gtb_ltb.
    destruct (Z.ltb_spec m n).
    + rewrite (u64_id (n - m)), !bytes_u64 by (done || cint). done.
    + rewrite bytes_u64 by (done || cint). done.
  - rewrite contents_take by done. rewrite Z.gtb_ltb. destruct (Z.ltb_spec m n).
    + replace (n * element_size b) with (m * element_size b + (n - m) * element_size b) by lia. rewrite slice_app by lia.
      rewrite slice_double_low by lia. f_equal.
      replace (read_pos b * element_size b + m * element_size b) with (0 + zlen (data b)) by lia.
      rewrite slice_double_shift, slice_double_low; [done|lia..].
    + rewrite slice_double_low; [done|lia..].
Qed.

Lemma slice_two_stores {A} (out s1 s2 : list A) :
  zlen s1 + zlen s2 ≤ zlen out →
  slice (store (store out 0 s1) (zlen s1) s2) 0 (zlen s1 + zlen s2) = s1 ++ s2.
Proof.
  intros H. assert (length (store out 0 s1) = length out) by (apply store_length; lia).
  rewrite slice_app, slice_store_before by lia.
  rewrite slice_store_same by lia. by rewrite slice_store_same by lia.
Qed.

Lemma read_spec b want_ptr out cnt :
  wf b → 0 ≤ cnt → cnt * element_size b ≤ zlen out →
  let n := Z.min (stored b) cnt in
  let r := WebRtc_ReadBuffer (Some b) want_ptr (Some out) cnt in
  r_count r = n ∧ r_self r = Some (moved b n) ∧
  read_bytes b r = take (Z.to_nat (n * element_size b)) (contents b).
Proof.
  intros H Hc Hout n r. pose proof (stored_range b H) as Hs.
  destruct (regions_spec b cnt H Hc) as [Hr Ht]. fold n in Hr, Ht.
  pose proof (wf_count _ H). unfold max_count in *.
  assert (WebRtc_MoveReadPtr (Some b) (s32 n) = (Some (moved b n), n)) as Hm.
  { rewrite (s32_id n) by cint. rewrite move_moved, !clamp_id by (done || cint). done. }
  subst r. unfold WebRtc_ReadBuffer. rewrite Hr, Ht, Hm. clear Hr Ht Hm.
  pose proof (bytes_le b 0 n H). pose proof (bytes_le b n cnt H).
  pose proof (bytes_le b 0 (read_pos b) H). pose proof (wf_data _ H). pose proof (wf_read _ H).
  pose proof (wf_size _ H). rewrite !Z.gtb_ltb.
  set (m := element_count b - read_pos b). pose proof (bytes_le b 0 m H).
  destruct (Z.ltb_spec m n); simpl.
  - assert (0 < (n - m) * element_size b) by nia.
    destruct (Z.ltb_spec 0 ((n - m) * element_size b)); [|lia].
    assert (zlen (slice (data b) (read_pos b * element_size b) (m * element_size b))
            = m * element_size b) as L1 by (rewrite slice_length; lia).
    assert (zlen (slice (data b) 0 ((n - m) * element_size b)) = (n - m) * element_size b) as L2.
    { pose proof (bytes_le b (n - m) (element_count b) H). rewrite slice_length; lia. }
    split; [done|]. split; [done|]. unfold read_bytes. simpl.
    destruct want_ptr; simpl; destruct (Z.eqb_spec n 0); try lia; simpl.
    all: rewrite <- L1 at 2.
    all: replace (n * element_size b) with
      (zlen (slice (data b) (read_pos b * element_size b) (m * element_size b)) +
       zlen (slice (data b) 0 ((n - m) * element_size b))) by lia.
    all: apply slice_two_stores; lia.
  - assert (zlen (slice (data b) (read_pos b * element_size b) (n * element_size b))
            = n * element_size b) as L1.
    { pose proof (bytes_le b (read_pos b + n) (element_count b) H). rewrite slice_length; lia. }
    destruct want_ptr; simpl; (split; [done|]; split; [done|]); unfold read_bytes; simpl.
    + destruct (Z.eqb_spec n 0) as [->|]; done.
    + rewrite slice_store_same by lia. done.
Qed.

(** Monotonicity of the byte offsets a write uses. *)
Ltac write_facts b n m H :=
  pose proof (wf_count _ H); pose proof (wf_data _ H); pose proof (wf_read _ H);
  pose proof (wf_write _ H); pose proof (wf_size _ H); pose proof (wf_wrap _ H);
  pose proof (wf_bytes _ H); pose proof (bytes_le b 0 n H);
  pose proof (bytes_le b 0 m H); pose proof (bytes_le b 0 (n - m) H);
  pose proof (bytes_le b m n H);
  pose proof (bytes_le b 0 (write_pos b) H); pose proof (bytes_le b 0 (read_pos b) H);
  pose proof (bytes_le b (read_pos b) (element_count b) H);
  pose proof (bytes_le b (read_pos b) (write_pos b) H);
  pose proof (bytes_le b (n - m) (read_pos b) H);
  pose proof (bytes_le b (write_pos b + n) (element_count b) H);
  pose proof (bytes_le b (write_pos b + n) (read_pos b) H);
  unfold stored in *.

(** What a write of [n] elements has to establish. *)
Definition appended (b b' : RingBuffer) (src : list Z) (n : Z) : Prop :=
  wf b' ∧ stored b' = stored b + n ∧ element_size b' = element_size b ∧
  element_count b' = element_count b ∧
  contents b' = contents b ++ slice src 0 (n * element_size b).

Lemma write_wrapping b src n :
  let es := element_size b in
  let m := element_count b - write_pos b in
  wf b → m < n ≤ element_count b - stored b → n * es ≤ zlen src →
  rw_wrap b = SAME_WRAP ∧
  appended b
    (set_write b (n - m) DIFF_WRAP
       (store (store (data b) (write_pos b * es) (slice src 0 (m * es)))
          0 (slice src (m * es) ((n - m) * es)))) src n.
Proof.
  intros es m H Hn Hsrc. subst es. write_facts b n m H.
  assert (rw_wrap b = SAME_WRAP) as Ew by (destruct (rw_wrap b); [done|lia]).
  split; [done|]. rewrite Ew in *.
  assert (zlen (slice src 0 (m * element_size b)) = m * element_size b) as L1
    by (rewrite slice_length; lia).
  assert (zlen (slice src (m * element_size b) ((n - m) * element_size b))
          = (n - m) * element_size b) as L2 by (rewrite slice_length; lia).
  set (d1 := store (data b) (write_pos b * element_size b) (slice src 0 (m * element_size b))).
  assert (length d1 = length (data b)) as Ld1 by (apply store_length; lia).
  split; [constructor; simpl; try lia; rewrite store_length; lia|].
  split; [unfold stored; rewrite Ew; simpl; lia|]. split; [done|]. split; [done|].
  unfold contents. simpl. rewrite Ew.
  rewrite slice_store_after, (slice_store_same d1) by lia.
  replace ((element_count b - read_pos b) * element_size b) with
    ((write_pos b - read_pos b) * element_size b + m * element_size b) by lia.
  replace (n * element_size b) with (m * element_size b + (n - m) * element_size b) by lia.
  rewrite !slice_app by lia. subst d1. rewrite slice_store_before by lia.
  replace (read_pos b * element_size b + (write_pos b - read_pos b) * element_size b)
    with (write_pos b * element_size b) by lia.
  rewrite slice_store_same by lia. by rewrite <- app_assoc.
Qed.

Lemma write_contiguous b src n :
  let es := element_size b in
  wf b → 0 ≤ n ≤ element_count b - stored b → n ≤ element_count b - write_pos b →
  n * es ≤ zlen src →
  appended b
    (set_write b (write_pos b + n) (rw_wrap b)
       (store (data b) (write_pos b * es) (slice src 0 (n * es)))) src n.
Proof.
  intros es H Hn Hm Hsrc. subst es. write_facts b n n H.
  assert (zlen (slice src 0 (n * element_size b)) = n * element_size b) as L1
    by (rewrite slice_length; lia).
  split; [constructor; simpl; try lia; [rewrite store_length; lia|destruct (rw_wrap b); lia]|].
  split; [unfold stored; simpl; destruct (rw_wrap b); lia|]. split; [done|]. split; [done|].
  unfold contents. simpl. destruct (rw_wrap b).
  - replace ((write_pos b + n - read_pos b) * element_size b) with
      ((write_pos b - read_pos b) * element_size b + n * element_size b) by lia.
    rewrite slice_app, slice_store_before by lia. f_equal.
    replace (read_pos b * element_size b + (write_pos b - read_pos b) * element_size b)
      with (write_pos b * element_size b) by lia.
    by rewrite slice_store_same by lia.
  - rewrite slice_store_after by lia. rewrite <- app_assoc. f_equal.
    rewrite Z.mul_add_distr_r, slice_app, slice_store_before by lia. f_equal.
    by rewrite slice_store_same by lia.
Qed.

Lemma write_spec b src cnt :
  wf b → 0 ≤ cnt → cnt * element_size b ≤ zlen src →
  let n := Z.min (element_count b - stored b) cnt in
  ∃ b', WebRtc_WriteBuffer (Some b) (Some src) cnt = (Some b', n) ∧ appended b b' src n.
Proof.
  intros H Hc Hsrc n. pose proof (stored_range b H) as Hs.
  assert (0 ≤ n ≤ cnt ∧ n ≤ element_count b - stored b) as Hn by lia.
  pose proof (bytes_le b n cnt H). pose proof (wf_count _ H) as Hcnt. pose proof (wf_write _ H).
  unfold max_count in Hcnt. set (m := element_count b - write_pos b).
  unfold WebRtc_WriteBuffer. rewrite available_write_free, if_ltb_min by done.
  fold n. clearbody n. rewrite (u64_id (element_count b - write_pos b)) by cint. fold m.
  rewrite Z.gtb_ltb. destruct (Z.ltb_spec m n) as [Hw|Hw].
  - rewrite (u64_id (n - m)), (bytes_u64 b m), (bytes_u64 b (n - m)) by (done || cint).
    replace (n - (n - m)) with m by lia.
    rewrite (u64_id m), (bytes_u64 b m) by (done || cint). simpl.
    rewrite Z.mul_0_l, Z.add_0_l, (u64_id (n - m)) by cint.
    eexists. split; [done|]. apply (write_wrapping b src n); [done|lia|lia].
  - rewrite Z.sub_diag. change (u64 0) with 0. rewrite Z.mul_0_l. change (u64 0) with 0.
    rewrite (bytes_u64 b n), (u64_id (write_pos b + n)) by (done || cint).
    eexists. split; [done|]. apply write_contiguous; [done|lia..].
Qed.

Lemma init_spec b :
  wf b → wf (WebRtc_InitBuffer b) ∧ contents (WebRtc_InitBuffer b) = [] ∧
  stored (WebRtc_InitBuffer b) = 0.
Proof.
  intros []. unfold WebRtc_InitBuffer. rewrite u64_id by cint.
  split; [constructor; simpl; try lia|]; [|done].
  rewrite store_length; rewrite ?length_replicate; lia.
Qed.

Lemma create_spec malloc ec es b :
  0 ≤ ec ≤ max_count → 0 ≤ es → ec * es ≤ 18446744073709551615 →
  (∀ n block, malloc n = Some block → zlen block = n) →
  WebRtc_CreateBuffer malloc ec es = Some b →
  wf b ∧ contents b = [] ∧ element_count b = ec ∧ element_size b = es.
Proof.
  intros Hec Hes Hb Hmalloc. unfold WebRtc_CreateBuffer.
  destruct (Z.eqb_spec ec 0), (Z.eqb_spec es 0); simpl; try done.
  destruct (malloc sizeof_RingBuffer) as [?|]; [|done].
  destruct (malloc (u64 (ec * es))) as [block|] eqn:E; [|done]. intros [= <-].
  apply Hmalloc in E. rewrite u64_id in E by cint.
  destruct (init_spec (mkRingBuffer 0 0 ec es SAME_WRAP block)) as (H1 & H2 & _);
    [constructor; simpl; lia|]. done.
Qed.

(** * The abstract queue *)

(** A bounded queue of elements of [es] bytes is the list of its bytes.  A write
    appends as many whole elements as fit, a read returns and removes the oldest ones,
    and moving the read position drops elements or, backwards, brings some bytes back in
    front. *)
Inductive Op :=
| OpWrite (src : list Z) (n : Z)
| OpRead (want_ptr : bool) (out : list Z) (n : Z)
| OpMove (n : Z)
| OpInit.

(** Bytes handed to the caller and the returned count. *)
Record Response := mkResponse { resp_bytes : list Z; resp_count : Z }.

Definition elems (es n : Z) : nat := Z.to_nat (n * es).

Inductive queue_step (cap es : Z) (q : list Z) : Op → Response → list Z → Prop :=
| queue_write src n w :
    w = Z.min (cap - zlen q `div` es) n →
    queue_step cap es q (OpWrite src n) (mkResponse [] w) (q ++ take (elems es w) src)
| queue_read want out n r :
    r = Z.min (zlen q `div` es) n →
    queue_step cap es q (OpRead want out n)
      (mkResponse (take (elems es r) q) r) (drop (elems es r) q)
| queue_drop n k :
    k = clamp (zlen q `div` es - cap) (zlen q `div` es) n → 0 ≤ k →
    queue_step cap es q (OpMove n) (mkResponse [] k) (drop (elems es k) q)
| queue_restore n k front :
    k = clamp (zlen q `div` es - cap) (zlen q `div` es) n → k ≤ 0 →
    zlen front = - k * es →
    queue_step cap es q (OpMove n) (mkResponse [] k) (front ++ q)
| queue_init : queue_step cap es q OpInit (mkResponse [] 0) [].

(** What the C interface requires of the caller's arguments. *)
Definition op_valid (es : Z) (o : Op) : Prop :=
  match o with
  | OpWrite src n => 0 ≤ n ∧ n * es ≤ zlen src
  | OpRead _ out n => 0 ≤ n ∧ n * es ≤ zlen out
  | OpMove n => int32 n
  | OpInit => True
  end.

(** One call on a live buffer. *)
Definition exec (b : RingBuffer) (o : Op) : option RingBuffer * Response :=
  match o with
  | OpWrite src n =>
      let '(b', w) := WebRtc_WriteBuffer (Some b) (Some src) n in (b', mkResponse [] w)
  | OpRead want out n =>
      let r := WebRtc_ReadBuffer (Some b) want (Some out) n in
      (r_self r, mkResponse (read_bytes b r) (r_count r))
  | OpMove n => let '(b', k) := WebRtc_MoveReadPtr (Some b) n in (b', mkResponse [] k)
  | OpInit => (Some (WebRtc_InitBuffer b), mkResponse [] 0)
  end.

Fixpoint exec_all (b : RingBuffer) (os : list Op) : option (RingBuffer * list Response) :=
  match os with
  | [] => Some (b, [])
  | o :: os' =>
      match exec b o with
      | (Some b1, r) => '(b2, rs) ← exec_all b1 os'; Some (b2, r :: rs)
      | (None, _) => None
      end
  end.

Inductive queue_run (cap es : Z) : list Z → list Op → list Response → list Z → Prop :=
| queue_run_nil q : queue_run cap es q [] [] q
| queue_run_cons q o os r rs q1 q2 :
    queue_step cap es q o r q1 → queue_run cap es q1 os rs q2 →
    queue_run cap es q (o :: os) (r :: rs) q2.

Lemma contents_div b : wf b → zlen (contents b) `div` element_size b = stored b.
Proof.
  intros H. rewrite contents_length by done. apply Z.div_mul. destruct H. lia.
Qed.

(** One call refines one step of the queue. *)
Lemma exec_refines b o :
  wf b → op_valid (element_size b) o →
  ∃ b' r, exec b o = (Some b', r) ∧ wf b' ∧
    element_count b' = element_count b ∧ element_size b' = element_size b ∧
    queue_step (element_count b) (element_size b) (contents b) o r (contents b').
Proof.
  intros H Hv. pose proof (stored_range b H) as Hs. pose proof (contents_div b H) as Hdiv.
  destruct o as [src n|want out n|n|]; simpl in *.
  - destruct Hv as [Hn Hlen]. destruct (write_spec b src n H Hn Hlen) as (b' & E & A).
    destruct A as (Hwf & _ & Hes & Hec & Hct). rewrite E. exists b'. eexists.
    repeat (split; [done|]). rewrite Hct. constructor. by rewrite Hdiv.
  - destruct Hv as [Hn Hlen]. destruct (read_spec b want out n H Hn Hlen) as (Ec & Es & Eb).
    rewrite Ec, Es, Eb. destruct (moved_wf b (Z.min (stored b) n) H ltac:(lia)) as [Hwf _].
    destruct (moved_data b (Z.min (stored b) n)) as (_ & Hes & Hec).
    do 2 eexists. repeat (split; [done|]).
    rewrite moved_contents_forward by (done || lia). apply queue_read. by rewrite Hdiv.
  - rewrite move_moved by done.
    set (k := clamp (stored b - element_count b) (stored b) n).
    assert (stored b - element_count b ≤ k ≤ stored b) as Hk by (apply clamp_range; lia).
    destruct (moved_wf b k H ltac:(lia)) as [Hwf Hst].
    destruct (moved_data b k) as (_ & Hes & Hec).
    do 2 eexists. repeat (split; [done|]). destruct (Z.le_ge_cases 0 k).
    + rewrite moved_contents_forward by (done || lia).
      apply queue_drop; [by rewrite Hdiv|done].
    + rewrite <- (take_drop (elems (element_size b) (- k)) (contents (moved b k))).
      unfold elems. rewrite moved_contents_backward by (done || lia).
      apply queue_restore; [by rewrite Hdiv|done|].
      rewrite length_take. pose proof (contents_length _ Hwf) as L. rewrite Hst, Hes in L.
      pose proof (bytes_le b (- k) (stored b - k) H). pose proof (bytes_le b 0 (- k) H). lia.
  - destruct (init_spec b H) as (Hwf & Hct & _). do 2 eexists. split; [done|].
    repeat (split; [done|]). rewrite Hct. constructor.
Qed.

(** * Properties *)

(** C6: refinement.  Any sequence of writes, reads, moves of the read position and
    re-initialisations with valid arguments, on a well-formed buffer, completes, keeps
    the representation invariant, and behaves as the bounded first-in first-out queue of
    elements: same returned counts, same bytes read, and final contents that the queue
    can reach. *)
Theorem ring_buffer_refines_queue b os :
  wf b → Forall (op_valid (element_size b)) os →
  ∃ b' rs, exec_all b os = Some (b', rs) ∧ wf b' ∧
    queue_run (element_count b) (element_size b) (contents b) os rs (contents b').
Proof.
  revert b. induction os as [|o os IH]; intros b H Hv; simpl.
  - exists b, []. repeat split; [apply H..|constructor].
  - apply Forall_cons_1 in Hv as [Ho Hv].
    destruct (exec_refines b o H Ho) as (b1 & r & E & H1 & Hec & Hes & Hq). rewrite E.
    rewrite <- Hes in Hv. destruct (IH b1 H1 Hv) as (b2 & rs & E2 & H2 & Hr).
    rewrite E2. simpl. exists b2, (r :: rs). split; [done|]. split; [done|].
    rewrite Hec, Hes in Hr. by econstructor.
Qed.

Definition example_buffer : RingBuffer :=
  mkRingBuffer 2 1 3 2 DIFF_WRAP [1; 2; 3; 4; 5; 6].

Lemma ring_buffer_refines_queue_witness :
  ∃ b' rs, exec_all example_buffer
             [OpWrite [7; 8] 1; OpRead true [0; 0; 0; 0] 2; OpMove (-1); OpInit] = Some (b', rs) ∧
    wf b' ∧ queue_run 3 2 (contents example_buffer)
              [OpWrite [7; 8] 1; OpRead true [0; 0; 0; 0] 2; OpMove (-1); OpInit] rs (contents b').
Proof.
  apply (ring_buffer_refines_queue example_buffer).
  - constructor; vm_compute; repeat split; congruence.
  - repeat constructor; vm_compute; congruence.
Defined.

(** Creation.  For counts that [malloc] can honour, [WebRtc_CreateBuffer] returns
    null exactly when the count or the size is zero or an allocation fails, and
    otherwise an empty well-formed buffer with the requested geometry. *)
Lemma CreateBuffer_wf malloc ec es :
  0 ≤ ec ≤ max_count → 0 ≤ es → ec * es ≤ 18446744073709551615 →
  (∀ n block, malloc n = Some block → zlen block = n) →
  match WebRtc_CreateBuffer malloc ec es with
  | None => ec = 0 ∨ es = 0 ∨ malloc sizeof_RingBuffer = None ∨ malloc (ec * es) = None
  | Some b => wf b ∧ contents b = [] ∧ element_count b = ec ∧ element_size b = es
  end.
Proof.
  intros Hec Hes Hb Hm. destruct (WebRtc_CreateBuffer malloc ec es) as [b|] eqn:E.
  - by eapply create_spec.
  - unfold WebRtc_CreateBuffer in E.
    destruct (Z.eqb_spec ec 0); [by left|]. destruct (Z.eqb_spec es 0); [by right; left|].
    simpl in E. destruct (malloc sizeof_RingBuffer); [|by right; right; left].
    rewrite u64_id in E by (unfold_ints; nia). do 3 right.
    by destruct (malloc (ec * es)).
Qed.

Definition malloc_always (n : Z) : option (list Z) := Some (replicate (Z.to_nat n) 170).

Lemma CreateBuffer_wf_witness :
  match WebRtc_CreateBuffer (λ n, if n <? 0 then None else malloc_always n) 4 2 with
  | None => 4 = 0 ∨ 2 = 0 ∨ malloc_always sizeof_RingBuffer = None ∨ malloc_always 8 = None
  | Some b => wf b ∧ contents b = [] ∧ element_count b = 4 ∧ element_size b = 2
  end.
Proof.
  apply (CreateBuffer_wf (λ n, if n <? 0 then None else malloc_always n) 4 2);
    [unfold max_count; lia..|].
  intros n block. destruct (Z.ltb_spec n 0); [done|]. intros [= <-].
  rewrite length_replicate. lia.
Defined.

(** What goes in comes out.  Writing [n] elements that fit into an empty buffer and
    reading [n] back returns exactly the written bytes, wherever the positions are in
    the block and whether or not the caller asks for a pointer, and leaves the buffer
    empty. *)
Lemma ring_buffer_roundtrip b src out want n :
  wf b → contents b = [] → 0 ≤ n ≤ element_count b →
  zlen src = n * element_size b → zlen out = n * element_size b →
  ∃ b1 b2 r, WebRtc_WriteBuffer (Some b) (Some src) n = (Some b1, n) ∧
    r = WebRtc_ReadBuffer (Some b1) want (Some out) n ∧
    r_count r = n ∧ read_bytes b1 r = src ∧ r_self r = Some b2 ∧ contents b2 = [].
Proof.
  intros H Hct Hn Hs Ho. pose proof (contents_length b H) as L. rewrite Hct in L.
  pose proof (stored_range b H) as Hst0. pose proof (wf_size _ H).
  assert (stored b = 0) as Hst by (simpl in L; nia).
  destruct (write_spec b src n H ltac:(lia) ltac:(lia)) as (b1 & E & A).
  rewrite Hst in E, A. replace (Z.min (element_count b - 0) n) with n in E, A by lia.
  destruct A as (H1 & Hst1 & Hes & Hec & Hct1). rewrite Hct, Hst in *. simpl in Hct1.
  destruct (read_spec b1 want out n H1 ltac:(lia) ltac:(rewrite Hes; lia)) as (Ec & Es & Eb).
  replace (Z.min (stored b1) n) with n in Ec, Es, Eb by lia.
  exists b1, (moved b1 n). eexists. split; [done|]. split; [done|]. split; [done|].
  rewrite Hes, Hct1 in Eb. rewrite slice_all in Eb, Hct1 by lia.
  split; [rewrite Eb; apply take_ge; lia|]. split; [done|].
  rewrite moved_contents_forward, Hct1, Hes by (done || lia). apply drop_ge. lia.
Qed.

Lemma ring_buffer_roundtrip_witness :
  ∃ b1 b2 r,
    WebRtc_WriteBuffer (Some (mkRingBuffer 2 2 3 2 SAME_WRAP [1; 2; 3; 4; 5; 6]))
      (Some [11; 12; 13; 14]) 2 = (Some b1, 2) ∧
    r = WebRtc_ReadBuffer (Some b1) true (Some [0; 0; 0; 0]) 2 ∧
    r_count r = 2 ∧ read_bytes b1 r = [11; 12; 13; 14] ∧ r_self r = Some b2 ∧ contents b2 = [].
Proof.
  apply (ring_buffer_roundtrip (mkRingBuffer 2 2 3 2 SAME_WRAP [1; 2; 3; 4; 5; 6]));
    [constructor; vm_compute; repeat split; congruence|done|vm_compute; split; congruence|done..].
Defined.
