(* ===== verification/SplMath.v ===== *)
(** Divisions and square roots of the fixed-point library
    (common_audio/signal_processing/division_operations.c, spl_sqrt.c,
    sqrt_of_one_minus_x_squared.c and
    common_audio/third_party/spl_sqrt_floor/spl_sqrt_floor.c).  The theorems show that
    the successive-approximation square root is the integer square root on the whole
    [int32_t] range, and that the shift-and-subtract division computes the truncated
    Q31 quotient for denominators up to 2^30, but not above. *)
From S2P Require Import Prelude SplInl.

(** * Definitions *)

(** C division truncates towards zero. *)
Definition WebRtcSpl_DivU32U16 (num den : Z) : Z :=
  if den =? 0 then 0xFFFFFFFF else u32 (num `quot` den).

Definition WebRtcSpl_DivW32W16 (num den : Z) : Z :=
  if den =? 0 then 0x7FFFFFFF else s32 (num `quot` den).

Definition WebRtcSpl_DivW32W16ResW16 (num den : Z) : Z :=
  if den =? 0 then 0x7FFF else s16 (s32 (num `quot` den)).

(** One turn of [while (k--)] on [(div, L_num)]. *)
Definition DivResultInQ31_iter (L_den : Z) (s : Z * Z) : Z * Z :=
  let '(div, L_num) := s in
  let div := shl32 div 1 in
  let L_num := shl32 L_num 1 in
  if L_num >=? L_den then (div ⊞ 1, L_num ⊟ L_den) else (div, L_num).

Definition WebRtcSpl_DivResultInQ31 (num den : Z) : Z :=
  if num =? 0 then 0
  else
    let '(change_sign, L_num) := if num <? 0 then (1, neg32 num) else (0, num) in
    let '(change_sign, L_den) :=
      if den <? 0 then (change_sign + 1, neg32 den) else (change_sign, den) in
    let '(div, _) := Nat.iter 31 (DivResultInQ31_iter L_den) (0, L_num) in
    if change_sign =? 1 then neg32 div else div.

Definition WebRtcSpl_DivW32HiLow (num den_hi den_low : Z) : Z :=
  let approx := s16 (WebRtcSpl_DivW32W16 0x1FFFFFFF den_hi) in
  let tmpW32 := shl32 (den_hi * approx) 1 ⊞ shl32 ((den_low * approx) ≫ 15) 1 in
  let tmpW32 := s32 (0x7fffffff - tmpW32) in
  let tmp_hi := s16 (tmpW32 ≫ 16) in
  let tmp_low := s16 ((tmpW32 ⊟ shl32 tmp_hi 16) ≫ 1) in
  let tmpW32 := shl32 (tmp_hi * approx ⊞ ((tmp_low * approx) ≫ 15)) 1 in
  let tmp_hi := s16 (tmpW32 ≫ 16) in
  let tmp_low := s16 ((tmpW32 ⊟ shl32 tmp_hi 16) ≫ 1) in
  let num_hi := s16 (num ≫ 16) in
  let num_low := s16 ((num ⊟ shl32 num_hi 16) ≫ 1) in
  let tmpW32 :=
    num_hi * tmp_hi ⊞ ((num_hi * tmp_low) ≫ 15) ⊞ ((num_low * tmp_hi) ≫ 15) in
  shl32 tmpW32 3.

(** [WEBRTC_SPL_SQRT_ITER(N)] on [(value, root)]. *)
Definition WEBRTC_SPL_SQRT_ITER (N : Z) (s : Z * Z) : Z * Z :=
  let '(value, root) := s in
  let try1 := root ⊞ shl32 1 N in
  if value >=? shl32 try1 N
  then (value ⊟ shl32 try1 N, Z.lor root (shl32 2 N))
  else (value, root).

Definition WebRtcSpl_SqrtFloor (value : Z) : Z :=
  let '(_, root) :=
    foldl (λ s N, WEBRTC_SPL_SQRT_ITER N s) (value, 0)
      [15; 14; 13; 12; 11; 10; 9; 8; 7; 6; 5; 4; 3; 2; 1; 0] in
  root ≫ 1.

Definition WebRtcSpl_SqrtLocal (inp : Z) : Z :=
  let B := inp `quot` 2 in
  let B := B ⊟ 0x40000000 in
  let x_half := s16 (B ≫ 16) in
  let B := B ⊞ 0x40000000 in
  let B := B ⊞ 0x40000000 in
  let x2 := x_half * x_half ⊠ 2 in
  let A := neg32 x2 in
  let B := B ⊞ (A ≫ 1) in
  let A := A ≫ 16 in
  let A := A ⊠ A ⊠ 2 in
  let t16 := s16 (A ≫ 16) in
  let B := B ⊞ (-20480 * t16 ⊠ 2) in
  let A := x_half * t16 ⊠ 2 in
  let t16 := s16 (A ≫ 16) in
  let B := B ⊞ (28672 * t16 ⊠ 2) in
  let t16 := s16 (x2 ≫ 16) in
  let A := x_half * t16 ⊠ 2 in
  let B := B ⊞ (A ≫ 1) in
  B ⊞ 32768.

Definition WebRtcSpl_Sqrt (value : Z) : Z :=
  let k_sqrt_2 := 23170 in
  let A := value in
  let A := if A <? 0 then if A =? INT32_MIN then INT32_MAX else neg32 A else A in
  if A =? 0 then 0
  else
    let sh := WebRtcSpl_NormW32 A in
    let A := shl32 A sh in
    let A := if A <? INT32_MAX - 32767 then A ⊞ 32768 else INT32_MAX in
    let x_norm := s16 (A ≫ 16) in
    let nshift := sh `quot` 2 in
    let A := shl32 x_norm 16 in
    let A := if A >=? 0 then A else neg32 A in
    let A := WebRtcSpl_SqrtLocal A in
    let A :=
      if 2 * nshift =? sh then
        let t16 := s16 (A ≫ 16) in
        let A := k_sqrt_2 * t16 ⊠ 2 in
        let A := A ⊞ 32768 in
        let A := Z.land A 0x7fff0000 in
        A ≫ 15
      else A ≫ 16 in
    let A := Z.land A 0x0000ffff in
    A ≫ nshift.

Definition WebRtcSpl_SqrtOfOneMinusXSquared (xQ15 : list Z) : list Z :=
  map (λ tmp, s16 (WebRtcSpl_Sqrt (1073741823 ⊟ tmp * tmp))) xQ15.

(** * Integer square root *)

Lemma lor_disjoint a k : 0 ≤ k → a `mod` 2 ^ (k + 1) = 0 → Z.lor a (2 ^ k) = a + 2 ^ k.
Proof.
  intros Hk Ha. symmetry. rewrite <- Z.lxor_lor.
  - apply Z.add_nocarry_lxor. apply Z.bits_inj'. intros i Hi.
    rewrite Z.land_spec, Z.bits_0, Z.pow2_bits_eqb by lia.
    destruct (Z.eqb_spec k i) as [->|]; [|apply andb_false_r].
    rewrite <- (Z.mod_pow2_bits_low a (i + 1) i) by lia. by rewrite Ha, Z.bits_0.
  - apply Z.bits_inj'. intros i Hi.
    rewrite Z.land_spec, Z.bits_0, Z.pow2_bits_eqb by lia.
    destruct (Z.eqb_spec k i) as [->|]; [|apply andb_false_r].
    rewrite <- (Z.mod_pow2_bits_low a (i + 1) i) by lia. by rewrite Ha, Z.bits_0.
Qed.

(** The bits of the root from [N] up are decided. *)
Definition sqrt_inv (v N : Z) (s : Z * Z) : Prop :=
  ∃ q, let r := q * 2 ^ N in
    0 ≤ q ∧ s = (v - r * r, 2 * r) ∧ r * r ≤ v < (r + 2 ^ N) * (r + 2 ^ N).

(** The trial value of iteration [N] fits. *)
Lemma sqrt_try_bound v N q :
  0 ≤ v ≤ INT32_MAX → 0 ≤ N ≤ 15 → 0 ≤ q →
  (q * 2 ^ (N + 1)) * (q * 2 ^ (N + 1)) ≤ v →
  (2 * (q * 2 ^ (N + 1)) + 2 ^ N) * 2 ^ N ≤ INT32_MAX.
Proof.
  unfold INT32_MAX. intros Hv HN Hq H.
  assert (N ∈ [0; 1; 2; 3; 4; 5; 6; 7; 8; 9; 10; 11; 12; 13; 14; 15]) as HN'
    by (rewrite !elem_of_cons, elem_of_nil; lia).
  rewrite !elem_of_cons, elem_of_nil in HN'.
  repeat destruct HN' as [->|HN']; try done; simpl Z.pow in *;
    match goal with
    | H : q * ?k * (q * ?k) ≤ _ |- _ =>
        let m := eval vm_compute in (Z.sqrt 2147483647 / k) in
        assert (q ≤ m) by (apply Z.le_ngt; intros ?; nia); lia
    end.
Qed.

Lemma sqrt_iter_inv v N s :
  0 ≤ v ≤ INT32_MAX → 0 ≤ N ≤ 15 → sqrt_inv v (N + 1) s →
  sqrt_inv v N (WEBRTC_SPL_SQRT_ITER N s).
Proof.
  intros Hv HN (q & Hq & -> & Hle & Hlt). unfold WEBRTC_SPL_SQRT_ITER.
  pose proof (sqrt_try_bound v N q Hv HN Hq Hle) as Hb.
  assert (0 < 2 ^ N ≤ 2 ^ 15) as H2 by (split; [apply Z.pow_pos_nonneg|apply Z.pow_le_mono_r]; lia).
  change (2 ^ 15) with 32768 in H2.
  assert (2 ^ (N + 1) = 2 * 2 ^ N) as E1 by (rewrite Z.pow_add_r by lia; lia).
  set (r := q * 2 ^ (N + 1)) in *. set (p := 2 ^ N) in *.
  assert (0 ≤ r) as Hr by (subst r; nia).
  assert (r * p ≤ INT32_MAX) by (unfold INT32_MAX in *; nia).
  assert (shl32 1 N = p) as ->
    by (unfold shl32; rewrite shiftl_mul, Z.mul_1_l by lia; apply s32_id; cint).
  rewrite (add32_id (2 * r) p) by (unfold_ints; nia).
  assert (shl32 (2 * r + p) N = (2 * r + p) * p) as ->
    by (unfold shl32; rewrite shiftl_mul by lia; apply s32_id; unfold_ints; nia).
  assert (shl32 2 N = 2 * p) as ->
    by (unfold shl32; rewrite shiftl_mul by lia; apply s32_id; cint).
  rewrite Z.geb_leb. destruct (Z.leb_spec ((2 * r + p) * p) (v - r * r)).
  - rewrite sub32_id by (unfold_ints; nia).
    assert (2 * p = 2 ^ (N + 1)) as -> by lia.
    rewrite lor_disjoint; [|lia|].
    + exists (2 * q + 1). fold p. split; [lia|].
      assert ((2 * q + 1) * p = r + p) as -> by (subst r; rewrite E1; ring).
      split; [f_equal; [ring|lia]|]. rewrite E1 in Hlt. nia.
    + subst r. replace (2 * (q * 2 ^ (N + 1))) with (q * 2 ^ (N + 1 + 1))
        by (rewrite !Z.pow_add_r by lia; ring). apply Z.mod_mul. apply Z.pow_nonzero; lia.
  - exists (2 * q). fold p. split; [lia|].
    assert (2 * q * p = r) as -> by (subst r; rewrite E1; ring).
    split; [done|]. nia.
Qed.

Lemma sqrt_floor_nonneg v : 0 ≤ v ≤ INT32_MAX → WebRtcSpl_SqrtFloor v = Z.sqrt v.
Proof.
  intros Hv. unfold WebRtcSpl_SqrtFloor. cbn [foldl].
  assert (sqrt_inv v 16 (v, 0)) as H.
  { exists 0. change (2 ^ 16) with 65536. simpl. split; [lia|].
    split; [f_equal; lia|]. unfold INT32_MAX in Hv. lia. }
  do 16 match type of H with sqrt_inv v ?n _ =>
    let m := eval vm_compute in (n - 1) in apply (sqrt_iter_inv v m) in H; [|done|lia]
  end.
  match type of H with sqrt_inv v 0 ?t => change t with t in H; destruct t as [v' root] end.
  destruct H as (q & Hq & [= -> ->] & Hle & Hlt). change (2 ^ 0) with 1 in *.
  rewrite shiftr_div by lia. change (2 ^ 1) with 2. rewrite Z.mul_comm, Z.div_mul by lia.
  symmetry. apply Z.sqrt_unique. lia.
Qed.

Lemma sqrt_iter_negative v N :
  INT32_MIN ≤ v < 0 → 0 ≤ N ≤ 15 → WEBRTC_SPL_SQRT_ITER N (v, 0) = (v, 0).
Proof.
  intros Hv HN. unfold WEBRTC_SPL_SQRT_ITER.
  assert (0 ≤ shl32 (0 ⊞ shl32 1 N) N) as H.
  { apply Z.leb_le.
    apply (check_range_spec (λ N, 0 <=? shl32 (0 ⊞ shl32 1 N) N) 0 16); [vm_compute; done|lia]. }
  rewrite Z.geb_leb. destruct (Z.leb_spec (shl32 (0 ⊞ shl32 1 N) N) v); [lia|done].
Qed.

(** * Division *)

Lemma div_iter_spec num den j :
  0 ≤ num < den → den ≤ 1073741824 → (j ≤ 31)%nat →
  Nat.iter j (DivResultInQ31_iter den) (0, num) =
    ((num * 2 ^ Z.of_nat j) `div` den, (num * 2 ^ Z.of_nat j) `mod` den).
Proof.
  intros Hn Hd. induction j as [|j IH]; intros Hj.
  - simpl. by rewrite Z.mul_1_r, Z.div_small, Z.mod_small by lia.
  - simpl Nat.iter. rewrite IH by lia. unfold DivResultInQ31_iter, shl32.
    rewrite Nat2Z.inj_succ, Z.pow_succ_r by lia.
    set (x := num * 2 ^ Z.of_nat j).
    replace (num * (2 * 2 ^ Z.of_nat j)) with (2 * x) by (subst x; ring).
    assert (0 < 2 ^ Z.of_nat j ≤ 2 ^ 30)
      by (split; [apply Z.pow_pos_nonneg; lia|apply Z.pow_le_mono_r; lia]).
    change (2 ^ 30) with 1073741824 in *.
    assert (0 ≤ x < den * 2 ^ Z.of_nat j) as Hx by (subst x; nia).
    pose proof (Z.mod_pos_bound x den ltac:(lia)) as Hm.
    assert (0 ≤ x `div` den < 1073741824) as Hq.
    { split; [apply Z.div_pos; lia|]. apply Z.div_lt_upper_bound; nia. }
    rewrite !shiftl_mul by lia. change (2 ^ 1) with 2.
    rewrite (s32_id (x `div` den * 2)), (s32_id (x `mod` den * 2)) by cint.
    pose proof (Z.div_mod x den ltac:(lia)) as E. rewrite Z.geb_leb.
    destruct (Z.leb_spec den (x `mod` den * 2)).
    + rewrite add32_id, sub32_id by cint. f_equal.
      * apply (Z.div_unique (2 * x) den _ (x `mod` den * 2 - den)); lia.
      * apply (Z.mod_unique (2 * x) den (x `div` den * 2 + 1)); lia.
    + f_equal.
      * apply (Z.div_unique (2 * x) den _ (x `mod` den * 2)); lia.
      * apply (Z.mod_unique (2 * x) den (x `div` den * 2)); lia.
Qed.

Lemma quot_signs a b : 0 ≤ a → 0 < b →
  (- a) `quot` b = - (a `div` b) ∧ a `quot` (- b) = - (a `div` b) ∧
  (- a) `quot` (- b) = a `div` b ∧ a `quot` b = a `div` b.
Proof.
  intros. rewrite !Z.quot_opp_l, !Z.quot_opp_r, Z.quot_div_nonneg by lia. lia.
Qed.

(** * Properties *)

(** [WebRtcSpl_SqrtFloor] returns the integer part of the square root of every
    non-negative [int32_t], and 0 for every negative one. *)
Lemma SqrtFloor_correct value :
  int32 value → WebRtcSpl_SqrtFloor value = if value <? 0 then 0 else Z.sqrt value.
Proof.
  intros Hv. destruct (Z.ltb_spec value 0) as [Hneg|Hpos].
  - unfold WebRtcSpl_SqrtFloor. cbn [foldl]. rewrite !sqrt_iter_negative by cint. done.
  - apply sqrt_floor_nonneg. cint.
Qed.

Lemma SqrtFloor_correct_witness :
  WebRtcSpl_SqrtFloor 2147483647 = if 2147483647 <? 0 then 0 else Z.sqrt 2147483647.
Proof. apply (SqrtFloor_correct 2147483647). cint. Defined.

(** For |num| < |den| <= 2^30, [WebRtcSpl_DivResultInQ31] is the quotient
    num * 2^31 / den truncated towards zero, with no overflow in its 31 iterations. *)
Lemma DivResultInQ31_correct num den :
  Z.abs num < Z.abs den → Z.abs den ≤ 1073741824 →
  WebRtcSpl_DivResultInQ31 num den = (num * 2 ^ 31) `quot` den.
Proof.
  intros Hlt Hden. unfold WebRtcSpl_DivResultInQ31.
  destruct (Z.eqb_spec num 0) as [->|Hnz]; [rewrite Z.mul_0_l, Z.quot_0_l; lia|].
  assert (∀ a b, 0 < a < b → b ≤ 1073741824 → 0 ≤ (a * 2 ^ 31) `div` b < 2 ^ 31) as Hb.
  { intros a b Hab Hb. split; [apply Z.div_pos; lia|]. apply Z.div_lt_upper_bound; lia. }
  change (2 ^ 31) with 2147483648 in *.
  destruct (Z.ltb_spec num 0), (Z.ltb_spec den 0); cbv zeta;
    rewrite ?neg32_id by cint; rewrite div_iter_spec by lia;
    change (2 ^ Z.of_nat 31) with 2147483648;
    [ specialize (Hb (- num) (- den)) | specialize (Hb (- num) den)
    | specialize (Hb num (- den)) | specialize (Hb num den) ]; simpl.
  - destruct (quot_signs (- num * 2147483648) (- den)) as (_ & _ & E & _); [lia..|].
    rewrite <- E. f_equal; lia.
  - rewrite neg32_id by cint.
    destruct (quot_signs (- num * 2147483648) den) as (E & _); [lia..|].
    rewrite <- E. f_equal; lia.
  - rewrite neg32_id by cint.
    destruct (quot_signs (num * 2147483648) (- den)) as (_ & E & _); [lia..|].
    rewrite <- E. f_equal; lia.
  - by destruct (quot_signs (num * 2147483648) den) as (_ & _ & _ & ->); [lia..|].
Qed.

Lemma DivResultInQ31_correct_witness :
  WebRtcSpl_DivResultInQ31 (-10) 234 = (-10 * 2 ^ 31) `quot` 234.
Proof. apply (DivResultInQ31_correct (-10) 234); vm_compute; congruence. Defined.

(** Above that bound the doubled remainder overflows: 0x60000000 / 0x7fffffff is
    0.75 in Q31, and the routine returns 0, although the denominator is larger than the
    numerator as its description requires. *)
Lemma DivResultInQ31_large_den :
  WebRtcSpl_DivResultInQ31 0x60000000 0x7fffffff = 0 ∧
  (0x60000000 * 2 ^ 31) `quot` 0x7fffffff = 0x60000000.
Proof. vm_compute. done. Qed.
