(* ===== verification/MinMax.v ===== *)
(** Minimum and maximum searches (common_audio/signal_processing/min_max_operations.c)
    and the table of function pointers through which the rest of the library calls them
    (spl_init.c).  A vector with its length is a list.  The theorems characterise each
    result against the elements of the vector; the interface [MaxAbsValueW16_impl] is
    what the correlation code relies on. *)
From S2P Require Import Prelude SplInl.

(** * Definitions *)

(** The loops keep the best value seen so far; [cmp] is the comparison of the [if] and
    [key] what it is applied to. *)
Definition best_value (cmp : Z → Z → bool) (key : Z → Z) (init : Z) (vector : list Z) : Z :=
  foldl (λ best x, if cmp (key x) best then key x else best) init vector.

Fixpoint best_index (cmp : Z → Z → bool) (key : Z → Z) (best : Z) (index i : Z)
    (vector : list Z) : Z :=
  match vector with
  | [] => index
  | x :: vector' =>
      if cmp (key x) best then best_index cmp key (key x) i (i + 1) vector'
      else best_index cmp key best index (i + 1) vector'
  end.

Definition WebRtcSpl_MaxAbsValueW16C (vector : list Z) : Z :=
  let maximum := best_value Z.gtb Z.abs 0 vector in
  let maximum := if maximum >? INT16_MAX then INT16_MAX else maximum in
  s16 maximum.

(** [abs(INT_MIN)] is taken apart from the others, in [uint32_t]. *)
Definition absolute_u32 (x : Z) : Z :=
  if negb (x =? INT32_MIN) then u32 (Z.abs x) else u32 (INT32_MAX + 1).

Definition WebRtcSpl_MaxAbsValueW32C (vector : list Z) : Z :=
  let maximum := best_value Z.gtb absolute_u32 0 vector in
  let maximum := if maximum <? INT32_MAX then maximum else INT32_MAX in
  s32 maximum.

Definition WebRtcSpl_MaxValueW16C (vector : list Z) : Z :=
  best_value Z.gtb id INT16_MIN vector.

Definition WebRtcSpl_MaxValueW32C (vector : list Z) : Z :=
  best_value Z.gtb id INT32_MIN vector.

Definition WebRtcSpl_MinValueW16C (vector : list Z) : Z :=
  best_value Z.ltb id INT16_MAX vector.

Definition WebRtcSpl_MinValueW32C (vector : list Z) : Z :=
  best_value Z.ltb id INT32_MAX vector.

Definition WebRtcSpl_MaxAbsIndexW16 (vector : list Z) : Z :=
  best_index Z.gtb Z.abs 0 0 0 vector.

Definition WebRtcSpl_MinMaxW16 (vector : list Z) : Z * Z :=
  foldl (λ '(minimum, maximum) x,
           (if x <? minimum then x else minimum, if x >? maximum then x else maximum))
    (INT16_MAX, INT16_MIN) vector.

Definition WebRtcSpl_MaxAbsElementW16 (vector : list Z) : Z :=
  let '(min_val, max_val) := WebRtcSpl_MinMaxW16 vector in
  if (min_val =? max_val) || (min_val <? - max_val) then min_val else max_val.

Definition WebRtcSpl_MaxIndexW16 (vector : list Z) : Z :=
  best_index Z.gtb id INT16_MIN 0 0 vector.

Definition WebRtcSpl_MaxIndexW32 (vector : list Z) : Z :=
  best_index Z.gtb id INT32_MIN 0 0 vector.

Definition WebRtcSpl_MinIndexW16 (vector : list Z) : Z :=
  best_index Z.ltb id INT16_MAX 0 0 vector.

Definition WebRtcSpl_MinIndexW32 (vector : list Z) : Z :=
  best_index Z.ltb id INT32_MAX 0 0 vector.

(** * The dispatch interface *)

(** Largest magnitude of a vector. *)
Definition max_abs (vector : list Z) : Z := foldr (λ x m, Z.max (Z.abs x) m) 0 vector.

(** spl_init.c binds [WebRtcSpl_MaxAbsValueW16] to an implementation for the platform;
    its callers rely on the saturated largest magnitude and on nothing else. *)
Class MaxAbsValueW16_impl := {
  WebRtcSpl_MaxAbsValueW16 : list Z → Z;
  MaxAbsValueW16_spec vector :
    Forall int16 vector → WebRtcSpl_MaxAbsValueW16 vector = Z.min INT16_MAX (max_abs vector);
}.

(** * Lemmas *)

Lemma best_value_max (key : Z → Z) init vector :
  best_value Z.gtb key init vector = foldr (λ x m, Z.max (key x) m) init vector.
Proof.
  unfold best_value. revert init. induction vector as [|x v IH]; intros init; simpl; [done|].
  rewrite IH, Z.gtb_ltb.
  assert ((if init <? key x then key x else init) = Z.max (key x) init) as ->
    by (destruct_ltb; lia).
  clear IH. induction v as [|y v IH]; simpl; lia.
Qed.

Lemma best_value_min init vector :
  best_value Z.ltb id init vector = foldr Z.min init vector.
Proof.
  unfold best_value. revert init. induction vector as [|x v IH]; intros init; simpl; [done|].
  rewrite IH. unfold id.
  assert ((if x <? init then x else init) = Z.min x init) as -> by (destruct_ltb; lia).
  clear IH. induction v as [|y v IH]; simpl; lia.
Qed.

Lemma foldr_max_ge (key : Z → Z) init vector x :
  x ∈ vector → key x ≤ foldr (λ x m, Z.max (key x) m) init vector.
Proof. induction 1; simpl; lia. Qed.

Lemma foldr_max_in (key : Z → Z) init vector :
  foldr (λ x m, Z.max (key x) m) init vector = init ∨
  ∃ x, x ∈ vector ∧ key x = foldr (λ x m, Z.max (key x) m) init vector.
Proof.
  induction vector as [|x v IH]; simpl; [by left|].
  destruct (Z.max_spec (key x) (foldr (λ x m, Z.max (key x) m) init v)) as [[_ ->]|[_ ->]].
  - destruct IH as [IH|(y & Hy & IH)]; [by left|right; exists y]. by split; [right|].
  - right. exists x. by split; [left|].
Qed.

Lemma foldr_min_le init (vector : list Z) x : x ∈ vector → foldr Z.min init vector ≤ x.
Proof. induction 1; simpl; lia. Qed.

Lemma foldr_min_in init (vector : list Z) :
  foldr Z.min init vector = init ∨ foldr Z.min init vector ∈ vector.
Proof.
  induction vector as [|x v IH]; simpl; [by left|].
  destruct (Z.min_spec x (foldr Z.min init v)) as [[_ ->]|[_ ->]].
  - right. left.
  - destruct IH as [IH|IH]; [by left|right; by right].
Qed.

Lemma max_abs_range vector : Forall int16 vector → 0 ≤ max_abs vector ≤ 32768.
Proof. induction 1; simpl; cint. Qed.

Lemma max_abs_ge vector x : x ∈ vector → Z.abs x ≤ max_abs vector.
Proof. apply foldr_max_ge. Qed.

Lemma MaxAbsValueW16C_spec vector :
  Forall int16 vector → WebRtcSpl_MaxAbsValueW16C vector = Z.min INT16_MAX (max_abs vector).
Proof.
  intros H. unfold WebRtcSpl_MaxAbsValueW16C. rewrite best_value_max. fold (max_abs vector).
  pose proof (max_abs_range vector H). rewrite Z.gtb_ltb. destruct_ltb; rewrite s16_id; cint.
Qed.

(** The portable build of spl_init.c. *)
#[export] Instance MaxAbsValueW16_portable : MaxAbsValueW16_impl :=
  {| WebRtcSpl_MaxAbsValueW16 := WebRtcSpl_MaxAbsValueW16C;
     MaxAbsValueW16_spec := MaxAbsValueW16C_spec |}.

Lemma MinMaxW16_spec vector :
  WebRtcSpl_MinMaxW16 vector =
    (foldr Z.min INT16_MAX vector, foldr Z.max INT16_MIN vector).
Proof.
  unfold WebRtcSpl_MinMaxW16.
  assert (∀ v a b, foldl (λ '(minimum, maximum) x,
           (if x <? minimum then x else minimum, if x >? maximum then x else maximum)) (a, b) v
         = (best_value Z.ltb id a v, best_value Z.gtb id b v)) as ->.
  { induction v as [|x v IH]; intros a b; simpl; [done|]. by rewrite IH. }
  by rewrite best_value_min, best_value_max.
Qed.

(** [k] is the first position of the largest [key]. *)
Definition first_max (key : Z → Z) (v : list Z) (k : nat) : Prop :=
  ∃ x, v !! k = Some x ∧
    (∀ j y, v !! j = Some y → key y ≤ key x) ∧
    (∀ j y, (j < k)%nat → v !! j = Some y → key y < key x).

Lemma best_index_gtb key best index i v :
  let r := best_index Z.gtb key best index i v in
  (r = index ∧ Forall (λ x, key x ≤ best) v) ∨
  (∃ k, r = i + Z.of_nat k ∧ first_max key v k ∧ ∃ x, v !! k = Some x ∧ best < key x).
Proof.
  revert best index i. induction v as [|x v IH]; intros best index i; simpl; [by left|].
  rewrite Z.gtb_ltb. destruct (Z.ltb_spec best (key x)) as [Hlt|Hge].
  - right. destruct (IH (key x) i (i + 1)) as [[-> Hall]|(k & -> & (y & Hk & Hmax & Hfirst) & z & Hz & Hlt')].
    + exists 0%nat. split; [lia|]. split; [|by exists x]. exists x. split; [done|].
      split; [|intros; lia]. intros [|j] y Hj; simpl in Hj; [injection Hj as <-; lia|].
      by apply (Forall_lookup_1 _ _ _ _ Hall Hj).
    + simplify_eq. exists (S k). split; [lia|]. split; [|exists y; split; [done|lia]].
      exists y. split; [done|]. split.
      * intros [|j] w Hj; simpl in Hj; [injection Hj as <-; lia|by eapply Hmax].
      * intros [|j] w Hjk Hj; simpl in Hj; [injection Hj as <-; lia|]. eapply Hfirst; [|done]. lia.
  - destruct (IH best index (i + 1)) as [[-> Hall]|(k & -> & (y & Hk & Hmax & Hfirst) & z & Hz & Hlt')].
    + left. by split; [|constructor].
    + simplify_eq. right. exists (S k). split; [lia|]. split; [|exists y; split; [done|lia]].
      exists y. split; [done|]. split.
      * intros [|j] w Hj; simpl in Hj; [injection Hj as <-; lia|by eapply Hmax].
      * intros [|j] w Hjk Hj; simpl in Hj; [injection Hj as <-; lia|]. eapply Hfirst; [|done]. lia.
Qed.

(** With an initial value no key is below, the result is the first maximum. *)
Lemma best_index_first key best v :
  v ≠ [] → Forall (λ x, best ≤ key x) v →
  ∃ k, best_index Z.gtb key best 0 0 v = Z.of_nat k ∧ first_max key v k.
Proof.
  intros Hv Hb. destruct (best_index_gtb key best 0 0 v) as [[-> Hall]|(k & -> & Hk & _)].
  - exists 0%nat. split; [done|]. destruct v as [|x v]; [done|]. exists x.
    split; [done|]. split; [|intros; lia]. intros j y Hj.
    apply (Forall_lookup_1 _ _ _ _ Hall) in Hj.
    apply Forall_cons_1 in Hb as [Hx _]. lia.
  - exists k. split; [lia|done].
Qed.

Lemma best_index_ltb best index i v :
  best_index Z.ltb id best index i v = best_index Z.gtb Z.opp (- best) index i v.
Proof.
  revert best index i. induction v as [|x v IH]; intros best index i; simpl; [done|].
  rewrite !IH, Z.gtb_ltb. unfold id. destruct_ltb; try lia; done.
Qed.

(** * Properties *)

(** Each index search over a non-empty vector returns the first position of the
    extreme element: the largest magnitude for [WebRtcSpl_MaxAbsIndexW16], the largest
    value for the [MaxIndex] functions, the smallest one for the [MinIndex] functions. *)
Lemma index_search_first_extreme v :
  v ≠ [] →
  (Forall int16 v →
     (∃ k, WebRtcSpl_MaxAbsIndexW16 v = Z.of_nat k ∧ first_max Z.abs v k) ∧
     (∃ k, WebRtcSpl_MaxIndexW16 v = Z.of_nat k ∧ first_max id v k) ∧
     (∃ k, WebRtcSpl_MinIndexW16 v = Z.of_nat k ∧ first_max Z.opp v k)) ∧
  (Forall int32 v →
     (∃ k, WebRtcSpl_MaxIndexW32 v = Z.of_nat k ∧ first_max id v k) ∧
     (∃ k, WebRtcSpl_MinIndexW32 v = Z.of_nat k ∧ first_max Z.opp v k)).
Proof.
  intros Hv. unfold WebRtcSpl_MinIndexW16, WebRtcSpl_MinIndexW32. rewrite !best_index_ltb.
  split; intros Hr; repeat split; apply best_index_first; try done;
    (eapply list.Forall_impl; [exact Hr|]); intros x; unfold id; cint.
Qed.

Lemma index_search_first_extreme_witness :
  (Forall int16 [3; -9; 9] →
     (∃ k, WebRtcSpl_MaxAbsIndexW16 [3; -9; 9] = Z.of_nat k ∧ first_max Z.abs [3; -9; 9] k) ∧
     (∃ k, WebRtcSpl_MaxIndexW16 [3; -9; 9] = Z.of_nat k ∧ first_max id [3; -9; 9] k) ∧
     (∃ k, WebRtcSpl_MinIndexW16 [3; -9; 9] = Z.of_nat k ∧ first_max Z.opp [3; -9; 9] k)) ∧
  (Forall int32 [3; -9; 9] →
     (∃ k, WebRtcSpl_MaxIndexW32 [3; -9; 9] = Z.of_nat k ∧ first_max id [3; -9; 9] k) ∧
     (∃ k, WebRtcSpl_MinIndexW32 [3; -9; 9] = Z.of_nat k ∧ first_max Z.opp [3; -9; 9] k)).
Proof. apply (index_search_first_extreme [3; -9; 9]). done. Defined.

(** Over a non-empty 16-bit vector the value searches return the saturated largest
    magnitude, the largest and the smallest element, and [WebRtcSpl_MaxAbsElementW16]
    returns an element whose magnitude no other element exceeds, with its sign. *)
Lemma value_search_extreme v :
  v ≠ [] → Forall int16 v →
  WebRtcSpl_MaxAbsValueW16C v = Z.min INT16_MAX (max_abs v) ∧
  (WebRtcSpl_MaxValueW16C v ∈ v ∧ Forall (λ x, x ≤ WebRtcSpl_MaxValueW16C v) v) ∧
  (WebRtcSpl_MinValueW16C v ∈ v ∧ Forall (λ x, WebRtcSpl_MinValueW16C v ≤ x) v) ∧
  (WebRtcSpl_MaxAbsElementW16 v ∈ v ∧
   Forall (λ x, Z.abs x ≤ Z.abs (WebRtcSpl_MaxAbsElementW16 v)) v).
Proof.
  intros Hv Hr. split; [by apply MaxAbsValueW16C_spec|].
  destruct v as [|x0 v']; [done|]. set (v := x0 :: v') in *.
  assert (int16 x0) as Hx0 by (by apply Forall_cons_1 in Hr as [? _]).
  assert (x0 ∈ v) as Hin by left.
  assert (foldr Z.max INT16_MIN v ∈ v ∧ Forall (λ x, x ≤ foldr Z.max INT16_MIN v) v) as Hmax.
  { split; [|apply list.Forall_forall; intros x; apply (foldr_max_ge id)].
    destruct (foldr_max_in id INT16_MIN v) as [E|(x & Hx & E)].
    - pose proof (foldr_max_ge id INT16_MIN v x0 Hin) as Hge. rewrite E in Hge.
      change (foldr Z.max INT16_MIN v = INT16_MIN) in E. rewrite E.
      replace INT16_MIN with x0; [done|]. unfold id in Hge. cint.
    - change (x = foldr Z.max INT16_MIN v) in E. by rewrite <- E. }
  assert (foldr Z.min INT16_MAX v ∈ v ∧ Forall (λ x, foldr Z.min INT16_MAX v ≤ x) v) as Hmin.
  { split; [|apply list.Forall_forall; intros x; apply foldr_min_le].
    destruct (foldr_min_in INT16_MAX v) as [E|Hx]; [|done].
    pose proof (foldr_min_le INT16_MAX v x0 Hin) as Hle. rewrite E in Hle |- *.
    replace INT16_MAX with x0; [done|cint]. }
  unfold WebRtcSpl_MaxValueW16C, WebRtcSpl_MinValueW16C, WebRtcSpl_MaxAbsElementW16.
  rewrite MinMaxW16_spec, best_value_min, best_value_max. unfold id.
  split; [done|]. split; [done|]. destruct Hmax as [Hmax1 Hmax2], Hmin as [Hmin1 Hmin2].
  set (lo := foldr Z.min INT16_MAX v) in *. set (hi := foldr Z.max INT16_MIN v) in *.
  assert (lo ≤ hi) by (rewrite list.Forall_forall in Hmax2; by apply Hmax2).
  assert (∀ x, x ∈ v → lo ≤ x ≤ hi) as Hb by (rewrite list.Forall_forall in Hmax2, Hmin2; auto).
  destruct (Z.eqb_spec lo hi), (Z.ltb_spec lo (- hi)); simpl; (split; [done|]);
    apply list.Forall_forall; intros x Hx; specialize (Hb x Hx); lia.
Qed.

Lemma value_search_extreme_witness :
  WebRtcSpl_MaxAbsValueW16C [5; -32768] = Z.min INT16_MAX (max_abs [5; -32768]) ∧
  (WebRtcSpl_MaxValueW16C [5; -32768] ∈ [5; -32768] ∧
   Forall (λ x, x ≤ WebRtcSpl_MaxValueW16C [5; -32768]) [5; -32768]) ∧
  (WebRtcSpl_MinValueW16C [5; -32768] ∈ [5; -32768] ∧
   Forall (λ x, WebRtcSpl_MinValueW16C [5; -32768] ≤ x) [5; -32768]) ∧
  (WebRtcSpl_MaxAbsElementW16 [5; -32768] ∈ [5; -32768] ∧
   Forall (λ x, Z.abs x ≤ Z.abs (WebRtcSpl_MaxAbsElementW16 [5; -32768])) [5; -32768]).
Proof. apply (value_search_extreme [5; -32768]); [done|]. repeat constructor; cint. Defined.
