(* ===== verification/Energy.v ===== *)
(** Energy and correlation of 16-bit vectors: get_scaling_square.c, energy.c,
    auto_correlation.c and cross_correlation.c of common_audio/signal_processing.

    The scaling functions choose a right shift so that the 32-bit accumulation cannot
    overflow.  [AutoCorrelation_exact] proves it for every vector and shows the loop
    unrolled by four equal to the plain sum; for [WebRtcSpl_Energy] it holds as long as
    no sample is -32768, whose negation does not fit an [int16_t]. *)
From S2P Require Import Prelude SplInl MinMax.

(** * Definitions *)

Definition WebRtcSpl_GetScalingSquare (in_vector : list Z) (times : Z) : Z :=
  let nbits := WebRtcSpl_GetSizeInBits (u32 times) in
  let smax :=
    foldl (λ smax x,
             let sabs := s16 (if x >? 0 then x else - x) in
             if sabs >? smax then sabs else smax) (-1) in_vector in
  let t := WebRtcSpl_NormW32 (smax * smax) in
  if smax =? 0 then 0 else if t >? nbits then 0 else s16 (nbits - t).

(** Returns the energy and stores the scaling through [scale_factor]. *)
Definition WebRtcSpl_Energy (vector : list Z) : Z * Z :=
  let scaling := WebRtcSpl_GetScalingSquare vector (zlen vector) in
  let en := foldl (λ en x, en ⊞ ((x * x) ≫ scaling)) 0 vector in
  (en, scaling).

Section AutoCorrelation.
Context `{MaxAbsValueW16_impl}.

Definition autocorr_scaling (in_vector : list Z) : Z :=
  let smax := WebRtcSpl_MaxAbsValueW16 in_vector in
  if smax =? 0 then 0
  else
    let nbits := WebRtcSpl_GetSizeInBits (u32 (zlen in_vector)) in
    let t := WebRtcSpl_NormW32 (smax * smax) in
    if t >? nbits then 0 else nbits - t.

(** [for (j = 0; i + j + 3 < in_vector_length; j += 4)], at most [fuel] turns. *)
Fixpoint autocorr_unrolled (v : list Z) (i scaling : Z) (fuel : nat) (j sum : Z) : Z * Z :=
  match fuel with
  | O => (j, sum)
  | S fuel' =>
      if i + j + 3 <? zlen v then
        let sum := sum ⊞ ((v.[j + 0] * v.[i + j + 0]) ≫ scaling) in
        let sum := sum ⊞ ((v.[j + 1] * v.[i + j + 1]) ≫ scaling) in
        let sum := sum ⊞ ((v.[j + 2] * v.[i + j + 2]) ≫ scaling) in
        let sum := sum ⊞ ((v.[j + 3] * v.[i + j + 3]) ≫ scaling) in
        autocorr_unrolled v i scaling fuel' (j + 4) sum
      else (j, sum)
  end.

(** One lag: the unrolled loop, then [for (; j < in_vector_length - i; j++)]. *)
Definition autocorr_lag (v : list Z) (scaling i : Z) : Z :=
  let '(j, sum) := autocorr_unrolled v i scaling (length v) 0 0 in
  for_up j (Z.to_nat (zlen v - i - j))
    (λ j sum, sum ⊞ ((v.[j] * v.[i + j]) ≫ scaling)) sum.

(** Returns the [order + 1] lags, the scaling, and the returned count. *)
Definition WebRtcSpl_AutoCorrelation (in_vector : list Z) (order : Z)
  : list Z * Z * Z :=
  let scaling := autocorr_scaling in_vector in
  (map (λ i : nat, autocorr_lag in_vector scaling (Z.of_nat i))
     (seq 0 (Z.to_nat (order + 1))), scaling, order + 1).

End AutoCorrelation.

(** [seq2] points into an array: [base] is its index and moves by [step_seq2]. *)
Definition WebRtcSpl_CrossCorrelationC (seq1 arr2 : list Z) (base dim_seq
    dim_cross_correlation right_shifts step_seq2 : Z) : list Z :=
  map (λ i : nat,
         for_up 0 (Z.to_nat dim_seq)
           (λ j corr, corr ⊞ ((seq1.[j] * arr2.[base + Z.of_nat i * step_seq2 + j])
                                ≫ right_shifts)) 0)
    (seq 0 (Z.to_nat dim_cross_correlation)).

(** * The scaling argument *)

(** Products bounded by the normalised square, shifted, leave room for [2^nbits] terms. *)
Lemma scaled_term_bound p t nbits :
  0 ≤ t ≤ 31 → 0 ≤ nbits ≤ 31 → Z.abs p ≤ 2 ^ (31 - t) →
  Z.abs (p ≫ (if t >? nbits then 0 else nbits - t)) ≤ 2 ^ (31 - nbits).
Proof.
  intros Ht Hn Hp. rewrite Z.gtb_ltb. destruct (Z.ltb_spec nbits t).
  - rewrite Z.shiftr_0_r. etrans; [exact Hp|]. apply Z.pow_le_mono_r; lia.
  - set (sc := nbits - t). rewrite shiftr_div by lia.
    assert (2 ^ (31 - t) = 2 ^ (31 - nbits) * 2 ^ sc) as E
      by (rewrite <- Z.pow_add_r by lia; f_equal; lia).
    assert (0 < 2 ^ sc) by (apply Z.pow_pos_nonneg; lia).
    assert (- 2 ^ (31 - nbits) ≤ p `div` 2 ^ sc) by (apply Z.div_le_lower_bound; lia).
    assert (p `div` 2 ^ sc ≤ 2 ^ (31 - nbits)) by (apply Z.div_le_upper_bound; lia). lia.
Qed.

Lemma scaled_sum_room n nbits :
  0 ≤ nbits ≤ 31 → 0 ≤ n < 2 ^ nbits → n * 2 ^ (31 - nbits) ≤ INT32_MAX.
Proof.
  intros Hb Hn. assert (2 ^ 31 = 2 ^ nbits * 2 ^ (31 - nbits)) as E
    by (rewrite <- Z.pow_add_r by lia; f_equal; lia).
  assert (0 < 2 ^ (31 - nbits)) by (apply Z.pow_pos_nonneg; lia).
  change (2 ^ 31) with 2147483648 in E. unfold INT32_MAX. nia.
Qed.

Lemma size_bits n :
  0 ≤ n < 2147483648 →
  0 ≤ WebRtcSpl_GetSizeInBits (u32 n) ≤ 31 ∧ n < 2 ^ WebRtcSpl_GetSizeInBits (u32 n).
Proof.
  intros Hn. rewrite u32_id by cint.
  destruct (GetSizeInBits_spec n ltac:(cint)) as (H1 & H2 & H3). split; [|done]. split; [lia|].
  destruct (Z.eq_dec n 0) as [->|]; [vm_compute; congruence|].
  destruct (Z.le_gt_cases (WebRtcSpl_GetSizeInBits n) 31); [done|]. exfalso.
  assert (2 ^ 31 ≤ 2 ^ (WebRtcSpl_GetSizeInBits n - 1)) by (apply Z.pow_le_mono_r; lia).
  specialize (H3 ltac:(lia)). change (2 ^ 31) with 2147483648 in *. lia.
Qed.

(** The norm of the square of a positive magnitude bounds every product. *)
Lemma norm_square_bound s M :
  0 < s ≤ 32767 → (M ≤ s ∨ s = 32767 ∧ M ≤ 32768) → 0 ≤ M →
  0 ≤ WebRtcSpl_NormW32 (s * s) ≤ 31 ∧ M * M ≤ 2 ^ (31 - WebRtcSpl_NormW32 (s * s)).
Proof.
  intros Hs HM HM0.
  destruct (NormW32_bounds_pos (s * s)) as (H1 & _ & H3); [nia|unfold_ints; nia|].
  split; [lia|]. destruct HM as [HM|[-> HM]].
  - pose proof (pow2_split (WebRtcSpl_NormW32 (s * s)) 31 ltac:(lia)) as E.
    change (2 ^ 31) with 2147483648 in E.
    assert (0 < 2 ^ WebRtcSpl_NormW32 (s * s)) by (apply Z.pow_pos_nonneg; lia).
    assert (M * M ≤ s * s) by nia. nia.
  - change (2 ^ (31 - WebRtcSpl_NormW32 (32767 * 32767))) with 1073741824. nia.
Qed.

(** * Energy *)

Lemma scaling_smax v a :
  Forall (λ x, -32767 ≤ x ≤ 32767) v →
  foldl (λ smax x, let sabs := s16 (if x >? 0 then x else - x) in
                   if sabs >? smax then sabs else smax) a v = Z.max a (foldr (λ x m, Z.max (Z.abs x) m) a v).
Proof.
  intros H. revert a. induction H as [|x v Hx Hv IH]; intros a; simpl; [lia|].
  assert (s16 (if x >? 0 then x else - x) = Z.abs x) as ->
    by (rewrite Z.gtb_ltb; destruct_ltb; rewrite s16_id; cint).
  rewrite Z.gtb_ltb, IH.
  assert (∀ b c, foldr (λ x m, Z.max (Z.abs x) m) (Z.max b c) v =
                 Z.max b (foldr (λ x m, Z.max (Z.abs x) m) c v)) as Hmax.
  { clear. induction v as [|y v IH]; intros b c; simpl; [done|]. rewrite IH. lia. }
  assert ((if a <? Z.abs x then Z.abs x else a) = Z.max (Z.abs x) a) as -> by (destruct_ltb; lia).
  rewrite Hmax. lia.
Qed.

Lemma smax_max_abs v :
  v ≠ [] → Z.max (-1) (foldr (λ x m, Z.max (Z.abs x) m) (-1) v) = max_abs v.
Proof.
  destruct v as [|x v]; [done|]. intros _. unfold max_abs. simpl.
  assert (Z.max (foldr (λ x m, Z.max (Z.abs x) m) (-1) v) 0 =
          foldr (λ x m, Z.max (Z.abs x) m) 0 v) by (induction v; simpl; lia). lia.
Qed.

Lemma max_abs_bound v B : Forall (λ x, - B ≤ x ≤ B) v → 0 ≤ B → 0 ≤ max_abs v ≤ B.
Proof. intros H HB. unfold max_abs. induction H; simpl; lia. Qed.

Definition energy_term (sc x : Z) : Z := (x * x) ≫ sc.

Lemma energy_terms v :
  v ≠ [] → Forall (λ x, -32767 ≤ x ≤ 32767) v → zlen v < 2147483648 →
  ∃ B, Forall (λ x, Z.abs (energy_term (WebRtcSpl_GetScalingSquare v (zlen v)) x) ≤ B) v ∧
       zlen v * B ≤ INT32_MAX ∧ 0 ≤ WebRtcSpl_GetScalingSquare v (zlen v) ≤ 31.
Proof.
  intros Hne Hv Hlen. unfold WebRtcSpl_GetScalingSquare.
  rewrite scaling_smax, smax_max_abs by done.
  destruct (size_bits (zlen v) ltac:(lia)) as [Hnb Hn].
  set (nbits := WebRtcSpl_GetSizeInBits (u32 (zlen v))) in *.
  pose proof (max_abs_bound v 32767 Hv ltac:(lia)) as HM.
  exists (2 ^ (31 - nbits)). split; [|split; [apply scaled_sum_room; lia|]].
  - apply list.Forall_forall. intros x Hx. pose proof (max_abs_ge v x Hx) as Hxm.
    unfold energy_term. destruct (Z.eqb_spec (max_abs v) 0) as [E|Hnz].
    + replace x with 0 by lia. rewrite Z.shiftr_0_r. simpl. apply Z.pow_nonneg. lia.
    + destruct (norm_square_bound (max_abs v) (max_abs v)) as [Ht HMM]; [lia|by left|lia|].
      assert (s16 (nbits - WebRtcSpl_NormW32 (max_abs v * max_abs v)) =
              nbits - WebRtcSpl_NormW32 (max_abs v * max_abs v)) as -> by (apply s16_id; cint).
      apply scaled_term_bound; [lia|lia|]. etrans; [|exact HMM]. nia.
  - destruct (Z.eqb_spec (max_abs v) 0); [lia|]. rewrite Z.gtb_ltb.
    destruct (norm_square_bound (max_abs v) (max_abs v)) as [Ht _]; [lia|by left|lia|].
    destruct_ltb; [lia|]. rewrite s16_id by cint. lia.
Qed.

(** * Autocorrelation *)

Section Autocorr.
Context `{MaxAbsValueW16_impl}.

Definition lag_term (v : list Z) (sc i j : Z) : Z := (v.[j] * v.[i + j]) ≫ sc.

(** The unrolled loop adds the terms up to the position it returns, and stops only when
    fewer than four are left. *)
Lemma autocorr_unrolled_spec v i sc B fuel j :
  0 ≤ i ≤ zlen v → 0 ≤ j ≤ zlen v - i →
  (∀ k, Z.abs (lag_term v sc i k) ≤ B) → 0 ≤ B → zlen v * B ≤ INT32_MAX →
  (Z.of_nat fuel > zlen v - i - j - 4) →
  ∃ j', autocorr_unrolled v i sc fuel j (sumf (lag_term v sc i) 0 (Z.to_nat j)) =
          (j', sumf (lag_term v sc i) 0 (Z.to_nat j')) ∧
        j ≤ j' ≤ zlen v - i ∧ zlen v - i - j' < 4.
Proof.
  intros Hi Hj HB HB0 Hroom. revert j Hj. induction fuel as [|fuel IH]; intros j Hj Hf; simpl.
  - exists j. split; [done|]. lia.
  - destruct (Z.ltb_spec (i + j + 3) (zlen v)) as [Hlt|Hge].
    + assert (∀ k k', 0 ≤ k ≤ 3 → k' = k + 1 → sumf (lag_term v sc i) 0 (Z.to_nat (j + k)) ⊞
                ((v.[j + k] * v.[i + j + k]) ≫ sc) =
                sumf (lag_term v sc i) 0 (Z.to_nat (j + k'))) as Hadd.
      { intros k k' Hk ->. change ((v.[j + k] * v.[i + j + k]) ≫ sc) with
          ((v.[j + k] * v.[(i + j) + k]) ≫ sc). rewrite <- Z.add_assoc.
        fold (lag_term v sc i (j + k)).
        replace (Z.to_nat (j + (k + 1))) with (Z.to_nat (j + k) + 1)%nat by lia.
        rewrite sumf_app, sumf_S. unfold sumf at 3. simpl. rewrite Z2Nat.id, Z.add_0_r, Z.add_0_l by lia.
        apply add32_id. pose proof (HB (j + k)).
        pose proof (sumf_bound (lag_term v sc i) 0 (Z.to_nat (j + k)) B ltac:(auto)) as Hs.
        rewrite Z2Nat.id in Hs by lia.
        assert ((j + k + 1) * B ≤ zlen v * B) by (apply Z.mul_le_mono_nonneg_r; lia). cint. }
      replace (Z.to_nat j) with (Z.to_nat (j + 0)) by lia.
      rewrite (Hadd 0 1), (Hadd 1 2), (Hadd 2 3), (Hadd 3 4) by lia.
      destruct (IH (j + 4) ltac:(lia) ltac:(lia)) as (j' & E & Hj'). exists j'. split; [done|]. lia.
    + exists j. split; [done|]. lia.
Qed.

Lemma autocorr_lag_exact v i sc B :
  0 ≤ i ≤ zlen v → (∀ k, Z.abs (lag_term v sc i k) ≤ B) → 0 ≤ B → zlen v * B ≤ INT32_MAX →
  autocorr_lag v sc i = sumf (lag_term v sc i) 0 (Z.to_nat (zlen v - i)).
Proof.
  intros Hi HB HB0 Hroom. unfold autocorr_lag.
  destruct (autocorr_unrolled_spec v i sc B (length v) 0) as (j' & E & Hj' & _);
    try done; try lia.
  change (sumf (lag_term v sc i) 0 (Z.to_nat 0)) with 0 in E. rewrite E.
  change (for_up j' (Z.to_nat (zlen v - i - j')) (λ j sum, sum ⊞ lag_term v sc i j)
    (sumf (lag_term v sc i) 0 (Z.to_nat j')) = sumf (lag_term v sc i) 0 (Z.to_nat (zlen v - i))).
  rewrite (accum32 (lag_term v sc i) j' _ _ B).
  - replace (Z.to_nat (zlen v - i)) with (Z.to_nat j' + Z.to_nat (zlen v - i - j'))%nat by lia.
    rewrite sumf_app. f_equal. f_equal. lia.
  - auto.
  - pose proof (sumf_bound (lag_term v sc i) 0 (Z.to_nat j') B ltac:(auto)).
    unfold INT32_MAX in *. nia.
Qed.

Lemma autocorr_terms v :
  Forall int16 v → zlen v < 2147483648 →
  ∃ B, (∀ i k, Z.abs (lag_term v (autocorr_scaling v) i k) ≤ B) ∧ 0 ≤ B ∧
       zlen v * B ≤ INT32_MAX ∧ 0 ≤ autocorr_scaling v ≤ 31.
Proof.
  intros Hv Hlen. unfold autocorr_scaling. rewrite MaxAbsValueW16_spec by done.
  destruct (size_bits (zlen v) ltac:(lia)) as [Hnb Hn].
  set (nbits := WebRtcSpl_GetSizeInBits (u32 (zlen v))) in *.
  pose proof (max_abs_range v Hv) as HM. exists (2 ^ (31 - nbits)).
  assert (0 ≤ 2 ^ (31 - nbits)) as Hp by (apply Z.pow_nonneg; lia).
  assert (∀ k, Z.abs (v.[k]) ≤ max_abs v) as Hk.
  { intros k. apply (rd_Forall (λ x, Z.abs x ≤ max_abs v)); [|lia].
    apply list.Forall_forall. intros x. apply max_abs_ge. }
  set (s := Z.min INT16_MAX (max_abs v)). split; [|split; [done|split; [apply scaled_sum_room; lia|]]].
  - intros i k. unfold lag_term. specialize (Hk k) as Hk1. specialize (Hk (i + k)) as Hk2.
    destruct (Z.eqb_spec s 0) as [E|Hnz].
    + assert (v.[k] = 0) as -> by (unfold INT16_MAX in *; lia).
      rewrite Z.mul_0_l, Z.shiftr_0_r. done.
    + destruct (norm_square_bound s (max_abs v)) as [Ht HMM]; [unfold INT16_MAX in *; lia..|].
      apply scaled_term_bound; [lia|lia|]. etrans; [|exact HMM].
      rewrite Z.abs_mul. apply Z.mul_le_mono_nonneg; lia.
  - destruct (Z.eqb_spec s 0); [lia|].
    destruct (norm_square_bound s (max_abs v)) as [Ht _]; [unfold INT16_MAX in *; lia..|].
    rewrite Z.gtb_ltb. destruct_ltb; lia.
Qed.

End Autocorr.

(** * Properties *)

(** For every 16-bit vector shorter than 2^31 and every order up to its length,
    [WebRtcSpl_AutoCorrelation] returns order + 1 lags, each of them exactly the sum of
    the scaled products (the loop unrolled by four loses and repeats no term, and no
    addition overflows), whatever implementation of the maximum search is linked in. *)
Lemma AutoCorrelation_exact `{MaxAbsValueW16_impl} v order :
  Forall int16 v → zlen v < 2147483648 → 0 ≤ order ≤ zlen v →
  ∃ sc, 0 ≤ sc ≤ 31 ∧
    WebRtcSpl_AutoCorrelation v order =
      (map (λ i : nat, sumf (λ j, (v.[j] * v.[Z.of_nat i + j]) ≫ sc) 0 (length v - i))
         (seq 0 (Z.to_nat (order + 1))), sc, order + 1).
Proof.
  intros Hv Hlen Hord. destruct (autocorr_terms v Hv Hlen) as (B & HB & HB0 & Hroom & Hsc).
  exists (autocorr_scaling v). split; [done|]. unfold WebRtcSpl_AutoCorrelation.
  f_equal. f_equal. apply map_ext_in. intros i Hi%list_elem_of_In%elem_of_seq.
  rewrite (autocorr_lag_exact v (Z.of_nat i) _ B) by (auto || lia).
  unfold lag_term. f_equal. lia.
Qed.

Lemma AutoCorrelation_exact_witness :
  ∃ sc, 0 ≤ sc ≤ 31 ∧
    WebRtcSpl_AutoCorrelation [-32768; -32768; 32767; 1; 2] 2 =
      (map (λ i : nat, sumf (λ j, ([-32768; -32768; 32767; 1; 2].[j] *
              [-32768; -32768; 32767; 1; 2].[Z.of_nat i + j]) ≫ sc) 0 (5 - i))
         (seq 0 (Z.to_nat 3)), sc, 3).
Proof.
  apply (AutoCorrelation_exact [-32768; -32768; 32767; 1; 2] 2);
    [repeat constructor; cint|simpl; lia..].
Defined.

(** When no sample is -32768, [WebRtcSpl_Energy] returns exactly the sum of the
    squares shifted by the scale factor it reports, as a non-negative [int32_t]. *)
Lemma Energy_exact v :
  v ≠ [] → Forall (λ x, -32767 ≤ x ≤ 32767) v → zlen v < 2147483648 →
  let '(en, sc) := WebRtcSpl_Energy v in
  en = foldr (λ x s, ((x * x) ≫ sc) + s) 0 v ∧ 0 ≤ en ≤ INT32_MAX ∧ 0 ≤ sc ≤ 31.
Proof.
  intros Hne Hv Hlen. destruct (energy_terms v Hne Hv Hlen) as (B & HB & Hroom & Hsc).
  unfold WebRtcSpl_Energy. set (sc := WebRtcSpl_GetScalingSquare v (zlen v)) in *.
  destruct (accum32_list (energy_term sc) v 0 B HB ltac:(simpl; lia)) as [E1 E2].
  change (foldl (λ en x, en ⊞ ((x * x) ≫ sc)) 0 v) with (foldl (λ s x, s ⊞ energy_term sc x) 0 v).
  rewrite E1. split; [done|]. split; [|done].
  assert (0 ≤ foldr (λ x s, energy_term sc x + s) 0 v).
  { clearbody sc. clear. induction v as [|x v IH]; simpl; [done|].
    assert (0 ≤ energy_term sc x) by (apply shiftr_nonneg; nia). lia. }
  lia.
Qed.

Lemma Energy_exact_witness :
  let '(en, sc) := WebRtcSpl_Energy [-32767; 32767; 5] in
  en = foldr (λ x s, ((x * x) ≫ sc) + s) 0 [-32767; 32767; 5] ∧ 0 ≤ en ≤ INT32_MAX ∧ 0 ≤ sc ≤ 31.
Proof.
  apply (Energy_exact [-32767; 32767; 5]); [done|repeat constructor; lia|simpl; lia].
Defined.

(** With samples at -32768 the scaling is computed from a wrapped magnitude and the
    accumulation overflows: two such samples give a negative energy, and four give
    energy zero with scale factor zero. *)
Lemma Energy_full_scale_negative :
  WebRtcSpl_Energy [-32768; -32768] = (-2147483648, 0) ∧
  WebRtcSpl_Energy [-32768; -32768; -32768; -32768] = (0, 0).
Proof. vm_compute. done. Qed.
