(* ===== verification/ResampleInt.v ===== *)
(** The internal half-band resamplers of
    common_audio/signal_processing/resample_by_2_internal.c.

    Every function runs two (the low-pass ones four) chains of three first-order
    all-pass sections over the even and odd samples, each with its own four words of the
    [state] array.  The repeated loop body is [allpass_step]; the loops are [allpass_run].
    Signed overflow in these functions is deliberate in the source (they are excluded
    from the sanitizer) and wraps here.  The theorems show output lengths, and that
    processing a signal frame by frame with the carried state gives the same samples as
    processing it at once. *)
From S2P Require Import Prelude SplInl.

(** * Definitions *)

Definition kResampleAllpass : list (list Z) := [[821; 6110; 12382]; [3050; 9368; 15063]].
Definition coef (row col : nat) : Z := nth col (nth row kResampleAllpass []) 0.

(** Four consecutive words of [state]. *)
Record Section4 := mkSection4 { sec0 : Z; sec1 : Z; sec2 : Z; sec3 : Z }.

Definition get_section (state : list Z) (o : Z) : Section4 :=
  mkSection4 (state.[o]) (state.[o + 1]) (state.[o + 2]) (state.[o + 3]).
Definition put_section (state : list Z) (o : Z) (s : Section4) : list Z :=
  wr (wr (wr (wr state o (sec0 s)) (o + 1) (sec1 s)) (o + 2) (sec2 s)) (o + 3) (sec3 s).

(** "scale down and truncate": the quotient by 2^14 rounded towards zero, but for
    exact negative multiples, which it moves up by one. *)
Definition scale_truncate (diff : Z) : Z :=
  let diff := diff ≫ 14 in if diff <? 0 then diff + 1 else diff.

(** The body every loop repeats, on input [tmp0]; [row] selects the coefficients. *)
Definition allpass_step (row : nat) (s : Section4) (tmp0 : Z) : Section4 :=
  let diff := tmp0 ⊟ sec1 s in
  let diff := (diff ⊞ 8192) ≫ 14 in
  let tmp1 := sec0 s ⊞ diff ⊠ coef row 0 in
  let s0 := tmp0 in
  let diff := scale_truncate (tmp1 ⊟ sec2 s) in
  let tmp0 := sec1 s ⊞ diff ⊠ coef row 1 in
  let s1 := tmp1 in
  let diff := scale_truncate (tmp0 ⊟ sec3 s) in
  let s3 := sec2 s ⊞ diff ⊠ coef row 2 in
  let s2 := tmp0 in
  mkSection4 s0 s1 s2 s3.

(** The loop over a branch: the new section and the value of its last word per sample. *)
Definition allpass_run (row : nat) (s : Section4) (xs : list Z) : Section4 * list Z :=
  run (λ s x, let s' := allpass_step row s x in (s', sec3 s')) s xs.

(** [((int32_t)in << 15) + (1 << 14)] *)
Definition short_to_int (x : Z) : Z := shl32 x 15 ⊞ 16384.

(** The two comparisons and the cast that store an [int16_t]. *)
Definition clip16 (tmp : Z) : Z :=
  let tmp := if tmp >? 0x7FFF then 0x7FFF else tmp in
  let tmp := if tmp <? -0x8000 then -0x8000 else tmp in
  s16 tmp.

(** Samples stored at even and at odd positions. *)
Fixpoint interleave (evens odds : list Z) : list Z :=
  match evens, odds with
  | e :: evens', o :: odds' => e :: o :: interleave evens' odds'
  | _, _ => []
  end.

(** Both branches of an 8-word state: lower (row 1, words 0-3) on [lo], upper (row 0,
    words 4-7) on [hi]. *)
Definition two_branches (state lo hi : list Z) : list Z * list Z * list Z :=
  let '(s_lo, o_lo) := allpass_run 1 (get_section state 0) lo in
  let '(s_hi, o_hi) := allpass_run 0 (get_section state 4) hi in
  (o_lo, o_hi, put_section (put_section state 0 s_lo) 4 s_hi).

(** Returns the output, the overwritten input and the state. *)
Definition WebRtcSpl_DownBy2IntToShort (inp state : list Z) : list Z * list Z * list Z :=
  let p := pairs inp in
  let '(o_lo, o_hi, state) := two_branches state p.*1 p.*2 in
  let buf := interleave (map (λ x, x ≫ 1) o_lo) (map (λ x, x ≫ 1) o_hi) in
  let len := zlen inp ≫ 1 in
  let out :=
    flat_map (λ k : nat,
      let i := 2 * Z.of_nat k in
      let tmp0 := (buf.[i * 2] ⊞ buf.[i * 2 + 1]) ≫ 15 in
      let tmp1 := (buf.[i * 2 + 2] ⊞ buf.[i * 2 + 3]) ≫ 15 in
      [clip16 tmp0; clip16 tmp1]) (seq 0 (Z.to_nat ((len + 1) ≫ 1))) in
  (out, buf, state).

Definition WebRtcSpl_DownBy2ShortToInt (inp state : list Z) : list Z * list Z :=
  let p := pairs inp in
  let '(o_lo, o_hi, state) :=
    two_branches state (map short_to_int p.*1) (map short_to_int p.*2) in
  (zip_with (λ a b, (a ≫ 1) ⊞ (b ≫ 1)) o_lo o_hi, state).

Definition WebRtcSpl_UpBy2ShortToInt (inp state : list Z) : list Z * list Z :=
  let xs := map short_to_int inp in
  let '(o_lo, o_hi, state) := two_branches state xs xs in
  (interleave (map (λ x, x ≫ 15) o_hi) (map (λ x, x ≫ 15) o_lo), state).

Definition WebRtcSpl_UpBy2IntToInt (inp state : list Z) : list Z * list Z :=
  let '(o_lo, o_hi, state) := two_branches state inp inp in
  (interleave o_hi o_lo, state).

Definition WebRtcSpl_UpBy2IntToShort (inp state : list Z) : list Z * list Z :=
  let '(o_lo, o_hi, state) := two_branches state inp inp in
  (interleave (map (λ x, clip16 (x ≫ 15)) o_hi) (map (λ x, clip16 (x ≫ 15)) o_lo), state).

(** The low-pass filters use 16 words: the lower branch of the even outputs runs on the
    odd inputs delayed by one, the delay element being the word 12 left by the previous
    call.  [lpby2] is the code of both functions, on the converted inputs. *)
Definition lpby2 (xs state : list Z) : list Z * list Z :=
  let p := pairs xs in
  let len := length p in
  let odds := p.*2 in
  let delayed := take len (state.[12] :: odds) in
  let '(sA, oA) := allpass_run 1 (get_section state 0) delayed in
  let state := put_section state 0 sA in
  let '(sB, oB) := allpass_run 0 (get_section state 4) p.*1 in
  let state := put_section state 4 sB in
  let '(sC, oC) := allpass_run 1 (get_section state 8) p.*1 in
  let state := put_section state 8 sC in
  let '(sD, oD) := allpass_run 0 (get_section state 12) odds in
  let state := put_section state 12 sD in
  let average := zip_with (λ a b, ((a ≫ 1) ⊞ (b ≫ 1)) ≫ 15) in
  (interleave (average oA oB) (average oC oD), state).

Definition WebRtcSpl_LPBy2ShortToInt (inp state : list Z) : list Z * list Z :=
  lpby2 (map short_to_int inp) state.

Definition WebRtcSpl_LPBy2IntToInt (inp state : list Z) : list Z * list Z :=
  lpby2 inp state.

(** * Lemmas *)

Lemma allpass_run_app row s xs ys :
  allpass_run row s (xs ++ ys) =
    let '(s1, o1) := allpass_run row s xs in
    let '(s2, o2) := allpass_run row s1 ys in (s2, o1 ++ o2).
Proof. apply run_app. Qed.

Lemma allpass_run_length row s xs : length (allpass_run row s xs).2 = length xs.
Proof. apply run_length. Qed.

Lemma interleave_length es os :
  length es = length os → length (interleave es os) = (2 * length es)%nat.
Proof.
  revert os. induction es as [|e es IH]; intros [|o os] H; simpl in *; try done.
  rewrite IH by lia. lia.
Qed.

Lemma interleave_app es os es' os' :
  length es = length os →
  interleave (es ++ es') (os ++ os') = interleave es os ++ interleave es' os'.
Proof.
  revert os. induction es as [|e es IH]; intros [|o os] H; simpl in *; try done.
  by rewrite IH by lia.
Qed.

(** A state of 8 or 16 words is the list of its sections. *)
Lemma sections8 (st : list Z) :
  length st = 8%nat →
  st = put_section (put_section st 0 (get_section st 0)) 4 (get_section st 4).
Proof.
  intros H. do 9 (destruct st as [|? st]; simpl in H; try lia). done.
Qed.

Lemma get_put_8 st a b :
  length st = 8%nat →
  let st' := put_section (put_section st 0 a) 4 b in
  length st' = 8%nat ∧ get_section st' 0 = a ∧ get_section st' 4 = b ∧
  ∀ c d, put_section (put_section st' 0 c) 4 d = put_section (put_section st 0 c) 4 d.
Proof.
  intros H. do 9 (destruct st as [|? st]; simpl in H; try lia).
  destruct a, b. repeat split.
Qed.

Lemma two_branches_app st lo lo' hi hi' :
  length st = 8%nat →
  two_branches st (lo ++ lo') (hi ++ hi') =
    let '(o1, p1, st1) := two_branches st lo hi in
    let '(o2, p2, st2) := two_branches st1 lo' hi' in (o1 ++ o2, p1 ++ p2, st2).
Proof.
  intros H. unfold two_branches. rewrite !allpass_run_app.
  destruct (allpass_run 1 (get_section st 0) lo) as [s1 o1].
  destruct (allpass_run 0 (get_section st 4) hi) as [s2 o2].
  destruct (get_put_8 st s1 s2 H) as (_ & E1 & E2 & E3). rewrite E1, E2.
  destruct (allpass_run 1 s1 lo') as [s3 o3], (allpass_run 0 s2 hi') as [s4 o4].
  by rewrite E3.
Qed.

Lemma two_branches_length st lo hi :
  length st = 8%nat →
  let '(o1, o2, st') := two_branches st lo hi in
  length o1 = length lo ∧ length o2 = length hi ∧ length st' = 8%nat.
Proof.
  intros H. unfold two_branches.
  pose proof (allpass_run_length 1 (get_section st 0) lo).
  pose proof (allpass_run_length 0 (get_section st 4) hi).
  destruct (allpass_run 1 (get_section st 0) lo) as [s1 o1].
  destruct (allpass_run 0 (get_section st 4) hi) as [s2 o2].
  split; [done|]. split; [done|]. apply (get_put_8 st s1 s2 H).
Qed.

Lemma get_put_16 st a b c d :
  length st = 16%nat →
  let put4 s a b c d :=
    put_section (put_section (put_section (put_section s 0 a) 4 b) 8 c) 12 d in
  let st' := put4 st a b c d in
  length st' = 16%nat ∧ get_section st' 0 = a ∧ get_section st' 4 = b ∧
  get_section st' 8 = c ∧ get_section st' 12 = d ∧ st'.[12] = sec0 d ∧
  (∀ a' b' c' d', put4 st' a' b' c' d' = put4 st a' b' c' d').
Proof.
  intros H. do 17 (destruct st as [|? st]; simpl in H; try lia).
  destruct a, b, c, d. repeat split.
Qed.

(** The sections a call reads are those of the state it was given. *)
Lemma get_put_other_16 st a b c :
  length st = 16%nat →
  get_section (put_section st 0 a) 4 = get_section st 4 ∧
  get_section (put_section (put_section st 0 a) 4 b) 8 = get_section st 8 ∧
  get_section (put_section (put_section (put_section st 0 a) 4 b) 8 c) 12 = get_section st 12.
Proof.
  intros H. do 17 (destruct st as [|? st]; simpl in H; try lia). repeat split.
Qed.

(** The delay element: word 12 is the last odd input seen. *)
Lemma allpass_run_last row s xs x : sec0 (allpass_run row s (xs ++ [x])).1 = x.
Proof.
  rewrite allpass_run_app. destruct (allpass_run row s xs) as [s1 o1]. done.
Qed.

Lemma delayed_app (d : Z) (xs ys : list Z) :
  xs ≠ [] →
  take (length (xs ++ ys)) (d :: xs ++ ys) =
    take (length xs) (d :: xs) ++ take (length ys) (List.last xs 0 :: ys).
Proof.
  intros Hx. destruct (exists_last Hx) as (xs' & x & ->).
  rewrite last_last, !length_app. simpl.
  replace (length xs' + 1 + length ys)%nat with (S (length xs' + length ys)) by lia.
  replace (length xs' + 1)%nat with (S (length xs')) by lia. simpl. f_equal.
  rewrite <- !app_assoc. simpl. rewrite take_app_add. f_equal.
  rewrite take_app_length. done.
Qed.

Lemma sections16 st : length st = 16%nat →
  put_section (put_section (put_section (put_section st 0 (get_section st 0))
    4 (get_section st 4)) 8 (get_section st 8)) 12 (get_section st 12) = st.
Proof. intros H. do 17 (destruct st as [|? st]; simpl in H; try lia). done. Qed.

(** The low-pass filter with the state written once at the end. *)
Lemma lpby2_alt xs st :
  length st = 16%nat →
  lpby2 xs st =
    let p := pairs xs in
    let rA := allpass_run 1 (get_section st 0) (take (length p) (st.[12] :: p.*2)) in
    let rB := allpass_run 0 (get_section st 4) p.*1 in
    let rC := allpass_run 1 (get_section st 8) p.*1 in
    let rD := allpass_run 0 (get_section st 12) p.*2 in
    let average := zip_with (λ a b, ((a ≫ 1) ⊞ (b ≫ 1)) ≫ 15) in
    (interleave (average rA.2 rB.2) (average rC.2 rD.2),
     put_section (put_section (put_section (put_section st 0 rA.1) 4 rB.1) 8 rC.1) 12 rD.1).
Proof.
  intros H. unfold lpby2. destruct (allpass_run 1 (get_section st 0) _) as [sA oA].
  destruct (get_put_other_16 st sA (allpass_run 0 (get_section st 4) (pairs xs).*1).1
    (allpass_run 1 (get_section st 8) (pairs xs).*1).1 H) as (E1 & E2 & E3).
  rewrite E1. destruct (allpass_run 0 (get_section st 4) _) as [sB oB]. simpl in E2, E3.
  rewrite E2. destruct (allpass_run 1 (get_section st 8) _) as [sC oC]. simpl in E3.
  rewrite E3. by destruct (allpass_run 0 (get_section st 12) _) as [sD oD].
Qed.

Lemma run_proj_app row s xs ys :
  (allpass_run row s (xs ++ ys)).1 = (allpass_run row (allpass_run row s xs).1 ys).1 ∧
  (allpass_run row s (xs ++ ys)).2 =
    (allpass_run row s xs).2 ++ (allpass_run row (allpass_run row s xs).1 ys).2.
Proof.
  rewrite allpass_run_app. destruct (allpass_run row s xs) as [s1 o1]. simpl.
  by destruct (allpass_run row s1 ys).
Qed.

Lemma pairs_even_nil {A} (l : list A) : Nat.Even (length l) → pairs l = [] → l = [].
Proof. destruct l as [|a [|b l]]; simpl; intros [k Hk]; try done; lia. Qed.

Lemma lpby2_app xs ys st :
  length st = 16%nat → Nat.Even (length xs) →
  lpby2 (xs ++ ys) st =
    let '(o1, st1) := lpby2 xs st in let '(o2, st2) := lpby2 ys st1 in (o1 ++ o2, st2).
Proof.
  intros H Hev. destruct (decide (pairs xs = [])) as [Hnil|Hne].
  { apply pairs_even_nil in Hnil as ->; [|done]. rewrite (lpby2_alt [] st) by done. simpl.
    rewrite sections16 by done. by destruct (lpby2 ys st). }
  rewrite !lpby2_alt by done. rewrite pairs_app by done. cbv zeta.
  set (p := pairs xs) in *. set (q := pairs ys). rewrite !fmap_app.
  assert (length p = length (p.*2)) as Lp by (by rewrite length_fmap).
  assert (length q = length (q.*2)) as Lq by (by rewrite length_fmap).
  rewrite length_app, Lp, Lq, <- length_app, delayed_app by (by destruct p).
  set (rA := allpass_run 1 (get_section st 0) (take (length p.*2) (st.[12] :: p.*2))).
  set (rB := allpass_run 0 (get_section st 4) p.*1).
  set (rC := allpass_run 1 (get_section st 8) p.*1).
  set (rD := allpass_run 0 (get_section st 12) p.*2).
  destruct (get_put_16 st rA.1 rB.1 rC.1 rD.1 H) as (HL & E0 & E4 & E8 & E12 & Ed & Eput).
  rewrite lpby2_alt by done. cbv zeta. fold q.
  rewrite E0, E4, E8, E12, Ed, Eput, Lq.
  assert (sec0 rD.1 = List.last p.*2 0) as ->.
  { assert (p.*2 ≠ []) as Hne2 by (by destruct p). subst rD.
    destruct (exists_last Hne2) as (l' & x & ->). by rewrite allpass_run_last, last_last. }
  destruct (run_proj_app 1 (get_section st 0) (take (length p.*2) (st.[12] :: p.*2))
    (take (length q.*2) (List.last p.*2 0 :: q.*2))) as [-> ->].
  destruct (run_proj_app 0 (get_section st 4) p.*1 q.*1) as [-> ->].
  destruct (run_proj_app 1 (get_section st 8) p.*1 q.*1) as [-> ->].
  destruct (run_proj_app 0 (get_section st 12) p.*2 q.*2) as [-> ->].
  fold rA rB rC rD. f_equal.
  assert (length rA.2 = length p ∧ length rB.2 = length p ∧ length rC.2 = length p ∧
          length rD.2 = length p) as (LA & LB & LC & LD).
  { subst rA rB rC rD. rewrite !allpass_run_length, !length_fmap, length_take. simpl.
    rewrite length_fmap. lia. }
  rewrite !zip_with_app by lia. rewrite interleave_app; [done|].
  rewrite !length_zip_with. lia.
Qed.

(** The combining loop of the decimator, two outputs per turn. *)
Lemma combine_pairs (g : Z → Z → Z) m (buf : list Z) :
  length buf = (4 * m)%nat →
  flat_map (λ k : nat, let i := 2 * Z.of_nat k in
      [g (buf.[i * 2]) (buf.[i * 2 + 1]); g (buf.[i * 2 + 2]) (buf.[i * 2 + 3])]) (seq 0 m)
  = map (λ p, g p.1 p.2) (pairs buf).
Proof.
  revert buf. induction m as [|m IH]; intros buf Hb.
  - by destruct buf.
  - destruct buf as [|a [|b [|c [|d buf]]]]; simpl in Hb; try lia.
    rewrite <- cons_seq, <- fmap_S_seq. simpl pairs. rewrite !map_cons. rewrite <- (IH buf) by lia.
    simpl flat_map. f_equal. f_equal.
    rewrite flat_map_concat_map. rewrite flat_map_concat_map. f_equal.
    change (S <$> seq 0 m) with (map S (seq 0 m)). rewrite map_map. apply map_ext. intros k.
    assert (∀ j, 0 ≤ j → (a :: b :: c :: d :: buf).[j + 4] = buf.[j]) as Hsh.
    { intros j Hj. rewrite !rd_nth by lia. by replace (Z.to_nat (j + 4)) with (4 + Z.to_nat j)%nat by lia. }
    cbv zeta. replace (2 * Z.of_nat (S k) * 2) with (2 * Z.of_nat k * 2 + 4) by lia.
    rewrite <- !(Hsh (2 * Z.of_nat k * 2)), <- !(Hsh (2 * Z.of_nat k * 2 + 1)),
      <- !(Hsh (2 * Z.of_nat k * 2 + 2)), <- !(Hsh (2 * Z.of_nat k * 2 + 3)) by lia.
    do 2 f_equal; [f_equal; lia|]. f_equal; f_equal; lia.
Qed.

Lemma pairs_interleave es os : length es = length os → pairs (interleave es os) = zip es os.
Proof.
  revert os. induction es as [|e es IH]; intros [|o os] H; simpl in *; try done.
  by rewrite IH by lia.
Qed.

(** The decimator without its in-place buffer, for inputs of a multiple of four. *)
Lemma DownBy2IntToShort_alt inp st :
  length st = 8%nat → (∃ m, length inp = 4 * m)%nat →
  let p := pairs inp in
  let '(o_lo, o_hi, st') := two_branches st p.*1 p.*2 in
  (WebRtcSpl_DownBy2IntToShort inp st).1.1 =
    zip_with (λ a b, clip16 (((a ≫ 1) ⊞ (b ≫ 1)) ≫ 15)) o_lo o_hi ∧
  (WebRtcSpl_DownBy2IntToShort inp st).2 = st'.
Proof.
  intros H [m Hm] p. unfold WebRtcSpl_DownBy2IntToShort. fold p.
  pose proof (two_branches_length st p.*1 p.*2 H) as HL.
  destruct (two_branches st p.*1 p.*2) as [[o_lo o_hi] st'] eqn:E. simpl.
  destruct HL as (L1 & L2 & _). split; [|done].
  rewrite !length_fmap in *. subst p. rewrite pairs_length in L1, L2.
  assert (Nat.div2 (length inp) = 2 * m)%nat as Hd
    by (rewrite Hm; replace (4 * m)%nat with (2 * (2 * m))%nat by lia; apply Nat.div2_double).
  replace (Z.to_nat ((zlen inp ≫ 1 + 1) ≫ 1)) with m.
  2:{ rewrite Hm, !shiftr_div by lia. change (2 ^ 1) with 2.
      rewrite Nat2Z.inj_mul. zdiv. }
  pose proof (combine_pairs (λ a b, clip16 ((a ⊞ b) ≫ 15)) m) as Hc. cbv zeta in Hc |- *.
  rewrite Hc by (rewrite interleave_length; rewrite !length_map; lia).
  rewrite pairs_interleave by (rewrite !length_map; lia).
  clear. revert o_hi. induction o_lo as [|a l IH]; intros [|b k]; simpl; try done. by rewrite IH.
Qed.

(** [f input state] processes one frame: frames of admissible lengths one after the
    other, with the state carried along, are processed as their concatenation. *)
Definition frame_independent (words : nat) (ok : nat → Prop)
    (f : list Z → list Z → list Z * list Z) : Prop :=
  ∀ st xs ys, length st = words → ok (length xs) → ok (length ys) →
    f (xs ++ ys) st =
      let '(o1, st1) := f xs st in let '(o2, st2) := f ys st1 in (o1 ++ o2, st2).

Definition any_length (n : nat) : Prop := True.
Definition multiple_of_4 (n : nat) : Prop := (∃ m, n = 4 * m)%nat.

(** What a cascade of filters relies on: a stage with [words] words of state turns an
    admissible number [n] of samples into [rate n], keeps the size of its state and does not
    depend on the framing. *)
Class Stage (words : nat) (ok : nat → Prop) (rate : nat → nat)
    (f : list Z → list Z → list Z * list Z) : Prop := {
  stage_len st xs :
    length st = words → ok (length xs) →
    length (f xs st).1 = rate (length xs) ∧ length (f xs st).2 = words;
  stage_stream : frame_independent words ok f }.

Lemma Stage_ext words ok rate f g :
  (∀ inp st, f inp st = g inp st) → Stage words ok rate f → Stage words ok rate g.
Proof.
  intros E [HL HS]. split; [intros st xs; rewrite <- E; apply HL|].
  intros st xs ys Hs Hx Hy. rewrite <- !E, HS by done.
  destruct (f xs st) as [o1 st1]. by rewrite <- E.
Qed.

Definition double (n : nat) : nat := (2 * n)%nat.
Definition id_rate (n : nat) : nat := n.

(** The decimator without its scratch result. *)
Definition down_by_2 (inp st : list Z) : list Z * list Z :=
  ((WebRtcSpl_DownBy2IntToShort inp st).1.1, (WebRtcSpl_DownBy2IntToShort inp st).2).

#[export] Instance DownBy2ShortToInt_stage :
  Stage 8 Nat.Even Nat.div2 WebRtcSpl_DownBy2ShortToInt.
Proof.
  split.
  - intros st xs H Hx. unfold WebRtcSpl_DownBy2ShortToInt.
    pose proof (two_branches_length st (map short_to_int (pairs xs).*1)
      (map short_to_int (pairs xs).*2) H) as HL.
    destruct (two_branches st _ _) as [[o1 p1] st1]. destruct HL as (L1 & L2 & L3). simpl.
    rewrite length_zip_with. rewrite ?length_map, ?length_fmap, pairs_length in *. lia.
  - intros st xs ys H Hx _. unfold WebRtcSpl_DownBy2ShortToInt.
    rewrite pairs_app, (fmap_app fst), (fmap_app snd), !map_app, two_branches_app by done.
    pose proof (two_branches_length st (map short_to_int (pairs xs).*1)
      (map short_to_int (pairs xs).*2) H) as HL.
    destruct (two_branches st _ _) as [[o1 p1] st1]. destruct HL as (L1 & L2 & _).
    destruct (two_branches st1 _ _) as [[o2 p2] st2].
    rewrite ?length_map, ?length_fmap in *. by rewrite zip_with_app by lia.
Qed.

Lemma up_stage (g : Z → Z) (h : Z → Z) :
  Stage 8 any_length double (λ inp st,
    let '(o_lo, o_hi, st) := two_branches st (map h inp) (map h inp) in
    (interleave (map g o_hi) (map g o_lo), st)).
Proof.
  split.
  - intros st xs H _. pose proof (two_branches_length st (map h xs) (map h xs) H) as HL.
    destruct (two_branches st _ _) as [[o1 p1] st1]. destruct HL as (L1 & L2 & L3). simpl.
    rewrite interleave_length; rewrite !length_map in *; unfold double; lia.
  - intros st xs ys H _ _. rewrite !map_app, two_branches_app by done.
    pose proof (two_branches_length st (map h xs) (map h xs) H) as HL.
    destruct (two_branches st _ _) as [[o1 p1] st1]. destruct HL as (L1 & L2 & _).
    destruct (two_branches st1 _ _) as [[o2 p2] st2].
    rewrite !map_app, interleave_app; [done|]. rewrite !length_map in *. lia.
Qed.

#[export] Instance UpBy2ShortToInt_stage : Stage 8 any_length double WebRtcSpl_UpBy2ShortToInt.
Proof. apply (up_stage (λ x, x ≫ 15) short_to_int). Qed.

#[export] Instance UpBy2IntToInt_stage : Stage 8 any_length double WebRtcSpl_UpBy2IntToInt.
Proof.
  refine (Stage_ext _ _ _ _ _ _ (up_stage id id)). intros inp st.
  unfold WebRtcSpl_UpBy2IntToInt. rewrite map_id.
  destruct (two_branches _ _ _) as [[o1 o2] s]. by rewrite !map_id.
Qed.

#[export] Instance UpBy2IntToShort_stage : Stage 8 any_length double WebRtcSpl_UpBy2IntToShort.
Proof.
  refine (Stage_ext _ _ _ _ _ _ (up_stage (λ x, clip16 (x ≫ 15)) id)). intros inp st.
  unfold WebRtcSpl_UpBy2IntToShort. by rewrite map_id.
Qed.

Lemma lpby2_stage (h : Z → Z) : Stage 16 Nat.Even id_rate (λ inp st, lpby2 (map h inp) st).
Proof.
  split.
  - intros st xs H [k Hx]. rewrite lpby2_alt by done. cbv zeta.
    set (rA := allpass_run _ _ (take _ _)). set (rB := allpass_run 0 (get_section st 4) _).
    set (rC := allpass_run 1 (get_section st 8) _). set (rD := allpass_run 0 (get_section st 12) _).
    split; [|apply (get_put_16 st rA.1 rB.1 rC.1 rD.1 H)]. simpl.
    assert (length (pairs (map h xs)) = k) as Lp.
    { rewrite pairs_length, length_map, Hx. apply Nat.div2_double. }
    rewrite interleave_length; rewrite !length_zip_with;
      subst rA rB rC rD; rewrite !allpass_run_length, ?length_take; simpl;
      rewrite !length_fmap, Lp; unfold id_rate; lia.
  - intros st xs ys H Hx _. rewrite map_app. apply lpby2_app; [done|by rewrite length_map].
Qed.

#[export] Instance LPBy2ShortToInt_stage : Stage 16 Nat.Even id_rate WebRtcSpl_LPBy2ShortToInt.
Proof. apply (lpby2_stage short_to_int). Qed.
#[export] Instance LPBy2IntToInt_stage : Stage 16 Nat.Even id_rate WebRtcSpl_LPBy2IntToInt.
Proof. refine (Stage_ext _ _ _ _ _ _ (lpby2_stage id)). intros. by rewrite map_id. Qed.

#[export] Instance down_by_2_stage : Stage 8 multiple_of_4 Nat.div2 down_by_2.
Proof.
  split.
  - intros st xs H Hx. unfold down_by_2. pose proof (DownBy2IntToShort_alt xs st H Hx) as E.
    cbv zeta in E. pose proof (two_branches_length st (pairs xs).*1 (pairs xs).*2 H) as HL.
    destruct (two_branches st _ _) as [[o1 p1] st1]. destruct HL as (L1 & L2 & L3).
    destruct E as [-> ->]. simpl. rewrite length_zip_with.
    rewrite ?length_fmap, pairs_length in *. lia.
  - intros st xs ys H Hx Hy. unfold down_by_2.
    assert (multiple_of_4 (length (xs ++ ys))) as Hxy.
    { destruct Hx as [m ?], Hy as [n ?]. exists (m + n)%nat. rewrite length_app. lia. }
    pose proof (DownBy2IntToShort_alt xs st H Hx) as E1.
    pose proof (DownBy2IntToShort_alt (xs ++ ys) st H Hxy) as E2. cbv zeta in E1, E2.
    rewrite pairs_app, !fmap_app, two_branches_app in E2;
      [|done|destruct Hx as [m ->]; exists (2 * m)%nat; lia].
    pose proof (two_branches_length st (pairs xs).*1 (pairs xs).*2 H) as HL.
    destruct (two_branches st _ _) as [[o1 p1] st1]. destruct HL as (L1 & L2 & Hst1).
    destruct E1 as [-> ->]. pose proof (DownBy2IntToShort_alt ys st1 Hst1 Hy) as E3.
    cbv zeta in E3. destruct (two_branches st1 _ _) as [[o2 p2] st2].
    destruct E2 as [-> ->], E3 as [-> ->].
    rewrite !length_fmap in *. by rewrite zip_with_app by lia.
Qed.

(** * Properties *)

(** The half-band interpolators, decimators and low-pass filters are independent of
    the framing: for frames of any length (interpolators), of even length (the decimator
    to 32 bits and the low-pass filters, whose delay element is carried in word 12 of the
    state) and of a multiple of four (the in-place decimator to 16 bits), filtering two
    frames in succession gives the samples and the state of filtering them as one. *)
Lemma half_band_frame_independent :
  frame_independent 8 any_length WebRtcSpl_UpBy2ShortToInt ∧
  frame_independent 8 any_length WebRtcSpl_UpBy2IntToInt ∧
  frame_independent 8 any_length WebRtcSpl_UpBy2IntToShort ∧
  frame_independent 8 Nat.Even WebRtcSpl_DownBy2ShortToInt ∧
  frame_independent 8 multiple_of_4 (λ inp st,
    ((WebRtcSpl_DownBy2IntToShort inp st).1.1, (WebRtcSpl_DownBy2IntToShort inp st).2)) ∧
  frame_independent 16 Nat.Even WebRtcSpl_LPBy2ShortToInt ∧
  frame_independent 16 Nat.Even WebRtcSpl_LPBy2IntToInt.
Proof. repeat apply conj; apply stage_stream. Qed.
