(* ===== verification/Resample2.v ===== *)
(** The 16-bit half-band resamplers of common_audio/signal_processing/resample_by_2.c
    (portable build).

    Each branch is a cascade of three first-order all-pass sections in Q10 on four state
    words.  The main theorem is that no 32-bit operation overflows for any sequence of
    16-bit input frames starting from the reset state: it rests on an invariant of the
    section state that bounds the output of a section with coefficient [a] by
    [(1 + 2a)] times the bound of its input. *)
From S2P Require Import Prelude SplInl.

(** * Definitions *)

Definition kResampleAllpass1 : list Z := [3284; 24441; 49528].
Definition kResampleAllpass2 : list Z := [12199; 37471; 60255].

(** [WEBRTC_SPL_SCALEDIFF32(A, B, C)]: the last product and sum are [uint32_t]. *)
Definition WEBRTC_SPL_SCALEDIFF32 (A B C : Z) : Z :=
  s32 (u32 ((C ⊞ (B ≫ 16) ⊠ A) + (u32 (Z.land B 0x0000FFFF * A) ≫ 16))).

Definition MUL_ACCUM_1 (a b c : Z) : Z := WEBRTC_SPL_SCALEDIFF32 a b c.
Definition MUL_ACCUM_2 (a b c : Z) : Z := WEBRTC_SPL_SCALEDIFF32 a b c.

(** Four registers of one branch. *)
Record Branch := mkBranch { st0 : Z; st1 : Z; st2 : Z; st3 : Z }.

(** The statements of one branch for one input; [k0 k1 k2] are its coefficients. *)
Definition allpass_branch (k : list Z) (s : Branch) (in32 : Z) : Branch :=
  let diff := in32 ⊟ st1 s in
  let tmp1 := MUL_ACCUM_1 (k.[0]) diff (st0 s) in
  let diff := tmp1 ⊟ st2 s in
  let tmp2 := MUL_ACCUM_2 (k.[1]) diff (st1 s) in
  let diff := tmp2 ⊟ st3 s in
  let state3 := MUL_ACCUM_2 (k.[2]) diff (st2 s) in
  mkBranch in32 tmp1 tmp2 state3.

(** [filtState]: words 0-3 are the lower branch, words 4-7 the upper one. *)
Definition load_state (filtState : list Z) : Branch * Branch :=
  (mkBranch (filtState.[0]) (filtState.[1]) (filtState.[2]) (filtState.[3]),
   mkBranch (filtState.[4]) (filtState.[5]) (filtState.[6]) (filtState.[7])).
Definition save_state (s : Branch * Branch) : list Z :=
  [st0 s.1; st1 s.1; st2 s.1; st3 s.1; st0 s.2; st1 s.2; st2 s.2; st3 s.2].

(** One turn of the decimating loop: two input samples, one output sample. *)
Definition down_step (s : Branch * Branch) (x : Z * Z) : (Branch * Branch) * Z :=
  let lower := allpass_branch kResampleAllpass2 s.1 (x.1 ⊠ 1024) in
  let upper := allpass_branch kResampleAllpass1 s.2 (x.2 ⊠ 1024) in
  let out32 := (st3 lower ⊞ st3 upper ⊞ 1024) ≫ 11 in
  ((lower, upper), WebRtcSpl_SatW32ToW16 out32).

Definition WebRtcSpl_DownsampleBy2 (inp filtState : list Z) : list Z * list Z :=
  let '(s, out) := run down_step (load_state filtState) (pairs inp) in
  (out, save_state s).

(** One turn of the interpolating loop: one input sample, two output samples. *)
Definition up_step (s : Branch * Branch) (x : Z) : (Branch * Branch) * list Z :=
  let in32 := x ⊠ 1024 in
  let lower := allpass_branch kResampleAllpass1 s.1 in32 in
  let out_l := WebRtcSpl_SatW32ToW16 ((st3 lower ⊞ 512) ≫ 10) in
  let upper := allpass_branch kResampleAllpass2 s.2 in32 in
  let out_u := WebRtcSpl_SatW32ToW16 ((st3 upper ⊞ 512) ≫ 10) in
  ((lower, upper), [out_l; out_u]).

Definition WebRtcSpl_UpsampleBy2 (inp filtState : list Z) : list Z * list Z :=
  let '(s, out) := run up_step (load_state filtState) inp in
  (concat out, save_state s).

(** * The ideal resampler: the same recurrences over the integers *)

Definition ideal_section (A x xp yp : Z) : Z := xp + (A * (x - yp)) `div` 65536.

Definition ideal_branch (k : list Z) (s : Branch) (x : Z) : Branch :=
  let y1 := ideal_section (k.[0]) x (st0 s) (st1 s) in
  let y2 := ideal_section (k.[1]) y1 (st1 s) (st2 s) in
  let y3 := ideal_section (k.[2]) y2 (st2 s) (st3 s) in
  mkBranch x y1 y2 y3.

Definition ideal_down_step (s : Branch * Branch) (x : Z * Z) : (Branch * Branch) * Z :=
  let lower := ideal_branch kResampleAllpass2 s.1 (x.1 * 1024) in
  let upper := ideal_branch kResampleAllpass1 s.2 (x.2 * 1024) in
  ((lower, upper), clamp (-32768) 32767 ((st3 lower + st3 upper + 1024) `div` 2048)).

Definition ideal_up_step (s : Branch * Branch) (x : Z) : (Branch * Branch) * list Z :=
  let lower := ideal_branch kResampleAllpass1 s.1 (x * 1024) in
  let upper := ideal_branch kResampleAllpass2 s.2 (x * 1024) in
  ((lower, upper), [clamp (-32768) 32767 ((st3 lower + 512) `div` 1024);
                    clamp (-32768) 32767 ((st3 upper + 512) `div` 1024)]).

(** * One section *)

(** The section state is bounded for inputs bounded by [M]; [R] absorbs rounding. *)
Definition sec_inv (A M R xp yp : Z) : Prop :=
  Z.abs xp ≤ M ∧ Z.abs (65536 * xp - A * yp) ≤ (65536 + A) * M + R.

Lemma abs_mul_le c x B : 0 ≤ c → Z.abs x ≤ B → Z.abs (c * x) ≤ c * B.
Proof. intros. rewrite Z.abs_mul, (Z.abs_eq c) by done. by apply Z.mul_le_mono_nonneg_l. Qed.

Lemma sec_inv_step A M R x xp yp :
  0 ≤ A ≤ 65535 → 0 ≤ M → 65535 * A ≤ (65536 - A) * R →
  sec_inv A M R xp yp → Z.abs x ≤ M →
  let y := ideal_section A x xp yp in
  sec_inv A M R x y ∧ 65536 * Z.abs y ≤ (2 * A + 65536) * M + R + 65535.
Proof.
  intros HA HM HR [Hxp Hw] Hx y.
  pose proof (Z.div_mod (A * (x - yp)) 65536 ltac:(lia)) as E.
  pose proof (Z.mod_pos_bound (A * (x - yp)) 65536 ltac:(lia)) as He.
  set (e := (A * (x - yp)) `mod` 65536) in *. set (w := 65536 * xp - A * yp) in *.
  assert (65536 * y = w + A * x - e) as Ey by (subst y w; unfold ideal_section; lia).
  pose proof (abs_mul_le A x M ltac:(lia) Hx) as HAx.
  split; [|lia]. split; [done|].
  assert (65536 * (65536 * x - A * y) = (65536 * 65536 - A * A) * x - A * w + A * e) as E2.
  { transitivity (65536 * 65536 * x - A * (65536 * y)); [ring|]. rewrite Ey. ring. }
  pose proof (abs_mul_le (65536 * 65536 - A * A) x M ltac:(nia) Hx) as H1.
  pose proof (abs_mul_le A w _ ltac:(lia) Hw) as H2.
  assert (0 ≤ A * e ≤ 65535 * A) as H3 by nia.
  assert (65536 * Z.abs (65536 * x - A * y) ≤ 65536 * ((65536 + A) * M + R)) as H4; [|lia].
  rewrite <- (Z.abs_eq 65536), <- Z.abs_mul at 1 by lia. rewrite E2.
  transitivity ((65536 * 65536 - A * A) * M + A * ((65536 + A) * M + R) + 65535 * A); [lia|].
  ring_simplify. lia.
Qed.

(** The 32-bit section computes the ideal one when its result is in range. *)
Lemma scalediff_ideal A x xp yp :
  0 ≤ A ≤ 65535 → int32 (x - yp) → int32 (ideal_section A x xp yp) →
  WEBRTC_SPL_SCALEDIFF32 A (x ⊟ yp) xp = ideal_section A x xp yp.
Proof.
  intros HA Hd Hy. rewrite sub32_id by done. set (B := x - yp) in *.
  unfold WEBRTC_SPL_SCALEDIFF32. rewrite shiftr_div by lia.
  change 0x0000FFFF with (Z.ones 16). rewrite Z.land_ones by lia.
  change (2 ^ 16) with 65536. rewrite shiftr_div by lia. change (2 ^ 16) with 65536.
  pose proof (Z.mod_pos_bound B 65536 ltac:(lia)) as Hm.
  rewrite (u32_id (B `mod` 65536 * A)) by (unfold_ints; nia).
  assert ((A * B) `div` 65536 = (B `div` 65536) * A + (B `mod` 65536 * A) `div` 65536) as E.
  { rewrite (Z.div_mod B 65536) at 1 by lia.
    replace (A * (65536 * (B `div` 65536) + B `mod` 65536))
      with (B `mod` 65536 * A + (B `div` 65536 * A) * 65536) by ring.
    rewrite Z.div_add by lia. lia. }
  unfold ideal_section in *. fold B in Hy |- *. rewrite E in *.
  rewrite s32_u32. set (p := B `div` 65536 * A) in *. set (q := (B `mod` 65536 * A) `div` 65536) in *.
  rewrite <- (s32_id (xp + (p + q))) by done.
  unfold add32, mul32. fold p. by rewrite s32_add_l, <- Z.add_assoc, (Z.add_comm (s32 p)),
    Z.add_assoc, s32_add_r, <- Z.add_assoc, (Z.add_comm q).
Qed.

(** * A branch *)

(** Bounds of the branch input and of its three section outputs, and the rounding terms. *)
Record Bounds := mkBounds { in_max : Z; y1_max : Z; y2_max : Z; y3_max : Z;
                            r0 : Z; r1 : Z; r2 : Z }.

Definition bounds2 : Bounds := mkBounds 33554432 46046210 98701167 280196505 14989 87500 747740.
Definition bounds1 : Bounds := mkBounds 33554432 36917250 64453095 161872316 3458 38977 202763.

(** The bounds grow by [(1 + 2a)] per section and leave room in 32 bits for the differences. *)
Definition bounds_ok (k : list Z) (b : Bounds) : bool :=
  let ok A M R M' :=
    (0 <=? A) && (A <=? 65535) && (0 <=? M) && (65535 * A <=? (65536 - A) * R) &&
    ((2 * A + 65536) * M + R + 65535 <=? 65536 * M') && (M + M' <=? 2147483647) in
  ok (k.[0]) (in_max b) (r0 b) (y1_max b) && ok (k.[1]) (y1_max b) (r1 b) (y2_max b) &&
  ok (k.[2]) (y2_max b) (r2 b) (y3_max b).

Definition branch_inv (k : list Z) (b : Bounds) (s : Branch) : Prop :=
  sec_inv (k.[0]) (in_max b) (r0 b) (st0 s) (st1 s) ∧
  sec_inv (k.[1]) (y1_max b) (r1 b) (st1 s) (st2 s) ∧
  sec_inv (k.[2]) (y2_max b) (r2 b) (st2 s) (st3 s) ∧ Z.abs (st3 s) ≤ y3_max b.

(** The operands and the difference of a section are in range and the section is exact. *)
Definition sec_ok (A x xp yp : Z) : Prop :=
  int32 x ∧ int32 yp ∧ int32 (x - yp) ∧
  WEBRTC_SPL_SCALEDIFF32 A (x - yp) xp = ideal_section A x xp yp.

(** One section: exact, and the invariant is kept. *)
Lemma section_exact A M R M' x xp yp :
  0 ≤ A ≤ 65535 → 0 ≤ M → 65535 * A ≤ (65536 - A) * R →
  (2 * A + 65536) * M + R + 65535 ≤ 65536 * M' → M + M' ≤ 2147483647 →
  sec_inv A M R xp yp → Z.abs yp ≤ M' → Z.abs x ≤ M →
  let y := ideal_section A x xp yp in
  sec_ok A x xp yp ∧ sec_inv A M R x y ∧ Z.abs y ≤ M'.
Proof.
  intros HA HM HR HM' Hs Hi Hyp Hx y.
  destruct (sec_inv_step A M R x xp yp HA HM HR Hi Hx) as [H1 H2]. fold y in H1, H2.
  assert (int32 (x - yp)) as Hd by cint.
  split; [|split; [done|lia]]. repeat split; [cint..|].
  rewrite <- (sub32_id x yp) by done. apply scalediff_ideal; [done..|]. fold y. cint.
Qed.

(** The three sections of a branch are exact and the invariant is kept. *)
Lemma branch_sections k b s x :
  bounds_ok k b = true → branch_inv k b s → Z.abs x ≤ in_max b →
  let y1 := ideal_section (k.[0]) x (st0 s) (st1 s) in
  let y2 := ideal_section (k.[1]) y1 (st1 s) (st2 s) in
  sec_ok (k.[0]) x (st0 s) (st1 s) ∧ sec_ok (k.[1]) y1 (st1 s) (st2 s) ∧
  sec_ok (k.[2]) y2 (st2 s) (st3 s) ∧ branch_inv k b (ideal_branch k s x).
Proof.
  intros Hok (I0 & I1 & I2 & I3) Hx y1 y2. unfold bounds_ok in Hok.
  rewrite !andb_true_iff, !Z.leb_le in Hok.
  destruct Hok as [[Hk0 Hk1] Hk2].
  destruct Hk0 as [[[[[? ?] ?] ?] ?] ?], Hk1 as [[[[[? ?] ?] ?] ?] ?], Hk2 as [[[[[? ?] ?] ?] ?] ?].
  pose proof (proj1 I1) as Hs1. pose proof (proj1 I2) as Hs2.
  destruct (section_exact (k.[0]) (in_max b) (r0 b) (y1_max b) x (st0 s) (st1 s))
    as (E0 & J0 & B0); [lia..|done|done|done|]. fold y1 in J0, B0.
  destruct (section_exact (k.[1]) (y1_max b) (r1 b) (y2_max b) y1 (st1 s) (st2 s))
    as (E1 & J1 & B1); [lia..|done|done|done|]. fold y2 in J1, B1.
  destruct (section_exact (k.[2]) (y2_max b) (r2 b) (y3_max b) y2 (st2 s) (st3 s))
    as (E2 & J2 & B2); [lia..|done|done|done|].
  do 3 (split; [done|]). by repeat (split; [done|]).
Qed.

Lemma branch_exact k b s x :
  bounds_ok k b = true → branch_inv k b s → Z.abs x ≤ in_max b →
  allpass_branch k s x = ideal_branch k s x ∧ branch_inv k b (ideal_branch k s x).
Proof.
  intros Hok Hs Hx.
  destruct (branch_sections k b s x Hok Hs Hx) as ((_&_&D0&E0) & (_&_&D1&E1) & (_&_&D2&E2) & J).
  split; [|done]. unfold allpass_branch, ideal_branch, MUL_ACCUM_1, MUL_ACCUM_2.
  rewrite sub32_id, E0 by done. rewrite sub32_id, E1 by done. by rewrite sub32_id, E2 by done.
Qed.

(** * Both branches *)

Definition down_inv (s : Branch * Branch) : Prop :=
  branch_inv kResampleAllpass2 bounds2 s.1 ∧ branch_inv kResampleAllpass1 bounds1 s.2.
Definition up_inv (s : Branch * Branch) : Prop :=
  branch_inv kResampleAllpass1 bounds1 s.1 ∧ branch_inv kResampleAllpass2 bounds2 s.2.

Lemma bounds_ok1 : bounds_ok kResampleAllpass1 bounds1 = true.
Proof. done. Qed.
Lemma bounds_ok2 : bounds_ok kResampleAllpass2 bounds2 = true.
Proof. done. Qed.

Lemma input_q10 x : int16 x → x ⊠ 1024 = x * 1024 ∧ Z.abs (x * 1024) ≤ 33554432.
Proof. intros. split; [apply mul32_id|]; cint. Qed.

Lemma st3_bound k b s : branch_inv k b s → Z.abs (st3 s) ≤ y3_max b.
Proof. intros (_ & _ & _ & H). done. Qed.

Lemma down_step_exact s x :
  down_inv s → int16 x.1 ∧ int16 x.2 →
  down_step s x = ideal_down_step s x ∧ down_inv (down_step s x).1.
Proof.
  intros [H1 H2] [Hx1 Hx2]. unfold down_step, ideal_down_step.
  destruct (input_q10 _ Hx1) as [-> B1], (input_q10 _ Hx2) as [-> B2].
  destruct (branch_exact _ _ _ _ bounds_ok2 H1 B1) as [-> J1].
  destruct (branch_exact _ _ _ _ bounds_ok1 H2 B2) as [-> J2].
  pose proof (st3_bound _ _ _ J1) as S1. pose proof (st3_bound _ _ _ J2) as S2.
  unfold bounds1, bounds2 in S1, S2. simpl y3_max in S1, S2.
  split; [|done]. f_equal. rewrite SatW32ToW16_clamp, shiftr_div by lia. change (2 ^ 11) with 2048.
  f_equal. unwrap. done.
Qed.

Lemma up_step_exact s x :
  up_inv s → int16 x → up_step s x = ideal_up_step s x ∧ up_inv (up_step s x).1.
Proof.
  intros [H1 H2] Hx. unfold up_step, ideal_up_step.
  destruct (input_q10 _ Hx) as [-> B].
  destruct (branch_exact _ _ _ _ bounds_ok1 H1 B) as [-> J1].
  destruct (branch_exact _ _ _ _ bounds_ok2 H2 B) as [-> J2].
  pose proof (st3_bound _ _ _ J1) as S1. pose proof (st3_bound _ _ _ J2) as S2.
  unfold bounds1, bounds2 in S1, S2. simpl y3_max in S1, S2.
  split; [|done]. f_equal. rewrite !SatW32ToW16_clamp, !shiftr_div by lia.
  change (2 ^ 10) with 1024. by rewrite !add32_id by cint.
Qed.

Lemma load_save s : load_state (save_state s) = s.
Proof. by destruct s as [[] []]. Qed.

Definition reset_state : list Z := replicate 8 0.

Lemma reset_inv : down_inv (load_state reset_state) ∧ up_inv (load_state reset_state).
Proof. vm_compute. repeat split; congruence. Qed.

(** Frames filtered one after the other with the state of the C interface. *)
Fixpoint process_frames (f : list Z → list Z → list Z * list Z) (filtState : list Z)
    (frames : list (list Z)) : list Z * list Z :=
  match frames with
  | [] => ([], filtState)
  | fr :: frames' =>
      let '(o1, st1) := f fr filtState in
      let '(o2, st2) := process_frames f st1 frames' in (o1 ++ o2, st2)
  end.

(** No overflow.  From the reset state, over any sequence of frames of 16-bit
    samples, [WebRtcSpl_DownsampleBy2] computes exactly the all-pass recurrences over the
    unbounded integers, followed by rounding and saturation: none of its 32-bit
    operations ever overflows. *)
Lemma DownsampleBy2_exact frames :
  Forall (Forall int16) frames →
  process_frames WebRtcSpl_DownsampleBy2 reset_state frames =
    (let '(s, out) := run ideal_down_step (load_state reset_state) (flat_map pairs frames) in
     (out, save_state s)).
Proof.
  intros Hf. destruct reset_inv as [H0 _]. change reset_state with (save_state (load_state reset_state)) at 1.
  revert H0. generalize (load_state reset_state). induction Hf as [|fr frames Hfr Hf IH]; intros s Hs; [done|].
  simpl. unfold WebRtcSpl_DownsampleBy2 at 1. rewrite load_save.
  assert (Forall (λ p, int16 p.1 ∧ int16 p.2) (pairs fr)) as Hp by (by apply pairs_Forall).
  rewrite run_app, <- (run_ext_inv down_step _ down_inv _ s (pairs fr) down_step_exact Hs Hp).
  pose proof (run_inv down_step down_inv _ (λ _, True) s (pairs fr)
    (λ s x Hs Hx, conj (proj2 (down_step_exact s x Hs Hx)) I) Hs Hp) as [Hs1 _].
  destruct (run down_step s (pairs fr)) as [s1 o1]. simpl in Hs1. rewrite IH by done.
  by destruct (run ideal_down_step s1 _).
Qed.

(** No overflow in the interpolator.  From the reset state, over any sequence of
    frames of 16-bit samples, [WebRtcSpl_UpsampleBy2] computes exactly the all-pass
    recurrences over the unbounded integers with rounding and saturation, and produces
    two output samples per input sample. *)
Lemma UpsampleBy2_exact frames :
  Forall (Forall int16) frames →
  process_frames WebRtcSpl_UpsampleBy2 reset_state frames =
    (let '(s, out) := run ideal_up_step (load_state reset_state) (concat frames) in
     (concat out, save_state s)) ∧
  length (process_frames WebRtcSpl_UpsampleBy2 reset_state frames).1 =
    (2 * length (concat frames))%nat.
Proof.
  intros Hf. enough (process_frames WebRtcSpl_UpsampleBy2 reset_state frames =
    (let '(s, out) := run ideal_up_step (load_state reset_state) (concat frames) in
     (concat out, save_state s))) as E.
  { split; [done|]. rewrite E. generalize (load_state reset_state) as s.
    generalize (concat frames) as xs. induction xs as [|x xs IH]; intros s; simpl; [done|].
    specialize (IH (ideal_up_step s x).1). unfold ideal_up_step in *. simpl in *.
    destruct (run _ _ xs) as [s' o]. simpl in *. lia. }
  destruct reset_inv as [_ H0]. change reset_state with (save_state (load_state reset_state)) at 1.
  revert H0. generalize (load_state reset_state). induction Hf as [|fr frames Hfr Hf IH]; intros s Hs; [done|].
  simpl. unfold WebRtcSpl_UpsampleBy2 at 1. rewrite load_save.
  rewrite run_app, <- (run_ext_inv up_step _ up_inv _ s fr up_step_exact Hs Hfr).
  pose proof (run_inv up_step up_inv _ (λ _, True) s fr
    (λ s x Hs Hx, conj (proj2 (up_step_exact s x Hs Hx)) I) Hs Hfr) as [Hs1 _].
  destruct (run up_step s fr) as [s1 o1]. simpl in Hs1. rewrite IH by done.
  destruct (run ideal_up_step s1 _). by rewrite concat_app.
Qed.

(** * Properties *)

(** Resampling by two.  From the reset state, over any sequence of frames of 16-bit
    samples, the decimator and the interpolator compute exactly the all-pass recurrences
    over the unbounded integers, followed by rounding and saturation: none of their
    32-bit operations ever overflows, and the interpolator writes two samples for one. *)
Lemma resample_by_2_exact frames :
  Forall (Forall int16) frames →
  process_frames WebRtcSpl_DownsampleBy2 reset_state frames =
    (let '(s, out) := run ideal_down_step (load_state reset_state) (flat_map pairs frames) in
     (out, save_state s)) ∧
  process_frames WebRtcSpl_UpsampleBy2 reset_state frames =
    (let '(s, out) := run ideal_up_step (load_state reset_state) (concat frames) in
     (concat out, save_state s)) ∧
  length (process_frames WebRtcSpl_UpsampleBy2 reset_state frames).1 =
    (2 * length (concat frames))%nat.
Proof. intros Hf. split; [by apply DownsampleBy2_exact|by apply UpsampleBy2_exact]. Qed.

Lemma resample_by_2_exact_witness :
  length (process_frames WebRtcSpl_UpsampleBy2 reset_state [[32767; -32768]; [1]]).1 = 6%nat.
Proof. apply (resample_by_2_exact [[32767; -32768]; [1]]). repeat constructor; cint. Defined.
