(* ===== verification/SplittingFilter.v ===== *)
(** The quadrature mirror filter bank of
    common_audio/signal_processing/splitting_filter.c.

    [WebRtcSpl_AllPassQMF] runs three first-order all-pass passes over a whole frame,
    forwards and backwards between its two buffers, and keeps six state words.
    The analysis bank splits a frame into two half-rate bands; the synthesis bank joins
    them.  The theorems show that the three buffer passes are the sample-wise cascade of
    the three sections, that no subtraction saturates and no operation wraps for any
    sequence of 16-bit frames from the reset state, and that the result depends neither
    on how the signal is cut into frames nor on the initial content of the local
    buffers. *)
From S2P Require Import Prelude SplInl Resample2.

(** * Definitions *)

Definition kMaxBandFrameLength : Z := 320.

Definition WebRtcSpl_kAllPassFilter1 : list Z := [6418; 36982; 57261].
Definition WebRtcSpl_kAllPassFilter2 : list Z := [21333; 49062; 63010].

(** One pass: filter [data_length] words of [src] into [dst] with coefficient [a]; the
    first sample uses the state words [xp] (last input) and [yp] (last output). *)
Definition allpass_pass (a : Z) (src : list Z) (data_length : Z) (dst : list Z) (xp yp : Z)
  : list Z :=
  let diff := WebRtcSpl_SubSatW32 (src.[0]) yp in
  let dst := wr dst 0 (WEBRTC_SPL_SCALEDIFF32 a diff xp) in
  for_up 1 (Z.to_nat (data_length - 1)) (λ k dst,
    let diff := WebRtcSpl_SubSatW32 (src.[k]) (dst.[k - 1]) in
    wr dst k (WEBRTC_SPL_SCALEDIFF32 a diff (src.[k - 1]))) dst.

(** The result is [(in_data, out_data, filter_state)]: all three are written. *)
Definition WebRtcSpl_AllPassQMF (in_data : list Z) (data_length : Z) (out_data : list Z)
    (filter_coefficients filter_state : list Z) : list Z * list Z * list Z :=
  let out_data := allpass_pass (filter_coefficients.[0]) in_data data_length out_data
                    (filter_state.[0]) (filter_state.[1]) in
  let filter_state := wr filter_state 0 (in_data.[data_length - 1]) in
  let filter_state := wr filter_state 1 (out_data.[data_length - 1]) in
  let in_data := allpass_pass (filter_coefficients.[1]) out_data data_length in_data
                   (filter_state.[2]) (filter_state.[3]) in
  let filter_state := wr filter_state 2 (out_data.[data_length - 1]) in
  let filter_state := wr filter_state 3 (in_data.[data_length - 1]) in
  let out_data := allpass_pass (filter_coefficients.[2]) in_data data_length out_data
                    (filter_state.[4]) (filter_state.[5]) in
  let filter_state := wr filter_state 4 (in_data.[data_length - 1]) in
  let filter_state := wr filter_state 5 (out_data.[data_length - 1]) in
  (in_data, out_data, filter_state).

(** The four local buffers, whose content on entry is arbitrary. *)
Record Locals := mkLocals
  { half_in1 : list Z; half_in2 : list Z; filter1 : list Z; filter2 : list Z }.

(** Each loop that stores into two disjoint arrays is written as one [fill] per array. *)
Definition WebRtcSpl_AnalysisQMF (loc : Locals) (in_data : list Z) (in_data_length : Z)
    (low_band high_band filter_state1 filter_state2 : list Z)
  : list Z * list Z * list Z * list Z :=
  let band_length := in_data_length `div` 2 in
  let half2 := fill band_length (λ i, in_data.[2 * i] ⊠ 1024) (half_in2 loc) in
  let half1 := fill band_length (λ i, in_data.[2 * i + 1] ⊠ 1024) (half_in1 loc) in
  let '(_, f1, filter_state1) := WebRtcSpl_AllPassQMF half1 band_length (filter1 loc)
                                   WebRtcSpl_kAllPassFilter1 filter_state1 in
  let '(_, f2, filter_state2) := WebRtcSpl_AllPassQMF half2 band_length (filter2 loc)
                                   WebRtcSpl_kAllPassFilter2 filter_state2 in
  let low_band := fill band_length (λ i,
    WebRtcSpl_SatW32ToW16 ((f1.[i] ⊞ f2.[i] ⊞ 1024) ≫ 11)) low_band in
  let high_band := fill band_length (λ i,
    WebRtcSpl_SatW32ToW16 ((f1.[i] ⊟ f2.[i] ⊞ 1024) ≫ 11)) high_band in
  (low_band, high_band, filter_state1, filter_state2).

Definition WebRtcSpl_SynthesisQMF (loc : Locals) (low_band high_band : list Z)
    (band_length : Z) (out_data filter_state1 filter_state2 : list Z)
  : list Z * list Z * list Z :=
  let half1 := fill band_length (λ i, (low_band.[i] ⊞ high_band.[i]) ⊠ 1024) (half_in1 loc) in
  let half2 := fill band_length (λ i, (low_band.[i] ⊟ high_band.[i]) ⊠ 1024) (half_in2 loc) in
  let '(_, f1, filter_state1) := WebRtcSpl_AllPassQMF half1 band_length (filter1 loc)
                                   WebRtcSpl_kAllPassFilter2 filter_state1 in
  let '(_, f2, filter_state2) := WebRtcSpl_AllPassQMF half2 band_length (filter2 loc)
                                   WebRtcSpl_kAllPassFilter1 filter_state2 in
  let out_data := for_up 0 (Z.to_nat band_length) (λ i out_data,
    let out_data := wr out_data (2 * i) (WebRtcSpl_SatW32ToW16 ((f2.[i] ⊞ 512) ≫ 10)) in
    wr out_data (2 * i + 1) (WebRtcSpl_SatW32ToW16 ((f1.[i] ⊞ 512) ≫ 10))) out_data in
  (out_data, filter_state1, filter_state2).

(** * The ideal filter bank: the recurrences over the integers *)

(** The registers of a branch as the six words of the C state. *)
Definition six (s : Branch) : list Z := [st0 s; st1 s; st1 s; st2 s; st2 s; st3 s].

Definition branch_out (k : list Z) (s : Branch) (x : Z) : Branch * Z :=
  let s' := ideal_branch k s x in (s', st3 s').

(** One pair of samples in, one sample of each band out. *)
Definition ideal_analysis_step (s : Branch * Branch) (x : Z * Z)
  : (Branch * Branch) * (Z * Z) :=
  let s1 := ideal_branch WebRtcSpl_kAllPassFilter1 s.1 (x.2 * 1024) in
  let s2 := ideal_branch WebRtcSpl_kAllPassFilter2 s.2 (x.1 * 1024) in
  ((s1, s2), (clamp (-32768) 32767 ((st3 s1 + st3 s2 + 1024) `div` 2048),
              clamp (-32768) 32767 ((st3 s1 - st3 s2 + 1024) `div` 2048))).

(** One sample of each band in, a pair of samples out. *)
Definition ideal_synthesis_step (s : Branch * Branch) (x : Z * Z)
  : (Branch * Branch) * (Z * Z) :=
  let s1 := ideal_branch WebRtcSpl_kAllPassFilter2 s.1 ((x.1 + x.2) * 1024) in
  let s2 := ideal_branch WebRtcSpl_kAllPassFilter1 s.2 ((x.1 - x.2) * 1024) in
  ((s1, s2), (clamp (-32768) 32767 ((st3 s2 + 512) `div` 1024),
              clamp (-32768) 32767 ((st3 s1 + 512) `div` 1024))).

(** * Buffer passes *)

Definition sec_step (a : Z) (s : Z * Z) (x : Z) : (Z * Z) * Z :=
  let y := WEBRTC_SPL_SCALEDIFF32 a (WebRtcSpl_SubSatW32 x s.2) s.1 in ((x, y), y).

(** The state after a pass is the last input and the last output. *)
Lemma run_sec_last a s xs n :
  0 < n → n = zlen xs →
  (run (sec_step a) s xs).1 = (xs.[n - 1], (run (sec_step a) s xs).2.[n - 1]).
Proof.
  intros Hn ->. destruct xs as [|x xs _] using rev_ind; [done|].
  rewrite run_app. pose proof (run_length (sec_step a) s xs) as HL.
  destruct (run (sec_step a) s xs) as [s1 o1]. simpl in HL |- *.
  by rewrite !rd_snoc by (rewrite length_app; simpl; lia).
Qed.

(** A buffer pass is the section run over the samples; the rest of [dst] is kept. *)
Lemma pass_run a src n dst xp yp :
  0 < n ≤ zlen src → n ≤ zlen dst →
  allpass_pass a src n dst xp yp =
    (run (sec_step a) (xp, yp) (take (Z.to_nat n) src)).2 ++ drop (Z.to_nat n) dst.
Proof.
  intros Hs Hd. unfold allpass_pass.
  pose proof (for_up_inv (λ k d, d =
    (run (sec_step a) (xp, yp) (take (Z.to_nat k) src)).2 ++ drop (Z.to_nat k) dst)
    1 (Z.to_nat (n - 1))) as H.
  replace (1 + Z.of_nat (Z.to_nat (n - 1))) with n in H by lia. apply H; clear H.
  - pose proof (wr_next [] dst 0) as E. simpl in E. rewrite E by (simpl; lia).
    rewrite (take_rd src 0 : 0 ≤ 0 < zlen src → take (Z.to_nat 1) src = _) by lia. done.
  - intros k d Hk ->. set (xs := take (Z.to_nat k) src).
    assert (zlen xs = k) as Hxs by (unfold xs; rewrite length_take; lia).
    pose proof (run_length (sec_step a) (xp, yp) xs) as HL.
    pose proof (run_sec_last a (xp, yp) xs k ltac:(lia) ltac:(lia)) as HS.
    rewrite rd_prev, wr_next by lia. f_equal. rewrite take_rd, run_app by lia. fold xs.
    destruct (run (sec_step a) (xp, yp) xs) as [s1 o1]. simpl in HS, HL |- *. subst s1. simpl.
    unfold xs. by rewrite rd_take by lia.
Qed.

(** * A branch over the three passes *)

Lemma sec_step_ok A x xp yp :
  sec_ok A x xp yp →
  sec_step A (xp, yp) x = ((x, ideal_section A x xp yp), ideal_section A x xp yp).
Proof.
  intros (Hx & Hy & Hd & E). unfold sec_step. cbn [fst snd].
  rewrite SubSatW32_clamp by done. rewrite clamp_id by (unfold_ints; lia). by rewrite E.
Qed.

(** Running the sections one after the other over the frame is running the branch. *)
Lemma passes_branch k b s xs :
  bounds_ok k b = true → branch_inv k b s → Forall (λ x, Z.abs x ≤ in_max b) xs →
  let r1 := run (sec_step (k.[0])) (st0 s, st1 s) xs in
  let r2 := run (sec_step (k.[1])) (st1 s, st2 s) r1.2 in
  let r3 := run (sec_step (k.[2])) (st2 s, st3 s) r2.2 in
  let r := run (branch_out k) s xs in
  r3.2 = r.2 ∧ r1.1 = (st0 r.1, st1 r.1) ∧ r2.1 = (st1 r.1, st2 r.1) ∧
  r3.1 = (st2 r.1, st3 r.1) ∧ branch_inv k b r.1 ∧ Forall (λ y, Z.abs y ≤ y3_max b) r.2.
Proof.
  intros Hok Hs Hxs. revert s Hs. induction Hxs as [|x xs Hx Hxs IH]; intros s Hs.
  { simpl. repeat split; try done; try constructor; apply Hs. }
  destruct (branch_sections k b s x Hok Hs Hx) as (E0 & E1 & E2 & J).
  destruct (IH _ J) as (I1 & I2 & I3 & I4 & Hs' & Hys). clear IH.
  cbv zeta in *. rewrite (run_cons _ _ _ _ _ _ (sec_step_ok _ _ _ _ E0)).
  cbn [fst snd]. rewrite (run_cons _ _ _ _ _ _ (sec_step_ok _ _ _ _ E1)).
  cbn [fst snd]. rewrite (run_cons _ _ _ _ _ _ (sec_step_ok _ _ _ _ E2)).
  rewrite (run_cons (branch_out k) s x xs _ _ eq_refl). cbn [fst snd].
  split; [by f_equal|]. do 4 (split; [done|]). by constructor; [exact (st3_bound _ _ _ J)|].
Qed.

Definition qmf_bounds1 : Bounds :=
  mkBounds 67108864 80252930 170826476 469340121 7115 84879 453487.
Definition qmf_bounds2 : Bounds :=
  mkBounds 67108864 110798850 276692811 808748929 31629 195173 1634743.

Lemma qmf_ok1 : bounds_ok WebRtcSpl_kAllPassFilter1 qmf_bounds1 = true.
Proof. done. Qed.
Lemma qmf_ok2 : bounds_ok WebRtcSpl_kAllPassFilter2 qmf_bounds2 = true.
Proof. done. Qed.

(** The three passes with the reads and writes of the six state words resolved. *)
Lemma AllPassQMF_passes in_data n out_data k s0 s1 s2 s3 s4 s5 :
  WebRtcSpl_AllPassQMF in_data n out_data k [s0; s1; s2; s3; s4; s5] =
    let o1 := allpass_pass (k.[0]) in_data n out_data s0 s1 in
    let i2 := allpass_pass (k.[1]) o1 n in_data s2 s3 in
    let o3 := allpass_pass (k.[2]) i2 n o1 s4 s5 in
    (i2, o3, [in_data.[n - 1]; o1.[n - 1]; o1.[n - 1]; i2.[n - 1]; i2.[n - 1]; o3.[n - 1]]).
Proof. done. Qed.

(** [WebRtcSpl_AllPassQMF] on the state words of a branch. *)
Lemma AllPassQMF_branch k b s in_data n out_data :
  bounds_ok k b = true → branch_inv k b s →
  0 < n ≤ zlen in_data → n ≤ zlen out_data →
  Forall (λ x, Z.abs x ≤ in_max b) (take (Z.to_nat n) in_data) →
  let r := run (branch_out k) s (take (Z.to_nat n) in_data) in
  ∃ in', WebRtcSpl_AllPassQMF in_data n out_data k (six s) =
           (in', r.2 ++ drop (Z.to_nat n) out_data, six r.1) ∧
         branch_inv k b r.1 ∧ Forall (λ y, Z.abs y ≤ y3_max b) r.2.
Proof.
  intros Hok Hs Hin Hout Hxs r. set (xs := take (Z.to_nat n) in_data) in *.
  assert (zlen xs = n) as Lxs by (unfold xs; rewrite length_take; lia).
  destruct (passes_branch k b s xs Hok Hs Hxs) as (P1 & P2 & P3 & P4 & Hs' & Hys).
  unfold six at 1. rewrite AllPassQMF_passes. cbv zeta.
  set (r1 := run (sec_step (k.[0])) (st0 s, st1 s) xs) in *.
  set (r2 := run (sec_step (k.[1])) (st1 s, st2 s) r1.2) in *.
  set (r3 := run (sec_step (k.[2])) (st2 s, st3 s) r2.2) in *.
  assert (length r1.2 = length xs) as L1 by apply run_length.
  assert (length r2.2 = length xs) as L2 by (rewrite <- L1; apply run_length).
  assert (length r3.2 = length xs) as L3 by (rewrite <- L2; apply run_length).
  rewrite (pass_run (k.[0])) by lia. fold xs r1.
  rewrite (pass_run (k.[1])) by (rewrite ?length_app, ?length_drop; lia).
  rewrite (take_prefix r1.2) by lia. fold r2.
  rewrite (pass_run (k.[2])) by (rewrite ?length_app, ?length_drop; lia).
  rewrite (take_prefix r2.2), (drop_prefix r1.2) by lia. fold r3.
  eexists. split; [|done]. rewrite !rd_prev by lia.
  replace (in_data.[n - 1]) with (xs.[n - 1]) by (apply rd_take; lia).
  pose proof (run_sec_last (k.[0]) (st0 s, st1 s) xs n ltac:(lia) ltac:(lia)) as S1.
  pose proof (run_sec_last (k.[1]) (st1 s, st2 s) r1.2 n ltac:(lia) ltac:(lia)) as S2.
  pose proof (run_sec_last (k.[2]) (st2 s, st3 s) r2.2 n ltac:(lia) ltac:(lia)) as S3.
  fold r1 in S1. fold r2 in S2. fold r3 in S3. fold r in P1, P2, P3, P4.
  rewrite P2 in S1. rewrite P3 in S2. rewrite P4 in S3.
  injection S1 as <- <-. injection S2 as _ <-. injection S3 as _ <-. by rewrite P1.
Qed.

(** * Loops over the two bands *)

(** Two independent runs side by side. *)
Lemma run_pair {S1 S2 A B1 B2 X C} (f : S1 → A → S1 * B1) (g : S2 → A → S2 * B2)
    (h1 h2 : X → A) (c : B1 → B2 → C) a b xs :
  run (λ s x, let '(s1, y1) := f s.1 (h1 x) in let '(s2, y2) := g s.2 (h2 x) in
              ((s1, s2), c y1 y2)) (a, b) xs =
    let r1 := run f a (h1 <$> xs) in let r2 := run g b (h2 <$> xs) in
    ((r1.1, r2.1), zip_with c r1.2 r2.2).
Proof.
  revert a b. induction xs as [|x xs IH]; intros a b; [done|]. cbn [run fmap list_fmap fst snd].
  destruct (f a (h1 x)) as [a' y1], (g b (h2 x)) as [b' y2]. rewrite IH. simpl.
  destruct (run f a' _), (run g b' _). done.
Qed.

(** The outputs of two branches combined sample by sample. *)
Lemma seqZ_zip_prefix {A} (c : Z → Z → A) (l k l' k' : list Z) n :
  zlen l = n → zlen k = n →
  ((λ i, c ((l ++ l').[i]) ((k ++ k').[i])) <$> seqZ 0 n) = zip_with c l k.
Proof.
  intros Hl Hk. rewrite <- (seqZ_zip c l k n) by done. apply list_fmap_ext. intros i z Hz.
  apply lookup_seqZ in Hz. by rewrite !rd_app_l by lia.
Qed.

(** * One frame *)

Definition locals_ok (loc : Locals) : Prop :=
  zlen (half_in1 loc) = kMaxBandFrameLength ∧ zlen (half_in2 loc) = kMaxBandFrameLength ∧
  zlen (filter1 loc) = kMaxBandFrameLength ∧ zlen (filter2 loc) = kMaxBandFrameLength.

Definition analysis_inv (s : Branch * Branch) : Prop :=
  branch_inv WebRtcSpl_kAllPassFilter1 qmf_bounds1 s.1 ∧
  branch_inv WebRtcSpl_kAllPassFilter2 qmf_bounds2 s.2.
Definition synthesis_inv (s : Branch * Branch) : Prop :=
  branch_inv WebRtcSpl_kAllPassFilter2 qmf_bounds2 s.1 ∧
  branch_inv WebRtcSpl_kAllPassFilter1 qmf_bounds1 s.2.

(** A branch whose input buffer is filled from the items [xs] by [f]. *)
Lemma filled_branch {X} k b s half out n (g : Z → Z) (f : X → Z) (xs : list X) :
  bounds_ok k b = true → branch_inv k b s →
  0 < n ≤ zlen half → n ≤ zlen out → zlen xs = n →
  (g <$> seqZ 0 n) = (f <$> xs) → Forall (λ x, Z.abs (f x) ≤ in_max b) xs →
  let r := run (branch_out k) s (f <$> xs) in
  ∃ in', WebRtcSpl_AllPassQMF (fill n g half) n out k (six s) =
           (in', r.2 ++ drop (Z.to_nat n) out, six r.1) ∧
         branch_inv k b r.1 ∧ Forall (λ y, Z.abs y ≤ y3_max b) r.2 ∧ zlen r.2 = n.
Proof.
  intros Hok Hs Hh Ho Hx Hg Hf r.
  assert (zlen (f <$> xs) = n) as Hl by (by rewrite length_fmap).
  rewrite fill_spec, Hg by lia.
  destruct (AllPassQMF_branch k b s ((f <$> xs) ++ drop (Z.to_nat n) half) n out)
    as (in' & E & Hi & Hy); [done|done| | | |].
  - rewrite length_app. lia.
  - done.
  - rewrite take_prefix by done. by apply Forall_fmap.
  - rewrite take_prefix in E, Hi, Hy by done. exists in'. fold r in E, Hi, Hy.
    split; [done|]. split; [done|]. split; [done|]. unfold r. by rewrite run_length.
Qed.

(** The two branches of a bank run independently. *)
Lemma run_analysis a b xs :
  run ideal_analysis_step (a, b) xs =
    let r1 := run (branch_out WebRtcSpl_kAllPassFilter1) a ((λ p, p.2 * 1024) <$> xs) in
    let r2 := run (branch_out WebRtcSpl_kAllPassFilter2) b ((λ p, p.1 * 1024) <$> xs) in
    ((r1.1, r2.1), zip_with (λ y1 y2,
      (clamp (-32768) 32767 ((y1 + y2 + 1024) `div` 2048),
       clamp (-32768) 32767 ((y1 - y2 + 1024) `div` 2048))) r1.2 r2.2).
Proof.
  exact (run_pair (branch_out WebRtcSpl_kAllPassFilter1) (branch_out WebRtcSpl_kAllPassFilter2)
    (λ p, p.2 * 1024) (λ p, p.1 * 1024) _ a b xs).
Qed.

Lemma run_synthesis a b xs :
  run ideal_synthesis_step (a, b) xs =
    let r1 := run (branch_out WebRtcSpl_kAllPassFilter2) a ((λ p, (p.1 + p.2) * 1024) <$> xs) in
    let r2 := run (branch_out WebRtcSpl_kAllPassFilter1) b ((λ p, (p.1 - p.2) * 1024) <$> xs) in
    ((r1.1, r2.1), zip_with (λ y1 y2,
      (clamp (-32768) 32767 ((y2 + 512) `div` 1024),
       clamp (-32768) 32767 ((y1 + 512) `div` 1024))) r1.2 r2.2).
Proof.
  exact (run_pair (branch_out WebRtcSpl_kAllPassFilter2) (branch_out WebRtcSpl_kAllPassFilter1)
    (λ p, (p.1 + p.2) * 1024) (λ p, (p.1 - p.2) * 1024) _ a b xs).
Qed.

(** The Q10 inputs of a branch: the 32-bit products are exact. *)
Lemma inputs_q10 (h h' : Z * Z → Z) xs :
  Forall (λ p : Z * Z, int16 p.1 ∧ int16 p.2) xs →
  (∀ p : Z * Z, int16 p.1 ∧ int16 p.2 → h p = h' p * 1024 ∧ Z.abs (h' p * 1024) ≤ 67108864) →
  h <$> xs = (λ p, h' p * 1024) <$> xs ∧ Forall (λ p, Z.abs (h' p * 1024) ≤ 67108864) xs.
Proof.
  intros Hx Hh. split.
  - apply Forall_fmap_ext_1. eapply Forall_impl; [|exact Hx]. intros p Hp. by apply Hh.
  - eapply Forall_impl; [|exact Hx]. intros p Hp. by apply Hh.
Qed.

(** Rounding and saturation of the bands. *)
Lemma band_exact y1 y2 :
  Z.abs y1 ≤ y3_max qmf_bounds1 → Z.abs y2 ≤ y3_max qmf_bounds2 →
  WebRtcSpl_SatW32ToW16 ((y1 ⊞ y2 ⊞ 1024) ≫ 11) = clamp (-32768) 32767 ((y1 + y2 + 1024) `div` 2048) ∧
  WebRtcSpl_SatW32ToW16 ((y1 ⊟ y2 ⊞ 1024) ≫ 11) = clamp (-32768) 32767 ((y1 - y2 + 1024) `div` 2048).
Proof.
  unfold qmf_bounds1, qmf_bounds2. simpl y3_max. intros.
  rewrite !SatW32ToW16_clamp, !shiftr_div by lia. change (2 ^ 11) with 2048. by unwrap.
Qed.

Lemma joined_exact y M : M ≤ 808748929 → Z.abs y ≤ M →
  WebRtcSpl_SatW32ToW16 ((y ⊞ 512) ≫ 10) = clamp (-32768) 32767 ((y + 512) `div` 1024).
Proof.
  intros. rewrite SatW32ToW16_clamp, shiftr_div by lia. change (2 ^ 10) with 1024.
  by rewrite add32_id by cint.
Qed.

Lemma analysis_frame loc fr n low high a b :
  locals_ok loc → Forall int16 fr → zlen fr = 2 * n → 0 < n ≤ kMaxBandFrameLength →
  n ≤ zlen low → n ≤ zlen high → analysis_inv (a, b) →
  let r := run ideal_analysis_step (a, b) (pairs fr) in
  WebRtcSpl_AnalysisQMF loc fr (2 * n) low high (six a) (six b) =
    (r.2.*1 ++ drop (Z.to_nat n) low, r.2.*2 ++ drop (Z.to_nat n) high,
     six r.1.1, six r.1.2) ∧ analysis_inv r.1.
Proof.
  intros (L1 & L2 & L3 & L4) Hfr Hlen Hn Hlow Hhigh [H1 H2]. rewrite run_analysis. cbv zeta.
  unfold WebRtcSpl_AnalysisQMF.
  rewrite (Z.mul_comm 2 n), Z.div_mul by lia. apply pairs_Forall in Hfr.
  assert (zlen (pairs fr) = n) as Lp.
  { rewrite pairs_length. replace (length fr) with (2 * Z.to_nat n)%nat by lia.
    rewrite Nat.div2_double. lia. }
  destruct (inputs_q10 (λ p, p.2 ⊠ 1024) snd (pairs fr) Hfr) as [E1 F1].
  { intros p Hp. destruct (input_q10 p.2) as [-> ?]; [tauto|]. split; [done|cint]. }
  destruct (inputs_q10 (λ p, p.1 ⊠ 1024) fst (pairs fr) Hfr) as [E2 F2].
  { intros p Hp. destruct (input_q10 p.1) as [-> ?]; [tauto|]. split; [done|cint]. }
  pose proof (seqZ_pairs (λ _ y, y ⊠ 1024) fr n Hlen) as G1; cbv beta in G1; rewrite E1 in G1.
  pose proof (seqZ_pairs (λ x _, x ⊠ 1024) fr n Hlen) as G2; cbv beta in G2; rewrite E2 in G2.
  destruct (filled_branch WebRtcSpl_kAllPassFilter1 qmf_bounds1 a (half_in1 loc) (filter1 loc) n
    _ _ (pairs fr) qmf_ok1 H1 ltac:(lia) ltac:(lia) Lp G1 F1) as (i1 & -> & I1 & B1 & N1).
  destruct (filled_branch WebRtcSpl_kAllPassFilter2 qmf_bounds2 b (half_in2 loc) (filter2 loc) n
    _ _ (pairs fr) qmf_ok2 H2 ltac:(lia) ltac:(lia) Lp G2 F2) as (i2 & -> & I2 & B2 & N2).
  set (r1 := run _ a _) in *. set (r2 := run _ b _) in *. cbn [fst snd].
  split; [|done]. rewrite !fill_spec by lia. rewrite !fmap_zip_with'.
  rewrite (seqZ_zip_prefix (λ y1 y2, WebRtcSpl_SatW32ToW16 ((y1 ⊞ y2 ⊞ 1024) ≫ 11)) r1.2 r2.2) by done.
  rewrite (seqZ_zip_prefix (λ y1 y2, WebRtcSpl_SatW32ToW16 ((y1 ⊟ y2 ⊞ 1024) ≫ 11)) r1.2 r2.2) by done.
  rewrite (zip_with_ext_Forall _ _ _ _ _ _ (λ y1 y2 h1 h2, proj1 (band_exact y1 y2 h1 h2)) B1 B2).
  by rewrite (zip_with_ext_Forall _ _ _ _ _ _ (λ y1 y2 h1 h2, proj2 (band_exact y1 y2 h1 h2)) B1 B2).
Qed.

Lemma zip_int16 low high :
  Forall int16 low → Forall int16 high →
  Forall (λ p : Z * Z, int16 p.1 ∧ int16 p.2) (zip low high).
Proof.
  intros Hl. revert high. induction Hl as [|x l Hx Hl IH]; intros [|y k] Hk; [constructor..|].
  apply Forall_cons_1 in Hk as [? ?]. by constructor; [|apply IH].
Qed.

Lemma synthesis_frame loc low high n out a b :
  locals_ok loc → Forall int16 low → Forall int16 high → zlen low = n → zlen high = n →
  0 < n ≤ kMaxBandFrameLength → 2 * n ≤ zlen out → synthesis_inv (a, b) →
  let r := run ideal_synthesis_step (a, b) (zip low high) in
  WebRtcSpl_SynthesisQMF loc low high n out (six a) (six b) =
    (flat_map (λ p, [p.1; p.2]) r.2 ++ drop (Z.to_nat (2 * n)) out, six r.1.1, six r.1.2) ∧
  synthesis_inv r.1.
Proof.
  intros (L1 & L2 & L3 & L4) Hlo Hhi Hl Hh Hn Hout [H1 H2]. rewrite run_synthesis. cbv zeta.
  unfold WebRtcSpl_SynthesisQMF. pose proof (zip_int16 _ _ Hlo Hhi) as Hz.
  assert (zlen (zip low high) = n) as Lp by (rewrite length_zip_with; lia).
  destruct (inputs_q10 (λ p, (p.1 ⊞ p.2) ⊠ 1024) (λ p, p.1 + p.2) (zip low high) Hz) as [E1 F1].
  { intros p Hp. rewrite add32_id, mul32_id by cint. split; [done|cint]. }
  destruct (inputs_q10 (λ p, (p.1 ⊟ p.2) ⊠ 1024) (λ p, p.1 - p.2) (zip low high) Hz) as [E2 F2].
  { intros p Hp. rewrite sub32_id, mul32_id by cint. split; [done|cint]. }
  pose proof (seqZ_zip (λ x y, (x ⊞ y) ⊠ 1024) low high n Hl Hh) as G1.
  pose proof (seqZ_zip (λ x y, (x ⊟ y) ⊠ 1024) low high n Hl Hh) as G2.
  rewrite <- (fmap_zip_with' (λ p, (p.1 ⊞ p.2) ⊠ 1024) pair) in G1. rewrite E1 in G1.
  rewrite <- (fmap_zip_with' (λ p, (p.1 ⊟ p.2) ⊠ 1024) pair) in G2. rewrite E2 in G2.
  destruct (filled_branch WebRtcSpl_kAllPassFilter2 qmf_bounds2 a (half_in1 loc) (filter1 loc) n
    _ _ (zip low high) qmf_ok2 H1 ltac:(lia) ltac:(lia) Lp G1 F1) as (i1 & -> & I1 & B1 & N1).
  destruct (filled_branch WebRtcSpl_kAllPassFilter1 qmf_bounds1 b (half_in2 loc) (filter2 loc) n
    _ _ (zip low high) qmf_ok1 H2 ltac:(lia) ltac:(lia) Lp G2 F2) as (i2 & -> & I2 & B2 & N2).
  set (r1 := run _ a _) in *. set (r2 := run _ b _) in *. cbn [fst snd].
  split; [|done]. rewrite fill_pairs by lia.
  rewrite (seqZ_zip_prefix (λ y1 y2, (WebRtcSpl_SatW32ToW16 ((y2 ⊞ 512) ≫ 10),
    WebRtcSpl_SatW32ToW16 ((y1 ⊞ 512) ≫ 10))) r1.2 r2.2) by done.
  erewrite zip_with_ext_Forall; [reflexivity| |exact B1|exact B2]. intros y1 y2 Hy1 Hy2. simpl in *.
  by rewrite (joined_exact y1 _ ltac:(reflexivity) Hy1), (joined_exact y2 469340121) by lia.
Qed.

(** * Sequences of frames *)

(** The arguments of one call of the analysis bank: a frame, and buffers with arbitrary
    content for the locals and for the two bands. *)
Record AnalysisCall := mkAnalysisCall
  { ac_loc : Locals; ac_in : list Z; ac_low : list Z; ac_high : list Z }.

Definition analysis_call_ok (c : AnalysisCall) : Prop :=
  locals_ok (ac_loc c) ∧ Forall int16 (ac_in c) ∧ zlen (ac_in c) `mod` 2 = 0 ∧
  0 < zlen (ac_in c) `div` 2 ≤ kMaxBandFrameLength ∧
  zlen (ac_in c) `div` 2 ≤ zlen (ac_low c) ∧ zlen (ac_in c) `div` 2 ≤ zlen (ac_high c).

(** The bands produced by successive calls, and the states after them. *)
Fixpoint analysis_frames (state1 state2 : list Z) (calls : list AnalysisCall)
  : list Z * list Z * list Z * list Z :=
  match calls with
  | [] => ([], [], state1, state2)
  | c :: calls' =>
      let n := zlen (ac_in c) in
      let '(low, high, state1, state2) :=
        WebRtcSpl_AnalysisQMF (ac_loc c) (ac_in c) n (ac_low c) (ac_high c) state1 state2 in
      let '(lows, highs, state1, state2) := analysis_frames state1 state2 calls' in
      (take (Z.to_nat (n `div` 2)) low ++ lows, take (Z.to_nat (n `div` 2)) high ++ highs,
       state1, state2)
  end.

Record SynthesisCall := mkSynthesisCall
  { sc_loc : Locals; sc_low : list Z; sc_high : list Z; sc_out : list Z }.

Definition synthesis_call_ok (c : SynthesisCall) : Prop :=
  locals_ok (sc_loc c) ∧ Forall int16 (sc_low c) ∧ Forall int16 (sc_high c) ∧
  zlen (sc_high c) = zlen (sc_low c) ∧ 0 < zlen (sc_low c) ≤ kMaxBandFrameLength ∧
  2 * zlen (sc_low c) ≤ zlen (sc_out c).

Fixpoint synthesis_frames (state1 state2 : list Z) (calls : list SynthesisCall)
  : list Z * list Z * list Z :=
  match calls with
  | [] => ([], state1, state2)
  | c :: calls' =>
      let n := zlen (sc_low c) in
      let '(out, state1, state2) :=
        WebRtcSpl_SynthesisQMF (sc_loc c) (sc_low c) (sc_high c) n (sc_out c) state1 state2 in
      let '(outs, state1, state2) := synthesis_frames state1 state2 calls' in
      (take (Z.to_nat (2 * n)) out ++ outs, state1, state2)
  end.

Definition zero_branch : Branch := mkBranch 0 0 0 0.

Lemma zero_inv :
  analysis_inv (zero_branch, zero_branch) ∧ synthesis_inv (zero_branch, zero_branch).
Proof. vm_compute. repeat split; congruence. Qed.

(** ** Both banks over sequences of calls *)

(** Analysis bank.  From the reset state, over any sequence of frames of 16-bit
    samples and whatever the local and output buffers contain, [WebRtcSpl_AnalysisQMF]
    computes exactly the two cascades of all-pass sections over the unbounded integers
    with rounding and saturation of the bands: its three buffer passes are the
    sample-wise cascade, no subtraction saturates, no 32-bit operation wraps, and the
    bands depend only on the concatenated signal, not on the framing. *)
Lemma AnalysisQMF_exact calls :
  Forall analysis_call_ok calls →
  analysis_frames (replicate 6 0) (replicate 6 0) calls =
    (let '((a, b), out) := run ideal_analysis_step (zero_branch, zero_branch)
                             (flat_map (λ c, pairs (ac_in c)) calls) in
     (out.*1, out.*2, six a, six b)).
Proof.
  intros Hc. change (replicate 6 0) with (six zero_branch).
  generalize (proj1 zero_inv). generalize zero_branch at 1 3 5 as a.
  generalize zero_branch as b. revert Hc.
  induction calls as [|c calls IH]; intros Hc b a Hs; [done|].
  apply Forall_cons_1 in Hc as [(Hl & Hin & He & Hn & Hlo & Hhi) Hc]. cbn [analysis_frames flat_map].
  set (n := zlen (ac_in c) `div` 2) in *.
  assert (zlen (ac_in c) = 2 * n) as En by (unfold n; zdiv). rewrite En, run_app.
  destruct (analysis_frame (ac_loc c) (ac_in c) n (ac_low c) (ac_high c) a b) as [-> Hs']; [done..|].
  pose proof (run_length ideal_analysis_step (a, b) (pairs (ac_in c))) as HL.
  destruct (run ideal_analysis_step (a, b) (pairs (ac_in c))) as [[a' b'] o1]. cbn [fst snd] in *.
  rewrite IH by done. destruct (run ideal_analysis_step (a', b') _) as [[a'' b''] o2].
  assert (zlen o1 = n).
  { rewrite HL, pairs_length. replace (length (ac_in c)) with (2 * Z.to_nat n)%nat by lia.
    rewrite Nat.div2_double. lia. }
  by rewrite !take_prefix, !fmap_app by (by rewrite length_fmap).
Qed.

(** Synthesis bank.  From the reset state, over any sequence of calls with bands of
    16-bit samples, [WebRtcSpl_SynthesisQMF] computes exactly the cascades over the
    unbounded integers of the sum and of the difference of the bands, rounded, saturated
    and interleaved; no operation saturates inside the filters or wraps, and the signal
    does not depend on the framing or on the content of the buffers. *)
Lemma SynthesisQMF_exact calls :
  Forall synthesis_call_ok calls →
  synthesis_frames (replicate 6 0) (replicate 6 0) calls =
    (let '((a, b), out) := run ideal_synthesis_step (zero_branch, zero_branch)
                             (flat_map (λ c, zip (sc_low c) (sc_high c)) calls) in
     (flat_map (λ p, [p.1; p.2]) out, six a, six b)).
Proof.
  intros Hc. change (replicate 6 0) with (six zero_branch).
  generalize (proj2 zero_inv). generalize zero_branch at 1 3 5 as a.
  generalize zero_branch as b. revert Hc.
  induction calls as [|c calls IH]; intros Hc b a Hs; [done|].
  apply Forall_cons_1 in Hc as [(Hl & Hlo & Hhi & He & Hn & Ho) Hc]. cbn [synthesis_frames flat_map].
  set (n := zlen (sc_low c)) in *. rewrite run_app.
  destruct (synthesis_frame (sc_loc c) (sc_low c) (sc_high c) n (sc_out c) a b) as [-> Hs']; [done..|].
  pose proof (run_length ideal_synthesis_step (a, b) (zip (sc_low c) (sc_high c))) as HL.
  destruct (run ideal_synthesis_step (a, b) (zip _ _)) as [[a' b'] o1]. cbn [fst snd] in *.
  rewrite IH by done. destruct (run ideal_synthesis_step (a', b') _) as [[a'' b''] o2].
  rewrite take_prefix; [by rewrite flat_map_app|].
  rewrite flat_pairs_length, HL, length_zip_with. lia.
Qed.

(** * Properties *)

(** Splitting filter.  From the reset state, over any sequences of calls with 16-bit
    samples and whatever the local and output buffers contain, the analysis bank and the
    synthesis bank compute exactly the cascades of all-pass sections over the unbounded
    integers, with rounding and saturation of their results: the passes over the buffers
    are the sample-wise cascade, no subtraction saturates, no 32-bit operation wraps, and
    the results depend only on the concatenated signals, not on the framing. *)
Lemma qmf_banks_exact acalls scalls :
  Forall analysis_call_ok acalls → Forall synthesis_call_ok scalls →
  analysis_frames (replicate 6 0) (replicate 6 0) acalls =
    (let '((a, b), out) := run ideal_analysis_step (zero_branch, zero_branch)
                             (flat_map (λ c, pairs (ac_in c)) acalls) in
     (out.*1, out.*2, six a, six b)) ∧
  synthesis_frames (replicate 6 0) (replicate 6 0) scalls =
    (let '((a, b), out) := run ideal_synthesis_step (zero_branch, zero_branch)
                             (flat_map (λ c, zip (sc_low c) (sc_high c)) scalls) in
     (flat_map (λ p, [p.1; p.2]) out, six a, six b)).
Proof. intros. split; [by apply AnalysisQMF_exact|by apply SynthesisQMF_exact]. Qed.

(** Locals with stale content, for the witness. *)
Definition stale : Locals :=
  let l := replicate 320 (-7) in mkLocals l l l l.

Lemma qmf_banks_exact_witness :
  let calls := [mkAnalysisCall stale [32767; -32768; 100; 7] [1; 2] [3; 4; 5];
                mkAnalysisCall stale [-32768; 32767] [9] [8]] in
  analysis_frames (replicate 6 0) (replicate 6 0) calls =
    (let '((a, b), out) := run ideal_analysis_step (zero_branch, zero_branch)
                             (flat_map (λ c, pairs (ac_in c)) calls) in
     (out.*1, out.*2, six a, six b)).
Proof.
  intros calls. apply (qmf_banks_exact calls
    [mkSynthesisCall stale [32767; -32768] [100; 7] [1; 2; 3; 4];
     mkSynthesisCall stale [-32768] [32767] [9; 9; 9]]);
    repeat constructor; vm_compute; congruence.
Defined.
