(* ===== verification/ResampleFrac.v ===== *)
(** The fractional resamplers of
    common_audio/signal_processing/resample_fractional.c.

    A resampler turns every block of 3, 4 or 11 input words into 2, 3 or 8 output words, each
    an inner product of input words with a row of coefficients.  Its callers pass an output
    pointer a few words before the input pointer inside one scratch block, so the model
    threads that block ([mem], with [In] and [Out] its word offsets) and every store is
    visible to the later reads.  The theorems show that the in-place computation is the
    polyphase filter on the original input, exactly (no 32-bit overflow) for normalised
    samples. *)
From S2P Require Import Prelude.

(** * Definitions *)

Definition kCoefficients48To32 : list (list Z) :=
  [[778; -2050; 1087; 23285; 12903; -3783; 441; 222];
   [222; 441; -3783; 12903; 23285; 1087; -2050; 778]].

Definition kCoefficients32To24 : list (list Z) :=
  [[767; -2362; 2434; 24406; 10620; -3838; 721; 90];
   [386; -381; -2646; 19062; 19062; -2646; -381; 386];
   [90; 721; -3838; 10620; 24406; 2434; -2362; 767]].

Definition kCoefficients44To32 : list (list Z) :=
  [[117; -669; 2245; -6183; 26267; 13529; -3245; 845; -138];
   [-101; 612; -2283; 8532; 29790; -5138; 1789; -524; 91];
   [50; -292; 1016; -3064; 32010; 3933; -1147; 315; -53];
   [-156; 974; -3863; 18603; 21691; -6246; 2353; -712; 126]].

Definition row (t : list (list Z)) (r : nat) : list Z := nth r t [].

(** [tmp += coefs[j] * mem[p + j]] for [n] taps *)
Definition mac (mem coefs : list Z) (p : Z) (n : nat) (tmp : Z) : Z :=
  for_up 0 n (λ j tmp, tmp ⊞ coefs.[j] ⊠ mem.[p + j]) tmp.

Definition block_48_32 (mem : list Z) (In Out : Z) : list Z :=
  let tmp := mac mem (row kCoefficients48To32 0) In 8 (1 ≪ 14) in
  let mem := wr mem Out tmp in
  let tmp := mac mem (row kCoefficients48To32 1) (In + 1) 8 (1 ≪ 14) in
  wr mem (Out + 1) tmp.

Definition WebRtcSpl_Resample48khzTo32khz (mem : list Z) (In Out : Z) (K : nat) : list Z :=
  for_up 0 K (λ m mem, block_48_32 mem (In + 3 * m) (Out + 2 * m)) mem.

Definition block_32_24 (mem : list Z) (In Out : Z) : list Z :=
  let tmp := mac mem (row kCoefficients32To24 0) In 8 (1 ≪ 14) in
  let mem := wr mem Out tmp in
  let tmp := mac mem (row kCoefficients32To24 1) (In + 1) 8 (1 ≪ 14) in
  let mem := wr mem (Out + 1) tmp in
  let tmp := mac mem (row kCoefficients32To24 2) (In + 2) 8 (1 ≪ 14) in
  wr mem (Out + 2) tmp.

Definition WebRtcSpl_Resample32khzTo24khz (mem : list Z) (In Out : Z) (K : nat) : list Z :=
  for_up 0 K (λ m mem, block_32_24 mem (In + 4 * m) (Out + 3 * m)) mem.

(** Two inner products, forwards from [in1] and backwards from [in2]; the first one is
    stored before the last input of the second is read. *)
Definition WebRtcSpl_ResampDotProduct (mem : list Z) (in1 in2 : Z) (coef_ptr : list Z)
    (out1 out2 : Z) : list Z :=
  let '(tmp1, tmp2) :=
    for_up 0 8 (λ j '(tmp1, tmp2),
      let coef := coef_ptr.[j] in
      (tmp1 ⊞ coef ⊠ mem.[in1 + j], tmp2 ⊞ coef ⊠ mem.[in2 - j])) (16384, 16384) in
  let coef := coef_ptr.[8] in
  let mem := wr mem out1 (tmp1 ⊞ coef ⊠ mem.[in1 + 8]) in
  wr mem out2 (tmp2 ⊞ coef ⊠ mem.[in2 - 8]).

Definition block_44_32 (mem : list Z) (In Out : Z) : list Z :=
  let tmp := 1 ≪ 14 in
  let mem := wr mem Out (shl32 (mem.[In + 3]) 15 ⊞ tmp) in
  let tmp := mac mem (row kCoefficients44To32 3) (In + 5) 9 tmp in
  let mem := wr mem (Out + 4) tmp in
  let mem := WebRtcSpl_ResampDotProduct mem In (In + 17) (row kCoefficients44To32 0)
               (Out + 1) (Out + 7) in
  let mem := WebRtcSpl_ResampDotProduct mem (In + 2) (In + 15) (row kCoefficients44To32 1)
               (Out + 2) (Out + 6) in
  WebRtcSpl_ResampDotProduct mem (In + 3) (In + 14) (row kCoefficients44To32 2)
    (Out + 3) (Out + 5).

Definition WebRtcSpl_Resample44khzTo32khz (mem : list Z) (In Out : Z) (K : nat) : list Z :=
  for_up 0 K (λ m mem, block_44_32 mem (In + 11 * m) (Out + 8 * m)) mem.

(** * The polyphase filter the blocks implement *)

(** An output sample: taps are pairs of an input offset and a coefficient. *)
Definition fir (f : Z → Z) (taps : list (Z * Z)) : Z :=
  foldl (λ tmp t, tmp ⊞ t.2 ⊠ f t.1) 16384 taps.

(** The same sum over the integers. *)
Definition fir_exact (f : Z → Z) (taps : list (Z * Z)) : Z :=
  16384 + foldr (λ t s, t.2 * f t.1 + s) 0 taps.

Definition fwd (base : Z) (cs : list Z) : list (Z * Z) :=
  zip (map (λ k, base + k) (seqZ 0 (zlen cs))) cs.
Definition bwd (base : Z) (cs : list Z) : list (Z * Z) :=
  zip (map (λ k, base - k) (seqZ 0 (zlen cs))) cs.

Definition taps_48_32 : list (list (Z * Z)) :=
  [fwd 0 (row kCoefficients48To32 0); fwd 1 (row kCoefficients48To32 1)].
Definition taps_32_24 : list (list (Z * Z)) :=
  [fwd 0 (row kCoefficients32To24 0); fwd 1 (row kCoefficients32To24 1);
   fwd 2 (row kCoefficients32To24 2)].
Definition taps_44_32 : list (list (Z * Z)) :=
  [[(3, 32768)]; fwd 0 (row kCoefficients44To32 0); fwd 2 (row kCoefficients44To32 1);
   fwd 3 (row kCoefficients44To32 2); fwd 5 (row kCoefficients44To32 3);
   bwd 14 (row kCoefficients44To32 2); bwd 15 (row kCoefficients44To32 1);
   bwd 17 (row kCoefficients44To32 0)].

(** [K] blocks of [nin] inputs each: block [m] yields [g] of the input from [nin * m] on. *)
Fixpoint blocks (nin : Z) (g : (Z → Z) → list Z) (f : Z → Z) (K : nat) : list Z :=
  match K with
  | O => []
  | S K' => blocks nin g f K' ++ g (λ t, f (nin * Z.of_nat K' + t))
  end.

(** One output per row of taps. *)
Definition fir_rows (taps : list (list (Z * Z))) (f : Z → Z) : list Z := map (fir f) taps.
Definition poly (nin : Z) (taps : list (list (Z * Z))) : (Z → Z) → nat → list Z :=
  blocks nin (fir_rows taps).

(** * Lemmas *)

Lemma fir_ext f g taps :
  Forall (λ t : Z * Z, f t.1 = g t.1) taps → fir f taps = fir g taps.
Proof.
  unfold fir. generalize 16384 as a. induction taps as [|t taps IH]; intros a H; simpl; [done|].
  apply Forall_cons_1 in H as [-> H]. by apply IH.
Qed.

(** A block function that reads a window of [w] words only. *)
Definition local (w : Z) (g : (Z → Z) → list Z) : Prop :=
  ∀ f f', (∀ t, 0 ≤ t < w → f t = f' t) → g f = g f'.

Lemma blocks_length nin g f K n :
  (∀ f, length (g f) = n) → length (blocks nin g f K) = (n * K)%nat.
Proof. intros Hg. induction K as [|K IH]; simpl; [lia|]. rewrite length_app, Hg, IH. lia. Qed.

Lemma blocks_ext nin g f f' K w :
  0 ≤ nin → local w g → (∀ t, 0 ≤ t < nin * (Z.of_nat K - 1) + w → f t = f' t) →
  blocks nin g f K = blocks nin g f' K.
Proof.
  intros Hn Hg. induction K as [|K IH]; intros H; simpl; [done|].
  rewrite IH by (intros t Ht; apply H; nia). f_equal. apply Hg. intros t Ht. apply H. nia.
Qed.

Lemma blocks_app nin g f K1 K2 w :
  local w g →
  blocks nin g f (K1 + K2) = blocks nin g f K1 ++ blocks nin g (λ t, f (nin * Z.of_nat K1 + t)) K2.
Proof.
  intros Hg. induction K2 as [|K2 IH]; [by rewrite Nat.add_0_r, app_nil_r|].
  rewrite Nat.add_succ_r. simpl. rewrite IH, <- app_assoc. do 2 f_equal.
  apply Hg. intros t _. f_equal. lia.
Qed.

Lemma poly_length nin taps f K : length (poly nin taps f K) = (length taps * K)%nat.
Proof. apply blocks_length. intros f'. apply length_map. Qed.

(** Offsets a filter reads lie in a window of [w] words. *)
Definition window (w : Z) (taps : list (list (Z * Z))) : Prop :=
  Forall (Forall (λ t : Z * Z, 0 ≤ t.1 < w)) taps.

Lemma fir_rows_local w taps : window w taps → local w (fir_rows taps).
Proof.
  intros Hw f f' H. apply map_ext_in. intros r Hr%list_elem_of_In. unfold window in Hw.
  rewrite list.Forall_forall in Hw. apply fir_ext.
  eapply list.Forall_impl; [exact (Hw r Hr)|]. simpl. intros t. apply H.
Qed.

(** What one block of an in-place resampler has to do. *)
Definition block_spec (step : list Z → Z → Z → list Z) (gap w : Z)
    (taps : list (list (Z * Z))) : Prop :=
  ∀ mem i o, 0 ≤ o → o + gap ≤ i → i + w ≤ zlen mem → o + zlen taps ≤ zlen mem →
    length (step mem i o) = length mem ∧
    (∀ p, p < o ∨ o + zlen taps ≤ p → (step mem i o).[p] = mem.[p]) ∧
    slice (step mem i o) o (zlen taps) = map (fir (λ t, mem.[i + t])) taps.

(** The loop over blocks computes the polyphase filter of the original input although it
    overwrites parts of it. *)
Lemma in_place_poly step nin gap w taps mem In Out K :
  block_spec step gap w taps → window w taps →
  0 ≤ gap → zlen taps ≤ nin → 0 ≤ Out → Out + gap ≤ In →
  In + nin * (Z.of_nat K - 1) + w ≤ zlen mem → zlen taps ≤ In + w - Out →
  let mem' := for_up 0 K (λ m mem, step mem (In + nin * m) (Out + zlen taps * m)) mem in
  length mem' = length mem ∧
  (∀ p, p < Out ∨ Out + zlen taps * Z.of_nat K ≤ p → mem'.[p] = mem.[p]) ∧
  slice mem' Out (zlen taps * Z.of_nat K) = poly nin taps (λ t, mem.[In + t]) K.
Proof.
  unfold poly. intros Hb Hw Hg Hn HO HI HL Hfit. set (nout := zlen taps) in *. cbv zeta.
  induction K as [|K IH].
  { simpl. split; [done|]. split; [done|]. by rewrite Z.mul_0_r. }
  rewrite for_up_S_r. destruct IH as (IL & IU & IS); [lia|].
  set (m1 := for_up 0 K _ mem) in *. rewrite Z.add_0_l.
  assert (0 ≤ nout) by lia.
  edestruct (Hb m1 (In + nin * Z.of_nat K) (Out + nout * Z.of_nat K))
    as (BL & BU & BS); [nia|nia|rewrite IL; nia|rewrite IL; nia|].
  set (m2 := step m1 _ _) in *. fold nout in BU, BS.
  split; [congruence|]. split.
  { intros p Hp. rewrite BU by nia. apply IU. nia. }
  replace (nout * Z.of_nat (S K)) with (nout * Z.of_nat K + nout) by lia.
  rewrite slice_app by nia. simpl. f_equal.
  - rewrite <- IS. apply slice_rd_eq; rewrite ?BL, ?IL; try nia.
    intros i Hi. apply BU. nia.
  - rewrite BS. apply (fir_rows_local w); [done|]. intros t Ht.
    rewrite IU by nia. f_equal. lia.
Qed.

(** Accumulating taps in a loop. *)
Lemma taps_fold (h g : Z → Z) cs a :
  for_up 0 (length cs) (λ j tmp, tmp ⊞ cs.[j] ⊠ h (g j)) a =
  foldl (λ tmp t, tmp ⊞ t.2 ⊠ h t.1) a (zip (map g (seqZ 0 (zlen cs))) cs).
Proof.
  enough (∀ pre a, for_up (zlen pre) (length cs) (λ j tmp, tmp ⊞ (pre ++ cs).[j] ⊠ h (g j)) a
    = foldl (λ tmp t, tmp ⊞ t.2 ⊠ h t.1) a (zip (map g (seqZ (zlen pre) (zlen cs))) cs))
    as H by apply (H []).
  clear a. induction cs as [|c cs IH]; intros pre a; [done|].
  simpl length. rewrite seqZ_cons by lia. simpl. rewrite rd_app_r by lia.
  rewrite Z.sub_diag. change ((c :: cs).[0]) with c.
  specialize (IH (pre ++ [c]) (a ⊞ c ⊠ h (g (zlen pre)))).
  rewrite length_app, Nat2Z.inj_add, <- app_assoc in IH. simpl in IH.
  change (Z.of_nat 1) with 1 in IH. rewrite IH. do 4 f_equal; lia.
Qed.

Lemma mac_fwd mem cs p q b n :
  q = p + b → n = length cs → mac mem cs q n 16384 = fir (λ t, mem.[p + t]) (fwd b cs).
Proof.
  intros -> ->. unfold mac, fir, fwd. rewrite <- (taps_fold (λ t, mem.[p + t])).
  apply for_up_ext. intros j tmp _. by rewrite Z.add_assoc.
Qed.

Lemma mac_bwd mem cs p q b n :
  q = p + b → n = length cs →
  for_up 0 n (λ j tmp, tmp ⊞ cs.[j] ⊠ mem.[q - j]) 16384 = fir (λ t, mem.[p + t]) (bwd b cs).
Proof.
  intros -> ->. unfold fir, bwd. rewrite <- (taps_fold (λ t, mem.[p + t])).
  apply for_up_ext. intros j tmp _. by rewrite Z.add_sub_assoc.
Qed.

Lemma dot_product_fir mem p b1 b2 in1 in2 cs out1 out2 :
  in1 = p + b1 → in2 = p + b2 → length cs = 9%nat → out1 ≠ in2 - 8 →
  WebRtcSpl_ResampDotProduct mem in1 in2 cs out1 out2 =
    wr (wr mem out1 (fir (λ t, mem.[p + t]) (fwd b1 cs))) out2
       (fir (λ t, mem.[p + t]) (bwd b2 cs)).
Proof.
  intros H1 H2 H Hne. rewrite <- (mac_fwd mem cs p in1 b1 9), <- (mac_bwd mem cs p in2 b2 9) by done.
  unfold WebRtcSpl_ResampDotProduct, mac. cbv zeta. rewrite for_up_pair.
  rewrite !for_up_S_r, rd_wr_ne by done. done.
Qed.

(** Reads beyond the words written so far see the original block. *)
Ltac skip_writes := repeat rewrite rd_wr_ne by lia.
Ltac fir_reads :=
  apply fir_ext; repeat (apply Forall_cons_2; [simpl; skip_writes; reflexivity|]);
  apply Forall_nil_2.

Lemma slice_rds l off n :
  0 ≤ off → 0 ≤ n → off + n ≤ zlen l →
  slice l off n = map (λ k, l.[off + k]) (seqZ 0 n).
Proof.
  intros. apply list_rd_eq.
  - rewrite slice_length, length_map, length_seqZ by lia. done.
  - rewrite slice_length by lia. intros i Hi. rewrite rd_slice by lia.
    rewrite (rd_nth (map _ _)) by lia. rewrite nth_lookup.
    change (map ?f ?l) with (f <$> l). rewrite list_lookup_fmap, lookup_seqZ_lt by lia. simpl. f_equal. lia.
Qed.

Ltac rd_writes :=
  repeat (rewrite rd_wr_ne by lia); rewrite rd_wr_eq by (rewrite ?wr_length; lia).

Lemma block_48_32_spec : block_spec block_48_32 2 9 taps_48_32.
Proof.
  intros mem i o Ho Hg Hw Hl. change (zlen taps_48_32) with 2 in *.
  unfold block_48_32. change (1 ≪ 14) with 16384.
  split; [by rewrite !wr_length|]. split; [intros p Hp; by skip_writes|].
  rewrite slice_rds by (rewrite ?wr_length; lia). unfold taps_48_32. cbn [map seqZ].
  change (seqZ 0 2) with [0; 1]. cbn [map].
  f_equal; [rewrite Z.add_0_r; rd_writes; apply mac_fwd; [lia|done]|]. f_equal. rd_writes.
  rewrite (mac_fwd _ _ i _ 1) by done. fir_reads.
Qed.

Lemma block_32_24_spec : block_spec block_32_24 3 10 taps_32_24.
Proof.
  intros mem i o Ho Hg Hw Hl. change (zlen taps_32_24) with 3 in *.
  unfold block_32_24. change (1 ≪ 14) with 16384.
  split; [by rewrite !wr_length|]. split; [intros p Hp; by skip_writes|].
  rewrite slice_rds by (rewrite ?wr_length; lia). unfold taps_32_24.
  change (seqZ 0 3) with [0; 1; 2]. cbn [map].
  f_equal; [rewrite Z.add_0_r; rd_writes; apply mac_fwd; [lia|done]|].
  f_equal; [rd_writes; rewrite (mac_fwd _ _ i _ 1) by done; fir_reads|].
  f_equal. rd_writes. rewrite (mac_fwd _ _ i _ 2) by done. fir_reads.
Qed.

Lemma fir_one x : fir (λ t, x t) [(3, 32768)] = 16384 ⊞ 32768 ⊠ x 3.
Proof. done. Qed.

Lemma shl15 x y : shl32 x 15 ⊞ y = y ⊞ 32768 ⊠ x.
Proof.
  unfold add32, mul32, shl32. rewrite s32_add_l, s32_add_r, shiftl_mul by lia.
  f_equal. change (2 ^ 15) with 32768. lia.
Qed.

Lemma block_44_32_spec : block_spec block_44_32 8 18 taps_44_32.
Proof.
  intros mem i o Ho Hg Hw Hl. change (zlen taps_44_32) with 8 in *.
  unfold block_44_32. change (1 ≪ 14) with 16384. cbv zeta.
  rewrite (mac_fwd _ _ i _ 5), shl15 by done.
  rewrite (dot_product_fir _ i 0 17 i) by (try done; lia).
  rewrite (dot_product_fir _ i 2 15 (i + 2)) by (try done; lia).
  rewrite (dot_product_fir _ i 3 14 (i + 3)) by (try done; lia).
  split; [by rewrite !wr_length|]. split; [intros p Hp; by skip_writes|].
  rewrite slice_rds by (rewrite ?wr_length; lia). unfold taps_44_32.
  change (seqZ 0 8) with [0; 1; 2; 3; 4; 5; 6; 7]. cbn [map].
  f_equal; [rewrite Z.add_0_r; rd_writes; done|].
  do 6 (f_equal; [rd_writes; fir_reads|]). f_equal. rd_writes. fir_reads.
Qed.

(** No 32-bit sum overflows on normalised samples. *)
Definition norm_bound : Z := 39000.
Definition gain (taps : list (Z * Z)) : Z := foldr (λ t s, Z.abs t.2 + s) 0 taps.

Lemma gain_nonneg taps : 0 ≤ gain taps.
Proof. induction taps; simpl; lia. Qed.

Lemma fir_is_exact f taps :
  Forall (λ t : Z * Z, Z.abs (f t.1) ≤ norm_bound) taps → gain taps ≤ 55000 →
  fir f taps = fir_exact f taps ∧ Z.abs (fir f taps - 16384) ≤ gain taps * norm_bound.
Proof.
  unfold fir, fir_exact, norm_bound. intros H Hg.
  enough (∀ a, Z.abs a + gain taps * 39000 ≤ 2147483647 →
    foldl (λ tmp t, tmp ⊞ t.2 ⊠ f t.1) a taps = a + foldr (λ t s, t.2 * f t.1 + s) 0 taps ∧
    Z.abs (foldr (λ t s, t.2 * f t.1 + s) 0 taps) ≤ gain taps * 39000) as Hx.
  { destruct (Hx 16384) as [E1 E2]; [lia|]. rewrite E1. split; [done|lia]. }
  clear Hg. induction H as [|t taps Ht H IH]; intros a Ha; simpl in *; [lia|].
  pose proof (gain_nonneg taps).
  assert (Z.abs (t.2 * f t.1) ≤ Z.abs t.2 * 39000) by (rewrite Z.abs_mul; nia).
  rewrite (mul32_id (t.2)), add32_id by (unfold_ints; nia).
  destruct (IH (a + t.2 * f t.1)) as [-> E2]; [nia|]. split; [lia|]. nia.
Qed.

Lemma poly_rd nin taps f K m r :
  0 ≤ m < Z.of_nat K → 0 ≤ r < zlen taps →
  (poly nin taps f K).[zlen taps * m + r] =
    fir (λ t, f (nin * m + t)) (nth (Z.to_nat r) taps []).
Proof.
  induction K as [|K IH]; intros Hm Hr; [lia|].
  change (poly nin taps f (S K))
    with (poly nin taps f K ++ map (fir (λ t, f (nin * Z.of_nat K + t))) taps).
  destruct (Z.eq_dec m (Z.of_nat K)) as [->|].
  - rewrite rd_app_r, poly_length by (rewrite poly_length; nia).
    replace (zlen taps * Z.of_nat K + r - Z.of_nat (length taps * K)) with r by lia.
    rewrite rd_nth by lia.
    rewrite (nth_indep _ 0 (fir (λ t, f (nin * Z.of_nat K + t)) [])) by (rewrite length_map; lia).
    apply map_nth.
  - rewrite rd_app_l by (rewrite poly_length; nia). apply IH; [lia|done].
Qed.

(** [f mem In Out K] writes at [Out] the exact polyphase filter of the [K] blocks of [nin]
    words that started at [In], and nothing else. *)
Definition resamples (f : list Z → Z → Z → nat → list Z) (nin gap w : Z)
    (taps : list (list (Z * Z))) : Prop :=
  ∀ mem In Out K, 0 ≤ Out → Out + gap ≤ In → In + nin * (Z.of_nat K - 1) + w ≤ zlen mem →
    (∀ p, In ≤ p < In + nin * (Z.of_nat K - 1) + w → Z.abs (mem.[p]) ≤ norm_bound) →
    let mem' := f mem In Out K in
    length mem' = length mem ∧
    (∀ p, p < Out ∨ Out + zlen taps * Z.of_nat K ≤ p → mem'.[p] = mem.[p]) ∧
    ∀ m r, 0 ≤ m < Z.of_nat K → 0 ≤ r < zlen taps →
      mem'.[Out + zlen taps * m + r] =
        fir_exact (λ t, mem.[In + nin * m + t]) (nth (Z.to_nat r) taps []).

Lemma resamples_blocks step nin gap w taps :
  block_spec step gap w taps → window w taps → 0 ≤ gap → zlen taps ≤ nin →
  zlen taps ≤ gap + w → Forall (λ r, gain r ≤ 55000) taps →
  resamples (λ mem In Out K,
    for_up 0 K (λ m mem, step mem (In + nin * m) (Out + zlen taps * m)) mem) nin gap w taps.
Proof.
  intros Hb Hw Hg Hn Hfit HG mem In Out K HO HI HL Hx.
  destruct (in_place_poly step nin gap w taps mem In Out K) as (E1 & E2 & E3); try done; [lia|].
  cbv zeta. split; [done|]. split; [done|]. intros m r Hm Hr.
  assert (0 ≤ zlen taps * m) by nia.
  assert (zlen taps * m + r < zlen taps * Z.of_nat K) by nia.
  rewrite <- Z.add_assoc, <- (rd_slice _ Out (zlen taps * Z.of_nat K)) by lia.
  rewrite E3, poly_rd by done.
  assert (nth (Z.to_nat r) taps [] ∈ taps) as Hin by (apply list_elem_of_In, nth_In; lia).
  unfold window in Hw. rewrite list.Forall_forall in Hw, HG. specialize (Hw _ Hin). specialize (HG _ Hin).
  destruct (fir_is_exact (λ t, mem.[In + (nin * m + t)]) (nth (Z.to_nat r) taps [])) as [-> _].
  - eapply list.Forall_impl; [exact Hw|]. simpl. intros t Ht. apply Hx. nia.
  - done.
  - unfold fir_exact. f_equal. clear. induction (nth _ _ _) as [|t l IH]; simpl; [done|].
    rewrite IH. do 3 f_equal. lia.
Qed.

#[export] Instance window_dec w taps : Decision (window w taps).
Proof. unfold window. apply _. Defined.

Lemma windows : window 9 taps_48_32 ∧ window 10 taps_32_24 ∧ window 18 taps_44_32.
Proof. apply (bool_decide_unpack _). vm_compute. done. Qed.

(** * Properties *)

(** C30: the resamplers 48 to 32 kHz, 32 to 24 kHz and 44 to 32 kHz, run in place with the
    output at least one block of outputs before the input, produce at output [m, r] the
    rounding offset plus the inner product of row [r] of the coefficients with the original
    input of block [m], with no 32-bit overflow, for every number of blocks and all
    normalised input (magnitude up to 39000, so every 16-bit sample and filter overshoot);
    they change no other word and read nothing past the last block's window. *)
Theorem fractional_resamplers_exact :
  resamples WebRtcSpl_Resample48khzTo32khz 3 2 9 taps_48_32 ∧
  resamples WebRtcSpl_Resample32khzTo24khz 4 3 10 taps_32_24 ∧
  resamples WebRtcSpl_Resample44khzTo32khz 11 8 18 taps_44_32.
Proof.
  destruct windows as (W1 & W2 & W3).
  split; [|split].
  - apply (resamples_blocks block_48_32 3 2 9 taps_48_32); try done; [apply block_48_32_spec|].
    apply (bool_decide_unpack _). by vm_compute.
  - apply (resamples_blocks block_32_24 4 3 10 taps_32_24); try done; [apply block_32_24_spec|].
    apply (bool_decide_unpack _). by vm_compute.
  - apply (resamples_blocks block_44_32 11 8 18 taps_44_32); try done; [apply block_44_32_spec|].
    apply (bool_decide_unpack _). by vm_compute.
Qed.
