(* ===== verification/Resample48.v ===== *)
(** The 10 ms resamplers between 48 kHz and 8 or 16 kHz of
    common_audio/signal_processing/resample_48khz.c.

    A resampler is a cascade of half-band stages (ResampleInt) and one fractional stage
    (ResampleFrac) that share the caller's scratch block [tmpmem]: the fractional stage keeps
    its last eight inputs in the state and splices them in front of the new ones. 
    Every stage implements the interface [Stage] of ResampleInt; the theorems show that the functions compute the cascade of
    the stages whatever [tmpmem] held before. *)
From S2P Require Import Prelude ResampleInt ResampleFrac.

(** * Definitions *)

Record WebRtcSpl_State48khzTo16khz :=
  mkState48To16 { S_48_48 : list Z; S_48_32 : list Z; S_32_16 : list Z }.
Record WebRtcSpl_State16khzTo48khz :=
  mkState16To48 { S_16_32 : list Z; S_32_24 : list Z; S_24_48 : list Z }.
Record WebRtcSpl_State48khzTo8khz :=
  mkState48To8 { S_48_24 : list Z; S_24_24 : list Z; S_24_16 : list Z; S_16_8 : list Z }.
Record WebRtcSpl_State8khzTo48khz :=
  mkState8To48 { S_8_16 : list Z; S_16_12 : list Z; S_12_24 : list Z; S_24_48' : list Z }.

(** The 10 ms functions return the output samples, the new state and the scratch block. *)
Definition WebRtcSpl_Resample48khzTo16khz (inp : list Z)
    (state : WebRtcSpl_State48khzTo16khz) (tmpmem : list Z)
    : list Z * WebRtcSpl_State48khzTo16khz * list Z :=
  let '(lp, s_48_48) := WebRtcSpl_LPBy2ShortToInt (slice inp 0 480) (S_48_48 state) in
  let tmpmem := store tmpmem 16 lp in
  let tmpmem := store tmpmem 8 (S_48_32 state) in
  let s_48_32 := slice tmpmem 488 8 in
  let tmpmem := WebRtcSpl_Resample48khzTo32khz tmpmem 8 0 160 in
  let '(out, buf, s_32_16) :=
    WebRtcSpl_DownBy2IntToShort (slice tmpmem 0 320) (S_32_16 state) in
  (out, mkState48To16 s_48_48 s_48_32 s_32_16, store tmpmem 0 buf).

Definition WebRtcSpl_ResetResample48khzTo16khz : WebRtcSpl_State48khzTo16khz :=
  mkState48To16 (replicate 16 0) (replicate 8 0) (replicate 8 0).

Definition WebRtcSpl_Resample16khzTo48khz (inp : list Z)
    (state : WebRtcSpl_State16khzTo48khz) (tmpmem : list Z)
    : list Z * WebRtcSpl_State16khzTo48khz * list Z :=
  let '(up, s_16_32) := WebRtcSpl_UpBy2ShortToInt (slice inp 0 160) (S_16_32 state) in
  let tmpmem := store tmpmem 16 up in
  let tmpmem := store tmpmem 8 (S_32_24 state) in
  let s_32_24 := slice tmpmem 328 8 in
  let tmpmem := WebRtcSpl_Resample32khzTo24khz tmpmem 8 0 80 in
  let '(out, s_24_48) := WebRtcSpl_UpBy2IntToShort (slice tmpmem 0 240) (S_24_48 state) in
  (out, mkState16To48 s_16_32 s_32_24 s_24_48, tmpmem).

Definition WebRtcSpl_ResetResample16khzTo48khz : WebRtcSpl_State16khzTo48khz :=
  mkState16To48 (replicate 8 0) (replicate 8 0) (replicate 8 0).

Definition WebRtcSpl_Resample48khzTo8khz (inp : list Z)
    (state : WebRtcSpl_State48khzTo8khz) (tmpmem : list Z)
    : list Z * WebRtcSpl_State48khzTo8khz * list Z :=
  let '(dn, s_48_24) := WebRtcSpl_DownBy2ShortToInt (slice inp 0 480) (S_48_24 state) in
  let tmpmem := store tmpmem 256 dn in
  let '(lp, s_24_24) := WebRtcSpl_LPBy2IntToInt (slice tmpmem 256 240) (S_24_24 state) in
  let tmpmem := store tmpmem 16 lp in
  let tmpmem := store tmpmem 8 (S_24_16 state) in
  let s_24_16 := slice tmpmem 248 8 in
  let tmpmem := WebRtcSpl_Resample48khzTo32khz tmpmem 8 0 80 in
  let '(out, buf, s_16_8) :=
    WebRtcSpl_DownBy2IntToShort (slice tmpmem 0 160) (S_16_8 state) in
  (out, mkState48To8 s_48_24 s_24_24 s_24_16 s_16_8, store tmpmem 0 buf).

Definition WebRtcSpl_ResetResample48khzTo8khz : WebRtcSpl_State48khzTo8khz :=
  mkState48To8 (replicate 8 0) (replicate 16 0) (replicate 8 0) (replicate 8 0).

Definition WebRtcSpl_Resample8khzTo48khz (inp : list Z)
    (state : WebRtcSpl_State8khzTo48khz) (tmpmem : list Z)
    : list Z * WebRtcSpl_State8khzTo48khz * list Z :=
  let '(up, s_8_16) := WebRtcSpl_UpBy2ShortToInt (slice inp 0 80) (S_8_16 state) in
  let tmpmem := store tmpmem 264 up in
  let tmpmem := store tmpmem 256 (S_16_12 state) in
  let s_16_12 := slice tmpmem 416 8 in
  let tmpmem := WebRtcSpl_Resample32khzTo24khz tmpmem 256 240 40 in
  let '(up, s_12_24) := WebRtcSpl_UpBy2IntToInt (slice tmpmem 240 120) (S_12_24 state) in
  let tmpmem := store tmpmem 0 up in
  let '(out, s_24_48) := WebRtcSpl_UpBy2IntToShort (slice tmpmem 0 240) (S_24_48' state) in
  (out, mkState8To48 s_8_16 s_16_12 s_12_24 s_24_48, tmpmem).

Definition WebRtcSpl_ResetResample8khzTo48khz : WebRtcSpl_State8khzTo48khz :=
  mkState8To48 (replicate 8 0) (replicate 8 0) (replicate 8 0) (replicate 8 0).

(** * Stages *)

(** A block function with memory: the state is the last eight inputs. *)
Definition with_history (nin : nat) (g : (Z → Z) → list Z) (inp st : list Z)
    : list Z * list Z :=
  let ext := st ++ inp in
  (blocks (Z.of_nat nin) g (rd ext) (length inp / nin), slice ext (zlen inp) 8).

(** The fractional stage. *)
Definition fractional (nin : nat) (taps : list (list (Z * Z))) : list Z → list Z → list Z * list Z :=
  with_history nin (fir_rows taps).

#[global] Arguments with_history : simpl never.
#[global] Arguments fractional : simpl never.

Definition blocks_of (nin n : nat) : Prop := ∃ k, n = (k * nin)%nat.

(** The cascades. *)
Definition cascade_48_16 (inp : list Z) (st : WebRtcSpl_State48khzTo16khz)
    : list Z * WebRtcSpl_State48khzTo16khz :=
  let '(a, s1) := WebRtcSpl_LPBy2ShortToInt inp (S_48_48 st) in
  let '(b, s2) := fractional 3 taps_48_32 a (S_48_32 st) in
  let '(out, s3) := down_by_2 b (S_32_16 st) in
  (out, mkState48To16 s1 s2 s3).

Definition cascade_16_48 (inp : list Z) (st : WebRtcSpl_State16khzTo48khz)
    : list Z * WebRtcSpl_State16khzTo48khz :=
  let '(a, s1) := WebRtcSpl_UpBy2ShortToInt inp (S_16_32 st) in
  let '(b, s2) := fractional 4 taps_32_24 a (S_32_24 st) in
  let '(out, s3) := WebRtcSpl_UpBy2IntToShort b (S_24_48 st) in
  (out, mkState16To48 s1 s2 s3).

Definition cascade_48_8 (inp : list Z) (st : WebRtcSpl_State48khzTo8khz)
    : list Z * WebRtcSpl_State48khzTo8khz :=
  let '(a, s1) := WebRtcSpl_DownBy2ShortToInt inp (S_48_24 st) in
  let '(b, s2) := WebRtcSpl_LPBy2IntToInt a (S_24_24 st) in
  let '(c, s3) := fractional 3 taps_48_32 b (S_24_16 st) in
  let '(out, s4) := down_by_2 c (S_16_8 st) in
  (out, mkState48To8 s1 s2 s3 s4).

Definition cascade_8_48 (inp : list Z) (st : WebRtcSpl_State8khzTo48khz)
    : list Z * WebRtcSpl_State8khzTo48khz :=
  let '(a, s1) := WebRtcSpl_UpBy2ShortToInt inp (S_8_16 st) in
  let '(b, s2) := fractional 4 taps_32_24 a (S_16_12 st) in
  let '(c, s3) := WebRtcSpl_UpBy2IntToInt b (S_12_24 st) in
  let '(out, s4) := WebRtcSpl_UpBy2IntToShort c (S_24_48' st) in
  (out, mkState8To48 s1 s2 s3 s4).

(** Sizes of the state arrays, as declared in signal_processing_library.h. *)
Definition wf_48_16 (st : WebRtcSpl_State48khzTo16khz) : Prop :=
  length (S_48_48 st) = 16%nat ∧ length (S_48_32 st) = 8%nat ∧ length (S_32_16 st) = 8%nat.
Definition wf_16_48 (st : WebRtcSpl_State16khzTo48khz) : Prop :=
  length (S_16_32 st) = 8%nat ∧ length (S_32_24 st) = 8%nat ∧ length (S_24_48 st) = 8%nat.
Definition wf_48_8 (st : WebRtcSpl_State48khzTo8khz) : Prop :=
  length (S_48_24 st) = 8%nat ∧ length (S_24_24 st) = 16%nat ∧
  length (S_24_16 st) = 8%nat ∧ length (S_16_8 st) = 8%nat.
Definition wf_8_48 (st : WebRtcSpl_State8khzTo48khz) : Prop :=
  length (S_8_16 st) = 8%nat ∧ length (S_16_12 st) = 8%nat ∧
  length (S_12_24 st) = 8%nat ∧ length (S_24_48' st) = 8%nat.

(** * Lemmas *)

Lemma with_history_stage nin w nout g :
  (0 < nin)%nat → local w g → (∀ f, length (g f) = nout) → w ≤ Z.of_nat nin + 8 →
  Stage 8 (blocks_of nin) (λ n, nout * (n / nin))%nat (with_history nin g).
Proof.
  intros Hn Hw Hg Hfit. split.
  - intros st xs Hs [k Hk]. unfold with_history. simpl. rewrite (blocks_length _ _ _ _ nout) by done.
    split; [done|]. rewrite slice_length by (rewrite ?length_app; lia). done.
  - intros st xs ys Hs [k Hk] [j Hj]. unfold with_history. rewrite length_app, Hk, Hj.
    rewrite <- Nat.mul_add_distr_r, !Nat.div_mul by lia.
    set (h := slice (st ++ xs) (Z.of_nat (k * nin)) 8).
    assert (length h = 8%nat) as Lh.
    { subst h. rewrite slice_length by (rewrite ?length_app; lia). done. }
    assert (∀ t, 0 ≤ t < zlen ys + 8 → (st ++ xs ++ ys).[zlen xs + t] = (h ++ ys).[t]) as Hrd.
    { intros t Ht. rewrite app_assoc. destruct (Z.ltb_spec t 8).
      - rewrite rd_app_l by (rewrite length_app; lia). rewrite (rd_app_l h) by lia.
        subst h. rewrite rd_slice by lia. f_equal. lia.
      - rewrite !rd_app_r by (rewrite ?length_app; lia). rewrite length_app. f_equal. lia. }
    f_equal.
    + rewrite (blocks_app _ _ _ _ _ w) by done. f_equal.
      * apply (blocks_ext _ _ _ _ _ w); [lia|done|]. intros t Ht.
        rewrite app_assoc, rd_app_l; [done|]. rewrite length_app. nia.
      * apply (blocks_ext _ _ _ _ _ w); [lia|done|]. intros t Ht.
        rewrite <- Hrd by nia. f_equal. lia.
    + apply list_rd_eq.
      { rewrite !slice_length by (rewrite ?length_app; lia). done. }
      rewrite slice_length by (rewrite ?length_app; lia). intros i Hi.
      rewrite !rd_slice by lia. rewrite <- Hrd by lia. f_equal. lia.
Qed.

Lemma fractional_stage_intro nin w taps :
  (0 < nin)%nat → window w taps → w ≤ Z.of_nat nin + 8 →
  Stage 8 (blocks_of nin) (λ n, length taps * (n / nin))%nat (fractional nin taps).
Proof.
  intros. apply (with_history_stage nin w); [done|by apply fir_rows_local| |done].
  intros f. apply length_map.
Qed.

#[export] Instance fractional_48_32_stage :
  Stage 8 (blocks_of 3) (λ n, 2 * (n / 3))%nat (fractional 3 taps_48_32).
Proof. apply (fractional_stage_intro 3 9 taps_48_32); [lia|apply windows|lia]. Qed.
#[export] Instance fractional_32_24_stage :
  Stage 8 (blocks_of 4) (λ n, 3 * (n / 4))%nat (fractional 4 taps_32_24).
Proof. apply (fractional_stage_intro 4 10 taps_32_24); [lia|apply windows|lia]. Qed.
#[export] Instance fractional_44_32_stage :
  Stage 8 (blocks_of 11) (λ n, 8 * (n / 11))%nat (fractional 11 taps_44_32).
Proof. apply (fractional_stage_intro 11 18 taps_44_32); [lia|apply windows|lia]. Qed.

(** Splicing the history in front of the new samples and filtering in place is the
    fractional stage, whatever the block held. *)
Lemma spliced_fractional step nin gap w taps mem In Out K hist xs :
  block_spec step gap w taps → window w taps → (0 < nin)%nat →
  0 ≤ gap → zlen taps ≤ Z.of_nat nin → zlen taps ≤ gap + w → w ≤ Z.of_nat nin + 8 →
  0 ≤ Out → Out + gap ≤ In → length hist = 8%nat → length xs = (nin * K)%nat →
  In + 8 + zlen xs ≤ zlen mem →
  let m1 := store (store mem (In + 8) xs) In hist in
  let m2 := for_up 0 K (λ m mem, step mem (In + Z.of_nat nin * m) (Out + zlen taps * m)) m1 in
  slice m1 (In + zlen xs) 8 = (fractional nin taps xs hist).2 ∧
  length m2 = length mem ∧
  slice m2 Out (zlen taps * Z.of_nat K) = (fractional nin taps xs hist).1.
Proof.
  intros Hb Hw Hn Hg Hr Hf Hw8 HO HI Hh Hx Hm m1 m2.
  assert (length m1 = length mem) as L1.
  { subst m1. rewrite !store_length; rewrite ?store_length; lia. }
  assert (∀ t, 0 ≤ t < 8 + zlen xs → m1.[In + t] = (hist ++ xs).[t]) as Hrd.
  { intros t Ht. subst m1. rewrite rd_store by (rewrite ?store_length; lia).
    destruct (Z.leb_spec In (In + t)); [|lia]. destruct (Z.ltb_spec (In + t) (In + zlen hist)); simpl.
    - rewrite rd_app_l by lia. f_equal. lia.
    - rewrite rd_store by lia. destruct (Z.leb_spec (In + 8) (In + t)); [|lia].
      destruct (Z.ltb_spec (In + t) (In + 8 + zlen xs)); [|lia]. simpl.
      rewrite rd_app_r by lia. f_equal. lia. }
  destruct (in_place_poly step (Z.of_nat nin) gap w taps m1 In Out K) as (E1 & E2 & E3);
    try done; [rewrite L1; nia|lia|].
  fold m2 in E1, E2, E3. unfold fractional, with_history. simpl. split; [|split; [congruence|]].
  - apply list_rd_eq; [rewrite !slice_length; rewrite ?length_app; lia|].
    rewrite slice_length by lia. intros i Hi. rewrite !rd_slice by lia.
    rewrite <- Z.add_assoc. apply Hrd. lia.
  - rewrite E3. rewrite Hx, Nat.mul_comm, Nat.div_mul by lia.
    apply (blocks_ext _ _ _ _ _ w); [lia|by apply fir_rows_local|]. intros t Ht. apply Hrd. nia.
Qed.

(** [R] processes one frame of [n_in] samples into [n_out], using [words] words of scratch
    memory: result and state are those of the cascade, for every content of the scratch. *)
Definition frame_resampler {S} (wf : S → Prop) (R : list Z → S → list Z → list Z * S * list Z)
    (cascade : list Z → S → list Z * S) (n_in n_out : nat) (words : Z) : Prop :=
  ∀ inp st mem, length inp = n_in → wf st → words ≤ zlen mem →
    (R inp st mem).1 = cascade inp st ∧ length (R inp st mem).2 = length mem ∧
    length (cascade inp st).1 = n_out ∧ wf (cascade inp st).2.

(** The splice for a given resampler [f] of blocks, with the sizes of its results. *)
Definition splices (f : list Z → Z → Z → nat → list Z) (nin : nat) (gap : Z)
    (taps : list (list (Z * Z))) : Prop :=
  ∀ mem In Out K hist xs i8 off n,
    0 ≤ Out → Out + gap ≤ In → length hist = 8%nat → length xs = (nin * K)%nat →
    In + 8 + zlen xs ≤ zlen mem → i8 = In + 8 → off = In + zlen xs → n = zlen taps * Z.of_nat K →
    let m1 := store (store mem i8 xs) In hist in
    let m2 := f m1 In Out K in
    ∃ b h, fractional nin taps xs hist = (b, h) ∧ slice m1 off 8 = h ∧
      length m2 = length mem ∧ slice m2 Out n = b ∧
      length b = (length taps * K)%nat ∧ length h = 8%nat.

Lemma splices_intro step nin gap w taps :
  block_spec step gap w taps → window w taps → (0 < nin)%nat →
  0 ≤ gap → zlen taps ≤ Z.of_nat nin → zlen taps ≤ gap + w → w ≤ Z.of_nat nin + 8 →
  splices (λ mem In Out K,
    for_up 0 K (λ m mem, step mem (In + Z.of_nat nin * m) (Out + zlen taps * m)) mem)
    nin gap taps.
Proof.
  intros Hb Hw Hn Hg Hr Hf Hw8 mem In Out K hist xs i8 off n HO HI Hh Hx Hm -> -> -> m1 m2.
  destruct (spliced_fractional step nin gap w taps mem In Out K hist xs) as (E1 & E2 & E3); try done.
  assert (blocks_of nin (length xs)) as Hbl by (exists K; lia).
  destruct (stage_len (Stage := fractional_stage_intro nin w taps Hn Hw Hw8) hist xs Hh Hbl) as [L1 L2].
  destruct (fractional nin taps xs hist) as [b h]. exists b, h. simpl in *.
  repeat (split; [done|]). split; [|done].
  rewrite L1, Hx, Nat.mul_comm, (Nat.mul_comm nin), Nat.div_mul by lia. lia.
Qed.

Lemma splices_48_32 : splices WebRtcSpl_Resample48khzTo32khz 3 2 taps_48_32.
Proof.
  apply (splices_intro block_48_32 3 2 9 taps_48_32); try done;
    [apply block_48_32_spec|apply windows|lia].
Qed.
Lemma splices_32_24 : splices WebRtcSpl_Resample32khzTo24khz 4 3 taps_32_24.
Proof.
  apply (splices_intro block_32_24 4 3 10 taps_32_24); try done;
    [apply block_32_24_spec|apply windows|lia].
Qed.
Lemma splices_44_32 : splices WebRtcSpl_Resample44khzTo32khz 11 8 taps_44_32.
Proof.
  apply (splices_intro block_44_32 11 8 18 taps_44_32); try done;
    [apply block_44_32_spec|apply windows|lia].
Qed.

#[local] Opaque WebRtcSpl_Resample48khzTo32khz WebRtcSpl_Resample32khzTo24khz
  WebRtcSpl_Resample44khzTo32khz.

Lemma down_by_2_eq inp st out buf s :
  WebRtcSpl_DownBy2IntToShort inp st = (out, buf, s) → down_by_2 inp st = (out, s).
Proof. unfold down_by_2. by intros ->. Qed.

Lemma DownBy2IntToShort_buf inp st :
  length st = 8%nat → Nat.Even (length inp) →
  length (WebRtcSpl_DownBy2IntToShort inp st).1.2 = length inp.
Proof.
  intros Hs [k Hk]. unfold WebRtcSpl_DownBy2IntToShort.
  pose proof (two_branches_length st (pairs inp).*1 (pairs inp).*2 Hs) as HL.
  destruct (two_branches _ _ _) as [[o1 o2] s]. destruct HL as (L1 & L2 & _). simpl.
  rewrite length_fmap, pairs_length, Hk, Nat.div2_double in *.
  rewrite interleave_length; rewrite !length_map; lia.
Qed.

(** The final decimation of a cascade, in the scratch block. *)
Lemma final_down mem n st xs :
  0 ≤ n → n ≤ zlen mem → slice mem 0 n = xs → multiple_of_4 (length xs) → length st = 8%nat →
  ∃ out buf s, WebRtcSpl_DownBy2IntToShort (slice mem 0 n) st = (out, buf, s) ∧
    down_by_2 xs st = (out, s) ∧ length (store mem 0 buf) = length mem ∧
    length out = Nat.div2 (length xs) ∧ length s = 8%nat.
Proof.
  intros Hn Hm Hx Hk Hs.
  destruct (stage_len (f := down_by_2) st xs Hs Hk) as [L1 L2]. destruct Hk as [k Hk].
  pose proof (DownBy2IntToShort_buf (slice mem 0 n) st Hs) as HB.
  destruct (WebRtcSpl_DownBy2IntToShort _ _) as [[out buf] s] eqn:E. simpl in HB.
  exists out, buf, s. rewrite Hx in E. apply down_by_2_eq in E. rewrite E in *. simpl in *.
  split; [done|]. split; [done|]. split; [|done].
  apply store_length; [lia|]. rewrite HB; [rewrite slice_length by lia; lia|].
  rewrite Hx. exists (2 * k)%nat. lia.
Qed.

Lemma stage_result {words ok rate f} `{!Stage words ok rate f} st xs :
  length st = words → ok (length xs) →
  ∃ a s, f xs st = (a, s) ∧ length a = rate (length xs) ∧ length s = words.
Proof.
  intros Hs Hx. destruct (stage_len (f := f) st xs Hs Hx). destruct (f xs st) as [a s].
  by exists a, s.
Qed.

Lemma Resample48khzTo16khz_cascade :
  frame_resampler wf_48_16 WebRtcSpl_Resample48khzTo16khz cascade_48_16 480 160 496.
Proof.
  intros inp st mem Hi (W1 & W2 & W3) Hm.
  unfold WebRtcSpl_Resample48khzTo16khz, cascade_48_16. rewrite slice_all by lia.
  destruct (stage_result (f := WebRtcSpl_LPBy2ShortToInt) (S_48_48 st) inp)
    as (a & s1 & -> & La & Ls1); [done|exists 240%nat; lia|].
  unfold id_rate in La. rewrite Hi in La.
  destruct (splices_48_32 mem 8 0 160%nat (S_48_32 st) a 16 488 320)
    as (b & h & -> & -> & Lm & Eb & Lb & Lh); [rewrite ?La; first [lia|done]..|].
  set (m2 := WebRtcSpl_Resample48khzTo32khz _ _ _ _) in *.
  destruct (final_down m2 320 (S_32_16 st) b) as (out & buf & s3 & -> & -> & Lm' & Lo & Ls3);
    [lia|rewrite Lm; lia|done|exists 80%nat; rewrite Lb; done|done|].
  simpl. rewrite Lb in Lo. split; [done|]. split; [congruence|]. by split.
Qed.

Lemma Resample16khzTo48khz_cascade :
  frame_resampler wf_16_48 WebRtcSpl_Resample16khzTo48khz cascade_16_48 160 480 336.
Proof.
  intros inp st mem Hi (W1 & W2 & W3) Hm.
  unfold WebRtcSpl_Resample16khzTo48khz, cascade_16_48. rewrite slice_all by lia.
  destruct (stage_result (f := WebRtcSpl_UpBy2ShortToInt) (S_16_32 st) inp)
    as (a & s1 & -> & La & Ls1); [done..|].
  unfold double in La. rewrite Hi in La.
  destruct (splices_32_24 mem 8 0 80%nat (S_32_24 st) a 16 328 240)
    as (b & h & -> & -> & Lm & Eb & Lb & Lh); [rewrite ?La; first [lia|done]..|].
  rewrite Eb.
  destruct (stage_result (f := WebRtcSpl_UpBy2IntToShort) (S_24_48 st) b)
    as (out & s3 & -> & Lo & Ls3); [done..|].
  simpl. rewrite Lb in Lo. split; [done|]. split; [done|]. by split.
Qed.

Lemma Resample48khzTo8khz_cascade :
  frame_resampler wf_48_8 WebRtcSpl_Resample48khzTo8khz cascade_48_8 480 80 496.
Proof.
  intros inp st mem Hi (W1 & W2 & W3 & W4) Hm.
  unfold WebRtcSpl_Resample48khzTo8khz, cascade_48_8. rewrite slice_all by lia.
  destruct (stage_result (f := WebRtcSpl_DownBy2ShortToInt) (S_48_24 st) inp)
    as (a & s1 & -> & La & Ls1); [done|exists 240%nat; lia|].
  rewrite Hi in La. change (Nat.div2 480) with 240%nat in La.
  rewrite slice_store_same by lia.
  destruct (stage_result (f := WebRtcSpl_LPBy2IntToInt) (S_24_24 st) a)
    as (b & s2 & -> & Lb & Ls2); [done|exists 120%nat; lia|].
  unfold id_rate in Lb. rewrite La in Lb.
  assert (length (store mem 256 a) = length mem) as L1 by (apply store_length; lia).
  destruct (splices_48_32 (store mem 256 a) 8 0 80%nat (S_24_16 st) b 16 248 160)
    as (c & h & -> & -> & Lm & Ec & Lc & Lh); [rewrite ?Lb, ?L1; first [lia|done]..|].
  set (m2 := WebRtcSpl_Resample48khzTo32khz _ _ _ _) in *.
  destruct (final_down m2 160 (S_16_8 st) c) as (out & buf & s4 & -> & -> & Lm' & Lo & Ls4);
    [lia|rewrite Lm, L1; lia|done|exists 40%nat; rewrite Lc; done|done|].
  simpl. rewrite Lc in Lo. split; [done|]. split; [congruence|]. by split.
Qed.

Lemma Resample8khzTo48khz_cascade :
  frame_resampler wf_8_48 WebRtcSpl_Resample8khzTo48khz cascade_8_48 80 480 424.
Proof.
  intros inp st mem Hi (W1 & W2 & W3 & W4) Hm.
  unfold WebRtcSpl_Resample8khzTo48khz, cascade_8_48. rewrite slice_all by lia.
  destruct (stage_result (f := WebRtcSpl_UpBy2ShortToInt) (S_8_16 st) inp)
    as (a & s1 & -> & La & Ls1); [done..|].
  unfold double in La. rewrite Hi in La.
  destruct (splices_32_24 mem 256 240 40%nat (S_16_12 st) a 264 416 120)
    as (b & h & -> & -> & Lm & Eb & Lb & Lh); [rewrite ?La; first [lia|done]..|].
  rewrite Eb.
  destruct (stage_result (f := WebRtcSpl_UpBy2IntToInt) (S_12_24 st) b)
    as (c & s3 & -> & Lc & Ls3); [done..|].
  unfold double in Lc. rewrite Lb in Lc. simpl in Lc.
  set (m := WebRtcSpl_Resample32khzTo24khz _ _ _ _) in *.
  rewrite slice_store_same by lia.
  destruct (stage_result (f := WebRtcSpl_UpBy2IntToShort) (S_24_48' st) c)
    as (out & s4 & -> & Lo & Ls4); [done..|].
  simpl. rewrite Lc in Lo. split; [done|]. split; [|by split].
  rewrite store_length by lia. done.
Qed.

(** * Properties *)

(** Each 10 ms resampler between 48 kHz and 8 or 16 kHz computes, in the scratch block it
    shares between its stages, exactly the cascade of its half-band stages and its fractional
    stage: samples and state do not depend on what the block contained, the output has the
    480, 160 or 80 samples of the target rate, every stage's state keeps its size and the
    block needs 496, 336, 496 and 424 words. *)
Lemma resample_48khz_cascades :
  frame_resampler wf_48_16 WebRtcSpl_Resample48khzTo16khz cascade_48_16 480 160 496 ∧
  frame_resampler wf_16_48 WebRtcSpl_Resample16khzTo48khz cascade_16_48 160 480 336 ∧
  frame_resampler wf_48_8 WebRtcSpl_Resample48khzTo8khz cascade_48_8 480 80 496 ∧
  frame_resampler wf_8_48 WebRtcSpl_Resample8khzTo48khz cascade_8_48 80 480 424 ∧
  wf_48_16 WebRtcSpl_ResetResample48khzTo16khz ∧ wf_16_48 WebRtcSpl_ResetResample16khzTo48khz ∧
  wf_48_8 WebRtcSpl_ResetResample48khzTo8khz ∧ wf_8_48 WebRtcSpl_ResetResample8khzTo48khz.
Proof.
  split; [apply Resample48khzTo16khz_cascade|]. split; [apply Resample16khzTo48khz_cascade|].
  split; [apply Resample48khzTo8khz_cascade|]. split; [apply Resample8khzTo48khz_cascade|].
  by vm_compute.
Qed.
