(* ===== verification/Resample22.v ===== *)
(** The 10 ms resamplers between 22 kHz and 8 or 16 kHz of
    common_audio/signal_processing/resample.c.

    They cascade the same stages as those of Resample48, but split the frame into two, four
    or five sub-blocks "to reduce temp buffer size", with all state carried between the
    sub-blocks.  The theorem shows that the splitting is invisible: the functions compute the
    cascade of the whole frame. *)
From S2P Require Import Prelude ResampleInt ResampleFrac Resample48.

(** * Definitions *)

Definition kCoefficients32To22 : list (list Z) :=
  [[127; -712; 2359; -6333; 23456; 16775; -3695; 945; -154];
   [-39; 230; -830; 2785; 32366; -2324; 760; -218; 38];
   [117; -663; 2222; -6133; 26634; 13070; -3174; 831; -137];
   [-77; 457; -1677; 5958; 31175; -4136; 1405; -408; 71];
   [98; -560; 1900; -5406; 29240; 9423; -2480; 663; -110]].

Definition WebRtcSpl_DotProdIntToInt (mem : list Z) (in1 in2 : Z) (coef_ptr : list Z)
    (out1 out2 : Z) : list Z :=
  let '(tmp1, tmp2) :=
    for_up 0 8 (λ j '(tmp1, tmp2),
      let coef := coef_ptr.[j] in
      (tmp1 ⊞ coef ⊠ mem.[in1 + j], tmp2 ⊞ coef ⊠ mem.[in2 - j])) (16384, 16384) in
  let coef := coef_ptr.[8] in
  let mem := wr mem out1 (tmp1 ⊞ coef ⊠ mem.[in1 + 8]) in
  wr mem out2 (tmp2 ⊞ coef ⊠ mem.[in2 - 8]).

(** The input and the 16-bit output are different arrays: the two results. *)
Definition WebRtcSpl_DotProdIntToShort (inp : Z → Z) (in1 in2 : Z) (coef_ptr : list Z)
    : Z * Z :=
  let '(tmp1, tmp2) :=
    for_up 0 9 (λ j '(tmp1, tmp2),
      let coef := coef_ptr.[j] in
      (tmp1 ⊞ coef ⊠ inp (in1 + j), tmp2 ⊞ coef ⊠ inp (in2 - j))) (16384, 16384) in
  (clip16 (tmp1 ≫ 15), clip16 (tmp2 ≫ 15)).

Definition block_32_22 (mem : list Z) (In Out : Z) : list Z :=
  let mem := wr mem Out (shl32 (mem.[In + 3]) 15 ⊞ (1 ≪ 14)) in
  let mem := WebRtcSpl_DotProdIntToInt mem In (In + 22) (row kCoefficients32To22 0)
               (Out + 1) (Out + 10) in
  let mem := WebRtcSpl_DotProdIntToInt mem (In + 2) (In + 20) (row kCoefficients32To22 1)
               (Out + 2) (Out + 9) in
  let mem := WebRtcSpl_DotProdIntToInt mem (In + 3) (In + 19) (row kCoefficients32To22 2)
               (Out + 3) (Out + 8) in
  let mem := WebRtcSpl_DotProdIntToInt mem (In + 5) (In + 17) (row kCoefficients32To22 3)
               (Out + 4) (Out + 7) in
  WebRtcSpl_DotProdIntToInt mem (In + 6) (In + 16) (row kCoefficients32To22 4)
    (Out + 5) (Out + 6).

Definition WebRtcSpl_32khzTo22khzIntToInt (mem : list Z) (In Out : Z) (K : nat) : list Z :=
  for_up 0 K (λ m mem, block_32_22 mem (In + 16 * m) (Out + 11 * m)) mem.

(** [Out[0]] to [Out[10]] of a block. *)
Definition block_32_22_short (In : Z → Z) : list Z :=
  let tmp := clip16 (In 3) in
  let '(o1, o10) := WebRtcSpl_DotProdIntToShort In 0 22 (row kCoefficients32To22 0) in
  let '(o2, o9) := WebRtcSpl_DotProdIntToShort In 2 20 (row kCoefficients32To22 1) in
  let '(o3, o8) := WebRtcSpl_DotProdIntToShort In 3 19 (row kCoefficients32To22 2) in
  let '(o4, o7) := WebRtcSpl_DotProdIntToShort In 5 17 (row kCoefficients32To22 3) in
  let '(o5, o6) := WebRtcSpl_DotProdIntToShort In 6 16 (row kCoefficients32To22 4) in
  [tmp; o1; o2; o3; o4; o5; o6; o7; o8; o9; o10].

Definition WebRtcSpl_32khzTo22khzIntToShort (mem : list Z) (In : Z) (K : nat) : list Z :=
  for_up 0 K (λ m out, out ++ block_32_22_short (λ t, mem.[In + 16 * m + t])) [].

Record WebRtcSpl_State22khzTo16khz :=
  mkState22To16 { S_22_44 : list Z; S_44_32 : list Z; s22_S_32_16 : list Z }.
Record WebRtcSpl_State16khzTo22khz :=
  mkState16To22 { s22_S_16_32 : list Z; S_32_22 : list Z }.
Record WebRtcSpl_State22khzTo8khz :=
  mkState22To8 { S_22_22 : list Z; S_22_16 : list Z; s22_S_16_8 : list Z }.
Record WebRtcSpl_State8khzTo22khz :=
  mkState8To22 { s22_S_8_16 : list Z; S_16_11 : list Z; S_11_22 : list Z }.

(** The loop over [N] sub-blocks of [n] input samples. *)
Definition sub_blocks {S} (N : nat) (n : Z) (sub : list Z → S → list Z → list Z * S * list Z)
    (inp : list Z) (state : S) (tmpmem : list Z) : list Z * S * list Z :=
  for_up 0 N (λ k '(out, state, tmpmem),
    let '(o, state, tmpmem) := sub (slice inp (n * k) n) state tmpmem in
    (out ++ o, state, tmpmem)) ([], state, tmpmem).

Definition sub_block_22_16 (inp : list Z) (state : WebRtcSpl_State22khzTo16khz)
    (tmpmem : list Z) : list Z * WebRtcSpl_State22khzTo16khz * list Z :=
  let '(up, s_22_44) := WebRtcSpl_UpBy2ShortToInt inp (S_22_44 state) in
  let tmpmem := store tmpmem 16 up in
  let tmpmem := store tmpmem 8 (S_44_32 state) in
  let s_44_32 := slice tmpmem (440 `div` 5 + 8) 8 in
  let tmpmem := WebRtcSpl_Resample44khzTo32khz tmpmem 8 0 8 in
  let '(out, buf, s_32_16) :=
    WebRtcSpl_DownBy2IntToShort (slice tmpmem 0 (320 `div` 5)) (s22_S_32_16 state) in
  (out, mkState22To16 s_22_44 s_44_32 s_32_16, store tmpmem 0 buf).

Definition WebRtcSpl_Resample22khzTo16khz := sub_blocks 5 (220 `div` 5) sub_block_22_16.

Definition WebRtcSpl_ResetResample22khzTo16khz : WebRtcSpl_State22khzTo16khz :=
  mkState22To16 (replicate 8 0) (replicate 8 0) (replicate 8 0).

Definition sub_block_16_22 (inp : list Z) (state : WebRtcSpl_State16khzTo22khz)
    (tmpmem : list Z) : list Z * WebRtcSpl_State16khzTo22khz * list Z :=
  let '(up, s_16_32) := WebRtcSpl_UpBy2ShortToInt inp (s22_S_16_32 state) in
  let tmpmem := store tmpmem 8 up in
  let tmpmem := store tmpmem 0 (S_32_22 state) in
  let s_32_22 := slice tmpmem (320 `div` 4) 8 in
  let out := WebRtcSpl_32khzTo22khzIntToShort tmpmem 0 5 in
  (out, mkState16To22 s_16_32 s_32_22, tmpmem).

Definition WebRtcSpl_Resample16khzTo22khz := sub_blocks 4 (160 `div` 4) sub_block_16_22.

Definition WebRtcSpl_ResetResample16khzTo22khz : WebRtcSpl_State16khzTo22khz :=
  mkState16To22 (replicate 8 0) (replicate 8 0).

Definition sub_block_22_8 (inp : list Z) (state : WebRtcSpl_State22khzTo8khz)
    (tmpmem : list Z) : list Z * WebRtcSpl_State22khzTo8khz * list Z :=
  let '(lp, s_22_22) := WebRtcSpl_LPBy2ShortToInt inp (S_22_22 state) in
  let tmpmem := store tmpmem 16 lp in
  let tmpmem := store tmpmem 8 (S_22_16 state) in
  let s_22_16 := slice tmpmem (220 `div` 2 + 8) 8 in
  let tmpmem := WebRtcSpl_Resample44khzTo32khz tmpmem 8 0 10 in
  let '(out, buf, s_16_8) :=
    WebRtcSpl_DownBy2IntToShort (slice tmpmem 0 (160 `div` 2)) (s22_S_16_8 state) in
  (out, mkState22To8 s_22_22 s_22_16 s_16_8, store tmpmem 0 buf).

Definition WebRtcSpl_Resample22khzTo8khz := sub_blocks 2 (220 `div` 2) sub_block_22_8.

Definition WebRtcSpl_ResetResample22khzTo8khz : WebRtcSpl_State22khzTo8khz :=
  mkState22To8 (replicate 16 0) (replicate 8 0) (replicate 8 0).

Definition sub_block_8_22 (inp : list Z) (state : WebRtcSpl_State8khzTo22khz)
    (tmpmem : list Z) : list Z * WebRtcSpl_State8khzTo22khz * list Z :=
  let '(up, s_8_16) := WebRtcSpl_UpBy2ShortToInt inp (s22_S_8_16 state) in
  let tmpmem := store tmpmem 18 up in
  let tmpmem := store tmpmem 10 (S_16_11 state) in
  let s_16_11 := slice tmpmem (160 `div` 2 + 10) 8 in
  let tmpmem := WebRtcSpl_32khzTo22khzIntToInt tmpmem 10 0 5 in
  let '(out, s_11_22) :=
    WebRtcSpl_UpBy2IntToShort (slice tmpmem 0 (110 `div` 2)) (S_11_22 state) in
  (out, mkState8To22 s_8_16 s_16_11 s_11_22, tmpmem).

Definition WebRtcSpl_Resample8khzTo22khz := sub_blocks 2 (80 `div` 2) sub_block_8_22.

Definition WebRtcSpl_ResetResample8khzTo22khz : WebRtcSpl_State8khzTo22khz :=
  mkState8To22 (replicate 8 0) (replicate 8 0) (replicate 8 0).

(** * The cascades of a whole frame *)

Definition taps_32_22 : list (list (Z * Z)) :=
  [[(3, 32768)]; fwd 0 (row kCoefficients32To22 0); fwd 2 (row kCoefficients32To22 1);
   fwd 3 (row kCoefficients32To22 2); fwd 5 (row kCoefficients32To22 3);
   fwd 6 (row kCoefficients32To22 4); bwd 16 (row kCoefficients32To22 4);
   bwd 17 (row kCoefficients32To22 3); bwd 19 (row kCoefficients32To22 2);
   bwd 20 (row kCoefficients32To22 1); bwd 22 (row kCoefficients32To22 0)].

Definition cascade_22_16 (inp : list Z) (st : WebRtcSpl_State22khzTo16khz)
    : list Z * WebRtcSpl_State22khzTo16khz :=
  let '(a, s1) := WebRtcSpl_UpBy2ShortToInt inp (S_22_44 st) in
  let '(b, s2) := fractional 11 taps_44_32 a (S_44_32 st) in
  let '(out, s3) := down_by_2 b (s22_S_32_16 st) in
  (out, mkState22To16 s1 s2 s3).

Definition cascade_16_22 (inp : list Z) (st : WebRtcSpl_State16khzTo22khz)
    : list Z * WebRtcSpl_State16khzTo22khz :=
  let '(a, s1) := WebRtcSpl_UpBy2ShortToInt inp (s22_S_16_32 st) in
  let '(out, s2) := with_history 16 block_32_22_short a (S_32_22 st) in
  (out, mkState16To22 s1 s2).

Definition cascade_22_8 (inp : list Z) (st : WebRtcSpl_State22khzTo8khz)
    : list Z * WebRtcSpl_State22khzTo8khz :=
  let '(a, s1) := WebRtcSpl_LPBy2ShortToInt inp (S_22_22 st) in
  let '(b, s2) := fractional 11 taps_44_32 a (S_22_16 st) in
  let '(out, s3) := down_by_2 b (s22_S_16_8 st) in
  (out, mkState22To8 s1 s2 s3).

Definition cascade_8_22 (inp : list Z) (st : WebRtcSpl_State8khzTo22khz)
    : list Z * WebRtcSpl_State8khzTo22khz :=
  let '(a, s1) := WebRtcSpl_UpBy2ShortToInt inp (s22_S_8_16 st) in
  let '(b, s2) := fractional 16 taps_32_22 a (S_16_11 st) in
  let '(out, s3) := WebRtcSpl_UpBy2IntToShort b (S_11_22 st) in
  (out, mkState8To22 s1 s2 s3).

Definition wf_22_16 (st : WebRtcSpl_State22khzTo16khz) : Prop :=
  length (S_22_44 st) = 8%nat ∧ length (S_44_32 st) = 8%nat ∧ length (s22_S_32_16 st) = 8%nat.
Definition wf_16_22 (st : WebRtcSpl_State16khzTo22khz) : Prop :=
  length (s22_S_16_32 st) = 8%nat ∧ length (S_32_22 st) = 8%nat.
Definition wf_22_8 (st : WebRtcSpl_State22khzTo8khz) : Prop :=
  length (S_22_22 st) = 16%nat ∧ length (S_22_16 st) = 8%nat ∧ length (s22_S_16_8 st) = 8%nat.
Definition wf_8_22 (st : WebRtcSpl_State8khzTo22khz) : Prop :=
  length (s22_S_8_16 st) = 8%nat ∧ length (S_16_11 st) = 8%nat ∧ length (S_11_22 st) = 8%nat.

(** * Lemmas *)

Lemma DotProdIntToInt_eq : WebRtcSpl_DotProdIntToInt = WebRtcSpl_ResampDotProduct.
Proof. reflexivity. Qed.

(** The last output of the first inner product may overwrite the first input word. *)
Lemma block_32_22_spec : block_spec block_32_22 10 23 taps_32_22.
Proof.
  intros mem i o Ho Hg Hw Hl. change (zlen taps_32_22) with 11 in *.
  unfold block_32_22. change (1 ≪ 14) with 16384. cbv zeta.
  rewrite shl15, DotProdIntToInt_eq.
  rewrite (dot_product_fir _ i 0 22 i) by (try done; lia).
  rewrite (dot_product_fir _ i 2 20 (i + 2)) by (try done; lia).
  rewrite (dot_product_fir _ i 3 19 (i + 3)) by (try done; lia).
  rewrite (dot_product_fir _ i 5 17 (i + 5)) by (try done; lia).
  rewrite (dot_product_fir _ i 6 16 (i + 6)) by (try done; lia).
  split; [by rewrite !wr_length|]. split; [intros p Hp; by skip_writes|].
  rewrite slice_rds by (rewrite ?wr_length; lia). unfold taps_32_22.
  change (seqZ 0 11) with [0; 1; 2; 3; 4; 5; 6; 7; 8; 9; 10]. cbn [map].
  f_equal; [rewrite Z.add_0_r; rd_writes; done|].
  do 9 (f_equal; [rd_writes; fir_reads|]). f_equal. rd_writes. fir_reads.
Qed.

Lemma window_32_22 : window 23 taps_32_22.
Proof. apply (bool_decide_unpack _). by vm_compute. Qed.

#[export] Instance fractional_32_22_stage :
  Stage 8 (blocks_of 16) (λ n, 11 * (n / 16))%nat (fractional 16 taps_32_22).
Proof. apply (fractional_stage_intro 16 23 taps_32_22); [lia|apply window_32_22|lia]. Qed.

Lemma splices_32_22 : splices WebRtcSpl_32khzTo22khzIntToInt 16 10 taps_32_22.
Proof.
  apply (splices_intro block_32_22 16 10 23 taps_32_22); try done;
    [apply block_32_22_spec|apply window_32_22|lia].
Qed.

Lemma DotProdIntToShort_ext f f' in1 in2 cs :
  (∀ j, 0 ≤ j < 9 → f (in1 + j) = f' (in1 + j) ∧ f (in2 - j) = f' (in2 - j)) →
  WebRtcSpl_DotProdIntToShort f in1 in2 cs = WebRtcSpl_DotProdIntToShort f' in1 in2 cs.
Proof.
  intros H. unfold WebRtcSpl_DotProdIntToShort. cbv zeta.
  rewrite (for_up_ext 0 9 _ (λ j '(tmp1, tmp2),
    (tmp1 ⊞ cs.[j] ⊠ f' (in1 + j), tmp2 ⊞ cs.[j] ⊠ f' (in2 - j)))); [done|].
  intros j [t1 t2] Hj. by destruct (H j ltac:(lia)) as [-> ->].
Qed.

Lemma block_32_22_short_local : local 23 block_32_22_short.
Proof.
  intros f f' H. unfold block_32_22_short. rewrite (H 3) by lia.
  rewrite !(DotProdIntToShort_ext f f') by (intros j Hj; split; apply H; lia). done.
Qed.

Lemma block_32_22_short_length f : length (block_32_22_short f) = 11%nat.
Proof.
  unfold block_32_22_short.
  repeat (destruct (WebRtcSpl_DotProdIntToShort f _ _ _)). done.
Qed.

#[export] Instance fractional_short_stage :
  Stage 8 (blocks_of 16) (λ n, 11 * (n / 16))%nat (with_history 16 block_32_22_short).
Proof.
  apply (with_history_stage 16 23); [lia|apply block_32_22_short_local| |lia].
  apply block_32_22_short_length.
Qed.

Lemma IntToShort_blocks mem In K :
  WebRtcSpl_32khzTo22khzIntToShort mem In K =
    blocks 16 block_32_22_short (λ t, mem.[In + t]) K.
Proof.
  unfold WebRtcSpl_32khzTo22khzIntToShort. induction K as [|K IH]; [done|].
  rewrite for_up_S_r, IH. simpl. f_equal. apply block_32_22_short_local.
  intros t _. f_equal. lia.
Qed.

(** A cascade processes admissible frames one by one as it does their concatenation. *)
Definition streams {S} (wf : S → Prop) (ok : nat → Prop) (c : list Z → S → list Z * S) : Prop :=
  ∀ xs ys st, wf st → ok (length xs) → ok (length ys) →
    c (xs ++ ys) st =
      let '(o1, st1) := c xs st in let '(o2, st2) := c ys st1 in (o1 ++ o2, st2).

(** Splitting a frame into sub-blocks is invisible. *)
Lemma sub_blocks_frame {S} (wf : S → Prop) ok sub c N n nout words :
  frame_resampler wf sub c n nout words → streams wf ok c →
  (∀ k, ok (k * n)%nat) → (0 < N)%nat →
  frame_resampler wf (sub_blocks N (Z.of_nat n) sub) c (N * n) (N * nout) words.
Proof.
  intros Hsub Hstr Hok HN inp st mem Hi Hst Hm.
  enough (∀ j, (j < N)%nat →
    let r := for_up 0 (Datatypes.S j) (λ k '(out, state, tmpmem),
      let '(o, state, tmpmem) := sub (slice inp (Z.of_nat n * k) (Z.of_nat n)) state tmpmem in
      (out ++ o, state, tmpmem)) ([], st, mem) in
    let c' := c (slice inp 0 (Z.of_nat n * Z.of_nat (Datatypes.S j))) st in
    r.1 = c' ∧ length r.2 = length mem ∧ length c'.1 = (Datatypes.S j * nout)%nat ∧ wf c'.2) as H.
  { destruct N as [|N]; [lia|]. specialize (H N ltac:(lia)). cbv zeta in H.
    rewrite slice_all in H by lia. exact H. }
  induction j as [|j IH]; intros Hj; cbv zeta.
  - destruct (Hsub (slice inp 0 (Z.of_nat n)) st mem) as (E1 & E2 & E3 & E4);
      [rewrite slice_length; nia|done..|].
    simpl for_up. rewrite Z.mul_0_r, Z.mul_1_r. rewrite <- E1 in E3, E4 |- *.
    destruct (sub _ _ _) as [[o st'] mem']. simpl in *. repeat split; try done; lia.
  - rewrite for_up_S_r. specialize (IH ltac:(lia)). cbv zeta in IH.
    destruct (for_up 0 (Datatypes.S j) _ _) as [[o1 st1] mem1].
    destruct IH as (I1 & I2 & I3 & I4). simpl in I1, I2.
    replace (Z.of_nat n * Z.of_nat (Datatypes.S (Datatypes.S j)))
      with (Z.of_nat n * Z.of_nat (Datatypes.S j) + Z.of_nat n) by lia.
    rewrite slice_app by lia. rewrite !Z.add_0_l.
    rewrite Hstr; [|done|rewrite slice_length by nia|rewrite slice_length by nia].
    2:{ replace (Z.to_nat (Z.of_nat n * Z.of_nat (Datatypes.S j))) with (Datatypes.S j * n)%nat by lia. apply Hok. }
    2:{ replace (Z.to_nat (Z.of_nat n)) with (1 * n)%nat by lia. apply Hok. }
    rewrite <- I1 in I3, I4 |- *. simpl in I3, I4.
    destruct (Hsub (slice inp (Z.of_nat n * Z.of_nat (Datatypes.S j)) (Z.of_nat n)) st1 mem1)
      as (E1 & E2 & E3 & E4); [rewrite slice_length; nia|done|lia|].
    rewrite <- E1 in E3, E4 |- *.
    destruct (sub _ _ _) as [[o st'] mem']. simpl in *. rewrite length_app.
    repeat split; try done; lia.
Qed.

#[local] Opaque WebRtcSpl_Resample44khzTo32khz WebRtcSpl_32khzTo22khzIntToInt
  WebRtcSpl_32khzTo22khzIntToShort.

Lemma sub_block_22_16_cascade :
  frame_resampler wf_22_16 sub_block_22_16 cascade_22_16 44 32 104.
Proof.
  intros inp st mem Hi (W1 & W2 & W3) Hm. unfold sub_block_22_16, cascade_22_16.
  destruct (stage_result (f := WebRtcSpl_UpBy2ShortToInt) (S_22_44 st) inp)
    as (a & s1 & -> & La & Ls1); [done..|].
  unfold double in La. rewrite Hi in La.
  destruct (splices_44_32 mem 8 0 8%nat (S_44_32 st) a 16 (440 `div` 5 + 8) 64)
    as (b & h & -> & -> & Lm & Eb & Lb & Lh); [rewrite ?La; first [lia|done]..|].
  set (m2 := WebRtcSpl_Resample44khzTo32khz _ _ _ _) in *.
  destruct (final_down m2 64 (s22_S_32_16 st) b) as (out & buf & s3 & E & -> & Lm' & Lo & Ls3);
    [lia|rewrite Lm; lia|done|exists 16%nat; rewrite Lb; done|done|].
  change (320 `div` 5) with 64. rewrite E. simpl. rewrite Lb in Lo.
  split; [done|]. split; [congruence|]. by split.
Qed.

Lemma sub_block_22_8_cascade :
  frame_resampler wf_22_8 sub_block_22_8 cascade_22_8 110 40 126.
Proof.
  intros inp st mem Hi (W1 & W2 & W3) Hm. unfold sub_block_22_8, cascade_22_8.
  destruct (stage_result (f := WebRtcSpl_LPBy2ShortToInt) (S_22_22 st) inp)
    as (a & s1 & -> & La & Ls1); [done|exists 55%nat; lia|].
  unfold id_rate in La. rewrite Hi in La.
  destruct (splices_44_32 mem 8 0 10%nat (S_22_16 st) a 16 (220 `div` 2 + 8) 80)
    as (b & h & -> & -> & Lm & Eb & Lb & Lh); [rewrite ?La; first [lia|done]..|].
  set (m2 := WebRtcSpl_Resample44khzTo32khz _ _ _ _) in *.
  destruct (final_down m2 80 (s22_S_16_8 st) b) as (out & buf & s3 & E & -> & Lm' & Lo & Ls3);
    [lia|rewrite Lm; lia|done|exists 20%nat; rewrite Lb; done|done|].
  change (160 `div` 2) with 80. rewrite E. simpl. rewrite Lb in Lo.
  split; [done|]. split; [congruence|]. by split.
Qed.

Lemma sub_block_8_22_cascade :
  frame_resampler wf_8_22 sub_block_8_22 cascade_8_22 40 110 98.
Proof.
  intros inp st mem Hi (W1 & W2 & W3) Hm. unfold sub_block_8_22, cascade_8_22.
  destruct (stage_result (f := WebRtcSpl_UpBy2ShortToInt) (s22_S_8_16 st) inp)
    as (a & s1 & -> & La & Ls1); [done..|].
  unfold double in La. rewrite Hi in La.
  destruct (splices_32_22 mem 10 0 5%nat (S_16_11 st) a 18 (160 `div` 2 + 10) (110 `div` 2))
    as (b & h & -> & -> & Lm & Eb & Lb & Lh); [rewrite ?La; first [lia|done]..|].
  rewrite Eb.
  destruct (stage_result (f := WebRtcSpl_UpBy2IntToShort) (S_11_22 st) b)
    as (out & s3 & -> & Lo & Ls3); [done..|].
  simpl. rewrite Lb in Lo. split; [done|]. split; [done|]. by split.
Qed.

Lemma sub_block_16_22_cascade :
  frame_resampler wf_16_22 sub_block_16_22 cascade_16_22 40 55 88.
Proof.
  intros inp st mem Hi (W1 & W2) Hm. unfold sub_block_16_22, cascade_16_22.
  destruct (stage_result (f := WebRtcSpl_UpBy2ShortToInt) (s22_S_16_32 st) inp)
    as (a & s1 & -> & La & Ls1); [done..|].
  unfold double in La. rewrite Hi in La.
  destruct (stage_result (f := with_history 16 block_32_22_short) (S_32_22 st) a)
    as (out & h & E & Lo & Lh); [done|exists 5%nat; lia|].
  assert (blocks 16 block_32_22_short (rd (S_32_22 st ++ a)) (length a / 16) = out) as Eo
    by (change out with ((out, h).1); by rewrite <- E).
  assert (slice (S_32_22 st ++ a) (zlen a) 8 = h) as Eh
    by (change h with ((out, h).2); by rewrite <- E).
  set (m := store (store mem 8 a) 0 (S_32_22 st)).
  assert (length m = length mem) as Lm by (subst m; rewrite !store_length; rewrite ?store_length; lia).
  assert (∀ t, 0 ≤ t < 88 → m.[t] = (S_32_22 st ++ a).[t]) as Hrd.
  { intros t Ht. subst m. rewrite rd_store by (rewrite ?store_length; lia).
    destruct (Z.leb_spec 0 t); [|lia]. destruct (Z.ltb_spec t (0 + zlen (S_32_22 st))); simpl.
    - rewrite rd_app_l by lia. f_equal. lia.
    - rewrite rd_store by lia. destruct (Z.leb_spec 8 t), (Z.ltb_spec t (8 + zlen a)); try lia.
      rewrite rd_app_r by lia. simpl. f_equal. lia. }
  rewrite E. simpl. rewrite La in Lo. split; [|split; [done|by split]]. f_equal.
  - rewrite <- Eo, IntToShort_blocks, La. change (2 * 40 / 16)%nat with 5%nat.
    apply (blocks_ext _ _ _ _ _ 23); [lia|apply block_32_22_short_local|].
    intros t Ht. apply Hrd. lia.
  - f_equal. rewrite <- Eh. change (320 `div` 4) with 80.
    apply slice_rd_eq; rewrite ?length_app; try lia. intros i Hi'. rewrite La. apply Hrd. lia.
Qed.

(** Streaming of the cascades, from that of their stages. *)
Lemma stage_split {words ok rate f} `{!Stage words ok rate f} st xs ys :
  length st = words → ok (length xs) → ok (length ys) →
  ∃ a b s1 s2, f xs st = (a, s1) ∧ f ys s1 = (b, s2) ∧ f (xs ++ ys) st = (a ++ b, s2) ∧
    length a = rate (length xs) ∧ length b = rate (length ys) ∧
    length s1 = words ∧ length s2 = words.
Proof.
  intros Hs Hx Hy. pose proof (stage_stream (f := f) st xs ys Hs Hx Hy) as E.
  destruct (stage_result (f := f) st xs Hs Hx) as (a & s1 & E1 & La & L1). rewrite E1 in E.
  destruct (stage_result (f := f) s1 ys L1 Hy) as (b & s2 & E2 & Lb & L2). rewrite E2 in E.
  by exists a, b, s1, s2.
Qed.

Lemma cascade_22_16_streams : streams wf_22_16 (blocks_of 22) cascade_22_16.
Proof.
  intros xs ys st (W1 & W2 & W3) [k Hx] [j Hy]. unfold cascade_22_16.
  destruct (stage_split (f := WebRtcSpl_UpBy2ShortToInt) (S_22_44 st) xs ys)
    as (a & a' & s1 & s1' & -> & E1 & -> & La & La' & _); [done..|].
  unfold double in *.
  destruct (stage_split (f := fractional 11 taps_44_32) (S_44_32 st) a a')
    as (b & b' & s2 & s2' & -> & E2 & -> & Lb & Lb' & _);
    [done|exists (4 * k)%nat; lia|exists (4 * j)%nat; lia|].
  destruct (stage_split (f := down_by_2) (s22_S_32_16 st) b b')
    as (c & c' & s3 & s3' & -> & E3 & -> & _); [done| | |].
  { exists (2 * (length a / 11))%nat. lia. } { exists (2 * (length a' / 11))%nat. lia. }
  cbn [S_22_44 S_44_32 s22_S_32_16 S_22_22 S_22_16 s22_S_16_8 s22_S_8_16 S_16_11 S_11_22].
  by rewrite E1, E2, E3.
Qed.

Lemma cascade_22_8_streams : streams wf_22_8 (blocks_of 22) cascade_22_8.
Proof.
  intros xs ys st (W1 & W2 & W3) [k Hx] [j Hy]. unfold cascade_22_8.
  destruct (stage_split (f := WebRtcSpl_LPBy2ShortToInt) (S_22_22 st) xs ys)
    as (a & a' & s1 & s1' & -> & E1 & -> & La & La' & _);
    [done|exists (11 * k)%nat; lia|exists (11 * j)%nat; lia|].
  unfold id_rate in *.
  destruct (stage_split (f := fractional 11 taps_44_32) (S_22_16 st) a a')
    as (b & b' & s2 & s2' & -> & E2 & -> & Lb & Lb' & _);
    [done|exists (2 * k)%nat; lia|exists (2 * j)%nat; lia|].
  destruct (stage_split (f := down_by_2) (s22_S_16_8 st) b b')
    as (c & c' & s3 & s3' & -> & E3 & -> & _); [done| | |].
  { exists (2 * (length a / 11))%nat. lia. } { exists (2 * (length a' / 11))%nat. lia. }
  cbn [S_22_44 S_44_32 s22_S_32_16 S_22_22 S_22_16 s22_S_16_8 s22_S_8_16 S_16_11 S_11_22].
  by rewrite E1, E2, E3.
Qed.

Lemma cascade_8_22_streams : streams wf_8_22 (blocks_of 8) cascade_8_22.
Proof.
  intros xs ys st (W1 & W2 & W3) [k Hx] [j Hy]. unfold cascade_8_22.
  destruct (stage_split (f := WebRtcSpl_UpBy2ShortToInt) (s22_S_8_16 st) xs ys)
    as (a & a' & s1 & s1' & -> & E1 & -> & La & La' & _); [done..|].
  unfold double in *.
  destruct (stage_split (f := fractional 16 taps_32_22) (S_16_11 st) a a')
    as (b & b' & s2 & s2' & -> & E2 & -> & Lb & Lb' & _);
    [done|exists k; lia|exists j; lia|].
  destruct (stage_split (f := WebRtcSpl_UpBy2IntToShort) (S_11_22 st) b b')
    as (c & c' & s3 & s3' & -> & E3 & -> & _); [done..|].
  cbn [S_22_44 S_44_32 s22_S_32_16 S_22_22 S_22_16 s22_S_16_8 s22_S_8_16 S_16_11 S_11_22].
  by rewrite E1, E2, E3.
Qed.

Lemma cascade_16_22_streams : streams wf_16_22 (blocks_of 8) cascade_16_22.
Proof.
  intros xs ys st (W1 & W2) [k Hx] [j Hy]. unfold cascade_16_22.
  destruct (stage_split (f := WebRtcSpl_UpBy2ShortToInt) (s22_S_16_32 st) xs ys)
    as (a & a' & s1 & s1' & -> & E1 & -> & La & La' & _); [done..|].
  unfold double in *.
  destruct (stage_split (f := with_history 16 block_32_22_short) (S_32_22 st) a a')
    as (b & b' & s2 & s2' & -> & E2 & -> & _); [done|exists k; lia|exists j; lia|].
  cbn [s22_S_16_32 S_32_22]. by rewrite E1, E2.
Qed.

(** * Properties *)

(** C24: the 10 ms resamplers between 22 kHz and 8 or 16 kHz, which process the frame in two,
    four or five sub-blocks through a small scratch block, compute the cascade of their
    stages over the whole frame: the number of sub-blocks and the content of the scratch
    block are invisible in samples and state, the output has the length of the target rate,
    and 104, 88, 126 and 98 words of scratch suffice (in the last one the 11th output of a
    block overwrites its first input, after its last use). *)
Theorem resample_22khz_cascades :
  frame_resampler wf_22_16 WebRtcSpl_Resample22khzTo16khz cascade_22_16 220 160 104 ∧
  frame_resampler wf_16_22 WebRtcSpl_Resample16khzTo22khz cascade_16_22 160 220 88 ∧
  frame_resampler wf_22_8 WebRtcSpl_Resample22khzTo8khz cascade_22_8 220 80 126 ∧
  frame_resampler wf_8_22 WebRtcSpl_Resample8khzTo22khz cascade_8_22 80 220 98 ∧
  wf_22_16 WebRtcSpl_ResetResample22khzTo16khz ∧ wf_16_22 WebRtcSpl_ResetResample16khzTo22khz ∧
  wf_22_8 WebRtcSpl_ResetResample22khzTo8khz ∧ wf_8_22 WebRtcSpl_ResetResample8khzTo22khz.
Proof.
  split. { apply (sub_blocks_frame _ (blocks_of 22) _ _ 5 44 32);
    [apply sub_block_22_16_cascade|apply cascade_22_16_streams|intros k; exists (2 * k)%nat; lia|lia]. }
  split. { apply (sub_blocks_frame _ (blocks_of 8) _ _ 4 40 55);
    [apply sub_block_16_22_cascade|apply cascade_16_22_streams|intros k; exists (5 * k)%nat; lia|lia]. }
  split. { apply (sub_blocks_frame _ (blocks_of 22) _ _ 2 110 40);
    [apply sub_block_22_8_cascade|apply cascade_22_8_streams|intros k; exists (5 * k)%nat; lia|lia]. }
  split. { apply (sub_blocks_frame _ (blocks_of 8) _ _ 2 40 110);
    [apply sub_block_8_22_cascade|apply cascade_8_22_streams|intros k; exists (5 * k)%nat; lia|lia]. }
  by vm_compute.
Qed.
