(* ===== verification/VadInst.v ===== *)
(** The state of the voice activity detector: [VadInstT] of common_audio/vad/vad_core.h.

    The C structure is updated field by field; the setters below write one group of fields
    and leave the others as they are. *)
From S2P Require Import Prelude Resample48.

Definition kNumChannels : Z := 6.
Definition kNumGaussians : Z := 2.
Definition kTableSize : Z := kNumChannels * kNumGaussians.
Definition kMinEnergy : Z := 10.

Record VadInstT := mkVadInstT {
  vad : Z;
  downsampling_filter_states : list Z;
  state_48_to_8 : WebRtcSpl_State48khzTo8khz;
  noise_means : list Z;
  speech_means : list Z;
  noise_stds : list Z;
  speech_stds : list Z;
  frame_counter : Z;
  over_hang : Z;
  num_of_speech : Z;
  index_vector : list Z;
  low_value_vector : list Z;
  mean_value : list Z;
  upper_state : list Z;
  lower_state : list Z;
  hp_filter_state : list Z;
  over_hang_max_1 : list Z;
  over_hang_max_2 : list Z;
  individual : list Z;
  total : list Z;
  init_flag : Z
}.

Definition set_vad (self : VadInstT) (v_vad : Z) : VadInstT :=
  mkVadInstT
    v_vad (downsampling_filter_states self) (state_48_to_8 self) (noise_means self)
    (speech_means self) (noise_stds self) (speech_stds self) (frame_counter self)
    (over_hang self) (num_of_speech self) (index_vector self) (low_value_vector self)
    (mean_value self) (upper_state self) (lower_state self) (hp_filter_state self)
    (over_hang_max_1 self) (over_hang_max_2 self) (individual self) (total self)
    (init_flag self).

Definition set_downsampling (self : VadInstT) (v_downsampling_filter_states : list Z) : VadInstT :=
  mkVadInstT
    (vad self) v_downsampling_filter_states (state_48_to_8 self) (noise_means self)
    (speech_means self) (noise_stds self) (speech_stds self) (frame_counter self)
    (over_hang self) (num_of_speech self) (index_vector self) (low_value_vector self)
    (mean_value self) (upper_state self) (lower_state self) (hp_filter_state self)
    (over_hang_max_1 self) (over_hang_max_2 self) (individual self) (total self)
    (init_flag self).

Definition set_state_48_to_8 (self : VadInstT) (v_state_48_to_8 : WebRtcSpl_State48khzTo8khz) : VadInstT :=
  mkVadInstT
    (vad self) (downsampling_filter_states self) v_state_48_to_8 (noise_means self)
    (speech_means self) (noise_stds self) (speech_stds self) (frame_counter self)
    (over_hang self) (num_of_speech self) (index_vector self) (low_value_vector self)
    (mean_value self) (upper_state self) (lower_state self) (hp_filter_state self)
    (over_hang_max_1 self) (over_hang_max_2 self) (individual self) (total self)
    (init_flag self).

Definition set_noise_means (self : VadInstT) (v_noise_means : list Z) : VadInstT :=
  mkVadInstT
    (vad self) (downsampling_filter_states self) (state_48_to_8 self) v_noise_means
    (speech_means self) (noise_stds self) (speech_stds self) (frame_counter self)
    (over_hang self) (num_of_speech self) (index_vector self) (low_value_vector self)
    (mean_value self) (upper_state self) (lower_state self) (hp_filter_state self)
    (over_hang_max_1 self) (over_hang_max_2 self) (individual self) (total self)
    (init_flag self).

Definition set_speech_means (self : VadInstT) (v_speech_means : list Z) : VadInstT :=
  mkVadInstT
    (vad self) (downsampling_filter_states self) (state_48_to_8 self) (noise_means self)
    v_speech_means (noise_stds self) (speech_stds self) (frame_counter self)
    (over_hang self) (num_of_speech self) (index_vector self) (low_value_vector self)
    (mean_value self) (upper_state self) (lower_state self) (hp_filter_state self)
    (over_hang_max_1 self) (over_hang_max_2 self) (individual self) (total self)
    (init_flag self).

Definition set_noise_stds (self : VadInstT) (v_noise_stds : list Z) : VadInstT :=
  mkVadInstT
    (vad self) (downsampling_filter_states self) (state_48_to_8 self) (noise_means self)
    (speech_means self) v_noise_stds (speech_stds self) (frame_counter self)
    (over_hang self) (num_of_speech self) (index_vector self) (low_value_vector self)
    (mean_value self) (upper_state self) (lower_state self) (hp_filter_state self)
    (over_hang_max_1 self) (over_hang_max_2 self) (individual self) (total self)
    (init_flag self).

Definition set_speech_stds (self : VadInstT) (v_speech_stds : list Z) : VadInstT :=
  mkVadInstT
    (vad self) (downsampling_filter_states self) (state_48_to_8 self) (noise_means self)
    (speech_means self) (noise_stds self) v_speech_stds (frame_counter self)
    (over_hang self) (num_of_speech self) (index_vector self) (low_value_vector self)
    (mean_value self) (upper_state self) (lower_state self) (hp_filter_state self)
    (over_hang_max_1 self) (over_hang_max_2 self) (individual self) (total self)
    (init_flag self).

Definition set_frame_counter (self : VadInstT) (v_frame_counter : Z) : VadInstT :=
  mkVadInstT
    (vad self) (downsampling_filter_states self) (state_48_to_8 self) (noise_means self)
    (speech_means self) (noise_stds self) (speech_stds self) v_frame_counter
    (over_hang self) (num_of_speech self) (index_vector self) (low_value_vector self)
    (mean_value self) (upper_state self) (lower_state self) (hp_filter_state self)
    (over_hang_max_1 self) (over_hang_max_2 self) (individual self) (total self)
    (init_flag self).

Definition set_hang (self : VadInstT) (v_over_hang : Z) (v_num_of_speech : Z) : VadInstT :=
  mkVadInstT
    (vad self) (downsampling_filter_states self) (state_48_to_8 self) (noise_means self)
    (speech_means self) (noise_stds self) (speech_stds self) (frame_counter self)
    v_over_hang v_num_of_speech (index_vector self) (low_value_vector self)
    (mean_value self) (upper_state self) (lower_state self) (hp_filter_state self)
    (over_hang_max_1 self) (over_hang_max_2 self) (individual self) (total self)
    (init_flag self).

Definition set_minimum (self : VadInstT) (v_index_vector : list Z) (v_low_value_vector : list Z) (v_mean_value : list Z) : VadInstT :=
  mkVadInstT
    (vad self) (downsampling_filter_states self) (state_48_to_8 self) (noise_means self)
    (speech_means self) (noise_stds self) (speech_stds self) (frame_counter self)
    (over_hang self) (num_of_speech self) v_index_vector v_low_value_vector v_mean_value
    (upper_state self) (lower_state self) (hp_filter_state self) (over_hang_max_1 self)
    (over_hang_max_2 self) (individual self) (total self) (init_flag self).

Definition set_filters (self : VadInstT) (v_upper_state : list Z) (v_lower_state : list Z) (v_hp_filter_state : list Z) : VadInstT :=
  mkVadInstT
    (vad self) (downsampling_filter_states self) (state_48_to_8 self) (noise_means self)
    (speech_means self) (noise_stds self) (speech_stds self) (frame_counter self)
    (over_hang self) (num_of_speech self) (index_vector self) (low_value_vector self)
    (mean_value self) v_upper_state v_lower_state v_hp_filter_state (over_hang_max_1 self)
    (over_hang_max_2 self) (individual self) (total self) (init_flag self).

Definition set_thresholds (self : VadInstT) (v_over_hang_max_1 : list Z) (v_over_hang_max_2 : list Z) (v_individual : list Z) (v_total : list Z) : VadInstT :=
  mkVadInstT
    (vad self) (downsampling_filter_states self) (state_48_to_8 self) (noise_means self)
    (speech_means self) (noise_stds self) (speech_stds self) (frame_counter self)
    (over_hang self) (num_of_speech self) (index_vector self) (low_value_vector self)
    (mean_value self) (upper_state self) (lower_state self) (hp_filter_state self)
    v_over_hang_max_1 v_over_hang_max_2 v_individual v_total (init_flag self).

Definition set_init_flag (self : VadInstT) (v_init_flag : Z) : VadInstT :=
  mkVadInstT
    (vad self) (downsampling_filter_states self) (state_48_to_8 self) (noise_means self)
    (speech_means self) (noise_stds self) (speech_stds self) (frame_counter self)
    (over_hang self) (num_of_speech self) (index_vector self) (low_value_vector self)
    (mean_value self) (upper_state self) (lower_state self) (hp_filter_state self)
    (over_hang_max_1 self) (over_hang_max_2 self) (individual self) (total self) v_init_flag.
