(* ===== verification/VadSp.v ===== *)
(** The statistics helpers of common_audio/vad/vad_sp.c: the decimator in front of the
    detector and the tracker of the 16 smallest feature values per channel. *)
From S2P Require Import Prelude Resample48 VadInst.

(** * Definitions *)

Definition kAllPassCoefsQ13 : list Z := [5243; 1392].
Definition kSmoothingDown : Z := 6553.
Definition kSmoothingUp : Z := 32439.

(** One turn of the loop, on the two filter states and a pair of input samples. *)
Definition Downsampling_step (st : Z * Z) (x : Z * Z) : (Z * Z) * Z :=
  let '(tmp32_1, tmp32_2) := st in
  let '(in0, in1) := x in
  let tmp16_1 := s16 ((tmp32_1 ≫ 1) + ((kAllPassCoefsQ13.[0] * in0) ≫ 14)) in
  let tmp32_1 := in0 ⊟ ((kAllPassCoefsQ13.[0] * tmp16_1) ≫ 12) in
  let tmp16_2 := s16 ((tmp32_2 ≫ 1) + ((kAllPassCoefsQ13.[1] * in1) ≫ 14)) in
  let out := s16 (tmp16_1 + tmp16_2) in
  let tmp32_2 := in1 ⊟ ((kAllPassCoefsQ13.[1] * tmp16_2) ≫ 12) in
  ((tmp32_1, tmp32_2), out).

(** Returns the output and the two words of filter state. *)
Definition WebRtcVad_Downsampling (signal_in : list Z) (filter_state : Z * Z)
    : list Z * (Z * Z) :=
  let '(st, out) := run Downsampling_step filter_state (pairs signal_in) in (out, st).

(** "Too old value. Remove from memory and shift larger values downwards." *)
Definition remove_old (i : Z) (s : list Z * list Z) : list Z * list Z :=
  let '(smallest_values, age) :=
    for_up i (Z.to_nat (15 - i)) (λ j '(smallest_values, age),
      (wr smallest_values j (smallest_values.[j + 1]), wr age j (age.[j + 1]))) s in
  (wr smallest_values 15 10000, wr age 15 101).

Definition age_step (i : Z) (s : list Z * list Z) : list Z * list Z :=
  let '(smallest_values, age) := s in
  if negb (age.[i] =? 100) then (smallest_values, wr age i (s16 (age.[i] + 1)))
  else remove_old i s.

Definition age_values (s : list Z * list Z) : list Z * list Z := for_up 0 16 age_step s.

(** The decision tree for the insertion point; -1 when no value is larger. *)
Definition find_position (feature_value : Z) (smallest_values : list Z) : Z :=
  if feature_value <? smallest_values.[7] then
    if feature_value <? smallest_values.[3] then
      if feature_value <? smallest_values.[1] then
        if feature_value <? smallest_values.[0] then 0 else 1
      else if feature_value <? smallest_values.[2] then 2 else 3
    else if feature_value <? smallest_values.[5] then
      if feature_value <? smallest_values.[4] then 4 else 5
    else if feature_value <? smallest_values.[6] then 6 else 7
  else if feature_value <? smallest_values.[15] then
    if feature_value <? smallest_values.[11] then
      if feature_value <? smallest_values.[9] then
        if feature_value <? smallest_values.[8] then 8 else 9
      else if feature_value <? smallest_values.[10] then 10 else 11
    else if feature_value <? smallest_values.[13] then
      if feature_value <? smallest_values.[12] then 12 else 13
    else if feature_value <? smallest_values.[14] then 14 else 15
  else -1.

(** [for (i = 15; i > position; i--)] and the insertion. *)
Definition insert_value (position feature_value : Z) (s : list Z * list Z) : list Z * list Z :=
  if position >? -1 then
    let '(smallest_values, age) :=
      for_up 0 (Z.to_nat (15 - position)) (λ t '(smallest_values, age),
        let i := 15 - t in
        (wr smallest_values i (smallest_values.[i - 1]), wr age i (age.[i - 1]))) s in
    (wr smallest_values position feature_value, wr age position 1)
  else s.

(** Returns the updated instance and the smoothed median of the channel. *)
Definition WebRtcVad_FindMinimum (self : VadInstT) (feature_value channel : Z)
    : VadInstT * Z :=
  let offset := channel ≪ 4 in
  let current_median := 1600 in
  let alpha := 0 in
  let age := slice (index_vector self) offset 16 in
  let smallest_values := slice (low_value_vector self) offset 16 in
  let '(smallest_values, age) := age_values (smallest_values, age) in
  let position := find_position feature_value smallest_values in
  let '(smallest_values, age) := insert_value position feature_value (smallest_values, age) in
  let current_median :=
    if frame_counter self >? 2 then smallest_values.[2]
    else if frame_counter self >? 0 then smallest_values.[0] else current_median in
  let alpha :=
    if frame_counter self >? 0 then
      if current_median <? (mean_value self).[channel] then kSmoothingDown else kSmoothingUp
    else alpha in
  let tmp32 := (alpha + 1) ⊠ (mean_value self).[channel] in
  let tmp32 := tmp32 ⊞ (32767 - alpha) ⊠ current_median in
  let tmp32 := tmp32 ⊞ 16384 in
  let mean := s16 (tmp32 ≫ 15) in
  (set_minimum self (store (index_vector self) offset age)
     (store (low_value_vector self) offset smallest_values)
     (wr (mean_value self) channel mean), mean).

(** * Lemmas *)

(** ** The decimator *)

(** The same filter over the integers. *)
Definition Downsampling_exact (st : Z * Z) (x : Z * Z) : (Z * Z) * Z :=
  let y1 := st.1 `div` 2 + (5243 * x.1) `div` 16384 in
  let y2 := st.2 `div` 2 + (1392 * x.2) `div` 16384 in
  ((x.1 - (5243 * y1) `div` 4096, x.2 - (1392 * y2) `div` 4096), y1 + y2).

Definition ds_bound : Z := 18000.
Definition ds_state (st : Z * Z) : Prop := Z.abs st.1 ≤ 29540 ∧ Z.abs st.2 ≤ 21080.

Lemma Downsampling_step_exact st x :
  ds_state st → (Z.abs x.1 ≤ ds_bound ∧ Z.abs x.2 ≤ ds_bound) →
  Downsampling_step st x = Downsampling_exact st x ∧ ds_state (Downsampling_step st x).1 ∧
  int16 (Downsampling_step st x).2.
Proof.
  destruct st as [s1 s2], x as [x1 x2]. unfold ds_state, ds_bound. simpl fst. simpl snd.
  intros [H1 H2] [Hx1 Hx2]. unfold Downsampling_step, Downsampling_exact.
  change (kAllPassCoefsQ13.[0]) with 5243. change (kAllPassCoefsQ13.[1]) with 1392.
  rewrite !shiftr_div by lia. simpl fst. simpl snd.
  change (2 ^ 1) with 2. change (2 ^ 14) with 16384. change (2 ^ 12) with 4096.
  set (y1 := s1 `div` 2 + (5243 * x1) `div` 16384).
  set (y2 := s2 `div` 2 + (1392 * x2) `div` 16384).
  assert (Z.abs y1 ≤ 20540) by (subst y1; zdiv).
  assert (Z.abs y2 ≤ 12080) by (subst y2; zdiv).
  rewrite (s16_id y1), (s16_id y2) by cint. rewrite (s16_id (y1 + y2)) by cint.
  assert (Z.abs (x1 - (5243 * y1) `div` 4096) ≤ 29540) by (subst y1; zdiv).
  assert (Z.abs (x2 - (1392 * y2) `div` 4096) ≤ 21080) by (subst y2; zdiv).
  rewrite !sub32_id by cint. split; [done|]. simpl fst. simpl snd. cint.
Qed.

(** ** The tracker of small values *)

Definition sorted16 (l : list Z) : Prop :=
  length l = 16%nat ∧ (∀ i j, 0 ≤ i ≤ j → j < 16 → l.[i] ≤ l.[j]) ∧ l.[15] ≤ 10000.

(** The executable check. *)
Definition sorted16b (l : list Z) : bool :=
  (length l =? 16)%nat && check_range (λ i, l.[i] <=? l.[i + 1]) 0 15 && (l.[15] <=? 10000).

Lemma sorted16b_sound l : sorted16b l = true → sorted16 l.
Proof.
  unfold sorted16b. intros [[H1%Nat.eqb_eq H2]%andb_prop H3%Z.leb_le]%andb_prop.
  split; [done|]. split; [|done]. intros i j Hij Hj.
  assert (∀ n, i + Z.of_nat n < 16 → l.[i] ≤ l.[i + Z.of_nat n]) as H.
  { induction n as [|n IH]; intros Hn; [by rewrite Z.add_0_r|].
    etrans; [apply IH; lia|]. replace (i + Z.of_nat (S n)) with (i + Z.of_nat n + 1) by lia.
    apply Z.leb_le. apply (check_range_spec (λ i, l.[i] <=? l.[i + 1]) 0 15); [done|lia]. }
  specialize (H (Z.to_nat (j - i))). replace (i + Z.of_nat (Z.to_nat (j - i))) with j in H by lia.
  apply H. lia.
Qed.

Lemma remove_old_rd i sv age :
  0 ≤ i < 16 → length sv = 16%nat → length age = 16%nat →
  let '(sv', age') := remove_old i (sv, age) in
  length sv' = 16%nat ∧ length age' = 16%nat ∧
  ∀ k, 0 ≤ k < 16 → sv'.[k] = if k <? i then sv.[k] else if k <? 15 then sv.[k + 1] else 10000.
Proof.
  intros Hi Lv La. unfold remove_old.
  pose proof (for_up_inv (λ j '(v, a),
    length v = 16%nat ∧ length a = 16%nat ∧
    ∀ k, 0 ≤ k < 16 → v.[k] = if (i <=? k) && (k <? j) then sv.[k + 1] else sv.[k])
    i (Z.to_nat (15 - i)) (λ j '(v, a), (wr v j (v.[j + 1]), wr a j (a.[j + 1]))) (sv, age)) as H.
  destruct (for_up _ _ _ _) as [v a]. destruct H as (L1 & L2 & Hr).
  - split; [done|]. split; [done|]. intros k Hk.
    destruct (Z.leb_spec i k), (Z.ltb_spec k i); try done; lia.
  - intros j [v' a'] Hj (L1 & L2 & Hr). rewrite !wr_length. split; [done|]. split; [done|].
    intros k Hk. destruct (Z.eq_dec j k) as [->|].
    + rewrite rd_wr_eq by lia. rewrite Hr by lia.
      destruct (Z.leb_spec i (k + 1)), (Z.ltb_spec (k + 1) k), (Z.leb_spec i k),
        (Z.ltb_spec k (k + 1)); try done; lia.
    + rewrite rd_wr_ne, Hr by lia.
      destruct (Z.leb_spec i k), (Z.ltb_spec k j), (Z.ltb_spec k (j + 1)); try done; lia.
  - rewrite !wr_length. split; [done|]. split; [done|]. intros k Hk.
    destruct (Z.eq_dec k 15) as [->|].
    + rewrite rd_wr_eq by lia. destruct (Z.ltb_spec 15 i); [lia|done].
    + rewrite rd_wr_ne, Hr by lia.
      destruct (Z.leb_spec i k), (Z.ltb_spec k (i + Z.of_nat (Z.to_nat (15 - i)))),
        (Z.ltb_spec k i), (Z.ltb_spec k 15); try done; lia.
Qed.

Lemma age_step_sorted i s :
  0 ≤ i < 16 → sorted16 s.1 → length s.2 = 16%nat →
  sorted16 (age_step i s).1 ∧ length (age_step i s).2 = 16%nat.
Proof.
  destruct s as [sv age]. simpl. intros Hi (Lv & Hs & Hm) La.
  destruct (negb _); simpl; [rewrite wr_length; done|].
  pose proof (remove_old_rd i sv age Hi Lv La) as H.
  destruct (remove_old i (sv, age)) as [sv' age']. destruct H as (L1 & L2 & Hr). simpl.
  split; [|done]. split; [done|]. split.
  - intros a b Hab Hb. rewrite !Hr by lia.
    pose proof (Hs 14 15 ltac:(lia) ltac:(lia)).
    destruct_ltb; try (apply Hs; lia); try lia;
      etrans; [apply (Hs _ 15); lia|done|apply (Hs _ 15); lia|done].
  - rewrite Hr by lia. destruct_ltb; lia.
Qed.

Lemma age_values_sorted s :
  sorted16 s.1 → length s.2 = 16%nat →
  sorted16 (age_values s).1 ∧ length (age_values s).2 = 16%nat.
Proof.
  intros Hs La.
  apply (for_up_inv (λ _ s, sorted16 s.1 ∧ length s.2 = 16%nat) 0 16 age_step s); [done|].
  intros i s' Hi [H1 H2]. apply age_step_sorted; [lia|done..].
Qed.

(** The tree finds the first value larger than the new one. *)
Lemma find_position_spec fv sv :
  sorted16 sv →
  let p := find_position fv sv in
  (p = -1 ∧ (∀ j, 0 ≤ j < 16 → sv.[j] ≤ fv)) ∨
  (0 ≤ p < 16 ∧ (∀ j, 0 ≤ j < p → sv.[j] ≤ fv) ∧ (∀ j, p ≤ j < 16 → fv < sv.[j])).
Proof.
  intros (Lv & Hs & Hm). cbv zeta. unfold find_position.
  assert (∀ p, 0 ≤ p < 16 → fv < sv.[p] → (p = 0 ∨ sv.[p - 1] ≤ fv) →
    0 ≤ p < 16 ∧ (∀ j, 0 ≤ j < p → sv.[j] ≤ fv) ∧ (∀ j, p ≤ j < 16 → fv < sv.[j])) as Hp.
  { intros p Hp H1 H2. split; [done|]. split; intros j Hj.
    - destruct H2 as [->|H2]; [lia|]. pose proof (Hs j (p - 1) ltac:(lia) ltac:(lia)). lia.
    - pose proof (Hs p j ltac:(lia) ltac:(lia)). lia. }
  destruct_ltb; try (right; apply Hp; [lia|done|first [by left|right; assumption]]).
  left. split; [done|]. intros j Hj. pose proof (Hs j 15 ltac:(lia) ltac:(lia)). lia.
Qed.

Lemma insert_value_rd p fv sv age :
  0 ≤ p < 16 → length sv = 16%nat → length age = 16%nat →
  let '(sv', age') := insert_value p fv (sv, age) in
  length sv' = 16%nat ∧ length age' = 16%nat ∧
  ∀ k, 0 ≤ k < 16 → sv'.[k] = if k <? p then sv.[k] else if k =? p then fv else sv.[k - 1].
Proof.
  intros Hp Lv La. unfold insert_value. destruct (Z.gtb_spec p (-1)); [|lia].
  pose proof (for_up_inv (λ t '(v, a),
    length v = 16%nat ∧ length a = 16%nat ∧
    ∀ k, 0 ≤ k < 16 → v.[k] = if 15 - t <? k then sv.[k - 1] else sv.[k])
    0 (Z.to_nat (15 - p)) (λ t '(v, a), let i := 15 - t in
      (wr v i (v.[i - 1]), wr a i (a.[i - 1]))) (sv, age)) as H'.
  destruct (for_up _ _ _ _) as [v a]. destruct H' as (L1 & L2 & Hr).
  - split; [done|]. split; [done|]. intros k Hk. destruct_ltb; [lia|done].
  - intros t [v' a'] Ht (L1 & L2 & Hr). cbv beta iota zeta. rewrite !wr_length. split; [done|]. split; [done|].
    intros k Hk. destruct (Z.eq_dec (15 - t) k) as [<-|].
    + rewrite rd_wr_eq by lia. rewrite Hr by lia. destruct_ltb; try done; lia.
    + rewrite rd_wr_ne, Hr by lia. destruct_ltb; try done; lia.
  - rewrite !wr_length. split; [done|]. split; [done|]. intros k Hk.
    destruct (Z.eqb_spec k p) as [->|].
    + rewrite rd_wr_eq by lia. destruct_ltb; [lia|done].
    + rewrite rd_wr_ne, Hr by lia. destruct_ltb; try done; lia.
Qed.

(** Insertion into a sorted list, after equal values. *)
Fixpoint insert_sorted (x : Z) (l : list Z) : list Z :=
  match l with
  | [] => [x]
  | y :: l' => if x <? y then x :: l else y :: insert_sorted x l'
  end.

Lemma insert_sorted_split x l p :
  (p ≤ length l)%nat → (∀ j, 0 ≤ j < Z.of_nat p → l.[j] ≤ x) →
  (∀ j, Z.of_nat p ≤ j < zlen l → x < l.[j]) →
  insert_sorted x l = take p l ++ x :: drop p l.
Proof.
  revert l. induction p as [|p IH]; intros l Hp H1 H2; simpl.
  - destruct l as [|y l]; [done|]. simpl. pose proof (H2 0 ltac:(simpl; lia)) as Hy.
    change ((y :: l).[0]) with y in Hy. destruct_ltb; [done|lia].
  - destruct l as [|y l]; simpl in Hp; [lia|]. simpl.
    pose proof (H1 0 ltac:(lia)) as Hy. change ((y :: l).[0]) with y in Hy.
    destruct_ltb; [lia|]. f_equal.
    assert (∀ j, 0 ≤ j → (y :: l).[j + 1] = l.[j]) as Hc.
    { intros j Hj. rewrite !rd_nth by lia. by replace (Z.to_nat (j + 1)) with (S (Z.to_nat j)) by lia. }
    apply IH; [lia|intros j Hj|intros j Hj]; rewrite <- Hc by lia; [apply H1|apply H2]; simpl; lia.
Qed.

(** Tree and insertion loop together: the 16 smallest of the old values and the new one. *)
Lemma insert_value_sorted fv s :
  sorted16 s.1 → length s.2 = 16%nat →
  let s' := insert_value (find_position fv s.1) fv s in
  s'.1 = take 16 (insert_sorted fv s.1) ∧ sorted16 s'.1 ∧ length s'.2 = 16%nat.
Proof.
  destruct s as [sv age]. simpl fst. simpl snd. intros Hs La.
  pose proof (find_position_spec fv sv Hs) as Hp. destruct Hs as (Lv & Hs & Hm). cbv zeta in *.
  destruct Hp as [[-> Hle]|(Hp & Hle & Hgt)].
  { simpl. split; [|by repeat split].
    rewrite (insert_sorted_split fv sv 16);
      [|lia|intros j Hj; apply Hle; lia|intros j Hj; lia].
    rewrite (take_ge sv 16) by lia. by rewrite take_app_length' by lia. }
  set (p := find_position fv sv) in *.
  pose proof (insert_value_rd p fv sv age Hp Lv La) as Hr.
  destruct (insert_value p fv (sv, age)) as [sv' age']. destruct Hr as (L1 & L2 & Hr). simpl.
  assert (sv' = take 16 (insert_sorted fv sv)) as E.
  { rewrite (insert_sorted_split fv sv (Z.to_nat p));
      [|lia|intros j Hj; apply Hle; lia|intros j Hj; apply Hgt; lia].
    apply list_rd_eq.
    - rewrite length_take, length_app, length_take. rewrite length_cons, length_drop. lia.
    - rewrite L1. intros i Hi. rewrite Hr by lia.
      replace 16%nat with (Z.to_nat 16) by lia. change (take (Z.to_nat 16) ?l) with (slice l 0 16).
      rewrite rd_slice by lia. rewrite Z.add_0_l. destruct (Z.ltb_spec i p).
      + rewrite rd_app_l by (rewrite length_take; lia).
        change (take (Z.to_nat p) sv) with (slice sv 0 p). by rewrite rd_slice by lia.
      + rewrite rd_app_r by (rewrite length_take; lia). rewrite length_take.
        replace (i - Z.of_nat (Z.to_nat p `min` length sv)) with (i - p) by lia.
        destruct (Z.eqb_spec i p) as [->|]; [by rewrite Z.sub_diag|].
        replace (i - p) with (1 + (i - 1 - p)) by lia.
        change (fv :: ?l) with ([fv] ++ l). rewrite rd_app_r by (simpl; lia). simpl length.
        rewrite !rd_nth by lia. rewrite !nth_lookup, lookup_drop. do 2 f_equal. lia. }
  split; [done|]. split; [|done]. split; [done|]. split.
  - intros i j Hij Hj. rewrite !Hr by lia.
    destruct (Z.ltb_spec i p), (Z.ltb_spec j p), (Z.eqb_spec i p), (Z.eqb_spec j p);
      subst; try lia; try (apply Hs; lia); try (apply Hle; lia); apply Z.lt_le_incl, Hgt; lia.
  - rewrite Hr by lia. pose proof (Hs 14 15 ltac:(lia) ltac:(lia)).
    change (15 - 1) with 14. pose proof (Hgt 15 ltac:(lia)).
    destruct (Z.ltb_spec 15 p), (Z.eqb_spec 15 p); lia.
Qed.

(** ** The instance *)

Definition channel_values (self : VadInstT) (c : Z) : list Z := slice (low_value_vector self) (16 * c) 16.

(** Invariant of the tracker: per channel 16 sorted values, at most 10000. *)
Definition minimum_inv (self : VadInstT) : Prop :=
  length (index_vector self) = 96%nat ∧ length (low_value_vector self) = 96%nat ∧
  length (mean_value self) = 6%nat ∧ Forall int16 (mean_value self) ∧
  ∀ c, 0 ≤ c < 6 → sorted16 (channel_values self c) ∧ Forall int16 (channel_values self c).

Definition minimum_invb (self : VadInstT) : bool :=
  (length (index_vector self) =? 96)%nat && (length (low_value_vector self) =? 96)%nat &&
  (length (mean_value self) =? 6)%nat && bool_decide (Forall int16 (mean_value self)) &&
  check_range (λ c, sorted16b (channel_values self c) &&
    bool_decide (Forall int16 (channel_values self c))) 0 6.

Lemma minimum_invb_sound self : minimum_invb self = true → minimum_inv self.
Proof.
  unfold minimum_invb. rewrite !andb_true_iff, !Nat.eqb_eq.
  intros ((((H1 & H2) & H3) & H4%bool_decide_eq_true_1) & H5).
  repeat (split; [done|]). intros c Hc.
  pose proof (check_range_spec _ 0 6 c H5 ltac:(lia)) as [H6 H7%bool_decide_eq_true_1]%andb_prop.
  split; [by apply sorted16b_sound|done].
Qed.

(** The values after the ageing loop. *)
Definition aged_values (self : VadInstT) (c : Z) : list Z :=
  (age_values (channel_values self c, slice (index_vector self) (16 * c) 16)).1.

Lemma age_values_int16 s : Forall int16 s.1 → Forall int16 (age_values s).1.
Proof.
  intros Hs. apply (for_up_inv (λ _ s, Forall int16 s.1) 0 16 age_step s); [done|].
  intros i [sv age] _ Hv. unfold age_step. destruct (negb _); [done|]. unfold remove_old.
  pose proof (for_up_inv (λ _ s, Forall int16 s.1) i (Z.to_nat (15 - i))
    (λ j '(v, a), (wr v j (v.[j + 1]), wr a j (a.[j + 1]))) (sv, age) Hv) as H.
  destruct (for_up i _ _ _) as [v a]. simpl. apply wr_Forall; [|cint]. apply H.
  intros j [v' a'] _ Hv'. simpl in *. apply wr_Forall; [done|]. apply rd_Forall; [done|cint].
Qed.

Lemma insert_sorted_Forall (P : Z → Prop) x l : P x → Forall P l → Forall P (insert_sorted x l).
Proof.
  intros Hx. induction 1 as [|y l Hy Hl IH]; simpl; [by constructor|].
  destruct (x <? y); repeat constructor; done.
Qed.

(** Smoothing is a rounded convex combination. *)
Lemma smoothing_between alpha mean med :
  0 ≤ alpha ≤ 32767 → int16 mean → int16 med →
  let m := ((alpha + 1) ⊠ mean ⊞ (32767 - alpha) ⊠ med ⊞ 16384) ≫ 15 in
  s16 m = m ∧ Z.min mean med ≤ m ≤ Z.max mean med.
Proof.
  intros Ha Hm Hd. cbv zeta.
  assert (Z.abs ((alpha + 1) * mean) ≤ (alpha + 1) * 32768) by (unfold_ints; nia).
  assert (Z.abs ((32767 - alpha) * med) ≤ (32767 - alpha) * 32768) by (unfold_ints; nia).
  rewrite (mul32_id (alpha + 1)), (mul32_id (32767 - alpha)) by cint.
  rewrite (add32_id ((alpha + 1) * mean)) by cint. rewrite add32_id by cint.
  assert (Z.min mean med ≤ ((alpha + 1) * mean + (32767 - alpha) * med + 16384) ≫ 15
    ≤ Z.max mean med) as Hb.
  { apply shiftr_bounds; [lia|]. change (2 ^ 15) with 32768.
    assert ((alpha + 1) * Z.min mean med ≤ (alpha + 1) * mean ≤ (alpha + 1) * Z.max mean med) by nia.
    assert ((32767 - alpha) * Z.min mean med ≤ (32767 - alpha) * med
      ≤ (32767 - alpha) * Z.max mean med) by nia. nia. }
  split; [apply s16_id; cint|done].
Qed.

Lemma channel_offset c : c ≪ 4 = 16 * c.
Proof. rewrite shiftl_mul by lia. change (2 ^ 4) with 16. lia. Qed.

#[local] Opaque age_values insert_value find_position.

Section FindMinimum.
Context (self : VadInstT) (fv c : Z).
Hypothesis Hinv : minimum_inv self.
Hypothesis Hf : int16 fv.
Hypothesis Hc : 0 ≤ c < 6.
#[local] Abbreviation self' := ((WebRtcVad_FindMinimum self fv c).1).

Lemma FindMinimum_unfold :
  let s := age_values (channel_values self c, slice (index_vector self) (16 * c) 16) in
  let s' := insert_value (find_position fv s.1) fv s in
  sorted16 s.1 ∧ s'.1 = take 16 (insert_sorted fv s.1) ∧ sorted16 s'.1 ∧ length s'.2 = 16%nat ∧
  Forall int16 s'.1 ∧
  index_vector self' = store (index_vector self) (16 * c) s'.2 ∧
  low_value_vector self' = store (low_value_vector self) (16 * c) s'.1.
Proof.
  destruct Hinv as (Li & Ll & Lm & Hm & Hch). destruct (Hch c Hc) as [Hs Hi]. cbv zeta.
  set (s := age_values _).
  assert (sorted16 s.1 ∧ length s.2 = 16%nat) as [H1 H2].
  { apply age_values_sorted; [done|]. simpl. rewrite slice_length by lia. done. }
  destruct (insert_value_sorted fv s H1 H2) as (E & H3 & H4).
  split; [done|]. split; [done|]. split; [done|]. split; [done|]. split.
  { rewrite E. apply Forall_take, insert_sorted_Forall; [done|]. by apply age_values_int16. }
  unfold WebRtcVad_FindMinimum. rewrite channel_offset. fold (channel_values self c) s.
  destruct s as [sv age]. destruct (insert_value _ _ _) as [sv' age']. done.
Qed.

Lemma FindMinimum_values :
  channel_values self' c = take 16 (insert_sorted fv (aged_values self c)) ∧
  sorted16 (channel_values self' c) ∧ Forall int16 (channel_values self' c) ∧
  ∀ c', 0 ≤ c' < 6 → c' ≠ c → channel_values self' c' = channel_values self c'.
Proof.
  destruct FindMinimum_unfold as (_ & E & H1 & _ & H2 & _ & E2).
  destruct Hinv as (Li & Ll & _).
  set (sv := (insert_value _ _ _).1) in *.
  change (age_values _).1 with (aged_values self c) in E.
  assert (channel_values self' c = sv) as ->.
  { unfold channel_values. rewrite E2. destruct H1 as [L1 _]. apply slice_store_same; lia. }
  split; [done|]. split; [done|]. split; [done|]. destruct H1 as [L1 _].
  intros c' Hc' Hne. unfold channel_values. rewrite E2. destruct (Z.lt_ge_cases c' c).
  - apply slice_store_before; lia.
  - apply slice_store_after; lia.
Qed.

(** The median the code selects. *)
Definition current_median : Z :=
  if frame_counter self >? 2 then (channel_values self' c).[2]
  else if frame_counter self >? 0 then (channel_values self' c).[0] else 1600.

Lemma FindMinimum_mean :
  let m := (WebRtcVad_FindMinimum self fv c).2 in
  mean_value self' = wr (mean_value self) c m ∧ int16 m ∧
  Z.min ((mean_value self).[c]) current_median ≤ m ≤ Z.max ((mean_value self).[c]) current_median.
Proof.
  destruct FindMinimum_unfold as (_ & _ & H1 & _ & H2 & _ & E2). cbv zeta.
  assert (Forall int16 (channel_values self' c)) as Hcv by apply FindMinimum_values.
  destruct Hinv as (Li & Ll & Lm & Hm & Hch).
  assert (int16 ((mean_value self).[c])) as Hmc by (apply rd_Forall; [done|cint]).
  assert (int16 current_median) as Hmed.
  { unfold current_median. destruct (frame_counter self >? 2), (frame_counter self >? 0); try cint; apply rd_Forall; try done; cint. }
  revert Hmed. unfold current_median, channel_values. rewrite E2.
  unfold WebRtcVad_FindMinimum. rewrite channel_offset. fold (channel_values self c).
  destruct H1 as [L1 _]. revert L1. destruct (age_values _) as [sv age]. simpl fst. simpl snd.
  destruct (insert_value _ _ _) as [sv' age']. simpl fst. intros L1.
  rewrite slice_store_same by lia. set (med := if frame_counter self >? 2 then _ else _).
  intros Hmed. set (alpha := if _ >? 0 then _ else 0). cbn [mean_value set_minimum].
  assert (0 ≤ alpha ≤ 32767) as Ha.
  { subst alpha. unfold kSmoothingDown, kSmoothingUp.
    destruct (frame_counter self >? 0); [destruct (med <? _)|]; lia. }
  destruct (smoothing_between alpha _ med Ha Hmc Hmed) as [-> Hb].
  cbn [snd]. split; [done|]. split; [cint|done].
Qed.

Lemma FindMinimum_inv : minimum_inv self' ∧ int16 (WebRtcVad_FindMinimum self fv c).2.
Proof.
  destruct FindMinimum_mean as (Em & Hm & _).
  destruct FindMinimum_values as (_ & Hs & Hi & Hother).
  destruct FindMinimum_unfold as (_ & _ & H1 & H2 & _ & E1 & E2).
  destruct Hinv as (Li & Ll & Lm & Hmv & Hch). destruct H1 as [L1 _].
  split; [|done]. unfold minimum_inv. rewrite E1, E2, Em, wr_length, !store_length by lia.
  split; [done|]. split; [done|]. split; [done|]. split; [by apply wr_Forall|].
  intros c' Hc'. destruct (Z.eq_dec c' c) as [->|Hne]; [done|]. rewrite Hother by done. by apply Hch.
Qed.
End FindMinimum.

(** * Properties *)

(** The tracker keeps, per channel, the 16 smallest values in ascending order: one call
    first ages the channel's values, then its 16-way comparison tree and shift loop insert
    the new feature value at its sorted place and drop the largest; no other channel is
    touched; the returned mean is stored for the channel and lies between the previous mean
    and the median the call selected, so the smoothing neither overflows nor overshoots. *)
Lemma FindMinimum_tracks self fv c :
  minimum_inv self → int16 fv → 0 ≤ c < 6 →
  let '(self', m) := WebRtcVad_FindMinimum self fv c in
  minimum_inv self' ∧
  channel_values self' c = take 16 (insert_sorted fv (aged_values self c)) ∧
  sorted16 (aged_values self c) ∧
  (∀ c', 0 ≤ c' < 6 → c' ≠ c →
     channel_values self' c' = channel_values self c' ∧
     (mean_value self').[c'] = (mean_value self).[c']) ∧
  (mean_value self').[c] = m ∧
  Z.min ((mean_value self).[c]) (current_median self fv c) ≤ m
    ≤ Z.max ((mean_value self).[c]) (current_median self fv c).
Proof.
  intros Hinv Hf Hc. destruct (FindMinimum_inv self fv c Hinv Hf Hc) as [H1 _].
  destruct (FindMinimum_values self fv c Hinv Hf Hc) as (H2 & _ & _ & H3).
  destruct (FindMinimum_mean self fv c Hinv Hf Hc) as (H4 & _ & H5).
  pose proof (proj1 (FindMinimum_unfold self fv c Hinv Hf Hc)) as H6.
  destruct Hinv as (_ & _ & Lm & _).
  destruct (WebRtcVad_FindMinimum self fv c) as [self' m]. cbn [fst snd] in *.
  split; [done|]. split; [done|]. split; [done|]. rewrite H4.
  split; [intros c' Hc' Hne; split; [by apply H3|by rewrite rd_wr_ne]|].
  split; [apply rd_wr_eq; lia|done].
Qed.


#[local] Transparent age_values insert_value find_position.

(** An instance with the given frame counter and, for channel 0, ages and values; all other
    values are at their initial 10000. *)
Definition tracker (counter : Z) (ages values : list Z) : VadInstT :=
  mkVadInstT 1 [] WebRtcSpl_ResetResample48khzTo8khz [] [] [] [] counter 0 0
    (store (replicate 96 0) 0 ages) (store (replicate 96 10000) 0 values) (replicate 6 1600)
    [] [] [] [] [] [] [] 0.

Lemma FindMinimum_tracks_witness :
  let self := tracker 5 [7; 3; 100] [100; 250; 300] in
  let '(self', m) := WebRtcVad_FindMinimum self 200 0 in
  minimum_inv self' ∧
  channel_values self' 0 = take 16 (insert_sorted 200 (aged_values self 0)) ∧
  sorted16 (aged_values self 0) ∧
  (∀ c', 0 ≤ c' < 6 → c' ≠ 0 →
     channel_values self' c' = channel_values self c' ∧
     (mean_value self').[c'] = (mean_value self).[c']) ∧
  (mean_value self').[0] = m ∧
  Z.min ((mean_value self).[0]) (current_median self 200 0) ≤ m
    ≤ Z.max ((mean_value self).[0]) (current_median self 200 0).
Proof.
  apply (FindMinimum_tracks (tracker 5 [7; 3; 100] [100; 250; 300]) 200 0);
    [apply minimum_invb_sound; reflexivity|cint|lia].
Defined.

(** On input of magnitude up to 18000 the decimator, from the zero state and over any
    number of samples, never wraps a 16- or 32-bit intermediate: it computes the two all-pass
    recursions over the integers, its states stay in fixed bounds and every output is in the
    16-bit range. *)
Lemma Downsampling_no_overflow xs :
  Forall (λ x, Z.abs x ≤ ds_bound) xs →
  WebRtcVad_Downsampling xs (0, 0) =
    (let '(st, out) := run Downsampling_exact (0, 0) (pairs xs) in (out, st)) ∧
  Forall int16 (WebRtcVad_Downsampling xs (0, 0)).1 ∧
  length (WebRtcVad_Downsampling xs (0, 0)).1 = Nat.div2 (length xs).
Proof.
  intros Hx%pairs_Forall. assert (ds_state (0, 0)) as H0 by (split; simpl; lia).
  unfold WebRtcVad_Downsampling.
  rewrite <- (run_ext_inv Downsampling_step Downsampling_exact ds_state
    (λ p, Z.abs p.1 ≤ ds_bound ∧ Z.abs p.2 ≤ ds_bound) (0, 0) (pairs xs)); [|..|done|done].
  2:{ intros s x Hs Hp. destruct (Downsampling_step_exact s x Hs Hp) as (? & ? & ?). done. }
  pose proof (run_inv Downsampling_step ds_state _ int16 (0, 0) (pairs xs)
    (λ s x Hs Hp, proj2 (Downsampling_step_exact s x Hs Hp)) H0 Hx) as [_ Ho].
  pose proof (run_length Downsampling_step (0, 0) (pairs xs)) as HL. rewrite pairs_length in HL.
  by destruct (run Downsampling_step (0, 0) (pairs xs)) as [st out].
Qed.

Lemma Downsampling_no_overflow_witness :
  WebRtcVad_Downsampling [18000; -18000; 5; 7] (0, 0) =
    (let '(st, out) := run Downsampling_exact (0, 0) (pairs [18000; -18000; 5; 7]) in (out, st)) ∧
  Forall int16 (WebRtcVad_Downsampling [18000; -18000; 5; 7] (0, 0)).1 ∧
  length (WebRtcVad_Downsampling [18000; -18000; 5; 7] (0, 0)).1 = 2%nat.
Proof.
  apply (Downsampling_no_overflow [18000; -18000; 5; 7]). repeat constructor; unfold ds_bound; lia.
Defined.

(** A value does not get older in the frame in which a smaller one expires: the ageing
    loop moves it one place down and continues with the next index.  So a value can outlive
    the 100 frames of the comment: here the value 250, inserted 50 frames ago (age 50), still
    has age 50 after the call. *)
Lemma FindMinimum_skips_ageing :
  let self := tracker 60 [100; 50] [100; 250] in
  let '(self', _) := WebRtcVad_FindMinimum self 9000 0 in
  take 2 (channel_values self' 0) = [250; 9000] ∧
  take 2 (slice (index_vector self') 0 16) = [50; 1].
Proof. vm_compute. done. Qed.
