(* ===== verification/VadGmm.v ===== *)
(** The Gaussian probability of common_audio/vad/vad_gmm.c. *)
From S2P Require Import Prelude SplMath.

(** * Definitions *)

Definition kCompVar : Z := 22005.
Definition kLog2Exp : Z := 5909.

(** Returns the probability in Q20 and [delta] in Q11.  The final shift count is proved to
    be in the range of a C shift for the inputs the detector's model produces. *)
Definition WebRtcVad_GaussianProbability (input mean std : Z) : Z * Z :=
  let tmp32 := 131072 + (std ≫ 1) in
  let inv_std := s16 (WebRtcSpl_DivW32W16 tmp32 std) in
  let tmp16 := inv_std ≫ 2 in
  let inv_std2 := s16 ((tmp16 * tmp16) ≫ 2) in
  let tmp16 := s16 (input ≪ 3) in
  let tmp16 := s16 (tmp16 - mean) in
  let delta := s16 ((inv_std2 * tmp16) ≫ 10) in
  let tmp32 := (delta * tmp16) ≫ 9 in
  let exp_value :=
    if tmp32 <? kCompVar then
      let tmp16 := s16 ((kLog2Exp ⊠ tmp32) ≫ 12) in
      let tmp16 := s16 (- tmp16) in
      let exp_value := Z.lor 0x0400 (Z.land tmp16 0x03FF) in
      let tmp16 := s16 (Z.lxor tmp16 0xFFFF) in
      let tmp16 := tmp16 ≫ 10 in
      let tmp16 := s16 (tmp16 + 1) in
      s16 (exp_value ≫ tmp16)
    else 0 in
  (inv_std * exp_value, delta).

(** * The function it computes *)

(** [2^(-x/1024)] in Q10 by linear interpolation between powers of two. *)
Definition exp2_neg (x : Z) : Z :=
  let n := (x + 1023) `div` 1024 in
  (1024 + (1024 * n - x)) `div` 2 ^ n.

(** * Lemmas *)

(** The mantissa and shift the code extracts from the negated exponent. *)
Lemma exp2_neg_bits x :
  0 ≤ x ≤ 31744 →
  let t := s16 (- x) in
  s16 ((Z.lor 0x0400 (Z.land t 0x03FF)) ≫ s16 ((s16 (Z.lxor t 0xFFFF) ≫ 10) + 1)) = exp2_neg x ∧
  0 ≤ s16 ((s16 (Z.lxor t 0xFFFF) ≫ 10) + 1) ≤ 31 ∧ 0 ≤ exp2_neg x ≤ 1024 ∧
  exp2_neg (x + 1) ≤ exp2_neg x.
Proof.
  intros Hx. cbv zeta.
  pose (p := λ x, let t := s16 (- x) in let n := s16 ((s16 (Z.lxor t 0xFFFF) ≫ 10) + 1) in
    (s16 ((Z.lor 0x0400 (Z.land t 0x03FF)) ≫ n) =? exp2_neg x) && (0 <=? n) && (n <=? 31) &&
    (0 <=? exp2_neg x) && (exp2_neg x <=? 1024) && (exp2_neg (x + 1) <=? exp2_neg x)).
  assert (p x = true) as H.
  { apply (check_range_spec p 0 (Z.to_nat 31745)); [by vm_compute|lia]. }
  unfold p in H. rewrite !andb_true_iff, Z.eqb_eq, !Z.leb_le in H. cbv zeta in H. lia.
Qed.

Lemma inv_std_bounds std :
  378 ≤ std ≤ 32767 →
  WebRtcSpl_DivW32W16 (131072 + (std ≫ 1)) std = (131072 + std `div` 2) `div` std ∧
  4 ≤ (131072 + std `div` 2) `div` std ≤ 347.
Proof.
  intros Hs. rewrite shiftr_div by lia. change (2 ^ 1) with 2.
  assert (4 ≤ (131072 + std `div` 2) `div` std ≤ 347) as Hb.
  { split; [apply Z.div_le_lower_bound; zdiv|].
    apply Z.lt_succ_r, Z.div_lt_upper_bound; zdiv. }
  split; [|done]. unfold WebRtcSpl_DivW32W16. destruct (Z.eqb_spec std 0); [lia|].
  rewrite Z.quot_div_nonneg by zdiv. apply s32_id. cint.
Qed.

Lemma delta_bounds i2 d :
  0 ≤ i2 ≤ 1849 → Z.abs d ≤ 18146 →
  int16 ((i2 * d) `div` 1024) ∧ 0 ≤ ((i2 * d) `div` 1024 * d) `div` 512.
Proof.
  intros Hi Hd. assert (-33551954 ≤ i2 * d ≤ 33551954) by nia.
  split; [unfold_ints; zdiv|]. apply Z.div_pos; [|lia].
  destruct (Z.le_gt_cases 0 d).
  - assert (0 ≤ (i2 * d) `div` 1024) by (apply Z.div_pos; nia). nia.
  - assert ((i2 * d) `div` 1024 ≤ 0) by (apply Z.div_le_upper_bound; nia). nia.
Qed.

Lemma GaussianProbability_eq input mean std :
  378 ≤ std ≤ 32767 → -4096 ≤ input ≤ 4095 → Z.abs (8 * input - mean) ≤ 18146 →
  let d := 8 * input - mean in
  let inv := (131072 + std `div` 2) `div` std in
  let i2 := (inv `div` 4 * (inv `div` 4)) `div` 4 in
  let delta := (i2 * d) `div` 1024 in
  let e := (delta * d) `div` 512 in
  WebRtcVad_GaussianProbability input mean std =
    (if e <? kCompVar then inv * exp2_neg ((kLog2Exp * e) `div` 4096) else 0, delta) ∧
  0 ≤ e ∧ 0 ≤ (WebRtcVad_GaussianProbability input mean std).1 ≤ inv * 1024.
Proof.
  intros Hs Hi Hd. cbv zeta. destruct (inv_std_bounds std Hs) as [Einv Hinv].
  unfold WebRtcVad_GaussianProbability. rewrite Einv. set (inv := _ `div` std) in *.
  rewrite (s16_id inv) by cint. rewrite (shiftl_mul input) by lia. change (2 ^ 3) with 8.
  rewrite (s16_id (input * 8)) by cint.
  replace (input * 8 - mean) with (8 * input - mean) by lia.
  set (d := 8 * input - mean) in *. rewrite (s16_id d) by cint.
  rewrite !(shiftr_div _ 2), !(shiftr_div _ 10), !(shiftr_div _ 9), !(shiftr_div _ 12) by lia.
  change (2 ^ 2) with 4. change (2 ^ 10) with 1024. change (2 ^ 9) with 512. change (2 ^ 12) with 4096.
  set (q := inv `div` 4) in *. assert (0 ≤ q ≤ 86) by (subst q; zdiv).
  assert (0 ≤ (q * q) `div` 4 ≤ 1849) as Hi2 by (assert (0 ≤ q * q ≤ 7396) by nia; zdiv).
  set (i2 := (q * q) `div` 4) in *. rewrite (s16_id i2) by cint.
  destruct (delta_bounds i2 d Hi2 Hd) as [Hdelta He].
  set (delta := (i2 * d) `div` 1024) in *. rewrite (s16_id delta) by done.
  set (e := (delta * d) `div` 512) in *.
  destruct (Z.ltb_spec e kCompVar) as [Hlt|Hge]; simpl fst.
  2:{ rewrite Z.mul_0_r. split; [done|]. split; [done|lia]. }
  unfold kCompVar, kLog2Exp in *. rewrite mul32_id by cint.
  assert (0 ≤ (5909 * e) `div` 4096 ≤ 31744) as Hx by zdiv.
  rewrite (s16_id ((5909 * e) `div` 4096)) by cint.
  destruct (exp2_neg_bits _ Hx) as (E & _ & Hr & _). cbv zeta in E.
  rewrite (shiftr_div _ 10) in E by lia. change (2 ^ 10) with 1024 in E. rewrite E.
  split; [done|]. split; [done|nia].
Qed.

Lemma exp2_neg_antitone x y : 0 ≤ x ≤ y → y ≤ 31745 → exp2_neg y ≤ exp2_neg x.
Proof.
  intros Hxy Hy. replace y with (x + Z.of_nat (Z.to_nat (y - x))) by lia.
  assert (x + Z.of_nat (Z.to_nat (y - x)) ≤ 31745) as Hn by lia. revert Hn.
  induction (Z.to_nat (y - x)) as [|n IH]; intros Hn; [by rewrite Z.add_0_r|].
  etrans; [|apply IH; lia].
  replace (x + Z.of_nat (S n)) with (x + Z.of_nat n + 1) by lia. apply exp2_neg_bits. lia.
Qed.

(** * Properties *)

(** For a standard deviation of at least 378 (the smallest the model holds) and an input
    within 18146 (Q7) of the mean, no intermediate of the probability wraps and the shift
    count is valid: with [inv] the rounded reciprocal of the deviation and [e] the exponent
    [(x - m)^2 / (2 s^2)], the result is [inv] times the linearly interpolated [2^-(e log2 e)],
    or 0 when [e] is at least [kCompVar]; it lies between 0 and [inv * 1024], [delta] is the
    exact quotient used by the model update, and above the mean the probability never grows
    with the distance. *)
Lemma GaussianProbability_spec input input' mean std :
  378 ≤ std ≤ 32767 → -4096 ≤ input ≤ input' → input' ≤ 4095 →
  mean ≤ 8 * input → 8 * input' - mean ≤ 18146 →
  let d := 8 * input - mean in
  let inv := (131072 + std `div` 2) `div` std in
  let i2 := (inv `div` 4 * (inv `div` 4)) `div` 4 in
  let delta := (i2 * d) `div` 1024 in
  let e := (delta * d) `div` 512 in
  WebRtcVad_GaussianProbability input mean std =
    (if e <? kCompVar then inv * exp2_neg ((kLog2Exp * e) `div` 4096) else 0, delta) ∧
  0 ≤ (WebRtcVad_GaussianProbability input mean std).1 ≤ inv * 1024 ∧
  (WebRtcVad_GaussianProbability input' mean std).1 ≤ (WebRtcVad_GaussianProbability input mean std).1.
Proof.
  intros Hs Hi Hi' Hm Hd. cbv zeta.
  destruct (GaussianProbability_eq input mean std Hs ltac:(lia) ltac:(lia)) as (E & He & Hr).
  destruct (GaussianProbability_eq input' mean std Hs ltac:(lia) ltac:(lia)) as (E' & He' & Hr').
  split; [exact E|]. split; [exact Hr|]. cbv zeta in E'. rewrite E', E in *. cbn [fst] in *. clear E E'.
  destruct (inv_std_bounds std Hs) as [_ Hinv]. set (inv := (131072 + _) `div` std) in *.
  set (i2 := _ `div` 4) in *. assert (0 ≤ i2) by (apply Z.div_pos; [apply Z.square_nonneg|lia]).
  set (d := 8 * input - mean) in *. set (d' := 8 * input' - mean) in *.
  assert (0 ≤ d ≤ d') as Hdd by lia.
  assert (0 ≤ (i2 * d) `div` 1024 ≤ (i2 * d') `div` 1024) as Hdelta.
  { split; [apply Z.div_pos; nia|apply Z.div_le_mono; nia]. }
  set (e := (_ * d) `div` 512) in *. set (e' := (_ * d') `div` 512) in *.
  assert (e ≤ e') as Hee by (apply Z.div_le_mono; nia).
  destruct (Z.ltb_spec e' kCompVar) as [Hlt|]; [|lia].
  destruct (Z.ltb_spec e kCompVar); [|lia]. apply Z.mul_le_mono_nonneg_l; [lia|].
  unfold kCompVar, kLog2Exp in *. apply exp2_neg_antitone; zdiv.
Qed.

Lemma GaussianProbability_spec_witness :
  let d := 8 * 850 - 6738 in
  let inv := (131072 + 384 `div` 2) `div` 384 in
  let i2 := (inv `div` 4 * (inv `div` 4)) `div` 4 in
  let delta := (i2 * d) `div` 1024 in
  let e := (delta * d) `div` 512 in
  WebRtcVad_GaussianProbability 850 6738 384 =
    (if e <? kCompVar then inv * exp2_neg ((kLog2Exp * e) `div` 4096) else 0, delta) ∧
  0 ≤ (WebRtcVad_GaussianProbability 850 6738 384).1 ≤ inv * 1024 ∧
  (WebRtcVad_GaussianProbability 900 6738 384).1 ≤ (WebRtcVad_GaussianProbability 850 6738 384).1.
Proof. apply (GaussianProbability_spec 850 900 6738 384); lia. Defined.
