(* ===== verification/VadFilterbank.v ===== *)
(** The filter bank of common_audio/vad/vad_filterbank.c: five two-band splits and a high-pass
    filter divide an 8 kHz frame into six bands, whose log energies are the features. *)
From S2P Require Import Prelude SplInl MinMax Energy VadInst.

(** * Definitions *)

Definition kLogConst : Z := 24660.
Definition kLogEnergyIntPart : Z := 14336.
Definition kHpZeroCoefs : list Z := [6631; -13262; 6631].
Definition kHpPoleCoefs : list Z := [16384; -7756; 5620].
Definition kAllPassCoefsQ15 : list Z := [20972; 5571].
Definition kOffsetVector : list Z := [368; 368; 272; 176; 176; 176].

Definition HighPass_step (filter_state : list Z) (x : Z) : list Z * Z :=
  let tmp32 := kHpZeroCoefs.[0] ⊠ x in
  let tmp32 := tmp32 ⊞ kHpZeroCoefs.[1] ⊠ filter_state.[0] in
  let tmp32 := tmp32 ⊞ kHpZeroCoefs.[2] ⊠ filter_state.[1] in
  let filter_state := wr filter_state 1 (filter_state.[0]) in
  let filter_state := wr filter_state 0 x in
  let tmp32 := tmp32 ⊟ kHpPoleCoefs.[1] ⊠ filter_state.[2] in
  let tmp32 := tmp32 ⊟ kHpPoleCoefs.[2] ⊠ filter_state.[3] in
  let filter_state := wr filter_state 3 (filter_state.[2]) in
  let filter_state := wr filter_state 2 (s16 (tmp32 ≫ 14)) in
  (filter_state, filter_state.[2]).

(** Returns the output and the new filter state. *)
Definition HighPassFilter (data_in filter_state : list Z) : list Z * list Z :=
  let '(st, out) := run HighPass_step filter_state data_in in (out, st).

Definition AllPass_step (filter_coefficient state32 x : Z) : Z * Z :=
  let tmp32 := state32 ⊞ filter_coefficient ⊠ x in
  let tmp16 := s16 (tmp32 ≫ 16) in
  let state32 := (x ⊠ (1 ≪ 14)) ⊟ filter_coefficient ⊠ tmp16 in
  let state32 := state32 ⊠ 2 in
  (state32, tmp16).

(** [data_in] holds every second sample of the caller's buffer, those the pointer visits. *)
Definition AllPassFilter (data_in : list Z) (filter_coefficient filter_state : Z)
    : list Z * Z :=
  let state32 := filter_state ⊠ (1 ≪ 16) in
  let '(state32, out) := run (AllPass_step filter_coefficient) state32 data_in in
  (out, s16 (state32 ≫ 16)).

(** Returns the high and the low band, and the two filter states. *)
Definition SplitFilter (data_in : list Z) (upper_state lower_state : Z)
    : list Z * list Z * Z * Z :=
  let p := pairs data_in in
  let '(hp, upper_state) := AllPassFilter p.*1 (kAllPassCoefsQ15.[0]) upper_state in
  let '(lp, lower_state) := AllPassFilter p.*2 (kAllPassCoefsQ15.[1]) lower_state in
  let hp_data_out := zip_with (λ h l, s16 (h - l)) hp lp in
  let lp_data_out := zip_with (λ h l, s16 (l + h)) hp lp in
  (hp_data_out, lp_data_out, upper_state, lower_state).

(** Returns [total_energy] and [log_energy]. *)
Definition LogOfEnergy (data_in : list Z) (offset total_energy : Z) : Z * Z :=
  let '(en, tot_rshifts) := WebRtcSpl_Energy data_in in
  let energy := u32 en in
  if negb (energy =? 0) then
    let normalizing_rshifts := 17 - WebRtcSpl_NormU32 energy in
    let log2_energy := kLogEnergyIntPart in
    let tot_rshifts := tot_rshifts + normalizing_rshifts in
    let energy :=
      if normalizing_rshifts <? 0 then u32 (energy ≪ (- normalizing_rshifts))
      else energy ≫ normalizing_rshifts in
    let log2_energy := s16 (log2_energy + s16 (Z.land energy 0x00003FFF ≫ 4)) in
    let log_energy :=
      s16 (((kLogConst ⊠ log2_energy) ≫ 19) ⊞ ((tot_rshifts ⊠ kLogConst) ≫ 9)) in
    let log_energy := if log_energy <? 0 then 0 else log_energy in
    let log_energy := s16 (log_energy + offset) in
    let total_energy :=
      if total_energy <=? kMinEnergy then
        if 0 <=? tot_rshifts then s16 (total_energy + (kMinEnergy + 1))
        else s16 (total_energy + s16 (energy ≫ (- tot_rshifts)))
      else total_energy in
    (total_energy, log_energy)
  else (total_energy, offset).

(** Returns the instance with its filter states, the features and the total energy. *)
Definition WebRtcVad_CalculateFeatures (self : VadInstT) (data_in : list Z)
    : VadInstT * list Z * Z :=
  let total_energy := 0 in
  let features := replicate 6 0 in
  let us := upper_state self in
  let ls := lower_state self in
  (* Split at 2000 Hz. *)
  let '(hp_120, lp_120, u, l) := SplitFilter data_in (us.[0]) (ls.[0]) in
  let us := wr us 0 u in
  let ls := wr ls 0 l in
  (* Upper band, split at 3000 Hz. *)
  let '(hp_60, lp_60, u, l) := SplitFilter hp_120 (us.[1]) (ls.[1]) in
  let us := wr us 1 u in
  let ls := wr ls 1 l in
  let '(total_energy, e) := LogOfEnergy hp_60 (kOffsetVector.[5]) total_energy in
  let features := wr features 5 e in
  let '(total_energy, e) := LogOfEnergy lp_60 (kOffsetVector.[4]) total_energy in
  let features := wr features 4 e in
  (* Lower band, split at 1000 Hz. *)
  let '(hp_60, lp_60, u, l) := SplitFilter lp_120 (us.[2]) (ls.[2]) in
  let us := wr us 2 u in
  let ls := wr ls 2 l in
  let '(total_energy, e) := LogOfEnergy hp_60 (kOffsetVector.[3]) total_energy in
  let features := wr features 3 e in
  (* Split at 500 Hz. *)
  let '(hp_120, lp_120, u, l) := SplitFilter lp_60 (us.[3]) (ls.[3]) in
  let us := wr us 3 u in
  let ls := wr ls 3 l in
  let '(total_energy, e) := LogOfEnergy hp_120 (kOffsetVector.[2]) total_energy in
  let features := wr features 2 e in
  (* Split at 250 Hz. *)
  let '(hp_60, lp_60, u, l) := SplitFilter lp_120 (us.[4]) (ls.[4]) in
  let us := wr us 4 u in
  let ls := wr ls 4 l in
  let '(total_energy, e) := LogOfEnergy hp_60 (kOffsetVector.[1]) total_energy in
  let features := wr features 1 e in
  (* Remove 0 - 80 Hz. *)
  let '(hp_120, hp_state) := HighPassFilter lp_60 (hp_filter_state self) in
  let '(total_energy, e) := LogOfEnergy hp_120 (kOffsetVector.[0]) total_energy in
  let features := wr features 0 e in
  (set_filters self us ls hp_state, features, total_energy).

(** * Lemmas *)

(** The scaling of a short vector, full-scale negative samples included. *)
Lemma scaling_range v :
  zlen v ≤ 63 → 0 ≤ WebRtcSpl_GetScalingSquare v (zlen v) ≤ 6.
Proof.
  intros Hl. unfold WebRtcSpl_GetScalingSquare. set (smax := foldl _ _ v).
  assert (-1 ≤ smax ≤ 32767) as Hs.
  { enough (∀ a, -1 ≤ a ≤ 32767 → -1 ≤ foldl (λ smax x,
      let sabs := s16 (if x >? 0 then x else - x) in
      if sabs >? smax then sabs else smax) a v ≤ 32767) as H by (apply H; lia).
    clear. induction v as [|x v IH]; intros a Ha; [done|]. simpl. apply IH.
    pose proof (s16_range (if x >? 0 then x else - x)). unfold_ints.
    rewrite Z.gtb_ltb. destruct_ltb; lia. }
  destruct (Z.eqb_spec smax 0); [lia|].
  assert (0 ≤ WebRtcSpl_GetSizeInBits (u32 (zlen v)) ≤ 6) as Hb.
  { rewrite u32_id by cint. destruct (GetSizeInBits_spec (zlen v)) as (H1 & _ & H3); [cint|].
    split; [lia|]. destruct (Z.eq_dec (zlen v) 0) as [->|]; [vm_compute; congruence|].
    specialize (H3 ltac:(lia)).
    destruct (Z.le_gt_cases (WebRtcSpl_GetSizeInBits (zlen v)) 6); [done|].
    assert (2 ^ 6 ≤ 2 ^ (WebRtcSpl_GetSizeInBits (zlen v) - 1)) by (apply Z.pow_le_mono_r; lia).
    change (2 ^ 6) with 64 in *. lia. }
  destruct (NormW32_bounds_pos (smax * smax)) as (Ht & _); [nia|unfold_ints; nia|].
  rewrite Z.gtb_ltb. destruct_ltb; [lia|]. rewrite s16_id by cint. lia.
Qed.

Lemma NormU32_log2 e : 0 < e → uint32 e → WebRtcSpl_NormU32 e = 31 - Z.log2 e ∧ 0 ≤ Z.log2 e ≤ 31.
Proof.
  intros He Hu. unfold WebRtcSpl_NormU32. destruct (Z.eqb_spec e 0); [lia|].
  pose proof (log2_below e 32 ltac:(change (2 ^ 32) with 4294967296; cint) ltac:(lia)) as Hl.
  unfold WebRtcSpl_CountLeadingZeros32, builtin_clz. destruct (Z.eqb_spec e 0); [lia|].
  split; [apply s16_id; cint|lia].
Qed.

(** The energy scaled to 15 bits. *)
Definition energy15 (e : Z) : Z := if Z.log2 e <? 14 then e * 2 ^ (14 - Z.log2 e) else e `div` 2 ^ (Z.log2 e - 14).

Lemma energy15_range e : 0 < e → 16384 ≤ energy15 e < 32768.
Proof.
  intros He. unfold energy15. destruct (Z.log2_spec e He) as [H1 H2].
  pose proof (Z.log2_nonneg e). destruct (Z.ltb_spec (Z.log2 e) 14).
  - assert (2 ^ 14 = 2 ^ Z.log2 e * 2 ^ (14 - Z.log2 e)) as E
      by (rewrite <- Z.pow_add_r by lia; f_equal; lia).
    rewrite Z.pow_succ_r in H2 by lia. change (2 ^ 14) with 16384 in E.
    assert (0 < 2 ^ (14 - Z.log2 e)) by (apply Z.pow_pos_nonneg; lia). nia.
  - assert (2 ^ Z.log2 e = 16384 * 2 ^ (Z.log2 e - 14)) as E
      by (change 16384 with (2 ^ 14); rewrite <- Z.pow_add_r by lia; f_equal; lia).
    rewrite Z.pow_succ_r in H2 by lia.
    assert (0 < 2 ^ (Z.log2 e - 14)) by (apply Z.pow_pos_nonneg; lia).
    split; [apply Z.div_le_lower_bound; lia|apply Z.div_lt_upper_bound; lia].
Qed.

(** Both branches of the normalisation. *)
Lemma normalize_energy e :
  0 < e → uint32 e →
  (if 17 - WebRtcSpl_NormU32 e <? 0 then u32 (e ≪ (- (17 - WebRtcSpl_NormU32 e)))
   else e ≫ (17 - WebRtcSpl_NormU32 e)) = energy15 e ∧
  17 - WebRtcSpl_NormU32 e = Z.log2 e - 14.
Proof.
  intros He Hu. destruct (NormU32_log2 e He Hu) as [-> Hl].
  replace (17 - (31 - Z.log2 e)) with (Z.log2 e - 14) by lia. split; [|done].
  pose proof (energy15_range e He) as Hr. unfold energy15 in *.
  destruct (Z.ltb_spec (Z.log2 e - 14) 0), (Z.ltb_spec (Z.log2 e) 14); try lia.
  - replace (- (Z.log2 e - 14)) with (14 - Z.log2 e) by lia.
    rewrite shiftl_mul by lia. apply u32_id. cint.
  - rewrite shiftr_div by lia. done.
Qed.

(** The log energy of a band: piecewise linear approximation of [160 log10]. *)
Definition log_energy_spec (e sc : Z) : Z :=
  Z.max 0 ((24660 * (14336 + (energy15 e - 16384) `div` 16)) `div` 524288 +
           ((sc + Z.log2 e - 14) * 24660) `div` 512).

(** The energy indicator: exact as long as it matters. *)
Definition total_energy_spec (total e sc : Z) : Z :=
  if total <=? 10 then if 0 <=? sc + Z.log2 e - 14 then total + 11 else total + e * 2 ^ sc else total.

Lemma energy_small e sc :
  0 < e → 0 ≤ sc → sc + Z.log2 e < 14 →
  energy15 e ≫ (- (sc + Z.log2 e - 14)) = e * 2 ^ sc ∧ 0 < e * 2 ^ sc < 16384.
Proof.
  intros He Hs Hlt. pose proof (Z.log2_nonneg e). destruct (Z.log2_spec e He) as [_ H2].
  unfold energy15. destruct (Z.ltb_spec (Z.log2 e) 14); [|lia].
  assert (0 < 2 ^ sc) by (apply Z.pow_pos_nonneg; lia). split.
  - rewrite shiftr_div by lia.
    replace (14 - Z.log2 e) with (sc + (- (sc + Z.log2 e - 14))) by lia.
    rewrite Z.pow_add_r by lia. rewrite Z.mul_assoc. apply Z.div_mul.
    apply Z.pow_nonzero; lia.
  - assert (2 ^ Z.succ (Z.log2 e) * 2 ^ sc ≤ 16384); [|nia].
    rewrite <- Z.pow_add_r by lia. change 16384 with (2 ^ 14). apply Z.pow_le_mono_r; lia.
Qed.

Lemma LogOfEnergy_eq v off total :
  zlen v ≤ 63 → 0 ≤ off ≤ 368 → 0 ≤ total ≤ 16394 →
  let '(en, sc) := WebRtcSpl_Energy v in
  let e := u32 en in
  0 ≤ sc ≤ 6 ∧ (e ≠ 0 → 0 ≤ log_energy_spec e sc ≤ 1829) ∧
  LogOfEnergy v off total =
    if e =? 0 then (total, off) else (total_energy_spec total e sc, log_energy_spec e sc + off).
Proof.
  intros Hl Hoff Htot. unfold LogOfEnergy. pose proof (scaling_range v Hl) as Hsc.
  unfold WebRtcSpl_Energy. set (sc := WebRtcSpl_GetScalingSquare v (zlen v)) in *.
  set (en := foldl _ _ v). pose proof (u32_range en) as Hu. set (e := u32 en) in *.
  split; [done|].
  destruct (Z.eqb_spec e 0) as [E0|Hne]; simpl negb; cbv iota.
  { by split. }
  assert (0 < e) as He by cint.
  destruct (normalize_energy e He Hu) as [En El]. destruct (NormU32_log2 e He Hu) as [_ Hlog].
  rewrite En, El. pose proof (energy15_range e He) as Hr.
  change 0x3FFF with (Z.ones 14). rewrite Z.land_ones by lia. change (2 ^ 14) with 16384.
  assert (energy15 e `mod` 16384 = energy15 e - 16384) as -> by zdiv.
  rewrite !(shiftr_div _ 4), !(shiftr_div _ 19), !(shiftr_div _ 9) by lia.
  change (2 ^ 4) with 16. change (2 ^ 19) with 524288. change (2 ^ 9) with 512.
  set (fr := (energy15 e - 16384) `div` 16). assert (0 ≤ fr ≤ 1023) by (subst fr; zdiv).
  unfold kLogConst, kLogEnergyIntPart, kMinEnergy. rewrite (s16_id fr) by cint.
  rewrite (s16_id (14336 + fr)) by cint. rewrite !mul32_id by cint.
  replace (sc + (Z.log2 e - 14)) with (sc + Z.log2 e - 14) by lia.
  set (tot := sc + Z.log2 e - 14) in *.
  set (a := (24660 * (14336 + fr)) `div` 524288). assert (674 ≤ a ≤ 722) by (subst a; zdiv).
  set (b := (tot * 24660) `div` 512). assert (-675 ≤ b ≤ 1107) by (subst b; zdiv).
  rewrite add32_id by cint. rewrite (s16_id (a + b)) by cint.
  unfold log_energy_spec. fold fr tot a b. split; [lia|].
  assert ((if a + b <? 0 then 0 else a + b) = Z.max 0 (a + b)) as -> by (destruct_ltb; lia).
  rewrite (s16_id (Z.max 0 (a + b) + off)) by cint. f_equal.
  unfold total_energy_spec. fold tot. destruct (Z.leb_spec total 10); [|done].
  change (10 + 1) with 11.
  destruct (Z.leb_spec 0 tot); [apply s16_id; cint|].
  destruct (energy_small e sc He ltac:(lia) ltac:(lia)) as [E' Hb]. fold tot in E'. rewrite E'.
  rewrite (s16_id (e * 2 ^ sc)), s16_id by cint. done.
Qed.

Lemma total_energy_range total e sc :
  0 < e → 0 ≤ sc → 0 ≤ total ≤ 16394 → 0 ≤ total_energy_spec total e sc ≤ 16394.
Proof.
  intros He Hs Ht. unfold total_energy_spec. destruct (Z.leb_spec total 10); [|done].
  destruct (Z.leb_spec 0 (sc + Z.log2 e - 14)); [lia|].
  destruct (energy_small e sc He Hs ltac:(lia)). lia.
Qed.

Lemma LogOfEnergy_range v off total :
  zlen v ≤ 63 → 0 ≤ off ≤ 368 → 0 ≤ total ≤ 16394 →
  0 ≤ (LogOfEnergy v off total).1 ≤ 16394 ∧ off ≤ (LogOfEnergy v off total).2 ≤ off + 1829.
Proof.
  intros Hl Ho Ht. pose proof (LogOfEnergy_eq v off total Hl Ho Ht) as H.
  destruct (WebRtcSpl_Energy v) as [en sc]. cbv zeta in H. destruct H as (Hsc & Hlog & ->).
  pose proof (u32_range en). destruct (Z.eqb_spec (u32 en) 0) as [E|Hne]; simpl; [lia|].
  specialize (Hlog Hne). pose proof (total_energy_range total (u32 en) sc ltac:(cint) ltac:(lia) Ht). lia.
Qed.

Lemma AllPassFilter_length xs c s : length (AllPassFilter xs c s).1 = length xs.
Proof.
  unfold AllPassFilter. pose proof (run_length (AllPass_step c) (s ⊠ (1 ≪ 16)) xs).
  by destruct (run _ _ xs).
Qed.

Lemma SplitFilter_length xs u l :
  let '(hp, lp, _, _) := SplitFilter xs u l in
  length hp = Nat.div2 (length xs) ∧ length lp = Nat.div2 (length xs).
Proof.
  unfold SplitFilter. pose proof (AllPassFilter_length (pairs xs).*1 (kAllPassCoefsQ15.[0]) u) as H1.
  pose proof (AllPassFilter_length (pairs xs).*2 (kAllPassCoefsQ15.[1]) l) as H2.
  destruct (AllPassFilter (pairs xs).*1 _ _) as [hp u']. destruct (AllPassFilter (pairs xs).*2 _ _) as [lp l'].
  simpl in *. rewrite length_fmap, pairs_length in *. rewrite !length_zip_with. lia.
Qed.

Lemma HighPassFilter_length xs st : length (HighPassFilter xs st).1 = length xs.
Proof.
  unfold HighPassFilter. pose proof (run_length HighPass_step st xs).
  by destruct (run HighPass_step st xs).
Qed.

Lemma SplitFilter_half xs u l :
  let '(hp, lp, _, _) := SplitFilter xs u l in
  (2 * length hp ≤ length xs)%nat ∧ (2 * length lp ≤ length xs)%nat.
Proof.
  pose proof (SplitFilter_length xs u l) as H. destruct (SplitFilter xs u l) as [[[hp lp] u'] l'].
  destruct H as [-> ->]. pose proof (Nat.div2_odd (length xs)). lia.
Qed.

Definition feature_ok (i x : Z) : Prop := kOffsetVector.[i] ≤ x ≤ kOffsetVector.[i] + 1829.

(** Name the results of the next split, with their lengths. *)
Ltac split_band :=
  match goal with
  | |- context [SplitFilter ?xs ?u ?l] =>
      let H := fresh "HL" in
      pose proof (SplitFilter_half xs u l) as H;
      destruct (SplitFilter xs u l) as [[[? ?] ?] ?]
  end.
(** The same for the next log energy; its input has at most 63 samples. *)
Ltac log_band :=
  match goal with
  | |- context [LogOfEnergy ?v ?off ?t] =>
      let H := fresh "HE" in
      pose proof (LogOfEnergy_range v off t ltac:(lia) ltac:(vm_compute; split; congruence) ltac:(lia)) as H;
      destruct (LogOfEnergy v off t) as [? ?]; cbn [fst snd] in H
  end.

Lemma HighPassFilter_state x st : length (HighPassFilter x st).2 = length st.
Proof.
  unfold HighPassFilter. revert st. induction x as [|v x IH]; intros st; [done|]. cbn [run].
  specialize (IH (HighPass_step st v).1). assert (length (HighPass_step st v).1 = length st) as E
    by (unfold HighPass_step; cbn [fst]; by rewrite !wr_length).
  destruct (HighPass_step st v) as [st' y]. cbn [fst] in *. destruct (run HighPass_step st' x). cbn [snd] in *. congruence.
Qed.

Lemma CalculateFeatures_range self data :
  zlen data ≤ 240 →
  let '(self', features, total) := WebRtcVad_CalculateFeatures self data in
  length features = 6%nat ∧ (∀ i, 0 ≤ i < 6 → feature_ok i (features.[i])) ∧ 0 ≤ total ≤ 16394 ∧
  self' = set_filters self (upper_state self') (lower_state self') (hp_filter_state self') ∧
  length (upper_state self') = length (upper_state self) ∧
  length (lower_state self') = length (lower_state self) ∧
  length (hp_filter_state self') = length (hp_filter_state self).
Proof.
  intros Hd. unfold WebRtcVad_CalculateFeatures.
  split_band. split_band. log_band. log_band. split_band. log_band. split_band. log_band.
  split_band. log_band.
  match goal with |- context [HighPassFilter ?x ?st] =>
    pose proof (HighPassFilter_length x st) as HH; pose proof (HighPassFilter_state x st) as HS; destruct (HighPassFilter x st) as [? ?];
    cbn [fst snd] in HH, HS end.
  log_band. split; [done|]. split; [|split; [lia|]].
  - intros i Hi. unfold feature_ok.
    assert (i = 0 ∨ i = 1 ∨ i = 2 ∨ i = 3 ∨ i = 4 ∨ i = 5) as [->|[->|[->|[->|[->| ->]]]]] by lia;
      repeat (rewrite rd_wr_ne by lia); rewrite rd_wr_eq by (rewrite ?wr_length; simpl; lia); lia.
  - cbn [upper_state lower_state hp_filter_state set_filters]. rewrite !wr_length. done.
Qed.

(** ** Exactness of a split *)

(** The all-pass recursion over the integers, with its state in Q15. *)
Definition AllPass_exact (c s x : Z) : Z * Z :=
  let y := (s + c * x) `div` 65536 in (2 * (16384 * x - c * y), y).

Definition split_bound : Z := 18000.

(** State bounds of the upper and the lower branch for inputs up to [split_bound]. *)
Lemma AllPass_step_exact c B s x :
  (c = 20972 ∧ B = 967966720) ∨ (c = 5571 ∧ B = 690749440) →
  Z.abs s ≤ B → Z.abs x ≤ split_bound →
  AllPass_step c s x = AllPass_exact c s x ∧ Z.abs (AllPass_exact c s x).1 ≤ B ∧
  Z.abs (AllPass_exact c s x).2 ≤ (if c =? 20972 then 20535 else 12075).
Proof.
  unfold split_bound. intros Hc Hs Hx. unfold AllPass_step, AllPass_exact.
  change (1 ≪ 14) with 16384. rewrite shiftr_div by lia. change (2 ^ 16) with 65536.
  set (y := (s + c * x) `div` 65536). destruct Hc as [[-> ->]|[-> ->]]; simpl (_ =? _); cbv iota.
  - assert (Z.abs y ≤ 20535) by (subst y; zdiv).
    assert (Z.abs (2 * (16384 * x - 20972 * y)) ≤ 967966720) by (subst y; zdiv).
    rewrite (mul32_id 20972 x), add32_id by cint. fold y. rewrite (s16_id y) by cint.
    rewrite (mul32_id x), (mul32_id 20972 y), sub32_id, mul32_id by cint.
    split; [f_equal; lia|]. simpl fst. simpl snd. lia.
  - assert (Z.abs y ≤ 12075) by (subst y; zdiv).
    assert (Z.abs (2 * (16384 * x - 5571 * y)) ≤ 690749440) by (subst y; zdiv).
    rewrite (mul32_id 5571 x), add32_id by cint. fold y. rewrite (s16_id y) by cint.
    rewrite (mul32_id x), (mul32_id 5571 y), sub32_id, mul32_id by cint.
    split; [f_equal; lia|]. simpl fst. simpl snd. lia.
Qed.

(** A branch over a frame, from and to its 16-bit state. *)
Definition branch_exact (c st : Z) (xs : list Z) : list Z * Z :=
  let '(s, ys) := run (AllPass_exact c) (st * 65536) xs in (ys, s `div` 65536).

Definition state_bound (c : Z) : Z := if c =? 20972 then 14770 else 10540.
Definition out_bound (c : Z) : Z := if c =? 20972 then 20535 else 12075.

Lemma AllPassFilter_exact c st xs :
  (c = 20972 ∨ c = 5571) → Z.abs st ≤ state_bound c → Forall (λ x, Z.abs x ≤ split_bound) xs →
  AllPassFilter xs c st = branch_exact c st xs ∧
  Forall (λ y, Z.abs y ≤ out_bound c) (branch_exact c st xs).1 ∧
  Z.abs (branch_exact c st xs).2 ≤ state_bound c.
Proof.
  intros Hc Hst Hxs. unfold AllPassFilter, branch_exact.
  assert ((c = 20972 ∧ state_bound c * 65536 = 967966720) ∨
          (c = 5571 ∧ state_bound c * 65536 = 690749440)) as HB
    by (destruct Hc as [->| ->]; [by left|by right]).
  assert (state_bound c ≤ 14770) by (unfold state_bound; destruct (c =? 20972); lia).
  change (1 ≪ 16) with 65536. rewrite mul32_id by cint.
  assert (Z.abs (st * 65536) ≤ state_bound c * 65536) as H0 by lia.
  rewrite (run_ext_inv _ (AllPass_exact c) (λ s, Z.abs s ≤ state_bound c * 65536)
    (λ x, Z.abs x ≤ split_bound) (st * 65536) xs); [|..|done|done].
  2:{ intros s x Hs Hx. destruct (AllPass_step_exact c _ s x HB Hs Hx) as (E & H1 & _).
      rewrite E. done. }
  pose proof (run_inv (AllPass_exact c) (λ s, Z.abs s ≤ state_bound c * 65536) _
    (λ y, Z.abs y ≤ out_bound c) (st * 65536) xs
    (λ s x Hs Hx, proj2 (AllPass_step_exact c _ s x HB Hs Hx)) H0 Hxs) as [Hs Hy].
  destruct (run (AllPass_exact c) (st * 65536) xs) as [s ys]. simpl in Hs, Hy |- *.
  rewrite shiftr_div by lia. change (2 ^ 16) with 65536.
  assert (Z.abs (s `div` 65536) ≤ state_bound c) by zdiv.
  split; [f_equal; apply s16_id; cint|]. done.
Qed.

(** * Properties *)

(** On a frame of samples of magnitude up to 18000, from filter states in the bounds it
    maintains (they include the reset state), a two-band split never wraps: the bands are the
    difference and the sum of the two all-pass branches computed over the integers, within the
    16-bit range, and the states stay in the bounds, so the same holds for the next frame. *)
Lemma SplitFilter_exact xs u l :
  Forall (λ x, Z.abs x ≤ split_bound) xs → Z.abs u ≤ 14770 → Z.abs l ≤ 10540 →
  let '(a, u') := branch_exact 20972 u (pairs xs).*1 in
  let '(b, l') := branch_exact 5571 l (pairs xs).*2 in
  SplitFilter xs u l = (zip_with Z.sub a b, zip_with Z.add b a, u', l') ∧
  Forall int16 (zip_with Z.sub a b) ∧ Forall int16 (zip_with Z.add b a) ∧
  Z.abs u' ≤ 14770 ∧ Z.abs l' ≤ 10540.
Proof.
  intros Hx Hu Hl. apply pairs_Forall in Hx.
  assert (Forall (λ x, Z.abs x ≤ split_bound) (pairs xs).*1 ∧
          Forall (λ x, Z.abs x ≤ split_bound) (pairs xs).*2) as [Hx1 Hx2].
  { rewrite !Forall_fmap. split; (eapply list.Forall_impl; [exact Hx|]); by intros ? [??]. }
  destruct (AllPassFilter_exact 20972 u (pairs xs).*1) as (E1 & H1 & B1); [by left|done..|].
  destruct (AllPassFilter_exact 5571 l (pairs xs).*2) as (E2 & H2 & B2); [by right|done..|].
  unfold SplitFilter. change (kAllPassCoefsQ15.[0]) with 20972. change (kAllPassCoefsQ15.[1]) with 5571.
  rewrite E1, E2. destruct (branch_exact 20972 u _) as [a u'], (branch_exact 5571 l _) as [b l'].
  cbn [fst snd] in *. change (out_bound 20972) with 20535 in H1. change (out_bound 5571) with 12075 in H2.
  assert (zip_with (λ h l, s16 (h - l)) a b = zip_with Z.sub a b ∧
          zip_with (λ h l, s16 (l + h)) a b = zip_with Z.add b a ∧
          Forall int16 (zip_with Z.sub a b) ∧ Forall int16 (zip_with Z.add b a)) as (-> & -> & F1 & F2).
  { clear -H1 H2. revert b H2. induction H1 as [|x a Hx H1 IH]; intros [|y b] H2; simpl;
      [repeat split; constructor..|].
    apply Forall_cons_1 in H2 as [Hy H2]. destruct (IH b H2) as (I1 & I2 & I3 & I4).
    rewrite I1, I2, !s16_id by cint. repeat split; constructor; try done; cint. }
  done.
Qed.

Lemma SplitFilter_exact_witness :
  let xs := [18000; -18000; 12345; 17] in
  let '(a, u') := branch_exact 20972 (-14770) (pairs xs).*1 in
  let '(b, l') := branch_exact 5571 100 (pairs xs).*2 in
  SplitFilter xs (-14770) 100 = (zip_with Z.sub a b, zip_with Z.add b a, u', l') ∧
  Forall int16 (zip_with Z.sub a b) ∧ Forall int16 (zip_with Z.add b a) ∧
  Z.abs u' ≤ 14770 ∧ Z.abs l' ≤ 10540.
Proof.
  apply (SplitFilter_exact [18000; -18000; 12345; 17] (-14770) 100); [|lia..].
  repeat constructor; unfold split_bound; lia.
Defined.

(** The log energy of a band of up to 63 samples is the piecewise linear logarithm of its
    scaled energy plus the band's offset, between the offset and the offset plus 1829 (Q4); a
    band of zero energy yields the offset.  While the energy indicator does not exceed
    [kMinEnergy], it exceeds it afterwards exactly when the true energy [e * 2^sc] added to it
    does. *)
Lemma LogOfEnergy_spec v off total :
  zlen v ≤ 63 → 0 ≤ off ≤ 368 → 0 ≤ total ≤ kMinEnergy →
  let '(en, sc) := WebRtcSpl_Energy v in
  let e := u32 en in
  let '(total', log) := LogOfEnergy v off total in
  (e = 0 → total' = total ∧ log = off) ∧
  (e ≠ 0 → log = log_energy_spec e sc + off ∧ 16384 ≤ energy15 e < 32768) ∧
  off ≤ log ≤ off + 1829 ∧
  (total' > kMinEnergy ↔ total + e * 2 ^ sc > kMinEnergy).
Proof.
  unfold kMinEnergy. intros Hl Ho Ht.
  pose proof (LogOfEnergy_range v off total Hl Ho ltac:(lia)) as [_ Hr].
  pose proof (LogOfEnergy_eq v off total Hl Ho ltac:(lia)) as H.
  destruct (WebRtcSpl_Energy v) as [en sc]. cbv zeta in *. destruct H as (Hsc & _ & E).
  pose proof (u32_range en) as Hu. rewrite E in Hr |- *.
  destruct (Z.eqb_spec (u32 en) 0) as [E0|Hne]; cbn [fst snd] in *.
  { split; [done|]. split; [done|]. split; [lia|]. rewrite E0. lia. }
  split; [done|]. split; [intros _; split; [done|apply energy15_range; cint]|]. split; [lia|].
  assert (0 < u32 en) as He by cint. unfold total_energy_spec.
  destruct (Z.leb_spec total 10); [|lia].
  destruct (Z.leb_spec 0 (sc + Z.log2 (u32 en) - 14)); [|lia].
  assert (2 ^ 14 ≤ u32 en * 2 ^ sc); [|change (2 ^ 14) with 16384 in *; lia].
  destruct (Z.log2_spec (u32 en) He) as [H1 _].
  assert (2 ^ 14 ≤ 2 ^ Z.log2 (u32 en) * 2 ^ sc).
  { rewrite <- Z.pow_add_r by (pose proof (Z.log2_nonneg (u32 en)); lia). apply Z.pow_le_mono_r; lia. }
  assert (0 < 2 ^ sc) by (apply Z.pow_pos_nonneg; lia). nia.
Qed.

Lemma LogOfEnergy_spec_witness :
  let '(en, sc) := WebRtcSpl_Energy [100; -200; 300; 1] in
  let e := u32 en in
  let '(total', log) := LogOfEnergy [100; -200; 300; 1] 176 3 in
  (e = 0 → total' = 3 ∧ log = 176) ∧
  (e ≠ 0 → log = log_energy_spec e sc + 176 ∧ 16384 ≤ energy15 e < 32768) ∧
  176 ≤ log ≤ 176 + 1829 ∧ (total' > kMinEnergy ↔ 3 + e * 2 ^ sc > kMinEnergy).
Proof. apply (LogOfEnergy_spec [100; -200; 300; 1] 176 3); [simpl; lia|lia|unfold kMinEnergy; lia]. Defined.
