(* ===== verification/VadCore.v ===== *)
(** The detector core of common_audio/vad/vad_core.c: the Gaussian mixture model of noise and
    speech per channel, its likelihood ratio test and update, the hangover state machine, and
    the entry points per sampling rate. *)
From S2P Require Import Prelude SplInl SplMath ResampleInt Resample48 VadInst VadSp VadGmm VadFilterbank.

(** * Definitions *)

Definition kSpectrumWeight : list Z := [6; 8; 10; 12; 14; 16].
Definition kNoiseUpdateConst : Z := 655.
Definition kSpeechUpdateConst : Z := 6554.
Definition kBackEta : Z := 154.
Definition kMinimumDifference : list Z := [544; 544; 576; 576; 576; 576].
Definition kMaximumSpeech : list Z := [11392; 11392; 11520; 11520; 11520; 11520].
Definition kMinimumMean : list Z := [640; 768].
Definition kMaximumNoise : list Z := [9216; 9088; 8960; 8832; 8704; 8576].
Definition kNoiseDataWeights : list Z := [34; 62; 72; 66; 53; 25; 94; 66; 56; 62; 75; 103].
Definition kSpeechDataWeights : list Z := [48; 82; 45; 87; 50; 47; 80; 46; 83; 41; 78; 81].
Definition kNoiseDataMeans : list Z :=
  [6738; 4892; 7065; 6715; 6771; 3369; 7646; 3863; 7820; 7266; 5020; 4362].
Definition kSpeechDataMeans : list Z :=
  [8306; 10085; 10078; 11823; 11843; 6309; 9473; 9571; 10879; 7581; 8180; 7483].
Definition kNoiseDataStds : list Z :=
  [378; 1064; 493; 582; 688; 593; 474; 697; 475; 688; 421; 455].
Definition kSpeechDataStds : list Z :=
  [555; 505; 567; 524; 585; 1231; 509; 828; 492; 1540; 1079; 850].
Definition kMaxSpeechFrames : Z := 6.
Definition kMinStd : Z := 384.
Definition kDefaultMode : Z := 0.
Definition kInitCheck : Z := 42.
Definition kOverHangMax1Q : list Z := [8; 4; 3].
Definition kOverHangMax2Q : list Z := [14; 7; 5].
Definition kLocalThresholdQ : list Z := [24; 21; 24].
Definition kGlobalThresholdQ : list Z := [57; 48; 57].
Definition kOverHangMax1LBR : list Z := [8; 4; 3].
Definition kOverHangMax2LBR : list Z := [14; 7; 5].
Definition kLocalThresholdLBR : list Z := [37; 32; 37].
Definition kGlobalThresholdLBR : list Z := [100; 80; 100].
Definition kOverHangMax1AGG : list Z := [6; 3; 2].
Definition kOverHangMax2AGG : list Z := [9; 5; 3].
Definition kLocalThresholdAGG : list Z := [82; 78; 82].
Definition kGlobalThresholdAGG : list Z := [285; 260; 285].
Definition kOverHangMax1VAG : list Z := [6; 3; 2].
Definition kOverHangMax2VAG : list Z := [9; 5; 3].
Definition kLocalThresholdVAG : list Z := [94; 94; 94].
Definition kGlobalThresholdVAG : list Z := [1100; 1050; 1100].

(** [data] and [weights] are the arrays and [c] the channel the pointers start at; returns
    the updated [data] and the average. *)
Definition WeightedAverage (data : list Z) (c offset : Z) (weights : list Z) : list Z * Z :=
  for_up 0 2 (λ k '(data, weighted_average),
    let data := wr data (c + k * kNumChannels) (s16 (data.[c + k * kNumChannels] + offset)) in
    (data, weighted_average ⊞ data.[c + k * kNumChannels] ⊠ weights.[c + k * kNumChannels]))
    (data, 0).

Definition OverflowingMulS16ByS32ToS32 (a b : Z) : Z := a ⊠ b.

(** The local arrays of the likelihood test, with the running decision. *)
Record Lrt := mkLrt {
  sum_log_likelihood_ratios : Z;
  vadflag : Z;
  deltaN : list Z;
  deltaS : list Z;
  ngprvec : list Z;
  sgprvec : list Z
}.

Definition Lrt_init : Lrt :=
  mkLrt 0 0 (replicate 12 0) (replicate 12 0) (replicate 12 0) (replicate 12 0).

(** The loop over the Gaussians of a channel: the probabilities of [k = 0], the sums under
    both hypotheses and the deltas. *)
Definition lrt_gaussians (self : VadInstT) (feature channel : Z) (dN dS : list Z)
    : (Z * Z) * (Z * Z) * (list Z * list Z) :=
  for_up 0 2 (λ k '((np0, sp0), (h0_test, h1_test), (dN, dS)),
    let gaussian := channel + k * kNumChannels in
    let '(tmp1_s32, d) :=
      WebRtcVad_GaussianProbability feature ((noise_means self).[gaussian])
        ((noise_stds self).[gaussian]) in
    let dN := wr dN gaussian d in
    let np := kNoiseDataWeights.[gaussian] ⊠ tmp1_s32 in
    let h0_test := h0_test ⊞ np in
    let '(tmp1_s32, d) :=
      WebRtcVad_GaussianProbability feature ((speech_means self).[gaussian])
        ((speech_stds self).[gaussian]) in
    let dS := wr dS gaussian d in
    let sp := kSpeechDataWeights.[gaussian] ⊠ tmp1_s32 in
    let h1_test := h1_test ⊞ sp in
    ((if k =? 0 then np else np0, if k =? 0 then sp else sp0), (h0_test, h1_test), (dN, dS)))
    ((0, 0), (0, 0), (dN, dS)).

(** Conditional probability of the first Gaussian, Q14. *)
Definition conditional (p0 h : Z) : Z :=
  let tmp1_s32 := s32 (Z.land (u32 p0) 0xFFFFF000 ≪ 2) in
  s16 (WebRtcSpl_DivW32W16 tmp1_s32 h).

Definition lrt_channel (self : VadInstT) (features : list Z) (individualTest channel : Z)
    (a : Lrt) : Lrt :=
  let '((np0, sp0), (h0_test, h1_test), (dN, dS)) :=
    lrt_gaussians self (features.[channel]) channel (deltaN a) (deltaS a) in
  let shifts_h0 := if h0_test =? 0 then 31 else WebRtcSpl_NormW32 h0_test in
  let shifts_h1 := if h1_test =? 0 then 31 else WebRtcSpl_NormW32 h1_test in
  let log_likelihood_ratio := s16 (shifts_h0 - shifts_h1) in
  let sum := sum_log_likelihood_ratios a ⊞ log_likelihood_ratio * kSpectrumWeight.[channel] in
  let flag := if log_likelihood_ratio * 4 >? individualTest then 1 else vadflag a in
  let h0 := s16 (h0_test ≫ 12) in
  let ng :=
    if h0 >? 0 then
      let ng := wr (ngprvec a) channel (conditional np0 h0) in
      wr ng (channel + kNumChannels) (s16 (16384 - ng.[channel]))
    else wr (ngprvec a) channel 16384 in
  let h1 := s16 (h1_test ≫ 12) in
  let sg :=
    if h1 >? 0 then
      let sg := wr (sgprvec a) channel (conditional sp0 h1) in
      wr sg (channel + kNumChannels) (s16 (16384 - sg.[channel]))
    else sgprvec a in
  mkLrt sum flag dN dS ng sg.

(** The decision: local tests per channel and the global test. *)
Definition lrt (self : VadInstT) (features : list Z) (individualTest totalTest : Z) : Lrt :=
  let a := for_up 0 6 (lrt_channel self features individualTest) Lrt_init in
  mkLrt (sum_log_likelihood_ratios a)
    (Z.lor (vadflag a) (if sum_log_likelihood_ratios a >=? totalTest then 1 else 0))
    (deltaN a) (deltaS a) (ngprvec a) (sgprvec a).

(** New mean of the noise Gaussian [k]. *)
Definition noise_mean_update (flag ng dN feature_minimum tmp1_s16 nmk k channel : Z) : Z :=
  let nmk2 :=
    if flag =? 0 then
      let delt := s16 ((ng * dN) ≫ 11) in
      s16 (nmk + s16 ((delt * kNoiseUpdateConst) ≫ 22))
    else nmk in
  let ndelt := s16 ((feature_minimum ≪ 4) - tmp1_s16) in
  let nmk3 := s16 (nmk2 + s16 ((ndelt * kBackEta) ≫ 9)) in
  let tmp_s16 := s16 ((k + 5) ≪ 7) in
  let nmk3 := if nmk3 <? tmp_s16 then tmp_s16 else nmk3 in
  let tmp_s16 := s16 ((72 + k - channel) ≪ 7) in
  if nmk3 >? tmp_s16 then tmp_s16 else nmk3.

Definition speech_mean_update (sg dS smk maxspe k : Z) : Z :=
  let delt := s16 ((sg * dS) ≫ 11) in
  let tmp_s16 := s16 ((delt * kSpeechUpdateConst) ≫ 21) in
  let smk2 := s16 (smk + ((tmp_s16 + 1) ≫ 1)) in
  let maxmu := s16 (maxspe + 640) in
  let smk2 := if smk2 <? kMinimumMean.[k] then kMinimumMean.[k] else smk2 in
  if smk2 >? maxmu then maxmu else smk2.

(** The quotient of an update by its divisor, rounded towards zero, as [int16_t]. *)
Definition signed_div (x den : Z) : Z :=
  if x >? 0 then s16 (WebRtcSpl_DivW32W16 x den)
  else s16 (- s16 (WebRtcSpl_DivW32W16 (neg32 x) den)).

Definition speech_std_update (sg dS feature smk ssk : Z) : Z :=
  let tmp_s16 := s16 ((smk + 4) ≫ 3) in
  let tmp_s16 := s16 (feature - tmp_s16) in
  let tmp1_s32 := (dS * tmp_s16) ≫ 3 in
  let tmp2_s32 := tmp1_s32 ⊟ 4096 in
  let tmp_s16 := sg ≫ 2 in
  let tmp1_s32 := tmp_s16 ⊠ tmp2_s32 in
  let tmp2_s32 := tmp1_s32 ≫ 4 in
  let tmp_s16 := signed_div tmp2_s32 (s16 (ssk * 10)) in
  let tmp_s16 := s16 (tmp_s16 + 128) in
  let ssk := s16 (ssk + (tmp_s16 ≫ 8)) in
  if ssk <? kMinStd then kMinStd else ssk.

Definition noise_std_update (ng dN feature nmk nsk : Z) : Z :=
  let tmp_s16 := s16 (feature - (nmk ≫ 3)) in
  let tmp1_s32 := (dN * tmp_s16) ≫ 3 in
  let tmp1_s32 := tmp1_s32 ⊟ 4096 in
  let tmp_s16 := s16 ((ng + 2) ≫ 2) in
  let tmp2_s32 := OverflowingMulS16ByS32ToS32 tmp_s16 tmp1_s32 in
  let tmp1_s32 := tmp2_s32 ≫ 14 in
  let tmp_s16 := signed_div tmp1_s32 nsk in
  let tmp_s16 := s16 (tmp_s16 + 32) in
  let nsk := s16 (nsk + (tmp_s16 ≫ 6)) in
  if nsk <? kMinStd then kMinStd else nsk.

(** The update of Gaussian [k] of [channel]. *)
Definition update_gaussian (a : Lrt) (features : list Z)
    (feature_minimum tmp1_s16 maxspe channel k : Z) (self : VadInstT) : VadInstT :=
  let gaussian := channel + k * kNumChannels in
  let nmk := (noise_means self).[gaussian] in
  let smk := (speech_means self).[gaussian] in
  let nsk := (noise_stds self).[gaussian] in
  let ssk := (speech_stds self).[gaussian] in
  let nmk3 := noise_mean_update (vadflag a) ((ngprvec a).[gaussian]) ((deltaN a).[gaussian])
                feature_minimum tmp1_s16 nmk k channel in
  let self := set_noise_means self (wr (noise_means self) gaussian nmk3) in
  if negb (vadflag a =? 0) then
    let smk2 := speech_mean_update ((sgprvec a).[gaussian]) ((deltaS a).[gaussian]) smk maxspe k in
    let self := set_speech_means self (wr (speech_means self) gaussian smk2) in
    let ssk := speech_std_update ((sgprvec a).[gaussian]) ((deltaS a).[gaussian])
                 (features.[channel]) smk ssk in
    set_speech_stds self (wr (speech_stds self) gaussian ssk)
  else
    let nsk := noise_std_update ((ngprvec a).[gaussian]) ((deltaN a).[gaussian])
                 (features.[channel]) nmk nsk in
    set_noise_stds self (wr (noise_stds self) gaussian nsk).

(** "Separate models if they are too close", returning both global means. *)
Definition separate_models (channel : Z) (self : VadInstT) : VadInstT * Z * Z :=
  let '(nm, noise_global_mean) := WeightedAverage (noise_means self) channel 0 kNoiseDataWeights in
  let self := set_noise_means self nm in
  let '(sm, speech_global_mean) := WeightedAverage (speech_means self) channel 0 kSpeechDataWeights in
  let self := set_speech_means self sm in
  let diff := s16 (s16 (speech_global_mean ≫ 9) - s16 (noise_global_mean ≫ 9)) in
  if diff <? kMinimumDifference.[channel] then
    let tmp_s16 := s16 (kMinimumDifference.[channel] - diff) in
    let tmp1_s16 := s16 ((13 * tmp_s16) ≫ 2) in
    let tmp2_s16 := s16 ((3 * tmp_s16) ≫ 2) in
    let '(sm, speech_global_mean) :=
      WeightedAverage (speech_means self) channel tmp1_s16 kSpeechDataWeights in
    let self := set_speech_means self sm in
    let '(nm, noise_global_mean) :=
      WeightedAverage (noise_means self) channel (s16 (- tmp2_s16)) kNoiseDataWeights in
    (set_noise_means self nm, speech_global_mean, noise_global_mean)
  else (self, speech_global_mean, noise_global_mean).

(** Subtract [x] from both Gaussians of a channel. *)
Definition shift_means (means : list Z) (channel x : Z) : list Z :=
  for_up 0 2 (λ k means,
    wr means (channel + k * kNumChannels) (s16 (means.[channel + k * kNumChannels] - x))) means.

(** "Control that the speech & noise means do not drift to much." *)
Definition limit_drift (channel speech_global_mean noise_global_mean : Z) (self : VadInstT)
    : VadInstT :=
  let maxspe := kMaximumSpeech.[channel] in
  let tmp2_s16 := s16 (speech_global_mean ≫ 7) in
  let self :=
    if tmp2_s16 >? maxspe then
      let tmp2_s16 := s16 (tmp2_s16 - maxspe) in
      set_speech_means self (shift_means (speech_means self) channel tmp2_s16)
    else self in
  let tmp2_s16 := s16 (noise_global_mean ≫ 7) in
  if tmp2_s16 >? kMaximumNoise.[channel] then
    let tmp2_s16 := s16 (tmp2_s16 - kMaximumNoise.[channel]) in
    set_noise_means self (shift_means (noise_means self) channel tmp2_s16)
  else self.

(** One turn of the update loop; [maxspe] is carried from the previous channel. *)
Definition update_channel (a : Lrt) (features : list Z) (channel : Z) (s : VadInstT * Z)
    : VadInstT * Z :=
  let '(self, maxspe) := s in
  let '(self, feature_minimum) := WebRtcVad_FindMinimum self (features.[channel]) channel in
  let '(nm, noise_global_mean) := WeightedAverage (noise_means self) channel 0 kNoiseDataWeights in
  let self := set_noise_means self nm in
  let tmp1_s16 := s16 (noise_global_mean ≫ 6) in
  let self := for_up 0 2 (update_gaussian a features feature_minimum tmp1_s16 maxspe channel) self in
  let '(self, speech_global_mean, noise_global_mean) := separate_models channel self in
  let self := limit_drift channel speech_global_mean noise_global_mean self in
  (self, kMaximumSpeech.[channel]).

Definition update_models (a : Lrt) (features : list Z) (self : VadInstT) : VadInstT :=
  let '(self, _) := for_up 0 6 (update_channel a features) (self, 12800) in
  set_frame_counter self (frame_counter self ⊞ 1).

(** "Smooth with respect to transition hysteresis": returns the decision. *)
Definition hangover (overhead1 overhead2 flag : Z) (over_hang num_of_speech : Z) : Z * (Z * Z) :=
  if flag =? 0 then
    if over_hang >? 0 then (s16 (2 + over_hang), (s16 (over_hang - 1), 0))
    else (flag, (over_hang, 0))
  else
    let num_of_speech := s16 (num_of_speech + 1) in
    if num_of_speech >? kMaxSpeechFrames then (flag, (overhead2, kMaxSpeechFrames))
    else (flag, (overhead1, num_of_speech)).

(** The thresholds are indexed by the frame length. *)
Definition threshold_index (frame_length : Z) : Z :=
  if frame_length =? 80 then 0 else if frame_length =? 160 then 1 else 2.

Definition GmmProbability (self : VadInstT) (features : list Z) (total_power frame_length : Z)
    : VadInstT * Z :=
  let i := threshold_index frame_length in
  let overhead1 := (over_hang_max_1 self).[i] in
  let overhead2 := (over_hang_max_2 self).[i] in
  let individualTest := (individual self).[i] in
  let totalTest := (total self).[i] in
  let '(self, flag) :=
    if total_power >? kMinEnergy then
      let a := lrt self features individualTest totalTest in
      (update_models a features self, vadflag a)
    else (self, 0) in
  let '(flag, (oh, num)) := hangover overhead1 overhead2 flag (over_hang self) (num_of_speech self) in
  (set_hang self oh num, flag).

(** Returns 0 or -1, and the instance. *)
Definition WebRtcVad_set_mode_core (self : VadInstT) (mode : Z) : Z * VadInstT :=
  if mode =? 0 then
    (0, set_thresholds self kOverHangMax1Q kOverHangMax2Q kLocalThresholdQ kGlobalThresholdQ)
  else if mode =? 1 then
    (0, set_thresholds self kOverHangMax1LBR kOverHangMax2LBR kLocalThresholdLBR kGlobalThresholdLBR)
  else if mode =? 2 then
    (0, set_thresholds self kOverHangMax1AGG kOverHangMax2AGG kLocalThresholdAGG kGlobalThresholdAGG)
  else if mode =? 3 then
    (0, set_thresholds self kOverHangMax1VAG kOverHangMax2VAG kLocalThresholdVAG kGlobalThresholdVAG)
  else (-1, self).

(** [self = None] is the null pointer. *)
Definition WebRtcVad_InitCore (self : option VadInstT) : Z * option VadInstT :=
  match self with
  | None => (-1, None)
  | Some self =>
      let self := set_vad self 1 in
      let self := set_frame_counter self 0 in
      let self := set_hang self 0 0 in
      let self := set_downsampling self (replicate 4 0) in
      let self := set_state_48_to_8 self WebRtcSpl_ResetResample48khzTo8khz in
      let self := set_noise_means self kNoiseDataMeans in
      let self := set_speech_means self kSpeechDataMeans in
      let self := set_noise_stds self kNoiseDataStds in
      let self := set_speech_stds self kSpeechDataStds in
      let self := set_minimum self (replicate 96 0) (replicate 96 10000) (replicate 6 1600) in
      let self := set_filters self (replicate 5 0) (replicate 5 0) (replicate 4 0) in
      let '(r, self) := WebRtcVad_set_mode_core self kDefaultMode in
      if negb (r =? 0) then (-1, Some self)
      else (0, Some (set_init_flag self kInitCheck))
  end.

Definition WebRtcVad_CalcVad8khz (inst : VadInstT) (speech_frame : list Z) (frame_length : Z)
    : VadInstT * Z :=
  let '(inst, feature_vector, total_power) :=
    WebRtcVad_CalculateFeatures inst (slice speech_frame 0 frame_length) in
  let '(inst, v) := GmmProbability inst feature_vector total_power frame_length in
  (set_vad inst v, v).

(** Words [i], [i + 1] of the downsampling filter states. *)
Definition ds_get (inst : VadInstT) (i : Z) : Z * Z :=
  ((downsampling_filter_states inst).[i], (downsampling_filter_states inst).[i + 1]).
Definition ds_put (inst : VadInstT) (i : Z) (s : Z * Z) : VadInstT :=
  set_downsampling inst (wr (wr (downsampling_filter_states inst) i s.1) (i + 1) s.2).

Definition WebRtcVad_CalcVad16khz (inst : VadInstT) (speech_frame : list Z) (frame_length : Z)
    : VadInstT * Z :=
  let '(speechNB, st) :=
    WebRtcVad_Downsampling (slice speech_frame 0 frame_length) (ds_get inst 0) in
  let inst := ds_put inst 0 st in
  let len := frame_length `div` 2 in
  WebRtcVad_CalcVad8khz inst speechNB len.

Definition WebRtcVad_CalcVad32khz (inst : VadInstT) (speech_frame : list Z) (frame_length : Z)
    : VadInstT * Z :=
  let '(speechWB, st) :=
    WebRtcVad_Downsampling (slice speech_frame 0 frame_length) (ds_get inst 2) in
  let inst := ds_put inst 2 st in
  let len := frame_length `div` 2 in
  let '(speechNB, st) := WebRtcVad_Downsampling (slice speechWB 0 len) (ds_get inst 0) in
  let inst := ds_put inst 0 st in
  let len := len `div` 2 in
  WebRtcVad_CalcVad8khz inst speechNB len.

(** Every turn of the loop passes the start of [speech_frame] to the resampler. *)
Definition WebRtcVad_CalcVad48khz (inst : VadInstT) (speech_frame : list Z) (frame_length : Z)
    : VadInstT * Z :=
  let kFrameLen10ms48khz := 480 in
  let kFrameLen10ms8khz := 80 in
  let num_10ms_frames := frame_length `div` kFrameLen10ms48khz in
  let '(inst, speech_nb, _) :=
    for_up 0 (Z.to_nat num_10ms_frames) (λ i '(inst, speech_nb, tmp_mem),
      let '(out, st, tmp_mem) :=
        WebRtcSpl_Resample48khzTo8khz (slice speech_frame 0 480) (state_48_to_8 inst) tmp_mem in
      (set_state_48_to_8 inst st, store speech_nb (i * kFrameLen10ms8khz) out, tmp_mem))
      (inst, replicate 240 0, replicate 736 0) in
  WebRtcVad_CalcVad8khz inst speech_nb (frame_length `div` 6).

(** * Lemmas *)

(** ** The model *)

Definition stds_ok (l : list Z) : Prop := length l = 12%nat ∧ Forall (λ x, 378 ≤ x ≤ 32767) l.
Definition means_ok (l : list Z) : Prop := length l = 12%nat ∧ Forall int16 l.

Definition model_ok (self : VadInstT) : Prop :=
  means_ok (noise_means self) ∧ means_ok (speech_means self) ∧
  stds_ok (noise_stds self) ∧ stds_ok (speech_stds self) ∧ minimum_inv self.

(** What the update of the model leaves alone. *)
Definition rest (self : VadInstT) :=
  (vad self, downsampling_filter_states self, state_48_to_8 self, over_hang self,
   num_of_speech self, upper_state self, lower_state self, hp_filter_state self,
   over_hang_max_1 self, over_hang_max_2 self, individual self, total self, init_flag self).

(** A step that keeps the model well formed and nothing else changed. *)
Definition updates (self self' : VadInstT) : Prop :=
  (model_ok self → model_ok self') ∧ rest self' = rest self.

#[export] Instance updates_preorder : PreOrder updates.
Proof.
  split; [done|]. intros a b c [H1 E1] [H2 E2]. split; [auto|congruence].
Qed.

Lemma set_noise_means_updates self l :
  (means_ok (noise_means self) → means_ok l) → updates self (set_noise_means self l).
Proof. intros H. split; [|done]. intros (A & B & C & D & E). exact (conj (H A) (conj B (conj C (conj D E)))). Qed.
Lemma set_speech_means_updates self l :
  (means_ok (speech_means self) → means_ok l) → updates self (set_speech_means self l).
Proof. intros H. split; [|done]. intros (A & B & C & D & E). exact (conj A (conj (H B) (conj C (conj D E)))). Qed.
Lemma set_noise_stds_updates self l :
  (stds_ok (noise_stds self) → stds_ok l) → updates self (set_noise_stds self l).
Proof. intros H. split; [|done]. intros (A & B & C & D & E). exact (conj A (conj B (conj (H C) (conj D E)))). Qed.
Lemma set_speech_stds_updates self l :
  (stds_ok (speech_stds self) → stds_ok l) → updates self (set_speech_stds self l).
Proof. intros H. split; [|done]. intros (A & B & C & D & E). exact (conj A (conj B (conj C (conj (H D) E)))). Qed.
Lemma set_frame_counter_updates self n : updates self (set_frame_counter self n).
Proof. done. Qed.

Lemma means_ok_wr l i v : means_ok l → int16 v → means_ok (wr l i v).
Proof. intros [L H] Hv. split; [by rewrite wr_length|by apply wr_Forall]. Qed.
Lemma stds_ok_wr l i v : stds_ok l → 378 ≤ v ≤ 32767 → stds_ok (wr l i v).
Proof. intros [L H] Hv. split; [by rewrite wr_length|by apply wr_Forall]. Qed.

Lemma WeightedAverage_means l c off w : means_ok l → means_ok (WeightedAverage l c off w).1.
Proof. intros H. simpl. repeat apply means_ok_wr; auto with cint. Qed.

Lemma shift_means_ok l c x : means_ok l → means_ok (shift_means l c x).
Proof. intros H. simpl. repeat apply means_ok_wr; auto with cint. Qed.

(** Every new deviation is an [int16_t] of at least [kMinStd]. *)
Lemma speech_std_update_range sg dS f smk ssk : 378 ≤ speech_std_update sg dS f smk ssk ≤ 32767.
Proof.
  unfold speech_std_update, kMinStd. set (x := s16 (ssk + _)).
  pose proof (s16_range (ssk + (s16 (signed_div ((sg ≫ 2 ⊠ ((dS * s16 (f - s16 ((smk + 4) ≫ 3))) ≫ 3 ⊟ 4096)) ≫ 4)
    (s16 (ssk * 10)) + 128) ≫ 8))) as H. fold x in H. destruct_ltb; cint.
Qed.
Lemma noise_std_update_range ng dN f nmk nsk : 378 ≤ noise_std_update ng dN f nmk nsk ≤ 32767.
Proof.
  unfold noise_std_update, kMinStd. set (y := s16 (signed_div _ _ + 32) ≫ 6).
  pose proof (s16_range (nsk + y)). destruct_ltb; cint.
Qed.

(** The noise mean is clamped to the band of its Gaussian, wherever it was. *)
Lemma noise_mean_update_range flag ng dN fm t nmk k channel :
  0 ≤ k < 2 → 0 ≤ channel < 6 →
  (k + 5) * 128 ≤ noise_mean_update flag ng dN fm t nmk k channel ≤ (72 + k - channel) * 128.
Proof.
  intros Hk Hc. unfold noise_mean_update. rewrite !(shiftl_mul _ 7) by lia. change (2 ^ 7) with 128.
  rewrite (s16_id ((k + 5) * 128)), (s16_id ((72 + k - channel) * 128)) by cint.
  set (x := s16 _). rewrite Z.gtb_ltb. destruct_ltb; lia.
Qed.

Lemma speech_mean_update_range sg dS smk maxspe k :
  0 ≤ k < 2 → 11392 ≤ maxspe ≤ 12800 →
  640 ≤ speech_mean_update sg dS smk maxspe k ≤ maxspe + 640.
Proof.
  intros Hk Hm. unfold speech_mean_update. rewrite (s16_id (maxspe + 640)) by cint.
  set (x := s16 (smk + _)). assert (640 ≤ kMinimumMean.[k] ≤ 768).
  { assert (k = 0 ∨ k = 1) as [->| ->] by lia; vm_compute; split; congruence. }
  rewrite Z.gtb_ltb. destruct_ltb; lia.
Qed.

Lemma update_gaussian_updates a fs fm t maxspe channel k self :
  0 ≤ k < 2 → 0 ≤ channel < 6 → 11392 ≤ maxspe ≤ 12800 →
  updates self (update_gaussian a fs fm t maxspe channel k self).
Proof.
  intros Hk Hc Hm. unfold update_gaussian. cbv zeta.
  set (g := channel + k * kNumChannels). set (nm := noise_mean_update _ _ _ _ _ _ _ _).
  assert (int16 nm) as Hn.
  { subst nm. match goal with |- int16 (noise_mean_update ?a ?b ?c ?d ?e ?f ?g ?h) =>
      pose proof (noise_mean_update_range a b c d e f g h Hk Hc) end. cint. }
  transitivity (set_noise_means self (wr (noise_means self) g nm)).
  { apply set_noise_means_updates. intros H. by apply means_ok_wr. }
  set (self1 := set_noise_means self _). destruct (negb _).
  - set (sm := speech_mean_update _ _ _ _ _).
    assert (int16 sm) as Hs.
    { subst sm. match goal with |- int16 (speech_mean_update ?a ?b ?c ?d ?e) =>
        pose proof (speech_mean_update_range a b c d e Hk Hm) end. cint. }
    transitivity (set_speech_means self1 (wr (speech_means self1) g sm)).
    { apply set_speech_means_updates. intros H. by apply means_ok_wr. }
    apply set_speech_stds_updates. intros H. apply stds_ok_wr; [exact H|apply speech_std_update_range].
  - apply set_noise_stds_updates. intros H. apply stds_ok_wr; [exact H|apply noise_std_update_range].
Qed.

Lemma separate_models_updates channel self : updates self (separate_models channel self).1.1.
Proof.
  unfold separate_models.
  pose proof (λ l, WeightedAverage_means l channel 0 kNoiseDataWeights) as H1.
  pose proof (λ l, WeightedAverage_means l channel 0 kSpeechDataWeights) as H2.
  specialize (H1 (noise_means self)). destruct (WeightedAverage (noise_means self) _ _ _) as [nm ng].
  set (self1 := set_noise_means self nm).
  assert (updates self self1) as U1 by by apply set_noise_means_updates.
  specialize (H2 (speech_means self1)). destruct (WeightedAverage (speech_means self1) _ _ _) as [sm sg].
  set (self2 := set_speech_means self1 sm).
  assert (updates self self2) as U2 by (etransitivity; [exact U1|by apply set_speech_means_updates]).
  destruct (_ <? _); [|exact U2].
  set (t1 := s16 ((13 * _) ≫ 2)). set (t2 := s16 (- _)).
  pose proof (WeightedAverage_means (speech_means self2) channel t1 kSpeechDataWeights) as H3.
  destruct (WeightedAverage (speech_means self2) _ _ _) as [sm' sg'].
  set (self3 := set_speech_means self2 sm').
  assert (updates self self3) as U3 by (etransitivity; [exact U2|by apply set_speech_means_updates]).
  pose proof (WeightedAverage_means (noise_means self3) channel t2 kNoiseDataWeights) as H4.
  destruct (WeightedAverage (noise_means self3) _ _ _) as [nm' ng'].
  etransitivity; [exact U3|]. by apply set_noise_means_updates.
Qed.

Lemma limit_drift_updates channel sg ng self : updates self (limit_drift channel sg ng self).
Proof.
  unfold limit_drift. set (self1 := if s16 (sg ≫ 7) >? _ then _ else self).
  assert (updates self self1) as U1.
  { subst self1. destruct (_ >? _); [|reflexivity]. apply set_speech_means_updates, shift_means_ok. }
  clearbody self1. destruct (_ >? _); [|exact U1]. etransitivity; [exact U1|].
  apply set_noise_means_updates, shift_means_ok.
Qed.

Lemma FindMinimum_updates self fv c :
  int16 fv → 0 ≤ c < 6 → updates self (WebRtcVad_FindMinimum self fv c).1.
Proof.
  intros Hf Hc.
  assert (∃ i l m, (WebRtcVad_FindMinimum self fv c).1 = set_minimum self i l m) as (i & l & m & E).
  { unfold WebRtcVad_FindMinimum. destruct (age_values _) as [sv age].
    destruct (insert_value _ _ _) as [sv' age']. eauto. }
  split; [|by rewrite E]. intros (A & B & C & D & F). rewrite E.
  refine (conj A (conj B (conj C (conj D _)))). rewrite <- E. by apply FindMinimum_inv.
Qed.

#[local] Opaque WebRtcVad_FindMinimum.

Definition features_ok (fs : list Z) : Prop := ∀ c, 0 ≤ c < 6 → int16 (fs.[c]).

Lemma update_channel_updates a fs channel s :
  features_ok fs → 0 ≤ channel < 6 → 11392 ≤ s.2 ≤ 12800 →
  updates s.1 (update_channel a fs channel s).1 ∧ 11392 ≤ (update_channel a fs channel s).2 ≤ 12800.
Proof.
  intros Hf Hc Hm. destruct s as [self maxspe]. cbn [fst snd] in *. unfold update_channel.
  pose proof (FindMinimum_updates self (fs.[channel]) channel (Hf channel Hc) Hc) as U1.
  destruct (WebRtcVad_FindMinimum self _ _) as [self1 fm]. cbn [fst] in U1.
  pose proof (WeightedAverage_means (noise_means self1) channel 0 kNoiseDataWeights) as H2.
  destruct (WeightedAverage (noise_means self1) _ _ _) as [nm ng].
  set (self2 := set_noise_means self1 nm).
  assert (updates self self2) as U2 by (etransitivity; [exact U1|by apply set_noise_means_updates]).
  set (upd := update_gaussian _ _ _ _ _ _).
  assert (updates self (for_up 0 2 upd self2)) as U3.
  { apply (for_up_inv (λ _ x, updates self x) 0 2 upd self2 U2). intros k x Hk Hx.
    etransitivity; [exact Hx|]. apply update_gaussian_updates; lia. }
  set (self3 := for_up 0 2 upd self2) in *.
  pose proof (separate_models_updates channel self3) as U4.
  destruct (separate_models channel self3) as [[self4 sg] ng']. cbn [fst] in U4.
  split; cbn [fst snd].
  - etransitivity; [exact U3|]. etransitivity; [exact U4|]. apply limit_drift_updates.
  - apply (check_range_dec (λ c, 11392 ≤ kMaximumSpeech.[c] ≤ 12800) 0 6 channel); [by vm_compute|lia].
Qed.

Lemma update_models_updates a fs self : features_ok fs → updates self (update_models a fs self).
Proof.
  intros Hf. unfold update_models.
  pose proof (for_up_inv (λ _ s, updates self s.1 ∧ 11392 ≤ s.2 ≤ 12800) 0 6
    (update_channel a fs) (self, 12800)) as H.
  destruct (for_up 0 6 _ _) as [self' m]. destruct H as [U _].
  - split; [done|simpl; lia].
  - intros c s Hc [U Hm]. destruct (update_channel_updates a fs c s) as [U' Hm']; [done|lia|done|].
    split; [|done]. etransitivity; [exact U|exact U'].
  - etransitivity; [exact U|]. apply set_frame_counter_updates.
Qed.

(** ** The decision *)

Lemma lrt_flag self fs ind tot : vadflag (lrt self fs ind tot) = 0 ∨ vadflag (lrt self fs ind tot) = 1.
Proof.
  unfold lrt. cbn [vadflag].
  assert (vadflag (for_up 0 6 (lrt_channel self fs ind) Lrt_init) = 0 ∨
          vadflag (for_up 0 6 (lrt_channel self fs ind) Lrt_init) = 1) as H.
  { apply (for_up_inv (λ _ a, vadflag a = 0 ∨ vadflag a = 1) 0 6 _ Lrt_init); [by left|].
    intros c a _ Ha. unfold lrt_channel.
    destruct (lrt_gaussians _ _ _ _ _) as [[[np0 sp0] [h0 h1]] [dN dS]]. cbn [vadflag].
    destruct (_ >? ind); auto. }
  destruct (_ >=? tot); destruct H as [-> | ->]; auto.
Qed.

(** Hangover: the invariant of its two counters and the decisions it can return. *)
Definition decision (v : Z) : Prop := v = 0 ∨ v = 1 ∨ 3 ≤ v ≤ 16.

Lemma hangover_inv oh1 oh2 flag oh num :
  1 ≤ oh1 ≤ 14 → 1 ≤ oh2 ≤ 14 → flag = 0 ∨ flag = 1 → 0 ≤ oh ≤ 14 → 0 ≤ num ≤ 6 →
  let '(v, (oh', num')) := hangover oh1 oh2 flag oh num in
  decision v ∧ 0 ≤ oh' ≤ 14 ∧ 0 ≤ num' ≤ 6 ∧ (flag = 1 → v = 1) ∧ (v = 0 ↔ flag = 0 ∧ oh = 0).
Proof.
  intros H1 H2 Hf Ho Hn. unfold hangover, kMaxSpeechFrames, decision.
  destruct Hf as [-> | ->]; simpl (_ =? _); cbv iota.
  - rewrite Z.gtb_ltb. destruct_ltb; [|lia]. rewrite !s16_id by cint. lia.
  - rewrite s16_id by cint. rewrite Z.gtb_ltb. destruct_ltb; lia.
Qed.

Definition hang_ok (self : VadInstT) : Prop :=
  0 ≤ over_hang self ≤ 14 ∧ 0 ≤ num_of_speech self ≤ 6 ∧
  ∀ i, 0 ≤ i < 3 → 1 ≤ (over_hang_max_1 self).[i] ≤ 14 ∧ 1 ≤ (over_hang_max_2 self).[i] ≤ 14.

Definition buffers_ok (self : VadInstT) : Prop :=
  length (downsampling_filter_states self) = 4%nat ∧ wf_48_8 (state_48_to_8 self) ∧
  length (upper_state self) = 5%nat ∧ length (lower_state self) = 5%nat ∧ length (hp_filter_state self) = 4%nat.

(** The invariant of an initialised instance. *)
Definition vad_inv (self : VadInstT) : Prop :=
  model_ok self ∧ hang_ok self ∧ buffers_ok self ∧ init_flag self = kInitCheck ∧ decision (vad self).

Lemma threshold_index_range n : 0 ≤ threshold_index n < 3.
Proof. unfold threshold_index. destruct (n =? 80), (n =? 160); lia. Qed.

Lemma GmmProbability_inv self fs power n :
  vad_inv self → features_ok fs →
  vad_inv (GmmProbability self fs power n).1 ∧ decision (GmmProbability self fs power n).2.
Proof.
  intros (Hm & Hh & Hb & Hi & Hv) Hf. unfold GmmProbability.
  pose proof (threshold_index_range n) as Hidx. set (i := threshold_index n) in *.
  destruct (proj2 (proj2 Hh) i Hidx) as [O1 O2].
  set (r := if power >? kMinEnergy then _ else _).
  assert (updates self r.1 ∧ (r.2 = 0 ∨ r.2 = 1)) as [[U E] Hfl].
  { subst r. destruct (_ >? _); cbn [fst snd].
    - split; [by apply update_models_updates|apply lrt_flag].
    - split; [reflexivity|by left]. }
  destruct r as [self1 flag]. cbn [fst snd] in *.
  assert (over_hang self1 = over_hang self ∧ num_of_speech self1 = num_of_speech self) as [-> ->]
    by (injection E; intros; split; congruence).
  destruct Hh as (Ho & Hn & Ht).
  pose proof (hangover_inv ((over_hang_max_1 self).[i]) ((over_hang_max_2 self).[i]) flag
    (over_hang self) (num_of_speech self) O1 O2 Hfl Ho Hn) as H.
  destruct (hangover _ _ _ _ _) as [v [oh num]]. destruct H as (Hd & Ho' & Hn' & _).
  cbn [fst snd]. split; [|done]. specialize (U Hm). injection E as E1 E2 E3 E4 E5 E6 E7 E8 E9 E10 E11 E12 E13.
  split; [exact U|]. split; [split; [exact Ho'|split; [exact Hn'|]]|].
  { cbn [set_hang over_hang_max_1 over_hang_max_2]. by rewrite E9, E10. }
  split; [|split; [|]].
  - unfold buffers_ok. cbn [set_hang downsampling_filter_states state_48_to_8 upper_state lower_state hp_filter_state].
    rewrite E2, E3, E6, E7, E8. exact Hb.
  - cbn [set_hang init_flag]. congruence.
  - cbn [set_hang vad]. congruence.
Qed.

(** ** The likelihood ratio test *)

(** The feature of channel [c] is near enough to its four Gaussians for the probabilities
    to be exact. *)
Definition near (self : VadInstT) (f c : Z) : Prop :=
  -4096 ≤ f ≤ 4095 ∧
  ∀ k, 0 ≤ k < 2 →
    Z.abs (8 * f - (noise_means self).[c + k * 6]) ≤ 18146 ∧
    Z.abs (8 * f - (speech_means self).[c + k * 6]) ≤ 18146.

Lemma probability_range f m s :
  378 ≤ s ≤ 32767 → -4096 ≤ f ≤ 4095 → Z.abs (8 * f - m) ≤ 18146 →
  0 ≤ (WebRtcVad_GaussianProbability f m s).1 ≤ 355328.
Proof.
  intros Hs Hf Hd. destruct (GaussianProbability_eq f m s Hs Hf Hd) as (_ & _ & Hr).
  destruct (inv_std_bounds s Hs) as [_ Hi]. lia.
Qed.

Lemma weights_range c k :
  0 ≤ c < 6 → 0 ≤ k < 2 →
  0 ≤ kNoiseDataWeights.[c + k * 6] ≤ 103 ∧ 0 ≤ kSpeechDataWeights.[c + k * 6] ≤ 87.
Proof.
  intros Hc Hk. apply (check_range_dec (λ g, 0 ≤ kNoiseDataWeights.[g] ≤ 103 ∧
    0 ≤ kSpeechDataWeights.[g] ≤ 87) 0 12 (c + k * 6)); [by vm_compute|lia].
Qed.

Lemma stds_rd l c k : stds_ok l → 0 ≤ c < 6 → 0 ≤ k < 2 → 378 ≤ l.[c + k * 6] ≤ 32767.
Proof.
  intros [L H] Hc Hk. pose proof (rd_lookup l (c + k * 6) ltac:(lia)) as E.
  exact (Forall_lookup_1 _ _ _ _ H E).
Qed.

Lemma lrt_gaussians_range self f c dN dS :
  stds_ok (noise_stds self) → stds_ok (speech_stds self) → near self f c → 0 ≤ c < 6 →
  let '((np0, sp0), (h0, h1), _) := lrt_gaussians self f c dN dS in
  0 ≤ np0 ≤ h0 ∧ h0 ≤ 74000000 ∧ 0 ≤ sp0 ≤ h1 ∧ h1 ≤ 74000000.
Proof.
  intros Hn Hs [Hf Hk] Hc. unfold lrt_gaussians, kNumChannels. cbn [for_up].
  change (0 + 1) with 1. change (0 =? 0) with true. change (1 =? 0) with false. cbv iota.
  destruct (Hk 0 ltac:(lia)) as [N0 S0]. destruct (Hk 1 ltac:(lia)) as [N1 S1].
  pose proof (probability_range f _ _ (stds_rd _ c 0 Hn Hc ltac:(lia)) Hf N0) as P1.
  pose proof (probability_range f _ _ (stds_rd _ c 0 Hs Hc ltac:(lia)) Hf S0) as P2.
  pose proof (probability_range f _ _ (stds_rd _ c 1 Hn Hc ltac:(lia)) Hf N1) as P3.
  pose proof (probability_range f _ _ (stds_rd _ c 1 Hs Hc ltac:(lia)) Hf S1) as P4.
  destruct (weights_range c 0 Hc ltac:(lia)) as [W1 W2].
  destruct (weights_range c 1 Hc ltac:(lia)) as [W3 W4].
  do 4 (destruct (WebRtcVad_GaussianProbability _ _ _) as [? ?]). cbn [fst] in *.
  set (w1 := kNoiseDataWeights.[c + 0 * 6]) in *. set (w2 := kSpeechDataWeights.[c + 0 * 6]) in *.
  set (w3 := kNoiseDataWeights.[c + 1 * 6]) in *. set (w4 := kSpeechDataWeights.[c + 1 * 6]) in *.
  clearbody w1 w2 w3 w4. rewrite !mul32_id by (unfold_ints; nia).
  rewrite !add32_id by (unfold_ints; rewrite ?add32_id by (unfold_ints; nia); nia). nia.
Qed.

(** The share of the first Gaussian is a Q14 fraction. *)
Lemma conditional_range p0 h :
  0 ≤ p0 ≤ h → h ≤ 74000000 → s16 (h ≫ 12) > 0 → 0 ≤ conditional p0 (s16 (h ≫ 12)) ≤ 16384.
Proof.
  intros Hp Hh. rewrite shiftr_div by lia. change (2 ^ 12) with 4096.
  rewrite s16_id by (unfold_ints; zdiv). intros Hpos. unfold conditional.
  rewrite u32_id by cint.
  assert (Z.land p0 0xFFFFF000 = p0 `div` 4096 * 4096) as ->.
  { apply Z.bits_inj'. intros n Hn. rewrite Z.land_spec.
    rewrite <- (Z.shiftl_mul_pow2 _ 12), <- (Z.shiftr_div_pow2 _ 12) by lia.
    change 0xFFFFF000 with (Z.ones 20 ≪ 12). destruct (Z.lt_ge_cases n 12).
    - rewrite !Z.shiftl_spec_low by lia. by rewrite andb_false_r.
    - rewrite !Z.shiftl_spec, Z.shiftr_spec by lia. replace (n - 12 + 12) with n by lia.
      destruct (Z.lt_ge_cases (n - 12) 20).
      + rewrite Z.ones_spec_low by lia. apply andb_true_r.
      + rewrite Z.ones_spec_high by lia. rewrite andb_false_r. symmetry.
        destruct (Z.eq_dec p0 0) as [->|]; [apply Z.bits_0|].
        apply Z.bits_above_log2; [lia|]. apply Z.log2_lt_pow2; [lia|].
        apply (Z.lt_le_trans _ (2 ^ 32)); [change (2 ^ 32) with 4294967296; lia|].
        apply Z.pow_le_mono_r; lia. }
  rewrite shiftl_mul by lia. change (2 ^ 2) with 4. set (q := p0 `div` 4096). set (d := h `div` 4096) in *.
  assert (0 ≤ q ≤ d) by (subst q d; zdiv). assert (d ≤ 18067) by (subst d; zdiv).
  rewrite s32_id by cint. unfold WebRtcSpl_DivW32W16. destruct (Z.eqb_spec d 0); [lia|].
  rewrite Z.quot_div_nonneg by lia.
  assert (0 ≤ (q * 4096 * 4) `div` d ≤ 16384) by (split; [apply Z.div_pos; lia|apply Z.div_le_upper_bound; lia]).
  rewrite s32_id, s16_id by cint. lia.
Qed.

(** Both conditional vectors after the channels below [c]. *)
Definition lrt_inv (c : Z) (a : Lrt) : Prop :=
  length (ngprvec a) = 12%nat ∧ length (sgprvec a) = 12%nat ∧
  (∀ i, 0 ≤ i < 6 →
     (c ≤ i → (ngprvec a).[i + 6] = 0 ∧ (sgprvec a).[i] = 0 ∧ (sgprvec a).[i + 6] = 0) ∧
     (i < c → 0 ≤ (ngprvec a).[i] ≤ 16384 ∧ (ngprvec a).[i] + (ngprvec a).[i + 6] = 16384 ∧
        ((0 ≤ (sgprvec a).[i] ≤ 16384 ∧ (sgprvec a).[i] + (sgprvec a).[i + 6] = 16384) ∨
         ((sgprvec a).[i] = 0 ∧ (sgprvec a).[i + 6] = 0)))) ∧
  Z.abs (sum_log_likelihood_ratios a) ≤ c * 496.

(** A pair of conditionals written for channel [c]. *)
Lemma write_pair l c x i :
  length l = 12%nat → 0 ≤ c < 6 → 0 ≤ x ≤ 16384 → 0 ≤ i < 6 →
  let l' := wr (wr l c x) (c + kNumChannels) (s16 (16384 - (wr l c x).[c])) in
  length l' = 12%nat ∧
  (i ≠ c → l'.[i] = l.[i] ∧ l'.[i + 6] = l.[i + 6]) ∧
  (i = c → l'.[i] = x ∧ l'.[i + 6] = 16384 - x).
Proof.
  intros L Hc Hx Hi. unfold kNumChannels. cbv zeta. rewrite (rd_wr_eq l c) by lia.
  rewrite s16_id by cint. rewrite !wr_length. split; [done|]. split.
  - intros Hne. rewrite !rd_wr_ne by lia. done.
  - intros ->. rewrite rd_wr_ne, !rd_wr_eq by (rewrite ?wr_length; lia). done.
Qed.

Lemma shifts_range h : 0 ≤ h ≤ 74000000 → 0 ≤ (if h =? 0 then 31 else WebRtcSpl_NormW32 h) ≤ 31.
Proof.
  intros Hh. destruct (Z.eqb_spec h 0); [lia|].
  destruct (NormW32_bounds_pos h) as (H & _); [lia|cint|]. lia.
Qed.

Lemma lrt_channel_inv self fs ind c a :
  stds_ok (noise_stds self) → stds_ok (speech_stds self) → near self (fs.[c]) c → 0 ≤ c < 6 →
  lrt_inv c a → lrt_inv (c + 1) (lrt_channel self fs ind c a).
Proof.
  intros Hn Hs Hnear Hc (L1 & L2 & Hi & Hsum). unfold lrt_channel.
  pose proof (lrt_gaussians_range self (fs.[c]) c (deltaN a) (deltaS a) Hn Hs Hnear Hc) as HG.
  destruct (lrt_gaussians _ _ _ _ _) as [[[np0 sp0] [h0 h1]] [dN dS]].
  destruct HG as (G1 & G2 & G3 & G4).
  pose proof (shifts_range h0 ltac:(lia)) as S0. pose proof (shifts_range h1 ltac:(lia)) as S1.
  set (sh0 := if h0 =? 0 then _ else _) in *. set (sh1 := if h1 =? 0 then _ else _) in *.
  cbv zeta. rewrite (s16_id (sh0 - sh1)) by cint.
  unfold lrt_inv. cbn [ngprvec sgprvec sum_log_likelihood_ratios].
  pose proof (conditional_range np0 h0 ltac:(lia) G2) as C0.
  pose proof (conditional_range sp0 h1 ltac:(lia) G4) as C1.
  set (x0 := conditional np0 _) in *. set (x1 := conditional sp0 _) in *.
  rewrite !Z.gtb_ltb.
  set (ng := if 0 <? s16 (h0 ≫ 12) then _ else wr _ _ 16384). set (sg := if 0 <? s16 (h1 ≫ 12) then _ else sgprvec a).
  assert (∀ i, 0 ≤ i < 6 → length ng = 12%nat ∧
    (i ≠ c → ng.[i] = (ngprvec a).[i] ∧ ng.[i + 6] = (ngprvec a).[i + 6]) ∧
    (i = c → 0 ≤ ng.[i] ≤ 16384 ∧ ng.[i] + ng.[i + 6] = 16384)) as HN.
  { intros i Hii. subst ng. destruct (Z.ltb_spec 0 (s16 (h0 ≫ 12))).
    - destruct (write_pair (ngprvec a) c x0 i L1 Hc (C0 ltac:(lia)) Hii) as (P1 & P2 & P3).
      split; [done|]. split; [done|]. intros E. destruct (P3 E) as [-> ->]. specialize (C0 ltac:(lia)). lia.
    - rewrite wr_length. split; [done|]. split; [intros; rewrite !rd_wr_ne by lia; done|].
      intros ->. rewrite rd_wr_eq, rd_wr_ne by lia.
      destruct (Hi c Hc) as [Hz _]. destruct (Hz ltac:(lia)) as [-> _]. lia. }
  assert (∀ i, 0 ≤ i < 6 → length sg = 12%nat ∧
    (i ≠ c → sg.[i] = (sgprvec a).[i] ∧ sg.[i + 6] = (sgprvec a).[i + 6]) ∧
    (i = c → (0 ≤ sg.[i] ≤ 16384 ∧ sg.[i] + sg.[i + 6] = 16384) ∨ (sg.[i] = 0 ∧ sg.[i + 6] = 0))) as HS.
  { intros i Hii. subst sg. destruct (Z.ltb_spec 0 (s16 (h1 ≫ 12))).
    - destruct (write_pair (sgprvec a) c x1 i L2 Hc (C1 ltac:(lia)) Hii) as (P1 & P2 & P3).
      split; [done|]. split; [done|]. intros E. destruct (P3 E) as [-> ->]. specialize (C1 ltac:(lia)). lia.
    - split; [done|]. split; [done|]. intros ->. destruct (Hi c Hc) as [Hz _]. destruct (Hz ltac:(lia)) as (_ & -> & ->). by right. }
  split; [apply (HN c Hc)|]. split; [apply (HS c Hc)|]. split.
  - intros i Hii. destruct (HN i Hii) as (_ & N1 & N2), (HS i Hii) as (_ & S2 & S3), (Hi i Hii) as [I1 I2].
    split; intros Hlt.
    + destruct (N1 ltac:(lia)) as [_ ->], (S2 ltac:(lia)) as [-> ->]. apply I1. lia.
    + destruct (Z.eq_dec i c) as [E|Hne].
      * destruct (N2 E). split; [done|]. split; [done|]. by apply S3.
      * destruct (N1 Hne) as [-> ->], (S2 Hne) as [-> ->]. apply I2. lia.
  - assert (0 ≤ kSpectrumWeight.[c] ≤ 16) as Hw.
    { apply (check_range_dec (λ c, 0 ≤ kSpectrumWeight.[c] ≤ 16) 0 6 c); [by vm_compute|lia]. }
    assert (Z.abs ((sh0 - sh1) * kSpectrumWeight.[c]) ≤ 496) by nia.
    rewrite add32_id by cint. lia.
Qed.

(** ** Entry points *)

Lemma CalcVad8khz_inv self frame n :
  vad_inv self → n ≤ 240 →
  vad_inv (WebRtcVad_CalcVad8khz self frame n).1 ∧
  decision (WebRtcVad_CalcVad8khz self frame n).2.
Proof.
  intros Hinv Hn. unfold WebRtcVad_CalcVad8khz.
  pose proof (CalculateFeatures_range self (slice frame 0 n)) as H.
  destruct (WebRtcVad_CalculateFeatures self (slice frame 0 n)) as [[self1 fs] power].
  destruct H as (L & Hf & Hp & E & L1 & L2 & L3).
  { unfold slice. rewrite length_take. lia. }
  assert (vad_inv self1) as H1.
  { destruct Hinv as (Hm & Hh & Hb & Hi & Hv). rewrite E.
    split; [exact Hm|]. split; [exact Hh|]. split; [|done].
    destruct Hb as (B1 & B2 & B3 & B4 & B5). unfold buffers_ok.
    cbn [set_filters downsampling_filter_states state_48_to_8 upper_state lower_state hp_filter_state].
    split; [done|]. split; [done|]. split; [congruence|]. split; congruence. }
  destruct (GmmProbability_inv self1 fs power n H1) as [H2 Hd].
  { intros c Hc. specialize (Hf c Hc). unfold feature_ok in Hf.
    assert (0 ≤ kOffsetVector.[c] ≤ 368).
    { apply (check_range_dec (λ c, 0 ≤ kOffsetVector.[c] ≤ 368) 0 6 c); [by vm_compute|lia]. }
    cint. }
  destruct (GmmProbability self1 fs power n) as [self2 v]. cbn [fst snd] in *. split; [|done].
  destruct H2 as (Hm & Hh & Hb & Hi & _). by repeat (split; [done|]).
Qed.

Lemma ds_put_inv self i s : vad_inv self → vad_inv (ds_put self i s).
Proof.
  intros (Hm & Hh & (B1 & B2 & B3) & Hi & Hv). split; [done|]. split; [done|]. split; [|done].
  split; [|done]. unfold ds_put. cbn [set_downsampling downsampling_filter_states].
  by rewrite !wr_length.
Qed.

Lemma CalcVad16khz_inv self frame n :
  vad_inv self → n ≤ 480 →
  vad_inv (WebRtcVad_CalcVad16khz self frame n).1 ∧
  decision (WebRtcVad_CalcVad16khz self frame n).2.
Proof.
  intros Hinv Hn. unfold WebRtcVad_CalcVad16khz. destruct (WebRtcVad_Downsampling _ _) as [nb st].
  apply CalcVad8khz_inv; [by apply ds_put_inv|zdiv].
Qed.

Lemma CalcVad32khz_inv self frame n :
  vad_inv self → n ≤ 960 →
  vad_inv (WebRtcVad_CalcVad32khz self frame n).1 ∧
  decision (WebRtcVad_CalcVad32khz self frame n).2.
Proof.
  intros Hinv Hn. unfold WebRtcVad_CalcVad32khz.
  destruct (WebRtcVad_Downsampling _ (ds_get self 2)) as [wb st].
  destruct (WebRtcVad_Downsampling _ (ds_get (ds_put self 2 st) 0)) as [nb st'].
  apply CalcVad8khz_inv; [by apply ds_put_inv, ds_put_inv|zdiv].
Qed.

Lemma set_state_48_to_8_inv self st :
  wf_48_8 st → vad_inv self → vad_inv (set_state_48_to_8 self st).
Proof.
  intros Hw (Hm & Hh & (B1 & B2 & B3) & Hi & Hv). split; [done|]. split; [done|].
  split; [|done]. by split.
Qed.

#[local] Opaque WebRtcSpl_Resample48khzTo8khz cascade_48_8.

Lemma CalcVad48khz_inv self frame n :
  vad_inv self → n ≤ 1440 → 480 ≤ zlen frame →
  vad_inv (WebRtcVad_CalcVad48khz self frame n).1 ∧
  decision (WebRtcVad_CalcVad48khz self frame n).2.
Proof.
  intros Hinv Hn Hl. unfold WebRtcVad_CalcVad48khz. cbv zeta.
  set (body := λ (i : Z) '(inst, speech_nb, tmp_mem), _).
  pose proof (for_up_inv (λ _ s, vad_inv s.1.1 ∧ length s.2 = 736%nat) 0
    (Z.to_nat (n `div` 480)) body (self, replicate 240 0, replicate 736 0)) as H.
  destruct (for_up 0 _ body _) as [[self1 nb] mem]. destruct H as [H1 _].
  - split; [done|]. cbn [snd]. apply length_replicate.
  - intros i [[inst nb'] mem'] _ [Hi Hm]. cbn [fst snd] in *. subst body. cbv beta iota.
    destruct (Resample48khzTo8khz_cascade (slice frame 0 480) (state_48_to_8 inst) mem')
      as (E1 & E2 & _ & E4); [rewrite slice_length; lia|apply Hi|lia|].
    destruct (WebRtcSpl_Resample48khzTo8khz _ _ _) as [[out st] mem'']. cbn [fst snd] in *.
    split; [|congruence]. apply set_state_48_to_8_inv; [|done]. rewrite <- E1 in E4. exact E4.
  - apply CalcVad8khz_inv; [exact H1|zdiv].
Qed.

Lemma set_mode_core_inv self mode :
  vad_inv self → vad_inv (WebRtcVad_set_mode_core self mode).2.
Proof.
  intros (Hm & (Ho & Hn & Ht) & Hb & Hi & Hv).
  assert (∀ a b i t, check_range (λ j, bool_decide (1 ≤ a.[j] ≤ 14 ∧ 1 ≤ b.[j] ≤ 14)) 0 3 = true →
    vad_inv (set_thresholds self a b i t)) as H.
  { intros a b i t Hc. split; [done|]. split; [|done]. split; [done|]. split; [done|].
    cbn [set_thresholds over_hang_max_1 over_hang_max_2].
    intros j Hj. exact (check_range_dec (λ j, 1 ≤ a.[j] ≤ 14 ∧ 1 ≤ b.[j] ≤ 14) 0 3 j Hc ltac:(lia)). }
  unfold WebRtcVad_set_mode_core.
  destruct (mode =? 0), (mode =? 1), (mode =? 2), (mode =? 3); cbn [snd];
    first [apply H; by vm_compute|by repeat (split; [done|])].
Qed.

Lemma InitCore_inv self :
  ∃ self', WebRtcVad_InitCore (Some self) = (0, Some self') ∧ vad_inv self'.
Proof.
  eexists. split; [reflexivity|].
  split.
  { split; [split; [done|]; repeat constructor; cint|].
    split; [split; [done|]; repeat constructor; cint|].
    split; [split; [done|]; repeat constructor; lia|].
    split; [split; [done|]; repeat constructor; lia|].
    apply minimum_invb_sound. by vm_compute. }
  split.
  { split; [done|]. split; [done|]. intros i Hi.
    apply (check_range_dec (λ i, 1 ≤ kOverHangMax1Q.[i] ≤ 14 ∧ 1 ≤ kOverHangMax2Q.[i] ≤ 14) 0 3 i);
      [by vm_compute|lia]. }
  split; [by repeat split|]. split; [done|]. right. by left.
Qed.

(** * Properties *)

(** The likelihood ratio test produces conditional probabilities: for every channel whose
    feature is near its Gaussians, the two noise conditionals are Q14 fractions that add up to
    exactly one, the two speech conditionals are the same or both zero, and the weighted sum of
    log likelihood ratios stays within 2976, so no sum or quotient of the test overflows; the
    raw decision is 0 or 1. *)
Lemma lrt_conditionals self fs ind tot :
  stds_ok (noise_stds self) → stds_ok (speech_stds self) →
  (∀ c, 0 ≤ c < 6 → near self (fs.[c]) c) →
  let a := lrt self fs ind tot in
  (∀ i, 0 ≤ i < 6 →
     0 ≤ (ngprvec a).[i] ≤ 16384 ∧ (ngprvec a).[i] + (ngprvec a).[i + 6] = 16384 ∧
     ((0 ≤ (sgprvec a).[i] ≤ 16384 ∧ (sgprvec a).[i] + (sgprvec a).[i + 6] = 16384) ∨
      ((sgprvec a).[i] = 0 ∧ (sgprvec a).[i + 6] = 0))) ∧
  Z.abs (sum_log_likelihood_ratios a) ≤ 2976 ∧ (vadflag a = 0 ∨ vadflag a = 1).
Proof.
  intros Hn Hs Hnear. cbv zeta.
  assert (lrt_inv 6 (for_up 0 6 (lrt_channel self fs ind) Lrt_init)) as H.
  { apply (for_up_inv lrt_inv 0 6 (lrt_channel self fs ind) Lrt_init).
    - split; [done|]. split; [done|]. split; [|done]. intros i Hi. split; [|lia]. intros _.
      unfold Lrt_init. cbn [ngprvec sgprvec].
      apply (check_range_dec (λ i, (replicate 12 0).[i + 6] = 0 ∧ (replicate 12 0).[i] = 0 ∧
        (replicate 12 0).[i + 6] = 0) 0 6 i); [by vm_compute|lia].
    - intros c a Hc Ha. apply lrt_channel_inv; first [done|apply Hnear; lia|lia]. }
  pose proof (lrt_flag self fs ind tot) as Hf. revert H Hf. unfold lrt.
  generalize (for_up 0 6 (lrt_channel self fs ind) Lrt_init) as a. intros a (_ & _ & Hi & Hsum) Hf.
  cbn [ngprvec sgprvec sum_log_likelihood_ratios]. split; [|split; [lia|exact Hf]].
  intros i Hii. apply (Hi i Hii). lia.
Qed.

(** An initialised instance, from any memory content. *)
Definition fresh (self : VadInstT) : VadInstT := default self (WebRtcVad_InitCore (Some self)).2.
Definition blank : VadInstT :=
  mkVadInstT 0 [] WebRtcSpl_ResetResample48khzTo8khz [] [] [] [] 0 0 0 [] [] [] [] [] [] [] [] [] [] 0.

Lemma lrt_conditionals_witness :
  let a := lrt (fresh blank) [900; 700; 950; 1000; 1100; 600] 24 57 in
  (∀ i, 0 ≤ i < 6 →
     0 ≤ (ngprvec a).[i] ≤ 16384 ∧ (ngprvec a).[i] + (ngprvec a).[i + 6] = 16384 ∧
     ((0 ≤ (sgprvec a).[i] ≤ 16384 ∧ (sgprvec a).[i] + (sgprvec a).[i + 6] = 16384) ∨
      ((sgprvec a).[i] = 0 ∧ (sgprvec a).[i + 6] = 0))) ∧
  Z.abs (sum_log_likelihood_ratios a) ≤ 2976 ∧ (vadflag a = 0 ∨ vadflag a = 1).
Proof.
  apply (lrt_conditionals (fresh blank) [900; 700; 950; 1000; 1100; 600] 24 57).
  - split; [done|]. repeat constructor; lia.
  - split; [done|]. repeat constructor; lia.
  - intros c Hc.
    assert (check_range (λ c, (let f := [900; 700; 950; 1000; 1100; 600].[c] in
      (-4096 <=? f) && (f <=? 4095) && check_range (λ k,
        (Z.abs (8 * f - (noise_means (fresh blank)).[c + k * 6]) <=? 18146) &&
        (Z.abs (8 * f - (speech_means (fresh blank)).[c + k * 6]) <=? 18146)) 0 2)) 0 6 = true) as H
      by (vm_compute; reflexivity).
    pose proof (check_range_spec _ 0 6 c H ltac:(lia)) as H1. cbv zeta in H1.
    apply andb_prop in H1 as [H1 H2]. apply andb_prop in H1 as [H3 H4].
    split; [lia|]. intros k Hk. pose proof (check_range_spec _ 0 2 k H2 ltac:(lia)) as H5.
    apply andb_prop in H5. lia.
Defined.

(** Decisions of the hangover machine over a sequence of raw flags. *)
Definition hang_step (oh1 oh2 : Z) (s : Z * Z) (flag : Z) : (Z * Z) * Z :=
  let '(v, s') := hangover oh1 oh2 flag s.1 s.2 in (s', v).

Lemma hang_speech oh1 oh2 m oh num :
  0 ≤ num ≤ 6 →
  run (hang_step oh1 oh2) (oh, num) (replicate (S m) 1) =
    ((if num + Z.of_nat (S m) >? 6 then oh2 else oh1, Z.min 6 (num + Z.of_nat (S m))),
     replicate (S m) 1).
Proof.
  revert oh num. induction m as [|m IH]; intros oh num Hn.
  - cbn [replicate run]. unfold hang_step, hangover, kMaxSpeechFrames. cbn [fst snd].
    change (1 =? 0) with false. change (Z.of_nat 1) with 1. cbv iota. rewrite s16_id by cint.
    destruct (Z.gtb_spec (num + 1) 6); repeat f_equal; lia.
  - change (replicate (S (S m)) 1) with (1 :: replicate (S m) 1). cbn [run].
    unfold hang_step at 1, hangover, kMaxSpeechFrames. cbn [fst snd]. simpl (1 =? 0). cbv iota.
    rewrite s16_id by cint. destruct (Z.gtb_spec (num + 1) 6).
    + rewrite IH by lia.
      destruct (Z.gtb_spec (6 + Z.of_nat (S m)) 6), (Z.gtb_spec (num + Z.of_nat (S (S m))) 6); try lia.
      replace (Z.min 6 (num + Z.of_nat (S (S m)))) with (Z.min 6 (6 + Z.of_nat (S m))) by lia. done.
    + rewrite IH by lia. replace (num + 1 + Z.of_nat (S m)) with (num + Z.of_nat (S (S m))) by lia. done.
Qed.

Lemma hang_noise oh1 oh2 j oh num :
  0 ≤ oh ≤ 14 →
  (run (hang_step oh1 oh2) (oh, num) (replicate j 0)).2 =
    map (λ t : nat, if Z.of_nat t <? oh then 2 + (oh - Z.of_nat t) else 0) (seq 0 j).
Proof.
  revert oh num. induction j as [|j IH]; intros oh num Ho; [done|].
  cbn [replicate seq map run]. unfold hang_step at 1, hangover. cbn [fst snd]. simpl (0 =? 0). cbv iota.
  rewrite <- seq_shift, map_map. destruct (Z.gtb_spec oh 0).
  - rewrite !s16_id by cint. specialize (IH (oh - 1) 0 ltac:(lia)).
    destruct (run _ _ _) as [s o]. cbn [snd] in *. rewrite IH. f_equal.
    + destruct (Z.ltb_spec (Z.of_nat 0) oh); [simpl; lia|lia].
    + apply map_ext. intros t.
      destruct (Z.ltb_spec (Z.of_nat t) (oh - 1)), (Z.ltb_spec (Z.of_nat (S t)) oh); lia.
  - specialize (IH oh 0 ltac:(lia)). destruct (run _ _ _) as [s o]. cbn [snd] in *. rewrite IH.
    f_equal; [destruct (Z.ltb_spec (Z.of_nat 0) oh); [lia|done]|].
    apply map_ext. intros t. destruct_ltb; lia.
Qed.

(** C27: the hangover machine: from any state, a burst of [m] speech frames followed by [j]
    noise frames is reported as [m] active frames, then as active (with value 3 and more, the
    remaining hangover plus two) for exactly [overhead2] more frames if the burst, with the
    speech frames counted before it, exceeds six frames, and [overhead1] otherwise, and as
    inactive from then on. *)
Theorem hangover_burst oh1 oh2 oh num m j :
  0 ≤ oh1 ≤ 14 → 0 ≤ oh2 ≤ 14 → 0 ≤ num ≤ 6 →
  let H := if num + Z.of_nat (S m) >? kMaxSpeechFrames then oh2 else oh1 in
  (run (hang_step oh1 oh2) (oh, num) (replicate (S m) 1 ++ replicate j 0)).2 =
    replicate (S m) 1 ++
    map (λ t : nat, if Z.of_nat t <? H then 2 + (H - Z.of_nat t) else 0) (seq 0 j).
Proof.
  intros H1 H2 Hn. cbv zeta. unfold kMaxSpeechFrames. rewrite run_app, hang_speech by done.
  set (H := if _ >? 6 then oh2 else oh1). assert (0 ≤ H ≤ 14) as HH by (subst H; destruct (_ >? 6); lia).
  pose proof (hang_noise oh1 oh2 j H (Z.min 6 (num + Z.of_nat (S m))) HH) as E.
  destruct (run _ (H, _) _) as [s o]. cbn [snd] in *. by rewrite E.
Qed.

Lemma hangover_burst_witness :
  (run (hang_step 8 14) (0, 5) (replicate 2 1 ++ replicate 16 0)).2 =
    replicate 2 1 ++
    map (λ t : nat, if Z.of_nat t <? 14 then 2 + (14 - Z.of_nat t) else 0) (seq 0 16).
Proof. apply (hangover_burst 8 14 0 5 1 16); lia. Defined.

(** A frame below the energy threshold leaves the statistical model, the frame counter and
    the thresholds unchanged; only the hangover counters move, and the frame is reported
    active exactly while hangover remains. *)
Lemma GmmProbability_quiet self fs power n :
  power ≤ kMinEnergy → 0 ≤ over_hang self ≤ 14 →
  let '(self', v) := GmmProbability self fs power n in
  self' = set_hang self (Z.max 0 (over_hang self - 1)) 0 ∧
  v = if over_hang self =? 0 then 0 else over_hang self + 2.
Proof.
  intros Hp Ho. unfold GmmProbability. destruct (Z.gtb_spec power kMinEnergy); [lia|].
  unfold hangover. simpl (0 =? 0). cbv iota.
  destruct (Z.gtb_spec (over_hang self) 0), (Z.eqb_spec (over_hang self) 0); try lia.
  - rewrite !s16_id by cint. split; [f_equal; lia|lia].
  - split; [f_equal; lia|done].
Qed.

Lemma GmmProbability_quiet_witness :
  let '(self', v) := GmmProbability (fresh blank) [0; 0; 0; 0; 0; 0] 10 80 in
  self' = set_hang (fresh blank) (Z.max 0 (over_hang (fresh blank) - 1)) 0 ∧
  v = if over_hang (fresh blank) =? 0 then 0 else over_hang (fresh blank) + 2.
Proof.
  apply (GmmProbability_quiet (fresh blank) [0; 0; 0; 0; 0; 0] 10 80);
    [unfold kMinEnergy; lia|vm_compute; split; congruence].
Defined.

(** The 48 kHz entry point never looks beyond the first 480 samples of the frame: its
    loop over the 10 ms blocks passes the unadvanced frame pointer to the resampler, so 20 and
    30 ms frames that agree on their first 10 ms get the same decision and leave the same
    state, whatever the rest contains. *)
Lemma CalcVad48khz_first_block_only inst f1 f2 n :
  take 480 f1 = take 480 f2 → WebRtcVad_CalcVad48khz inst f1 n = WebRtcVad_CalcVad48khz inst f2 n.
Proof.
  intros E. unfold WebRtcVad_CalcVad48khz.
  assert (slice f1 0 480 = slice f2 0 480) as E' by exact E. by rewrite E'.
Qed.

Lemma CalcVad48khz_first_block_only_witness :
  WebRtcVad_CalcVad48khz (fresh blank) (replicate 480 0 ++ replicate 480 32767) 960 =
  WebRtcVad_CalcVad48khz (fresh blank) (replicate 960 0) 960.
Proof.
  apply (CalcVad48khz_first_block_only (fresh blank) (replicate 480 0 ++ replicate 480 32767)
    (replicate 960 0) 960). reflexivity.
Defined.
