(* ===== verification/WebRtcVad.v ===== *)
(** The interface of the voice activity detector: common_audio/vad/webrtc_vad.c.

    A handle is an [option]: [None] is the null pointer.  Every call returns its [int] result
    and the handle it leaves.  [vad_reachable] are the instances a client can obtain. *)
From S2P Require Import Prelude Resample48 VadInst VadSp VadCore.

(** * Definitions *)

Definition kValidRates : list Z := [8000; 16000; 32000; 48000].
Definition kMaxFrameLengthMs : Z := 30.

(** [malloc] returns a block of unknown content [mem]; only the flag is set. *)
Definition WebRtcVad_Create (mem : VadInstT) : VadInstT := set_init_flag mem 0.

Definition WebRtcVad_Init (handle : option VadInstT) : Z * option VadInstT :=
  WebRtcVad_InitCore handle.

Definition WebRtcVad_set_mode (handle : option VadInstT) (mode : Z) : Z * option VadInstT :=
  match handle with
  | None => (-1, None)
  | Some self =>
      if negb (init_flag self =? kInitCheck) then (-1, handle)
      else let '(r, self) := WebRtcVad_set_mode_core self mode in (r, Some self)
  end.

(** The inner loop over the frame lengths of 10, 20 and 30 ms: [return_value]. *)
Fixpoint valid_length_loop (rate frame_length valid_length_ms : Z) (fuel : nat) (ret : Z) : Z :=
  match fuel with
  | O => ret
  | S fuel' =>
      if valid_length_ms <=? kMaxFrameLengthMs then
        let valid_length := u64 (rate `quot` 1000 * valid_length_ms) in
        if frame_length =? valid_length then 0
        else valid_length_loop rate frame_length (valid_length_ms + 10) fuel' ret
      else ret
  end.

(** The outer loop stops at the first matching rate. *)
Fixpoint valid_rate_loop (rates : list Z) (rate frame_length : Z) (ret : Z) : Z :=
  match rates with
  | [] => ret
  | r :: rates' =>
      if r =? rate then valid_length_loop r frame_length 10 4 ret
      else valid_rate_loop rates' rate frame_length ret
  end.

Definition WebRtcVad_ValidRateAndFrameLength (rate frame_length : Z) : Z :=
  valid_rate_loop kValidRates rate frame_length (-1).

Definition WebRtcVad_Process (handle : option VadInstT) (fs : Z) (audio_frame : option (list Z))
    (frame_length : Z) : Z * option VadInstT :=
  match handle with
  | None => (-1, None)
  | Some self =>
      if negb (init_flag self =? kInitCheck) then (-1, handle)
      else
        match audio_frame with
        | None => (-1, handle)
        | Some audio_frame =>
            if negb (WebRtcVad_ValidRateAndFrameLength fs frame_length =? 0) then (-1, handle)
            else
              let '(self, vad) :=
                if fs =? 48000 then WebRtcVad_CalcVad48khz self audio_frame frame_length
                else if fs =? 32000 then WebRtcVad_CalcVad32khz self audio_frame frame_length
                else if fs =? 16000 then WebRtcVad_CalcVad16khz self audio_frame frame_length
                else if fs =? 8000 then WebRtcVad_CalcVad8khz self audio_frame frame_length
                else (self, -1) in
              let vad := if vad >? 0 then 1 else vad in
              (vad, Some self)
        end
  end.

(** The instances a client can hold. *)
Inductive vad_reachable : VadInstT → Prop :=
  | reach_create mem : vad_reachable (WebRtcVad_Create mem)
  | reach_init self r self' :
      vad_reachable self → WebRtcVad_Init (Some self) = (r, Some self') → vad_reachable self'
  | reach_set_mode self mode r self' :
      vad_reachable self → WebRtcVad_set_mode (Some self) mode = (r, Some self') →
      vad_reachable self'
  | reach_process self fs frame n r self' :
      vad_reachable self → n ≤ zlen frame →
      WebRtcVad_Process (Some self) fs (Some frame) n = (r, Some self') → vad_reachable self'.

(** * Lemmas *)

Definition valid_frame (rate n : Z) : Prop :=
  (rate = 8000 ∨ rate = 16000 ∨ rate = 32000 ∨ rate = 48000) ∧
  (n = rate `div` 1000 * 10 ∨ n = rate `div` 1000 * 20 ∨ n = rate `div` 1000 * 30).

Lemma valid_length_loop_spec rate n :
  rate = 8000 ∨ rate = 16000 ∨ rate = 32000 ∨ rate = 48000 →
  valid_length_loop rate n 10 4 (-1) = 0 ∧
    (n = rate `div` 1000 * 10 ∨ n = rate `div` 1000 * 20 ∨ n = rate `div` 1000 * 30) ∨
  valid_length_loop rate n 10 4 (-1) = -1 ∧
    ¬ (n = rate `div` 1000 * 10 ∨ n = rate `div` 1000 * 20 ∨ n = rate `div` 1000 * 30).
Proof.
  assert (∀ r k, r `div` 1000 = k →
    valid_length_loop r n 10 4 (-1) =
      (if n =? k * 10 then 0 else if n =? k * 20 then 0 else if n =? k * 30 then 0 else -1) →
    valid_length_loop r n 10 4 (-1) = 0 ∧ (n = k * 10 ∨ n = k * 20 ∨ n = k * 30) ∨
    valid_length_loop r n 10 4 (-1) = -1 ∧ ¬ (n = k * 10 ∨ n = k * 20 ∨ n = k * 30)) as H.
  { intros r k _ ->.
    destruct (Z.eqb_spec n (k * 10)), (Z.eqb_spec n (k * 20)), (Z.eqb_spec n (k * 30)); lia. }
  intros [->|[->|[->| ->]]]; apply H; reflexivity.
Qed.

Lemma ValidRate_spec rate n :
  (WebRtcVad_ValidRateAndFrameLength rate n = 0 ∧ valid_frame rate n) ∨
  (WebRtcVad_ValidRateAndFrameLength rate n = -1 ∧ ¬ valid_frame rate n).
Proof.
  unfold WebRtcVad_ValidRateAndFrameLength, valid_frame, kValidRates. cbn [valid_rate_loop].
  pose proof (valid_length_loop_spec rate n) as H.
  destruct (Z.eqb_spec 8000 rate) as [<-|]; [destruct (H ltac:(lia)); tauto|].
  destruct (Z.eqb_spec 16000 rate) as [<-|]; [destruct (H ltac:(lia)); tauto|].
  destruct (Z.eqb_spec 32000 rate) as [<-|]; [destruct (H ltac:(lia)); tauto|].
  destruct (Z.eqb_spec 48000 rate) as [<-|]; [destruct (H ltac:(lia)); tauto|].
  right. split; [done|]. lia.
Qed.

Lemma valid_frame_bound rate n : valid_frame rate n → 0 < n ≤ 1440 ∧
  (rate = 8000 → n ≤ 240) ∧ (rate = 16000 → n ≤ 480) ∧ (rate = 32000 → n ≤ 960) ∧
  (rate = 48000 → 480 ≤ n).
Proof. intros [[->|[->|[->| ->]]] [->|[->| ->]]]; vm_compute; intuition congruence. Qed.

(** One accepted frame keeps the invariant and yields 0 or 1. *)
Lemma Process_step self fs frame n :
  vad_inv self → n ≤ zlen frame →
  ∃ r self', WebRtcVad_Process (Some self) fs (Some frame) n = (r, Some self') ∧ vad_inv self' ∧
    (valid_frame fs n ∧ (r = 0 ∨ r = 1) ∨ ¬ valid_frame fs n ∧ r = -1 ∧ self' = self).
Proof.
  intros Hinv Hn. unfold WebRtcVad_Process.
  assert (init_flag self = kInitCheck) as -> by apply Hinv. rewrite Z.eqb_refl. cbn [negb].
  destruct (ValidRate_spec fs n) as [[-> Hv]|[-> Hv]].
  2:{ change (-1 =? 0) with false. cbn [negb]. exists (-1), self. split; [done|]. split; [done|]. by right. }
  change (0 =? 0) with true. cbn [negb].
  set (c := if fs =? 48000 then _ else _).
  assert (vad_inv c.1 ∧ decision c.2) as [H1 H2].
  { destruct (valid_frame_bound fs n Hv) as (B & B1 & B2 & B3 & B4). subst c.
    destruct (Z.eqb_spec fs 48000) as [->|]; [apply CalcVad48khz_inv; [done|lia|lia]|].
    destruct (Z.eqb_spec fs 32000) as [->|]; [apply CalcVad32khz_inv; [done|lia]|].
    destruct (Z.eqb_spec fs 16000) as [->|]; [apply CalcVad16khz_inv; [done|lia]|].
    destruct (Z.eqb_spec fs 8000) as [->|]; [apply CalcVad8khz_inv; [done|lia]|].
    exfalso. destruct Hv as [Hr _]. lia. }
  clearbody c. destruct c as [self' v]. cbn [fst snd] in *.
  exists (if v >? 0 then 1 else v), self'. split; [done|]. split; [done|]. left. split; [done|].
  rewrite Z.gtb_ltb. unfold decision in H2. destruct_ltb; lia.
Qed.

(** The calls refused on an instance that was never initialised. *)
Lemma uninitialised self mode fs frame n :
  init_flag self = 0 →
  WebRtcVad_set_mode (Some self) mode = (-1, Some self) ∧
  WebRtcVad_Process (Some self) fs frame n = (-1, Some self).
Proof. intros E. unfold WebRtcVad_set_mode, WebRtcVad_Process. rewrite E. by destruct frame. Qed.

Lemma reachable_cases self : vad_reachable self → init_flag self = 0 ∨ vad_inv self.
Proof.
  induction 1 as [mem|self r self' _ IH E|self mode r self' _ IH E|self fs frame n r self' _ IH Hn E].
  - by left.
  - right. destruct (InitCore_inv self) as (self'' & E' & Hinv). unfold WebRtcVad_Init in E.
    rewrite E' in E. by injection E as _ <-.
  - destruct IH as [H0|Hinv].
    + destruct (uninitialised self mode 0 None 0 H0) as [E' _]. rewrite E' in E.
      injection E as _ <-. by left.
    + right. unfold WebRtcVad_set_mode in E.
      assert (init_flag self = kInitCheck) as Ei by apply Hinv. rewrite Ei, Z.eqb_refl in E. cbn [negb] in E.
      pose proof (set_mode_core_inv self mode Hinv) as H.
      destruct (WebRtcVad_set_mode_core self mode) as [r' s']. by injection E as _ <-.
  - destruct IH as [H0|Hinv].
    + destruct (uninitialised self 0 fs (Some frame) n H0) as [_ E']. rewrite E' in E.
      injection E as _ <-. by left.
    + right. destruct (Process_step self fs frame n Hinv Hn) as (r' & s' & E' & H & _).
      rewrite E' in E. by injection E as _ <-.
Qed.

(** * Properties *)

(** C5: in every instance a client can obtain by creating, initialising, configuring and
    feeding the detector, in any order and with any frames, rates and modes, either the
    instance was never initialised or the invariant holds: the four model tables have their 12
    entries with all means in the 16-bit range and every deviation between 378 and 32767 (so
    no division of the model, including the one by ten times a deviation truncated to 16 bits,
    has divisor zero), each channel tracks 16 sorted minima, the hangover counters stay within
    14 and 6, and all filter states have their size. *)
Theorem vad_invariant self :
  vad_reachable self →
  init_flag self = 0 ∨
  (model_ok self ∧ hang_ok self ∧ buffers_ok self ∧ decision (vad self) ∧
   ∀ g, 0 ≤ g < 12 → (noise_stds self).[g] ≠ 0 ∧ s16 ((speech_stds self).[g] * 10) ≠ 0).
Proof.
  intros [H0|(Hm & Hh & Hb & _ & Hv)]%reachable_cases; [by left|right].
  split; [done|]. split; [done|]. split; [done|]. split; [done|]. intros g Hg.
  destruct Hm as (_ & _ & [L1 S1] & [L2 S2] & _).
  pose proof (Forall_lookup_1 _ _ _ _ S1 (rd_lookup (noise_stds self) g ltac:(lia))) as B1.
  pose proof (Forall_lookup_1 _ _ _ _ S2 (rd_lookup (speech_stds self) g ltac:(lia))) as B2.
  cbv beta in B1, B2. split; [lia|]. cwrap.
Qed.

Lemma vad_invariant_witness :
  vad_reachable (fresh (WebRtcVad_Create blank)) ∧
  (init_flag (fresh (WebRtcVad_Create blank)) = 0 ∨
   (model_ok (fresh (WebRtcVad_Create blank)) ∧ hang_ok (fresh (WebRtcVad_Create blank)) ∧
    buffers_ok (fresh (WebRtcVad_Create blank)) ∧ decision (vad (fresh (WebRtcVad_Create blank))) ∧
    ∀ g, 0 ≤ g < 12 → (noise_stds (fresh (WebRtcVad_Create blank))).[g] ≠ 0 ∧
      s16 ((speech_stds (fresh (WebRtcVad_Create blank))).[g] * 10) ≠ 0)).
Proof.
  assert (vad_reachable (fresh (WebRtcVad_Create blank))) as H
    by exact (reach_init _ 0 _ (reach_create blank) eq_refl).
  split; [exact H|]. exact (vad_invariant _ H).
Defined.

(** C25: [WebRtcVad_Process] on a reachable instance always returns: -1, with the instance
    untouched, exactly when the instance was never initialised or the rate and frame length
    are not one of the twelve supported pairs, and otherwise the decision 0 or 1. *)
Theorem Process_result self fs frame n :
  vad_reachable self → n ≤ zlen frame →
  ∃ r self', WebRtcVad_Process (Some self) fs (Some frame) n = (r, Some self') ∧
    ((r = -1 ∧ self' = self ∧ (init_flag self = 0 ∨ ¬ valid_frame fs n)) ∨
     ((r = 0 ∨ r = 1) ∧ init_flag self = kInitCheck ∧ valid_frame fs n)).
Proof.
  intros Hr Hn. destruct (reachable_cases self Hr) as [H0|Hinv].
  - destruct (uninitialised self 0 fs (Some frame) n H0) as [_ E]. exists (-1), self. split; [done|]. left. auto.
  - destruct (Process_step self fs frame n Hinv Hn) as (r & self' & E & _ & H).
    exists r, self'. split; [done|]. destruct H as [[Hv H]|(Hv & -> & ->)]; [right|left; auto].
    split; [done|]. split; [apply Hinv|done].
Qed.

Lemma Process_result_witness :
  ∃ r self', WebRtcVad_Process (Some (fresh (WebRtcVad_Create blank))) 16000 (Some (replicate 320 7)) 320
      = (r, Some self') ∧
    ((r = -1 ∧ self' = fresh (WebRtcVad_Create blank) ∧
       (init_flag (fresh (WebRtcVad_Create blank)) = 0 ∨ ¬ valid_frame 16000 320)) ∨
     ((r = 0 ∨ r = 1) ∧ init_flag (fresh (WebRtcVad_Create blank)) = kInitCheck ∧ valid_frame 16000 320)).
Proof.
  apply (Process_result (fresh (WebRtcVad_Create blank)) 16000 (replicate 320 7) 320).
  - exact (reach_init _ 0 _ (reach_create blank) eq_refl).
  - rewrite length_replicate. lia.
Defined.

(** Rate and frame length are accepted (0) exactly for 8, 16, 32 and 48 kHz with 10, 20 or
    30 ms of samples, and rejected (-1) otherwise, for every integer argument. *)
Lemma ValidRateAndFrameLength_iff rate n :
  (WebRtcVad_ValidRateAndFrameLength rate n = 0 ↔ valid_frame rate n) ∧
  (WebRtcVad_ValidRateAndFrameLength rate n = -1 ↔ ¬ valid_frame rate n).
Proof. destruct (ValidRate_spec rate n) as [[-> H]|[-> H]]; split; split; try done; lia. Qed.
