(* ===== verification/PcmCodecs.v ===== *)
(** The sample codecs: 16-bit PCM (modules/audio_coding/codecs/pcm16b/pcm16b.c), G.711
    (modules/third_party/g711/g711.h, g711.c) and its frame interface
    (modules/audio_coding/codecs/g711/g711_interface.c).

    [top_bit] and [bottom_bit] are the portable versions.  A frame function writes the
    first words of its output array and returns their number.  The theorems show the
    round trip of the PCM codec, that [top_bit] is the binary logarithm, that encoding
    and decoding a sample with either law yields exactly the midpoint of the quantisation
    interval it lies in, and that encoding a decoded frame gives back its code words. *)
From S2P Require Import Prelude.
From Stdlib Require Import String Ascii.

(** * 16-bit PCM *)

Definition WebRtcPcm16b_Encode (speech : list Z) (len : Z) (encoded : list Z) : Z * list Z :=
  let encoded := for_up 0 (Z.to_nat len) (λ i encoded,
    let s := u16 (speech.[i]) in
    let encoded := wr encoded (2 * i) (u8 (s ≫ 8)) in
    wr encoded (2 * i + 1) (u8 s)) encoded in
  (2 * len, encoded).

Definition WebRtcPcm16b_Decode (encoded : list Z) (len : Z) (speech : list Z) : Z * list Z :=
  let speech := fill (len `div` 2) (λ i,
    s16 (Z.lor (encoded.[2 * i] ≪ 8) (encoded.[2 * i + 1]))) speech in
  (len `div` 2, speech).

(** * G.711 samples *)

(** [if (bits & mask) { bits &= mask; i += k; }] *)
Definition keep_bits (mask k : Z) (s : Z * Z) : Z * Z :=
  let '(bits, i) := s in
  if Z.land bits mask =? 0 then (bits, i) else (Z.land bits mask, i + k).

Definition top_bit (bits : Z) : Z :=
  if bits =? 0 then -1 else
  let s := keep_bits 0xFFFF0000 16 (bits, 0) in
  let s := keep_bits 0xFF00FF00 8 s in
  let s := keep_bits 0xF0F0F0F0 4 s in
  let s := keep_bits 0xCCCCCCCC 2 s in
  let s := keep_bits 0xAAAAAAAA 1 s in
  s.2.

Definition bottom_bit (bits : Z) : Z :=
  if bits =? 0 then -1 else
  let s := keep_bits 0x0000FFFF (-16) (bits, 32) in
  let s := keep_bits 0x00FF00FF (-8) s in
  let s := keep_bits 0x0F0F0F0F (-4) s in
  let s := keep_bits 0x33333333 (-2) s in
  let s := keep_bits 0x55555555 (-1) s in
  s.2.

Definition ULAW_BIAS : Z := 0x84.

Definition linear_to_ulaw (linear : Z) : Z :=
  let '(linear, mask) :=
    if linear <? 0 then (ULAW_BIAS ⊟ linear ⊟ 1, 0x7F) else (ULAW_BIAS ⊞ linear, 0xFF) in
  let seg := top_bit (u32 (Z.lor linear 0xFF)) - 7 in
  if seg >=? 8 then u8 (Z.lxor 0x7F mask)
  else u8 (Z.lxor (Z.lor (seg ≪ 4) (Z.land (linear ≫ (seg + 3)) 0xF)) mask).

Definition ulaw_to_linear (ulaw : Z) : Z :=
  let ulaw := u8 (Z.lnot ulaw) in
  let t := ((Z.land ulaw 0x0F ≪ 3) + ULAW_BIAS) ≪ (Z.land ulaw 0x70 ≫ 4) in
  s16 (if Z.land ulaw 0x80 =? 0 then t - ULAW_BIAS else ULAW_BIAS - t).

Definition ALAW_AMI_MASK : Z := 0x55.

Definition linear_to_alaw (linear : Z) : Z :=
  let '(linear, mask) :=
    if linear >=? 0 then (linear, Z.lor ALAW_AMI_MASK 0x80)
    else (neg32 linear ⊟ 1, ALAW_AMI_MASK) in
  let seg := top_bit (u32 (Z.lor linear 0xFF)) - 7 in
  if seg >=? 8 then
    if linear >=? 0 then u8 (Z.lxor 0x7F mask) else u8 (Z.lxor 0x00 mask)
  else
    u8 (Z.lxor (Z.lor (seg ≪ 4)
                 (Z.land (linear ≫ (if seg =? 0 then 4 else seg + 3)) 0x0F)) mask).

Definition alaw_to_linear (alaw : Z) : Z :=
  let alaw := u8 (Z.lxor alaw ALAW_AMI_MASK) in
  let i := Z.land alaw 0x0F ≪ 4 in
  let seg := Z.land alaw 0x70 ≫ 4 in
  let i := if seg =? 0 then i + 8 else (i + 0x108) ≪ (seg - 1) in
  s16 (if Z.land alaw 0x80 =? 0 then - i else i).

Definition ulaw_to_alaw_table : list Z :=
  [42; 43; 40; 41; 46; 47; 44; 45; 34; 35; 32; 33; 38; 39; 36; 37; 58; 59; 56; 57; 62; 63;
   60; 61; 50; 51; 48; 49; 54; 55; 52; 53; 10; 11; 8; 9; 14; 15; 12; 13; 2; 3; 0; 1; 6; 7;
   4; 26; 27; 24; 25; 30; 31; 28; 29; 18; 19; 16; 17; 22; 23; 20; 21; 106; 104; 105; 110;
   111; 108; 109; 98; 99; 96; 97; 102; 103; 100; 101; 122; 120; 126; 127; 124; 125; 114;
   115; 112; 113; 118; 119; 116; 117; 75; 73; 79; 77; 66; 67; 64; 65; 70; 71; 68; 69; 90;
   91; 88; 89; 94; 95; 92; 93; 82; 82; 83; 83; 80; 80; 81; 81; 86; 86; 87; 87; 84; 84; 85;
   85; 170; 171; 168; 169; 174; 175; 172; 173; 162; 163; 160; 161; 166; 167; 164; 165; 186;
   187; 184; 185; 190; 191; 188; 189; 178; 179; 176; 177; 182; 183; 180; 181; 138; 139; 136;
   137; 142; 143; 140; 141; 130; 131; 128; 129; 134; 135; 132; 154; 155; 152; 153; 158; 159;
   156; 157; 146; 147; 144; 145; 150; 151; 148; 149; 234; 232; 233; 238; 239; 236; 237; 226;
   227; 224; 225; 230; 231; 228; 229; 250; 248; 254; 255; 252; 253; 242; 243; 240; 241; 246;
   247; 244; 245; 203; 201; 207; 205; 194; 195; 192; 193; 198; 199; 196; 197; 218; 219; 216;
   217; 222; 223; 220; 221; 210; 210; 211; 211; 208; 208; 209; 209; 214; 214; 215; 215; 212;
   212; 213; 213].

Definition alaw_to_ulaw_table : list Z :=
  [42; 43; 40; 41; 46; 47; 44; 45; 34; 35; 32; 33; 38; 39; 36; 37; 57; 58; 55; 56; 61; 62;
   59; 60; 49; 50; 47; 48; 53; 54; 51; 52; 10; 11; 8; 9; 14; 15; 12; 13; 2; 3; 0; 1; 6; 7;
   4; 5; 26; 27; 24; 25; 30; 31; 28; 29; 18; 19; 16; 17; 22; 23; 20; 21; 98; 99; 96; 97;
   102; 103; 100; 101; 93; 93; 92; 92; 95; 95; 94; 94; 116; 118; 112; 114; 124; 126; 120;
   122; 106; 107; 104; 105; 110; 111; 108; 109; 72; 73; 70; 71; 76; 77; 74; 75; 64; 65; 63;
   63; 68; 69; 66; 67; 86; 87; 84; 85; 90; 91; 88; 89; 79; 79; 78; 78; 82; 83; 80; 81; 170;
   171; 168; 169; 174; 175; 172; 173; 162; 163; 160; 161; 166; 167; 164; 165; 185; 186; 183;
   184; 189; 190; 187; 188; 177; 178; 175; 176; 181; 182; 179; 180; 138; 139; 136; 137; 142;
   143; 140; 141; 130; 131; 128; 129; 134; 135; 132; 133; 154; 155; 152; 153; 158; 159; 156;
   157; 146; 147; 144; 145; 150; 151; 148; 149; 226; 227; 224; 225; 230; 231; 228; 229; 221;
   221; 220; 220; 223; 223; 222; 222; 244; 246; 240; 242; 252; 254; 248; 250; 234; 235; 232;
   233; 238; 239; 236; 237; 200; 201; 198; 199; 204; 205; 202; 203; 192; 193; 191; 191; 196;
   197; 194; 195; 214; 215; 212; 213; 218; 219; 216; 217; 207; 207; 206; 206; 210; 211; 208;
   209].

Definition alaw_to_ulaw (alaw : Z) : Z := alaw_to_ulaw_table.[alaw].
Definition ulaw_to_alaw (ulaw : Z) : Z := ulaw_to_alaw_table.[ulaw].

(** * G.711 frames *)

Definition WebRtcG711_EncodeA (speechIn : list Z) (len : Z) (encoded : list Z) : Z * list Z :=
  (len, fill len (λ n, linear_to_alaw (speechIn.[n])) encoded).

Definition WebRtcG711_EncodeU (speechIn : list Z) (len : Z) (encoded : list Z) : Z * list Z :=
  (len, fill len (λ n, linear_to_ulaw (speechIn.[n])) encoded).

(** The decoders return also [*speechType]. *)
Definition WebRtcG711_DecodeA (encoded : list Z) (len : Z) (decoded : list Z)
  : Z * list Z * Z :=
  let decoded := fill len (λ n, alaw_to_linear (encoded.[n])) decoded in
  let speechType := 1 in
  (len, decoded, speechType).

Definition WebRtcG711_DecodeU (encoded : list Z) (len : Z) (decoded : list Z)
  : Z * list Z * Z :=
  let decoded := fill len (λ n, ulaw_to_linear (encoded.[n])) decoded in
  let speechType := 1 in
  (len, decoded, speechType).

(** [strncpy(dst, src, n)]: the characters of [src], then zeros, [n] in all. *)
Definition strncpy (dst src : list Z) (n : Z) : list Z :=
  store dst 0 (take (Z.to_nat n) (src ++ replicate (Z.to_nat n) 0)).

Definition version_string : list Z :=
  (λ c, Z.of_nat (nat_of_ascii c)) <$> list_ascii_of_string "2.0.0".

Definition WebRtcG711_Version (version : list Z) (lenBytes : Z) : Z * list Z :=
  (0, strncpy version version_string lenBytes).

(** * The position of the leading bit *)

(** After the masks down to [k], every remaining bit position has the quotient by [k]
    that [i] records, and the leading bit of the word is still there. *)
Definition search_inv (orig k : Z) (s : Z * Z) : Prop :=
  0 < s.1 < 4294967296 ∧ Z.log2 s.1 = Z.log2 orig ∧
  ∀ p, Z.testbit s.1 p = true → p `div` k * k = s.2.

Lemma testbit_pos b p : Z.testbit b p = true → 0 ≤ p.
Proof. intros H. destruct (Z.ltb_spec p 0); [|done]. by rewrite Z.testbit_neg_r in H by lia. Qed.

Lemma testbit_le_log2 b p : 0 < b → Z.testbit b p = true → p ≤ Z.log2 b.
Proof.
  intros Hb H. destruct (Z.ltb_spec (Z.log2 b) p); [|done].
  by rewrite Z.bits_above_log2 in H by lia.
Qed.

Lemma keep_bits_inv orig mask k s :
  0 < k → (∀ p, 0 ≤ p < 32 → Z.testbit mask p = ((p `div` k) `mod` 2 =? 1)) →
  search_inv orig (k * 2) s → search_inv orig k (keep_bits mask k s).
Proof.
  destruct s as [b i]. intros Hk Hm ([Hb0 Hb] & Hl & Hi). cbn [fst snd] in *.
  assert (∀ p, Z.testbit b p = true → 0 ≤ p < 32) as Hp.
  { intros p H. pose proof (testbit_pos _ _ H). pose proof (testbit_le_log2 _ _ Hb0 H).
    pose proof (proj1 (Z.log2_lt_pow2 b 32 Hb0) Hb). lia. }
  assert (∀ p, Z.testbit b p = true → p `div` k * k = i + (p `div` k) `mod` 2 * k) as Hd.
  { intros p H. specialize (Hi p H). rewrite <- Z.div_div in Hi by lia.
    pose proof (Z.div_mod (p `div` k) 2 ltac:(lia)) as E. set (q := p `div` k) in *.
    rewrite E at 1. rewrite <- Hi. ring. }
  unfold keep_bits. destruct (Z.eqb_spec (Z.land b mask) 0) as [E|E].
  - split; [done|]. split; [done|]. cbn [fst snd]. intros p H. rewrite Hd by done.
    assert (Z.testbit (Z.land b mask) p = false) as F by (rewrite E; apply Z.testbit_0_l).
    rewrite Z.land_spec, H, Hm in F by auto. simpl in F. apply Z.eqb_neq in F.
    pose proof (Z.mod_pos_bound (p `div` k) 2 ltac:(lia)). replace ((p `div` k) `mod` 2) with 0 by lia. lia.
  - assert (0 < Z.land b mask) as Hpos.
    { assert (0 ≤ Z.land b mask) by (apply Z.land_nonneg; lia). lia. }
    assert (∀ p, Z.testbit (Z.land b mask) p = true →
      Z.testbit b p = true ∧ (p `div` k) `mod` 2 = 1) as Hb'.
    { intros p H. rewrite Z.land_spec in H. apply andb_true_iff in H as [H1 H2].
      split; [done|]. rewrite Hm in H2 by auto. by apply Z.eqb_eq. }
    set (t := Z.log2 b). set (u := Z.log2 (Z.land b mask)).
    destruct (Hb' u) as [Hu1 Hu2]; [by apply Z.bit_log2|].
    assert (Z.testbit b t = true) as Ht by (by apply Z.bit_log2).
    pose proof (testbit_le_log2 _ _ Hb0 Hu1) as Hut. fold t in Hut.
    assert (t = u) as Etu.
    { assert ((t `div` k) `mod` 2 = 1).
      { pose proof (Z.mod_pos_bound (t `div` k) 2 ltac:(lia)).
        pose proof (Z.div_le_mono u t k Hk Hut). pose proof (Hd u Hu1). pose proof (Hd t Ht). nia. }
      assert (t ≤ u); [|lia]. apply testbit_le_log2; [done|].
      rewrite Z.land_spec, Ht, Hm by auto. by apply Z.eqb_eq. }
    split; [split; [done|]|split; [cbn [fst]; fold u; lia|]].
    + cbn [fst]. apply (Z.log2_lt_pow2 _ 32); [done|]. fold u. specialize (Hp t Ht). lia.
    + cbn [fst snd]. intros p H. destruct (Hb' p H) as [H1 H2]. rewrite Hd, H2 by done. lia.
Qed.

(** One mask of the search; the digit it tests is checked on the 32 positions. *)
Ltac search_stage M k H :=
  apply (keep_bits_inv _ M k) in H;
    [|done
     |let p := fresh in let Hp := fresh in intros p Hp;
      apply (check_range_dec (λ p, Z.testbit M p = ((p `div` k) `mod` 2 =? 1)) 0 32 p);
      [by vm_compute|lia]].

(** The portable [top_bit] is the binary logarithm on every non-zero word. *)
Lemma top_bit_log2 b : 0 < b < 4294967296 → top_bit b = Z.log2 b.
Proof.
  intros Hb. unfold top_bit. destruct (Z.eqb_spec b 0); [lia|].
  assert (search_inv b (16 * 2) (b, 0)) as H.
  { split; [done|]. split; [done|]. cbn [fst snd]. intros p H.
    pose proof (testbit_pos _ _ H). pose proof (testbit_le_log2 b p ltac:(lia) H).
    pose proof (proj1 (Z.log2_lt_pow2 b 32 ltac:(lia)) ltac:(lia)).
    rewrite Z.div_small by lia. done. }
  search_stage 0xFFFF0000 16 H. search_stage 0xFF00FF00 8 H. search_stage 0xF0F0F0F0 4 H.
  search_stage 0xCCCCCCCC 2 H. search_stage 0xAAAAAAAA 1 H.
  destruct H as ([Hpos _] & Hl & Hi). cbv zeta.
  rewrite <- (Hi (Z.log2 b)), Z.div_1_r by (rewrite <- Hl; by apply Z.bit_log2). lia.
Qed.

(** * Companding *)

(** The midpoint of the interval of length [2^k] that contains [m]. *)
Definition midpoint (k m : Z) : Z := m `div` 2 ^ k * 2 ^ k + 2 ^ (k - 1).

(** A-law: intervals of length 16 below 512, doubling with every power of two above. *)
Definition alaw_quantise (x : Z) : Z :=
  let mid m := midpoint (Z.max 4 (Z.log2 m - 4)) m in
  if x >=? 0 then mid x else - mid (- x - 1).

(** Mu-law: the same on the biased magnitude, which is limited to 15 bits. *)
Definition ulaw_quantise (x : Z) : Z :=
  let mid m := let l := Z.min (m + 132) 32767 in midpoint (Z.log2 l - 4) l - 132 in
  if x >=? 0 then mid x else - mid (- x - 1).

Lemma segment_log2 l :
  0 ≤ l < 65536 → top_bit (u32 (Z.lor l 255)) - 7 = Z.max (Z.log2 l) 7 - 7.
Proof.
  intros Hl. assert (0 < Z.lor l 255 < 65536) as H.
  { assert (0 ≤ Z.lor l 255) by (apply Z.lor_nonneg; lia).
    assert (Z.lor l 255 ≠ 0) by (intros E; apply Z.lor_eq_0_iff in E; lia).
    split; [lia|]. apply (Z.log2_lt_pow2 _ 16); [lia|]. rewrite Z.log2_lor by lia.
    change (Z.log2 255) with 7. destruct (Z.eq_dec l 0) as [->|]; [by vm_compute|].
    pose proof (proj1 (Z.log2_lt_pow2 l 16 ltac:(lia)) ltac:(lia)). lia. }
  rewrite u32_id by cint. rewrite top_bit_log2 by lia. by rewrite Z.log2_lor by lia.
Qed.

Lemma land_15 x : Z.land x 15 = x `mod` 16.
Proof. change 15 with (Z.ones 4). by rewrite Z.land_ones. Qed.

(** A fact about the 128 segments and intervals, by enumeration. *)
Lemma check_codes (P : Z → Z → Prop) `{!∀ s q, Decision (P s q)} seg q :
  check_range (λ c, bool_decide (P (c `div` 16) (c `mod` 16))) 0 128 = true →
  0 ≤ seg < 8 → 0 ≤ q < 16 → P seg q.
Proof.
  intros Hc Hs Hq.
  pose proof (check_range_dec (λ c, P (c `div` 16) (c `mod` 16)) 0 128 (16 * seg + q) Hc
    ltac:(lia)) as E. cbv beta in E.
  replace ((16 * seg + q) `div` 16) with seg in E by zdiv.
  by replace ((16 * seg + q) `mod` 16) with q in E by zdiv.
Qed.

(** What the decoders make of segment [seg] and interval [q], for both signs. *)
Lemma alaw_decode seg q :
  0 ≤ seg < 8 → 0 ≤ q < 16 →
  let v := if seg =? 0 then 16 * q + 8 else (16 * q + 264) * 2 ^ (seg - 1) in
  alaw_to_linear (u8 (Z.lxor (Z.lor (seg ≪ 4) q) 0xD5)) = v ∧
  alaw_to_linear (u8 (Z.lxor (Z.lor (seg ≪ 4) q) 0x55)) = - v.
Proof.
  intros Hs Hq. apply (check_codes (λ seg q,
    let v := if seg =? 0 then 16 * q + 8 else (16 * q + 264) * 2 ^ (seg - 1) in
    alaw_to_linear (u8 (Z.lxor (Z.lor (seg ≪ 4) q) 0xD5)) = v ∧
    alaw_to_linear (u8 (Z.lxor (Z.lor (seg ≪ 4) q) 0x55)) = - v)); [by vm_compute|done..].
Qed.

Lemma ulaw_decode seg q :
  0 ≤ seg < 8 → 0 ≤ q < 16 →
  let v := (8 * q + 132) * 2 ^ seg - 132 in
  ulaw_to_linear (u8 (Z.lxor (Z.lor (seg ≪ 4) q) 0xFF)) = v ∧
  ulaw_to_linear (u8 (Z.lxor (Z.lor (seg ≪ 4) q) 0x7F)) = - v.
Proof.
  intros Hs Hq. apply (check_codes (λ seg q,
    let v := (8 * q + 132) * 2 ^ seg - 132 in
    ulaw_to_linear (u8 (Z.lxor (Z.lor (seg ≪ 4) q) 0xFF)) = v ∧
    ulaw_to_linear (u8 (Z.lxor (Z.lor (seg ≪ 4) q) 0x7F)) = - v)); [by vm_compute|done..].
Qed.

(** A magnitude lies in one of the eight segments. *)
Lemma segment_cases l (P : Z → Prop) :
  0 ≤ l < 32768 →
  (l < 256 → P 0) →
  (∀ s, 1 ≤ s ≤ 7 → Z.log2 l = s + 7 → 2 ^ (s + 7) ≤ l < 2 ^ (s + 8) → P s) →
  P (Z.max (Z.log2 l) 7 - 7).
Proof.
  intros Hl H0 Hs. destruct (Z.ltb_spec l 256) as [Hl2|Hl2].
  - replace (Z.max (Z.log2 l) 7 - 7) with 0; [auto|].
    destruct (Z.eq_dec l 0) as [->|]; [done|].
    pose proof (proj1 (Z.log2_lt_pow2 l 8 ltac:(lia)) ltac:(lia)). lia.
  - pose proof (proj1 (Z.log2_lt_pow2 l 15 ltac:(lia)) ltac:(lia)).
    pose proof (proj1 (Z.log2_le_pow2 l 8 ltac:(lia)) ltac:(lia)).
    pose proof (Z.log2_spec l ltac:(lia)) as HS.
    replace (Z.max (Z.log2 l) 7 - 7) with (Z.log2 l - 7) by lia. apply Hs; [lia..|].
    replace (Z.log2 l - 7 + 7) with (Z.log2 l) by lia.
    replace (Z.log2 l - 7 + 8) with (Z.succ (Z.log2 l)) by lia. done.
Qed.

(** The quantisation interval of a magnitude above the linear segment. *)
Lemma interval_mod l s :
  1 ≤ s → 2 ^ (s + 7) ≤ l < 2 ^ (s + 8) →
  (l ≫ (s + 3)) `mod` 16 = l `div` 2 ^ (s + 3) - 16.
Proof.
  intros Hs Hl. rewrite shiftr_div by lia.
  replace (2 ^ (s + 7)) with (16 * 2 ^ (s + 3)) in Hl
    by (change 16 with (2 ^ 4); rewrite <- Z.pow_add_r by lia; f_equal; lia).
  replace (2 ^ (s + 8)) with (32 * 2 ^ (s + 3)) in Hl
    by (change 32 with (2 ^ 5); rewrite <- Z.pow_add_r by lia; f_equal; lia).
  assert (0 < 2 ^ (s + 3)) by (apply Z.pow_pos_nonneg; lia).
  assert (16 ≤ l `div` 2 ^ (s + 3)) by (apply Z.div_le_lower_bound; lia).
  assert (l `div` 2 ^ (s + 3) < 32) by (apply Z.div_lt_upper_bound; lia).
  rewrite <- (Z.mod_unique (l `div` 2 ^ (s + 3)) 16 1 (l `div` 2 ^ (s + 3) - 16)); lia.
Qed.

Lemma pow2_scale a b c : 0 ≤ a → 0 ≤ b → c = a + b → 2 ^ c = 2 ^ a * 2 ^ b.
Proof. intros ?? ->. by apply Z.pow_add_r. Qed.

(** The A-law code of a magnitude, and the value it stands for. *)
Lemma alaw_code m :
  0 ≤ m < 32768 →
  let seg := top_bit (u32 (Z.lor m 255)) - 7 in
  let q := Z.land (m ≫ (if seg =? 0 then 4 else seg + 3)) 15 in
  0 ≤ seg < 8 ∧ 0 ≤ q < 16 ∧
  (if seg =? 0 then 16 * q + 8 else (16 * q + 264) * 2 ^ (seg - 1)) =
    midpoint (Z.max 4 (Z.log2 m - 4)) m.
Proof.
  intros Hm. rewrite segment_log2 by lia. cbv zeta. rewrite land_15.
  split; [apply segment_cases; [done|lia..]|].
  split; [apply Z.mod_pos_bound; lia|]. unfold midpoint.
  apply (segment_cases m (λ s, (if s =? 0 then 16 * ((m ≫ (if s =? 0 then 4 else s + 3)) `mod` 16) + 8
    else (16 * ((m ≫ (if s =? 0 then 4 else s + 3)) `mod` 16) + 264) * 2 ^ (s - 1)) = _)); [done|..].
  - intros H. simpl. assert (Z.log2 m ≤ 7) as HL.
    { destruct (Z.eq_dec m 0) as [->|]; [done|].
      pose proof (proj1 (Z.log2_lt_pow2 m 8 ltac:(lia)) ltac:(lia)). lia. }
    rewrite Z.max_l, shiftr_div by lia. change (2 ^ 4) with 16. change (2 ^ (4 - 1)) with 8.
    rewrite Z.mod_small by zdiv. lia.
  - intros s Hs HL Hr. destruct (Z.eqb_spec s 0); [lia|]. rewrite interval_mod, HL by lia.
    replace (Z.max 4 (s + 7 - 4)) with (s + 3) by lia.
    set (d := m `div` 2 ^ (s + 3)). rewrite (pow2_scale 3 (s - 1) (s + 3 - 1)) by lia.
    rewrite (pow2_scale 4 (s - 1) (s + 3)) by lia. ring.
Qed.

Lemma ulaw_code l :
  132 ≤ l < 32768 →
  let seg := top_bit (u32 (Z.lor l 255)) - 7 in
  let q := Z.land (l ≫ (seg + 3)) 15 in
  0 ≤ seg < 8 ∧ 0 ≤ q < 16 ∧
  (8 * q + 132) * 2 ^ seg = midpoint (Z.log2 l - 4) l.
Proof.
  intros Hl. rewrite segment_log2 by lia. cbv zeta. rewrite land_15.
  split; [apply segment_cases; [lia..|]; lia|].
  split; [apply Z.mod_pos_bound; lia|]. unfold midpoint.
  apply (segment_cases l (λ s, (8 * ((l ≫ (s + 3)) `mod` 16) + 132) * 2 ^ s = _)); [lia|..].
  - intros H. assert (Z.log2 l = 7) as -> by (apply Z.log2_unique; lia).
    rewrite shiftr_div by lia. change (2 ^ (0 + 3)) with 8. change (2 ^ (7 - 4)) with 8.
    change (2 ^ (7 - 4 - 1)) with 4. rewrite <- (Z.mod_unique (l `div` 8) 16 1 (l `div` 8 - 16)) by zdiv.
    lia.
  - intros s Hs HL Hr. rewrite interval_mod, HL by lia.
    replace (s + 7 - 4) with (s + 3) by lia.
    set (d := l `div` 2 ^ (s + 3)). rewrite (pow2_scale 2 s (s + 3 - 1)) by lia.
    rewrite (pow2_scale 3 s (s + 3)) by lia. ring.
Qed.

Lemma alaw_requantise x : int16 x → alaw_to_linear (linear_to_alaw x) = alaw_quantise x.
Proof.
  intros Hx. unfold linear_to_alaw, alaw_quantise. rewrite !Z.geb_leb.
  destruct (Z.leb_spec 0 x).
  - destruct (alaw_code x ltac:(cint)) as (Hs & Hq & E).
    set (seg := top_bit _ - 7) in *. rewrite Z.geb_leb. destruct (Z.leb_spec 8 seg); [lia|].
    rewrite <- E. by apply alaw_decode.
  - rewrite neg32_id, sub32_id by cint.
    destruct (alaw_code (- x - 1) ltac:(cint)) as (Hs & Hq & E).
    set (seg := top_bit _ - 7) in *. rewrite Z.geb_leb. destruct (Z.leb_spec 8 seg); [lia|].
    rewrite <- E. by apply alaw_decode.
Qed.

(** The mu-law code of a biased magnitude, saturated at the last interval. *)
Lemma ulaw_biased l :
  132 ≤ l < 65536 →
  let seg := top_bit (u32 (Z.lor l 255)) - 7 in
  let l' := Z.min l 32767 in
  ulaw_to_linear (if seg >=? 8 then u8 (Z.lxor 0x7F 0xFF)
    else u8 (Z.lxor (Z.lor (seg ≪ 4) (Z.land (l ≫ (seg + 3)) 0xF)) 0xFF)) =
    midpoint (Z.log2 l' - 4) l' - 132 ∧
  ulaw_to_linear (if seg >=? 8 then u8 (Z.lxor 0x7F 0x7F)
    else u8 (Z.lxor (Z.lor (seg ≪ 4) (Z.land (l ≫ (seg + 3)) 0xF)) 0x7F)) =
    - (midpoint (Z.log2 l' - 4) l' - 132).
Proof.
  intros Hl. cbv zeta. rewrite Z.geb_leb. destruct (Z.ltb_spec l 32768).
  - rewrite Z.min_l by lia. destruct (ulaw_code l ltac:(lia)) as (Hs & Hq & <-).
    set (seg := top_bit _ - 7) in *. destruct (Z.leb_spec 8 seg); [lia|]. by apply ulaw_decode.
  - rewrite Z.min_r by lia. rewrite segment_log2 by lia.
    pose proof (proj1 (Z.log2_le_pow2 l 15 ltac:(lia)) ltac:(lia)).
    destruct (Z.leb_spec 8 (Z.max (Z.log2 l) 7 - 7)); [|lia]. by vm_compute.
Qed.

Lemma ulaw_requantise x : int16 x → ulaw_to_linear (linear_to_ulaw x) = ulaw_quantise x.
Proof.
  intros Hx. unfold linear_to_ulaw, ulaw_quantise, ULAW_BIAS. rewrite Z.geb_leb, Z.leb_antisym.
  destruct (Z.ltb_spec x 0); simpl negb; cbv iota beta.
  - rewrite (sub32_id 0x84 x), (sub32_id _ 1) by cint. replace (0x84 - x - 1) with (- x - 1 + 132) by lia.
    exact (proj2 (ulaw_biased (- x - 1 + 132) ltac:(cint))).
  - rewrite add32_id, (Z.add_comm 0x84 x) by cint.
    exact (proj1 (ulaw_biased (x + 132) ltac:(cint))).
Qed.

(** ** Monotonicity and error of the midpoints *)

Definition step_exp (c m : Z) : Z := Z.max c (Z.log2 m - 4).

Lemma midpoint_error c m :
  1 ≤ c → 0 ≤ m → let k := step_exp c m in
  - 2 ^ (k - 1) < midpoint k m - m ≤ 2 ^ (k - 1) ∧
  2 ^ (k - 1) ≤ Z.max (2 ^ (c - 1)) (m `div` 32).
Proof.
  intros Hc Hm k. assert (1 ≤ k) by (unfold k, step_exp; lia).
  pose proof (pow2_scale 1 (k - 1) k ltac:(lia) ltac:(lia) ltac:(lia)) as E. change (2 ^ 1) with 2 in E.
  assert (0 < 2 ^ (k - 1)) by (apply Z.pow_pos_nonneg; lia).
  pose proof (Z.div_mod m (2 ^ k) ltac:(lia)). pose proof (Z.mod_pos_bound m (2 ^ k) ltac:(lia)).
  unfold midpoint. split; [nia|]. destruct (Z.leb_spec (Z.log2 m - 4) c).
  - assert (k = c) as -> by (unfold k, step_exp; lia). lia.
  - assert (k = Z.log2 m - 4) as Ek by (unfold k, step_exp; lia).
    assert (0 < m) by (destruct (Z.eq_dec m 0) as [->|]; [simpl in *; lia|lia]).
    pose proof (Z.log2_spec m ltac:(lia)) as [HL _].
    rewrite (pow2_scale 5 (k - 1) (Z.log2 m)) in HL by lia. change (2 ^ 5) with 32 in HL.
    transitivity (m `div` 32); [|lia]. apply Z.div_le_lower_bound; lia.
Qed.

Lemma midpoint_mono c m m' :
  1 ≤ c → 0 ≤ m ≤ m' → midpoint (step_exp c m) m ≤ midpoint (step_exp c m') m'.
Proof.
  intros Hc Hm. set (k := step_exp c m). set (k' := step_exp c m').
  pose proof (Z.log2_le_mono m m' ltac:(lia)).
  assert (1 ≤ k ≤ k') by (unfold k, k', step_exp; lia). unfold midpoint.
  destruct (Z.eq_dec k k') as [<-|].
  - apply Z.add_le_mono_r, Z.mul_le_mono_nonneg_r; [apply Z.pow_nonneg; lia|].
    apply Z.div_le_mono; [apply Z.pow_pos_nonneg; lia|lia].
  - assert (k' = Z.log2 m' - 4 ∧ Z.log2 m - 4 < k') as [Ek' Hlog] by (unfold k, k', step_exp in *; lia).
    assert (0 < m') by (destruct (Z.eq_dec m' 0) as [->|]; [simpl in *; lia|lia]).
    pose proof (Z.log2_spec m' ltac:(lia)) as [HL _].
    assert (0 < 2 ^ (k' - 1)) by (apply Z.pow_pos_nonneg; lia).
    assert (0 < 2 ^ (k - 1)) by (apply Z.pow_pos_nonneg; lia).
    pose proof (pow2_scale 1 (k - 1) k ltac:(lia) ltac:(lia) ltac:(lia)) as E. change (2 ^ 1) with 2 in E.
    pose proof (pow2_scale k (Z.log2 m' - k) (Z.log2 m') ltac:(lia) ltac:(lia) ltac:(lia)) as E1.
    pose proof (pow2_scale 4 k' (Z.log2 m') ltac:(lia) ltac:(lia) ltac:(lia)) as E2.
    change (2 ^ 4) with 16 in E2.
    assert (m `div` 2 ^ k < 2 ^ (Z.log2 m' - k)).
    { apply Z.div_lt_upper_bound; [lia|]. rewrite <- E1.
      destruct (Z.eq_dec m 0) as [->|]; [apply Z.pow_pos_nonneg; lia|].
      pose proof (Z.log2_spec m ltac:(lia)) as [_ HU]. eapply Z.lt_le_trans; [exact HU|].
      apply Z.pow_le_mono_r; lia. }
    assert (16 ≤ m' `div` 2 ^ k') by (apply Z.div_le_lower_bound; lia).
    transitivity (2 ^ Z.log2 m'); [rewrite E1; nia|]. rewrite E2. nia.
Qed.

(** Both laws quantise the magnitude and restore the sign. *)
Definition signed (mid : Z → Z) (x : Z) : Z := if x >=? 0 then mid x else - mid (- x - 1).

Lemma signed_mono mid x y :
  (∀ m m', 0 ≤ m ≤ m' → mid m ≤ mid m') → 0 ≤ mid 0 → x ≤ y → signed mid x ≤ signed mid y.
Proof.
  intros Hm H0 Hxy. unfold signed. rewrite !Z.geb_leb.
  destruct (Z.leb_spec 0 x), (Z.leb_spec 0 y); try lia.
  - apply Hm. lia.
  - pose proof (Hm 0 y). pose proof (Hm 0 (- x - 1)). lia.
  - pose proof (Hm (- y - 1) (- x - 1)). lia.
Qed.

Definition ulaw_mid (m : Z) : Z :=
  let l := Z.min (m + 132) 32767 in midpoint (step_exp 3 l) l - 132.

Lemma alaw_signed x : alaw_quantise x = signed (λ m, midpoint (step_exp 4 m) m) x.
Proof. done. Qed.
Lemma ulaw_signed x : ulaw_quantise x = signed ulaw_mid x.
Proof.
  unfold ulaw_quantise, signed. rewrite Z.geb_leb.
  assert (∀ m, 0 ≤ m → (let l := Z.min (m + 132) 32767 in midpoint (Z.log2 l - 4) l - 132) = ulaw_mid m)
    as H; [|destruct (Z.leb_spec 0 x); rewrite <- H by lia; done].
  intros m Hm. unfold ulaw_mid, step_exp. cbv zeta. do 2 f_equal.
  pose proof (Z.log2_le_mono 128 (Z.min (m + 132) 32767) ltac:(lia)) as HL.
  change (Z.log2 128) with 7 in HL. lia.
Qed.

Lemma ulaw_mid_mono m m' : 0 ≤ m ≤ m' → ulaw_mid m ≤ ulaw_mid m'.
Proof.
  intros Hm. unfold ulaw_mid. apply Z.sub_le_mono_r, midpoint_mono; lia.
Qed.

Lemma signed_error mid x B :
  (∀ m, 0 ≤ m ≤ 32767 → - B m < mid m - m ≤ B m) →
  (∀ m m', 0 ≤ m ≤ m' → B m ≤ B m') → int16 x → Z.abs (signed mid x - x) ≤ B (Z.abs x).
Proof.
  intros He Hb Hx. unfold signed. rewrite Z.geb_leb. destruct (Z.leb_spec 0 x).
  - pose proof (He x ltac:(cint)). rewrite (Z.abs_eq x) by done. lia.
  - pose proof (He (- x - 1) ltac:(cint)). pose proof (Hb (- x - 1) (Z.abs x) ltac:(lia)). lia.
Qed.

Lemma ulaw_mid_error m : 0 ≤ m ≤ 32767 →
  - Z.max 4 ((m + 132) `div` 32) < ulaw_mid m - m ≤ Z.max 4 ((m + 132) `div` 32).
Proof.
  intros Hm. destruct (Z.leb_spec (m + 132) 32767).
  - unfold ulaw_mid. rewrite Z.min_l by lia.
    destruct (midpoint_error 3 (m + 132)) as [E1 E2]; [lia..|]. change (2 ^ (3 - 1)) with 4 in E2. lia.
  - unfold ulaw_mid. rewrite Z.min_r by lia.
    replace (midpoint (step_exp 3 32767) 32767 - 132) with 32124 by (by vm_compute). zdiv.
Qed.

(** * Frames *)

(** A frame function stores the image of its input and nothing else. *)
Lemma fill_image (f : Z → Z) (l dst : list Z) n :
  zlen l = n → n ≤ zlen dst →
  fill n (λ i, f (l.[i])) dst = (f <$> l) ++ drop (Z.to_nat n) dst.
Proof.
  intros Hl Hd. rewrite fill_spec by lia. by rewrite seqZ_map.
Qed.

Lemma alaw_code_roundtrip c : uint8 c → linear_to_alaw (alaw_to_linear c) = c.
Proof.
  intros Hc. apply (check_range_dec (λ c, linear_to_alaw (alaw_to_linear c) = c) 0 256);
    [by vm_compute|cint].
Qed.
Lemma ulaw_code_roundtrip c :
  uint8 c → linear_to_ulaw (ulaw_to_linear c) = if c =? 0x7F then 0xFF else c.
Proof.
  intros Hc. apply (check_range_dec (λ c, linear_to_ulaw (ulaw_to_linear c) =
    if c =? 0x7F then 0xFF else c) 0 256); [by vm_compute|cint].
Qed.

Lemma fmap_id_Forall {A} (P : A → Prop) (f g : A → A) l :
  (∀ x, P x → f x = g x) → Forall P l → f <$> l = g <$> l.
Proof. intros H Hl. apply Forall_fmap_ext_1. eapply Forall_impl; [|exact Hl]. done. Qed.

Lemma pcm_word s : int16 s →
  s16 (Z.lor (u8 (u16 s ≫ 8) ≪ 8) (u8 (u16 s))) = s.
Proof.
  intros Hs. rewrite shiftr_div, shiftl_mul by lia. change (2 ^ 8) with 256.
  assert (u8 (u16 s `div` 256) * 256 = u16 s `div` 256 * 256) as -> by cwrap.
  replace (Z.lor (u16 s `div` 256 * 256) (u8 (u16 s))) with (u16 s); [cwrap|].
  unfold u8. change 256 with (2 ^ 8). rewrite <- Z.shiftl_mul_pow2, <- Z.shiftr_div_pow2 by lia.
  rewrite <- Z.land_ones, <- Z.ldiff_ones_r by lia. apply Z.bits_inj'. intros i Hi.
  rewrite Z.lor_spec, Z.ldiff_spec, Z.land_spec. by destruct (Z.testbit (u16 s) i), (Z.testbit _ i).
Qed.

(** * Properties *)

(** 16-bit PCM round trip.  Encoding a frame of 16-bit samples writes two bytes per
    sample and nothing beyond them, and decoding these bytes gives back the samples,
    whatever the buffers contained. *)
Lemma pcm16b_roundtrip speech encoded decoded :
  Forall int16 speech → 2 * zlen speech ≤ zlen encoded → zlen speech ≤ zlen decoded →
  let n := zlen speech in
  let '(bytes, enc) := WebRtcPcm16b_Encode speech n encoded in
  bytes = 2 * n ∧ Forall uint8 (take (Z.to_nat bytes) enc) ∧
  drop (Z.to_nat bytes) enc = drop (Z.to_nat bytes) encoded ∧
  WebRtcPcm16b_Decode enc bytes decoded = (n, speech ++ drop (Z.to_nat n) decoded).
Proof.
  intros Hs He Hd. unfold WebRtcPcm16b_Encode, WebRtcPcm16b_Decode.
  rewrite (fill_pairs (zlen speech) (λ i, u8 (u16 (speech.[i]) ≫ 8)) (λ i, u8 (u16 (speech.[i])))) by lia.
  rewrite (seqZ_map (λ x, (u8 (u16 x ≫ 8), u8 (u16 x))) speech) by done.
  set (words := (λ x, (u8 (u16 x ≫ 8), u8 (u16 x))) <$> speech).
  assert (zlen (flat_map (λ p, [p.1; p.2]) words) = 2 * zlen speech) as HL.
  { rewrite flat_pairs_length. unfold words. by rewrite length_fmap. }
  rewrite take_prefix, drop_prefix by done. split; [done|]. split; [|split; [done|]].
  - unfold words. clear. induction speech as [|x l IH]; [constructor|].
    simpl. repeat (constructor; [apply u8_range|]). exact IH.
  - rewrite Z.mul_comm, Z.div_mul by lia. f_equal.
    rewrite fill_spec by lia. f_equal.
    rewrite (seqZ_pairs_prefix (λ a b, s16 (Z.lor (a ≪ 8) b))) by done.
    rewrite pairs_flat. unfold words. rewrite <- list_fmap_compose.
    rewrite (fmap_id_Forall int16 _ id); [apply list_fmap_id|apply pcm_word|done].
Qed.

Lemma pcm16b_roundtrip_witness :
  let '(bytes, enc) := WebRtcPcm16b_Encode [-32768; 258; -1] 3 [9; 9; 9; 9; 9; 9; 7] in
  bytes = 6 ∧ Forall uint8 (take (Z.to_nat bytes) enc) ∧
  drop (Z.to_nat bytes) enc = [7] ∧
  WebRtcPcm16b_Decode enc bytes [0; 0; 0; 5] = (3, [-32768; 258; -1; 5]).
Proof.
  apply (pcm16b_roundtrip [-32768; 258; -1] [9; 9; 9; 9; 9; 9; 7] [0; 0; 0; 5]);
    [repeat constructor; cint|simpl; lia..].
Defined.

(** G.711 companding.  For every 16-bit sample, decoding its A-law or mu-law code
    yields exactly the midpoint of the quantisation interval of its magnitude (one's
    complement for negative samples; mu-law on the biased magnitude limited to 15 bits).
    Companding is monotone, and its error is at most 8 or 1/32 of the magnitude for A-law
    and at most 4 or 1/32 of the biased magnitude for mu-law. *)
Lemma g711_companding x y :
  int16 x → int16 y →
  let A x := alaw_to_linear (linear_to_alaw x) in
  let U x := ulaw_to_linear (linear_to_ulaw x) in
  A x = alaw_quantise x ∧ U x = ulaw_quantise x ∧
  (x ≤ y → A x ≤ A y ∧ U x ≤ U y) ∧
  Z.abs (A x - x) ≤ Z.max 8 (Z.abs x `div` 32) ∧
  Z.abs (U x - x) ≤ Z.max 4 ((Z.abs x + 132) `div` 32).
Proof.
  intros Hx Hy. cbv beta zeta. rewrite !alaw_requantise, !ulaw_requantise by done.
  do 2 (split; [done|]). rewrite !alaw_signed, !ulaw_signed. split; [|split].
  - intros Hxy. split; apply signed_mono; try done.
    + intros. by apply midpoint_mono.
    + apply ulaw_mid_mono.
  - apply (signed_error _ _ (λ m, Z.max 8 (m `div` 32))); [|intros; zdiv|done].
    intros m Hm. destruct (midpoint_error 4 m) as [E1 E2]; [lia..|]. change (2 ^ (4 - 1)) with 8 in E2. lia.
  - apply (signed_error _ _ (λ m, Z.max 4 ((m + 132) `div` 32))); [apply ulaw_mid_error|intros; zdiv|done].
Qed.

Lemma g711_companding_witness :
  let A x := alaw_to_linear (linear_to_alaw x) in
  let U x := ulaw_to_linear (linear_to_ulaw x) in
  A (-32768) = -32256 ∧ U (-32768) = -32124 ∧
  (-32768 ≤ 1000 → A (-32768) ≤ A 1000 ∧ U (-32768) ≤ U 1000) ∧
  Z.abs (A (-32768) - -32768) ≤ Z.max 8 (Z.abs (-32768) `div` 32) ∧
  Z.abs (U (-32768) - -32768) ≤ Z.max 4 ((Z.abs (-32768) + 132) `div` 32).
Proof. apply (g711_companding (-32768) 1000); cint. Defined.

(** G.711 frames.  The decoders store one sample per byte, report speech type 1 and
    the number of samples, and encoding a decoded frame gives back its code words (A-law
    exactly; mu-law up to negative zero, 0x7F, which becomes 0xFF); no word beyond the
    frame is changed, whatever the buffers contained. *)
Lemma g711_frames_roundtrip codes decoded encoded :
  Forall uint8 codes → zlen codes ≤ zlen decoded → zlen codes ≤ zlen encoded →
  let n := zlen codes in
  let rest := drop (Z.to_nat n) encoded in
  (let '(m, pcm, speechType) := WebRtcG711_DecodeA codes n decoded in
   m = n ∧ speechType = 1 ∧ pcm = (alaw_to_linear <$> codes) ++ drop (Z.to_nat n) decoded ∧
   WebRtcG711_EncodeA (take (Z.to_nat n) pcm) m encoded = (n, codes ++ rest)) ∧
  (let '(m, pcm, speechType) := WebRtcG711_DecodeU codes n decoded in
   m = n ∧ speechType = 1 ∧ pcm = (ulaw_to_linear <$> codes) ++ drop (Z.to_nat n) decoded ∧
   WebRtcG711_EncodeU (take (Z.to_nat n) pcm) m encoded =
     (n, ((λ c, if c =? 0x7F then 0xFF else c) <$> codes) ++ rest)).
Proof.
  intros Hc Hd He. cbv zeta.
  unfold WebRtcG711_DecodeA, WebRtcG711_DecodeU, WebRtcG711_EncodeA, WebRtcG711_EncodeU.
  rewrite !(fill_image _ codes) by done.
  rewrite !take_prefix by (by rewrite length_fmap).
  rewrite !fill_image by (rewrite ?length_fmap; done).
  rewrite <- !list_fmap_compose.
  rewrite (fmap_id_Forall uint8 (linear_to_alaw ∘ alaw_to_linear) id), list_fmap_id
    by (done || apply alaw_code_roundtrip).
  rewrite (fmap_id_Forall uint8 (linear_to_ulaw ∘ ulaw_to_linear) (λ c, if c =? 0x7F then 0xFF else c))
    by (done || apply ulaw_code_roundtrip). done.
Qed.

Lemma g711_frames_roundtrip_witness :
  let codes := [0; 127; 200; 255] in
  (let '(m, pcm, speechType) := WebRtcG711_DecodeA codes 4 [1; 1; 1; 1; 1] in
   m = 4 ∧ speechType = 1 ∧ pcm = (alaw_to_linear <$> codes) ++ [1] ∧
   WebRtcG711_EncodeA (take (Z.to_nat 4) pcm) m [2; 2; 2; 2] = (4, codes ++ [])) ∧
  (let '(m, pcm, speechType) := WebRtcG711_DecodeU codes 4 [1; 1; 1; 1; 1] in
   m = 4 ∧ speechType = 1 ∧ pcm = (ulaw_to_linear <$> codes) ++ [1] ∧
   WebRtcG711_EncodeU (take (Z.to_nat 4) pcm) m [2; 2; 2; 2] = (4, [0; 255; 200; 255] ++ [])).
Proof.
  apply (g711_frames_roundtrip [0; 127; 200; 255] [1; 1; 1; 1; 1] [2; 2; 2; 2]);
    [repeat constructor; cint|simpl; lia..].
Defined.

(** The portable [bottom_bit] counts positions from one: it exceeds the index of the
    lowest set bit, which its description and the other builds return, by one. *)
Lemma bottom_bit_off_by_one k : 0 ≤ k < 32 → bottom_bit (2 ^ k) = k + 1.
Proof.
  intros Hk. apply (check_range_dec (λ k, bottom_bit (2 ^ k) = k + 1) 0 32); [by vm_compute|lia].
Qed.
