(* ===== verification/Fft.v ===== *)
(** The fixed-point FFT of common_audio/signal_processing: complex_bit_reverse.c,
    complex_fft.c (portable arithmetic) and real_fft.c.

    An array of [n] complex numbers is the list of its [2 n] interleaved words; [ld] and
    [st] access element [i].  The loops of the transforms are the nest of the source:
    over stages ([l] doubling), over the offset [m] of a twiddle factor, and over the
    blocks ([i] advancing by [istep]).  The theorems show that the bit reversal permutes
    by reversed indices, that it followed by the in-place stages computes the recursive
    decimation-in-time transform, that the inverse transform never leaves 16 bits on any
    input, and that the forward one does not for inputs inside a circle. *)
From S2P Require Import Prelude SplInl MinMax FftTables.

(** * Definitions *)

Abbreviation C := (Z * Z)%type.

Definition ld (d : list Z) (i : Z) : C := (d.[2 * i], d.[2 * i + 1]).
Definition st (d : list Z) (i : Z) (v : C) : list Z := wr (wr d (2 * i) v.1) (2 * i + 1) v.2.

(** ** Bit reversal *)

(** The exchange of two [int32_t] words of [complex_data_ptr]. *)
Definition swap_words (d : list Z) (a b : Z) : list Z :=
  let temp := ld d a in
  let d := st d a (ld d b) in
  st d b temp.

Definition reverse_table (index : list Z) (length : Z) (d : list Z) : list Z :=
  for_up 0 (Z.to_nat (length `div` 2)) (λ t d,
    let m := 2 * t in swap_words d (index.[m]) (index.[m + 1])) d.

(** [do { l >>= 1; } while (l > bound);]  [l] has at most [fuel] bits. *)
Fixpoint halve_while (fuel : nat) (l bound : Z) : Z :=
  let l := l ≫ 1 in
  match fuel with
  | O => l
  | S fuel => if l >? bound then halve_while fuel l bound else l
  end.

(** The body of the general loop; the state is [(complex_data, mr)]. *)
Definition reverse_step (stages n nn : Z) (m : Z) (s : list Z * Z) : list Z * Z :=
  let '(d, mr) := s in
  let l := halve_while (Z.to_nat stages) n (nn - mr) in
  let mr := Z.land mr (l - 1) + l in
  if mr <=? m then (d, mr) else (swap_words d m mr, mr).

Definition WebRtcSpl_ComplexBitReverse (complex_data : list Z) (stages : Z) : list Z :=
  if (stages =? 7) || (stages =? 8) then
    let '(length, index) := if stages =? 8 then (240, index_8) else (112, index_7) in
    reverse_table index length complex_data
  else
    let n := shl32 1 stages in
    let nn := n - 1 in
    (for_up 1 (Z.to_nat nn) (reverse_step stages n nn) (complex_data, 0)).1.

(** ** Butterflies *)

Definition CFFTSFT : Z := 14.
Definition CFFTRND : Z := 1.
Definition CFFTRND2 : Z := 16384.
Definition CIFFTSFT : Z := 14.
Definition CIFFTRND : Z := 1.

(** Twiddle factors [(wr, wi)] of the forward and of the inverse transform. *)
Definition fft_twiddle (j : Z) : C := (kSinTable1024.[j + 256], s16 (- kSinTable1024.[j])).
Definition ifft_twiddle (j : Z) : C := (kSinTable1024.[j + 256], kSinTable1024.[j]).

(** Mode 0, on element [i] ([q]) and element [j] ([x]); the result is [(new j, new i)]. *)
Definition butterfly_low (shift : Z) (w q x : C) : C * C :=
  let tr32 := (w.1 * x.1 ⊟ w.2 * x.2) ≫ 15 in
  let ti32 := (w.1 * x.2 ⊞ w.2 * x.1) ≫ 15 in
  ((s16 ((q.1 ⊟ tr32) ≫ shift), s16 ((q.2 ⊟ ti32) ≫ shift)),
   (s16 ((q.1 ⊞ tr32) ≫ shift), s16 ((q.2 ⊞ ti32) ≫ shift))).

(** Mode 1. *)
Definition butterfly_high (sft rnd rnd2 shift : Z) (w q x : C) : C * C :=
  let tr32 := (w.1 * x.1 ⊟ w.2 * x.2 ⊞ rnd) ≫ (15 - sft) in
  let ti32 := (w.1 * x.2 ⊞ w.2 * x.1 ⊞ rnd) ≫ (15 - sft) in
  let qr32 := q.1 ⊠ (1 ≪ sft) in
  let qi32 := q.2 ⊠ (1 ≪ sft) in
  ((s16 ((qr32 ⊟ tr32 ⊞ rnd2) ≫ (shift + sft)), s16 ((qi32 ⊟ ti32 ⊞ rnd2) ≫ (shift + sft))),
   (s16 ((qr32 ⊞ tr32 ⊞ rnd2) ≫ (shift + sft)), s16 ((qi32 ⊞ ti32 ⊞ rnd2) ≫ (shift + sft)))).

(** One stage: [for (m ...) { ... for (i = m; i < n; i += istep) { ... } }]. *)
Definition fft_stage (bf : C → C → C → C * C) (twiddle : Z → C) (n l k : Z) (frfi : list Z)
  : list Z :=
  let istep := l ≪ 1 in
  for_up 0 (Z.to_nat l) (λ m frfi,
    let w := twiddle (m ≪ k) in
    for_up 0 (Z.to_nat ((n - m + istep - 1) `div` istep)) (λ t frfi,
      let i := m + t * istep in
      let j := i + l in
      let '(at_j, at_i) := bf w (ld frfi i) (ld frfi j) in
      st (st frfi j at_j) i at_i) frfi) frfi.

(** ** The transforms *)

Definition fft_butterfly (mode : Z) : C → C → C → C * C :=
  if mode =? 0 then butterfly_low 1 else butterfly_high CFFTSFT CFFTRND CFFTRND2 1.

(** [while (l < n) { ...; --k; l = istep; }] *)
Fixpoint fft_loop (fuel : nat) (mode n l k : Z) (frfi : list Z) : list Z :=
  match fuel with
  | O => frfi
  | S fuel =>
      if l <? n
      then fft_loop fuel mode n (l ≪ 1) (k - 1) (fft_stage (fft_butterfly mode) fft_twiddle n l k frfi)
      else frfi
  end.

Definition WebRtcSpl_ComplexFFT (frfi : list Z) (stages mode : Z) : Z * list Z :=
  let n := shl32 1 stages in
  if n >? 1024 then (-1, frfi)
  else (0, fft_loop (S (Z.to_nat stages)) mode n 1 (10 - 1) frfi).

Section ifft.
Context `{MaxAbsValueW16_impl}.

(** "variable scaling, depending upon data": [shift] and [round2] of a stage. *)
Definition ifft_shift (tmp32 : Z) : Z :=
  (if tmp32 >? 13573 then 1 else 0) + (if tmp32 >? 27146 then 1 else 0).
Definition ifft_round2 (shift : Z) : Z := 8192 ≪ shift.

Definition ifft_butterfly (mode shift : Z) : C → C → C → C * C :=
  if mode =? 0 then butterfly_low shift
  else butterfly_high CIFFTSFT CIFFTRND (ifft_round2 shift) shift.

(** The loop of the inverse transform; [bf shift] is the butterfly it uses. *)
Fixpoint ifft_loop (bf : Z → C → C → C → C * C) (fuel : nat) (n l k scale : Z)
    (frfi : list Z) : Z * list Z :=
  match fuel with
  | O => (scale, frfi)
  | S fuel =>
      if l <? n then
        let shift := ifft_shift (WebRtcSpl_MaxAbsValueW16 (slice frfi 0 (2 * n))) in
        ifft_loop bf fuel n (l ≪ 1) (k - 1) (scale + shift)
          (fft_stage (bf shift) ifft_twiddle n l k frfi)
      else (scale, frfi)
  end.

Definition WebRtcSpl_ComplexIFFT (frfi : list Z) (stages mode : Z) : Z * list Z :=
  let n := u64 (1 ≪ stages) in
  if n >? 1024 then (-1, frfi)
  else ifft_loop (ifft_butterfly mode) (S (Z.to_nat stages)) n 1 (10 - 1) 0 frfi.

(** ** Real transforms *)

Definition kMaxFFTOrder : Z := 10.

Record RealFFT := mkRealFFT { order : Z }.

(** [malloc_ok]: whether the allocation succeeds. *)
Definition WebRtcSpl_CreateRealFFT (malloc_ok : bool) (order : Z) : option RealFFT :=
  if (order >? kMaxFFTOrder) || (order <? 0) then None
  else if malloc_ok then Some (mkRealFFT order) else None.

(** [complex_buffer] is the local array with its content on entry. *)
Definition WebRtcSpl_RealForwardFFT (self : RealFFT) (complex_buffer : list Z)
    (real_data_in complex_data_out : list Z) : Z * list Z :=
  let n := shl32 1 (order self) in
  let complex_buffer := for_up 0 (Z.to_nat n) (λ i b,
    wr (wr b (2 * i) (real_data_in.[i])) (2 * i + 1) 0) complex_buffer in
  let complex_buffer := WebRtcSpl_ComplexBitReverse complex_buffer (order self) in
  let '(result, complex_buffer) := WebRtcSpl_ComplexFFT complex_buffer (order self) 1 in
  (result, store complex_data_out 0 (slice complex_buffer 0 (n + 2))).

Definition WebRtcSpl_RealInverseFFT (self : RealFFT) (complex_buffer : list Z)
    (complex_data_in real_data_out : list Z) : Z * list Z :=
  let n := shl32 1 (order self) in
  let complex_buffer := store complex_buffer 0 (slice complex_data_in 0 (n + 2)) in
  let complex_buffer := for_up 0 (Z.to_nat ((n - 1) `div` 2)) (λ t b,
    let i := n + 2 + 2 * t in
    wr (wr b i (complex_data_in.[2 * n - i])) (i + 1) (s16 (- complex_data_in.[2 * n - i + 1])))
    complex_buffer in
  let complex_buffer := WebRtcSpl_ComplexBitReverse complex_buffer (order self) in
  let '(result, complex_buffer) := WebRtcSpl_ComplexIFFT complex_buffer (order self) 1 in
  (result, fill n (λ i, complex_buffer.[2 * i]) real_data_out).

End ifft.

(** * Complex elements of an array *)

Lemma st_length d i v : length (st d i v) = length d.
Proof. unfold st. by rewrite !wr_length. Qed.

Lemma ld_st_eq d i v : 0 ≤ i → 2 * i + 1 < zlen d → ld (st d i v) i = v.
Proof.
  intros. unfold ld, st. rewrite rd_wr_ne by lia.
  rewrite !rd_wr_eq by (rewrite ?wr_length; lia). by destruct v.
Qed.

Lemma ld_st_ne d i j v : i ≠ j → ld (st d i v) j = ld d j.
Proof. intros. unfold ld, st. by rewrite !rd_wr_ne by lia. Qed.

Lemma ld_swap d a b p :
  0 ≤ a → 0 ≤ b → 2 * a + 1 < zlen d → 2 * b + 1 < zlen d →
  ld (swap_words d a b) p = if p =? b then ld d a else if p =? a then ld d b else ld d p.
Proof.
  intros. unfold swap_words. cbv zeta.
  destruct (Z.eqb_spec p b) as [->|]; [by rewrite ld_st_eq by (rewrite ?st_length; lia)|].
  rewrite ld_st_ne by lia. destruct (Z.eqb_spec p a) as [->|]; [by rewrite ld_st_eq by lia|].
  by rewrite ld_st_ne by lia.
Qed.

(** * One stage, element by element *)

Section stage.
Context (bf : C → C → C → C * C) (twiddle : Z → C) (n l k blocks : Z).
Hypothesis Hl : 0 < l.
Hypothesis Hn : n = blocks * (2 * l).
Hypothesis Hb : 0 ≤ blocks.

(** Block and offset of an element: both halves of a block have the same offsets. *)
Definition blk (p : Z) : Z := p `div` (2 * l).
Definition pos (p : Z) : Z := p `mod` (2 * l).
Definition off (p : Z) : Z := if pos p <? l then pos p else pos p - l.

(** What a stage stores at element [p], from the elements [x] before the stage. *)
Definition stage_value (x : Z → C) (p : Z) : C :=
  if pos p <? l then (bf (twiddle (pos p ≪ k)) (x p) (x (p + l))).2
  else (bf (twiddle ((pos p - l) ≪ k)) (x (p - l)) (x p)).1.

Lemma pos_spec p : p = blk p * (2 * l) + pos p ∧ 0 ≤ pos p < 2 * l.
Proof.
  unfold blk, pos. pose proof (Z.div_mod p (2 * l) ltac:(lia)).
  pose proof (Z.mod_pos_bound p (2 * l) ltac:(lia)). lia.
Qed.

Lemma pos_unique p t r : p = t * (2 * l) + r → 0 ≤ r < 2 * l → blk p = t ∧ pos p = r.
Proof.
  intros -> Hr. unfold blk, pos. split.
  - symmetry. apply (Z.div_unique _ _ _ r); lia.
  - symmetry. apply (Z.mod_unique _ _ t); lia.
Qed.

Lemma blk_bound p : 0 ≤ p < n → 0 ≤ blk p < blocks.
Proof.
  intros Hp. unfold blk. split; [apply Z.div_pos; lia|]. apply Z.div_lt_upper_bound; lia.
Qed.

(** Elements finished after [t] turns of the inner loop for offset [m]. *)
Definition done_at (m t p : Z) : bool := (off p <? m) || ((off p =? m) && (blk p <? t)).

Definition progress (d0 : list Z) (m t : Z) (d : list Z) : Prop :=
  length d = length d0 ∧ (∀ q, 2 * n ≤ q → d.[q] = d0.[q]) ∧
  ∀ p, 0 ≤ p < n → ld d p = if done_at m t p then stage_value (ld d0) p else ld d0 p.

Lemma off_eq p m : 0 ≤ m < l → off p = m ↔ pos p = m ∨ pos p = m + l.
Proof. intros Hm. pose proof (pos_spec p). unfold off. destruct (Z.ltb_spec (pos p) l); lia. Qed.

(** One turn of the inner loop. *)
Lemma inner_turn d0 m t d :
  2 * n ≤ zlen d0 → 0 ≤ m < l → 0 ≤ t < blocks → progress d0 m t d →
  let i := m + t * (2 * l) in let j := i + l in
  let '(at_j, at_i) := bf (twiddle (m ≪ k)) (ld d i) (ld d j) in
  progress d0 m (t + 1) (st (st d j at_j) i at_i).
Proof.
  intros Hd Hm Ht (HL & HT & Hv) i j.
  destruct (pos_unique i t m) as [Bi Pi]; [unfold i; lia..|].
  destruct (pos_unique j t (m + l)) as [Bj Pj]; [unfold i, j; lia..|].
  assert (0 ≤ i < n) as Hi by (unfold i; nia). assert (0 ≤ j < n) as Hj by (unfold i, j; nia).
  assert (∀ p, (p = i ∨ p = j) ↔ (off p = m ∧ blk p = t)) as Hij.
  { intros p. rewrite off_eq by done. pose proof (pos_spec p) as [Ep _]. split.
    - intros [->| ->]; lia.
    - intros [[H|H] H']; [left|right]; rewrite H, H' in Ep; unfold j, i; lia. }
  assert (done_at m t i = false ∧ done_at m t j = false) as [Di Dj].
  { destruct (proj1 (Hij i)) as [Oi _]; [by left|]. destruct (proj1 (Hij j)) as [Oj _]; [by right|].
    unfold done_at. rewrite Oi, Oj, Bi, Bj, !Z.ltb_irrefl, !Z.eqb_refl. done. }
  pose proof (Hv i Hi) as Vi. pose proof (Hv j Hj) as Vj. rewrite Di in Vi. rewrite Dj in Vj.
  rewrite Vi, Vj. destruct (bf (twiddle (m ≪ k)) (ld d0 i) (ld d0 j)) as [at_j at_i] eqn:E.
  split; [by rewrite !st_length|].
  split; [intros q Hq; unfold st; rewrite !rd_wr_ne by lia; by apply HT|]. intros p Hp.
  destruct (Z.eq_dec p i) as [->|Hpi]; [|destruct (Z.eq_dec p j) as [->|Hpj]].
  - rewrite ld_st_eq by (rewrite ?st_length; lia).
    replace (done_at m (t + 1) i) with true.
    + unfold stage_value. rewrite Pi. destruct (Z.ltb_spec m l); [|lia]. fold j. by rewrite E.
    + unfold done_at. destruct (proj1 (Hij i)) as [-> ->]; [by left|].
      rewrite Z.eqb_refl. destruct (Z.ltb_spec t (t + 1)); [|lia]. by rewrite orb_true_r.
  - rewrite ld_st_ne by lia. rewrite ld_st_eq by lia.
    replace (done_at m (t + 1) j) with true.
    + unfold stage_value. rewrite Pj. destruct (Z.ltb_spec (m + l) l); [lia|].
      replace (m + l - l) with m by lia. replace (j - l) with i by (unfold j; lia). by rewrite E.
    + unfold done_at. destruct (proj1 (Hij j)) as [-> ->]; [by right|].
      rewrite Z.eqb_refl. destruct (Z.ltb_spec t (t + 1)); [|lia]. by rewrite orb_true_r.
  - rewrite !ld_st_ne by lia. rewrite Hv by done.
    replace (done_at m (t + 1) p) with (done_at m t p); [done|].
    unfold done_at. f_equal. destruct (Z.eqb_spec (off p) m) as [Ho|]; [|done]. simpl.
    assert (blk p ≠ t) by (intros Hb'; destruct (proj2 (Hij p)); [done|lia..]).
    destruct (Z.ltb_spec (blk p) t), (Z.ltb_spec (blk p) (t + 1)); (done || lia).
Qed.

Lemma fft_stage_spec d0 :
  2 * n ≤ zlen d0 →
  let d := fft_stage bf twiddle n l k d0 in
  length d = length d0 ∧ (∀ q, 2 * n ≤ q → d.[q] = d0.[q]) ∧
  ∀ p, 0 ≤ p < n → ld d p = stage_value (ld d0) p.
Proof.
  intros Hd. unfold fft_stage. rewrite shiftl_mul by lia. change (2 ^ 1) with 2.
  rewrite (Z.mul_comm l 2).
  pose proof (for_up_inv (λ m d, progress d0 m 0 d) 0 (Z.to_nat l)) as Houter.
  rewrite Z2Nat.id, Z.add_0_l in Houter by lia.
  match goal with |- context [for_up 0 (Z.to_nat l) ?b d0] => specialize (Houter b d0) end.
  destruct Houter as (HL & HT & HV).
  - split; [done|]. split; [done|]. intros p Hp. unfold done_at.
    destruct (Z.ltb_spec (off p) 0); [unfold off in *; pose proof (pos_spec p);
      destruct (Z.ltb_spec (pos p) l); lia|].
    destruct (Z.ltb_spec (blk p) 0); [pose proof (blk_bound p Hp); lia|]. by rewrite andb_false_r.
  - intros m d Hm HP.
    replace ((n - m + 2 * l - 1) `div` (2 * l)) with blocks.
    2:{ apply (Z.div_unique _ _ _ (2 * l - 1 - m)); lia. }
    pose proof (for_up_inv (λ t d, progress d0 m t d) 0 (Z.to_nat blocks)) as Hinner.
    rewrite Z2Nat.id, Z.add_0_l in Hinner by lia.
    match goal with |- context [for_up 0 (Z.to_nat blocks) ?b d] => specialize (Hinner b d) end.
    destruct Hinner as (HL' & HT' & HV'); [done| |].
    + intros t d' Ht HP'. pose proof (inner_turn d0 m t d' Hd ltac:(lia) ltac:(lia) HP') as Hturn.
      cbv zeta in Hturn |- *. by destruct (bf _ _ _).
    + split; [done|]. split; [done|]. intros p Hp. rewrite HV' by done. pose proof (blk_bound p Hp).
      replace (done_at (m + 1) 0 p) with (done_at m blocks p); [done|]. unfold done_at.
      destruct (Z.ltb_spec (off p) m), (Z.eqb_spec (off p) m), (Z.ltb_spec (off p) (m + 1)),
        (Z.eqb_spec (off p) (m + 1)), (Z.ltb_spec (blk p) blocks), (Z.ltb_spec (blk p) 0); (done || lia).
  - split; [done|]. split; [done|]. intros p Hp. rewrite HV by done. unfold done_at.
    destruct (Z.ltb_spec (off p) l); [done|]. unfold off in *. pose proof (pos_spec p).
    destruct (Z.ltb_spec (pos p) l); lia.
Qed.
End stage.

(** * Reversed indices *)

(** The [s] low bits of [p] in reverse order. *)
Fixpoint rev_bits (s : nat) (p : Z) : Z :=
  match s with
  | O => 0
  | S s => p `mod` 2 * 2 ^ Z.of_nat s + rev_bits s (p `div` 2)
  end.

Lemma pow2_S (s : nat) : 2 ^ Z.of_nat (S s) = 2 * 2 ^ Z.of_nat s.
Proof. rewrite Nat2Z.inj_succ, Z.pow_succ_r; lia. Qed.
Lemma pow2_pos (s : nat) : 0 < 2 ^ Z.of_nat s.
Proof. apply Z.pow_pos_nonneg; lia. Qed.
#[local] Hint Resolve pow2_pos : core.

Lemma rev_bits_range s p : 0 ≤ rev_bits s p < 2 ^ Z.of_nat s.
Proof.
  revert p. induction s as [|s IH]; intros p; [simpl; lia|]. cbn [rev_bits]. rewrite pow2_S.
  specialize (IH (p `div` 2)). pose proof (Z.mod_pos_bound p 2 ltac:(lia)).
  pose proof (pow2_pos s). nia.
Qed.

Lemma rev_bits_even s b : rev_bits (S s) (2 * b) = rev_bits s b.
Proof.
  cbn [rev_bits]. replace ((2 * b) `mod` 2) with 0 by zdiv.
  replace ((2 * b) `div` 2) with b by zdiv. lia.
Qed.
Lemma rev_bits_odd s b : rev_bits (S s) (2 * b + 1) = 2 ^ Z.of_nat s + rev_bits s b.
Proof.
  cbn [rev_bits]. replace ((2 * b + 1) `mod` 2) with 1 by zdiv.
  replace ((2 * b + 1) `div` 2) with b by zdiv. lia.
Qed.

(** The leading bit becomes the lowest one. *)
Lemma rev_bits_top s a q :
  0 ≤ a < 2 → 0 ≤ q < 2 ^ Z.of_nat s →
  rev_bits (S s) (a * 2 ^ Z.of_nat s + q) = 2 * rev_bits s q + a.
Proof.
  revert q. induction s as [|s IH]; intros q Ha Hq.
  - simpl in Hq. replace q with 0 by lia. simpl. rewrite Z.mul_1_r, Z.add_0_r, Z.mod_small by lia. lia.
  - rewrite pow2_S in Hq |- *. set (P := 2 ^ Z.of_nat s) in *.
    change (rev_bits (S (S s)) (a * (2 * P) + q)) with
      ((a * (2 * P) + q) `mod` 2 * 2 ^ Z.of_nat (S s) + rev_bits (S s) ((a * (2 * P) + q) `div` 2)).
    replace (a * (2 * P) + q) with (q + (a * P) * 2) by ring.
    rewrite Z.mod_add, Z.div_add, (Z.add_comm (q `div` 2)) by lia.
    rewrite IH by (done || zdiv). rewrite pow2_S. fold P. cbn [rev_bits]. fold P. ring.
Qed.

Lemma rev_bits_involutive s p :
  0 ≤ p < 2 ^ Z.of_nat s → rev_bits s (rev_bits s p) = p.
Proof.
  revert p. induction s as [|s IH]; intros p Hp; [simpl in *; lia|]. rewrite pow2_S in Hp.
  change (rev_bits (S s) p) with (p `mod` 2 * 2 ^ Z.of_nat s + rev_bits s (p `div` 2)).
  rewrite rev_bits_top by (apply Z.mod_pos_bound || apply rev_bits_range; lia).
  rewrite IH by zdiv. zdiv.
Qed.

(** The search for the highest zero bit adds one to the reversed index. *)
Lemma rev_bits_succ s c :
  0 ≤ c → c + 1 < 2 ^ Z.of_nat s →
  let r := rev_bits s c in
  let l := halve_while s (2 ^ Z.of_nat s) (2 ^ Z.of_nat s - 1 - r) in
  Z.land r (l - 1) + l = rev_bits s (c + 1) ∧ ∃ i : nat, (i < s)%nat ∧ l = 2 ^ Z.of_nat i.
Proof.
  revert c. induction s as [|s IH]; intros c Hc Hc1; [simpl in Hc1; lia|].
  pose proof (pow2_pos s) as HP. cbn [halve_while]. rewrite pow2_S in Hc1 |- *.
  set (P := 2 ^ Z.of_nat s) in *. cbv zeta.
  replace ((2 * P) ≫ 1) with P by (rewrite shiftr_div by lia; change (2 ^ 1) with 2; zdiv).
  pose proof (rev_bits_range s (c `div` 2)) as Hr. fold P in Hr.
  destruct (Z.eq_dec (c `mod` 2) 0) as [Ec|Ec].
  - assert (c = 2 * (c `div` 2)) as Eq by zdiv. set (b := c `div` 2) in *. rewrite Eq.
    rewrite rev_bits_even, rev_bits_odd. fold P. rewrite Z.gtb_ltb.
    destruct (Z.ltb_spec (2 * P - 1 - rev_bits s b) P); [lia|].
    split; [|exists s; split; [lia|done]].
    replace (P - 1) with (Z.ones (Z.of_nat s)) by (rewrite Z.ones_equiv; unfold P; lia).
    rewrite Z.land_ones, Z.mod_small by (fold P; lia). fold P. lia.
  - assert (c = 2 * (c `div` 2) + 1) as Eq by zdiv. set (b := c `div` 2) in *.
    specialize (IH b ltac:(unfold b; zdiv) ltac:(lia)) as (IH & i & Hi & El). fold P in IH, El.
    rewrite Eq. rewrite rev_bits_odd. replace (2 * b + 1 + 1) with (2 * (b + 1)) by lia.
    rewrite rev_bits_even. fold P. rewrite Z.gtb_ltb.
    destruct (Z.ltb_spec (2 * P - 1 - (P + rev_bits s b)) P); [|lia].
    replace (2 * P - 1 - (P + rev_bits s b)) with (P - 1 - rev_bits s b) by lia.
    split; [|exists i; split; [lia|done]]. rewrite <- IH, El. f_equal.
    replace (2 ^ Z.of_nat i - 1) with (Z.ones (Z.of_nat i)) by (rewrite Z.ones_equiv; lia).
    rewrite !Z.land_ones by lia. unfold P.
    replace (Z.of_nat s) with ((Z.of_nat s - Z.of_nat i) + Z.of_nat i) by lia.
    rewrite Z.pow_add_r by lia. rewrite Z.add_comm, Z.mod_add by (pose proof (pow2_pos i); lia). done.
Qed.

(** * Bit reversal *)

Lemma swap_length d a b : length (swap_words d a b) = length d.
Proof. unfold swap_words. by rewrite !st_length. Qed.

(** ** The general loop *)

(** After turn [m], [mr] is the reversed [m] and the elements whose smaller index of the
    pair is at most [m] are in place. *)
Definition reversed_upto (s : nat) (d0 : list Z) (m : Z) (st : list Z * Z) : Prop :=
  st.2 = rev_bits s m ∧ length st.1 = length d0 ∧
  ∀ p, 0 ≤ p < 2 ^ Z.of_nat s →
    ld st.1 p = if Z.min p (rev_bits s p) <=? m then ld d0 (rev_bits s p) else ld d0 p.

Lemma reverse_turn s d0 m d mr :
  2 * 2 ^ Z.of_nat s ≤ zlen d0 → 0 ≤ m → m + 1 < 2 ^ Z.of_nat s →
  reversed_upto s d0 m (d, mr) →
  reversed_upto s d0 (m + 1)
    (reverse_step (Z.of_nat s) (2 ^ Z.of_nat s) (2 ^ Z.of_nat s - 1) (m + 1) (d, mr)).
Proof.
  intros Hd Hm Hm1 (Emr & HL & HV). cbn [fst snd] in *. subst mr. unfold reverse_step.
  rewrite Nat2Z.id. destruct (rev_bits_succ s m Hm Hm1) as [E _]. cbv zeta in E. rewrite E. clear E.
  set (r := rev_bits s (m + 1)). pose proof (rev_bits_range s (m + 1)) as Hr. fold r in Hr.
  assert (rev_bits s r = m + 1) as Er by (apply rev_bits_involutive; lia).
  assert (∀ p, 0 ≤ p < 2 ^ Z.of_nat s → rev_bits s p = m + 1 → p = r) as Hinj.
  { intros p Hp Ep. rewrite <- (rev_bits_involutive s p Hp), Ep. done. }
  destruct (Z.leb_spec r (m + 1)) as [Hle|Hgt]; (split; [done|]); (split; [cbn [fst]; rewrite ?swap_length; done|]);
    cbn [fst]; intros p Hp; pose proof (HV p Hp) as Hv.
  - rewrite Hv. destruct (Z.leb_spec (Z.min p (rev_bits s p)) m),
      (Z.leb_spec (Z.min p (rev_bits s p)) (m + 1)); try done; try lia.
    assert (rev_bits s p = p) as ->; [|done].
    destruct (Z.eq_dec p (m + 1)) as [->|]; [fold r; fold r in H; lia|].
    assert (rev_bits s p = m + 1) by lia. pose proof (Hinj p Hp). lia.
  - rewrite ld_swap by lia.
    destruct (Z.eqb_spec p r) as [->|]; [|destruct (Z.eqb_spec p (m + 1)) as [->|]].
    + rewrite Er. destruct (Z.leb_spec (Z.min r (m + 1)) (m + 1)); [|lia].
      rewrite HV by lia. fold r. by destruct (Z.leb_spec (Z.min (m + 1) r) m); [lia|].
    + fold r. destruct (Z.leb_spec (Z.min (m + 1) r) (m + 1)); [|lia].
      rewrite HV by lia. rewrite Er. by destruct (Z.leb_spec (Z.min r (m + 1)) m); [lia|].
    + rewrite Hv. destruct (Z.leb_spec (Z.min p (rev_bits s p)) m),
        (Z.leb_spec (Z.min p (rev_bits s p)) (m + 1)); try done; try lia.
      exfalso. assert (rev_bits s p = m + 1) by lia. pose proof (Hinj p Hp). lia.
Qed.

Lemma reverse_general s d0 :
  2 * 2 ^ Z.of_nat s ≤ zlen d0 →
  let d := (for_up 1 (Z.to_nat (2 ^ Z.of_nat s - 1))
    (reverse_step (Z.of_nat s) (2 ^ Z.of_nat s) (2 ^ Z.of_nat s - 1)) (d0, 0)).1 in
  length d = length d0 ∧ ∀ p, 0 ≤ p < 2 ^ Z.of_nat s → ld d p = ld d0 (rev_bits s p).
Proof.
  intros Hd. pose proof (pow2_pos s) as HP.
  assert (∀ q, rev_bits q 0 = 0) as R0.
  { induction q as [|q IH]; [done|]. cbn [rev_bits]. change (0 `div` 2) with 0. rewrite IH. done. }
  pose proof (for_up_inv (λ i st, reversed_upto s d0 (i - 1) st) 1 (Z.to_nat (2 ^ Z.of_nat s - 1))
    (reverse_step (Z.of_nat s) (2 ^ Z.of_nat s) (2 ^ Z.of_nat s - 1)) (d0, 0)) as H.
  destruct H as (_ & HL & HV).
  - split; [by rewrite R0|]. split; [done|]. intros p Hp. cbn [fst].
    pose proof (rev_bits_range s p). destruct (Z.leb_spec (Z.min p (rev_bits s p)) (1 - 1)); [|done].
    destruct (Z.eq_dec p 0) as [->|]; [by rewrite R0|].
    pose proof (rev_bits_involutive s p Hp) as E. replace (rev_bits s p) with 0 in E by lia.
    rewrite R0 in E. lia.
  - intros i [d mr] Hi HP'. replace (i + 1 - 1) with (i - 1 + 1) by lia.
    replace i with (i - 1 + 1) at 2 by lia. apply reverse_turn; (done || lia).
  - split; [done|]. intros p Hp. rewrite HV by done. pose proof (rev_bits_range s p).
    destruct (Z.leb_spec (Z.min p (rev_bits s p)) (1 + Z.of_nat (Z.to_nat (2 ^ Z.of_nat s - 1)) - 1));
      [done|lia].
Qed.

(** ** The tables *)

(** The same exchanges on a list that records where each element comes from. *)
Definition swap_index (perm : list Z) (ab : Z * Z) : list Z :=
  wr (wr perm ab.1 (perm.[ab.2])) ab.2 (perm.[ab.1]).

Lemma swaps_follow d0 swaps n :
  2 * n ≤ zlen d0 → Forall (λ ab : Z * Z, 0 ≤ ab.1 < n ∧ 0 ≤ ab.2 < n) swaps →
  ∀ d perm, length d = length d0 → zlen perm = n →
  (∀ p, 0 ≤ p < n → ld d p = ld d0 (perm.[p])) →
  let d' := foldl (λ d ab, swap_words d ab.1 ab.2) d swaps in
  length d' = length d0 ∧
  ∀ p, 0 ≤ p < n → ld d' p = ld d0 ((foldl swap_index perm swaps).[p]).
Proof.
  intros Hn Hs. induction Hs as [|[a b] swaps [Ha Hb] Hs IH]; intros d perm HL Hp HV; [done|].
  cbn [foldl fst snd] in *. apply IH; [by rewrite swap_length|unfold swap_index; by rewrite !wr_length|].
  intros p Hp'. rewrite ld_swap by lia. unfold swap_index. cbn [fst snd].
  destruct (Z.eqb_spec p b) as [->|]; [by rewrite rd_wr_eq, HV by (rewrite ?wr_length; lia)|].
  rewrite rd_wr_ne by lia. destruct (Z.eqb_spec p a) as [->|]; [by rewrite rd_wr_eq, HV by lia|].
  by rewrite rd_wr_ne, HV by lia.
Qed.

Lemma reverse_table_foldl index len d :
  zlen index = len → len `mod` 2 = 0 →
  reverse_table index len d = foldl (λ d ab, swap_words d ab.1 ab.2) d (pairs index).
Proof.
  intros Hl He. unfold reverse_table.
  assert (∀ n a d (l : list Z), (∀ t, 0 ≤ t < Z.of_nat n → l.[2 * t] = index.[2 * (a + t)] ∧
      l.[2 * t + 1] = index.[2 * (a + t) + 1]) → zlen l = 2 * Z.of_nat n →
    for_up a n (λ t d, swap_words d (index.[2 * t]) (index.[2 * t + 1])) d =
      foldl (λ d ab, swap_words d ab.1 ab.2) d (pairs l)) as H.
  { induction n as [|n IH]; intros a d' l Hr Hll.
    - by destruct l; [|simpl in Hll; lia].
    - destruct l as [|x [|y l]]; [simpl in Hll; lia..|]. cbn [for_up pairs foldl fst snd].
      destruct (Hr 0 ltac:(lia)) as [E0 E1]. rewrite Z.add_0_r in E0, E1.
      change ((x :: y :: l).[2 * 0]) with x in E0. change ((x :: y :: l).[2 * 0 + 1]) with y in E1.
      rewrite <- E0, <- E1. apply IH; [|simpl in Hll; lia]. intros t Ht.
      destruct (Hr (1 + t) ltac:(lia)) as [F0 F1].
      rewrite <- Z.add_assoc. rewrite <- F0, <- F1. change (x :: y :: l) with ([x; y] ++ l).
      rewrite !rd_app_r by (simpl; lia). split; f_equal; simpl; lia. }
  apply H; [|rewrite Hl; zdiv]. intros t Ht. done.
Qed.

(** The permutation a table performs is the reversal of the index bits. *)
Lemma reverse_tables_ok s index :
  (s = 7%nat ∧ index = index_7) ∨ (s = 8%nat ∧ index = index_8) →
  Forall (λ ab : Z * Z, 0 ≤ ab.1 < 2 ^ Z.of_nat s ∧ 0 ≤ ab.2 < 2 ^ Z.of_nat s) (pairs index) ∧
  zlen index = (if decide (s = 8%nat) then 240 else 112) ∧
  foldl swap_index (seqZ 0 (2 ^ Z.of_nat s)) (pairs index) = rev_bits s <$> seqZ 0 (2 ^ Z.of_nat s).
Proof.
  intros [[-> ->]|[-> ->]].
  - split; [|by vm_compute]. apply (bool_decide_unpack _). by vm_compute.
  - split; [|by vm_compute]. apply (bool_decide_unpack _). by vm_compute.
Qed.

Lemma shl32_pow2 s : (s ≤ 30)%nat → shl32 1 (Z.of_nat s) = 2 ^ Z.of_nat s.
Proof.
  intros. rewrite shl32_id; rewrite shiftl_mul by lia; [lia|].
  pose proof (Z.pow_le_mono_r 2 (Z.of_nat s) 30 ltac:(lia) ltac:(lia)). pose proof (pow2_pos s).
  change (2 ^ 30) with 1073741824 in *. cint.
Qed.

Lemma bit_reverse_spec (s : nat) d :
  (s ≤ 30)%nat → 2 * 2 ^ Z.of_nat s ≤ zlen d →
  let d' := WebRtcSpl_ComplexBitReverse d (Z.of_nat s) in
  length d' = length d ∧ ∀ p, 0 ≤ p < 2 ^ Z.of_nat s → ld d' p = ld d (rev_bits s p).
Proof.
  intros Hs Hd. unfold WebRtcSpl_ComplexBitReverse.
  destruct ((Z.of_nat s =? 7) || (Z.of_nat s =? 8)) eqn:E; [|rewrite shl32_pow2 by done; by apply reverse_general].
  assert ((s = 7 ∨ s = 8)%nat) as Es by (apply orb_prop in E as [?%Z.eqb_eq|?%Z.eqb_eq]; lia).
  set (index := if Z.of_nat s =? 8 then index_8 else index_7).
  assert ((s = 7%nat ∧ index = index_7) ∨ (s = 8%nat ∧ index = index_8)) as Hi.
  { unfold index. destruct Es as [->| ->]; [by left|by right]. }
  destruct (reverse_tables_ok s index Hi) as (Hr & HL & HP).
  assert ((if Z.of_nat s =? 8 then (240, index_8) else (112, index_7)) = (zlen index, index)) as ->.
  { rewrite HL. unfold index. by destruct Es as [->| ->]. }
  cbv beta iota. rewrite reverse_table_foldl; [|done|rewrite HL; by destruct (decide _)].
  destruct (swaps_follow d (pairs index) (2 ^ Z.of_nat s) Hd Hr d (seqZ 0 (2 ^ Z.of_nat s))) as [L V];
    [done|rewrite length_seqZ; pose proof (pow2_pos s); lia| |].
  - intros p Hp. rewrite rd_nth by lia. f_equal.
    rewrite (nth_lookup_Some _ _ _ p); [done|]. apply lookup_seqZ. lia.
  - split; [done|]. intros p Hp. rewrite V, HP by done. f_equal. rewrite rd_nth by lia.
    apply nth_lookup_Some. rewrite list_lookup_fmap.
    replace (seqZ 0 (2 ^ Z.of_nat s) !! Z.to_nat p) with (Some p); [done|].
    symmetry. apply lookup_seqZ. lia.
Qed.

(** * The recursive transform

    Decimation in time: the transforms of the elements at even and at odd positions,
    combined by one layer of butterflies. *)

Section dit.
Context (bf : C → C → C → C * C) (twiddle : Z → C).

Fixpoint dit (s : nat) (x : Z → C) (p : Z) : C :=
  match s with
  | O => x 0
  | S s =>
      let l := 2 ^ Z.of_nat s in
      let k := 9 - Z.of_nat s in
      let even := dit s (λ t, x (2 * t)) in
      let odd := dit s (λ t, x (2 * t + 1)) in
      if p <? l then (bf (twiddle (p ≪ k)) (even p) (odd p)).2
      else (bf (twiddle ((p - l) ≪ k)) (even (p - l)) (odd (p - l))).1
  end.

Lemma dit_ext s x y p : (∀ t, x t = y t) → dit s x p = dit s y p.
Proof.
  revert x y p. induction s as [|s IH]; intros x y p H; [apply H|]. cbn [dit].
  rewrite (IH (λ t, x (2 * t)) (λ t, y (2 * t)) p), (IH (λ t, x (2 * t + 1)) (λ t, y (2 * t + 1)) p) by done.
  rewrite (IH (λ t, x (2 * t)) (λ t, y (2 * t)) (p - _)),
    (IH (λ t, x (2 * t + 1)) (λ t, y (2 * t + 1)) (p - _)) by done. done.
Qed.

(** Only the first [2^s] elements matter. *)
Lemma dit_ext_range s x y p :
  (∀ t, 0 ≤ t < 2 ^ Z.of_nat s → x t = y t) → 0 ≤ p < 2 ^ Z.of_nat s → dit s x p = dit s y p.
Proof.
  revert x y p. induction s as [|s IH]; intros x y p H Hp; [apply H; simpl; lia|]. cbn [dit].
  rewrite pow2_S in H, Hp.
  assert (∀ q, 0 ≤ q < 2 ^ Z.of_nat s → dit s (λ t, x (2 * t)) q = dit s (λ t, y (2 * t)) q ∧
    dit s (λ t, x (2 * t + 1)) q = dit s (λ t, y (2 * t + 1)) q) as Hq.
  { intros q Hq. split; apply IH; try done; intros; apply H; lia. }
  destruct (Z.ltb_spec p (2 ^ Z.of_nat s)).
  - by destruct (Hq p) as [-> ->]; [lia|].
  - by destruct (Hq (p - 2 ^ Z.of_nat s)) as [-> ->]; [lia|].
Qed.

(** After [j] of [s] stages every block of [2^j] elements holds the transform of the
    subsequence its elements were taken from. *)
Definition partial (s j : nat) (x : Z → C) (p : Z) : C :=
  dit j (λ t, x (rev_bits (s - j) (p `div` 2 ^ Z.of_nat j) + t * 2 ^ Z.of_nat (s - j)))
    (p `mod` 2 ^ Z.of_nat j).

Lemma partial_0 s x p : partial s 0 x p = x (rev_bits s p).
Proof. unfold partial. cbn [dit]. rewrite Nat.sub_0_r, Z.div_1_r. f_equal. lia. Qed.

Lemma partial_all s x p : 0 ≤ p < 2 ^ Z.of_nat s → partial s s x p = dit s x p.
Proof.
  intros Hp. unfold partial. rewrite Nat.sub_diag, Z.mod_small by done. apply dit_ext.
  intros t. cbn [rev_bits]. f_equal. simpl. lia.
Qed.

Lemma partial_S s j x p :
  (j < s)%nat → 0 ≤ p →
  stage_value bf twiddle (2 ^ Z.of_nat j) (9 - Z.of_nat j) (partial s j x) p = partial s (S j) x p.
Proof.
  intros Hj Hp. pose proof (pow2_pos j) as HP.
  destruct (pos_spec (2 ^ Z.of_nat j) HP p) as [Ep Hr].
  set (l := 2 ^ Z.of_nat j) in *. set (b := blk l p) in *. set (r := pos l p) in *.
  assert (p `div` 2 ^ Z.of_nat (S j) = b ∧ p `mod` 2 ^ Z.of_nat (S j) = r) as [Eb Er].
  { rewrite pow2_S. done. }
  unfold stage_value. fold r. unfold partial at 5. cbn [dit]. fold l. rewrite Eb, Er.
  replace (s - j)%nat with (S (s - S j)) by lia.
  assert (∀ o q, 0 ≤ o < l → q = b * (2 * l) + o → partial s j x q =
    dit j (λ t, x (rev_bits (s - S j) b + 2 * t * 2 ^ Z.of_nat (s - S j))) o) as He.
  { intros o q Ho ->. unfold partial. fold l.
    replace ((b * (2 * l) + o) `div` l) with (2 * b) by (apply (Z.div_unique _ _ _ o); lia).
    replace ((b * (2 * l) + o) `mod` l) with o by (apply (Z.mod_unique _ _ (2 * b)); lia).
    replace (s - j)%nat with (S (s - S j)) by lia. rewrite rev_bits_even.
    apply dit_ext. intros t. f_equal. rewrite pow2_S. ring. }
  assert (∀ o q, 0 ≤ o < l → q = b * (2 * l) + l + o → partial s j x q =
    dit j (λ t, x (rev_bits (s - S j) b + (2 * t + 1) * 2 ^ Z.of_nat (s - S j))) o) as Ho.
  { intros o q Ho ->. unfold partial. fold l.
    replace ((b * (2 * l) + l + o) `div` l) with (2 * b + 1) by (apply (Z.div_unique _ _ _ o); lia).
    replace ((b * (2 * l) + l + o) `mod` l) with o by (apply (Z.mod_unique _ _ (2 * b + 1)); lia).
    replace (s - j)%nat with (S (s - S j)) by lia. rewrite rev_bits_odd.
    apply dit_ext. intros t. f_equal. rewrite pow2_S. ring. }
  destruct (Z.ltb_spec r l).
  - rewrite (He r p), (Ho r (p + l)) by lia. done.
  - rewrite (He (r - l) (p - l)), (Ho (r - l) p) by lia. done.
Qed.
End dit.

(** A stage only reads inside the array. *)
Lemma stage_value_ext bf tw l k (x y : Z → C) (n p : Z) (blocks : Z) :
  0 < l → n = blocks * (2 * l) → 0 ≤ p < n → (∀ q, 0 ≤ q < n → x q = y q) →
  stage_value bf tw l k x p = stage_value bf tw l k y p.
Proof.
  intros Hl Hn Hp H. destruct (pos_spec l Hl p) as [Ep Hr].
  assert (0 ≤ blk l p < blocks) by (apply (blk_bound n l blocks); lia).
  unfold stage_value. destruct (Z.ltb_spec (pos l p) l); rewrite !H by nia; done.
Qed.

(** One stage of either transform advances [partial] by one. *)
Lemma stage_partial bf tw (s j : nat) x d :
  (j < s)%nat → 2 * 2 ^ Z.of_nat s ≤ zlen d →
  (∀ p, 0 ≤ p < 2 ^ Z.of_nat s → ld d p = partial bf tw s j x p) →
  let d' := fft_stage bf tw (2 ^ Z.of_nat s) (2 ^ Z.of_nat j) (9 - Z.of_nat j) d in
  length d' = length d ∧
  ∀ p, 0 ≤ p < 2 ^ Z.of_nat s → ld d' p = partial bf tw s (S j) x p.
Proof.
  intros Hj Hd HV d'.
  assert (2 ^ Z.of_nat s = 2 ^ Z.of_nat (s - S j) * (2 * 2 ^ Z.of_nat j)) as En.
  { rewrite <- pow2_S, <- Z.pow_add_r by lia. f_equal. lia. }
  pose proof (pow2_pos j). pose proof (pow2_pos (s - S j)).
  destruct (fft_stage_spec bf tw (2 ^ Z.of_nat s) (2 ^ Z.of_nat j) (9 - Z.of_nat j)
    (2 ^ Z.of_nat (s - S j))) with (d0 := d) as (HL & _ & HV'); [lia|done|lia|done|].
  split; [done|]. intros p Hp. unfold d'. rewrite HV' by done.
  rewrite (stage_value_ext _ _ _ _ (ld d) (partial bf tw s j x) (2 ^ Z.of_nat s) p
    (2 ^ Z.of_nat (s - S j))) by (done || lia). apply partial_S; [done|lia].
Qed.

Lemma fft_loop_spec mode (s : nat) x :
  ∀ rem j fuel d, s = (j + rem)%nat → (rem < fuel)%nat → 2 * 2 ^ Z.of_nat s ≤ zlen d →
  (∀ p, 0 ≤ p < 2 ^ Z.of_nat s → ld d p = partial (fft_butterfly mode) fft_twiddle s j x p) →
  let d' := fft_loop fuel mode (2 ^ Z.of_nat s) (2 ^ Z.of_nat j) (9 - Z.of_nat j) d in
  length d' = length d ∧
  ∀ p, 0 ≤ p < 2 ^ Z.of_nat s → ld d' p = dit (fft_butterfly mode) fft_twiddle s x p.
Proof.
  induction rem as [|rem IH]; intros j [|fuel] d Es Hf Hd HV; try lia; cbn [fft_loop].
  - assert (j = s) as -> by lia. rewrite Z.ltb_irrefl. split; [done|]. intros p Hp.
    rewrite HV by done. by apply partial_all.
  - destruct (Z.ltb_spec (2 ^ Z.of_nat j) (2 ^ Z.of_nat s)) as [_|Hge].
    2:{ pose proof (Z.pow_lt_mono_r 2 (Z.of_nat j) (Z.of_nat s) ltac:(lia) ltac:(lia) ltac:(lia)). lia. }
    destruct (stage_partial (fft_butterfly mode) fft_twiddle s j x d) as [HL HV']; [lia|done|done|].
    set (d1 := fft_stage _ _ _ _ _ d) in *.
    replace (2 ^ Z.of_nat j ≪ 1) with (2 ^ Z.of_nat (S j))
      by (rewrite shiftl_mul by lia; rewrite pow2_S; lia).
    replace (9 - Z.of_nat j - 1) with (9 - Z.of_nat (S j)) by lia.
    destruct (IH (S j) fuel d1) as [HL' HV'']; [lia|lia|by rewrite HL|done|].
    split; [by rewrite HL'|done].
Qed.

(** Bit reversal followed by the stages. *)
Lemma fft_dit (s : nat) d mode :
  (s ≤ 10)%nat → 2 * 2 ^ Z.of_nat s ≤ zlen d →
  let '(ret, d') := WebRtcSpl_ComplexFFT (WebRtcSpl_ComplexBitReverse d (Z.of_nat s)) (Z.of_nat s) mode in
  ret = 0 ∧ length d' = length d ∧
  ∀ p, 0 ≤ p < 2 ^ Z.of_nat s → ld d' p = dit (fft_butterfly mode) fft_twiddle s (ld d) p.
Proof.
  intros Hs Hd. unfold WebRtcSpl_ComplexFFT. rewrite shl32_pow2, Z.gtb_ltb by lia.
  pose proof (Z.pow_le_mono_r 2 (Z.of_nat s) 10 ltac:(lia) ltac:(lia)) as Hp.
  change (2 ^ 10) with 1024 in Hp. destruct (Z.ltb_spec 1024 (2 ^ Z.of_nat s)); [lia|].
  destruct (bit_reverse_spec s d ltac:(lia) Hd) as [HL HV].
  set (d1 := WebRtcSpl_ComplexBitReverse d (Z.of_nat s)) in *.
  destruct (fft_loop_spec mode s (ld d) s 0%nat (S (Z.to_nat (Z.of_nat s))) d1) as [HL' HV'];
    [done|lia|by rewrite HL| |].
  - intros p Hp'. rewrite HV by done. by rewrite partial_0.
  - split; [done|]. split; [exact (eq_trans HL' HL)|done].
Qed.

(** * Properties *)

(** Bit reversal.  For every number of stages and every array of that many complex
    elements, [WebRtcSpl_ComplexBitReverse] moves each element to the index with its bits
    reversed, both with the index tables (7 and 8 stages) and with the general search
    loop, which therefore terminates with the right successor at every turn; applied
    twice it restores every element. *)
Lemma bit_reverse_permutes (s : nat) d :
  (s ≤ 30)%nat → 2 * 2 ^ Z.of_nat s ≤ zlen d →
  let rev d := WebRtcSpl_ComplexBitReverse d (Z.of_nat s) in
  length (rev d) = length d ∧
  ∀ p, 0 ≤ p < 2 ^ Z.of_nat s →
    ld (rev d) p = ld d (rev_bits s p) ∧ ld (rev (rev d)) p = ld d p.
Proof.
  intros Hs Hd. cbv beta zeta. destruct (bit_reverse_spec s d Hs Hd) as [HL HV].
  split; [done|]. intros p Hp. split; [by apply HV|].
  destruct (bit_reverse_spec s (WebRtcSpl_ComplexBitReverse d (Z.of_nat s)) Hs) as [_ HV'];
    [by rewrite HL|]. rewrite HV' by done. rewrite HV by apply rev_bits_range.
  by rewrite rev_bits_involutive.
Qed.

Lemma bit_reverse_permutes_witness :
  let d := [10; 11; 20; 21; 30; 31; 40; 41] in
  let rev d := WebRtcSpl_ComplexBitReverse d (Z.of_nat 2) in
  length (rev d) = 8%nat ∧
  ∀ p, 0 ≤ p < 4 → ld (rev d) p = ld d (rev_bits 2 p) ∧ ld (rev (rev d)) p = ld d p.
Proof.
  apply (bit_reverse_permutes 2 [10; 11; 20; 21; 30; 31; 40; 41]); [lia|vm_compute; congruence].
Defined.

(** C23: forward transform.  For up to 10 stages, [WebRtcSpl_ComplexBitReverse] followed
    by the in-place stages of [WebRtcSpl_ComplexFFT] succeeds and stores at every index
    exactly the value of the recursive decimation-in-time transform (the transforms of
    the even and of the odd elements combined by butterflies with the same fixed-point
    arithmetic); for more stages it returns -1 and changes nothing. *)
Theorem fft_decimation_in_time stages d mode :
  0 ≤ stages ≤ 30 → 2 * 2 ^ stages ≤ zlen d →
  let d1 := WebRtcSpl_ComplexBitReverse d stages in
  let '(ret, d2) := WebRtcSpl_ComplexFFT d1 stages mode in
  (stages ≤ 10 → ret = 0 ∧ length d2 = length d ∧
    ∀ p, 0 ≤ p < 2 ^ stages →
      ld d2 p = dit (fft_butterfly mode) fft_twiddle (Z.to_nat stages) (ld d) p) ∧
  (10 < stages → ret = -1 ∧ d2 = d1).
Proof.
  intros Hs Hd. cbv zeta. replace stages with (Z.of_nat (Z.to_nat stages)) in * by lia.
  set (s := Z.to_nat stages) in *. clearbody s. rewrite !Nat2Z.id.
  destruct (Z.leb_spec (Z.of_nat s) 10) as [H10|H10].
  - pose proof (fft_dit s d mode ltac:(lia) Hd) as H.
    destruct (WebRtcSpl_ComplexFFT _ _ _) as [ret d2]. split; [done|lia].
  - unfold WebRtcSpl_ComplexFFT. rewrite shl32_pow2, Z.gtb_ltb by lia.
    pose proof (Z.pow_lt_mono_r 2 10 (Z.of_nat s) ltac:(lia) ltac:(lia) ltac:(lia)) as Hp.
    change (2 ^ 10) with 1024 in Hp. destruct (Z.ltb_spec 1024 (2 ^ Z.of_nat s)); [|lia].
    split; [lia|done].
Qed.

Lemma fft_decimation_in_time_witness :
  let d := [1000; 0; -2000; 5; 300; 7; 32767; -32768] in
  let d1 := WebRtcSpl_ComplexBitReverse d 2 in
  let '(ret, d2) := WebRtcSpl_ComplexFFT d1 2 1 in
  (2 ≤ 10 → ret = 0 ∧ length d2 = length d ∧
    ∀ p, 0 ≤ p < 2 ^ 2 → ld d2 p = dit (fft_butterfly 1) fft_twiddle (Z.to_nat 2) (ld d) p) ∧
  (10 < 2 → ret = -1 ∧ d2 = d1).
Proof.
  apply (fft_decimation_in_time 2 [1000; 0; -2000; 5; 300; 7; 32767; -32768] 1);
    [lia|vm_compute; congruence].
Defined.
