(* ===== verification/FftRange.v ===== *)
(** Ranges of the fixed-point FFT: no conversion to 16 bits wraps in the inverse
    transform on any input, nor in the forward transform on inputs inside a circle. *)
From S2P Require Import Prelude SplInl MinMax FftTables Fft.

(** Words of the first [n] elements. *)
Definition words16 (n : Z) (d : list Z) : Prop := ∀ p, 0 ≤ p < n → int16 (ld d p).1 ∧ int16 (ld d p).2.

(** Butterflies over the integers, without wraps. *)
Definition exact_low (shift : Z) (w q x : C) : C * C :=
  let tr := (w.1 * x.1 - w.2 * x.2) ≫ 15 in
  let ti := (w.1 * x.2 + w.2 * x.1) ≫ 15 in
  (((q.1 - tr) ≫ shift, (q.2 - ti) ≫ shift), ((q.1 + tr) ≫ shift, (q.2 + ti) ≫ shift)).
Definition exact_high (rnd2 shift : Z) (w q x : C) : C * C :=
  let tr := (w.1 * x.1 - w.2 * x.2 + 1) ≫ 1 in
  let ti := (w.1 * x.2 + w.2 * x.1 + 1) ≫ 1 in
  (((q.1 * 16384 - tr + rnd2) ≫ (shift + 14), (q.2 * 16384 - ti + rnd2) ≫ (shift + 14)),
   ((q.1 * 16384 + tr + rnd2) ≫ (shift + 14), (q.2 * 16384 + ti + rnd2) ≫ (shift + 14))).
Definition exact_butterfly (mode shift : Z) : C → C → C → C * C :=
  if mode =? 0 then exact_low shift else exact_high (ifft_round2 shift) shift.

(** ** The inverse transform *)

(** Magnitude of the elements of a stage and the shift chosen for it. *)
Definition scaled (M sh : Z) : Prop :=
  (M ≤ 13573 ∧ sh = 0) ∨ (M ≤ 27146 ∧ sh = 1) ∨ (M ≤ 32768 ∧ sh = 2).

Definition box (M : Z) (z : C) : Prop := Z.abs z.1 ≤ M ∧ Z.abs z.2 ≤ M.
Definition int16_pair (z : C) : Prop := int16 z.1 ∧ int16 z.2.

Lemma mul_box a x M : Z.abs x ≤ M → Z.abs (a * x) ≤ Z.abs a * M.
Proof. intros. rewrite Z.abs_mul. apply Z.mul_le_mono_nonneg_l; lia. Qed.

(** The two components of a product with a twiddle factor. *)
Lemma product_box w x M :
  Z.abs w.1 + Z.abs w.2 ≤ 46338 → 0 ≤ M → box M x →
  Z.abs (w.1 * x.1) ≤ 46338 * M ∧ Z.abs (w.1 * x.2) ≤ 46338 * M ∧
  Z.abs (w.1 * x.1 - w.2 * x.2) ≤ 46338 * M ∧ Z.abs (w.1 * x.2 + w.2 * x.1) ≤ 46338 * M.
Proof.
  intros Hw HM [H1 H2].
  pose proof (mul_box w.1 x.1 M H1). pose proof (mul_box w.1 x.2 M H2).
  pose proof (mul_box w.2 x.1 M H1). pose proof (mul_box w.2 x.2 M H2).
  assert ((Z.abs w.1 + Z.abs w.2) * M ≤ 46338 * M) as HS by (apply Z.mul_le_mono_nonneg_r; lia).
  rewrite Z.mul_add_distr_r in HS. assert (0 ≤ Z.abs w.2 * M) by (apply Z.mul_nonneg_nonneg; lia).
  split_and!; lia.
Qed.

Lemma low_value q raw M sh :
  0 ≤ M → scaled M sh → Z.abs q ≤ M → Z.abs raw ≤ 46338 * M →
  let t := raw ≫ 15 in
  (int32 (q - t) ∧ int16 ((q - t) ≫ sh)) ∧ (int32 (q + t) ∧ int16 ((q + t) ≫ sh)).
Proof.
  intros HM Hs Hq Hr t.
  assert (32768 * t ≤ raw < 32768 * t + 32768) as Ht
    by (unfold t; rewrite shiftr_div by lia; change (2 ^ 15) with 32768; zdiv).
  clearbody t. destruct Hs as [[? ->]|[[? ->]|[? ->]]];
    (split; (split; [cint|apply shiftr_bounds; [lia|]]));
    [change (2 ^ 0) with 1..|change (2 ^ 1) with 2|change (2 ^ 1) with 2
    |change (2 ^ 2) with 4|change (2 ^ 2) with 4]; lia.
Qed.

Lemma high_value q raw M sh :
  0 ≤ M → scaled M sh → Z.abs q ≤ M → Z.abs raw ≤ 46338 * M →
  let t := (raw + 1) ≫ 1 in let r := ifft_round2 sh in
  (int32 (q * 16384) ∧ int32 (q * 16384 - t) ∧ int32 (q * 16384 - t + r) ∧
   int16 ((q * 16384 - t + r) ≫ (sh + 14))) ∧
  (int32 (q * 16384 + t) ∧ int32 (q * 16384 + t + r) ∧ int16 ((q * 16384 + t + r) ≫ (sh + 14))).
Proof.
  intros HM Hs Hq Hr t r.
  assert (2 * t ≤ raw + 1 < 2 * t + 2) as Ht
    by (unfold t; rewrite shiftr_div by lia; change (2 ^ 1) with 2; zdiv).
  clearbody t. unfold r, ifft_round2. clear r. destruct Hs as [[? ->]|[[? ->]|[? ->]]];
    [change (8192 ≪ 0) with 8192|change (8192 ≪ 1) with 16384|change (8192 ≪ 2) with 32768];
    (split; [do 3 (split; [cint|])|do 2 (split; [cint|])]; apply shiftr_bounds; [lia| |lia|]);
    [change (2 ^ (0 + 14)) with 16384|change (2 ^ (0 + 14)) with 16384
    |change (2 ^ (1 + 14)) with 32768|change (2 ^ (1 + 14)) with 32768
    |change (2 ^ (2 + 14)) with 65536|change (2 ^ (2 + 14)) with 65536]; lia.
Qed.

(** An inverse butterfly is exact and stays in 16 bits. *)
Lemma inverse_butterfly_exact mode M sh w q x :
  0 ≤ M → scaled M sh → Z.abs w.1 + Z.abs w.2 ≤ 46338 → box M q → box M x →
  ifft_butterfly mode sh w q x = exact_butterfly mode sh w q x ∧
  int16_pair (exact_butterfly mode sh w q x).1 ∧ int16_pair (exact_butterfly mode sh w q x).2.
Proof.
  intros HM Hs Hw [Hq1 Hq2] Hx.
  destruct (product_box w x M Hw HM Hx) as (P1 & P2 & P3 & P4).
  assert (M ≤ 32768) by (destruct Hs as [|[|]]; lia).
  unfold ifft_butterfly, exact_butterfly. destruct (mode =? 0).
  - destruct (low_value q.1 _ M sh HM Hs Hq1 P3) as [[A1 A2] [A3 A4]].
    destruct (low_value q.2 _ M sh HM Hs Hq2 P4) as [[B1 B2] [B3 B4]].
    unfold butterfly_low, exact_low, int16_pair. cbn [fst snd].
    rewrite (sub32_id (w.1 * x.1)), (add32_id (w.1 * x.2)) by cint.
    rewrite !sub32_id, !add32_id by done. rewrite !s16_id by done. done.
  - destruct (high_value q.1 _ M sh HM Hs Hq1 P3) as ((A0 & A1 & A2 & A3) & A4 & A5 & A6).
    destruct (high_value q.2 _ M sh HM Hs Hq2 P4) as ((B0 & B1 & B2 & B3) & B4 & B5 & B6).
    unfold butterfly_high, exact_high, int16_pair, CIFFTSFT, CIFFTRND. cbn [fst snd].
    change (15 - 14) with 1. change (1 ≪ 14) with 16384.
    rewrite (sub32_id (w.1 * x.1)), (add32_id (w.1 * x.2)) by cint.
    rewrite (add32_id (w.1 * x.1 - _) 1), (add32_id (w.1 * x.2 + _) 1) by cint.
    rewrite !mul32_id by done. rewrite !sub32_id by done.
    rewrite !(add32_id (_ - _)) by done. rewrite !(add32_id (_ * 16384)) by done.
    rewrite !add32_id by done. rewrite !s16_id by done. done.
Qed.

(** ** Whole stages *)

Lemma rd_ld d i : 0 ≤ i → d.[i] = if i `mod` 2 =? 0 then (ld d (i `div` 2)).1 else (ld d (i `div` 2)).2.
Proof.
  intros. unfold ld. destruct (Z.eqb_spec (i `mod` 2) 0); cbn [fst snd]; f_equal; zdiv.
Qed.

(** What every stage of a transform of [n = 2^s] elements satisfies at stage [j]. *)
Section stage.
Context (tw : Z → C) (s j : nat).
Hypothesis Hj : (j < s ≤ 10)%nat.
Let n := 2 ^ Z.of_nat s.
Let l := 2 ^ Z.of_nat j.
Let k := 9 - Z.of_nat j.

Lemma stage_sizes : 0 < l ∧ n = 2 ^ Z.of_nat (s - S j) * (2 * l) ∧ 0 ≤ 2 ^ Z.of_nat (s - S j).
Proof.
  pose proof (pow2_pos j). pose proof (pow2_pos (s - S j)). unfold n, l.
  rewrite <- pow2_S, <- Z.pow_add_r by lia. split; [done|]. split; [f_equal; lia|lia].
Qed.

Lemma twiddle_index m : 0 ≤ m < l → 0 ≤ m ≪ k < 512.
Proof.
  intros Hm. rewrite shiftl_mul by (unfold k; lia). assert (0 < 2 ^ k) by (apply Z.pow_pos_nonneg; unfold k; lia).
  assert (l * 2 ^ k = 512) by (unfold l, k; rewrite <- Z.pow_add_r by lia;
    replace (Z.of_nat j + (9 - Z.of_nat j)) with 9 by lia; done). nia.
Qed.

(** A property of the outputs of the butterflies holds for all elements after a stage. *)
Lemma stage_post bf (P : C → Prop) d :
  2 * n ≤ zlen d →
  (∀ i p q, 0 ≤ i < 512 → 0 ≤ p < n → 0 ≤ q < n →
    P (bf (tw i) (ld d p) (ld d q)).1 ∧ P (bf (tw i) (ld d p) (ld d q)).2) →
  ∀ p, 0 ≤ p < n → P (ld (fft_stage bf tw n l k d) p).
Proof.
  intros Hd HP p Hp. destruct stage_sizes as (Hl & En & Hb).
  destruct (fft_stage_spec bf tw n l k _ Hl En Hb d Hd) as (_ & _ & ->); [|done].
  destruct (pos_spec l Hl p) as [Ep Hr]. pose proof (blk_bound n l _ En Hb p Hp).
  unfold stage_value. destruct (Z.ltb_spec (pos l p) l).
  - apply HP; [apply twiddle_index; lia|nia|nia].
  - apply HP; [apply twiddle_index; lia|nia|nia].
Qed.

(** Butterflies that agree on the elements give the same stage. *)
Lemma stage_ext bf bf' d :
  2 * n ≤ zlen d →
  (∀ i p q, 0 ≤ i < 512 → 0 ≤ p < n → 0 ≤ q < n →
    bf (tw i) (ld d p) (ld d q) = bf' (tw i) (ld d p) (ld d q)) →
  fft_stage bf tw n l k d = fft_stage bf' tw n l k d.
Proof.
  intros Hd HB. destruct stage_sizes as (Hl & En & Hb).
  destruct (fft_stage_spec bf tw n l k _ Hl En Hb d Hd) as (L1 & T1 & V1).
  destruct (fft_stage_spec bf' tw n l k _ Hl En Hb d Hd) as (L2 & T2 & V2).
  apply list_rd_eq; [by rewrite L1, L2|]. intros i Hi.
  destruct (Z.ltb_spec i (2 * n)); [|by rewrite T1, T2 by lia].
  rewrite !(rd_ld _ i) by lia.
  rewrite V1, V2 by (split; [apply Z.div_pos|apply Z.div_lt_upper_bound]; lia).
  set (p := i `div` 2). assert (0 ≤ p < n) as Hp by (unfold p; zdiv).
  destruct (pos_spec l Hl p) as [Ep Hr]. pose proof (blk_bound n l _ En Hb p Hp).
  unfold stage_value. destruct (Z.ltb_spec (pos l p) l).
  - rewrite HB; [done|apply twiddle_index; lia|nia|nia].
  - rewrite HB; [done|apply twiddle_index; lia|nia|nia].
Qed.

Lemma stage_length bf d : 2 * n ≤ zlen d → length (fft_stage bf tw n l k d) = length d.
Proof. intros Hd. destruct stage_sizes as (Hl & En & Hb). by eapply fft_stage_spec. Qed.
End stage.

Section inverse.
Context `{MaxAbsValueW16_impl}.

(** The shift covers the largest element. *)
Lemma shift_scaled n d :
  0 ≤ n → 2 * n ≤ zlen d → words16 n d →
  let sh := ifft_shift (WebRtcSpl_MaxAbsValueW16 (slice d 0 (2 * n))) in
  0 ≤ sh ≤ 2 ∧ ∃ M, 0 ≤ M ∧ scaled M sh ∧ ∀ p, 0 ≤ p < n → box M (ld d p).
Proof.
  intros Hn Hd Hw sh.
  assert (Forall int16 (slice d 0 (2 * n))) as Hs.
  { apply Forall_lookup_2. intros i x Hx.
    assert (Z.of_nat i < 2 * n) as Hi.
    { apply lookup_lt_Some in Hx. rewrite slice_length in Hx by lia. lia. }
    pose proof (rd_lookup (slice d 0 (2 * n)) (Z.of_nat i)) as E.
    rewrite slice_length in E by lia. rewrite Nat2Z.id, Hx in E.
    specialize (E ltac:(lia)). injection E as ->. rewrite rd_slice by lia. rewrite rd_ld by lia.
    destruct (Hw ((0 + Z.of_nat i) `div` 2)) as [H1 H2]; [zdiv|]. by destruct (_ =? _). }
  unfold sh. rewrite MaxAbsValueW16_spec by done.
  set (M := max_abs (slice d 0 (2 * n))). pose proof (max_abs_range _ Hs) as HM. fold M in HM.
  assert (∀ p, 0 ≤ p < n → box M (ld d p)) as Hbox.
  { intros p Hp. assert (∀ i, 0 ≤ i < 2 * n → Z.abs (d.[i]) ≤ M) as Hi.
    { intros i Hi. apply max_abs_ge. replace (d.[i]) with ((slice d 0 (2 * n)).[i])
        by (rewrite rd_slice by lia; f_equal; lia).
      apply (list_elem_of_lookup_2 _ (Z.to_nat i)), rd_lookup. rewrite slice_length by lia. lia. }
    split; apply Hi; lia. }
  unfold ifft_shift. rewrite !Z.gtb_ltb. unfold INT16_MAX. split; [destruct_ltb; lia|].
  exists M. split; [lia|]. split; [|done]. unfold scaled. destruct_ltb; lia.
Qed.

Lemma inverse_stage_exact mode (s j : nat) d :
  (j < s ≤ 10)%nat → 2 * 2 ^ Z.of_nat s ≤ zlen d → words16 (2 ^ Z.of_nat s) d →
  let n := 2 ^ Z.of_nat s in
  let sh := ifft_shift (WebRtcSpl_MaxAbsValueW16 (slice d 0 (2 * n))) in
  let stage bf := fft_stage bf ifft_twiddle n (2 ^ Z.of_nat j) (9 - Z.of_nat j) d in
  stage (ifft_butterfly mode sh) = stage (exact_butterfly mode sh) ∧
  words16 n (stage (exact_butterfly mode sh)).
Proof.
  intros Hj Hd Hw n sh stage. pose proof (pow2_pos s).
  destruct (shift_scaled n d ltac:(lia) Hd Hw) as (_ & M & HM & Hs & Hbox). fold sh in Hs.
  assert (∀ i p q, 0 ≤ i < 512 → 0 ≤ p < n → 0 ≤ q < n →
    ifft_butterfly mode sh (ifft_twiddle i) (ld d p) (ld d q) =
      exact_butterfly mode sh (ifft_twiddle i) (ld d p) (ld d q) ∧
    int16_pair (exact_butterfly mode sh (ifft_twiddle i) (ld d p) (ld d q)).1 ∧
    int16_pair (exact_butterfly mode sh (ifft_twiddle i) (ld d p) (ld d q)).2) as HB.
  { intros i p q Hi Hp Hq. apply (inverse_butterfly_exact mode M sh); auto.
    by apply twiddle_bounds. }
  split.
  - apply stage_ext; [done|done|]. intros i p q Hi Hp Hq. by apply HB.
  - intros p Hp. apply (stage_post _ s j Hj _ int16_pair); [done| |done].
    intros i p' q Hi Hp' Hq. by apply HB.
Qed.

Lemma ifft_loop_exact mode (s : nat) :
  (s ≤ 10)%nat → ∀ rem j fuel scale d, s = (j + rem)%nat → (rem < fuel)%nat →
  2 * 2 ^ Z.of_nat s ≤ zlen d → words16 (2 ^ Z.of_nat s) d →
  let loop bf := ifft_loop bf fuel (2 ^ Z.of_nat s) (2 ^ Z.of_nat j) (9 - Z.of_nat j) scale d in
  loop (ifft_butterfly mode) = loop (exact_butterfly mode) ∧
  words16 (2 ^ Z.of_nat s) (loop (ifft_butterfly mode)).2 ∧
  scale ≤ (loop (ifft_butterfly mode)).1 ≤ scale + 2 * Z.of_nat rem.
Proof.
  intros Hs. induction rem as [|rem IH]; intros j [|fuel] scale d Es Hf Hd Hw; try lia;
    cbn [ifft_loop].
  - assert (j = s) as -> by lia. rewrite Z.ltb_irrefl. split; [done|]. split; [done|]. cbn [fst]. lia.
  - destruct (Z.ltb_spec (2 ^ Z.of_nat j) (2 ^ Z.of_nat s)) as [_|Hge].
    2:{ pose proof (Z.pow_lt_mono_r 2 (Z.of_nat j) (Z.of_nat s) ltac:(lia) ltac:(lia) ltac:(lia)). lia. }
    destruct (inverse_stage_exact mode s j d ltac:(lia) Hd Hw) as [E W]. rewrite E.
    pose proof (pow2_pos s).
    destruct (shift_scaled (2 ^ Z.of_nat s) d ltac:(lia) Hd Hw) as [Hsh _].
    clear E. set (sh := ifft_shift _) in *. set (d1 := fft_stage (exact_butterfly _ _) _ _ _ _ d) in *.
    replace (2 ^ Z.of_nat j ≪ 1) with (2 ^ Z.of_nat (S j))
      by (rewrite shiftl_mul by lia; rewrite pow2_S; lia).
    replace (9 - Z.of_nat j - 1) with (9 - Z.of_nat (S j)) by lia.
    destruct (IH (S j) fuel (scale + sh) d1) as (E' & W' & B); [lia|lia| |done|].
    { unfold d1. by rewrite (stage_length _ s j ltac:(lia) _ d Hd). }
    cbv zeta. split; [done|]. split; [done|]. lia.
Qed.
End inverse.

(** ** The forward transform *)

(** The forward butterflies are those of the inverse transform with a shift of one. *)
Lemma fft_butterfly_shift mode : fft_butterfly mode = ifft_butterfly mode 1.
Proof. done. Qed.

Definition disc (R : Z) (z : C) : Prop := z.1 * z.1 + z.2 * z.2 ≤ R * R.

Lemma norm_nonneg (z : C) : 0 ≤ z.1 * z.1 + z.2 * z.2.
Proof. pose proof (Z.square_nonneg z.1). pose proof (Z.square_nonneg z.2). lia. Qed.

Lemma disc_coord R z : 0 ≤ R → disc R z → Z.abs z.1 ≤ R ∧ Z.abs z.2 ≤ R.
Proof. unfold disc. intros. split; nia. Qed.

(** Cauchy-Schwarz and the triangle inequality. *)
Lemma dot_le A B a b : 0 ≤ A → 0 ≤ B → disc A a → disc B b → a.1 * b.1 + a.2 * b.2 ≤ A * B.
Proof.
  unfold disc. intros HA HB Ha Hb. set (x := a.1 * b.1 + a.2 * b.2).
  assert (x * x ≤ (A * B) * (A * B)) as Hx.
  { transitivity ((a.1 * a.1 + a.2 * a.2) * (b.1 * b.1 + b.2 * b.2)).
    - unfold x. pose proof (Z.square_nonneg (a.1 * b.2 - a.2 * b.1)). lia.
    - replace ((A * B) * (A * B)) with ((A * A) * (B * B)) by ring.
      apply Z.mul_le_mono_nonneg; try done; apply norm_nonneg. }
  assert (0 ≤ A * B) by (by apply Z.mul_nonneg_nonneg). clearbody x. nia.
Qed.

Lemma disc_add A B a b : 0 ≤ A → 0 ≤ B → disc A a → disc B b → disc (A + B) (a.1 + b.1, a.2 + b.2).
Proof.
  intros HA HB Ha Hb. pose proof (dot_le A B a b HA HB Ha Hb). unfold disc in *. cbn [fst snd]. lia.
Qed.

Lemma disc_product R w x :
  0 ≤ R → disc 32767 w → disc R x → disc (32767 * R) (w.1 * x.1 - w.2 * x.2, w.1 * x.2 + w.2 * x.1).
Proof.
  unfold disc. intros HR Hw Hx. cbn [fst snd].
  replace ((w.1 * x.1 - w.2 * x.2) * (w.1 * x.1 - w.2 * x.2) +
           (w.1 * x.2 + w.2 * x.1) * (w.1 * x.2 + w.2 * x.1))
    with ((w.1 * w.1 + w.2 * w.2) * (x.1 * x.1 + x.2 * x.2)) by ring.
  replace (32767 * R * (32767 * R)) with ((32767 * 32767) * (R * R)) by ring.
  apply Z.mul_le_mono_nonneg; try done; apply norm_nonneg.
Qed.

Lemma disc_opp R z : disc R z → disc R (- z.1, - z.2).
Proof. unfold disc. cbn [fst snd]. lia. Qed.

(** An output is half of the sum of two numbers, up to two units. *)
Lemma disc_half R q t o :
  0 ≤ R → disc R q → disc (32767 * R) t →
  Z.abs (65536 * o.1 - 32768 * q.1 - t.1) ≤ 65536 → Z.abs (65536 * o.2 - 32768 * q.2 - t.2) ≤ 65536 →
  disc (R + 2) o.
Proof.
  intros HR Hq Ht H1 H2.
  set (e := (65536 * o.1 - 32768 * q.1 - t.1, 65536 * o.2 - 32768 * q.2 - t.2)).
  assert (disc 131072 e) as He.
  { unfold disc. set (e1 := e.1). set (e2 := e.2).
    assert (Z.abs e1 ≤ 65536) by (unfold e1; done). assert (Z.abs e2 ≤ 65536) by (unfold e2; done).
    clearbody e1 e2. nia. }
  assert (disc (32768 * R) (32768 * q.1, 32768 * q.2)) as Hq'.
  { unfold disc in *. cbn [fst snd]. lia. }
  pose proof (disc_add (32768 * R) (32767 * R) _ _ ltac:(lia) ltac:(lia) Hq' Ht) as H3.
  pose proof (disc_add (32768 * R + 32767 * R) 131072 _ _ ltac:(lia) ltac:(lia) H3 He) as H4.
  unfold disc, e in H4. unfold disc. cbn [fst snd] in H4.
  replace (32768 * q.1 + t.1 + (65536 * o.1 - 32768 * q.1 - t.1)) with (65536 * o.1) in H4 by ring.
  replace (32768 * q.2 + t.2 + (65536 * o.2 - 32768 * q.2 - t.2)) with (65536 * o.2) in H4 by ring.
  pose proof (Z.square_le_mono_nonneg (32768 * R + 32767 * R + 131072) (65536 * (R + 2))
    ltac:(lia) ltac:(lia)) as H5. lia.
Qed.

Lemma shr15_bound a : Z.abs a ≤ 1073741824 → Z.abs (a ≫ 15) ≤ 32768.
Proof. intros. rewrite shiftr_div by lia. change (2 ^ 15) with 32768. zdiv. Qed.
Lemma shr1_bound a : Z.abs a ≤ 1073741824 → Z.abs ((a + 1) ≫ 1) ≤ 536870912.
Proof. intros. rewrite shiftr_div by lia. change (2 ^ 1) with 2. zdiv. Qed.

(** Rounding errors of the two modes. *)
Lemma low_error q t : let h := t ≫ 15 in
  Z.abs (65536 * ((q - h) ≫ 1) - 32768 * q - - t) ≤ 65536 ∧
  Z.abs (65536 * ((q + h) ≫ 1) - 32768 * q - t) ≤ 65536.
Proof. cbv zeta. rewrite !shiftr_div by lia. change (2 ^ 15) with 32768. change (2 ^ 1) with 2. split; zdiv. Qed.
Lemma high_error q t : let h := (t + 1) ≫ 1 in
  Z.abs (65536 * ((q * 16384 - h + 16384) ≫ (1 + 14)) - 32768 * q - - t) ≤ 65536 ∧
  Z.abs (65536 * ((q * 16384 + h + 16384) ≫ (1 + 14)) - 32768 * q - t) ≤ 65536.
Proof.
  cbv zeta. change (1 + 14) with 15. rewrite !shiftr_div by lia.
  change (2 ^ 15) with 32768. change (2 ^ 1) with 2. split; zdiv.
Qed.

Lemma disc_int16 R z : 0 ≤ R ≤ 32765 → disc (R + 2) z → int16_pair z.
Proof. intros HR Hz. apply disc_coord in Hz; [|lia]. unfold int16_pair. cint. Qed.

(** Ranges of the operands of a forward butterfly. *)
Lemma forward_ranges R w q x :
  0 ≤ R ≤ 32765 → disc 32767 w → disc R q → disc R x →
  let a := w.1 * x.1 - w.2 * x.2 in let b := w.1 * x.2 + w.2 * x.1 in
  int16 q.1 ∧ int16 q.2 ∧ int32 (w.1 * x.1) ∧ int32 (w.1 * x.2) ∧
  Z.abs a ≤ 1073741824 ∧ Z.abs b ≤ 1073741824 ∧ int32 (a + 1) ∧ int32 (b + 1).
Proof.
  intros HR Hw Hq Hx. pose proof (disc_product R w x ltac:(lia) Hw Hx) as HT.
  destruct (disc_coord (32767 * R) _ ltac:(lia) HT) as [T1 T2]. cbn [fst snd] in T1, T2.
  apply disc_coord in Hw as [W1 W2]; [|lia]. apply disc_coord in Hx as [X1 X2]; [|lia].
  apply disc_coord in Hq as [Q1 Q2]; [|lia]. clear HT.
  set (a := w.1 * x.1 - w.2 * x.2) in *. set (b := w.1 * x.2 + w.2 * x.1) in *. clearbody a b.
  assert (∀ y, Z.abs y ≤ R → int32 (w.1 * y)) as HP.
  { intros y Hy. pose proof (mul_box w.1 y R Hy). clear - H W1 HR. unfold int32. nia. }
  cbv zeta. split; [cint|]. split; [cint|]. split; [by apply HP|]. split; [by apply HP|].
  clear - T1 T2 HR. cint.
Qed.

(** A forward butterfly on a disc is exact and stays within two units of the disc. *)
Lemma forward_butterfly_exact mode R w q x :
  0 ≤ R ≤ 32765 → disc 32767 w → disc R q → disc R x →
  fft_butterfly mode w q x = exact_butterfly mode 1 w q x ∧
  disc (R + 2) (exact_butterfly mode 1 w q x).1 ∧ disc (R + 2) (exact_butterfly mode 1 w q x).2.
Proof.
  intros HR Hw Hq Hx. rewrite fft_butterfly_shift. unfold ifft_butterfly, exact_butterfly.
  pose proof (disc_product R w x ltac:(lia) Hw Hx) as HT.
  destruct (forward_ranges R w q x HR Hw Hq Hx) as (Q1 & Q2 & P1 & P2 & A & B & HA & HB).
  set (a := w.1 * x.1 - w.2 * x.2) in *. set (b := w.1 * x.2 + w.2 * x.1) in *.
  pose proof (disc_opp _ _ HT) as HT'. cbn [fst snd] in HT'.
  destruct (mode =? 0).
  - assert (disc (R + 2) (exact_low 1 w q x).1 ∧ disc (R + 2) (exact_low 1 w q x).2) as [D1 D2].
    { unfold exact_low. fold a b. cbn [fst snd].
      destruct (low_error q.1 a) as [E1 E2], (low_error q.2 b) as [E3 E4].
      split; [exact (disc_half R q (- a, - b) (_, _) ltac:(lia) Hq HT' E1 E3)
             |exact (disc_half R q (a, b) (_, _) ltac:(lia) Hq HT E2 E4)]. }
    split; [|done]. pose proof (disc_int16 R _ HR D1) as [A1 A2]. pose proof (disc_int16 R _ HR D2) as [B1 B2].
    unfold butterfly_low. rewrite (sub32_id (w.1 * x.1)), (add32_id (w.1 * x.2)) by (fold a b; cint).
    unfold exact_low in *. fold a b in A1, A2, B1, B2 |- *. cbn [fst snd] in *.
    pose proof (shr15_bound a A). pose proof (shr15_bound b B). clear - Q1 Q2 H H0 A1 A2 B1 B2.
    rewrite !sub32_id, !add32_id by cint. by rewrite !s16_id by done.
  - assert (disc (R + 2) (exact_high 16384 1 w q x).1 ∧ disc (R + 2) (exact_high 16384 1 w q x).2) as [D1 D2].
    { unfold exact_high. fold a b. cbn [fst snd].
      destruct (high_error q.1 a) as [E1 E2], (high_error q.2 b) as [E3 E4].
      split; [exact (disc_half R q (- a, - b) (_, _) ltac:(lia) Hq HT' E1 E3)
             |exact (disc_half R q (a, b) (_, _) ltac:(lia) Hq HT E2 E4)]. }
    change (ifft_round2 1) with 16384. split; [|done].
    pose proof (disc_int16 R _ HR D1) as [A1 A2]. pose proof (disc_int16 R _ HR D2) as [B1 B2].
    unfold butterfly_high, CIFFTSFT, CIFFTRND. change (15 - 14) with 1. change (1 ≪ 14) with 16384.
    rewrite (sub32_id (w.1 * x.1)), (add32_id (w.1 * x.2)) by (fold a b; cint).
    unfold exact_high in *. fold a b in A1, A2, B1, B2 |- *. cbn [fst snd] in *.
    pose proof (shr1_bound a A) as Ha. pose proof (shr1_bound b B) as Hb.
    clear - Q1 Q2 Ha Hb A1 A2 B1 B2 HA HB. unfold int16 in Q1, Q2.
    rewrite (add32_id a), (add32_id b), !mul32_id by cint.
    rewrite !sub32_id by cint. rewrite !(add32_id (_ - _)) by cint.
    rewrite !(add32_id (_ * 16384)) by cint. rewrite !add32_id by cint. by rewrite !s16_id by done.
Qed.

(** The recursive transform of a signal inside a disc. *)
Lemma dit_exact mode s R x :
  (s ≤ 10)%nat → 0 ≤ R → R + 2 * Z.of_nat s ≤ 32767 →
  (∀ t, 0 ≤ t < 2 ^ Z.of_nat s → disc R (x t)) → ∀ p, 0 ≤ p < 2 ^ Z.of_nat s →
  dit (fft_butterfly mode) fft_twiddle s x p = dit (exact_butterfly mode 1) fft_twiddle s x p ∧
  disc (R + 2 * Z.of_nat s) (dit (exact_butterfly mode 1) fft_twiddle s x p).
Proof.
  revert R x. induction s as [|s IH]; intros R x Hs HR HR2 Hx p Hp.
  { cbn [dit]. split; [done|]. replace (R + 2 * Z.of_nat 0) with R by lia. apply Hx. simpl. lia. }
  rewrite pow2_S in Hx, Hp. cbn [dit].
  assert (∀ i o, 0 ≤ i < 512 → 0 ≤ o < 2 ^ Z.of_nat s →
    let bf := fft_butterfly mode (fft_twiddle i)
      (dit (fft_butterfly mode) fft_twiddle s (λ t, x (2 * t)) o)
      (dit (fft_butterfly mode) fft_twiddle s (λ t, x (2 * t + 1)) o) in
    let ex := exact_butterfly mode 1 (fft_twiddle i)
      (dit (exact_butterfly mode 1) fft_twiddle s (λ t, x (2 * t)) o)
      (dit (exact_butterfly mode 1) fft_twiddle s (λ t, x (2 * t + 1)) o) in
    bf = ex ∧ disc (R + 2 * Z.of_nat (S s)) ex.1 ∧ disc (R + 2 * Z.of_nat (S s)) ex.2) as HB.
  { intros i o Hi Ho. cbv zeta.
    destruct (IH R (λ t, x (2 * t)) ltac:(lia) HR ltac:(lia) ltac:(intros; apply Hx; lia) o Ho) as [-> De].
    destruct (IH R (λ t, x (2 * t + 1)) ltac:(lia) HR ltac:(lia) ltac:(intros; apply Hx; lia) o Ho) as [-> Do].
    replace (R + 2 * Z.of_nat (S s)) with (R + 2 * Z.of_nat s + 2) by lia.
    apply forward_butterfly_exact; [lia| |done|done].
    destruct (twiddle_bounds i Hi) as [Hw HS]. cbv zeta in Hw, HS.
    unfold disc, fft_twiddle. cbn [fst snd]. rewrite s16_id by cint. lia. }
  assert (∀ o, 0 ≤ o < 2 ^ Z.of_nat s → 0 ≤ o ≪ (9 - Z.of_nat s) < 512) as Hidx
    by (intros o Ho; by apply (twiddle_index (S s) s ltac:(lia))).
  destruct (Z.ltb_spec p (2 ^ Z.of_nat s)).
  - destruct (HB (p ≪ (9 - Z.of_nat s)) p) as (-> & _ & H2); [apply Hidx; lia|lia|done].
  - destruct (HB ((p - 2 ^ Z.of_nat s) ≪ (9 - Z.of_nat s)) (p - 2 ^ Z.of_nat s)) as (-> & H2 & _);
      [apply Hidx; lia|lia|done].
Qed.

(** ** Real transforms *)

(** The conjugate-symmetric spectrum that the first [n + 2] words stand for. *)
Definition symmetric (n : Z) (c : list Z) (q : Z) : C :=
  if q <=? n `div` 2 then ld c q
  else ((ld c (n - q)).1, s16 (- (ld c (n - q)).2)).

Section real.
Context `{MaxAbsValueW16_impl}.

Lemma interleave_real n (inp buf : list Z) :
  0 ≤ n → 2 * n ≤ zlen buf →
  let b := for_up 0 (Z.to_nat n) (λ i b, wr (wr b (2 * i) (inp.[i])) (2 * i + 1) 0) buf in
  length b = length buf ∧ ∀ q, 0 ≤ q < n → ld b q = (inp.[q], 0).
Proof.
  intros Hn Hb.
  pose proof (for_up_inv (λ k b, length b = length buf ∧ ∀ q, 0 ≤ q < k → ld b q = (inp.[q], 0))
    0 (Z.to_nat n) (λ i b, st b i (inp.[i], 0)) buf) as H'.
  rewrite Z2Nat.id, Z.add_0_l in H' by lia. apply H'; [split; [done|lia]|]. clear H'.
  intros i b Hi [HL HV]. split; [by rewrite st_length|]. intros q Hq.
  destruct (Z.eq_dec q i) as [->|]; [by rewrite ld_st_eq by lia|]. rewrite ld_st_ne by lia. apply HV. lia.
Qed.

(** The mirrored upper half of the spectrum. *)
Lemma mirror_spectrum n (c buf : list Z) :
  0 < n → n `mod` 2 = 0 → 2 * n ≤ zlen buf → n + 2 ≤ zlen c → n + 2 ≤ 2 * n →
  let b := for_up 0 (Z.to_nat ((n - 1) `div` 2)) (λ t b,
    let i := n + 2 + 2 * t in
    wr (wr b i (c.[2 * n - i])) (i + 1) (s16 (- c.[2 * n - i + 1])))
    (store buf 0 (slice c 0 (n + 2))) in
  length b = length buf ∧ ∀ q, 0 ≤ q < n → ld b q = symmetric n c q.
Proof.
  intros Hn He Hb Hc Hn2. set (h := n `div` 2). assert (n = 2 * h) as En by (unfold h; zdiv).
  assert (zlen (slice c 0 (n + 2)) = n + 2) as Ls by (rewrite slice_length; lia).
  assert ((n - 1) `div` 2 = h - 1) as -> by (unfold h; zdiv).
  pose proof (for_up_inv (λ k b, length b = length buf ∧
    ∀ q, 0 ≤ q ≤ h + k → ld b q = symmetric n c q) 0 (Z.to_nat (h - 1))
    (λ t b, st b (h + 1 + t) (c.[n - 2 - 2 * t], s16 (- c.[n - 2 - 2 * t + 1])))
    (store buf 0 (slice c 0 (n + 2)))) as H'.
  rewrite Z2Nat.id, Z.add_0_l in H' by lia. cbv zeta.
  erewrite for_up_ext; [destruct H' as [HL HV]; [| |split; [exact HL|intros q Hq; apply HV; lia]]|].
  - split; [by rewrite store_length by lia|]. intros q Hq. unfold symmetric. fold h.
    destruct (Z.leb_spec q h); [|lia]. unfold ld.
    rewrite !rd_store by lia. rewrite Ls.
    assert ((0 <=? 2 * q) && (2 * q <? 0 + (n + 2)) = true) as -> by lia.
    assert ((0 <=? 2 * q + 1) && (2 * q + 1 <? 0 + (n + 2)) = true) as -> by lia.
    rewrite !rd_slice by lia. f_equal; f_equal; lia.
  - intros t b Ht [HL HV]. split; [by rewrite st_length|]. intros q Hq.
    destruct (Z.eq_dec q (h + 1 + t)) as [->|].
    + rewrite ld_st_eq by lia. unfold symmetric, ld. fold h. cbn [fst snd].
      destruct (Z.leb_spec (h + 1 + t) h); [lia|].
      replace (2 * (n - (h + 1 + t))) with (n - 2 - 2 * t) by lia. done.
    + rewrite ld_st_ne by lia. apply HV. lia.
  - intros t b Ht. unfold st. cbn [fst snd].
    replace (2 * (h + 1 + t)) with (n + 2 + 2 * t) by lia.
    replace (2 * n - (n + 2 + 2 * t)) with (n - 2 - 2 * t) by lia. done.
Qed.
End real.

Lemma u64_pow2 s : (s ≤ 10)%nat → u64 (1 ≪ Z.of_nat s) = 2 ^ Z.of_nat s.
Proof.
  intros. rewrite shiftl_mul, Z.mul_1_l by lia. pose proof (pow2_pos s).
  pose proof (Z.pow_le_mono_r 2 (Z.of_nat s) 10 ltac:(lia) ltac:(lia)).
  change (2 ^ 10) with 1024 in *. apply u64_id. cint.
Qed.

Lemma ifft_exact `{MaxAbsValueW16_impl} (s : nat) d mode :
  (s ≤ 10)%nat → 2 * 2 ^ Z.of_nat s ≤ zlen d → words16 (2 ^ Z.of_nat s) d →
  let '(scale, d') := WebRtcSpl_ComplexIFFT d (Z.of_nat s) mode in
  (scale, d') = ifft_loop (exact_butterfly mode) (S s) (2 ^ Z.of_nat s) 1 9 0 d ∧
  words16 (2 ^ Z.of_nat s) d' ∧ 0 ≤ scale ≤ 2 * Z.of_nat s.
Proof.
  intros Hs Hd Hw. unfold WebRtcSpl_ComplexIFFT. rewrite u64_pow2, Z.gtb_ltb, Nat2Z.id by done.
  pose proof (Z.pow_le_mono_r 2 (Z.of_nat s) 10 ltac:(lia) ltac:(lia)) as Hp.
  change (2 ^ 10) with 1024 in Hp. destruct (Z.ltb_spec 1024 (2 ^ Z.of_nat s)); [lia|].
  destruct (ifft_loop_exact mode s Hs s 0%nat (S s) 0 d) as (E & W & B); [done|lia|done|done|].
  change (2 ^ Z.of_nat 0) with 1 in E, W, B. change (9 - Z.of_nat 0) with 9 in E, W, B.
  change (10 - 1) with 9. destruct (ifft_loop (ifft_butterfly mode) _ _ _ _ _ _) as [scale d'].
  split; [done|]. split; [done|]. cbn [fst] in B. lia.
Qed.

Lemma drop_store (l src : list Z) n :
  zlen src = n → drop (Z.to_nat n) (store l 0 src) = drop (Z.to_nat n) l.
Proof.
  intros Hs. unfold store. change (Z.to_nat 0) with 0%nat. rewrite take_0, app_nil_l, drop_prefix by done.
  f_equal. lia.
Qed.

Lemma order_sizes (s : nat) :
  (1 ≤ s ≤ 10)%nat → let n := 2 ^ Z.of_nat s in 2 ≤ n ≤ 1024 ∧ n `mod` 2 = 0.
Proof.
  intros Hs n. destruct s as [|s]; [lia|]. unfold n. rewrite pow2_S. pose proof (pow2_pos s).
  pose proof (Z.pow_le_mono_r 2 (Z.of_nat s) 9 ltac:(lia) ltac:(lia)). change (2 ^ 9) with 512 in *.
  split; [lia|]. rewrite Z.mul_comm. apply Z.mod_mul. lia.
Qed.

Lemma real_forward (s : nat) buf inp out :
  (1 ≤ s ≤ 10)%nat → let n := 2 ^ Z.of_nat s in
  zlen buf = 2048 → n + 2 ≤ zlen out →
  let '(ret, out') := WebRtcSpl_RealForwardFFT (mkRealFFT (Z.of_nat s)) buf inp out in
  ret = 0 ∧ drop (Z.to_nat (n + 2)) out' = drop (Z.to_nat (n + 2)) out ∧
  ∀ q, 0 ≤ q ≤ n `div` 2 →
    ld out' q = dit (fft_butterfly 1) fft_twiddle s (λ t, (inp.[t], 0)) q.
Proof.
  intros Hs n Hb Ho. destruct (order_sizes s Hs) as [Hn He]. fold n in Hn, He.
  unfold WebRtcSpl_RealForwardFFT. cbn [order]. rewrite shl32_pow2 by lia. fold n.
  destruct (interleave_real n inp buf ltac:(lia) ltac:(lia)) as [L1 V1].
  set (b1 := for_up 0 _ _ buf) in *.
  pose proof (fft_dit s b1 1 ltac:(lia) ltac:(rewrite L1; fold n; lia)) as HF.
  destruct (WebRtcSpl_ComplexFFT _ _ _) as [ret d']. destruct HF as (Hret & L2 & V2).
  assert (zlen (slice d' 0 (n + 2)) = n + 2) as Ls by (rewrite slice_length; lia).
  split; [done|]. split; [by apply drop_store|]. intros q Hq.
  assert (q < n) by zdiv. assert (2 * q ≤ n) by zdiv.
  transitivity (ld d' q).
  - unfold ld. rewrite !rd_store by lia. rewrite Ls.
    assert ((0 <=? 2 * q) && (2 * q <? 0 + (n + 2)) = true) as -> by lia.
    assert ((0 <=? 2 * q + 1) && (2 * q + 1 <? 0 + (n + 2)) = true) as -> by lia.
    rewrite !rd_slice by lia. f_equal; f_equal; lia.
  - rewrite V2 by (fold n; lia). apply dit_ext_range; [|fold n; lia]. intros t Ht. by apply V1.
Qed.

Lemma symmetric_int16 n c q : Forall int16 c → int16_pair (symmetric n c q).
Proof.
  intros Hc. assert (∀ i, int16 (c.[i])) as Hi by (intros i; apply rd_Forall; [done|cint]).
  unfold symmetric, int16_pair, ld. destruct (q <=? _); cbn [fst snd]; auto using s16_range.
Qed.

Lemma real_inverse `{MaxAbsValueW16_impl} (s : nat) buf spec rout :
  (1 ≤ s ≤ 10)%nat → let n := 2 ^ Z.of_nat s in
  zlen buf = 2048 → n + 2 ≤ zlen spec → n ≤ zlen rout → Forall int16 spec →
  let '(ret, rout') := WebRtcSpl_RealInverseFFT (mkRealFFT (Z.of_nat s)) buf spec rout in
  ∃ b, (∀ q, 0 ≤ q < n → ld b q = symmetric n spec (rev_bits s q)) ∧
    let '(scale, b') := ifft_loop (exact_butterfly 1) (S s) n 1 9 0 b in
    ret = scale ∧ 0 ≤ scale ≤ 2 * Z.of_nat s ∧ words16 n b' ∧
    rout' = ((λ i, b'.[2 * i]) <$> seqZ 0 n) ++ drop (Z.to_nat n) rout.
Proof.
  intros Hs n Hb Hc Hr H16. destruct (order_sizes s Hs) as [Hn He]. fold n in Hn, He.
  unfold WebRtcSpl_RealInverseFFT. cbn [order]. rewrite shl32_pow2 by lia. fold n.
  destruct (mirror_spectrum n spec buf ltac:(lia) He ltac:(lia) Hc ltac:(lia)) as [L1 V1].
  set (b1 := for_up 0 _ _ (store buf _ _)) in *.
  destruct (bit_reverse_spec s b1 ltac:(lia) ltac:(rewrite L1; fold n; lia)) as [L2 V2].
  set (b2 := WebRtcSpl_ComplexBitReverse b1 (Z.of_nat s)) in *.
  assert (∀ q, 0 ≤ q < n → ld b2 q = symmetric n spec (rev_bits s q)) as Vs.
  { intros q Hq. rewrite V2 by done. apply V1, rev_bits_range. }
  assert (words16 n b2) as Hw by (intros q Hq; rewrite Vs by done; by apply symmetric_int16).
  pose proof (ifft_exact s b2 1 ltac:(lia) ltac:(rewrite L2, L1; fold n; lia) Hw) as HE. fold n in HE.
  destruct (WebRtcSpl_ComplexIFFT _ _ _) as [ret b']. destruct HE as (E & Hw' & HB).
  exists b2. split; [done|]. rewrite <- E. split; [done|]. split; [done|]. split; [done|].
  apply fill_spec. lia.
Qed.

(** * Properties *)

(** C29: inverse transform.  On every array of 16-bit words, for up to 10 stages and in
    both modes, [WebRtcSpl_ComplexIFFT] computes its butterflies exactly over the
    integers: the data-dependent shifts suffice for every conversion to 16 bits, and no
    32-bit operation wraps.  The result is again 16-bit and the returned scale is at most
    two per stage.  With more stages it returns -1 and changes nothing. *)
Theorem ifft_no_overflow `{MaxAbsValueW16_impl} stages d mode :
  0 ≤ stages ≤ 63 → 2 * 2 ^ stages ≤ zlen d → words16 (2 ^ stages) d →
  let '(scale, d') := WebRtcSpl_ComplexIFFT d stages mode in
  (stages ≤ 10 →
    (scale, d') = ifft_loop (exact_butterfly mode) (S (Z.to_nat stages)) (2 ^ stages) 1 9 0 d ∧
    words16 (2 ^ stages) d' ∧ 0 ≤ scale ≤ 2 * stages) ∧
  (10 < stages → scale = -1 ∧ d' = d).
Proof.
  intros Hs Hd Hw. destruct (Z.leb_spec stages 10) as [H10|H10].
  - replace stages with (Z.of_nat (Z.to_nat stages)) in * by lia.
    set (s := Z.to_nat stages) in *. clearbody s. rewrite !Nat2Z.id.
    pose proof (ifft_exact s d mode ltac:(lia) Hd Hw) as HE.
    destruct (WebRtcSpl_ComplexIFFT _ _ _) as [scale d']. split; [done|lia].
  - unfold WebRtcSpl_ComplexIFFT.
    assert (1024 < u64 (1 ≪ stages)) as Hn.
    { rewrite shiftl_mul, Z.mul_1_l by lia.
      pose proof (Z.pow_lt_mono_r 2 10 stages ltac:(lia) ltac:(lia) ltac:(lia)) as H1.
      pose proof (Z.pow_le_mono_r 2 stages 63 ltac:(lia) ltac:(lia)) as H2.
      change (2 ^ 10) with 1024 in H1. change (2 ^ 63) with 9223372036854775808 in H2.
      rewrite u64_id; [done|cint]. }
    rewrite Z.gtb_ltb. destruct (Z.ltb_spec 1024 (u64 (1 ≪ stages))); [|lia]. split; [lia|done].
Qed.

Lemma ifft_no_overflow_witness :
  let d := [-32768; 32767; 27146; -27146; 13573; -13573; 32767; -32768] in
  let '(scale, d') := WebRtcSpl_ComplexIFFT d 2 1 in
  (2 ≤ 10 →
    (scale, d') = ifft_loop (exact_butterfly 1) (S (Z.to_nat 2)) (2 ^ 2) 1 9 0 d ∧
    words16 (2 ^ 2) d' ∧ 0 ≤ scale ≤ 2 * 2) ∧
  (10 < 2 → scale = -1 ∧ d' = d).
Proof.
  apply (ifft_no_overflow 2 [-32768; 32767; 27146; -27146; 13573; -13573; 32767; -32768] 1);
    [lia|vm_compute; congruence|].
  intros p Hp. change (2 ^ 2) with 4 in Hp.
  assert (p = 0 ∨ p = 1 ∨ p = 2 ∨ p = 3) as [->|[->|[->| ->]]] by lia;
    split; vm_compute; split; congruence.
Defined.

(** Forward transform without overflow.  When all elements lie in the disc of radius
    [R] and [R] plus two per stage is at most 32767, no operation of the forward
    transform wraps: it stores the recursive transform with butterflies over the
    integers, and every element stays in the disc enlarged by two units per stage. *)
Lemma fft_no_overflow (s : nat) R d mode :
  (s ≤ 10)%nat → 0 ≤ R → R + 2 * Z.of_nat s ≤ 32767 → 2 * 2 ^ Z.of_nat s ≤ zlen d →
  (∀ p, 0 ≤ p < 2 ^ Z.of_nat s → disc R (ld d p)) →
  let '(ret, d') := WebRtcSpl_ComplexFFT (WebRtcSpl_ComplexBitReverse d (Z.of_nat s)) (Z.of_nat s) mode in
  ret = 0 ∧ ∀ p, 0 ≤ p < 2 ^ Z.of_nat s →
    ld d' p = dit (exact_butterfly mode 1) fft_twiddle s (ld d) p ∧ disc (R + 2 * Z.of_nat s) (ld d' p).
Proof.
  intros Hs HR HR2 Hd HD. pose proof (fft_dit s d mode Hs Hd) as HF.
  destruct (WebRtcSpl_ComplexFFT _ _ _) as [ret d']. destruct HF as (Hret & _ & HV).
  split; [done|]. intros p Hp.
  destruct (dit_exact mode s R (ld d) Hs HR HR2 HD p Hp) as [E D]. rewrite HV, E by done. done.
Qed.

Lemma fft_no_overflow_witness :
  let d := [32000; 5000; -32000; 5000; 0; -32763; 1; 1] in
  let '(ret, d') := WebRtcSpl_ComplexFFT (WebRtcSpl_ComplexBitReverse d (Z.of_nat 2)) (Z.of_nat 2) 0 in
  ret = 0 ∧ ∀ p, 0 ≤ p < 2 ^ Z.of_nat 2 →
    ld d' p = dit (exact_butterfly 0 1) fft_twiddle 2 (ld d) p ∧ disc (32763 + 2 * Z.of_nat 2) (ld d' p).
Proof.
  apply (fft_no_overflow 2 32763 [32000; 5000; -32000; 5000; 0; -32763; 1; 1] 0);
    [lia|lia|vm_compute; congruence|vm_compute; congruence|].
  intros p Hp. change (2 ^ Z.of_nat 2) with 4 in Hp.
  assert (p = 0 ∨ p = 1 ∨ p = 2 ∨ p = 3) as [->|[->|[->| ->]]] by lia; vm_compute; congruence.
Defined.

(** Real transforms.  For orders 1 to 10 and whatever the local buffer contains,
    [WebRtcSpl_RealForwardFFT] returns 0 and stores, in the first [n + 2] words, the bins
    [0 .. n/2] of the recursive transform of the signal with zero imaginary parts; it
    changes no other word.  [WebRtcSpl_RealInverseFFT] transforms the conjugate-symmetric
    spectrum the words stand for without any overflow, returns its scale and stores its
    [n] real parts. *)
Lemma real_fft_spec `{MaxAbsValueW16_impl} (s : nat) buf inp out spec rout :
  (1 ≤ s ≤ 10)%nat → let n := 2 ^ Z.of_nat s in
  zlen buf = 2048 → n + 2 ≤ zlen out → n + 2 ≤ zlen spec → n ≤ zlen rout → Forall int16 spec →
  let self := mkRealFFT (Z.of_nat s) in
  (let '(ret, out') := WebRtcSpl_RealForwardFFT self buf inp out in
   ret = 0 ∧ drop (Z.to_nat (n + 2)) out' = drop (Z.to_nat (n + 2)) out ∧
   ∀ q, 0 ≤ q ≤ n `div` 2 →
     ld out' q = dit (fft_butterfly 1) fft_twiddle s (λ t, (inp.[t], 0)) q) ∧
  (let '(ret, rout') := WebRtcSpl_RealInverseFFT self buf spec rout in
   ∃ b, (∀ q, 0 ≤ q < n → ld b q = symmetric n spec (rev_bits s q)) ∧
     let '(scale, b') := ifft_loop (exact_butterfly 1) (S s) n 1 9 0 b in
     ret = scale ∧ 0 ≤ scale ≤ 2 * Z.of_nat s ∧ words16 n b' ∧
     rout' = ((λ i, b'.[2 * i]) <$> seqZ 0 n) ++ drop (Z.to_nat n) rout).
Proof.
  intros Hs n Hb Ho Hc Hr H16 self. split.
  - apply real_forward; (done || lia).
  - apply real_inverse; (done || lia).
Qed.

Lemma real_fft_spec_witness :
  let self := mkRealFFT (Z.of_nat 1) in let buf := replicate 2048 7 in
  (let '(ret, out') := WebRtcSpl_RealForwardFFT self buf [100; -50] [9; 9; 9; 9; 9] in
   ret = 0 ∧ drop (Z.to_nat (2 ^ Z.of_nat 1 + 2)) out' = [9] ∧
   ∀ q, 0 ≤ q ≤ 2 ^ Z.of_nat 1 `div` 2 →
     ld out' q = dit (fft_butterfly 1) fft_twiddle 1 (λ t, ([100; -50].[t], 0)) q) ∧
  (let '(ret, rout') := WebRtcSpl_RealInverseFFT self buf [32767; 0; -32768; 0] [8; 8; 8] in
   ∃ b, (∀ q, 0 ≤ q < 2 ^ Z.of_nat 1 →
          ld b q = symmetric (2 ^ Z.of_nat 1) [32767; 0; -32768; 0] (rev_bits 1 q)) ∧
     let '(scale, b') := ifft_loop (exact_butterfly 1) 2 (2 ^ Z.of_nat 1) 1 9 0 b in
     ret = scale ∧ 0 ≤ scale ≤ 2 * Z.of_nat 1 ∧ words16 (2 ^ Z.of_nat 1) b' ∧
     rout' = ((λ i, b'.[2 * i]) <$> seqZ 0 (2 ^ Z.of_nat 1)) ++ [8]).
Proof.
  apply (real_fft_spec 1 (replicate 2048 7) [100; -50] [9; 9; 9; 9; 9] [32767; 0; -32768; 0] [8; 8; 8]);
    [lia|done|vm_compute; congruence..|repeat constructor; cint].
Defined.
