(* ===== verification/Filters.v ===== *)
(** The linear filters of common_audio/signal_processing: filter_ar.c,
    filter_ar_fast_q12.c, filter_ma_fast_q12.c and downsample_fast.c (portable version).

    A pointer whose "negative" positions hold the samples of earlier calls is a block and
    the index [base] of element 0 in it.  [int64_t] sums are not wrapped: a sum of
    products of 16-bit words stays below [2^63] for every length a [size_t] loop can
    finish.  The theorems show that [WebRtcSpl_FilterAR] is the sample-by-sample
    recursion on the last outputs, whatever the framing, and that the Q12 filters compute
    exact, rounded and saturated inner products. *)
From S2P Require Import Prelude SplInl VectorOps.

(** * Definitions *)

(** [WEBRTC_SPL_SAT(a, b, c)] *)
Definition WEBRTC_SPL_SAT (a b c : Z) : Z := if b >? a then a else if b <? c then c else b.

(** ** WebRtcSpl_FilterAR *)

(** [o] and [oLOW] of output [i] after the two loops over the coefficients. *)
Definition ar_accumulate (a : list Z) (a_length : Z) (filtered filtered_low : list Z)
    (state state_low : list Z) (state_length i x : Z) : Z * Z :=
  let stop := if i <? a_length then i + 1 else a_length in
  let s := for_up 1 (Z.to_nat (stop - 1)) (λ j '(o, oLOW),
    (o - a.[j] * filtered.[i - j], oLOW ⊟ a.[j] * filtered_low.[i - j])) (x * 4096, 0) in
  for_up (i + 1) (Z.to_nat (a_length - (i + 1))) (λ j '(o, oLOW),
    (o - a.[j] * state.[state_length - 1 - (j - (i + 1))],
     oLOW ⊟ a.[j] * state_low.[state_length - 1 - (j - (i + 1))])) s.

(** The stored pair [(filtered, filtered_low)]. *)
Definition ar_output (s : Z * Z) : Z * Z :=
  let '(o, oLOW) := s in
  let o := o + (oLOW ≫ 12) in
  let f := s16 ((o + 2048) ≫ 12) in
  (f, s16 (o - f * 4096)).

(** The loop of the shorter frame that moves the state down. *)
Definition shift_state (n m : Z) (state : list Z) : list Z :=
  for_up 0 (Z.to_nat n) (λ i st, wr st i (st.[i + m])) state.
Definition append_state (state : list Z) (o n : Z) (filtered : list Z) : list Z :=
  for_up 0 (Z.to_nat n) (λ i st, wr st (o + i) (filtered.[i])) state.

(** Result: [(x_length, state, state_low, filtered, filtered_low)]. *)
Definition WebRtcSpl_FilterAR (a : list Z) (a_length : Z) (x : list Z) (x_length : Z)
    (state : list Z) (state_length : Z) (state_low filtered filtered_low : list Z)
  : Z * list Z * list Z * list Z * list Z :=
  let '(filtered, filtered_low) := for_up 0 (Z.to_nat x_length) (λ i '(filtered, filtered_low),
    let '(f, f_low) := ar_output (ar_accumulate a a_length filtered filtered_low
                                    state state_low state_length i (x.[i])) in
    (wr filtered i f, wr filtered_low i f_low)) (filtered, filtered_low) in
  if x_length >=? state_length then
    (x_length, WebRtcSpl_CopyFromEndW16 filtered x_length (a_length - 1) state,
     WebRtcSpl_CopyFromEndW16 filtered_low x_length (a_length - 1) state_low,
     filtered, filtered_low)
  else
    let k := state_length - x_length in
    (x_length, append_state (shift_state k x_length state) k x_length filtered,
     append_state (shift_state k x_length state_low) k x_length filtered_low,
     filtered, filtered_low).

(** ** Filters in Q12 *)

(** Saturation and rounding of a Q12 sum. *)
Definition sat_round_q12 (o : Z) : Z :=
  let o := WEBRTC_SPL_SAT 134215679 o (-134217728) in
  s16 ((o + 2048) ≫ 12).

(** [data_out] is the block [out] with element 0 at [base]. *)
Definition WebRtcSpl_FilterARFastQ12 (data_in out : list Z) (base : Z) (coefficients : list Z)
    (coefficients_length data_length : Z) : list Z :=
  for_up 0 (Z.to_nat data_length) (λ i out,
    let sum := for_up 0 (Z.to_nat (coefficients_length - 1)) (λ t sum,
      let j := coefficients_length - 1 - t in
      sum + coefficients.[j] * out.[base + (i - j)]) 0 in
    let output := coefficients.[0] * data_in.[i] - sum in
    wr out (base + i) (sat_round_q12 output)) out.

(** [in_ptr] is the block [inp] with element 0 at [base]. *)
Definition WebRtcSpl_FilterMAFastQ12 (inp : list Z) (base : Z) (out_ptr B : list Z)
    (B_length length : Z) : list Z :=
  fill length (λ i,
    let o := for_up 0 (Z.to_nat B_length) (λ j o, o ⊞ B.[j] * inp.[base + (i - j)]) 0 in
    sat_round_q12 o) out_ptr.

(** The result is the return value and [data_out]. *)
Definition WebRtcSpl_DownsampleFastC (inp : list Z) (base data_in_length : Z)
    (data_out : list Z) (data_out_length : Z) (coefficients : list Z)
    (coefficients_length factor delay : Z) : Z * list Z :=
  let endpos := u64 (delay + u64 (u64 factor * u64 (data_out_length - 1)) + 1) in
  if (data_out_length =? 0) || (coefficients_length =? 0) || (data_in_length <? endpos)
  then (-1, data_out)
  else
    (0, fill ((endpos - delay + factor - 1) `div` factor) (λ t,
      let i := delay + t * factor in
      let out_s32 := for_up 0 (Z.to_nat coefficients_length) (λ j out_s32,
        out_s32 ⊞ coefficients.[j] * inp.[base + (i - j)]) 2048 in
      WebRtcSpl_SatW32ToW16 (out_s32 ≫ 12)) data_out).

(** * The recursion on the last outputs *)

(** History: high and low parts of the last outputs, oldest first. *)
Definition ar_step (a : list Z) (h : list Z * list Z) (x : Z)
  : (list Z * list Z) * (Z * Z) :=
  let '(hi, lo) := h in
  let order := zlen hi in
  let out := ar_output (for_up 1 (length hi) (λ j '(o, oLOW),
    (o - a.[j] * hi.[order - j], oLOW ⊟ a.[j] * lo.[order - j])) (x * 4096, 0)) in
  ((drop 1 (hi ++ [out.1]), drop 1 (lo ++ [out.2])), out).

(** The history is the tail of everything output so far. *)
Lemma ar_run_hist a hi lo xs :
  length hi = length lo →
  let r := run (ar_step a) (hi, lo) xs in
  r.1 = (drop (length xs) (hi ++ r.2.*1), drop (length xs) (lo ++ r.2.*2)).
Proof.
  intros HL. induction xs as [|x xs IH] using rev_ind; [simpl; by rewrite !app_nil_r|].
  cbv zeta in *. rewrite run_app. pose proof (run_length (ar_step a) (hi, lo) xs) as HR.
  destruct (run (ar_step a) (hi, lo) xs) as [h o]. cbn [fst snd] in *. subst h.
  cbn [run]. unfold ar_step.
  set (out := ar_output _). cbn [fst snd]. rewrite !fmap_app, !length_app.
  rewrite !(app_assoc hi), !(app_assoc lo).
  assert (∀ (l k : list Z) v, length k = length xs →
    drop 1 (drop (length xs) (l ++ k) ++ [v]) = drop (length xs + 1) ((l ++ k) ++ [v])) as Hd.
  { intros l k v Hk. rewrite <- drop_drop, (drop_app_le (l ++ k) [v]); [done|].
    rewrite length_app. lia. }
  change (length [x]) with 1%nat. change ([out].*1) with [out.1]. change ([out].*2) with [out.2].
  by rewrite <- !Hd by (by rewrite length_fmap).
Qed.

Lemma ar_hist_length a hi lo xs :
  length hi = length lo →
  let r := run (ar_step a) (hi, lo) xs in length r.1.1 = length hi ∧ length r.1.2 = length hi.
Proof.
  intros HL r. unfold r. rewrite ar_run_hist by done. cbn [fst snd].
  rewrite !length_drop, !length_app, !length_fmap, !run_length. lia.
Qed.

(** The two loops of the source walk over the same history. *)
Lemma ar_accumulate_hist a (filtered filtered_low state state_low outs outs_low : list Z) i x :
  let L := zlen state in
  length state_low = length state → zlen outs = i → zlen outs_low = i →
  let hi := drop (Z.to_nat i) (state ++ outs) in let lo := drop (Z.to_nat i) (state_low ++ outs_low) in
  ar_accumulate a (L + 1) (outs ++ filtered) (outs_low ++ filtered_low) state state_low L i x =
    for_up 1 (length state) (λ j '(o, oLOW),
      (o - a.[j] * hi.[L - j], oLOW ⊟ a.[j] * lo.[L - j])) (x * 4096, 0).
Proof.
  intros L Hlow Ho Hol hi lo.
  assert (∀ (st os fs : list Z), zlen st = L → zlen os = i → ∀ j, 1 ≤ j ≤ L →
    (drop (Z.to_nat i) (st ++ os)).[L - j] =
      if j <=? i then (os ++ fs).[i - j] else st.[L - 1 - (j - (i + 1))]) as Hrd.
  { intros st os fs Hst Hos j Hj.
    transitivity ((st ++ os).[L - j + i]).
    { rewrite !rd_nth by lia. rewrite !nth_lookup, lookup_drop. do 2 f_equal. lia. }
    destruct (Z.leb_spec j i).
    - rewrite rd_app_r, (rd_app_l os) by lia. f_equal. lia.
    - rewrite rd_app_l by lia. f_equal. lia. }
  unfold ar_accumulate. set (stop := if i <? L + 1 then i + 1 else L + 1).
  assert (length state = Z.to_nat (stop - 1) + Z.to_nat (L + 1 - (i + 1)))%nat as ->.
  { unfold stop. destruct (Z.ltb_spec i (L + 1)); lia. }
  rewrite for_up_app. set (s1 := for_up 1 (Z.to_nat (stop - 1)) _ _).
  assert (1 ≤ stop ≤ i + 1 ∧ stop ≤ L + 1) as Hstop by (unfold stop; destruct (Z.ltb_spec i (L + 1)); lia).
  replace s1 with (for_up 1 (Z.to_nat (stop - 1)) (λ j '(o, oLOW),
    (o - a.[j] * hi.[L - j], oLOW ⊟ a.[j] * lo.[L - j])) (x * 4096, 0)).
  2:{ apply for_up_ext. intros j [o ol] Hj. unfold hi, lo.
      rewrite (Hrd state outs filtered), (Hrd state_low outs_low filtered_low) by lia.
      by destruct (Z.leb_spec j i); [|lia]. }
  destruct (Z.ltb_spec i (L + 1)) as [Hi|Hi].
  - assert (stop = i + 1) as -> by (unfold stop; destruct (Z.ltb_spec i (L + 1)); lia).
    replace (1 + Z.of_nat (Z.to_nat (i + 1 - 1))) with (i + 1) by lia.
    symmetry. apply for_up_ext. intros j [o ol] Hj. unfold hi, lo.
    rewrite (Hrd state outs filtered), (Hrd state_low outs_low filtered_low) by lia.
    by destruct (Z.leb_spec j i); [lia|].
  - by replace (Z.to_nat (L + 1 - (i + 1))) with 0%nat by lia.
Qed.

(** The sample loop. *)
Lemma ar_loop a x n (state state_low filtered filtered_low : list Z) :
  length state_low = length state → 0 ≤ n ≤ zlen x → n ≤ zlen filtered → n ≤ zlen filtered_low →
  let r := run (ar_step a) (state, state_low) (take (Z.to_nat n) x) in
  for_up 0 (Z.to_nat n) (λ i '(filtered, filtered_low),
    let '(f, f_low) := ar_output (ar_accumulate a (zlen state + 1) filtered filtered_low
                                    state state_low (zlen state) i (x.[i])) in
    (wr filtered i f, wr filtered_low i f_low)) (filtered, filtered_low) =
  (r.2.*1 ++ drop (Z.to_nat n) filtered, r.2.*2 ++ drop (Z.to_nat n) filtered_low).
Proof.
  intros HL Hn Hf Hfl r.
  pose proof (for_up_inv (λ i '(f, fl), let r := run (ar_step a) (state, state_low) (take (Z.to_nat i) x) in
    f = r.2.*1 ++ drop (Z.to_nat i) filtered ∧ fl = r.2.*2 ++ drop (Z.to_nat i) filtered_low)
    0 (Z.to_nat n)) as H.
  match goal with |- for_up _ _ ?b ?s = _ => specialize (H b s) end.
  rewrite Z2Nat.id, Z.add_0_l in H by lia.
  destruct (for_up 0 (Z.to_nat n) _ _) as [f fl] eqn:E. clear E.
  destruct H as [-> ->]; [done| |done]. intros i [f' fl'] Hi [-> ->].
  rewrite take_rd, run_app by lia. set (xs := take (Z.to_nat i) x) in *.
  assert (length xs = Z.to_nat i) as Lxs by (unfold xs; rewrite length_take; lia).
  pose proof (ar_run_hist a state state_low xs (eq_sym HL)) as HH.
  pose proof (run_length (ar_step a) (state, state_low) xs) as HR.
  destruct (run (ar_step a) (state, state_low) xs) as [h o]. cbn [fst snd] in *. rewrite Lxs in HH.
  rewrite (ar_accumulate_hist a _ _ state state_low o.*1 o.*2) by (rewrite ?length_fmap; lia).
  subst h. cbn [run ar_step]. set (hi := drop _ (state ++ _)). set (lo := drop _ (state_low ++ _)).
  assert (length hi = length state) as Lhi by (unfold hi; rewrite length_drop, length_app, length_fmap; lia).
  rewrite Lhi. destruct (ar_output _) as [v vl]. cbn [fst snd].
  rewrite !wr_next by (rewrite ?length_fmap; lia). by rewrite !fmap_app.
Qed.

(** ** Saving the state *)

Lemma save_long (state outs rest : list Z) n :
  zlen outs = n → zlen state ≤ n →
  WebRtcSpl_CopyFromEndW16 (outs ++ rest) n (zlen state) state = drop (Z.to_nat n) (state ++ outs).
Proof.
  intros Ho Hn. unfold WebRtcSpl_CopyFromEndW16, store, slice. change (Z.to_nat 0) with 0%nat.
  rewrite take_0, app_nil_l. rewrite drop_app_le by lia.
  rewrite take_app_le by (rewrite length_drop; lia). rewrite take_ge by (rewrite length_drop; lia).
  rewrite length_drop, drop_app_ge by lia.
  rewrite (drop_ge state) by lia. rewrite app_nil_r. f_equal. lia.
Qed.

Lemma shift_state_rd n m state i :
  0 ≤ n → 0 ≤ m → n + m ≤ zlen state → 0 ≤ i →
  length (shift_state n m state) = length state ∧
  (shift_state n m state).[i] = if i <? n then state.[i + m] else state.[i].
Proof.
  intros Hn Hm HL Hi. unfold shift_state.
  pose proof (for_up_inv (λ k st, length st = length state ∧
    ∀ i, 0 ≤ i → st.[i] = if i <? k then state.[i + m] else state.[i]) 0 (Z.to_nat n)
    (λ i st, wr st i (st.[i + m])) state) as H.
  rewrite Z2Nat.id, Z.add_0_l in H by lia. destruct H as [H1 H2]; [| |split; [done|by apply H2]].
  - split; [done|]. intros j Hj. by destruct (Z.ltb_spec j 0); [lia|].
  - intros k st Hk [HLs HV]. split; [by rewrite wr_length|]. intros j Hj.
    destruct (Z.eq_dec j k) as [->|].
    + rewrite rd_wr_eq, HV by lia. destruct (Z.ltb_spec (k + m) k), (Z.ltb_spec k (k + 1)); (done || lia).
    + rewrite rd_wr_ne, HV by lia. destruct (Z.ltb_spec j k), (Z.ltb_spec j (k + 1)); (done || lia).
Qed.

Lemma append_state_rd state o n (filtered : list Z) i :
  0 ≤ o → 0 ≤ n → o + n ≤ zlen state → 0 ≤ i →
  length (append_state state o n filtered) = length state ∧
  (append_state state o n filtered).[i] =
    if (o <=? i) && (i <? o + n) then filtered.[i - o] else state.[i].
Proof.
  intros Ho Hn HL Hi. unfold append_state.
  pose proof (for_up_inv (λ k st, length st = length state ∧ ∀ i, 0 ≤ i → st.[i] =
    if (o <=? i) && (i <? o + k) then filtered.[i - o] else state.[i]) 0 (Z.to_nat n)
    (λ i st, wr st (o + i) (filtered.[i])) state) as H.
  rewrite Z2Nat.id, Z.add_0_l in H by lia. destruct H as [H1 H2]; [| |split; [done|by apply H2]].
  - split; [done|]. intros j Hj. destruct (Z.leb_spec o j), (Z.ltb_spec j (o + 0)); (done || lia).
  - intros k st Hk [HLs HV]. split; [by rewrite wr_length|]. intros j Hj.
    destruct (Z.eq_dec j (o + k)) as [->|].
    + rewrite rd_wr_eq by lia. destruct (Z.leb_spec o (o + k)), (Z.ltb_spec (o + k) (o + (k + 1)));
        try lia. simpl. f_equal. lia.
    + rewrite rd_wr_ne, HV by lia.
      destruct (Z.leb_spec o j), (Z.ltb_spec j (o + k)), (Z.ltb_spec j (o + (k + 1))); (done || lia).
Qed.

Lemma save_short (state outs rest : list Z) n :
  zlen outs = n → n < zlen state →
  append_state (shift_state (zlen state - n) n state) (zlen state - n) n (outs ++ rest) =
    drop (Z.to_nat n) (state ++ outs).
Proof.
  intros Ho Hn.
  assert (length (shift_state (zlen state - n) n state) = length state) as L1
    by (apply (shift_state_rd _ _ _ 0); lia).
  apply list_rd_eq.
  - destruct (append_state_rd (shift_state (zlen state - n) n state) (zlen state - n) n (outs ++ rest) 0)
      as [-> _]; [lia..|]. rewrite length_drop, length_app. lia.
  - intros i Hi. pose proof (append_state_rd (shift_state (zlen state - n) n state) (zlen state - n) n
      (outs ++ rest) i ltac:(lia) ltac:(lia) ltac:(lia) ltac:(lia)) as [L2 ->].
    destruct (shift_state_rd (zlen state - n) n state i) as [_ ->]; [lia..|].
    transitivity ((state ++ outs).[i + n]).
    2:{ rewrite !rd_nth by lia. rewrite !nth_lookup, lookup_drop. do 2 f_equal. lia. }
    destruct (Z.leb_spec (zlen state - n) i), (Z.ltb_spec i (zlen state - n + n)),
      (Z.ltb_spec i (zlen state - n)); simpl; try lia.
    + rewrite rd_app_l, rd_app_r by lia. f_equal. lia.
    + by rewrite rd_app_l by lia.
Qed.

(** One call. *)
Lemma FilterAR_call a x (state state_low filtered filtered_low : list Z) :
  zlen a = zlen state + 1 → length state_low = length state →
  zlen x ≤ zlen filtered → zlen x ≤ zlen filtered_low →
  let n := zlen x in let r := run (ar_step a) (state, state_low) x in
  WebRtcSpl_FilterAR a (zlen a) x n state (zlen state) state_low filtered filtered_low =
    (n, r.1.1, r.1.2, r.2.*1 ++ drop (Z.to_nat n) filtered, r.2.*2 ++ drop (Z.to_nat n) filtered_low).
Proof.
  intros Ha HL Hf Hfl n r. unfold WebRtcSpl_FilterAR. rewrite Ha.
  pose proof (ar_loop a x n state state_low filtered filtered_low HL ltac:(lia) Hf Hfl) as E.
  cbv zeta in E. rewrite take_ge in E by lia. fold r in E. rewrite E. clear E.
  pose proof (ar_run_hist a state state_low x (eq_sym HL)) as HH.
  pose proof (run_length (ar_step a) (state, state_low) x) as HR.
  fold r in HH, HR. rewrite HH. cbn [fst snd]. replace (length x) with (Z.to_nat n) by lia.
  replace (zlen state + 1 - 1) with (zlen state) by lia. rewrite Z.geb_leb.
  destruct (Z.leb_spec (zlen state) n).
  - rewrite save_long by (rewrite ?length_fmap; lia).
    replace (zlen state) with (zlen state_low) by lia.
    by rewrite save_long by (rewrite ?length_fmap; lia).
  - rewrite save_short by (rewrite ?length_fmap; lia).
    replace (zlen state) with (zlen state_low) by lia.
    by rewrite save_short by (rewrite ?length_fmap; lia).
Qed.

(** * Filters in Q12 *)

(** Saturation of the Q12 sum followed by rounding saturates the rounded sum. *)
Lemma sat_round_clamp o : sat_round_q12 o = clamp (-32768) 32767 ((o + 2048) `div` 4096).
Proof.
  unfold sat_round_q12, WEBRTC_SPL_SAT. rewrite Z.gtb_ltb, shiftr_div by lia. change (2 ^ 12) with 4096.
  unfold clamp. destruct (Z.ltb_spec 134215679 o); [|destruct (Z.ltb_spec o (-134217728))].
  - change (s16 ((134215679 + 2048) `div` 4096)) with 32767. zdiv.
  - change (s16 ((-134217728 + 2048) `div` 4096)) with (-32768). zdiv.
  - rewrite s16_id by (unfold int16; zdiv). zdiv.
Qed.

(** The inner product of [n] coefficients with the samples before and at position [p]. *)
Definition convolve (c : list Z) (n : nat) (inp : list Z) (p : Z) : Z :=
  sumf (λ j, c.[j] * inp.[p - j]) 0 n.

Definition abs_sum (c : list Z) (n : nat) : Z := sumf (λ j, Z.abs (c.[j])) 0 n.

Lemma sumf_scale f w k a n :
  (∀ j, a ≤ j < a + Z.of_nat n → f j = k * w j) → sumf f a n = k * sumf w a n.
Proof.
  revert a. induction n as [|n IH]; intros a H; [unfold sumf; simpl; lia|].
  rewrite !sumf_S, H, IH by (intros; try apply H; lia). lia.
Qed.

(** A 32-bit inner product is exact when the coefficients are small enough. *)
Lemma convolve_exact c n inp p s0 :
  Forall int16 inp → Z.abs s0 + 32768 * abs_sum c n ≤ INT32_MAX →
  for_up 0 n (λ j o, o ⊞ c.[j] * inp.[p - j]) s0 = s0 + convolve c n inp p.
Proof.
  intros Hin Hs. unfold abs_sum in Hs.
  rewrite <- (sumf_scale (λ j, 32768 * Z.abs (c.[j]))) in Hs by done.
  apply (accum32_weighted (λ j, c.[j] * inp.[p - j]) (λ j, 32768 * Z.abs (c.[j]))); [|done].
  intros j _. rewrite Z.abs_mul, (Z.mul_comm 32768). apply Z.mul_le_mono_nonneg_l; [lia|].
  assert (int16 (inp.[p - j])) by (apply rd_Forall; [done|cint]). cint.
Qed.

(** ** The recursive filter *)

(** One output from the history [h] of the last outputs, oldest first. *)
Definition q12_output (c : list Z) (h : list Z) (x : Z) : Z :=
  let order := zlen h in
  clamp (-32768) 32767
    ((c.[0] * x - sumf (λ t, c.[order - t] * h.[t]) 0 (length h) + 2048) `div` 4096).

Definition q12_step (c : list Z) (h : list Z) (x : Z) : list Z * Z :=
  let y := q12_output c h x in (drop 1 (h ++ [y]), y).

Lemma q12_run_hist c h xs :
  let r := run (q12_step c) h xs in r.1 = drop (length xs) (h ++ r.2).
Proof.
  induction xs as [|x xs IH] using rev_ind; [simpl; by rewrite app_nil_r|].
  cbv zeta in *. rewrite run_app. pose proof (run_length (q12_step c) h xs) as HR.
  destruct (run (q12_step c) h xs) as [h' o]. cbn [fst snd] in *. subst h'. cbn [run q12_step].
  set (y := q12_output _ _ _). cbn [fst snd]. rewrite (app_assoc h), length_app.
  rewrite <- drop_drop, (drop_app_le (h ++ o) [y]); [done|]. rewrite length_app. lia.
Qed.

Lemma store_snoc (l ys : list Z) base v :
  0 ≤ base → base + zlen ys < zlen l →
  wr (store l base ys) (base + zlen ys) v = store l base (ys ++ [v]).
Proof.
  intros Hb Hl. apply list_rd_eq.
  - rewrite wr_length, !store_length by (rewrite ?length_app; simpl; lia). done.
  - intros i Hi. rewrite wr_length, store_length in Hi by lia.
    rewrite (rd_store l (ys ++ [v])) by (rewrite ?length_app; simpl; lia). rewrite length_app. simpl length.
    destruct (Z.eq_dec i (base + zlen ys)) as [->|].
    + rewrite rd_wr_eq by (rewrite store_length; lia).
      destruct (Z.leb_spec base (base + zlen ys)),
        (Z.ltb_spec (base + zlen ys) (base + Z.of_nat (length ys + 1))); try lia.
      simpl. by rewrite rd_snoc by lia.
    + rewrite rd_wr_ne, rd_store by lia.
      destruct (Z.leb_spec base i), (Z.ltb_spec i (base + zlen ys)),
        (Z.ltb_spec i (base + Z.of_nat (length ys + 1))); simpl; try lia; try done.
      by rewrite rd_app_l by lia.
Qed.

Lemma FilterARFastQ12_run data_in out base c n :
  let order := zlen c - 1 in
  0 ≤ order ≤ base → 0 ≤ n ≤ zlen data_in → base + n ≤ zlen out →
  WebRtcSpl_FilterARFastQ12 data_in out base c (zlen c) n =
    store out base (run (q12_step c) (slice out (base - order) order) (take (Z.to_nat n) data_in)).2.
Proof.
  intros order Ho Hn Hb. unfold WebRtcSpl_FilterARFastQ12. fold order.
  set (h0 := slice out (base - order) order).
  assert (zlen h0 = order) as L0 by (unfold h0; rewrite slice_length; lia).
  pose proof (for_up_inv (λ i o, o = store out base (run (q12_step c) h0 (take (Z.to_nat i) data_in)).2)
    0 (Z.to_nat n)) as H.
  match goal with |- for_up _ _ ?b ?s = _ => specialize (H b s) end.
  rewrite Z2Nat.id, Z.add_0_l in H by lia. apply H; clear H.
  - change (Z.to_nat 0) with 0%nat. rewrite take_0. unfold store. simpl.
    by rewrite Nat.add_0_r, take_drop.
  - intros i o Hi ->. rewrite take_rd, run_app by lia. set (xs := take (Z.to_nat i) data_in).
    assert (length xs = Z.to_nat i) as Lxs by (unfold xs; rewrite length_take; lia).
    pose proof (q12_run_hist c h0 xs) as HH. pose proof (run_length (q12_step c) h0 xs) as HR.
    destruct (run (q12_step c) h0 xs) as [h ys]. cbn [fst snd] in *. rewrite Lxs in HH, HR.
    cbn [run q12_step fst snd]. rewrite sat_round_clamp.
    replace (base + i) with (base + zlen ys) by lia. rewrite store_snoc by lia. do 3 f_equal.
    assert (zlen h = order) as Lh by (rewrite HH, length_drop, length_app; lia).
    unfold q12_output. rewrite Lh. do 4 f_equal. rewrite for_up_add, Z.add_0_l.
    replace (Z.to_nat order) with (length h) by lia. unfold sumf. apply for_up_ext. intros t s Ht.
    replace (zlen c - 1 - t) with (order - t) by (unfold order; lia). do 2 f_equal.
    replace (base + (i - (order - t))) with (base - order + (i + t)) by lia.
    rewrite rd_store by lia. transitivity ((h0 ++ ys).[i + t]).
    + destruct (Z.leb_spec base (base - order + (i + t))), (Z.ltb_spec (base - order + (i + t)) (base + zlen ys));
        simpl; try lia.
      * rewrite rd_app_r by lia. f_equal. lia.
      * rewrite rd_app_l by lia. unfold h0. by rewrite rd_slice by lia.
    + rewrite HH. rewrite !rd_nth by lia. rewrite !nth_lookup, lookup_drop. do 2 f_equal. lia.
Qed.

(** * Properties *)

(** One call of the AR filter: the input and output buffers with arbitrary content. *)
Record ArCall := mkArCall { ar_x : list Z; ar_filtered : list Z; ar_filtered_low : list Z }.

Definition ar_call_ok (c : ArCall) : Prop :=
  zlen (ar_x c) ≤ zlen (ar_filtered c) ∧ zlen (ar_x c) ≤ zlen (ar_filtered_low c).

(** Successive calls with the carried state: outputs (high, low) and final states. *)
Fixpoint ar_frames (a : list Z) (state state_low : list Z) (calls : list ArCall)
  : list (Z * Z) * list Z * list Z :=
  match calls with
  | [] => ([], state, state_low)
  | c :: calls' =>
      let '(n, state, state_low, f, fl) :=
        WebRtcSpl_FilterAR a (zlen a) (ar_x c) (zlen (ar_x c)) state (zlen state) state_low
          (ar_filtered c) (ar_filtered_low c) in
      let '(outs, state, state_low) := ar_frames a state state_low calls' in
      (zip (take (Z.to_nat n) f) (take (Z.to_nat n) fl) ++ outs, state, state_low)
  end.

(** AR filter.  For any coefficients, any state of matching length and any sequence
    of frames (shorter or longer than the state, empty ones included), the outputs of
    [WebRtcSpl_FilterAR] are those of the recursion that computes each sample from the
    last outputs, over the concatenation of the frames, and the saved states are the last
    outputs: neither the framing nor the content of the output buffers matters. *)
Lemma FilterAR_frames a state state_low calls :
  zlen a = zlen state + 1 → length state_low = length state → Forall ar_call_ok calls →
  ar_frames a state state_low calls =
    (let '((hi, lo), outs) := run (ar_step a) (state, state_low) (flat_map ar_x calls) in
     (outs, hi, lo)).
Proof.
  intros Ha HL Hc. revert state state_low Ha HL.
  induction Hc as [|c calls [Hf Hfl] Hc IH]; intros state state_low Ha HL; [done|].
  cbn [ar_frames flat_map]. rewrite FilterAR_call, run_app by done.
  destruct (ar_hist_length a state state_low (ar_x c) (eq_sym HL)) as [L1 L2].
  pose proof (run_length (ar_step a) (state, state_low) (ar_x c)) as HR.
  destruct (run (ar_step a) (state, state_low) (ar_x c)) as [[hi lo] outs]. cbn [fst snd] in *.
  rewrite IH by lia. destruct (run (ar_step a) (hi, lo) _) as [[hi' lo'] outs'].
  rewrite !take_prefix by (rewrite length_fmap; lia). by rewrite zip_fst_snd.
Qed.

Lemma FilterAR_frames_witness :
  let calls := [mkArCall [1000] [0] [0]; mkArCall [] [] []; mkArCall [5; -7; 900] [1; 1; 1; 1] [2; 2; 2]] in
  ar_frames [4096; -3000; 1200] [100; -200] [3; 4] calls =
    (let '((hi, lo), outs) := run (ar_step [4096; -3000; 1200]) ([100; -200], [3; 4])
                                (flat_map ar_x calls) in (outs, hi, lo)).
Proof.
  apply FilterAR_frames; [done|done|]. repeat constructor; vm_compute; congruence.
Defined.

(** Q12 filters.  The moving-average filter stores, for coefficients whose absolute
    values add up to at most 65535, exactly the rounded and saturated inner products of
    the coefficients with the current and earlier samples, and no other word.  The
    auto-regressive one stores, without any such condition, the outputs of the recursion
    on its last outputs, which it reads from the block before them. *)
Lemma filters_q12_exact inp base out B n data_in out2 base2 c m :
  Forall int16 inp → abs_sum B (length B) ≤ 65535 → 0 ≤ n ≤ zlen out →
  let order := zlen c - 1 in
  0 ≤ order ≤ base2 → 0 ≤ m ≤ zlen data_in → base2 + m ≤ zlen out2 →
  WebRtcSpl_FilterMAFastQ12 inp base out B (zlen B) n =
    ((λ i, clamp (-32768) 32767 ((convolve B (length B) inp (base + i) + 2048) `div` 4096))
       <$> seqZ 0 n) ++ drop (Z.to_nat n) out ∧
  WebRtcSpl_FilterARFastQ12 data_in out2 base2 c (zlen c) m =
    store out2 base2
      (run (q12_step c) (slice out2 (base2 - order) order) (take (Z.to_nat m) data_in)).2.
Proof.
  intros Hin HB Hn order Ho Hm Hb. split; [|by apply FilterARFastQ12_run].
  unfold WebRtcSpl_FilterMAFastQ12. rewrite fill_spec by done. f_equal.
  apply list_fmap_ext. intros k i Hi. rewrite sat_round_clamp. do 3 f_equal.
  rewrite Nat2Z.id. rewrite <- (Z.add_0_l (convolve _ _ _ _)).
  rewrite <- convolve_exact by (try done; unfold INT32_MAX; lia).
  apply for_up_ext. intros j s Hj. do 3 f_equal. lia.
Qed.

Lemma filters_q12_exact_witness :
  let inp := [32767; -32768; 5; 100] in let c := [4096; -3000; 1000] in
  WebRtcSpl_FilterMAFastQ12 inp 1 [0; 0; 0; 9] [32767; -32768] 2 3 =
    ((λ i, clamp (-32768) 32767 ((convolve [32767; -32768] 2 inp (1 + i) + 2048) `div` 4096))
       <$> seqZ 0 3) ++ [9] ∧
  WebRtcSpl_FilterARFastQ12 [100; 200] [7; 8; 0; 0] 2 c 3 2 =
    store [7; 8; 0; 0] 2 (run (q12_step c) (slice [7; 8; 0; 0] (2 - 2) 2) (take (Z.to_nat 2) [100; 200])).2.
Proof.
  apply (filters_q12_exact [32767; -32768; 5; 100] 1 [0; 0; 0; 9] [32767; -32768] 3
           [100; 200] [7; 8; 0; 0] 2 [4096; -3000; 1000] 2);
    [repeat constructor; cint|vm_compute; congruence|simpl; lia..].
Defined.

(** Decimating filter.  [WebRtcSpl_DownsampleFastC] returns -1 and writes nothing
    exactly when there is no output or no coefficient or the last position lies outside
    the input; otherwise it returns 0 and stores, for every output, the rounded and
    saturated inner product at its decimated position, exact when the absolute values of
    the coefficients add up to at most 65535 - 2, and nothing else. *)
Lemma DownsampleFast_spec inp base len out n c factor delay :
  Forall int16 inp → abs_sum c (length c) ≤ 65533 →
  0 ≤ n ≤ zlen out → 0 < factor → 0 ≤ delay → 0 ≤ len ≤ 2 ^ 62 → delay + factor * n < 2 ^ 62 →
  WebRtcSpl_DownsampleFastC inp base len out n c (zlen c) factor delay =
    if bool_decide (n = 0 ∨ c = [] ∨ len < delay + factor * (n - 1) + 1) then (-1, out)
    else (0, ((λ t, clamp (-32768) 32767
                 ((convolve c (length c) inp (base + (delay + t * factor)) + 2048) `div` 4096))
               <$> seqZ 0 n) ++ drop (Z.to_nat n) out).
Proof.
  intros Hin HB Hn Hf Hd Hlen Hbig. unfold WebRtcSpl_DownsampleFastC. change (2 ^ 62) with 4611686018427387904 in *.
  case_bool_decide as Hbad.
  - destruct (Z.eqb_spec n 0); [done|]. destruct (Z.eqb_spec (zlen c) 0); [done|].
    assert (c ≠ []) by (intros ->; done).
    assert (factor ≤ factor * n) by nia.
    rewrite (u64_id (n - 1)), (u64_id factor) by cint. rewrite (u64_id (factor * (n - 1))) by cint.
    rewrite u64_id by cint. destruct (Z.ltb_spec len (delay + factor * (n - 1) + 1)); [done|].
    destruct Hbad as [|[|]]; [done|done|lia].
  - destruct (Z.eqb_spec n 0); [tauto|].
    destruct (Z.eqb_spec (zlen c) 0); [destruct c; [tauto|simpl in *; lia]|].
    assert (factor ≤ factor * n) by nia.
    rewrite (u64_id (n - 1)), (u64_id factor) by cint. rewrite (u64_id (factor * (n - 1))) by cint.
    rewrite u64_id by cint.
    destruct (Z.ltb_spec len (delay + factor * (n - 1) + 1)) as [Hlt|]; [tauto|]. simpl orb. cbv iota.
    replace ((delay + factor * (n - 1) + 1 - delay + factor - 1) `div` factor) with n.
    2:{ replace (delay + factor * (n - 1) + 1 - delay + factor - 1) with (n * factor) by ring.
        by rewrite Z.div_mul by lia. }
    rewrite fill_spec by lia. do 2 f_equal. apply list_fmap_ext. intros k t Ht.
    rewrite SatW32ToW16_clamp, shiftr_div by lia. change (2 ^ 12) with 4096. do 2 f_equal.
    rewrite Nat2Z.id, (Z.add_comm (convolve _ _ _ _)).
    rewrite <- convolve_exact by (try done; unfold INT32_MAX; lia).
    apply for_up_ext. intros j s Hj. do 3 f_equal. lia.
Qed.

Lemma DownsampleFast_spec_witness :
  let inp := [1; 2; 30000; -32768; 32767; 6; 7] in
  WebRtcSpl_DownsampleFastC inp 1 6 [0; 0; 9] 2 [20000; -20000] 2 3 1 =
    if bool_decide (2 = 0 ∨ [20000; -20000] = [] ∨ 6 < 1 + 3 * (2 - 1) + 1) then (-1, [0; 0; 9])
    else (0, ((λ t, clamp (-32768) 32767
                 ((convolve [20000; -20000] 2 inp (1 + (1 + t * 3)) + 2048) `div` 4096))
               <$> seqZ 0 2) ++ [9]).
Proof.
  apply (DownsampleFast_spec [1; 2; 30000; -32768; 32767; 6; 7] 1 6 [0; 0; 9] 2 [20000; -20000] 3 1);
    [repeat constructor; cint|vm_compute; congruence|simpl; lia..].
Defined.
