(* ===== verification/RandWindow.v ===== *)
(** Pseudo-random numbers and the Hanning window of common_audio/signal_processing:
    randomization_functions.c and get_hanning_window.c.

    The generator is the linear congruence [x -> 69069 x + 1] modulo [2^31]; the main
    theorem is that it has full period.  For the window, the table is read inside its
    bounds for every size up to 1024 and the window rises to 1.0. *)
From S2P Require Import Prelude SplMath.

(** * Definitions *)

Definition kMaxSeedUsed : Z := 0x80000000.

Definition kRandNTable : list Z :=
  [9178; -7260; 40; 10189; 4894; -3531; -13779; 14764; -4008; -8884; -8990; 1008; 7368;
   5184; 3251; -5817; -9786; 5963; 1770; 8066; -7135; 10772; -2298; 1361; 6484; 2241; -8633;
   792; 199; -3344; 6553; -10079; -15040; 95; 11608; -12469; 14161; -4176; 2476; 6403;
   13685; -16005; 6646; 2239; 10916; -3004; -602; -3141; 2142; 14144; -5829; 5305; 8209;
   4713; 2697; -5112; 16092; -1210; -2891; -6631; -5360; -11878; -6781; -2739; -6392; 536;
   10923; 10872; 5059; -4748; -7770; 5477; 38; -1025; -2892; 1638; 6304; 14375; -11028;
   1553; -1565; 10762; -393; 4040; 5257; 12310; 6554; -4799; 4899; -6354; 1603; -1048;
   -2220; 8247; -186; -8944; -12004; 2332; 4801; -4933; 6371; 131; 8614; -5927; -8287;
   -22760; 4033; -15162; 3385; 3246; 3153; -5250; 3766; 784; 6494; -62; 3531; -1582; 15572;
   662; -3952; -330; -3196; 669; 7236; -2678; -6569; 23319; -8645; -741; 14830; -15976;
   4903; 315; -11342; 10311; 1858; -7777; 2145; 5436; 5677; -113; -10033; 826; -1353; 17210;
   7768; 986; -1471; 8291; -4982; 8207; -14911; -6255; -2449; -11881; -7059; -11703; -4338;
   8025; 7538; -2823; -12490; 9470; -1613; -2529; -10092; -7807; 9480; 6970; -12844; 5123;
   3532; 4816; 4803; -8455; -5045; 14032; -4378; -1643; 5756; -11041; -2732; -16618; -6430;
   -18375; -3320; 6098; 5131; -4269; -8840; 2482; -7048; 1547; -21890; -6505; -7414; -424;
   -11722; 7955; 1653; -17299; 1823; 473; -9232; 3337; 1111; 873; 4018; -8982; 9889; 3531;
   -11763; -3799; 7373; -4539; 3231; 7054; -8537; 7616; 6244; 16635; 447; -2915; 13967; 705;
   -2669; -1520; -1771; -16188; 5956; 5117; 6371; -9936; -1448; 2480; 5128; 7550; -8130;
   5236; 8213; -6443; 7707; -1950; -13811; 7218; 7031; -3883; 67; 5731; -2874; 13480; -3743;
   9298; -3280; 3552; -4425; -18; -3785; -9988; -5357; 5477; -11794; 2117; 1416; -9935;
   3376; 802; -5079; -8243; 12652; 66; 3653; -2368; 6781; -21895; -7227; 2487; 7839; -385;
   6646; -7016; -4658; 5531; -1705; 834; 129; 3694; -1343; 2238; -22640; -6417; -11139;
   11301; -2945; -3494; -5626; 185; -3615; -2041; -7972; -3106; -60; -23497; -1566; 17064;
   3519; 2518; 304; -6805; -10269; 2105; 1936; -426; -736; -8122; -1467; 4238; -6939;
   -13309; 360; 7402; -7970; 12576; 3287; 12194; -6289; -16006; 9171; 4042; -9193; 9123;
   -2512; 6388; -4734; -8739; 1028; -5406; -1696; 5889; -666; -4736; 4971; 3565; 9362;
   -6292; 3876; -3652; -19666; 7523; -4061; 391; -11773; 7502; -3763; 4929; -9478; 13278;
   2805; 4496; 7814; 16419; 12455; -14773; 2127; -2746; 3763; 4847; 3698; 6978; 4751; -6957;
   -3581; -45; 6252; 1513; -4797; -7925; 11270; 16188; -2359; -5269; 9376; -10777; 7262;
   20031; -6515; -2208; -5353; 8085; -1341; -1303; 7333; 5576; 3625; 5763; -7931; 9833;
   -3371; -10305; 6534; -13539; -9971; 997; 8464; -4064; -1495; 1857; 13624; 5458; 9490;
   -11086; -4524; 12022; -550; -198; 408; -8455; -7068; 10289; 9712; -3366; 9028; -7621;
   -5243; 2362; 6909; 4672; -4933; -1799; 4709; -4563; -62; -566; 1624; -7010; 14730;
   -17791; -3697; -2344; -1741; 7099; -9509; -6855; -1989; 3495; -2289; 2031; 12784; 891;
   14189; -3963; -5683; 421; -12575; 1724; -12682; -5970; -8169; 3143; -1824; -5488; -5130;
   8536; 12799; 794; 5738; 3459; -11689; -258; -3738; -3775; -8742; 2333; 8312; -9383;
   10331; 13119; 8398; 10644; -19433; -6446; -16277; -11793; 16284; 9345; 15222; 15834;
   2009; -7349; 130; -14547; 338; -5998; 3337; 21492; 2406; 7703; -951; 11196; -564; 3406;
   2217; 4806; 2374; -5797; 11839; 8940; -11874; 18213; 2855; 10492].

(** The new [seed[0]], which is also the return value. *)
Definition IncreaseSeed (seed : Z) : Z :=
  Z.land (u32 (u32 (seed * 69069) + 1)) (kMaxSeedUsed - 1).

(** Each function returns its value and the updated seed. *)
Definition WebRtcSpl_RandU (seed : Z) : Z * Z :=
  let seed := IncreaseSeed seed in (s16 (seed ≫ 16), seed).

Definition WebRtcSpl_RandN (seed : Z) : Z * Z :=
  let seed := IncreaseSeed seed in (kRandNTable.[seed ≫ 23], seed).

(** Return value, vector and seed. *)
Definition WebRtcSpl_RandUArray (vector : list Z) (vector_length seed : Z) : Z * list Z * Z :=
  let '(vector, seed) := for_up 0 (Z.to_nat vector_length) (λ i '(vector, seed),
    let '(v, seed) := WebRtcSpl_RandU seed in (wr vector i v, seed)) (vector, seed) in
  (vector_length, vector, seed).

Definition kHanningTable : list Z :=
  [1; 2; 6; 10; 15; 22; 30; 39; 50; 62; 75; 89; 104; 121; 138; 157; 178; 199; 222; 246; 271;
   297; 324; 353; 383; 413; 446; 479; 513; 549; 586; 624; 663; 703; 744; 787; 830; 875; 920;
   967; 1015; 1064; 1114; 1165; 1218; 1271; 1325; 1381; 1437; 1494; 1553; 1612; 1673; 1734;
   1796; 1859; 1924; 1989; 2055; 2122; 2190; 2259; 2329; 2399; 2471; 2543; 2617; 2691; 2765;
   2841; 2918; 2995; 3073; 3152; 3232; 3312; 3393; 3475; 3558; 3641; 3725; 3809; 3895; 3980;
   4067; 4154; 4242; 4330; 4419; 4509; 4599; 4689; 4781; 4872; 4964; 5057; 5150; 5244; 5338;
   5432; 5527; 5622; 5718; 5814; 5910; 6007; 6104; 6202; 6299; 6397; 6495; 6594; 6693; 6791;
   6891; 6990; 7090; 7189; 7289; 7389; 7489; 7589; 7690; 7790; 7890; 7991; 8091; 8192; 8293;
   8393; 8494; 8594; 8694; 8795; 8895; 8995; 9095; 9195; 9294; 9394; 9493; 9593; 9691; 9790;
   9889; 9987; 10085; 10182; 10280; 10377; 10474; 10570; 10666; 10762; 10857; 10952; 11046;
   11140; 11234; 11327; 11420; 11512; 11603; 11695; 11785; 11875; 11965; 12054; 12142;
   12230; 12317; 12404; 12489; 12575; 12659; 12743; 12826; 12909; 12991; 13072; 13152;
   13232; 13311; 13389; 13466; 13543; 13619; 13693; 13767; 13841; 13913; 13985; 14055;
   14125; 14194; 14262; 14329; 14395; 14460; 14525; 14588; 14650; 14711; 14772; 14831;
   14890; 14947; 15003; 15059; 15113; 15166; 15219; 15270; 15320; 15369; 15417; 15464;
   15509; 15554; 15597; 15640; 15681; 15721; 15760; 15798; 15835; 15871; 15905; 15938;
   15971; 16001; 16031; 16060; 16087; 16113; 16138; 16162; 16185; 16206; 16227; 16246;
   16263; 16280; 16295; 16309; 16322; 16334; 16345; 16354; 16362; 16369; 16374; 16378;
   16382; 16383; 16384].

(** The loop carries [index] and the window. *)
Definition WebRtcSpl_GetHanningWindow (v : list Z) (size : Z) : list Z :=
  let factor := WebRtcSpl_DivW32W16 0x40000000 (s16 size) in
  let index := if size <? 513 then -0x200000 else -0x100000 in
  (for_up 0 (Z.to_nat size) (λ jj '(v, index),
    let index := index ⊞ factor in
    (wr v jj (kHanningTable.[index ≫ 22]), index)) (v, index)).1.

(** * The generator *)

Lemma IncreaseSeed_mod seed : IncreaseSeed seed = (69069 * seed + 1) `mod` 2147483648.
Proof.
  unfold IncreaseSeed, kMaxSeedUsed, u32. change (0x80000000 - 1) with (Z.ones 31).
  rewrite Z.land_ones by lia. change (2 ^ 31) with 2147483648.
  rewrite Zplus_mod_idemp_l. rewrite Z.mod_mod_divide by (by exists 2).
  f_equal. lia.
Qed.

(** Coefficients of the [n]-fold congruence: [x -> mul_n x + add_n]. *)
Fixpoint lcg (n : nat) : Z * Z :=
  match n with
  | O => (1, 0)
  | S n => let '(m, c) := lcg n in (69069 * m, 69069 * c + 1)
  end.

Lemma iter_lcg n seed :
  0 ≤ seed < 2147483648 →
  Nat.iter n IncreaseSeed seed = ((lcg n).1 * seed + (lcg n).2) `mod` 2147483648.
Proof.
  intros Hs. induction n as [|n IH]; [simpl; rewrite Z.mod_small by lia; lia|].
  cbn [Nat.iter nat_rect lcg]. change (nat_rect _ seed _ n) with (Nat.iter n IncreaseSeed seed).
  rewrite IH, IncreaseSeed_mod. destruct (lcg n) as [m c]. cbn [fst snd].
  rewrite <- Zplus_mod_idemp_l, Zmult_mod_idemp_r, Zplus_mod_idemp_l. f_equal. ring.
Qed.

Lemma lcg_add n m :
  (lcg (n + m)).1 = (lcg n).1 * (lcg m).1 ∧
  (lcg (n + m)).2 = (lcg n).1 * (lcg m).2 + (lcg n).2.
Proof.
  induction n as [|n [IH1 IH2]]; [simpl; destruct (lcg m); simpl; lia|].
  cbn [Nat.add lcg]. destruct (lcg (n + m)) as [a b], (lcg n) as [c d]. cbn [fst snd] in *.
  rewrite IH1, IH2. split; ring.
Qed.

(** After [2^k] steps the multiplier is 1 modulo [2^(k+2)] and the increment is an odd
    multiple of [2^k]. *)
Lemma lcg_pow2 (k : nat) :
  let P := 2 ^ Z.of_nat k in
  ∃ u v, (lcg (2 ^ k)).1 = 1 + 4 * P * u ∧ (lcg (2 ^ k)).2 = P * (2 * v + 1).
Proof.
  induction k as [|k (u & v & H1 & H2)]; [exists 17267, 0; by vm_compute|].
  cbv zeta. rewrite Nat2Z.inj_succ, Z.pow_succ_r by lia. set (P := 2 ^ Z.of_nat k) in *.
  change (2 ^ S k)%nat with (2 ^ k + (2 ^ k + 0))%nat. rewrite Nat.add_0_r.
  destruct (lcg_add (2 ^ k) (2 ^ k)) as [-> ->]. rewrite H1, H2.
  exists (u + 2 * P * u * u), (v + P * u * (2 * v + 1)). split; ring.
Qed.

(** After [2^k (2 m + 1)] steps too. *)
Lemma lcg_odd (k m : nat) :
  let P := 2 ^ Z.of_nat k in
  ∃ u v, (lcg (2 ^ k * (2 * m + 1))).1 = 1 + 4 * P * u ∧
         (lcg (2 ^ k * (2 * m + 1))).2 = P * (2 * v + 1).
Proof.
  cbv zeta. set (P := 2 ^ Z.of_nat k). destruct (lcg_pow2 k) as (u & v & H1 & H2). fold P in H1, H2.
  induction m as [|m (u' & v' & I1 & I2)].
  - exists u, v. replace (2 ^ k * (2 * 0 + 1))%nat with (2 ^ k)%nat by lia. done.
  - replace (2 ^ k * (2 * S m + 1))%nat with (2 ^ k + (2 ^ k + 2 ^ k * (2 * m + 1)))%nat by lia.
    destruct (lcg_add (2 ^ k) (2 ^ k + 2 ^ k * (2 * m + 1))) as [-> ->].
    destruct (lcg_add (2 ^ k) (2 ^ k * (2 * m + 1))) as [-> ->]. rewrite H1, H2, I1, I2.
    set (A := 1 + 4 * P * u).
    exists (u + u + u' + 4 * P * u * u + 4 * P * u' * (2 * u + 4 * P * u * u)),
      (v' + 2 * v + 1 + 2 * P * u * (2 * v + 1) + (4 * P * u + 8 * P * P * u * u) * (2 * v' + 1)).
    unfold A. split; ring.
Qed.

Lemma odd_part (n : nat) : (0 < n)%nat → ∃ k m : nat, n = (2 ^ k * (2 * m + 1))%nat.
Proof.
  induction (lt_wf n) as [n _ IH]. intros Hn. destruct (Nat.Even_or_Odd n) as [[q ->]|[q ->]].
  - destruct (IH q ltac:(lia) ltac:(lia)) as (k & m & ->). exists (S k), m. simpl. lia.
  - exists 0%nat, q. simpl. lia.
Qed.

(** No earlier return than after [2^31] steps. *)
Lemma iter_no_return n seed :
  0 ≤ seed < 2147483648 → (0 < n)%nat → Z.of_nat n < 2147483648 →
  Nat.iter n IncreaseSeed seed ≠ seed.
Proof.
  intros Hs Hn Hlt. rewrite iter_lcg by done. destruct (odd_part n Hn) as (k & m & ->).
  destruct (lcg_odd k m) as (u & v & -> & ->). set (P := 2 ^ Z.of_nat k).
  assert (0 < P) by (apply Z.pow_pos_nonneg; lia).
  assert (Z.of_nat k < 31) as Hk.
  { assert (P < 2147483648).
    { eapply Z.le_lt_trans; [|exact Hlt]. unfold P.
      rewrite Nat2Z.inj_mul, Nat2Z.inj_pow. change (Z.of_nat 2) with 2. nia. }
    destruct (Z.ltb_spec (Z.of_nat k) 31); [done|].
    pose proof (Z.pow_le_mono_r 2 31 (Z.of_nat k) ltac:(lia) ltac:(lia)).
    change (2 ^ 31) with 2147483648 in *. unfold P in *. lia. }
  set (Q := 2 ^ (31 - Z.of_nat k - 1)).
  assert (2147483648 = 2 * P * Q) as EQ.
  { unfold P, Q. change 2147483648 with (2 ^ 31). change 2 with (2 ^ 1) at 2.
    rewrite <- !Z.pow_add_r by lia. f_equal. lia. }
  intros E. pose proof (Z.div_mod ((1 + 4 * P * u) * seed + P * (2 * v + 1)) 2147483648 ltac:(lia)) as D.
  rewrite E in D. set (q := _ `div` 2147483648) in D. clearbody q. rewrite EQ in D. clear E.
  assert (P * (4 * u * seed + 2 * v + 1 - 2 * Q * q) = 0) as D2 by lia.
  apply Z.mul_eq_0 in D2. lia.
Qed.

(** * The window *)

(** The value of [index] in turn [jj]. *)
Definition hanning_index (size jj : Z) : Z :=
  (if size <? 513 then -0x200000 else -0x100000) + (jj + 1) * (0x40000000 `quot` size).

Lemma hanning_index_range size jj :
  1 ≤ size ≤ 1024 → 0 ≤ jj < size →
  0 ≤ hanning_index size jj < 0x40000000 ∧ 0 ≤ hanning_index size jj ≫ 22 < 256.
Proof.
  intros Hs Hj. unfold hanning_index. rewrite Z.quot_div_nonneg by lia.
  set (f := 0x40000000 `div` size).
  assert (size * f ≤ 0x40000000) by (unfold f; apply Z.mul_div_le; lia).
  assert (1048576 ≤ f) by (unfold f; apply Z.div_le_lower_bound; lia).
  assert (size < 513 → 2097152 ≤ f) by (intros; unfold f; apply Z.div_le_lower_bound; lia).
  assert (f ≤ (jj + 1) * f ≤ size * f) by nia.
  assert (0 ≤ (if size <? 513 then -0x200000 else -0x100000) + (jj + 1) * f < 0x40000000) as H3
    by (destruct (Z.ltb_spec size 513); lia).
  split; [done|]. rewrite shiftr_div by lia. change (2 ^ 22) with 4194304.
  split; [apply Z.div_pos; lia|apply Z.div_lt_upper_bound; lia].
Qed.

Lemma GetHanningWindow_fill v size :
  1 ≤ size ≤ 1024 → size ≤ zlen v →
  WebRtcSpl_GetHanningWindow v size =
    ((λ jj, kHanningTable.[hanning_index size jj ≫ 22]) <$> seqZ 0 size) ++ drop (Z.to_nat size) v.
Proof.
  intros Hs Hv. unfold WebRtcSpl_GetHanningWindow. rewrite s16_id by cint.
  assert (WebRtcSpl_DivW32W16 0x40000000 size = 0x40000000 `quot` size) as ->.
  { unfold WebRtcSpl_DivW32W16. destruct (Z.eqb_spec size 0); [lia|]. simpl.
    rewrite ?s32_id; [done|]. rewrite Z.quot_div_nonneg by lia. unfold int32.
    pose proof (Z.div_pos 0x40000000 size). pose proof (Z.div_le_upper_bound 0x40000000 size 0x40000000). lia. }
  rewrite <- (fill_spec size) by lia. unfold fill.
  pose proof (for_up_inv (λ k '(w, index), w = fill k (λ jj, kHanningTable.[hanning_index size jj ≫ 22]) v ∧
    index = hanning_index size (k - 1)) 0 (Z.to_nat size)) as H.
  match goal with |- (for_up _ _ ?b ?s).1 = _ => specialize (H b s) end.
  rewrite Z2Nat.id, Z.add_0_l in H by lia.
  destruct (for_up 0 (Z.to_nat size) _ (v, _)) as [w index]. destruct H as [-> _]; [| |done].
  - split; [done|]. unfold hanning_index. lia.
  - intros i [w' index'] Hi [-> ->]. pose proof (hanning_index_range size i Hs ltac:(lia)) as [HR _].
    assert (hanning_index size (i - 1) ⊞ 0x40000000 `quot` size = hanning_index size i) as ->.
    { rewrite add32_id; unfold hanning_index in *; [lia|unfold int32; lia]. }
    split; [|f_equal; lia]. unfold fill. replace (Z.to_nat (i + 1)) with (S (Z.to_nat i)) by lia.
    rewrite for_up_S_r. by rewrite Z2Nat.id, Z.add_0_l by lia.
Qed.

Lemma hanning_table_mono i j : 0 ≤ i ≤ j → j < 256 → kHanningTable.[i] ≤ kHanningTable.[j].
Proof.
  intros Hi Hj. assert (∀ k, 0 ≤ k < 255 → kHanningTable.[k] ≤ kHanningTable.[k + 1]) as H.
  { intros k Hk. apply (check_range_dec (λ k, kHanningTable.[k] ≤ kHanningTable.[k + 1]) 0 255);
      [by vm_compute|lia]. }
  replace j with (i + Z.of_nat (Z.to_nat (j - i))) in * by lia.
  induction (Z.to_nat (j - i)) as [|n IH]; [by rewrite Z.add_0_r|].
  etransitivity; [apply IH; lia|]. replace (i + Z.of_nat (S n)) with (i + Z.of_nat n + 1) by lia.
  apply H. lia.
Qed.

(** * Properties *)

(** Period of the generator.  From every seed below [2^31] (every seed after the
    first step is one) the generator returns to the seed after [2^31] steps and no two
    earlier states coincide: its period is full. *)
Lemma IncreaseSeed_full_period seed (i j : nat) :
  0 ≤ seed < 2147483648 → (i < j)%nat → Z.of_nat j < 2147483648 →
  let state n := Nat.iter n IncreaseSeed seed in
  0 ≤ state i < 2147483648 ∧ state i ≠ state j ∧ state (Z.to_nat 2147483648) = seed.
Proof.
  intros Hs Hij Hj state.
  assert (∀ n, 0 ≤ state n < 2147483648) as HR.
  { intros n. unfold state. rewrite iter_lcg by done. apply Z.mod_pos_bound. lia. }
  split; [done|]. split.
  - intros E. apply (iter_no_return (j - i) (state i) (HR i)); [lia|lia|].
    rewrite E at 2. unfold state. rewrite <- Nat.iter_add. f_equal. lia.
  - unfold state. rewrite iter_lcg by done.
    assert (Z.to_nat 2147483648 = 2 ^ 31)%nat as ->
      by (apply Nat2Z.inj; rewrite Z2Nat.id, Nat2Z.inj_pow by lia; reflexivity).
    destruct (lcg_pow2 31) as (u & v & -> & ->). change (2 ^ Z.of_nat 31) with 2147483648.
    replace ((1 + 4 * 2147483648 * u) * seed + 2147483648 * (2 * v + 1))
      with (seed + (4 * u * seed + (2 * v + 1)) * 2147483648) by ring.
    rewrite Z.mod_add by lia. by apply Z.mod_small.
Qed.

Lemma IncreaseSeed_full_period_witness :
  let state n := Nat.iter n IncreaseSeed 777 in
  0 ≤ state 3%nat < 2147483648 ∧ state 3%nat ≠ state 100%nat ∧
  state (Z.to_nat 2147483648) = 777.
Proof. apply (IncreaseSeed_full_period 777 3 100); lia. Defined.

Lemma seed_range seed : 0 ≤ IncreaseSeed seed < 2147483648.
Proof. rewrite IncreaseSeed_mod. apply Z.mod_pos_bound. lia. Qed.

Lemma RandU_value seed :
  (WebRtcSpl_RandU seed).1 = IncreaseSeed seed `div` 65536 ∧ 0 ≤ (WebRtcSpl_RandU seed).1 ≤ 32767.
Proof.
  pose proof (seed_range seed). unfold WebRtcSpl_RandU. cbn [fst]. rewrite shiftr_div by lia.
  change (2 ^ 16) with 65536. rewrite s16_id; unfold int16; zdiv.
Qed.

(** Random values.  [WebRtcSpl_RandU] returns the upper 15 bits of the new seed, so a
    value from 0 to 32767; [WebRtcSpl_RandN] reads its table inside the first 256 of its
    512 entries; [WebRtcSpl_RandUArray] fills exactly [vector_length] words with the
    values of the successive seeds, leaves the others alone and returns the length. *)
Lemma random_values seed vector n :
  0 ≤ n ≤ zlen vector →
  0 ≤ (WebRtcSpl_RandU seed).1 ≤ 32767 ∧
  (∃ k, 0 ≤ k < 256 ∧ (WebRtcSpl_RandN seed).1 = kRandNTable.[k] ∧ k = IncreaseSeed seed `div` 2 ^ 23) ∧
  WebRtcSpl_RandUArray vector n seed =
    (n, ((λ i, Nat.iter (S (Z.to_nat i)) IncreaseSeed seed `div` 65536) <$> seqZ 0 n)
          ++ drop (Z.to_nat n) vector, Nat.iter (Z.to_nat n) IncreaseSeed seed).
Proof.
  intros Hn. split; [apply RandU_value|]. split.
  - exists (IncreaseSeed seed `div` 2 ^ 23). pose proof (seed_range seed). unfold WebRtcSpl_RandN. cbn [fst].
    rewrite shiftr_div by lia. change (2 ^ 23) with 8388608. split; [zdiv|done].
  - unfold WebRtcSpl_RandUArray. rewrite <- fill_spec by done.
    pose proof (for_up_inv (λ k '(v, s),
      v = fill k (λ i, Nat.iter (S (Z.to_nat i)) IncreaseSeed seed `div` 65536) vector ∧
      s = Nat.iter (Z.to_nat k) IncreaseSeed seed) 0 (Z.to_nat n)) as H.
    match goal with |- (let '_ := for_up _ _ ?b ?s in _) = _ => specialize (H b s) end.
    rewrite Z2Nat.id, Z.add_0_l in H by lia.
    destruct (for_up 0 (Z.to_nat n) _ (vector, seed)) as [v s]. destruct H as [-> ->]; [done| |done].
    intros i [v' s'] Hi [-> ->]. pose proof (RandU_value (Nat.iter (Z.to_nat i) IncreaseSeed seed)) as [E _].
    unfold WebRtcSpl_RandU in E |- *. cbn [fst] in E. cbv zeta. rewrite E.
    replace (Z.to_nat (i + 1)) with (S (Z.to_nat i)) by lia. split; [|done].
    unfold fill at 2. replace (Z.to_nat (i + 1)) with (S (Z.to_nat i)) by lia.
    rewrite for_up_S_r. by rewrite Z2Nat.id, Z.add_0_l by lia.
Qed.

Lemma random_values_witness :
  0 ≤ (WebRtcSpl_RandU 4242).1 ≤ 32767 ∧
  (∃ k, 0 ≤ k < 256 ∧ (WebRtcSpl_RandN 4242).1 = kRandNTable.[k] ∧ k = IncreaseSeed 4242 `div` 2 ^ 23) ∧
  WebRtcSpl_RandUArray [7; 7; 7] 2 4242 =
    (2, ((λ i, Nat.iter (S (Z.to_nat i)) IncreaseSeed 4242 `div` 65536) <$> seqZ 0 2) ++ [7],
     Nat.iter (Z.to_nat 2) IncreaseSeed 4242).
Proof. apply (random_values 4242 [7; 7; 7] 2). simpl. lia. Defined.

(** Hanning window.  For sizes from 1 to 1024 every table access of
    [WebRtcSpl_GetHanningWindow] is inside the table, the window is stored in the first
    [size] words and nothing else changes, it is non-decreasing with values from 0 to
    1.0 in Q14, and its last value is 1.0. *)
Lemma GetHanningWindow_spec v size :
  1 ≤ size ≤ 1024 → size ≤ zlen v →
  let w := WebRtcSpl_GetHanningWindow v size in
  (∀ jj, 0 ≤ jj < size → 0 ≤ hanning_index size jj ≫ 22 < zlen kHanningTable ∧
    w.[jj] = kHanningTable.[hanning_index size jj ≫ 22] ∧ 1 ≤ w.[jj] ≤ 16384) ∧
  (∀ i j, 0 ≤ i ≤ j → j < size → w.[i] ≤ w.[j]) ∧
  w.[size - 1] = 16384 ∧ drop (Z.to_nat size) w = drop (Z.to_nat size) v.
Proof.
  intros Hs Hv w. assert (w = _) as E by exact (GetHanningWindow_fill v size Hs Hv).
  assert (zlen ((λ jj, kHanningTable.[hanning_index size jj ≫ 22]) <$> seqZ 0 size) = size) as Lw
    by (rewrite length_fmap, length_seqZ; lia).
  assert (∀ jj, 0 ≤ jj < size → w.[jj] = kHanningTable.[hanning_index size jj ≫ 22]) as Hw.
  { intros jj Hj. rewrite E, rd_app_l by lia. rewrite rd_nth by lia. apply nth_lookup_Some.
    rewrite list_lookup_fmap, (proj2 (lookup_seqZ 0 size (Z.to_nat jj) jj)) by lia. done. }
  assert (kHanningTable.[255] = 16384 ∧ kHanningTable.[0] = 1 ∧ zlen kHanningTable = 256)
    as (H255 & H0 & HL) by (by vm_compute).
  split; [|split; [|split]].
  - intros jj Hj. pose proof (hanning_index_range size jj Hs Hj) as [_ HR]. rewrite HL.
    split; [done|]. split; [by apply Hw|]. rewrite Hw by done.
    pose proof (hanning_table_mono 0 (hanning_index size jj ≫ 22)).
    pose proof (hanning_table_mono (hanning_index size jj ≫ 22) 255). lia.
  - intros i j Hi Hj. rewrite !Hw by lia. apply hanning_table_mono.
    + split; [apply (hanning_index_range size i); lia|]. rewrite !shiftr_div by lia.
      apply Z.div_le_mono; [lia|]. unfold hanning_index. apply Z.add_le_mono_l, Z.mul_le_mono_nonneg_r; [|lia].
      rewrite Z.quot_div_nonneg by lia. apply Z.div_pos; lia.
    + apply (hanning_index_range size j); lia.
  - rewrite Hw by lia. rewrite <- H255. f_equal. unfold hanning_index.
    rewrite Z.quot_div_nonneg, shiftr_div by lia. change (2 ^ 22) with 4194304.
    replace (size - 1 + 1) with size by lia.
    pose proof (Z.mul_div_le 0x40000000 size ltac:(lia)). pose proof (Z.mul_succ_div_gt 0x40000000 size ltac:(lia)).
    assert (size * (0x40000000 `div` size) > 0x40000000 - 1024) as Hlow by nia.
    set (g := size * (0x40000000 `div` size)) in *. clearbody g.
    destruct (size <? 513); apply Z.le_antisymm;
      try (apply Z.lt_succ_r, Z.div_lt_upper_bound; lia); apply Z.div_le_lower_bound; lia.
  - rewrite E. by apply drop_prefix.
Qed.

Lemma GetHanningWindow_spec_witness :
  let w := WebRtcSpl_GetHanningWindow [0; 0; 0; 9] 3 in
  (∀ jj, 0 ≤ jj < 3 → 0 ≤ hanning_index 3 jj ≫ 22 < zlen kHanningTable ∧
    w.[jj] = kHanningTable.[hanning_index 3 jj ≫ 22] ∧ 1 ≤ w.[jj] ≤ 16384) ∧
  (∀ i j, 0 ≤ i ≤ j → j < 3 → w.[i] ≤ w.[j]) ∧ w.[3 - 1] = 16384 ∧ drop (Z.to_nat 3) w = [9].
Proof. apply (GetHanningWindow_spec [0; 0; 0; 9] 3); simpl; lia. Defined.
