(* ===== verification/Lpc.v ===== *)
(** Linear prediction (common_audio/signal_processing): auto_corr_to_refl_coef.c,
    refl_coef_to_lpc.c, lpc_to_refl_coef.c and levinson_durbin.c.

    The local arrays of the source are arguments: their contents on entry are arbitrary,
    and the theorems hold for all of them.  The theorems show that the in-place loops
    compute the textbook recursions, written below on functions of the index (Schur,
    step-up, step-down and Levinson-Durbin), with the rounding and the saturation of the
    code; that reflection coefficients stay inside the unit circle; and when the
    routines refuse their input. *)
From S2P Require Import Prelude SplInl SplMath Filters.

(** * Definitions *)

Definition WEBRTC_SPL_MAX_LPC_ORDER : Z := 14.

Definition WEBRTC_SPL_ABS_W16 (a : Z) : Z := if s16 a >=? 0 then s16 a else - s16 a.
Definition WEBRTC_SPL_ABS_W32 (a : Z) : Z := if s32 a >=? 0 then s32 a else neg32 (s32 a).

(** ** WebRtcSpl_AutoCorrToReflCoef *)

(** The first loop: [P] and [W] from the normalised correlations.  [ACF[i]] is the value
    [acf], which is not read again. *)
Definition refl_init (R : list Z) (use_order tmp : Z) (P W : list Z) : list Z * list Z :=
  let P := wr P 0 (s16 (shl32 (R.[0]) tmp ≫ 16)) in
  for_up 1 (Z.to_nat use_order) (λ i '(P, W),
    let acf := s16 (shl32 (R.[i]) tmp ≫ 16) in (wr P i acf, wr W i acf)) (P, W).

(** One turn of [while (i--)] on [( *K, L_num)]. *)
Definition refl_div_iter (L_den : Z) (s : Z * Z) : Z * Z :=
  let '(K, L_num) := s in
  let K := s16 (shl32 K 1) in
  let L_num := shl32 L_num 1 in
  if L_num >=? L_den then (s16 (K + 1), L_num ⊟ L_den) else (K, L_num).

(** The value stored in [*K]. *)
Definition refl_div (p1 p0 : Z) : Z :=
  let tmp := s16 (WEBRTC_SPL_ABS_W16 p1) in
  if tmp =? 0 then 0
  else
    let '(K, _) := Nat.iter 15 (refl_div_iter p0) (0, tmp) in
    if p1 >? 0 then s16 (- K) else K.

(** [(int16_t)(((int32_t)x * (int32_t)K + 16384) >> 15)] *)
Definition mul_q15_round (x K : Z) : Z := s16 ((x * K + 16384) ≫ 15).

(** The Schur recursion of step [n], in place. *)
Definition schur_update (use_order n K : Z) (P W : list Z) : list Z * list Z :=
  let P := wr P 0 (WebRtcSpl_AddSatW16 (P.[0]) (mul_q15_round (P.[1]) K)) in
  for_up 1 (Z.to_nat (use_order - n)) (λ i '(P, W),
    let tmp := mul_q15_round (W.[i]) K in
    let P := wr P i (WebRtcSpl_AddSatW16 (P.[i + 1]) tmp) in
    let tmp := mul_q15_round (P.[i + 1]) K in
    (P, wr W i (WebRtcSpl_AddSatW16 (W.[i]) tmp))) (P, W).

(** [for (n = ...; n <= use_order; n++, K++)], [rest] turns left. *)
Fixpoint refl_loop (rest : nat) (use_order n : Z) (P W K : list Z) : list Z :=
  match rest with
  | O => K
  | S rest =>
      let tmp := s16 (WEBRTC_SPL_ABS_W16 (P.[1])) in
      if P.[0] <? tmp then
        for_up n (Z.to_nat (use_order + 1 - n)) (λ i K, wr K (i - 1) 0) K
      else
        let K := wr K (n - 1) (refl_div (P.[1]) (P.[0])) in
        if n =? use_order then K
        else
          let '(P, W) := schur_update use_order n (K.[n - 1]) P W in
          refl_loop rest use_order (n + 1) P W K
  end.

Definition WebRtcSpl_AutoCorrToReflCoef (R : list Z) (use_order : Z) (K P W : list Z)
  : list Z :=
  let tmp := WebRtcSpl_NormW32 (R.[0]) in
  let '(P, W) := refl_init R use_order tmp P W in
  refl_loop (Z.to_nat use_order) use_order 1 P W K.

(** ** WebRtcSpl_ReflCoefToLpc *)

(** One turn of the loop over [m] on [(a, any)]. *)
Definition step_up_body (k : list Z) (m : Z) (s : list Z * list Z) : list Z * list Z :=
  let '(a, any) := s in
  let kp := k.[m] in
  let any := wr any (m + 1) (kp ≫ 3) in
  let any := for_up 0 (Z.to_nat m) (λ i any,
    wr any (1 + i) (s16 (a.[1 + i] + s16 ((a.[m - i] * kp) ≫ 15)))) any in
  (for_up 0 (Z.to_nat (m + 2)) (λ i a, wr a i (any.[i])) a, any).

Definition WebRtcSpl_ReflCoefToLpc (k : list Z) (use_order : Z) (a any : list Z) : list Z :=
  let a := wr a 0 4096 in
  let any := wr any 0 (a.[0]) in
  let a := wr a 1 (k.[0] ≫ 3) in
  (for_up 1 (Z.to_nat (use_order - 1)) (step_up_body k) (a, any)).1.

(** ** WebRtcSpl_LpcToReflCoef *)

(** One turn of the loop over [m] on [(a16, k16, tmp32)]. *)
Definition step_down_body (m : Z) (s : list Z * list Z * list Z) : list Z * list Z * list Z :=
  let '(a16, k16, tmp32) := s in
  let tmp_inv_denom32 := 1073741823 - k16.[m] * k16.[m] in
  let tmp_inv_denom16 := s16 (tmp_inv_denom32 ≫ 15) in
  let tmp32 := for_up 1 (Z.to_nat m) (λ k tmp32,
    let tmp32 := wr tmp32 k (shl32 (a16.[k]) 16 ⊟ shl32 (k16.[m] * a16.[m - k + 1]) 1) in
    wr tmp32 k (WebRtcSpl_DivW32W16 (tmp32.[k]) tmp_inv_denom16)) tmp32 in
  let a16 := for_up 1 (Z.to_nat (m - 1)) (λ k a16, wr a16 k (s16 (tmp32.[k] ≫ 1))) a16 in
  let tmp32 := wr tmp32 m (WEBRTC_SPL_SAT 8191 (tmp32.[m]) (-8191)) in
  (a16, wr k16 (m - 1) (s16 (shl32 (tmp32.[m]) 2)), tmp32).

(** Result: [(a16, k16)]. *)
Definition WebRtcSpl_LpcToReflCoef (a16 : list Z) (use_order : Z) (k16 tmp32 : list Z)
  : list Z * list Z :=
  let k16 := wr k16 (use_order - 1) (s16 (shl32 (a16.[use_order]) 3)) in
  (for_up 0 (Z.to_nat (use_order - 1)) (λ t, step_down_body (use_order - 1 - t))
     (a16, k16, tmp32)).1.

(** ** WebRtcSpl_LevinsonDurbin *)

Definition SPL_LEVINSON_MAXORDER : Z := 20.

(** A 32-bit number in hi and low format. *)
Definition hi_low (x : Z) : Z * Z :=
  let hi := s16 (x ≫ 16) in (hi, s16 ((x ⊟ hi * 65536) ≫ 1)).
Definition from_hi_low (x : Z * Z) : Z := x.1 * 65536 ⊞ shl32 (x.2) 1.

(** [hi*hi + (hi*low >> 15) + (low*hi >> 15)] *)
Definition mul_hi_low (x y : Z * Z) : Z :=
  x.1 * y.1 ⊞ ((x.1 * y.2) ≫ 15) ⊞ ((x.2 * y.1) ≫ 15).

(** [1 - K*K] in Q31. *)
Definition one_minus_square (K : Z * Z) : Z :=
  let t := (((K.1 * K.2) ≫ 14) ⊞ K.1 * K.1) ⊠ 2 in
  0x7fffffff ⊟ WEBRTC_SPL_ABS_W32 t.

(** [Alpha * (1 - K*K)], normalised: the hi and low format and the shift. *)
Definition alpha_update (alpha K : Z * Z) : (Z * Z) * Z :=
  let t := shl32 (mul_hi_low alpha (hi_low (one_minus_square K))) 1 in
  let norm := WebRtcSpl_NormW32 t in
  (hi_low (shl32 t norm), norm).

(** The local variables that live across the turns of the main loop. *)
Record LevinsonVars : Type := MkLevinson {
  A_hi : list Z; A_low : list Z; A_upd_hi : list Z; A_upd_low : list Z;
  lev_alpha : Z * Z; Alpha_exp : Z; lev_K : list Z;
}.

Definition hl (hi low : list Z) (i : Z) : Z * Z := (hi.[i], low.[i]).

(** [-temp1W32 / Alpha], de-normalised with saturation. *)
Definition levinson_coef (temp1W32 : Z) (alpha : Z * Z) (exp : Z) : Z :=
  let temp2W32 := WEBRTC_SPL_ABS_W32 temp1W32 in
  let temp3W32 := WebRtcSpl_DivW32HiLow temp2W32 (alpha.1) (alpha.2) in
  let temp3W32 := if temp1W32 >? 0 then neg32 temp3W32 else temp3W32 in
  let norm := WebRtcSpl_NormW32 temp3W32 in
  if (exp <=? norm) || (temp3W32 =? 0) then temp3W32 ⊠ shl32 1 exp
  else if temp3W32 >? 0 then 0x7fffffff else -2147483648.

(** [temp1W32 = R[i] + sum of R[j]*A[i-j]] *)
Definition levinson_sum (R_hi R_low hi low : list Z) (i : Z) : Z :=
  let t := for_up 1 (Z.to_nat (i - 1)) (λ j t,
    t ⊞ ((R_hi.[j] * hi.[i - j] ⊠ 2) ⊞
         ((((R_hi.[j] * low.[i - j]) ≫ 15) ⊞ ((R_low.[j] * hi.[i - j]) ≫ 15)) ⊠ 2))) 0 in
  (t ⊠ 16) ⊞ (R_hi.[i] * 65536 ⊞ shl32 (R_low.[i]) 1).

(** [Anew[j] = A[j] + K*A[i-j]] for [1 <= j < i], into the update arrays. *)
Definition levinson_new (i : Z) (K : Z * Z) (hi low upd_hi upd_low : list Z)
  : list Z * list Z :=
  for_up 1 (Z.to_nat (i - 1)) (λ j '(uh, ul),
    let t := from_hi_low (hl hi low j) ⊞ (mul_hi_low K (hl hi low (i - j)) ⊠ 2) in
    let v := hi_low t in (wr uh j (v.1), wr ul j (v.2))) (upd_hi, upd_low).

(** One turn of [for (i = 2; i <= order; i++)]; [inl] is [return 0]. *)
Definition levinson_body (R_hi R_low : list Z) (i : Z) (v : LevinsonVars)
  : LevinsonVars + LevinsonVars :=
  let temp1W32 := levinson_sum R_hi R_low (A_hi v) (A_low v) i in
  let temp3W32 := levinson_coef temp1W32 (lev_alpha v) (Alpha_exp v) in
  let K := hi_low temp3W32 in
  let lK := wr (lev_K v) (i - 1) (K.1) in
  if WEBRTC_SPL_ABS_W16 (K.1) >? 32750 then
    inl (MkLevinson (A_hi v) (A_low v) (A_upd_hi v) (A_upd_low v)
           (lev_alpha v) (Alpha_exp v) lK)
  else
    let '(uh, ul) := levinson_new i K (A_hi v) (A_low v) (A_upd_hi v) (A_upd_low v) in
    let last := hi_low (temp3W32 ≫ 4) in
    let uh := wr uh i (last.1) in
    let ul := wr ul i (last.2) in
    let '(alpha, norm) := alpha_update (lev_alpha v) K in
    let '(ah, al) := for_up 1 (Z.to_nat i) (λ j '(ah, al),
      (wr ah j (uh.[j]), wr al j (ul.[j]))) (A_hi v, A_low v) in
    inr (MkLevinson ah al uh ul alpha (s16 (Alpha_exp v + norm)) lK).

Fixpoint levinson_loop (rest : nat) (R_hi R_low : list Z) (i : Z) (v : LevinsonVars)
  : LevinsonVars + LevinsonVars :=
  match rest with
  | O => inr v
  | S rest =>
      match levinson_body R_hi R_low i v with
      | inl v => inl v
      | inr v => levinson_loop rest R_hi R_low (i + 1) v
      end
  end.

(** The normalised correlations in hi and low format. *)
Definition levinson_norm (R : list Z) (order norm : Z) (R_hi R_low : list Z)
  : list Z * list Z :=
  for_up 0 (Z.to_nat (order + 1)) (λ i '(rh, rl),
    let v := hi_low (R.[i] ⊠ shl32 1 norm) in (wr rh i (v.1), wr rl i (v.2))) (R_hi, R_low).

(** [K = A[1] = -R[1] / R[0]] in Q31. *)
Definition levinson_first (temp2W32 : Z) (r0 : Z * Z) : Z :=
  let temp3W32 := WEBRTC_SPL_ABS_W32 temp2W32 in
  let t := WebRtcSpl_DivW32HiLow temp3W32 (r0.1) (r0.2) in
  if temp2W32 >? 0 then neg32 t else t.

(** The locals [R_hi], [R_low] and those of [v] have arbitrary contents.
    Result: [(return value, A, K)]. *)
Definition WebRtcSpl_LevinsonDurbin (R A K : list Z) (order : Z)
    (R_hi R_low hi low upd_hi upd_low : list Z) : Z * list Z * list Z :=
  let norm := WebRtcSpl_NormW32 (R.[0]) in
  let '(R_hi, R_low) := levinson_norm R order norm R_hi R_low in
  let temp1W32 := levinson_first (R.[1] ⊠ shl32 1 norm) (hl R_hi R_low 0) in
  let k := hi_low temp1W32 in
  let K := wr K 0 (k.1) in
  let a1 := hi_low (temp1W32 ≫ 4) in
  let '(alpha, exp) := alpha_update (hl R_hi R_low 0) k in
  let v := MkLevinson (wr hi 1 (a1.1)) (wr low 1 (a1.2)) upd_hi upd_low alpha exp K in
  match levinson_loop (Z.to_nat (order - 1)) R_hi R_low 2 v with
  | inl v => (0, A, lev_K v)
  | inr v =>
      let A := wr A 0 4096 in
      let A := for_up 1 (Z.to_nat order) (λ i A,
        wr A i (s16 (((from_hi_low (hl (A_hi v) (A_low v) i) ⊠ 2) ⊞ 32768) ≫ 16))) A in
      (1, A, lev_K v)
  end.

(** * Reflection coefficients from correlations *)

(** [-p1 / p0] in Q15, truncated, at most 32767 in magnitude.  The magnitude of
    [-32768] does not fit, and the code then stores 0. *)
Definition refl_quotient (p1 p0 : Z) : Z :=
  if p1 =? -32768 then 0
  else - Z.sgn p1 * Z.min 32767 ((Z.abs p1 * 32768) `div` p0).

Lemma refl_div_iter_spec num den j :
  0 ≤ num < den → den ≤ 32767 → (j ≤ 15)%nat →
  Nat.iter j (refl_div_iter den) (0, num) =
    ((num * 2 ^ Z.of_nat j) `div` den, (num * 2 ^ Z.of_nat j) `mod` den).
Proof.
  intros Hn Hd. induction j as [|j IH]; intros Hj.
  - simpl. by rewrite Z.mul_1_r, Z.div_small, Z.mod_small by lia.
  - simpl Nat.iter. rewrite IH by lia. unfold refl_div_iter, shl32.
    rewrite Nat2Z.inj_succ, Z.pow_succ_r by lia.
    set (x := num * 2 ^ Z.of_nat j).
    replace (num * (2 * 2 ^ Z.of_nat j)) with (2 * x) by (subst x; ring).
    assert (0 < 2 ^ Z.of_nat j ≤ 2 ^ 14)
      by (split; [apply Z.pow_pos_nonneg; lia|apply Z.pow_le_mono_r; lia]).
    change (2 ^ 14) with 16384 in *.
    assert (0 ≤ x < den * 2 ^ Z.of_nat j) as Hx by (subst x; nia).
    pose proof (Z.mod_pos_bound x den ltac:(lia)) as Hm.
    assert (0 ≤ x `div` den < 16384) as Hq.
    { split; [apply Z.div_pos; lia|]. apply Z.div_lt_upper_bound; nia. }
    rewrite !shiftl_mul by lia. change (2 ^ 1) with 2.
    rewrite !(s32_id (_ * 2)), (s16_id (_ * 2)) by cint.
    pose proof (Z.div_mod x den ltac:(lia)) as E. rewrite Z.geb_leb.
    destruct (Z.leb_spec den (x `mod` den * 2)).
    + rewrite sub32_id, s16_id by cint. f_equal.
      * apply (Z.div_unique (2 * x) den _ (x `mod` den * 2 - den)); lia.
      * apply (Z.mod_unique (2 * x) den (x `div` den * 2 + 1)); lia.
    + f_equal.
      * apply (Z.div_unique (2 * x) den _ (x `mod` den * 2)); lia.
      * apply (Z.mod_unique (2 * x) den (x `div` den * 2)); lia.
Qed.

(** Equal numerator and denominator: every turn subtracts. *)
Lemma refl_div_iter_one den : 0 < den ≤ 32767 →
  Nat.iter 15 (refl_div_iter den) (0, den) = (32767, den).
Proof.
  intros Hd.
  assert (∀ j, (j ≤ 15)%nat → Nat.iter j (refl_div_iter den) (0, den) = (2 ^ Z.of_nat j - 1, den))
    as H; [|by rewrite H].
  induction j as [|j IH]; intros Hj; [done|]. simpl Nat.iter. rewrite IH by lia.
  unfold refl_div_iter, shl32. rewrite Nat2Z.inj_succ, Z.pow_succ_r by lia.
  assert (0 < 2 ^ Z.of_nat j ≤ 2 ^ 14)
    by (split; [apply Z.pow_pos_nonneg; lia|apply Z.pow_le_mono_r; lia]).
  change (2 ^ 14) with 16384 in *. rewrite !shiftl_mul by lia. change (2 ^ 1) with 2.
  rewrite !(s32_id (_ * 2)), (s16_id (_ * 2)) by cint. rewrite Z.geb_leb.
  destruct (Z.leb_spec den (den * 2)); [|lia]. rewrite sub32_id, s16_id by cint. f_equal; lia.
Qed.

(** A numerator of [-32768] only moves away from the denominator. *)
Lemma refl_div_iter_min den : -32768 ≤ den →
  ∃ r, Nat.iter 15 (refl_div_iter den) (0, -32768) = (0, r).
Proof.
  intros Hd.
  assert (∀ j, (j ≤ 15)%nat →
    Nat.iter j (refl_div_iter den) (0, -32768) = (0, -32768 * 2 ^ Z.of_nat j)) as H;
    [|eexists; by rewrite H].
  induction j as [|j IH]; intros Hj; [done|]. simpl Nat.iter. rewrite IH by lia.
  unfold refl_div_iter, shl32. rewrite Nat2Z.inj_succ, Z.pow_succ_r by lia.
  assert (0 < 2 ^ Z.of_nat j ≤ 2 ^ 14)
    by (split; [apply Z.pow_pos_nonneg; lia|apply Z.pow_le_mono_r; lia]).
  change (2 ^ 14) with 16384 in *. rewrite !shiftl_mul by lia. change (2 ^ 1) with 2.
  rewrite (s32_id (0 * 2)), (s32_id (-32768 * _ * 2)), (s16_id (0 * 2)) by cint.
  rewrite Z.geb_leb. destruct (Z.leb_spec den (-32768 * 2 ^ Z.of_nat j * 2)); [lia|].
  f_equal; lia.
Qed.

Lemma refl_abs p : int16 p →
  s16 (WEBRTC_SPL_ABS_W16 p) = if p =? -32768 then -32768 else Z.abs p.
Proof.
  intros H. unfold WEBRTC_SPL_ABS_W16. rewrite (s16_id p), Z.geb_leb by done.
  destruct (Z.eqb_spec p (-32768)) as [->|]; [done|].
  destruct (Z.leb_spec 0 p); rewrite s16_id by cint; lia.
Qed.

Lemma refl_div_spec p1 p0 :
  int16 p1 → int16 p0 → s16 (WEBRTC_SPL_ABS_W16 p1) ≤ p0 →
  refl_div p1 p0 = refl_quotient p1 p0.
Proof.
  intros H1 H0. unfold refl_div, refl_quotient. rewrite refl_abs by done.
  destruct (Z.eqb_spec p1 (-32768)) as [->|Hm]; intros Hle.
  { destruct (refl_div_iter_min p0) as [r ->]; [lia|done]. }
  destruct (Z.eqb_spec (Z.abs p1) 0); [replace p1 with 0 by lia; done|].
  assert (Nat.iter 15 (refl_div_iter p0) (0, Z.abs p1) =
    (Z.min 32767 ((Z.abs p1 * 32768) `div` p0),
     (Nat.iter 15 (refl_div_iter p0) (0, Z.abs p1)).2)) as ->.
  { destruct (Z.eq_dec (Z.abs p1) p0) as [->|].
    - rewrite refl_div_iter_one by cint. cbn [fst snd]. f_equal.
      rewrite Z.mul_comm, Z.div_mul by lia. done.
    - rewrite refl_div_iter_spec by (unfold_ints; lia). cbn [fst snd]. f_equal.
      change (2 ^ Z.of_nat 15) with 32768. rewrite Z.min_r; [done|].
      apply Z.lt_succ_r, Z.div_lt_upper_bound; lia. }
  set (q := Z.min _ _).
  assert (0 ≤ q ≤ 32767) as Hq.
  { unfold q. split; [|lia]. apply Z.min_glb; [lia|]. apply Z.div_pos; lia. }
  rewrite Z.gtb_ltb. destruct (Z.ltb_spec 0 p1); [rewrite s16_id by cint|].
  - rewrite Z.sgn_pos; lia.
  - rewrite Z.sgn_neg; lia.
Qed.

Lemma refl_quotient_range p1 p0 :
  int16 p1 → s16 (WEBRTC_SPL_ABS_W16 p1) ≤ p0 → -32767 ≤ refl_quotient p1 p0 ≤ 32767.
Proof.
  intros H. rewrite refl_abs by done. unfold refl_quotient.
  destruct (Z.eqb_spec p1 (-32768)); intros Hle; [lia|].
  assert (0 ≤ (Z.abs p1 * 32768) `div` p0).
  { destruct (Z.eq_dec p0 0) as [->|]; [rewrite Z.div_0_r; lia|]. apply Z.div_pos; lia. }
  pose proof (Z.sgn_spec p1). nia.
Qed.

(** The Schur recursion on the two generator sequences: the coefficients of the next [m]
    orders, and zeros from the first order that has no stable solution on. *)
Fixpoint schur (m : nat) (p w : Z → Z) : list Z :=
  match m with
  | O => []
  | S m' =>
      if p 0 <? s16 (WEBRTC_SPL_ABS_W16 (p 1)) then replicate m 0
      else
        let k := refl_quotient (p 1) (p 0) in
        k :: schur m'
          (λ i, if i =? 0 then WebRtcSpl_AddSatW16 (p 0) (mul_q15_round (p 1) k)
                else WebRtcSpl_AddSatW16 (p (i + 1)) (mul_q15_round (w i) k))
          (λ i, WebRtcSpl_AddSatW16 (w i) (mul_q15_round (p (i + 1)) k))
  end.

Lemma schur_ext m p p' w w' :
  (∀ i, 0 ≤ i ≤ Z.of_nat m → p i = p' i) → (∀ i, 1 ≤ i ≤ Z.of_nat m → w i = w' i) →
  schur m p w = schur m p' w'.
Proof.
  revert p p' w w'. induction m as [|m IH]; intros p p' w w' Hp Hw; [done|]. simpl.
  rewrite !(Hp 0), !(Hp 1) by lia. destruct (p' 0 <? _); [done|]. f_equal.
  apply IH; intros i Hi.
  - destruct (Z.eqb_spec i 0); [done|]. by rewrite Hp, Hw by lia.
  - by rewrite Hp, Hw by lia.
Qed.

Lemma AddSatW16_range a b : int16 (WebRtcSpl_AddSatW16 a b).
Proof. apply SatW32ToW16_range. Qed.

Lemma schur_length m p w : length (schur m p w) = m.
Proof.
  revert p w. induction m as [|m IH]; intros p w; [done|]. simpl.
  destruct (p 0 <? _); simpl; [by rewrite length_replicate|by rewrite IH].
Qed.

(** Every coefficient lies strictly inside the unit circle. *)
Lemma schur_range m p w :
  (∀ i, int16 (p i)) → Forall (λ k, -32767 ≤ k ≤ 32767) (schur m p w).
Proof.
  revert p w. induction m as [|m IH]; intros p w Hp; [constructor|].
  cbn [schur]. destruct (Z.ltb_spec (p 0) (s16 (WEBRTC_SPL_ABS_W16 (p 1)))).
  - apply Forall_replicate. lia.
  - constructor; [by apply refl_quotient_range|]. apply IH. intros i.
    destruct (i =? 0); apply AddSatW16_range.
Qed.

(** ** The loops *)

Lemma refl_init_rd R use_order tmp (P W : list Z) i :
  let r := refl_init R use_order tmp P W in
  let c i := s16 (shl32 (R.[i]) tmp ≫ 16) in
  0 ≤ use_order → use_order < zlen P → use_order < zlen W →
  length r.1 = length P ∧ length r.2 = length W ∧
  (0 ≤ i ≤ use_order → r.1.[i] = c i) ∧ (1 ≤ i ≤ use_order → r.2.[i] = c i).
Proof.
  intros r c Hu HP HW.
  pose proof (for_up_inv (λ k (s : list Z * list Z), length s.1 = length P ∧ length s.2 = length W ∧
    (0 ≤ i < k → s.1.[i] = c i) ∧ (1 ≤ i < k → s.2.[i] = c i)) 1 (Z.to_nat use_order)) as H.
  unfold r, refl_init. cbv zeta.
  match goal with |- context [for_up _ _ ?b ?s] => specialize (H b s) end.
  rewrite Z2Nat.id in H by lia.
  destruct H as (H1 & H2 & H3 & H4).
  - cbn [fst snd]. rewrite wr_length. repeat split; try done; intros Hi; [|lia].
    replace i with 0 by lia. by rewrite rd_wr_eq by lia.
  - intros k [p w] Hk (H1 & H2 & H3 & H4). cbn [fst snd] in *. rewrite !wr_length.
    do 2 (split; [done|]). split; intros Hi; (destruct (Z.eq_dec i k) as [->|];
      [by rewrite rd_wr_eq by lia|rewrite rd_wr_ne by lia]); [apply H3|apply H4]; lia.
  - do 2 (split; [done|]). split; intros; [apply H3|apply H4]; lia.
Qed.

Lemma schur_update_rd use_order n k (P W : list Z) i :
  let r := schur_update use_order n k P W in
  1 ≤ n ≤ use_order → use_order < zlen P → use_order < zlen W → 0 ≤ i ≤ use_order - n →
  length r.1 = length P ∧ length r.2 = length W ∧
  r.1.[i] = (if i =? 0 then WebRtcSpl_AddSatW16 (P.[0]) (mul_q15_round (P.[1]) k)
             else WebRtcSpl_AddSatW16 (P.[i + 1]) (mul_q15_round (W.[i]) k)) ∧
  (1 ≤ i → r.2.[i] = WebRtcSpl_AddSatW16 (W.[i]) (mul_q15_round (P.[i + 1]) k)).
Proof.
  intros r Hn HP HW Hi.
  pose proof (for_up_inv (λ j (s : list Z * list Z), length s.1 = length P ∧ length s.2 = length W ∧
    (∀ i, 0 ≤ i → s.1.[i] =
      if i =? 0 then WebRtcSpl_AddSatW16 (P.[0]) (mul_q15_round (P.[1]) k)
      else if i <? j then WebRtcSpl_AddSatW16 (P.[i + 1]) (mul_q15_round (W.[i]) k) else P.[i]) ∧
    (∀ i, 1 ≤ i → s.2.[i] =
      if i <? j then WebRtcSpl_AddSatW16 (W.[i]) (mul_q15_round (P.[i + 1]) k) else W.[i]))
    1 (Z.to_nat (use_order - n))) as H.
  unfold r, schur_update. cbv zeta.
  match goal with |- context [for_up _ _ ?b ?s] => specialize (H b s) end.
  rewrite Z2Nat.id in H by lia.
  destruct H as (H1 & H2 & H3 & H4).
  - cbn [fst snd]. rewrite wr_length. do 2 (split; [done|]). split; intros j Hj.
    + destruct (Z.eqb_spec j 0) as [->|]; [by rewrite rd_wr_eq by lia|].
      rewrite rd_wr_ne by lia. by destruct (Z.ltb_spec j 1); [lia|].
    + by destruct (Z.ltb_spec j 1); [lia|].
  - intros j [p w] Hj (H1 & H2 & H3 & H4). cbn [fst snd] in *. rewrite !wr_length.
    do 2 (split; [done|]).
    assert (p.[j + 1] = P.[j + 1]) as Ep.
    { rewrite H3 by lia. destruct (Z.eqb_spec (j + 1) 0), (Z.ltb_spec (j + 1) j); (done || lia). }
    assert (w.[j] = W.[j]) as Ew by (rewrite H4 by lia; by destruct (Z.ltb_spec j j); [lia|]).
    split; intros l Hl; (destruct (Z.eq_dec l j) as [->|]; [rewrite rd_wr_eq by lia|rewrite rd_wr_ne by lia]).
    + rewrite Ep, Ew. destruct (Z.eqb_spec j 0), (Z.ltb_spec j (j + 1)); (done || lia).
    + rewrite H3 by lia. destruct (Z.eqb_spec l 0), (Z.ltb_spec l j), (Z.ltb_spec l (j + 1)); (done || lia).
    + rewrite (rd_wr_ne p), Ep, Ew by lia. by destruct (Z.ltb_spec j (j + 1)); [|lia].
    + rewrite H4 by lia. destruct (Z.ltb_spec l j), (Z.ltb_spec l (j + 1)); (done || lia).
  - do 2 (split; [done|]). split.
    + rewrite H3 by lia. destruct (Z.eqb_spec i 0), (Z.ltb_spec i (1 + (use_order - n))); (done || lia).
    + intros. rewrite H4 by lia. by destruct (Z.ltb_spec i (1 + (use_order - n))); [|lia].
Qed.

(** The coefficient loop: [K] is written from position [n - 1] to [use_order - 1]. *)
Lemma refl_loop_schur rest use_order n (P W ks K : list Z) p w :
  Z.of_nat rest = use_order + 1 - n → 1 ≤ n → use_order < zlen P → use_order < zlen W →
  use_order ≤ zlen K → zlen ks = n - 1 →
  (∀ i, int16 (p i)) →
  (∀ i, 0 ≤ i ≤ use_order + 1 - n → P.[i] = p i) →
  (∀ i, 1 ≤ i ≤ use_order + 1 - n → W.[i] = w i) →
  refl_loop rest use_order n P W (ks ++ drop (Z.to_nat (n - 1)) K) =
    ks ++ schur rest p w ++ drop (Z.to_nat use_order) K.
Proof.
  revert n P W ks p w. induction rest as [|rest IH]; intros n P W ks p w Hr Hn HP HW HK Hks Hp EP EW.
  { simpl. do 2 f_equal. lia. }
  cbn [refl_loop schur]. rewrite !(EP 0), !(EP 1) by lia.
  destruct (Z.ltb_spec (p 0) (s16 (WEBRTC_SPL_ABS_W16 (p 1)))) as [Hl|Hl].
  - pose proof (for_up_inv (λ i K', K' = (ks ++ replicate (Z.to_nat (i - n)) 0) ++ drop (Z.to_nat (i - 1)) K)
      n (Z.to_nat (use_order + 1 - n)) (λ i K, wr K (i - 1) 0) (ks ++ drop (Z.to_nat (n - 1)) K)) as H.
    rewrite Z2Nat.id in H by lia. rewrite H; clear H.
    + rewrite <- app_assoc. replace (Z.to_nat (n + (use_order + 1 - n) - n)) with (S rest) by lia.
      by replace (n + (use_order + 1 - n) - 1) with use_order by lia.
    + by rewrite Z.sub_diag, app_nil_r.
    + intros i K' Hi ->. rewrite wr_next by (rewrite ?length_app, ?length_replicate; lia).
      replace (Z.to_nat (i + 1 - n)) with (Z.to_nat (i - n) + 1)%nat by lia.
      rewrite replicate_add, <- !app_assoc. do 4 f_equal. lia.
  - rewrite wr_next by lia. rewrite refl_div_spec by (done || apply Hp).
    set (k := refl_quotient (p 1) (p 0)).
    rewrite (rd_app_l (ks ++ [k])), rd_snoc by (rewrite ?length_app; simpl; lia).
    destruct (Z.eqb_spec n use_order) as [->|Hne].
    + assert (rest = 0%nat) as -> by lia. cbn [schur]. rewrite <- app_assoc. simpl.
      do 3 f_equal. lia.
    + destruct (schur_update use_order n k P W) as [P' W'] eqn:E.
      replace (n - 1 + 1) with (n + 1 - 1) by lia.
      rewrite (IH (n + 1) P' W' (ks ++ [k])
        (λ i, if i =? 0 then WebRtcSpl_AddSatW16 (p 0) (mul_q15_round (p 1) k)
                else WebRtcSpl_AddSatW16 (p (i + 1)) (mul_q15_round (w i) k))
        (λ i, WebRtcSpl_AddSatW16 (w i) (mul_q15_round (p (i + 1)) k))); try lia.
      * by rewrite <- app_assoc.
      * destruct (schur_update_rd use_order n k P W 0) as (H1 & H2 & _); [lia..|].
        rewrite E in *. simpl in *. lia.
      * destruct (schur_update_rd use_order n k P W 0) as (H1 & H2 & _); [lia..|].
        rewrite E in *. simpl in *. lia.
      * rewrite length_app. simpl. lia.
      * intros i. destruct (i =? 0); apply AddSatW16_range.
      * intros i Hi. destruct (schur_update_rd use_order n k P W i) as (_ & _ & H & _); [lia..|].
        rewrite E in H. cbn [fst] in H. rewrite H, (EP 0), (EP 1) by lia.
        destruct (Z.eqb_spec i 0); [done|]. by rewrite EP, EW by lia.
      * intros i Hi. destruct (schur_update_rd use_order n k P W i) as (_ & _ & _ & H); [lia..|].
        rewrite E in H. cbn [snd] in H. rewrite H by lia. by rewrite EP, EW by lia.
Qed.

(** * Step-up recursion *)

(** Coefficient [j] of order [m] from those of order [m - 1] and the reflection
    coefficient [k], in 16-bit arithmetic and exactly. *)
Definition step_up (m k : Z) (a : Z → Z) (j : Z) : Z :=
  if j =? m then k ≫ 3
  else if (1 <=? j) && (j <? m) then s16 (a j + s16 ((a (m - j) * k) ≫ 15)) else a j.
Definition step_up_exact (m k : Z) (a : Z → Z) (j : Z) : Z :=
  if j =? m then k ≫ 3
  else if (1 <=? j) && (j <? m) then a j + ((a (m - j) * k) ≫ 15) else a j.

(** The predictor of order [m]. *)
Fixpoint lpc (k : list Z) (m : nat) : Z → Z :=
  match m with
  | O => λ j, if j =? 0 then 4096 else 0
  | S m' => step_up (Z.of_nat m) (k.[Z.of_nat m']) (lpc k m')
  end.
Fixpoint lpc_exact (k : list Z) (m : nat) : Z → Z :=
  match m with
  | O => λ j, if j =? 0 then 4096 else 0
  | S m' => step_up_exact (Z.of_nat m) (k.[Z.of_nat m']) (lpc_exact k m')
  end.

Lemma copy_loop n (src a : list Z) :
  0 ≤ n ≤ zlen a →
  length (for_up 0 (Z.to_nat n) (λ i a, wr a i (src.[i])) a) = length a ∧
  ∀ j, 0 ≤ j → (for_up 0 (Z.to_nat n) (λ i a, wr a i (src.[i])) a).[j] =
    if j <? n then src.[j] else a.[j].
Proof.
  intros Hn.
  pose proof (for_up_inv (λ i d, length d = length a ∧
    ∀ j, 0 ≤ j → d.[j] = if j <? i then src.[j] else a.[j]) 0 (Z.to_nat n)
    (λ i a, wr a i (src.[i])) a) as H.
  rewrite Z2Nat.id, Z.add_0_l in H by lia. apply H; clear H.
  - split; [done|]. intros j Hj. by destruct (Z.ltb_spec j 0); [lia|].
  - intros i d Hi [HL HV]. split; [by rewrite wr_length|]. intros j Hj.
    destruct (Z.eq_dec j i) as [->|]; [rewrite rd_wr_eq by lia|rewrite rd_wr_ne, HV by lia].
    + by destruct (Z.ltb_spec i (i + 1)); [|lia].
    + destruct (Z.ltb_spec j i), (Z.ltb_spec j (i + 1)); (done || lia).
Qed.

(** [a] holds the predictor of order [m] and [a0] above it. *)
Definition holds_lpc (k a0 : list Z) (m : Z) (s : list Z * list Z) : Prop :=
  length s.1 = length a0 ∧ s.2.[0] = 4096 ∧
  ∀ j, 0 ≤ j → s.1.[j] = if j <=? m then lpc k (Z.to_nat m) j else a0.[j].

Lemma step_up_body_lpc k a0 m s :
  1 ≤ m → m + 1 < zlen a0 → m + 1 < zlen s.2 → holds_lpc k a0 m s →
  holds_lpc k a0 (m + 1) (step_up_body k m s) ∧ length (step_up_body k m s).2 = length s.2.
Proof.
  destruct s as [a any]. intros Hm HA Hany (HL & H0 & HV). cbn [fst snd] in *.
  unfold step_up_body. cbv zeta. set (any1 := wr any (m + 1) _).
  pose proof (for_up_inv (λ i d, length d = length any1 ∧ ∀ j, 0 ≤ j → d.[j] =
    if (1 <=? j) && (j <? 1 + i) then s16 (a.[j] + s16 ((a.[m + 1 - j] * k.[m]) ≫ 15)) else any1.[j])
    0 (Z.to_nat m)) as H.
  match goal with |- context [for_up 0 (Z.to_nat m) ?b ?d] => specialize (H b d) end.
  rewrite Z2Nat.id, Z.add_0_l in H by lia.
  assert (zlen any1 = zlen any) as L1 by (unfold any1; by rewrite wr_length).
  destruct H as [H1 H2].
  { split; [done|]. intros j Hj. destruct (Z.leb_spec 1 j), (Z.ltb_spec j (1 + 0)); (done || lia). }
  { intros i d Hi [HL' HV']. split; [by rewrite wr_length|]. intros j Hj.
    destruct (Z.eq_dec j (1 + i)) as [->|]; [rewrite rd_wr_eq by lia|rewrite rd_wr_ne, HV' by lia].
    - destruct (Z.leb_spec 1 (1 + i)), (Z.ltb_spec (1 + i) (1 + (i + 1))); try lia.
      simpl. by replace (m + 1 - (1 + i)) with (m - i) by lia.
    - destruct (Z.leb_spec 1 j), (Z.ltb_spec j (1 + i)), (Z.ltb_spec j (1 + (i + 1))); (done || lia). }
  set (any2 := for_up 0 (Z.to_nat m) _ any1) in *. cbn [snd].
  destruct (copy_loop (m + 2) any2 a) as [H3 H4]; [lia|].
  split; [|lia]. unfold holds_lpc. cbn [fst snd]. split; [lia|]. split.
  { rewrite H2 by lia. simpl. unfold any1. by rewrite rd_wr_ne by lia. }
  intros j Hj. rewrite H4, H2, HV by lia.
  replace (Z.to_nat (m + 1)) with (S (Z.to_nat m)) by lia. cbn [lpc]. unfold step_up.
  replace (Z.of_nat (S (Z.to_nat m))) with (m + 1) by lia. rewrite Z2Nat.id by lia.
  destruct (Z.eqb_spec j (m + 1)) as [->|].
  { destruct (Z.ltb_spec (m + 1) (m + 2)), (Z.leb_spec (m + 1) (m + 1)),
      (Z.leb_spec 1 (m + 1)), (Z.ltb_spec (m + 1) (1 + m)); try lia. simpl.
    unfold any1. by rewrite rd_wr_eq by lia. }
  destruct (Z.ltb_spec j (m + 2)), (Z.leb_spec j (m + 1)); try lia.
  2:{ by destruct (Z.leb_spec j m); [lia|]. }
  destruct (Z.leb_spec 1 j), (Z.ltb_spec j (1 + m)), (Z.ltb_spec j (m + 1)); try lia; simpl.
  - rewrite HV by lia. destruct (Z.leb_spec j m), (Z.leb_spec (m + 1 - j) m); (done || lia).
  - unfold any1. rewrite rd_wr_ne by lia. replace j with 0 by lia. rewrite H0.
    clear. generalize (Z.to_nat m) as n. induction n as [|n IH]; [done|].
    cbn [lpc]. unfold step_up. by destruct (Z.eqb_spec 0 (Z.of_nat (S n))); [lia|].
Qed.

Lemma ReflCoefToLpc_call k use_order (a any : list Z) :
  1 ≤ use_order → use_order < zlen a → use_order < zlen any →
  WebRtcSpl_ReflCoefToLpc k use_order a any =
    (lpc k (Z.to_nat use_order) <$> seqZ 0 (use_order + 1)) ++ drop (Z.to_nat (use_order + 1)) a.
Proof.
  intros Hu HA Hany. unfold WebRtcSpl_ReflCoefToLpc. cbv zeta.
  pose proof (for_up_inv (λ m s, holds_lpc k a m s ∧ length s.2 = length any) 1
    (Z.to_nat (use_order - 1)) (step_up_body k)) as H.
  match goal with |- context [for_up _ _ _ ?s] => specialize (H s) end.
  rewrite Z2Nat.id in H by lia. destruct H as [(HL & _ & HV) _].
  - unfold holds_lpc. cbn [fst snd]. rewrite !wr_length. split; [|done]. split; [done|].
    rewrite rd_wr_eq, rd_wr_eq by lia. split; [done|].
    intros j Hj. change (Z.to_nat 1) with 1%nat. cbn [lpc]. unfold step_up.
    change (Z.of_nat 1) with 1. change (Z.of_nat 0) with 0.
    destruct (Z.eqb_spec j 1) as [->|]; [by rewrite rd_wr_eq by (rewrite wr_length; lia)|].
    rewrite rd_wr_ne by lia. destruct (Z.leb_spec j 1).
    + replace j with 0 by lia. by rewrite rd_wr_eq by lia.
    + by rewrite rd_wr_ne by lia.
  - intros m s Hm [HI HLs]. destruct (step_up_body_lpc k a m s) as [H1 H2]; [lia..|done|].
    split; [done|lia].
  - replace (1 + (use_order - 1)) with use_order in HV by lia.
    apply list_rd_eq.
    + rewrite HL, length_app, length_fmap, length_seqZ, length_drop. lia.
    + intros j Hj. rewrite HV by lia. destruct (Z.leb_spec j use_order).
      * rewrite rd_app_l by (rewrite length_fmap, length_seqZ; lia).
        rewrite rd_nth by lia. rewrite nth_lookup, list_lookup_fmap, lookup_seqZ_lt by lia.
        simpl. f_equal. lia.
      * rewrite rd_app_r by (rewrite length_fmap, length_seqZ; lia).
        rewrite length_fmap, length_seqZ. rewrite !rd_nth by lia. rewrite !nth_lookup, lookup_drop.
        do 2 f_equal. lia.
Qed.

Lemma s16_add_r x y : s16 (x + s16 y) = s16 (x + y).
Proof. cwrap. Qed.

(** The 16-bit recursion is exact as long as the coefficients fit. *)
Lemma lpc_fits k n :
  (∀ m j, (m ≤ n)%nat → 1 ≤ j ≤ Z.of_nat m → int16 (lpc_exact k m j)) →
  ∀ j, lpc k n j = lpc_exact k n j.
Proof.
  induction n as [|n IH]; intros Hfit j; [done|].
  pose proof (Hfit (S n) j ltac:(lia)) as Hj. cbn [lpc lpc_exact] in *.
  unfold step_up, step_up_exact in *.
  rewrite !IH by (intros m i Hm Hi; apply Hfit; lia).
  destruct (Z.eqb_spec j (Z.of_nat (S n))); [done|].
  destruct (Z.leb_spec 1 j), (Z.ltb_spec j (Z.of_nat (S n))); try done. simpl in *.
  rewrite s16_add_r. apply s16_id, Hj. lia.
Qed.

Fixpoint binomial (n k : nat) : Z :=
  match n, k with
  | _, O => 1
  | O, S _ => 0
  | S n', S k' => binomial n' k' + binomial n' k
  end.

(** [|x * k / 32768| <= |x|] for a 16-bit [k]. *)
Lemma mul_q15_bound x k B : int16 k → Z.abs x ≤ B → Z.abs ((x * k) ≫ 15) ≤ B.
Proof.
  intros Hk Hx. unfold int16 in Hk. rewrite shiftr_div by lia. change (2 ^ 15) with 32768.
  apply Z.abs_le. split.
  - apply Z.div_le_lower_bound; nia.
  - apply Z.lt_succ_r, Z.div_lt_upper_bound; nia.
Qed.

Lemma lpc_exact_bound k m j :
  Forall int16 k → (m ≤ 4)%nat → 1 ≤ j ≤ Z.of_nat m →
  Z.abs (lpc_exact k m j) ≤ 4096 * binomial m (Z.to_nat j).
Proof.
  intros Hk. revert j. induction m as [|m IH]; intros j Hm Hj; [lia|].
  assert (int16 (k.[Z.of_nat m])) as Hkm by (apply rd_Forall; [done|cint]).
  cbn [lpc_exact]. unfold step_up_exact.
  destruct (Z.eqb_spec j (Z.of_nat (S m))) as [->|].
  { rewrite Nat2Z.id. assert (1 ≤ binomial (S m) (S m)).
    { clear. induction m as [|m IH]; [done|]. change (1 ≤ binomial (S m) (S m) + binomial (S m) (S (S m))).
      enough (0 ≤ binomial (S m) (S (S m))) by lia. clear. revert m.
      assert (∀ n k, 0 ≤ binomial n k) as H; [|intros; apply H].
      induction n as [|n IH]; intros [|k]; simpl; try lia. pose proof (IH k). pose proof (IH (S k)). lia. }
    pose proof (shiftr_bounds (k.[Z.of_nat m]) 3 (-4096) 4095 ltac:(lia)) as H3.
    change (2 ^ 3) with 8 in H3. specialize (H3 ltac:(cint)). lia. }
  destruct (Z.leb_spec 1 j), (Z.ltb_spec j (Z.of_nat (S m))); try lia. simpl andb. cbv iota.
  pose proof (IH j ltac:(lia) ltac:(lia)) as H1.
  pose proof (mul_q15_bound _ _ _ Hkm (IH (Z.of_nat (S m) - j) ltac:(lia) ltac:(lia))) as H2.
  assert (binomial (S m) (Z.to_nat j) =
    binomial m (Z.to_nat j) + binomial m (Z.to_nat (Z.of_nat (S m) - j))) as ->.
  { assert (m = 1%nat ∨ m = 2%nat ∨ m = 3%nat) as [-> | [-> | ->]] by lia;
      assert (j = 1 ∨ j = 2 ∨ j = 3) as [-> | [-> | ->]] by lia; (done || lia). }
  lia.
Qed.

(** Orders up to 4 never overflow. *)
Lemma lpc_small_order k n j : Forall int16 k → (n ≤ 4)%nat → lpc k n j = lpc_exact k n j.
Proof.
  intros Hk Hn. apply lpc_fits. intros m i Hm Hi.
  pose proof (lpc_exact_bound k m i Hk ltac:(lia) Hi) as H.
  assert (binomial m (Z.to_nat i) ≤ 6).
  { assert (m = 1 ∨ m = 2 ∨ m = 3 ∨ m = 4)%nat as [-> | [-> | [-> | ->]]] by lia;
      assert (i = 1 ∨ i = 2 ∨ i = 3 ∨ i = 4) as [-> | [-> | [-> | ->]]] by lia; (done || lia). }
  cint.
Qed.

(** * Step-down recursion *)

Definition refl_den (k : Z) : Z := s16 ((1073741823 - k * k) ≫ 15).

(** [tmp32[j]] of step [m]. *)
Definition step_down (m k : Z) (a : Z → Z) (j : Z) : Z :=
  WebRtcSpl_DivW32W16 (shl32 (a j) 16 ⊟ shl32 (k * a (m - j + 1)) 1) (refl_den k).

Definition sat_q15 (t : Z) : Z := s16 (shl32 (WEBRTC_SPL_SAT 8191 t (-8191)) 2).

(** The reflection coefficients [0 .. m] of the predictor [a], the last one being [k]. *)
Fixpoint refl_of (m : nat) (k : Z) (a : Z → Z) : list Z :=
  match m with
  | O => [k]
  | S m' =>
      let t := step_down (Z.of_nat m) k a in
      refl_of m' (sat_q15 (t (Z.of_nat m))) (λ j, s16 (t j ≫ 1)) ++ [k]
  end.

Lemma sat_q15_range t : -32764 ≤ sat_q15 t ≤ 32764 ∧ sat_q15 t = 4 * clamp (-8191) 8191 t.
Proof.
  unfold sat_q15, WEBRTC_SPL_SAT, clamp. rewrite Z.gtb_ltb.
  destruct (Z.ltb_spec 8191 t); [|destruct (Z.ltb_spec t (-8191))].
  - change (s16 (shl32 8191 2)) with 32764. lia.
  - change (s16 (shl32 (-8191) 2)) with (-32764). lia.
  - unfold shl32. rewrite shiftl_mul, s32_id, s16_id by cint. lia.
Qed.

Lemma refl_den_bounds k : -32767 ≤ k ≤ 32767 →
  refl_den k = (1073741823 - k * k) `div` 32768 ∧ 1 ≤ refl_den k ≤ 32767.
Proof.
  intros Hk. unfold refl_den. rewrite shiftr_div by lia. change (2 ^ 15) with 32768.
  assert (0 ≤ k * k ≤ 1073676289) by nia. rewrite s16_id by (unfold int16; zdiv).
  split; [done|]. zdiv.
Qed.

Lemma refl_of_ext m k a a' :
  (∀ j, 1 ≤ j ≤ Z.of_nat m → a j = a' j) → refl_of m k a = refl_of m k a'.
Proof.
  revert k a a'. induction m as [|m IH]; intros k a a' H; [done|]. cbn [refl_of]. cbv zeta.
  assert (∀ j, 1 ≤ j ≤ Z.of_nat (S m) →
    step_down (Z.of_nat (S m)) k a j = step_down (Z.of_nat (S m)) k a' j) as E.
  { intros j Hj. unfold step_down. by rewrite !H by lia. }
  rewrite E by lia. f_equal. apply IH. intros j Hj. by rewrite E by lia.
Qed.

Lemma refl_of_last m k a : ∃ ks, refl_of m k a = ks ++ [k] ∧ length ks = m ∧
  Forall (λ k, -32764 ≤ k ≤ 32764) ks.
Proof.
  revert k a. induction m as [|m IH]; intros k a.
  { exists []. by repeat split. }
  cbn [refl_of]. cbv zeta. eexists. split; [done|].
  destruct (IH (sat_q15 (step_down (Z.of_nat (S m)) k a (Z.of_nat (S m))))
    (λ j, s16 (step_down (Z.of_nat (S m)) k a j ≫ 1))) as (ks & -> & HL & HF).
  rewrite length_app, HL. split; [simpl; lia|]. apply Forall_app. split; [done|].
  constructor; [apply sat_q15_range|constructor].
Qed.

(** One turn writes [tmp32[1 .. m]], [a16[1 .. m-1]] and [k16[m-1]]. *)
Lemma step_down_body_spec m (a16 k16 tmp32 : list Z) :
  1 ≤ m → m < zlen a16 → m < zlen k16 → m < zlen tmp32 →
  ∃ a16' tmp32', let t := step_down m (k16.[m]) (rd a16) in
  step_down_body m (a16, k16, tmp32) = (a16', wr k16 (m - 1) (sat_q15 (t m)), tmp32') ∧
  length a16' = length a16 ∧ length tmp32' = length tmp32 ∧
  (∀ j, a16'.[j] = if (1 <=? j) && (j <? m) then s16 (t j ≫ 1) else a16.[j]).
Proof.
  intros Hm HA HK HT. unfold step_down_body. cbv zeta. fold (refl_den (k16.[m])).
  set (t := step_down m (k16.[m]) (rd a16)).
  pose proof (for_up_inv (λ i d, length d = length tmp32 ∧ ∀ j, 1 ≤ j < i → d.[j] = t j)
    1 (Z.to_nat m)) as H.
  match goal with |- context [for_up 1 (Z.to_nat m) ?b ?d] => specialize (H b d) end.
  rewrite Z2Nat.id in H by lia. destruct H as [H1 H2].
  { split; [done|]. lia. }
  { intros i d Hi [HL HV]. rewrite !wr_length. split; [done|]. intros j Hj.
    destruct (Z.eq_dec j i) as [->|].
    - rewrite rd_wr_eq, rd_wr_eq by (rewrite ?wr_length; lia). done.
    - rewrite !rd_wr_ne, HV by lia. done. }
  set (tmp1 := for_up 1 (Z.to_nat m) _ tmp32) in *.
  pose proof (for_up_inv (λ i d, length d = length a16 ∧ ∀ j, d.[j] =
    if (1 <=? j) && (j <? i) then s16 (t j ≫ 1) else a16.[j]) 1 (Z.to_nat (m - 1))) as H.
  match goal with |- context [for_up 1 (Z.to_nat (m - 1)) ?b ?d] => specialize (H b d) end.
  rewrite Z2Nat.id in H by lia. destruct H as [H3 H4].
  { split; [done|]. intros j. destruct (Z.leb_spec 1 j), (Z.ltb_spec j 1); (done || lia). }
  { intros i d Hi [HL HV]. rewrite wr_length. split; [done|]. intros j.
    destruct (Z.eq_dec j i) as [->|]; [rewrite rd_wr_eq, H2 by lia|rewrite rd_wr_ne, HV by lia].
    - destruct (Z.leb_spec 1 i), (Z.ltb_spec i (i + 1)); (done || lia).
    - destruct (Z.leb_spec 1 j), (Z.ltb_spec j i), (Z.ltb_spec j (i + 1)); (done || lia). }
  eexists _, _. split; [|split; [exact H3|split]].
  - rewrite rd_wr_eq, H2 by lia. done.
  - by rewrite wr_length.
  - intros j. rewrite H4. by replace (1 + (m - 1)) with m by lia.
Qed.

Lemma step_down_loop m off (a16 k16 tmp32 : list Z) :
  Z.of_nat m < zlen a16 → Z.of_nat m < zlen k16 → Z.of_nat m < zlen tmp32 →
  (for_up off m (λ t, step_down_body (off + Z.of_nat m - t)) (a16, k16, tmp32)).1.2 =
    refl_of m (k16.[Z.of_nat m]) (rd a16) ++ drop (Z.to_nat (Z.of_nat m + 1)) k16.
Proof.
  revert off a16 k16 tmp32. induction m as [|m IH]; intros off a16 k16 tmp32 HA HK HT.
  { cbn [for_up fst snd refl_of]. change (Z.of_nat 0) with 0. symmetry. exact (eq_sym (drop_rd k16 0 ltac:(lia))). }
  cbn [for_up]. replace (off + Z.of_nat (S m) - off) with (Z.of_nat (S m)) by lia.
  destruct (step_down_body_spec (Z.of_nat (S m)) a16 k16 tmp32) as (a' & t' & -> & La & Lt & Ha); [lia..|].
  cbn [refl_of]. cbv zeta. set (t := step_down _ _ _) in *.
  rewrite (for_up_ext _ _ _ (λ t, step_down_body (off + 1 + Z.of_nat m - t)))
    by (intros i s Hi; f_equal; lia).
  rewrite IH by (rewrite ?wr_length; lia).
  replace (Z.of_nat (S m) - 1) with (Z.of_nat m) by lia. rewrite rd_wr_eq by lia.
  rewrite (refl_of_ext m _ (rd a') (λ j, s16 (t j ≫ 1))).
  2:{ intros j Hj. rewrite Ha. by destruct (Z.leb_spec 1 j), (Z.ltb_spec j (Z.of_nat (S m))); try lia. }
  rewrite drop_wr, <- app_assoc by lia. f_equal. rewrite drop_rd by lia.
  simpl. do 2 f_equal; [f_equal; lia|]. f_equal; lia.
Qed.

Lemma LpcToReflCoef_call (a16 : list Z) use_order (k16 tmp32 : list Z) :
  1 ≤ use_order → use_order < zlen a16 → use_order ≤ zlen k16 → use_order ≤ zlen tmp32 →
  (WebRtcSpl_LpcToReflCoef a16 use_order k16 tmp32).2 =
    refl_of (Z.to_nat (use_order - 1)) (s16 (shl32 (a16.[use_order]) 3)) (rd a16) ++
    drop (Z.to_nat use_order) k16.
Proof.
  intros Hu HA HK HT. unfold WebRtcSpl_LpcToReflCoef. cbv zeta.
  set (k := s16 _). set (k16' := wr k16 (use_order - 1) k).
  pose proof (step_down_loop (Z.to_nat (use_order - 1)) 0 a16 k16' tmp32) as H.
  assert (zlen k16' = zlen k16) as E by (unfold k16'; by rewrite wr_length).
  rewrite Z2Nat.id, Z.add_0_l in H by lia. rewrite H by lia.
  unfold k16'. rewrite rd_wr_eq, drop_wr by lia. do 2 f_equal. lia.
Qed.

(** * Levinson-Durbin *)

(** The two halves of a 32-bit word, up to its last bit. *)
Lemma hi_low_spec x : int32 x →
  hi_low x = (x `div` 65536, (x `mod` 65536) `div` 2) ∧ from_hi_low (hi_low x) = x - x `mod` 2 ∧
  int16 (hi_low x).1 ∧ 0 ≤ (hi_low x).2 ≤ 32767.
Proof.
  intros Hx. unfold hi_low. rewrite !shiftr_div by lia. change (2 ^ 16) with 65536. change (2 ^ 1) with 2.
  rewrite (s16_id (x `div` 65536)) by (unfold_ints; zdiv).
  rewrite sub32_id by (unfold_ints; zdiv). rewrite s16_id by (unfold_ints; zdiv).
  unfold from_hi_low. cbn [fst snd]. unfold shl32. rewrite shiftl_mul by lia. change (2 ^ 1) with 2.
  assert (x - x `div` 65536 * 65536 = x `mod` 65536) as E by zdiv.
  rewrite E. rewrite (s32_id (_ * 2)) by (unfold_ints; zdiv). rewrite add32_id by (unfold_ints; zdiv).
  split; [done|]. split; [zdiv|]. split; [|zdiv]. unfold_ints. zdiv.
Qed.

(** The recursion on functions of the index: [r] and [a] are the correlations and the
    predictor, [alpha] the normalised prediction error and [e] its shift. *)
Record LevinsonState : Type := MkLev { lev_a : Z → Z * Z; lev_err : Z * Z; lev_exp : Z }.

Definition predict_sum (r a : Z → Z * Z) (i : Z) : Z :=
  let t := for_up 1 (Z.to_nat (i - 1)) (λ j t,
    t ⊞ (((r j).1 * (a (i - j)).1 ⊠ 2) ⊞
         (((((r j).1 * (a (i - j)).2) ≫ 15) ⊞ (((r j).2 * (a (i - j)).1) ≫ 15)) ⊠ 2))) 0 in
  (t ⊠ 16) ⊞ from_hi_low (r i).

Definition predict_step (i k : Z) (s : LevinsonState) : LevinsonState :=
  let K := hi_low k in
  let '(alpha, norm) := alpha_update (lev_err s) K in
  MkLev (λ j, if j =? i then hi_low (k ≫ 4)
              else if (1 <=? j) && (j <? i)
              then hi_low (from_hi_low (lev_a s j) ⊞ (mul_hi_low K (lev_a s (i - j)) ⊠ 2))
              else lev_a s j)
    alpha (s16 (lev_exp s + norm)).

(** The reflection coefficients of orders [i], [i + 1], ... and the predictor, or none
    when a coefficient reaches the limit; that coefficient is the last of the list. *)
Fixpoint levinson (rest : nat) (r : Z → Z * Z) (i : Z) (s : LevinsonState)
  : list Z * option LevinsonState :=
  match rest with
  | O => ([], Some s)
  | S rest =>
      let k := levinson_coef (predict_sum r (lev_a s) i) (lev_err s) (lev_exp s) in
      if WEBRTC_SPL_ABS_W16 (hi_low k).1 >? 32750 then ([(hi_low k).1], None)
      else
        let '(ks, o) := levinson rest r (i + 1) (predict_step i k s) in
        ((hi_low k).1 :: ks, o)
  end.

(** A loop that stores hi and low words. *)
Lemma hl_loop (f : Z → Z * Z) a n b (x y : list Z) :
  (∀ j s, b j s = (wr s.1 j (f j).1, wr s.2 j (f j).2)) →
  0 ≤ a → a + Z.of_nat n ≤ zlen x → a + Z.of_nat n ≤ zlen y →
  let r := for_up a n b (x, y) in
  length r.1 = length x ∧ length r.2 = length y ∧
  ∀ j, hl r.1 r.2 j = if (a <=? j) && (j <? a + Z.of_nat n) then f j else hl x y j.
Proof.
  intros Hb Ha Hx Hy r.
  apply (for_up_inv (λ i (s : list Z * list Z), length s.1 = length x ∧ length s.2 = length y ∧
    ∀ j, hl s.1 s.2 j = if (a <=? j) && (j <? i) then f j else hl x y j)).
  - do 2 (split; [done|]). intros j. destruct (Z.leb_spec a j), (Z.ltb_spec j a); (done || lia).
  - intros i s Hi (H1 & H2 & H3). rewrite Hb. cbn [fst snd]. rewrite !wr_length.
    do 2 (split; [done|]). intros j. unfold hl in *. destruct (Z.eq_dec j i) as [->|].
    + rewrite !rd_wr_eq by lia. destruct (Z.leb_spec a i), (Z.ltb_spec i (i + 1)); try lia.
      by destruct (f i).
    + rewrite !rd_wr_ne, H3 by lia.
      destruct (Z.leb_spec a j), (Z.ltb_spec j i), (Z.ltb_spec j (i + 1)); (done || lia).
Qed.

Lemma hl_wr (x y : list Z) i u j :
  0 ≤ i < zlen x → i < zlen y →
  hl (wr x i u.1) (wr y i u.2) j = if j =? i then u else hl x y j.
Proof.
  intros Hx Hy. unfold hl. destruct (Z.eqb_spec j i) as [->|].
  - rewrite !rd_wr_eq by lia. by destruct u.
  - by rewrite !rd_wr_ne by lia.
Qed.

(** The variables of the loop before turn [i] hold the state [s] of the recursion. *)
Definition lev_rel (L i : Z) (v : LevinsonVars) (s : LevinsonState) : Prop :=
  (zlen (A_hi v) = L ∧ zlen (A_low v) = L ∧ zlen (A_upd_hi v) = L ∧ zlen (A_upd_low v) = L) ∧
  (∀ j, 1 ≤ j < i → hl (A_hi v) (A_low v) j = lev_a s j) ∧
  lev_alpha v = lev_err s ∧ Alpha_exp v = lev_exp s.

Lemma levinson_sum_rel R_hi R_low L i v s :
  1 ≤ i → lev_rel L i v s →
  levinson_sum R_hi R_low (A_hi v) (A_low v) i = predict_sum (hl R_hi R_low) (lev_a s) i.
Proof.
  intros Hi (_ & HA & _). unfold levinson_sum, predict_sum. cbv zeta. f_equal. f_equal.
  apply for_up_ext. intros j t Hj. rewrite <- HA by lia. done.
Qed.

Lemma levinson_new_rd i K (hi low upd_hi upd_low : list Z) :
  1 ≤ i → i ≤ zlen upd_hi → i ≤ zlen upd_low →
  let r := levinson_new i K hi low upd_hi upd_low in
  length r.1 = length upd_hi ∧ length r.2 = length upd_low ∧
  ∀ j, hl r.1 r.2 j = if (1 <=? j) && (j <? i)
    then hi_low (from_hi_low (hl hi low j) ⊞ (mul_hi_low K (hl hi low (i - j)) ⊠ 2))
    else hl upd_hi upd_low j.
Proof.
  intros Hi H1 H2 r.
  destruct (hl_loop (λ j, hi_low (from_hi_low (hl hi low j) ⊞ (mul_hi_low K (hl hi low (i - j)) ⊠ 2)))
    1 (Z.to_nat (i - 1)) (λ j '(uh, ul),
      let t := from_hi_low (hl hi low j) ⊞ (mul_hi_low K (hl hi low (i - j)) ⊠ 2) in
      let v := hi_low t in (wr uh j (v.1), wr ul j (v.2))) upd_hi upd_low) as (L1 & L2 & HU);
    [by intros j [uh ul]|lia..|].
  split; [exact L1|]. split; [exact L2|]. intros j.
  rewrite Z2Nat.id in HU by lia. replace (1 + (i - 1)) with i in HU by lia. exact (HU j).
Qed.

Lemma levinson_body_rel R_hi R_low L i v s :
  2 ≤ i < L → lev_rel L i v s →
  let k := levinson_coef (predict_sum (hl R_hi R_low) (lev_a s) i) (lev_err s) (lev_exp s) in
  let lK := wr (lev_K v) (i - 1) (hi_low k).1 in
  if WEBRTC_SPL_ABS_W16 (hi_low k).1 >? 32750
  then ∃ v', levinson_body R_hi R_low i v = inl v' ∧ lev_K v' = lK
  else ∃ v', levinson_body R_hi R_low i v = inr v' ∧ lev_K v' = lK ∧
         lev_rel L (i + 1) v' (predict_step i k s).
Proof.
  intros Hi Hrel k lK. unfold levinson_body. cbv zeta.
  rewrite (levinson_sum_rel R_hi R_low L i v s ltac:(lia) Hrel).
  destruct Hrel as ((LA1 & LA2 & LU1 & LU2) & HA & -> & ->). fold k. fold lK.
  destruct (WEBRTC_SPL_ABS_W16 (hi_low k).1 >? 32750); [eexists; split; done|].
  pose proof (levinson_new_rd i (hi_low k) (A_hi v) (A_low v) (A_upd_hi v) (A_upd_low v)
    ltac:(lia) ltac:(lia) ltac:(lia)) as H. cbv zeta in H.
  destruct (levinson_new i (hi_low k) (A_hi v) (A_low v) (A_upd_hi v) (A_upd_low v)) as [uh ul].
  cbn [fst snd] in H. destruct H as (L1 & L2 & HU).
  pose proof (hl_wr uh ul i (hi_low (k ≫ 4))) as HW.
  set (uh' := wr uh i _) in *. set (ul' := wr ul i _) in *.
  assert (zlen uh' = L ∧ zlen ul' = L) as [L3 L4] by (unfold uh', ul'; rewrite !wr_length; lia).
  unfold predict_step. destruct (alpha_update (lev_err s) (hi_low k)) as [alpha norm].
  pose proof (hl_loop (hl uh' ul') 1 (Z.to_nat i) (λ j '(ah, al), (wr ah j (uh'.[j]), wr al j (ul'.[j])))
    (A_hi v) (A_low v) ltac:(by intros j [ah al]) ltac:(lia) ltac:(lia) ltac:(lia)) as H.
  destruct (for_up 1 (Z.to_nat i) _ (A_hi v, A_low v)) as [ah al]. cbn [fst snd] in H.
  destruct H as (L5 & L6 & HC). eexists. split; [done|]. split; [done|].
  split; [cbn [A_hi A_low A_upd_hi A_upd_low]; lia|]. split; [|done].
  intros j Hj. cbn [A_hi A_low lev_a]. rewrite HC, HW, HU by lia. rewrite !Z2Nat.id by lia.
  destruct (Z.leb_spec 1 j), (Z.ltb_spec j (1 + i)); try lia. simpl andb. cbv iota.
  destruct (Z.eqb_spec j i); [done|].
  destruct (Z.ltb_spec j i); [|lia]. by rewrite !HA by lia.
Qed.

(** The whole loop: the coefficients are stored from position [i - 1] on. *)
Lemma levinson_loop_rel rest R_hi R_low L i v s (ks K : list Z) :
  2 ≤ i → i + Z.of_nat rest ≤ L → i + Z.of_nat rest - 1 ≤ zlen K → zlen ks = i - 1 →
  lev_K v = ks ++ drop (Z.to_nat (i - 1)) K → lev_rel L i v s →
  let '(l, o) := levinson rest (hl R_hi R_low) i s in
  let K' := ks ++ l ++ drop (Z.to_nat (i - 1) + length l) K in
  match o with
  | None => ∃ v', levinson_loop rest R_hi R_low i v = inl v' ∧ lev_K v' = K'
  | Some s' => ∃ v', levinson_loop rest R_hi R_low i v = inr v' ∧ lev_K v' = K' ∧
      lev_rel L (i + Z.of_nat rest) v' s'
  end.
Proof.
  revert i v s ks. induction rest as [|rest IH]; intros i v s ks Hi HL HK Hks EK Hrel.
  { cbn [levinson levinson_loop]. exists v. rewrite Z.add_0_r, Nat.add_0_r. done. }
  cbn [levinson levinson_loop].
  pose proof (levinson_body_rel R_hi R_low L i v s ltac:(lia) Hrel) as H. cbv zeta in H.
  set (k := levinson_coef _ _ _) in *. rewrite EK, wr_next in H by lia.
  replace (i - 1 + 1) with (i + 1 - 1) in H by lia.
  destruct (WEBRTC_SPL_ABS_W16 (hi_low k).1 >? 32750).
  - destruct H as (v' & -> & E). exists v'. split; [done|]. rewrite E, <- app_assoc. simpl.
    do 3 f_equal. lia.
  - destruct H as (v' & -> & E & Hrel').
    specialize (IH (i + 1) v' (predict_step i k s) (ks ++ [(hi_low k).1]) ltac:(lia) ltac:(lia) ltac:(lia)).
    rewrite length_app in IH. specialize (IH ltac:(simpl; lia) E Hrel').
    destruct (levinson rest (hl R_hi R_low) (i + 1) (predict_step i k s)) as [l o].
    replace (Z.to_nat (i - 1) + length ((hi_low k).1 :: l))%nat
      with (Z.to_nat (i + 1 - 1) + length l)%nat by (simpl; lia).
    rewrite <- app_assoc in IH. simpl in IH.
    replace (i + Z.of_nat (S rest)) with (i + 1 + Z.of_nat rest) by lia. exact IH.
Qed.

Lemma levinson_norm_rd R order norm (R_hi R_low : list Z) :
  0 ≤ order → order < zlen R_hi → order < zlen R_low →
  let r := levinson_norm R order norm R_hi R_low in
  ∀ j, 0 ≤ j ≤ order → hl r.1 r.2 j = hi_low (R.[j] ⊠ shl32 1 norm).
Proof.
  intros Ho H1 H2 r j Hj.
  destruct (hl_loop (λ i, hi_low (R.[i] ⊠ shl32 1 norm)) 0 (Z.to_nat (order + 1)) (λ i '(rh, rl),
    let v := hi_low (R.[i] ⊠ shl32 1 norm) in (wr rh i (v.1), wr rl i (v.2)))
    R_hi R_low) as (_ & _ & Hr); [by intros i [a b]|lia..|].
  etransitivity; [exact (Hr j)|].
  destruct (Z.leb_spec 0 j), (Z.ltb_spec j (0 + Z.of_nat (Z.to_nat (order + 1)))); (done || lia).
Qed.

Lemma levinson_ext rest r r' i s :
  (∀ j, 1 ≤ j < i + Z.of_nat rest → r j = r' j) → 1 ≤ i →
  levinson rest r i s = levinson rest r' i s.
Proof.
  revert i s. induction rest as [|rest IH]; intros i s Hr Hi; [done|]. cbn [levinson].
  assert (predict_sum r (lev_a s) i = predict_sum r' (lev_a s) i) as ->.
  { unfold predict_sum. cbv zeta. rewrite (Hr i) by lia. do 2 f_equal.
    apply for_up_ext. intros j t Hj. by rewrite (Hr j) by lia. }
  rewrite IH; [done| |lia]. intros j Hj. apply Hr. lia.
Qed.

(** A coefficient above the limit ends the recursion; all the others respect it. *)
Lemma levinson_limit rest r i s :
  let '(ks, o) := levinson rest r i s in
  match o with
  | None => ∃ l k, ks = l ++ [k] ∧ (length ks ≤ rest)%nat ∧
              Forall (λ k, Z.abs k ≤ 32750) l ∧ 32750 < Z.abs k
  | Some _ => length ks = rest ∧ Forall (λ k, Z.abs k ≤ 32750) ks
  end.
Proof.
  revert i s. induction rest as [|rest IH]; intros i s; [done|]. cbn [levinson].
  set (k := levinson_coef _ _ _).
  assert (WEBRTC_SPL_ABS_W16 (hi_low k).1 = Z.abs (hi_low k).1) as E.
  { unfold WEBRTC_SPL_ABS_W16, hi_low. cbn [fst]. rewrite s16_id by apply s16_range.
    rewrite Z.geb_leb. destruct (Z.leb_spec 0 (s16 (k ≫ 16))); lia. }
  rewrite E, Z.gtb_ltb. destruct (Z.ltb_spec 32750 (Z.abs (hi_low k).1)) as [Hb|Hb].
  { exists [], (hi_low k).1. repeat split; [simpl; lia|constructor|done]. }
  specialize (IH (i + 1) (predict_step i k s)).
  destruct (levinson rest r (i + 1) (predict_step i k s)) as [ks [s'|]].
  - destruct IH as [<- HF]. split; [done|]. by constructor.
  - destruct IH as (l & k' & -> & HL & HF & Hk'). exists ((hi_low k).1 :: l), k'.
    split; [done|]. split; [simpl; lia|]. split; [by constructor|done].
Qed.

(** The predictor in Q12. *)
Definition to_q12 (a : Z * Z) : Z := s16 (((from_hi_low a ⊠ 2) ⊞ 32768) ≫ 16).

Lemma levinson_output f (A : list Z) order :
  0 ≤ order < zlen A →
  for_up 1 (Z.to_nat order) (λ i A, wr A i (f i)) (wr A 0 4096) =
    4096 :: (f <$> seqZ 1 order) ++ drop (Z.to_nat (order + 1)) A.
Proof.
  intros Ho.
  pose proof (for_up_inv (λ i d, d = (4096 :: (f <$> seqZ 1 (i - 1))) ++ drop (Z.to_nat i) A)
    1 (Z.to_nat order) (λ i A, wr A i (f i)) (wr A 0 4096)) as H.
  rewrite Z2Nat.id in H by lia. rewrite H; clear H.
  - replace (1 + order - 1) with order by lia. by rewrite (Z.add_comm 1 order).
  - change A with (drop (Z.to_nat 0) A) at 1. change (drop (Z.to_nat 0) A) with ([] ++ drop (Z.to_nat 0) A).
    by rewrite wr_next by (simpl; lia).
  - intros i d Hi ->. rewrite wr_next by (simpl; rewrite ?length_fmap, ?length_seqZ; lia).
    f_equal. replace (i + 1 - 1) with (Z.of_nat (S (Z.to_nat (i - 1)))) by lia.
    rewrite seqZ_S, fmap_app. replace (Z.of_nat (Z.to_nat (i - 1))) with (i - 1) by lia.
    simpl. do 4 f_equal. lia.
Qed.

(** * Properties *)

(** Reflection coefficients.  For up to 13 coefficients and whatever the local arrays
    contain, [WebRtcSpl_AutoCorrToReflCoef] stores the coefficients of the Schur recursion
    on the normalised correlations and nothing else; every one lies in -32767 .. 32767,
    and they are zero from the first order without a stable solution on.  The
    normalisation loses nothing but the low bits when no correlation exceeds [R[0]]. *)
Lemma AutoCorrToReflCoef_schur R use_order (K P W : list Z) :
  0 ≤ use_order < WEBRTC_SPL_MAX_LPC_ORDER → zlen P = WEBRTC_SPL_MAX_LPC_ORDER →
  zlen W = WEBRTC_SPL_MAX_LPC_ORDER → Forall int32 R → use_order ≤ zlen K →
  let norm := WebRtcSpl_NormW32 (R.[0]) in
  let c i := s16 (shl32 (R.[i]) norm ≫ 16) in
  let ks := schur (Z.to_nat use_order) c c in
  WebRtcSpl_AutoCorrToReflCoef R use_order K P W = ks ++ drop (Z.to_nat use_order) K ∧
  Forall (λ k, -32767 ≤ k ≤ 32767) ks ∧
  (0 < R.[0] → 16384 ≤ c 0 ∧
     ∀ i, Z.abs (R.[i]) ≤ R.[0] → c i = (R.[i] * 2 ^ norm) `div` 65536).
Proof.
  intros Hu HP HW HR HK norm c ks. unfold WEBRTC_SPL_MAX_LPC_ORDER in *. split; [|split].
  - unfold WebRtcSpl_AutoCorrToReflCoef. cbv zeta. fold norm.
    pose proof (λ i, refl_init_rd R use_order norm P W i) as H. cbv zeta in H.
    destruct (refl_init R use_order norm P W) as [P' W']. cbn [fst snd] in H.
    destruct (H 0 ltac:(lia) ltac:(lia) ltac:(lia)) as (L1 & L2 & _).
    apply (refl_loop_schur (Z.to_nat use_order) use_order 1 P' W' [] K c c); try lia; [done|intros; apply s16_range|..];
      intros i Hi; apply H; lia.
  - apply schur_range. intros. apply s16_range.
  - intros H0. assert (int32 (R.[0])) as Hr0 by (apply rd_Forall; [done|cint]).
    pose proof (NormW32_bounds_pos (R.[0]) H0 Hr0) as (Hn & Hlo & Hhi). fold norm in Hn, Hlo, Hhi.
    assert (0 < 2 ^ norm) by (apply Z.pow_pos_nonneg; lia).
    assert (∀ i, Z.abs (R.[i]) ≤ R.[0] → c i = (R.[i] * 2 ^ norm) `div` 65536) as Hc.
    { intros i Hi. unfold c, shl32. rewrite shiftl_mul, s32_id by (unfold_ints; nia).
      rewrite shiftr_div by lia. change (2 ^ 16) with 65536. apply s16_id. unfold int16.
      assert (-2147483648 ≤ R.[i] * 2 ^ norm < 2147483648) by nia. zdiv. }
    split; [|exact Hc]. rewrite Hc by lia. zdiv.
Qed.

Lemma AutoCorrToReflCoef_schur_witness :
  WebRtcSpl_AutoCorrToReflCoef [1100; 133; 12; 4] 3 [5; 5; 5; 5] (replicate 14 7) (replicate 14 9) =
    [-3961; 122; -92; 5].
Proof.
  destruct (AutoCorrToReflCoef_schur [1100; 133; 12; 4] 3 [5; 5; 5; 5]
    (replicate 14 7) (replicate 14 9)) as [E _]; [done..| |done|rewrite E; vm_compute; done].
  repeat constructor; cint.
Defined.

(** Step-up recursion.  [WebRtcSpl_ReflCoefToLpc] writes the predictor of order
    [use_order] and nothing above it.  The 16-bit recursion is the exact one as long as
    every intermediate coefficient fits in 16 bits, which it always does up to order 4. *)
Lemma ReflCoefToLpc_step_up (k a any : list Z) use_order :
  1 ≤ use_order ≤ WEBRTC_SPL_MAX_LPC_ORDER → zlen any = WEBRTC_SPL_MAX_LPC_ORDER + 1 →
  use_order < zlen a → Forall int16 k →
  let n := Z.to_nat use_order in
  WebRtcSpl_ReflCoefToLpc k use_order a any =
    (lpc k n <$> seqZ 0 (use_order + 1)) ++ drop (Z.to_nat (use_order + 1)) a ∧
  (use_order ≤ 4 ∨ (∀ m j, (m ≤ n)%nat → 1 ≤ j ≤ Z.of_nat m → int16 (lpc_exact k m j)) →
   ∀ j, lpc k n j = lpc_exact k n j).
Proof.
  intros Hu Hany HA Hk n. unfold WEBRTC_SPL_MAX_LPC_ORDER in *. split.
  - apply ReflCoefToLpc_call; lia.
  - intros [H|H] j; [apply lpc_small_order; [done|lia]|by apply lpc_fits].
Qed.

Lemma ReflCoefToLpc_step_up_witness :
  WebRtcSpl_ReflCoefToLpc [-3961; 129; -96] 3 [0; 0; 0; 0; 6] (replicate 15 7) =
    (lpc_exact [-3961; 129; -96] 3 <$> [0; 1; 2; 3]) ++ [6].
Proof.
  destruct (ReflCoefToLpc_step_up [-3961; 129; -96] [0; 0; 0; 0; 6] (replicate 15 7) 3)
    as [-> E]; [done..|repeat constructor; cint|].
  change (Z.to_nat 3) with 3%nat in *. change (seqZ 0 (3 + 1)) with [0; 1; 2; 3].
  apply (f_equal (λ l, l ++ [6])), map_ext. intros j. apply E. left. lia.
Defined.

(** Step-down recursion.  [WebRtcSpl_LpcToReflCoef] stores the coefficients of the
    step-down recursion and nothing else.  The last one is the last predictor coefficient
    times 8 modulo 2^16, the others lie in -32764 .. 32764, so that their denominators
    are positive and no division by zero is left to the special case of
    [WebRtcSpl_DivW32W16]; and the last coefficient survives the round trip through
    [WebRtcSpl_ReflCoefToLpc] up to its three low bits. *)
Lemma LpcToReflCoef_step_down (a16 k16 tmp32 : list Z) use_order :
  1 ≤ use_order < 50 → zlen tmp32 = 50 → use_order < zlen a16 → use_order ≤ zlen k16 →
  let k := s16 (shl32 (a16.[use_order]) 3) in
  ∃ ks,
    (WebRtcSpl_LpcToReflCoef a16 use_order k16 tmp32).2 = ks ++ [k] ++ drop (Z.to_nat use_order) k16 ∧
    refl_of (Z.to_nat (use_order - 1)) k (rd a16) = ks ++ [k] ∧
    Forall (λ k, -32764 ≤ k ≤ 32764 ∧ 7 ≤ refl_den k) ks ∧ refl_den k ≠ 0 ∧
    (∀ kr : list Z, int16 (kr.[use_order - 1]) →
       a16.[use_order] = lpc kr (Z.to_nat use_order) use_order → k = 8 * (kr.[use_order - 1] `div` 8)).
Proof.
  intros Hu HT HA HK k.
  destruct (refl_of_last (Z.to_nat (use_order - 1)) k (rd a16)) as (ks & E & HL & HF).
  exists ks. rewrite LpcToReflCoef_call by lia. fold k. rewrite E, <- app_assoc.
  do 2 (split; [done|]). split; [|split].
  - eapply Forall_impl; [|exact HF]. intros x Hx. cbv beta in Hx. split; [done|].
    destruct (refl_den_bounds x) as [-> _]; [lia|].
    assert (x * x ≤ 32764 * 32764) by nia. zdiv.
  - assert (int16 k) as Hk by apply s16_range.
    destruct (Z.eq_dec k (-32768)) as [->|]; [done|].
    pose proof (refl_den_bounds k ltac:(cint)). lia.
  - intros kr Hkr Ha. unfold k. rewrite Ha.
    replace (Z.to_nat use_order) with (S (Z.to_nat (use_order - 1))) by lia. cbn [lpc].
    unfold step_up. replace (Z.of_nat (S (Z.to_nat (use_order - 1)))) with use_order by lia.
    rewrite Z.eqb_refl, Z2Nat.id, shiftr_div by lia. change (2 ^ 3) with 8.
    unfold int16 in Hkr. unfold shl32. rewrite shiftl_mul by lia. change (2 ^ 3) with 8.
    rewrite s32_id, s16_id by (unfold_ints; zdiv). lia.
Qed.

Lemma LpcToReflCoef_step_down_witness :
  ∃ ks, (WebRtcSpl_LpcToReflCoef [4096; -497; 15; -12] 3 [0; 0; 0; 5] (replicate 50 7)).2 =
    ks ++ [-96; 5] ∧ ks = [-3960; 108].
Proof.
  destruct (LpcToReflCoef_step_down [4096; -497; 15; -12] [0; 0; 0; 5] (replicate 50 7) 3)
    as (ks & -> & E & _); [done..|].
  exists ks. split; [done|].
  assert (ks ++ [-96] = [-3960; 108] ++ [-96]) as H by (symmetry; etransitivity; [|exact E]; vm_compute; done).
  by apply app_inj_tail in H as [-> _].
Defined.

(** C26: Levinson-Durbin.  For orders 1 to 20 and whatever the local arrays contain,
    [WebRtcSpl_LevinsonDurbin] runs the recursion [levinson] on the normalised
    correlations.  It returns 0 exactly when a coefficient of order 2 or more exceeds
    32750: that coefficient is the last one stored and [A] is untouched.  Otherwise it
    returns 1, stores [order] coefficients, all within the limit after the first, and
    [A] holds 4096 and the predictor in Q12.  The hi and low format loses at most the last bit. *)
Theorem LevinsonDurbin_spec (R A K R_hi R_low hi low upd_hi upd_low : list Z) order :
  1 ≤ order ≤ SPL_LEVINSON_MAXORDER →
  Forall (λ l : list Z, zlen l = SPL_LEVINSON_MAXORDER + 1) [R_hi; R_low; hi; low; upd_hi; upd_low] →
  Forall int32 R → order < zlen A → order ≤ zlen K →
  let x j := R.[j] ⊠ shl32 1 (WebRtcSpl_NormW32 (R.[0])) in
  let r j := hi_low (x j) in
  let k := levinson_first (x 1) (r 0) in
  let '(alpha, e) := alpha_update (r 0) (hi_low k) in
  let '(ks, o) := levinson (Z.to_nat (order - 1)) r 2 (MkLev (λ _, hi_low (k ≫ 4)) alpha e) in
  let '(ret, A', K') := WebRtcSpl_LevinsonDurbin R A K order R_hi R_low hi low upd_hi upd_low in
  K' = (hi_low k).1 :: ks ++ drop (1 + length ks) K ∧
  (∀ j, 0 ≤ x j - from_hi_low (r j) ≤ 1) ∧
  match o with
  | None => ret = 0 ∧ A' = A ∧
      ∃ l k, ks = l ++ [k] ∧ Forall (λ k, Z.abs k ≤ 32750) l ∧ 32750 < Z.abs k
  | Some s => ret = 1 ∧ zlen ks = order - 1 ∧ Forall (λ k, Z.abs k ≤ 32750) ks ∧
      A' = 4096 :: ((λ i, to_q12 (lev_a s i)) <$> seqZ 1 order) ++ drop (Z.to_nat (order + 1)) A
  end.
Proof.
  intros Ho HL HR HA HK x r k. unfold SPL_LEVINSON_MAXORDER in *.
  do 6 (apply Forall_cons_1 in HL as [? HL]). clear HL. cbv beta in *.
  destruct (alpha_update (r 0) (hi_low k)) as [alpha e] eqn:Ealpha.
  pose proof (levinson_limit (Z.to_nat (order - 1)) r 2 (MkLev (λ _, hi_low (k ≫ 4)) alpha e)) as Hlim.
  destruct (levinson _ r 2 _) as [ks o] eqn:Elev.
  assert (∀ j, 0 ≤ x j - from_hi_low (r j) ≤ 1) as Hhl.
  { intros j. destruct (hi_low_spec (x j)) as (_ & E & _); [apply mul32_range|].
    unfold r. rewrite E. zdiv. }
  unfold WebRtcSpl_LevinsonDurbin. cbv zeta.
  pose proof (levinson_norm_rd R order (WebRtcSpl_NormW32 (R.[0])) R_hi R_low
    ltac:(lia) ltac:(lia) ltac:(lia)) as Hr'. cbv zeta in Hr'.
  destruct (levinson_norm R order _ R_hi R_low) as [rh rl]. cbn [fst snd] in Hr'.
  rewrite (Hr' 0) by lia. fold (x 0). fold (r 0). fold (x 1). fold k. rewrite Ealpha.
  set (v := MkLevinson _ _ _ _ _ _ _).
  pose proof (levinson_loop_rel (Z.to_nat (order - 1)) rh rl 21 2 v
    (MkLev (λ _, hi_low (k ≫ 4)) alpha e) [(hi_low k).1] K) as HQ.
  rewrite (levinson_ext _ (hl rh rl) r) in HQ by (lia || (intros; apply Hr'; lia)).
  rewrite Elev in HQ. specialize (HQ ltac:(lia) ltac:(lia) ltac:(lia) ltac:(simpl; lia)).
  assert (lev_K v = [(hi_low k).1] ++ drop (Z.to_nat (2 - 1)) K) as EK.
  { unfold v. cbn [lev_K]. change K with ([] ++ drop (Z.to_nat 0) K) at 1.
    by rewrite wr_next by (simpl; lia). }
  assert (lev_rel 21 2 v (MkLev (λ _, hi_low (k ≫ 4)) alpha e)) as Hrel.
  { split; [unfold v; cbn [A_hi A_low A_upd_hi A_upd_low]; rewrite !wr_length; lia|].
    split; [|done]. intros j Hj. unfold v. cbn [A_hi A_low lev_a].
    rewrite hl_wr by lia. by destruct (Z.eqb_spec j 1); [|lia]. }
  specialize (HQ EK Hrel).
  change (Z.to_nat (2 - 1) + length ks)%nat with (1 + length ks)%nat in HQ.
  destruct o as [s|].
  - destruct HQ as (v' & -> & -> & (_ & Ha & _)). split; [done|]. split; [done|].
    destruct Hlim as [Hlen HF]. split; [done|]. split; [lia|]. split; [done|].
    rewrite (for_up_ext _ _ _ (λ i A, wr A i (to_q12 (lev_a s i)))).
    + by apply (levinson_output (λ i, to_q12 (lev_a s i))); lia.
    + intros i A' Hi. unfold to_q12. by rewrite Ha by lia.
  - destruct HQ as (v' & -> & ->). split; [done|]. split; [done|]. split; [done|]. split; [done|].
    destruct Hlim as (l & k' & -> & _ & HF & Hk). by exists l, k'.
Qed.

Lemma LevinsonDurbin_spec_witness :
  let t := replicate 21 7 in
  let '(ret, A, K) := WebRtcSpl_LevinsonDurbin [1100; 133; 12; 4] [0; 0; 0; 0] [0; 0; 0; 0] 2 t t t t t t in
  ret = 1 ∧ K = [-3962; 123; 0; 0].
Proof.
  intros t.
  pose proof (LevinsonDurbin_spec [1100; 133; 12; 4] [0; 0; 0; 0] [0; 0; 0; 0] t t t t t t 2
    ltac:(unfold SPL_LEVINSON_MAXORDER; lia) ltac:(repeat constructor)
    ltac:(repeat constructor; cint) ltac:(simpl; lia) ltac:(simpl; lia)) as H.
  destruct (WebRtcSpl_LevinsonDurbin _ _ _ _ _ _ _ _ _ _) as [[ret A] K].
  cbv zeta in H. rewrite (surjective_pairing (alpha_update _ _)) in H.
  match type of H with context [levinson ?n ?r ?i ?s] =>
    assert ((levinson n r i s).1 = [123]) as E1 by (vm_compute; done);
    assert (is_Some (levinson n r i s).2) as E2 by (vm_compute; eexists; done);
    destruct (levinson n r i s) as [ks o]
  end.
  cbn [fst snd] in *. destruct E2 as [s ->]. subst ks.
  destruct H as (-> & _ & -> & _). split; [done|]. vm_compute. done.
Defined.
