(* ===== verification/G722.v ===== *)
(** The G.722 sub-band ADPCM codec: modules/third_party/g722/g722_enc_dec.h,
    g722_decode.c and g722_encode.c, and its interface
    modules/audio_coding/codecs/g722/g722_interface.c.

    The encoder and the decoder state are two C types with the same fields, modelled by
    one record; all fields are [int] and the arithmetic on them wraps at 32 bits.  The
    two source files contain the same tables and the same steps of the adaptation, which
    are defined once; where their text differs, both versions are here.  This file holds
    the definitions; G722Spec.v holds the theorems. *)
From S2P Require Import Prelude.
From Stdlib Require Import String Ascii.

(** * Data *)

Definition G722_SAMPLE_RATE_8000 : Z := 1.
Definition G722_PACKED : Z := 2.
Definition G722_WEBRTC_SPEECH : Z := 1.

(** The anonymous struct of [band[2]]. *)
Record G722Band : Type := MkBand {
  bd_s : Z; bd_sp : Z; bd_sz : Z;
  bd_r : list Z; bd_a : list Z; bd_ap : list Z; bd_p : list Z;
  bd_d : list Z; bd_b : list Z; bd_bp : list Z; bd_sg : list Z;
  bd_nb : Z; bd_det : Z;
}.

(** [G722EncoderState] and [G722DecoderState]; [band0] and [band1] are [band[0]], [band[1]]. *)
Record G722State : Type := MkG722 {
  itu_test_mode : bool; packed : bool; eight_k : bool; bits_per_sample : Z;
  g_x : list Z; band0 : G722Band; band1 : G722Band;
  in_buffer : Z; in_bits : Z; out_buffer : Z; out_bits : Z;
}.

Definition wl : list Z := [-60; -30; 58; 172; 334; 538; 1198; 3042].
Definition rl42 : list Z := [0; 7; 6; 5; 4; 3; 2; 1; 7; 6; 5; 4; 3; 2; 1; 0].
Definition ilb : list Z :=
  [2048; 2093; 2139; 2186; 2233; 2282; 2332;
   2383; 2435; 2489; 2543; 2599; 2656; 2714;
   2774; 2834; 2896; 2960; 3025; 3091; 3158;
   3228; 3298; 3371; 3444; 3520; 3597; 3676;
   3756; 3838; 3922; 4008].
Definition wh : list Z := [0; -214; 798].
Definition rh2 : list Z := [2; 1; 2; 1].
Definition qm2 : list Z := [-7408; -1616; 7408; 1616].
Definition qm4 : list Z :=
  [0; -20456; -12896; -8968; -6288; -4240; -2584; -1200;
   20456; 12896; 8968; 6288; 4240; 2584; 1200; 0].
Definition qm5 : list Z :=
  [-280; -280; -23352; -17560; -14120; -11664; -9752; -8184;
   -6864; -5712; -4696; -3784; -2960; -2208; -1520; -880;
   23352; 17560; 14120; 11664; 9752; 8184; 6864; 5712;
   4696; 3784; 2960; 2208; 1520; 880; 280; -280].
Definition qm6 : list Z :=
  [-136; -136; -136; -136; -24808; -21904; -19008; -16704;
   -14984; -13512; -12280; -11192; -10232; -9360; -8576; -7856;
   -7192; -6576; -6000; -5456; -4944; -4464; -4008; -3576;
   -3168; -2776; -2400; -2032; -1688; -1360; -1040; -728;
   24808; 21904; 19008; 16704; 14984; 13512; 12280; 11192;
   10232; 9360; 8576; 7856; 7192; 6576; 6000; 5456;
   4944; 4464; 4008; 3576; 3168; 2776; 2400; 2032;
   1688; 1360; 1040; 728; 432; 136; -432; -136].
Definition qmf_coeffs : list Z :=
  [3; -11; 12; 32; -210; 951; 3876; -805; 362; -156; 53; -11].
Definition q6 : list Z :=
  [0; 35; 72; 110; 150; 190; 233; 276;
   323; 370; 422; 473; 530; 587; 650; 714;
   786; 858; 940; 1023; 1121; 1219; 1339; 1458;
   1612; 1765; 1980; 2195; 2557; 2919; 0; 0].
Definition iln : list Z :=
  [0; 63; 62; 31; 30; 29; 28; 27;
   26; 25; 24; 23; 22; 21; 20; 19;
   18; 17; 16; 15; 14; 13; 12; 11;
   10; 9; 8; 7; 6; 5; 4; 0].
Definition ilp : list Z :=
  [0; 61; 60; 59; 58; 57; 56; 55;
   54; 53; 52; 51; 50; 49; 48; 47;
   46; 45; 44; 43; 42; 41; 40; 39;
   38; 37; 36; 35; 34; 33; 32; 0].
Definition ihn : list Z := [0; 1; 0].
Definition ihp : list Z := [0; 3; 2].

(** * Adaptive prediction *)

Definition saturate (amp : Z) : Z :=
  let amp16 := s16 amp in
  if amp =? amp16 then amp16 else if amp >? 32767 then 32767 else -32768.

(** Block 4, UPPOL2, of the decoder and of the encoder: the new [ap[2]]. *)
Definition uppol2_dec (sg a : list Z) : Z :=
  let wd1 := saturate (a.[1] ⊠ 4) in
  let wd2 := if sg.[0] =? sg.[1] then - wd1 else wd1 in
  let wd2 := if wd2 >? 32767 then 32767 else wd2 in
  let wd3 := if sg.[0] =? sg.[2] then 128 else -128 in
  let wd3 := wd3 ⊞ (wd2 ≫ 7) in
  let wd3 := wd3 ⊞ ((a.[2] ⊠ 32512) ≫ 15) in
  if wd3 >? 12288 then 12288 else if wd3 <? -12288 then -12288 else wd3.
Definition uppol2_enc (sg a : list Z) : Z :=
  let wd1 := saturate (shl32 (a.[1]) 2) in
  let wd2 := if sg.[0] =? sg.[1] then - wd1 else wd1 in
  let wd2 := if wd2 >? 32767 then 32767 else wd2 in
  let wd3 := (wd2 ≫ 7) ⊞ (if sg.[0] =? sg.[2] then 128 else -128) in
  let wd3 := wd3 ⊞ ((a.[2] ⊠ 32512) ≫ 15) in
  if wd3 >? 12288 then 12288 else if wd3 <? -12288 then -12288 else wd3.

(** Block 4, UPPOL1: the new [ap[1]]. *)
Definition uppol1 (sg a : list Z) (ap2 : Z) : Z :=
  let wd1 := if sg.[0] =? sg.[1] then 192 else -192 in
  let wd2 := (a.[1] ⊠ 32640) ≫ 15 in
  let ap1 := saturate (wd1 ⊞ wd2) in
  let wd3 := saturate (15360 ⊟ ap2) in
  if ap1 >? wd3 then wd3 else if ap1 <? - wd3 then - wd3 else ap1.

(** Block 4, UPZERO: [(sg, bp)]. *)
Definition upzero (dq : Z) (d b sg bp : list Z) : list Z * list Z :=
  let wd1 := if dq =? 0 then 0 else 128 in
  let sg := wr sg 0 (dq ≫ 15) in
  for_up 1 6 (λ i '(sg, bp),
    let sg := wr sg i (d.[i] ≫ 15) in
    let wd2 := if sg.[i] =? sg.[0] then wd1 else - wd1 in
    let wd3 := (b.[i] ⊠ 32640) ≫ 15 in
    (sg, wr bp i (saturate (wd2 ⊞ wd3)))) (sg, bp).

(** [for (i = n; i > 0; i--) l[i] = l[i - 1];] and the copy [l[i] = k[i]]. *)
Definition delay (n : nat) (l : list Z) : list Z :=
  for_up 0 n (λ t l, let i := Z.of_nat n - t in wr l i (l.[i - 1])) l.
Definition copy_down (n : nat) (k l : list Z) : list Z :=
  for_up 0 n (λ t l, let i := Z.of_nat n - t in wr l i (k.[i])) l.

(** Block 4, FILTEP and FILTEZ. *)
Definition filtep (r a : list Z) : Z :=
  let wd1 := saturate (r.[1] ⊞ r.[1]) in
  let wd1 := (a.[1] ⊠ wd1) ≫ 15 in
  let wd2 := saturate (r.[2] ⊞ r.[2]) in
  let wd2 := (a.[2] ⊠ wd2) ≫ 15 in
  saturate (wd1 ⊞ wd2).
Definition filtez (d b : list Z) : Z :=
  saturate (for_up 0 6 (λ t sz,
    let i := 6 - t in
    let wd1 := saturate (d.[i] ⊞ d.[i]) in
    sz ⊞ ((b.[i] ⊠ wd1) ≫ 15)) 0).

Definition block4_with (uppol2 : list Z → list Z → Z) (bd : G722Band) (dq : Z) : G722Band :=
  let d := wr (bd_d bd) 0 dq in
  let r := wr (bd_r bd) 0 (saturate (bd_s bd ⊞ dq)) in
  let p := wr (bd_p bd) 0 (saturate (bd_sz bd ⊞ dq)) in
  let sg := for_up 0 3 (λ i sg, wr sg i (p.[i] ≫ 15)) (bd_sg bd) in
  let ap := wr (bd_ap bd) 2 (uppol2 sg (bd_a bd)) in
  let sg := wr (wr sg 0 (p.[0] ≫ 15)) 1 (p.[1] ≫ 15) in
  let ap := wr ap 1 (uppol1 sg (bd_a bd) (ap.[2])) in
  let '(sg, bp) := upzero dq d (bd_b bd) sg (bd_bp bd) in
  let d := delay 6 d in
  let b := copy_down 6 bp (bd_b bd) in
  let r := delay 2 r in
  let p := delay 2 p in
  let a := copy_down 2 ap (bd_a bd) in
  let sp := filtep r a in
  let sz := filtez d b in
  let s := saturate (sp ⊞ sz) in
  MkBand s sp sz r a ap p d b bp sg (bd_nb bd) (bd_det bd).

(** The two functions named [block4]. *)
Definition block4_dec : G722Band → Z → G722Band := block4_with uppol2_dec.
Definition block4_enc : G722Band → Z → G722Band := block4_with uppol2_enc.

(** Blocks 3L and 3H, LOGSCL and LOGSCH: the new [nb]. *)
Definition logscl (nb w limit : Z) : Z :=
  let wd1 := (nb ⊠ 127) ≫ 7 in
  let wd1 := wd1 ⊞ w in
  if wd1 <? 0 then 0 else if wd1 >? limit then limit else wd1.

(** SCALEL and SCALEH: the new [det]; [base] is 8 and 10. *)
Definition scalel (nb base : Z) : Z :=
  let wd1 := Z.land (nb ≫ 6) 31 in
  let wd2 := base ⊟ (nb ≫ 11) in
  let wd3 := if wd2 <? 0 then shl32 (ilb.[wd1]) (- wd2) else ilb.[wd1] ≫ wd2 in
  shl32 wd3 2.

Definition set_scale (bd : G722Band) (nb det : Z) : G722Band :=
  MkBand (bd_s bd) (bd_sp bd) (bd_sz bd) (bd_r bd) (bd_a bd) (bd_ap bd) (bd_p bd)
    (bd_d bd) (bd_b bd) (bd_bp bd) (bd_sg bd) nb det.

(** Blocks 2L to 4L for the four-bit code [ril], and blocks 2H to 4H for [ihigh]. *)
Definition adapt_low (block4 : G722Band → Z → G722Band) (bd : G722Band) (ril : Z) : G722Band :=
  let dlow := (bd_det bd ⊠ qm4.[ril]) ≫ 15 in
  let nb := logscl (bd_nb bd) (wl.[rl42.[ril]]) 18432 in
  block4 (set_scale bd nb (scalel nb 8)) dlow.
Definition adapt_high (block4 : G722Band → Z → G722Band) (bd : G722Band) (ihigh : Z) : G722Band :=
  let dhigh := (bd_det bd ⊠ qm2.[ihigh]) ≫ 15 in
  let nb := logscl (bd_nb bd) (wh.[rh2.[ihigh]]) 22528 in
  block4 (set_scale bd nb (scalel nb 10)) dhigh.

(** * Quadrature mirror filter *)

(** The history moves down by two; the two sums [(xout1, xout2)] of the decoder, which
    are [(sumeven, sumodd)] of the encoder. *)
Definition qmf_shift (x : list Z) (v22 v23 : Z) : list Z :=
  let x := for_up 0 22 (λ i x, wr x i (x.[i + 2])) x in
  wr (wr x 22 v22) 23 v23.
Definition qmf_sums (x : list Z) : Z * Z :=
  for_up 0 12 (λ i '(xout1, xout2),
    (xout1 ⊞ (x.[2 * i + 1] ⊠ qmf_coeffs.[11 - i]),
     xout2 ⊞ (x.[2 * i] ⊠ qmf_coeffs.[i]))) (0, 0).

(** * Decoder *)

Definition g722_zero_band (det : Z) : G722Band :=
  MkBand 0 0 0 (replicate 3 0) (replicate 3 0) (replicate 3 0) (replicate 3 0)
    (replicate 7 0) (replicate 7 0) (replicate 7 0) (replicate 7 0) 0 det.

(** The state after [memset] and the assignments of either init function. *)
Definition g722_init (rate options : Z) : G722State :=
  let bits := if rate =? 48000 then 6 else if rate =? 56000 then 7 else 8 in
  MkG722 false (negb (Z.land options G722_PACKED =? 0) && negb (bits =? 8))
    (negb (Z.land options G722_SAMPLE_RATE_8000 =? 0)) bits
    (replicate 24 0) (g722_zero_band 32) (g722_zero_band 8) 0 0 0 0.

(** [(wd1, ihigh, wd2)] of the [switch]: the four-bit code, the high-band code and the
    low-band output level. *)
Definition decode_bits (bits code : Z) : Z * Z * Z :=
  if bits =? 7 then
    let wd1 := Z.land code 0x1F in (wd1 ≫ 1, Z.land (code ≫ 5) 0x03, qm5.[wd1])
  else if bits =? 6 then
    let wd1 := Z.land code 0x0F in (wd1, Z.land (code ≫ 4) 0x03, qm4.[wd1])
  else
    let wd1 := Z.land code 0x3F in (wd1 ≫ 2, Z.land (code ≫ 6) 0x03, qm6.[wd1]).

(** Blocks 6L and 6H, LIMIT. *)
Definition limit15 (x : Z) : Z := if x >? 16383 then 16383 else if x <? -16384 then -16384 else x.

(** Blocks 5L and 6L for the level [wd2]: [rlow]. *)
Definition decode_low (bd : G722Band) (wd2 : Z) : Z :=
  limit15 (bd_s bd ⊞ ((bd_det bd ⊠ wd2) ≫ 15)).

(** One turn of the loop after the code is fetched: the new state and the samples.
    [rhigh] keeps its initial 0 in the 8 kHz mode. *)
Definition decode_code (s : G722State) (code : Z) : G722State * list Z :=
  let '(wd1, ihigh, wd2) := decode_bits (bits_per_sample s) code in
  let rlow := decode_low (band0 s) wd2 in
  let b0 := adapt_low block4_dec (band0 s) wd1 in
  let '(rhigh, b1) :=
    if negb (eight_k s) then
      (limit15 (((bd_det (band1 s) ⊠ qm2.[ihigh]) ≫ 15) ⊞ bd_s (band1 s)),
       adapt_high block4_dec (band1 s) ihigh)
    else (0, band1 s) in
  let s' x := MkG722 (itu_test_mode s) (packed s) (eight_k s) (bits_per_sample s) x b0 b1
                (in_buffer s) (in_bits s) (out_buffer s) (out_bits s) in
  if itu_test_mode s then (s' (g_x s), [s16 (shl32 rlow 1); s16 (shl32 rhigh 1)])
  else if eight_k s then (s' (g_x s), [s16 (shl32 rlow 1)])
  else
    let x := qmf_shift (g_x s) (rlow ⊞ rhigh) (rlow ⊟ rhigh) in
    let '(xout1, xout2) := qmf_sums x in
    (s' x, [saturate (xout1 ≫ 11); saturate (xout2 ≫ 11)]).

(** The code bits of the next sample: the state, the byte index and the code. *)
Definition decode_fetch (s : G722State) (g722_data : list Z) (j : Z) : G722State * Z * Z :=
  if packed s then
    let '(buf, bits, j) :=
      if in_bits s <? bits_per_sample s
      then (Z.lor (in_buffer s) (u32 (shl32 (g722_data.[j]) (in_bits s))), in_bits s ⊞ 8, j + 1)
      else (in_buffer s, in_bits s, j) in
    let code := Z.land buf (shl32 1 (bits_per_sample s) - 1) in
    (MkG722 (itu_test_mode s) (packed s) (eight_k s) (bits_per_sample s) (g_x s)
       (band0 s) (band1 s) (buf ≫ bits_per_sample s) (bits ⊟ bits_per_sample s)
       (out_buffer s) (out_bits s), j, code)
  else (s, j + 1, g722_data.[j]).

(** [for (j = 0; j < len; )]; [None] when the fuel is exhausted.  The samples are stored
    from [amp[outlen]] on. *)
Fixpoint decode_loop (fuel : nat) (s : G722State) (amp g722_data : list Z) (j len outlen : Z)
  : option (G722State * list Z * Z) :=
  if j <? len then
    match fuel with
    | O => None
    | S fuel =>
        let '(s, j, code) := decode_fetch s g722_data j in
        let '(s, out) := decode_code s code in
        decode_loop fuel s (store amp outlen out) g722_data j len (outlen + zlen out)
    end
  else Some (s, amp, outlen).

(** The result is the state, [amp] and [outlen]. *)
Definition WebRtc_g722_decode (s : G722State) (amp g722_data : list Z) (len : Z)
  : option (G722State * list Z * Z) :=
  decode_loop (Z.to_nat (in_bits s + 8 * len)) s amp g722_data 0 len 0.

(** [WebRtc_g722_decode_init] on an allocated state; the contents do not matter. *)
Definition WebRtc_g722_decode_init (rate options : Z) : G722State := g722_init rate options.

(** * Encoder *)

(** [WebRtc_g722_encode_init]: a null [s] is allocated, which can fail. *)
Definition WebRtc_g722_encode_init (s_null malloc_ok : bool) (rate options : Z)
  : option G722State :=
  if s_null && negb malloc_ok then None else Some (g722_init rate options).

(** Block 1L, QUANTL: the loop with [break]. *)
Fixpoint quantl (rest : nat) (i wd det : Z) : Z :=
  match rest with
  | O => i
  | S rest =>
      let wd1 := (q6.[i] ⊠ det) ≫ 12 in
      if wd <? wd1 then i else quantl rest (i + 1) wd det
  end.

Definition quant_low (el det : Z) : Z :=
  let wd := if el >=? 0 then el else - (el + 1) in
  let i := quantl 29 1 wd det in
  if el <? 0 then iln.[i] else ilp.[i].

(** Block 1H, QUANTH. *)
Definition quant_high (eh det : Z) : Z :=
  let wd := if eh >=? 0 then eh else - (eh + 1) in
  let wd1 := (564 ⊠ det) ≫ 12 in
  let mih := if wd >=? wd1 then 2 else 1 in
  if eh <? 0 then ihn.[mih] else ihp.[mih].

(** The band signals of one turn: [(x, xlow, xhigh, j)]. *)
Definition encode_input (s : G722State) (amp : list Z) (j : Z) : list Z * Z * Z * Z :=
  if itu_test_mode s then let v := amp.[j] ≫ 1 in (g_x s, v, v, j + 1)
  else if eight_k s then (g_x s, amp.[j] ≫ 1, 0, j + 1)
  else
    let x := qmf_shift (g_x s) (amp.[j]) (amp.[j + 1]) in
    let '(sumeven, sumodd) := qmf_sums x in
    (x, (sumeven ⊞ sumodd) ≫ 14, (sumeven ⊟ sumodd) ≫ 14, j + 2).

(** Quantisation and adaptation: the state and the code. *)
Definition encode_bands (s : G722State) (x : list Z) (xlow xhigh : Z) : G722State * Z :=
  let el := saturate (xlow ⊟ bd_s (band0 s)) in
  let ilow := quant_low el (bd_det (band0 s)) in
  let b0 := adapt_low block4_enc (band0 s) (ilow ≫ 2) in
  let '(b1, code) :=
    if eight_k s then (band1 s, Z.lor 0xC0 ilow ≫ (8 - bits_per_sample s))
    else
      let eh := saturate (xhigh ⊟ bd_s (band1 s)) in
      let ihigh := quant_high eh (bd_det (band1 s)) in
      (adapt_high block4_enc (band1 s) ihigh,
       Z.lor (shl32 ihigh 6) ilow ≫ (8 - bits_per_sample s)) in
  (MkG722 (itu_test_mode s) (packed s) (eight_k s) (bits_per_sample s) x b0 b1
     (in_buffer s) (in_bits s) (out_buffer s) (out_bits s), code).

(** Packing: the state and the bytes stored. *)
Definition encode_store (s : G722State) (code : Z) : G722State * list Z :=
  if packed s then
    let buf := Z.lor (out_buffer s) (u32 (shl32 code (out_bits s))) in
    let bits := out_bits s ⊞ bits_per_sample s in
    let s' buf bits := MkG722 (itu_test_mode s) (packed s) (eight_k s) (bits_per_sample s)
      (g_x s) (band0 s) (band1 s) (in_buffer s) (in_bits s) buf bits in
    if bits >=? 8 then (s' (buf ≫ 8) (bits ⊟ 8), [u8 (Z.land buf 0xFF)]) else (s' buf bits, [])
  else (s, [u8 code]).

Definition encode_turn (s : G722State) (amp : list Z) (j : Z) : G722State * list Z * Z :=
  let '(x, xlow, xhigh, j) := encode_input s amp j in
  let '(s, code) := encode_bands s x xlow xhigh in
  let '(s, out) := encode_store s code in (s, out, j).

(** [for (j = 0; j < len; )]: every turn reads a sample, so [len] turns are enough. *)
Fixpoint encode_loop (fuel : nat) (s : G722State) (g722_data amp : list Z)
    (j len g722_bytes : Z) : option (G722State * list Z * Z) :=
  if j <? len then
    match fuel with
    | O => None
    | S fuel =>
        let '(s, out, j) := encode_turn s amp j in
        encode_loop fuel s (store g722_data g722_bytes out) amp j len (g722_bytes + zlen out)
    end
  else Some (s, g722_data, g722_bytes).

Definition WebRtc_g722_encode (s : G722State) (g722_data amp : list Z) (len : Z)
  : option (G722State * list Z * Z) :=
  encode_loop (Z.to_nat len) s g722_data amp 0 len 0.

(** * Interface *)

Definition WebRtcG722_CreateEncoder (malloc_ok : bool) : Z := if malloc_ok then 0 else -1.
Definition WebRtcG722_CreateDecoder (malloc_ok : bool) : Z := if malloc_ok then 0 else -1.

(** The return value and the state. *)
Definition WebRtcG722_EncoderInit (s_null malloc_ok : bool) : Z * option G722State :=
  match WebRtc_g722_encode_init s_null malloc_ok 64000 2 with
  | None => (-1, None)
  | Some s => (0, Some s)
  end.
Definition WebRtcG722_DecoderInit : G722State := WebRtc_g722_decode_init 64000 2.

Definition WebRtcG722_Encode (s : G722State) (speechIn : list Z) (len : Z) (encoded : list Z)
  : option (G722State * list Z * Z) := WebRtc_g722_encode s encoded speechIn len.

(** The last component is [*speechType]. *)
Definition WebRtcG722_Decode (s : G722State) (encoded : list Z) (len : Z) (decoded : list Z)
  : option (G722State * list Z * Z) * Z :=
  (WebRtc_g722_decode s decoded encoded len, G722_WEBRTC_SPEECH).

(** The string with its newline and terminator, copied when it fits. *)
Definition g722_version : list Z :=
  ((λ c, Z.of_nat (nat_of_ascii c)) <$> list_ascii_of_string "2.0.0") ++ [10; 0].
Definition WebRtcG722_Version (versionStr : list Z) (len : Z) : Z * list Z :=
  if zlen g722_version - 1 <? u32 len then (0, store versionStr 0 g722_version)
  else (-1, versionStr).
