(* ===== verification/G722Spec.v ===== *)
(** Theorems about the G.722 codec of G722.v: the decoder follows the predictor of the
    encoder, the state stays within its ranges without overflow, the quantiser of the low
    band, framing and termination. *)
From S2P Require Import Prelude G722.

(** * The two versions of block 4 *)

Lemma uppol2_enc_dec sg a : uppol2_enc sg a = uppol2_dec sg a.
Proof.
  unfold uppol2_enc, uppol2_dec. cbv zeta.
  assert (shl32 (a.[1]) 2 = a.[1] ⊠ 4) as -> by (unfold shl32, mul32; by rewrite shiftl_mul by lia).
  unfold add32. by rewrite (Z.add_comm (_ ≫ 7)).
Qed.

Lemma block4_enc_dec bd dq : block4_enc bd dq = block4_dec bd dq.
Proof. unfold block4_enc, block4_dec, block4_with. cbv zeta. by rewrite uppol2_enc_dec. Qed.

(** * Codes *)

Definition valid_bits (bits : Z) : Prop := bits = 6 ∨ bits = 7 ∨ bits = 8.

Lemma quantl_spec rest i wd det :
  let r := quantl rest i wd det in
  i ≤ r ≤ i + Z.of_nat rest ∧
  (i < r → (q6.[r - 1] ⊠ det) ≫ 12 ≤ wd) ∧
  (r < i + Z.of_nat rest → wd < (q6.[r] ⊠ det) ≫ 12).
Proof.
  revert i. induction rest as [|rest IH]; intros i; cbn [quantl]; [lia|]. cbv zeta.
  destruct (Z.ltb_spec wd ((q6.[i] ⊠ det) ≫ 12)); [lia|].
  specialize (IH (i + 1)). cbv zeta in IH. set (r := quantl rest (i + 1) wd det) in *.
  destruct IH as (H1 & H2 & H3). split; [lia|]. split; [|intros; apply H3; lia].
  intros _. destruct (Z.eq_dec r (i + 1)) as [->|]; [by replace (i + 1 - 1) with i by lia|].
  apply H2. lia.
Qed.

Lemma check_level i : 1 ≤ i ≤ 30 →
  4 ≤ iln.[i] ≤ 63 ∧ 4 ≤ ilp.[i] ≤ 63 ∧
  8 * q6.[i - 1] ≤ qm6.[ilp.[i]] ∧ (i < 30 → qm6.[ilp.[i]] < 8 * q6.[i]) ∧
  qm6.[iln.[i]] = - qm6.[ilp.[i]].
Proof.
  intros Hi.
  assert (check_range (λ i, (4 <=? iln.[i]) && (iln.[i] <=? 63) && (4 <=? ilp.[i]) && (ilp.[i] <=? 63) &&
    (8 * q6.[i - 1] <=? qm6.[ilp.[i]]) && ((30 <=? i) || (qm6.[ilp.[i]] <? 8 * q6.[i])) &&
    (qm6.[iln.[i]] =? - qm6.[ilp.[i]])) 1 30 = true) as H by (vm_compute; done).
  apply (check_range_spec _ _ _ i) in H; [|lia].
  rewrite !andb_true_iff, orb_true_iff, !Z.leb_le, Z.ltb_lt, Z.eqb_eq in H. lia.
Qed.

Lemma quant_low_range el det : 4 ≤ quant_low el det ≤ 63.
Proof.
  unfold quant_low. cbv zeta.
  pose proof (quantl_spec 29 1 (if el >=? 0 then el else - (el + 1)) det) as [H _].
  set (i := quantl _ _ _ _) in *. pose proof (check_level i ltac:(lia)). destruct (el <? 0); lia.
Qed.

Lemma quant_high_range eh det : 0 ≤ quant_high eh det ≤ 3.
Proof.
  unfold quant_high. cbv zeta. destruct (_ >=? _); destruct (eh <? 0); vm_compute; split; congruence.
Qed.

(** The low-band level that the decoder reads for the six-bit code [ilow]. *)
Definition low_level (bits ilow : Z) : Z :=
  if bits =? 7 then qm5.[ilow ≫ 1] else if bits =? 6 then qm4.[ilow ≫ 2] else qm6.[ilow].

(** The decoder recovers the four upper bits of the low-band code and the high-band code
    at every rate. *)
Lemma decode_bits_code bits ilow ihigh :
  valid_bits bits → 0 ≤ ilow ≤ 63 → 0 ≤ ihigh ≤ 3 →
  let code := Z.lor (shl32 ihigh 6) ilow ≫ (8 - bits) in
  0 ≤ code < 2 ^ bits ∧ decode_bits bits code = (ilow ≫ 2, ihigh, low_level bits ilow).
Proof.
  intros Hb Hl Hh. cbv zeta.
  assert (∀ bits, valid_bits bits → check_range (λ h, check_range (λ l,
    let code := Z.lor (shl32 h 6) l ≫ (8 - bits) in
    (0 <=? code) && (code <? 2 ^ bits) &&
    (let '(a, b, c) := decode_bits bits code in
     (a =? l ≫ 2) && (b =? h) && (c =? low_level bits l))) 0 64) 0 4 = true) as H.
  { intros b [-> | [-> | ->]]; vm_compute; done. }
  specialize (H bits Hb). apply (check_range_spec _ _ _ ihigh) in H; [|lia].
  apply (check_range_spec _ _ _ ilow) in H; [|lia]. cbv beta zeta in H.
  destruct (decode_bits bits _) as [[a b] c].
  rewrite !andb_true_iff, Z.leb_le, Z.ltb_lt, !Z.eqb_eq in H. destruct H as [[? ?] [[-> ->] ->]]. done.
Qed.

(** * Frames as sequences of samples *)

(** The mode that the interface selects, at any rate: two bands, one byte per code. *)
Definition wideband (s : G722State) : Prop :=
  itu_test_mode s = false ∧ packed s = false ∧ eight_k s = false ∧ valid_bits (bits_per_sample s).

(** One turn of the encoder in the wideband mode, on a pair of samples ([encode_turn_wide]). *)
Definition enc_pair (s : G722State) (a : Z * Z) : G722State * Z :=
  let x := qmf_shift (g_x s) (a.1) (a.2) in
  let '(sumeven, sumodd) := qmf_sums x in
  encode_bands s x ((sumeven ⊞ sumodd) ≫ 14) ((sumeven ⊟ sumodd) ≫ 14).

(** Quantities the turns do not change. *)
Definition same_mode (s s' : G722State) : Prop :=
  itu_test_mode s' = itu_test_mode s ∧ packed s' = packed s ∧ eight_k s' = eight_k s ∧
  bits_per_sample s' = bits_per_sample s ∧
  in_buffer s' = in_buffer s ∧ in_bits s' = in_bits s ∧
  out_buffer s' = out_buffer s ∧ out_bits s' = out_bits s.

Lemma same_mode_wideband s s' : wideband s → same_mode s s' → wideband s'.
Proof. unfold wideband, same_mode. intros (H1 & H2 & H3 & H4) (-> & -> & -> & -> & _). done. Qed.

Lemma encode_bands_mode s x xlow xhigh : same_mode s (encode_bands s x xlow xhigh).1.
Proof. unfold encode_bands. cbv zeta. destruct (if eight_k s then _ else _). repeat split. Qed.

Lemma enc_pair_mode s a : same_mode s (enc_pair s a).1.
Proof. unfold enc_pair. destruct (qmf_sums _). apply encode_bands_mode. Qed.

Lemma decode_code_mode s code : same_mode s (decode_code s code).1.
Proof.
  unfold decode_code. destruct (decode_bits _ _) as [[? ?] ?].
  destruct (if negb (eight_k s) then _ else _). cbv zeta. unfold same_mode.
  destruct (itu_test_mode s) eqn:E; [by repeat split|].
  destruct (eight_k s) eqn:E2; [by repeat split|]. destruct (qmf_sums _). by repeat split.
Qed.

(** The code of a turn in the wideband mode, and the predictors after it. *)
Lemma enc_pair_code s a :
  wideband s →
  ∃ ilow ihigh, 4 ≤ ilow ≤ 63 ∧ 0 ≤ ihigh ≤ 3 ∧
    (enc_pair s a).2 = Z.lor (shl32 ihigh 6) ilow ≫ (8 - bits_per_sample s) ∧
    0 ≤ (enc_pair s a).2 < 2 ^ bits_per_sample s ∧
    band0 (enc_pair s a).1 = adapt_low block4_enc (band0 s) (ilow ≫ 2) ∧
    band1 (enc_pair s a).1 = adapt_high block4_enc (band1 s) ihigh.
Proof.
  intros (_ & _ & H8 & Hb). unfold enc_pair. destruct (qmf_sums _) as [even odd].
  unfold encode_bands. rewrite H8. cbv zeta. cbn [fst snd band0 band1].
  set (l := quant_low _ _). set (h := quant_high _ _).
  exists l, h. pose proof (quant_low_range (saturate (((even ⊞ odd) ≫ 14) ⊟ bd_s (band0 s))) (bd_det (band0 s))) as Hl.
  fold l in Hl.
  pose proof (quant_high_range (saturate (((even ⊟ odd) ≫ 14) ⊟ bd_s (band1 s))) (bd_det (band1 s))) as Hh.
  fold h in Hh. destruct (decode_bits_code (bits_per_sample s) l h Hb) as [Hc _]; [lia..|].
  repeat split; try done; lia.
Qed.

Lemma encode_turn_wide s amp j :
  wideband s →
  encode_turn s amp j = ((enc_pair s (amp.[j], amp.[j + 1])).1,
                         [(enc_pair s (amp.[j], amp.[j + 1])).2], j + 2).
Proof.
  intros Hw. pose proof (enc_pair_code s (amp.[j], amp.[j + 1]) Hw) as (l & h & _ & _ & _ & Hc & _).
  pose proof (enc_pair_mode s (amp.[j], amp.[j + 1])) as (_ & Hp & _).
  destruct Hw as (H1 & H2 & H3 & H4). unfold encode_turn, encode_input. rewrite H1, H3.
  unfold enc_pair in *. cbn [fst snd] in *. destruct (qmf_sums _) as [even odd].
  destruct (encode_bands _ _ _ _) as [s' code]. cbn [fst snd] in *. unfold encode_store. rewrite Hp, H2.
  rewrite u8_id; [done|]. unfold uint8. destruct H4 as [E | [E | E]]; rewrite E in Hc; simpl in Hc; lia.
Qed.

Lemma encode_loop_wide n fuel s data amp j len codes D :
  wideband s → (n ≤ fuel)%nat → 0 ≤ j → j + 2 * Z.of_nat n = len → len ≤ zlen amp →
  data = codes ++ drop (length codes) D → zlen codes + Z.of_nat n ≤ zlen D →
  let r := run enc_pair s (pairs (slice amp j (2 * Z.of_nat n))) in
  encode_loop fuel s data amp j len (zlen codes) =
    Some (r.1, codes ++ r.2 ++ drop (length codes + n) D, zlen codes + Z.of_nat n).
Proof.
  revert fuel s data j codes. induction n as [|n IH]; intros fuel s data j codes Hw Hf Hj Hlen HA -> HD.
  { cbv zeta. change (2 * Z.of_nat 0) with 0. rewrite slice_0. simpl. rewrite Nat.add_0_r, Z.add_0_r.
    destruct fuel; simpl; destruct (Z.ltb_spec j len); (lia || done). }
  destruct fuel as [|fuel]; [lia|]. cbn [encode_loop]. destruct (Z.ltb_spec j len); [|lia].
  rewrite encode_turn_wide by done. set (a := (amp.[j], amp.[j + 1])).
  assert (slice amp j (2 * Z.of_nat (S n)) = a.1 :: a.2 :: slice amp (j + 2) (2 * Z.of_nat n)) as ->.
  { rewrite !slice_cons by lia. unfold a. simpl fst. simpl snd. do 2 f_equal. f_equal; lia. }
  cbn [pairs run]. replace (a.1, a.2) with a by (by destruct a).
  pose proof (same_mode_wideband s (enc_pair s a).1 Hw (enc_pair_mode s a)) as Hw'.
  destruct (enc_pair s a) as [s' c]. cbn [fst snd] in *. change (zlen [c]) with 1.
  replace (length codes) with (Z.to_nat (zlen codes)) at 1 by lia.
  rewrite store_next by (simpl; lia). change (zlen [c]) with 1.
  specialize (IH fuel s' ((codes ++ [c]) ++ drop (length (codes ++ [c])) D) (j + 2) (codes ++ [c])
    Hw' ltac:(lia) ltac:(lia) ltac:(lia) HA eq_refl).
  rewrite length_app in *. change (length [c]) with 1%nat in *. specialize (IH ltac:(lia)).
  cbv zeta in IH. destruct (run enc_pair s' _) as [s2 cs]. cbn [fst snd] in *.
  replace (Z.to_nat (zlen codes + 1)) with (length codes + 1)%nat by lia.
  replace (zlen codes + 1) with (Z.of_nat (length codes + 1)) by lia. rewrite IH.
  rewrite <- !app_assoc. simpl. do 2 f_equal; [|lia]. f_equal. do 4 f_equal. lia.
Qed.

(** The decoder writes two samples for each code. *)
Lemma decode_code_out s code : wideband s → length (decode_code s code).2 = 2%nat.
Proof.
  intros (H1 & _ & H3 & _). unfold decode_code. destruct (decode_bits _ _) as [[? ?] ?].
  rewrite H1, H3. cbn [negb]. set (x := qmf_shift _ _ _). by destruct (qmf_sums x).
Qed.

Lemma decode_loop_wide n fuel s amp data j len out D :
  wideband s → (n ≤ fuel)%nat → 0 ≤ j → j + Z.of_nat n = len → len ≤ zlen data →
  amp = out ++ drop (length out) D → zlen out + 2 * Z.of_nat n ≤ zlen D →
  let r := run decode_code s (slice data j (Z.of_nat n)) in
  decode_loop fuel s amp data j len (zlen out) =
    Some (r.1, out ++ concat r.2 ++ drop (length out + 2 * n) D, zlen out + 2 * Z.of_nat n).
Proof.
  revert fuel s amp j out. induction n as [|n IH]; intros fuel s amp j out Hw Hf Hj Hlen HA -> HD.
  { cbv zeta. change (Z.of_nat 0) with 0. rewrite slice_0. simpl. rewrite Nat.add_0_r, Z.add_0_r.
    destruct fuel; simpl; destruct (Z.ltb_spec j len); (lia || done). }
  destruct fuel as [|fuel]; [lia|]. cbn [decode_loop]. destruct (Z.ltb_spec j len); [|lia].
  unfold decode_fetch. destruct Hw as (H1 & H2 & H3 & H4). rewrite H2.
  rewrite slice_cons by lia. replace (Z.of_nat (S n) - 1) with (Z.of_nat n) by lia. cbn [run].
  pose proof (decode_code_out s (data.[j]) ltac:(done)) as Ho.
  pose proof (same_mode_wideband s _ ltac:(done) (decode_code_mode s (data.[j]))) as Hw'.
  destruct (decode_code s (data.[j])) as [s' o]. cbn [fst snd] in *.
  replace (length out) with (Z.to_nat (zlen out)) at 1 by lia.
  rewrite store_next by lia.
  specialize (IH fuel s' ((out ++ o) ++ drop (length (out ++ o)) D) (j + 1) (out ++ o)
    Hw' ltac:(lia) ltac:(lia) ltac:(lia) HA eq_refl).
  rewrite length_app, Ho in *. specialize (IH ltac:(lia)).
  cbv zeta in IH. destruct (run decode_code s' _) as [s2 os]. cbn [fst snd] in *.
  replace (Z.to_nat (zlen out + Z.of_nat 2)) with (length out + 2)%nat by lia.
  replace (zlen out + Z.of_nat 2) with (Z.of_nat (length out + 2)) by lia. rewrite IH.
  rewrite <- !app_assoc. simpl concat. rewrite <- app_assoc. do 2 f_equal; [|lia]. f_equal. do 4 f_equal. lia.
Qed.

(** The whole calls. *)
Lemma encode_wide s data amp len :
  wideband s → 0 ≤ len ≤ zlen amp → Z.even len = true → len / 2 ≤ zlen data →
  let r := run enc_pair s (pairs (take (Z.to_nat len) amp)) in
  WebRtc_g722_encode s data amp len = Some (r.1, r.2 ++ drop (Z.to_nat (len / 2)) data, len / 2).
Proof.
  intros Hw Hl He HD r. apply Z.even_spec in He as [n ->].
  rewrite (Z.mul_comm 2 n), Z.div_mul in * by lia.
  pose proof (encode_loop_wide (Z.to_nat n) (Z.to_nat (n * 2)) s data amp 0 (n * 2) [] data Hw
    ltac:(lia) ltac:(lia) ltac:(lia) ltac:(lia) eq_refl ltac:(simpl; lia)) as H.
  unfold WebRtc_g722_encode, r. rewrite Z2Nat.id in H by lia. cbv zeta in H.
  unfold slice in H. rewrite drop_0, (Z.mul_comm 2 n) in H. rewrite (Z.mul_comm 2 n). exact H.
Qed.

Lemma decode_wide s amp data len :
  wideband s → 0 ≤ in_bits s → 0 ≤ len ≤ zlen data → 2 * len ≤ zlen amp →
  let r := run decode_code s (take (Z.to_nat len) data) in
  WebRtc_g722_decode s amp data len =
    Some (r.1, concat r.2 ++ drop (Z.to_nat (2 * len)) amp, 2 * len).
Proof.
  intros Hw Hi Hl HD r.
  pose proof (decode_loop_wide (Z.to_nat len) (Z.to_nat (in_bits s + 8 * len)) s amp data 0 len [] amp Hw
    ltac:(lia) ltac:(lia) ltac:(lia) ltac:(lia) eq_refl ltac:(simpl; lia)) as H.
  unfold WebRtc_g722_decode, r. rewrite Z2Nat.id in H by lia. cbv zeta in H.
  unfold slice in H. rewrite drop_0 in H. etransitivity; [exact H|]. simpl.
  do 4 f_equal. f_equal. lia.
Qed.

(** * The decoder follows the encoder *)

Definition same_bands (e d : G722State) : Prop :=
  wideband e ∧ wideband d ∧ bits_per_sample e = bits_per_sample d ∧
  band0 e = band0 d ∧ band1 e = band1 d.

Lemma same_bands_step e d a :
  same_bands e d →
  same_bands (enc_pair e a).1 (decode_code d (enc_pair e a).2).1.
Proof.
  intros (We & Wd & Hb & E0 & E1).
  pose proof (enc_pair_code e a We) as (l & h & Hl & Hh & Hc & _ & H0 & H1).
  split; [exact (same_mode_wideband _ _ We (enc_pair_mode e a))|].
  split; [exact (same_mode_wideband _ _ Wd (decode_code_mode d _))|].
  split.
  { destruct (enc_pair_mode e a) as (_ & _ & _ & -> & _).
    destruct (decode_code_mode d (enc_pair e a).2) as (_ & _ & _ & -> & _). done. }
  destruct We as (_ & _ & _ & HB).
  destruct (decode_bits_code (bits_per_sample e) l h HB) as [_ Hd]; [lia..|].
  rewrite <- Hc in Hd. rewrite H0, H1. unfold decode_code. rewrite <- Hb, Hd.
  destruct Wd as (W1 & _ & W3 & _). rewrite W1, W3. cbn [negb].
  set (x := qmf_shift _ _ _). destruct (qmf_sums x). cbn [fst band0 band1].
  unfold adapt_low, adapt_high. rewrite !block4_enc_dec, E0, E1. done.
Qed.

Lemma same_bands_run e d pcm :
  same_bands e d →
  let r := run enc_pair e pcm in same_bands r.1 (run decode_code d r.2).1.
Proof.
  revert e d. induction pcm as [|a pcm IH]; intros e d H; [done|]. cbn [run].
  pose proof (same_bands_step e d a H) as H'. destruct (enc_pair e a) as [e' c]. cbn [fst snd] in *.
  specialize (IH e'). destruct (run enc_pair e' pcm) as [e2 cs]. cbn [fst snd run] in *.
  destruct (decode_code d c) as [d' o]. cbn [fst snd] in *. specialize (IH d' H').
  by destruct (run decode_code d' cs).
Qed.

(** * Ranges of the predictor *)

Lemma saturate_clamp x : saturate x = clamp (-32768) 32767 x.
Proof.
  unfold saturate, clamp. cbv zeta. rewrite Z.gtb_ltb.
  destruct (Z.eqb_spec x (s16 x)) as [E|E].
  - pose proof (s16_range x) as H. rewrite <- E in *. unfold int16 in H. lia.
  - assert (~ int16 x) as H by (intros H; apply E; by rewrite s16_id). unfold int16 in H.
    destruct (Z.ltb_spec 32767 x); lia.
Qed.

Lemma saturate_range x : int16 (saturate x).
Proof. rewrite saturate_clamp. unfold clamp. cint. Qed.
#[export] Hint Resolve saturate_range : cint.

(** The state of a band: 16-bit signals and zero coefficients, pole coefficients inside
    the stability triangle [|a2| <= 0.75], [|a1| <= 0.9375 - a2] (in units of 2^-14), the
    logarithmic scale up to [lim] and the scale factor in [lo .. 16384]. *)
Record band_ok (lim lo : Z) (bd : G722Band) : Prop := MkBandOk {
  bok_s : int16 (bd_s bd); bok_sp : int16 (bd_sp bd); bok_sz : int16 (bd_sz bd);
  bok_r : length (bd_r bd) = 3%nat ∧ Forall int16 (bd_r bd);
  bok_a : length (bd_a bd) = 3%nat; bok_ap : length (bd_ap bd) = 3%nat;
  bok_a2 : Z.abs ((bd_a bd).[2]) ≤ 12288;
  bok_a1 : Z.abs ((bd_a bd).[1]) ≤ 15360 - (bd_a bd).[2];
  bok_p : length (bd_p bd) = 3%nat ∧ Forall int16 (bd_p bd);
  bok_d : length (bd_d bd) = 7%nat ∧ Forall int16 (bd_d bd);
  bok_b : length (bd_b bd) = 7%nat ∧ Forall int16 (bd_b bd);
  bok_bp : length (bd_bp bd) = 7%nat; bok_sg : length (bd_sg bd) = 7%nat;
  bok_nb : 0 ≤ bd_nb bd ≤ lim; bok_det : lo ≤ bd_det bd ≤ 16384;
}.

(** The predictor update in unbounded integers. *)
Definition clamp16 (x : Z) : Z := clamp (-32768) 32767 x.
Definition ideal_a2 (same01 same02 : bool) (a1 a2 : Z) : Z :=
  let w := if same01 then - clamp16 (4 * a1) else clamp16 (4 * a1) in
  clamp (-12288) 12288
    ((if same02 then 128 else -128) + Z.min 32767 w `div` 128 + (a2 * 32512) `div` 32768).
Definition ideal_a1 (same01 : bool) (a1 a2' : Z) : Z :=
  clamp (- (15360 - a2')) (15360 - a2')
    ((if same01 then 192 else -192) + (a1 * 32640) `div` 32768).
Definition ideal_b (dq d b : Z) : Z :=
  let w := if dq =? 0 then 0 else 128 in
  clamp16 ((if (d <? 0) && (0 <=? dq) || (0 <=? d) && (dq <? 0) then - w else w) +
           (b * 32640) `div` 32768).
Definition ideal_tap (c x : Z) : Z := (c * clamp16 (2 * x)) `div` 32768.

(** What one update does: the reconstructed signals are shifted in, the coefficients move
    by the sign rule, and the next prediction is the sum of the pole and zero sections. *)
Definition ideal_update (bd bd' : G722Band) (dq : Z) : Prop :=
  let neg x := x <? 0 in
  let r := clamp16 (bd_s bd + dq) in
  let p := clamp16 (bd_sz bd + dq) in
  let p1 := (bd_p bd).[1] in let p2 := (bd_p bd).[2] in
  let a1 := (bd_a bd).[1] in let a2 := (bd_a bd).[2] in
  let a2' := ideal_a2 (eqb (neg p) (neg p1)) (eqb (neg p) (neg p2)) a1 a2 in
  let a1' := ideal_a1 (eqb (neg p) (neg p1)) a1 a2' in
  (bd_r bd').[1] = r ∧ (bd_r bd').[2] = (bd_r bd).[1] ∧
  (bd_p bd').[1] = p ∧ (bd_p bd').[2] = p1 ∧
  (bd_a bd').[1] = a1' ∧ (bd_a bd').[2] = a2' ∧
  (bd_d bd').[1] = dq ∧ (∀ i, 1 ≤ i < 6 → (bd_d bd').[i + 1] = (bd_d bd).[i]) ∧
  (∀ i, 1 ≤ i ≤ 6 → (bd_b bd').[i] = ideal_b dq ((bd_d bd).[i]) ((bd_b bd).[i])) ∧
  bd_sp bd' = clamp16 (ideal_tap ((bd_a bd').[1]) ((bd_r bd').[1]) +
                       ideal_tap ((bd_a bd').[2]) ((bd_r bd').[2])) ∧
  bd_sz bd' = clamp16 (sumf (λ i, ideal_tap ((bd_b bd').[i]) ((bd_d bd').[i])) 1 6) ∧
  bd_s bd' = clamp16 (bd_sp bd' + bd_sz bd') ∧
  bd_nb bd' = bd_nb bd ∧ bd_det bd' = bd_det bd.

Lemma block4_explicit up s sp sz r0 r1 r2 a0 a1 a2 q0 q1 q2 p0 p1 p2 d0 d1 d2 d3 d4 d5 d6
    b0 b1 b2 b3 b4 b5 b6 c0 c1 c2 c3 c4 c5 c6 g0 g1 g2 g3 g4 g5 g6 nb det dq :
  let r := saturate (s ⊞ dq) in
  let p := saturate (sz ⊞ dq) in
  let sg := [p ≫ 15; p1 ≫ 15; p2 ≫ 15; g3; g4; g5; g6] in
  let a := [a0; a1; a2] in
  let a2' := up sg a in
  let a1' := uppol1 sg a a2' in
  let w := if dq =? 0 then 0 else 128 in
  let bn d b := saturate ((if d ≫ 15 =? dq ≫ 15 then w else - w) ⊞ ((b ⊠ 32640) ≫ 15)) in
  let r' := [r; r; r1] in
  let a' := [a0; a1'; a2'] in
  let d' := [dq; dq; d1; d2; d3; d4; d5] in
  let b' := [b0; bn d1 b1; bn d2 b2; bn d3 b3; bn d4 b4; bn d5 b5; bn d6 b6] in
  block4_with up (MkBand s sp sz [r0; r1; r2] a [q0; q1; q2] [p0; p1; p2] [d0; d1; d2; d3; d4; d5; d6]
    [b0; b1; b2; b3; b4; b5; b6] [c0; c1; c2; c3; c4; c5; c6] [g0; g1; g2; g3; g4; g5; g6] nb det) dq =
  MkBand (saturate (filtep r' a' ⊞ filtez d' b')) (filtep r' a') (filtez d' b') r' a'
    [q0; a1'; a2'] [p; p; p1] d' b'
    [c0; bn d1 b1; bn d2 b2; bn d3 b3; bn d4 b4; bn d5 b5; bn d6 b6]
    [dq ≫ 15; d1 ≫ 15; d2 ≫ 15; d3 ≫ 15; d4 ≫ 15; d5 ≫ 15; d6 ≫ 15] nb det.
Proof. reflexivity. Qed.

(** ** The steps of the update, without overflow *)

Lemma sign_bit x y : int16 x → int16 y → (x ≫ 15 =? y ≫ 15) = eqb (x <? 0) (y <? 0).
Proof.
  intros Hx Hy. unfold int16 in *. rewrite !shiftr_div by lia. change (2 ^ 15) with 32768.
  destruct (Z.ltb_spec x 0), (Z.ltb_spec y 0); simpl; (apply Z.eqb_eq || apply Z.eqb_neq); zdiv.
Qed.

Lemma mul_q15 c k : Z.abs c ≤ 32768 → 0 ≤ k ≤ 32767 →
  (c ⊠ k) ≫ 15 = (c * k) `div` 32768 ∧ - Z.abs c ≤ (c * k) `div` 32768 ≤ Z.abs c.
Proof.
  intros Hc Hk. rewrite mul32_id by (unfold_ints; nia). rewrite shiftr_div by lia.
  split; [done|]. split.
  - apply Z.div_le_lower_bound; nia.
  - apply Z.lt_succ_r, Z.div_lt_upper_bound; nia.
Qed.

Lemma tap_exact c x : int16 c → int16 x →
  (c ⊠ saturate (x ⊞ x)) ≫ 15 = ideal_tap c x ∧ -32768 ≤ ideal_tap c x ≤ 32768.
Proof.
  intros Hc Hx. unfold int16 in *. rewrite add32_id by cint. rewrite saturate_clamp.
  unfold ideal_tap. fold (clamp16 (x + x)). replace (x + x) with (2 * x) by lia.
  assert (-32768 ≤ clamp16 (2 * x) ≤ 32767) by (apply clamp_range; lia).
  set (y := clamp16 _) in *. rewrite mul32_id by (unfold_ints; nia). rewrite shiftr_div by lia.
  split; [done|]. change (2 ^ 15) with 32768. split.
  - apply Z.div_le_lower_bound; nia.
  - apply Z.lt_succ_r, Z.div_lt_upper_bound; nia.
Qed.

Lemma uppol2_exact sg (a : list Z) :
  Z.abs (a.[1]) ≤ 32767 → Z.abs (a.[2]) ≤ 12288 →
  uppol2_dec sg a = ideal_a2 (sg.[0] =? sg.[1]) (sg.[0] =? sg.[2]) (a.[1]) (a.[2]) ∧
  Z.abs (uppol2_dec sg a) ≤ 12288.
Proof.
  intros H1 H2. unfold uppol2_dec, ideal_a2. cbv zeta. generalize (a.[1]), (a.[2]), H1, H2. clear.
  intros a1 a2 H1 H2. rewrite clamp_ifs by lia. rewrite saturate_clamp, (mul32_id a1 4) by cint.
  rewrite (Z.mul_comm a1 4). fold (clamp16 (4 * a1)).
  assert (-32768 ≤ clamp16 (4 * a1) ≤ 32767) as Hc by (apply clamp_range; lia).
  destruct (mul_q15 a2 32512) as [-> Hq]; [lia..|].
  split; [|unfold clamp; lia]. f_equal.
  set (w := if sg.[0] =? sg.[1] then _ else _).
  assert (-32768 ≤ w ≤ 32768) as Hw by (unfold w; destruct (_ =? _); lia).
  assert ((if w >? 32767 then 32767 else w) = Z.min 32767 w) as ->.
  { rewrite Z.gtb_ltb. destruct (Z.ltb_spec 32767 w); lia. }
  rewrite shiftr_div by lia. change (2 ^ 7) with 128.
  assert (-256 ≤ Z.min 32767 w `div` 128 ≤ 255) by zdiv.
  set (q := Z.min 32767 w `div` 128) in *.
  destruct (sg.[0] =? sg.[2]); rewrite (add32_id _ q), add32_id by cint; lia.
Qed.

Lemma uppol1_exact sg (a : list Z) a2' :
  Z.abs (a.[1]) ≤ 27648 → Z.abs a2' ≤ 12288 →
  uppol1 sg a a2' = ideal_a1 (sg.[0] =? sg.[1]) (a.[1]) a2' ∧
  Z.abs (uppol1 sg a a2') ≤ 15360 - a2'.
Proof.
  intros H1 H2. unfold uppol1, ideal_a1. cbv zeta. generalize (a.[1]), H1. clear H1. intros a1 H1.
  rewrite (sub32_id 15360 a2') by cint. rewrite (saturate_clamp (15360 - a2')), clamp_id by lia.
  rewrite clamp_ifs by lia. destruct (mul_q15 a1 32640) as [-> Hq]; [lia..|].
  split; [|unfold clamp; lia]. f_equal.
  destruct (sg.[0] =? sg.[1]); rewrite add32_id, saturate_clamp, clamp_id by cint; done.
Qed.

Lemma bn_exact dq d b : int16 dq → int16 d → int16 b →
  saturate ((if d ≫ 15 =? dq ≫ 15 then if dq =? 0 then 0 else 128 else - (if dq =? 0 then 0 else 128)) ⊞
            ((b ⊠ 32640) ≫ 15)) = ideal_b dq d b.
Proof.
  intros Hq Hd Hb. rewrite sign_bit by done. unfold ideal_b. cbv zeta. rewrite saturate_clamp.
  fold (clamp16 ((if eqb (d <? 0) (dq <? 0) then if dq =? 0 then 0 else 128 else
    - (if dq =? 0 then 0 else 128)) ⊞ ((b ⊠ 32640) ≫ 15))). f_equal.
  destruct (mul_q15 b 32640) as [-> Hr]; [unfold int16 in *; lia..|]. unfold int16 in *.
  assert (∀ w, Z.abs w ≤ 128 → w ⊞ (b * 32640) `div` 32768 = w + (b * 32640) `div` 32768) as Ha.
  { intros w Hw. apply add32_id. cint. }
  destruct (Z.ltb_spec d 0), (Z.ltb_spec dq 0), (Z.leb_spec 0 d), (Z.leb_spec 0 dq); try lia; simpl;
    destruct (dq =? 0); by rewrite Ha by lia.
Qed.

Lemma filtep_exact (r a : list Z) :
  int16 (r.[1]) → int16 (r.[2]) → int16 (a.[1]) → int16 (a.[2]) →
  filtep r a = clamp16 (ideal_tap (a.[1]) (r.[1]) + ideal_tap (a.[2]) (r.[2])).
Proof.
  intros H1 H2 H3 H4. unfold filtep. cbv zeta.
  destruct (tap_exact (a.[1]) (r.[1])) as [-> ?]; [done..|].
  destruct (tap_exact (a.[2]) (r.[2])) as [-> ?]; [done..|].
  by rewrite saturate_clamp, add32_id by cint.
Qed.

Lemma filtez_exact (d b : list Z) :
  Forall int16 d → Forall int16 b →
  filtez d b = clamp16 (sumf (λ i, ideal_tap (b.[i]) (d.[i])) 1 6).
Proof.
  intros Hd Hb. unfold filtez. rewrite saturate_clamp. unfold clamp16. f_equal. cbv zeta.
  assert (∀ i, (b.[i] ⊠ saturate (d.[i] ⊞ d.[i])) ≫ 15 = ideal_tap (b.[i]) (d.[i]) ∧
    -32768 ≤ ideal_tap (b.[i]) (d.[i]) ≤ 32768) as H.
  { intros i. apply tap_exact; apply rd_Forall; (done || cint). }
  set (t := λ i, ideal_tap (b.[i]) (d.[i])) in *.
  set (f := λ i, (b.[i] ⊠ saturate (d.[i] ⊞ d.[i])) ≫ 15).
  change (0 ⊞ f 6 ⊞ f 5 ⊞ f 4 ⊞ f 3 ⊞ f 2 ⊞ f 1 = 0 + t 1 + t 2 + t 3 + t 4 + t 5 + t 6).
  assert (∀ i, f i = t i ∧ -32768 ≤ t i ≤ 32768) as E by exact H. clearbody t f.
  pose proof (E 1) as [-> ?]. pose proof (E 2) as [-> ?]. pose proof (E 3) as [-> ?].
  pose proof (E 4) as [-> ?]. pose proof (E 5) as [-> ?]. pose proof (E 6) as [-> ?].
  rewrite (add32_id 0), (add32_id (0 + _)), (add32_id (0 + _ + _)), (add32_id (0 + _ + _ + _)),
    (add32_id (0 + _ + _ + _ + _)), add32_id by cint. lia.
Qed.

Lemma length3 (l : list Z) : length l = 3%nat → ∃ a b c, l = [a; b; c].
Proof. destruct l as [|a [|b [|c [|]]]]; try done. by exists a, b, c. Qed.
Lemma length7 (l : list Z) : length l = 7%nat → ∃ a b c d e f g, l = [a; b; c; d; e; f; g].
Proof.
  destruct l as [|a [|b [|c [|d [|e [|f [|g [|]]]]]]]]; try done. by exists a, b, c, d, e, f, g.
Qed.

(** Block 4 keeps the ranges and is the update in unbounded integers. *)
Lemma block4_update lim lo bd dq :
  band_ok lim lo bd → int16 dq →
  band_ok lim lo (block4_dec bd dq) ∧ ideal_update bd (block4_dec bd dq) dq.
Proof.
  destruct bd as [s sp sz r a ap p d b bp sg nb det].
  intros [Hs Hsp Hsz [Lr Fr] La Lap Ha2 Ha1 [Lp Fp] [Ld Fd] [Lb Fb] Lbp Lsg Hnb Hdet] Hq.
  cbn [bd_s bd_sp bd_sz bd_r bd_a bd_ap bd_p bd_d bd_b bd_bp bd_sg bd_nb bd_det] in *.
  apply length3 in Lr as (r0 & r1 & r2 & ->). apply length3 in La as (a0 & a1 & a2 & ->).
  apply length3 in Lap as (q0 & q1 & q2 & ->). apply length3 in Lp as (p0 & p1 & p2 & ->).
  apply length7 in Ld as (d0 & d1 & d2 & d3 & d4 & d5 & d6 & ->).
  apply length7 in Lb as (b0 & b1 & b2 & b3 & b4 & b5 & b6 & ->).
  apply length7 in Lbp as (c0 & c1 & c2 & c3 & c4 & c5 & c6 & ->).
  apply length7 in Lsg as (g0 & g1 & g2 & g3 & g4 & g5 & g6 & ->).
  repeat match goal with H : Forall int16 (_ :: _) |- _ => apply Forall_cons_1 in H as [? H] end.
  change ([a0; a1; a2].[1]) with a1 in Ha1. change ([a0; a1; a2].[2]) with a2 in Ha1, Ha2.
  unfold block4_dec. rewrite block4_explicit. cbv zeta.
  pose proof (saturate_range (s ⊞ dq)) as Hr. pose proof (saturate_range (sz ⊞ dq)) as Hp.
  assert (saturate (s ⊞ dq) = clamp16 (s + dq)) as Er
    by (unfold int16 in *; by rewrite saturate_clamp, add32_id by cint).
  assert (saturate (sz ⊞ dq) = clamp16 (sz + dq)) as Ep
    by (unfold int16 in *; by rewrite saturate_clamp, add32_id by cint).
  rewrite Er, Ep in *. set (r := clamp16 (s + dq)) in *. set (p := clamp16 (sz + dq)) in *.
  set (sg := [p ≫ 15; _; _; _; _; _; _]).
  destruct (uppol2_exact sg [a0; a1; a2]) as [E2 B2];
    [change ([a0; a1; a2].[1]) with a1; lia|change ([a0; a1; a2].[2]) with a2; lia|].
  destruct (uppol1_exact sg [a0; a1; a2] (uppol2_dec sg [a0; a1; a2])) as [E1 B1];
    [change ([a0; a1; a2].[1]) with a1; lia|lia|].
  change (sg.[0] =? sg.[1]) with (p ≫ 15 =? p1 ≫ 15) in *.
  change (sg.[0] =? sg.[2]) with (p ≫ 15 =? p2 ≫ 15) in *.
  change ([a0; a1; a2].[1]) with a1 in *. change ([a0; a1; a2].[2]) with a2 in *.
  rewrite sign_bit in E2, E1 by done. rewrite sign_bit in E2 by done.
  set (a2' := uppol2_dec sg _) in *. set (a1' := uppol1 sg _ a2') in *. clearbody a1' a2'.
  rewrite !bn_exact by done.
  assert (∀ d b, int16 (ideal_b dq d b)) as Hbn.
  { intros d b. unfold ideal_b, clamp16. cbv zeta. unfold clamp. cint. }
  set (b' := [b0; _; _; _; _; _; _]). set (d' := [dq; dq; _; _; _; _; _]).
  assert (Forall int16 b') as Fb' by (repeat apply Forall_cons_2; (done || apply Hbn || constructor)).
  assert (Forall int16 d') as Fd' by (repeat apply Forall_cons_2; (done || constructor)).
  assert (∀ x, int16 (clamp16 x)) as Hcl by (intros x; unfold clamp16, clamp; cint).
  assert (int16 a1' ∧ int16 a2') as [Ha1' Ha2'] by (unfold int16; lia).
  rewrite (filtep_exact [r; r; r1]) by done. rewrite (filtez_exact d' b') by done.
  rewrite (saturate_clamp (_ ⊞ _)), add32_id.
  2:{ unfold clamp16, clamp. cint. }
  split.
  - constructor; cbn [bd_s bd_sp bd_sz bd_r bd_a bd_ap bd_p bd_d bd_b bd_bp bd_sg bd_nb bd_det];
      try done; try apply Hcl; (split; [done|]); (done || (repeat apply Forall_cons_2; (done || constructor))).
  - unfold ideal_update. cbv zeta.
    cbn [bd_s bd_sp bd_sz bd_r bd_a bd_ap bd_p bd_d bd_b bd_bp bd_sg bd_nb bd_det].
    change ([r; r; r1].[1]) with r. change ([r; r; r1].[2]) with r1.
    change ([a0; a1; a2].[1]) with a1. change ([a0; a1; a2].[2]) with a2.
    change ([p0; p1; p2].[1]) with p1. change ([p0; p1; p2].[2]) with p2.
    change ([a0; a1'; a2'].[1]) with a1'. change ([a0; a1'; a2'].[2]) with a2'.
    fold r p. rewrite <- E2, <- E1.
    do 7 (split; [done|]). split.
    { intros i Hi. assert (i = 1 ∨ i = 2 ∨ i = 3 ∨ i = 4 ∨ i = 5) as Hc by lia.
      by destruct Hc as [-> | [-> | [-> | [-> | ->]]]]. }
    split; [|done].
    intros i Hi. assert (i = 1 ∨ i = 2 ∨ i = 3 ∨ i = 4 ∨ i = 5 ∨ i = 6) as Hc by lia.
    by destruct Hc as [-> | [-> | [-> | [-> | [-> | ->]]]]].
Qed.

(** ** Scale factors *)

(** The scale factor depends on the bits of [nb] from the sixth on. *)
Lemma scalel_range lim base lo nb :
  (lim, base, lo) = (18432, 8, 32) ∨ (lim, base, lo) = (22528, 10, 8) →
  0 ≤ nb ≤ lim → lo ≤ scalel nb base ≤ 16384.
Proof.
  intros Hc Hnb. unfold scalel. cbv zeta.
  replace (nb ≫ 11) with ((nb ≫ 6) ≫ 5) by (by rewrite Z.shiftr_shiftr).
  set (m := nb ≫ 6).
  assert (0 ≤ m ≤ lim `div` 64) as Hm.
  { unfold m. rewrite shiftr_div by lia. change (2 ^ 6) with 64. split; [apply Z.div_pos; lia|].
    apply Z.div_le_mono; lia. }
  set (p := λ base lo m, let wd1 := Z.land m 31 in let wd2 := base ⊟ (m ≫ 5) in
    let wd3 := if wd2 <? 0 then shl32 (ilb.[wd1]) (- wd2) else ilb.[wd1] ≫ wd2 in
    (lo <=? shl32 wd3 2) && (shl32 wd3 2 <=? 16384)).
  enough (p base lo m = true) as H by (unfold p in H; apply andb_true_iff in H; rewrite !Z.leb_le in H; exact H).
  destruct Hc as [[= -> -> ->] | [= -> -> ->]].
  - apply (check_range_spec (p 8 32) 0 289); [vm_compute; done|].
    change (18432 `div` 64) with 288 in Hm. lia.
  - apply (check_range_spec (p 10 8) 0 353); [vm_compute; done|].
    change (22528 `div` 64) with 352 in Hm. lia.
Qed.

Lemma logscl_range nb w limit : 0 ≤ limit → 0 ≤ logscl nb w limit ≤ limit.
Proof.
  intros. unfold logscl. cbv zeta. rewrite Z.gtb_ltb.
  destruct (Z.ltb_spec (((nb ⊠ 127) ≫ 7) ⊞ w) 0); [lia|].
  destruct (Z.ltb_spec limit (((nb ⊠ 127) ≫ 7) ⊞ w)); lia.
Qed.

Lemma set_scale_ok lim lo bd nb det :
  band_ok lim lo bd → 0 ≤ nb ≤ lim → lo ≤ det ≤ 16384 → band_ok lim lo (set_scale bd nb det).
Proof. intros [] Hnb Hdet. by constructor. Qed.

(** The inverse quantiser: a level of a table times the scale factor. *)
Lemma scaled_level det level : 0 ≤ det ≤ 16384 → Z.abs level ≤ 32767 →
  (det ⊠ level) ≫ 15 = (det * level) `div` 32768 ∧ Z.abs ((det * level) `div` 32768) ≤ 16384.
Proof.
  intros Hd Hl. rewrite mul32_id by (unfold_ints; nia). rewrite shiftr_div by lia.
  change (2 ^ 15) with 32768. split; [done|]. apply Z.abs_le. split.
  - apply Z.div_le_lower_bound; nia.
  - apply Z.lt_succ_r, Z.div_lt_upper_bound; nia.
Qed.

(** Blocks 2 to 4 of either band keep the ranges, for any code. *)
Lemma adapt_low_ok bd ril : band_ok 18432 32 bd → band_ok 18432 32 (adapt_low block4_dec bd ril).
Proof.
  intros H. unfold adapt_low. cbv zeta.
  pose proof (logscl_range (bd_nb bd) (wl.[rl42.[ril]]) 18432 ltac:(lia)) as Hn.
  pose proof (bok_det _ _ _ H) as Hd.
  pose proof (table_bound qm4 ril 20456 ltac:(repeat constructor; lia) ltac:(lia)) as Hq.
  destruct (scaled_level (bd_det bd) (qm4.[ril])) as [E HB]; [lia..|].
  apply block4_update; [|rewrite E; unfold int16; lia].
  apply set_scale_ok; [done..|]. apply (scalel_range 18432 8 32); [by left|done].
Qed.

Lemma adapt_high_ok bd ih : band_ok 22528 8 bd → band_ok 22528 8 (adapt_high block4_dec bd ih).
Proof.
  intros H. unfold adapt_high. cbv zeta.
  pose proof (logscl_range (bd_nb bd) (wh.[rh2.[ih]]) 22528 ltac:(lia)) as Hn.
  pose proof (bok_det _ _ _ H) as Hd.
  pose proof (table_bound qm2 ih 7408 ltac:(repeat constructor; lia) ltac:(lia)) as Hq.
  destruct (scaled_level (bd_det bd) (qm2.[ih])) as [E HB]; [lia..|].
  apply block4_update; [|rewrite E; unfold int16; lia].
  apply set_scale_ok; [done..|]. apply (scalel_range 22528 10 8); [by right|done].
Qed.

(** ** Quadrature mirror filter *)

Lemma qmf_shift_ok x v w :
  length x = 24%nat → Forall int16 x → int16 v → int16 w →
  length (qmf_shift x v w) = 24%nat ∧ Forall int16 (qmf_shift x v w) ∧
  qmf_shift x v w = drop 2 x ++ [v; w].
Proof.
  intros HL HF Hv Hw.
  assert (qmf_shift x v w = drop 2 x ++ [v; w]) as ->.
  { do 25 (destruct x as [|? x]; [done|]). done. }
  rewrite length_app, length_drop, HL. split; [done|]. split; [|done].
  apply Forall_app. split; [by apply Forall_drop|]. apply Forall_cons_2; [done|].
  apply Forall_cons_2; [done|constructor].
Qed.

(** Both sums are exact inner products, well inside 32 bits. *)
Lemma qmf_sums_exact x :
  Forall int16 x →
  let e := sumf (λ i, x.[2 * i + 1] * qmf_coeffs.[11 - i]) 0 12 in
  let o := sumf (λ i, x.[2 * i] * qmf_coeffs.[i]) 0 12 in
  qmf_sums x = (e, o) ∧ Z.abs e ≤ 212402176 ∧ Z.abs o ≤ 212402176.
Proof.
  intros Hx e o. unfold qmf_sums. rewrite (for_up_pair
    (λ i s, s ⊞ (x.[2 * i + 1] ⊠ qmf_coeffs.[11 - i])) (λ i s, s ⊞ (x.[2 * i] ⊠ qmf_coeffs.[i]))).
  assert (∀ (k l : Z → Z), sumf (λ i, 32768 * Z.abs (qmf_coeffs.[l i])) 0 12 = 212402176 →
    for_up 0 12 (λ i s, s ⊞ (x.[k i] ⊠ qmf_coeffs.[l i])) 0 = sumf (λ i, x.[k i] * qmf_coeffs.[l i]) 0 12 ∧
    Z.abs (sumf (λ i, x.[k i] * qmf_coeffs.[l i]) 0 12) ≤ 212402176) as H.
  { intros k l Hw.
    destruct (accum32_weighted (λ i, x.[k i] * qmf_coeffs.[l i]) (λ i, 32768 * Z.abs (qmf_coeffs.[l i]))
      0 12 0) as [E HB].
    - intros j _. assert (int16 (x.[k j])) as Hj by (apply rd_Forall; [done|cint]). unfold int16 in Hj. nia.
    - rewrite Hw. done.
    - rewrite Hw in HB. split; [|done]. rewrite Z.add_0_l in E. rewrite <- E.
      apply for_up_ext. intros j s _. rewrite (mul32_id (x.[k j])); [done|].
      assert (int16 (x.[k j])) as Hj by (apply rd_Forall; [done|cint]).
      pose proof (table_bound qmf_coeffs (l j) 3876 ltac:(repeat constructor; lia) ltac:(lia)).
      unfold_ints. nia. }
  destruct (H (λ i, 2 * i + 1) (λ i, 11 - i)) as [E1 B1]; [vm_compute; done|].
  destruct (H (λ i, 2 * i) (λ i, i)) as [E2 B2]; [vm_compute; done|].
  cbv beta in *. rewrite E1, E2. done.
Qed.

(** * The invariant of the codec *)

Definition g722_ok (s : G722State) : Prop :=
  length (g_x s) = 24%nat ∧ Forall int16 (g_x s) ∧
  band_ok 18432 32 (band0 s) ∧ band_ok 22528 8 (band1 s).

Lemma init_ok rate options : g722_ok (g722_init rate options).
Proof.
  assert (∀ n, Forall int16 (replicate n 0)) as H by (intros n; apply Forall_replicate; cint).
  split; [done|]. split; [apply H|].
  split; constructor; cbn; try apply H; try (vm_compute; split; congruence); try (vm_compute; congruence);
    try done; split; try done; apply (H 3%nat) || apply (H 7%nat).
Qed.

Lemma limit15_clamp x : limit15 x = clamp (-16384) 16383 x.
Proof. unfold limit15. by apply clamp_ifs. Qed.

(** A decoded sample keeps the invariant, in every mode and for every code. *)
Lemma decode_code_ok s code :
  g722_ok s → g722_ok (decode_code s code).1 ∧ Forall int16 (decode_code s code).2.
Proof.
  intros (HL & HF & H0 & H1). unfold decode_code.
  destruct (decode_bits (bits_per_sample s) code) as [[wd1 ihigh] wd2].
  pose proof (adapt_low_ok (band0 s) wd1 H0) as H0'.
  pose proof (adapt_high_ok (band1 s) ihigh H1) as H1'.
  unfold decode_low. rewrite !limit15_clamp. set (rh := clamp _ _ (_ ⊞ bd_s (band1 s))).
  set (rlow := clamp _ _ (_ ⊞ _)).
  assert (-16384 ≤ rlow ≤ 16383) as Hl by (unfold rlow, clamp; lia).
  assert (-16384 ≤ rh ≤ 16383) as Hh by (unfold rh, clamp; lia). clearbody rlow rh.
  assert (∃ rhigh b1, (if negb (eight_k s) then (rh, adapt_high block4_dec (band1 s) ihigh) else (0, band1 s))
    = (rhigh, b1) ∧ -16384 ≤ rhigh ≤ 16383 ∧ band_ok 22528 8 b1) as (rhigh & b1 & -> & Hr & Hb1).
  { destruct (eight_k s); cbn [negb]; eexists _, _; (split; [done|]); (split; [lia|done]). }
  cbv zeta.
  assert (∀ x, int16 (s16 (shl32 x 1))) as Hs by (intros; apply s16_range).
  destruct (itu_test_mode s).
  { split; [by do 3 (split; [done|])|]. repeat apply Forall_cons_2; (apply Hs || constructor). }
  destruct (eight_k s).
  { split; [by do 3 (split; [done|])|]. apply Forall_cons_2; [apply Hs|constructor]. }
  rewrite add32_id, sub32_id by cint.
  destruct (qmf_shift_ok (g_x s) (rlow + rhigh) (rlow - rhigh)) as (HL' & HF' & _); [done..|unfold int16; lia|unfold int16; lia|].
  set (x := qmf_shift _ _ _) in *. destruct (qmf_sums x) as [x1 x2].
  split; [by do 3 (split; [done|])|]. repeat apply Forall_cons_2; (apply saturate_range || constructor).
Qed.

Lemma encode_bands_ok s x xlow xhigh :
  g722_ok s → length x = 24%nat → Forall int16 x → g722_ok (encode_bands s x xlow xhigh).1.
Proof.
  intros (_ & _ & H0 & H1) HL HF. unfold encode_bands. cbv zeta.
  set (l := quant_low _ _).
  assert (band_ok 18432 32 (adapt_low block4_enc (band0 s) (l ≫ 2))) as H0'.
  { unfold adapt_low. rewrite block4_enc_dec. exact (adapt_low_ok (band0 s) (l ≫ 2) H0). }
  destruct (eight_k s); [by do 3 (split; [done|])|]. set (h := quant_high _ _).
  assert (band_ok 22528 8 (adapt_high block4_enc (band1 s) h)) as H1'.
  { unfold adapt_high. rewrite block4_enc_dec. exact (adapt_high_ok (band1 s) h H1). }
  by do 3 (split; [done|]).
Qed.

Lemma enc_pair_ok s a : g722_ok s → int16 (a.1) → int16 (a.2) → g722_ok (enc_pair s a).1.
Proof.
  intros H Ha Hb. unfold enc_pair. pose proof H as (HL & HF & _).
  destruct (qmf_shift_ok (g_x s) (a.1) (a.2)) as (HL' & HF' & _); [done..|].
  destruct (qmf_sums _). by apply encode_bands_ok.
Qed.

(** ** The quantiser of the low band *)

(** Decision level [k] for the scale factor [det]. *)
Definition threshold (det k : Z) : Z := (q6.[k] * det) `div` 4096.

(** The cell that the search selects for the difference [el]. *)
Definition low_cell (el det : Z) : Z := quantl 29 1 (if el >=? 0 then el else - (el + 1)) det.

Lemma threshold_exact det k : 0 ≤ det ≤ 16384 → (q6.[k] ⊠ det) ≫ 12 = threshold det k.
Proof.
  intros Hd. pose proof (table_bound q6 k 2919 ltac:(repeat constructor; lia) ltac:(lia)) as H.
  unfold threshold. rewrite mul32_id by (unfold_ints; nia). by rewrite shiftr_div by lia.
Qed.

(** In a cell below the last one the output level is off by less than the cell. *)
Lemma quant_low_accuracy el det :
  0 ≤ det ≤ 16384 → low_cell el det < 30 →
  let i := low_cell el det in
  Z.abs ((det * qm6.[quant_low el det]) `div` 32768 - el) ≤ threshold det i - threshold det (i - 1) + 1.
Proof.
  intros Hd Hi i. unfold quant_low. cbv zeta. fold (low_cell el det). fold i. fold i in Hi.
  pose proof (quantl_spec 29 1 (if el >=? 0 then el else - (el + 1)) det) as (H1 & H2 & H3).
  fold (low_cell el det) in H1, H2, H3. fold i in H1, H2, H3.
  rewrite !threshold_exact in H2, H3 by done. change (1 + Z.of_nat 29) with 30 in H3. specialize (H3 Hi).
  destruct (check_level i ltac:(lia)) as (_ & _ & L1 & L2 & L3). specialize (L2 Hi).
  assert (threshold det (i - 1) ≤ (if el >=? 0 then el else - (el + 1))) as H2'.
  { destruct (Z.eq_dec i 1) as [->|]; [|apply H2; lia].
    change (threshold det (1 - 1)) with ((0 * det) `div` 4096). rewrite Z.mul_0_l, Z.div_0_l by lia.
    rewrite Z.geb_leb. destruct (Z.leb_spec 0 el); lia. }
  clear H2. set (lev := qm6.[ilp.[i]]) in *. unfold threshold in *.
  set (q := q6.[i]) in *. set (q' := q6.[i - 1]) in *.
  assert (∀ a, (a * det) `div` 4096 = (8 * a * det) `div` 32768) as E.
  { intros a. rewrite <- (Z.div_mul_cancel_l (a * det) 4096 8) by lia. f_equal. ring. }
  assert ((q' * det) `div` 4096 ≤ (det * lev) `div` 32768 ≤ (q * det) `div` 4096) as A.
  { rewrite !E. split; apply Z.div_le_mono; nia. }
  rewrite Z.geb_leb in *. destruct (Z.leb_spec 0 el), (Z.ltb_spec el 0); try lia;
    [fold lev; lia|].
  rewrite L3. assert (- ((det * lev) `div` 32768) - 1 ≤ (det * - lev) `div` 32768 ≤ - ((det * lev) `div` 32768))
    as B by (rewrite Z.mul_opp_r; zdiv).
  lia.
Qed.

(** ** Termination *)

(** Every fetch uses up at least six of the bits that are left. *)
Lemma decode_fetch_measure s data j :
  valid_bits (bits_per_sample s) → 0 ≤ in_bits s ≤ 31 →
  let '(s', j', _) := decode_fetch s data j in
  bits_per_sample s' = bits_per_sample s ∧ 0 ≤ in_bits s' ≤ 31 ∧
  in_bits s' - 8 * j' ≤ in_bits s - 8 * j - 6.
Proof.
  intros Hb Hi. unfold decode_fetch. destruct (packed s); [|split; [done|]; lia].
  assert (6 ≤ bits_per_sample s ≤ 8) as Hb' by (unfold valid_bits in Hb; lia).
  destruct (Z.ltb_spec (in_bits s) (bits_per_sample s)); cbn [bits_per_sample in_bits];
    (split; [done|]).
  - rewrite (add32_id (in_bits s) 8), sub32_id by cint. lia.
  - rewrite sub32_id by cint. lia.
Qed.

Lemma decode_loop_total fuel s amp data j len out :
  valid_bits (bits_per_sample s) → 0 ≤ in_bits s ≤ 31 → in_bits s + 8 * (len - j) ≤ Z.of_nat fuel →
  is_Some (decode_loop fuel s amp data j len out).
Proof.
  revert s amp j out. induction fuel as [|fuel IH]; intros s amp j out Hb Hi Hf.
  - simpl. destruct (Z.ltb_spec j len); [lia|]. by eexists.
  - cbn [decode_loop]. destruct (Z.ltb_spec j len); [|by eexists].
    pose proof (decode_fetch_measure s data j Hb Hi) as H'.
    destruct (decode_fetch s data j) as [[s1 j1] c]. destruct H' as (E & Hi' & Hm).
    pose proof (decode_code_mode s1 c) as Hmode. destruct (decode_code s1 c) as [s2 o].
    destruct Hmode as (_ & _ & _ & E2 & _ & E3 & _). cbn [fst] in *.
    apply IH; rewrite ?E2, ?E3, ?E; (done || lia).
Qed.

Lemma encode_loop_total fuel s data amp j len out :
  len - j ≤ Z.of_nat fuel → is_Some (encode_loop fuel s data amp j len out).
Proof.
  revert s data j out. induction fuel as [|fuel IH]; intros s data j out Hf.
  - simpl. destruct (Z.ltb_spec j len); [lia|]. by eexists.
  - cbn [encode_loop]. destruct (Z.ltb_spec j len); [|by eexists].
    assert (∃ s' o j', encode_turn s amp j = (s', o, j') ∧ j < j') as (s' & o & j' & -> & Hj).
    { unfold encode_turn, encode_input. destruct (itu_test_mode s); [|destruct (eight_k s)];
        [..|destruct (qmf_sums _)]; destruct (encode_bands _ _ _ _); destruct (encode_store _ _);
        eexists _, _, _; (split; [done|lia]). }
    apply IH. lia.
Qed.

(** ** Calls in every mode *)

(** The state between two calls. *)
Definition coder_ok (s : G722State) : Prop :=
  g722_ok s ∧ valid_bits (bits_per_sample s) ∧ 0 ≤ in_bits s < 8 ∧ 0 ≤ out_bits s < 8.

Lemma init_coder_ok rate options : coder_ok (g722_init rate options).
Proof.
  split; [apply init_ok|]. split; [|done]. unfold g722_init, valid_bits. cbn [bits_per_sample].
  destruct (rate =? 48000), (rate =? 56000); auto.
Qed.

(** A turn of the encoder, with the samples that the mode takes. *)
Lemma encode_turn_ok s amp j : coder_ok s → Forall int16 amp →
  let '(s', out, j') := encode_turn s amp j in coder_ok s' ∧ Forall uint8 out ∧ zlen out ≤ 1 ∧ j < j'.
Proof.
  intros (Hg & Hb & Hi & Ho) Ha. unfold encode_turn. pose proof Hg as (HL & HF & _).
  assert (∀ k, int16 (amp.[k])) as Hk by (intros k; by apply rd_Forall).
  assert (∃ x xlow xhigh j', encode_input s amp j = (x, xlow, xhigh, j') ∧ length x = 24%nat ∧ Forall int16 x ∧ j < j')
    as (x & xlow & xhigh & j' & -> & Lx & Fx & Hj).
  { unfold encode_input. destruct (itu_test_mode s); [|destruct (eight_k s)]; [do 4 eexists; (split; [done|]); by split; [|split; [|lia]]..|].
    destruct (qmf_shift_ok (g_x s) (amp.[j]) (amp.[j + 1])) as (HL' & HF' & _); [done..|].
    destruct (qmf_sums _). do 4 eexists. split; [done|]. by split; [|split; [|lia]]. }
  pose proof (encode_bands_ok s x xlow xhigh Hg Lx Fx) as Hg'.
  pose proof (encode_bands_mode s x xlow xhigh) as (_ & _ & _ & Eb & _ & Ei & _ & Eo).
  destruct (encode_bands s x xlow xhigh) as [s1 code]. cbn [fst] in *. unfold encode_store.
  assert (∀ v, Forall uint8 [u8 v]) as Hu by (intros v; apply Forall_singleton, u8_range).
  destruct (packed s1).
  - assert (6 ≤ bits_per_sample s1 ≤ 8) as Hb' by (unfold valid_bits in Hb; lia).
    rewrite (add32_id (out_bits s1)) by cint. rewrite Z.geb_leb. destruct (Z.leb_spec 8 (out_bits s1 + bits_per_sample s1)).
    + rewrite sub32_id by cint. split; [|done]. unfold coder_ok. cbn [bits_per_sample in_bits out_bits]. rewrite Eb, Ei.
      split; [exact Hg'|]. split; [done|]. split; [done|]. lia.
    + split; [|split; [constructor|done]]. unfold coder_ok. cbn [bits_per_sample in_bits out_bits]. rewrite Eb, Ei.
      split; [exact Hg'|]. split; [done|]. split; [done|]. lia.
  - split; [|done]. unfold coder_ok. rewrite Eb, Ei, Eo. done.
Qed.

(** One byte per turn at most; the bytes stay inside the buffer. *)
Lemma encode_loop_ok amp len : Forall int16 amp → ∀ fuel s data j bytes, coder_ok s → Forall uint8 data →
  len - j ≤ Z.of_nat fuel → 0 ≤ bytes → bytes + Z.of_nat fuel ≤ zlen data →
  ∃ s' data' bytes', encode_loop fuel s data amp j len bytes = Some (s', data', bytes') ∧ coder_ok s' ∧
    Forall uint8 data' ∧ zlen data' = zlen data ∧ bytes ≤ bytes' ≤ zlen data.
Proof.
  intros Ha. induction fuel as [|fuel IH]; intros s data j bytes Hs Hd Hf Hb Hr.
  - simpl. destruct (Z.ltb_spec j len); [lia|]. exists s, data, bytes. split; [done|]. split; [done|]. split; [done|]. split; [done|lia].
  - cbn [encode_loop]. destruct (Z.ltb_spec j len).
    2: { exists s, data, bytes. split; [done|]. split; [done|]. split; [done|]. split; [done|lia]. }
    pose proof (encode_turn_ok s amp j Hs Ha) as Ht. destruct (encode_turn s amp j) as [[s1 out] j1].
    destruct Ht as (Hs1 & Ho & Hl & Hj). assert (zlen (store data bytes out) = zlen data) as L by (by rewrite store_length by lia).
    destruct (IH s1 (store data bytes out) j1 (bytes + zlen out)) as (s2 & data2 & b2 & E & H2 & Hd2 & L2 & Hb2);
      [done|by apply store_Forall|lia..|].
    exists s2, data2, b2. rewrite E. split; [done|]. split; [done|]. split; [done|]. split; [lia|lia].
Qed.

Lemma decode_fetch_ok s data j : coder_ok s →
  let '(s', j', _) := decode_fetch s data j in
  coder_ok s' ∧ in_bits s' - 8 * j' ≤ in_bits s - 8 * j - 6 ∧ j' ≤ j + 1.
Proof.
  intros (Hg & Hb & Hi & Ho). unfold decode_fetch. destruct (packed s); [|split; [by split|lia]].
  assert (6 ≤ bits_per_sample s ≤ 8) as Hb' by (unfold valid_bits in Hb; lia).
  destruct (Z.ltb_spec (in_bits s) (bits_per_sample s)); unfold coder_ok; cbn [bits_per_sample in_bits out_bits].
  - rewrite (add32_id (in_bits s) 8), sub32_id by cint. split; [|lia]. split; [exact Hg|]. split; [done|]. split; [lia|done].
  - rewrite sub32_id by cint. split; [|lia]. split; [exact Hg|]. split; [done|]. split; [lia|done].
Qed.

Lemma decode_code_length s code : zlen (decode_code s code).2 ≤ 2.
Proof.
  unfold decode_code. destruct (decode_bits _ _) as [[? ?] ?]. destruct (if negb (eight_k s) then _ else _). cbv zeta.
  destruct (itu_test_mode s); [done|]. destruct (eight_k s); [done|]. by destruct (qmf_sums _).
Qed.

(** Two samples for six bits at most; the samples stay inside the buffer. *)
Lemma decode_loop_ok data len : ∀ fuel s amp j n, coder_ok s → Forall int16 amp →
  j ≤ len → in_bits s + 8 * (len - j) ≤ Z.of_nat fuel → 0 ≤ n → 3 * n + in_bits s + 8 * (len - j) ≤ 3 * zlen amp →
  ∃ s' amp' n', decode_loop fuel s amp data j len n = Some (s', amp', n') ∧ coder_ok s' ∧
    Forall int16 amp' ∧ zlen amp' = zlen amp ∧ n ≤ n' ≤ zlen amp.
Proof.
  induction fuel as [|fuel IH]; intros s amp j n Hs Ha Hj Hf Hn Hr; pose proof Hs as (_ & _ & Hi & _).
  - simpl. destruct (Z.ltb_spec j len); [lia|].
    exists s, amp, n. split; [done|]. split; [done|]. split; [done|]. split; [done|lia].
  - cbn [decode_loop]. destruct (Z.ltb_spec j len).
    2: { exists s, amp, n. split; [done|]. split; [done|]. split; [done|]. split; [done|lia]. }
    pose proof (decode_fetch_ok s data j Hs) as Hft. destruct (decode_fetch s data j) as [[s1 j1] code].
    destruct Hft as ((Hg1 & Hb1 & Hi1 & Ho1) & Hm & Hj1). destruct (decode_code_ok s1 code Hg1) as [Hg2 Hout].
    pose proof (decode_code_length s1 code) as Hl. pose proof (decode_code_mode s1 code) as (_ & _ & _ & Eb & _ & Ei & _ & Eo).
    destruct (decode_code s1 code) as [s2 out]. cbn [fst snd] in *.
    assert (zlen (store amp n out) = zlen amp) as L by (by rewrite store_length by lia).
    destruct (IH s2 (store amp n out) j1 (n + zlen out)) as (s3 & amp3 & n3 & E & H3 & Ha3 & L3 & Hn3);
      [by split; [|rewrite Eb, Ei, Eo]|by apply store_Forall|rewrite ?Ei, ?L; lia..|].
    exists s3, amp3, n3. rewrite E. split; [done|]. split; [done|]. split; [done|]. split; [lia|lia].
Qed.

(** A client that encodes frame by frame, with a byte of room per sample, and one that decodes
    packet by packet, with room for two samples per six bits, those of the packet and the seven
    that may be waiting.  The results are the buffers with the numbers of elements in use. *)
Fixpoint encode_frames (s : G722State) (frames : list (list Z)) : option (G722State * list (list Z * Z)) :=
  match frames with
  | [] => Some (s, [])
  | f :: frames =>
      '(s, data, n) ← WebRtc_g722_encode s (replicate (length f) 0) f (zlen f);
      '(s, outs) ← encode_frames s frames; Some (s, (data, n) :: outs)
  end.

Definition decode_room (p : list Z) : Z := (8 * zlen p + 9) / 3.

Fixpoint decode_packets (s : G722State) (packets : list (list Z)) : option (G722State * list (list Z * Z)) :=
  match packets with
  | [] => Some (s, [])
  | p :: packets =>
      '(s, amp, n) ← WebRtc_g722_decode s (replicate (Z.to_nat (decode_room p)) 0) p (zlen p);
      '(s, outs) ← decode_packets s packets; Some (s, (amp, n) :: outs)
  end.

(** A buffer of [room] elements in the range [P], of which the ones in use are inside. *)
Definition filled (P : Z → Prop) (room : Z) (out : list Z * Z) : Prop :=
  zlen out.1 = room ∧ 0 ≤ out.2 ≤ room ∧ Forall P out.1.

Lemma encode_frames_ok s frames : coder_ok s → Forall (Forall int16) frames →
  ∃ e outs, encode_frames s frames = Some (e, outs) ∧ coder_ok e ∧ Forall2 (λ f, filled uint8 (zlen f)) frames outs.
Proof.
  intros Hs Hf. revert s Hs. induction Hf as [|f frames Hf Hfs IH]; intros s Hs; [by exists s, []|]. cbn [encode_frames].
  unfold WebRtc_g722_encode.
  destruct (encode_loop_ok f (zlen f) Hf (Z.to_nat (zlen f)) s (replicate (length f) 0) 0 0) as (s1 & data & n & -> & H1 & Hd & L & Hn);
    [done|by apply Forall_replicate|lia|lia|rewrite length_replicate; lia|].
  cbn [mbind option_bind]. destruct (IH s1 H1) as (e & outs & -> & He & Hb). cbn [mbind option_bind].
  rewrite length_replicate in L, Hn. do 2 eexists. split; [done|]. split; [done|]. constructor; [|done]. by split.
Qed.

Lemma decode_packets_ok s packets : coder_ok s →
  ∃ d outs, decode_packets s packets = Some (d, outs) ∧ coder_ok d ∧ Forall2 (λ p, filled int16 (decode_room p)) packets outs.
Proof.
  revert s. induction packets as [|p packets IH]; intros s Hs; [by exists s, []|]. cbn [decode_packets].
  unfold WebRtc_g722_decode. pose proof Hs as (_ & _ & Hi & _).
  assert (8 * zlen p + 7 ≤ 3 * decode_room p) as Hroom by (unfold decode_room; zdiv).
  destruct (decode_loop_ok p (zlen p) (Z.to_nat (in_bits s + 8 * zlen p)) s (replicate (Z.to_nat (decode_room p)) 0) 0 0)
    as (s1 & amp & n & -> & H1 & Ha & L & Hn); [done|by apply Forall_replicate|lia|lia|lia|rewrite length_replicate; lia|].
  cbn [mbind option_bind]. destruct (IH s1 H1) as (d & outs & -> & Hd & Hb). cbn [mbind option_bind].
  rewrite length_replicate in L, Hn. do 2 eexists. split; [done|]. split; [done|]. constructor; [|done]. unfold filled. cbn [fst snd]. split; [lia|]. split; [lia|done].
Qed.

(** ** Frames through both sides *)

(** A frame of samples through the interface: encoded, and the bytes decoded. *)
Definition transcode (ed : G722State * G722State) (frame : list Z)
  : option ((G722State * G722State) * list Z) :=
  let '(e, d) := ed in
  let n := zlen frame in
  match WebRtcG722_Encode e frame n (replicate (Z.to_nat (n / 2)) 0) with
  | None => None
  | Some (e, encoded, bytes) =>
      match (WebRtcG722_Decode d encoded bytes (replicate (Z.to_nat n) 0)).1 with
      | None => None
      | Some (d, decoded, _) => Some ((e, d), decoded)
      end
  end.

Lemma run_outputs d l : wideband d → length (concat (run decode_code d l).2) = (2 * length l)%nat.
Proof.
  revert d. induction l as [|c l IH]; intros d Hw; [done|]. cbn [run].
  pose proof (decode_code_out d c Hw) as Ho.
  pose proof (same_mode_wideband d _ Hw (decode_code_mode d c)) as Hw'.
  destruct (decode_code d c) as [d' o]. cbn [fst snd] in *. specialize (IH d' Hw').
  destruct (run decode_code d' l) as [d2 os]. cbn [snd concat] in *.
  simpl concat. rewrite length_app, Ho, IH. simpl. lia.
Qed.

Lemma run_mode_in d l : in_bits (run decode_code d l).1 = in_bits d.
Proof.
  revert d. induction l as [|c l IH]; intros d; [done|]. cbn [run].
  pose proof (decode_code_mode d c) as (_ & _ & _ & _ & _ & E & _).
  destruct (decode_code d c) as [d' o]. cbn [fst] in E. specialize (IH d').
  destruct (run decode_code d' l). cbn [fst] in *. congruence.
Qed.

(** One frame. *)
Lemma transcode_wide e d frame :
  same_bands e d → 0 ≤ in_bits d → Z.even (zlen frame) = true →
  ∃ e' d' out, transcode (e, d) frame = Some ((e', d'), out) ∧ length out = length frame ∧
    same_bands e' d' ∧ in_bits d' = in_bits d ∧
    e' = (run enc_pair e (pairs frame)).1 ∧ d' = (run decode_code d (run enc_pair e (pairs frame)).2).1 ∧
    out = concat (run decode_code d (run enc_pair e (pairs frame)).2).2.
Proof.
  intros HS Hin He. pose proof HS as (We & Wd & _). unfold transcode, WebRtcG722_Encode, WebRtcG722_Decode.
  assert (zlen frame = 2 * (zlen frame / 2)) as Hn by (apply Z.even_spec in He as [k E]; rewrite E; zdiv).
  set (n := zlen frame) in *.
  assert (0 ≤ n / 2) by (apply Z.div_pos; lia).
  pose proof (encode_wide e (replicate (Z.to_nat (n / 2)) 0) frame n We ltac:(lia) He
    ltac:(rewrite length_replicate; lia)) as E. cbv zeta in E.
  rewrite take_ge in E by lia. rewrite E. clear E.
  set (codes := (run enc_pair e (pairs frame)).2).
  assert (zlen codes = n / 2) as Lc.
  { unfold codes. rewrite run_length, pairs_length. rewrite Nat2Z.inj_div2. unfold n. by rewrite Z.div2_div. }
  rewrite drop_ge, app_nil_r by (rewrite length_replicate; lia).
  pose proof (decode_wide d (replicate (Z.to_nat n) 0) codes (n / 2) Wd Hin ltac:(lia)
    ltac:(rewrite length_replicate; lia)) as E. cbv zeta in E.
  rewrite take_ge in E by lia. cbn [fst]. rewrite E. clear E.
  rewrite drop_ge, app_nil_r by (rewrite length_replicate; lia).
  eexists _, _, _. split; [done|]. split.
  { rewrite run_outputs by done. lia. }
  split; [by apply same_bands_run|]. split; [apply run_mode_in|]. done.
Qed.

Fixpoint transcode_all (ed : G722State * G722State) (frames : list (list Z))
  : option ((G722State * G722State) * list Z) :=
  match frames with
  | [] => Some (ed, [])
  | f :: fs =>
      '(ed, o) ← transcode ed f; '(ed, os) ← transcode_all ed fs; Some (ed, o ++ os)
  end.

(** Encoder and decoder on one pair of samples. *)
Definition codec_step (ed : G722State * G722State) (a : Z * Z)
  : (G722State * G722State) * list Z :=
  let '(e, c) := enc_pair ed.1 a in
  let '(d, o) := decode_code ed.2 c in ((e, d), o).

Lemma run_codec e d l :
  run codec_step (e, d) l =
    let r := run enc_pair e l in let q := run decode_code d r.2 in ((r.1, q.1), q.2).
Proof.
  revert e d. induction l as [|a l IH]; intros e d; [done|]. cbn [run]. unfold codec_step at 1.
  cbn [fst snd]. destruct (enc_pair e a) as [e' c]. destruct (decode_code d c) as [d' o] eqn:E.
  rewrite IH. cbv zeta. destruct (run enc_pair e' l) as [e2 cs]. cbn [fst snd run]. rewrite E.
  by destruct (run decode_code d' cs).
Qed.

Definition codec_ok (ed : G722State * G722State) : Prop :=
  same_bands ed.1 ed.2 ∧ 0 ≤ in_bits ed.2 ∧ g722_ok ed.1 ∧ g722_ok ed.2.

Lemma codec_step_ok ed a :
  codec_ok ed → int16 a.1 ∧ int16 a.2 →
  codec_ok (codec_step ed a).1 ∧ (length (codec_step ed a).2 = 2%nat ∧ Forall int16 (codec_step ed a).2).
Proof.
  intros (HS & Hi & He & Hd) [Ha Hb]. pose proof HS as (_ & Wd & _). unfold codec_step.
  pose proof (same_bands_step ed.1 ed.2 a HS) as HS'.
  pose proof (enc_pair_ok ed.1 a He Ha Hb) as He'. destruct (enc_pair ed.1 a) as [e c]. cbn [fst snd] in *.
  destruct (decode_code_ok ed.2 c Hd) as [Hd' Ho]. pose proof (decode_code_out ed.2 c Wd) as Hl.
  destruct (decode_code_mode ed.2 c) as (_ & _ & _ & _ & _ & Ei & _).
  destruct (decode_code ed.2 c) as [d o]. cbn [fst snd] in *.
  split; [|done]. split; [done|]. cbn [fst snd]. split; [lia|done].
Qed.

(** A frame is the run over its pairs of samples. *)
Lemma transcode_run ed frame :
  codec_ok ed → Z.even (zlen frame) = true →
  transcode ed frame = Some ((run codec_step ed (pairs frame)).1, concat (run codec_step ed (pairs frame)).2).
Proof.
  destruct ed as [e d]. intros (HS & Hi & _) Hev. cbn [fst snd] in *. rewrite run_codec. cbv zeta. cbn [fst snd].
  destruct (transcode_wide e d frame HS Hi Hev) as (e' & d' & out & -> & _ & _ & _ & -> & -> & ->). done.
Qed.

Lemma codec_run_ok ed frame :
  codec_ok ed → Forall int16 frame →
  codec_ok (run codec_step ed (pairs frame)).1 ∧
  Forall (λ o, length o = 2%nat ∧ Forall int16 o) (run codec_step ed (pairs frame)).2.
Proof.
  intros H Hf. apply (run_inv codec_step codec_ok (λ a, int16 a.1 ∧ int16 a.2)); [|done|by apply pairs_Forall].
  intros s x Hs Hx. by apply codec_step_ok.
Qed.

Lemma even_nat (l : list Z) : Z.even (zlen l) = true → Nat.Even (length l).
Proof. intros H. apply Z.even_spec in H as [k Hk]. exists (Z.to_nat k). lia. Qed.

Definition audio_frame (f : list Z) : Prop := Z.even (zlen f) = true ∧ Forall int16 f.

(** Splitting the signal into frames changes nothing. *)
Lemma transcode_all_run ed frames :
  codec_ok ed → Forall audio_frame frames →
  transcode_all ed frames =
    Some ((run codec_step ed (pairs (concat frames))).1, concat (run codec_step ed (pairs (concat frames))).2).
Proof.
  intros H Hf. revert ed H. induction Hf as [|f fs [He Hf] Hfs IH]; intros ed H; [done|].
  cbn [transcode_all]. simpl concat. rewrite transcode_run by done. cbn [mbind option_bind fst snd].
  rewrite pairs_app by (by apply even_nat). rewrite run_app.
  destruct (codec_run_ok ed f H Hf) as [H1 _]. destruct (run codec_step ed (pairs f)) as [ed1 o1].
  cbn [fst snd] in *. rewrite IH by done. cbn [mbind option_bind].
  destruct (run codec_step ed1 (pairs (concat fs))) as [ed2 o2]. cbn [fst snd]. by rewrite concat_app.
Qed.

Lemma concat_pairs_out (os : list (list Z)) :
  Forall (λ o, length o = 2%nat ∧ Forall int16 o) os →
  length (concat os) = (2 * length os)%nat ∧ Forall int16 (concat os).
Proof.
  induction 1 as [|o os [HL HF] _ [IH1 IH2]]; [split; [done|constructor]|]. simpl concat.
  rewrite length_app, HL, IH1. split; [simpl; lia|]. by apply Forall_app.
Qed.

Lemma init_codec_ok : codec_ok (g722_init 64000 2, g722_init 64000 2).
Proof.
  assert (wideband (g722_init 64000 2)) as Hw by (repeat split; by right; right).
  split; [by do 2 (split; [exact Hw|])|]. split; [done|]. split; apply init_ok.
Qed.

(** * Properties *)

(** C22: the decoder follows the encoder.  After any sequence of frames of an even number
    of samples, the two predictor states of the decoder are those of the encoder.  The
    calls terminate, return one byte for two samples and as many samples as were encoded,
    and the result does not depend on how the signal is divided into frames. *)
Theorem g722_decoder_tracks frames :
  Forall audio_frame frames →
  ∃ e0 e d out, WebRtcG722_EncoderInit false true = (0, Some e0) ∧
    transcode_all (e0, WebRtcG722_DecoderInit) frames = Some ((e, d), out) ∧
    transcode (e0, WebRtcG722_DecoderInit) (concat frames) = Some ((e, d), out) ∧
    band0 d = band0 e ∧ band1 d = band1 e ∧
    length out = length (concat frames) ∧ Forall int16 out.
Proof.
  intros Hf. exists (g722_init 64000 2). unfold WebRtcG722_DecoderInit, WebRtc_g722_decode_init.
  pose proof init_codec_ok as H0. rewrite transcode_all_run by done.
  assert (audio_frame (concat frames)) as [He Hi].
  { induction Hf as [|f fs [H1 H2] _ [IH1 IH2]]; [by split; [|constructor]|]. simpl concat. split.
    - rewrite length_app, Nat2Z.inj_add, Z.even_add, H1, IH1. done.
    - by apply Forall_app. }
  rewrite transcode_run by done.
  destruct (codec_run_ok _ (concat frames) H0 Hi) as [((_ & _ & _ & E0 & E1) & _) Ho].
  apply concat_pairs_out in Ho as [HL HI].
  pose proof (run_length codec_step (g722_init 64000 2, g722_init 64000 2) (pairs (concat frames))) as HR.
  destruct (run codec_step _ _) as [[e d] os]. cbn [fst snd] in *.
  exists e, d, (concat os). do 3 (split; [done|]). do 2 (split; [done|]). split; [|done].
  rewrite HL, HR, pairs_length. apply even_nat in He as [k ->]. rewrite Nat.div2_double. lia.
Qed.

Lemma g722_decoder_tracks_witness :
  ∃ e0 e d out, WebRtcG722_EncoderInit false true = (0, Some e0) ∧
    transcode_all (e0, WebRtcG722_DecoderInit) [[1000; 2000]; [-3000; 4000; 32767; -32768]] = Some ((e, d), out) ∧
    band0 d = band0 e ∧ length out = 6%nat.
Proof.
  destruct (g722_decoder_tracks [[1000; 2000]; [-3000; 4000; 32767; -32768]])
    as (e0 & e & d & out & H1 & H2 & _ & H3 & _ & H4 & _).
  { repeat apply Forall_cons_2; try constructor; try done; repeat apply Forall_cons_2; try constructor; cint. }
  by exists e0, e, d, out.
Defined.

(** C28: ranges.  Whatever the rate and the options, 8 kHz or wideband, packed or not: an encoder
    that is initialised and called on any sequence of frames of 16-bit samples (of even length in
    the wideband mode, whose turns take two samples) returns from every call, with no more bytes
    than there were samples; a decoder on any sequence of packets of bytes returns from every
    call, with 16-bit samples, two for six bits at most.  Both states keep their ranges: 16-bit
    signals, pole coefficients inside the stability triangle, scale factors in 32 .. 16384 and
    8 .. 16384, and fewer than eight bits waiting to be packed or unpacked. *)
Theorem g722_state_ranges rate options frames packets :
  let s0 := g722_init rate options in
  Forall (λ f, Forall int16 f ∧ (eight_k s0 = true ∨ Z.even (zlen f) = true)) frames → Forall (Forall uint8) packets →
  (∃ e outs, encode_frames s0 frames = Some (e, outs) ∧ coder_ok e ∧ Forall2 (λ f, filled uint8 (zlen f)) frames outs) ∧
  (∃ d outs, decode_packets s0 packets = Some (d, outs) ∧ coder_ok d ∧
     Forall2 (λ p, filled int16 (decode_room p)) packets outs).
Proof.
  intros s0 Hf Hp. assert (coder_ok s0) as H0 by apply init_coder_ok. split; [|by apply decode_packets_ok].
  apply encode_frames_ok; [done|]. eapply list.Forall_impl; [exact Hf|]. by intros f [H _].
Qed.

Lemma g722_state_ranges_witness :
  let s0 := g722_init 56000 3 in let frames := [[32767; -32768; 5]; [7]] in let packets := [[255; 0; 17]] in
  (∃ e outs, encode_frames s0 frames = Some (e, outs) ∧ coder_ok e ∧ Forall2 (λ f, filled uint8 (zlen f)) frames outs) ∧
  (∃ d outs, decode_packets s0 packets = Some (d, outs) ∧ coder_ok d ∧
     Forall2 (λ p, filled int16 (decode_room p)) packets outs).
Proof.
  apply (g722_state_ranges 56000 3 [[32767; -32768; 5]; [7]] [[255; 0; 17]]).
  - repeat apply Forall_cons_2; try constructor; try (by left); repeat apply Forall_cons_2; try constructor; cint.
  - repeat apply Forall_cons_2; try constructor; cint.
Defined.

(** Predictor update.  On every state within the ranges and for every quantised
    difference, block 4 of the encoder and of the decoder is the G.722 update in
    unbounded integers ([ideal_update]: no intermediate result overflows), and keeps the
    ranges. *)
Lemma block4_refines lim lo bd dq :
  band_ok lim lo bd → int16 dq →
  block4_enc bd dq = block4_dec bd dq ∧
  ideal_update bd (block4_dec bd dq) dq ∧ band_ok lim lo (block4_dec bd dq).
Proof.
  intros H Hq. split; [apply block4_enc_dec|]. by destruct (block4_update lim lo bd dq H Hq).
Qed.

Lemma block4_refines_witness : ideal_update (g722_zero_band 32) (block4_dec (g722_zero_band 32) (-500)) (-500).
Proof.
  apply (block4_refines 18432 32); [|cint]. exact (proj1 (proj2 (proj2 (init_ok 64000 2)))).
Defined.

(** Narrow-band round trip at 64 kbit/s.  In the 8 kHz mode a sample that is encoded
    and decoded differs from the original by at most twice the width of the quantiser
    cell plus three, unless the difference signal saturates or falls in the outermost
    cell; the low-band predictors stay equal in any case. *)
Lemma g722_narrow_band_error e d a :
  g722_ok e → band0 d = band0 e → int16 a →
  itu_test_mode d = false → eight_k e = true → eight_k d = true →
  bits_per_sample e = 8 → bits_per_sample d = 8 →
  let '(e', code) := encode_bands e (g_x e) (a ≫ 1) 0 in
  let '(d', out) := decode_code d code in
  let det := bd_det (band0 e) in
  let el := (a ≫ 1) - bd_s (band0 e) in
  let i := low_cell el det in
  band0 d' = band0 e' ∧
  (int16 el → i < 30 →
   ∃ v, out = [v] ∧ Z.abs (v - a) ≤ 2 * (threshold det i - threshold det (i - 1)) + 3).
Proof.
  intros (_ & _ & Hok & _) Hb Ha Hitu H8e H8d Hbe Hbd.
  unfold encode_bands. rewrite H8e, Hbe. cbv zeta. unfold decode_code. rewrite Hbd, Hitu, H8d, Hb.
  pose proof (bok_det _ _ _ Hok) as Hdet. pose proof (bok_s _ _ _ Hok) as Hs.
  set (bd := band0 e) in *.
  assert (-16384 ≤ a ≫ 1 ≤ 16383) as Hx
    by (unfold int16 in Ha; rewrite shiftr_div by lia; change (2 ^ 1) with 2; zdiv).
  rewrite (sub32_id (a ≫ 1)) by (unfold int16 in Hs; cint).
  pose proof (quant_low_range (saturate ((a ≫ 1) - bd_s bd)) (bd_det bd)) as Hl.
  set (ilow := quant_low _ _) in *.
  destruct (decode_bits_code 8 ilow 3) as [_ Hd]; [by right; right|lia..|].
  change (shl32 3 6) with 0xC0 in Hd. change (8 - 8) with 0 in *. rewrite Hd.
  cbn [negb fst snd band0]. split; [by unfold adapt_low; rewrite block4_enc_dec|].
  intros Hel Hi. eexists. split; [done|].
  unfold low_level. simpl Z.eqb. cbv iota. unfold decode_low. rewrite limit15_clamp.
  unfold ilow. replace (saturate ((a ≫ 1) - bd_s bd)) with ((a ≫ 1) - bd_s bd)
    by (symmetry; rewrite saturate_clamp; by apply clamp_id).
  pose proof (quant_low_accuracy ((a ≫ 1) - bd_s bd) (bd_det bd) ltac:(lia) Hi) as Hacc. cbv zeta in Hacc.
  pose proof (table_bound qm6 (quant_low ((a ≫ 1) - bd_s bd) (bd_det bd)) 24808
    ltac:(repeat constructor; lia) ltac:(lia)) as Hq.
  destruct (scaled_level (bd_det bd) (qm6.[quant_low ((a ≫ 1) - bd_s bd) (bd_det bd)])) as [E HB]; [lia..|].
  rewrite E. set (dq := (_ * _) `div` 32768) in *. clearbody dq. clear E Hq Hd Hl.
  set (w := threshold _ _ - threshold _ _) in *. clearbody w.
  unfold int16 in *. rewrite add32_id by cint. unfold shl32. rewrite shiftl_mul by lia. change (2 ^ 1) with 2.
  set (r := clamp (-16384) 16383 (bd_s bd + dq)).
  assert (-16384 ≤ r ≤ 16383 ∧ Z.abs (r - (a ≫ 1)) ≤ w + 1) as [Hr1 Hr2] by (unfold r, clamp; lia).
  clearbody r. rewrite s32_id, s16_id by cint.
  assert (a = 2 * (a ≫ 1) ∨ a = 2 * (a ≫ 1) + 1) as Hpar
    by (rewrite shiftr_div by lia; change (2 ^ 1) with 2; zdiv).
  lia.
Qed.

Lemma g722_narrow_band_error_witness :
  let s := g722_init 64000 1 in
  let '(e', code) := encode_bands s (g_x s) (20 ≫ 1) 0 in
  let '(d', out) := decode_code s code in
  band0 d' = band0 e' ∧ ∃ v, out = [v] ∧ Z.abs (v - 20) ≤ 5.
Proof.
  intros s. pose proof (g722_narrow_band_error s s 20 (init_ok 64000 1)) as H.
  specialize (H eq_refl ltac:(cint) eq_refl eq_refl eq_refl eq_refl eq_refl).
  destruct (encode_bands s (g_x s) (20 ≫ 1) 0) as [e' code]. destruct (decode_code s code) as [d' out].
  destruct H as [H1 H2]. split; [exact H1|].
  destruct H2 as (v & -> & Hv); [vm_compute; split; congruence|vm_compute; congruence|].
  exists v. split; [done|]. etransitivity; [exact Hv|]. vm_compute. congruence.
Defined.

(** C31: termination.  In every mode, packed or not, and for all data, the loop of the
    decoder over the bytes and the loop of the encoder over the samples finish within the
    given number of turns, provided that at most 31 bits are waiting in the input
    buffer. *)
Theorem g722_terminates s amp data len :
  valid_bits (bits_per_sample s) → 0 ≤ in_bits s ≤ 31 → 0 ≤ len →
  is_Some (WebRtc_g722_decode s amp data len) ∧ is_Some (WebRtc_g722_encode s data amp len).
Proof.
  intros Hb Hi Hl. split; [apply decode_loop_total|apply encode_loop_total]; (done || lia).
Qed.

Lemma g722_terminates_witness :
  is_Some (WebRtc_g722_decode (g722_init 56000 2) (replicate 8 0) [1; 2; 3] 3).
Proof. apply (g722_terminates (g722_init 56000 2) (replicate 8 0) [1; 2; 3] 3);
  [by right; left|vm_compute; split; congruence|lia]. Defined.
