(* ===== verification/BitStream.v ===== *)
(** Reading and writing of bit fields: rtc_base/bit_buffer.cc (class [BitBufferWriter]) and
    rtc_base/bitstream_reader.h and .cc (class [BitstreamReader]).

    An object is the record of its data members, a method takes the object and returns it
    with the result.  The array the writer points to is part of its record.  The reader
    keeps a pointer into its array, modelled by an index, and the number of bits left,
    which is negative after a failed read.  [absl::bit_width], a library function, is the
    class [BitWidth].  The theorems relate both classes to a sequence of bits and show that
    whatever is written can be read back. *)
From S2P Require Import Prelude.

(** * Definitions *)

(** [absl::bit_width]: the number of bits needed for a positive number. *)
Class BitWidth := {
  bit_width : Z → Z;
  bit_width_spec x : 0 < x → bit_width x = Z.log2 x + 1;
}.

(** ** BitBufferWriter *)

Record BitBufferWriter : Type := MkWriter {
  writable_bytes : list Z; byte_count : Z; byte_offset : Z; bit_offset : Z;
}.

Definition HighestByte (val : Z) : Z := u8 (val ≫ 56).

Definition WritePartialByte (source source_bit_count target target_bit_offset : Z) : Z :=
  let mask := u8 (0xFF ≪ (8 - source_bit_count)) ≫ target_bit_offset in
  u8 (Z.lor (Z.land target (Z.lnot mask)) (source ≫ target_bit_offset)).

Definition NewWriter (bytes : list Z) (byte_count : Z) : BitBufferWriter :=
  MkWriter bytes byte_count 0 0.

Definition w_RemainingBitCount (w : BitBufferWriter) : Z :=
  u64 ((byte_count w - byte_offset w) * 8 - bit_offset w).

Definition w_ConsumeBits (w : BitBufferWriter) (bit_count : Z) : BitBufferWriter * bool :=
  if bit_count >? w_RemainingBitCount w then (w, false)
  else
    (MkWriter (writable_bytes w) (byte_count w)
       (u64 (byte_offset w + u64 (bit_offset w + bit_count) `div` 8))
       (u64 (bit_offset w + bit_count) `mod` 8), true).

Definition ConsumeBytes (w : BitBufferWriter) (count : Z) : BitBufferWriter * bool :=
  w_ConsumeBits w (u64 (count * 8)).

Definition GetCurrentOffset (w : BitBufferWriter) : Z * Z := (byte_offset w, bit_offset w).

Definition Seek (w : BitBufferWriter) (byte_off bit_off : Z) : BitBufferWriter * bool :=
  if (byte_off >? byte_count w) || (bit_off >? 7) ||
     ((byte_off =? byte_count w) && (bit_off >? 0))
  then (w, false)
  else (MkWriter (writable_bytes w) (byte_count w) byte_off bit_off, true).

(** [while (bit_count >= 8)], [n] turns: [(bytes, index, val)]. *)
Definition write_full_bytes (n : nat) (s : list Z * Z * Z) : list Z * Z * Z :=
  Nat.iter n (λ '(bytes, i, val), (wr bytes i (HighestByte val), i + 1, u64 (val ≪ 8))) s.

Definition WriteBits (w : BitBufferWriter) (val bit_count : Z) : BitBufferWriter * bool :=
  if bit_count >? w_RemainingBitCount w then (w, false)
  else
    let total_bits := bit_count in
    let val := u64 (val ≪ (64 - bit_count)) in
    let i := byte_offset w in
    let remaining_bits_in_current_byte := 8 - bit_offset w in
    let bits_in_first_byte := Z.min bit_count remaining_bits_in_current_byte in
    let bytes := wr (writable_bytes w) i
      (WritePartialByte (HighestByte val) bits_in_first_byte ((writable_bytes w).[i])
         (bit_offset w)) in
    let set b := MkWriter b (byte_count w) (byte_offset w) (bit_offset w) in
    if bit_count <=? remaining_bits_in_current_byte then w_ConsumeBits (set bytes) total_bits
    else
      let val := u64 (val ≪ bits_in_first_byte) in
      let i := i + 1 in
      let bit_count := bit_count - bits_in_first_byte in
      let '(bytes, i, val) := write_full_bytes (Z.to_nat (bit_count `div` 8)) (bytes, i, val) in
      let bit_count := bit_count `mod` 8 in
      let bytes :=
        if bit_count >? 0
        then wr bytes i (WritePartialByte (HighestByte val) bit_count (bytes.[i]) 0)
        else bytes in
      w_ConsumeBits (set bytes) total_bits.

Definition WriteUInt8 (w : BitBufferWriter) (val : Z) : BitBufferWriter * bool := WriteBits w val 8.
Definition WriteUInt16 (w : BitBufferWriter) (val : Z) : BitBufferWriter * bool := WriteBits w val 16.
Definition WriteUInt32 (w : BitBufferWriter) (val : Z) : BitBufferWriter * bool := WriteBits w val 32.

Section golomb.
Context `{BitWidth}.

Definition WriteNonSymmetric (w : BitBufferWriter) (val num_values : Z) : BitBufferWriter * bool :=
  if num_values =? 1 then (w, true)
  else
    let count_bits := bit_width num_values in
    let num_min_bits_values := u32 (u32 (1 ≪ count_bits) - num_values) in
    if val <? num_min_bits_values then WriteBits w val (count_bits - 1)
    else WriteBits w (u32 (val + num_min_bits_values)) count_bits.

Definition SizeNonSymmetricBits (val num_values : Z) : Z :=
  let count_bits := bit_width num_values in
  let num_min_bits_values := u32 (u32 (1 ≪ count_bits) - num_values) in
  if val <? num_min_bits_values then count_bits - 1 else count_bits.

Definition WriteExponentialGolomb (w : BitBufferWriter) (val : Z) : BitBufferWriter * bool :=
  if val =? 4294967295 then (w, false)
  else
    let val_to_encode := val + 1 in
    WriteBits w val_to_encode (bit_width val_to_encode * 2 - 1).

Definition WriteSignedExponentialGolomb (w : BitBufferWriter) (val : Z)
  : BitBufferWriter * bool :=
  if val =? 0 then WriteExponentialGolomb w 0
  else if val >? 0 then WriteExponentialGolomb w (u32 (val * 2 - 1))
  else if val =? INT32_MIN then (w, false)
  else WriteExponentialGolomb w (u32 (- val * 2)).
End golomb.

(** [do ... while (val > 0)]: a [uint64_t] has at most ten groups of seven bits, [fuel]
    turns after the first. *)
Fixpoint write_leb (fuel : nat) (w : BitBufferWriter) (val : Z) (success : bool)
  : BitBufferWriter * bool :=
  let byte := Z.land val 0x7f in
  let val := val ≫ 7 in
  let byte := if val >? 0 then Z.lor byte 0x80 else byte in
  let '(w, ok) := WriteUInt8 w byte in
  let success := success && ok in
  if val >? 0 then match fuel with O => (w, success) | S fuel => write_leb fuel w val success end
  else (w, success).
Definition WriteLeb128 (w : BitBufferWriter) (val : Z) : BitBufferWriter * bool :=
  write_leb 9 w val true.

Definition WriteString (w : BitBufferWriter) (data : list Z) : BitBufferWriter * bool :=
  foldl (λ '(w, success) c, let '(w, ok) := WriteUInt8 w (u8 c) in (w, success && ok)) (w, true) data.

(** ** BitstreamReader *)

Record BitstreamReader : Type := MkReader {
  r_bytes : list Z; r_index : Z; remaining_bits : Z;
}.

Definition NewReader (bytes : list Z) : BitstreamReader := MkReader bytes 0 (zlen bytes * 8).

Definition r_RemainingBitCount (r : BitstreamReader) : Z := remaining_bits r.
Definition Ok (r : BitstreamReader) : bool := r_RemainingBitCount r >=? 0.
Definition Invalidate (r : BitstreamReader) : BitstreamReader := MkReader (r_bytes r) (r_index r) (-1).

(** [while (bits >= 8)], [n] turns: [(result, index, bits)]. *)
Definition read_full_bytes (n : nat) (bytes : list Z) (s : Z * Z * Z) : Z * Z * Z :=
  Nat.iter n (λ '(result, i, bits),
    (Z.lor result (u64 (bytes.[i] ≪ (bits - 8))), i + 1, bits - 8)) s.

Definition ReadBits (r : BitstreamReader) (bits : Z) : BitstreamReader * Z :=
  if remaining_bits r <? bits then (Invalidate r, 0)
  else
    let remaining_bits_in_first_byte := remaining_bits r `mod` 8 in
    let remaining := remaining_bits r - bits in
    let i := r_index r in
    let b := r_bytes r in
    if bits <? remaining_bits_in_first_byte then
      let offset := remaining_bits_in_first_byte - bits in
      (MkReader b i remaining, Z.land (b.[i] ≫ offset) ((1 ≪ bits) - 1))
    else
      let '(result, i, bits) :=
        if remaining_bits_in_first_byte >? 0 then
          let bits := bits - remaining_bits_in_first_byte in
          let mask := u8 ((1 ≪ remaining_bits_in_first_byte) - 1) in
          (u64 (Z.land (b.[i]) mask ≪ bits), i + 1, bits)
        else (0, i, bits) in
      let '(result, i, bits) := read_full_bytes (Z.to_nat (bits `div` 8)) b (result, i, bits) in
      let result := if bits >? 0 then Z.lor result (b.[i] ≫ (8 - bits)) else result in
      (MkReader b i remaining, result).

Definition ReadBit (r : BitstreamReader) : BitstreamReader * Z :=
  if remaining_bits r <=? 0 then (Invalidate r, 0)
  else
    let remaining := remaining_bits r - 1 in
    let bit_position := remaining `mod` 8 in
    let b := (r_bytes r).[r_index r] in
    if bit_position =? 0 then (MkReader (r_bytes r) (r_index r + 1) remaining, Z.land b 0x01)
    else (MkReader (r_bytes r) (r_index r) remaining, Z.land (b ≫ bit_position) 0x01).

Definition r_ConsumeBits (r : BitstreamReader) (bits : Z) : BitstreamReader :=
  if remaining_bits r <? bits then Invalidate r
  else
    let remaining_bytes := (remaining_bits r + 7) `div` 8 in
    let remaining := remaining_bits r - bits in
    let new_remaining_bytes := (remaining + 7) `div` 8 in
    MkReader (r_bytes r) (r_index r + (remaining_bytes - new_remaining_bytes)) remaining.

Definition ReadNonSymmetric `{BitWidth} (r : BitstreamReader) (num_values : Z)
  : BitstreamReader * Z :=
  let width := bit_width num_values in
  let num_min_bits_values := u32 (u32 (1 ≪ width) - num_values) in
  let '(r, val) := ReadBits r (width - 1) in
  if val <? num_min_bits_values then (r, u32 val)
  else let '(r, b) := ReadBit r in (r, u32 (u64 (val ≪ 1) + b - num_min_bits_values)).

(** The loop that counts zeros; [rest] is 31 minus [zero_bit_count]. *)
Fixpoint count_zeros (rest : nat) (zero_bit_count : Z) (r : BitstreamReader)
  : BitstreamReader * option Z :=
  let '(r, b) := ReadBit r in
  if b =? 0 then
    match rest with
    | O => (Invalidate r, None)
    | S rest => count_zeros rest (zero_bit_count + 1) r
    end
  else (r, Some zero_bit_count).

Definition ReadExponentialGolomb (r : BitstreamReader) : BitstreamReader * Z :=
  let '(r, z) := count_zeros 31 0 r in
  match z with
  | None => (r, 0)
  | Some z => let '(r, v) := ReadBits r z in (r, u32 (u32 (1 ≪ z) + u32 v - 1))
  end.

Definition ReadSignedExponentialGolomb (r : BitstreamReader) : BitstreamReader * Z :=
  let '(r, unsigned_val) := ReadExponentialGolomb r in
  if Z.land unsigned_val 1 =? 0 then (r, - s32 (unsigned_val `div` 2))
  else (r, s32 (u32 (unsigned_val + 1) `div` 2)).

(** [do ... while (i < 10 && (byte & 0x80))], [rest] turns after this one:
    the reader, [i], [byte] and [decoded]. *)
Fixpoint read_leb (rest : nat) (r : BitstreamReader) (i decoded : Z)
  : BitstreamReader * Z * Z * Z :=
  let '(r, byte) := ReadBits r 8 in
  let decoded := u64 (decoded + u64 (Z.land byte 0x7f ≪ (7 * i))) in
  let i := i + 1 in
  match rest with
  | O => (r, i, byte, decoded)
  | S rest => if negb (Z.land byte 0x80 =? 0) then read_leb rest r i decoded
              else (r, i, byte, decoded)
  end.

Definition ReadLeb128 (r : BitstreamReader) : BitstreamReader * Z :=
  let '(r, i, byte, decoded) := read_leb 9 r 0 0 in
  let r := if (i =? 10) && (byte >? 1) then Invalidate r else r in
  (r, if Ok r then decoded else 0).

(** [Read<uint8_t>] for each byte. *)
Definition ReadString (r : BitstreamReader) (num_bytes : Z) : BitstreamReader * list Z :=
  let '(r, res) := for_up 0 (Z.to_nat num_bytes) (λ _ '(r, res),
    let '(r, c) := ReadBits r 8 in (r, res ++ [c])) (r, []) in
  (r, if Ok r then res else []).

(** * Bits of an array *)

(** Bit [q] of an array, counting from the most significant bit of its first byte. *)
Definition bit (d : list Z) (q : Z) : bool := Z.testbit (d.[q `div` 8]) (7 - q `mod` 8).

(** [d'] is [d] with the [n] bits from [p] on replaced by [f 0], [f 1], ... *)
Definition patched (d d' : list Z) (p n : Z) (f : Z → bool) : Prop :=
  length d' = length d ∧ Forall uint8 d' ∧
  ∀ q, 0 ≤ q < 8 * zlen d →
    bit d' q = if (p <=? q) && (q <? p + n) then f (q - p) else bit d q.

(** Bit [i] of a 64-bit number, counting from the most significant one. *)
Definition top (v i : Z) : bool := Z.testbit v (63 - i).

Lemma testbit_u8 x i : Z.testbit (u8 x) i = (i <? 8) && Z.testbit x i.
Proof.
  unfold u8. change 256 with (2 ^ 8). destruct (Z.ltb_spec i 8); simpl;
    [apply Z.mod_pow2_bits_low | apply Z.mod_pow2_bits_high]; lia.
Qed.

Lemma testbit_u64 x i : Z.testbit (u64 x) i = (i <? 64) && Z.testbit x i.
Proof.
  unfold u64. change 18446744073709551616 with (2 ^ 64). destruct (Z.ltb_spec i 64); simpl;
    [apply Z.mod_pow2_bits_low | apply Z.mod_pow2_bits_high]; lia.
Qed.

Lemma testbit_uint8_high b i : uint8 b → 8 ≤ i → Z.testbit b i = false.
Proof.
  intros Hb Hi. rewrite <-(u8_id b Hb), testbit_u8.
  by replace (i <? 8) with false by (symmetry; apply Z.ltb_ge; lia).
Qed.

Lemma bits_inj_below (a b : Z) n :
  0 ≤ a < 2 ^ n → 0 ≤ b < 2 ^ n → (∀ i, 0 ≤ i < n → Z.testbit a i = Z.testbit b i) → a = b.
Proof.
  intros Ha Hb E. apply Z.bits_inj'. intros i Hi. destruct (Z.ltb_spec i n); [apply E; lia|].
  assert (0 ≤ n) by (destruct (Z.leb_spec 0 n); [done|]; rewrite Z.pow_neg_r in Ha; lia).
  rewrite <-(Z.mod_small a (2 ^ n)), <-(Z.mod_small b (2 ^ n)) by lia.
  by rewrite !Z.mod_pow2_bits_high by lia.
Qed.

Lemma top_shift v s i : 0 ≤ s → 0 ≤ i → top (u64 (v ≪ s)) i = Z.testbit v (63 - i - s).
Proof.
  intros Hs Hi. unfold top. rewrite testbit_u64.
  replace (63 - i <? 64) with true by (symmetry; apply Z.ltb_lt; lia). simpl.
  destruct (Z.leb_spec 0 (63 - i)); [by apply Z.shiftl_spec|].
  by rewrite !Z.testbit_neg_r by lia.
Qed.

Lemma HighestByte_bit v i : 0 ≤ i < 8 → Z.testbit (HighestByte v) (7 - i) = top v i.
Proof.
  intros Hi. unfold HighestByte, top. rewrite testbit_u8.
  replace (7 - i <? 8) with true by (symmetry; apply Z.ltb_lt; lia). simpl.
  rewrite Z.shiftr_spec by lia. f_equal. lia.
Qed.

Lemma WritePartialByte_bit src cnt tgt off i :
  0 ≤ off → 0 ≤ cnt → off + cnt ≤ 8 → 0 ≤ i < 8 →
  Z.testbit (WritePartialByte src cnt tgt off) (7 - i) =
    (Z.testbit tgt (7 - i) && negb ((off <=? i) && (i <? off + cnt))) ||
    Z.testbit src (7 - i + off).
Proof.
  intros Ho Hc Hoc Hi. unfold WritePartialByte. rewrite testbit_u8.
  replace (7 - i <? 8) with true by (symmetry; apply Z.ltb_lt; lia). simpl.
  rewrite Z.lor_spec, Z.land_spec, Z.lnot_spec, !Z.shiftr_spec, testbit_u8 by lia.
  f_equal. f_equal. f_equal.
  change 0xFF with (Z.ones 8). rewrite Z.shiftl_spec by lia.
  rewrite Z.testbit_ones by lia.
  apply eq_bool_prop_intro. rewrite !andb_True, !Is_true_true, !Z.ltb_lt, !Z.leb_le. lia.
Qed.

Lemma wr_bit d i b q : 0 ≤ i < zlen d → 0 ≤ q →
  bit (wr d i b) q = if q `div` 8 =? i then Z.testbit b (7 - q `mod` 8) else bit d q.
Proof.
  intros Hi Hq. unfold bit. destruct (Z.eqb_spec (q `div` 8) i) as [->|].
  - by rewrite rd_wr_eq.
  - by rewrite rd_wr_ne by done.
Qed.

Lemma patched_trans d d1 d2 p n m f g :
  0 ≤ n → 0 ≤ m → patched d d1 p n f → patched d1 d2 (p + n) m g →
  (∀ i, 0 ≤ i < m → g i = f (n + i)) → patched d d2 p (n + m) f.
Proof.
  intros Hn Hm (L1 & U1 & B1) (L2 & U2 & B2) Hg. repeat split; [congruence|done|].
  intros q Hq. rewrite B2 by (rewrite L1; done). rewrite (B1 q Hq).
  destruct_cmp; try lia; try done.
  rewrite Hg by lia. f_equal. lia.
Qed.

Lemma patched_len d d' p n f : patched d d' p n f → zlen d' = zlen d.
Proof. intros (L & _). by rewrite L. Qed.

Lemma patched_uint8 d d' p n f : patched d d' p n f → Forall uint8 d'.
Proof. by intros (_ & U & _). Qed.

Lemma patched_ext d d' p n f g :
  (∀ i, 0 ≤ i < n → f i = g i) → patched d d' p n f → patched d d' p n g.
Proof.
  intros E (L & U & B). repeat split; [done..|]. intros q Hq. rewrite B by done.
  destruct_cmp; try done. apply E. lia.
Qed.

(** Some bits of a byte are replaced. *)
Lemma WritePartialByte_patched d i src cnt off f :
  Forall uint8 d → 0 ≤ i < zlen d → 0 ≤ off → 0 ≤ cnt → off + cnt ≤ 8 →
  (∀ k, 0 ≤ k < 8 - off → Z.testbit src (7 - k) = (k <? cnt) && f k) → uint8 src →
  patched d (wr d i (WritePartialByte src cnt (d.[i]) off)) (8 * i + off) cnt f.
Proof.
  intros Hd Hi Ho Hc Hoc Hs Hsrc. split; [by rewrite wr_length|split].
  - apply wr_Forall; [done|]. apply u8_range.
  - intros q Hq. rewrite wr_bit by lia.
    assert (q = 8 * (q `div` 8) + q `mod` 8 ∧ 0 ≤ q `mod` 8 < 8) as [Eq Hr] by zdiv.
    destruct (Z.eqb_spec (q `div` 8) i) as [E|E].
    + rewrite WritePartialByte_bit by lia. unfold bit. rewrite E.
      destruct (Z.leb_spec off (q `mod` 8)).
      * replace (7 - q `mod` 8 + off) with (7 - (q `mod` 8 - off)) by lia.
        rewrite Hs by lia. replace (q - (8 * i + off)) with (q `mod` 8 - off) by lia.
        destruct_cmp; try lia; by rewrite ?andb_false_r, ?andb_true_r, ?orb_false_r.
      * rewrite (testbit_uint8_high src) by (done || lia). rewrite orb_false_r.
        destruct_cmp; try lia; by rewrite ?andb_true_r.
    + destruct_cmp; try lia; done.
Qed.

(** A whole byte is replaced. *)
Lemma wr_byte_patched d i b f :
  Forall uint8 d → 0 ≤ i < zlen d → uint8 b →
  (∀ k, 0 ≤ k < 8 → Z.testbit b (7 - k) = f k) → patched d (wr d i b) (8 * i) 8 f.
Proof.
  intros Hd Hi Hb Hf. split; [by rewrite wr_length|split; [by apply wr_Forall|]].
  intros q Hq. rewrite wr_bit by lia.
  assert (q = 8 * (q `div` 8) + q `mod` 8 ∧ 0 ≤ q `mod` 8 < 8) as [Eq Hr] by zdiv.
  destruct_cmp; try lia; try done. rewrite Hf by lia. f_equal. lia.
Qed.

Lemma write_full_bytes_patched n d i v f :
  Forall uint8 d → 0 ≤ i → i + Z.of_nat n ≤ zlen d → (∀ k, 0 ≤ k → top v k = f k) →
  ∃ d' v', write_full_bytes n (d, i, v) = (d', i + Z.of_nat n, v') ∧
    patched d d' (8 * i) (8 * Z.of_nat n) f ∧
    ∀ k, 0 ≤ k → top v' k = f (8 * Z.of_nat n + k).
Proof.
  induction n as [|n IH]; intros Hd Hi Hn Hv.
  - exists d, v. rewrite !Z.add_0_r. split; [done|]. split; [|done].
    split; [done|split; [done|]]. intros q Hq. destruct_cmp; try lia; done.
  - destruct IH as (d' & v' & E & P & Hv'); [done|done|lia|done|].
    unfold write_full_bytes in *. simpl. rewrite E. eexists _, _. split; [f_equal; f_equal; lia|].
    pose proof (patched_len _ _ _ _ _ P). pose proof (patched_uint8 _ _ _ _ _ P).
    split.
    + replace (8 * Z.of_nat (S n)) with (8 * Z.of_nat n + 8) by lia.
      apply (patched_trans d d' _ _ _ _ _ (λ k, f (8 * Z.of_nat n + k))); [lia|lia|done| |done].
      replace (8 * i + 8 * Z.of_nat n) with (8 * (i + Z.of_nat n)) by lia.
      apply wr_byte_patched; [done|lia|apply u8_range|].
      intros k Hk. rewrite HighestByte_bit by done. apply Hv'. lia.
    + intros k Hk. rewrite top_shift by lia.
      replace (63 - k - 8) with (63 - (8 + k)) by lia. fold (top v' (8 + k)).
      rewrite Hv' by lia. f_equal. lia.
Qed.

(** ** The writer at a bit position *)

Definition writer_at (d : list Z) (p : Z) : BitBufferWriter :=
  MkWriter d (zlen d) (p `div` 8) (p `mod` 8).

(** What holds of an object on an array: bytes, no more of them than [RTC_DCHECK] allows,
    and a position inside. *)
Definition positioned (d : list Z) (p : Z) : Prop :=
  Forall uint8 d ∧ zlen d < 2 ^ 32 ∧ 0 ≤ p ≤ 8 * zlen d.

Lemma w_RemainingBitCount_at d p :
  positioned d p → w_RemainingBitCount (writer_at d p) = 8 * zlen d - p.
Proof.
  intros (_ & Hl & Hp). unfold w_RemainingBitCount. cbn [writer_at byte_count byte_offset bit_offset].
  replace ((zlen d - p `div` 8) * 8 - p `mod` 8) with (8 * zlen d - p) by zdiv.
  apply u64_id. unfold uint64. lia.
Qed.

Lemma w_ConsumeBits_at d p n : positioned d p → 0 ≤ n →
  w_ConsumeBits (writer_at d p) n =
    if p + n <=? 8 * zlen d then (writer_at d (p + n), true) else (writer_at d p, false).
Proof.
  intros Hpos Hn. unfold w_ConsumeBits. rewrite w_RemainingBitCount_at by done.
  destruct Hpos as (_ & Hl & Hp). destruct_cmp; try lia; [done|].
  unfold writer_at. cbn [writable_bytes byte_count byte_offset bit_offset]. f_equal.
  rewrite (u64_id (p `mod` 8 + n)) by (unfold uint64; zdiv).
  rewrite u64_id by (unfold uint64; zdiv). f_equal; zdiv.
Qed.

(** The bits of [WriteBits]: the [n] low bits of [val], the most significant one first. *)
Definition low_bits (val n i : Z) : bool := Z.testbit val (n - 1 - i).

Lemma top_low_bits val n i : 0 ≤ n ≤ 64 → 0 ≤ i → top (u64 (val ≪ (64 - n))) i = low_bits val n i.
Proof. intros Hn Hi. rewrite top_shift by lia. unfold low_bits. f_equal. lia. Qed.

Lemma top_next v s f i : 0 ≤ s → (∀ k, 0 ≤ k → top v k = f k) → 0 ≤ i →
  top (u64 (v ≪ s)) i = f (s + i).
Proof.
  intros Hs Hv Hi. rewrite top_shift by lia.
  replace (63 - i - s) with (63 - (s + i)) by lia. apply Hv. lia.
Qed.

Lemma low_bits_end val n i : n ≤ i → low_bits val n i = false.
Proof. intros. apply Z.testbit_neg_r. lia. Qed.

(** The last bits of [WriteBits], at the start of a byte. *)
Lemma write_last_patched d i v n f :
  Forall uint8 d → 0 ≤ i → 0 ≤ n < 8 → 8 * i + n ≤ 8 * zlen d →
  (∀ k, 0 ≤ k → top v k = f k) → (∀ k, n ≤ k → f k = false) →
  patched d (if n >? 0 then wr d i (WritePartialByte (HighestByte v) n (d.[i]) 0) else d)
    (8 * i) n f.
Proof.
  intros Hd Hi Hn Hl Hv Hf. rewrite Z.gtb_ltb. destruct (Z.ltb_spec 0 n).
  - pose proof (WritePartialByte_patched d i (HighestByte v) n 0 f) as P.
    rewrite Z.add_0_r in P. apply P; [done|lia..| |apply u8_range].
    intros k Hk. rewrite HighestByte_bit, Hv by lia. destruct_cmp; [done|]. apply Hf. lia.
  - split; [done|split; [done|]]. intros q Hq. destruct_cmp; try lia; done.
Qed.

(** What [WriteBits] does after the first byte. *)
Lemma write_rest_patched d i v n f :
  Forall uint8 d → 0 ≤ i → 0 ≤ n → 8 * i + n ≤ 8 * zlen d →
  (∀ k, 0 ≤ k → top v k = f k) → (∀ k, n ≤ k → f k = false) →
  ∃ d' i' v', write_full_bytes (Z.to_nat (n `div` 8)) (d, i, v) = (d', i', v') ∧
    patched d (if n `mod` 8 >? 0
               then wr d' i' (WritePartialByte (HighestByte v') (n `mod` 8) (d'.[i']) 0)
               else d') (8 * i) n f.
Proof.
  intros Hd Hi Hn Hl Hv Hf.
  destruct (write_full_bytes_patched (Z.to_nat (n `div` 8)) d i v f)
    as (d2 & v2 & E2 & P2 & Hv2); [done|done|zdiv|done|].
  rewrite Z2Nat.id in E2, P2, Hv2 by zdiv.
  assert (n = 8 * (n `div` 8) + n `mod` 8 ∧ 0 ≤ n `mod` 8 < 8) as [En Hr] by zdiv.
  set (m := n `div` 8) in *. set (r := n `mod` 8) in *.
  exists d2, (i + m), v2. split; [done|].
  assert (0 ≤ 8 * m ∧ 0 ≤ r) as [Hm Hr0] by lia.
  assert (patched d2 (if r >? 0 then wr d2 (i + m)
    (WritePartialByte (HighestByte v2) r (d2.[i + m]) 0) else d2) (8 * (i + m)) r
    (λ k, f (8 * m + k))) as P3.
  { apply write_last_patched; [by apply (patched_uint8 _ _ _ _ _ P2)|lia|lia| |done|].
    - rewrite (patched_len _ _ _ _ _ P2). lia.
    - intros k Hk. apply Hf. lia. }
  rewrite Z.mul_add_distr_l in P3.
  pose proof (patched_trans _ _ _ _ _ _ _ _ Hm Hr0 P2 P3 ltac:(done)) as P. by rewrite En.
Qed.

Lemma WriteBits_at d p val n : positioned d p → 1 ≤ n ≤ 64 →
  if p + n <=? 8 * zlen d
  then ∃ d', WriteBits (writer_at d p) val n = (writer_at d' (p + n), true) ∧
         patched d d' p n (low_bits val n)
  else WriteBits (writer_at d p) val n = (writer_at d p, false).
Proof.
  intros Hpos Hn. unfold WriteBits. rewrite w_RemainingBitCount_at by done.
  destruct (Z.leb_spec (p + n) (8 * zlen d)) as [Hfit|Hfit];
    [|by replace (n >? 8 * zlen d - p) with true by (symmetry; apply Z.gtb_lt; lia)].
  replace (n >? 8 * zlen d - p) with false by (symmetry; rewrite Z.gtb_ltb; apply Z.ltb_ge; lia).
  cbn [writer_at writable_bytes byte_count byte_offset bit_offset].
  pose proof Hpos as (Hu & Hl & Hp).
  assert (p = 8 * (p `div` 8) + p `mod` 8 ∧ 0 ≤ p `mod` 8 < 8) as [Ep Hr] by zdiv.
  set (o := p `mod` 8) in *. set (i0 := p `div` 8) in *.
  set (v0 := u64 (val ≪ (64 - n))). set (b1 := Z.min n (8 - o)).
  set (d1 := wr d i0 _).
  assert (∀ k, 0 ≤ k → top v0 k = low_bits val n k) as Hv0 by (intros; apply top_low_bits; lia).
  assert (patched d d1 p b1 (low_bits val n)) as P1.
  { rewrite Ep at 1. apply WritePartialByte_patched; [done|lia..| |apply u8_range].
    intros k Hk. rewrite HighestByte_bit, Hv0 by lia. destruct_cmp; [done|].
    apply low_bits_end. lia. }
  pose proof (patched_len _ _ _ _ _ P1) as L1. pose proof (patched_uint8 _ _ _ _ _ P1) as U1.
  assert (∀ d', zlen d' = zlen d → Forall uint8 d' →
    w_ConsumeBits (MkWriter d' (zlen d) i0 o) n = (writer_at d' (p + n), true)) as Hc.
  { intros d' L U. rewrite <-L. apply (eq_trans (w_ConsumeBits_at d' p n
      ltac:(unfold positioned; rewrite L; done) ltac:(lia))). rewrite L.
    by replace (p + n <=? 8 * zlen d) with true by (symmetry; apply Z.leb_le; lia). }
  destruct (Z.leb_spec n (8 - o)).
  { exists d1. split; [by apply Hc|]. replace n with b1 at 1 by lia. done. }
  destruct (write_rest_patched d1 (i0 + 1) (u64 (v0 ≪ b1)) (n - b1)
    (λ k, low_bits val n (b1 + k))) as (d2 & i2 & v2 & E2 & P2);
    [done|lia..|intros; apply top_next; (done || lia)|intros; apply low_bits_end; lia|].
  rewrite E2. pose proof (patched_len _ _ _ _ _ P2) as L2.
  pose proof (patched_uint8 _ _ _ _ _ P2) as U2.
  eexists. split; [apply Hc; [congruence|done]|].
  replace (8 * (i0 + 1)) with (p + b1) in P2 by lia.
  assert (0 ≤ b1 ∧ 0 ≤ n - b1) as [Hb1 Hnb] by lia.
  pose proof (patched_trans _ _ _ _ _ _ _ _ Hb1 Hnb P1 P2 ltac:(done)) as P.
  by replace (b1 + (n - b1)) with n in P by lia.
Qed.

(** ** The reader at a bit position *)

Definition reader_at (d : list Z) (p : Z) : BitstreamReader :=
  MkReader d (p `div` 8) (8 * zlen d - p).

(** [v] is the number whose [n] bits are those of [d] from [p] on. *)
Definition bits_value (d : list Z) (p n v : Z) : Prop :=
  ∀ j, 0 ≤ j → Z.testbit v j = (j <? n) && bit d (p + n - 1 - j).

(** The state of the reading loop: the bits from [b] up are in place. *)
Definition partial_value (d : list Z) (p n b v : Z) : Prop :=
  ∀ j, 0 ≤ j → Z.testbit v j = (b <=? j) && (j <? n) && bit d (p + n - 1 - j).

Lemma byte_bit d i j : 0 ≤ j < 8 → Z.testbit (d.[i]) j = bit d (8 * i + 7 - j).
Proof.
  intros Hj. unfold bit. replace ((8 * i + 7 - j) `div` 8) with i by zdiv.
  f_equal. zdiv.
Qed.

Lemma read_full_bytes_value k d p n i b v :
  Forall uint8 d → n ≤ 64 → 8 * Z.of_nat k ≤ b → b ≤ n → 8 * i = p + n - b →
  partial_value d p n b v →
  ∃ v', read_full_bytes k d (v, i, b) = (v', i + Z.of_nat k, b - 8 * Z.of_nat k) ∧
    partial_value d p n (b - 8 * Z.of_nat k) v'.
Proof.
  intros Hu Hn Hk Hb Hi Hv. induction k as [|k IH].
  - exists v. rewrite Z.add_0_r, Z.sub_0_r. done.
  - destruct IH as (v' & E & Hv'); [lia|].
    unfold read_full_bytes in *. simpl. rewrite E. eexists. split; [f_equal; [f_equal|]; lia|].
    intros j Hj. rewrite Z.lor_spec, Hv' by done. rewrite testbit_u64, Z.shiftl_spec by done.
    set (b' := b - 8 * Z.of_nat k) in *.
    replace (b - 8 * Z.of_nat (S k)) with (b' - 8) by lia.
    destruct (decide (b' - 8 ≤ j < b')).
    + rewrite byte_bit by lia.
      replace (8 * (i + Z.of_nat k) + 7 - (j - (b' - 8))) with (p + n - 1 - j) by lia.
      destruct_cmp; try lia; done.
    + assert (Z.testbit (d.[i + Z.of_nat k]) (j - (b' - 8)) = false) as ->.
      { destruct (decide (j < b' - 8)); [apply Z.testbit_neg_r; lia|].
        apply testbit_uint8_high; [apply rd_Forall; [done|cint]|lia]. }
      rewrite andb_false_r, orb_false_r. destruct_cmp; try lia; done.
Qed.

(** The loop and the last bits of [ReadBits], from the start of a byte. *)
Lemma read_rest_value d p n i b v :
  Forall uint8 d → n ≤ 64 → 0 ≤ b ≤ n → 8 * i = p + n - b → partial_value d p n b v →
  ∃ v' b', read_full_bytes (Z.to_nat (b `div` 8)) d (v, i, b) = (v', (p + n) `div` 8, b') ∧
    bits_value d p n (if b' >? 0 then Z.lor v' (d.[(p + n) `div` 8] ≫ (8 - b')) else v').
Proof.
  intros Hu Hn Hb Hi Hv.
  destruct (read_full_bytes_value (Z.to_nat (b `div` 8)) d p n i b v) as (v' & E & Hv');
    [done|done|zdiv|lia|done|done|]. rewrite Z2Nat.id in E, Hv' by zdiv.
  exists v', (b - 8 * (b `div` 8)). replace ((p + n) `div` 8) with (i + b `div` 8) by zdiv.
  split; [done|]. set (b' := b - 8 * (b `div` 8)) in *.
  assert (0 ≤ b' < 8 ∧ b' ≤ n ∧ 8 * (i + b `div` 8) = p + n - b') as (Hb' & Hbn & Hi') by zdiv.
  set (i' := i + b `div` 8) in *.
  intros j Hj. rewrite Z.gtb_ltb. destruct (Z.ltb_spec 0 b').
  - rewrite Z.lor_spec, Hv', Z.shiftr_spec by done.
    destruct (decide (j < b')).
    + rewrite byte_bit by lia.
      replace (8 * i' + 7 - (j + (8 - b'))) with (p + n - 1 - j) by lia.
      destruct_cmp; try lia; done.
    + rewrite testbit_uint8_high; [|apply rd_Forall; [done|cint]|lia].
      rewrite orb_false_r. destruct_cmp; try lia; done.
  - rewrite Hv' by done. destruct_cmp; try lia; done.
Qed.

(** The bits left in the current byte. *)
Lemma read_first_value d p n i r :
  Forall uint8 d → 0 < r < 8 → r ≤ n → n ≤ 64 → p = 8 * i + 8 - r →
  partial_value d p n (n - r) (u64 (Z.land (d.[i]) (u8 ((1 ≪ r) - 1)) ≪ (n - r))).
Proof.
  intros Hu Hr Hrn Hn -> j Hj. rewrite testbit_u64, Z.shiftl_spec, Z.land_spec, testbit_u8 by done.
  assert ((1 ≪ r) - 1 = Z.ones r) as -> by (unfold Z.ones; lia).
  destruct (decide (j < n - r)).
  { rewrite (Z.testbit_neg_r (d.[i])) by lia. destruct_cmp; try lia; done. }
  rewrite Z.testbit_ones by lia. destruct (decide (j < n)).
  - rewrite byte_bit by lia.
    replace (8 * i + 7 - (j - (n - r))) with (8 * i + 8 - r + n - 1 - j) by lia.
    destruct_cmp; try lia; by rewrite ?andb_true_r.
  - destruct_cmp; try lia; by rewrite ?andb_false_r.
Qed.

(** The bits wanted are a part of the current byte. *)
Lemma read_inside_value d p n i r :
  Forall uint8 d → 0 ≤ n < r → r < 8 → p = 8 * i + 8 - r →
  bits_value d p n (Z.land (d.[i] ≫ (r - n)) ((1 ≪ n) - 1)).
Proof.
  intros Hu Hn Hr -> j Hj. rewrite Z.land_spec, Z.shiftr_spec by done.
  assert ((1 ≪ n) - 1 = Z.ones n) as -> by (unfold Z.ones; lia).
  rewrite Z.testbit_ones by lia. destruct (decide (j < n)).
  - rewrite byte_bit by lia.
    replace (8 * i + 7 - (j + (r - n))) with (8 * i + 8 - r + n - 1 - j) by lia.
    destruct_cmp; try lia; by rewrite ?andb_true_r.
  - destruct_cmp; try lia; by rewrite ?andb_false_r.
Qed.

Lemma ReadBits_at d p n : positioned d p → 0 ≤ n ≤ 64 →
  if p + n <=? 8 * zlen d
  then ∃ v, ReadBits (reader_at d p) n = (reader_at d (p + n), v) ∧ bits_value d p n v
  else ReadBits (reader_at d p) n = (Invalidate (reader_at d p), 0).
Proof.
  intros (Hu & _ & Hp) Hn. unfold ReadBits. cbn [reader_at r_bytes r_index remaining_bits].
  destruct (Z.leb_spec (p + n) (8 * zlen d)) as [Hfit|Hfit];
    [|by replace (8 * zlen d - p <? n) with true by (symmetry; apply Z.ltb_lt; lia)].
  replace (8 * zlen d - p <? n) with false by (symmetry; apply Z.ltb_ge; lia).
  set (r := (8 * zlen d - p) `mod` 8).
  assert (0 ≤ r < 8) as Hr by (unfold r; zdiv).
  assert (r ≠ 0 → p = 8 * (p `div` 8) + 8 - r) as Ep by (unfold r; zdiv).
  assert (r = 0 → p = 8 * (p `div` 8)) as Ep0 by (unfold r; zdiv).
  set (i := p `div` 8) in *.
  assert (8 * zlen d - p - n = 8 * zlen d - (p + n)) as -> by lia.
  destruct (Z.ltb_spec n r).
  { eexists. split; [unfold reader_at; f_equal; f_equal; unfold i; zdiv|].
    apply read_inside_value; [done|lia..]. }
  set (s := if r >? 0 then _ else _).
  assert (∃ v i1 b, s = (v, i1, b) ∧ 0 ≤ b ≤ n ∧ 8 * i1 = p + n - b ∧ partial_value d p n b v)
    as (v & i1 & b & -> & Hb & Hi1 & Hv).
  { subst s. rewrite Z.gtb_ltb. destruct (Z.ltb_spec 0 r).
    - exists (u64 (Z.land (d.[i]) (u8 ((1 ≪ r) - 1)) ≪ (n - r))), (i + 1), (n - r).
      split; [done|]. split; [lia|]. split; [lia|]. apply read_first_value; [done|lia..].
    - exists 0, i, n. split; [done|]. split; [lia|]. split; [lia|].
      intros j Hj. rewrite Z.testbit_0_l. destruct_cmp; try lia; done. }
  destruct (read_rest_value d p n i1 b v) as (v' & b' & E & Hv'); [done|lia|done|done|done|].
  rewrite E. eexists. by split.
Qed.

Lemma ReadBit_at d p : positioned d p →
  ReadBit (reader_at d p) =
    if p <? 8 * zlen d then (reader_at d (p + 1), Z.b2z (bit d p))
    else (Invalidate (reader_at d p), 0).
Proof.
  intros (Hu & _ & Hp). unfold ReadBit. cbn [reader_at r_bytes r_index remaining_bits].
  destruct (Z.ltb_spec p (8 * zlen d)) as [Hfit|Hfit];
    [|by replace (8 * zlen d - p <=? 0) with true by (symmetry; apply Z.leb_le; lia)].
  replace (8 * zlen d - p <=? 0) with false by (symmetry; apply Z.leb_gt; lia).
  assert ((8 * zlen d - p - 1) `mod` 8 = 7 - p `mod` 8) as -> by zdiv.
  assert (8 * zlen d - p - 1 = 8 * zlen d - (p + 1)) as -> by lia.
  assert (∀ x, Z.land x 0x01 = x `mod` 2) as Hm by (intros x; exact (Z.land_ones x 1 ltac:(lia))).
  rewrite !Hm.
  unfold bit, reader_at. rewrite Z.testbit_spec' by zdiv. rewrite Z.shiftr_div_pow2 by zdiv.
  destruct (Z.eqb_spec (7 - p `mod` 8) 0) as [E|].
  - rewrite E, Z.pow_0_r, Z.div_1_r. f_equal. f_equal; zdiv.
  - f_equal. f_equal; zdiv.
Qed.
