(* ===== verification/BitFields.v ===== *)
(** The codes of rtc_base/bit_buffer.cc and rtc_base/bitstream_reader.cc as sequences of
    bits: what each method of [BitBufferWriter] writes, and that the method of
    [BitstreamReader] of the same name reads it back.

    [shape] says which pair of methods is used, [code] the bits that stand for a value.
    The writing theorem gives the array after any sequence of writes and the exact
    condition under which they all succeed; the round trip reads the array with the other
    class.  The last part is about failure: a reader that has failed stays so and returns
    zeros, and a reader never leaves its array. *)
From S2P Require Import Prelude BitStream.

(** * Specification *)

(** The [n] low bits of a number, the most significant one first. *)
Fixpoint bits_of (n : nat) (v : Z) : list bool :=
  match n with O => [] | S n => Z.testbit v (Z.of_nat n) :: bits_of n v end.

(** One method of each class, with the arguments both sides must agree on. *)
Inductive shape : Type :=
  | Bits (n : Z) | NonSymmetric (num_values : Z) | ExponentialGolomb
  | SignedExponentialGolomb | Leb128 | String (num_bytes : Z).

Inductive value : Type := Num (x : Z) | Str (s : list Z).

Section fields.
Context `{BitWidth}.

Definition write_value (w : BitBufferWriter) (s : shape) (v : value) : BitBufferWriter * bool :=
  match s, v with
  | Bits n, Num x => WriteBits w x n
  | NonSymmetric k, Num x => WriteNonSymmetric w x k
  | ExponentialGolomb, Num x => WriteExponentialGolomb w x
  | SignedExponentialGolomb, Num x => WriteSignedExponentialGolomb w x
  | Leb128, Num x => WriteLeb128 w x
  | String _, Str data => WriteString w data
  | _, _ => (w, false)
  end.

Definition read_value (r : BitstreamReader) (s : shape) : BitstreamReader * value :=
  let num '(r, x) := (r, Num x) in
  match s with
  | Bits n => num (ReadBits r n)
  | NonSymmetric k => num (ReadNonSymmetric r k)
  | ExponentialGolomb => num (ReadExponentialGolomb r)
  | SignedExponentialGolomb => num (ReadSignedExponentialGolomb r)
  | Leb128 => num (ReadLeb128 r)
  | String n => let '(r, data) := ReadString r n in (r, Str data)
  end.

(** The caller writes while the writes succeed. *)
Fixpoint write_all (w : BitBufferWriter) (l : list (shape * value)) : BitBufferWriter * bool :=
  match l with
  | [] => (w, true)
  | (s, v) :: l =>
      let '(w, ok) := write_value w s v in if ok then write_all w l else (w, false)
  end.

Definition read_all (r : BitstreamReader) (ss : list shape) : BitstreamReader * list value :=
  run read_value r ss.
End fields.

(** The values the methods are documented for. *)
Definition valid (s : shape) (v : value) : Prop :=
  match s, v with
  | Bits n, Num x => 1 ≤ n ≤ 64 ∧ 0 ≤ x < 2 ^ n
  | NonSymmetric k, Num x => 0 ≤ x < k ∧ k < 2 ^ 31
  | ExponentialGolomb, Num x => 0 ≤ x < 2 ^ 32 - 1
  | SignedExponentialGolomb, Num x => - 2 ^ 31 < x < 2 ^ 31
  | Leb128, Num x => uint64 x
  | String n, Str data => n = zlen data ∧ Forall uint8 data
  | _, _ => False
  end.

(** Seven bits to a byte, the least significant ones first. *)
Fixpoint leb_bytes (fuel : nat) (v : Z) : list Z :=
  match fuel with
  | S fuel => if v <? 128 then [v] else (v `mod` 128 + 128) :: leb_bytes fuel (v `div` 128)
  | O => [v]
  end.

Definition bytes_code (data : list Z) : list bool := flat_map (bits_of 8) data.

Definition golomb_code (x : Z) : list bool :=
  let k := Z.to_nat (Z.log2 (x + 1)) in replicate k false ++ true :: bits_of k (x + 1).

Definition code (s : shape) (v : value) : list bool :=
  match s, v with
  | Bits n, Num x => bits_of (Z.to_nat n) x
  | NonSymmetric k, Num x =>
      let w := Z.log2 k + 1 in
      let m := 2 ^ w - k in
      if x <? m then bits_of (Z.to_nat (w - 1)) x else bits_of (Z.to_nat w) (x + m)
  | ExponentialGolomb, Num x => golomb_code x
  | SignedExponentialGolomb, Num x => golomb_code (if x >? 0 then 2 * x - 1 else - 2 * x)
  | Leb128, Num x => bytes_code (leb_bytes 9 x)
  | String _, Str data => bytes_code data
  | _, _ => []
  end.

(** The bits of an array from [p] on. *)
Definition bits_at (d : list Z) (p : Z) (l : list bool) : Prop :=
  ∀ i, 0 ≤ i < zlen l → bit d (p + i) = nth (Z.to_nat i) l false.

(** [d'] is [d] with the bits from [p] on replaced by [l]. *)
Definition writes (d d' : list Z) (p : Z) (l : list bool) : Prop :=
  patched d d' p (zlen l) (λ i, nth (Z.to_nat i) l false).

(** * Sequences of bits *)

Lemma bits_of_length n v : length (bits_of n v) = n.
Proof. induction n; simpl; lia. Qed.

Lemma bits_of_nth n v i : (i < n)%nat → nth i (bits_of n v) false = low_bits v (Z.of_nat n) (Z.of_nat i).
Proof.
  revert i. unfold low_bits. induction n as [|n IH]; intros i Hi; [lia|].
  destruct i as [|i]; simpl; [f_equal; lia|]. rewrite IH by lia. f_equal. lia.
Qed.

Lemma bits_of_app a b v : bits_of (a + b) v = bits_of a (v ≫ Z.of_nat b) ++ bits_of b v.
Proof.
  induction a as [|a IH]; [done|]. simpl. f_equal; [|done].
  rewrite Z.shiftr_spec by lia. f_equal. lia.
Qed.

Lemma bits_of_0 n : bits_of n 0 = replicate n false.
Proof. induction n as [|n IH]; simpl; [done|]. by rewrite Z.testbit_0_l, IH. Qed.

Lemma bits_at_app d p l k : bits_at d p (l ++ k) ↔ bits_at d p l ∧ bits_at d (p + zlen l) k.
Proof.
  unfold bits_at. rewrite zlen_app. split.
  - intros B. split; intros i Hi.
    + rewrite B by lia. by rewrite app_nth1 by lia.
    + rewrite <-Z.add_assoc, B, app_nth2 by lia. f_equal. lia.
  - intros [B1 B2] i Hi. destruct (decide (i < zlen l)).
    + rewrite B1 by lia. by rewrite app_nth1 by lia.
    + rewrite app_nth2 by lia. replace (p + i) with (p + zlen l + (i - zlen l)) by lia.
      rewrite B2 by lia. f_equal. lia.
Qed.

Lemma writes_nil d p : Forall uint8 d → writes d d p [].
Proof.
  intros Hd. split; [done|split; [done|]]. intros q Hq. change (zlen []) with 0.
  destruct_cmp; try lia; done.
Qed.

Lemma writes_app d d1 d2 p l k :
  writes d d1 p l → writes d1 d2 (p + zlen l) k → writes d d2 p (l ++ k).
Proof.
  unfold writes. intros W1 W2. rewrite zlen_app.
  apply (patched_trans d d1 d2 p (zlen l) (zlen k) _ (λ i, nth (Z.to_nat i) k false)); [lia|lia| |done|].
  - eapply patched_ext; [|done]. intros i Hi. simpl. by rewrite app_nth1 by lia.
  - intros i Hi. simpl. rewrite app_nth2 by lia. f_equal. lia.
Qed.

Lemma writes_at d d' p l : 0 ≤ p → p + zlen l ≤ 8 * zlen d → writes d d' p l → bits_at d' p l.
Proof.
  intros Hp Hl (_ & _ & B) i Hi. rewrite B by lia. destruct_cmp; try lia. f_equal. lia.
Qed.

Lemma writes_bits_of d d' p n v :
  patched d d' p (Z.of_nat n) (low_bits v (Z.of_nat n)) → writes d d' p (bits_of n v).
Proof.
  intros P. unfold writes. rewrite bits_of_length. eapply patched_ext; [|done].
  intros i Hi. simpl. rewrite bits_of_nth by lia. f_equal. lia.
Qed.

Lemma writes_positioned d d' p l :
  positioned d p → writes d d' p l → p + zlen l ≤ 8 * zlen d → positioned d' (p + zlen l).
Proof.
  intros (Hu & Hl & Hp) W Hf. pose proof (patched_len _ _ _ _ _ W) as E.
  split; [by apply (patched_uint8 _ _ _ _ _ W)|]. rewrite E. lia.
Qed.

Lemma positioned_next d p n : positioned d p → 0 ≤ n → p + n ≤ 8 * zlen d → positioned d (p + n).
Proof. intros (Hu & Hl & Hp) ? ?. split; [done|]. lia. Qed.

(** * Writing *)

(** The writer still points into its array, which has the size of [d]. *)
Definition inside (d : list Z) (w : BitBufferWriter) : Prop :=
  ∃ d' p', w = writer_at d' p' ∧ positioned d' p' ∧ zlen d' = zlen d.

(** Outcome of a write at [p] of the bits [l]: all of them or, when they do not fit, a
    failure that leaves the writer inside the array. *)
Definition written (d : list Z) (p : Z) (l : list bool) (res : BitBufferWriter * bool) : Prop :=
  if p + zlen l <=? 8 * zlen d
  then ∃ d', res = (writer_at d' (p + zlen l), true) ∧ writes d d' p l
  else res.2 = false ∧ inside d res.1.

Lemma inside_at d p : positioned d p → inside d (writer_at d p).
Proof. intros Hp. by exists d, p. Qed.

Lemma WriteBits_written d p n v :
  positioned d p → (1 ≤ n ≤ 64)%nat → written d p (bits_of n v) (WriteBits (writer_at d p) v (Z.of_nat n)).
Proof.
  intros Hp Hn. pose proof (WriteBits_at d p v (Z.of_nat n) Hp ltac:(lia)) as W.
  unfold written. rewrite bits_of_length.
  destruct (Z.leb_spec (p + Z.of_nat n) (8 * zlen d));
    [|rewrite W; split; [done|by apply inside_at]].
  destruct W as (d' & -> & P). exists d'. split; [done|]. by apply writes_bits_of.
Qed.

(** [WriteString], continued after a first part with the outcome [ok]. *)
Definition write_string (s : BitBufferWriter * bool) (data : list Z) : BitBufferWriter * bool :=
  foldl (λ '(w, success) c, let '(w, ok) := WriteUInt8 w (u8 c) in (w, success && ok)) s data.

Lemma write_string_cons w ok c data :
  write_string (w, ok) (c :: data) =
    let '(w, ok') := WriteUInt8 w (u8 c) in write_string (w, ok && ok') data.
Proof. unfold write_string. simpl. by destruct (WriteUInt8 w (u8 c)). Qed.

Lemma WriteUInt8_inside d w c : inside d w → inside d (WriteUInt8 w c).1.
Proof.
  intros (d1 & p1 & -> & Hp & Hl). unfold WriteUInt8.
  pose proof (WriteBits_written d1 p1 8 c Hp ltac:(lia)) as W. unfold written in W.
  rewrite bits_of_length in W. change (Z.of_nat 8) with 8 in W.
  destruct (Z.leb_spec (p1 + 8) (8 * zlen d1)).
  - destruct W as (d2 & -> & W). exists d2, (p1 + 8).
    pose proof (patched_len _ _ _ _ _ W). split; [done|]. split; [|lia].
    by apply (writes_positioned d1 d2 p1 _ Hp W); rewrite bits_of_length.
  - destruct W as [_ (d2 & p2 & -> & Hp2 & Hl2)]. exists d2, p2. by rewrite Hl2.
Qed.

Lemma write_string_false data d w : inside d w →
  (write_string (w, false) data).2 = false ∧ inside d (write_string (w, false) data).1.
Proof.
  revert w. induction data as [|c data IH]; intros w Hw; [done|]. rewrite write_string_cons.
  pose proof (WriteUInt8_inside d w (u8 c) Hw).
  destruct (WriteUInt8 w (u8 c)). by apply IH.
Qed.

Lemma bytes_code_cons c data : bytes_code (c :: data) = bits_of 8 c ++ bytes_code data.
Proof. done. Qed.

Lemma bytes_code_length data : zlen (bytes_code data) = 8 * zlen data.
Proof.
  induction data as [|c data IH]; [done|]. rewrite bytes_code_cons, zlen_app, IH, bits_of_length. simpl length. lia.
Qed.

Lemma WriteString_written data d p :
  positioned d p → Forall uint8 data → written d p (bytes_code data) (WriteString (writer_at d p) data).
Proof.
  change (WriteString (writer_at d p) data) with (write_string (writer_at d p, true) data).
  revert d p. induction data as [|c data IH]; intros d p Hp Hdata.
  - unfold written. change (zlen (bytes_code [])) with 0. rewrite Z.add_0_r.
    destruct Hp as (Hu & _ & Hp). destruct (Z.leb_spec p (8 * zlen d)); [|lia].
    exists d. split; [done|]. by apply writes_nil.
  - apply Forall_cons_1 in Hdata as [Hc Hdata].
    pose proof (WriteBits_written d p 8 (u8 c) Hp ltac:(lia)) as W.
    unfold written in *. rewrite bits_of_length in W. change (Z.of_nat 8) with 8 in W.
    assert (zlen (bytes_code (c :: data)) = 8 + zlen (bytes_code data)) as E
      by (rewrite !bytes_code_length; simpl length; lia).
    rewrite E, write_string_cons. unfold WriteUInt8.
    destruct (Z.leb_spec (p + 8) (8 * zlen d)).
    + destruct W as (d1 & -> & W). cbn [andb].
      pose proof (writes_positioned _ _ _ _ Hp W ltac:(rewrite bits_of_length; lia)) as Hp1.
      rewrite bits_of_length in Hp1.
      specialize (IH d1 (p + Z.of_nat 8) Hp1 Hdata). rewrite (patched_len _ _ _ _ _ W) in IH.
      change (Z.of_nat 8) with 8 in IH. rewrite <-Z.add_assoc in IH.
      destruct (Z.leb_spec (p + (8 + zlen (bytes_code data))) (8 * zlen d)).
      2:{ destruct IH as [F (d2 & p2 & E2 & Hp2 & Hl2)]. split; [exact F|].
          exists d2, p2. by rewrite Hl2, (patched_len _ _ _ _ _ W). }
      destruct IH as (d2 & E2 & W2). exists d2. split; [exact E2|].
      rewrite (u8_id c Hc) in W. apply (writes_app d d1 d2 p _ _ W).
      by rewrite bits_of_length.
    + replace (p + (8 + zlen (bytes_code data)) <=? 8 * zlen d) with false
        by (symmetry; apply Z.leb_gt; lia).
      destruct (WriteBits _ _ _) as [w ok]. simpl in W. destruct W as [-> W].
      by apply write_string_false.
Qed.

Lemma leb_bytes_uint8 fuel v : 0 ≤ v < 2 ^ (7 * (Z.of_nat fuel + 1)) → Forall uint8 (leb_bytes fuel v).
Proof.
  revert v. induction fuel as [|fuel IH]; intros v Hv; simpl leb_bytes.
  - constructor; [|done]. simpl in Hv. unfold uint8. lia.
  - destruct (Z.ltb_spec v 128); constructor; [unfold uint8; lia|done|unfold uint8; zdiv|].
    apply IH. split; [zdiv|]. apply Z.div_lt_upper_bound; [lia|].
    change 128 with (2 ^ 7). rewrite <-Z.pow_add_r by lia.
    replace (7 + 7 * (Z.of_nat fuel + 1)) with (7 * (Z.of_nat (S fuel) + 1)) by lia. lia.
Qed.

Lemma leb_byte v : 0 ≤ v →
  Z.land v 0x7f = v `mod` 128 ∧ v ≫ 7 = v `div` 128 ∧ Z.lor (Z.land v 0x7f) 0x80 = v `mod` 128 + 128.
Proof.
  intros Hv. assert (Z.land v 0x7f = v `mod` 128) as E by exact (Z.land_ones v 7 ltac:(lia)).
  split; [done|]. split; [exact (Z.shiftr_div_pow2 v 7 ltac:(lia))|]. rewrite E.
  apply (check_range_dec (λ x, Z.lor x 0x80 = x + 128) 0 128); [by vm_compute|zdiv].
Qed.

(** The bytes of [WriteLeb128] written as by [WriteString]. *)
Lemma write_leb_bytes fuel w v ok : 0 ≤ v < 2 ^ (7 * (Z.of_nat fuel + 1)) →
  write_leb fuel w v ok = write_string (w, ok) (leb_bytes fuel v).
Proof.
  revert w v ok. induction fuel as [|fuel IH]; intros w v ok Hv;
    destruct (leb_byte v) as (E1 & E2 & E3); [lia| |lia|]; unfold write_leb; fold write_leb;
    rewrite E3, E1, E2; simpl leb_bytes; rewrite Z.gtb_ltb.
  - simpl in Hv. replace (0 <? v `div` 128) with false by (symmetry; apply Z.ltb_ge; zdiv).
    rewrite write_string_cons, u8_id, Z.mod_small by (cint || lia).
    by destruct (WriteUInt8 w v).
  - destruct (Z.ltb_spec v 128).
    + replace (0 <? v `div` 128) with false by (symmetry; apply Z.ltb_ge; zdiv).
      rewrite write_string_cons, u8_id, Z.mod_small by (cint || lia).
      by destruct (WriteUInt8 w v).
    + replace (0 <? v `div` 128) with true by (symmetry; apply Z.ltb_lt; zdiv).
      rewrite write_string_cons, u8_id by (unfold uint8; zdiv).
      destruct (WriteUInt8 w (v `mod` 128 + 128)) as [w1 ok1]. apply IH.
      split; [zdiv|]. apply Z.div_lt_upper_bound; [lia|].
      change 128 with (2 ^ 7). rewrite <-Z.pow_add_r by lia.
      replace (7 + 7 * (Z.of_nat fuel + 1)) with (7 * (Z.of_nat (S fuel) + 1)) by lia. lia.
Qed.

Lemma golomb_bits x : 0 ≤ x → golomb_code x = bits_of (Z.to_nat (2 * Z.log2 (x + 1) + 1)) (x + 1).
Proof.
  intros Hx. unfold golomb_code. pose proof (Z.log2_nonneg (x + 1)).
  pose proof (Z.log2_spec (x + 1) ltac:(lia)) as Hl.
  replace (Z.to_nat (2 * Z.log2 (x + 1) + 1))
    with (Z.to_nat (Z.log2 (x + 1)) + S (Z.to_nat (Z.log2 (x + 1))))%nat by lia.
  rewrite bits_of_app. cbn [bits_of]. rewrite Nat2Z.inj_succ, Z2Nat.id by lia.
  rewrite Z.bit_log2 by lia. rewrite Z.shiftr_div_pow2, Z.div_small by lia.
  by rewrite bits_of_0.
Qed.

(** The numbers both [NonSymmetric] methods compute first. *)
Lemma non_symmetric_width k : 1 ≤ k < 2 ^ 31 →
  0 ≤ Z.log2 k ≤ 30 ∧ 2 ^ Z.log2 k ≤ k < 2 ^ (Z.log2 k + 1) ∧
  2 ^ (Z.log2 k + 1) = 2 * 2 ^ Z.log2 k ∧
  u32 (u32 (1 ≪ (Z.log2 k + 1)) - k) = 2 ^ (Z.log2 k + 1) - k.
Proof.
  intros Hk. pose proof (Z.log2_nonneg k). pose proof (Z.log2_spec k ltac:(lia)) as Hs.
  assert (Z.log2 k < 31) by (apply Z.log2_lt_pow2; lia).
  rewrite Z.pow_succ_r in Hs by lia. rewrite Z.pow_add_r by lia.
  assert (2 ^ Z.log2 k ≤ 2 ^ 30) by (apply Z.pow_le_mono_r; lia).
  rewrite Z.shiftl_1_l, Z.pow_add_r by lia.
  rewrite (u32_id (2 ^ Z.log2 k * 2 ^ 1)) by cint. rewrite u32_id by cint. lia.
Qed.

Section writing.
Context `{BitWidth}.

Lemma WriteExponentialGolomb_written d p x : positioned d p → 0 ≤ x < 2 ^ 32 - 1 →
  written d p (golomb_code x) (WriteExponentialGolomb (writer_at d p) x).
Proof.
  intros Hp Hx. unfold WriteExponentialGolomb. destruct (Z.eqb_spec x 4294967295); [lia|].
  rewrite bit_width_spec by lia. rewrite golomb_bits by lia.
  pose proof (Z.log2_nonneg (x + 1)). assert (Z.log2 (x + 1) < 32) by (apply Z.log2_lt_pow2; lia).
  replace ((Z.log2 (x + 1) + 1) * 2 - 1) with (Z.of_nat (Z.to_nat (2 * Z.log2 (x + 1) + 1))) by lia.
  apply WriteBits_written; [done|lia].
Qed.

Lemma WriteNonSymmetric_written d p x k : positioned d p → 0 ≤ x < k → k < 2 ^ 31 →
  written d p (code (NonSymmetric k) (Num x)) (WriteNonSymmetric (writer_at d p) x k).
Proof.
  intros Hp Hx Hk. unfold WriteNonSymmetric, code. destruct (Z.eqb_spec k 1) as [->|].
  - replace x with 0 by lia. unfold written. change (zlen _) with 0 at 1. rewrite Z.add_0_r.
    destruct Hp as (Hu & _ & Hp). destruct (Z.leb_spec p (8 * zlen d)); [|lia].
    exists d. simpl. rewrite Z.add_0_r. split; [done|]. by apply writes_nil.
  - destruct (non_symmetric_width k) as (Hl & Hs & Ew & Em); [lia|].
    assert (1 ≤ Z.log2 k) by (apply Z.log2_le_pow2; lia).
    assert (2 ^ (Z.log2 k + 1) ≤ 2 ^ 31) by (apply Z.pow_le_mono_r; lia).
    rewrite bit_width_spec, Em by lia.
    set (m := 2 ^ (Z.log2 k + 1) - k) in *. destruct (Z.ltb_spec x m).
    + rewrite <-(Z2Nat.id (Z.log2 k + 1 - 1)) at 2 by lia. apply WriteBits_written; [done|lia].
    + rewrite u32_id by cint.
      rewrite <-(Z2Nat.id (Z.log2 k + 1)) at 2 by lia. apply WriteBits_written; [done|lia].
Qed.

Lemma WriteSignedExponentialGolomb_written d p x : positioned d p → - 2 ^ 31 < x < 2 ^ 31 →
  written d p (code SignedExponentialGolomb (Num x)) (WriteSignedExponentialGolomb (writer_at d p) x).
Proof.
  intros Hp Hx. unfold WriteSignedExponentialGolomb, code, INT32_MIN. rewrite Z.gtb_ltb.
  destruct (Z.eqb_spec x 0) as [->|]; [by apply WriteExponentialGolomb_written|].
  destruct (Z.ltb_spec 0 x); [|destruct (Z.eqb_spec x (-2147483648)); [lia|]].
  - rewrite u32_id by cint. replace (x * 2 - 1) with (2 * x - 1) by lia.
    apply WriteExponentialGolomb_written; [done|lia].
  - rewrite u32_id by cint. replace (- x * 2) with (- 2 * x) by lia.
    apply WriteExponentialGolomb_written; [done|lia].
Qed.

Lemma write_value_written d p s v : positioned d p → valid s v →
  written d p (code s v) (write_value (writer_at d p) s v).
Proof.
  intros Hp Hv. destruct s as [n|k| | | |n], v as [x|data]; try done; simpl in Hv; simpl write_value.
  - rewrite <-(Z2Nat.id n) at 2 by lia. apply WriteBits_written; [done|lia].
  - apply WriteNonSymmetric_written; [done|lia..].
  - by apply WriteExponentialGolomb_written.
  - by apply WriteSignedExponentialGolomb_written.
  - assert (0 ≤ x < 2 ^ (7 * (Z.of_nat 9 + 1))) by (unfold uint64 in Hv; lia).
    unfold WriteLeb128. rewrite write_leb_bytes by done.
    by apply WriteString_written; [|apply leb_bytes_uint8].
  - destruct Hv as [_ Hv]. by apply WriteString_written.
Qed.

Definition codes (l : list (shape * value)) : list bool := flat_map (λ '(s, v), code s v) l.

Lemma write_all_written l d p : positioned d p → Forall (λ '(s, v), valid s v) l →
  written d p (codes l) (write_all (writer_at d p) l).
Proof.
  revert d p. induction l as [|[s v] l IH]; intros d p Hp Hl.
  - unfold written. change (zlen (codes [])) with 0. rewrite Z.add_0_r.
    destruct Hp as (Hu & _ & Hp). destruct (Z.leb_spec p (8 * zlen d)); [|lia].
    exists d. split; [done|]. by apply writes_nil.
  - apply Forall_cons_1 in Hl as [Hv Hl].
    pose proof (write_value_written d p s v Hp Hv) as W. cbn [write_all].
    change (codes ((s, v) :: l)) with (code s v ++ codes l).
    unfold written in *. rewrite zlen_app, Z.add_assoc.
    destruct (write_value (writer_at d p) s v) as [w ok].
    destruct (Z.leb_spec (p + zlen (code s v)) (8 * zlen d)).
    + destruct W as (d1 & [= -> ->] & W). specialize (IH d1 (p + zlen (code s v))
        ltac:(by eapply writes_positioned) Hl). rewrite (patched_len _ _ _ _ _ W) in IH.
      destruct (Z.leb_spec (p + zlen (code s v) + zlen (codes l)) (8 * zlen d)).
      2:{ destruct IH as [F (d2 & p2 & E2 & Hp2 & Hl2)]. split; [exact F|].
          exists d2, p2. by rewrite Hl2, (patched_len _ _ _ _ _ W). }
      destruct IH as (d2 & E2 & W2). exists d2. split; [done|]. by eapply writes_app.
    + destruct W as [F W]. simpl in F. subst ok.
      destruct (Z.leb_spec (p + zlen (code s v) + zlen (codes l)) (8 * zlen d)); [lia|done].
Qed.
End writing.

(** * Reading *)

(** The bits [l] lie at [p], inside the array. *)
Definition stored (d : list Z) (p : Z) (l : list bool) : Prop :=
  positioned d p ∧ p + zlen l ≤ 8 * zlen d ∧ bits_at d p l.

Lemma Ok_at d p : p ≤ 8 * zlen d → Ok (reader_at d p) = true.
Proof. intros Hp. apply Z.geb_le. simpl. lia. Qed.

Lemma stored_app d p l k : stored d p (l ++ k) → stored d p l ∧ stored d (p + zlen l) k.
Proof.
  intros (Hp & Hl & Hb). rewrite zlen_app in Hl. apply bits_at_app in Hb as [Hb1 Hb2].
  split; (split; [|split; [lia|done]]); [done|]. apply positioned_next; [done|lia..].
Qed.

Lemma ReadBits_code d p n v : stored d p (bits_of n v) → (n ≤ 64)%nat →
  ReadBits (reader_at d p) (Z.of_nat n) = (reader_at d (p + Z.of_nat n), v `mod` 2 ^ Z.of_nat n).
Proof.
  intros (Hp & Hl & Hb) Hn. rewrite bits_of_length in Hl.
  pose proof (ReadBits_at d p (Z.of_nat n) Hp ltac:(lia)) as R.
  destruct (Z.leb_spec (p + Z.of_nat n) (8 * zlen d)); [|lia].
  destruct R as (v' & -> & Hv). f_equal. apply Z.bits_inj'. intros j Hj. rewrite Hv by done.
  destruct (Z.ltb_spec j (Z.of_nat n)).
  - rewrite Z.mod_pow2_bits_low by lia. simpl.
    replace (p + Z.of_nat n - 1 - j) with (p + (Z.of_nat n - 1 - j)) by lia.
    rewrite (Hb (Z.of_nat n - 1 - j)) by (rewrite bits_of_length; lia).
    rewrite bits_of_nth by lia. unfold low_bits. f_equal. lia.
  - by rewrite Z.mod_pow2_bits_high by lia.
Qed.

Lemma ReadBits_code_id d p n v : stored d p (bits_of n v) → (n ≤ 64)%nat → 0 ≤ v < 2 ^ Z.of_nat n →
  ReadBits (reader_at d p) (Z.of_nat n) = (reader_at d (p + Z.of_nat n), v).
Proof. intros Hs Hn Hv. rewrite (ReadBits_code d p n v) by done. by rewrite Z.mod_small. Qed.

Lemma ReadBit_code d p b : stored d p [b] →
  ReadBit (reader_at d p) = (reader_at d (p + 1), Z.b2z b).
Proof.
  intros (Hp & Hl & Hb). simpl length in Hl. rewrite ReadBit_at by done.
  destruct (Z.ltb_spec p (8 * zlen d)); [|lia].
  specialize (Hb 0 ltac:(simpl; lia)). rewrite Z.add_0_r in Hb. by rewrite Hb.
Qed.

Lemma count_zeros_code k rest z d p : (k ≤ rest)%nat → stored d p (replicate k false ++ [true]) →
  count_zeros rest z (reader_at d p) = (reader_at d (p + Z.of_nat k + 1), Some (z + Z.of_nat k)).
Proof.
  revert rest z p. induction k as [|k IH]; intros rest z p Hk Hs.
  - rewrite !Z.add_0_r. destruct rest; cbn [count_zeros]; by rewrite (ReadBit_code d p true).
  - destruct rest as [|rest]; [lia|]. apply (stored_app d p [false]) in Hs as [Hs1 Hs].
    cbn [count_zeros]. rewrite (ReadBit_code d p false) by done.
    change (Z.b2z false =? 0) with true. cbn match.
    change (p + zlen [false]) with (p + 1) in Hs. rewrite IH by (done || lia).
    f_equal; [f_equal|f_equal]; lia.
Qed.

Lemma ReadExponentialGolomb_code d p x : stored d p (golomb_code x) → 0 ≤ x < 2 ^ 32 - 1 →
  ReadExponentialGolomb (reader_at d p) = (reader_at d (p + zlen (golomb_code x)), x).
Proof.
  intros Hs Hx. unfold golomb_code in *.
  pose proof (Z.log2_nonneg (x + 1)). pose proof (Z.log2_spec (x + 1) ltac:(lia)) as Hl.
  assert (Z.log2 (x + 1) < 32) by (apply Z.log2_lt_pow2; lia).
  rewrite Z.pow_succ_r in Hl by lia.
  assert (2 ^ Z.log2 (x + 1) ≤ 2 ^ 31) by (apply Z.pow_le_mono_r; lia).
  set (k := Z.to_nat (Z.log2 (x + 1))) in *.
  assert (Z.of_nat k = Z.log2 (x + 1)) as Ek by lia.
  assert (replicate k false ++ true :: bits_of k (x + 1) =
    (replicate k false ++ [true]) ++ bits_of k (x + 1)) as E by by rewrite <-app_assoc.
  rewrite E in *. apply stored_app in Hs as [Hs1 Hs2].
  rewrite !zlen_app, length_replicate, bits_of_length in *. change (zlen [true]) with 1 in *.
  unfold ReadExponentialGolomb. rewrite (count_zeros_code k) by (done || lia).
  rewrite <-Z.add_assoc. rewrite Z.add_0_l, (ReadBits_code d _ k (x + 1)) by (done || lia).
  f_equal; [f_equal; lia|]. rewrite Ek.
  assert ((x + 1) `mod` 2 ^ Z.log2 (x + 1) = x + 1 - 2 ^ Z.log2 (x + 1)) as ->.
  { symmetry. apply Z.mod_unique_pos with 1; lia. }
  rewrite Z.shiftl_1_l, (u32_id (2 ^ _)), (u32_id (x + 1 - _)) by cint.
  rewrite u32_id by cint. lia.
Qed.

Lemma land_1 x : Z.land x 1 = x `mod` 2.
Proof. exact (Z.land_ones x 1 ltac:(lia)). Qed.

Lemma ReadSignedExponentialGolomb_code d p x :
  stored d p (code SignedExponentialGolomb (Num x)) → - 2 ^ 31 < x < 2 ^ 31 →
  ReadSignedExponentialGolomb (reader_at d p) =
    (reader_at d (p + zlen (code SignedExponentialGolomb (Num x))), x).
Proof.
  intros Hs Hx. unfold ReadSignedExponentialGolomb, code in *. rewrite Z.gtb_ltb in *.
  destruct (Z.ltb_spec 0 x).
  - rewrite (ReadExponentialGolomb_code d p (2 * x - 1)) by (done || lia).
    assert (Z.land (2 * x - 1) 1 = 1) as -> by (rewrite land_1; zdiv).
    simpl. f_equal. rewrite u32_id by cint. rewrite s32_id; unfold int32; zdiv.
  - rewrite (ReadExponentialGolomb_code d p (- 2 * x)) by (done || lia).
    assert (Z.land (- 2 * x) 1 = 0) as -> by (rewrite land_1; zdiv).
    simpl. f_equal. rewrite s32_id; unfold int32; zdiv.
Qed.

Lemma ReadNonSymmetric_code `{BitWidth} d p x k : 0 ≤ x < k → k < 2 ^ 31 →
  stored d p (code (NonSymmetric k) (Num x)) →
  ReadNonSymmetric (reader_at d p) k =
    (reader_at d (p + zlen (code (NonSymmetric k) (Num x))), x).
Proof.
  intros Hx Hk Hs. unfold ReadNonSymmetric, code in *.
  destruct (non_symmetric_width k) as (Hl & Hw & Ew & Em); [lia|].
  rewrite bit_width_spec, Em by lia. rewrite Z.add_simpl_r in *.
  assert (2 ^ Z.log2 k ≤ 2 ^ 30) by (apply Z.pow_le_mono_r; lia).
  set (b := Z.log2 k) in *. set (m := 2 ^ (b + 1) - k) in *.
  assert (b = Z.of_nat (Z.to_nat b)) as Eb by lia.
  destruct (Z.ltb_spec x m).
  - rewrite Eb at 1. rewrite (ReadBits_code_id d p _ x) by (done || lia || rewrite <-Eb; lia).
    rewrite <-Eb.
    rewrite bits_of_length, <-Eb. destruct (Z.ltb_spec x m); [|lia]. by rewrite u32_id by cint.
  - replace (Z.to_nat (b + 1)) with (Z.to_nat b + 1)%nat in * by lia.
    rewrite bits_of_app in *. rewrite zlen_app, !bits_of_length.
    change (Z.of_nat 1) with 1 in *. rewrite Z.add_assoc.
    apply stored_app in Hs as [Hs1 Hs2]. rewrite bits_of_length in Hs2.
    assert ((x + m) ≫ 1 = (x + m) `div` 2) as E2 by exact (Z.shiftr_div_pow2 (x + m) 1 ltac:(lia)).
    rewrite E2 in Hs1. rewrite Eb at 1.
    rewrite (ReadBits_code_id d p _ ((x + m) `div` 2)) by (done || lia || rewrite <-Eb; zdiv).
    destruct (Z.ltb_spec ((x + m) `div` 2) m); [zdiv|].
    rewrite (ReadBit_code d _ (Z.testbit (x + m) 0)) by done.
    f_equal. rewrite (Z.testbit_spec' (x + m) 0), Z.pow_0_r, Z.div_1_r by lia.
    rewrite (shiftl_mul _ 1), Z.pow_1_r, u64_id by (lia || unfold uint64; zdiv).
    rewrite u32_id; unfold uint32; zdiv.
Qed.

Lemma ReadByte_code d p c data : uint8 c → stored d p (bytes_code (c :: data)) →
  ReadBits (reader_at d p) 8 = (reader_at d (p + 8), c) ∧ stored d (p + 8) (bytes_code data).
Proof.
  intros Hc Hs. rewrite bytes_code_cons in Hs. apply stored_app in Hs as [Hs1 Hs2].
  split; [|by rewrite bits_of_length in Hs2].
  apply (ReadBits_code_id d p 8 c); [done|lia|]. cint.
Qed.

Lemma continue_bit c : uint8 c →
  Z.land c 0x7f = c `mod` 128 ∧ negb (Z.land c 0x80 =? 0) = (128 <=? c).
Proof.
  intros Hc. split; [exact (Z.land_ones c 7 ltac:(lia))|].
  apply (check_range_dec (λ c, negb (Z.land c 0x80 =? 0) = (128 <=? c)) 0 256);
    [by vm_compute|cint].
Qed.

Lemma read_leb_code rest d p i v dec :
  0 ≤ v < 2 ^ (7 * (Z.of_nat rest + 1)) → 0 ≤ i → 0 ≤ dec → dec + v * 2 ^ (7 * i) < 2 ^ 64 →
  stored d p (bytes_code (leb_bytes rest v)) →
  ∃ byte, read_leb rest (reader_at d p) i dec =
    (reader_at d (p + 8 * zlen (leb_bytes rest v)), i + zlen (leb_bytes rest v), byte,
     dec + v * 2 ^ (7 * i)) ∧
    byte * 2 ^ (7 * (zlen (leb_bytes rest v) - 1)) ≤ v.
Proof.
  revert p i v dec. induction rest as [|rest IH]; intros p i v dec Hv Hi Hdec Hlt Hs;
    assert (0 < 2 ^ (7 * i)) as Hpow by (apply Z.pow_pos_nonneg; lia).
  - simpl in Hv. cbn [leb_bytes] in *. assert (uint8 v) as Hc by cint.
    destruct (ReadByte_code d p v [] Hc Hs) as [R _]. exists v. cbn [read_leb]. rewrite R.
    destruct (continue_bit v Hc) as [-> _]. rewrite Z.mod_small by lia.
    rewrite Z.shiftl_mul_pow2, (u64_id (v * _)), u64_id by (lia || unfold uint64; nia).
    simpl. split; [done|lia].
  - cbn [leb_bytes] in *. destruct (Z.ltb_spec v 128).
    + assert (uint8 v) as Hc by cint.
      destruct (ReadByte_code d p v [] Hc Hs) as [R _]. exists v. cbn [read_leb]. rewrite R.
      destruct (continue_bit v Hc) as [-> ->]. rewrite Z.mod_small by lia.
      rewrite Z.shiftl_mul_pow2, (u64_id (v * _)), u64_id by (lia || unfold uint64; nia).
      destruct (Z.leb_spec 128 v); [lia|]. simpl. split; [done|lia].
    + assert (uint8 (v `mod` 128 + 128)) as Hc by (unfold uint8; zdiv).
      destruct (ReadByte_code _ _ _ _ Hc Hs) as [R Hs'].
      assert (v = 128 * (v `div` 128) + v `mod` 128 ∧ 0 ≤ v `mod` 128 < 128) as [Ev Hm] by zdiv.
      assert (2 ^ (7 * (i + 1)) = 128 * 2 ^ (7 * i)) as Ei.
      { replace (7 * (i + 1)) with (7 + 7 * i) by lia. by rewrite Z.pow_add_r by lia. }
      assert (2 ^ (7 * (Z.of_nat (S rest) + 1)) = 128 * 2 ^ (7 * (Z.of_nat rest + 1))) as Er.
      { replace (7 * (Z.of_nat (S rest) + 1)) with (7 + 7 * (Z.of_nat rest + 1)) by lia.
        by rewrite Z.pow_add_r by lia. }
      set (q := v `div` 128) in *. set (r := v `mod` 128) in *.
      destruct (IH (p + 8) (i + 1) q (dec + r * 2 ^ (7 * i))) as (byte & E & Hb);
        [nia|lia|nia|nia|done|].
      exists byte. cbn [read_leb]. rewrite R. destruct (continue_bit _ Hc) as [-> ->].
      assert ((r + 128) `mod` 128 = r) as -> by zdiv.
      rewrite Z.shiftl_mul_pow2, (u64_id (r * _)), u64_id by (lia || unfold uint64; nia).
      destruct (Z.leb_spec 128 (r + 128)); [|lia]. rewrite E.
      set (bs := leb_bytes rest q) in *. replace (zlen ((r + 128) :: bs)) with (zlen bs + 1) by (simpl; lia).
      replace (p + 8 * (zlen bs + 1)) with (p + 8 + 8 * zlen bs) by lia.
      replace (i + (zlen bs + 1)) with (i + 1 + zlen bs) by lia.
      replace (dec + v * 2 ^ (7 * i)) with (dec + r * 2 ^ (7 * i) + q * 2 ^ (7 * (i + 1))) by nia.
      split; [done|].
      assert (0 < zlen bs) by (unfold bs; destruct rest; simpl; [lia|destruct (q <? 128); simpl; lia]).
      assert (2 ^ (7 * (zlen bs + 1 - 1)) = 128 * 2 ^ (7 * (zlen bs - 1))) as ->; [|nia].
      replace (7 * (zlen bs + 1 - 1)) with (7 + 7 * (zlen bs - 1)) by lia.
      by rewrite Z.pow_add_r by lia.
Qed.

Lemma ReadLeb128_code d p v : uint64 v → stored d p (bytes_code (leb_bytes 9 v)) →
  ReadLeb128 (reader_at d p) = (reader_at d (p + zlen (bytes_code (leb_bytes 9 v))), v).
Proof.
  intros Hv Hs. unfold ReadLeb128. rewrite bytes_code_length. pose proof Hs as (Hp & Hl & _).
  rewrite bytes_code_length in Hl.
  destruct (read_leb_code 9 d p 0 v 0) as (byte & E & Hb); try done; [cint|cint|].
  rewrite E, !Z.add_0_l, Z.mul_1_r.
  replace ((zlen (leb_bytes 9 v) =? 10) && (byte >? 1)) with false.
  2:{ symmetry. destruct (Z.eqb_spec (zlen (leb_bytes 9 v)) 10) as [E10|]; [|done].
      rewrite E10 in Hb. simpl in Hb. rewrite Z.gtb_ltb. apply Z.ltb_ge. cint. }
  by rewrite Ok_at by lia.
Qed.

Lemma ReadString_code d p data : Forall uint8 data → stored d p (bytes_code data) →
  ReadString (reader_at d p) (zlen data) = (reader_at d (p + zlen (bytes_code data)), data).
Proof.
  intros Hd Hs. unfold ReadString. rewrite bytes_code_length, Nat2Z.id.
  assert (∀ a acc, for_up a (length data) (λ _ '(r, res),
    let '(r, c) := ReadBits r 8 in (r, res ++ [c])) (reader_at d p, acc) =
    (reader_at d (p + 8 * zlen data), acc ++ data)) as E.
  { clear -Hd Hs. revert p Hs. induction Hd as [|c data Hc Hd IH]; intros p Hs a acc.
    - simpl. by rewrite Z.add_0_r, app_nil_r.
    - destruct (ReadByte_code _ _ _ _ Hc Hs) as [R Hs']. simpl for_up. rewrite R, IH by done.
      rewrite <-app_assoc. simpl. f_equal. f_equal. lia. }
  rewrite E. destruct Hs as (Hp & Hl & _). rewrite bytes_code_length in Hl.
  by rewrite Ok_at by lia.
Qed.

Section reading.
Context `{BitWidth}.

Lemma read_value_code d p s v : valid s v → stored d p (code s v) →
  read_value (reader_at d p) s = (reader_at d (p + zlen (code s v)), v).
Proof.
  intros Hv Hs. destruct s as [n|k| | | |n], v as [x|data]; try done; simpl in Hv; simpl read_value.
  - simpl code in *. rewrite bits_of_length. rewrite <-(Z2Nat.id n) at 1 by lia.
    rewrite (ReadBits_code_id d p _ x); [done|done|lia|]. rewrite Z2Nat.id; lia.
  - by rewrite (ReadNonSymmetric_code d p x) by (done || lia).
  - by rewrite (ReadExponentialGolomb_code d p x).
  - by rewrite (ReadSignedExponentialGolomb_code d p x).
  - by rewrite (ReadLeb128_code d p x).
  - destruct Hv as [-> Hd]. by rewrite (ReadString_code d p data).
Qed.

Lemma read_all_code l d p : Forall (λ '(s, v), valid s v) l → stored d p (codes l) →
  read_all (reader_at d p) l.*1 = (reader_at d (p + zlen (codes l)), l.*2).
Proof.
  revert p. induction l as [|[s v] l IH]; intros p Hl Hs.
  - unfold read_all. simpl. by rewrite Z.add_0_r.
  - apply Forall_cons_1 in Hl as [Hv Hl].
    change (codes ((s, v) :: l)) with (code s v ++ codes l) in *.
    apply stored_app in Hs as [Hs1 Hs2]. unfold read_all in *. cbn [fmap list_fmap fst snd].
    rewrite (run_cons read_value _ _ _ _ _ (read_value_code d p s v Hv Hs1)), IH by done.
    simpl. rewrite zlen_app. do 2 f_equal. lia.
Qed.
End reading.

(** * Failure *)

(** The state after [Invalidate]. *)
Definition failed (r : BitstreamReader) : Prop := remaining_bits r = -1.

(** The reader has failed or stands at a bit of its array; in both cases its pointer is
    inside the array or just past its end. *)
Definition safe (d : list Z) (r : BitstreamReader) : Prop :=
  r_bytes r = d ∧ 0 ≤ r_index r ≤ zlen d ∧ (failed r ∨ ∃ p, r = reader_at d p ∧ positioned d p).

(** The arguments the reading methods accept. *)
Definition readable (s : shape) : Prop :=
  match s with
  | Bits n => 0 ≤ n ≤ 64 | NonSymmetric k => 1 ≤ k < 2 ^ 31 | _ => True
  end.

(** What a reader that has failed returns. *)
Definition nothing (s : shape) : value := match s with String _ => Str [] | _ => Num 0 end.

Lemma Invalidate_failed r : failed r → Invalidate r = r.
Proof. destruct r. unfold failed, Invalidate. simpl. by intros ->. Qed.

Lemma ReadBits_failed r n : failed r → 0 ≤ n → ReadBits r n = (r, 0).
Proof.
  intros F Hn. unfold ReadBits. rewrite (Invalidate_failed r F), F.
  by destruct (Z.ltb_spec (-1) n); [|lia].
Qed.

Lemma ReadBit_failed r : failed r → ReadBit r = (r, 0).
Proof. intros F. unfold ReadBit. by rewrite (Invalidate_failed r F), F. Qed.

Lemma count_zeros_failed r : failed r → ∀ rest z, count_zeros rest z r = (r, None).
Proof.
  intros F rest. induction rest as [|rest IH]; intros z; cbn [count_zeros];
    rewrite (ReadBit_failed r F); simpl; [by rewrite Invalidate_failed|apply IH].
Qed.

Lemma read_leb_failed r rest : failed r → read_leb rest r 0 0 = (r, 1, 0, 0).
Proof. intros F. destruct rest; cbn [read_leb]; by rewrite (ReadBits_failed r 8 F). Qed.

Lemma Ok_failed r : failed r → Ok r = false.
Proof. intros F. unfold Ok, r_RemainingBitCount. by rewrite F. Qed.

Lemma ReadString_failed r n : failed r → ReadString r n = (r, []).
Proof.
  intros F. unfold ReadString.
  pose proof (for_up_inv (λ _ s, s.1 = r) 0 (Z.to_nat n) (λ _ '(r, res),
    let '(r, c) := ReadBits r 8 in (r, res ++ [c])) (r, [] : list Z) eq_refl) as E.
  destruct (for_up _ _ _ _) as [r' res]. simpl in E. rewrite E; [by rewrite (Ok_failed r F)|].
  intros i [r1 l] Hi. simpl. intros ->. by rewrite (ReadBits_failed r 8 F).
Qed.

Lemma safe_at d p : positioned d p → safe d (reader_at d p).
Proof.
  intros Hp. pose proof Hp as (_ & _ & H). split; [done|]. split; [simpl; zdiv|].
  right. by exists p.
Qed.

Lemma Invalidate_safe d r : safe d r → safe d (Invalidate r).
Proof. intros (E & Hi & _). split; [done|]. split; [done|]. by left. Qed.

Lemma ReadBits_safe d r n : safe d r → 0 ≤ n ≤ 64 → safe d (ReadBits r n).1.
Proof.
  intros Hr Hn. pose proof Hr as (E & Hi & [F|(p & -> & Hp)]).
  - by rewrite ReadBits_failed by (done || lia).
  - pose proof (ReadBits_at d p n Hp Hn) as R. destruct (Z.leb_spec (p + n) (8 * zlen d)).
    + destruct R as (v & -> & _). apply safe_at. apply positioned_next; [done|lia..].
    + rewrite R. by apply Invalidate_safe.
Qed.

Lemma ReadBit_safe d r : safe d r → safe d (ReadBit r).1.
Proof.
  intros Hr. pose proof Hr as (E & Hi & [F|(p & -> & Hp)]).
  - by rewrite ReadBit_failed.
  - rewrite ReadBit_at by done. destruct (Z.ltb_spec p (8 * zlen d)).
    + apply safe_at. apply positioned_next; [done|lia..].
    + by apply Invalidate_safe.
Qed.

Lemma count_zeros_safe d rest z r : safe d r →
  safe d (count_zeros rest z r).1 ∧
  ∀ k, (count_zeros rest z r).2 = Some k → z ≤ k ≤ z + Z.of_nat rest.
Proof.
  revert z r. induction rest as [|rest IH]; intros z r Hr; cbn [count_zeros];
    pose proof (ReadBit_safe d r Hr) as H1; destruct (ReadBit r) as [r1 b]; simpl in H1;
    (destruct (b =? 0); [|split; [done|]; intros k [= <-]; lia]).
  - split; [by apply Invalidate_safe|done].
  - destruct (IH (z + 1) r1 H1) as [H2 H3]. split; [done|]. intros k Hk. specialize (H3 k Hk). lia.
Qed.

Lemma ReadExponentialGolomb_safe d r : safe d r → safe d (ReadExponentialGolomb r).1.
Proof.
  intros Hr. unfold ReadExponentialGolomb. destruct (count_zeros_safe d 31 0 r Hr) as [H1 H2].
  destruct (count_zeros 31 0 r) as [r1 [z|]]; [|done]. simpl in *.
  pose proof (ReadBits_safe d r1 z H1). specialize (H2 z eq_refl).
  destruct (ReadBits r1 z). apply H. lia.
Qed.

Lemma read_leb_safe d rest r i dec : safe d r →
  safe d (read_leb rest r i dec).1.1.1.
Proof.
  revert r i dec. induction rest as [|rest IH]; intros r i dec Hr; cbn [read_leb];
    pose proof (ReadBits_safe d r 8 Hr ltac:(lia)) as H1; destruct (ReadBits r 8) as [r1 b]; [done|].
  destruct (negb _); [|done]. by apply IH.
Qed.

Section failure.
Context `{BitWidth}.

Lemma read_value_failed s r : failed r → readable s → read_value r s = (r, nothing s).
Proof.
  intros F Hs. destruct s as [n|k| | | |n]; simpl in *.
  - by rewrite ReadBits_failed by (done || lia).
  - unfold ReadNonSymmetric. destruct (non_symmetric_width k) as (Hl & Hw & Ew & Em); [done|].
    rewrite bit_width_spec, Em by lia. rewrite ReadBits_failed by (done || lia).
    by destruct (Z.ltb_spec 0 (2 ^ (Z.log2 k + 1) - k)); [|lia].
  - unfold ReadExponentialGolomb. by rewrite count_zeros_failed.
  - unfold ReadSignedExponentialGolomb, ReadExponentialGolomb. by rewrite count_zeros_failed.
  - unfold ReadLeb128. rewrite read_leb_failed by done. simpl. by rewrite Ok_failed.
  - by rewrite ReadString_failed.
Qed.

Lemma read_value_safe d s r : safe d r → readable s → safe d (read_value r s).1.
Proof.
  intros Hr Hs. destruct s as [n|k| | | |n]; simpl in *.
  - pose proof (ReadBits_safe d r n Hr Hs). by destruct (ReadBits r n).
  - unfold ReadNonSymmetric. destruct (non_symmetric_width k) as (Hl & _); [done|].
    rewrite bit_width_spec by lia.
    pose proof (ReadBits_safe d r (Z.log2 k + 1 - 1) Hr ltac:(lia)) as H1.
    destruct (ReadBits r _) as [r1 v]. simpl in H1. destruct (v <? _); [done|].
    pose proof (ReadBit_safe d r1 H1). by destruct (ReadBit r1).
  - pose proof (ReadExponentialGolomb_safe d r Hr). by destruct (ReadExponentialGolomb r).
  - unfold ReadSignedExponentialGolomb. pose proof (ReadExponentialGolomb_safe d r Hr).
    destruct (ReadExponentialGolomb r) as [r1 u]. by destruct (_ =? 0).
  - unfold ReadLeb128. pose proof (read_leb_safe d 9 r 0 0 Hr) as H1.
    destruct (read_leb 9 r 0 0) as [[[r1 i] b] dec]. simpl in H1.
    destruct (_ && _); [by apply Invalidate_safe|done].
  - unfold ReadString.
    pose proof (for_up_inv (λ _ s, safe d s.1) 0 (Z.to_nat n) (λ _ '(r, res),
      let '(r, c) := ReadBits r 8 in (r, res ++ [c])) (r, [] : list Z) Hr) as H1.
    destruct (for_up _ _ _ _) as [r' res]. apply H1. intros i [r1 l] Hi Hr1.
    pose proof (ReadBits_safe d r1 8 Hr1 ltac:(lia)). by destruct (ReadBits r1 8).
Qed.
End failure.

(** * Positions *)

Lemma NewWriter_at d : NewWriter d (zlen d) = writer_at d 0.
Proof. done. Qed.

Lemma NewReader_at d : NewReader d = reader_at d 0.
Proof. unfold NewReader, reader_at. f_equal. lia. Qed.

Lemma positioned_0 d : Forall uint8 d → zlen d < 2 ^ 32 → positioned d 0.
Proof. intros Hd Hl. split; [done|]. lia. Qed.

Lemma Seek_at d p a b : positioned d p → 0 ≤ a → 0 ≤ b →
  Seek (writer_at d p) a b =
    if (b <=? 7) && (8 * a + b <=? 8 * zlen d) then (writer_at d (8 * a + b), true)
    else (writer_at d p, false).
Proof.
  intros _ Ha Hb. unfold Seek. cbn [writer_at writable_bytes byte_count].
  assert (b ≤ 7 → writer_at d (8 * a + b) = MkWriter d (zlen d) a b) as E
    by (intros; unfold writer_at; f_equal; zdiv).
  destruct_cmp; try lia; try done; by rewrite E.
Qed.

(** The number [SizeNonSymmetricBits] predicts is the number of bits written. *)
Lemma SizeNonSymmetricBits_code `{BitWidth} x k : 0 ≤ x < k → k < 2 ^ 31 →
  SizeNonSymmetricBits x k = zlen (code (NonSymmetric k) (Num x)).
Proof.
  intros Hx Hk. destruct (non_symmetric_width k) as (Hl & _ & _ & Em); [lia|].
  unfold SizeNonSymmetricBits, code. rewrite bit_width_spec, Em by lia.
  destruct (x <? _); rewrite bits_of_length; lia.
Qed.

Lemma r_ConsumeBits_at d p n : positioned d p → 0 ≤ n →
  r_ConsumeBits (reader_at d p) n =
    if p + n <=? 8 * zlen d then reader_at d (p + n) else Invalidate (reader_at d p).
Proof.
  intros (_ & _ & Hp) Hn. unfold r_ConsumeBits, reader_at. cbn [r_bytes r_index remaining_bits].
  destruct_cmp; try lia; [done|]. f_equal; zdiv.
Qed.

(** With 2^61 bytes the product wraps to zero: the call succeeds and moves nothing. *)
Lemma ConsumeBytes_wraps d p : positioned d p →
  ConsumeBytes (writer_at d p) (2 ^ 61) = (writer_at d p, true).
Proof.
  intros Hp. unfold ConsumeBytes. change (u64 (2 ^ 61 * 8)) with 0.
  rewrite w_ConsumeBits_at by (done || lia). rewrite Z.add_0_r.
  destruct Hp as (_ & _ & Hp). by destruct (Z.leb_spec p (8 * zlen d)); [|lia].
Qed.

(** * Theorems *)

(** [absl::bit_width] by the binary logarithm, for examples. *)
#[local] Instance log2_width : BitWidth := {| bit_width x := Z.log2 x + 1; bit_width_spec x _ := eq_refl |}.

(** C32: bit stream round trip.  Whatever sequence of fields of all six kinds is written to
    an array with every write successful, a reader on that array that asks for the same
    shapes returns the same values, is still [Ok] and has as many bits left as the writer. *)
Theorem bitstream_roundtrip `{BitWidth} d l w :
  Forall uint8 d → 8 * zlen d ≤ INT32_MAX → Forall (λ '(s, v), valid s v) l →
  write_all (NewWriter d (zlen d)) l = (w, true) →
  ∃ r, read_all (NewReader (writable_bytes w)) l.*1 = (r, l.*2) ∧
    Ok r = true ∧ r_RemainingBitCount r = w_RemainingBitCount w.
Proof.
  intros Hd Hl Hv E. unfold INT32_MAX in Hl. assert (positioned d 0) as Hp by (apply positioned_0; [done|lia]).
  pose proof (write_all_written l d 0 Hp Hv) as W. rewrite NewWriter_at in E. rewrite E in W.
  unfold written in W. rewrite Z.add_0_l in W.
  destruct (Z.leb_spec (zlen (codes l)) (8 * zlen d)); [|by destruct W].
  destruct W as (d' & [= ->] & W). pose proof (patched_len _ _ _ _ _ W) as El.
  pose proof (writes_positioned _ _ _ _ Hp W ltac:(lia)) as Hp'.
  assert (stored d' 0 (codes l)) as Hs.
  { split; [apply positioned_0; [by apply Hp'|lia]|]. split; [lia|].
    apply (writes_at d); [lia|lia|done]. }
  exists (reader_at d' (zlen (codes l))). cbn [writer_at writable_bytes].
  rewrite NewReader_at, (read_all_code l d' 0 Hv Hs). split; [done|].
  split; [apply Ok_at; lia|]. by rewrite w_RemainingBitCount_at by done.
Qed.

Lemma bitstream_roundtrip_witness :
  ∃ w, write_all (NewWriter (replicate 10 0) 10)
    [(Bits 3, Num 5); (ExponentialGolomb, Num 6); (SignedExponentialGolomb, Num (-4));
     (NonSymmetric 5, Num 3); (Leb128, Num 300); (String 2, Str [72; 105])] = (w, true) ∧
  ∃ r, read_all (NewReader (writable_bytes w))
    [Bits 3; ExponentialGolomb; SignedExponentialGolomb; NonSymmetric 5; Leb128; String 2] =
      (r, [Num 5; Num 6; Num (-4); Num 3; Num 300; Str [72; 105]]) ∧
    Ok r = true ∧ r_RemainingBitCount r = w_RemainingBitCount w.
Proof.
  eexists. split; [vm_compute; reflexivity|].
  apply (bitstream_roundtrip (replicate 10 0)
    [(Bits 3, Num 5); (ExponentialGolomb, Num 6); (SignedExponentialGolomb, Num (-4));
     (NonSymmetric 5, Num 3); (Leb128, Num 300); (String 2, Str [72; 105])]).
  - apply Forall_replicate. cint.
  - by vm_compute.
  - do 5 (apply Forall_cons_2; [simpl; unfold uint64; lia|]). apply Forall_cons_2; [|apply Forall_nil_2].
    split; [done|]. do 2 (apply Forall_cons_2; [cint|]). apply Forall_nil_2.
  - vm_compute. reflexivity.
Defined.

(** What is written.  A sequence of writes of valid fields succeeds exactly when their
    codes fit; then the array holds the codes one after the other and is unchanged behind
    them, and the offset is the number of bits written.  A failure leaves the writer inside
    the array. *)
Lemma bitstream_writes `{BitWidth} d l :
  Forall uint8 d → zlen d < 2 ^ 32 → Forall (λ '(s, v), valid s v) l →
  let '(w, ok) := write_all (NewWriter d (zlen d)) l in
  ok = (zlen (codes l) <=? 8 * zlen d) ∧ inside d w ∧
  (ok = true → writes d (writable_bytes w) 0 (codes l) ∧
     GetCurrentOffset w = (zlen (codes l) `div` 8, zlen (codes l) `mod` 8)).
Proof.
  intros Hd Hl Hv. assert (positioned d 0) as Hp by by apply positioned_0.
  pose proof (write_all_written l d 0 Hp Hv) as W. rewrite NewWriter_at.
  unfold written in W. rewrite Z.add_0_l in W.
  destruct (Z.leb_spec (zlen (codes l)) (8 * zlen d)).
  - destruct W as (d' & -> & W). split; [done|]. split; [|done].
    exists d', (zlen (codes l)). split; [done|]. split; [|by apply (patched_len _ _ _ _ _ W)].
    by apply (writes_positioned _ _ _ _ Hp W).
  - destruct (write_all (writer_at d 0) l) as [w ok]. by destruct W as [[= ->] W].
Qed.

Lemma bitstream_writes_witness :
  let '(w, ok) := write_all (NewWriter [255; 255] 2) [(ExponentialGolomb, Num 6); (Bits 4, Num 9)] in
  ok = true ∧ writes [255; 255] (writable_bytes w) 0
    (codes [(ExponentialGolomb, Num 6); (Bits 4, Num 9)]) ∧ writable_bytes w = [0x3c; 0xff].
Proof.
  pose proof (bitstream_writes [255; 255] [(ExponentialGolomb, Num 6); (Bits 4, Num 9)]
    ltac:(do 2 (apply Forall_cons_2; [cint|]); apply Forall_nil_2) ltac:(by vm_compute)
    ltac:(do 2 (apply Forall_cons_2; [simpl; lia|]); apply Forall_nil_2)) as T.
  change (zlen [255; 255]) with 2 in T.
  destruct (write_all _ _) as [w ok] eqn:E. destruct T as (Ho & _ & T).
  assert (ok = true) as -> by (rewrite Ho; by vm_compute).
  split; [done|]. split; [apply T; done|]. vm_compute in E. by injection E as <-.
Defined.

(** C34: failure of the reader.  Whatever the array holds and whatever is asked for, the
    reader's pointer stays inside the array, and once the reader has failed every further
    read leaves it unchanged, not [Ok], and returns zeros and empty strings. *)
Theorem bitstream_reader_safe `{BitWidth} d ss :
  Forall uint8 d → zlen d < 2 ^ 32 → Forall readable ss →
  let '(r, _) := read_all (NewReader d) ss in
  safe d r ∧
  (Ok r = false → ∀ ss', Forall readable ss' → read_all r ss' = (r, nothing <$> ss')).
Proof.
  intros Hd Hl Hs. rewrite NewReader_at. unfold read_all.
  destruct (run_inv read_value (safe d) readable (λ _, True) (reader_at d 0) ss) as [Hr _].
  - intros r s Hr Hrs. split; [by apply read_value_safe|done].
  - apply safe_at. by apply positioned_0.
  - done.
  - destruct (run read_value (reader_at d 0) ss) as [r vs]. simpl in Hr. split; [done|].
    intros Ho. assert (failed r) as F.
    { destruct Hr as (_ & _ & [F|(p & -> & _ & _ & Hp)]); [done|]. rewrite Ok_at in Ho by lia. done. }
    induction ss' as [|s ss' IH]; intros Hs'; [done|]. apply Forall_cons_1 in Hs' as [Hs1 Hs2].
    rewrite (run_cons read_value _ _ _ _ _ (read_value_failed s r F Hs1)), IH by done. done.
Qed.

Lemma bitstream_reader_safe_witness :
  let '(r, _) := read_all (NewReader [0; 0; 0; 0; 7]) [Bits 4; ExponentialGolomb] in
  Ok r = false ∧ read_all r [Leb128; String 3] = (r, [Num 0; Str []]).
Proof.
  pose proof (bitstream_reader_safe [0; 0; 0; 0; 7] [Bits 4; ExponentialGolomb]
    ltac:(do 5 (apply Forall_cons_2; [cint|]); apply Forall_nil_2) ltac:(by vm_compute)
    ltac:(do 2 (apply Forall_cons_2; [simpl; lia || done|]); apply Forall_nil_2)) as T.
  destruct (read_all _ _) as [r vs] eqn:E. destruct T as [_ T].
  assert (Ok r = false) as Ho by (vm_compute in E; by injection E as <- _).
  split; [done|]. apply (T Ho). do 2 (apply Forall_cons_2; [done|]). apply Forall_nil_2.
Defined.

(** Positions.  [Seek] reaches exactly the bits of the array and its end, going back to
    the offset [GetCurrentOffset] gave included; [ConsumeBits] and [ConsumeBytes] move
    forward when that many bits are left; skipping bits in the reader has the effect of
    reading them. *)
Lemma bitstream_positions d p : positioned d p →
  (∀ a b, 0 ≤ a → 0 ≤ b → Seek (writer_at d p) a b =
     if (b <=? 7) && (8 * a + b <=? 8 * zlen d) then (writer_at d (8 * a + b), true)
     else (writer_at d p, false)) ∧
  (∀ q, positioned d q → let '(a, b) := GetCurrentOffset (writer_at d q) in
     Seek (writer_at d p) a b = (writer_at d q, true)) ∧
  (∀ n, 0 ≤ n → w_ConsumeBits (writer_at d p) n =
     if p + n <=? 8 * zlen d then (writer_at d (p + n), true) else (writer_at d p, false)) ∧
  (∀ n, 0 ≤ n < 2 ^ 61 → ConsumeBytes (writer_at d p) n = w_ConsumeBits (writer_at d p) (8 * n)) ∧
  (∀ n, 0 ≤ n ≤ 64 → r_ConsumeBits (reader_at d p) n = (ReadBits (reader_at d p) n).1).
Proof.
  intros Hp. split; [by intros; apply Seek_at|]. split; [|split; [by intros; apply w_ConsumeBits_at|split]].
  - intros q (_ & _ & Hq). simpl. rewrite Seek_at by (done || zdiv).
    assert (8 * (q `div` 8) + q `mod` 8 = q ∧ q `mod` 8 ≤ 7) as [-> ?] by zdiv.
    by destruct_cmp; try lia.
  - intros n Hn. unfold ConsumeBytes. rewrite u64_id by (unfold uint64; lia). f_equal. lia.
  - intros n Hn. rewrite r_ConsumeBits_at by (done || lia).
    pose proof (ReadBits_at d p n Hp Hn) as R. destruct (p + n <=? 8 * zlen d); [|by rewrite R].
    by destruct R as (v & -> & _).
Qed.

Lemma bitstream_positions_witness :
  Seek (writer_at [1; 2; 3] 5) 2 4 = (writer_at [1; 2; 3] 20, true) ∧
  r_ConsumeBits (reader_at [1; 2; 3] 5) 9 = (ReadBits (reader_at [1; 2; 3] 5) 9).1.
Proof.
  destruct (bitstream_positions [1; 2; 3] 5) as (S1 & _ & _ & _ & S2).
  - split; [do 3 (apply Forall_cons_2; [cint|]); apply Forall_nil_2|]. split; [by vm_compute|simpl; lia].
  - split; [exact (S1 2 4 ltac:(lia) ltac:(lia))|exact (S2 9 ltac:(lia))].
Defined.
