(* ===== verification/SeqNum.v ===== *)
(** Wrapping numbers: rtc_base/numerics/mod_ops.h, sequence_number_util.h and
    sequence_number_unwrapper.h, and the comparisons of
    modules/include/module_common_types_public.h.

    The templates take an unsigned type [T] and a number [M] at which values wrap, 0 for
    the range of the type.  They are functions of the width [w] of [T] and of [M].  The
    theorems compare them with the integers the wrapped numbers come from. *)
From S2P Require Import Prelude.

(** * Definitions *)

Definition s64 (x : Z) : Z := (x + 2 ^ 63) `mod` 2 ^ 64 - 2 ^ 63.

(** ** mod_ops.h *)

Definition Add (M a b : Z) : Z :=
  let t := M - b `mod` M in
  let res := u64 (a - t) in
  if t >? a then u64 (res + M) else res.

Definition Subtract (M a b : Z) : Z :=
  let sub := b `mod` M in
  if a <? sub then M - (sub - a) else a - sub.

Section template.
Context (w M : Z).

(** Conversion to [T]. *)
Definition to_T (x : Z) : Z := x `mod` 2 ^ w.

(** The value of a difference of two [T]: a type narrower than [int] is promoted. *)
Definition promoted (x : Z) : Z := if w <? 32 then x else to_T x.

Definition ForwardDiff (a b : Z) : Z :=
  if M >? 0 then if a <=? b then to_T (b - a) else to_T (M - (a - b)) else to_T (b - a).

Definition ReverseDiff (a b : Z) : Z :=
  if M >? 0 then if b <=? a then to_T (a - b) else to_T (M - (b - a)) else to_T (a - b).

Definition MinDiff (a b : Z) : Z := Z.min (ForwardDiff a b) (ReverseDiff a b).

(** ** sequence_number_util.h *)

Definition AheadOrAt (a b : Z) : bool :=
  if M >? 0 then
    let maxDist := M `div` 2 in
    if (Z.land M 1 =? 0) && (MinDiff a b =? maxDist) then b <? a
    else ForwardDiff b a <=? maxDist
  else
    let maxDist := (2 ^ w - 1) `div` 2 + 1 in
    if promoted (a - b) =? maxDist then b <? a
    else ForwardDiff b a <? maxDist.

Definition AheadOf (a b : Z) : bool := negb (a =? b) && AheadOrAt a b.

Definition AscendingSeqNumComp (a b : Z) : bool := AheadOf a b.
Definition DescendingSeqNumComp (a b : Z) : bool := AheadOf b a.

(** ** sequence_number_unwrapper.h *)

Record SeqNumUnwrapper : Type := MkUnwrapper {
  last_unwrapped : Z; last_value : option Z;
}.

Definition NewUnwrapper : SeqNumUnwrapper := MkUnwrapper 0 None.

Definition Delta (last_value new_value : Z) : Z :=
  let kBackwardAdjustment := if M =? 0 then (2 ^ w - 1) + 1 else M in
  let result := ForwardDiff last_value new_value in
  if negb (AheadOrAt new_value last_value) then s64 (result - kBackwardAdjustment) else result.

Definition Unwrap (u : SeqNumUnwrapper) (value : Z) : SeqNumUnwrapper * Z :=
  let l := match last_value u with
           | None => value
           | Some v => s64 (last_unwrapped u + Delta v value)
           end in
  (MkUnwrapper l (Some value), l).

Definition PeekUnwrap (u : SeqNumUnwrapper) (value : Z) : Z :=
  match last_value u with
  | None => value
  | Some v => s64 (last_unwrapped u + Delta v value)
  end.

Definition Reset (u : SeqNumUnwrapper) : SeqNumUnwrapper := MkUnwrapper 0 None.

(** ** module_common_types_public.h *)

Definition IsNewer (value prev_value : Z) : bool :=
  let kBreakpoint := ((2 ^ w - 1) ≫ 1) + 1 in
  if promoted (value - prev_value) =? kBreakpoint then value >? prev_value
  else negb (value =? prev_value) && (to_T (value - prev_value) <? kBreakpoint).
End template.

Definition IsNewerSequenceNumber (a b : Z) : bool := IsNewer 16 a b.
Definition IsNewerTimestamp (a b : Z) : bool := IsNewer 32 a b.
Definition LatestSequenceNumber (a b : Z) : Z := if IsNewerSequenceNumber a b then a else b.
Definition LatestTimestamp (a b : Z) : Z := if IsNewerTimestamp a b then a else b.

(** * The modulus *)

(** A type of width [w] and a wrap point of it. *)
Record template_args (w M : Z) : Prop := {
  width_pos : 1 ≤ w; wrap_in_type : 0 ≤ M < 2 ^ w;
}.

Definition modulus (w M : Z) : Z := if M =? 0 then 2 ^ w else M.

Lemma s64_id x : - 2 ^ 63 ≤ x < 2 ^ 63 → s64 x = x.
Proof. unfold s64. intros. rewrite Z.mod_small; lia. Qed.

Lemma Add_mod M a b : 0 < M ≤ 2 ^ 64 → 0 ≤ a < M → Add M a b = (a + b) `mod` M.
Proof.
  intros HM Ha. unfold Add. rewrite Z.gtb_ltb.
  pose proof (Z.mod_pos_bound b M ltac:(lia)). pose proof (Z.div_mod b M ltac:(lia)).
  destruct (Z.ltb_spec a (M - b `mod` M)).
  - assert (u64 (u64 (a - (M - b `mod` M)) + M) = a + b `mod` M) as ->.
    { unfold u64. rewrite Z.add_mod_idemp_l by lia. rewrite Z.mod_small; lia. }
    apply Z.mod_unique_pos with (b `div` M); lia.
  - rewrite u64_id by (unfold uint64; lia). apply Z.mod_unique_pos with (b `div` M + 1); lia.
Qed.

Lemma Subtract_mod M a b : 0 < M → 0 ≤ a < M → Subtract M a b = (a - b) `mod` M.
Proof.
  intros HM Ha. unfold Subtract.
  pose proof (Z.mod_pos_bound b M ltac:(lia)). pose proof (Z.div_mod b M ltac:(lia)).
  destruct (Z.ltb_spec a (b `mod` M)).
  - apply Z.mod_unique_pos with (- (b `div` M) - 1); lia.
  - apply Z.mod_unique_pos with (- (b `div` M)); lia.
Qed.

Section wrapping.
Context (w M : Z) (args : template_args w M).
Local Abbreviation N := (modulus w M).

Lemma modulus_bounds : 0 < N ≤ 2 ^ w ∧ (M = 0 → N = 2 ^ w) ∧ (M ≠ 0 → N = M).
Proof.
  destruct args as [Hw HM]. unfold modulus.
  assert (0 < 2 ^ w) by (apply Z.pow_pos_nonneg; lia).
  destruct (Z.eqb_spec M 0); lia.
Qed.

Lemma width_even : 2 ^ w = 2 * 2 ^ (w - 1) ∧ 0 < 2 ^ (w - 1).
Proof.
  destruct args as [Hw _]. split; [|apply Z.pow_pos_nonneg; lia].
  rewrite <-Z.pow_succ_r by lia. f_equal. lia.
Qed.

Lemma ForwardDiff_mod a b : 0 ≤ a < N → 0 ≤ b < N → ForwardDiff w M a b = (b - a) `mod` N.
Proof.
  intros Ha Hb. destruct modulus_bounds as (HN & E0 & E1). destruct args as [Hw HM].
  unfold ForwardDiff, to_T. rewrite Z.gtb_ltb. destruct (Z.ltb_spec 0 M).
  - rewrite E1 in * by lia. destruct (Z.leb_spec a b); rewrite (Z.mod_small _ (2 ^ w)) by lia.
    + by rewrite Z.mod_small by lia.
    + apply Z.mod_unique_pos with (-1); lia.
  - by rewrite E0 by lia.
Qed.

Lemma ReverseDiff_mod a b : 0 ≤ a < N → 0 ≤ b < N → ReverseDiff w M a b = (a - b) `mod` N.
Proof.
  intros Ha Hb. rewrite <-ForwardDiff_mod by done. done.
Qed.

Lemma wrapped_diff a b : 0 ≤ a < N → 0 ≤ b < N →
  (a - b) `mod` N = if b <=? a then a - b else a - b + N.
Proof.
  intros Ha Hb. destruct (Z.leb_spec b a); [by rewrite Z.mod_small by lia|].
  symmetry. apply Z.mod_unique_pos with (-1); lia.
Qed.

(** The order in one formula: the way back is not shorter, ties broken by value. *)
Lemma AheadOrAt_spec a b : 0 ≤ a < N → 0 ≤ b < N →
  AheadOrAt w M a b =
    if 2 * ((a - b) `mod` N) =? N then b <? a else 2 * ((a - b) `mod` N) <? N.
Proof.
  intros Ha Hb. pose proof (ForwardDiff_mod a b Ha Hb) as F1.
  pose proof (ForwardDiff_mod b a Hb Ha) as F2. pose proof (ReverseDiff_mod a b Ha Hb) as F3.
  destruct modulus_bounds as (HN & E0 & E1). destruct width_even as [Ew Hw1]. destruct args as [Hw HM].
  unfold AheadOrAt, MinDiff. rewrite F1, F2, F3, Z.gtb_ltb. clear F1 F2 F3.
  rewrite (wrapped_diff b a) by done. rewrite (wrapped_diff a b) by done.
  destruct (Z.ltb_spec 0 M).
  - assert (Z.land M 1 = M `mod` 2) as -> by exact (Z.land_ones M 1 ltac:(lia)).
    rewrite E1 in * by lia.
    pose proof (Z.div_mod M 2 ltac:(lia)). pose proof (Z.mod_pos_bound M 2 ltac:(lia)).
    destruct (Z.eqb_spec (M `mod` 2) 0); simpl; destruct_cmp; try lia; done.
  - assert ((2 ^ w - 1) `div` 2 + 1 = 2 ^ (w - 1)) as -> by zdiv.
    rewrite E0 in * by lia. unfold promoted, to_T.
    rewrite <-(E0 ltac:(lia)). rewrite (wrapped_diff a b), (E0 ltac:(lia)) by (rewrite E0; lia).
    destruct_cmp; try lia; done.
Qed.
(** Of two different numbers exactly one is ahead. *)
Lemma AheadOf_total a b : 0 ≤ a < N → 0 ≤ b < N → a ≠ b →
  AheadOf w M a b = negb (AheadOf w M b a).
Proof.
  intros Ha Hb Hab. pose proof modulus_bounds as (HN & _). unfold AheadOf.
  rewrite !AheadOrAt_spec, (wrapped_diff a b), (wrapped_diff b a) by done.
  destruct_cmp; try lia; done.
Qed.

Lemma residue x : 0 ≤ x `mod` N < N.
Proof. apply Z.mod_pos_bound. apply modulus_bounds. Qed.

(** Numbers less than half the modulus apart. *)
Lemma wrapped_near x y : 2 * Z.abs (x - y) < N →
  (x `mod` N - y `mod` N) `mod` N = if y <=? x then x - y else x - y + N.
Proof.
  intros H. pose proof modulus_bounds as (HN & _). rewrite <-Zminus_mod.
  destruct (Z.leb_spec y x); [by rewrite Z.mod_small by lia|].
  symmetry. apply Z.mod_unique_pos with (-1); lia.
Qed.

Lemma AheadOrAt_near x y : 2 * Z.abs (x - y) < N →
  AheadOrAt w M (x `mod` N) (y `mod` N) = (y <=? x).
Proof.
  intros H. rewrite AheadOrAt_spec, wrapped_near by (apply residue || done).
  destruct_cmp; try lia; done.
Qed.

Lemma residue_eq x y : 2 * Z.abs (x - y) < N → (x `mod` N =? y `mod` N) = (x =? y).
Proof.
  intros H. pose proof (wrapped_near x y H) as E. pose proof modulus_bounds as (HN & _).
  destruct (Z.eqb_spec x y) as [->|]; [apply Z.eqb_refl|]. apply Z.eqb_neq. intros E'.
  rewrite E', Z.sub_diag, Z.mod_0_l in E by lia. destruct (Z.leb_spec y x); lia.
Qed.

Lemma AheadOf_near x y : 2 * Z.abs (x - y) < N →
  AheadOf w M (x `mod` N) (y `mod` N) = (y <? x).
Proof.
  intros H. unfold AheadOf. rewrite AheadOrAt_near, residue_eq by done.
  destruct_cmp; try lia; done.
Qed.

Lemma Delta_near x y : w < 64 → 2 * Z.abs (y - x) < N →
  Delta w M (x `mod` N) (y `mod` N) = y - x.
Proof.
  intros Hw64 H. pose proof modulus_bounds as (HN & E0 & E1). unfold Delta.
  rewrite AheadOrAt_near, ForwardDiff_mod, wrapped_near by (apply residue || done).
  assert (2 ^ w ≤ 2 ^ 63) by (apply Z.pow_le_mono_r; destruct args; lia).
  assert ((if M =? 0 then 2 ^ w - 1 + 1 else M) = N) as ->
    by (destruct (Z.eqb_spec M 0); lia).
  destruct_cmp; [done|]. rewrite s64_id; lia.
Qed.
End wrapping.

Lemma IsNewer_AheadOf w a b : 1 ≤ w → 0 ≤ a < 2 ^ w → 0 ≤ b < 2 ^ w →
  IsNewer w a b = AheadOf w 0 a b.
Proof.
  intros Hw Ha Hb. assert (template_args w 0) as args
    by (split; [done|]; split; [lia|apply Z.pow_pos_nonneg; lia]).
  destruct (width_even w 0 args) as [Ew Hw1].
  unfold AheadOf. rewrite (AheadOrAt_spec w 0 args) by done.
  change (modulus w 0) with (2 ^ w). unfold IsNewer, promoted, to_T.
  pose proof (wrapped_diff w 0 a b Ha Hb) as E. change (modulus w 0) with (2 ^ w) in E. rewrite E.
  assert ((2 ^ w - 1) ≫ 1 + 1 = 2 ^ (w - 1)) as -> by (rewrite (shiftr_div _ 1) by lia; zdiv).
  destruct_cmp; try lia; done.
Qed.

Lemma Latest_near w a b : 1 ≤ w → 2 * Z.abs (a - b) < 2 ^ w →
  (if IsNewer w (a `mod` 2 ^ w) (b `mod` 2 ^ w) then a `mod` 2 ^ w else b `mod` 2 ^ w) =
    Z.max a b `mod` 2 ^ w.
Proof.
  intros Hw H. assert (template_args w 0) as args
    by (split; [done|]; split; [lia|apply Z.pow_pos_nonneg; lia]).
  rewrite IsNewer_AheadOf by (done || apply (residue w 0 args)).
  rewrite (AheadOf_near w 0 args a b H : AheadOf w 0 (a `mod` 2 ^ w) (b `mod` 2 ^ w) = _).
  destruct_cmp; f_equal; lia.
Qed.

(** * Theorems *)

(** Every number is less than half the modulus away from the one before. *)
Fixpoint gaps (N last : Z) (xs : list Z) : Prop :=
  match xs with [] => True | x :: xs => 2 * Z.abs (x - last) < N ∧ gaps N x xs end.

Definition int64 (x : Z) : Prop := - 2 ^ 63 ≤ x < 2 ^ 63.

Lemma Unwrap_run w M xs x : template_args w M → w < 64 → gaps (modulus w M) x xs → Forall int64 xs →
  (run (Unwrap w M) (MkUnwrapper x (Some (x `mod` modulus w M))) ((λ y, y `mod` modulus w M) <$> xs)).2 = xs.
Proof.
  intros args Hw. revert x. induction xs as [|y xs IH]; intros x Hg Hi; [done|].
  destruct Hg as [Hg1 Hg]. apply Forall_cons_1 in Hi as [Hy Hi]. cbn [fmap list_fmap].
  erewrite run_cons; [|unfold Unwrap; cbn [last_value last_unwrapped];
    rewrite (Delta_near w M args x y Hw Hg1); rewrite Zplus_minus, s64_id by exact Hy; done].
  cbn [snd]. f_equal. by apply IH.
Qed.

(** C35: sequence number order.  Two integers less than half the modulus apart are ordered
    by the wrapped comparison as they are; of two different wrapped numbers exactly one is
    ahead, whatever their distance; without a wrap point [IsNewer] is the same comparison,
    and the latest of two numbers is the wrapped maximum. *)
Theorem seqnum_order w M : template_args w M →
  (∀ x y, 2 * Z.abs (x - y) < modulus w M →
     AheadOrAt w M (x `mod` modulus w M) (y `mod` modulus w M) = (y <=? x) ∧
     AheadOf w M (x `mod` modulus w M) (y `mod` modulus w M) = (y <? x)) ∧
  (∀ a b, 0 ≤ a < modulus w M → 0 ≤ b < modulus w M → a ≠ b →
     AheadOf w M a b = negb (AheadOf w M b a)) ∧
  (∀ a b, 0 ≤ a < 2 ^ w → 0 ≤ b < 2 ^ w → IsNewer w a b = AheadOf w 0 a b) ∧
  (∀ x y, Z.abs (x - y) < 2 ^ 15 →
     LatestSequenceNumber (x `mod` 2 ^ 16) (y `mod` 2 ^ 16) = Z.max x y `mod` 2 ^ 16) ∧
  (∀ x y, Z.abs (x - y) < 2 ^ 31 →
     LatestTimestamp (x `mod` 2 ^ 32) (y `mod` 2 ^ 32) = Z.max x y `mod` 2 ^ 32).
Proof.
  intros args. split; [|split; [|split; [|split]]].
  - intros x y H. split; [by apply AheadOrAt_near|by apply AheadOf_near].
  - intros a b. by apply AheadOf_total.
  - intros a b. apply IsNewer_AheadOf. by destruct args.
  - intros x y H. apply (Latest_near 16); lia.
  - intros x y H. apply (Latest_near 32); lia.
Qed.

Lemma seqnum_order_witness :
  template_args 16 1000 ∧ AheadOf 16 1000 (1002 `mod` 1000) (998 `mod` 1000) = (998 <? 1002) ∧
  LatestSequenceNumber (65537 `mod` 2 ^ 16) (65535 `mod` 2 ^ 16) = 65537 `mod` 2 ^ 16.
Proof.
  assert (template_args 16 1000) as A by (split; simpl; lia).
  destruct (seqnum_order 16 1000 A) as (H1 & _ & _ & H2 & _). split; [done|]. split.
  - apply (H1 1002 998). by vm_compute.
  - apply (H2 65537 65535). by vm_compute.
Defined.

(** Unwrapping.  A new unwrapper fed with the wrapped values of integers that never jump
    by half the modulus or more returns exactly these integers, in any direction and over
    any number of wraps, and [PeekUnwrap] predicts the next result without changing the
    state; after [Reset] the unwrapper is as new. *)
Lemma unwrapper_exact w M x xs :
  template_args w M → w < 64 → 0 ≤ x < modulus w M → gaps (modulus w M) x xs → Forall int64 xs →
  (run (Unwrap w M) NewUnwrapper ((λ y, y `mod` modulus w M) <$> x :: xs)).2 = x :: xs ∧
  (∀ u v, PeekUnwrap w M u v = (Unwrap w M u v).2 ∧ Reset u = NewUnwrapper).
Proof.
  intros args Hw Hx Hg Hi. split; [|done]. cbn [fmap list_fmap].
  rewrite (run_cons (Unwrap w M) NewUnwrapper (x `mod` modulus w M) _
    (MkUnwrapper x (Some (x `mod` modulus w M))) x); [|by rewrite Z.mod_small by done].
  cbn [snd]. f_equal. by apply Unwrap_run.
Qed.

Lemma unwrapper_exact_witness :
  (run (Unwrap 8 0) NewUnwrapper [250; 5; 130; 250; 30]).2 = [250; 261; 386; 506; 542].
Proof.
  refine (proj1 (unwrapper_exact 8 0 250 [261; 386; 506; 542] _ _ _ _ _)).
  - split; [lia|]. simpl. lia.
  - lia.
  - unfold modulus. simpl. lia.
  - unfold modulus. simpl. lia.
  - do 4 (apply Forall_cons_2; [unfold int64; lia|]). apply Forall_nil_2.
Defined.
