(* ===== verification/RtpLeb128.v ===== *)
(** The byte-wise LEB128 functions of modules/rtp_rtcp/source/leb128.cc, and that they agree
    with the methods of the bit stream classes.

    A pointer into a buffer is an index, [nullptr] is [None].  The loops run at most nine
    turns for a [uint64_t], which is their fuel. *)
From S2P Require Import Prelude BitStream BitFields.

(** * Definitions *)

Fixpoint size_loop (fuel : nat) (size value : Z) : Z :=
  match fuel with
  | S fuel => if value >=? 0x80 then size_loop fuel (size + 1) (value ≫ 7) else size + 1
  | O => size + 1
  end.
Definition Leb128Size (value : Z) : Z := size_loop 9 0 value.

(** The loop of [ReadLeb128]: [inl] is the [return] in its body, [inr] the state after it. *)
Fixpoint read_loop (fuel : nat) (bytes : list Z) (read_at end_ value fill_bits : Z)
  : Z * Z + Z * Z * Z :=
  match fuel with
  | S fuel =>
      if negb (read_at =? end_) && (fill_bits <? 64 - 7) then
        let leb128_byte := bytes.[read_at] in
        let value := Z.lor value (u64 (Z.land leb128_byte 0x7F ≪ fill_bits)) in
        let read_at := read_at + 1 in
        let fill_bits := fill_bits + 7 in
        if Z.land leb128_byte 0x80 =? 0 then inl (read_at, value)
        else read_loop fuel bytes read_at end_ value fill_bits
      else inr (read_at, value, fill_bits)
  | O => inr (read_at, value, fill_bits)
  end.

(** What follows the loop. *)
Definition read_end (bytes : list Z) (end_ : Z) (s : Z * Z + Z * Z * Z) : option Z * Z :=
  match s with
  | inl (read_at, value) => (Some read_at, value)
  | inr (read_at, value, fill_bits) =>
      if negb (read_at =? end_) && (bytes.[read_at] <=? 1)
      then (Some (read_at + 1), Z.lor value (u64 (bytes.[read_at] ≪ fill_bits)))
      else (None, 0)
  end.
Definition ReadLeb128 (bytes : list Z) (read_at end_ : Z) : option Z * Z :=
  read_end bytes end_ (read_loop 9 bytes read_at end_ 0 0).

Fixpoint write_loop (fuel : nat) (buffer : list Z) (size value : Z) : list Z * Z :=
  let last := (wr buffer size (u8 value), size + 1) in
  match fuel with
  | S fuel =>
      if value >=? 0x80
      then write_loop fuel (wr buffer size (u8 (Z.lor 0x80 (Z.land value 0x7F)))) (size + 1) (value ≫ 7)
      else last
  | O => last
  end.
Definition WriteLeb128 (value : Z) (buffer : list Z) : list Z * Z := write_loop 9 buffer 0 value.

(** * Size and writing *)

Lemma leb_step v fuel : 0 ≤ v < 2 ^ (7 * (Z.of_nat (S fuel) + 1)) →
  0 ≤ v `div` 128 < 2 ^ (7 * (Z.of_nat fuel + 1)).
Proof.
  intros Hv. split; [zdiv|]. apply Z.div_lt_upper_bound; [lia|].
  change 128 with (2 ^ 7). rewrite <-Z.pow_add_r by lia.
  replace (7 + 7 * (Z.of_nat fuel + 1)) with (7 * (Z.of_nat (S fuel) + 1)) by lia. lia.
Qed.

Lemma size_loop_bytes fuel size v : 0 ≤ v →
  size_loop fuel size v = size + zlen (leb_bytes fuel v).
Proof.
  revert size v. induction fuel as [|fuel IH]; intros size v Hv; [done|]. simpl.
  rewrite Z.geb_leb. destruct (leb_byte v Hv) as (_ & E & _).
  destruct (Z.leb_spec 128 v); destruct (Z.ltb_spec v 128); try lia; [|done].
  rewrite E, IH by zdiv. simpl length. lia.
Qed.

Lemma write_loop_bytes fuel buffer size v :
  0 ≤ v < 2 ^ (7 * (Z.of_nat fuel + 1)) → 0 ≤ size → size + zlen (leb_bytes fuel v) ≤ zlen buffer →
  write_loop fuel buffer size v =
    (store buffer size (leb_bytes fuel v), size + zlen (leb_bytes fuel v)).
Proof.
  revert buffer size v. induction fuel as [|fuel IH]; intros buffer size v Hv Hs Hl.
  - simpl in *. rewrite u8_id by cint. by rewrite store_1 by lia.
  - cbn [write_loop leb_bytes] in *. rewrite Z.geb_leb.
    destruct (leb_byte v) as (E1 & E2 & E3); [lia|].
    destruct (Z.leb_spec 128 v); destruct (Z.ltb_spec v 128); try lia.
    + rewrite (Z.lor_comm 0x80), E3, E2, u8_id by (unfold uint8; zdiv).
      simpl length in Hl. rewrite IH; [|by apply leb_step|lia|rewrite wr_length; lia].
      simpl length. rewrite store_cons by (simpl length; lia). f_equal. lia.
    + rewrite u8_id by cint. by rewrite store_1 by (simpl in Hl; lia).
Qed.

(** * Reading *)

(** The result of the bit stream's [ReadLeb128] from the state its loop ends in. *)
Definition bit_end (s : BitstreamReader * Z * Z * Z) : BitstreamReader * Z :=
  let '(r, i, byte, decoded) := s in
  let r := if (i =? 10) && (byte >? 1) then Invalidate r else r in
  (r, if Ok r then decoded else 0).

(** Both readers fail, or both return the same value and the same position. *)
Definition agree (d : list Z) (x : option Z * Z) (y : BitstreamReader * Z) : Prop :=
  x.2 = y.2 ∧
  match x.1 with
  | Some j => 0 ≤ j ≤ zlen d ∧ y.1 = reader_at d (8 * j)
  | None => Ok y.1 = false
  end.

Lemma end_of_data d r i x : agree d (None, 0) (bit_end (Invalidate r, i, 0, x)).
Proof. unfold bit_end. change (0 >? 1) with false. by rewrite andb_false_r. Qed.

Section agreement.
Context (d : list Z) (Hd : Forall uint8 d) (Hl : zlen d < 2 ^ 32).

Lemma ReadByte_at a : 0 ≤ a ≤ zlen d →
  ReadBits (reader_at d (8 * a)) 8 =
    if a =? zlen d then (Invalidate (reader_at d (8 * a)), 0)
    else (reader_at d (8 * (a + 1)), d.[a]).
Proof.
  intros Ha. assert (positioned d (8 * a)) as Hp by (split; [done|lia]).
  pose proof (ReadBits_at d (8 * a) 8 Hp ltac:(lia)) as R.
  destruct (Z.eqb_spec a (zlen d)).
  - by destruct (Z.leb_spec (8 * a + 8) (8 * zlen d)); [lia|].
  - destruct (Z.leb_spec (8 * a + 8) (8 * zlen d)); [|lia].
    destruct R as (v & -> & Hv). f_equal; [f_equal; lia|]. apply Z.bits_inj'. intros j Hj.
    rewrite Hv by done. destruct (Z.ltb_spec j 8).
    + rewrite byte_bit by lia. simpl. f_equal. lia.
    + rewrite testbit_uint8_high; [done|apply rd_Forall; [done|cint]|done].
Qed.

Lemma readers_agree rest k a v :
  Z.of_nat rest + k = 9 → 0 ≤ k → 0 ≤ a ≤ zlen d → 0 ≤ v < 2 ^ (7 * k) →
  agree d (read_end d (zlen d) (read_loop rest d a (zlen d) v (7 * k)))
    (bit_end (read_leb rest (reader_at d (8 * a)) k v)).
Proof.
  revert k a v. induction rest as [|rest IH]; intros k a v Hk Hk0 Ha Hv;
    cbn [read_loop read_leb]; rewrite ReadByte_at by done;
    (destruct (Z.eqb_spec a (zlen d)) as [E|E];
      [rewrite E; cbn [negb andb read_end]; rewrite ?Z.eqb_refl; apply end_of_data|]);
    assert (uint8 (d.[a])) as Hc by (apply rd_Forall; [done|cint]);
    destruct (continue_bit _ Hc) as [Hm Hb]; rewrite Hm; unfold uint8 in Hc.
  - replace k with 9 in * by lia. cbn [read_end bit_end]. change (7 * 9) with 63 in *.
    change (9 + 1 =? 10) with true. rewrite Z.gtb_ltb.
    destruct (Z.eqb_spec a (zlen d)); [done|]. cbn [negb andb].
    destruct (Z.leb_spec (d.[a]) 1); destruct (Z.ltb_spec 1 (d.[a])); try lia; [|by split].
    rewrite Z.mod_small by lia.
    rewrite u64_id by (rewrite Z.shiftl_mul_pow2 by lia; unfold uint64; lia).
    rewrite lor_shiftl_disjoint, Z.shiftl_mul_pow2 by lia. rewrite Ok_at by lia.
    split; [|split; [lia|done]]. cbn [snd]. rewrite u64_id; [done|]. unfold uint64. lia.
  - assert (7 * k < 64 - 7) by lia. destruct (Z.ltb_spec (7 * k) (64 - 7)); [|lia]. cbn [negb andb].
    assert (0 ≤ (d.[a]) `mod` 128 < 128) as Hx by (apply Z.mod_pos_bound; lia).
    set (x := (d.[a]) `mod` 128) in *.
    assert (2 ^ (7 * (k + 1)) = 128 * 2 ^ (7 * k)) as Ek.
    { replace (7 * (k + 1)) with (7 + 7 * k) by lia. by rewrite Z.pow_add_r by lia. }
    assert (2 ^ (7 * (k + 1)) ≤ 2 ^ 63) as Hk63 by (apply Z.pow_le_mono_r; lia).
    rewrite (u64_id (x ≪ _)) by (rewrite Z.shiftl_mul_pow2 by lia; unfold uint64; nia).
    rewrite lor_shiftl_disjoint, Z.shiftl_mul_pow2, u64_id by (lia || unfold uint64; nia).
    destruct (Z.land (d.[a]) 0x80 =? 0); cbn [negb].
    + cbn [read_end bit_end]. replace (k + 1 =? 10) with false by (symmetry; apply Z.eqb_neq; lia).
      cbn [andb]. rewrite Ok_at by lia. split; [done|]. split; [lia|done].
    + replace (7 * k + 7) with (7 * (k + 1)) by lia. apply IH; [lia|lia|lia|nia].
Qed.
End agreement.

Lemma bytes_at d a data : Forall uint8 data → 0 ≤ a → a + zlen data ≤ zlen d →
  (∀ i, 0 ≤ i < zlen data → d.[a + i] = data.[i]) → bits_at d (8 * a) (bytes_code data).
Proof.
  intros Hc. revert a. induction Hc as [|c data Hc Hdata IH]; intros a Ha Hl E.
  - intros i Hi. simpl in Hi. lia.
  - rewrite bytes_code_cons. apply bits_at_app. rewrite bits_of_length. simpl length in *. split.
    + intros i Hi. rewrite bits_of_length in Hi. rewrite bits_of_nth by lia.
      unfold bit, low_bits. replace ((8 * a + i) `div` 8) with (a + 0) by zdiv.
      rewrite E by lia. f_equal. zdiv.
    + replace (8 * a + Z.of_nat 8) with (8 * (a + 1)) by lia. apply IH; [lia|lia|].
      intros i Hi. replace (a + 1 + i) with (a + (1 + i)) by lia. rewrite E by lia.
      change (c :: data) with ([c] ++ data). rewrite rd_app_r by (simpl length; lia).
      f_equal. simpl length. lia.
Qed.

Lemma leb_bytes_size fuel v : (1 ≤ length (leb_bytes fuel v) ≤ S fuel)%nat.
Proof.
  revert v. induction fuel as [|fuel IH]; intros v; simpl; [lia|].
  destruct (v <? 128); simpl; [lia|]. specialize (IH (v `div` 128)). lia.
Qed.

(** A position and a value in agreement with a reader that succeeded. *)
Lemma agree_at d x p v : 0 ≤ p ≤ zlen d →
  agree d x (reader_at d (8 * p), v) → x = (Some p, v).
Proof.
  intros Hp [E1 E2]. destruct x as [[j|] u]; simpl in *; subst u.
  - destruct E2 as [Hj E]. injection E as _ E. f_equal. f_equal. lia.
  - rewrite Ok_at in E2 by lia. done.
Qed.

(** * Theorems *)

(** Byte-wise LEB128.  On every array and from every position the byte-wise reader and
    the bit stream reader return the same value and stop at the same place, or both fail;
    the byte-wise writer stores the bytes of [leb_bytes], which the bit stream writer writes,
    as many as [Leb128Size] says, at most ten; and the reader returns what it stored. *)
Lemma leb128_agree :
  (∀ d a, Forall uint8 d → zlen d < 2 ^ 32 → 0 ≤ a ≤ zlen d →
     agree d (ReadLeb128 d a (zlen d)) (BitStream.ReadLeb128 (reader_at d (8 * a)))) ∧
  (∀ v buffer, uint64 v → Forall uint8 buffer → Leb128Size v ≤ zlen buffer < 2 ^ 32 →
     1 ≤ Leb128Size v ≤ 10 ∧ Leb128Size v = zlen (leb_bytes 9 v) ∧
     WriteLeb128 v buffer = (store buffer 0 (leb_bytes 9 v), Leb128Size v) ∧
     (∀ w, BitStream.WriteLeb128 w v = WriteString w (leb_bytes 9 v)) ∧
     ReadLeb128 (store buffer 0 (leb_bytes 9 v)) 0 (zlen buffer) = (Some (Leb128Size v), v)).
Proof.
  split.
  - intros d a Hd Hl Ha. apply (readers_agree d Hd Hl 9 0 a 0); [done|lia|done|]. simpl. lia.
  - intros v buffer Hv Hb Hs. unfold uint64 in Hv.
    assert (0 ≤ v < 2 ^ (7 * (Z.of_nat 9 + 1))) as Hv' by (simpl; lia).
    assert (Leb128Size v = zlen (leb_bytes 9 v)) as E by (apply (size_loop_bytes 9 0); lia).
    rewrite E in *. pose proof (leb_bytes_size 9 v).
    pose proof (leb_bytes_uint8 9 v Hv') as Hu. set (data := leb_bytes 9 v) in *.
    assert (length (store buffer 0 data) = length buffer) as El by (apply store_length; lia).
    split; [lia|]. split; [done|]. split; [apply (write_loop_bytes 9); [done|done|exact (proj1 Hs)]|].
    split; [intros w; by apply (write_leb_bytes 9)|].
    set (d := store buffer 0 data) in *.
    assert (Forall uint8 d) as Hd by by apply store_Forall.
    apply (agree_at d); [rewrite El; lia|].
    assert (agree d (ReadLeb128 d 0 (zlen d)) (BitStream.ReadLeb128 (reader_at d (8 * 0)))) as A.
    { apply (readers_agree d Hd) with (rest := 9%nat) (k := 0) (v := 0); simpl; lia. }
    rewrite El in A.
    assert (stored d (8 * 0) (bytes_code data)) as Hst.
    { split; [split; [done|]; rewrite El; lia|]. split; [rewrite bytes_code_length, El; lia|].
      apply bytes_at; [done|lia|rewrite El; lia|]. intros i Hi. unfold d.
      rewrite rd_store by lia. destruct_cmp; try lia. f_equal. lia. }
    pose proof (ReadLeb128_code d (8 * 0) v Hv Hst) as R. rewrite bytes_code_length in R.
    change (8 * 0 + 8 * zlen data) with (8 * zlen data) in R.
    by rewrite R in A.
Qed.

Lemma leb128_agree_witness :
  WriteLeb128 300 [9; 9; 9] = ([0xac; 2; 9], 2) ∧ ReadLeb128 [0xac; 2; 9] 0 3 = (Some 2, 300) ∧
  agree [0x80; 0x80] (ReadLeb128 [0x80; 0x80] 1 2) (BitStream.ReadLeb128 (reader_at [0x80; 0x80] 8)).
Proof.
  destruct leb128_agree as [A W]. destruct (W 300 [9; 9; 9]) as (_ & _ & W1 & _ & W2).
  - unfold uint64. lia.
  - do 3 (apply Forall_cons_2; [cint|]). apply Forall_nil_2.
  - by vm_compute.
  - split; [exact W1|]. split; [exact W2|]. apply (A [0x80; 0x80] 1).
    + do 2 (apply Forall_cons_2; [cint|]). apply Forall_nil_2.
    + by vm_compute.
    + simpl. lia.
Defined.
