(* ===== verification/ByteIo.v ===== *)
(** Integers in byte sequences: modules/rtp_rtcp/source/byte_io.h.

    The class templates take a type, here its size [S] in bytes, and the number [B] of bytes
    of the representation.  The specialisations for 1, 2, 4 and 8 bytes are written out as in
    the source and selected as by the compiler.  The theorems show that every instance
    represents integers in base 256, and the round trip of the signed ones. *)
From S2P Require Import Prelude.

(** * Definitions *)

(** Conversion to the unsigned type of [S] bytes. *)
Definition to_U (S x : Z) : Z := x `mod` 2 ^ (8 * S).

(** ** ByteReader, unsigned *)

Definition InternalReadBigEndian (S B : Z) (data : list Z) (p : Z) : Z :=
  for_up 0 (Z.to_nat B) (λ i val, Z.lor val (to_U S (data.[p + i] ≪ ((B - 1 - i) * 8)))) 0.

Definition InternalReadLittleEndian (S B : Z) (data : list Z) (p : Z) : Z :=
  for_up 0 (Z.to_nat B) (λ i val, Z.lor val (to_U S (data.[p + i] ≪ (i * 8)))) 0.

Definition Get (S : Z) (data : list Z) (index : Z) : Z := to_U S (data.[index]).

(** [Get(data, index) << n] in the type. *)
Definition GetShl (S : Z) (data : list Z) (index n : Z) : Z := to_U S (Get S data index ≪ n).

Definition ReadBigEndian_2 (S : Z) (data : list Z) (p : Z) : Z :=
  to_U S (Z.lor (data.[p] ≪ 8) (data.[p + 1])).
Definition ReadLittleEndian_2 (S : Z) (data : list Z) (p : Z) : Z :=
  to_U S (Z.lor (data.[p]) (data.[p + 1] ≪ 8)).

Definition ReadBigEndian_4 (S : Z) (data : list Z) (p : Z) : Z :=
  Z.lor (Z.lor (Z.lor (GetShl S data p 24) (GetShl S data (p + 1) 16)) (GetShl S data (p + 2) 8))
    (Get S data (p + 3)).
Definition ReadLittleEndian_4 (S : Z) (data : list Z) (p : Z) : Z :=
  Z.lor (Z.lor (Z.lor (Get S data p) (GetShl S data (p + 1) 8)) (GetShl S data (p + 2) 16))
    (GetShl S data (p + 3) 24).

Definition ReadBigEndian_8 (S : Z) (data : list Z) (p : Z) : Z :=
  Z.lor (Z.lor (Z.lor (Z.lor (Z.lor (Z.lor (Z.lor
    (GetShl S data p 56) (GetShl S data (p + 1) 48)) (GetShl S data (p + 2) 40))
    (GetShl S data (p + 3) 32)) (GetShl S data (p + 4) 24)) (GetShl S data (p + 5) 16))
    (GetShl S data (p + 6) 8)) (Get S data (p + 7)).
Definition ReadLittleEndian_8 (S : Z) (data : list Z) (p : Z) : Z :=
  Z.lor (Z.lor (Z.lor (Z.lor (Z.lor (Z.lor (Z.lor
    (Get S data p) (GetShl S data (p + 1) 8)) (GetShl S data (p + 2) 16))
    (GetShl S data (p + 3) 24)) (GetShl S data (p + 4) 32)) (GetShl S data (p + 5) 40))
    (GetShl S data (p + 6) 48)) (GetShl S data (p + 7) 56).

Definition ReadBigEndian (S B : Z) (data : list Z) (p : Z) : Z :=
  if B =? 1 then data.[p] else if B =? 2 then ReadBigEndian_2 S data p
  else if B =? 4 then ReadBigEndian_4 S data p else if B =? 8 then ReadBigEndian_8 S data p
  else InternalReadBigEndian S B data p.
Definition ReadLittleEndian (S B : Z) (data : list Z) (p : Z) : Z :=
  if B =? 1 then data.[p] else if B =? 2 then ReadLittleEndian_2 S data p
  else if B =? 4 then ReadLittleEndian_4 S data p else if B =? 8 then ReadLittleEndian_8 S data p
  else InternalReadLittleEndian S B data p.

(** ** ByteReader, signed *)

Definition ReinterpretAsSigned (S unsigned_val : Z) : Z :=
  let kUnsignedHighestBitMask := 1 ≪ (S * 8 - 1) in
  let kSignedHighestBitMask := - 2 ^ (S * 8 - 1) in
  if negb (Z.land unsigned_val kUnsignedHighestBitMask =? 0)
  then Z.lor (Z.land unsigned_val (to_U S (Z.lnot kUnsignedHighestBitMask))) kSignedHighestBitMask
  else unsigned_val.

(** The mask is computed in [int], so the shift is defined for at most three bytes, or for as many
    as the type has, where the count is zero.  For an [int64_t] of four to seven bytes the code is
    undefined; the definition, which wraps, says nothing there. *)
Definition SignExtend (S B val : Z) : Z :=
  let kMsb := u8 (val ≫ ((B - 1) * 8)) in
  if negb (Z.land kMsb 0x80 =? 0) then
    let kUsedBitsMask := to_U S (sub32 (shl32 1 (B `mod` S * 8)) 1) in
    to_U S (Z.lor (Z.lnot kUsedBitsMask) val)
  else val.

Definition ReadBigEndian_signed (S B : Z) (data : list Z) (p : Z) : Z :=
  let unsigned_val := ReadBigEndian S B data p in
  ReinterpretAsSigned S (if B <? S then SignExtend S B unsigned_val else unsigned_val).
Definition ReadLittleEndian_signed (S B : Z) (data : list Z) (p : Z) : Z :=
  let unsigned_val := ReadLittleEndian S B data p in
  ReinterpretAsSigned S (if B <? S then SignExtend S B unsigned_val else unsigned_val).

(** ** ByteWriter *)

Definition WriteBigEndian_generic (B : Z) (data : list Z) (p val : Z) : list Z :=
  for_up 0 (Z.to_nat B) (λ i data, wr data (p + i) (u8 (val ≫ ((B - 1 - i) * 8)))) data.
Definition WriteLittleEndian_generic (B : Z) (data : list Z) (p val : Z) : list Z :=
  for_up 0 (Z.to_nat B) (λ i data, wr data (p + i) (u8 (val ≫ (i * 8)))) data.

(** The assignments [data[i] = val >> n] of a specialisation. *)
Definition put (p val : Z) (data : list Z) (ns : list Z) : list Z :=
  foldl (λ data '(i, n), wr data (p + i) (u8 (val ≫ n))) data (zip (seqZ 0 (zlen ns)) ns).

Definition WriteBigEndian_1 (data : list Z) (p val : Z) : list Z := put p val data [0].
Definition WriteLittleEndian_1 (data : list Z) (p val : Z) : list Z := put p val data [0].
Definition WriteBigEndian_2 (data : list Z) (p val : Z) : list Z := put p val data [8; 0].
Definition WriteLittleEndian_2 (data : list Z) (p val : Z) : list Z := put p val data [0; 8].
Definition WriteBigEndian_4 (data : list Z) (p val : Z) : list Z := put p val data [24; 16; 8; 0].
Definition WriteLittleEndian_4 (data : list Z) (p val : Z) : list Z := put p val data [0; 8; 16; 24].
Definition WriteBigEndian_8 (data : list Z) (p val : Z) : list Z := put p val data [56; 48; 40; 32; 24; 16; 8; 0].
Definition WriteLittleEndian_8 (data : list Z) (p val : Z) : list Z := put p val data [0; 8; 16; 24; 32; 40; 48; 56].

Definition WriteBigEndian (B : Z) (data : list Z) (p val : Z) : list Z :=
  if B =? 1 then WriteBigEndian_1 data p val else if B =? 2 then WriteBigEndian_2 data p val
  else if B =? 4 then WriteBigEndian_4 data p val else if B =? 8 then WriteBigEndian_8 data p val
  else WriteBigEndian_generic B data p val.

Definition WriteLittleEndian (B : Z) (data : list Z) (p val : Z) : list Z :=
  if B =? 1 then WriteLittleEndian_1 data p val else if B =? 2 then WriteLittleEndian_2 data p val
  else if B =? 4 then WriteLittleEndian_4 data p val else if B =? 8 then WriteLittleEndian_8 data p val
  else WriteLittleEndian_generic B data p val.

Definition ReinterpretAsUnsigned (S val : Z) : Z := to_U S val.
Definition WriteBigEndian_signed (S B : Z) (data : list Z) (p val : Z) : list Z :=
  WriteBigEndian B data p (ReinterpretAsUnsigned S val).
Definition WriteLittleEndian_signed (S B : Z) (data : list Z) (p val : Z) : list Z :=
  WriteLittleEndian B data p (ReinterpretAsUnsigned S val).

(** * Base 256 *)

Fixpoint be_value (l : list Z) : Z :=
  match l with [] => 0 | b :: l => b * 256 ^ zlen l + be_value l end.
Fixpoint le_value (l : list Z) : Z :=
  match l with [] => 0 | b :: l => b + 256 * le_value l end.

Fixpoint be_bytes (n : nat) (v : Z) : list Z :=
  match n with O => [] | S n => u8 (v ≫ (8 * Z.of_nat n)) :: be_bytes n v end.
Fixpoint le_bytes (n : nat) (v : Z) : list Z :=
  match n with O => [] | S n => u8 v :: le_bytes n (v ≫ 8) end.

Lemma be_bytes_length n v : length (be_bytes n v) = n.
Proof. induction n; simpl; lia. Qed.

Lemma le_bytes_length n v : length (le_bytes n v) = n.
Proof. revert v. induction n as [|n IH]; intros v; simpl; [done|]. by rewrite IH. Qed.

Lemma pow256 n : 256 ^ Z.of_nat n = 2 ^ (8 * Z.of_nat n).
Proof. rewrite Z.pow_mul_r by lia. done. Qed.

Lemma be_value_bytes n v : be_value (be_bytes n v) = v `mod` 256 ^ Z.of_nat n.
Proof.
  induction n as [|n IH]; simpl be_bytes; [by rewrite Z.mod_1_r|]. cbn [be_value].
  rewrite IH, be_bytes_length, Z.shiftr_div_pow2 by lia. unfold u8.
  rewrite Nat2Z.inj_succ, Z.pow_succ_r by lia. rewrite <-pow256.
  rewrite (Z.mul_comm 256), Z.rem_mul_r by lia. lia.
Qed.

Lemma le_value_bytes n v : le_value (le_bytes n v) = v `mod` 256 ^ Z.of_nat n.
Proof.
  revert v. induction n as [|n IH]; intros v; simpl le_bytes; [by rewrite Z.mod_1_r|].
  cbn [le_value]. rewrite IH, Z.shiftr_div_pow2 by lia. unfold u8.
  rewrite Nat2Z.inj_succ, Z.pow_succ_r, Z.rem_mul_r by lia. done.
Qed.

Lemma be_value_bound l : Forall uint8 l → 0 ≤ be_value l < 256 ^ zlen l.
Proof.
  induction 1 as [|b l Hb Hl IH]; [simpl; lia|]. cbn [be_value]. simpl length.
  rewrite Nat2Z.inj_succ, Z.pow_succ_r by lia. unfold uint8 in Hb. nia.
Qed.

(** * Reading *)

Section reading.
Context (S : Z) (data : list Z) (Hd : Forall uint8 data).

Lemma byte_range i : 0 ≤ data.[i] ≤ 255.
Proof. apply (rd_Forall uint8); [done|cint]. Qed.

Lemma piece_id i n : 0 ≤ n → n + 8 ≤ 8 * S → to_U S (data.[i] ≪ n) = data.[i] * 2 ^ n.
Proof.
  intros Hn Hs. rewrite Z.shiftl_mul_pow2 by done. pose proof (byte_range i).
  assert (2 ^ (n + 8) ≤ 2 ^ (8 * S)) by (apply Z.pow_le_mono_r; lia).
  rewrite Z.pow_add_r in * by lia. unfold to_U. apply Z.mod_small. nia.
Qed.

Lemma GetShl_id i n : 0 ≤ n → n + 8 ≤ 8 * S → GetShl S data i n = to_U S (data.[i] ≪ n).
Proof.
  intros Hn Hs. unfold GetShl, Get. f_equal. f_equal.
  rewrite <-(Z.shiftl_0_r (data.[i])) at 1. rewrite piece_id by lia. lia.
Qed.

Lemma Get_id i : 1 ≤ S → Get S data i = to_U S (data.[i] ≪ 0).
Proof. intros. unfold Get. by rewrite Z.shiftl_0_r. Qed.

Lemma be_loop B n i p X :
  0 ≤ i → 0 ≤ p → i + Z.of_nat n = B → B ≤ S → p + B ≤ zlen data → 0 ≤ X →
  for_up i n (λ j val, Z.lor val (to_U S (data.[p + j] ≪ ((B - 1 - j) * 8)))) (X * 2 ^ (8 * Z.of_nat n)) =
    X * 2 ^ (8 * Z.of_nat n) + be_value (slice data (p + i) (Z.of_nat n)).
Proof.
  revert i X. induction n as [|n IH]; intros i X Hi Hp HB HS Hl HX.
  - change (Z.of_nat 0) with 0. rewrite slice_0. simpl. lia.
  - cbn [for_up]. rewrite slice_cons by lia. cbn [be_value]. rewrite slice_length by lia.
    replace (B - 1 - i) with (Z.of_nat n) by lia. rewrite piece_id by lia.
    replace (Z.of_nat (Datatypes.S n) - 1) with (Z.of_nat n) by lia.
    pose proof (byte_range (p + i)). rewrite Z2Nat.id by lia.
    replace (Z.of_nat n * 8) with (8 * Z.of_nat n) by lia.
    assert (2 ^ (8 * Z.of_nat (Datatypes.S n)) = 2 ^ (8 * Z.of_nat n) * 256) as E.
    { replace (8 * Z.of_nat (Datatypes.S n)) with (8 * Z.of_nat n + 8) by lia.
      by rewrite Z.pow_add_r by lia. }
    assert (0 < 2 ^ (8 * Z.of_nat n)) by (apply Z.pow_pos_nonneg; lia).
    rewrite Z.lor_comm, <-(Z.shiftl_mul_pow2 X) by lia.
    rewrite lor_shiftl_disjoint by (lia || rewrite E; nia). rewrite E.
    replace (data.[p + i] * 2 ^ (8 * Z.of_nat n) + X * (2 ^ (8 * Z.of_nat n) * 256))
      with ((X * 256 + data.[p + i]) * 2 ^ (8 * Z.of_nat n)) by lia.
    rewrite IH by lia. rewrite pow256. replace (p + (i + 1)) with (p + i + 1) by lia.
    rewrite Z.shiftl_mul_pow2, E by lia. ring.
Qed.

Lemma le_loop B n i p X :
  0 ≤ i → 0 ≤ p → i + Z.of_nat n = B → B ≤ S → p + B ≤ zlen data → 0 ≤ X < 2 ^ (8 * i) →
  for_up i n (λ j val, Z.lor val (to_U S (data.[p + j] ≪ (j * 8)))) X =
    X + 2 ^ (8 * i) * le_value (slice data (p + i) (Z.of_nat n)).
Proof.
  revert i X. induction n as [|n IH]; intros i X Hi Hp HB HS Hl HX.
  - change (Z.of_nat 0) with 0. rewrite slice_0. simpl. lia.
  - cbn [for_up]. rewrite slice_cons by lia. cbn [le_value].
    rewrite piece_id by lia. replace (Z.of_nat (Datatypes.S n) - 1) with (Z.of_nat n) by lia.
    pose proof (byte_range (p + i)). replace (i * 8) with (8 * i) by lia.
    assert (2 ^ (8 * (i + 1)) = 256 * 2 ^ (8 * i)) as E.
    { replace (8 * (i + 1)) with (8 + 8 * i) by lia. by rewrite Z.pow_add_r by lia. }
    rewrite <-(Z.shiftl_mul_pow2 (data.[p + i])), lor_shiftl_disjoint by lia.
    rewrite IH by (lia || rewrite E; nia). rewrite E. replace (p + (i + 1)) with (p + i + 1) by lia. lia.
Qed.

Lemma InternalReadBigEndian_value B p : 0 ≤ p → 0 ≤ B ≤ S → p + B ≤ zlen data →
  InternalReadBigEndian S B data p = be_value (slice data p B).
Proof.
  intros Hp HB Hl. unfold InternalReadBigEndian.
  pose proof (be_loop B (Z.to_nat B) 0 p 0) as E. rewrite Z2Nat.id, Z.add_0_r in E by lia.
  rewrite Z.mul_0_l in E. rewrite E; lia.
Qed.

Lemma InternalReadLittleEndian_value B p : 0 ≤ p → 0 ≤ B ≤ S → p + B ≤ zlen data →
  InternalReadLittleEndian S B data p = le_value (slice data p B).
Proof.
  intros Hp HB Hl. unfold InternalReadLittleEndian.
  pose proof (le_loop B (Z.to_nat B) 0 p 0) as E. rewrite Z2Nat.id, Z.add_0_r in E by lia.
  rewrite E; lia.
Qed.

(** The specialisations compute what the general loop does. *)
Lemma ReadBigEndian_value B p : 0 ≤ p → 1 ≤ B ≤ S → p + B ≤ zlen data →
  ReadBigEndian S B data p = be_value (slice data p B).
Proof.
  intros Hp HB Hl. unfold ReadBigEndian.
  destruct (Z.eqb_spec B 1) as [->|].
  { rewrite slice_cons, slice_0 by lia. simpl. lia. }
  destruct (Z.eqb_spec B 2) as [->|].
  { unfold ReadBigEndian_2. rewrite slice_cons, slice_cons, slice_0 by lia. simpl be_value.
    pose proof (byte_range p). pose proof (byte_range (p + 1)).
    rewrite Z.lor_comm, lor_shiftl_disjoint by lia.
    assert (2 ^ 16 ≤ 2 ^ (8 * S)) by (apply Z.pow_le_mono_r; lia).
    unfold to_U. rewrite Z.mod_small by lia. lia. }
  rewrite <-InternalReadBigEndian_value by lia. unfold InternalReadBigEndian.
  destruct (Z.eqb_spec B 4) as [->|]; [|destruct (Z.eqb_spec B 8) as [->|]; [|done]].
  - unfold ReadBigEndian_4. rewrite !GetShl_id, Get_id by lia. rewrite <-(Z.add_0_r p) at 1.
    by rewrite <-Z.lor_0_l at 1.
  - unfold ReadBigEndian_8. rewrite !GetShl_id, Get_id by lia. rewrite <-(Z.add_0_r p) at 1.
    by rewrite <-Z.lor_0_l at 1.
Qed.

Lemma ReadLittleEndian_value B p : 0 ≤ p → 1 ≤ B ≤ S → p + B ≤ zlen data →
  ReadLittleEndian S B data p = le_value (slice data p B).
Proof.
  intros Hp HB Hl. unfold ReadLittleEndian.
  destruct (Z.eqb_spec B 1) as [->|].
  { rewrite slice_cons, slice_0 by lia. simpl. lia. }
  destruct (Z.eqb_spec B 2) as [->|].
  { unfold ReadLittleEndian_2. rewrite slice_cons, slice_cons, slice_0 by lia. simpl le_value.
    pose proof (byte_range p). pose proof (byte_range (p + 1)). rewrite lor_shiftl_disjoint by lia.
    assert (2 ^ 16 ≤ 2 ^ (8 * S)) by (apply Z.pow_le_mono_r; lia).
    unfold to_U. rewrite Z.mod_small by lia. lia. }
  rewrite <-InternalReadLittleEndian_value by lia. unfold InternalReadLittleEndian.
  destruct (Z.eqb_spec B 4) as [->|]; [|destruct (Z.eqb_spec B 8) as [->|]; [|done]].
  - unfold ReadLittleEndian_4. rewrite !GetShl_id, Get_id by lia. rewrite <-(Z.add_0_r p) at 1.
    by rewrite <-Z.lor_0_l at 1.
  - unfold ReadLittleEndian_8. rewrite !GetShl_id, Get_id by lia. rewrite <-(Z.add_0_r p) at 1.
    by rewrite <-Z.lor_0_l at 1.
Qed.
End reading.

(** * Writing *)

Lemma write_be_loop B n i p data v :
  0 ≤ i → 0 ≤ p → i + Z.of_nat n = B → p + B ≤ zlen data →
  for_up i n (λ j data, wr data (p + j) (u8 (v ≫ ((B - 1 - j) * 8)))) data =
    store data (p + i) (be_bytes n v).
Proof.
  revert i data. induction n as [|n IH]; intros i data Hi Hp HB Hl.
  - unfold store. simpl. by rewrite Nat.add_0_r, take_drop.
  - cbn [for_up be_bytes]. rewrite store_cons by (rewrite ?be_bytes_length; lia).
    rewrite IH by (rewrite ?wr_length; lia).
    replace ((B - 1 - i) * 8) with (8 * Z.of_nat n) by lia. f_equal. lia.
Qed.

Lemma write_le_loop n i p data v :
  0 ≤ i → 0 ≤ p → p + i + Z.of_nat n ≤ zlen data →
  for_up i n (λ j data, wr data (p + j) (u8 (v ≫ (j * 8)))) data =
    store data (p + i) (le_bytes n (v ≫ (i * 8))).
Proof.
  revert i data. induction n as [|n IH]; intros i data Hi Hp Hl.
  - unfold store. simpl. by rewrite Nat.add_0_r, take_drop.
  - cbn [for_up le_bytes]. rewrite store_cons by (rewrite ?le_bytes_length; lia).
    rewrite IH by (rewrite ?wr_length; lia). rewrite Z.shiftr_shiftr by lia.
    replace (i * 8 + 8) with ((i + 1) * 8) by lia. f_equal. lia.
Qed.

Lemma WriteBigEndian_store B data p v : 0 ≤ p → 1 ≤ B → p + B ≤ zlen data →
  WriteBigEndian B data p v = store data p (be_bytes (Z.to_nat B) v).
Proof.
  intros Hp HB Hl. transitivity (WriteBigEndian_generic B data p v).
  - unfold WriteBigEndian. destruct_cmp; subst; reflexivity.
  - unfold WriteBigEndian_generic. rewrite write_be_loop by lia. by rewrite Z.add_0_r.
Qed.

Lemma WriteLittleEndian_store B data p v : 0 ≤ p → 1 ≤ B → p + B ≤ zlen data →
  WriteLittleEndian B data p v = store data p (le_bytes (Z.to_nat B) v).
Proof.
  intros Hp HB Hl. transitivity (WriteLittleEndian_generic B data p v).
  - unfold WriteLittleEndian. destruct_cmp; subst; reflexivity.
  - unfold WriteLittleEndian_generic. rewrite write_le_loop by lia.
    by rewrite Z.add_0_r, Z.mul_0_l, Z.shiftr_0_r.
Qed.

Lemma be_bytes_uint8 n v : Forall uint8 (be_bytes n v).
Proof. induction n; simpl; [done|]. constructor; [apply u8_range|done]. Qed.

Lemma le_bytes_uint8 n v : Forall uint8 (le_bytes n v).
Proof. revert v. induction n; intros v; simpl; [done|]. constructor; [apply u8_range|done]. Qed.

(** * Signed integers *)

Lemma ReinterpretAsSigned_value S u : 1 ≤ S → 0 ≤ u < 2 ^ (8 * S) →
  ReinterpretAsSigned S u = if u <? 2 ^ (8 * S - 1) then u else u - 2 ^ (8 * S).
Proof.
  intros HS Hu. unfold ReinterpretAsSigned. replace (S * 8) with (8 * S) by lia.
  set (k := 8 * S - 1). assert (2 ^ (8 * S) = 2 * 2 ^ k) as E.
  { replace (8 * S) with (Z.succ k) by lia. apply Z.pow_succ_r. lia. }
  assert (0 < 2 ^ k) by (apply Z.pow_pos_nonneg; lia). rewrite Z.shiftl_1_l.
  destruct (Z.ltb_spec u (2 ^ k)) as [Hk|Hk].
  - assert (Z.land u (2 ^ k) = 0) as ->; [|done].
    apply Z.bits_inj'. intros i Hi. rewrite Z.land_spec, Z.pow2_bits_eqb, Z.testbit_0_l by lia.
    destruct (Z.eqb_spec k i) as [<-|]; [|by rewrite andb_false_r].
    by rewrite <-(Z.mod_small u (2 ^ k)), Z.mod_pow2_bits_high by lia.
  - assert (Z.testbit u k = true) as Hb.
    { apply Z.testbit_true; [lia|]. replace (u `div` 2 ^ k) with 1; [done|].
      apply Z.div_unique with (u - 2 ^ k); lia. }
    assert (Z.land u (2 ^ k) ≠ 0) as Hnz.
    { intros E0. apply (f_equal (λ z, Z.testbit z k)) in E0.
      rewrite Z.land_spec, Hb, Z.pow2_bits_true, Z.testbit_0_l in E0 by lia. done. }
    destruct (Z.eqb_spec (Z.land u (2 ^ k)) 0); [done|]. simpl.
    apply Z.bits_inj'. intros i Hi. unfold to_U.
    replace (u - 2 ^ (8 * S)) with (u - 2 ^ k + - 2 ^ k) by lia.
    rewrite Z.lor_spec, Z.land_spec.
    replace (- 2 ^ k) with ((-1) ≪ k) by (rewrite Z.shiftl_mul_pow2 by lia; lia).
    replace (u - 2 ^ k + (-1) ≪ k) with (Z.lor (u - 2 ^ k) ((-1) ≪ k)).
    2:{ rewrite lor_shiftl_disjoint by lia. rewrite Z.shiftl_mul_pow2 by lia. lia. }
    rewrite Z.lor_spec, !Z.shiftl_spec by lia. destruct (decide (i < k)).
    + f_equal. rewrite Z.mod_pow2_bits_low, Z.lnot_spec, Z.pow2_bits_false by lia.
      rewrite andb_true_r. rewrite <-(Z.mod_pow2_bits_low u k i) by lia. f_equal.
      symmetry. apply Z.mod_unique_pos with 1; lia.
    + assert (Z.testbit (-1) (i - k) = true) as -> by (apply Z.bits_m1; lia). by rewrite !orb_true_r.
Qed.

Lemma SignExtend_value S B u : 1 ≤ B < S → B ≤ 3 → S ≤ 8 → 0 ≤ u < 2 ^ (8 * B) →
  SignExtend S B u = if u <? 2 ^ (8 * B - 1) then u else u - 2 ^ (8 * B) + 2 ^ (8 * S).
Proof.
  intros HB HB3 HS Hu. unfold SignExtend. rewrite Z.mod_small by lia.
  assert (B = 1 ∨ B = 2 ∨ B = 3) as Hcases by lia.
  assert (2 ^ (8 * B) = 2 * 2 ^ (8 * B - 1)) as E.
  { rewrite <-Z.pow_succ_r by lia. f_equal. lia. }
  assert (2 ^ (8 * S) = 2 ^ (8 * (S - B)) * 2 ^ (8 * B)) as ES
    by (rewrite <-Z.pow_add_r by lia; f_equal; lia).
  assert (0 < 2 ^ (8 * (S - B))) by (apply Z.pow_pos_nonneg; lia).
  assert (to_U S (sub32 (shl32 1 (B * 8)) 1) = Z.ones (8 * B)) as ->.
  { rewrite Z.ones_equiv. unfold to_U. rewrite <-Z.sub_1_r, ES.
    destruct Hcases as [ -> | [ -> | -> ] ]; simpl; apply Z.mod_small; simpl in *; nia. }
  assert ((Z.land (u8 (u ≫ ((B - 1) * 8))) 0x80 =? 0) = (u <? 2 ^ (8 * B - 1))) as ->.
  { rewrite Z.shiftr_div_pow2 by lia.
    assert (u8 (u `div` 2 ^ ((B - 1) * 8)) = u `div` 2 ^ ((B - 1) * 8)) as ->.
    { apply u8_id. unfold uint8. destruct Hcases as [ -> | [ -> | -> ] ]; simpl in *; zdiv. }
    assert (∀ c, 0 ≤ c < 256 → (Z.land c 0x80 =? 0) = (c <? 128)) as Hc.
    { intros c Hc. apply (check_range_dec (λ c, (Z.land c 0x80 =? 0) = (c <? 128)) 0 256);
        [by vm_compute|lia]. }
    rewrite Hc by (destruct Hcases as [ -> | [ -> | -> ] ]; simpl in *; zdiv).
    apply eq_bool_prop_intro. rewrite !Is_true_true, !Z.ltb_lt.
    destruct Hcases as [ -> | [ -> | -> ] ]; simpl in *; zdiv. }
  destruct (Z.ltb_spec u (2 ^ (8 * B - 1))); [done|]. simpl.
  rewrite Z.lor_comm.
  assert (Z.lnot (Z.ones (8 * B)) = (-1) ≪ (8 * B)) as ->
    by (rewrite Z.ones_equiv, Z.shiftl_mul_pow2 by lia; unfold Z.lnot; lia).
  rewrite lor_shiftl_disjoint by lia. unfold to_U.
  symmetry. apply Z.mod_unique_pos with (-1); nia.
Qed.

(** The signed value of [B] bytes, read into a type of [S] bytes. *)
Lemma signed_value S B v : 1 ≤ B ≤ S → S ≤ 8 → B = S ∨ B ≤ 3 → - 2 ^ (8 * B - 1) ≤ v < 2 ^ (8 * B - 1) →
  let u := v `mod` 2 ^ (8 * B) in
  ReinterpretAsSigned S (if B <? S then SignExtend S B u else u) = v.
Proof.
  intros HB HS Hc Hv u.
  assert (2 ^ (8 * B) = 2 * 2 ^ (8 * B - 1)) as E.
  { rewrite <-Z.pow_succ_r by lia. f_equal. lia. }
  assert (2 ^ (8 * B) ≤ 2 ^ (8 * S)) by (apply Z.pow_le_mono_r; lia).
  assert (u = if 0 <=? v then v else v + 2 ^ (8 * B)) as Eu.
  { unfold u. destruct (Z.leb_spec 0 v); [apply Z.mod_small; lia|].
    symmetry. apply Z.mod_unique_pos with (-1); lia. }
  assert (0 ≤ u < 2 ^ (8 * B)) as Hu by (rewrite Eu; destruct (Z.leb_spec 0 v); lia).
  destruct (Z.ltb_spec B S).
  - assert (2 ^ (8 * B - 1) < 2 ^ (8 * S - 1)) by (apply Z.pow_lt_mono_r; lia).
    assert (2 ^ (8 * S) = 2 * 2 ^ (8 * S - 1)) as ES.
    { rewrite <-Z.pow_succ_r by lia. f_equal. lia. }
    assert (2 ^ (8 * B) ≤ 2 ^ (8 * S - 1)) by (apply Z.pow_le_mono_r; lia).
    rewrite SignExtend_value by lia.
    rewrite Eu in *. destruct (Z.leb_spec 0 v); destruct_cmp; try lia;
      rewrite ReinterpretAsSigned_value by lia; destruct_cmp; lia.
  - replace S with B by lia. rewrite ReinterpretAsSigned_value by lia.
    rewrite Eu in *. destruct (Z.leb_spec 0 v); destruct_cmp; lia.
Qed.

Section roundtrip.
Context (S B p : Z) (data : list Z).
Context (HB : 1 ≤ B ≤ S) (Hd : Forall uint8 data) (Hp : 0 ≤ p) (Hl : p + B ≤ zlen data).

Lemma read_written_be v :
  ReadBigEndian S B (WriteBigEndian B data p v) p = v `mod` 2 ^ (8 * B).
Proof.
  rewrite WriteBigEndian_store by lia.
  rewrite ReadBigEndian_value; [|apply store_Forall; [done|apply be_bytes_uint8]|done|done|
    rewrite store_length by (rewrite ?be_bytes_length; lia); lia].
  rewrite slice_store_same by (rewrite ?be_bytes_length; lia).
  rewrite be_value_bytes, pow256, Z2Nat.id by lia. done.
Qed.

Lemma read_written_le v :
  ReadLittleEndian S B (WriteLittleEndian B data p v) p = v `mod` 2 ^ (8 * B).
Proof.
  rewrite WriteLittleEndian_store by lia.
  rewrite ReadLittleEndian_value; [|apply store_Forall; [done|apply le_bytes_uint8]|done|done|
    rewrite store_length by (rewrite ?le_bytes_length; lia); lia].
  rewrite slice_store_same by (rewrite ?le_bytes_length; lia).
  rewrite le_value_bytes, pow256, Z2Nat.id by lia. done.
Qed.
End roundtrip.

Lemma to_U_low S B v : 0 ≤ B ≤ S → to_U S v `mod` 2 ^ (8 * B) = v `mod` 2 ^ (8 * B).
Proof.
  intros HB. unfold to_U. replace (8 * S) with (8 * B + 8 * (S - B)) by lia.
  rewrite Z.pow_add_r by lia.
  assert (0 < 2 ^ (8 * B)) by (apply Z.pow_pos_nonneg; lia).
  assert (0 < 2 ^ (8 * (S - B))) by (apply Z.pow_pos_nonneg; lia).
  rewrite Z.rem_mul_r by lia. rewrite (Z.mul_comm (2 ^ (8 * B))), Z_mod_plus_full.
  apply Z.mod_mod. lia.
Qed.

(** * Theorems *)

(** C36: integers in byte sequences.  Every reader, specialised or general, returns the value
    of its bytes in base 256, every writer stores the digits of its argument and nothing
    else; what is written is read back, unsigned for all sizes, signed for representations
    of full size or at most three bytes, sign extension included. *)
Theorem byte_io_roundtrip S B p data :
  1 ≤ B ≤ S → S ≤ 8 → Forall uint8 data → 0 ≤ p → p + B ≤ zlen data →
  ReadBigEndian S B data p = be_value (slice data p B) ∧
  ReadLittleEndian S B data p = le_value (slice data p B) ∧
  (∀ v, WriteBigEndian B data p v = store data p (be_bytes (Z.to_nat B) v) ∧
        WriteLittleEndian B data p v = store data p (le_bytes (Z.to_nat B) v)) ∧
  (∀ v, 0 ≤ v < 2 ^ (8 * B) →
     ReadBigEndian S B (WriteBigEndian B data p v) p = v ∧
     ReadLittleEndian S B (WriteLittleEndian B data p v) p = v) ∧
  (∀ v, B = S ∨ B ≤ 3 → - 2 ^ (8 * B - 1) ≤ v < 2 ^ (8 * B - 1) →
     ReadBigEndian_signed S B (WriteBigEndian_signed S B data p v) p = v ∧
     ReadLittleEndian_signed S B (WriteLittleEndian_signed S B data p v) p = v).
Proof.
  intros HB HS Hd Hp Hl. split; [by apply ReadBigEndian_value|]. split; [by apply ReadLittleEndian_value|].
  split; [|split].
  - intros v. split; [apply WriteBigEndian_store|apply WriteLittleEndian_store]; lia.
  - intros v Hv. rewrite (read_written_be S), (read_written_le S) by done.
    by rewrite Z.mod_small by lia.
  - intros v Hc Hv. unfold ReadBigEndian_signed, ReadLittleEndian_signed, WriteBigEndian_signed,
      WriteLittleEndian_signed, ReinterpretAsUnsigned.
    rewrite (read_written_be S), (read_written_le S) by done.
    rewrite to_U_low by lia. by rewrite signed_value by done.
Qed.

Lemma byte_io_roundtrip_witness :
  ReadBigEndian 8 5 (WriteBigEndian 5 (replicate 9 7) 2 (2 ^ 39)) 2 = 2 ^ 39 ∧
  ReadBigEndian_signed 4 3 (WriteBigEndian_signed 4 3 (replicate 9 7) 2 (-5)) 2 = -5.
Proof.
  assert (Forall uint8 (replicate 9 7)) as Hd by (apply Forall_replicate; cint). split.
  - destruct (byte_io_roundtrip 8 5 2 (replicate 9 7)) as (_ & _ & _ & H & _);
      [lia|lia|done|lia|simpl; lia|]. exact (proj1 (H (2 ^ 39) ltac:(lia))).
  - destruct (byte_io_roundtrip 4 3 2 (replicate 9 7)) as (_ & _ & _ & _ & H);
      [lia|lia|done|lia|simpl; lia|].
    assert (- 2 ^ (8 * 3 - 1) ≤ -5 < 2 ^ (8 * 3 - 1)) as R by (simpl; lia).
    exact (proj1 (H (-5) (or_intror (Z.le_refl 3)) R)).
Defined.
