(* ===== verification/Rtcp.v ===== *)
(** RTCP packets: the common header (modules/rtp_rtcp/source/rtcp_packet/common_header.cc),
    the base class of packets (rtcp_packet.cc), transport feedback (rtcp_packet/rtpfb.cc) and
    the generic negative acknowledgement (rtcp_packet/nack.cc).

    A pointer into a received buffer is the list of bytes from there on.  The buffer a packet
    is created in is a list with an index; the calls of the callback are the list of the
    packets handed to it.  The theorems follow a list of lost packets through packing,
    fragmentation into buffers, the wire format, parsing and unpacking. *)
From stdpp Require Import sorting.
From S2P Require Import Prelude ByteIo.

(** * Definitions *)

(** ** CommonHeader *)

Definition kHeaderSizeBytes : Z := 4.

Record CommonHeader : Type := MkHeader {
  packet_type : Z; count_or_format : Z; padding_size : Z; payload_size : Z; payload : list Z;
}.

Definition NewHeader : CommonHeader := MkHeader 0 0 0 0 [].

Definition CommonHeader_Parse (h : CommonHeader) (buffer : list Z) (size_bytes : Z)
  : CommonHeader * bool :=
  let kVersion := 2 in
  if size_bytes <? kHeaderSizeBytes then (h, false)
  else
    let version := buffer.[0] ≫ 6 in
    if negb (version =? kVersion) then (h, false)
    else
      let has_padding := negb (Z.land (buffer.[0]) 0x20 =? 0) in
      let size := ReadBigEndian 2 2 buffer 2 * 4 in
      let bytes := drop (Z.to_nat kHeaderSizeBytes) buffer in
      let h := MkHeader (buffer.[1]) (Z.land (buffer.[0]) 0x1F) 0 size bytes in
      if size_bytes <? kHeaderSizeBytes + size then (h, false)
      else if has_padding then
        if size =? 0 then (h, false)
        else
          let padding := bytes.[size - 1] in
          let h := MkHeader (packet_type h) (count_or_format h) padding size bytes in
          if padding =? 0 then (h, false)
          else if padding >? size then (h, false)
          else (MkHeader (packet_type h) (count_or_format h) padding (size - padding) bytes, true)
      else (h, true).

Definition packet_size (h : CommonHeader) : Z := kHeaderSizeBytes + payload_size h + padding_size h.

(** ** RtcpPacket *)

Definition kHeaderLength : Z := 4.
Definition IP_PACKET_SIZE : Z := 1500.

Definition CreateHeader (count_or_format packet_type length : Z) (padding : bool)
    (buffer : list Z) (pos : Z) : list Z * Z :=
  let kVersionBits := 2 ≪ 6 in
  let padding_bit := if padding then 1 ≪ 5 else 0 in
  let buffer := wr buffer pos (u8 (Z.lor (Z.lor kVersionBits padding_bit) (u8 count_or_format))) in
  let buffer := wr buffer (pos + 1) packet_type in
  let buffer := wr buffer (pos + 2) (u8 (Z.land (length ≫ 8) 0xff)) in
  let buffer := wr buffer (pos + 3) (u8 (Z.land length 0xff)) in
  (buffer, pos + kHeaderLength).

(** The index and the packets handed over, and the result. *)
Definition OnBufferFull (packet : list Z) (index : Z) (ready : list (list Z))
  : Z * list (list Z) * bool :=
  if index =? 0 then (index, ready, false)
  else (0, ready ++ [take (Z.to_nat index) packet], true).

(** ** Rtpfb and Nack *)

Definition kPacketType : Z := 205.
Definition kCommonFeedbackLength : Z := 8.
Definition kFeedbackMessageType : Z := 1.
Definition kNackItemLength : Z := 4.

Record PackedNack : Type := MkPacked { first_pid : Z; bitmask : Z }.

Record Nack : Type := MkNack {
  sender_ssrc : Z; media_ssrc : Z; packed : list PackedNack; packet_ids : list Z;
}.

Definition NewNack : Nack := MkNack 0 0 [] [].
Definition SetSenderSsrc (n : Nack) (ssrc : Z) : Nack := MkNack ssrc (media_ssrc n) (packed n) (packet_ids n).
Definition SetMediaSsrc (n : Nack) (ssrc : Z) : Nack := MkNack (sender_ssrc n) ssrc (packed n) (packet_ids n).

Definition ParseCommonFeedback (n : Nack) (payload : list Z) : Nack :=
  SetMediaSsrc (SetSenderSsrc n (ReadBigEndian 4 4 payload 0)) (ReadBigEndian 4 4 payload 4).

Definition CreateCommonFeedback (n : Nack) (packet : list Z) (p : Z) : list Z :=
  WriteBigEndian 4 (WriteBigEndian 4 packet p (sender_ssrc n)) (p + 4) (media_ssrc n).

(** The inner loop of [Pack]: the bit mask and where the iterator stops. *)
Fixpoint pack_item (first_pid bitmask : Z) (it : list Z) : Z * list Z :=
  match it with
  | [] => (bitmask, [])
  | id :: rest =>
      let shift := u16 (id - first_pid - 1) in
      if shift <=? 15 then pack_item first_pid (u16 (Z.lor bitmask (1 ≪ shift))) rest
      else (bitmask, it)
  end.

(** The outer loop, which takes at least one element a turn. *)
Fixpoint pack_loop (fuel : nat) (it : list Z) : list PackedNack :=
  match fuel, it with
  | S fuel, id :: it =>
      let '(mask, it) := pack_item id 0 it in MkPacked id mask :: pack_loop fuel it
  | _, _ => []
  end.

Definition Pack (n : Nack) : Nack :=
  MkNack (sender_ssrc n) (media_ssrc n)
    (packed n ++ pack_loop (length (packet_ids n)) (packet_ids n)) (packet_ids n).

(** [for (bitmask = ...; bitmask != 0; bitmask >>= 1, ++pid)]: sixteen bits. *)
Fixpoint unpack_mask (fuel : nat) (bitmask pid : Z) : list Z :=
  match fuel with
  | S fuel =>
      if bitmask =? 0 then []
      else (if negb (Z.land bitmask 1 =? 0) then [pid] else []) ++
           unpack_mask fuel (bitmask ≫ 1) (u16 (pid + 1))
  | O => []
  end.

Definition unpack_item (item : PackedNack) : list Z :=
  first_pid item :: unpack_mask 16 (bitmask item) (u16 (first_pid item + 1)).

Definition Unpack (n : Nack) : Nack :=
  MkNack (sender_ssrc n) (media_ssrc n) (packed n) (packet_ids n ++ flat_map unpack_item (packed n)).

Definition SetPacketIds (n : Nack) (nack_list : list Z) : Nack :=
  Pack (MkNack (sender_ssrc n) (media_ssrc n) (packed n) nack_list).

(** The loop of [Parse], [next_nack] being an index. *)
Fixpoint parse_items (nack_items : nat) (payload : list Z) (next_nack : Z) : list PackedNack :=
  match nack_items with
  | O => []
  | S nack_items =>
      MkPacked (ReadBigEndian 2 2 payload next_nack) (ReadBigEndian 2 2 payload (next_nack + 2)) ::
      parse_items nack_items payload (next_nack + kNackItemLength)
  end.

Definition Nack_Parse (n : Nack) (packet : CommonHeader) : Nack * bool :=
  if payload_size packet <? kCommonFeedbackLength + kNackItemLength then (n, false)
  else
    let nack_items := (payload_size packet - kCommonFeedbackLength) `div` kNackItemLength in
    let n := ParseCommonFeedback n (payload packet) in
    (Unpack (MkNack (sender_ssrc n) (media_ssrc n)
       (parse_items (Z.to_nat nack_items) (payload packet) kCommonFeedbackLength) []), true).

Definition BlockLength (n : Nack) : Z :=
  kHeaderLength + kCommonFeedbackLength + zlen (packed n) * kNackItemLength.

(** The loop over the items of one packet. *)
Definition write_items (items : list PackedNack) (s : list Z * Z) : list Z * Z :=
  foldl (λ '(packet, index) item,
    (WriteBigEndian 2 (WriteBigEndian 2 packet index (first_pid item)) (index + 2) (bitmask item),
     index + kNackItemLength)) s items.

(** The loop of [Create]: the buffer, the index, the packets handed over and the result. *)
Fixpoint create_loop (fuel : nat) (n : Nack) (max_length : Z)
    (packet : list Z) (index : Z) (ready : list (list Z)) (nack_index : Z)
  : option (list Z * Z * list (list Z) * bool) :=
  match fuel with
  | O => None
  | S fuel =>
      let kNackHeaderLength := kHeaderLength + kCommonFeedbackLength in
      if nack_index <? zlen (packed n) then
        let bytes_left_in_buffer := u64 (max_length - index) in
        if bytes_left_in_buffer <? kNackHeaderLength + kNackItemLength then
          let '(index, ready, ok) := OnBufferFull packet index ready in
          if ok then create_loop fuel n max_length packet index ready nack_index
          else Some (packet, index, ready, false)
        else
          let num_nack_fields := Z.min ((bytes_left_in_buffer - kNackHeaderLength) `div` kNackItemLength)
                                   (zlen (packed n) - nack_index) in
          let payload_size_bytes := kCommonFeedbackLength + num_nack_fields * kNackItemLength in
          let payload_size_32bits := payload_size_bytes `div` 4 in
          let '(packet, index) :=
            CreateHeader kFeedbackMessageType kPacketType payload_size_32bits false packet index in
          let packet := CreateCommonFeedback n packet index in
          let index := index + kCommonFeedbackLength in
          let '(packet, index) := write_items (slice (packed n) nack_index num_nack_fields) (packet, index) in
          create_loop fuel n max_length packet index ready (nack_index + num_nack_fields)
      else Some (packet, index, ready, true)
  end.

(** Every packet takes at most two turns. *)
Definition Create (n : Nack) (packet : list Z) (index max_length : Z) (ready : list (list Z))
  : option (list Z * Z * list (list Z) * bool) :=
  create_loop (2 * length (packed n) + 2) n max_length packet index ready 0.

(** [RtcpPacket::Build] with a callback; [buffer] is what the local array holds.  [None] is
    the failure of [RTC_CHECK_LE]. *)
Definition Build (n : Nack) (buffer : list Z) (max_length : Z) : option (list (list Z) * bool) :=
  if max_length >? IP_PACKET_SIZE then None
  else
    match Create n buffer 0 max_length [] with
    | None => None
    | Some (packet, index, ready, false) => Some (ready, false)
    | Some (packet, index, ready, true) =>
        let '(_, ready, ok) := OnBufferFull packet index ready in Some (ready, ok)
    end.

(** * Packing of sequence numbers *)

(** The bit that stands for [id]. *)
Definition shift_of (first id : Z) : Z := u16 (id - first - 1).

(** The positions of the set bits among [s .. s + n). *)
Fixpoint bit_positions (n : nat) (mask s : Z) : list Z :=
  match n with
  | O => []
  | S n => (if Z.testbit mask s then [s] else []) ++ bit_positions n mask (s + 1)
  end.

Lemma shift_of_inv first id : uint16 id → u16 (first + 1 + shift_of first id) = id.
Proof.
  intros Hid. unfold shift_of, u16. rewrite Z.add_mod_idemp_r by lia.
  replace (first + 1 + (id - first - 1)) with id by lia. by apply u16_id.
Qed.

Lemma elem_bit_positions n mask s t :
  t ∈ bit_positions n mask s ↔ s ≤ t < s + Z.of_nat n ∧ Z.testbit mask t = true.
Proof.
  revert s. induction n as [|n IH]; intros s; cbn [bit_positions].
  - rewrite elem_of_nil. split; [done|lia].
  - rewrite elem_of_app, IH. destruct (Z.testbit mask s) eqn:E.
    + rewrite list_elem_of_singleton. split.
      * intros [->|[Ht Hb]]; [split; [lia|done]|split; [lia|done]].
      * intros [Ht Hb]. destruct (decide (t = s)); [by left|right]. split; [lia|done].
    + rewrite elem_of_nil. split.
      * intros [[]|[Ht Hb]]. split; [lia|done].
      * intros [Ht Hb]. right. split; [|done]. destruct (decide (t = s)); [congruence|lia].
Qed.

(** An increasing list with the same members is the list of positions. *)
Lemma bit_positions_unique n mask s ss :
  StronglySorted Z.lt ss → (∀ t, t ∈ ss ↔ s ≤ t < s + Z.of_nat n ∧ Z.testbit mask t = true) →
  bit_positions n mask s = ss.
Proof.
  revert s ss. induction n as [|n IH]; intros s ss Hs Hm; cbn [bit_positions].
  - destruct ss as [|x ss]; [done|]. destruct (proj1 (Hm x)) as [? _]; [by left|lia].
  - destruct (Z.testbit mask s) eqn:E.
    + destruct ss as [|x ss]; [by destruct (not_elem_of_nil s); apply Hm; split; [lia|]|].
      inversion Hs as [|? ? Hs' Hlt]; subst.
      assert (∀ y, y ∈ ss → x < y) as Hall
        by exact (proj1 (list.Forall_forall _ _) Hlt).
      assert (x = s) as ->.
      { destruct (proj1 (Hm x)) as [Hx _]; [by left|].
        assert (s ∈ x :: ss) as Hin by (apply Hm; split; [lia|done]).
        apply elem_of_cons in Hin as [->|Hin]; [done|]. specialize (Hall s Hin). lia. }
      simpl. f_equal. apply IH; [done|]. intros t. split.
      * intros Ht. specialize (Hall t Ht). destruct (proj1 (Hm t)) as [? ?]; [by right|]. split; [lia|done].
      * intros [Ht Hb]. assert (t ∈ s :: ss) as Hin by (apply Hm; split; [lia|done]).
        apply elem_of_cons in Hin as [->|Hin]; [lia|done].
    + apply IH; [done|]. intros t. rewrite Hm. split; intros [Ht Hb]; (split; [|done]); [|lia].
      destruct (decide (t = s)); [congruence|lia].
Qed.

Lemma unpack_mask_positions n mask s pid : 0 ≤ s → uint16 pid → 0 ≤ mask ≫ s < 2 ^ Z.of_nat n →
  unpack_mask n (mask ≫ s) pid = (λ t, u16 (pid + (t - s))) <$> bit_positions n mask s.
Proof.
  revert s pid. induction n as [|n IH]; intros s pid Hs Hpid Hm; [done|]. cbn [unpack_mask bit_positions].
  destruct (Z.eqb_spec (mask ≫ s) 0) as [E|].
  - change (_ ++ bit_positions n mask (s + 1)) with (bit_positions (S n) mask s).
    rewrite (bit_positions_unique (S n) mask s []); [done|constructor|].
    intros t. rewrite elem_of_nil. split; [done|]. intros [Ht Hb].
    assert (Z.testbit (mask ≫ s) (t - s) = false) as F by (rewrite E; apply Z.testbit_0_l).
    rewrite Z.shiftr_spec in F by lia. replace (t - s + s) with t in F by lia. congruence.
  - rewrite fmap_app, Z.shiftr_shiftr by lia.
    assert (mask ≫ (s + 1) = (mask ≫ s) `div` 2) as E2.
    { rewrite <-Z.shiftr_shiftr by lia. exact (Z.shiftr_div_pow2 (mask ≫ s) 1 ltac:(lia)). }
    rewrite IH; [|lia|apply u16_range|].
    2:{ rewrite Nat2Z.inj_succ, Z.pow_succ_r in Hm by lia. rewrite E2. zdiv. }
    f_equal.
    + assert (Z.land (mask ≫ s) 1 = (mask ≫ s) `mod` 2) as -> by exact (Z.land_ones _ 1 ltac:(lia)).
      rewrite <-Z.bit0_mod, Z.shiftr_spec, Z.add_0_l by lia.
      destruct (Z.testbit mask s); [|done]. simpl. rewrite Z.sub_diag, Z.add_0_r, u16_id by done. done.
    + apply list_fmap_ext. intros i t _. unfold u16. rewrite Z.add_mod_idemp_l by lia. f_equal. lia.
Qed.

Lemma pack_item_spec first m l : 0 ≤ m < 2 ^ 16 →
  ∃ c m' rest, pack_item first m l = (m', rest) ∧ l = c ++ rest ∧ 0 ≤ m' < 2 ^ 16 ∧
    Forall (λ id, shift_of first id ≤ 15) c ∧
    match rest with [] => True | id :: _ => 15 < shift_of first id end ∧
    ∀ s, Z.testbit m' s = Z.testbit m s || bool_decide (s ∈ shift_of first <$> c).
Proof.
  revert m. induction l as [|id l IH]; intros m Hm.
  - exists [], m, []. do 4 (split; [done || lia|]). split; [done|]. intros s.
    by rewrite orb_false_r.
  - cbn [pack_item]. fold (shift_of first id). pose proof (u16_range (id - first - 1)) as Hr.
    fold (shift_of first id) in Hr. unfold uint16 in Hr.
    destruct (Z.leb_spec (shift_of first id) 15) as [Hs|Hs].
    + assert (u16 (Z.lor m (1 ≪ shift_of first id)) = Z.lor m (2 ^ shift_of first id)) as E.
      { rewrite Z.shiftl_1_l. unfold u16. change 65536 with (2 ^ 16).
        rewrite <-Z.land_ones by lia. apply Z.bits_inj'. intros i Hi.
        rewrite Z.land_spec, Z.testbit_ones, Z.lor_spec, Z.pow2_bits_eqb by lia.
        rewrite (proj2 (Z.leb_le 0 i) Hi). destruct (Z.ltb_spec i 16); [apply andb_true_r|].
        rewrite andb_false_r. rewrite <-(Z.mod_small m (2 ^ 16)), Z.mod_pow2_bits_high by lia.
        simpl. symmetry. apply Z.eqb_neq. lia. }
      destruct (IH (u16 (Z.lor m (1 ≪ shift_of first id)))) as (c & m' & rest & E1 & -> & Hm' & Hc & Hrest & Hb).
      { pose proof (u16_range (Z.lor m (1 ≪ shift_of first id))) as H. unfold uint16 in H. lia. }
      exists (id :: c), m', rest. split; [done|]. split; [done|]. split; [done|].
      split; [by constructor|]. split; [done|]. intros s. rewrite Hb, E, Z.lor_spec, <-orb_assoc. f_equal.
      destruct (decide (s = shift_of first id)) as [->|Hne].
      * rewrite Z.pow2_bits_true by lia. simpl. symmetry. apply bool_decide_eq_true. by left.
      * rewrite Z.pow2_bits_false by done. simpl. apply bool_decide_ext. rewrite elem_of_cons. by split; [right|intros [|]].
    + exists [], m, (id :: l). do 4 (split; [done || lia|]). split; [done|]. intros s.
      by rewrite orb_false_r.
Qed.

(** Every number is ahead of the one before, by not nearly a full turn. *)
Fixpoint ahead_by_steps (x : Z) (l : list Z) : Prop :=
  match l with [] => True | y :: l => 1 ≤ u16 (y - x) ≤ 65520 ∧ ahead_by_steps y l end.

Lemma steps_increasing first x c rest :
  u16 (x - first) ≤ 16 → ahead_by_steps x (c ++ rest) → Forall (λ id, shift_of first id ≤ 15) c →
  StronglySorted Z.lt (shift_of first <$> c) ∧ Forall (Z.le (u16 (x - first))) (shift_of first <$> c) ∧
  ahead_by_steps (foldl (λ _ y, y) x c) rest.
Proof.
  revert x. induction c as [|y c IH]; intros x Hx Hst Hc; [by repeat constructor|].
  destruct Hst as [Hg Hst]. apply Forall_cons_1 in Hc as [Hy Hc].
  assert (shift_of first y = u16 (x - first) + u16 (y - x) - 1 ∧
    u16 (y - first) = shift_of first y + 1) as [E1 E2].
  { unfold shift_of, u16 in *. zdiv. }
  destruct (IH y ltac:(lia) Hst Hc) as (Hs & Hall & Hlast). rewrite E2 in Hall.
  split; [|split; [|done]]; cbn [fmap list_fmap].
  - constructor; [done|]. eapply Forall_impl; [|exact Hall]. intros a Ha. cbv beta in *. lia.
  - constructor; [lia|]. eapply Forall_impl; [|exact Hall]. intros a Ha. cbv beta in *. lia.
Qed.

Section item.
Context (first m : Z) (c : list Z) (Hc : Forall uint16 c) (Hf : uint16 first) (Hm : 0 ≤ m < 2 ^ 16).
Context (Hs : Forall (λ id, shift_of first id ≤ 15) c).
Context (Hb : ∀ s, Z.testbit m s = bool_decide (s ∈ shift_of first <$> c)).

Lemma unpack_item_positions :
  unpack_item (MkPacked first m) = first :: ((λ t, u16 (first + 1 + t)) <$> bit_positions 16 m 0).
Proof.
  unfold unpack_item. f_equal. simpl first_pid. simpl bitmask.
  rewrite <-(Z.shiftr_0_r m) at 1. rewrite unpack_mask_positions; [|lia|apply u16_range|by rewrite Z.shiftr_0_r].
  apply list_fmap_ext. intros i t _. unfold u16. rewrite Z.add_mod_idemp_l by lia. f_equal. lia.
Qed.

Lemma mask_positions t : t ∈ bit_positions 16 m 0 ↔ t ∈ shift_of first <$> c.
Proof.
  rewrite elem_bit_positions, Hb, bool_decide_eq_true. split; [by intros [_ ?]|]. intros Ht.
  split; [|done]. apply list_elem_of_fmap in Ht as (id & -> & Hid).
  pose proof (proj1 (list.Forall_forall _ _) Hs id Hid) as Hle. simpl in Hle.
  pose proof (u16_range (id - first - 1)) as Hr. fold (shift_of first id) in Hr. unfold uint16 in Hr. lia.
Qed.

Lemma unpack_item_members x : x ∈ unpack_item (MkPacked first m) ↔ x ∈ first :: c.
Proof.
  rewrite unpack_item_positions, !elem_of_cons. f_equiv. rewrite list_elem_of_fmap. split.
  - intros (t & -> & Ht). apply mask_positions, list_elem_of_fmap in Ht as (id & -> & Hid).
    rewrite shift_of_inv; [done|]. exact (proj1 (list.Forall_forall _ _) Hc id Hid).
  - intros Hx. exists (shift_of first x). split.
    + symmetry. apply shift_of_inv. exact (proj1 (list.Forall_forall _ _) Hc x Hx).
    + apply mask_positions. by apply list_elem_of_fmap_2.
Qed.

Lemma unpack_item_exact : StronglySorted Z.lt (shift_of first <$> c) →
  unpack_item (MkPacked first m) = first :: c.
Proof.
  intros Hsort. rewrite unpack_item_positions.
  rewrite (bit_positions_unique 16 m 0 (shift_of first <$> c) Hsort).
  - f_equal. rewrite <-list_fmap_compose. rewrite <-(list_fmap_id c) at 2.
    apply Forall_fmap_ext_1. eapply Forall_impl; [|exact Hc]. intros id Hid. simpl. by apply shift_of_inv.
  - intros t. by rewrite <-mask_positions, elem_bit_positions.
Qed.
End item.

Lemma pack_loop_spec fuel ids : (length ids ≤ fuel)%nat → Forall uint16 ids →
  Forall (λ it, uint16 (first_pid it) ∧ uint16 (bitmask it)) (pack_loop fuel ids) ∧
  (pack_loop fuel ids = [] → ids = []) ∧
  (∀ x, x ∈ flat_map unpack_item (pack_loop fuel ids) ↔ x ∈ ids) ∧
  (∀ x l, ids = x :: l → ahead_by_steps x l → flat_map unpack_item (pack_loop fuel ids) = ids).
Proof.
  revert ids. induction fuel as [|fuel IH]; intros ids Hl Hids.
  { destruct ids; [|simpl in Hl; lia]. by repeat split; [constructor|..]. }
  destruct ids as [|id l]; [by repeat split; [constructor|..]|].
  apply Forall_cons_1 in Hids as [Hid Hids]. cbn [pack_loop].
  destruct (pack_item_spec id 0 l) as (c & m & rest & -> & -> & Hm & Hc & Hrest & Hb); [lia|].
  apply Forall_app in Hids as [Hcu Hru]. simpl in Hl. rewrite length_app in Hl.
  assert (∀ s, Z.testbit m s = bool_decide (s ∈ shift_of id <$> c)) as Hb'
    by (intros s; by rewrite Hb, Z.testbit_0_l).
  destruct (IH rest ltac:(lia) Hru) as (H1 & H2 & H3 & H4).
  split; [constructor; [simpl; split; [done|cint]|done]|]. split; [done|]. split.
  - intros x. change (flat_map unpack_item (?a :: ?l)) with (unpack_item a ++ flat_map unpack_item l).
    rewrite elem_of_app, (unpack_item_members id m c) by done.
    rewrite H3, !elem_of_cons, elem_of_app. tauto.
  - intros x l [= <- <-] Hst. change (flat_map unpack_item (?a :: ?l)) with (unpack_item a ++ flat_map unpack_item l).
    destruct (steps_increasing id id c rest) as (Hsort & _ & Hlast);
      [rewrite Z.sub_diag; done|done|done|].
    rewrite (unpack_item_exact id m c) by done. simpl. f_equal. f_equal.
    destruct rest as [|y rest]; [by destruct fuel|]. destruct Hlast as [_ Hlast]. by apply (H4 y rest).
Qed.

(** * The wire format *)

Definition item_bytes (item : PackedNack) : list Z :=
  be_bytes 2 (first_pid item) ++ be_bytes 2 (bitmask item).

Definition header_bytes (count type length : Z) : list Z :=
  [128 + count; type; length `div` 256; length `mod` 256].

Definition nack_bytes (sender media : Z) (items : list PackedNack) : list Z :=
  header_bytes 1 205 (2 + zlen items) ++ be_bytes 4 sender ++ be_bytes 4 media ++
  flat_map item_bytes items.

Lemma store_app (l a b : list Z) off : 0 ≤ off → off + zlen a + zlen b ≤ zlen l →
  store (store l off a) (off + zlen a) b = store l off (a ++ b).
Proof.
  intros Ho Hl. apply list_rd_eq.
  - rewrite !store_length by (rewrite ?length_app, ?store_length by lia; lia). done.
  - rewrite !store_length by (rewrite ?store_length by lia; lia). intros i Hi.
    rewrite !rd_store by (rewrite ?store_length, ?length_app by lia; lia). rewrite length_app.
    destruct_cmp; try lia; try done;
      [by rewrite rd_app_l by lia|rewrite rd_app_r by lia; f_equal; lia].
Qed.

Lemma store_nil (l : list Z) off : store l off [] = l.
Proof. unfold store. simpl. by rewrite Nat.add_0_r, take_drop. Qed.

Lemma items_length items : zlen (flat_map item_bytes items) = 4 * zlen items.
Proof.
  induction items as [|it items IH]; [done|].
  change (flat_map item_bytes (it :: items)) with (item_bytes it ++ flat_map item_bytes items).
  rewrite zlen_app, IH. simpl length. lia.
Qed.

Lemma nack_bytes_length sender media items : zlen (nack_bytes sender media items) = 12 + 4 * zlen items.
Proof. unfold nack_bytes. rewrite !zlen_app, items_length, !be_bytes_length. simpl length. lia. Qed.

Lemma CreateHeader_padded count type length (padding : bool) buffer pos :
  0 ≤ count < 32 → 0 ≤ length < 65536 → 0 ≤ pos → pos + 4 ≤ zlen buffer →
  CreateHeader count type length padding buffer pos =
    (store buffer pos (header_bytes ((if padding then 32 else 0) + count) type length), pos + 4).
Proof.
  intros Hc Hlen Hp Hl. unfold CreateHeader, header_bytes. f_equal.
  assert (u8 (Z.lor (Z.lor (2 ≪ 6) (if padding then 1 ≪ 5 else 0)) (u8 count)) =
    128 + ((if padding then 32 else 0) + count)) as ->.
  { rewrite (u8_id count) by cint.
    apply (check_range_dec (λ c, u8 (Z.lor (Z.lor (2 ≪ 6) (if padding then 1 ≪ 5 else 0)) c) =
      128 + ((if padding then 32 else 0) + c)) 0 32); [by destruct padding; vm_compute|lia]. }
  assert (u8 (Z.land (length ≫ 8) 0xff) = length `div` 256) as ->.
  { rewrite (Z.land_ones _ 8 ltac:(lia) : Z.land _ 0xff = _), Z.shiftr_div_pow2 by lia.
    change (2 ^ 8) with 256. unfold u8. rewrite Z.mod_mod by lia. apply Z.mod_small. zdiv. }
  assert (u8 (Z.land length 0xff) = length `mod` 256) as ->.
  { rewrite (Z.land_ones _ 8 ltac:(lia) : Z.land _ 0xff = _). unfold u8. by rewrite Z.mod_mod by lia. }
  rewrite !store_cons by (rewrite ?wr_length; simpl; lia). rewrite store_nil.
  by rewrite <-!Z.add_assoc.
Qed.

Lemma CreateHeader_bytes count type length buffer pos :
  0 ≤ count < 32 → 0 ≤ length < 65536 → 0 ≤ pos → pos + 4 ≤ zlen buffer →
  CreateHeader count type length false buffer pos =
    (store buffer pos (header_bytes count type length), pos + 4).
Proof. exact (CreateHeader_padded count type length false buffer pos). Qed.

(** Two integers one after the other. *)
Lemma write_two B packet index x y : 1 ≤ B → 0 ≤ index → index + 2 * B ≤ zlen packet →
  WriteBigEndian B (WriteBigEndian B packet index x) (index + B) y =
    store packet index (be_bytes (Z.to_nat B) x ++ be_bytes (Z.to_nat B) y).
Proof.
  intros HB Hi Hl. rewrite (WriteBigEndian_store B packet) by lia.
  assert (length (store packet index (be_bytes (Z.to_nat B) x)) = length packet) as L
    by (apply store_length; rewrite ?be_bytes_length; lia).
  rewrite WriteBigEndian_store by lia.
  pose proof (store_app packet (be_bytes (Z.to_nat B) x) (be_bytes (Z.to_nat B) y) index) as E.
  rewrite !be_bytes_length, Z2Nat.id in E by lia. apply E; lia.
Qed.

Lemma write_items_bytes items packet index :
  0 ≤ index → index + 4 * zlen items ≤ zlen packet →
  write_items items (packet, index) =
    (store packet index (flat_map item_bytes items), index + 4 * zlen items).
Proof.
  revert packet index. induction items as [|it items IH]; intros packet index Hi Hl.
  - simpl. by rewrite store_nil, Z.add_0_r.
  - unfold write_items in *. cbn [foldl]. simpl length in Hl. rewrite write_two by lia.
    change (be_bytes (Z.to_nat 2) (first_pid it) ++ be_bytes (Z.to_nat 2) (bitmask it)) with (item_bytes it).
    assert (length (store packet index (item_bytes it)) = length packet) as L
      by (apply store_length; simpl; lia).
    unfold kNackItemLength. rewrite IH by lia.
    change (flat_map item_bytes (it :: items)) with (item_bytes it ++ flat_map item_bytes items).
    pose proof (store_app packet (item_bytes it) (flat_map item_bytes items) index) as E2.
    rewrite items_length in E2. change (zlen (item_bytes it)) with 4 in E2. rewrite E2 by lia.
    f_equal. simpl length. lia.
Qed.

(** What one turn of [Create] writes. *)
Lemma write_packet_bytes n packet index items :
  0 ≤ index → index + 12 + 4 * zlen items ≤ zlen packet → zlen items < 10000 →
  let '(b, i) := CreateHeader 1 205 ((8 + zlen items * 4) `div` 4) false packet index in
  write_items items (CreateCommonFeedback n b i, i + 8) =
    (store packet index (nack_bytes (sender_ssrc n) (media_ssrc n) items), index + 12 + 4 * zlen items).
Proof.
  intros Hi Hl Hz. replace ((8 + zlen items * 4) `div` 4) with (2 + zlen items) by zdiv.
  rewrite CreateHeader_bytes by lia. unfold CreateCommonFeedback.
  set (h := header_bytes 1 205 (2 + zlen items)). assert (zlen h = 4) as Eh by done.
  assert (length (store packet index h) = length packet) as L1 by (apply store_length; lia).
  rewrite write_two by lia. change (Z.to_nat 4) with 4%nat.
  set (f := be_bytes 4 (sender_ssrc n) ++ be_bytes 4 (media_ssrc n)). assert (zlen f = 8) as Ef by done.
  pose proof (store_app packet h f index) as E1. rewrite Eh, Ef in E1. rewrite E1 by lia.
  set (h2 := h ++ f). assert (zlen h2 = 12) as Eh2 by done.
  assert (length (store packet index h2) = length packet) as L3 by (apply store_length; lia).
  rewrite write_items_bytes by lia.
  pose proof (store_app packet h2 (flat_map item_bytes items) index) as E3.
  rewrite Eh2, items_length in E3. replace (index + 4 + 8) with (index + 12) by lia. rewrite E3 by lia.
  unfold nack_bytes, h2, f. by rewrite <-!app_assoc.
Qed.

(** * Creation *)

(** The items in groups of [k]. *)
Fixpoint chunks {A} (fuel k : nat) (l : list A) : list (list A) :=
  match fuel, l with
  | S fuel, _ :: _ => take k l :: chunks fuel k (drop k l)
  | _, _ => []
  end.

Lemma chunks_concat {A} fuel k (l : list A) : (0 < k)%nat → (length l ≤ fuel)%nat →
  concat (chunks fuel k l) = l ∧ Forall (λ c, (1 ≤ length c ≤ k)%nat) (chunks fuel k l).
Proof.
  intros Hk. revert l. induction fuel as [|fuel IH]; intros l Hl.
  - destruct l; [done|simpl in Hl; lia].
  - destruct l as [|x l]; [done|]. cbn [chunks concat].
    destruct (IH (drop k (x :: l))) as [E F]; [rewrite length_drop; simpl in *; lia|].
    rewrite E, take_drop. split; [done|]. constructor; [|done].
    rewrite length_take. simpl length. lia.
Qed.

Lemma chunks_Forall {A} (P : A → Prop) fuel k (l : list A) : Forall P l → Forall (Forall P) (chunks fuel k l).
Proof.
  revert l. induction fuel as [|fuel IH]; intros l Hl; [constructor|]. destruct l as [|x l]; [constructor|].
  cbn [chunks]. constructor; [by apply Forall_take|]. by apply IH, Forall_drop.
Qed.

Lemma chunks_fuel {A} f1 f2 k (l : list A) : (0 < k)%nat → (length l ≤ f1)%nat → (length l ≤ f2)%nat →
  chunks f1 k l = chunks f2 k l.
Proof.
  intros Hk. revert f2 l. induction f1 as [|f1 IH]; intros f2 l H1 H2.
  - destruct l; [by destruct f2|simpl in H1; lia].
  - destruct l as [|x l]; [by destruct f2|]. destruct f2 as [|f2]; [simpl in H2; lia|].
    cbn [chunks]. f_equal. apply IH; rewrite length_drop; simpl in *; lia.
Qed.

(** The first group and the others. *)
Lemma chunks_step {A} k (l : list A) : (0 < k)%nat → l ≠ [] →
  chunks (length l) k l = take k l :: chunks (length (drop k l)) k (drop k l).
Proof.
  intros Hk Hl. destruct l as [|x l]; [done|]. cbn [length chunks]. f_equal.
  apply chunks_fuel; rewrite ?length_drop; simpl; lia.
Qed.

Lemma slice_drop_take {A} (l : list A) j m : 0 ≤ j → 0 ≤ m →
  slice l j m = take (Z.to_nat m) (drop (Z.to_nat j) l).
Proof. done. Qed.

Section create.
Context (n : Nack) (max_length : Z) (Hmax : 16 ≤ max_length ≤ 1500).
Local Abbreviation k := (Z.to_nat ((max_length - 12) `div` 4)).
Local Abbreviation bytes := (nack_bytes (sender_ssrc n) (media_ssrc n)).

(** Starting with an empty buffer, the loop hands over all packets but the last, which it
    leaves in the buffer. *)
Lemma create_loop_chunks fuel packet ready j : zlen packet = 1500 → 0 ≤ j < zlen (packed n) →
  let rest := drop (Z.to_nat j) (packed n) in
  (2 * length rest + 1 ≤ fuel)%nat →
  ∃ packet' index ready', create_loop fuel n max_length packet 0 ready j = Some (packet', index, ready', true) ∧
    0 < index ∧ ready' ++ [take (Z.to_nat index) packet'] = ready ++ (bytes <$> chunks (length rest) k rest).
Proof.
  revert packet ready j. induction fuel as [fuel IH] using lt_wf_ind. intros packet ready j Hp Hj rest Hf.
  assert (zlen rest = zlen (packed n) - j) as Hrest by (unfold rest; rewrite length_drop; lia).
  destruct fuel as [|fuel]; [lia|]. cbn [create_loop].
  destruct (Z.ltb_spec j (zlen (packed n))); [|lia].
  unfold kHeaderLength, kCommonFeedbackLength, kNackItemLength.
  rewrite Z.sub_0_r, (u64_id max_length) by (unfold uint64; lia).
  destruct (Z.ltb_spec max_length (4 + 8 + 4)); [lia|]. change (4 + 8) with 12.
  set (m := Z.min ((max_length - 12) `div` 4) (zlen (packed n) - j)).
  assert (1 ≤ m ∧ 4 * m ≤ max_length - 12 ∧ m ≤ zlen rest) as (Hm1 & Hm4 & Hmr) by zdiv.
  set (items := slice (packed n) j m).
  assert (zlen items = m) as Eitems by (unfold items; rewrite slice_length by lia; lia).
  pose proof (write_packet_bytes n packet 0 items ltac:(lia) ltac:(lia) ltac:(lia)) as W.
  rewrite Eitems in W. unfold kFeedbackMessageType, kPacketType.
  destruct (CreateHeader 1 205 ((8 + m * 4) `div` 4) false packet 0) as [b i].
  rewrite W. clear W. rewrite !Z.add_0_l.
  assert (take (Z.to_nat (12 + 4 * m)) (store packet 0 (bytes items)) = bytes items) as Htake.
  { pose proof (nack_bytes_length (sender_ssrc n) (media_ssrc n) items) as L.
    unfold store. rewrite take_0, app_nil_l. apply take_prefix. lia. }
  assert (zlen (store packet 0 (bytes items)) = 1500) as Hst.
  { rewrite store_length; rewrite ?nack_bytes_length; lia. }
  assert (items = take k rest) as Ek.
  { unfold items. rewrite slice_drop_take by lia. fold rest.
    destruct (decide (m = (max_length - 12) `div` 4)) as [->|]; [done|].
    rewrite !take_ge; [done|zdiv|zdiv]. }
  assert (0 < k)%nat as Hk by zdiv. assert (rest ≠ []) as Hne by (intros E; rewrite E in Hrest; simpl in Hrest; lia).
  destruct fuel as [|fuel]; [lia|]. cbn [create_loop].
  destruct (Z.ltb_spec (j + m) (zlen (packed n))) as [Hmore|Hend].
  - unfold kHeaderLength, kCommonFeedbackLength, kNackItemLength.
    assert (m = (max_length - 12) `div` 4) as Em by lia.
    rewrite (u64_id (max_length - (12 + 4 * m))) by (unfold uint64; lia).
    destruct (Z.ltb_spec (max_length - (12 + 4 * m)) (4 + 8 + 4)); [|zdiv].
    unfold OnBufferFull. destruct (Z.eqb_spec (12 + 4 * m) 0); [lia|].
    rewrite Htake.
    assert (drop (Z.to_nat (j + m)) (packed n) = drop k rest) as Ed
      by (unfold rest; rewrite drop_drop; f_equal; lia).
    destruct (IH fuel ltac:(lia) (store packet 0 (bytes items)) (ready ++ [bytes items]) (j + m))
      as (p' & ix & r' & E & Hix & Er); [done|lia| |].
    { rewrite Ed, length_drop. lia. }
    exists p', ix, r'. split; [exact E|]. split; [done|]. rewrite Er, Ed.
    rewrite (chunks_step k rest) by (done || lia). rewrite <-app_assoc. cbn [fmap list_fmap]. by rewrite Ek.
  - exists (store packet 0 (bytes items)), (12 + 4 * m), ready. split; [done|]. split; [lia|].
    rewrite Htake, (chunks_step k rest) by (done || lia). rewrite (drop_ge rest) by zdiv.
    cbn [length chunks fmap list_fmap]. by rewrite Ek.
Qed.
End create.

Lemma Build_chunks n buffer max_length :
  zlen buffer = 1500 → 16 ≤ max_length ≤ 1500 → packed n ≠ [] →
  Build n buffer max_length =
    Some (nack_bytes (sender_ssrc n) (media_ssrc n) <$>
            chunks (length (packed n)) (Z.to_nat ((max_length - 12) `div` 4)) (packed n), true).
Proof.
  intros Hb Hm Hne. unfold Build, IP_PACKET_SIZE. rewrite Z.gtb_ltb.
  destruct (Z.ltb_spec 1500 max_length); [lia|].
  assert (0 < zlen (packed n)) as Hpos by (destruct (packed n); [done|simpl; lia]).
  destruct (create_loop_chunks n max_length Hm (2 * length (packed n) + 2) buffer [] 0)
    as (packet' & index & ready' & E & Hi & Er); [done|lia|rewrite drop_0; lia|].
  unfold Create. rewrite E. unfold OnBufferFull. destruct (Z.eqb_spec index 0); [lia|].
  rewrite Er. by rewrite drop_0.
Qed.

(** No room for a single item: nothing is handed over. *)
Lemma Build_too_small n buffer max_length :
  0 ≤ max_length < 16 → packed n ≠ [] → Build n buffer max_length = Some ([], false).
Proof.
  intros Hm Hne. unfold Build, IP_PACKET_SIZE. rewrite Z.gtb_ltb.
  destruct (Z.ltb_spec 1500 max_length); [lia|].
  assert (0 < zlen (packed n)) as Hpos by (destruct (packed n); [done|simpl; lia]).
  unfold Create. replace (2 * length (packed n) + 2)%nat with (S (2 * length (packed n) + 1)) by lia.
  cbn [create_loop]. destruct (Z.ltb_spec 0 (zlen (packed n))); [|lia].
  rewrite Z.sub_0_r, u64_id by (unfold uint64; lia).
  unfold kHeaderLength, kCommonFeedbackLength, kNackItemLength.
  by destruct (Z.ltb_spec max_length (4 + 8 + 4)); [|lia].
Qed.

(** * Parsing *)

Definition valid_item (it : PackedNack) : Prop := uint16 (first_pid it) ∧ uint16 (bitmask it).

Lemma read_be S B l p (v : Z) : 1 ≤ B ≤ S → Forall uint8 l → 0 ≤ p → p + B ≤ zlen l →
  slice l p B = be_bytes (Z.to_nat B) v → 0 ≤ v < 2 ^ (8 * B) → ReadBigEndian S B l p = v.
Proof.
  intros HB Hu Hp Hl E Hv. rewrite ReadBigEndian_value, E, be_value_bytes, pow256, Z2Nat.id by (done || lia).
  by apply Z.mod_small.
Qed.

Lemma slice_app_r {A} (l k : list A) p m : p = zlen l → slice (l ++ k) p m = take (Z.to_nat m) k.
Proof. intros ->. unfold slice. by rewrite Nat2Z.id, drop_app_length. Qed.

Lemma items_uint8 items : Forall uint8 (flat_map item_bytes items).
Proof.
  induction items as [|it items IH]; [constructor|].
  change (flat_map item_bytes (it :: items)) with (item_bytes it ++ flat_map item_bytes items).
  apply Forall_app_2; [|done]. apply Forall_app_2; apply be_bytes_uint8.
Qed.

Lemma parse_items_bytes items pre pos :
  Forall uint8 pre → zlen pre = pos → Forall valid_item items →
  parse_items (length items) (pre ++ flat_map item_bytes items) pos = items.
Proof.
  intros Hpre. revert pre pos Hpre. induction items as [|it items IH]; intros pre pos Hpre Hpos Hv; [done|].
  apply Forall_cons_1 in Hv as [[H1 H2] Hv]. cbn [length parse_items].
  change (flat_map item_bytes (it :: items)) with (item_bytes it ++ flat_map item_bytes items).
  assert (Forall uint8 (item_bytes it)) as Hib by (apply Forall_app_2; apply be_bytes_uint8).
  assert (Forall uint8 (pre ++ item_bytes it ++ flat_map item_bytes items)) as Hall
    by (apply Forall_app_2; [done|]; apply Forall_app_2; [done|apply items_uint8]).
  assert (zlen (pre ++ item_bytes it ++ flat_map item_bytes items) = pos + 4 + 4 * zlen items) as Hl.
  { rewrite !zlen_app, items_length. change (zlen (item_bytes it)) with 4. lia. }
  rewrite (read_be 2 2 _ pos (first_pid it)); [|lia|done|lia|lia| |unfold uint16 in H1; lia].
  2:{ rewrite slice_app_r by lia. done. }
  rewrite (read_be 2 2 _ (pos + 2) (bitmask it)); [|lia|done|lia|lia| |unfold uint16 in H2; lia].
  2:{ unfold item_bytes. rewrite <-app_assoc, app_assoc. rewrite slice_app_r; [done|].
      rewrite zlen_app, be_bytes_length. lia. }
  rewrite app_assoc. unfold kNackItemLength. rewrite IH; [by destruct it| | |done].
  - by apply Forall_app_2.
  - rewrite zlen_app. change (zlen (item_bytes it)) with 4. lia.
Qed.

Lemma nack_bytes_uint8 s m items : zlen items < 10000 → Forall uint8 (nack_bytes s m items).
Proof.
  intros Hl. unfold nack_bytes, header_bytes. apply Forall_app_2.
  - do 2 (apply Forall_cons_2; [cint|]). do 2 (apply Forall_cons_2; [unfold uint8; zdiv|]). apply Forall_nil_2.
  - apply Forall_app_2; [apply be_bytes_uint8|]. apply Forall_app_2; [apply be_bytes_uint8|apply items_uint8].
Qed.

(** A packet as written is parsed to its items. *)
Lemma parse_nack_bytes s m items h0 n0 :
  uint32 s → uint32 m → Forall valid_item items → 1 ≤ zlen items < 10000 →
  let p := nack_bytes s m items in
  let '(h, ok) := CommonHeader_Parse h0 p (zlen p) in
  ok = true ∧ packet_type h = kPacketType ∧ count_or_format h = kFeedbackMessageType ∧ packet_size h = zlen p ∧
  Nack_Parse n0 h = (MkNack s m items (flat_map unpack_item items), true).
Proof.
  intros Hs Hm Hi Hl p. pose proof (nack_bytes_length s m items) as Lp. fold p in Lp.
  assert (Forall uint8 p) as Hu by (apply nack_bytes_uint8; lia).
  unfold CommonHeader_Parse, kHeaderSizeBytes. destruct (Z.ltb_spec (zlen p) 4); [lia|].
  change (p.[0]) with 129. change (p.[1]) with 205. change (129 ≫ 6 =? 2) with true.
  change (Z.land 129 0x20 =? 0) with true. cbn [negb].
  assert (ReadBigEndian 2 2 p 2 = 2 + zlen items) as Er.
  { apply read_be; [lia|done|lia|lia| |lia].
    change (slice p 2 2) with [(2 + zlen items) `div` 256; (2 + zlen items) `mod` 256].
    change (Z.to_nat 2) with 2%nat. cbn [be_bytes]. change (8 * Z.of_nat 1) with 8. change (8 * Z.of_nat 0) with 0.
    rewrite Z.shiftr_0_r, Z.shiftr_div_pow2 by lia. change (2 ^ 8) with 256.
    rewrite (u8_id ((2 + zlen items) `div` 256)); [done|]. unfold uint8. zdiv. }
  rewrite Er. destruct (Z.ltb_spec (zlen p) (4 + (2 + zlen items) * 4)); [lia|].
  split; [done|]. split; [done|]. split; [done|]. split; [unfold packet_size, kHeaderSizeBytes; cbn [payload_size padding_size]; lia|].
  unfold Nack_Parse, kCommonFeedbackLength, kNackItemLength. cbn [payload_size payload].
  destruct (Z.ltb_spec ((2 + zlen items) * 4) (8 + 4)); [lia|].
  set (body := drop (Z.to_nat 4) p).
  assert (body = (be_bytes 4 s ++ be_bytes 4 m) ++ flat_map item_bytes items) as Eb
    by (unfold body, p, nack_bytes; by rewrite <-app_assoc).
  assert (Forall uint8 body) as Hbu by (by apply Forall_drop).
  assert (zlen body = 8 + 4 * zlen items) as Lb by (unfold body; rewrite length_drop; lia).
  replace (((2 + zlen items) * 4 - 8) `div` 4) with (zlen items) by zdiv. rewrite Nat2Z.id.
  unfold ParseCommonFeedback, Unpack. cbn [sender_ssrc media_ssrc SetMediaSsrc SetSenderSsrc packed packet_ids app].
  rewrite Eb at 3. rewrite parse_items_bytes; [|apply Forall_app_2; apply be_bytes_uint8|done|done].
  rewrite Eb at 3. rewrite parse_items_bytes; [|apply Forall_app_2; apply be_bytes_uint8|done|done].
  rewrite (read_be 4 4 body 0 s); [|lia|done|lia|lia| |unfold uint32 in Hs; lia].
  2:{ rewrite Eb, <-!app_assoc. unfold slice. change (Z.to_nat 0) with 0%nat. by rewrite drop_0. }
  rewrite (read_be 4 4 body 4 m); [done|lia|done|lia|lia| |unfold uint32 in Hm; lia].
  rewrite Eb, <-!app_assoc. rewrite slice_app_r; [done|]. by rewrite be_bytes_length.
Qed.

(** * Theorems *)

(** What a receiver gets out of one packet. *)
Definition receive (p : list Z) : Nack :=
  (Nack_Parse NewNack (CommonHeader_Parse NewHeader p (zlen p)).1).1.

(** C33: negative acknowledgements round trip.  A list of lost sequence numbers, packed and
    built into buffers of any permitted size, arrives completely: every buffer handed to the
    callback respects the limit and is a valid RTCP packet of the sender for the stream, and
    the numbers received are those sent, in the same order when every number is ahead of the
    one before; with less room than for one item nothing is sent and [Build] fails. *)
Theorem nack_roundtrip sender media ids buffer max_length :
  uint32 sender → uint32 media → ids ≠ [] → Forall uint16 ids → zlen buffer = 1500 →
  0 ≤ max_length ≤ 1500 →
  let n := SetPacketIds (SetMediaSsrc (SetSenderSsrc NewNack sender) media) ids in
  if max_length <? 16 then Build n buffer max_length = Some ([], false)
  else ∃ ps, Build n buffer max_length = Some (ps, true) ∧
    Forall (λ p, zlen p ≤ max_length ∧
      (let '(h, ok) := CommonHeader_Parse NewHeader p (zlen p) in
       ok = true ∧ packet_type h = kPacketType ∧ count_or_format h = kFeedbackMessageType ∧
       packet_size h = zlen p ∧ (Nack_Parse NewNack h).2 = true) ∧
      sender_ssrc (receive p) = sender ∧ media_ssrc (receive p) = media) ps ∧
    (∀ x, x ∈ flat_map (λ p, packet_ids (receive p)) ps ↔ x ∈ ids) ∧
    (∀ x l, ids = x :: l → ahead_by_steps x l → flat_map (λ p, packet_ids (receive p)) ps = ids).
Proof.
  intros Hs Hm Hne Hids Hb Hmax n.
  destruct (pack_loop_spec (length ids) ids (le_n _) Hids) as (Hv & Hemp & Hin & Hord).
  assert (packed n ≠ []) as Hpn by (intros E; apply Hne, Hemp; exact E).
  destruct (Z.ltb_spec max_length 16) as [Hsm|Hbig]; [apply Build_too_small; [lia|done]|].
  set (k := Z.to_nat ((max_length - 12) `div` 4)).
  assert (0 < k)%nat as Hk by (unfold k; zdiv).
  destruct (chunks_concat (length (packed n)) k (packed n) Hk (le_n _)) as [Hc Hlen].
  eexists. split; [apply Build_chunks; [done|lia|done]|]. fold k. change (sender_ssrc n) with sender. change (media_ssrc n) with media.
  set (cs := chunks (length (packed n)) k (packed n)) in *.
  assert (Forall (λ c, Forall valid_item c ∧ 1 ≤ zlen c ∧ 12 + 4 * zlen c ≤ max_length) cs) as Hcs.
  { eapply Forall_impl; [|exact (Forall_and (chunks_Forall valid_item (length (packed n)) k (packed n) Hv) Hlen)].
    intros c [H1 H2]. split; [done|]. unfold k in H2. zdiv. }
  assert (∀ c, Forall valid_item c ∧ 1 ≤ zlen c ∧ 12 + 4 * zlen c ≤ max_length →
    receive (nack_bytes sender media c) = MkNack sender media c (flat_map unpack_item c)) as Hrec.
  { intros c (H1 & H2 & H3). pose proof (parse_nack_bytes sender media c NewHeader NewNack Hs Hm H1 ltac:(lia)) as P.
    unfold receive. cbv zeta in P. destruct (CommonHeader_Parse _ _ _) as [h ok]. destruct P as (_ & _ & _ & _ & P).
    simpl. by rewrite P. }
  assert (flat_map (λ p, packet_ids (receive p)) (nack_bytes sender media <$> cs) =
    flat_map unpack_item (pack_loop (length ids) ids)) as Hflat.
  { change (pack_loop (length ids) ids) with (packed n). rewrite <-Hc. clear -Hcs Hrec.
    induction Hcs as [|c cs Hc Hcs IH]; [done|]. cbn [fmap list_fmap flat_map concat].
    rewrite flat_map_app, Hrec by done. f_equal. exact IH. }
  split; [|rewrite Hflat; split; [exact Hin|exact Hord]].
  apply Forall_fmap. eapply Forall_impl; [|exact Hcs]. intros c Hcc. unfold compose. cbv beta in *.
  rewrite Hrec by done. destruct Hcc as (H1 & H2 & H3). split; [rewrite nack_bytes_length; lia|]. split; [|done].
  pose proof (parse_nack_bytes sender media c NewHeader NewNack Hs Hm H1 ltac:(lia)) as P. cbv zeta in P.
  destruct (CommonHeader_Parse _ _ _) as [h ok]. destruct P as (P1 & P2 & P3 & P4 & P5). by rewrite P5.
Qed.

Lemma nack_roundtrip_witness :
  ∃ ps, Build (SetPacketIds (SetMediaSsrc (SetSenderSsrc NewNack 1) 2) [65535; 3; 4; 100; 300])
    (replicate 1500 0) 20 = Some (ps, true) ∧ length ps = 2%nat ∧
  flat_map (λ p, packet_ids (receive p)) ps = [65535; 3; 4; 100; 300].
Proof.
  pose proof (nack_roundtrip 1 2 [65535; 3; 4; 100; 300] (replicate 1500 0) 20) as T.
  destruct T as (ps & E & _ & _ & T).
  - unfold uint32. lia.
  - unfold uint32. lia.
  - done.
  - do 5 (apply Forall_cons_2; [cint|]). apply Forall_nil_2.
  - done.
  - lia.
  - exists ps. split; [exact E|]. split.
    + vm_compute in E. by injection E as <-.
    + apply (T 65535 [3; 4; 100; 300]); [done|]. vm_compute. repeat split; done.
Defined.

(** C37: RTCP header.  Exactly the buffers with a full header of version 2, a payload inside
    the buffer and, with the padding bit, a padding count between one and the payload size
    are accepted; then the payload and the padding lie inside the buffer.  A buffer too short
    for a header or of another version leaves the object unchanged. *)
Theorem common_header_parse h buffer : Forall uint8 buffer →
  let size := zlen buffer in
  let length := ReadBigEndian 2 2 buffer 2 * 4 in
  let padding := (drop 4 buffer).[length - 1] in
  let padded := negb (Z.land (buffer.[0]) 0x20 =? 0) in
  let '(h', ok) := CommonHeader_Parse h buffer size in
  (ok = true ↔ 4 ≤ size ∧ buffer.[0] `div` 64 = 2 ∧ 4 + length ≤ size ∧
     (padded = true → 1 ≤ padding ≤ length)) ∧
  (ok = true → packet_size h' = 4 + length ∧ payload h' = drop 4 buffer ∧
     payload_size h' = (if padded then length - padding else length) ∧ 0 ≤ payload_size h') ∧
  (size < 4 ∨ buffer.[0] `div` 64 ≠ 2 → h' = h ∧ ok = false).
Proof.
  intros Hu size length padding padded. unfold CommonHeader_Parse, packet_size, kHeaderSizeBytes.
  fold size. change (Z.to_nat 4) with 4%nat. fold length padding padded.
  rewrite (Z.shiftr_div_pow2 _ 6 ltac:(lia)). change (2 ^ 6) with 64.
  destruct (Z.ltb_spec size 4); [split; [|done]; split; [done|lia]|].
  assert (0 ≤ length) as Hlen.
  { unfold length. rewrite ReadBigEndian_value by (done || unfold size in *; lia).
    pose proof (be_value_bound (slice buffer 2 2)) as B. destruct B; [|lia].
    unfold slice. by apply Forall_take, Forall_drop. }
  assert (0 ≤ padding) as Hpad.
  { pose proof (rd_Forall uint8 (drop 4 buffer) (length - 1) (Forall_drop _ _ _ Hu) ltac:(cint)) as R.
    unfold uint8 in R. unfold padding. lia. }
  destruct (Z.eqb_spec (buffer.[0] `div` 64) 2) as [Ev|Ev]; simpl negb; cbv iota;
    [|split; [split; [done|lia]|split; [done|done]]].
  destruct (Z.ltb_spec size (4 + length)); [split; [split; [done|lia]|split; [done|lia]]|].
  destruct padded eqn:Epd; simpl payload_size; simpl padding_size; simpl payload.
  - rewrite Z.gtb_ltb. destruct (Z.eqb_spec length 0); [split; [split; [done|]|split; [done|lia]]|].
    { intros (_ & _ & _ & P). specialize (P eq_refl). lia. }
    destruct (Z.eqb_spec padding 0); [split; [split; [done|]|split; [done|lia]]|].
    { intros (_ & _ & _ & P). specialize (P eq_refl). lia. }
    destruct (Z.ltb_spec length padding); [split; [split; [done|]|split; [done|lia]]|].
    { intros (_ & _ & _ & P). specialize (P eq_refl). lia. }
    split; [split; [intros _; repeat split; (done || lia)|done]|].
    split; [intros _; cbn [payload_size padding_size payload]; repeat split; (done || lia)|intros [?|Hn]; [lia|by destruct Hn]].
  - split; [split; [intros _; repeat split; (done || lia)|done]|].
    split; [intros _; cbn [payload_size padding_size payload]; repeat split; (done || lia)|intros [?|Hn]; [lia|by destruct Hn]].
Qed.

Lemma common_header_parse_witness :
  (CommonHeader_Parse NewHeader [0xa1; 205; 0; 2; 1; 2; 3; 4; 0; 0; 0; 4] 12).2 = true ∧
  (CommonHeader_Parse NewHeader [0x61; 205; 0; 0] 4) = (NewHeader, false).
Proof.
  split.
  - pose proof (common_header_parse NewHeader [0xa1; 205; 0; 2; 1; 2; 3; 4; 0; 0; 0; 4]
      ltac:(do 12 (apply Forall_cons_2; [cint|]); apply Forall_nil_2)) as T.
    cbv zeta in T. change (zlen _) with 12 in T.
    destruct (CommonHeader_Parse _ _ _) as [h ok]. destruct T as (T & _). apply T. vm_compute. by repeat split.
  - pose proof (common_header_parse NewHeader [0x61; 205; 0; 0]
      ltac:(do 4 (apply Forall_cons_2; [cint|]); apply Forall_nil_2)) as T.
    cbv zeta in T. change (zlen _) with 4 in T.
    destruct (CommonHeader_Parse _ _ _) as [h ok]. destruct T as (_ & _ & T).
    destruct T as [-> ->]; [right; by vm_compute|done].
Defined.
