(* ===== verification/FeedbackChunk.v ===== *)
(** The status chunks of transport feedback: class LastChunk of
    modules/rtp_rtcp/source/rtcp_packet/transport_feedback.cc.

    A chunk is a 16-bit word for a list of delta sizes: a run of one size, fourteen packets with
    one bit each, or seven with two bits each.  [LastChunk] collects sizes as long as one chunk
    can hold them.  The first part has the definitions; the second shows that the object is a
    list of sizes ([content]), to which [Add] appends and from whose front [Emit] takes what
    the emitted word decodes to. *)
From S2P Require Import Prelude.

(** * Definitions *)

Definition kMaxRunLengthCapacity : Z := 0x1fff.
Definition kMaxOneBitCapacity : Z := 14.
Definition kMaxTwoBitCapacity : Z := 7.
Definition kMaxVectorCapacity : Z := kMaxOneBitCapacity.
Definition kLarge : Z := 2.

Record LastChunk : Type := MkLastChunk {
  delta_sizes_ : list Z; chunk_size_ : Z; all_same_ : bool; has_large_delta_ : bool;
}.

Definition LastChunk_Empty (c : LastChunk) : bool := chunk_size_ c =? 0.

Definition LastChunk_Clear (c : LastChunk) : LastChunk := MkLastChunk (delta_sizes_ c) 0 true false.

(** The array is not initialised: [mem] is what it holds. *)
Definition NewLastChunk (mem : list Z) : LastChunk := LastChunk_Clear (MkLastChunk mem 0 true false).

Definition CanAdd (c : LastChunk) (delta_size : Z) : bool :=
  if chunk_size_ c <? kMaxTwoBitCapacity then true
  else if (chunk_size_ c <? kMaxOneBitCapacity) && negb (has_large_delta_ c) &&
          negb (delta_size =? kLarge) then true
  else if (chunk_size_ c <? kMaxRunLengthCapacity) && all_same_ c &&
          ((delta_sizes_ c).[0] =? delta_size) then true
  else false.

Definition LastChunk_Add (c : LastChunk) (delta_size : Z) : LastChunk :=
  let ds := if chunk_size_ c <? kMaxVectorCapacity
            then wr (delta_sizes_ c) (chunk_size_ c) delta_size else delta_sizes_ c in
  MkLastChunk ds (chunk_size_ c + 1) (all_same_ c && (delta_size =? ds.[0]))
    (has_large_delta_ c || (delta_size =? kLarge)).

Definition LastChunk_AddMissingPackets (c : LastChunk) (num_missing : Z) : LastChunk :=
  MkLastChunk (replicate (Z.to_nat kMaxVectorCapacity) 0) num_missing (all_same_ c) (has_large_delta_ c).

Definition EncodeOneBit (c : LastChunk) : Z :=
  for_up 0 (Z.to_nat (chunk_size_ c)) (λ i chunk,
    u16 (Z.lor chunk ((delta_sizes_ c).[i] ≪ (kMaxOneBitCapacity - 1 - i)))) 0x8000.

Definition EncodeTwoBit (c : LastChunk) (size : Z) : Z :=
  for_up 0 (Z.to_nat size) (λ i chunk,
    u16 (Z.lor chunk ((delta_sizes_ c).[i] ≪ (2 * (kMaxTwoBitCapacity - 1 - i))))) 0xc000.

Definition EncodeRunLength (c : LastChunk) : Z :=
  u16 (Z.lor ((delta_sizes_ c).[0] ≪ 13) (u16 (chunk_size_ c))).

(** The delta sizes behind the seven that were encoded move to the front. *)
Definition shift_sizes (size : Z) (ds : list Z) : list Z * bool * bool :=
  for_up 0 (Z.to_nat size) (λ i '(ds, same, large),
    let delta_size := ds.[kMaxTwoBitCapacity + i] in
    let ds := wr ds i delta_size in
    (ds, same && (delta_size =? ds.[0]), large || (delta_size =? kLarge))) (ds, true, false).

Definition Emit (c : LastChunk) : LastChunk * Z :=
  if all_same_ c then (LastChunk_Clear c, EncodeRunLength c)
  else if chunk_size_ c =? kMaxOneBitCapacity then (LastChunk_Clear c, EncodeOneBit c)
  else
    let chunk := EncodeTwoBit c kMaxTwoBitCapacity in
    let size := chunk_size_ c - kMaxTwoBitCapacity in
    let '(ds, same, large) := shift_sizes size (delta_sizes_ c) in
    (MkLastChunk ds size same large, chunk).

Definition EncodeLast (c : LastChunk) : Z :=
  if all_same_ c then EncodeRunLength c
  else if chunk_size_ c <=? kMaxTwoBitCapacity then EncodeTwoBit c (chunk_size_ c)
  else EncodeOneBit c.

(** [AppendTo]: what is appended. *)
Definition AppendTo (c : LastChunk) (deltas : list Z) : list Z :=
  deltas ++
  if all_same_ c then replicate (Z.to_nat (chunk_size_ c)) ((delta_sizes_ c).[0])
  else slice (delta_sizes_ c) 0 (chunk_size_ c).

Definition DecodeOneBit (c : LastChunk) (chunk max_size : Z) : LastChunk :=
  let size := Z.min kMaxOneBitCapacity max_size in
  MkLastChunk
    (for_up 0 (Z.to_nat size) (λ i ds,
       wr ds i (Z.land (chunk ≫ (kMaxOneBitCapacity - 1 - i)) 0x01)) (delta_sizes_ c))
    size false false.

Definition DecodeTwoBit (c : LastChunk) (chunk max_size : Z) : LastChunk :=
  let size := Z.min kMaxTwoBitCapacity max_size in
  MkLastChunk
    (for_up 0 (Z.to_nat size) (λ i ds,
       wr ds i (Z.land (chunk ≫ (2 * (kMaxTwoBitCapacity - 1 - i))) 0x03)) (delta_sizes_ c))
    size false true.

Definition DecodeRunLength (c : LastChunk) (chunk max_count : Z) : LastChunk :=
  let size := Z.min (Z.land chunk 0x1fff) max_count in
  let delta_size := Z.land (chunk ≫ 13) 0x03 in
  MkLastChunk
    (for_up 0 (Z.to_nat (Z.min size kMaxVectorCapacity)) (λ i ds, wr ds i delta_size) (delta_sizes_ c))
    size true (kLarge <=? delta_size).

Definition Decode (c : LastChunk) (chunk max_size : Z) : LastChunk :=
  if Z.land chunk 0x8000 =? 0 then DecodeRunLength c chunk max_size
  else if Z.land chunk 0x4000 =? 0 then DecodeOneBit c chunk max_size
  else DecodeTwoBit c chunk max_size.

(** * Digits packed into a word *)

Section pack.
Context (k N T : Z) (f : Z → Z).
Context (Hk : 1 ≤ k) (HN : k * N = 14) (HT : 0 ≤ T ≤ 3).

(** [word] holds [T] above the first [j] digits. *)
Definition packed_to (j word : Z) : Prop :=
  ∃ w, word = w * 2 ^ (k * (N - j)) ∧ w `div` 2 ^ (k * j) = T ∧
    ∀ i, 0 ≤ i < j → (w `div` 2 ^ (k * (j - 1 - i))) `mod` 2 ^ k = f i.

Lemma pow_pos a : 0 ≤ a → 0 < 2 ^ a.
Proof. intros. by apply Z.pow_pos_nonneg. Qed.

Lemma packed_range j word : 0 ≤ j ≤ N → packed_to j word → 0 ≤ word < 65536.
Proof.
  intros Hj (w & -> & E & _). pose proof (pow_pos (k * j) ltac:(nia)) as P1.
  pose proof (pow_pos (k * (N - j)) ltac:(nia)) as P2.
  assert (0 ≤ w < (T + 1) * 2 ^ (k * j)) as Hw by (clear - E P1 HT; zdiv).
  assert (2 ^ (k * j) * 2 ^ (k * (N - j)) = 2 ^ 14) as Ep
    by (rewrite <- Z.pow_add_r by nia; f_equal; nia).
  change (2 ^ 14) with 16384 in Ep. nia.
Qed.

Lemma packed_step j word : 0 ≤ j < N → 0 ≤ f j < 2 ^ k → packed_to j word →
  packed_to (j + 1) (u16 (Z.lor word (f j ≪ (k * (N - 1 - j))))).
Proof.
  intros Hj Hf HP. pose proof (packed_range j word ltac:(lia) HP) as Hr. destruct HP as (w & E & ET & HD).
  pose proof (pow_pos k ltac:(lia)) as Pk. pose proof (pow_pos (k * (N - 1 - j)) ltac:(nia)) as P1.
  assert (word = (w * 2 ^ k) * 2 ^ (k * (N - 1 - j))) as E'.
  { rewrite E, <- Z.mul_assoc, <- Z.pow_add_r by nia. do 2 f_equal. nia. }
  assert (Z.lor word (f j ≪ (k * (N - 1 - j))) = (w * 2 ^ k + f j) * 2 ^ (k * (N - 1 - j))) as EL.
  { rewrite E', <- !Z.shiftl_mul_pow2 by nia. rewrite <- Z.shiftl_lor. f_equal.
    rewrite Z.lor_comm, lor_shiftl_disjoint by lia. rewrite Z.shiftl_mul_pow2 by lia. lia. }
  assert (packed_to (j + 1) ((w * 2 ^ k + f j) * 2 ^ (k * (N - 1 - j)))) as HP'.
  { exists (w * 2 ^ k + f j). split; [do 3 f_equal; lia|]. split.
    - replace (k * (j + 1)) with (k + k * j) by lia. rewrite Z.pow_add_r by nia.
      rewrite <- Z.div_div by (try apply Z.pow_pos_nonneg; nia).
      rewrite Z.div_add_l, (Z.div_small (f j)), Z.add_0_r by lia. done.
    - intros i Hi. destruct (decide (i = j)) as [->|Hne].
      + replace (k * (j + 1 - 1 - j)) with 0 by lia. rewrite Z.div_1_r.
        rewrite Z.add_comm, Z.mod_add, Z.mod_small by lia. done.
      + replace (k * (j + 1 - 1 - i)) with (k + k * (j - 1 - i)) by lia. rewrite Z.pow_add_r by nia.
        rewrite <- Z.div_div by (try apply Z.pow_pos_nonneg; nia).
        rewrite Z.div_add_l, (Z.div_small (f j)), Z.add_0_r by lia. apply HD. lia. }
  rewrite EL. rewrite u16_id; [done|]. pose proof (packed_range (j + 1) _ ltac:(lia) HP'). cint.
Qed.

Lemma packed_loop n : 0 ≤ n ≤ N → (∀ i, 0 ≤ i < n → 0 ≤ f i < 2 ^ k) →
  packed_to n (for_up 0 (Z.to_nat n) (λ i word, u16 (Z.lor word (f i ≪ (k * (N - 1 - i))))) (T * 2 ^ 14)).
Proof.
  intros Hn Hf. pose proof (for_up_inv packed_to 0 (Z.to_nat n)
    (λ i word, u16 (Z.lor word (f i ≪ (k * (N - 1 - i))))) (T * 2 ^ 14)) as H.
  rewrite Z2Nat.id, Z.add_0_l in H by lia. apply H.
  - exists T. split; [do 2 f_equal; lia|]. split; [rewrite Z.mul_0_r; apply Z.div_1_r|]. intros i Hi. lia.
  - intros i word Hi HP. apply packed_step; [lia|apply Hf; lia|done].
Qed.

(** What a word holds. *)
Lemma packed_digit n word i : 0 ≤ i < n → n ≤ N → packed_to n word →
  Z.land (word ≫ (k * (N - 1 - i))) (2 ^ k - 1) = f i.
Proof.
  intros Hi Hn (w & -> & _ & HD). rewrite <- (HD i Hi).
  replace (2 ^ k - 1) with (Z.ones k) by (rewrite Z.ones_equiv; lia).
  rewrite Z.land_ones, Z.shiftr_div_pow2 by nia. f_equal.
  replace (k * (N - 1 - i)) with (k * (n - 1 - i) + k * (N - n)) by lia.
  rewrite Z.pow_add_r by nia. by rewrite Z.div_mul_cancel_r by (apply Z.pow_nonzero; nia).
Qed.

Lemma packed_top n word : 0 ≤ n ≤ N → packed_to n word → word `div` 2 ^ 14 = T.
Proof.
  intros Hn (w & -> & E & _). replace 14 with (k * n + k * (N - n)) by nia.
  rewrite Z.pow_add_r by nia. by rewrite Z.div_mul_cancel_r by (apply Z.pow_nonzero; nia).
Qed.
End pack.

(** * What a word decodes to *)

Definition decoded (chunk max_size : Z) : list Z :=
  if negb (Z.testbit chunk 15) then
    replicate (Z.to_nat (Z.min (chunk `mod` 2 ^ 13) max_size)) (Z.land (chunk ≫ 13) 0x03)
  else if negb (Z.testbit chunk 14) then
    map (λ i, Z.land (chunk ≫ (13 - i)) 0x01) (seqZ 0 (Z.min 14 max_size))
  else map (λ i, Z.land (chunk ≫ (2 * (6 - i))) 0x03) (seqZ 0 (Z.min 7 max_size)).

Definition content (c : LastChunk) : list Z :=
  if all_same_ c then replicate (Z.to_nat (chunk_size_ c)) ((delta_sizes_ c).[0])
  else slice (delta_sizes_ c) 0 (chunk_size_ c).

Lemma AppendTo_content c deltas : AppendTo c deltas = deltas ++ content c.
Proof. done. Qed.

Lemma land_bit x n : 0 ≤ n → (Z.land x (2 ^ n) =? 0) = negb (Z.testbit x n).
Proof.
  intros Hn. destruct (Z.testbit x n) eqn:E; cbn [negb].
  - apply Z.eqb_neq. intros H. apply (f_equal (λ y, Z.testbit y n)) in H.
    rewrite Z.land_spec, E, Z.pow2_bits_true, Z.bits_0 in H by lia. done.
  - apply Z.eqb_eq. apply Z.bits_inj'. intros i Hi. rewrite Z.land_spec, Z.pow2_bits_eqb, Z.bits_0 by lia.
    destruct (Z.eqb_spec n i) as [<-|]; [by rewrite E|apply andb_false_r].
Qed.

Lemma fill_slice n g dst : 0 ≤ n ≤ zlen dst → slice (fill n g dst) 0 n = map g (seqZ 0 n).
Proof.
  intros Hn. rewrite fill_spec by done. unfold slice. rewrite drop_0, take_app_le, take_ge; [done|..];
    rewrite length_fmap, length_seqZ; lia.
Qed.

Lemma fill_length n g dst : 0 ≤ n ≤ zlen dst → length (fill n g dst) = length dst.
Proof. intros Hn. rewrite fill_spec by done. rewrite length_app, length_fmap, length_seqZ, length_drop. lia. Qed.

(** The arrays that [Decode] works on: the word decides, not what was there before. *)
Lemma Decode_content c chunk max_size : length (delta_sizes_ c) = 14%nat → 0 ≤ max_size →
  content (Decode c chunk max_size) = decoded chunk max_size ∧
  length (delta_sizes_ (Decode c chunk max_size)) = 14%nat ∧
  chunk_size_ (Decode c chunk max_size) = zlen (decoded chunk max_size).
Proof.
  intros Hl Hm. unfold Decode, decoded. change 0x8000 with (2 ^ 15). change 0x4000 with (2 ^ 14).
  rewrite !land_bit by lia. destruct (negb (Z.testbit chunk 15)).
  - unfold DecodeRunLength, content. cbn [all_same_ chunk_size_ delta_sizes_].
    change (Z.land chunk 0x1fff) with (Z.land chunk (Z.ones 13)). rewrite Z.land_ones by lia.
    pose proof (Z.mod_pos_bound chunk (2 ^ 13) ltac:(lia)). unfold kMaxVectorCapacity, kMaxOneBitCapacity.
    set (n := Z.min (chunk `mod` 2 ^ 13) max_size). set (d := Z.land (chunk ≫ 13) 3).
    change (for_up 0 _ _ (delta_sizes_ c)) with (fill (Z.min n 14) (λ _, d) (delta_sizes_ c)).
    split; [|split; [rewrite fill_length by lia; done|rewrite length_replicate; lia]].
    destruct (Z.eqb_spec n 0) as [->|]; [done|]. f_equal.
    rewrite fill_spec by lia. rewrite rd_app_l by (rewrite length_fmap, length_seqZ; lia).
    rewrite seqZ_cons by lia. done.
  - unfold kMaxOneBitCapacity, kMaxTwoBitCapacity. destruct (negb (Z.testbit chunk 14)).
    + unfold DecodeOneBit, content, kMaxOneBitCapacity. cbn [all_same_ chunk_size_ delta_sizes_].
      change (for_up 0 ?n _ (delta_sizes_ c)) with (fill (Z.min 14 max_size)
        (λ i, Z.land (chunk ≫ (14 - 1 - i)) 1) (delta_sizes_ c)).
      rewrite fill_slice by lia. split; [by apply map_ext|].
      split; [rewrite fill_length by lia; done|rewrite length_map, length_seqZ; lia].
    + unfold DecodeTwoBit, content, kMaxTwoBitCapacity. cbn [all_same_ chunk_size_ delta_sizes_].
      change (for_up 0 ?n _ (delta_sizes_ c)) with (fill (Z.min 7 max_size)
        (λ i, Z.land (chunk ≫ (2 * (7 - 1 - i))) 3) (delta_sizes_ c)).
      rewrite fill_slice by lia. split; [by apply map_ext|].
      split; [rewrite fill_length by lia; done|rewrite length_map, length_seqZ; lia].
Qed.

Lemma take_seqZ a n m : 0 ≤ m → take (Z.to_nat m) (seqZ a n) = seqZ a (Z.min n m).
Proof.
  intros Hm. unfold seqZ. rewrite <- fmap_take, take_seq. do 2 f_equal. lia.
Qed.

(** A limit only cuts the list. *)
Lemma decoded_take chunk m M : 0 ≤ m ≤ M → decoded chunk m = take (Z.to_nat m) (decoded chunk M).
Proof.
  intros Hm. unfold decoded. destruct (negb (Z.testbit chunk 15)).
  - pose proof (Z.mod_pos_bound chunk (2 ^ 13) ltac:(lia)). rewrite take_replicate. f_equal. lia.
  - destruct (negb (Z.testbit chunk 14)); rewrite <- fmap_take, take_seqZ by lia; do 2 f_equal; lia.
Qed.

Lemma decoded_all chunk m M : 0 ≤ m ≤ M → zlen (decoded chunk M) ≤ m → decoded chunk m = decoded chunk M.
Proof. intros Hm Hl. rewrite (decoded_take chunk m M) by lia. apply take_ge. lia. Qed.

(** * What is encoded *)

Lemma top_bits word T : 0 ≤ T ≤ 3 → word `div` 2 ^ 14 = T →
  Z.testbit word 15 = (2 <=? T) ∧ Z.testbit word 14 = (T `mod` 2 =? 1).
Proof.
  intros HT E. split.
  - apply Bool.eq_iff_eq_true. rewrite Z.testbit_true, Z.leb_le by lia.
    change (2 ^ 15) with (2 ^ 14 * 2). rewrite <- Z.div_div, E by lia. zdiv.
  - apply Bool.eq_iff_eq_true. rewrite Z.testbit_true, Z.eqb_eq by lia. by rewrite E.
Qed.

Lemma rd_map_seqZ (g : Z → Z) n i : 0 ≤ i < n → (map g (seqZ 0 n)).[i] = g i.
Proof.
  intros Hi. unfold rd. destruct (Z.ltb_spec i 0); [lia|]. apply nth_lookup_Some.
  rewrite (list_lookup_fmap g (seqZ 0 n)), (proj2 (lookup_seqZ 0 n (Z.to_nat i) i)) by lia. done.
Qed.

Lemma map_digits (g : Z → Z) ds n : 0 ≤ n ≤ zlen ds → (∀ i, 0 ≤ i < n → g i = ds.[i]) →
  map g (seqZ 0 n) = slice ds 0 n.
Proof.
  intros Hn Hg. apply list_rd_eq.
  - rewrite length_map, length_seqZ, slice_length by lia. done.
  - rewrite length_map, length_seqZ. intros i Hi. rewrite rd_slice by lia. rewrite Z.add_0_l.
    rewrite rd_map_seqZ by lia. apply Hg. lia.
Qed.

Lemma EncodeOneBit_decoded c m : length (delta_sizes_ c) = 14%nat → 0 ≤ chunk_size_ c ≤ 14 → 0 ≤ m →
  (∀ i, 0 ≤ i < chunk_size_ c → 0 ≤ (delta_sizes_ c).[i] ≤ 1) → Z.min 14 m ≤ chunk_size_ c →
  decoded (EncodeOneBit c) m = slice (delta_sizes_ c) 0 (Z.min 14 m) ∧ uint16 (EncodeOneBit c).
Proof.
  intros Hl Hs Hm Hd Hms. set (f := λ i, (delta_sizes_ c).[i]).
  assert (packed_to 1 14 2 f (chunk_size_ c) (EncodeOneBit c)) as HP.
  { pose proof (packed_loop 1 14 2 f ltac:(lia) ltac:(lia) ltac:(lia) (chunk_size_ c) ltac:(lia)
      ltac:(intros i Hi; specialize (Hd i Hi); unfold f; lia)) as H.
    unfold EncodeOneBit, kMaxOneBitCapacity. change 0x8000 with (2 * 2 ^ 14).
    erewrite for_up_ext; [exact H|]. intros i s Hi. cbv beta. by rewrite Z.mul_1_l. }
  split; [|pose proof (packed_range 1 14 2 f ltac:(lia) ltac:(lia) ltac:(lia) (chunk_size_ c) (EncodeOneBit c) ltac:(lia) HP); cint].
  destruct (top_bits (EncodeOneBit c) 2 ltac:(lia)
    (packed_top 1 14 2 f ltac:(lia) ltac:(lia) ltac:(lia) (chunk_size_ c) (EncodeOneBit c) ltac:(lia) HP)) as [T1 T2].
  unfold decoded. rewrite T1, T2.
  change (negb (2 <=? 2)) with false. change (negb (2 `mod` 2 =? 1)) with true. cbv iota.
  apply map_digits; [lia|]. intros i Hi. change ((delta_sizes_ c).[i]) with (f i).
  rewrite <- (packed_digit 1 14 2 f ltac:(lia) ltac:(lia) ltac:(lia) (chunk_size_ c) (EncodeOneBit c) i ltac:(lia) ltac:(lia) HP).
  rewrite Z.mul_1_l. replace (14 - 1 - i) with (13 - i) by lia. done.
Qed.

Lemma EncodeTwoBit_decoded c n m : length (delta_sizes_ c) = 14%nat → 0 ≤ n ≤ 7 → 0 ≤ m →
  (∀ i, 0 ≤ i < n → 0 ≤ (delta_sizes_ c).[i] ≤ 2) → Z.min 7 m ≤ n →
  decoded (EncodeTwoBit c n) m = slice (delta_sizes_ c) 0 (Z.min 7 m) ∧ uint16 (EncodeTwoBit c n).
Proof.
  intros Hl Hs Hm Hd Hms. set (f := λ i, (delta_sizes_ c).[i]).
  assert (packed_to 2 7 3 f n (EncodeTwoBit c n)) as HP.
  { pose proof (packed_loop 2 7 3 f ltac:(lia) ltac:(lia) ltac:(lia) n ltac:(lia)
      ltac:(intros i Hi; specialize (Hd i Hi); unfold f; lia)) as H.
    unfold EncodeTwoBit, kMaxTwoBitCapacity. change 0xc000 with (3 * 2 ^ 14). exact H. }
  split; [|pose proof (packed_range 2 7 3 f ltac:(lia) ltac:(lia) ltac:(lia) n (EncodeTwoBit c n) ltac:(lia) HP); cint].
  destruct (top_bits (EncodeTwoBit c n) 3 ltac:(lia)
    (packed_top 2 7 3 f ltac:(lia) ltac:(lia) ltac:(lia) n (EncodeTwoBit c n) ltac:(lia) HP)) as [T1 T2].
  unfold decoded. rewrite T1, T2. change (negb (2 <=? 3)) with false.
  change (negb (3 `mod` 2 =? 1)) with false. cbv iota.
  apply map_digits; [lia|]. intros i Hi. change ((delta_sizes_ c).[i]) with (f i).
  rewrite <- (packed_digit 2 7 3 f ltac:(lia) ltac:(lia) ltac:(lia) n (EncodeTwoBit c n) i ltac:(lia) ltac:(lia) HP).
  replace (7 - 1 - i) with (6 - i) by lia. done.
Qed.

Lemma EncodeRunLength_decoded c m : 0 ≤ chunk_size_ c ≤ 0x1fff → 0 ≤ (delta_sizes_ c).[0] ≤ 2 → 0 ≤ m →
  decoded (EncodeRunLength c) m = replicate (Z.to_nat (Z.min (chunk_size_ c) m)) ((delta_sizes_ c).[0]) ∧
  uint16 (EncodeRunLength c).
Proof.
  intros Hs Hd Hm. set (d := (delta_sizes_ c).[0]) in *.
  assert (EncodeRunLength c = d * 2 ^ 13 + chunk_size_ c) as E.
  { unfold EncodeRunLength. fold d. rewrite (u16_id (chunk_size_ c)) by cint.
    rewrite Z.lor_comm, lor_shiftl_disjoint by (change (2 ^ 13) with 8192; lia). rewrite u16_id by cint. lia. }
  rewrite E. split; [|cint]. destruct (top_bits (d * 2 ^ 13 + chunk_size_ c) ((d * 2 ^ 13 + chunk_size_ c) `div` 2 ^ 14))
    as [T1 _]; [zdiv|done|].
  unfold decoded. rewrite T1. assert ((2 <=? (d * 2 ^ 13 + chunk_size_ c) `div` 2 ^ 14) = false) as -> by zdiv.
  cbn [negb]. rewrite Z.add_comm, Z.mod_add, (Z.mod_small (chunk_size_ c)) by lia. f_equal.
  rewrite Z.shiftr_div_pow2, Z.div_add, (Z.div_small (chunk_size_ c)), Z.add_0_l by lia.
  change 0x03 with (Z.ones 2). rewrite Z.land_ones by lia. apply Z.mod_small. lia.
Qed.

(** * The object as a list of sizes *)

Record chunk_ok (c : LastChunk) : Prop := {
  ck_array : length (delta_sizes_ c) = 14%nat;
  ck_size : 0 ≤ chunk_size_ c ≤ 0x1fff;
  ck_sizes : Forall (λ x, 0 ≤ x ≤ 2) (content c);
  ck_same : all_same_ c = true → ∀ i, 0 ≤ i < Z.min (chunk_size_ c) 14 → (delta_sizes_ c).[i] = (delta_sizes_ c).[0];
  ck_small : has_large_delta_ c = false → Forall (λ x, x ≤ 1) (content c);
  ck_vector : all_same_ c = false → chunk_size_ c ≤ 14 ∧ (has_large_delta_ c = true → chunk_size_ c ≤ 7);
}.

Lemma content_length c : chunk_ok c → zlen (content c) = chunk_size_ c.
Proof.
  intros [H1 H2 _ _ _ H5]. unfold content. destruct (all_same_ c).
  - rewrite length_replicate. lia.
  - rewrite slice_length by lia. lia.
Qed.

(** Up to fourteen sizes are in the array. *)
Lemma content_slice c : chunk_ok c → chunk_size_ c ≤ 14 → content c = slice (delta_sizes_ c) 0 (chunk_size_ c).
Proof.
  intros [H1 H2 _ H3 _ _] Hs. unfold content. destruct (all_same_ c); [|done].
  apply list_rd_eq; [rewrite length_replicate, slice_length by lia; lia|].
  rewrite length_replicate. intros i Hi. rewrite rd_slice by lia. rewrite Z.add_0_l, (H3 eq_refl i) by lia.
  unfold rd at 1. destruct (Z.ltb_spec i 0); [lia|]. apply nth_lookup_Some, lookup_replicate. split; [done|lia].
Qed.

Lemma content_rd c i : chunk_ok c → 0 ≤ i < Z.min (chunk_size_ c) 14 → In ((delta_sizes_ c).[i]) (content c).
Proof.
  intros Hc Hi. pose proof Hc as [H1 H2 _ H3 _ _]. destruct (all_same_ c) eqn:E.
  - rewrite (H3 eq_refl i) by done. unfold content. rewrite E. apply list_elem_of_In, elem_of_replicate. split; [done|lia].
  - destruct (ck_vector _ Hc E) as [Hv _]. rewrite content_slice by done.
    apply list_elem_of_In, list_elem_of_lookup. exists (Z.to_nat i). unfold slice, rd.
    rewrite drop_0, lookup_take_lt by lia. destruct (Z.ltb_spec i 0); [lia|].
    rewrite nth_lookup. destruct (_ !! _) eqn:El; [done|]. apply lookup_ge_None in El. lia.
Qed.

Lemma slice_wr_next ds n d : 0 ≤ n < zlen ds → slice (wr ds n d) 0 (n + 1) = slice ds 0 n ++ [d].
Proof.
  intros Hn. rewrite slice_app by lia. f_equal.
  - unfold slice. rewrite !drop_0. unfold wr. destruct (Z.ltb_spec n 0); [lia|]. rewrite take_insert_ge by lia. done.
  - unfold slice, wr. destruct (Z.ltb_spec n 0); [lia|]. rewrite Z.add_0_l.
    rewrite (drop_S _ d) by (rewrite list_lookup_insert_eq by lia; done). done.
Qed.

Lemma CanAdd_cases c d : CanAdd c d = true →
  chunk_size_ c < 7 ∨ (chunk_size_ c < 14 ∧ has_large_delta_ c = false ∧ d ≠ 2) ∨
  (chunk_size_ c < 0x1fff ∧ all_same_ c = true ∧ (delta_sizes_ c).[0] = d).
Proof.
  unfold CanAdd, kMaxTwoBitCapacity, kMaxOneBitCapacity, kMaxRunLengthCapacity, kLarge.
  destruct (Z.ltb_spec (chunk_size_ c) 7); [by left|].
  destruct (_ && _ && negb (d =? 2)) eqn:E1.
  { intros _. right. left. rewrite !andb_true_iff, !negb_true_iff in E1. destruct E1 as [[A B] C]. split_and!; [lia|done|lia]. }
  destruct (_ && _ && (_ =? d)) eqn:E2; [|done]. intros _. right. right.
  rewrite !andb_true_iff in E2. destruct E2 as [[A B] C]. split_and!; [lia|done|lia].
Qed.

Lemma rd_wr_case ds n d i : 0 ≤ n < zlen ds → (wr ds n d).[i] = if i =? n then d else ds.[i].
Proof. intros Hn. destruct (Z.eqb_spec i n) as [->|]; [by apply rd_wr_eq|by apply rd_wr_ne]. Qed.

(** [Add] appends. *)
Lemma Add_ok c d : chunk_ok c → CanAdd c d = true → 0 ≤ d ≤ 2 →
  chunk_ok (LastChunk_Add c d) ∧ content (LastChunk_Add c d) = content c ++ [d].
Proof.
  intros Hc Hcan Hd. pose proof Hc as [H1 H2 H3 H4 H5 H6]. pose proof (CanAdd_cases c d Hcan) as Hcase.
  unfold LastChunk_Add, kMaxVectorCapacity, kMaxOneBitCapacity, kLarge.
  set (n := chunk_size_ c) in *. set (ds' := if n <? 14 then wr (delta_sizes_ c) n d else delta_sizes_ c).
  assert (length ds' = 14%nat) as L' by (subst ds'; destruct (n <? 14); [by rewrite wr_length|done]).
  assert (∀ i, 0 ≤ i < 14 → ds'.[i] = if i =? n then d else (delta_sizes_ c).[i]) as R'.
  { intros i Hi. subst ds'. destruct (Z.ltb_spec n 14); [apply rd_wr_case; lia|].
    destruct (Z.eqb_spec i n); [lia|done]. }
  assert (n < 0x1fff) as Hn by lia.
  set (c' := MkLastChunk ds' (n + 1) (all_same_ c && (d =? ds'.[0])) (has_large_delta_ c || (d =? 2))).
  assert (content c' = content c ++ [d]) as Hcont.
  { unfold content at 1, c'. cbn [all_same_ delta_sizes_ chunk_size_].
    destruct (all_same_ c && (d =? ds'.[0])) eqn:Es.
    - apply andb_true_iff in Es as [Es Ed]. apply Z.eqb_eq in Ed. unfold content. rewrite Es. fold n.
      replace (Z.to_nat (n + 1)) with (Z.to_nat n + 1)%nat by lia. rewrite replicate_add, <- Ed. f_equal.
      rewrite R' in Ed by lia. destruct (Z.eqb_spec 0 n) as [<-|]; [done|by rewrite Ed].
    - assert (n < 14) as Hn14.
      { destruct Hcase as [?|[[? _]|(_ & Es' & Ed)]]; [lia|lia|]. destruct (Z.ltb_spec n 14); [done|].
        rewrite Es', R', Ed in Es by lia. destruct (Z.eqb_spec 0 n); [lia|]. rewrite Z.eqb_refl in Es. done. }
      rewrite content_slice by (done || (fold n; lia)). fold n. subst ds'.
      destruct (Z.ltb_spec n 14); [|lia]. apply slice_wr_next. lia. }
  split; [|exact Hcont]. split; rewrite ?Hcont; cbn [delta_sizes_ chunk_size_ all_same_ has_large_delta_ c'].
  - done.
  - lia.
  - apply Forall_app. split; [done|by constructor].
  - intros Es i Hi. apply andb_true_iff in Es as [Es Ed]. apply Z.eqb_eq in Ed.
    rewrite R' by lia. destruct (Z.eqb_spec i n); [done|]. rewrite (H4 Es i) by lia.
    rewrite R' by lia. destruct (Z.eqb_spec 0 n); [lia|done].
  - intros El. apply orb_false_iff in El as [El Ed]. apply Forall_app. split; [by apply H5|]. constructor; [lia|done].
  - intros Es. destruct Hcase as [?|[(? & El & Hd2)|(? & Es' & Ed)]].
    + split; [lia|lia].
    + split; [lia|]. rewrite El. cbn [orb]. lia.
    + destruct (Z.ltb_spec n 7); [split; lia|]. rewrite Es', R' in Es by lia.
      destruct (Z.eqb_spec 0 n); [lia|]. rewrite Ed, Z.eqb_refl in Es. done.
Qed.

Lemma Clear_ok c : length (delta_sizes_ c) = 14%nat → chunk_ok (LastChunk_Clear c) ∧ content (LastChunk_Clear c) = [].
Proof.
  intros H. split; [|done]. split; cbn [delta_sizes_ chunk_size_ all_same_ has_large_delta_ LastChunk_Clear]; try done; try lia; constructor.
Qed.

Lemma Empty_content c : chunk_ok c → LastChunk_Empty c = true ↔ content c = [].
Proof.
  intros Hc. unfold LastChunk_Empty. pose proof (content_length c Hc). rewrite Z.eqb_eq. split; intros E.
  - destruct (content c); [done|]. cbn [length] in *. lia.
  - rewrite E in *. cbn [length] in *. lia.
Qed.

Lemma AddMissing_ok c n : chunk_ok c → all_same_ c = true → has_large_delta_ c = false → 0 ≤ n ≤ 0x1fff →
  chunk_ok (LastChunk_AddMissingPackets c n) ∧
  content (LastChunk_AddMissingPackets c n) = replicate (Z.to_nat n) 0.
Proof.
  intros Hc Hs Hl Hn. assert (content (LastChunk_AddMissingPackets c n) = replicate (Z.to_nat n) 0) as E.
  { unfold content, LastChunk_AddMissingPackets. cbn [all_same_ delta_sizes_ chunk_size_]. by rewrite Hs. }
  split; [|done]. split; rewrite ?E;
    cbn [delta_sizes_ chunk_size_ all_same_ has_large_delta_ LastChunk_AddMissingPackets]; try done.
  - apply Forall_replicate. lia.
  - intros _ i Hi. by rewrite !rd_replicate_0.
  - intros _. apply Forall_replicate. lia.
  - congruence.
Qed.

Lemma shift_sizes_spec size ds : 0 ≤ size ≤ 7 → length ds = 14%nat →
  let '(ds', same, large) := shift_sizes size ds in
  length ds' = 14%nat ∧ (∀ i, 0 ≤ i < size → ds'.[i] = ds.[7 + i]) ∧
  (same = true → ∀ i, 0 ≤ i < size → ds'.[i] = ds'.[0]) ∧
  (large = false → ∀ i, 0 ≤ i < size → ds'.[i] ≠ 2).
Proof.
  intros Hs Hl. unfold shift_sizes, kMaxTwoBitCapacity, kLarge. set (body := λ i '(ds0, same, large), _).
  pose proof (for_up_inv (λ j '(ds', same, large),
    length ds' = 14%nat ∧ (∀ i, 0 ≤ i < j → ds'.[i] = ds.[7 + i]) ∧ (∀ i, j ≤ i < 14 → ds'.[i] = ds.[i]) ∧
    (same = true → ∀ i, 0 ≤ i < j → ds'.[i] = ds'.[0]) ∧ (large = false → ∀ i, 0 ≤ i < j → ds'.[i] ≠ 2))
    0 (Z.to_nat size) body (ds, true, false)) as H.
  rewrite Z2Nat.id, Z.add_0_l in H by lia.
  destruct (for_up 0 (Z.to_nat size) body (ds, true, false)) as [[ds' same] large].
  destruct H as (A & B & _ & C & D); [| |done].
  - split_and!; try done; intros; lia.
  - intros j [[d1 s1] l1] Hj (A & B & B' & C & D). subst body. cbv beta iota zeta.
    rewrite (B' (7 + j)) by lia.
    assert (∀ i, 0 ≤ i < 14 → (wr d1 j (ds.[7 + j])).[i] = if i =? j then ds.[7 + j] else d1.[i]) as R
      by (intros i Hi; apply rd_wr_case; lia).
    split_and!; [by rewrite wr_length|..].
    + intros i Hi. rewrite R by lia. destruct (Z.eqb_spec i j) as [->|]; [done|apply B; lia].
    + intros i Hi. rewrite R by lia. destruct (Z.eqb_spec i j); [lia|apply B'; lia].
    + intros Es i Hi. apply andb_true_iff in Es as [Es Ed]. apply Z.eqb_eq in Ed.
      rewrite (R i) by lia. destruct (Z.eqb_spec i j); [done|].
      rewrite (C Es i) by lia. rewrite R by lia. destruct (Z.eqb_spec 0 j); [lia|done].
    + intros El i Hi. apply orb_false_iff in El as [El Ed].
      rewrite R by lia. destruct (Z.eqb_spec i j); [lia|apply D; [done|lia]].
Qed.

Lemma content_Forall c (P : Z → Prop) : chunk_ok c → chunk_size_ c ≤ 14 →
  (∀ i, 0 ≤ i < chunk_size_ c → P ((delta_sizes_ c).[i])) → Forall P (content c).
Proof.
  intros Hc Hs HP. rewrite content_slice by done. apply list.Forall_forall. intros x Hx.
  apply list_elem_of_lookup in Hx as [k Hk]. pose proof (ck_array _ Hc) as Hl. pose proof (ck_size _ Hc).
  unfold slice in Hk. rewrite drop_0 in Hk. pose proof (lookup_lt_Some _ _ _ Hk) as Hlt. rewrite length_take in Hlt.
  rewrite lookup_take_lt in Hk by lia. specialize (HP (Z.of_nat k) ltac:(lia)). unfold rd in HP.
  destruct (Z.ltb_spec (Z.of_nat k) 0); [lia|]. rewrite Nat2Z.id, nth_lookup, Hk in HP. exact HP.
Qed.

Lemma chunk_rd_range c i : chunk_ok c → 0 ≤ i < Z.min (chunk_size_ c) 14 →
  0 ≤ (delta_sizes_ c).[i] ≤ 2 ∧ (has_large_delta_ c = false → (delta_sizes_ c).[i] ≤ 1).
Proof.
  intros Hc Hi. pose proof (content_rd c i Hc Hi) as Hin. apply list_elem_of_In in Hin.
  pose proof (ck_sizes _ Hc) as H1. rewrite list.Forall_forall in H1. split; [by apply H1|].
  intros El. pose proof (ck_small _ Hc El) as H2. rewrite list.Forall_forall in H2. by apply H2.
Qed.

(** The word that [Emit] returns stands for the front of the list, the object for the rest. *)
Lemma Emit_ok c d : chunk_ok c → CanAdd c d = false →
  let '(c', w) := Emit c in
  chunk_ok c' ∧ chunk_size_ c' ≤ 6 ∧ content c = decoded w 0xffff ++ content c' ∧ uint16 w ∧
  7 ≤ zlen (decoded w 0xffff) ∧ (CanAdd c 0 = false → c' = LastChunk_Clear c).
Proof.
  intros Hc Hcan. pose proof Hc as [H1 H2 _ _ _ H6].
  assert (7 ≤ chunk_size_ c) as H7.
  { unfold CanAdd, kMaxTwoBitCapacity in Hcan. destruct (Z.ltb_spec (chunk_size_ c) 7); [done|lia]. }
  unfold Emit. destruct (all_same_ c) eqn:Es.
  - destruct (chunk_rd_range c 0 Hc ltac:(lia)) as [Hd _].
    destruct (EncodeRunLength_decoded c 0xffff H2 Hd ltac:(lia)) as [E U].
    destruct (Clear_ok c H1) as [Ok Ec]. rewrite E, Ec, app_nil_r.
    split; [done|]. split; [cbn; lia|]. split; [unfold content; rewrite Es; f_equal; lia|].
    split; [done|]. split; [rewrite length_replicate; lia|done].
  - destruct (H6 eq_refl) as [Hv Hlarge]. unfold kMaxOneBitCapacity.
    destruct (Z.eqb_spec (chunk_size_ c) 14) as [E14|N14].
    + assert (has_large_delta_ c = false) as El by (destruct (has_large_delta_ c); [lia|done]).
      destruct (EncodeOneBit_decoded c 0xffff H1 ltac:(lia) ltac:(lia)) as [E U]; [|lia|].
      { intros i Hi. destruct (chunk_rd_range c i Hc ltac:(lia)) as [Hr Hs]. specialize (Hs El). lia. }
      destruct (Clear_ok c H1) as [Ok Ec]. rewrite E, Ec, app_nil_r.
      split; [done|]. split; [cbn; lia|].
      split; [rewrite content_slice by (done || lia); f_equal; lia|].
      split; [done|]. split; [rewrite slice_length by lia; lia|done].
    + unfold kMaxTwoBitCapacity.
      destruct (EncodeTwoBit_decoded c 7 0xffff H1 ltac:(lia) ltac:(lia)) as [E U]; [|lia|].
      { intros i Hi. apply (chunk_rd_range c i Hc). lia. }
      pose proof (shift_sizes_spec (chunk_size_ c - 7) (delta_sizes_ c) ltac:(lia) H1) as HS.
      destruct (shift_sizes _ _) as [[ds' same] large] eqn:Esh. destruct HS as (L' & R' & S' & G').
      set (c' := MkLastChunk ds' (chunk_size_ c - 7) same large).
      assert (content c' = slice (delta_sizes_ c) 7 (chunk_size_ c - 7)) as Ec'.
      { transitivity (slice ds' 0 (chunk_size_ c - 7)).
        - unfold content, c'. cbn [all_same_ delta_sizes_ chunk_size_]. destruct same; [|done].
          apply list_rd_eq; [rewrite length_replicate, slice_length by lia; lia|].
          rewrite length_replicate. intros i Hi. rewrite rd_slice by lia. rewrite Z.add_0_l, (S' eq_refl i) by lia.
          unfold rd at 1. destruct (Z.ltb_spec i 0); [lia|]. apply nth_lookup_Some, lookup_replicate. split; [done|lia].
        - apply list_rd_eq; [rewrite !slice_length by lia; done|].
          rewrite slice_length by lia. intros i Hi. rewrite !rd_slice by lia. rewrite Z.add_0_l. apply R'. lia. }
      assert (content c = slice (delta_sizes_ c) 0 7 ++ content c') as Eall.
      { rewrite Ec', content_slice by (done || lia). rewrite <- (Z.add_0_l 7) at 2. rewrite <- slice_app by lia.
        f_equal. lia. }
      rewrite E. split_and!.
      * split; cbn [delta_sizes_ chunk_size_ all_same_ has_large_delta_ c']; try done; try lia.
        -- pose proof (ck_sizes _ Hc) as HF. rewrite Eall in HF. apply Forall_app in HF as [_ HF]. exact HF.
        -- intros Et i Hi. apply S'; [done|lia].
        -- intros El. rewrite Ec'. apply list.Forall_forall. intros x Hx. apply list_elem_of_lookup in Hx as [k Hk].
           pose proof (lookup_lt_Some _ _ _ Hk) as Hlt. rewrite slice_length in Hlt by lia.
           assert (x = (slice (delta_sizes_ c) 7 (chunk_size_ c - 7)).[Z.of_nat k]) as ->.
           { unfold rd. destruct (Z.ltb_spec (Z.of_nat k) 0); [lia|]. by rewrite Nat2Z.id, nth_lookup, Hk. }
           rewrite rd_slice by lia. pose proof (G' El (Z.of_nat k) ltac:(lia)) as Hne. rewrite R' in Hne by lia.
           destruct (chunk_rd_range c (7 + Z.of_nat k) Hc ltac:(lia)) as [Hr _]. lia.
      * cbn. lia.
      * rewrite Eall. by rewrite Z.min_l by lia.
      * done.
      * rewrite slice_length by lia. lia.
      * intros H0. assert (chunk_size_ c = 7) as E7.
        { unfold CanAdd, kMaxTwoBitCapacity, kMaxOneBitCapacity, kLarge in H0.
          destruct (Z.ltb_spec (chunk_size_ c) 7); [lia|]. change (0 =? 2) with false in H0.
          destruct (has_large_delta_ c); [lia|]. destruct (Z.ltb_spec (chunk_size_ c) 14); [done|lia]. }
        subst c'. rewrite E7 in *. cbn in Esh. injection Esh as <- <- <-. done.
Qed.

(** The last word stands for all that is left. *)
Lemma EncodeLast_ok c : chunk_ok c → 0 < chunk_size_ c →
  decoded (EncodeLast c) (chunk_size_ c) = content c ∧ uint16 (EncodeLast c).
Proof.
  intros Hc Hpos. pose proof Hc as [H1 H2 _ _ _ H6]. unfold EncodeLast, kMaxTwoBitCapacity.
  destruct (all_same_ c) eqn:Es.
  - destruct (chunk_rd_range c 0 Hc ltac:(lia)) as [Hd _].
    destruct (EncodeRunLength_decoded c (chunk_size_ c) H2 Hd ltac:(lia)) as [E U].
    rewrite E. split; [|done]. unfold content. rewrite Es. f_equal. lia.
  - destruct (H6 eq_refl) as [Hv Hlarge]. destruct (Z.leb_spec (chunk_size_ c) 7).
    + destruct (EncodeTwoBit_decoded c (chunk_size_ c) (chunk_size_ c) H1 ltac:(lia) ltac:(lia)) as [E U]; [|lia|].
      { intros i Hi. apply (chunk_rd_range c i Hc). lia. }
      rewrite E. split; [|done]. rewrite content_slice by (done || lia). f_equal. lia.
    + assert (has_large_delta_ c = false) as El by (destruct (has_large_delta_ c); [lia|done]).
      destruct (EncodeOneBit_decoded c (chunk_size_ c) H1 ltac:(lia) ltac:(lia)) as [E U]; [|lia|].
      { intros i Hi. destruct (chunk_rd_range c i Hc ltac:(lia)) as [Hr Hs]. specialize (Hs El). lia. }
      rewrite E. split; [|done]. rewrite content_slice by (done || lia). f_equal. lia.
Qed.
