(* ===== verification/TransportFeedback.v ===== *)
(** Transport feedback: modules/rtp_rtcp/source/rtcp_packet/transport_feedback.cc.

    The receiver of a stream reports which packets arrived and when: a status for each sequence
    number, in chunks (FeedbackChunk), and for each packet that arrived the time since the one
    before in ticks of 250 microseconds.  Times are microseconds in [Z]; sums of times do not
    overflow 64 bits in the code, which checks that.  The member [all_packets_], which the code
    only clears, is left out.  This file has the definitions and follows the object through
    all operations; FeedbackWire has the wire format. *)
From S2P Require Import Prelude ByteIo SeqNum Rtcp FeedbackChunk.

(** * Definitions *)

Definition kDeltaTick : Z := 250.
Definition kMaxReportedPackets : Z := 0xffff.
Definition kTransportFeedbackHeaderSizeBytes : Z := 4 + 8 + 8.
Definition kChunkSizeBytes : Z := 2.
Definition kMaxSizeBytes : Z := (1 ≪ 16) * 4.
Definition kMinPayloadSizeBytes : Z := 8 + 8 + 2.
Definition kBaseTimeTick : Z := kDeltaTick * (1 ≪ 8).
Definition kTimeWrapPeriod : Z := kBaseTimeTick * (1 ≪ 24).
Definition kTransportFeedbackMessageType : Z := 15.

(** [TransportFeedback::ReceivedPacket] *)
Record PacketDelta : Type := MkDelta { sequence_number : Z; delta_ticks : Z }.
Definition delta (p : PacketDelta) : Z := delta_ticks p * kDeltaTick.

Record TransportFeedback : Type := MkFeedback {
  fb_sender_ssrc : Z; fb_media_ssrc : Z;
  base_seq_no_ : Z; num_seq_no_ : Z; base_time_ticks_ : Z; feedback_seq_ : Z;
  include_timestamps_ : bool; last_timestamp_ : Z;
  received_packets_ : list PacketDelta; encoded_chunks_ : list Z; last_chunk_ : LastChunk;
  size_bytes_ : Z;
}.

Definition NewFeedback (mem : list Z) (include_timestamps : bool) : TransportFeedback :=
  MkFeedback 0 0 0 0 0 0 include_timestamps 0 [] [] (NewLastChunk mem) kTransportFeedbackHeaderSizeBytes.

Definition set_ssrcs (fb : TransportFeedback) (sender media : Z) : TransportFeedback :=
  MkFeedback sender media (base_seq_no_ fb) (num_seq_no_ fb) (base_time_ticks_ fb) (feedback_seq_ fb)
    (include_timestamps_ fb) (last_timestamp_ fb) (received_packets_ fb) (encoded_chunks_ fb)
    (last_chunk_ fb) (size_bytes_ fb).

(** The chunks with the number of statuses and of bytes they make up. *)
Definition set_chunks (fb : TransportFeedback) (num : Z) (chunks : list Z) (last : LastChunk) (size : Z)
  : TransportFeedback :=
  MkFeedback (fb_sender_ssrc fb) (fb_media_ssrc fb) (base_seq_no_ fb) num (base_time_ticks_ fb)
    (feedback_seq_ fb) (include_timestamps_ fb) (last_timestamp_ fb) (received_packets_ fb) chunks last size.

(** The packets received with the time of the last and the bytes. *)
Definition set_packets (fb : TransportFeedback) (time : Z) (packets : list PacketDelta) (size : Z)
  : TransportFeedback :=
  MkFeedback (fb_sender_ssrc fb) (fb_media_ssrc fb) (base_seq_no_ fb) (num_seq_no_ fb) (base_time_ticks_ fb)
    (feedback_seq_ fb) (include_timestamps_ fb) time packets (encoded_chunks_ fb) (last_chunk_ fb) size.

Definition BaseTime (fb : TransportFeedback) : Z := kTimeWrapPeriod + base_time_ticks_ fb * kBaseTimeTick.

Definition SetBase (fb : TransportFeedback) (base_sequence ref_timestamp : Z) : TransportFeedback :=
  let ticks := u32 (Z.quot (Z.rem ref_timestamp kTimeWrapPeriod) kBaseTimeTick) in
  MkFeedback (fb_sender_ssrc fb) (fb_media_ssrc fb) base_sequence (num_seq_no_ fb) ticks (feedback_seq_ fb)
    (include_timestamps_ fb) (kTimeWrapPeriod + ticks * kBaseTimeTick) (received_packets_ fb)
    (encoded_chunks_ fb) (last_chunk_ fb) (size_bytes_ fb).

Definition SetFeedbackSequenceNumber (fb : TransportFeedback) (feedback_sequence : Z) : TransportFeedback :=
  MkFeedback (fb_sender_ssrc fb) (fb_media_ssrc fb) (base_seq_no_ fb) (num_seq_no_ fb) (base_time_ticks_ fb)
    feedback_sequence (include_timestamps_ fb) (last_timestamp_ fb) (received_packets_ fb)
    (encoded_chunks_ fb) (last_chunk_ fb) (size_bytes_ fb).

Definition TransportFeedback_Clear (fb : TransportFeedback) : TransportFeedback :=
  MkFeedback (fb_sender_ssrc fb) (fb_media_ssrc fb) (base_seq_no_ fb) 0 (base_time_ticks_ fb)
    (feedback_seq_ fb) (include_timestamps_ fb) (BaseTime fb) [] [] (LastChunk_Clear (last_chunk_ fb))
    kTransportFeedbackHeaderSizeBytes.

(** ** Packets received *)

Definition AddDeltaSize (fb : TransportFeedback) (delta_size : Z) : TransportFeedback * bool :=
  if num_seq_no_ fb =? kMaxReportedPackets then (fb, false)
  else
    let add_chunk_size := if LastChunk_Empty (last_chunk_ fb) then kChunkSizeBytes else 0 in
    if size_bytes_ fb + delta_size + add_chunk_size >? kMaxSizeBytes then (fb, false)
    else if CanAdd (last_chunk_ fb) delta_size then
      (set_chunks fb (u16 (num_seq_no_ fb + 1)) (encoded_chunks_ fb)
         (LastChunk_Add (last_chunk_ fb) delta_size) (size_bytes_ fb + add_chunk_size), true)
    else if size_bytes_ fb + delta_size + kChunkSizeBytes >? kMaxSizeBytes then (fb, false)
    else
      let '(c, chunk) := Emit (last_chunk_ fb) in
      (set_chunks fb (u16 (num_seq_no_ fb + 1)) (encoded_chunks_ fb ++ [chunk])
         (LastChunk_Add c delta_size) (size_bytes_ fb + kChunkSizeBytes), true).

(** [while (num_missing_packets > 0 && last_chunk_.CanAdd(0))]: the chunk and what is left. *)
Fixpoint add_missing_loop (num_missing_packets : nat) (c : LastChunk) : LastChunk * Z :=
  match num_missing_packets with
  | O => (c, 0)
  | S n => if CanAdd c 0 then add_missing_loop n (LastChunk_Add c 0) else (c, Z.of_nat num_missing_packets)
  end.

(** The second half of [AddMissingPackets], on an empty last chunk. *)
Definition add_missing_chunks (fb : TransportFeedback) (chunks : list Z) (c : LastChunk)
    (new_num_seq_no num_missing_packets : Z) : TransportFeedback * bool :=
  let full_chunks := num_missing_packets `div` kMaxRunLengthCapacity in
  let partial_chunk := num_missing_packets `mod` kMaxRunLengthCapacity in
  let num_chunks := full_chunks + (if partial_chunk >? 0 then 1 else 0) in
  if size_bytes_ fb + kChunkSizeBytes * num_chunks >? kMaxSizeBytes then
    (set_chunks fb (u16 (new_num_seq_no - num_missing_packets)) chunks c (size_bytes_ fb), false)
  else
    (set_chunks fb (u16 new_num_seq_no)
       (chunks ++ replicate (Z.to_nat full_chunks) kMaxRunLengthCapacity)
       (LastChunk_AddMissingPackets c partial_chunk)
       (size_bytes_ fb + kChunkSizeBytes * num_chunks), true).

Definition AddMissingPackets (fb : TransportFeedback) (num_missing_packets : Z) : TransportFeedback * bool :=
  let new_num_seq_no := num_seq_no_ fb + num_missing_packets in
  if new_num_seq_no >? kMaxReportedPackets then (fb, false)
  else if negb (LastChunk_Empty (last_chunk_ fb)) then
    let '(c, num_missing_packets) := add_missing_loop (Z.to_nat num_missing_packets) (last_chunk_ fb) in
    if num_missing_packets =? 0 then
      (set_chunks fb (u16 new_num_seq_no) (encoded_chunks_ fb) c (size_bytes_ fb), true)
    else
      let '(c, chunk) := Emit c in
      add_missing_chunks fb (encoded_chunks_ fb ++ [chunk]) c new_num_seq_no num_missing_packets
  else add_missing_chunks fb (encoded_chunks_ fb) (last_chunk_ fb) new_num_seq_no num_missing_packets.

(** [TimeDelta::RoundUpTo] *)
Definition RoundUpTo (value resolution : Z) : Z := Z.quot (value + resolution - 1) resolution * resolution.

(** The delta in ticks, and whether it fits. *)
Definition delta_of (last_timestamp timestamp : Z) : Z * bool :=
  let timestamp := if last_timestamp >? timestamp
                   then timestamp + RoundUpTo (last_timestamp - timestamp) kTimeWrapPeriod else timestamp in
  let delta_full := Z.rem (timestamp - last_timestamp) kTimeWrapPeriod in
  let delta_full := if delta_full >? Z.quot kTimeWrapPeriod 2
                    then delta_full - kTimeWrapPeriod - Z.quot kDeltaTick 2
                    else delta_full + Z.quot kDeltaTick 2 in
  let delta_full := Z.quot delta_full kDeltaTick in
  (s16 delta_full, s16 delta_full =? delta_full).

(** From [DeltaSize delta_size = ...] on. *)
Definition add_received (fb : TransportFeedback) (sequence_number delta : Z) : TransportFeedback * bool :=
  let delta_size := if (delta >=? 0) && (delta <=? 0xff) then 1 else 2 in
  let '(fb, ok) := AddDeltaSize fb delta_size in
  if negb ok then (fb, false)
  else (set_packets fb (last_timestamp_ fb + delta * kDeltaTick)
          (received_packets_ fb ++ [MkDelta sequence_number delta])
          (if include_timestamps_ fb then size_bytes_ fb + delta_size else size_bytes_ fb), true).

Definition AddReceivedPacket (fb : TransportFeedback) (sequence_number timestamp : Z)
  : TransportFeedback * bool :=
  let '(delta, fits) := if include_timestamps_ fb then delta_of (last_timestamp_ fb) timestamp else (0, true) in
  if negb fits then (fb, false)
  else
    let next_seq_no := u16 (base_seq_no_ fb + num_seq_no_ fb) in
    if negb (sequence_number =? next_seq_no) then
      let last_seq_no := u16 (next_seq_no - 1) in
      if negb (IsNewerSequenceNumber sequence_number last_seq_no) then (fb, false)
      else
        let '(fb, ok) := AddMissingPackets fb (u16 (sequence_number - next_seq_no)) in
        if negb ok then (fb, false) else add_received fb sequence_number delta
    else add_received fb sequence_number delta.

(** ** Queries *)

(** The calls of the handler: the sequence number, and the time since the base if received. *)
Fixpoint for_all_loop (count : nat) (seq_num delta_since_base : Z) (received : list PacketDelta)
  : list (Z * option Z) :=
  match count with
  | O => []
  | S count =>
      match received with
      | p :: rest =>
          if sequence_number p =? seq_num then
            let delta_since_base := delta_since_base + delta p in
            (seq_num, Some delta_since_base) ::
              for_all_loop count (u16 (seq_num + 1)) delta_since_base rest
          else (seq_num, None) :: for_all_loop count (u16 (seq_num + 1)) delta_since_base received
      | [] => (seq_num, None) :: for_all_loop count (u16 (seq_num + 1)) delta_since_base received
      end
  end.

Definition ForAllPackets (fb : TransportFeedback) : list (Z * option Z) :=
  for_all_loop (Z.to_nat (num_seq_no_ fb)) (base_seq_no_ fb) 0 (received_packets_ fb).

Definition GetBaseDelta (fb : TransportFeedback) (prev_timestamp : Z) : Z :=
  let delta := BaseTime fb - prev_timestamp in
  if Z.abs (delta - kTimeWrapPeriod) <? Z.abs delta then delta - kTimeWrapPeriod
  else if Z.abs (delta + kTimeWrapPeriod) <? Z.abs delta then delta + kTimeWrapPeriod
  else delta.

(** The loop over the delta sizes in [IsConsistent]: the packets left, the time and the size. *)
Fixpoint check_sizes (include : bool) (delta_sizes : list Z) (packets : list PacketDelta)
    (seq_no timestamp packet_size : Z) : option (list PacketDelta * Z * Z) :=
  match delta_sizes with
  | [] => Some (packets, timestamp, packet_size)
  | delta_size :: rest =>
      let packet_size' := if include then packet_size + delta_size else packet_size in
      if delta_size >? 0 then
        match packets with
        | [] => None
        | p :: packets =>
            if negb (sequence_number p =? seq_no) then None
            else if (delta_size =? 1) && ((delta_ticks p <? 0) || (delta_ticks p >? 0xff)) then None
            else check_sizes include rest packets (u16 (seq_no + 1)) (timestamp + delta p) packet_size'
        end
      else check_sizes include rest packets (u16 (seq_no + 1)) timestamp packet_size'
  end.

(** The loop over the chunks in [IsConsistent]. *)
Definition consistent_step (s : LastChunk * list Z * Z) (chunk : Z) : LastChunk * list Z * Z :=
  let '(decoder, delta_sizes, packet_size) := s in
  let decoder := Decode decoder chunk kMaxReportedPackets in
  (decoder, AppendTo decoder delta_sizes, packet_size + kChunkSizeBytes).

(** [mem] is the array of the local chunk decoder. *)
Definition IsConsistent (mem : list Z) (fb : TransportFeedback) : bool :=
  let '(_, delta_sizes, packet_size) :=
    foldl consistent_step (NewLastChunk mem, [], kTransportFeedbackHeaderSizeBytes) (encoded_chunks_ fb) in
  let '(delta_sizes, packet_size) :=
    if negb (LastChunk_Empty (last_chunk_ fb))
    then (AppendTo (last_chunk_ fb) delta_sizes, packet_size + kChunkSizeBytes)
    else (delta_sizes, packet_size) in
  if negb (num_seq_no_ fb =? zlen delta_sizes) then false
  else
    match check_sizes (include_timestamps_ fb) delta_sizes (received_packets_ fb) (base_seq_no_ fb)
            (BaseTime fb) packet_size with
    | None => false
    | Some (packets, timestamp, packet_size) =>
        match packets with
        | _ :: _ => false
        | [] =>
            if negb (timestamp =? last_timestamp_ fb) then false
            else if negb (size_bytes_ fb =? packet_size) then false
            else true
        end
    end.

(** * What an object stands for *)

(** The status of a packet: the size of its delta, 0 if it was not received, and the delta. *)
Abbreviation status := (Z * Z)%type.

Definition status_ok '((s, t) : status) : Prop := 0 ≤ s ∧ (s = 0 → t = 0) ∧ (s = 1 → 0 ≤ t ≤ 0xff).

Fixpoint packets_of (seq_no : Z) (l : list status) : list PacketDelta :=
  match l with
  | [] => []
  | (s, t) :: l =>
      if s >? 0 then MkDelta seq_no t :: packets_of (u16 (seq_no + 1)) l
      else packets_of (u16 (seq_no + 1)) l
  end.

Fixpoint sumz (l : list Z) : Z := match l with [] => 0 | x :: l => x + sumz l end.

Definition sum_ticks (l : list status) : Z := sumz (map snd l).
Definition sum_sizes (l : list status) : Z := sumz (map fst l).

Definition chunk_sizes (chunks : list Z) : list Z := flat_map (λ w, decoded w 0xffff) chunks.

Definition wire_size (fb : TransportFeedback) (l : list status) : Z :=
  kTransportFeedbackHeaderSizeBytes + kChunkSizeBytes * zlen (encoded_chunks_ fb) +
  (if LastChunk_Empty (last_chunk_ fb) then 0 else kChunkSizeBytes) +
  (if include_timestamps_ fb then sum_sizes l else 0).

Record rep (fb : TransportFeedback) (l : list status) : Prop := {
  rep_array : length (delta_sizes_ (last_chunk_ fb)) = 14%nat;
  rep_last : chunk_size_ (last_chunk_ fb) = zlen (content (last_chunk_ fb));
  rep_status : Forall status_ok l;
  rep_sizes : map fst l = chunk_sizes (encoded_chunks_ fb) ++ content (last_chunk_ fb);
  rep_num : num_seq_no_ fb = zlen l;
  rep_packets : received_packets_ fb = packets_of (base_seq_no_ fb) l;
  rep_time : last_timestamp_ fb = BaseTime fb + sum_ticks l * kDeltaTick;
  rep_bytes : size_bytes_ fb = wire_size fb l;
}.

Lemma check_sizes_ok include l : ∀ seq_no timestamp packet_size, Forall status_ok l →
  check_sizes include (map fst l) (packets_of seq_no l) seq_no timestamp packet_size =
  Some ([], timestamp + sum_ticks l * kDeltaTick, packet_size + if include then sum_sizes l else 0).
Proof.
  assert (∀ a b c d : Z, a = b → c = d → Some ([] : list PacketDelta, a, c) = Some ([], b, d)) as Hsome by congruence.
  unfold sum_ticks, sum_sizes. induction l as [|[s t] l IH]; intros seq_no timestamp packet_size Hl.
  - cbn. apply Hsome; destruct include; lia.
  - apply Forall_cons_1 in Hl as [(Hs & Ht & H1) Hl].
    cbn [map fst snd check_sizes packets_of sumz]. destruct (Z.gtb_spec s 0).
    + cbn [sequence_number delta_ticks]. rewrite Z.eqb_refl. cbn [negb].
      assert ((s =? 1) && ((t <? 0) || (t >? 255)) = false) as ->.
      { destruct (Z.eqb_spec s 1) as [E|]; [|done]. specialize (H1 E). cbn [andb]. lia. }
      rewrite IH by done. unfold delta. cbn [delta_ticks]. apply Hsome; destruct include; lia.
    + rewrite IH by done. assert (s = 0) as -> by lia. rewrite Ht by done. apply Hsome; destruct include; lia.
Qed.

(** The decoder of [IsConsistent], whatever its array held. *)
Lemma consistent_loop chunks : ∀ c ds n, length (delta_sizes_ c) = 14%nat →
  ∃ c', foldl consistent_step (c, ds, n) chunks =
    (c', ds ++ chunk_sizes chunks, n + kChunkSizeBytes * zlen chunks).
Proof.
  unfold kChunkSizeBytes. induction chunks as [|w chunks IH]; intros c ds n Hc.
  - exists c. cbn. rewrite app_nil_r. do 2 f_equal. lia.
  - cbn [foldl consistent_step]. unfold kMaxReportedPackets, kChunkSizeBytes. destruct (Decode_content c w 0xffff Hc ltac:(lia)) as (E & L & _).
    destruct (IH (Decode c w 0xffff) (AppendTo (Decode c w 0xffff) ds) (n + 2) L) as [c' ->].
    exists c'. rewrite AppendTo_content, E, <- app_assoc. apply pair_equal_spec. split; [done|]. cbn [length]. lia.
Qed.

Lemma rep_consistent mem fb l : length mem = 14%nat → rep fb l → IsConsistent mem fb = true.
Proof.
  intros Hm [Ha Hlast Hst Hsz Hn Hp Ht Hb]. unfold IsConsistent.
  destruct (consistent_loop (encoded_chunks_ fb) (NewLastChunk mem) [] kTransportFeedbackHeaderSizeBytes Hm) as [c ->].
  rewrite app_nil_l, AppendTo_content, <- Hsz. unfold wire_size in Hb.
  assert (LastChunk_Empty (last_chunk_ fb) = true → map fst l = chunk_sizes (encoded_chunks_ fb)) as He.
  { unfold LastChunk_Empty. rewrite Hsz, Z.eqb_eq, Hlast. intros E.
    destruct (content (last_chunk_ fb)); [by rewrite app_nil_r|cbn [length] in E; lia]. }
  assert (∀ n, num_seq_no_ fb = zlen (map fst l) ∧
    check_sizes (include_timestamps_ fb) (map fst l) (received_packets_ fb) (base_seq_no_ fb) (BaseTime fb) n =
    Some ([], last_timestamp_ fb, n + if include_timestamps_ fb then sum_sizes l else 0)) as Hc.
  { intros n. rewrite length_map. split; [done|]. rewrite Hp, Ht. by apply check_sizes_ok. }
  destruct (LastChunk_Empty (last_chunk_ fb)) eqn:E; cbn [negb]; cbv beta iota zeta;
    [rewrite <- (He eq_refl)|]; match goal with |- context [check_sizes _ _ _ _ _ ?n] => destruct (Hc n) as [-> ->] end;
    rewrite !Z.eqb_refl; cbn [negb]; rewrite Hb;
    match goal with |- context [?a =? ?b] => replace (a =? b) with true by lia end; done.
Qed.

(** * The chunks as a list of sizes *)

Record enc (chunks : list Z) (last : LastChunk) (ds : list Z) : Prop := {
  enc_chunk : chunk_ok last;
  enc_empty : chunk_size_ last = 0 → all_same_ last = true ∧ has_large_delta_ last = false;
  enc_chunks : Forall (λ w, uint16 w ∧ 7 ≤ zlen (decoded w 0xffff)) chunks;
  enc_sizes : ds = chunk_sizes chunks ++ content last;
}.

Definition enc_bytes (chunks : list Z) (last : LastChunk) : Z :=
  kChunkSizeBytes * zlen chunks + if LastChunk_Empty last then 0 else kChunkSizeBytes.

Lemma enc_bytes_bound chunks last ds : enc chunks last ds → 7 * enc_bytes chunks last ≤ 2 * zlen ds + 14.
Proof.
  intros [Hc _ Hw ->]. assert (7 * zlen chunks ≤ zlen (chunk_sizes chunks)) as H.
  { induction Hw as [|w chunks [_ Hw] _ IH]; [done|]. unfold chunk_sizes in *. cbn [flat_map length].
    rewrite length_app. lia. }
  rewrite length_app. unfold enc_bytes, kChunkSizeBytes. destruct (LastChunk_Empty last); lia.
Qed.

Lemma Add_nonempty c d : chunk_ok c → LastChunk_Empty (LastChunk_Add c d) = false.
Proof. intros Hc. pose proof (ck_size _ Hc). unfold LastChunk_Empty, LastChunk_Add. cbn [chunk_size_]. lia. Qed.

Lemma CanAdd_few c d : chunk_size_ c < 7 → CanAdd c d = true.
Proof. intros H. unfold CanAdd, kMaxTwoBitCapacity. by destruct (Z.ltb_spec (chunk_size_ c) 7); [|lia]. Qed.

Lemma Emit_empty c : chunk_size_ (Emit c).1 = 0 →
  all_same_ (Emit c).1 = true ∧ has_large_delta_ (Emit c).1 = false.
Proof.
  unfold Emit. destruct (all_same_ c); [done|]. destruct (chunk_size_ c =? kMaxOneBitCapacity); [done|].
  destruct (shift_sizes _ _) as [[ds same] large] eqn:E. cbn [fst chunk_size_ all_same_ has_large_delta_].
  intros H. rewrite H in E. cbn in E. by injection E as <- <- <-.
Qed.

(** A full chunk is put away. *)
Lemma enc_Emit chunks last ds d : enc chunks last ds → CanAdd last d = false →
  let '(c, w) := Emit last in
  enc (chunks ++ [w]) c ds ∧ chunk_size_ c ≤ 6 ∧ (CanAdd last 0 = false → c = LastChunk_Clear last).
Proof.
  intros [Hc _ Hw ->] Hcan. pose proof (Emit_ok last d Hc Hcan) as H. pose proof (Emit_empty last) as H0.
  destruct (Emit last) as [c w].
  destruct H as (H1 & H2 & H3 & H4 & H5 & H6). split; [|done]. split; [done|done| |].
  - apply Forall_app. split; [done|by constructor].
  - unfold chunk_sizes. rewrite flat_map_app. cbn [flat_map]. by rewrite app_nil_r, <- app_assoc, H3.
Qed.

Lemma enc_Add chunks last ds d : enc chunks last ds → CanAdd last d = true → 0 ≤ d ≤ 2 →
  enc chunks (LastChunk_Add last d) (ds ++ [d]).
Proof.
  intros [Hc _ Hw ->] Hcan Hd. destruct (Add_ok last d Hc Hcan Hd) as [H1 H2].
  pose proof (Add_nonempty last d Hc) as Hne. unfold LastChunk_Empty in Hne.
  split; [done|lia|done|]. by rewrite H2, app_assoc.
Qed.

Lemma decoded_full : decoded 0x1fff 0xffff = replicate (Z.to_nat 0x1fff) 0.
Proof. unfold decoded. change (negb (Z.testbit 0x1fff 15)) with true. cbv iota. by f_equal. Qed.

Lemma full_chunk_sizes k : chunk_sizes (replicate k 0x1fff) = replicate (k * Z.to_nat 0x1fff) 0.
Proof.
  unfold chunk_sizes. induction k as [|k IH]; [done|]. cbn [replicate flat_map]. rewrite IH, decoded_full.
  rewrite <- replicate_add. done.
Qed.

(** The loop fills the last chunk; what is left did not fit. *)
Lemma add_missing_loop_spec chunks n : ∀ c ds, enc chunks c ds →
  let '(c', r) := add_missing_loop n c in
  0 ≤ r ≤ Z.of_nat n ∧ enc chunks c' (ds ++ replicate (n - Z.to_nat r) 0) ∧
  chunk_size_ c ≤ chunk_size_ c' ∧ (r ≠ 0 → CanAdd c' 0 = false).
Proof.
  induction n as [|n IH]; intros c ds He; cbn [add_missing_loop].
  - rewrite app_nil_r. done.
  - destruct (CanAdd c 0) eqn:E.
    + specialize (IH (LastChunk_Add c 0) (ds ++ [0]) (enc_Add _ _ _ 0 He E ltac:(lia))).
      destruct (add_missing_loop n (LastChunk_Add c 0)) as [c' r]. destruct IH as (H1 & H2 & H3 & H4).
      split; [lia|]. split; [|split; [|done]].
      * rewrite <- app_assoc in H2. replace (S n - Z.to_nat r)%nat with (S (n - Z.to_nat r)) by lia. exact H2.
      * unfold LastChunk_Add in H3. cbn [chunk_size_] in H3. lia.
    + split; [lia|]. rewrite Nat2Z.id, Nat.sub_diag, app_nil_r. done.
Qed.

Section chunks.
Context (fb : TransportFeedback) (ds : list Z) (K : Z).
Context (Henc : enc (encoded_chunks_ fb) (last_chunk_ fb) ds).
Context (Hnum : num_seq_no_ fb = zlen ds) (Hmax : zlen ds ≤ 0xffff).
Context (Hsize : size_bytes_ fb = K + enc_bytes (encoded_chunks_ fb) (last_chunk_ fb)).
Context (HK : 0 ≤ K ≤ 200000).

(** The limit on the size is never what stops the report. *)
Lemma size_small : 0 ≤ size_bytes_ fb ≤ 220000.
Proof.
  pose proof (enc_bytes_bound _ _ _ Henc). rewrite Hsize. unfold enc_bytes, kChunkSizeBytes in *.
  destruct (LastChunk_Empty _); lia.
Qed.

Lemma AddDeltaSize_spec d : 1 ≤ d ≤ 2 →
  if zlen ds =? 0xffff then AddDeltaSize fb d = (fb, false)
  else ∃ chunks last, enc chunks last (ds ++ [d]) ∧
    AddDeltaSize fb d = (set_chunks fb (zlen ds + 1) chunks last (K + enc_bytes chunks last), true).
Proof.
  intros Hd. pose proof size_small as Hsm. unfold AddDeltaSize, kMaxReportedPackets, kMaxSizeBytes. rewrite Hnum.
  destruct (Z.eqb_spec (zlen ds) 0xffff); [done|]. rewrite u16_id by cint. change ((1 ≪ 16) * 4) with 262144.
  pose proof (enc_chunk _ _ _ Henc) as Hc. unfold kChunkSizeBytes at 1 3.
  destruct (Z.gtb_spec (size_bytes_ fb + d + if LastChunk_Empty (last_chunk_ fb) then 2 else 0) 262144);
    [destruct (LastChunk_Empty _); lia|].
  destruct (CanAdd (last_chunk_ fb) d) eqn:Ecan.
  - exists (encoded_chunks_ fb), (LastChunk_Add (last_chunk_ fb) d). split; [by apply enc_Add; [..|lia]|].
    do 2 f_equal. rewrite Hsize. unfold enc_bytes. rewrite Add_nonempty by done.
    destruct (LastChunk_Empty _); unfold kChunkSizeBytes; lia.
  - destruct (Z.gtb_spec (size_bytes_ fb + d + 2) 262144); [lia|].
    pose proof (enc_Emit _ _ _ d Henc Ecan) as HE. destruct (Emit (last_chunk_ fb)) as [c w]. destruct HE as (HE & H6 & _).
    exists (encoded_chunks_ fb ++ [w]), (LastChunk_Add c d).
    split; [apply enc_Add; [done|apply CanAdd_few; lia|lia]|]. do 2 f_equal. rewrite Hsize.
    unfold enc_bytes. rewrite Add_nonempty by (by destruct HE).
    assert (LastChunk_Empty (last_chunk_ fb) = false) as ->.
    { destruct (LastChunk_Empty _) eqn:E; [|done]. unfold LastChunk_Empty in E.
      rewrite CanAdd_few in Ecan by lia. done. }
    rewrite length_app. cbn [length]. unfold kChunkSizeBytes. lia.
Qed.

Lemma add_missing_chunks_spec chunks c ds' new n :
  enc chunks c ds' → content c = [] → all_same_ c = true → has_large_delta_ c = false →
  0 ≤ n ≤ 0xffff → size_bytes_ fb = K + kChunkSizeBytes * zlen chunks → uint16 new →
  ∃ chunks' last, enc chunks' last (ds' ++ replicate (Z.to_nat n) 0) ∧
    add_missing_chunks fb chunks c new n = (set_chunks fb new chunks' last (K + enc_bytes chunks' last), true).
Proof.
  intros He Ec Es El Hn Hb Hnew. pose proof size_small as Hsm. pose proof (enc_chunk _ _ _ He) as Hc.
  unfold add_missing_chunks, kMaxSizeBytes, kMaxRunLengthCapacity. change ((1 ≪ 16) * 4) with 262144.
  set (q := n `div` 0x1fff). set (r := n `mod` 0x1fff).
  assert (0 ≤ q ≤ 8 ∧ 0 ≤ r < 0x1fff ∧ n = q * 0x1fff + r) as (Hq & Hr & Hqr) by (subst q r; zdiv).
  destruct (AddMissing_ok c r Hc Es El ltac:(lia)) as [Hok Hcont].
  unfold kChunkSizeBytes at 1. destruct (Z.gtb_spec (size_bytes_ fb + 2 * (q + if r >? 0 then 1 else 0)) 262144);
    [destruct (r >? 0); lia|].
  exists (chunks ++ replicate (Z.to_nat q) 0x1fff), (LastChunk_AddMissingPackets c r). split.
  - split; [done|done| |].
    + apply Forall_app. split; [apply He|]. apply Forall_replicate. split; [cint|].
      rewrite decoded_full, length_replicate. lia.
    + unfold chunk_sizes. rewrite flat_map_app. fold (chunk_sizes chunks). rewrite Hcont.
      fold (chunk_sizes (replicate (Z.to_nat q) 0x1fff)). rewrite full_chunk_sizes.
      rewrite (enc_sizes _ _ _ He), Ec, app_nil_r, <- !app_assoc. f_equal. rewrite <- replicate_add. f_equal. lia.
  - rewrite u16_id by done. do 2 f_equal. rewrite Hb. unfold enc_bytes, LastChunk_Empty, LastChunk_AddMissingPackets.
    cbn [chunk_size_]. rewrite length_app, length_replicate. unfold kChunkSizeBytes. destruct_cmp; lia.
Qed.

Lemma AddMissingPackets_spec n : 0 ≤ n ≤ 0xffff →
  if zlen ds + n >? 0xffff then AddMissingPackets fb n = (fb, false)
  else ∃ chunks last, enc chunks last (ds ++ replicate (Z.to_nat n) 0) ∧
    AddMissingPackets fb n = (set_chunks fb (zlen ds + n) chunks last (K + enc_bytes chunks last), true).
Proof.
  intros Hn. unfold AddMissingPackets, kMaxReportedPackets. rewrite Hnum.
  destruct (Z.gtb_spec (zlen ds + n) 0xffff); [done|]. pose proof (enc_chunk _ _ _ Henc) as Hc.
  destruct (LastChunk_Empty (last_chunk_ fb)) eqn:Ee; cbn [negb].
  - pose proof (proj1 (Empty_content _ Hc) Ee) as Ec. pose proof Hsize as Hsz. unfold enc_bytes in Hsz. rewrite Ee in Hsz.
    destruct (enc_empty _ _ _ Henc) as [Es El]; [unfold LastChunk_Empty in Ee; lia|].
    apply add_missing_chunks_spec; try done; [lia|cint].
  - pose proof (add_missing_loop_spec _ (Z.to_nat n) _ _ Henc) as HL.
    destruct (add_missing_loop (Z.to_nat n) (last_chunk_ fb)) as [c r]. destruct HL as (Hr & Hec & Hle & Hcan).
    assert (LastChunk_Empty c = false) as Ee'.
    { unfold LastChunk_Empty in *. pose proof (ck_size _ Hc). lia. }
    destruct (Z.eqb_spec r 0) as [->|Hr0].
    + exists (encoded_chunks_ fb), c. rewrite Nat.sub_0_r in Hec. split; [done|]. rewrite u16_id by cint.
      do 2 f_equal. rewrite Hsize. unfold enc_bytes. by rewrite Ee, Ee'.
    + specialize (Hcan Hr0). pose proof (enc_Emit _ _ _ 0 Hec Hcan) as HE.
      destruct (Emit c) as [c' w]. destruct HE as (HE & _ & Hclear). specialize (Hclear Hcan). subst c'.
      destruct (add_missing_chunks_spec (encoded_chunks_ fb ++ [w]) (LastChunk_Clear c) _ (zlen ds + n) r HE)
        as (chunks & last & H1 & H2); try done; [lia| |cint|].
      * rewrite Hsize. unfold enc_bytes. rewrite Ee, length_app. cbn [length]. unfold kChunkSizeBytes. lia.
      * exists chunks, last. split; [|done]. rewrite <- app_assoc, <- replicate_add in H1.
        replace (Z.to_nat n - Z.to_nat r + Z.to_nat r)%nat with (Z.to_nat n) in H1 by lia. exact H1.
Qed.
End chunks.

(** * The operations on the report *)

Definition missing : status := (0, 0).
Definition received (ticks : Z) : status := (if (ticks >=? 0) && (ticks <=? 0xff) then 1 else 2, ticks).

Definition canonical (st : status) : Prop := st = missing ∨ ∃ ticks, int16 ticks ∧ st = received ticks.

Record fb_ok (fb : TransportFeedback) (l : list status) : Prop := {
  ok_enc : enc (encoded_chunks_ fb) (last_chunk_ fb) (map fst l);
  ok_status : Forall canonical l;
  ok_num : num_seq_no_ fb = zlen l;
  ok_max : zlen l ≤ 0xffff;
  ok_plain : include_timestamps_ fb = false → Forall (λ st, snd st = 0) l;
  ok_base : uint16 (base_seq_no_ fb);
  ok_packets : received_packets_ fb = packets_of (base_seq_no_ fb) l;
  ok_time : last_timestamp_ fb = BaseTime fb + sum_ticks l * kDeltaTick;
  ok_bytes : size_bytes_ fb =
    kTransportFeedbackHeaderSizeBytes + (if include_timestamps_ fb then sum_sizes l else 0) +
    enc_bytes (encoded_chunks_ fb) (last_chunk_ fb);
}.

Lemma canonical_size st : canonical st → 0 ≤ fst st ≤ 2.
Proof. intros [->|(t & _ & ->)]; [done|]. unfold received. cbn [fst]. destruct (_ && _); lia. Qed.

Lemma canonical_ok st : canonical st → status_ok st.
Proof.
  intros [->|(t & _ & ->)]; unfold status_ok, missing, received; [lia|].
  destruct ((t >=? 0) && (t <=? 0xff)) eqn:E; lia.
Qed.

Lemma sumz_app l1 l2 : sumz (l1 ++ l2) = sumz l1 + sumz l2.
Proof. induction l1 as [|x l1 IH]; cbn [app sumz]; lia. Qed.

Lemma sumz_zeros n : sumz (replicate n 0) = 0.
Proof. induction n; cbn [replicate sumz]; lia. Qed.

Lemma sum_sizes_bound l : Forall canonical l → 0 ≤ sum_sizes l ≤ 2 * zlen l.
Proof.
  unfold sum_sizes. induction 1 as [|st l Hst _ IH]; [done|]. cbn [map sumz length].
  pose proof (canonical_size st Hst). lia.
Qed.

Lemma packets_of_app l1 l2 : ∀ b, uint16 b →
  packets_of b (l1 ++ l2) = packets_of b l1 ++ packets_of (u16 (b + zlen l1)) l2.
Proof.
  induction l1 as [|[s t] l1 IH]; intros b Hb.
  - cbn. by rewrite Z.add_0_r, u16_id.
  - cbn [packets_of app]. rewrite IH by apply u16_range.
    replace (u16 (u16 (b + 1) + zlen l1)) with (u16 (b + zlen ((s, t) :: l1))); [by destruct (s >? 0)|].
    cbn [length]. unfold u16. rewrite Z.add_mod_idemp_l by lia.
    replace (b + Z.of_nat (S (length l1))) with (b + 1 + zlen l1) by lia. done.
Qed.

Lemma packets_of_missing n : ∀ b, packets_of b (replicate n missing) = [].
Proof. induction n as [|n IH]; intros b; [done|]. apply IH. Qed.

Lemma map_replicate {A B} (f : A → B) n x : map f (replicate n x) = replicate n (f x).
Proof. induction n as [|n IH]; [done|]. cbn [replicate map]. by rewrite IH. Qed.

Lemma fb_ok_rep fb l : fb_ok fb l → rep fb l.
Proof.
  intros [[Hc _ Hw Hd] H2 H3 H4 _ H5 H6 H7 H8].
  split; [apply Hc|by rewrite content_length| |done|done|done|done|].
  - eapply list.Forall_impl; [exact H2|apply canonical_ok].
  - rewrite H8. unfold wire_size, enc_bytes. lia.
Qed.

(** What [AddReceivedPacket] does to the report. *)
Definition report_add (base : Z) (delta : Z * bool) (sequence_number : Z) (l : list status) : list status * bool :=
  let next := u16 (base + zlen l) in
  let gap := u16 (sequence_number - next) in
  if negb (snd delta) then (l, false)
  else if negb (IsNewerSequenceNumber sequence_number (u16 (next - 1))) then (l, false)
  else if zlen l + gap >? 0xffff then (l, false)
  else if zlen l + gap =? 0xffff then (l ++ replicate (Z.to_nat gap) missing, false)
  else (l ++ replicate (Z.to_nat gap) missing ++ [received (fst delta)], true).

Definition packet_delta (fb : TransportFeedback) (timestamp : Z) : Z * bool :=
  if include_timestamps_ fb then delta_of (last_timestamp_ fb) timestamp else (0, true).

(** Missing packets at the end. *)
Lemma fb_ok_missing fb l n : fb_ok fb l → 0 ≤ n ≤ 0xffff → zlen l + n ≤ 0xffff →
  ∃ chunks last size, let fb' := set_chunks fb (zlen l + n) chunks last size in
    AddMissingPackets fb n = (fb', true) ∧ fb_ok fb' (l ++ replicate (Z.to_nat n) missing).
Proof.
  intros [H1 H2 H3 H4 Hpl H5 H6 H7 H8] Hn Hmax. pose proof (sum_sizes_bound l H2) as Hsum.
  pose proof (AddMissingPackets_spec fb (map fst l)
    (kTransportFeedbackHeaderSizeBytes + (if include_timestamps_ fb then sum_sizes l else 0)) H1) as HA.
  rewrite !length_map in HA. specialize (HA H3 H4 H8).
  specialize (HA ltac:(unfold kTransportFeedbackHeaderSizeBytes; destruct (include_timestamps_ fb); lia) n Hn).
  destruct (Z.gtb_spec (zlen l + n) 0xffff); [lia|]. destruct HA as (chunks & last & HE & HA).
  exists chunks, last. eexists. cbv zeta. split; [exact HA|]. split; unfold set_chunks, BaseTime; cbn -[packets_of sum_ticks sum_sizes].
  - rewrite map_app, map_replicate. exact HE.
  - apply Forall_app. split; [done|]. apply Forall_replicate. by left.
  - rewrite length_app, length_replicate. lia.
  - rewrite length_app, length_replicate. lia.
  - intros Hi. apply Forall_app. split; [by apply Hpl|by apply Forall_replicate].
  - done.
  - rewrite packets_of_app, packets_of_missing, app_nil_r by done. done.
  - rewrite H7. unfold sum_ticks. rewrite map_app, map_replicate, sumz_app. cbn [snd missing]. rewrite sumz_zeros, Z.add_0_r. done.
  - unfold sum_sizes. rewrite map_app, map_replicate, sumz_app. cbn [fst missing]. rewrite sumz_zeros, Z.add_0_r. done.
Qed.

(** One packet received at the end. *)
Lemma add_received_ok fb l seq d : fb_ok fb l → int16 d → (include_timestamps_ fb = false → d = 0) →
  seq = u16 (base_seq_no_ fb + zlen l) →
  if zlen l =? 0xffff then add_received fb seq d = (fb, false)
  else ∃ chunks last size, let fb' := set_packets (set_chunks fb (zlen l + 1) chunks last size)
           (last_timestamp_ fb + d * kDeltaTick) (received_packets_ fb ++ [MkDelta seq d])
           (if include_timestamps_ fb then size + fst (received d) else size) in
    add_received fb seq d = (fb', true) ∧ fb_ok fb' (l ++ [received d]).
Proof.
  intros [H1 H2 H3 H4 Hpl H5 H6 H7 H8] Hd Hd0 Hseq. pose proof (sum_sizes_bound l H2) as Hsum.
  assert (canonical (received d)) as Hcan by (right; eauto).
  set (s := fst (received d)). assert (1 ≤ s ≤ 2) as Hs by (subst s; unfold received; cbn [fst]; destruct (_ && _); lia).
  pose proof (AddDeltaSize_spec fb (map fst l)
    (kTransportFeedbackHeaderSizeBytes + (if include_timestamps_ fb then sum_sizes l else 0)) H1) as HA.
  rewrite !length_map in HA. specialize (HA H3 H4 H8).
  specialize (HA ltac:(unfold kTransportFeedbackHeaderSizeBytes; destruct (include_timestamps_ fb); lia) s Hs).
  unfold add_received. change (if (d >=? 0) && (d <=? 255) then 1 else 2) with s.
  destruct (Z.eqb_spec (zlen l) 0xffff); [by rewrite HA|]. destruct HA as (chunks & last & HE & ->).
  exists chunks, last. eexists. cbv zeta. split; [reflexivity|].
  split; unfold set_packets, set_chunks, BaseTime; cbn -[packets_of sum_ticks sum_sizes received].
  - rewrite map_app. exact HE.
  - apply Forall_app. split; [done|by constructor].
  - rewrite length_app. cbn [length]. lia.
  - rewrite length_app. cbn [length]. lia.
  - intros Hi. apply Forall_app. split; [by apply Hpl|]. constructor; [by apply Hd0|by constructor].
  - done.
  - rewrite packets_of_app by done. rewrite H6, <- Hseq. f_equal. unfold packets_of.
    change (received d) with (s, d). cbv beta iota. by destruct (Z.gtb_spec s 0); [|lia].
  - rewrite H7. unfold sum_ticks, BaseTime. rewrite map_app, sumz_app. change (map snd [received d]) with [d].
    cbn [sumz]. lia.
  - unfold sum_sizes. rewrite map_app, sumz_app. change (map fst [received d]) with [s]. cbn [sumz].
    change (fst (received d)) with s. destruct (include_timestamps_ fb); lia.
Qed.

Lemma IsNewer_next a : uint16 a → IsNewerSequenceNumber a (u16 (a - 1)) = true.
Proof.
  intros Ha. destruct (Z.eqb_spec a 0) as [->|]; [by vm_compute|]. rewrite u16_id by cint.
  unfold IsNewerSequenceNumber, IsNewer. replace (a - (a - 1)) with 1 by lia.
  destruct (Z.eqb_spec a (a - 1)); [lia|]. by vm_compute.
Qed.

Lemma delta_of_int16 last timestamp : int16 (fst (delta_of last timestamp)).
Proof. unfold delta_of. cbn [fst]. apply s16_range. Qed.

Lemma packet_delta_int16 fb timestamp : int16 (fst (packet_delta fb timestamp)).
Proof. unfold packet_delta. destruct (include_timestamps_ fb); [apply delta_of_int16|cbn; cint]. Qed.

(** What a packet added does not touch. *)
Definition session (fb : TransportFeedback) : Z * Z * Z * Z * Z * bool :=
  (fb_sender_ssrc fb, fb_media_ssrc fb, base_seq_no_ fb, base_time_ticks_ fb, feedback_seq_ fb,
   include_timestamps_ fb).

Lemma gap_seq x seq : uint16 seq → seq = u16 (x + u16 (seq - u16 x)).
Proof.
  intros Hs. unfold u16. rewrite Z.add_mod_idemp_r, Z.add_sub_assoc, Zminus_mod_idemp_r by lia.
  replace (x + seq - x) with seq by lia. symmetry. by apply u16_id.
Qed.

Lemma AddReceivedPacket_ok fb l seq timestamp : fb_ok fb l → uint16 seq →
  let '(l', b) := report_add (base_seq_no_ fb) (packet_delta fb timestamp) seq l in
  ∃ fb', AddReceivedPacket fb seq timestamp = (fb', b) ∧ fb_ok fb' l' ∧ session fb' = session fb.
Proof.
  intros Hok Hseq. pose proof (packet_delta_int16 fb timestamp) as Hd.
  assert (include_timestamps_ fb = false → fst (packet_delta fb timestamp) = 0) as Hd0
    by (intros Hi; unfold packet_delta; by rewrite Hi).
  unfold report_add, AddReceivedPacket. fold (packet_delta fb timestamp).
  destruct (packet_delta fb timestamp) as [d fits]. cbn [fst snd] in *.
  destruct fits; cbn [negb]; [|by exists fb]. rewrite (ok_num _ _ Hok).
  set (next := u16 (base_seq_no_ fb + zlen l)). assert (uint16 next) as Hnext by apply u16_range.
  pose proof (u16_range (seq - next)) as Hgap. set (gap := u16 (seq - next)) in *.
  pose proof (ok_max _ _ Hok) as Hmax.
  destruct (Z.eqb_spec seq next) as [E|Hne]; cbn [negb].
  - rewrite E, IsNewer_next by done. cbn [negb]. assert (gap = 0) as -> by (subst gap; rewrite E, Z.sub_diag; done).
    rewrite Z.add_0_r. destruct (Z.gtb_spec (zlen l) 0xffff); [lia|].
    pose proof (add_received_ok fb l next d Hok Hd Hd0 eq_refl) as HA.
    destruct (zlen l =? 0xffff).
    + exists fb. rewrite app_nil_r. done.
    + destruct HA as (chunks & last & size & -> & HA). eexists. split; [reflexivity|]. split; [exact HA|done].
  - destruct (IsNewerSequenceNumber seq (u16 (next - 1))); cbn [negb]; [|by exists fb].
    destruct (Z.gtb_spec (zlen l + gap) 0xffff).
    + exists fb. assert (AddMissingPackets fb gap = (fb, false)) as ->; [|done].
      unfold AddMissingPackets. rewrite (ok_num _ _ Hok). unfold kMaxReportedPackets.
      destruct (Z.gtb_spec (zlen l + gap) 0xffff); [done|lia].
    + destruct (fb_ok_missing fb l gap Hok Hgap ltac:(lia)) as (chunks & last & size & -> & HM).
      cbn [negb]. set (fb1 := set_chunks _ _ _ _ _) in *.
      pose proof (add_received_ok fb1 _ seq d HM Hd Hd0) as HA.
      rewrite length_app, length_replicate in HA.
      assert (Z.of_nat (length l + Z.to_nat gap) = zlen l + gap) as El by (unfold uint16 in Hgap; lia). rewrite El in HA.
      assert (seq = u16 (base_seq_no_ fb1 + (zlen l + gap))) as Es.
      { change (base_seq_no_ fb1) with (base_seq_no_ fb). rewrite Z.add_assoc. by apply gap_seq. }
      specialize (HA Es). destruct (zlen l + gap =? 0xffff).
      * rewrite HA. exists fb1. done.
      * destruct HA as (chunks' & last' & size' & -> & HA). rewrite app_assoc. eexists.
        split; [reflexivity|]. split; [exact HA|done].
Qed.

(** * Times *)

Lemma RoundUpTo_up v r : 0 < v → 0 < r → ∃ k, RoundUpTo v r = k * r ∧ v ≤ k * r < v + r.
Proof.
  intros Hv Hr. exists ((v + r - 1) `quot` r). split; [done|]. rewrite Z.quot_div_nonneg by lia.
  pose proof (Z.div_mod (v + r - 1) r ltac:(lia)). pose proof (Z.mod_pos_bound (v + r - 1) r ltac:(lia)). lia.
Qed.

(** A delta that fits is right up to half a tick and whole periods. *)
Lemma delta_of_near last timestamp : snd (delta_of last timestamp) = true →
  ∃ k, Z.abs (last + fst (delta_of last timestamp) * kDeltaTick - (timestamp + k * kTimeWrapPeriod)) ≤ 125.
Proof.
  unfold delta_of. set (ts := if last >? timestamp then _ else _).
  assert (last ≤ ts ∧ ∃ k, ts = timestamp + k * kTimeWrapPeriod) as [Hle [k Hk]].
  { subst ts. destruct (Z.gtb_spec last timestamp).
    - destruct (RoundUpTo_up (last - timestamp) kTimeWrapPeriod ltac:(lia) ltac:(done)) as (k & -> & Hk).
      split; [lia|by exists k].
    - split; [done|]. exists 0. lia. }
  clearbody ts. cbn [fst snd]. rewrite Z.eqb_eq. intros ->.
  change kTimeWrapPeriod with 1073741824000 in *. unfold kDeltaTick in *. rewrite (Z.rem_mod_nonneg (ts - last)) by lia.
  pose proof (Z.div_mod (ts - last) 1073741824000 ltac:(lia)) as Ed.
  pose proof (Z.mod_pos_bound (ts - last) 1073741824000 ltac:(lia)) as Er.
  set (q := (ts - last) `div` 1073741824000) in *. set (r := (ts - last) `mod` 1073741824000) in *. clearbody q r.
  change (1073741824000 `quot` 2) with 536870912000. change (250 `quot` 2) with 125.
  destruct (Z.gtb_spec r 536870912000).
  - exists (k - q - 1). Z.to_euclidean_division_equations. lia.
  - exists (k - q). Z.to_euclidean_division_equations. lia.
Qed.

Lemma last_timestamp_added fb l seq timestamp fb' : fb_ok fb l → uint16 seq →
  AddReceivedPacket fb seq timestamp = (fb', true) →
  last_timestamp_ fb' = last_timestamp_ fb + fst (packet_delta fb timestamp) * kDeltaTick ∧
  snd (packet_delta fb timestamp) = true.
Proof.
  intros Hok Hseq HA. pose proof (AddReceivedPacket_ok fb l seq timestamp Hok Hseq) as H. unfold report_add in H.
  destruct (snd (packet_delta fb timestamp)); cbn [negb] in H.
  2:{ destruct H as (f & E & _). congruence. }
  split; [|done].
  destruct (negb _); [destruct H as (f & E & _); congruence|].
  destruct (_ >? _); [destruct H as (f & E & _); congruence|].
  destruct (_ =? 0xffff); [destruct H as (f & E & _); congruence|].
  destruct H as (f & E & Hf & Hs). assert (f = fb') as -> by congruence.
  rewrite (ok_time _ _ Hf), (ok_time _ _ Hok). unfold session in Hs.
  assert (BaseTime fb' = BaseTime fb) as -> by (unfold BaseTime; congruence).
  unfold sum_ticks. rewrite !map_app, map_replicate, !sumz_app. cbn [missing snd]. rewrite sumz_zeros.
  cbn [map received snd sumz]. lia.
Qed.

(** Up to one and a half periods away, the difference is taken the short way round. *)
Lemma GetBaseDelta_near fb prev_timestamp : 2 * Z.abs (BaseTime fb - prev_timestamp) ≤ 3 * kTimeWrapPeriod →
  2 * Z.abs (GetBaseDelta fb prev_timestamp) ≤ kTimeWrapPeriod ∧
  ∃ k, GetBaseDelta fb prev_timestamp = BaseTime fb - prev_timestamp + k * kTimeWrapPeriod.
Proof.
  unfold GetBaseDelta. set (d := BaseTime fb - prev_timestamp). change kTimeWrapPeriod with 1073741824000. intros Hd.
  destruct (Z.ltb_spec (Z.abs (d - 1073741824000)) (Z.abs d)); [split; [lia|exists (-1); lia]|].
  destruct (Z.ltb_spec (Z.abs (d + 1073741824000)) (Z.abs d)); [split; [lia|exists 1; lia]|].
  split; [lia|exists 0; lia].
Qed.

(** * The calls of [ForAllPackets] *)

Fixpoint report_view (seq_num since_base : Z) (l : list status) : list (Z * option Z) :=
  match l with
  | [] => []
  | (s, t) :: l =>
      let since_base' := since_base + t * kDeltaTick in
      (seq_num, if s >? 0 then Some since_base' else None) :: report_view (u16 (seq_num + 1)) since_base' l
  end.

Lemma packets_of_after seq l n : uint16 seq → zlen l + n ≤ 0xffff → 1 ≤ n →
  match packets_of (u16 (seq + n)) l with p :: _ => sequence_number p ≠ seq | [] => True end.
Proof.
  intros Hs. revert n. induction l as [|[s t] l IH]; intros n Hn Hn1; [done|]. cbn [packets_of].
  destruct (s >? 0).
  - cbn [sequence_number]. cbn [length] in Hn. cwrap.
  - replace (u16 (u16 (seq + n) + 1)) with (u16 (seq + (n + 1))).
    2:{ unfold u16. rewrite Z.add_mod_idemp_l by lia. rewrite Z.add_assoc. done. }
    apply IH; [cbn [length] in Hn|]; lia.
Qed.

Lemma for_all_loop_view l : ∀ seq since, uint16 seq → zlen l ≤ 0xffff → Forall status_ok l →
  for_all_loop (length l) seq since (packets_of seq l) = report_view seq since l.
Proof.
  induction l as [|[s t] l IH]; intros seq since Hs Hl Hst; [done|]. apply Forall_cons_1 in Hst as [(H0 & Ht & _) Hst].
  cbn [length] in Hl. cbn [for_all_loop packets_of report_view length]. destruct (Z.gtb_spec s 0).
  - cbn [sequence_number]. rewrite Z.eqb_refl. unfold delta. cbn [delta_ticks].
    rewrite IH; [done|apply u16_range|lia|done].
  - rewrite (Ht ltac:(lia)), Z.mul_0_l, Z.add_0_r.
    pose proof (packets_of_after seq l 1 Hs ltac:(lia) ltac:(lia)) as Hp.
    rewrite <- (IH (u16 (seq + 1)) since); [|apply u16_range|lia|done].
    destruct (packets_of (u16 (seq + 1)) l) as [|p ps]; [done|].
    destruct (Z.eqb_spec (sequence_number p) seq); done.
Qed.

Lemma ForAllPackets_view fb l : uint16 (base_seq_no_ fb) → zlen l ≤ 0xffff → rep fb l →
  ForAllPackets fb = report_view (base_seq_no_ fb) 0 l.
Proof.
  intros Hb Hl Hrep. unfold ForAllPackets. rewrite (rep_num _ _ Hrep), (rep_packets _ _ Hrep), Nat2Z.id.
  apply for_all_loop_view; [done|done|apply Hrep].
Qed.

(** * Theorems *)

Fixpoint add_all (fb : TransportFeedback) (packets : list (Z * Z)) : TransportFeedback * list bool :=
  match packets with
  | [] => (fb, [])
  | (sequence_number, timestamp) :: packets =>
      let '(fb, ok) := AddReceivedPacket fb sequence_number timestamp in
      let '(fb, oks) := add_all fb packets in (fb, ok :: oks)
  end.

(** The same on the report alone. *)
Fixpoint report_all (include : bool) (base base_time : Z) (l : list status) (packets : list (Z * Z))
  : list status * list bool :=
  match packets with
  | [] => (l, [])
  | (sequence_number, timestamp) :: packets =>
      let delta := if include then delta_of (base_time + sum_ticks l * kDeltaTick) timestamp else (0, true) in
      let '(l, ok) := report_add base delta sequence_number l in
      let '(l, oks) := report_all include base base_time l packets in (l, ok :: oks)
  end.

Lemma fb_ok_base mem include base ref : length mem = 14%nat → uint16 base →
  fb_ok (SetBase (NewFeedback mem include) base ref) [].
Proof.
  intros Hm Hb. destruct (Clear_ok (MkLastChunk mem 0 true false) Hm) as [Hc Ec].
  split; [|by constructor|done|done|by constructor|done|done| |by destruct include].
  - split; [exact Hc|done|by constructor|done].
  - unfold SetBase, BaseTime, sum_ticks. cbn -[u32]. lia.
Qed.

Lemma add_all_ok packets : ∀ fb l, fb_ok fb l → Forall (λ p, uint16 (fst p)) packets →
  let '(l', oks) := report_all (include_timestamps_ fb) (base_seq_no_ fb) (BaseTime fb) l packets in
  ∃ fb', add_all fb packets = (fb', oks) ∧ fb_ok fb' l' ∧ session fb' = session fb.
Proof.
  induction packets as [|[seq ts] packets IH]; intros fb l Hok Hp.
  - by exists fb.
  - apply Forall_cons_1 in Hp as [Hseq Hp]. cbn [report_all add_all]. cbn [fst] in Hseq.
    pose proof (AddReceivedPacket_ok fb l seq ts Hok Hseq) as HA. unfold packet_delta in HA.
    rewrite (ok_time _ _ Hok) in HA. destruct (report_add _ _ _ _) as [l1 ok].
    destruct HA as (fb1 & -> & Hok1 & Hs1). specialize (IH fb1 l1 Hok1 Hp).
    assert (include_timestamps_ fb1 = include_timestamps_ fb ∧ base_seq_no_ fb1 = base_seq_no_ fb ∧
      BaseTime fb1 = BaseTime fb) as (E1 & E2 & E3)
      by (unfold session in Hs1; unfold BaseTime; split_and!; congruence).
    rewrite E1, E2, E3 in IH. destruct (report_all _ _ _ l1 packets) as [l2 oks].
    destruct IH as (fb2 & -> & Hok2 & Hs2). exists fb2. split; [done|]. split; [done|congruence].
Qed.

Lemma fb_ok_size fb l : fb_ok fb l → size_bytes_ fb ≤ kMaxSizeBytes.
Proof.
  intros [H1 H2 H3 H4 _ _ _ _ H8]. pose proof (enc_bytes_bound _ _ _ H1) as HE. rewrite length_map in HE.
  pose proof (sum_sizes_bound _ H2). rewrite H8. unfold kMaxSizeBytes, kTransportFeedbackHeaderSizeBytes.
  change ((1 ≪ 16) * 4) with 262144. destruct (include_timestamps_ fb); lia.
Qed.

(** C7: The object keeps a report.  Whatever packets are added to a new object with a base, the
    results of [AddReceivedPacket], the packets kept and the calls of [ForAllPackets] are those
    of the plain list of statuses [report_all]: a number that is not newer or whose delta does
    not fit is refused and changes nothing, the numbers skipped are entered as missing, and more
    than 65535 are refused.  At every point the object passes its own [IsConsistent], which
    decodes the chunks, and its size is within the limit. *)
Theorem feedback_refines_report mem scratch include base ref packets :
  length mem = 14%nat → length scratch = 14%nat → uint16 base → Forall (λ p, uint16 (fst p)) packets →
  let fb0 := SetBase (NewFeedback mem include) base ref in
  let '(fb, oks) := add_all fb0 packets in
  let '(l, oks') := report_all include base (BaseTime fb0) [] packets in
  oks = oks' ∧ IsConsistent scratch fb = true ∧
  num_seq_no_ fb = zlen l ∧ received_packets_ fb = packets_of base l ∧
  ForAllPackets fb = report_view base 0 l ∧ size_bytes_ fb ≤ kMaxSizeBytes.
Proof.
  intros Hm Hs Hb Hp fb0. pose proof (fb_ok_base mem include base ref Hm Hb) as Hok0. fold fb0 in Hok0.
  pose proof (add_all_ok packets fb0 [] Hok0 Hp) as HA.
  change (include_timestamps_ fb0) with include in HA. change (base_seq_no_ fb0) with base in HA.
  destruct (report_all _ _ _ _ _) as [l oks']. destruct HA as (fb & -> & Hok & Hsess).
  assert (base_seq_no_ fb = base) as Eb by (unfold session in Hsess; cbn in Hsess; congruence).
  pose proof (fb_ok_rep _ _ Hok) as Hrep.
  split; [done|]. split; [by eapply rep_consistent|]. split; [apply Hok|].
  rewrite <- Eb. split; [apply Hok|]. split; [|by eapply fb_ok_size].
  apply ForAllPackets_view; [by rewrite Eb|apply Hok|done].
Qed.

Lemma feedback_refines_report_witness :
  let fb0 := SetBase (NewFeedback (replicate 14 0) true) 0xffff 0 in
  let packets := [(1, 1000); (1, 1500); (5, 192000)] in
  snd (add_all fb0 packets) = [true; false; true] ∧
  ForAllPackets (fst (add_all fb0 packets)) =
    [(0xffff, None); (0, None); (1, Some 1000); (2, None); (3, None); (4, None); (5, Some 192000)] ∧
  let '(fb, oks) := add_all fb0 packets in
  let '(l, oks') := report_all true 0xffff (BaseTime fb0) [] packets in
  oks = oks' ∧ IsConsistent (replicate 14 0) fb = true ∧
  num_seq_no_ fb = zlen l ∧ received_packets_ fb = packets_of 0xffff l ∧
  ForAllPackets fb = report_view 0xffff 0 l ∧ size_bytes_ fb ≤ kMaxSizeBytes.
Proof.
  intros fb0 packets. split; [vm_compute; reflexivity|]. split; [vm_compute; reflexivity|].
  apply (feedback_refines_report (replicate 14 0) (replicate 14 0) true 0xffff 0 packets eq_refl eq_refl);
    [cint|repeat constructor; cbn; cint].
Defined.

(** C38: Rounding errors do not add up.  After any history, a packet that is accepted leaves the
    time of the last packet within half a tick of its own time, up to whole wrap periods. *)
Theorem AddReceivedPacket_accuracy mem base ref packets sequence_number timestamp :
  length mem = 14%nat → uint16 base → Forall (λ p, uint16 (fst p)) packets → uint16 sequence_number →
  let '(fb, _) := add_all (SetBase (NewFeedback mem true) base ref) packets in
  let '(fb', ok) := AddReceivedPacket fb sequence_number timestamp in
  ok = true → ∃ k, Z.abs (last_timestamp_ fb' - (timestamp + k * kTimeWrapPeriod)) ≤ Z.quot kDeltaTick 2.
Proof.
  intros Hm Hb Hp Hseq. pose proof (fb_ok_base mem true base ref Hm Hb) as Hok0.
  pose proof (add_all_ok packets _ _ Hok0 Hp) as HA.
  destruct (report_all _ _ _ _ _) as [l oks]. destruct HA as (fb & -> & Hok & Hsess).
  destruct (AddReceivedPacket fb sequence_number timestamp) as [fb' ok] eqn:E. intros ->.
  destruct (last_timestamp_added fb l sequence_number timestamp fb' Hok Hseq E) as [-> Hfits].
  assert (include_timestamps_ fb = true) as Ei by (unfold session in Hsess; cbn in Hsess; congruence).
  unfold packet_delta in *. rewrite Ei in *. exact (delta_of_near _ _ Hfits).
Qed.

Lemma AddReceivedPacket_accuracy_witness :
  let fb := fst (add_all (SetBase (NewFeedback (replicate 14 0) true) 7 0) [(8, 1100)]) in
  snd (AddReceivedPacket fb 9 987) = true ∧
  let '(fb, _) := add_all (SetBase (NewFeedback (replicate 14 0) true) 7 0) [(8, 1100)] in
  let '(fb', ok) := AddReceivedPacket fb 9 987 in
  ok = true → ∃ k, Z.abs (last_timestamp_ fb' - (987 + k * kTimeWrapPeriod)) ≤ Z.quot kDeltaTick 2.
Proof.
  split; [vm_compute; reflexivity|].
  apply (AddReceivedPacket_accuracy (replicate 14 0) 7 0 [(8, 1100)] 9 987 eq_refl);
    [cint|repeat constructor; cbn; cint|cint].
Defined.

(** A new object is not consistent before [SetBase]: its last time is zero, its base is not. *)
Lemma NewFeedback_inconsistent mem scratch include : IsConsistent scratch (NewFeedback mem include) = false.
Proof. done. Qed.

(** A refused packet may still leave its gap behind. *)
Lemma refused_packet_leaves_gap :
  let fb0 := SetBase (NewFeedback (replicate 14 0) true) 0 0 in
  let '(fb, oks) := add_all fb0 [(32766, 0); (65533, 0); (65535, 0)] in
  oks = [true; true; false] ∧ num_seq_no_ fb = 65535.
Proof. vm_compute. done. Qed.
