(* ===== verification/FeedbackWire.v ===== *)
(** The wire format of transport feedback: [Create], [Parse] and [ParseFrom] of
    modules/rtp_rtcp/source/rtcp_packet/transport_feedback.cc.

    A buffer being written is a list with a position, as in Rtcp.  The theorems show that a
    report is written as one padded RTCP packet and parsed back, and that whatever [ParseFrom]
    accepts is consistent and lies within the buffer. *)
From S2P Require Import Prelude ByteIo SeqNum Rtcp FeedbackChunk TransportFeedback.

(** * Definitions *)

(** [(size_bytes_ + 3) & (~static_cast<size_t>(3))] *)
Definition TransportFeedback_BlockLength (fb : TransportFeedback) : Z :=
  Z.land (size_bytes_ fb + 3) (u64 (Z.lnot 3)).

Definition PaddingLength (fb : TransportFeedback) : Z :=
  TransportFeedback_BlockLength fb - size_bytes_ fb.

(** [RtcpPacket::HeaderLength] *)
Definition HeaderLength (fb : TransportFeedback) : Z :=
  (TransportFeedback_BlockLength fb - kHeaderLength) `div` 4.

(** [Rtpfb::CreateCommonFeedback] and [ParseCommonFeedback] on this packet. *)
Definition fb_CreateCommonFeedback (fb : TransportFeedback) (packet : list Z) (p : Z) : list Z :=
  WriteBigEndian 4 (WriteBigEndian 4 packet p (fb_sender_ssrc fb)) (p + 4) (fb_media_ssrc fb).

Definition fb_ParseCommonFeedback (fb : TransportFeedback) (payload : list Z) : TransportFeedback :=
  set_ssrcs fb (ReadBigEndian 4 4 payload 0) (ReadBigEndian 4 4 payload 4).

(** ** Create *)

(** The loop that hands over what is in the buffer; it ends at the latest when the buffer is
    empty, so two turns are enough. *)
Fixpoint make_room (fuel : nat) (packet : list Z) (position block_length max_length : Z)
    (ready : list (list Z)) : option (Z * list (list Z) * bool) :=
  match fuel with
  | O => None
  | S fuel =>
      if position + block_length >? max_length then
        let '(position, ready, ok) := OnBufferFull packet position ready in
        if negb ok then Some (position, ready, false)
        else make_room fuel packet position block_length max_length ready
      else Some (position, ready, true)
  end.

(** A buffer and the position in it. *)
Definition write_uint (B : Z) (s : list Z * Z) (v : Z) : list Z * Z :=
  let '(packet, position) := s in (WriteBigEndian B packet position v, position + B).

Definition write_byte (s : list Z * Z) (v : Z) : list Z * Z :=
  let '(packet, position) := s in (wr packet position (u8 v), position + 1).

Definition write_delta (s : list Z * Z) (received_packet : PacketDelta) : list Z * Z :=
  let delta := delta_ticks received_packet in
  if (delta >=? 0) && (delta <=? 0xFF) then write_byte s delta
  else let '(packet, position) := s in (WriteBigEndian_signed 2 2 packet position delta, position + 2).

Definition write_padding (padding_length : Z) (s : list Z * Z) : list Z * Z :=
  if padding_length >? 0 then
    write_byte (for_up 0 (Z.to_nat (padding_length - 1)) (λ _ s, write_byte s 0) s) padding_length
  else s.

Definition write_feedback (fb : TransportFeedback) (packet : list Z) (position : Z) : list Z * Z :=
  let padding_length := PaddingLength fb in
  let has_padding := padding_length >? 0 in
  let '(packet, position) :=
    CreateHeader kTransportFeedbackMessageType kPacketType (HeaderLength fb) has_padding packet position in
  let packet := fb_CreateCommonFeedback fb packet position in
  let position := position + kCommonFeedbackLength in
  let s := write_uint 2 (packet, position) (base_seq_no_ fb) in
  let s := write_uint 2 s (num_seq_no_ fb) in
  let s := write_uint 3 s (base_time_ticks_ fb) in
  let s := write_byte s (feedback_seq_ fb) in
  let s := foldl (write_uint 2) s (encoded_chunks_ fb) in
  let s := if negb (LastChunk_Empty (last_chunk_ fb)) then write_uint 2 s (EncodeLast (last_chunk_ fb)) else s in
  let s := if include_timestamps_ fb then foldl write_delta s (received_packets_ fb) else s in
  write_padding padding_length s.

(** The buffer, the position, the packets handed over and the result. *)
Definition TransportFeedback_Create (fb : TransportFeedback) (packet : list Z) (position max_length : Z)
    (ready : list (list Z)) : option (list Z * Z * list (list Z) * bool) :=
  if num_seq_no_ fb =? 0 then Some (packet, position, ready, false)
  else
    match make_room 2 packet position (TransportFeedback_BlockLength fb) max_length ready with
    | None => None
    | Some (position, ready, false) => Some (packet, position, ready, false)
    | Some (position, ready, true) =>
        let '(packet, position) := write_feedback fb packet position in
        Some (packet, position, ready, true)
    end.

(** ** Parse *)

(** The loop over the chunks: whether it came to its end, the index, the sizes, the chunks and
    the last chunk.  Every turn takes two bytes. *)
Fixpoint parse_chunks (fuel : nat) (payload : list Z) (end_index status_count : Z) (index : Z)
    (delta_sizes chunks : list Z) (last : LastChunk) : option (bool * Z * list Z * list Z * LastChunk) :=
  match fuel with
  | O => None
  | S fuel =>
      if zlen delta_sizes <? status_count then
        if index + kChunkSizeBytes >? end_index then Some (false, index, delta_sizes, chunks, last)
        else
          let chunk := ReadBigEndian 2 2 payload index in
          let last := Decode last chunk (status_count - zlen delta_sizes) in
          parse_chunks fuel payload end_index status_count (index + kChunkSizeBytes)
            (AppendTo last delta_sizes) (chunks ++ [chunk]) last
      else Some (true, index, delta_sizes, chunks, last)
  end.

(** The loop over the deltas: the packets, the time and the index; [None] is a size of 3. *)
Fixpoint parse_deltas (payload delta_sizes : list Z) (index seq_no timestamp : Z)
    (packets : list PacketDelta) : option (list PacketDelta * Z * Z) :=
  match delta_sizes with
  | [] => Some (packets, timestamp, index)
  | delta_size :: rest =>
      if delta_size =? 0 then parse_deltas payload rest index (u16 (seq_no + 1)) timestamp packets
      else if delta_size =? 1 then
        let delta := payload.[index] in
        parse_deltas payload rest (index + delta_size) (u16 (seq_no + 1)) (timestamp + delta * kDeltaTick)
          (packets ++ [MkDelta seq_no delta])
      else if delta_size =? 2 then
        let delta := ReadBigEndian_signed 2 2 payload index in
        parse_deltas payload rest (index + delta_size) (u16 (seq_no + 1)) (timestamp + delta * kDeltaTick)
          (packets ++ [MkDelta seq_no delta])
      else None
  end.

(** The loop when there are no deltas. *)
Fixpoint parse_statuses (delta_sizes : list Z) (seq_no : Z) : list PacketDelta :=
  match delta_sizes with
  | [] => []
  | delta_size :: rest =>
      (if delta_size >? 0 then [MkDelta seq_no 0] else []) ++ parse_statuses rest (u16 (seq_no + 1))
  end.

Definition accumulate (l : list Z) : Z := foldl Z.add 0 l.

(** The fields in front of the chunks. *)
Definition parse_fixed (fb : TransportFeedback) (payload : list Z) : TransportFeedback :=
  let fb := fb_ParseCommonFeedback fb payload in
  MkFeedback (fb_sender_ssrc fb) (fb_media_ssrc fb) (ReadBigEndian 2 2 payload 8) (num_seq_no_ fb)
    (ReadBigEndian 4 3 payload 12) (payload.[15]) (include_timestamps_ fb) (last_timestamp_ fb)
    (received_packets_ fb) (encoded_chunks_ fb) (last_chunk_ fb) (size_bytes_ fb).

Definition set_include (fb : TransportFeedback) (include : bool) : TransportFeedback :=
  MkFeedback (fb_sender_ssrc fb) (fb_media_ssrc fb) (base_seq_no_ fb) (num_seq_no_ fb) (base_time_ticks_ fb)
    (feedback_seq_ fb) include (last_timestamp_ fb) (received_packets_ fb) (encoded_chunks_ fb)
    (last_chunk_ fb) (size_bytes_ fb).

Definition TransportFeedback_Parse (fb : TransportFeedback) (packet : CommonHeader)
  : option (TransportFeedback * bool) :=
  if payload_size packet <? kMinPayloadSizeBytes then Some (fb, false)
  else
    let payload := payload packet in
    let status_count := ReadBigEndian 2 2 payload 10 in
    let fb := TransportFeedback_Clear (parse_fixed fb payload) in
    let end_index := payload_size packet in
    if status_count =? 0 then Some (fb, false)
    else
      match parse_chunks (S (Z.to_nat end_index)) payload end_index status_count 16 [] [] (last_chunk_ fb) with
      | None => None
      | Some (ok, index, delta_sizes, chunks, last) =>
          if negb ok then
            Some (TransportFeedback_Clear (set_chunks fb (num_seq_no_ fb) chunks last (size_bytes_ fb)), false)
          else
            let fb := set_chunks fb status_count (removelast chunks) last (size_bytes_ fb) in
            let recv_delta_size := accumulate delta_sizes in
            if end_index >=? index + recv_delta_size then
              match parse_deltas payload delta_sizes index (base_seq_no_ fb) (last_timestamp_ fb) [] with
              | None => Some (TransportFeedback_Clear fb, false)
              | Some (packets, timestamp, index) =>
                  Some (set_packets fb timestamp packets (kHeaderLength + index), true)
              end
            else
              Some (set_packets (set_include fb false) (last_timestamp_ fb)
                      (parse_statuses delta_sizes (base_seq_no_ fb)) (kHeaderLength + index), true)
      end.

(** [mem] is what the array of the new object holds. *)
Definition TransportFeedback_ParseFrom (mem buffer : list Z) (length : Z) : option (option TransportFeedback) :=
  let '(header, ok) := CommonHeader_Parse NewHeader buffer length in
  if negb ok then Some None
  else if negb (packet_type header =? kPacketType) ||
          negb (count_or_format header =? kTransportFeedbackMessageType) then Some None
  else
    match TransportFeedback_Parse (NewFeedback mem true) header with
    | None => None
    | Some (parsed, ok) => if negb ok then Some None else Some (Some parsed)
    end.

(** * Parsing in general *)

Lemma decoded_length chunk m : 0 ≤ m → zlen (decoded chunk m) ≤ m.
Proof.
  intros Hm. unfold decoded. destruct (negb (Z.testbit chunk 15)); [rewrite length_replicate; lia|].
  destruct (negb (Z.testbit chunk 14)); rewrite length_map, length_seqZ; lia.
Qed.

Lemma decoded_range chunk m : Forall (λ s, 0 ≤ s ≤ 3) (decoded chunk m).
Proof.
  assert (∀ x, 0 ≤ Z.land x 3 ≤ 3) as H3.
  { intros x. rewrite (Z.land_ones x 2 ltac:(lia) : Z.land x 3 = _).
    pose proof (Z.mod_pos_bound x (2 ^ 2) ltac:(lia)). lia. }
  assert (∀ x, 0 ≤ Z.land x 1 ≤ 3) as H1.
  { intros x. rewrite (Z.land_ones x 1 ltac:(lia) : Z.land x 1 = _).
    pose proof (Z.mod_pos_bound x (2 ^ 1) ltac:(lia)). lia. }
  unfold decoded. destruct (negb (Z.testbit chunk 15)); [by apply Forall_replicate|].
  destruct (negb (Z.testbit chunk 14)); apply List.Forall_map; apply List.Forall_forall; intros; [apply H1|apply H3].
Qed.

Lemma chunk_sizes_app a b : chunk_sizes (a ++ b) = chunk_sizes a ++ chunk_sizes b.
Proof. apply flat_map_app. Qed.

Lemma chunk_sizes_1 w : chunk_sizes [w] = decoded w 0xffff.
Proof. unfold chunk_sizes. cbn [flat_map]. apply app_nil_r. Qed.

(** What holds whenever the loop over the chunks is entered. *)
Record parse_inv (count index : Z) (ds chunks : list Z) (last : LastChunk) : Prop := {
  pi_array : length (delta_sizes_ last) = 14%nat;
  pi_index : index = 16 + kChunkSizeBytes * zlen chunks;
  pi_count : zlen ds ≤ count;
  pi_range : Forall (λ s, 0 ≤ s ≤ 3) ds;
  pi_none : chunks = [] → ds = [];
  pi_more : zlen ds < count → ds = chunk_sizes chunks;
  pi_last : chunks ≠ [] →
    ds = chunk_sizes (removelast chunks) ++ content last ∧ chunk_size_ last = zlen (content last) ∧
    zlen (chunk_sizes (removelast chunks)) < count;
}.

Lemma parse_inv_step count index ds chunks last chunk : 0 ≤ count ≤ 0xffff → zlen ds < count →
  parse_inv count index ds chunks last →
  let last' := Decode last chunk (count - zlen ds) in
  parse_inv count (index + kChunkSizeBytes) (AppendTo last' ds) (chunks ++ [chunk]) last'.
Proof.
  intros Hc Hlt [H1 H2 H3 H4 _ H5 H6] last'. specialize (H5 Hlt).
  destruct (Decode_content last chunk (count - zlen ds) H1 ltac:(lia)) as (E & L & S). fold last' in E, L, S.
  pose proof (decoded_length chunk (count - zlen ds) ltac:(lia)) as Hdl.
  rewrite AppendTo_content, E. split.
  - done.
  - rewrite H2, length_app. cbn [length]. unfold kChunkSizeBytes. lia.
  - rewrite length_app. lia.
  - apply Forall_app. split; [done|apply decoded_range].
  - intros Ha. by destruct chunks.
  - intros Hm. rewrite length_app in Hm. rewrite chunk_sizes_app, chunk_sizes_1, <- H5. f_equal.
    rewrite (decoded_take chunk (count - zlen ds) 0xffff) in * by lia. rewrite length_take in Hm.
    apply take_ge. lia.
  - intros _. rewrite removelast_last, <- H5, E. split; [done|]. split; [by rewrite S|done].
Qed.

Lemma parse_chunks_total payload end_index count : 0 ≤ count ≤ 0xffff → ∀ fuel index ds chunks last,
  index ≤ end_index → end_index - index < Z.of_nat fuel → parse_inv count index ds chunks last →
  ∃ ok index' ds' chunks' last',
    parse_chunks fuel payload end_index count index ds chunks last = Some (ok, index', ds', chunks', last') ∧
    index' ≤ end_index ∧ parse_inv count index' ds' chunks' last' ∧ (ok = true → zlen ds' = count).
Proof.
  intros Hc fuel. induction fuel as [|fuel IH]; intros index ds chunks last He Hf Hinv; [lia|]. cbn [parse_chunks].
  destruct (Z.ltb_spec (zlen ds) count) as [Hlt|Hge].
  - unfold kChunkSizeBytes at 1. destruct (Z.gtb_spec (index + 2) end_index).
    + by exists false, index, ds, chunks, last.
    + apply IH; [unfold kChunkSizeBytes; lia|unfold kChunkSizeBytes; lia|]. by apply parse_inv_step.
  - exists true, index, ds, chunks, last. split_and!; [done|done|done|]. intros _. pose proof (pi_count _ _ _ _ _ Hinv). lia.
Qed.

Lemma accumulate_sumz l : accumulate l = sumz l.
Proof.
  unfold accumulate. cut (∀ a, foldl Z.add a l = a + sumz l); [intros H; by rewrite H|].
  induction l as [|x l IH]; intros a; cbn [foldl sumz]; [lia|]. rewrite IH. lia.
Qed.

Lemma parse_statuses_packets ds : ∀ seq_no,
  parse_statuses ds seq_no = packets_of seq_no (map (λ s, (s, 0)) ds).
Proof.
  induction ds as [|d ds IH]; intros seq_no; [done|]. cbn [parse_statuses map packets_of].
  rewrite IH. by destruct (d >? 0).
Qed.

Lemma parse_deltas_spec payload ds : Forall uint8 payload → Forall (λ s, 0 ≤ s ≤ 3) ds →
  ∀ index seq_no timestamp packets,
  match parse_deltas payload ds index seq_no timestamp packets with
  | None => True
  | Some (packets', timestamp', index') => ∃ l, map fst l = ds ∧ Forall status_ok l ∧
      packets' = packets ++ packets_of seq_no l ∧ timestamp' = timestamp + sum_ticks l * kDeltaTick ∧
      index' = index + sumz ds
  end.
Proof.
  intros Hu. induction ds as [|d ds IH]; intros Hds index seq_no timestamp packets.
  - exists []. cbn. rewrite app_nil_r. split_and!; [done|by constructor|done|lia|lia].
  - apply Forall_cons_1 in Hds as [Hd Hds]. specialize (IH Hds). cbn [parse_deltas].
    assert (∀ t, status_ok (d, t) → match parse_deltas payload ds (index + d) (u16 (seq_no + 1)) (timestamp + t * kDeltaTick)
        (packets ++ (if d >? 0 then [MkDelta seq_no t] else [])) with
      | None => True
      | Some (packets', timestamp', index') => ∃ l, map fst l = d :: ds ∧ Forall status_ok l ∧
          packets' = packets ++ packets_of seq_no l ∧ timestamp' = timestamp + sum_ticks l * kDeltaTick ∧
          index' = index + sumz (d :: ds)
      end) as Hstep.
    { intros t Ht. specialize (IH (index + d) (u16 (seq_no + 1)) (timestamp + t * kDeltaTick)
        (packets ++ (if d >? 0 then [MkDelta seq_no t] else []))).
      destruct (parse_deltas _ _ _ _ _ _) as [[[packets' timestamp'] index']|]; [|done].
      destruct IH as (l & H1 & H2 & H3 & H4 & H5). exists ((d, t) :: l). split_and!.
      - cbn [map fst]. by rewrite H1.
      - by constructor.
      - rewrite H3. cbn [packets_of]. rewrite <- app_assoc. by destruct (d >? 0).
      - rewrite H4. unfold sum_ticks. cbn [map snd sumz]. lia.
      - rewrite H5. cbn [sumz]. lia. }
    destruct (Z.eqb_spec d 0) as [->|].
    { specialize (Hstep 0 ltac:(cbn; lia)). cbn [Z.gtb Z.compare] in Hstep.
      rewrite app_nil_r, Z.mul_0_l, !Z.add_0_r in Hstep. exact Hstep. }
    destruct (Z.eqb_spec d 1) as [->|].
    { apply Hstep. split; [lia|]. split; [lia|]. intros _.
      pose proof (rd_Forall uint8 payload index Hu ltac:(cint)) as Hr. cint. }
    destruct (Z.eqb_spec d 2) as [->|]; [|done]. apply Hstep. cbn. lia.
Qed.

Lemma read16_range l p : uint16 (ReadBigEndian 2 2 l p).
Proof.
  change (ReadBigEndian 2 2 l p) with (ReadBigEndian_2 2 l p). unfold ReadBigEndian_2, to_U, uint16.
  match goal with |- context [?x `mod` ?y] => pose proof (Z.mod_pos_bound x y ltac:(lia)) as H end.
  change (2 ^ (8 * 2)) with 65536 in *. lia.
Qed.

(** The object after the chunks, with any packets that fit its sizes. *)
Lemma parsed_rep fb count index ds chunks last l index' (include : bool) :
  last_timestamp_ fb = BaseTime fb → size_bytes_ fb = kTransportFeedbackHeaderSizeBytes →
  0 < count → parse_inv count index ds chunks last → zlen ds = count →
  map fst l = ds → Forall status_ok l → index' = index + (if include then sumz ds else 0) →
  rep (set_packets (set_include (set_chunks fb count (removelast chunks) last (size_bytes_ fb)) include)
         (last_timestamp_ fb + sum_ticks l * kDeltaTick) (packets_of (base_seq_no_ fb) l) (kHeaderLength + index')) l.
Proof.
  intros Ht Hs Hc [H1 H2 H3 H4 H0 H5 H6] Hds Hl Hst ->.
  assert (chunks ≠ []) as Hne by (intros E; rewrite H0 in Hds by done; cbn in Hds; lia).
  destruct (H6 Hne) as (E & S & Hlt). assert (0 < zlen (content last)) as Hpos.
  { rewrite E, length_app in Hds. lia. }
  split; unfold set_packets, set_include, set_chunks, BaseTime, wire_size, LastChunk_Empty;
    cbn -[packets_of sum_ticks sum_sizes]; try done.
  - by rewrite Hl.
  - rewrite <- Hds, <- Hl, length_map. done.
  - by rewrite Ht.
  - destruct (Z.eqb_spec (chunk_size_ last) 0); [lia|]. rewrite H2. unfold sum_sizes. rewrite Hl.
    assert (zlen chunks = zlen (removelast chunks) + 1) as ->.
    { rewrite (app_removelast_last 0 Hne) at 1. rewrite length_app. cbn [length]. lia. }
    unfold kHeaderLength, kTransportFeedbackHeaderSizeBytes, kChunkSizeBytes. destruct include; lia.
Qed.

Lemma Parse_spec fb h : include_timestamps_ fb = true → length (delta_sizes_ (last_chunk_ fb)) = 14%nat →
  Forall uint8 (payload h) →
  ∃ fb' ok, TransportFeedback_Parse fb h = Some (fb', ok) ∧
    (ok = true → ∃ l, rep fb' l ∧ 1 ≤ zlen l ≤ 0xffff ∧ uint16 (base_seq_no_ fb') ∧
       size_bytes_ fb' ≤ kHeaderLength + payload_size h).
Proof.
  intros Hi Hm Hu. unfold TransportFeedback_Parse, kMinPayloadSizeBytes.
  destruct (Z.ltb_spec (payload_size h) (8 + 8 + 2)) as [|Hsz]; [by exists fb, false|].
  set (count := ReadBigEndian 2 2 (payload h) 10). assert (uint16 count) as Hc by apply read16_range.
  set (fb1 := TransportFeedback_Clear (parse_fixed fb (payload h))).
  assert (uint16 (base_seq_no_ fb1)) as Hb by apply read16_range.
  destruct (Z.eqb_spec count 0) as [|Hc0]; [by exists fb1, false|].
  destruct (parse_chunks_total (payload h) (payload_size h) count ltac:(cint) (S (Z.to_nat (payload_size h)))
    16 [] [] (last_chunk_ fb1)) as (ok & index & ds & chunks & last & -> & Hle & Hinv & Hok).
  { lia. } { lia. } { split; try done. unfold uint16 in Hc. cbn [length]. lia. }
  destruct ok; cbn [negb]; [|by eexists _, false]. specialize (Hok eq_refl).
  set (fb2 := set_chunks fb1 count (removelast chunks) last (size_bytes_ fb1)).
  assert (0 < count) as Hpos by (unfold uint16 in Hc; lia).
  rewrite accumulate_sumz. destruct (Z.geb_spec (payload_size h) (index + sumz ds)).
  - pose proof (parse_deltas_spec (payload h) ds Hu (pi_range _ _ _ _ _ Hinv) index (base_seq_no_ fb2)
      (last_timestamp_ fb2) []) as HD.
    destruct (parse_deltas _ _ _ _ _ _) as [[[packets timestamp] index']|]; [|by eexists _, false].
    destruct HD as (l & H1 & H2 & -> & -> & ->). eexists _, true. split; [reflexivity|]. intros _. exists l.
    assert (fb2 = set_include fb2 true) as E2.
    { unfold fb2, set_include, set_chunks, fb1, TransportFeedback_Clear, parse_fixed, fb_ParseCommonFeedback, set_ssrcs.
      cbn. by rewrite Hi. }
    split.
    { rewrite E2 at 1. exact (parsed_rep fb1 count index ds chunks last l _ true eq_refl eq_refl Hpos Hinv Hok H1 H2 eq_refl). }
    assert (zlen l = count) as -> by (rewrite <- Hok, <- H1, length_map; done).
    split; [cint|]. split; [done|]. cbn [size_bytes_ set_packets]. lia.
  - set (l := map (λ s, (s, 0)) ds). eexists _, true. split; [reflexivity|]. intros _. exists l.
    assert (map fst l = ds) as H1 by (unfold l; rewrite map_map; apply map_id).
    assert (Forall status_ok l) as H2.
    { unfold l. apply List.Forall_map. eapply list.Forall_impl; [exact (pi_range _ _ _ _ _ Hinv)|]. intros s Hs. cbn in Hs |- *. lia. }
    assert (sum_ticks l = 0) as H3.
    { unfold sum_ticks, l. rewrite map_map. clear. induction ds as [|d ds IH]; [done|]. exact IH. }
    split.
    { rewrite parse_statuses_packets. fold l.
      pose proof (parsed_rep fb1 count index ds chunks last l index false eq_refl eq_refl Hpos Hinv Hok H1 H2 (eq_sym (Z.add_0_r index))) as HR.
      rewrite H3, Z.mul_0_l, Z.add_0_r in HR. exact HR. }
    assert (zlen l = count) as -> by (rewrite <- Hok, <- H1, length_map; done).
    split; [cint|]. split; [done|]. cbn [size_bytes_ set_packets]. lia.
Qed.

(** * What is written *)

(** The buffer and position after [bs] was written at [index]. *)
Definition at_pos (packet : list Z) (index : Z) (bs : list Z) : list Z * Z :=
  (store packet index bs, index + zlen bs).

Definition delta_bytes (t : Z) : list Z := if (t >=? 0) && (t <=? 0xff) then [t] else be_bytes 2 (to_U 2 t).

Section write.
Context (packet : list Z) (index : Z) (Hi : 0 ≤ index).

Lemma write_more bs cs : index + zlen (bs ++ cs) ≤ zlen packet →
  (store (store packet index bs) (index + zlen bs) cs, index + zlen bs + zlen cs) = at_pos packet index (bs ++ cs).
Proof.
  rewrite length_app. intros Hl. unfold at_pos. rewrite store_app by lia. f_equal. rewrite length_app. lia.
Qed.

Lemma write_uint_at B bs v : 1 ≤ B → index + zlen (bs ++ be_bytes (Z.to_nat B) v) ≤ zlen packet →
  write_uint B (at_pos packet index bs) v = at_pos packet index (bs ++ be_bytes (Z.to_nat B) v).
Proof.
  intros HB Hl. rewrite <- write_more by done. unfold write_uint, at_pos.
  rewrite length_app, be_bytes_length in *.
  rewrite WriteBigEndian_store by (rewrite ?store_length; lia). f_equal. lia.
Qed.

Lemma write_byte_at bs v : uint8 v → index + zlen (bs ++ [v]) ≤ zlen packet →
  write_byte (at_pos packet index bs) v = at_pos packet index (bs ++ [v]).
Proof.
  intros Hv Hl. rewrite <- write_more by done. unfold write_byte, at_pos.
  rewrite length_app in Hl. cbn [length] in Hl. rewrite store_1 by (rewrite ?store_length; lia).
  by rewrite u8_id.
Qed.

Lemma write_delta_at bs p : index + zlen (bs ++ delta_bytes (delta_ticks p)) ≤ zlen packet →
  write_delta (at_pos packet index bs) p = at_pos packet index (bs ++ delta_bytes (delta_ticks p)).
Proof.
  unfold write_delta, delta_bytes. destruct ((delta_ticks p >=? 0) && (delta_ticks p <=? 0xff)) eqn:E.
  - apply write_byte_at. cint.
  - apply (write_uint_at 2 bs (to_U 2 (delta_ticks p))). lia.
Qed.

Lemma foldl_at {A} (step : list Z * Z → A → list Z * Z) (bytes : A → list Z) (xs : list A) :
  (∀ bs x, In x xs → index + zlen (bs ++ bytes x) ≤ zlen packet →
    step (at_pos packet index bs) x = at_pos packet index (bs ++ bytes x)) →
  ∀ bs, index + zlen (bs ++ flat_map bytes xs) ≤ zlen packet →
  foldl step (at_pos packet index bs) xs = at_pos packet index (bs ++ flat_map bytes xs).
Proof.
  induction xs as [|x xs IH]; intros Hs bs Hl; [cbn; by rewrite app_nil_r|].
  cbn [foldl flat_map] in *. rewrite app_assoc in *. rewrite Hs; [|by left|rewrite !length_app in *; lia].
  apply IH; [|done]. intros bs' x' Hx. apply Hs. by right.
Qed.

Definition padding_bytes (n : Z) : list Z :=
  if n >? 0 then replicate (Z.to_nat (n - 1)) 0 ++ [n] else [].

Lemma write_padding_at bs n : 0 ≤ n ≤ 255 → index + zlen (bs ++ padding_bytes n) ≤ zlen packet →
  write_padding n (at_pos packet index bs) = at_pos packet index (bs ++ padding_bytes n).
Proof.
  intros Hn. unfold write_padding, padding_bytes. destruct (Z.gtb_spec n 0); [|by rewrite app_nil_r].
  intros Hl. assert (∀ m, index + zlen bs + Z.of_nat m ≤ zlen packet →
    for_up 0 m (λ _ s, write_byte s 0) (at_pos packet index bs) = at_pos packet index (bs ++ replicate m 0)) as HF.
  { induction m as [|m IH]; intros Hm; [cbn; by rewrite app_nil_r|].
    rewrite for_up_S_r, IH by lia. rewrite write_byte_at; [|cint|].
    - by rewrite <- app_assoc, <- replicate_S_end.
    - rewrite <- app_assoc, <- replicate_S_end, length_app, length_replicate. lia. }
  rewrite !length_app, length_replicate in Hl. cbn [length] in Hl. rewrite HF by lia.
  rewrite app_assoc. apply write_byte_at; [cint|]. rewrite !length_app, length_replicate. cbn [length]. lia.
Qed.
End write.

Lemma BlockLength_spec fb : 0 ≤ size_bytes_ fb < 2 ^ 32 →
  TransportFeedback_BlockLength fb = 4 * ((size_bytes_ fb + 3) `div` 4).
Proof.
  intros Hs. unfold TransportFeedback_BlockLength. set (x := size_bytes_ fb + 3).
  assert (0 ≤ x < 2 ^ 64) as Hx by (subst x; lia). clearbody x.
  rewrite Z.mul_comm. change 4 with (2 ^ 2). rewrite <- Z.shiftr_div_pow2, <- Z.shiftl_mul_pow2 by lia.
  apply Z.bits_inj'. intros i Hi. rewrite Z.land_spec, Z.shiftl_spec by lia. unfold u64.
  change 18446744073709551616 with (2 ^ 64).
  destruct (Z.ltb_spec i 64).
  - rewrite Z.mod_pow2_bits_low, Z.lnot_spec by lia. destruct (Z.ltb_spec i 2).
    + rewrite (Z.testbit_neg_r (x ≫ 2)) by lia. assert (i = 0 ∨ i = 1) as [->| ->] by lia; apply andb_false_r.
    + rewrite Z.shiftr_spec by lia. replace (i - 2 + 2) with i by lia.
      change 3 with (Z.ones 2). rewrite Z.ones_spec_high by lia. apply andb_true_r.
  - rewrite Z.mod_pow2_bits_high by lia. rewrite Z.shiftr_spec by lia. replace (i - 2 + 2) with i by lia.
    rewrite andb_false_r. symmetry. rewrite <- (Z.mod_small x (2 ^ 64)) by lia. apply Z.mod_pow2_bits_high. lia.
Qed.

Definition words (fb : TransportFeedback) : list Z :=
  encoded_chunks_ fb ++ if LastChunk_Empty (last_chunk_ fb) then [] else [EncodeLast (last_chunk_ fb)].

Definition all_deltas (fb : TransportFeedback) : list Z :=
  if include_timestamps_ fb then flat_map (λ p, delta_bytes (delta_ticks p)) (received_packets_ fb) else [].

Definition fixed_bytes (fb : TransportFeedback) : list Z :=
  be_bytes 4 (fb_sender_ssrc fb) ++ be_bytes 4 (fb_media_ssrc fb) ++ be_bytes 2 (base_seq_no_ fb) ++
  be_bytes 2 (num_seq_no_ fb) ++ be_bytes 3 (base_time_ticks_ fb) ++ [feedback_seq_ fb].

Definition payload_bytes (fb : TransportFeedback) : list Z :=
  fixed_bytes fb ++ flat_map (be_bytes 2) (words fb) ++ all_deltas fb.

Definition feedback_header (fb : TransportFeedback) : list Z :=
  header_bytes ((if PaddingLength fb >? 0 then 32 else 0) + 15) 205 (HeaderLength fb).

Definition feedback_bytes (fb : TransportFeedback) : list Z :=
  feedback_header fb ++ payload_bytes fb ++ padding_bytes (PaddingLength fb).

(** The bytes of the delta of one packet. *)
Definition status_bytes (st : status) : list Z := if fst st >? 0 then delta_bytes (snd st) else [].

Lemma deltas_statuses l : ∀ seq_no,
  flat_map (λ p, delta_bytes (delta_ticks p)) (packets_of seq_no l) = flat_map status_bytes l.
Proof.
  induction l as [|[s t] l IH]; intros seq_no; [done|]. cbn [packets_of flat_map]. unfold status_bytes at 1.
  cbn [fst snd]. rewrite <- (IH (u16 (seq_no + 1))). by destruct (s >? 0).
Qed.

Lemma statuses_length l : Forall canonical l → zlen (flat_map status_bytes l) = sum_sizes l.
Proof.
  unfold sum_sizes. induction 1 as [|st l Hst _ IH]; [done|]. cbn [flat_map map sumz]. rewrite length_app.
  enough (zlen (status_bytes st) = fst st) by lia.
  destruct Hst as [->|(t & _ & ->)]; [done|]. unfold received, status_bytes, delta_bytes. cbn [fst snd].
  by destruct ((t >=? 0) && (t <=? 0xff)).
Qed.

Lemma words_bytes_length ws : zlen (flat_map (be_bytes 2) ws) = 2 * zlen ws.
Proof. induction ws as [|w ws IH]; [done|]. cbn [flat_map length]. rewrite length_app, be_bytes_length. lia. Qed.

Section bytes.
Context (fb : TransportFeedback) (l : list status) (Hok : fb_ok fb l).

Lemma words_length : kChunkSizeBytes * zlen (words fb) = enc_bytes (encoded_chunks_ fb) (last_chunk_ fb).
Proof.
  unfold words, enc_bytes, kChunkSizeBytes. rewrite length_app. destruct (LastChunk_Empty _); cbn [length]; lia.
Qed.

Lemma all_deltas_statuses : all_deltas fb = if include_timestamps_ fb then flat_map status_bytes l else [].
Proof. unfold all_deltas. rewrite (ok_packets _ _ Hok), deltas_statuses. done. Qed.

Lemma payload_bytes_length : 4 + zlen (payload_bytes fb) = size_bytes_ fb.
Proof.
  unfold payload_bytes. rewrite !length_app, (ok_bytes _ _ Hok), <- words_length, all_deltas_statuses.
  assert (zlen (fixed_bytes fb) = 16) as E by done.
  pose proof (words_bytes_length (words fb)) as Ew. pose proof (statuses_length l (ok_status _ _ Hok)) as Es.
  unfold kTransportFeedbackHeaderSizeBytes, kChunkSizeBytes. destruct (include_timestamps_ fb); cbn [length]; lia.
Qed.

Lemma size_range : 20 ≤ size_bytes_ fb ≤ 262144.
Proof.
  pose proof (fb_ok_size _ _ Hok) as H. unfold kMaxSizeBytes in H. change ((1 ≪ 16) * 4) with 262144 in H.
  split; [|done]. pose proof payload_bytes_length as E. unfold payload_bytes in E. rewrite length_app in E.
  assert (zlen (fixed_bytes fb) = 16) by done. lia.
Qed.

Lemma block_range : let b := TransportFeedback_BlockLength fb in
  size_bytes_ fb ≤ b ≤ size_bytes_ fb + 3 ∧ b = 4 + 4 * HeaderLength fb ∧ 4 ≤ HeaderLength fb < 65536.
Proof.
  intros b. pose proof size_range as Hr. assert (b = 4 * ((size_bytes_ fb + 3) `div` 4)) as E by (apply BlockLength_spec; lia).
  unfold HeaderLength, kHeaderLength. fold b. rewrite E. clear E. split; zdiv.
Qed.

Lemma feedback_bytes_length : zlen (feedback_bytes fb) = TransportFeedback_BlockLength fb.
Proof.
  unfold feedback_bytes. rewrite !length_app. pose proof payload_bytes_length. pose proof block_range as [Hb _].
  assert (zlen (feedback_header fb) = 4) by done.
  assert (zlen (padding_bytes (PaddingLength fb)) = PaddingLength fb) as Ep.
  { unfold padding_bytes. destruct (Z.gtb_spec (PaddingLength fb) 0); [rewrite length_app, length_replicate; cbn [length]; lia|].
    unfold PaddingLength in *. cbn [length]. lia. }
  unfold PaddingLength in *. lia.
Qed.

Lemma write_feedback_bytes packet index : uint8 (feedback_seq_ fb) → 0 ≤ index → index + TransportFeedback_BlockLength fb ≤ zlen packet →
  write_feedback fb packet index = at_pos packet index (feedback_bytes fb).
Proof.
  intros Hseq Hi Hl. pose proof feedback_bytes_length as HL. pose proof block_range as (Hb & Hb4 & Hh).
  assert (0 ≤ PaddingLength fb ≤ 255) as Hp by (unfold PaddingLength; lia).
  rewrite <- HL in Hl. clear HL. unfold feedback_bytes, payload_bytes, fixed_bytes in *.
  assert (zlen (feedback_header fb) = 4) as H4 by done.
  assert (index + 4 ≤ zlen packet) as Hl4 by (rewrite !length_app in Hl; lia).
  unfold write_feedback, kTransportFeedbackMessageType, kPacketType, kCommonFeedbackLength.
  rewrite CreateHeader_padded by lia. fold (feedback_header fb).
  assert ((fb_CreateCommonFeedback fb (store packet index (feedback_header fb)) (index + 4), index + 4 + 8) =
    write_uint 4 (write_uint 4 (at_pos packet index (feedback_header fb)) (fb_sender_ssrc fb)) (fb_media_ssrc fb)) as ->.
  { unfold write_uint, at_pos, fb_CreateCommonFeedback. rewrite H4. f_equal. lia. }
  rewrite <- !app_assoc in Hl.
  rewrite !write_uint_at, write_byte_at by (try done; try lia; rewrite ?length_app in *; change (Z.to_nat 4) with 4%nat;
    change (Z.to_nat 2) with 2%nat; change (Z.to_nat 3) with 3%nat; lia).
  change (Z.to_nat 4) with 4%nat. change (Z.to_nat 2) with 2%nat. change (Z.to_nat 3) with 3%nat.
  rewrite (foldl_at packet index (write_uint 2) (be_bytes 2)); [|intros bs x _; apply (write_uint_at packet index Hi 2); lia|].
  2:{ unfold words in Hl. rewrite flat_map_app in Hl. rewrite !length_app in *. lia. }
  set (bs := (_ ++ flat_map (be_bytes 2) (encoded_chunks_ fb))).
  assert ((if negb (LastChunk_Empty (last_chunk_ fb)) then write_uint 2 (at_pos packet index bs) (EncodeLast (last_chunk_ fb))
    else at_pos packet index bs) = at_pos packet index (feedback_header fb ++ fixed_bytes fb ++ flat_map (be_bytes 2) (words fb))) as ->.
  { unfold words in *. rewrite flat_map_app in *. destruct (LastChunk_Empty (last_chunk_ fb)); cbn [negb flat_map] in *.
    - unfold bs, fixed_bytes. by rewrite !app_nil_r, <- !app_assoc.
    - rewrite write_uint_at; [|done|lia|subst bs; rewrite ?app_nil_r, !length_app in *; change (Z.to_nat 2) with 2%nat; lia].
      unfold bs, fixed_bytes. by rewrite !app_nil_r, <- !app_assoc. }
  assert ((if include_timestamps_ fb then foldl write_delta
      (at_pos packet index (feedback_header fb ++ fixed_bytes fb ++ flat_map (be_bytes 2) (words fb))) (received_packets_ fb)
    else at_pos packet index (feedback_header fb ++ fixed_bytes fb ++ flat_map (be_bytes 2) (words fb))) =
    at_pos packet index (feedback_header fb ++ payload_bytes fb)) as ->.
  { unfold payload_bytes, all_deltas in *. destruct (include_timestamps_ fb); [|by rewrite app_nil_r].
    rewrite (foldl_at packet index write_delta (λ p, delta_bytes (delta_ticks p))).
    - by rewrite <- !app_assoc.
    - intros bs' x _. by apply write_delta_at.
    - unfold fixed_bytes. rewrite !length_app in *. lia. }
  rewrite write_padding_at; [by rewrite <- app_assoc|done|done|].
  unfold payload_bytes, fixed_bytes. rewrite !length_app in *. lia.
Qed.
End bytes.

(** * What is read back *)

(** [bs] is found at [p]. *)
Definition found (data : list Z) (p : Z) (bs : list Z) : Prop :=
  slice data p (zlen bs) = bs ∧ 0 ≤ p ∧ p + zlen bs ≤ zlen data.

Lemma found_app data p a b : found data p (a ++ b) → found data p a ∧ found data (p + zlen a) b.
Proof.
  intros (E & Hp & Hl). rewrite length_app in Hl. rewrite length_app, Nat2Z.inj_add, slice_app in E by lia.
  apply app_inj_1 in E as [E1 E2]; [|rewrite slice_length by lia; lia].
  split; split; [done|lia|done|lia].
Qed.

Lemma found_here a b c : found (a ++ b ++ c) (zlen a) b.
Proof.
  split; [|rewrite !length_app; lia]. rewrite slice_app_r by done. by rewrite Nat2Z.id, take_app_length.
Qed.

Lemma found_read S B data p v : 1 ≤ B ≤ S → Forall uint8 data → found data p (be_bytes (Z.to_nat B) v) →
  0 ≤ v < 2 ^ (8 * B) → ReadBigEndian S B data p = v.
Proof.
  intros HB Hu (E & Hp & Hl) Hv. rewrite be_bytes_length in *. rewrite Z2Nat.id in * by lia.
  by apply read_be.
Qed.

Lemma found_byte data p b : found data p [b] → data.[p] = b.
Proof.
  intros (E & Hp & Hl). change (zlen [b]) with 1 in *. rewrite slice_cons, slice_0 in E by lia. congruence.
Qed.

Section read.
Context (data : list Z) (Hu : Forall uint8 data).

(** All words but the last decode to all they can; the last one stops at the count. *)
Lemma parse_chunks_words end_index count w k ws : uint16 w → 0 < k → zlen (decoded w k) = k → count ≤ 0xffff →
  Forall uint16 ws → ∀ fuel index ds chunks last, length (delta_sizes_ last) = 14%nat →
  found data index (flat_map (be_bytes 2) (ws ++ [w])) → index + 2 * (zlen ws + 1) ≤ end_index →
  zlen ds + zlen (chunk_sizes ws) + k = count → (length ws + 2 ≤ fuel)%nat →
  ∃ c, length (delta_sizes_ c) = 14%nat ∧
  parse_chunks fuel data end_index count index ds chunks last =
    Some (true, index + 2 * (zlen ws + 1), ds ++ chunk_sizes ws ++ decoded w k, chunks ++ ws ++ [w], Decode c w k).
Proof.
  intros Hw Hk Hdk Hcount Hws. induction Hws as [|x ws Hx _ IH]; intros fuel index ds chunks last Hlast Hf He Hc Hfuel.
  - destruct fuel as [|[|fuel]]; [cbn in Hfuel; lia|cbn in Hfuel; lia|]. cbn [chunk_sizes flat_map length] in Hc.
    cbn [app flat_map] in Hf. rewrite app_nil_r in Hf. cbn [length] in He.
    cbn [parse_chunks]. destruct (Z.ltb_spec (zlen ds) count); [|lia]. unfold kChunkSizeBytes.
    destruct (Z.gtb_spec (index + 2) end_index); [lia|].
    rewrite (found_read 2 2 data index w) by (done || cint). replace (count - zlen ds) with k by lia.
    destruct (Decode_content last w k Hlast ltac:(lia)) as (E & _ & _).
    rewrite AppendTo_content, E, length_app. destruct (Z.ltb_spec (Z.of_nat (length ds + length (decoded w k))) count); [lia|].
    exists last. done.
  - destruct fuel as [|fuel]; [cbn in Hfuel; lia|]. cbn [app flat_map] in Hf. apply found_app in Hf as [Hf1 Hf2].
    rewrite be_bytes_length in Hf2. unfold chunk_sizes in Hc. cbn [flat_map length] in Hc. fold (chunk_sizes ws) in Hc.
    rewrite length_app in Hc. cbn [length] in He, Hfuel.
    cbn [parse_chunks]. destruct (Z.ltb_spec (zlen ds) count); [|lia]. unfold kChunkSizeBytes.
    destruct (Z.gtb_spec (index + 2) end_index); [lia|].
    rewrite (found_read 2 2 data index x) by (done || cint).
    destruct (Decode_content last x (count - zlen ds) Hlast ltac:(lia)) as (E & L & _).
    rewrite decoded_all with (M := 0xffff) in E by lia. rewrite AppendTo_content, E.
    destruct (IH fuel (index + 2) (ds ++ decoded x 0xffff) (chunks ++ [x]) (Decode last x (count - zlen ds)) L Hf2
      ltac:(lia) ltac:(rewrite length_app; lia) ltac:(lia)) as (c & Hc' & ->).
    exists c. split; [done|]. unfold chunk_sizes at 2. cbn [flat_map length]. fold (chunk_sizes ws).
    rewrite <- !app_assoc. cbn [app]. do 5 f_equal. lia.
Qed.

Lemma read_delta p t : int16 t → found data p (be_bytes 2 (to_U 2 t)) → ReadBigEndian_signed 2 2 data p = t.
Proof.
  intros Ht Hf. unfold ReadBigEndian_signed.
  rewrite (found_read 2 2 data p (to_U 2 t)); [|lia|done|done|apply Z.mod_pos_bound; lia].
  apply (signed_value 2 2 t); [lia|lia|by left|]. change (2 ^ (8 * 2 - 1)) with 32768. cint.
Qed.

Lemma parse_deltas_statuses l : Forall canonical l → ∀ index seq_no timestamp packets,
  found data index (flat_map status_bytes l) →
  parse_deltas data (map fst l) index seq_no timestamp packets =
    Some (packets ++ packets_of seq_no l, timestamp + sum_ticks l * kDeltaTick, index + sum_sizes l).
Proof.
  assert (∀ (a b : list PacketDelta) c d e f, a = b → c = d → e = f → Some (a, c, e) = Some (b, d, f : Z) :> option (list PacketDelta * Z * Z))
    as Hsome by congruence.
  unfold sum_ticks, sum_sizes. induction 1 as [|st l Hst _ IH]; intros index seq_no timestamp packets Hf.
  - cbn. apply Hsome; [by rewrite app_nil_r|lia|lia].
  - cbn [flat_map] in Hf. apply found_app in Hf as [Hf1 Hf2]. destruct Hst as [->|(t & Ht & ->)].
    + cbn [map fst missing parse_deltas Z.eqb]. rewrite IH.
      * cbn [map snd missing sumz packets_of Z.gtb Z.compare]. apply Hsome; [done|lia|lia].
      * replace index with (index + zlen (status_bytes missing)) by (cbn; lia). exact Hf2.
    + unfold received, status_bytes, delta_bytes in *. cbn [map fst snd sumz packets_of parse_deltas] in *.
      destruct ((t >=? 0) && (t <=? 0xff)) eqn:E; cbn [Z.gtb Z.compare Z.eqb Pos.eqb] in *.
      * rewrite (found_byte data index t Hf1), IH by exact Hf2.
        rewrite <- app_assoc. apply Hsome; [done|lia|lia].
      * rewrite (read_delta index t Ht Hf1), IH by (rewrite be_bytes_length in Hf2; exact Hf2).
        rewrite <- app_assoc. apply Hsome; [done|lia|lia].
Qed.
End read.

Section parse.
Context (fb : TransportFeedback) (l : list status) (Hok : fb_ok fb l) (Hne : l ≠ []).
Context (Hsender : uint32 (fb_sender_ssrc fb)) (Hmedia : uint32 (fb_media_ssrc fb)).
Context (Hticks : 0 ≤ base_time_ticks_ fb < 2 ^ 24) (Hseq : uint8 (feedback_seq_ fb)).

Lemma words_split : ∃ ws w k, words fb = ws ++ [w] ∧ Forall uint16 (ws ++ [w]) ∧ 0 < k ∧
  zlen (decoded w k) = k ∧ chunk_sizes ws ++ decoded w k = map fst l.
Proof.
  destruct (ok_enc _ _ Hok) as [Hc _ Hw Hds].
  assert (Forall uint16 (encoded_chunks_ fb)) as Hw16 by (eapply list.Forall_impl; [exact Hw|]; by intros w [H _]).
  unfold words. destruct (LastChunk_Empty (last_chunk_ fb)) eqn:E.
  - rewrite (proj1 (Empty_content _ Hc) E), app_nil_r in Hds.
    assert (encoded_chunks_ fb ≠ []) as He by (intros E'; rewrite E' in Hds; by destruct l).
    set (ws := removelast (encoded_chunks_ fb)) in *. set (w := List.last (encoded_chunks_ fb) 0) in *.
    assert (encoded_chunks_ fb = ws ++ [w]) as Ews by exact (app_removelast_last 0 He).
    exists ws, w, (zlen (decoded w 0xffff)). rewrite app_nil_r, <- Ews.
    rewrite Ews in Hw. apply Forall_app in Hw as [_ Hw]. apply Forall_cons_1 in Hw as [[_ H7] _].
    pose proof (decoded_length w 0xffff ltac:(lia)) as Hlen. rewrite (decoded_all w (zlen (decoded w 0xffff)) 0xffff) by lia.
    split_and!; [done|done|lia|done|]. by rewrite Hds, Ews, chunk_sizes_app, chunk_sizes_1.
  - unfold LastChunk_Empty in E. pose proof (ck_size _ Hc). assert (0 < chunk_size_ (last_chunk_ fb)) as Hpos by lia.
    destruct (EncodeLast_ok _ Hc Hpos) as [Ed Eu].
    exists (encoded_chunks_ fb), (EncodeLast (last_chunk_ fb)), (chunk_size_ (last_chunk_ fb)). rewrite Ed.
    split_and!; [done|apply Forall_app; split; [done|by constructor]|lia|by apply content_length|done].
Qed.

Lemma plain_statuses : include_timestamps_ fb = false → map (λ s, (s, 0)) (map fst l) = l.
Proof.
  intros Hi. pose proof (ok_plain _ _ Hok Hi) as Hp. rewrite map_map. clear - Hp.
  induction Hp as [|[s t] l Ht _ IH]; [done|]. cbn in *. by rewrite IH, Ht.
Qed.

Lemma payload_uint8 : Forall uint8 (payload_bytes fb).
Proof.
  assert (∀ {A} (f : A → list Z) xs, (∀ x, Forall uint8 (f x)) → Forall uint8 (flat_map f xs)) as Hfm.
  { intros A f xs Hf. induction xs as [|x xs IH]; [constructor|]. cbn [flat_map]. apply Forall_app. by split. }
  unfold payload_bytes, fixed_bytes, all_deltas. repeat (apply Forall_app; split); try apply be_bytes_uint8.
  - by constructor.
  - apply Hfm. intros w. apply be_bytes_uint8.
  - destruct (include_timestamps_ fb); [|constructor]. apply Hfm. intros p. unfold delta_bytes.
    destruct ((delta_ticks p >=? 0) && (delta_ticks p <=? 0xff)) eqn:E; [|apply be_bytes_uint8].
    constructor; [cint|constructor].
Qed.

Section payload.
Context (mem rest : list Z) (Hmem : length mem = 14%nat) (Hrest : Forall uint8 rest) (h : CommonHeader).
Context (Hp : payload h = payload_bytes fb ++ rest) (Hsize : payload_size h = zlen (payload_bytes fb)).

Lemma parse_data : Forall uint8 (payload h).
Proof. rewrite Hp. apply Forall_app. split; [apply payload_uint8|done]. Qed.

Lemma fixed_found : found (payload h) 0 (fixed_bytes fb).
Proof. rewrite Hp. unfold payload_bytes. rewrite <- app_assoc. apply (found_here []). Qed.

Lemma parse_fixed_fields :
  ReadBigEndian 4 4 (payload h) 0 = fb_sender_ssrc fb ∧ ReadBigEndian 4 4 (payload h) 4 = fb_media_ssrc fb ∧
  ReadBigEndian 2 2 (payload h) 8 = base_seq_no_ fb ∧ ReadBigEndian 2 2 (payload h) 10 = num_seq_no_ fb ∧
  ReadBigEndian 4 3 (payload h) 12 = base_time_ticks_ fb ∧ (payload h).[15] = feedback_seq_ fb.
Proof.
  pose proof parse_data as Hu. pose proof fixed_found as Hf. unfold fixed_bytes in Hf.
  apply found_app in Hf as [F1 Hf]. apply found_app in Hf as [F2 Hf]. apply found_app in Hf as [F3 Hf].
  apply found_app in Hf as [F4 Hf]. apply found_app in Hf as [F5 F6]. rewrite !be_bytes_length in *.
  pose proof (ok_base _ _ Hok) as Hb. pose proof (ok_max _ _ Hok) as Hm. pose proof (ok_num _ _ Hok) as Hn.
  split_and!.
  - apply (found_read 4 4); [lia|done|exact F1|cint].
  - apply (found_read 4 4); [lia|done|exact F2|cint].
  - apply (found_read 2 2); [lia|done|exact F3|cint].
  - apply (found_read 2 2); [lia|done|exact F4|]. rewrite Hn. lia.
  - apply (found_read 4 3); [lia|done|exact F5|lia].
  - apply found_byte. exact F6.
Qed.

(** The chunks as they are read. *)
Lemma parse_chunks_payload last : length (delta_sizes_ last) = 14%nat →
  ∃ chunks c, let index := 16 + kChunkSizeBytes * zlen (words fb) in
  parse_chunks (S (Z.to_nat (payload_size h))) (payload h) (payload_size h) (zlen l) 16 [] [] last =
    Some (true, index, map fst l, chunks, c) ∧
  parse_inv (zlen l) index (map fst l) chunks c.
Proof.
  intros Hlast. destruct words_split as (ws & w & k & Ew & Hu & Hk & Hkl & Eds).
  apply Forall_app in Hu as [Hws Hw]. apply Forall_cons_1 in Hw as [Hw _].
  assert (found (payload h) 16 (flat_map (be_bytes 2) (ws ++ [w]))) as Hf.
  { rewrite Hp, <- Ew. unfold payload_bytes. rewrite <- !app_assoc. apply (found_here (fixed_bytes fb)). }
  assert (16 + 2 * (zlen ws + 1) ≤ payload_size h) as Hle.
  { rewrite Hsize. unfold payload_bytes. rewrite !length_app, Ew. pose proof (words_bytes_length (ws ++ [w])) as E.
    rewrite length_app in E. cbn [length] in E. assert (zlen (fixed_bytes fb) = 16) by done. lia. }
  assert (zlen (chunk_sizes ws) + k = zlen l) as Hcount.
  { apply (f_equal length) in Eds. rewrite length_app, length_map in Eds. lia. }
  pose proof (ok_max _ _ Hok) as Hmax.
  destruct (parse_chunks_words (payload h) parse_data (payload_size h) (zlen l) w k ws Hw Hk Hkl Hmax Hws
    (S (Z.to_nat (payload_size h))) 16 [] [] last Hlast Hf Hle ltac:(cbn [length]; lia) ltac:(lia)) as (c & Hc & E).
  exists (ws ++ [w]), (Decode c w k). cbv zeta.
  assert (16 + 2 * (zlen ws + 1) = 16 + kChunkSizeBytes * zlen (words fb)) as Ei.
  { rewrite Ew, length_app. cbn [length]. unfold kChunkSizeBytes. lia. }
  rewrite !app_nil_l, Eds, Ei in E. split; [exact E|].
  destruct (Decode_content c w k Hc ltac:(lia)) as (Ec & L & Sz).
  split.
  - done.
  - by rewrite Ew.
  - by rewrite length_map.
  - apply List.Forall_map. eapply list.Forall_impl; [exact (ok_status _ _ Hok)|]. intros st Hst.
    pose proof (canonical_size st Hst). lia.
  - intros Ha. by destruct ws.
  - rewrite length_map. lia.
  - intros _. rewrite removelast_last, Ec. split; [done|]. split; [by rewrite Sz|lia].
Qed.

Lemma Parse_payload :
  ∃ fb', TransportFeedback_Parse (NewFeedback mem true) h = Some (fb', true) ∧ rep fb' l ∧
    session fb' = (fb_sender_ssrc fb, fb_media_ssrc fb, base_seq_no_ fb, base_time_ticks_ fb, feedback_seq_ fb,
                   include_timestamps_ fb || (sum_sizes l =? 0)).
Proof.
  destruct parse_fixed_fields as (E1 & E2 & E3 & E4 & E5 & E6). pose proof (ok_num _ _ Hok) as Hn.
  assert (0 < zlen l) as Hpos by (destruct l; [done|cbn [length]; lia]).
  pose proof (sum_sizes_bound l (ok_status _ _ Hok)) as Hsum.
  assert (payload_size h = 16 + kChunkSizeBytes * zlen (words fb) + if include_timestamps_ fb then sum_sizes l else 0) as Hps.
  { rewrite Hsize. unfold payload_bytes. rewrite !length_app, (all_deltas_statuses fb l Hok).
    pose proof (words_bytes_length (words fb)). pose proof (statuses_length l (ok_status _ _ Hok)).
    assert (zlen (fixed_bytes fb) = 16) by done. unfold kChunkSizeBytes. destruct (include_timestamps_ fb); cbn [length]; lia. }
  unfold TransportFeedback_Parse. rewrite E4, Hn.
  set (fb1 := TransportFeedback_Clear (parse_fixed (NewFeedback mem true) (payload h))).
  destruct (parse_chunks_payload (last_chunk_ fb1)) as (chunks & c & Ec & Hinv); [exact Hmem|].
  assert (1 ≤ zlen (words fb)) as Hw1.
  { destruct words_split as (ws & w & k & -> & _). rewrite length_app. cbn [length]. lia. }
  unfold kMinPayloadSizeBytes. destruct (Z.ltb_spec (payload_size h) (8 + 8 + 2)).
  { unfold kChunkSizeBytes in Hps. destruct (include_timestamps_ fb); lia. }
  destruct (Z.eqb_spec (zlen l) 0); [lia|]. rewrite Ec. cbn [negb]. clear Ec.
  set (index := 16 + kChunkSizeBytes * zlen (words fb)) in *.
  assert (base_seq_no_ fb1 = base_seq_no_ fb) as Eb by exact E3.
  assert (zlen (map fst l) = zlen l) as Hml by by rewrite length_map.
  assert (Forall status_ok l) as Hst by (eapply list.Forall_impl; [exact (ok_status _ _ Hok)|apply canonical_ok]).
  rewrite accumulate_sumz. fold (sum_sizes l).
  destruct (Z.geb_spec (payload_size h) (index + sum_sizes l)) as [Hge|Hlt].
  - assert (found (payload h) index (flat_map status_bytes l)) as Hf.
    { rewrite Hp. unfold payload_bytes. rewrite (all_deltas_statuses fb l Hok).
      destruct (include_timestamps_ fb).
      - rewrite <- !app_assoc, app_assoc. replace index with (zlen (fixed_bytes fb ++ flat_map (be_bytes 2) (words fb))); [apply found_here|].
        rewrite length_app, Nat2Z.inj_add, words_bytes_length. done.
      - assert (flat_map status_bytes l = []) as ->.
        { pose proof (statuses_length l (ok_status _ _ Hok)). destruct (flat_map status_bytes l); [done|cbn [length] in *; lia]. }
        split; [apply slice_0|]. rewrite !length_app. pose proof (words_bytes_length (words fb)).
        assert (zlen (fixed_bytes fb) = 16) by done. unfold index, kChunkSizeBytes. cbn [length]. lia. }
    rewrite (parse_deltas_statuses (payload h) parse_data l (ok_status _ _ Hok)) by exact Hf.
    eexists. split; [reflexivity|]. split.
    + exact (parsed_rep fb1 (zlen l) index (map fst l) chunks c l _ true eq_refl eq_refl Hpos Hinv Hml eq_refl Hst eq_refl).
    + unfold session. cbn -[ReadBigEndian rd sum_sizes]. rewrite E1, E2, E3, E5, E6. repeat f_equal.
      destruct (include_timestamps_ fb); [done|]. cbn [orb]. lia.
  - eexists. split; [reflexivity|]. assert (include_timestamps_ fb = false) as Ei by (destruct (include_timestamps_ fb); [lia|done]).
    split.
    + pose proof (parsed_rep fb1 (zlen l) index (map fst l) chunks c l index false eq_refl eq_refl Hpos Hinv Hml eq_refl Hst
        (eq_sym (Z.add_0_r index))) as HR.
      rewrite parse_statuses_packets, plain_statuses by done.
      assert (sum_ticks l = 0) as E0.
      { unfold sum_ticks. pose proof (ok_plain _ _ Hok Ei) as Hz. clear - Hz. induction Hz as [|st l Hz _ IH]; [done|].
        cbn [map sumz]. rewrite Hz, IH. done. }
      rewrite E0, Z.mul_0_l, Z.add_0_r in HR. exact HR.
    + unfold session. cbn -[ReadBigEndian rd sum_sizes]. rewrite E1, E2, E3, E5, E6, Ei in *. repeat f_equal. cbn [orb]. lia.
Qed.
End payload.

Lemma padding_uint8 n : n ≤ 255 → Forall uint8 (padding_bytes n).
Proof.
  intros Hn. unfold padding_bytes. destruct (Z.gtb_spec n 0); [|constructor]. apply Forall_app.
  split; [apply Forall_replicate; cint|]. constructor; [cint|constructor].
Qed.

Lemma feedback_uint8 : Forall uint8 (feedback_bytes fb).
Proof.
  destruct (block_range fb l Hok) as (Hb & _ & Hh). unfold feedback_bytes, feedback_header, header_bytes.
  apply Forall_app. split; [|apply Forall_app; split; [apply payload_uint8|apply padding_uint8; unfold PaddingLength; lia]].
  repeat constructor; unfold uint8; try destruct (PaddingLength fb >? 0); zdiv.
Qed.

(** The header gives back the size without the padding. *)
Lemma feedback_header_parse : let p := feedback_bytes fb in
  ∃ h, CommonHeader_Parse NewHeader p (zlen p) = (h, true) ∧
    packet_type h = kPacketType ∧ count_or_format h = kTransportFeedbackMessageType ∧
    payload h = payload_bytes fb ++ padding_bytes (PaddingLength fb) ∧ payload_size h = zlen (payload_bytes fb).
Proof.
  intros p. destruct (block_range fb l Hok) as (Hb & Hb4 & Hh). pose proof feedback_uint8 as Hu. fold p in Hu.
  pose proof (feedback_bytes_length fb l Hok) as Lp. fold p in Lp. pose proof (payload_bytes_length fb l Hok) as Lpay.
  unfold CommonHeader_Parse, kHeaderSizeBytes. destruct (Z.ltb_spec (zlen p) 4); [lia|].
  assert (ReadBigEndian 2 2 p 2 = HeaderLength fb) as Er.
  { apply read_be; [lia|done|lia|lia| |lia].
    change (slice p 2 2) with [HeaderLength fb `div` 256; HeaderLength fb `mod` 256].
    change (Z.to_nat 2) with 2%nat. cbn [be_bytes]. change (8 * Z.of_nat 1) with 8. change (8 * Z.of_nat 0) with 0.
    rewrite Z.shiftr_0_r, Z.shiftr_div_pow2 by lia. change (2 ^ 8) with 256.
    rewrite (u8_id (HeaderLength fb `div` 256)); [done|]. unfold uint8. zdiv. }
  rewrite Er. change (p.[0]) with (128 + ((if PaddingLength fb >? 0 then 32 else 0) + 15)). change (p.[1]) with 205.
  change (drop (Z.to_nat 4) p) with (payload_bytes fb ++ padding_bytes (PaddingLength fb)).
  unfold padding_bytes, PaddingLength in *. destruct (Z.gtb_spec (TransportFeedback_BlockLength fb - size_bytes_ fb) 0) as [Hpad|Hpad].
  - set (pad := TransportFeedback_BlockLength fb - size_bytes_ fb) in *.
    change ((128 + (32 + 15)) ≫ 6 =? 2) with true. change (Z.land (128 + (32 + 15)) 0x20 =? 0) with false. cbn [negb].
    destruct (Z.ltb_spec (zlen p) (4 + HeaderLength fb * 4)); [lia|]. destruct (Z.eqb_spec (HeaderLength fb * 4) 0); [lia|].
    assert ((payload_bytes fb ++ replicate (Z.to_nat (pad - 1)) 0 ++ [pad]).[HeaderLength fb * 4 - 1] = pad) as ->.
    { rewrite app_assoc, rd_app_r by (rewrite length_app, length_replicate; lia). rewrite length_app, length_replicate.
      replace (HeaderLength fb * 4 - 1 - Z.of_nat (length (payload_bytes fb) + Z.to_nat (pad - 1))) with 0 by lia. done. }
    destruct (Z.eqb_spec pad 0); [lia|]. destruct (Z.gtb_spec pad (HeaderLength fb * 4)); [lia|].
    eexists. split; [reflexivity|]. split_and!; [done|done|done|]. cbn [payload_size]. lia.
  - change ((128 + (0 + 15)) ≫ 6 =? 2) with true. change (Z.land (128 + (0 + 15)) 0x20 =? 0) with true. cbn [negb].
    destruct (Z.ltb_spec (zlen p) (4 + HeaderLength fb * 4)); [lia|].
    eexists. split; [reflexivity|]. split_and!; [done|done|done|]. cbn [payload_size]. lia.
Qed.

Lemma ParseFrom_bytes mem : length mem = 14%nat →
  ∃ fb', TransportFeedback_ParseFrom mem (feedback_bytes fb) (zlen (feedback_bytes fb)) = Some (Some fb') ∧ rep fb' l ∧
    session fb' = (fb_sender_ssrc fb, fb_media_ssrc fb, base_seq_no_ fb, base_time_ticks_ fb, feedback_seq_ fb,
                   include_timestamps_ fb || (sum_sizes l =? 0)).
Proof.
  intros Hm. destruct feedback_header_parse as (h & E & E1 & E2 & E3 & E4).
  unfold TransportFeedback_ParseFrom. rewrite E. cbn [negb]. rewrite E1, E2, !Z.eqb_refl. cbn [negb orb].
  destruct (block_range fb l Hok) as (Hb & _ & _).
  destruct (Parse_payload mem (padding_bytes (PaddingLength fb)) Hm) with (h := h) as (fb' & -> & HR & HS); try done.
  { apply padding_uint8. unfold PaddingLength. lia. }
  exists fb'. done.
Qed.
End parse.

(** What a header that was accepted promises. *)
Lemma CommonHeader_bounds h0 buffer h : Forall uint8 buffer →
  CommonHeader_Parse h0 buffer (zlen buffer) = (h, true) →
  payload h = drop 4 buffer ∧ kHeaderLength + payload_size h ≤ zlen buffer.
Proof.
  intros Hu. unfold CommonHeader_Parse, kHeaderSizeBytes, kHeaderLength. change (Z.to_nat 4) with 4%nat.
  destruct (zlen buffer <? 4); [done|]. destruct (negb _); [done|].
  set (size := ReadBigEndian 2 2 buffer 2 * 4). destruct (Z.ltb_spec (zlen buffer) (4 + size)); [done|].
  destruct (negb _).
  - destruct (size =? 0); [done|]. pose proof (byte_range (drop 4 buffer) ltac:(by apply Forall_drop) (size - 1)) as Hr.
    destruct (_ =? 0); [done|]. destruct (_ >? size); [done|]. intros [= <-]. cbn [payload payload_size]. split; [done|lia].
  - intros [= <-]. cbn [payload payload_size]. split; [done|lia].
Qed.

(** * Theorems *)

Definition StartFeedback (mem : list Z) (include : bool) (sender media base ref feedback_seq : Z) : TransportFeedback :=
  SetFeedbackSequenceNumber (SetBase (set_ssrcs (NewFeedback mem include) sender media) base ref) feedback_seq.

Lemma StartFeedback_ok mem include sender media base ref feedback_seq :
  length mem = 14%nat → uint16 base → fb_ok (StartFeedback mem include sender media base ref feedback_seq) [].
Proof. intros Hm Hb. destruct (fb_ok_base mem include base ref Hm Hb) as [H1 H2 H3 H4 H5 H6 H7 H8 H9]. by split. Qed.

Lemma base_ticks_range ref : 0 ≤ ref → 0 ≤ u32 (Z.quot (Z.rem ref kTimeWrapPeriod) kBaseTimeTick) < 2 ^ 24.
Proof.
  intros Hr. change kTimeWrapPeriod with (64000 * 2 ^ 24). change kBaseTimeTick with 64000.
  rewrite Z.rem_mod_nonneg by lia. pose proof (Z.mod_pos_bound ref (64000 * 2 ^ 24) ltac:(lia)) as Hm.
  rewrite Z.quot_div_nonneg by lia.
  assert (0 ≤ (ref `mod` (64000 * 2 ^ 24)) `div` 64000 < 2 ^ 24) as Hd by zdiv.
  rewrite u32_id by (unfold uint32; lia). exact Hd.
Qed.

(** Where the packet goes: behind what is in the buffer, or at the front after that was handed
    over; or nowhere. *)
Lemma make_room_spec packet position block max_length ready : 0 ≤ position → 0 < block →
  make_room 2 packet position block max_length ready =
    Some (if position + block <=? max_length then (position, ready, true)
          else if position =? 0 then (0, ready, false)
          else (0, ready ++ [take (Z.to_nat position) packet], block <=? max_length)).
Proof.
  intros Hp Hb. cbn [make_room]. rewrite Z.gtb_ltb. destruct (Z.ltb_spec max_length (position + block)).
  - destruct (Z.leb_spec (position + block) max_length); [lia|]. unfold OnBufferFull.
    destruct (Z.eqb_spec position 0) as [->|]; cbn [negb]; [done|]. rewrite Z.gtb_ltb, !Z.add_0_l.
    destruct (Z.ltb_spec max_length block); destruct (Z.leb_spec block max_length); try lia; done.
  - destruct (Z.leb_spec (position + block) max_length); [done|lia].
Qed.

Lemma received_none l : Forall canonical l → ∀ seq_no,
  bool_decide (packets_of seq_no l = []) = (sum_sizes l =? 0).
Proof.
  induction 1 as [|st l Hst Hl IH]; intros seq_no; [done|]. pose proof (sum_sizes_bound l Hl) as Hb.
  pose proof (canonical_size st Hst) as Hc. unfold sum_sizes in *. destruct st as [s t]. cbn [fst] in Hc.
  cbn [packets_of map fst sumz]. destruct (Z.gtb_spec s 0).
  - rewrite bool_decide_false by done. lia.
  - rewrite IH. replace s with 0 by lia. done.
Qed.

(** Two objects with the same report and session. *)
Lemma same_report fb fb' l : rep fb l → rep fb' l → uint16 (base_seq_no_ fb) → zlen l ≤ 0xffff →
  base_seq_no_ fb' = base_seq_no_ fb → base_time_ticks_ fb' = base_time_ticks_ fb →
  ForAllPackets fb' = ForAllPackets fb ∧ received_packets_ fb' = received_packets_ fb ∧
  num_seq_no_ fb' = num_seq_no_ fb ∧ last_timestamp_ fb' = last_timestamp_ fb ∧ BaseTime fb' = BaseTime fb.
Proof.
  intros H H' Hb Hl E1 E2. assert (BaseTime fb' = BaseTime fb) as Et by (unfold BaseTime; by rewrite E2).
  rewrite !(ForAllPackets_view _ l) by (rewrite ?E1; done).
  rewrite (rep_packets _ _ H), (rep_packets _ _ H'), (rep_num _ _ H), (rep_num _ _ H'), (rep_time _ _ H), (rep_time _ _ H').
  by rewrite E1, Et.
Qed.

Definition start_of (position block max_length : Z) : Z := if position + block <=? max_length then position else 0.

(** C8: Transport feedback round trips.  A report made of any packets that arrived is written as
    one RTCP packet of [BlockLength] bytes, behind what the buffer holds or, when it does not
    fit there, at its front after the rest was handed over; the rest of the buffer is left as
    it is.  What was written is parsed to an object with the same streams, base, sequence
    number, packets, times and size, whatever its array held before; it is consistent, and
    whether times are included is recognised unless no packet was received. *)
Theorem feedback_roundtrip mem mem' scratch include sender media base ref feedback_seq packets
    buffer position max_length ready :
  length mem = 14%nat → length mem' = 14%nat → length scratch = 14%nat →
  uint32 sender → uint32 media → uint16 base → 0 ≤ ref → uint8 feedback_seq →
  Forall (λ p, uint16 (fst p)) packets → 0 ≤ position → max_length ≤ zlen buffer →
  let fb := fst (add_all (StartFeedback mem include sender media base ref feedback_seq) packets) in
  let block := TransportFeedback_BlockLength fb in
  num_seq_no_ fb ≠ 0 → block ≤ max_length →
  let start := start_of position block max_length in
  ∃ bytes, zlen bytes = block ∧
    TransportFeedback_Create fb buffer position max_length ready =
      Some (store buffer start bytes, start + block,
            if position + block <=? max_length then ready else ready ++ [take (Z.to_nat position) buffer], true) ∧
    ∃ fb', TransportFeedback_ParseFrom mem' bytes block = Some (Some fb') ∧
      IsConsistent scratch fb' = true ∧ ForAllPackets fb' = ForAllPackets fb ∧
      received_packets_ fb' = received_packets_ fb ∧ num_seq_no_ fb' = num_seq_no_ fb ∧
      last_timestamp_ fb' = last_timestamp_ fb ∧ BaseTime fb' = BaseTime fb ∧
      fb_sender_ssrc fb' = sender ∧ fb_media_ssrc fb' = media ∧ base_seq_no_ fb' = base ∧
      feedback_seq_ fb' = feedback_seq ∧
      include_timestamps_ fb' = (include || bool_decide (received_packets_ fb = [])).
Proof.
  intros Hm Hm' Hs Hsnd Hmed Hb Href Hfs Hp Hpos Hmax fb block Hnum Hblock start.
  set (fb0 := StartFeedback mem include sender media base ref feedback_seq) in *.
  pose proof (add_all_ok packets fb0 [] (StartFeedback_ok _ _ _ _ _ _ _ Hm Hb) Hp) as HA.
  destruct (report_all _ _ _ _ _) as [l oks]. destruct HA as (fb1 & E & Hok & Hsess).
  assert (fb1 = fb) as -> by (unfold fb; by rewrite E). clear E.
  assert (fb_sender_ssrc fb = sender ∧ fb_media_ssrc fb = media ∧ base_seq_no_ fb = base ∧
    base_time_ticks_ fb = base_time_ticks_ fb0 ∧ feedback_seq_ fb = feedback_seq ∧ include_timestamps_ fb = include)
    as (S1 & S2 & S3 & S4 & S5 & S6) by (unfold session in Hsess; split_and!; by injection Hsess).
  assert (l ≠ []) as Hl by (intros ->; apply Hnum; apply Hok).
  assert (0 ≤ base_time_ticks_ fb < 2 ^ 24) as Ht by (rewrite S4; exact (base_ticks_range ref Href)).
  destruct (block_range fb l Hok) as (Hb1 & Hb2 & Hb3). fold block in Hb1, Hb2.
  exists (feedback_bytes fb). pose proof (feedback_bytes_length fb l Hok) as Lb. fold block in Lb. split; [done|]. split.
  - unfold TransportFeedback_Create. fold block. destruct (Z.eqb_spec (num_seq_no_ fb) 0); [done|].
    rewrite make_room_spec by lia. unfold start, start_of.
    assert (∀ i, 0 ≤ i → i + block ≤ max_length → write_feedback fb buffer i = (store buffer i (feedback_bytes fb), i + block)) as Hw.
    { intros i Hi Hib. rewrite (write_feedback_bytes fb l Hok buffer i) by (rewrite ?S5; fold block; done || lia).
      unfold at_pos. by rewrite Lb. }
    destruct (Z.leb_spec (position + block) max_length) as [Hfit|Hfit]; [by rewrite Hw by lia|].
    destruct (Z.eqb_spec position 0); [lia|]. destruct (Z.leb_spec block max_length); [|lia]. by rewrite Hw by lia.
  - destruct (ParseFrom_bytes fb l Hok Hl) with (mem := mem') as (fb' & EP & HR & HS); rewrite ?S1, ?S2, ?S5; try done.
    rewrite Lb in EP. exists fb'. split; [done|]. split; [by eapply rep_consistent|].
    unfold session in HS. rewrite S1, S2, S3, S5, S6 in HS.
    assert (fb_sender_ssrc fb' = sender ∧ fb_media_ssrc fb' = media ∧ base_seq_no_ fb' = base ∧
      base_time_ticks_ fb' = base_time_ticks_ fb ∧ feedback_seq_ fb' = feedback_seq ∧
      include_timestamps_ fb' = (include || (sum_sizes l =? 0)))
      as (T1 & T2 & T3 & T4 & T5 & T6) by (split_and!; by injection HS).
    destruct (same_report fb fb' l) as (R1 & R2 & R3 & R4 & R5);
      [by apply fb_ok_rep|done|by rewrite S3|apply Hok|by rewrite S3|done|].
    split_and!; try done. rewrite T6, (ok_packets _ _ Hok), received_none by apply Hok. done.
Qed.

Lemma feedback_roundtrip_witness :
  let fb := fst (add_all (StartFeedback (replicate 14 0) true 7 9 0xfffe 64000 3) [(0xfffe, 64100); (1, 1000000); (2, 900000)]) in
  ∃ bytes, zlen bytes = 28 ∧ ∃ fb', TransportFeedback_ParseFrom (replicate 14 1) bytes (TransportFeedback_BlockLength fb) = Some (Some fb') ∧
    IsConsistent (replicate 14 5) fb' = true ∧
    received_packets_ fb' = [MkDelta 0xfffe 0; MkDelta 1 3744; MkDelta 2 (-400)] ∧ num_seq_no_ fb' = 5.
Proof.
  intros fb.
  pose proof (feedback_roundtrip (replicate 14 0) (replicate 14 1) (replicate 14 5) true 7 9 0xfffe 64000 3
    [(0xfffe, 64100); (1, 1000000); (2, 900000)] (replicate 40 0) 20 40 [] eq_refl eq_refl eq_refl
    ltac:(cint) ltac:(cint) ltac:(cint) ltac:(lia) ltac:(cint) ltac:(repeat constructor; cbn; cint)
    ltac:(lia) ltac:(cbn; lia)) as H.
  fold fb in H. cbv zeta in H. specialize (H ltac:(vm_compute; discriminate) ltac:(vm_compute; discriminate)).
  destruct H as (bytes & H1 & _ & fb' & H3 & H4 & _ & H5 & H6 & _). exists bytes.
  split; [rewrite H1; vm_compute; reflexivity|]. exists fb'. split; [exact H3|]. split; [exact H4|].
  split; [rewrite H5; vm_compute; reflexivity|rewrite H6; vm_compute; reflexivity].
Defined.

(** C15: Parsing is safe.  [ParseFrom] ends on every buffer, and what it accepts is a consistent
    report of between one and 65535 packets that the packet had room for: the last byte read is
    inside the buffer, the chunks kept decode to the statuses, and [ForAllPackets] calls the
    handler for every packet. *)
Theorem ParseFrom_sound mem scratch buffer :
  length mem = 14%nat → length scratch = 14%nat → Forall uint8 buffer →
  match TransportFeedback_ParseFrom mem buffer (zlen buffer) with
  | None => False
  | Some None => True
  | Some (Some fb) =>
      IsConsistent scratch fb = true ∧ 1 ≤ num_seq_no_ fb ≤ kMaxReportedPackets ∧
      size_bytes_ fb ≤ zlen buffer ∧ zlen (ForAllPackets fb) = num_seq_no_ fb
  end.
Proof.
  intros Hm Hs Hu. unfold TransportFeedback_ParseFrom.
  destruct (CommonHeader_Parse NewHeader buffer (zlen buffer)) as [h ok] eqn:EH.
  destruct ok; cbn [negb]; [|done]. destruct (_ || _); [done|].
  assert (Forall uint8 (payload h) ∧ kHeaderLength + payload_size h ≤ zlen buffer) as [Hpu Hps].
  { destruct (CommonHeader_bounds NewHeader buffer h Hu EH) as [-> Hle]. split; [by apply Forall_drop|done]. }
  destruct (Parse_spec (NewFeedback mem true) h eq_refl Hm Hpu) as (fb & ok & -> & HP).
  destruct ok; cbn [negb]; [|done]. destruct (HP eq_refl) as (l & HR & Hl & Hb & Hsz).
  split; [by eapply rep_consistent|]. rewrite (rep_num _ _ HR). split; [exact Hl|]. split; [lia|].
  rewrite (ForAllPackets_view fb l Hb ltac:(lia) HR). clear. generalize (base_seq_no_ fb) 0.
  induction l as [|[s t] l IH]; intros b z; [done|]. cbn [report_view length]. specialize (IH (u16 (b + 1)) (z + t * kDeltaTick)). lia.
Qed.

Lemma ParseFrom_sound_witness :
  let buffer := [143; 205; 0; 5; 0; 0; 0; 1; 0; 0; 0; 2; 0; 9; 0; 1; 0; 0; 4; 3; 0x40; 1; 0; 5] in
  match TransportFeedback_ParseFrom (replicate 14 0) buffer (zlen buffer) with
  | None => False
  | Some None => True
  | Some (Some fb) =>
      IsConsistent (replicate 14 0) fb = true ∧ 1 ≤ num_seq_no_ fb ≤ kMaxReportedPackets ∧
      size_bytes_ fb ≤ zlen buffer ∧ zlen (ForAllPackets fb) = num_seq_no_ fb
  end.
Proof.
  apply (ParseFrom_sound (replicate 14 0) (replicate 14 0)); [reflexivity|reflexivity|].
  repeat constructor; cint.
Defined.

(** A delta of two bytes that would fit in one is accepted and the object is consistent, but
    [Create] writes one byte: it ends before the end it computed, and what it leaves is parsed
    to another time. *)
Lemma recreated_packet_differs :
  let buffer := [143; 205; 0; 5; 0; 0; 0; 1; 0; 0; 0; 2; 0; 9; 0; 1; 0; 0; 4; 3; 0x40; 1; 0; 5] in
  match TransportFeedback_ParseFrom (replicate 14 0) buffer 24 with
  | Some (Some fb) =>
      IsConsistent (replicate 14 0) fb = true ∧ received_packets_ fb = [MkDelta 9 5] ∧
      match TransportFeedback_Create fb (replicate 24 0) 0 24 [] with
      | Some (packet, position, _, ok) =>
          ok = true ∧ position = 23 ∧
          option_map (option_map received_packets_) (TransportFeedback_ParseFrom (replicate 14 0) packet 24) =
            Some (Some [MkDelta 9 1280])
      | None => False
      end
  | _ => False
  end.
Proof. vm_compute. done. Qed.

(** An object made without times that parses a packet with times keeps the flag but counts the
    bytes of the times. *)
Lemma parse_without_times_inconsistent :
  let buffer := [143; 205; 0; 5; 0; 0; 0; 1; 0; 0; 0; 2; 0; 9; 0; 1; 0; 0; 4; 3; 0x40; 1; 0; 5] in
  match TransportFeedback_Parse (NewFeedback (replicate 14 0) false) (fst (CommonHeader_Parse NewHeader buffer 24)) with
  | Some (fb, ok) => ok = true ∧ include_timestamps_ fb = false ∧ IsConsistent (replicate 14 0) fb = false
  | None => False
  end.
Proof. vm_compute. done. Qed.
