(* ===== verification/RtpExtensionMap.v ===== *)
(** The ids of RTP header extensions: modules/rtp_rtcp/source/rtp_header_extension_map.cc.

    A session negotiates an id for each type of header extension it uses.  The map keeps the id
    of every type in an array; the enumeration of types is its index.  The lemmas show that a
    map made by any calls gives an id to at most one type, so that [GetType] and [GetId] are
    inverse. *)
From stdpp Require Import strings.
From S2P Require Import Prelude.

(** * Definitions *)

Definition kRtpExtensionNone : Z := 0.
Definition kRtpExtensionTransmissionTimeOffset : Z := 1.
Definition kRtpExtensionAudioLevel : Z := 2.
Definition kRtpExtensionCsrcAudioLevel : Z := 3.
Definition kRtpExtensionInbandComfortNoise : Z := 4.
Definition kRtpExtensionAbsoluteSendTime : Z := 5.
Definition kRtpExtensionAbsoluteCaptureTime : Z := 6.
Definition kRtpExtensionVideoRotation : Z := 7.
Definition kRtpExtensionTransportSequenceNumber : Z := 8.
Definition kRtpExtensionTransportSequenceNumber02 : Z := 9.
Definition kRtpExtensionPlayoutDelay : Z := 10.
Definition kRtpExtensionVideoContentType : Z := 11.
Definition kRtpExtensionVideoLayersAllocation : Z := 12.
Definition kRtpExtensionVideoTiming : Z := 13.
Definition kRtpExtensionRtpStreamId : Z := 14.
Definition kRtpExtensionRepairedRtpStreamId : Z := 15.
Definition kRtpExtensionMid : Z := 16.
Definition kRtpExtensionGenericFrameDescriptor : Z := 17.
Definition kRtpExtensionDependencyDescriptor : Z := 18.
Definition kRtpExtensionColorSpace : Z := 19.
Definition kRtpExtensionVideoFrameTrackingId : Z := 20.
Definition kRtpExtensionCorruptionDetection : Z := 21.
Definition kRtpExtensionNumberOfExtensions : Z := 22.

(** [RtpExtension] of api/rtp_parameters.h. *)
Definition kMinId : Z := 1.
Definition kMaxId : Z := 255.
Definition kMaxValueSize : Z := 255.
Definition kOneByteHeaderExtensionMaxId : Z := 14.
Definition kOneByteHeaderExtensionMaxValueSize : Z := 16.

Definition kExtensions : list (Z * string) := [
  (kRtpExtensionTransmissionTimeOffset, "urn:ietf:params:rtp-hdrext:toffset");
  (kRtpExtensionAudioLevel, "urn:ietf:params:rtp-hdrext:ssrc-audio-level");
  (kRtpExtensionCsrcAudioLevel, "urn:ietf:params:rtp-hdrext:csrc-audio-level");
  (kRtpExtensionAbsoluteSendTime, "http://www.webrtc.org/experiments/rtp-hdrext/abs-send-time");
  (kRtpExtensionAbsoluteCaptureTime, "http://www.webrtc.org/experiments/rtp-hdrext/abs-capture-time");
  (kRtpExtensionVideoRotation, "urn:3gpp:video-orientation");
  (kRtpExtensionTransportSequenceNumber,
     "http://www.ietf.org/id/draft-holmer-rmcat-transport-wide-cc-extensions-01");
  (kRtpExtensionTransportSequenceNumber02, "http://www.webrtc.org/experiments/rtp-hdrext/transport-wide-cc-02");
  (kRtpExtensionPlayoutDelay, "http://www.webrtc.org/experiments/rtp-hdrext/playout-delay");
  (kRtpExtensionVideoContentType, "http://www.webrtc.org/experiments/rtp-hdrext/video-content-type");
  (kRtpExtensionVideoLayersAllocation, "http://www.webrtc.org/experiments/rtp-hdrext/video-layers-allocation00");
  (kRtpExtensionVideoTiming, "http://www.webrtc.org/experiments/rtp-hdrext/video-timing");
  (kRtpExtensionRtpStreamId, "urn:ietf:params:rtp-hdrext:sdes:rtp-stream-id");
  (kRtpExtensionRepairedRtpStreamId, "urn:ietf:params:rtp-hdrext:sdes:repaired-rtp-stream-id");
  (kRtpExtensionMid, "urn:ietf:params:rtp-hdrext:sdes:mid");
  (kRtpExtensionGenericFrameDescriptor, "http://www.webrtc.org/experiments/rtp-hdrext/generic-frame-descriptor-00");
  (kRtpExtensionDependencyDescriptor,
     "https://aomediacodec.github.io/av1-rtp-spec/#dependency-descriptor-rtp-header-extension");
  (kRtpExtensionColorSpace, "http://www.webrtc.org/experiments/rtp-hdrext/color-space");
  (kRtpExtensionInbandComfortNoise, "http://www.webrtc.org/experiments/rtp-hdrext/inband-cn");
  (kRtpExtensionVideoFrameTrackingId, "http://www.webrtc.org/experiments/rtp-hdrext/video-frame-tracking-id");
  (kRtpExtensionCorruptionDetection, "http://www.webrtc.org/experiments/rtp-hdrext/corruption-detection")
]%string.

Record RtpHeaderExtensionMap : Type := MkExtensionMap { ids_ : list Z; extmap_allow_mixed_ : bool }.

Definition kInvalidType : Z := kRtpExtensionNone.
Definition kInvalidId : Z := 0.

Definition NewExtensionMap (extmap_allow_mixed : bool) : RtpHeaderExtensionMap :=
  MkExtensionMap (replicate (Z.to_nat kRtpExtensionNumberOfExtensions) kInvalidId) extmap_allow_mixed.

Definition SetExtmapAllowMixed (m : RtpHeaderExtensionMap) (extmap_allow_mixed : bool) : RtpHeaderExtensionMap :=
  MkExtensionMap (ids_ m) extmap_allow_mixed.

Definition GetId (m : RtpHeaderExtensionMap) (type : Z) : Z := (ids_ m).[type].
Definition IsRegistered (m : RtpHeaderExtensionMap) (type : Z) : bool := negb (GetId m type =? kInvalidId).

(** [for (int type = ...; ...; ++type)], [n] turns being left. *)
Fixpoint get_type_loop (n : nat) (m : RtpHeaderExtensionMap) (type id : Z) : Z :=
  match n with
  | O => kInvalidType
  | S n => if (ids_ m).[type] =? id then type else get_type_loop n m (type + 1) id
  end.

Definition GetType (m : RtpHeaderExtensionMap) (id : Z) : Z :=
  get_type_loop (Z.to_nat (kRtpExtensionNumberOfExtensions - 1)) m (kRtpExtensionNone + 1) id.

Definition Register (m : RtpHeaderExtensionMap) (id type : Z) : RtpHeaderExtensionMap * bool :=
  if (id <? kMinId) || (id >? kMaxId) then (m, false)
  else
    let registered_type := GetType m id in
    if registered_type =? type then (m, true)
    else if negb (registered_type =? kInvalidType) then (m, false)
    else if IsRegistered m type then (m, false)
    else (MkExtensionMap (wr (ids_ m) type (u8 id)) (extmap_allow_mixed_ m), true).

Definition RegisterByType (m : RtpHeaderExtensionMap) (id type : Z) : RtpHeaderExtensionMap * bool :=
  match List.find (λ e, type =? fst e) kExtensions with
  | Some e => Register m id (fst e)
  | None => (m, false)
  end.

Definition RegisterByUri (m : RtpHeaderExtensionMap) (id : Z) (uri : string) : RtpHeaderExtensionMap * bool :=
  match List.find (λ e, bool_decide (uri = snd e)) kExtensions with
  | Some e => Register m id (fst e)
  | None => (m, false)
  end.

Definition Deregister (m : RtpHeaderExtensionMap) (uri : string) : RtpHeaderExtensionMap :=
  match List.find (λ e, bool_decide (snd e = uri)) kExtensions with
  | Some e => MkExtensionMap (wr (ids_ m) (fst e) kInvalidId) (extmap_allow_mixed_ m)
  | None => m
  end.

(** [Reset]: the extensions are ids with their URIs. *)
Definition ExtensionMap_Reset (m : RtpHeaderExtensionMap) (extensions : list (Z * string)) : RtpHeaderExtensionMap :=
  foldl (λ m '(id, uri), fst (RegisterByUri m id uri))
    (MkExtensionMap (map (λ _, kInvalidId) (ids_ m)) (extmap_allow_mixed_ m)) extensions.

(** * The invariant *)

Definition known_type (type : Z) : Prop := 0 < type < kRtpExtensionNumberOfExtensions.

Record map_ok (m : RtpHeaderExtensionMap) : Prop := {
  mo_length : zlen (ids_ m) = kRtpExtensionNumberOfExtensions;
  mo_range : ∀ t, known_type t → 0 ≤ GetId m t ≤ kMaxId;
  mo_unique : ∀ t t', known_type t → known_type t' → GetId m t = GetId m t' → GetId m t ≠ kInvalidId → t = t';
}.

Lemma get_type_loop_spec m id n : ∀ type, 0 < type → type + Z.of_nat n = kRtpExtensionNumberOfExtensions →
  let t := get_type_loop n m type id in
  (t = kInvalidType ∧ ∀ t', type ≤ t' < kRtpExtensionNumberOfExtensions → GetId m t' ≠ id) ∨
  (type ≤ t < kRtpExtensionNumberOfExtensions ∧ GetId m t = id).
Proof.
  induction n as [|n IH]; intros type Hpos Hn; cbn [get_type_loop].
  - left. split; [done|]. intros t' Ht. lia.
  - destruct (Z.eqb_spec ((ids_ m).[type]) id) as [E|Hne]; [right; split; [lia|done]|].
    destruct (IH (type + 1) ltac:(lia) ltac:(lia)) as [[E H]|[H E]].
    + left. split; [done|]. intros t' Ht. destruct (decide (t' = type)) as [->|]; [done|apply H; lia].
    + right. split; [lia|done].
Qed.

Lemma GetType_spec m id : (GetType m id = kInvalidType ∧ ∀ t, known_type t → GetId m t ≠ id) ∨
  (known_type (GetType m id) ∧ GetId m (GetType m id) = id).
Proof.
  change (GetType m id) with (get_type_loop 21 m 1 id).
  destruct (get_type_loop_spec m id 21 1 ltac:(lia) ltac:(done)) as [[E H]|[H E]].
  - left. split; [exact E|]. intros t Ht. apply H. unfold known_type in Ht. lia.
  - right. split; [unfold known_type; lia|exact E].
Qed.

(** [GetType] and [GetId] are inverse on what is registered. *)
Lemma GetType_GetId m t : map_ok m → known_type t → IsRegistered m t = true → GetType m (GetId m t) = t.
Proof.
  intros Hm Ht Hr. unfold IsRegistered in Hr. apply negb_true_iff, Z.eqb_neq in Hr.
  destruct (GetType_spec m (GetId m t)) as [[_ H]|[H E]]; [by destruct (H t Ht)|].
  apply (mo_unique m Hm); [done|done|done|]. by rewrite E.
Qed.

Lemma new_map_ok mixed : map_ok (NewExtensionMap mixed).
Proof.
  assert (∀ t, GetId (NewExtensionMap mixed) t = 0) as H0 by (intros t; apply rd_replicate_0).
  split; [done|intros t _; rewrite H0; done|]. intros t t' _ _ _ H. by rewrite H0 in H.
Qed.

Lemma wr_ids_ok m type id : map_ok m → known_type type → 0 ≤ id ≤ kMaxId →
  (∀ t, known_type t → id ≠ kInvalidId → GetId m t ≠ id) →
  map_ok (MkExtensionMap (wr (ids_ m) type id) (extmap_allow_mixed_ m)).
Proof.
  intros [H1 H2 H3] Ht Hid Hfree. unfold GetId in *. cbn [ids_].
  assert (∀ t, known_type t → (wr (ids_ m) type id).[t] = if t =? type then id else (ids_ m).[t]) as R.
  { intros t Hkt. destruct (Z.eqb_spec t type) as [->|]; [apply rd_wr_eq|by apply rd_wr_ne].
    unfold known_type in Ht. lia. }
  split; unfold GetId; cbn [ids_].
  - by rewrite wr_length.
  - intros t Hkt. rewrite R by done. destruct (t =? type); [done|by apply H2].
  - intros t t' Hkt Hkt'. rewrite !R by done.
    destruct (Z.eqb_spec t type), (Z.eqb_spec t' type); intros E Hne; subst; try done.
    + by destruct (Hfree t' Hkt' Hne).
    + by destruct (Hfree t Hkt Hne).
    + by apply H3.
Qed.

(** Registration on every branch. *)
Lemma Register_spec m id type : map_ok m → known_type type →
  let '(m', ok) := Register m id type in
  map_ok m' ∧ extmap_allow_mixed_ m' = extmap_allow_mixed_ m ∧
  (ok = true ↔ 1 ≤ id ≤ 255 ∧ (GetId m type = id ∨ (GetId m type = 0 ∧ ∀ t, known_type t → GetId m t ≠ id))) ∧
  (if ok then GetId m' type = id ∧ ∀ t, t ≠ type → GetId m' t = GetId m t else m' = m).
Proof.
  intros Hm Ht. unfold Register, kMinId, kMaxId.
  destruct ((id <? 1) || (id >? 255)) eqn:Er.
  { split_and!; try done. split; [done|]. lia. }
  assert (1 ≤ id ≤ 255) as Hid by lia.
  destruct (GetType_spec m id) as [[E H]|[H E]].
  - rewrite E. unfold kInvalidType, kRtpExtensionNone. pose proof Ht as Ht'. unfold known_type in Ht'.
    destruct (Z.eqb_spec 0 type); [lia|]. cbn [negb Z.eqb]. unfold IsRegistered, kInvalidId.
    destruct (Z.eqb_spec (GetId m type) 0) as [E0|Hne]; cbn [negb].
    + rewrite u8_id by (unfold uint8; lia). split.
      { apply wr_ids_ok; [done|done|unfold kMaxId; lia|by intros t Hkt _; apply H]. }
      split; [done|]. split; [split; [intros _; split; [done|by right]|done]|].
      unfold GetId. cbn [ids_]. split; [apply rd_wr_eq; rewrite (mo_length _ Hm); lia|].
      intros t Hne. by apply rd_wr_ne.
    + split_and!; try done. split; [done|]. intros [_ [E'|[E' _]]]; [by destruct (H type Ht)|lia].
  - destruct (Z.eqb_spec (GetType m id) type) as [Et|Hne].
    + rewrite Et in E. split_and!; try done. split; [|done]. intros _. split; [done|by left].
    + unfold kInvalidType, kRtpExtensionNone. pose proof H as H'. unfold known_type in H'.
      destruct (Z.eqb_spec (GetType m id) 0); [lia|]. cbn [negb]. split_and!; try done. split; [done|].
      intros [_ [E'|[_ Hfree]]]; [|by destruct (Hfree (GetType m id) H)].
      exfalso. apply Hne. apply (mo_unique m Hm); [done|done|congruence|rewrite E; unfold kInvalidId; lia].
Qed.

Lemma kExtensions_known : Forall (λ e, known_type (fst e)) kExtensions.
Proof. repeat constructor. Qed.

Lemma find_known f e : List.find f kExtensions = Some e → known_type (fst e).
Proof.
  intros H. apply List.find_some in H as [H _]. pose proof kExtensions_known as K.
  rewrite List.Forall_forall in K. by apply K.
Qed.

(** * Theorems *)

Inductive MapOp : Type :=
  | OpRegisterByType (id type : Z)
  | OpRegisterByUri (id : Z) (uri : string)
  | OpDeregister (uri : string)
  | OpReset (extensions : list (Z * string))
  | OpAllowMixed (extmap_allow_mixed : bool).

Definition apply_op (m : RtpHeaderExtensionMap) (op : MapOp) : RtpHeaderExtensionMap :=
  match op with
  | OpRegisterByType id type => fst (RegisterByType m id type)
  | OpRegisterByUri id uri => fst (RegisterByUri m id uri)
  | OpDeregister uri => Deregister m uri
  | OpReset extensions => ExtensionMap_Reset m extensions
  | OpAllowMixed mixed => SetExtmapAllowMixed m mixed
  end.

Lemma Register_ok m id type : map_ok m → known_type type → map_ok (fst (Register m id type)).
Proof.
  intros Hm Ht. pose proof (Register_spec m id type Hm Ht) as H. destruct (Register m id type) as [m' ok].
  by destruct H as [H _].
Qed.

Lemma RegisterByUri_ok m id uri : map_ok m → map_ok (fst (RegisterByUri m id uri)).
Proof.
  intros Hm. unfold RegisterByUri. destruct (List.find _ kExtensions) as [e|] eqn:E; [|done].
  apply Register_ok; [done|by eapply find_known].
Qed.

Lemma apply_op_ok m op : map_ok m → map_ok (apply_op m op).
Proof.
  intros Hm. destruct op as [id type|id uri|uri|extensions|mixed]; cbn [apply_op].
  - unfold RegisterByType. destruct (List.find _ kExtensions) as [e|] eqn:E; [|done].
    apply Register_ok; [done|by eapply find_known].
  - by apply RegisterByUri_ok.
  - unfold Deregister. destruct (List.find _ kExtensions) as [e|] eqn:E; [|done].
    apply wr_ids_ok; [done|by eapply find_known|done|done].
  - unfold ExtensionMap_Reset.
    assert (map_ok (MkExtensionMap (map (λ _, kInvalidId) (ids_ m)) (extmap_allow_mixed_ m))) as H0.
    { assert (∀ t, GetId (MkExtensionMap (map (λ _, kInvalidId) (ids_ m)) (extmap_allow_mixed_ m)) t = 0) as Hz.
      { intros t. unfold GetId. cbn [ids_]. unfold rd. destruct (t <? 0); [done|].
        generalize (Z.to_nat t). induction (ids_ m) as [|x l IH]; intros [|k]; cbn; [done|done|done|apply IH]. }
      split; [cbn [ids_]; rewrite length_map; apply Hm|intros t _; by rewrite Hz|].
      intros t t' _ _ _ H. by rewrite Hz in H. }
    revert H0. generalize (MkExtensionMap (map (λ _, kInvalidId) (ids_ m)) (extmap_allow_mixed_ m)).
    induction extensions as [|[id uri] extensions IH]; intros m0 H0; [done|]. cbn [foldl].
    apply IH. by apply RegisterByUri_ok.
  - destruct Hm as [H1 H2 H3]. by split.
Qed.

(** C18: The map of header extensions is one to one.  After any calls on a new map every id is
    given to at most one type, [GetType] and [GetId] are inverse on the registered types and
    [GetType] reports no type for an id that is not in use; a registration succeeds exactly for
    a valid id that the type has already, or that is free while the type has none. *)
Theorem extension_map_one_to_one mixed ops id type : known_type type →
  let m := foldl apply_op (NewExtensionMap mixed) ops in
  (IsRegistered m type = true → GetType m (GetId m type) = type ∧ 1 ≤ GetId m type ≤ 255) ∧
  (GetType m id = kInvalidType ↔ ∀ t, known_type t → GetId m t ≠ id) ∧
  let '(m', ok) := Register m id type in
  (ok = true ↔ 1 ≤ id ≤ 255 ∧ (GetId m type = id ∨ (GetId m type = 0 ∧ ∀ t, known_type t → GetId m t ≠ id))) ∧
  (if ok then GetId m' type = id ∧ ∀ t, t ≠ type → GetId m' t = GetId m t else m' = m).
Proof.
  intros Ht m. assert (map_ok m) as Hm.
  { subst m. generalize (new_map_ok mixed). generalize (NewExtensionMap mixed).
    induction ops as [|op ops IH]; intros m0 H0; [done|]. cbn [foldl]. apply IH. by apply apply_op_ok. }
  split; [|split].
  - intros Hr. split; [by apply GetType_GetId|]. pose proof (mo_range m Hm type Ht).
    unfold IsRegistered, kInvalidId, kMaxId in *. lia.
  - destruct (GetType_spec m id) as [[E H]|[H E]]; [tauto|]. split.
    + intros E'. unfold known_type in H. rewrite E' in H. unfold kInvalidType, kRtpExtensionNone in H. lia.
    + intros Hfree. by destruct (Hfree _ H).
  - pose proof (Register_spec m id type Hm Ht) as H. destruct (Register m id type) as [m' ok].
    by destruct H as (_ & _ & H).
Qed.

Lemma extension_map_one_to_one_witness :
  let ops := [OpRegisterByUri 3 "urn:ietf:params:rtp-hdrext:toffset"; OpRegisterByType 3 5; OpRegisterByType 4 5] in
  let m := foldl apply_op (NewExtensionMap true) ops in
  GetId m 1 = 3 ∧ GetId m 5 = 4 ∧ GetType m (GetId m 5) = 5.
Proof.
  intros ops m. split; [vm_compute; reflexivity|]. split; [vm_compute; reflexivity|].
  assert (known_type 5) as Hk by (unfold known_type, kRtpExtensionNumberOfExtensions; lia).
  destruct (extension_map_one_to_one true ops 4 5 Hk) as [H _].
  exact (proj1 (H ltac:(vm_compute; reflexivity))).
Defined.
