(* ===== verification/RtpPacket.v ===== *)
(** RTP packets: modules/rtp_rtcp/source/rtp_packet.cc with rtc_base/copy_on_write_buffer.cc.

    A packet keeps its fields, where its header extensions are, and the bytes.  The buffer is a
    block of memory, of which the first [buf_size] bytes are in use; the code also writes behind
    them, up to the capacity, before it sets the size.  A write or read outside the block is
    [OutOfBounds], a failed RTC_CHECK is [CheckFailed]; the operations are written in the monad
    of these outcomes.  Buffers shared between copies are copied before the first write, which
    keeps the bytes in use and leaves what is behind them indeterminate; as nothing below
    depends on the latter, every packet is modelled with a block of its own.  [mem] is what
    newly allocated memory holds. *)
From S2P Require Import Prelude ByteIo RtpExtensionMap.

(** * Outcomes *)

Inductive outcome (A : Type) : Type := Done (a : A) | OutOfBounds | CheckFailed | OutOfFuel.
Arguments Done {A} _.
Arguments OutOfBounds {A}.
Arguments CheckFailed {A}.
Arguments OutOfFuel {A}.

#[export] Instance outcome_ret : MRet outcome := @Done.
#[export] Instance outcome_bind : MBind outcome := λ A B f m,
  match m with
  | Done a => f a
  | OutOfBounds => OutOfBounds
  | CheckFailed => CheckFailed
  | OutOfFuel => OutOfFuel
  end.

(** Memory. *)
Definition in_mem (s : list Z) (off n : Z) : bool := (0 <=? off) && (off + n <=? zlen s).

Definition write_mem (s : list Z) (off : Z) (bs : list Z) : outcome (list Z) :=
  if in_mem s off (zlen bs) then Done (store s off bs) else OutOfBounds.
Definition read_mem (s : list Z) (off n : Z) : outcome (list Z) :=
  if in_mem s off n then Done (slice s off n) else OutOfBounds.
Definition write8 (s : list Z) (off v : Z) : outcome (list Z) := write_mem s off [u8 v].
Definition read8 (s : list Z) (off : Z) : outcome Z :=
  if in_mem s off 1 then Done (s.[off]) else OutOfBounds.
Definition write_be (B : Z) (s : list Z) (off v : Z) : outcome (list Z) :=
  if in_mem s off B then Done (WriteBigEndian B s off v) else OutOfBounds.
Definition get_be (B : Z) (s : list Z) (off : Z) : outcome Z :=
  if in_mem s off B then Done (ReadBigEndian B B s off) else OutOfBounds.

(** * Buffers *)

Record CopyOnWriteBuffer : Type := MkBuffer { storage : list Z; buf_size : Z }.

Definition buf_capacity (b : CopyOnWriteBuffer) : Z := zlen (storage b).

(** Memory from [mem], enough to make [n] bytes of [used]. *)
Definition extend (mem : Z → Z) (used : list Z) (n : Z) : list Z :=
  used ++ map mem (seqZ (zlen used) (n - zlen used)).

Definition NewBuffer (mem : Z → Z) (size : Z) : CopyOnWriteBuffer := MkBuffer (extend mem [] size) size.

Definition SetSize (mem : Z → Z) (b : CopyOnWriteBuffer) (size : Z) : CopyOnWriteBuffer :=
  if size <=? buf_size b then MkBuffer (storage b) size
  else if Z.max (buf_capacity b) size <=? buf_capacity b then MkBuffer (storage b) size
  else MkBuffer (extend mem (take (Z.to_nat (buf_size b)) (storage b)) (Z.max (buf_capacity b) size)) size.

(** [SetData], with [BufferT::EnsureCapacityWithHeadroom]. *)
Definition SetData (mem : Z → Z) (b : CopyOnWriteBuffer) (data : list Z) : CopyOnWriteBuffer :=
  let size := zlen data in
  if size <=? buf_capacity b then MkBuffer (data ++ drop (length data) (storage b)) size
  else MkBuffer (extend mem data (Z.max size (buf_capacity b + buf_capacity b `div` 2))) size.

(** * Packets *)

Definition kFixedHeaderSize : Z := 12.
Definition kRtpVersion : Z := 2.
Definition kOneByteExtensionProfileId : Z := 0xBEDE.
Definition kTwoByteExtensionProfileId : Z := 0x1000.
Definition kTwobyteExtensionProfileIdAppBitsFilter : Z := 0xfff0.
Definition kOneByteExtensionHeaderLength : Z := 1.
Definition kTwoByteExtensionHeaderLength : Z := 2.
Definition kDefaultPacketSize : Z := 1500.

Record ExtensionInfo : Type := MkInfo { ext_id : Z; ext_length : Z; ext_offset : Z }.

Record RtpPacket : Type := MkRtp {
  marker_ : bool; payload_type_ : Z; padding_size_ : Z; sequence_number_ : Z; timestamp_ : Z; ssrc_ : Z;
  payload_offset_ : Z; payload_size_ : Z; extensions_ : RtpHeaderExtensionMap;
  extension_entries_ : list ExtensionInfo; extensions_size_ : Z; buffer_ : CopyOnWriteBuffer;
}.

Definition set_fields (p : RtpPacket) (marker : bool) (payload_type sequence_number timestamp ssrc : Z) : RtpPacket :=
  MkRtp marker payload_type (padding_size_ p) sequence_number timestamp ssrc (payload_offset_ p)
    (payload_size_ p) (extensions_ p) (extension_entries_ p) (extensions_size_ p) (buffer_ p).

Definition set_layout (p : RtpPacket) (payload_offset payload_size padding_size : Z) : RtpPacket :=
  MkRtp (marker_ p) (payload_type_ p) padding_size (sequence_number_ p) (timestamp_ p) (ssrc_ p) payload_offset
    payload_size (extensions_ p) (extension_entries_ p) (extensions_size_ p) (buffer_ p).

Definition set_entries (p : RtpPacket) (entries : list ExtensionInfo) (size : Z) : RtpPacket :=
  MkRtp (marker_ p) (payload_type_ p) (padding_size_ p) (sequence_number_ p) (timestamp_ p) (ssrc_ p)
    (payload_offset_ p) (payload_size_ p) (extensions_ p) entries size (buffer_ p).

Definition set_buffer (p : RtpPacket) (b : CopyOnWriteBuffer) : RtpPacket :=
  MkRtp (marker_ p) (payload_type_ p) (padding_size_ p) (sequence_number_ p) (timestamp_ p) (ssrc_ p)
    (payload_offset_ p) (payload_size_ p) (extensions_ p) (extension_entries_ p) (extensions_size_ p) b.

Definition IdentifyExtensions (p : RtpPacket) (extensions : RtpHeaderExtensionMap) : RtpPacket :=
  MkRtp (marker_ p) (payload_type_ p) (padding_size_ p) (sequence_number_ p) (timestamp_ p) (ssrc_ p)
    (payload_offset_ p) (payload_size_ p) extensions (extension_entries_ p) (extensions_size_ p) (buffer_ p).

Definition bytes (p : RtpPacket) : list Z := storage (buffer_ p).
Definition set_bytes (p : RtpPacket) (s : list Z) : RtpPacket := set_buffer p (MkBuffer s (buf_size (buffer_ p))).

Definition capacity (p : RtpPacket) : Z := buf_capacity (buffer_ p).
Definition size (p : RtpPacket) : Z := payload_offset_ p + payload_size_ p + padding_size_ p.
Definition headers_size (p : RtpPacket) : Z := payload_offset_ p.

(** [payload()] and the bytes of the packet. *)
Definition payload (p : RtpPacket) : list Z := slice (bytes p) (payload_offset_ p) (payload_size_ p).
Definition packet_bytes (p : RtpPacket) : list Z := take (Z.to_nat (buf_size (buffer_ p))) (bytes p).

Definition WriteAt (p : RtpPacket) (off v : Z) : outcome RtpPacket :=
  s ← write8 (bytes p) off v; Done (set_bytes p s).
Definition WriteBytesAt (p : RtpPacket) (off : Z) (bs : list Z) : outcome RtpPacket :=
  s ← write_mem (bytes p) off bs; Done (set_bytes p s).
Definition WriteIntAt (B : Z) (p : RtpPacket) (off v : Z) : outcome RtpPacket :=
  s ← write_be B (bytes p) off v; Done (set_bytes p s).

Section packet.
Context (mem : Z → Z).

Definition BufferSetSize (p : RtpPacket) (n : Z) : RtpPacket := set_buffer p (SetSize mem (buffer_ p) n).

Definition Clear (p : RtpPacket) : outcome RtpPacket :=
  let p := set_entries (set_layout (set_fields p false 0 0 0 0) kFixedHeaderSize 0 0) [] 0 in
  p ← WriteBytesAt p 0 (replicate (Z.to_nat kFixedHeaderSize) 0);
  let p := BufferSetSize p kFixedHeaderSize in
  WriteAt p 0 (kRtpVersion ≪ 6).

Definition NewRtpPacket (extensions : RtpHeaderExtensionMap) (capacity : Z) : outcome RtpPacket :=
  Clear (MkRtp false 0 0 0 0 0 0 0 extensions [] 0 (NewBuffer mem capacity)).

(** ** Header *)

Definition SetMarker (p : RtpPacket) (marker_bit : bool) : outcome RtpPacket :=
  let p := set_fields p marker_bit (payload_type_ p) (sequence_number_ p) (timestamp_ p) (ssrc_ p) in
  b ← read8 (bytes p) 1;
  if marker_bit then WriteAt p 1 (Z.lor b 0x80) else WriteAt p 1 (Z.land b 0x7F).

Definition SetPayloadType (p : RtpPacket) (payload_type : Z) : outcome RtpPacket :=
  let p := set_fields p (marker_ p) payload_type (sequence_number_ p) (timestamp_ p) (ssrc_ p) in
  b ← read8 (bytes p) 1;
  WriteAt p 1 (Z.lor (Z.land b 0x80) payload_type).

Definition SetSequenceNumber (p : RtpPacket) (seq_no : Z) : outcome RtpPacket :=
  WriteIntAt 2 (set_fields p (marker_ p) (payload_type_ p) seq_no (timestamp_ p) (ssrc_ p)) 2 seq_no.
Definition SetTimestamp (p : RtpPacket) (timestamp : Z) : outcome RtpPacket :=
  WriteIntAt 4 (set_fields p (marker_ p) (payload_type_ p) (sequence_number_ p) timestamp (ssrc_ p)) 4 timestamp.
Definition SetSsrc (p : RtpPacket) (ssrc : Z) : outcome RtpPacket :=
  WriteIntAt 4 (set_fields p (marker_ p) (payload_type_ p) (sequence_number_ p) (timestamp_ p) ssrc) 8 ssrc.

Fixpoint write_csrcs (p : RtpPacket) (offset : Z) (csrcs : list Z) : outcome RtpPacket :=
  match csrcs with
  | [] => Done p
  | csrc :: csrcs => p ← WriteIntAt 4 p offset csrc; write_csrcs p (offset + 4) csrcs
  end.

Definition SetCsrcs (p : RtpPacket) (csrcs : list Z) : outcome RtpPacket :=
  let p := set_layout p (kFixedHeaderSize + 4 * zlen csrcs) (payload_size_ p) (padding_size_ p) in
  b ← read8 (bytes p) 0;
  p ← WriteAt p 0 (Z.lor (Z.land b 0xF0) (u8 (zlen csrcs)));
  p ← write_csrcs p kFixedHeaderSize csrcs;
  Done (BufferSetSize p (payload_offset_ p)).

Fixpoint read_csrcs (n : nat) (s : list Z) (offset : Z) : outcome (list Z) :=
  match n with
  | O => Done []
  | S n => c ← get_be 4 s offset; cs ← read_csrcs n s (offset + 4); Done (c :: cs)
  end.

Definition Csrcs (p : RtpPacket) : outcome (list Z) :=
  b ← read8 (bytes p) 0;
  read_csrcs (Z.to_nat (Z.land b 0x0F)) (bytes p) kFixedHeaderSize.

Definition CopyHeaderFrom (p packet : RtpPacket) : RtpPacket :=
  MkRtp (marker_ packet) (payload_type_ packet) 0 (sequence_number_ packet) (timestamp_ packet) (ssrc_ packet)
    (payload_offset_ packet) 0 (extensions_ packet) (extension_entries_ packet) (extensions_size_ packet)
    (MkBuffer (bytes packet) (headers_size packet)).

(** ** Payload and padding *)

Definition SetPayloadSize (p : RtpPacket) (size_bytes : Z) : RtpPacket :=
  let p := set_layout p (payload_offset_ p) size_bytes (padding_size_ p) in
  BufferSetSize p (payload_offset_ p + payload_size_ p).

Definition AllocatePayload (p : RtpPacket) (size_bytes : Z) : RtpPacket :=
  SetPayloadSize (SetPayloadSize p 0) size_bytes.

Definition SetPadding (p : RtpPacket) (padding_bytes : Z) : outcome (RtpPacket * bool) :=
  if payload_offset_ p + payload_size_ p + padding_bytes >? capacity p then Done (p, false)
  else
    let p := set_layout p (payload_offset_ p) (payload_size_ p) (u8 padding_bytes) in
    let p := BufferSetSize p (payload_offset_ p + payload_size_ p + padding_size_ p) in
    if padding_size_ p >? 0 then
      let padding_offset := payload_offset_ p + payload_size_ p in
      let padding_end := padding_offset + padding_size_ p in
      p ← WriteBytesAt p padding_offset (replicate (Z.to_nat (padding_size_ p - 1)) 0);
      p ← WriteAt p (padding_end - 1) (padding_size_ p);
      b ← read8 (bytes p) 0;
      p ← WriteAt p 0 (Z.lor b 0x20);
      Done (p, true)
    else
      b ← read8 (bytes p) 0;
      p ← WriteAt p 0 (Z.land b (Z.lnot 0x20));
      Done (p, true).

(** ** Header extensions *)

Fixpoint find_info (entries : list ExtensionInfo) (id : Z) : option ExtensionInfo :=
  match entries with
  | [] => None
  | e :: entries => if ext_id e =? id then Some e else find_info entries id
  end.

Definition FindExtensionInfo (p : RtpPacket) (id : Z) : option ExtensionInfo := find_info (extension_entries_ p) id.

(** An array view into the buffer: its offset and length. *)
Definition view : Type := Z * Z.

Definition SetExtensionLengthMaybeAddZeroPadding (p : RtpPacket) (extensions_offset : Z)
  : outcome (RtpPacket * Z) :=
  let extensions_words := u16 ((extensions_size_ p + 3) `div` 4) in
  p ← WriteIntAt 2 p (extensions_offset - 2) extensions_words;
  let extension_padding_size := 4 * extensions_words - extensions_size_ p in
  p ← WriteBytesAt p (extensions_offset + extensions_size_ p) (replicate (Z.to_nat extension_padding_size) 0);
  Done (p, u16 (4 * extensions_words)).

(** The size in the header, and the payload behind. *)
Definition finish_extensions (p : RtpPacket) (extensions_offset : Z) : outcome RtpPacket :=
  '(p, extensions_size_padded) ← SetExtensionLengthMaybeAddZeroPadding p extensions_offset;
  let p := set_layout p (extensions_offset + extensions_size_padded) (payload_size_ p) (padding_size_ p) in
  Done (BufferSetSize p (payload_offset_ p)).

(** The loop over the entries from the last to the first; [rev_entries] is reversed, the result
    is not. *)
Fixpoint promote_loop (rev_entries : list ExtensionInfo) (write_read_delta : Z) (s : list Z)
    (done : list ExtensionInfo) : outcome (list Z * list ExtensionInfo) :=
  match rev_entries with
  | [] => Done (s, done)
  | e :: rev_entries =>
      let read_index := ext_offset e in
      let write_index := read_index + write_read_delta in
      data ← read_mem s read_index (ext_length e);
      s ← write_mem s write_index data;
      s ← write8 s (write_index - 1) (ext_length e);
      s ← write8 s (write_index - 2) (ext_id e);
      promote_loop rev_entries (write_read_delta - 1) s
        (MkInfo (ext_id e) (ext_length e) (u16 write_index) :: done)
  end.

Definition PromoteToTwoByteHeaderExtension (p : RtpPacket) : outcome RtpPacket :=
  b ← read8 (bytes p) 0;
  let num_csrc := Z.land b 0x0F in
  let extensions_offset := kFixedHeaderSize + num_csrc * 4 + 4 in
  if negb (zlen (extension_entries_ p) >? 0) || negb (payload_size_ p =? 0) then CheckFailed
  else
    profile ← get_be 2 (bytes p) (extensions_offset - 4);
    if negb (kOneByteExtensionProfileId =? profile) then CheckFailed
    else
      '(s, entries) ← promote_loop (rev (extension_entries_ p)) (zlen (extension_entries_ p)) (bytes p) [];
      let p := set_entries (set_bytes p s) entries (extensions_size_ p) in
      p ← WriteIntAt 2 p (extensions_offset - 4) kTwoByteExtensionProfileId;
      let p := set_entries p (extension_entries_ p) (extensions_size_ p + zlen (extension_entries_ p)) in
      finish_extensions p extensions_offset.

(** The header of one extension behind the others. *)
Definition write_extension_header (p : RtpPacket) (profile_id extensions_offset id length : Z) : outcome RtpPacket :=
  if profile_id =? kOneByteExtensionProfileId then
    let one_byte_header := Z.lor (u8 (u8 id ≪ 4)) (u8 (length - 1)) in
    WriteAt p (extensions_offset + extensions_size_ p) one_byte_header
  else
    p ← WriteAt p (extensions_offset + extensions_size_ p) (u8 id);
    WriteAt p (extensions_offset + extensions_size_ p + 1) (u8 length).

(** From [const size_t extension_header_size] on. *)
Definition append_extension (p : RtpPacket) (num_csrc extensions_offset profile_id id length : Z)
  : outcome (RtpPacket * option view) :=
  let extension_header_size := if profile_id =? kOneByteExtensionProfileId
                               then kOneByteExtensionHeaderLength else kTwoByteExtensionHeaderLength in
  let new_extensions_size := extensions_size_ p + extension_header_size + length in
  if extensions_offset + new_extensions_size >? capacity p then Done (p, None)
  else
    p ← (if extensions_size_ p =? 0 then
           b ← read8 (bytes p) 0;
           p ← WriteAt p 0 (Z.lor b 0x10);
           WriteIntAt 2 p (extensions_offset - 4) profile_id
         else Done p);
    p ← write_extension_header p profile_id extensions_offset id length;
    let extension_info_offset := u16 (extensions_offset + extensions_size_ p + extension_header_size) in
    let extension_info_length := u8 length in
    let p := set_entries p (extension_entries_ p ++ [MkInfo (u8 id) extension_info_length extension_info_offset])
               new_extensions_size in
    p ← finish_extensions p extensions_offset;
    Done (p, Some (extension_info_offset, extension_info_length)).

Definition AllocateRawExtension (p : RtpPacket) (id length : Z) : outcome (RtpPacket * option view) :=
  match FindExtensionInfo p id with
  | Some e =>
      if ext_length e =? length then Done (p, Some (ext_offset e, length)) else Done (p, None)
  | None =>
      if payload_size_ p >? 0 then Done (p, None)
      else if padding_size_ p >? 0 then Done (p, None)
      else
        b ← read8 (bytes p) 0;
        let num_csrc := Z.land b 0x0F in
        let extensions_offset := kFixedHeaderSize + num_csrc * 4 + 4 in
        let two_byte_header_required :=
          (id >? kOneByteHeaderExtensionMaxId) || (length >? kOneByteHeaderExtensionMaxValueSize) ||
          (length =? 0) in
        if two_byte_header_required && negb (extmap_allow_mixed_ (extensions_ p)) then CheckFailed
        else if extensions_size_ p >? 0 then
          profile_id ← get_be 2 (bytes p) (extensions_offset - 4);
          if (profile_id =? kOneByteExtensionProfileId) && two_byte_header_required then
            let expected_new_extensions_size :=
              extensions_size_ p + zlen (extension_entries_ p) + kTwoByteExtensionHeaderLength + length in
            if extensions_offset + expected_new_extensions_size >? capacity p then Done (p, None)
            else
              p ← PromoteToTwoByteHeaderExtension p;
              append_extension p num_csrc extensions_offset kTwoByteExtensionProfileId id length
          else append_extension p num_csrc extensions_offset profile_id id length
        else
          let profile_id := if two_byte_header_required then kTwoByteExtensionProfileId
                            else kOneByteExtensionProfileId in
          append_extension p num_csrc extensions_offset profile_id id length
  end.

Definition AllocateExtension (p : RtpPacket) (type length : Z) : outcome (RtpPacket * option view) :=
  if (length =? 0) || (length >? kMaxValueSize) ||
     (negb (extmap_allow_mixed_ (extensions_ p)) && (length >? kOneByteHeaderExtensionMaxValueSize))
  then Done (p, None)
  else
    let id := GetId (extensions_ p) type in
    if id =? kInvalidId then Done (p, None)
    else if negb (extmap_allow_mixed_ (extensions_ p)) && (id >? kOneByteHeaderExtensionMaxId) then Done (p, None)
    else AllocateRawExtension p id length.

(** The bytes of the view; [None] is the empty view. *)
Definition FindExtension (p : RtpPacket) (type : Z) : option (list Z) :=
  let id := GetId (extensions_ p) type in
  if id =? kInvalidId then None
  else
    match FindExtensionInfo p id with
    | None => None
    | Some e => Some (slice (bytes p) (ext_offset e) (ext_length e))
    end.

Definition HasExtension (p : RtpPacket) (type : Z) : bool :=
  let id := GetId (extensions_ p) type in
  if id =? kInvalidId then false
  else match FindExtensionInfo p id with None => false | Some _ => true end.

(** [SetRawExtension] *)
Definition SetRawExtension (p : RtpPacket) (type : Z) (data : list Z) : outcome (RtpPacket * bool) :=
  '(p, v) ← AllocateExtension p type (zlen data);
  match v with
  | None => Done (p, false)
  | Some (off, n) => if n =? 0 then Done (p, false) else p ← WriteBytesAt p off data; Done (p, true)
  end.

Definition kPacerExitDeltaOffset : Z := 7.

Fixpoint zero_loop (p : RtpPacket) (entries : list ExtensionInfo) : outcome RtpPacket :=
  match entries with
  | [] => Done p
  | e :: entries =>
      let type := GetType (extensions_ p) (ext_id e) in
      if type =? kRtpExtensionVideoTiming then
        if kPacerExitDeltaOffset <? ext_length e then
          p ← WriteBytesAt p (ext_offset e + kPacerExitDeltaOffset)
                (replicate (Z.to_nat (ext_length e - kPacerExitDeltaOffset)) 0);
          zero_loop p entries
        else zero_loop p entries
      else if (type =? kRtpExtensionTransportSequenceNumber) ||
              (type =? kRtpExtensionTransportSequenceNumber02) ||
              (type =? kRtpExtensionTransmissionTimeOffset) || (type =? kRtpExtensionAbsoluteSendTime) then
        p ← WriteBytesAt p (ext_offset e) (replicate (Z.to_nat (ext_length e)) 0);
        zero_loop p entries
      else zero_loop p entries
  end.

Definition ZeroMutableExtensions (p : RtpPacket) : outcome RtpPacket := zero_loop p (extension_entries_ p).

(** The loop of [RemoveExtension]: the new packet, or [None] if an extension did not fit, and
    whether the extension was found. *)
Fixpoint copy_extensions (old : list Z) (entries : list ExtensionInfo) (id_to_remove : Z)
    (new_packet : RtpPacket) (found_extension : bool) : outcome (option RtpPacket * bool) :=
  match entries with
  | [] => Done (Some new_packet, found_extension)
  | e :: entries =>
      if ext_id e =? id_to_remove then copy_extensions old entries id_to_remove new_packet true
      else
        '(new_packet, v) ← AllocateRawExtension new_packet (ext_id e) (ext_length e);
        let '(off, n) := match v with Some v => v | None => (0, 0) end in
        if negb (n =? ext_length e) then Done (None, found_extension)
        else
          data ← read_mem old (ext_offset e) (ext_length e);
          new_packet ← WriteBytesAt new_packet off data;
          copy_extensions old entries id_to_remove new_packet found_extension
  end.

Definition RemoveExtension (p : RtpPacket) (type : Z) : outcome (RtpPacket * bool) :=
  let id_to_remove := GetId (extensions_ p) type in
  if id_to_remove =? kInvalidId then Done (p, false)
  else
    new_packet ← NewRtpPacket (NewExtensionMap false) kDefaultPacketSize;
    new_packet ← SetMarker new_packet (marker_ p);
    new_packet ← SetPayloadType new_packet (payload_type_ p);
    new_packet ← SetSequenceNumber new_packet (sequence_number_ p);
    new_packet ← SetTimestamp new_packet (timestamp_ p);
    new_packet ← SetSsrc new_packet (ssrc_ p);
    let new_packet := IdentifyExtensions new_packet (extensions_ p) in
    '(copied, found_extension) ← copy_extensions (bytes p) (extension_entries_ p) id_to_remove new_packet false;
    match copied with
    | None => Done (p, false)
    | Some new_packet =>
        if negb found_extension then Done (p, false)
        else
          new_packet ← (if payload_size_ p >? 0 then
                          let new_packet := AllocatePayload new_packet (payload_size_ p) in
                          WriteBytesAt new_packet (payload_offset_ new_packet) (payload p)
                        else Done (SetPayloadSize new_packet 0));
          '(new_packet, _) ← SetPadding new_packet (padding_size_ p);
          Done (new_packet, true)
    end.

(** ** Parsing *)

Fixpoint update_info (entries : list ExtensionInfo) (e : ExtensionInfo) : list ExtensionInfo :=
  match entries with
  | [] => [e]
  | e' :: entries => if ext_id e' =? ext_id e then e :: entries else e' :: update_info entries e
  end.

(** [FindOrCreateExtensionInfo]: the entries and the one found. *)
Definition FindOrCreateExtensionInfo (entries : list ExtensionInfo) (id : Z) : list ExtensionInfo * ExtensionInfo :=
  match find_info entries id with
  | Some e => (entries, e)
  | None => (entries ++ [MkInfo (u8 id) 0 0], MkInfo (u8 id) 0 0)
  end.

(** The loop over the extensions; every turn takes at least one byte. *)
Fixpoint parse_extensions (fuel : nat) (buffer : list Z) (one_byte : bool)
    (extension_offset extensions_capacity extensions_size : Z) (entries : list ExtensionInfo)
  : outcome (Z * list ExtensionInfo) :=
  match fuel with
  | O => OutOfFuel
  | S fuel =>
      let extension_header_length := if one_byte then kOneByteExtensionHeaderLength
                                     else kTwoByteExtensionHeaderLength in
      if extensions_size + extension_header_length <? extensions_capacity then
        b ← read8 buffer (extension_offset + extensions_size);
        if b =? 0 then
          parse_extensions fuel buffer one_byte extension_offset extensions_capacity (extensions_size + 1) entries
        else
          '(id, length) ← (if one_byte then Done (b ≫ 4, 1 + Z.land b 0xf)
                           else b1 ← read8 buffer (extension_offset + extensions_size + 1); Done (b, b1));
          if one_byte && ((id =? 15) || ((id =? 0) && negb (length =? 1))) then Done (extensions_size, entries)
          else if extensions_size + extension_header_length + length >? extensions_capacity
          then Done (extensions_size, entries)
          else
            let '(entries, info) := FindOrCreateExtensionInfo entries id in
            let offset := extension_offset + extensions_size + extension_header_length in
            if offset >? 65535 then Done (extensions_size, entries)
            else
              parse_extensions fuel buffer one_byte extension_offset extensions_capacity
                (extensions_size + extension_header_length + length)
                (update_info entries (MkInfo (ext_id info) length (u16 offset)))
      else Done (extensions_size, entries)
  end.

(** The padding and the payload. *)
Definition parse_padding (p : RtpPacket) (buffer : list Z) (has_padding : bool) : outcome (RtpPacket * bool) :=
  let size := zlen buffer in
  '(p, ok) ← (if has_padding && (payload_offset_ p <? size) then
                padding ← read8 buffer (size - 1);
                let p := set_layout p (payload_offset_ p) (payload_size_ p) padding in
                Done (p, negb (padding =? 0))
              else Done (set_layout p (payload_offset_ p) (payload_size_ p) 0, true));
  if negb ok then Done (p, false)
  else if payload_offset_ p + padding_size_ p >? size then Done (p, false)
  else Done (set_layout p (payload_offset_ p) (size - payload_offset_ p - padding_size_ p) (padding_size_ p), true).

Definition ParseBuffer (p : RtpPacket) (buffer : list Z) : outcome (RtpPacket * bool) :=
  let size := zlen buffer in
  if size <? kFixedHeaderSize then Done (p, false)
  else
    b0 ← read8 buffer 0;
    let version := b0 ≫ 6 in
    if negb (version =? kRtpVersion) then Done (p, false)
    else
      let has_padding := negb (Z.land b0 0x20 =? 0) in
      let has_extension := negb (Z.land b0 0x10 =? 0) in
      let number_of_crcs := Z.land b0 0x0f in
      b1 ← read8 buffer 1;
      seq_no ← get_be 2 buffer 2;
      timestamp ← get_be 4 buffer 4;
      ssrc ← get_be 4 buffer 8;
      let p := set_fields p (negb (Z.land b1 0x80 =? 0)) (Z.land b1 0x7f) seq_no timestamp ssrc in
      if size <? kFixedHeaderSize + number_of_crcs * 4 then Done (p, false)
      else
        let p := set_layout p (kFixedHeaderSize + number_of_crcs * 4) (payload_size_ p) (padding_size_ p) in
        let p := set_entries p [] 0 in
        if has_extension then
          let extension_offset := payload_offset_ p + 4 in
          if extension_offset >? size then Done (p, false)
          else
            profile ← get_be 2 buffer (payload_offset_ p);
            extensions_words ← get_be 2 buffer (payload_offset_ p + 2);
            let extensions_capacity := extensions_words * 4 in
            if extension_offset + extensions_capacity >? size then Done (p, false)
            else
              '(extensions_size, entries) ←
                (if negb (profile =? kOneByteExtensionProfileId) &&
                    negb (Z.land profile kTwobyteExtensionProfileIdAppBitsFilter =? kTwoByteExtensionProfileId)
                 then Done (0, [])
                 else parse_extensions (S (Z.to_nat extensions_capacity)) buffer
                        (profile =? kOneByteExtensionProfileId) extension_offset extensions_capacity 0 []);
              let p := set_entries p entries extensions_size in
              parse_padding (set_layout p (extension_offset + extensions_capacity) (payload_size_ p) (padding_size_ p))
                buffer has_padding
        else parse_padding p buffer has_padding.

Definition Parse (p : RtpPacket) (buffer : list Z) : outcome (RtpPacket * bool) :=
  '(p, ok) ← ParseBuffer p buffer;
  if negb ok then p ← Clear p; Done (p, false)
  else Done (set_buffer p (SetData mem (buffer_ p) buffer), true).

(** [Parse] of a buffer that the packet takes over. *)
Definition ParseMove (p : RtpPacket) (buffer : CopyOnWriteBuffer) : outcome (RtpPacket * bool) :=
  '(p, ok) ← ParseBuffer p (take (Z.to_nat (buf_size buffer)) (storage buffer));
  if negb ok then p ← Clear p; Done (p, false) else Done (set_buffer p buffer, true).

End packet.
