(* ===== verification/RtpWire.v ===== *)
(** Parsing RTP packets: [ParseBuffer] and [Parse] of modules/rtp_rtcp/source/rtp_packet.cc.

    The lemmas show that no sequence of bytes makes the parser read outside the buffer, and
    what holds of the packets it accepts. *)
From S2P Require Import Prelude ByteIo Rtcp RtpExtensionMap RtpPacket.

(** * Reads and writes inside the block *)

Lemma in_mem_true s off n : 0 ≤ off → off + n ≤ zlen s → in_mem s off n = true.
Proof. intros. unfold in_mem. destruct_cmp; try lia; done. Qed.

Lemma read8_done s off : 0 ≤ off < zlen s → read8 s off = Done (s.[off]).
Proof. intros. unfold read8. rewrite in_mem_true by lia. done. Qed.

Lemma read_mem_done s off n : 0 ≤ off → off + n ≤ zlen s → read_mem s off n = Done (slice s off n).
Proof. intros. unfold read_mem. rewrite in_mem_true by lia. done. Qed.

Lemma write_mem_done s off bs : 0 ≤ off → off + zlen bs ≤ zlen s → write_mem s off bs = Done (store s off bs).
Proof. intros. unfold write_mem. rewrite in_mem_true by lia. done. Qed.

Lemma get_be_done B s off : 1 ≤ B → Forall uint8 s → 0 ≤ off → off + B ≤ zlen s →
  get_be B s off = Done (be_value (slice s off B)).
Proof. intros. unfold get_be. rewrite in_mem_true by lia. by rewrite ReadBigEndian_value by (done || lia). Qed.

Lemma write_be_done B s off v : 1 ≤ B → 0 ≤ off → off + B ≤ zlen s →
  write_be B s off v = Done (store s off (be_bytes (Z.to_nat B) v)).
Proof. intros. unfold write_be. rewrite in_mem_true by lia. by rewrite WriteBigEndian_store by lia. Qed.

Lemma be_slice_range B s off : Forall uint8 s → 0 ≤ B → 0 ≤ off → off + B ≤ zlen s →
  0 ≤ be_value (slice s off B) < 2 ^ (8 * B).
Proof.
  intros Hs HB Ho Hl. pose proof (be_value_bound (slice s off B)) as H.
  rewrite slice_length in H by lia. rewrite pow256 in H. rewrite Z2Nat.id in H by lia.
  apply H. unfold slice. by apply Forall_take, Forall_drop.
Qed.

Lemma rd_uint8 s i : Forall uint8 s → 0 ≤ s.[i] ≤ 255.
Proof. intros Hs. apply (rd_Forall uint8); [done|unfold uint8; lia]. Qed.

(** * The loop over the header extensions *)

(** An entry of a packet with the extensions at [base], [cap] bytes. *)
Record info_ok (base cap : Z) (e : ExtensionInfo) : Prop := {
  io_id : uint8 (ext_id e);
  io_length : uint8 (ext_length e);
  io_offset : uint16 (ext_offset e);
  io_end : ext_offset e + ext_length e ≤ base + cap;
  io_base : ext_length e = 0 ∨ base ≤ ext_offset e;
}.

Lemma find_info_id entries id e : find_info entries id = Some e → ext_id e = id ∧ e ∈ entries.
Proof.
  induction entries as [|e' entries IH]; cbn [find_info]; [done|].
  destruct (Z.eqb_spec (ext_id e') id); [intros [= ->]; split; [done|left]|].
  intros H. destruct (IH H). split; [done|by right].
Qed.

Lemma find_info_None entries id : find_info entries id = None → id ∉ ext_id <$> entries.
Proof.
  induction entries as [|e' entries IH]; cbn [find_info fmap list_fmap]; intros H; [apply not_elem_of_nil|].
  destruct (Z.eqb_spec (ext_id e') id); [done|]. apply not_elem_of_cons. split; [congruence|by apply IH].
Qed.

Lemma update_info_ids entries e : ext_id e ∈ ext_id <$> entries →
  ext_id <$> update_info entries e = ext_id <$> entries.
Proof.
  induction entries as [|e' entries IH]; intros H; [by apply elem_of_nil in H|]. cbn [update_info].
  destruct (Z.eqb_spec (ext_id e') (ext_id e)) as [E|Hne]; cbn [fmap list_fmap]; [by rewrite E|].
  f_equal. apply IH. cbn [fmap list_fmap] in H. apply elem_of_cons in H as [H|H]; [by rewrite H in Hne|done].
Qed.

Lemma update_info_Forall P entries e : P e → Forall P entries → Forall P (update_info entries e).
Proof.
  intros He. induction 1 as [|e' entries He' H IH]; cbn [update_info]; [by repeat constructor|].
  destruct (ext_id e' =? ext_id e); by constructor.
Qed.

Definition entries_ok (base cap : Z) (entries : list ExtensionInfo) : Prop :=
  NoDup (ext_id <$> entries) ∧ Forall (info_ok base cap) entries.

Lemma entries_ok_nil base cap : entries_ok base cap [].
Proof. split; constructor. Qed.

Lemma find_or_create_ok base cap entries id : 0 ≤ base + cap → uint8 id → entries_ok base cap entries →
  let '(entries', e) := FindOrCreateExtensionInfo entries id in
  entries_ok base cap entries' ∧ ext_id e = id ∧ id ∈ ext_id <$> entries'.
Proof.
  intros Hc Hid [Hn Hf]. unfold FindOrCreateExtensionInfo. destruct (find_info entries id) as [e|] eqn:E.
  - destruct (find_info_id _ _ _ E) as [E' Hin]. split; [by split|]. split; [done|].
    rewrite <- E'. by apply list_elem_of_fmap_2.
  - rewrite u8_id by done. split; [|split; [done|rewrite fmap_app; apply elem_of_app; right; left]].
    apply find_info_None in E. split.
    + rewrite fmap_app. apply list.NoDup_app. split; [done|]. split; [|apply NoDup_singleton].
      intros x Hx Hx'. apply list_elem_of_singleton in Hx' as ->. done.
    + apply Forall_app_2; [done|]. constructor; [|done].
      split; cbn [ext_id ext_length ext_offset]; [done|unfold uint8; lia|unfold uint16; lia|lia|by left].
Qed.

Lemma update_info_ok base cap entries e : ext_id e ∈ ext_id <$> entries → info_ok base cap e →
  entries_ok base cap entries → entries_ok base cap (update_info entries e).
Proof.
  intros Hin He [Hn Hf]. split; [by rewrite update_info_ids|by apply update_info_Forall].
Qed.

Lemma nibbles b : 0 ≤ b ≤ 255 → 0 ≤ b ≫ 4 ≤ 15 ∧ 0 ≤ Z.land b 0xf ≤ 15.
Proof.
  intros Hb. rewrite Z.shiftr_div_pow2 by lia. pose proof (Z.land_ones b 4 ltac:(lia)) as E.
  change (Z.ones 4) with 15 in E. rewrite E. change (2 ^ 4) with 16. zdiv.
Qed.

(** The loop ends within the fuel, reads inside the block, and records entries that lie in it. *)
Lemma parse_extensions_safe buffer one_byte off cap fuel : ∀ sz entries,
  Forall uint8 buffer → 0 ≤ off → off + cap ≤ zlen buffer → 0 ≤ sz ≤ cap → cap - sz < Z.of_nat fuel →
  entries_ok off cap entries →
  ∃ sz' entries', parse_extensions fuel buffer one_byte off cap sz entries = Done (sz', entries') ∧
    sz ≤ sz' ≤ cap ∧ entries_ok off cap entries'.
Proof.
  induction fuel as [|fuel IH]; intros sz entries Hu Ho Hc Hsz Hf He; [lia|]. cbn [parse_extensions].
  set (hl := if one_byte then kOneByteExtensionHeaderLength else kTwoByteExtensionHeaderLength).
  assert (1 ≤ hl ≤ 2 ∧ (one_byte = false → hl = 2)) as [Hhl Hhl2] by (destruct one_byte; unfold hl; by cbv).
  destruct (Z.ltb_spec (sz + hl) cap); [|exists sz, entries; split; [done|]; split; [lia|done]].
  rewrite (read8_done buffer (off + sz)) by lia. cbn [mbind outcome_bind].
  pose proof (rd_uint8 buffer (off + sz) Hu) as Hb. set (b := buffer.[off + sz]) in *.
  destruct (Z.eqb_spec b 0).
  { destruct (IH (sz + 1) entries) as (sz' & entries' & E & H1 & H2); try done; try lia.
    exists sz', entries'. split; [done|]. split; [lia|done]. }
  assert (∃ id len, (if one_byte then Done (b ≫ 4, 1 + Z.land b 15)
    else b1 ← read8 buffer (off + sz + 1); Done (b, b1)) = Done (id, len) ∧ uint8 id ∧ uint8 len) as
    (id & len & -> & Hid & Hlen).
  { destruct one_byte.
    - destruct (nibbles b ltac:(lia)). exists (b ≫ 4), (1 + Z.land b 15). unfold uint8. split; [done|lia].
    - rewrite Hhl2 in * by done. rewrite read8_done by lia. cbn [mbind outcome_bind].
      exists b, (buffer.[off + sz + 1]). split; [done|]. split; [unfold uint8; lia|by apply rd_uint8]. }
  cbn [mbind outcome_bind]. destruct (one_byte && _); [exists sz, entries; split; [done|]; split; [lia|done]|].
  rewrite Z.gtb_ltb. destruct (Z.ltb_spec cap (sz + hl + len)); [exists sz, entries; split; [done|]; split; [lia|done]|].
  pose proof (find_or_create_ok off cap entries id ltac:(lia) Hid He) as Hfc.
  destruct (FindOrCreateExtensionInfo entries id) as [entries1 info]. destruct Hfc as (He1 & Ei & Hin).
  rewrite Z.gtb_ltb. destruct (Z.ltb_spec 65535 (off + sz + hl)); [exists sz, entries1; split; [done|]; split; [lia|done]|].
  pose proof Hlen as Hlen'. unfold uint8 in Hlen'.
  destruct (IH (sz + hl + len) (update_info entries1 (MkInfo (ext_id info) len (u16 (off + sz + hl)))))
    as (sz' & entries' & E & Hz1 & Hz2); try done; try lia.
  - apply update_info_ok; cbn [ext_id]; [by rewrite Ei| |done].
    rewrite u16_id by (unfold uint16; lia).
    split; cbn [ext_id ext_length ext_offset]; [by rewrite Ei|done|unfold uint16; lia|lia|right; lia].
  - exists sz', entries'. split; [done|]. split; [lia|done].
Qed.

(** * Every buffer is parsed *)

(** What holds of a packet parsed from [buffer]. *)
Record parsed (buffer : list Z) (p : RtpPacket) : Prop := {
  pa_size : size p = zlen buffer;
  pa_headers : 12 + 4 * Z.land (buffer.[0]) 0xf ≤ headers_size p;
  pa_payload : 0 ≤ payload_size_ p;
  pa_padding : uint8 (padding_size_ p);
  pa_type : 0 ≤ payload_type_ p ≤ 127;
  pa_seq : uint16 (sequence_number_ p);
  pa_timestamp : uint32 (timestamp_ p);
  pa_ssrc : uint32 (ssrc_ p);
  pa_entries : let base := 16 + 4 * Z.land (buffer.[0]) 0xf in
    entries_ok base (headers_size p - base) (extension_entries_ p);
}.

Lemma parse_padding_safe p buffer has_padding : Forall uint8 buffer → 0 ≤ payload_offset_ p ≤ zlen buffer →
  ∃ p' ok, parse_padding p buffer has_padding = Done (p', ok) ∧
    p' = set_layout p (payload_offset_ p) (payload_size_ p') (padding_size_ p') ∧
    (ok = true → size p' = zlen buffer ∧ 0 ≤ payload_size_ p' ∧ uint8 (padding_size_ p')).
Proof.
  intros Hu Ho. unfold parse_padding.
  assert (∀ pad, uint8 pad → ∃ p' ok, (if payload_offset_ p + pad >? zlen buffer
    then Done (set_layout p (payload_offset_ p) (payload_size_ p) pad, false)
    else Done (set_layout p (payload_offset_ p) (zlen buffer - payload_offset_ p - pad) pad, true)) = Done (p', ok) ∧
    p' = set_layout p (payload_offset_ p) (payload_size_ p') (padding_size_ p') ∧
    (ok = true → size p' = zlen buffer ∧ 0 ≤ payload_size_ p' ∧ uint8 (padding_size_ p'))) as Hend.
  { intros pad Hpad. rewrite Z.gtb_ltb. destruct (Z.ltb_spec (zlen buffer) (payload_offset_ p + pad)).
    - eexists _, _. split; [done|]. split; [done|done].
    - eexists _, _. split; [done|]. split; [done|]. intros _. unfold size.
      cbn [payload_offset_ payload_size_ padding_size_ set_layout]. split_and!; [lia|lia|done]. }
  destruct (has_padding && _) eqn:E.
  - rewrite read8_done by lia. cbn [mbind outcome_bind]. pose proof (rd_uint8 buffer (zlen buffer - 1) Hu).
    destruct (_ =? 0); cbn [negb].
    + eexists _, _. split; [done|]. split; [done|done].
    + cbn [payload_offset_ payload_size_ padding_size_ set_layout]. apply Hend. done.
  - cbn [mbind outcome_bind negb]. apply (Hend 0). unfold uint8. lia.
Qed.

Lemma land_15_range b : 0 ≤ Z.land b 15 ≤ 15.
Proof.
  pose proof (Z.land_ones b 4 ltac:(lia)) as E. change (Z.ones 4) with 15 in E. rewrite E.
  change (2 ^ 4) with 16. zdiv.
Qed.

Lemma ParseBuffer_safe p buffer : Forall uint8 buffer →
  ∃ p' ok, ParseBuffer p buffer = Done (p', ok) ∧ buffer_ p' = buffer_ p ∧ extensions_ p' = extensions_ p ∧
    (ok = true → parsed buffer p').
Proof.
  intros Hu. unfold ParseBuffer, kFixedHeaderSize, kRtpVersion.
  destruct (Z.ltb_spec (zlen buffer) 12); [by exists p, false|].
  rewrite !read8_done by lia. cbn [mbind outcome_bind].
  destruct (negb _); [by exists p, false|]. cbn [mbind outcome_bind].
  rewrite !get_be_done by (done || lia). cbn [mbind outcome_bind].
  pose proof (be_slice_range 2 buffer 2 Hu ltac:(lia) ltac:(lia) ltac:(lia)) as Hseq.
  pose proof (be_slice_range 4 buffer 4 Hu ltac:(lia) ltac:(lia) ltac:(lia)) as Hts.
  pose proof (be_slice_range 4 buffer 8 Hu ltac:(lia) ltac:(lia) ltac:(lia)) as Hssrc.
  set (seq := be_value (slice buffer 2 2)) in *. set (ts := be_value (slice buffer 4 4)) in *.
  set (ssrc := be_value (slice buffer 8 4)) in *.
  set (marker := negb (Z.land (buffer.[1]) 128 =? 0)).
  pose proof (land_15_range (buffer.[0])) as Hcc. set (cc := Z.land (buffer.[0]) 15) in *.
  destruct (Z.ltb_spec (zlen buffer) (12 + cc * 4)); [by eexists _, false|].
  set (has_padding := negb (Z.land (buffer.[0]) 32 =? 0)).
  assert (0 ≤ Z.land (buffer.[1]) 127 ≤ 127) as Hpt.
  { pose proof (Z.land_ones (buffer.[1]) 7 ltac:(lia)) as E. change (Z.ones 7) with 127 in E. rewrite E.
    change (2 ^ 7) with 128. zdiv. }
  assert (∀ p1 off entries, 12 + cc * 4 ≤ off ≤ zlen buffer → entries_ok (16 + 4 * cc) (off - (16 + 4 * cc)) entries →
    buffer_ p1 = buffer_ p → extensions_ p1 = extensions_ p → payload_offset_ p1 = off → extension_entries_ p1 = entries →
    payload_type_ p1 = Z.land (buffer.[1]) 127 → sequence_number_ p1 = seq → timestamp_ p1 = ts → ssrc_ p1 = ssrc →
    ∃ p' ok, parse_padding p1 buffer has_padding = Done (p', ok) ∧ buffer_ p' = buffer_ p ∧
      extensions_ p' = extensions_ p ∧ (ok = true → parsed buffer p')) as Hend.
  { intros p1 off entries Ho He E1 E2 E3 E4 E5 E6 E7 E8.
    destruct (parse_padding_safe p1 buffer has_padding Hu ltac:(lia)) as (p' & ok & -> & Ep & Hok).
    exists p', ok. split; [done|]. rewrite Ep. split; [done|]. split; [done|]. intros ->.
    destruct (Hok eq_refl) as (Hs & Hps & Hpad).
    split; unfold size, headers_size in *; cbn [payload_offset_ payload_size_ padding_size_ payload_type_
      sequence_number_ timestamp_ ssrc_ extension_entries_ set_layout].
    1: rewrite <- Hs, Ep; done. 1: fold cc; lia. 1: done. 1: done. 1: by rewrite E5.
    1: rewrite E6; unfold uint16; lia. 1: rewrite E7; unfold uint32; lia. 1: rewrite E8; unfold uint32; lia.
    cbv zeta. fold cc. by rewrite E3, E4. }
  destruct (negb (Z.land (buffer.[0]) 16 =? 0)).
  2: { apply (Hend _ (12 + cc * 4) []); try done; (lia || apply entries_ok_nil). }
  cbn [payload_offset_ set_layout set_entries set_fields]. rewrite Z.gtb_ltb.
  destruct (Z.ltb_spec (zlen buffer) (12 + cc * 4 + 4)); [by eexists _, false|].
  rewrite !get_be_done by (done || lia). cbn [mbind outcome_bind].
  set (profile := be_value (slice buffer (12 + cc * 4) 2)).
  pose proof (be_slice_range 2 buffer (12 + cc * 4 + 2) Hu ltac:(lia) ltac:(lia) ltac:(lia)) as Hw.
  set (words := be_value (slice buffer (12 + cc * 4 + 2) 2)) in *. rewrite Z.gtb_ltb.
  destruct (Z.ltb_spec (zlen buffer) (12 + cc * 4 + 4 + words * 4)); [by eexists _, false|].
  assert (∃ sz entries, (if negb (profile =? kOneByteExtensionProfileId) &&
      negb (Z.land profile kTwobyteExtensionProfileIdAppBitsFilter =? kTwoByteExtensionProfileId) then Done (0, [])
    else parse_extensions (S (Z.to_nat (words * 4))) buffer (profile =? kOneByteExtensionProfileId)
      (12 + cc * 4 + 4) (words * 4) 0 []) = Done (sz, entries) ∧
    entries_ok (12 + cc * 4 + 4) (words * 4) entries) as (sz & entries & -> & He).
  { destruct (negb _ && _); [exists 0, []; split; [done|apply entries_ok_nil]|].
    destruct (parse_extensions_safe buffer (profile =? kOneByteExtensionProfileId) (12 + cc * 4 + 4) (words * 4)
      (S (Z.to_nat (words * 4))) 0 [] Hu) as (sz & entries & -> & _ & He); try lia; [apply entries_ok_nil|].
    by exists sz, entries. }
  cbn [mbind outcome_bind]. apply (Hend _ (12 + cc * 4 + 4 + words * 4) entries); try done; [lia|].
  replace (16 + 4 * cc) with (12 + cc * 4 + 4) by lia.
  by replace (12 + cc * 4 + 4 + words * 4 - (12 + cc * 4 + 4)) with (words * 4) by lia.
Qed.

(** * The buffer behind a packet *)

Lemma in_mem_app l k off n : off + n ≤ zlen l → in_mem (l ++ k) off n = in_mem l off n.
Proof. intros. unfold in_mem. rewrite zlen_app. destruct_cmp; try lia; done. Qed.

(** What is read from the bytes in use does not depend on those behind. *)
Lemma get_be_app B l k off : B = 2 ∨ B = 4 → off + B ≤ zlen l → get_be B (l ++ k) off = get_be B l off.
Proof.
  intros HB Hl. unfold get_be. rewrite in_mem_app by done. destruct (in_mem l off B); [|done]. f_equal.
  destruct HB as [-> | ->]; unfold ReadBigEndian; cbn [Z.eqb Pos.eqb].
  - unfold ReadBigEndian_2. by rewrite !rd_app_l by lia.
  - unfold ReadBigEndian_4, GetShl, Get. by rewrite !rd_app_l by lia.
Qed.

Lemma read8_app l k off : off < zlen l → read8 (l ++ k) off = read8 l off.
Proof. intros. unfold read8. rewrite in_mem_app, rd_app_l by lia. done. Qed.

Lemma read_csrcs_app n l k : ∀ off, off + 4 * Z.of_nat n ≤ zlen l → read_csrcs n (l ++ k) off = read_csrcs n l off.
Proof.
  induction n as [|n IH]; intros off H; [done|]. cbn [read_csrcs].
  rewrite get_be_app by lia. destruct (get_be 4 l off); [|done..]. cbn [mbind outcome_bind]. by rewrite IH by lia.
Qed.

Lemma read_csrcs_done n s : ∀ off, Forall uint8 s → 0 ≤ off → off + 4 * Z.of_nat n ≤ zlen s →
  ∃ cs, read_csrcs n s off = Done cs ∧ length cs = n ∧ Forall uint32 cs.
Proof.
  induction n as [|n IH]; intros off Hs Ho H; [by exists []|]. cbn [read_csrcs].
  rewrite get_be_done by (done || lia). cbn [mbind outcome_bind].
  destruct (IH (off + 4) Hs ltac:(lia) ltac:(lia)) as (cs & -> & Hl & Hf). cbn [mbind outcome_bind].
  eexists. split; [done|]. split; [by cbn; rewrite Hl|]. constructor; [|done].
  pose proof (be_slice_range 4 s off Hs). unfold uint32. lia.
Qed.

Lemma SetData_bytes mem b data : ∃ rest, storage (SetData mem b data) = data ++ rest ∧
  buf_size (SetData mem b data) = zlen data.
Proof.
  unfold SetData. destruct (_ <=? _); cbn [storage buf_size]; [by eexists|]. unfold extend. by eexists.
Qed.

Lemma SetSize_fits mem b n : n ≤ buf_capacity b → SetSize mem b n = MkBuffer (storage b) n.
Proof.
  intros H. unfold SetSize. destruct (n <=? buf_size b); [done|].
  destruct (Z.leb_spec (Z.max (buf_capacity b) n) (buf_capacity b)); [done|lia].
Qed.

Definition cleared_bytes : list Z := 0x80 :: replicate 11 0.

Lemma store_0 (l src : list Z) : store l 0 src = src ++ drop (length src) l.
Proof. done. Qed.

Lemma Clear_spec mem p : 12 ≤ capacity p →
  Clear mem p = Done (MkRtp false 0 0 0 0 0 12 0 (extensions_ p) [] 0
    (MkBuffer (cleared_bytes ++ drop 12 (bytes p)) 12)).
Proof.
  intros H. unfold Clear, kFixedHeaderSize, WriteBytesAt. unfold capacity, buf_capacity in H.
  rewrite write_mem_done by (rewrite ?length_replicate; unfold bytes; cbn [buffer_ set_entries set_layout set_fields]; lia).
  cbn [mbind outcome_bind]. rewrite store_0, length_replicate.
  unfold BufferSetSize, set_bytes, WriteAt, write8, bytes, set_buffer.
  cbn [buffer_ set_entries set_layout set_fields storage buf_size].
  rewrite SetSize_fits by (unfold buf_capacity; cbn [storage]; rewrite length_app, length_replicate; lia).
  cbn [buffer_ set_entries set_layout set_fields storage buf_size].
  rewrite write_mem_done by (rewrite ?length_app, ?length_replicate; cbn; lia). done.
Qed.

(** * Theorems on parsing *)

(** C11: Parsing is safe on every input.  On any bytes, [Parse] ends without reading or writing
    outside of a buffer.  If it rejects them the packet is cleared: an empty packet of version 2
    and nothing else.  If it accepts them the packet holds the bytes; its headers, payload and
    padding make up exactly the buffer; every field is in the range of its type, the CSRCs can
    be read, and every recorded extension has its own id and lies between the extension header
    and the payload. *)
Theorem rtp_parse_safe mem p buffer : 12 ≤ capacity p → Forall uint8 buffer →
  ∃ p' ok, Parse mem p buffer = Done (p', ok) ∧ extensions_ p' = extensions_ p ∧
    (if ok then
       packet_bytes p' = buffer ∧ parsed buffer p' ∧
       ∃ csrcs, Csrcs p' = Done csrcs ∧ zlen csrcs = Z.land (buffer.[0]) 0xf ∧ Forall uint32 csrcs
     else
       packet_bytes p' = cleared_bytes ∧ size p' = 12 ∧ marker_ p' = false ∧ payload_type_ p' = 0 ∧
       sequence_number_ p' = 0 ∧ timestamp_ p' = 0 ∧ ssrc_ p' = 0 ∧ payload_size_ p' = 0 ∧
       padding_size_ p' = 0 ∧ extension_entries_ p' = [] ∧ extensions_size_ p' = 0).
Proof.
  intros Hc Hu. unfold Parse. destruct (ParseBuffer_safe p buffer Hu) as (p1 & ok & -> & Eb & Ee & Hok).
  cbn [mbind outcome_bind]. destruct ok; cbn [negb].
  - specialize (Hok eq_refl). eexists _, true. split; [done|]. split; [done|].
    destruct (SetData_bytes mem (buffer_ p1) buffer) as (rest & Es & Ez).
    unfold packet_bytes, Csrcs, bytes. cbn [buffer_ set_buffer]. rewrite Es, Ez. split_and!.
    + by apply take_prefix.
    + by destruct Hok; split.
    + pose proof Hok as [Hsz Hh Hp Hpad _ _ _ _ _]. unfold uint8, size, headers_size in *.
      pose proof (land_15_range (buffer.[0])) as Hcc. rewrite read8_app, read8_done by lia. cbn [mbind outcome_bind].
      unfold kFixedHeaderSize. rewrite read_csrcs_app by lia.
      destruct (read_csrcs_done (Z.to_nat (Z.land (buffer.[0]) 15)) buffer 12) as (cs & -> & El & Hf);
        try done; try lia. exists cs. split; [done|]. split; [lia|done].
  - rewrite Clear_spec by (unfold capacity; by rewrite Eb). cbn [mbind outcome_bind].
    eexists _, false. split; [done|]. split; [done|]. done.
Qed.

Lemma rtp_parse_safe_witness :
  let buffer := [0x90; 0xE0; 0; 1; 0; 0; 0; 2; 0; 0; 0; 3; 0xBE; 0xDE; 0; 1; 0x11; 7; 8; 0; 42] in
  match NewRtpPacket (λ _, 0) (NewExtensionMap false) 12 with
  | Done p => ∃ p' ok, Parse (λ _, 0) p buffer = Done (p', ok) ∧ packet_bytes p' = buffer ∧ size p' = 21
  | _ => False
  end.
Proof.
  intros buffer. destruct (NewRtpPacket _ _ 12) as [p| | |] eqn:E; vm_compute in E; [|done..].
  injection E as <-.
  match goal with |- context [Parse _ ?p _] => set (q := p) end.
  assert (Forall uint8 buffer) as Hu by (unfold buffer; repeat (constructor; [unfold uint8; lia|]); constructor).
  destruct (rtp_parse_safe (λ _, 0) q buffer ltac:(done) Hu) as (p' & ok & E & _ & H).
  exists p', ok. split; [exact E|]. vm_compute in E. injection E as _ <-. destruct H as (H & [Hs _ _ _ _ _ _ _ _] & _).
  split; [exact H|exact Hs].
Defined.
