(* ===== verification/RtpEncode.v ===== *)
(** The wire format of RTP packets: the contents of a packet, their encoding, and that
    [ParseBuffer] of modules/rtp_rtcp/source/rtp_packet.cc inverts it.

    The encoding is the specification of what is built by the operations of RtpPacket; it
    follows RFC 3550 and, for the header extensions, RFC 8285 with one- and two-byte headers. *)
From S2P Require Import Prelude ByteIo Rtcp RtpExtensionMap RtpPacket RtpWire.

(** * Contents and their encoding *)

(** The extensions are pairs of an id and the data. *)
Record Content : Type := MkContent {
  c_marker : bool; c_type : Z; c_seq : Z; c_time : Z; c_ssrc : Z; c_csrcs : list Z;
  c_two_byte : bool; c_exts : list (Z * list Z); c_payload : list Z; c_padding : Z;
}.

Definition ext_hlen (two_byte : bool) : Z := if two_byte then 2 else 1.
Definition ext_header (two_byte : bool) (id len : Z) : list Z :=
  if two_byte then [id; len] else [id * 16 + (len - 1)].
Definition ext_bytes (two_byte : bool) (e : Z * list Z) : list Z := ext_header two_byte e.1 (zlen e.2) ++ e.2.
Definition exts_bytes (two_byte : bool) (es : list (Z * list Z)) : list Z := flat_map (ext_bytes two_byte) es.

(** The length in words, and the bytes that fill the last word. *)
Definition words (n : Z) : Z := (n + 3) `div` 4.
Definition fill4 (n : Z) : list Z := replicate (Z.to_nat (4 * words n - n)) 0.

Definition profile (two_byte : bool) : Z := if two_byte then 0x1000 else 0xBEDE.

Definition ext_block (two_byte : bool) (es : list (Z * list Z)) : list Z :=
  match es with
  | [] => []
  | _ => let bs := exts_bytes two_byte es in
         be_bytes 2 (profile two_byte) ++ be_bytes 2 (words (zlen bs)) ++ bs ++ fill4 (zlen bs)
  end.

Definition has_exts (es : list (Z * list Z)) : bool := match es with [] => false | _ => true end.

Definition byte0 (padding exts : bool) (csrcs : Z) : Z :=
  128 + (if padding then 32 else 0) + (if exts then 16 else 0) + csrcs.
Definition byte1 (marker : bool) (type : Z) : Z := (if marker then 128 else 0) + type.

Definition fixed_bytes (c : Content) : list Z :=
  [byte0 (0 <? c_padding c) (has_exts (c_exts c)) (zlen (c_csrcs c)); byte1 (c_marker c) (c_type c)]
  ++ be_bytes 2 (c_seq c) ++ be_bytes 4 (c_time c) ++ be_bytes 4 (c_ssrc c).

Definition csrc_bytes (csrcs : list Z) : list Z := flat_map (be_bytes 4) csrcs.

Definition padding_bytes (n : Z) : list Z := if 0 <? n then replicate (Z.to_nat (n - 1)) 0 ++ [n] else [].

Definition header_bytes (c : Content) : list Z :=
  fixed_bytes c ++ csrc_bytes (c_csrcs c) ++ ext_block (c_two_byte c) (c_exts c).

Definition encode (c : Content) : list Z := header_bytes c ++ c_payload c ++ padding_bytes (c_padding c).

(** Where the extensions are, the first being at [off]. *)
Fixpoint layout (two_byte : bool) (off : Z) (es : list (Z * list Z)) : list ExtensionInfo :=
  match es with
  | [] => []
  | (id, d) :: es =>
      MkInfo id (zlen d) (off + ext_hlen two_byte) :: layout two_byte (off + ext_hlen two_byte + zlen d) es
  end.

(** The offset of the first extension. *)
Definition ext_base (csrcs : list Z) : Z := 16 + 4 * zlen csrcs.

Definition valid_ext (two_byte : bool) (e : Z * list Z) : Prop :=
  1 ≤ e.1 ≤ (if two_byte then 255 else 14) ∧ 1 ≤ zlen e.2 ≤ (if two_byte then 255 else 16) ∧ Forall uint8 e.2.

Record valid (c : Content) : Prop := {
  v_type : 0 ≤ c_type c ≤ 127;
  v_seq : uint16 (c_seq c);
  v_time : uint32 (c_time c);
  v_ssrc : uint32 (c_ssrc c);
  v_csrcs : zlen (c_csrcs c) ≤ 15 ∧ Forall uint32 (c_csrcs c);
  v_exts : Forall (valid_ext (c_two_byte c)) (c_exts c);
  v_ids : NoDup (c_exts c).*1;
  v_room : zlen (header_bytes c) ≤ 65535;
  v_payload : Forall uint8 (c_payload c);
  v_padding : uint8 (c_padding c);
}.

(** ** Lengths *)

Lemma words_fill n : 0 ≤ n → n + zlen (fill4 n) = 4 * words n ∧ n ≤ 4 * words n ≤ n + 3.
Proof. intros. unfold fill4, words. rewrite length_replicate. zdiv. Qed.

Lemma ext_header_length two_byte id len : zlen (ext_header two_byte id len) = ext_hlen two_byte.
Proof. by destruct two_byte. Qed.

Lemma ext_bytes_length two_byte e : zlen (ext_bytes two_byte e) = ext_hlen two_byte + zlen e.2.
Proof. unfold ext_bytes. by rewrite zlen_app, ext_header_length. Qed.

Lemma exts_bytes_app two_byte es es' :
  exts_bytes two_byte (es ++ es') = exts_bytes two_byte es ++ exts_bytes two_byte es'.
Proof. apply flat_map_app. Qed.

Lemma fixed_bytes_length c : length (fixed_bytes c) = 12%nat.
Proof. unfold fixed_bytes. by rewrite !length_app, !be_bytes_length. Qed.

Lemma csrc_bytes_length csrcs : zlen (csrc_bytes csrcs) = 4 * zlen csrcs.
Proof.
  induction csrcs as [|c csrcs IH]; [done|]. cbn [csrc_bytes flat_map]. rewrite zlen_app, be_bytes_length.
  unfold csrc_bytes in IH. rewrite IH. cbn [length]. lia.
Qed.

Lemma ext_block_length two_byte es : es ≠ [] →
  zlen (ext_block two_byte es) = 4 + 4 * words (zlen (exts_bytes two_byte es)).
Proof.
  intros Hne. destruct es as [|e es]; [done|]. unfold ext_block. cbv zeta.
  rewrite !zlen_app, !be_bytes_length. pose proof (words_fill (zlen (exts_bytes two_byte (e :: es)))). lia.
Qed.

Lemma padding_bytes_length n : 0 ≤ n → zlen (padding_bytes n) = n.
Proof.
  intros. unfold padding_bytes. destruct (Z.ltb_spec 0 n); [|cbn; lia].
  rewrite zlen_app, length_replicate. cbn [length]. lia.
Qed.

Lemma header_bytes_length c : zlen (header_bytes c) = 12 + 4 * zlen (c_csrcs c) +
  zlen (ext_block (c_two_byte c) (c_exts c)).
Proof. unfold header_bytes. rewrite !zlen_app, fixed_bytes_length, csrc_bytes_length. lia. Qed.

Lemma layout_app two_byte es es' : ∀ off, layout two_byte off (es ++ es') =
  layout two_byte off es ++ layout two_byte (off + zlen (exts_bytes two_byte es)) es'.
Proof.
  induction es as [|[id d] es IH]; intros off; [cbn [exts_bytes flat_map length layout app]; f_equal; lia|].
  cbn [layout app]. rewrite IH. do 3 f_equal. cbn [exts_bytes flat_map]. rewrite zlen_app, ext_bytes_length.
  unfold exts_bytes. cbn [snd]. lia.
Qed.

Lemma layout_ids two_byte es : ∀ off, ext_id <$> layout two_byte off es = es.*1.
Proof. induction es as [|[id d] es IH]; intros off; [done|]. cbn [layout fmap list_fmap fst ext_id]. f_equal. apply IH. Qed.

Lemma layout_length two_byte es off : zlen (layout two_byte off es) = zlen es.
Proof.
  pose proof (layout_ids two_byte es off) as E. apply (f_equal length) in E. rewrite !length_fmap in E. by rewrite E.
Qed.

(** Headers of two bytes take one more each. *)
Lemma exts_bytes_grow es : zlen (exts_bytes true es) = zlen (exts_bytes false es) + zlen es.
Proof.
  induction es as [|[i x] es IH]; [done|]. cbn [exts_bytes flat_map].
  rewrite !zlen_app, !ext_bytes_length. cbn [ext_hlen snd length]. unfold exts_bytes in IH. lia.
Qed.

(** * Parsing what is encoded *)

Lemma update_created entries id len off : id ∉ ext_id <$> entries →
  update_info (entries ++ [MkInfo id 0 0]) (MkInfo id len off) = entries ++ [MkInfo id len off].
Proof.
  induction entries as [|e entries IH]; intros H; cbn [app update_info ext_id].
  - by rewrite Z.eqb_refl.
  - cbn [fmap list_fmap] in H. apply not_elem_of_cons in H as [H1 H2].
    destruct (Z.eqb_spec (ext_id e) id); [done|]. f_equal. by apply IH.
Qed.

Lemma find_info_absent entries id : id ∉ ext_id <$> entries → find_info entries id = None.
Proof.
  intros H. destruct (find_info entries id) as [e|] eqn:E; [|done]. apply find_info_id in E as [<- Hin].
  destruct H. by apply list_elem_of_fmap_2.
Qed.

Lemma rd_app_at (pre suf : list Z) x i : i = zlen pre → (pre ++ x :: suf).[i] = x.
Proof. intros ->. by rewrite rd_app_r, Z.sub_diag by lia. Qed.

(** The padding behind the last extension is skipped. *)
Lemma parse_zeros one_byte off cap fuel entries suf : ∀ k pre sz,
  0 ≤ off → 0 ≤ sz → zlen pre = off + sz → cap = sz + Z.of_nat k → Z.of_nat k < Z.of_nat fuel →
  ∃ sz', parse_extensions fuel (pre ++ replicate k 0 ++ suf) one_byte off cap sz entries = Done (sz', entries).
Proof.
  induction fuel as [|fuel IH]; intros k pre sz Ho Hsz Hp Hc Hf; [lia|]. cbn [parse_extensions].
  set (hl := if one_byte then kOneByteExtensionHeaderLength else kTwoByteExtensionHeaderLength).
  assert (1 ≤ hl) by (destruct one_byte; by cbv). destruct (Z.ltb_spec (sz + hl) cap); [|by eexists].
  destruct k as [|k]; [lia|]. cbn [replicate app].
  rewrite (read8_done _ (off + sz)) by (rewrite zlen_app; cbn [length]; lia). cbn [mbind outcome_bind].
  rewrite rd_app_at by lia. cbn [Z.eqb].
  replace (pre ++ 0 :: replicate k 0 ++ suf) with ((pre ++ [0]) ++ replicate k 0 ++ suf) by by rewrite <- app_assoc.
  apply IH; try lia. rewrite zlen_app. cbn [length]. lia.
Qed.

(** One turn of the loop on one extension. *)
Lemma parse_one two_byte off cap fuel entries pre suf sz id d :
  valid_ext two_byte (id, d) → 0 ≤ off → 0 ≤ sz → zlen pre = off + sz →
  sz + ext_hlen two_byte + zlen d ≤ cap → off + sz + ext_hlen two_byte ≤ 65535 → id ∉ ext_id <$> entries →
  let buffer := pre ++ ext_bytes two_byte (id, d) ++ suf in
  parse_extensions (S fuel) buffer (negb two_byte) off cap sz entries =
  parse_extensions fuel buffer (negb two_byte) off cap (sz + ext_hlen two_byte + zlen d)
    (entries ++ [MkInfo id (zlen d) (off + sz + ext_hlen two_byte)]).
Proof.
  intros (Hid & Hd & _) Ho Hsz Hp Hc Hu Hin buffer. cbn [fst snd] in Hid, Hd. cbn [parse_extensions].
  assert (u16 (off + sz + ext_hlen two_byte) = off + sz + ext_hlen two_byte) as Eu.
  { apply u16_id. unfold uint16. destruct two_byte; cbn [ext_hlen] in *; lia. }
  assert (FindOrCreateExtensionInfo entries id = (entries ++ [MkInfo id 0 0], MkInfo id 0 0)) as Ef.
  { unfold FindOrCreateExtensionInfo. rewrite find_info_absent by done.
    by rewrite u8_id by (unfold uint8; destruct two_byte; lia). }
  assert (zlen buffer = off + sz + ext_hlen two_byte + zlen d + zlen suf) as Hl.
  { unfold buffer. rewrite !zlen_app, ext_bytes_length. cbn [snd]. lia. }
  unfold kOneByteExtensionHeaderLength, kTwoByteExtensionHeaderLength.
  destruct two_byte; cbn [negb ext_hlen andb] in *.
  - destruct (Z.ltb_spec (sz + 2) cap); [|lia]. rewrite !read8_done by lia. cbn [mbind outcome_bind].
    replace (buffer.[off + sz]) with id.
    2: { unfold buffer, ext_bytes, ext_header. cbn [fst snd app]. by rewrite rd_app_at by lia. }
    replace (buffer.[off + sz + 1]) with (zlen d).
    2: { unfold buffer, ext_bytes, ext_header. cbn [fst snd app].
         change (pre ++ id :: zlen d :: d ++ suf) with (pre ++ [id] ++ zlen d :: d ++ suf). rewrite app_assoc.
         rewrite rd_app_at by (rewrite zlen_app; cbn [length]; lia). done. }
    destruct (Z.eqb_spec id 0); [lia|]. rewrite Z.gtb_ltb. destruct (Z.ltb_spec cap (sz + 2 + zlen d)); [lia|].
    rewrite Ef, Z.gtb_ltb. destruct (Z.ltb_spec 65535 (off + sz + 2)); [lia|].
    rewrite Eu. cbn [ext_id]. by rewrite update_created.
  - destruct (Z.ltb_spec (sz + 1) cap); [|lia]. rewrite (read8_done buffer (off + sz)) by lia. cbn [mbind outcome_bind].
    replace (buffer.[off + sz]) with (id * 16 + (zlen d - 1)).
    2: { unfold buffer, ext_bytes, ext_header. cbn [fst snd app]. by rewrite rd_app_at by lia. }
    destruct (Z.eqb_spec (id * 16 + (zlen d - 1)) 0); [lia|].
    assert ((id * 16 + (zlen d - 1)) ≫ 4 = id) as ->.
    { rewrite Z.shiftr_div_pow2 by lia. change (2 ^ 4) with 16. zdiv. }
    assert (Z.land (id * 16 + (zlen d - 1)) 15 = zlen d - 1) as ->.
    { pose proof (Z.land_ones (id * 16 + (zlen d - 1)) 4 ltac:(lia)) as E. change (Z.ones 4) with 15 in E.
      rewrite E. change (2 ^ 4) with 16. zdiv. }
    destruct (Z.eqb_spec id 15); [lia|]. destruct (Z.eqb_spec id 0); [lia|]. cbn [orb andb].
    replace (1 + (zlen d - 1)) with (zlen d) by lia.
    rewrite Z.gtb_ltb. destruct (Z.ltb_spec cap (sz + 1 + zlen d)); [lia|].
    rewrite Ef, Z.gtb_ltb. destruct (Z.ltb_spec 65535 (off + sz + 1)); [lia|].
    rewrite Eu. cbn [ext_id]. by rewrite update_created.
Qed.

Lemma parse_exts two_byte off cap k suf : ∀ es fuel entries pre sz,
  Forall (valid_ext two_byte) es → NoDup ((ext_id <$> entries) ++ es.*1) →
  0 ≤ off → 0 ≤ sz → zlen pre = off + sz → cap = sz + zlen (exts_bytes two_byte es) + Z.of_nat k →
  off + cap ≤ 65535 → cap - sz < Z.of_nat fuel →
  ∃ sz', parse_extensions fuel (pre ++ exts_bytes two_byte es ++ replicate k 0 ++ suf) (negb two_byte)
           off cap sz entries = Done (sz', entries ++ layout two_byte (off + sz) es).
Proof.
  induction es as [|[id d] es IH]; intros fuel entries pre sz Hv Hn Ho Hsz Hp Hc Hu Hf.
  - cbn [exts_bytes flat_map app layout length] in *. rewrite app_nil_r. apply parse_zeros; lia.
  - apply Forall_cons_1 in Hv as [Hv1 Hv]. destruct fuel as [|fuel]; [destruct Hv1 as (_ & ? & _); lia|].
    cbn [exts_bytes flat_map] in *. rewrite zlen_app, ext_bytes_length in Hc. cbn [snd] in Hc.
    fold (exts_bytes two_byte es) in *.
    assert (0 < ext_hlen two_byte) as Hh by by destruct two_byte.
    rewrite <- app_assoc. rewrite parse_one; try done; try lia.
    2: { cbn [fmap list_fmap fst] in Hn. apply list.NoDup_app in Hn as (_ & Hn & _). intros Hin.
         apply (Hn id Hin). left. }
    destruct (IH fuel (entries ++ [MkInfo id (zlen d) (off + sz + ext_hlen two_byte)])
      (pre ++ ext_bytes two_byte (id, d)) (sz + ext_hlen two_byte + zlen d)) as (sz' & E); try done; try lia.
    { rewrite fmap_app, <- app_assoc. cbn [fmap list_fmap app ext_id]. exact Hn. }
    { rewrite zlen_app, ext_bytes_length. cbn [snd]. lia. }
    exists sz'. rewrite <- app_assoc in E. rewrite E. f_equal. f_equal. rewrite <- app_assoc. cbn [app layout].
    by replace (off + (sz + ext_hlen two_byte + zlen d)) with (off + sz + ext_hlen two_byte + zlen d) by lia.
Qed.

(** ** The fields *)

Lemma get_be_at B v pre suf off : B = 2 ∨ B = 4 → 0 ≤ v < 2 ^ (8 * B) →
  Forall uint8 (pre ++ be_bytes (Z.to_nat B) v ++ suf) → off = zlen pre →
  get_be B (pre ++ be_bytes (Z.to_nat B) v ++ suf) off = Done v.
Proof.
  intros HB Hv Hu ->. rewrite get_be_done.
  2-5: try rewrite !zlen_app, be_bytes_length; (done || lia).
  rewrite slice_app_r, take_prefix by (rewrite ?be_bytes_length; lia).
  rewrite be_value_bytes, pow256, Z2Nat.id by lia. by rewrite Z.mod_small.
Qed.

Lemma byte0_bits padding exts n : 0 ≤ n ≤ 15 → let b := byte0 padding exts n in
  uint8 b ∧ b ≫ 6 = 2 ∧ negb (Z.land b 0x20 =? 0) = padding ∧ negb (Z.land b 0x10 =? 0) = exts ∧ Z.land b 0x0f = n.
Proof.
  intros Hn. apply (check_range_dec (λ n, let b := byte0 padding exts n in uint8 b ∧ b ≫ 6 = 2 ∧
    negb (Z.land b 0x20 =? 0) = padding ∧ negb (Z.land b 0x10 =? 0) = exts ∧ Z.land b 0x0f = n) 0 16 n); [|lia].
  by destruct padding, exts; vm_compute.
Qed.

Lemma byte1_bits marker t : 0 ≤ t ≤ 127 → let b := byte1 marker t in
  uint8 b ∧ negb (Z.land b 0x80 =? 0) = marker ∧ Z.land b 0x7f = t.
Proof.
  intros Ht. apply (check_range_dec (λ t, let b := byte1 marker t in uint8 b ∧
    negb (Z.land b 0x80 =? 0) = marker ∧ Z.land b 0x7f = t) 0 128 t); [|lia].
  by destruct marker; vm_compute.
Qed.

Lemma flat_be_uint8 n l : Forall uint8 (flat_map (be_bytes n) l).
Proof. induction l; cbn [flat_map]; [done|]. apply Forall_app_2; [apply be_bytes_uint8|done]. Qed.

Lemma replicate_uint8 n : Forall uint8 (replicate n 0).
Proof. apply Forall_replicate. unfold uint8. lia. Qed.

Lemma exts_uint8 two_byte es : Forall (valid_ext two_byte) es → Forall uint8 (exts_bytes two_byte es).
Proof.
  induction 1 as [|[id d] es (Hid & Hd & Hu) _ IH]; [done|]. cbn [exts_bytes flat_map fst snd] in *.
  apply Forall_app_2; [|done]. unfold ext_bytes. cbn [fst snd]. apply Forall_app_2; [|done].
  destruct two_byte; cbn [ext_header]; repeat (constructor; [unfold uint8; lia|]); constructor.
Qed.

Lemma ext_block_uint8 two_byte es : Forall (valid_ext two_byte) es → Forall uint8 (ext_block two_byte es).
Proof.
  intros H. pose proof (exts_uint8 _ _ H) as Hb. destruct es as [|e es]; [done|]. unfold ext_block. cbv zeta.
  do 3 (apply Forall_app_2; [try apply be_bytes_uint8; done|]). apply replicate_uint8.
Qed.

Lemma padding_bytes_uint8 n : uint8 n → Forall uint8 (padding_bytes n).
Proof.
  intros H. unfold padding_bytes. destruct (0 <? n); [|done].
  apply Forall_app_2; [apply replicate_uint8|by apply Forall_singleton].
Qed.

Lemma fixed_uint8 c : valid c → Forall uint8 (fixed_bytes c).
Proof.
  intros []. unfold fixed_bytes. repeat apply Forall_app_2; try apply be_bytes_uint8.
  constructor; [|constructor; [|done]].
  - by apply (byte0_bits _ _ (zlen (c_csrcs c))); lia.
  - by apply byte1_bits.
Qed.

Lemma encode_uint8 c : valid c → Forall uint8 (encode c).
Proof.
  intros Hv. unfold encode, header_bytes. apply Forall_app_2.
  - apply Forall_app_2; [by apply fixed_uint8|]. apply Forall_app_2; [apply flat_be_uint8|apply ext_block_uint8, Hv].
  - apply Forall_app_2; [apply Hv|apply padding_bytes_uint8, Hv].
Qed.

(** The bytes behind the headers. *)
Lemma encode_length c : 0 ≤ c_padding c →
  zlen (encode c) = zlen (header_bytes c) + zlen (c_payload c) + c_padding c.
Proof. intros. unfold encode. rewrite !zlen_app, padding_bytes_length by done. lia. Qed.

Lemma parse_padding_encode p c : valid c → payload_offset_ p = zlen (header_bytes c) →
  parse_padding p (encode c) (0 <? c_padding c) =
  Done (set_layout p (zlen (header_bytes c)) (zlen (c_payload c)) (c_padding c), true).
Proof.
  intros Hv Ho. pose proof (v_padding c Hv) as Hpad. unfold uint8 in Hpad.
  pose proof (encode_length c ltac:(lia)) as Hl. unfold parse_padding. rewrite Ho.
  destruct (Z.ltb_spec 0 (c_padding c)) as [Hp|Hp]; cbn [andb].
  - destruct (Z.ltb_spec (zlen (header_bytes c)) (zlen (encode c))); [|lia].
    rewrite read8_done by lia. cbn [mbind outcome_bind].
    assert ((encode c).[zlen (encode c) - 1] = c_padding c) as ->.
    { unfold encode at 1, padding_bytes. destruct (Z.ltb_spec 0 (c_padding c)); [|lia]. rewrite !app_assoc.
      apply rd_app_at. rewrite !zlen_app, length_replicate. lia. }
    destruct (Z.eqb_spec (c_padding c) 0); [lia|]. cbn [negb payload_offset_ padding_size_ payload_size_ set_layout].
    rewrite Z.gtb_ltb. destruct (Z.ltb_spec (zlen (encode c)) (zlen (header_bytes c) + c_padding c)); [lia|].
    by replace (zlen (encode c) - zlen (header_bytes c) - c_padding c) with (zlen (c_payload c)) by lia.
  - cbn [mbind outcome_bind negb payload_offset_ padding_size_ payload_size_ set_layout]. rewrite Z.gtb_ltb.
    destruct (Z.ltb_spec (zlen (encode c)) (zlen (header_bytes c) + 0)); [lia|].
    replace (c_padding c) with 0 by lia.
    by replace (zlen (encode c) - zlen (header_bytes c) - 0) with (zlen (c_payload c)) by lia.
Qed.

Lemma encode_cons c : encode c =
  byte0 (0 <? c_padding c) (has_exts (c_exts c)) (zlen (c_csrcs c)) :: byte1 (c_marker c) (c_type c) ::
  be_bytes 2 (c_seq c) ++ be_bytes 4 (c_time c) ++ be_bytes 4 (c_ssrc c) ++ csrc_bytes (c_csrcs c) ++
  ext_block (c_two_byte c) (c_exts c) ++ c_payload c ++ padding_bytes (c_padding c).
Proof. unfold encode, header_bytes, fixed_bytes. cbn [app]. by rewrite <- !app_assoc. Qed.

(** A field behind any prefix of the encoding. *)
Lemma get_encode B v pre suf off c : valid c → B = 2 ∨ B = 4 → 0 ≤ v < 2 ^ (8 * B) → off = zlen pre →
  encode c = pre ++ be_bytes (Z.to_nat B) v ++ suf → get_be B (encode c) off = Done v.
Proof.
  intros Hc HB Hv Ho E. pose proof (encode_uint8 c Hc) as Hu. rewrite E in Hu |- *. by apply get_be_at.
Qed.

Lemma get_fields c : valid c → get_be 2 (encode c) 2 = Done (c_seq c) ∧ get_be 4 (encode c) 4 = Done (c_time c) ∧
  get_be 4 (encode c) 8 = Done (c_ssrc c).
Proof.
  intros Hv. pose proof Hv as [_ H1 H2 H3 _ _ _ _ _ _]. unfold uint16, uint32 in *.
  pose proof (encode_cons c) as E. split_and!.
  - eapply get_encode with (pre := [_; _]); [done|by left|lia|done|exact E].
  - eapply get_encode with (pre := [_; _] ++ be_bytes 2 (c_seq c)); [done|by right|lia|done|].
    rewrite E. cbn [app]. done.
  - eapply get_encode with (pre := [_; _] ++ be_bytes 2 (c_seq c) ++ be_bytes 4 (c_time c)); [done|by right|lia|done|].
    rewrite E. cbn [app]. done.
Qed.

(** The header of the extension block. *)
Lemma get_profile c : valid c → c_exts c ≠ [] → let off := 12 + 4 * zlen (c_csrcs c) in
  get_be 2 (encode c) off = Done (profile (c_two_byte c)) ∧
  get_be 2 (encode c) (off + 2) = Done (words (zlen (exts_bytes (c_two_byte c) (c_exts c)))).
Proof.
  intros Hv Hne off. set (bs := exts_bytes (c_two_byte c) (c_exts c)).
  assert (encode c = (fixed_bytes c ++ csrc_bytes (c_csrcs c)) ++ be_bytes 2 (profile (c_two_byte c)) ++
    be_bytes 2 (words (zlen bs)) ++ bs ++ fill4 (zlen bs) ++ c_payload c ++ padding_bytes (c_padding c)) as E.
  { unfold encode, header_bytes, ext_block. subst bs. destruct (c_exts c); [done|]. by rewrite <- !app_assoc. }
  assert (off = zlen (fixed_bytes c ++ csrc_bytes (c_csrcs c))) as Eo.
  { rewrite zlen_app, fixed_bytes_length, csrc_bytes_length. done. }
  pose proof (v_room c Hv) as Hr. rewrite header_bytes_length, ext_block_length in Hr by done. fold bs in Hr.
  pose proof (words_fill (zlen bs)). split.
  - eapply get_encode; [done|by left| |exact Eo|exact E]. by destruct (c_two_byte c).
  - rewrite app_assoc in E. eapply get_encode; [done|by left| | |exact E]; [lia|].
    rewrite zlen_app, be_bytes_length. lia.
Qed.

Lemma encode_exts c : c_exts c ≠ [] → let bs := exts_bytes (c_two_byte c) (c_exts c) in ∃ pre suf,
  encode c = pre ++ bs ++ fill4 (zlen bs) ++ suf ∧ zlen pre = ext_base (c_csrcs c).
Proof.
  intros Hne bs. exists (fixed_bytes c ++ csrc_bytes (c_csrcs c) ++ be_bytes 2 (profile (c_two_byte c)) ++
    be_bytes 2 (words (zlen bs))), (c_payload c ++ padding_bytes (c_padding c)). split.
  - unfold encode, header_bytes, ext_block. subst bs. destruct (c_exts c); [done|]. by rewrite <- !app_assoc.
  - rewrite !zlen_app, fixed_bytes_length, csrc_bytes_length, !be_bytes_length. unfold ext_base. lia.
Qed.

(** The parser inverts the encoding. *)
Lemma ParseBuffer_encode p c : valid c → ∃ sz, ParseBuffer p (encode c) = Done (
  MkRtp (c_marker c) (c_type c) (c_padding c) (c_seq c) (c_time c) (c_ssrc c) (zlen (header_bytes c))
    (zlen (c_payload c)) (extensions_ p) (layout (c_two_byte c) (ext_base (c_csrcs c)) (c_exts c)) sz (buffer_ p),
  true).
Proof.
  intros Hv. pose proof (v_padding c Hv) as Hpad. unfold uint8 in Hpad. pose proof (v_csrcs c Hv) as [Hcs _].
  pose proof (encode_length c ltac:(lia)) as Hl. pose proof (header_bytes_length c) as Hh.
  unfold ParseBuffer, kFixedHeaderSize, kRtpVersion.
  destruct (Z.ltb_spec (zlen (encode c)) 12); [lia|]. rewrite !read8_done by lia. cbn [mbind outcome_bind].
  destruct (get_fields c Hv) as (-> & -> & ->). cbn [mbind outcome_bind].
  assert ((encode c).[0] = byte0 (0 <? c_padding c) (has_exts (c_exts c)) (zlen (c_csrcs c))) as ->
    by by rewrite encode_cons.
  assert ((encode c).[1] = byte1 (c_marker c) (c_type c)) as -> by by rewrite encode_cons.
  destruct (byte0_bits (0 <? c_padding c) (has_exts (c_exts c)) (zlen (c_csrcs c)) ltac:(lia)) as (_ & -> & -> & -> & ->).
  destruct (byte1_bits (c_marker c) (c_type c) (v_type c Hv)) as (_ & -> & ->). cbn [negb Z.eqb Pos.eqb].
  destruct (Z.ltb_spec (zlen (encode c)) (12 + zlen (c_csrcs c) * 4)); [lia|].
  destruct (decide (c_exts c = [])) as [Ee|Hne].
  - rewrite Ee. cbn [has_exts layout]. exists 0.
    assert (zlen (header_bytes c) = 12 + zlen (c_csrcs c) * 4) as Eh.
    { rewrite Hh. unfold ext_block. rewrite Ee. cbn [length]. lia. }
    rewrite parse_padding_encode; [by rewrite Eh|done|cbn [payload_offset_ set_layout set_entries]; lia].
  - replace (has_exts (c_exts c)) with true by by destruct (c_exts c).
    cbn [payload_offset_ set_layout set_entries set_fields].
    rewrite ext_block_length in Hh by done. set (bs := exts_bytes (c_two_byte c) (c_exts c)) in *.
    pose proof (words_fill (zlen bs) ltac:(lia)) as [Hw Hw2]. pose proof (v_room c Hv) as Hr.
    rewrite Z.gtb_ltb. destruct (Z.ltb_spec (zlen (encode c)) (12 + zlen (c_csrcs c) * 4 + 4)); [lia|].
    destruct (get_profile c Hv Hne) as [Ep Ew]. rewrite (Z.mul_comm 4) in Ep, Ew. rewrite Ep, Ew. cbn [mbind outcome_bind].
    fold bs. rewrite Z.gtb_ltb.
    destruct (Z.ltb_spec (zlen (encode c)) (12 + zlen (c_csrcs c) * 4 + 4 + words (zlen bs) * 4)); [lia|].
    assert (negb (profile (c_two_byte c) =? kOneByteExtensionProfileId) &&
      negb (Z.land (profile (c_two_byte c)) kTwobyteExtensionProfileIdAppBitsFilter =? kTwoByteExtensionProfileId) = false)
      as -> by by destruct (c_two_byte c).
    replace (profile (c_two_byte c) =? kOneByteExtensionProfileId) with (negb (c_two_byte c)) by by destruct (c_two_byte c).
    destruct (encode_exts c Hne) as (pre & suf & E & Hpre). fold bs in E. unfold ext_base in Hpre.
    destruct (parse_exts (c_two_byte c) (12 + zlen (c_csrcs c) * 4 + 4) (words (zlen bs) * 4)
      (Z.to_nat (4 * words (zlen bs) - zlen bs)) suf (c_exts c) (S (Z.to_nat (words (zlen bs) * 4))) [] pre 0)
      as (sz & Es); [apply Hv|apply Hv|try (fold bs); lia..|].
    fold bs in Es. fold (fill4 (zlen bs)) in Es. rewrite <- E in Es. rewrite Es. cbn [mbind outcome_bind app].
    exists sz. rewrite parse_padding_encode; [|done|cbn [payload_offset_ set_layout]; lia].
    unfold set_layout, ext_base. cbn [marker_ payload_type_ sequence_number_ timestamp_ ssrc_ extensions_
      extension_entries_ extensions_size_ buffer_ set_entries set_fields].
    by replace (12 + zlen (c_csrcs c) * 4 + 4 + 0) with (16 + 4 * zlen (c_csrcs c)) by lia.
Qed.
