(* ===== verification/RtpBuild.v ===== *)
(** Building RTP packets: the operations of modules/rtp_rtcp/source/rtp_packet.cc that change a
    packet, as operations on its contents.

    [built m c rest] is the packet whose bytes are the encoding of the contents [c], with [rest]
    in the memory behind.  Every operation takes such a packet to one, without a write outside
    the block, and changes the contents as its specification says. *)
From S2P Require Import Prelude ByteIo Rtcp RtpExtensionMap RtpPacket RtpWire RtpEncode.

(** * Packets that hold given contents *)

Definition built (m : RtpHeaderExtensionMap) (c : Content) (rest : list Z) : RtpPacket :=
  MkRtp (c_marker c) (c_type c) (c_padding c) (c_seq c) (c_time c) (c_ssrc c) (zlen (header_bytes c))
    (zlen (c_payload c)) m (layout (c_two_byte c) (ext_base (c_csrcs c)) (c_exts c))
    (zlen (exts_bytes (c_two_byte c) (c_exts c))) (MkBuffer (encode c ++ rest) (zlen (encode c))).

(** Reduces the updates of a packet. *)
Ltac packet_simpl :=
  unfold set_bytes, set_fields, set_layout, set_entries, set_buffer, built;
  cbn [marker_ payload_type_ padding_size_ sequence_number_ timestamp_
    ssrc_ payload_offset_ payload_size_ extensions_ extension_entries_ extensions_size_ bytes buffer_ storage buf_size].

Definition empty_content : Content := MkContent false 0 0 0 0 [] false [] [] 0.

Definition with_marker c marker := MkContent marker (c_type c) (c_seq c) (c_time c) (c_ssrc c) (c_csrcs c)
  (c_two_byte c) (c_exts c) (c_payload c) (c_padding c).
Definition with_type c type := MkContent (c_marker c) type (c_seq c) (c_time c) (c_ssrc c) (c_csrcs c)
  (c_two_byte c) (c_exts c) (c_payload c) (c_padding c).
Definition with_seq c seq := MkContent (c_marker c) (c_type c) seq (c_time c) (c_ssrc c) (c_csrcs c)
  (c_two_byte c) (c_exts c) (c_payload c) (c_padding c).
Definition with_time c time := MkContent (c_marker c) (c_type c) (c_seq c) time (c_ssrc c) (c_csrcs c)
  (c_two_byte c) (c_exts c) (c_payload c) (c_padding c).
Definition with_ssrc c ssrc := MkContent (c_marker c) (c_type c) (c_seq c) (c_time c) ssrc (c_csrcs c)
  (c_two_byte c) (c_exts c) (c_payload c) (c_padding c).
Definition with_csrcs c csrcs := MkContent (c_marker c) (c_type c) (c_seq c) (c_time c) (c_ssrc c) csrcs
  (c_two_byte c) (c_exts c) (c_payload c) (c_padding c).
Definition with_exts c two_byte exts := MkContent (c_marker c) (c_type c) (c_seq c) (c_time c) (c_ssrc c)
  (c_csrcs c) two_byte exts (c_payload c) (c_padding c).
Definition with_payload c payload := MkContent (c_marker c) (c_type c) (c_seq c) (c_time c) (c_ssrc c)
  (c_csrcs c) (c_two_byte c) (c_exts c) payload (c_padding c).
Definition with_padding c padding := MkContent (c_marker c) (c_type c) (c_seq c) (c_time c) (c_ssrc c)
  (c_csrcs c) (c_two_byte c) (c_exts c) (c_payload c) padding.

(** ** Writes at a known place *)

Lemma store_at (pre old new suf : list Z) off : off = zlen pre → zlen old = zlen new →
  store (pre ++ old ++ suf) off new = pre ++ new ++ suf.
Proof.
  intros -> H. unfold store. rewrite Nat2Z.id, take_app_length. do 2 f_equal.
  rewrite app_assoc, drop_app_ge by (rewrite length_app; lia). rewrite length_app.
  by replace (length pre + length new - (length pre + length old))%nat with 0%nat by lia.
Qed.

Lemma write_mem_at s pre old new suf off : s = pre ++ old ++ suf → off = zlen pre → zlen old = zlen new →
  write_mem s off new = Done (pre ++ new ++ suf).
Proof.
  intros -> -> H. rewrite write_mem_done by (rewrite ?zlen_app; lia). by rewrite store_at.
Qed.

Lemma set_bytes_twice p s s' : set_bytes (set_bytes p s) s' = set_bytes p s'.
Proof. done. Qed.

Lemma WriteBytesAt_at p pre old new suf off : bytes p = pre ++ old ++ suf → off = zlen pre → zlen old = zlen new →
  WriteBytesAt p off new = Done (set_bytes p (pre ++ new ++ suf)).
Proof. intros E Ho Hl. unfold WriteBytesAt. by rewrite (write_mem_at _ pre old new suf). Qed.

Lemma WriteAt_at p pre x suf off v : bytes p = pre ++ [x] ++ suf → off = zlen pre →
  WriteAt p off v = Done (set_bytes p (pre ++ [u8 v] ++ suf)).
Proof. intros E Ho. unfold WriteAt, write8. by rewrite (write_mem_at _ pre [x] [u8 v] suf). Qed.

Lemma WriteIntAt_at B p pre old suf off v : 1 ≤ B → bytes p = pre ++ old ++ suf → off = zlen pre → zlen old = B →
  WriteIntAt B p off v = Done (set_bytes p (pre ++ be_bytes (Z.to_nat B) v ++ suf)).
Proof.
  intros HB E -> Hl. unfold WriteIntAt. rewrite E, write_be_done by (rewrite ?zlen_app; lia).
  cbn [mbind outcome_bind]. rewrite store_at by (rewrite ?be_bytes_length; lia). done.
Qed.

Lemma read8_at s pre x suf off : s = pre ++ [x] ++ suf → off = zlen pre → read8 s off = Done x.
Proof.
  intros -> ->. rewrite read8_done by (rewrite !zlen_app; cbn [length]; lia). cbn [app]. by rewrite rd_app_at.
Qed.

(** A list of at least [n] elements is split at [n]. *)
Lemma split_at (l : list Z) n : 0 ≤ n ≤ zlen l → ∃ a b, l = a ++ b ∧ zlen a = n.
Proof.
  intros H. exists (take (Z.to_nat n) l), (drop (Z.to_nat n) l). rewrite take_drop, length_take. split; [done|lia].
Qed.

(** ** Parts of the encoding *)

Definition fixed_tail (c : Content) : list Z :=
  [byte1 (c_marker c) (c_type c)] ++ be_bytes 2 (c_seq c) ++ be_bytes 4 (c_time c) ++ be_bytes 4 (c_ssrc c).
Definition first_byte (c : Content) : Z := byte0 (0 <? c_padding c) (has_exts (c_exts c)) (zlen (c_csrcs c)).

Lemma encode_first c : encode c = [first_byte c] ++ fixed_tail c ++ csrc_bytes (c_csrcs c) ++
  ext_block (c_two_byte c) (c_exts c) ++ c_payload c ++ padding_bytes (c_padding c).
Proof. rewrite encode_cons. unfold fixed_tail. cbn [app]. by rewrite <- !app_assoc. Qed.

Lemma fixed_tail_length c : length (fixed_tail c) = 11%nat.
Proof. unfold fixed_tail. by rewrite !length_app, !be_bytes_length. Qed.

Lemma bytes_built m c rest : bytes (built m c rest) = encode c ++ rest.
Proof. done. Qed.

(** * The fields of the header *)

Lemma byte1_set (marker marker' : bool) t : 0 ≤ t ≤ 127 →
  u8 (if marker' then Z.lor (byte1 marker t) 0x80 else Z.land (byte1 marker t) 0x7F) = byte1 marker' t.
Proof.
  intros Ht. apply (check_range_dec (λ t, u8 (if marker' then Z.lor (byte1 marker t) 0x80
    else Z.land (byte1 marker t) 0x7F) = byte1 marker' t) 0 128 t); [|lia]. by destruct marker, marker'; vm_compute.
Qed.

Lemma byte1_type (marker : bool) t t' : 0 ≤ t ≤ 127 → 0 ≤ t' ≤ 127 →
  u8 (Z.lor (Z.land (byte1 marker t) 0x80) t') = byte1 marker t'.
Proof.
  intros Ht Ht'. assert (Z.land (byte1 marker t) 0x80 = if marker then 128 else 0) as ->.
  { apply (check_range_dec (λ t, Z.land (byte1 marker t) 0x80 = if marker then 128 else 0) 0 128 t); [|lia].
    by destruct marker; vm_compute. }
  apply (check_range_dec (λ t', u8 (Z.lor (if marker then 128 else 0) t') = byte1 marker t') 0 128 t'); [|lia].
  by destruct marker; vm_compute.
Qed.

Lemma encode_second c rest : encode c ++ rest = [first_byte c] ++ [byte1 (c_marker c) (c_type c)] ++
  (be_bytes 2 (c_seq c) ++ be_bytes 4 (c_time c) ++ be_bytes 4 (c_ssrc c)) ++ csrc_bytes (c_csrcs c) ++
  ext_block (c_two_byte c) (c_exts c) ++ c_payload c ++ padding_bytes (c_padding c) ++ rest.
Proof. rewrite encode_first. unfold fixed_tail. by rewrite <- !app_assoc. Qed.

Lemma SetMarker_built m c rest marker : 0 ≤ c_type c ≤ 127 →
  SetMarker (built m c rest) marker = Done (built m (with_marker c marker) rest).
Proof.
  intros Ht. unfold SetMarker.
  set (p := set_fields _ _ _ _ _ _). assert (bytes p = encode c ++ rest) as E by done.
  pose proof (encode_second c rest) as E2. rewrite <- E in E2.
  rewrite (read8_at _ _ _ _ 1 E2) by done. cbn [mbind outcome_bind].
  assert ((if marker then WriteAt p 1 (Z.lor (byte1 (c_marker c) (c_type c)) 128)
    else WriteAt p 1 (Z.land (byte1 (c_marker c) (c_type c)) 127)) =
    WriteAt p 1 (if marker then Z.lor (byte1 (c_marker c) (c_type c)) 128
      else Z.land (byte1 (c_marker c) (c_type c)) 127)) as -> by by destruct marker.
  rewrite (WriteAt_at _ _ _ _ 1 _ E2), byte1_set by done.
  unfold built. rewrite encode_second. done.
Qed.

Lemma SetPayloadType_built m c rest t : 0 ≤ c_type c ≤ 127 → 0 ≤ t ≤ 127 →
  SetPayloadType (built m c rest) t = Done (built m (with_type c t) rest).
Proof.
  intros Ht Ht'. unfold SetPayloadType.
  set (p := set_fields _ _ _ _ _ _). assert (bytes p = encode c ++ rest) as E by done.
  pose proof (encode_second c rest) as E2. rewrite <- E in E2.
  rewrite (read8_at _ _ _ _ 1 E2) by done. cbn [mbind outcome_bind].
  rewrite (WriteAt_at _ _ _ _ 1 _ E2), byte1_type by done.
  unfold built. rewrite encode_second. done.
Qed.

Lemma SetSequenceNumber_built m c rest v :
  SetSequenceNumber (built m c rest) v = Done (built m (with_seq c v) rest).
Proof.
  unfold SetSequenceNumber. set (p := set_fields _ _ _ _ _ _).
  assert (bytes p = [first_byte c; byte1 (c_marker c) (c_type c)] ++ be_bytes 2 (c_seq c) ++
    (be_bytes 4 (c_time c) ++ be_bytes 4 (c_ssrc c)) ++ csrc_bytes (c_csrcs c) ++
    ext_block (c_two_byte c) (c_exts c) ++ c_payload c ++ padding_bytes (c_padding c) ++ rest) as E.
  { change (bytes p) with (encode c ++ rest). rewrite encode_second. by rewrite <- !app_assoc. }
  rewrite (WriteIntAt_at 2 _ _ _ _ 2 v ltac:(lia) E) by done.
  unfold built. rewrite encode_second. done.
Qed.

Lemma SetTimestamp_built m c rest v :
  SetTimestamp (built m c rest) v = Done (built m (with_time c v) rest).
Proof.
  unfold SetTimestamp. set (p := set_fields _ _ _ _ _ _).
  assert (bytes p = ([first_byte c; byte1 (c_marker c) (c_type c)] ++ be_bytes 2 (c_seq c)) ++ be_bytes 4 (c_time c) ++
    be_bytes 4 (c_ssrc c) ++ csrc_bytes (c_csrcs c) ++
    ext_block (c_two_byte c) (c_exts c) ++ c_payload c ++ padding_bytes (c_padding c) ++ rest) as E.
  { change (bytes p) with (encode c ++ rest). rewrite encode_second. by rewrite <- !app_assoc. }
  rewrite (WriteIntAt_at 4 _ _ _ _ 4 v ltac:(lia) E) by done.
  unfold built. rewrite encode_second. done.
Qed.

Lemma SetSsrc_built m c rest v :
  SetSsrc (built m c rest) v = Done (built m (with_ssrc c v) rest).
Proof.
  unfold SetSsrc. set (p := set_fields _ _ _ _ _ _).
  assert (bytes p = ([first_byte c; byte1 (c_marker c) (c_type c)] ++ be_bytes 2 (c_seq c) ++ be_bytes 4 (c_time c)) ++
    be_bytes 4 (c_ssrc c) ++ csrc_bytes (c_csrcs c) ++
    ext_block (c_two_byte c) (c_exts c) ++ c_payload c ++ padding_bytes (c_padding c) ++ rest) as E.
  { change (bytes p) with (encode c ++ rest). rewrite encode_second. by rewrite <- !app_assoc. }
  rewrite (WriteIntAt_at 4 _ _ _ _ 8 v ltac:(lia) E) by done.
  unfold built. rewrite encode_second. done.
Qed.

(** * CSRCs, payload and padding *)

Lemma byte0_csrcs n n' : 0 ≤ n ≤ 15 → 0 ≤ n' ≤ 15 →
  u8 (Z.lor (Z.land (byte0 false false n) 0xF0) (u8 n')) = byte0 false false n'.
Proof.
  intros Hn Hn'. assert (Z.land (byte0 false false n) 0xF0 = 128) as ->.
  { apply (check_range_dec (λ n, Z.land (byte0 false false n) 0xF0 = 128) 0 16 n); [by vm_compute|lia]. }
  apply (check_range_dec (λ n', u8 (Z.lor 128 (u8 n')) = byte0 false false n') 0 16 n'); [by vm_compute|lia].
Qed.

Lemma byte0_set_padding padding exts n : 0 ≤ n ≤ 15 →
  u8 (Z.lor (byte0 padding exts n) 0x20) = byte0 true exts n ∧
  u8 (Z.land (byte0 padding exts n) (Z.lnot 0x20)) = byte0 false exts n ∧
  u8 (Z.lor (byte0 padding exts n) 0x10) = byte0 padding true n.
Proof.
  intros Hn. apply (check_range_dec (λ n, u8 (Z.lor (byte0 padding exts n) 0x20) = byte0 true exts n ∧
    u8 (Z.land (byte0 padding exts n) (Z.lnot 0x20)) = byte0 false exts n ∧
    u8 (Z.lor (byte0 padding exts n) 0x10) = byte0 padding true n) 0 16 n); [|lia].
  by destruct padding, exts; vm_compute.
Qed.

(** Setting the size within the capacity keeps the memory. *)
Lemma BufferSetSize_fits mem p n : n ≤ capacity p → BufferSetSize mem p n = set_buffer p (MkBuffer (bytes p) n).
Proof. intros H. unfold BufferSetSize. by rewrite SetSize_fits. Qed.

(** Setting the size beyond the bytes in use keeps those. *)
Lemma SetSize_keeps mem b pre tail n : storage b = pre ++ tail → buf_size b = zlen pre → zlen pre ≤ n →
  ∃ tail', SetSize mem b n = MkBuffer (pre ++ tail') n ∧ zlen pre + zlen tail' = Z.max (buf_capacity b) n.
Proof.
  intros Es Ez Hn. unfold SetSize. unfold buf_capacity. rewrite Es, Ez, zlen_app.
  destruct (Z.leb_spec n (zlen pre)); [exists tail; split; [done|lia]|].
  destruct (Z.leb_spec (Z.max (zlen pre + zlen tail) n) (zlen pre + zlen tail)); [exists tail; split; [done|lia]|].
  rewrite Nat2Z.id, take_app_length. unfold extend. eexists. split; [done|].
  rewrite length_map, length_seqZ. lia.
Qed.

Lemma write_csrcs_at csrcs : ∀ p pre tail off, bytes p = pre ++ tail → off = zlen pre → 4 * zlen csrcs ≤ zlen tail →
  ∃ tail', write_csrcs p off csrcs = Done (set_bytes p (pre ++ csrc_bytes csrcs ++ tail')) ∧
    4 * zlen csrcs + zlen tail' = zlen tail.
Proof.
  induction csrcs as [|x csrcs IH]; intros p pre tail off E Ho Hl.
  { exists tail. split; [|done]. cbn [write_csrcs csrc_bytes flat_map app]. rewrite <- E.
    destruct p as [? ? ? ? ? ? ? ? ? ? ? []]. done. }
  cbn [write_csrcs]. cbn [length] in Hl. destruct (split_at tail 4) as (old & tail1 & -> & Hold); [lia|].
  rewrite zlen_app in *.
  rewrite (WriteIntAt_at 4 p pre old tail1 off x ltac:(lia) E Ho Hold). cbn [mbind outcome_bind].
  destruct (IH (set_bytes p (pre ++ be_bytes (Z.to_nat 4) x ++ tail1)) (pre ++ be_bytes 4 x) tail1 (off + 4))
    as (tail' & -> & Hl'); [by rewrite <- app_assoc|rewrite zlen_app, be_bytes_length; lia|lia|].
  exists tail'. split; [|cbn [length]; lia]. rewrite set_bytes_twice. cbn [csrc_bytes flat_map].
  by rewrite <- !app_assoc.
Qed.

Lemma SetCsrcs_built mem m c rest csrcs : zlen (c_csrcs c) ≤ 15 → zlen csrcs ≤ 15 → c_exts c = [] → c_payload c = [] →
  c_padding c = 0 → 12 + 4 * zlen csrcs ≤ capacity (built m c rest) →
  ∃ rest', SetCsrcs mem (built m c rest) csrcs = Done (built m (with_csrcs c csrcs) rest') ∧
    capacity (built m (with_csrcs c csrcs) rest') = capacity (built m c rest).
Proof.
  intros Hc Hn Ee Ep Ed Hcap. unfold SetCsrcs, kFixedHeaderSize.
  assert (encode c ++ rest = [byte0 false false (zlen (c_csrcs c))] ++ fixed_tail c ++ (csrc_bytes (c_csrcs c) ++ rest)) as E.
  { rewrite encode_first. unfold first_byte. rewrite Ee, Ep, Ed. cbn [app ext_block has_exts padding_bytes Z.ltb].
    by rewrite <- !app_assoc. }
  set (tail := csrc_bytes (c_csrcs c) ++ rest) in *.
  assert (capacity (built m c rest) = 12 + zlen tail) as Hcap'.
  { unfold capacity, buf_capacity, built. cbn [buffer_ storage]. rewrite E, !zlen_app, fixed_tail_length. cbn [length]. lia. }
  set (p := set_layout _ _ _ _). assert (bytes p = encode c ++ rest) as Eb by done. rewrite E in Eb.
  rewrite (read8_at (bytes p) [] _ _ 0 Eb) by done. cbn [mbind outcome_bind].
  rewrite (WriteAt_at p [] _ _ 0 _ Eb), byte0_csrcs by (done || lia). cbn [mbind outcome_bind].
  destruct (write_csrcs_at csrcs (set_bytes p ([] ++ [byte0 false false (zlen csrcs)] ++ fixed_tail c ++ tail))
    ([byte0 false false (zlen csrcs)] ++ fixed_tail c) tail 12) as (tail' & -> & Hl);
    [done|by rewrite zlen_app, fixed_tail_length|lia|].
  cbn [mbind outcome_bind]. rewrite set_bytes_twice.
  assert (encode (with_csrcs c csrcs) ++ tail' =
    ([byte0 false false (zlen csrcs)] ++ fixed_tail c) ++ csrc_bytes csrcs ++ tail') as E'.
  { rewrite encode_first. unfold first_byte. cbn [with_csrcs c_padding c_exts c_csrcs c_payload c_two_byte].
    rewrite Ee, Ep, Ed. cbn [app ext_block has_exts padding_bytes Z.ltb]. rewrite app_nil_r. by rewrite <- !app_assoc. }
  assert (capacity (built m (with_csrcs c csrcs) tail') = 12 + zlen tail) as Hcap2.
  { unfold capacity, buf_capacity, built. cbn [buffer_ storage]. rewrite E'.
    rewrite !zlen_app, fixed_tail_length, csrc_bytes_length. cbn [length]. lia. }
  exists tail'. split; [|by rewrite Hcap', Hcap2].
  rewrite <- E'. rewrite BufferSetSize_fits.
  2: { unfold capacity, buf_capacity, built in Hcap2 |- *. cbn [buffer_ storage] in Hcap2.
       cbn [set_bytes set_buffer set_layout buffer_ storage payload_offset_ p]. lia. }
  assert (zlen (header_bytes (with_csrcs c csrcs)) = 12 + 4 * zlen csrcs) as Eh.
  { rewrite header_bytes_length. cbn [with_csrcs c_exts c_csrcs c_two_byte]. rewrite Ee. cbn [ext_block length]. lia. }
  unfold built. rewrite Eh, encode_length by (cbn [with_csrcs c_padding]; lia). rewrite Eh.
  cbn [with_csrcs c_marker c_type c_seq c_time c_ssrc c_csrcs c_two_byte c_exts c_payload c_padding].
  unfold p. packet_simpl.
  rewrite Ee, Ep, Ed. cbn [layout exts_bytes flat_map length]. change (Z.of_nat 0) with 0.
  by rewrite !Z.add_0_r.
Qed.

Lemma capacity_built m c rest : capacity (built m c rest) = zlen (encode c) + zlen rest.
Proof. unfold capacity, buf_capacity, built. cbn [buffer_ storage]. by rewrite zlen_app. Qed.

(** [memcpy(packet.AllocatePayload(size), data, size)] *)
Definition WritePayload (mem : Z → Z) (p : RtpPacket) (data : list Z) : outcome RtpPacket :=
  let p := AllocatePayload mem p (zlen data) in WriteBytesAt p (payload_offset_ p) data.

Lemma WritePayload_built mem m c rest data : c_padding c = 0 →
  ∃ rest', WritePayload mem (built m c rest) data = Done (built m (with_payload c data) rest') ∧
    capacity (built m (with_payload c data) rest') =
      Z.max (capacity (built m c rest)) (zlen (header_bytes c) + zlen data).
Proof.
  intros Ed. unfold WritePayload, AllocatePayload, SetPayloadSize. cbn [payload_offset_ padding_size_ set_layout built].
  set (h := zlen (header_bytes c)).
  assert (encode c ++ rest = header_bytes c ++ (c_payload c ++ rest)) as E.
  { unfold encode. rewrite Ed. cbn [padding_bytes Z.ltb]. by rewrite app_nil_r, <- app_assoc. }
  assert (h ≤ capacity (built m c rest)) as Hh.
  { unfold capacity, buf_capacity, built. cbn [buffer_ storage]. rewrite E, zlen_app. lia. }
  rewrite (BufferSetSize_fits mem _ (h + 0)).
  2: { change (h + 0 ≤ capacity (built m c rest)). lia. }
  cbn [payload_offset_ payload_size_ padding_size_ set_layout set_buffer].
  unfold BufferSetSize. cbn [buffer_ set_layout set_buffer].
  change (bytes (set_layout (built m c rest) h 0 (c_padding c))) with (encode c ++ rest).
  destruct (SetSize_keeps mem (MkBuffer (encode c ++ rest) (h + 0)) (header_bytes c) (c_payload c ++ rest)
    (h + zlen data) E) as (tail & -> & Hl); [cbn [buf_size]; fold h; lia|fold h; lia|].
  unfold buf_capacity in Hl. cbn [storage] in Hl. fold h in Hl.
  destruct (split_at tail (zlen data)) as (old & rest' & -> & Hold).
  { unfold capacity, buf_capacity, built in Hh. cbn [buffer_ storage] in Hh. lia. }
  erewrite WriteBytesAt_at; [| |done|exact Hold].
  2: { cbn [set_buffer bytes buffer_ storage]. reflexivity. }
  assert (encode (with_payload c data) ++ rest' = header_bytes c ++ data ++ rest') as E'.
  { unfold encode. cbn [with_payload c_payload c_padding]. rewrite Ed. cbn [padding_bytes Z.ltb].
    rewrite app_nil_r, <- app_assoc. done. }
  exists rest'. split.
  - rewrite <- E'. unfold built. rewrite (encode_length (with_payload c data)) by (cbn [with_payload c_padding]; lia).
    packet_simpl. cbn [with_payload c_padding c_payload]. rewrite Ed, !Z.add_0_r. done.
  - rewrite !capacity_built, <- !zlen_app, E'. rewrite !zlen_app in *. fold h. lia.
Qed.

Lemma SetPadding_built mem m c rest n : zlen (c_csrcs c) ≤ 15 → 0 ≤ c_padding c → 0 ≤ n ≤ 255 →
  let ok := zlen (header_bytes c) + zlen (c_payload c) + n <=? capacity (built m c rest) in
  let c' := if ok then with_padding c n else c in
  ∃ rest', SetPadding mem (built m c rest) n = Done (built m c' rest', ok) ∧
    capacity (built m c' rest') = capacity (built m c rest).
Proof.
  intros Hcs Hd Hn ok c'. unfold SetPadding. cbn [payload_offset_ payload_size_ built]. rewrite Z.gtb_ltb. subst ok c'.
  destruct (Z.ltb_spec (capacity (built m c rest)) (zlen (header_bytes c) + zlen (c_payload c) + n)).
  { exists rest. destruct (Z.leb_spec (zlen (header_bytes c) + zlen (c_payload c) + n) (capacity (built m c rest))); [lia|done]. }
  destruct (Z.leb_spec (zlen (header_bytes c) + zlen (c_payload c) + n) (capacity (built m c rest))); [|lia].
  rewrite u8_id by (unfold uint8; lia). cbn [payload_offset_ payload_size_ padding_size_ set_layout built].
  set (B := fixed_tail c ++ csrc_bytes (c_csrcs c) ++ ext_block (c_two_byte c) (c_exts c) ++ c_payload c).
  assert (∀ k, encode (with_padding c k) = [byte0 (0 <? k) (has_exts (c_exts c)) (zlen (c_csrcs c))] ++ B ++ padding_bytes k) as Ek.
  { intros k. rewrite encode_first. unfold B, first_byte. cbn [with_padding c_padding c_exts c_csrcs c_two_byte c_payload].
    by rewrite <- !app_assoc. }
  assert (encode c ++ rest = [first_byte c] ++ B ++ (padding_bytes (c_padding c) ++ rest)) as E.
  { rewrite encode_first. unfold B. by rewrite <- !app_assoc. }
  assert (1 + zlen B = zlen (header_bytes c) + zlen (c_payload c)) as HB.
  { unfold B. rewrite header_bytes_length, !zlen_app, fixed_tail_length, csrc_bytes_length. lia. }
  set (tail := padding_bytes (c_padding c) ++ rest) in *.
  assert (capacity (built m c rest) = 1 + zlen B + zlen tail) as Hcap.
  { rewrite capacity_built, <- zlen_app, E, !zlen_app. cbn [length]. lia. }
  assert (zlen (header_bytes (with_padding c n)) = zlen (header_bytes c)) as Eh by by rewrite !header_bytes_length.
  rewrite BufferSetSize_fits by (change (capacity (set_layout (built m c rest) (zlen (header_bytes c))
    (zlen (c_payload c)) n)) with (capacity (built m c rest)); lia).
  set (p := set_buffer _ _). change (payload_offset_ p) with (zlen (header_bytes c)).
  change (payload_size_ p) with (zlen (c_payload c)). change (padding_size_ p) with n.
  assert (bytes p = [first_byte c] ++ B ++ tail) as Eb by exact E.
  destruct (byte0_set_padding (0 <? c_padding c) (has_exts (c_exts c)) (zlen (c_csrcs c)) ltac:(lia)) as (B1 & B2 & _).
  fold (first_byte c) in B1, B2.
  assert (∀ rest', set_bytes p (encode (with_padding c n) ++ rest') = built m (with_padding c n) rest') as Hset.
  { intros rest'. unfold built. rewrite (encode_length (with_padding c n)) by (cbn [with_padding c_padding]; lia). rewrite Eh. done. }
  rewrite Z.gtb_ltb. destruct (Z.ltb_spec 0 n) as [Hpos|Hz].
  - destruct (split_at tail n) as (old & rest' & Et & Hold); [lia|].
    destruct (split_at old (n - 1)) as (o1 & o2 & -> & Ho1); [lia|].
    rewrite zlen_app in Hold. destruct o2 as [|x [|]]; cbn [length] in Hold; [lia| |lia].
    rewrite (WriteBytesAt_at p ([first_byte c] ++ B) o1 _ ([x] ++ rest')).
    2: { rewrite Eb, Et. by rewrite <- !app_assoc. } 2: { rewrite zlen_app. cbn [length]. lia. }
    2: { rewrite length_replicate. lia. }
    cbn [mbind outcome_bind]. set (z := replicate (Z.to_nat (n - 1)) 0).
    assert (zlen z = n - 1) as Hz' by (unfold z; rewrite length_replicate; lia).
    rewrite (WriteAt_at _ ([first_byte c] ++ B ++ z) x rest').
    2: { cbn [bytes set_bytes set_buffer buffer_ storage]. by rewrite <- !app_assoc. }
    2: { rewrite !zlen_app. cbn [length]. lia. }
    cbn [mbind outcome_bind]. change (padding_size_ (set_bytes _ _)) with n.
    rewrite set_bytes_twice, (u8_id n) by (unfold uint8; lia).
    rewrite (read8_at _ [] (first_byte c) (B ++ z ++ [n] ++ rest')); [|by cbn; rewrite <- !app_assoc|done].
    cbn [mbind outcome_bind]. rewrite (WriteAt_at _ [] (first_byte c) (B ++ z ++ [n] ++ rest')); [|by cbn; rewrite <- !app_assoc|done].
    cbn [mbind outcome_bind]. rewrite set_bytes_twice, B1.
    assert (encode (with_padding c n) ++ rest' = [] ++ [byte0 true (has_exts (c_exts c)) (zlen (c_csrcs c))] ++ B ++ z ++ [n] ++ rest') as E'.
    { rewrite Ek. unfold padding_bytes. destruct (Z.ltb_spec 0 n); [|lia]. fold z. cbn [app]. by rewrite <- !app_assoc. }
    exists rest'. rewrite <- E', Hset. split; [done|]. rewrite Hcap, capacity_built, <- zlen_app, E', Et, !zlen_app. cbn [length]. lia.
  - replace n with 0 in * by lia. rewrite (read8_at _ [] (first_byte c) (B ++ tail) 0 Eb) by done.
    cbn [mbind outcome_bind]. rewrite (WriteAt_at _ [] (first_byte c) (B ++ tail) 0 _ Eb) by done. cbn [mbind outcome_bind].
    rewrite B2. assert (encode (with_padding c 0) ++ tail = [] ++ [byte0 false (has_exts (c_exts c)) (zlen (c_csrcs c))] ++ B ++ tail) as E'.
    { rewrite Ek. cbn [padding_bytes Z.ltb app Z.compare]. by rewrite app_nil_r. }
    exists tail. rewrite <- E', Hset. split; [done|]. rewrite Hcap, capacity_built, <- zlen_app, E', !zlen_app. cbn [length]. lia.
Qed.
