(* ===== verification/RtpExtend.v ===== *)
(** Header extensions of RTP packets: [AllocateRawExtension], [PromoteToTwoByteHeaderExtension]
    and [SetRawExtension] of modules/rtp_rtcp/source/rtp_packet.cc on the packets of RtpBuild.

    An extension is appended to the block behind the CSRCs; when one needs a header of two
    bytes, those already there are moved to make room for theirs. *)
From S2P Require Import Prelude ByteIo Rtcp RtpExtensionMap RtpPacket RtpWire RtpEncode RtpBuild.

(** * The end of the extension block *)

Lemma finish_extensions_at mem p A P W bs T base : bytes p = A ++ P ++ W ++ bs ++ T → zlen P = 2 → zlen W = 2 →
  base = zlen A + 4 → extensions_size_ p = zlen bs → base + 4 * words (zlen bs) ≤ capacity p ≤ 65535 →
  ∃ T', finish_extensions mem p base = Done (set_buffer
      (set_layout p (base + 4 * words (zlen bs)) (payload_size_ p) (padding_size_ p))
      (MkBuffer (A ++ P ++ be_bytes 2 (words (zlen bs)) ++ bs ++ fill4 (zlen bs) ++ T') (base + 4 * words (zlen bs)))) ∧
    zlen (fill4 (zlen bs)) + zlen T' = zlen T.
Proof.
  intros E HP HW Hb Hs Hr. pose proof (words_fill (zlen bs) ltac:(lia)) as [Hw Hw2].
  assert (capacity p = zlen A + 4 + zlen bs + zlen T) as Hcap.
  { unfold capacity, buf_capacity. fold (bytes p). rewrite E, !zlen_app. lia. }
  unfold finish_extensions, SetExtensionLengthMaybeAddZeroPadding. rewrite Hs. fold (words (zlen bs)).
  rewrite (u16_id (words (zlen bs))) by (unfold uint16; lia).
  rewrite (WriteIntAt_at 2 p (A ++ P) W (bs ++ T)); [|lia|by rewrite E, <- !app_assoc|rewrite zlen_app; lia|done].
  cbn [mbind outcome_bind]. change (extensions_size_ (set_bytes _ _)) with (extensions_size_ p). rewrite Hs.
  destruct (split_at T (zlen (fill4 (zlen bs)))) as (old & T' & -> & Hold); [lia|].
  rewrite (WriteBytesAt_at _ (A ++ P ++ be_bytes 2 (words (zlen bs)) ++ bs) old _ T').
  2: { cbn [bytes set_bytes set_buffer buffer_ storage]. change (Z.to_nat 2) with 2%nat. by rewrite <- !app_assoc. }
  2: { rewrite !zlen_app, be_bytes_length. lia. }
  2: { rewrite Hold. done. }
  cbn [mbind outcome_bind]. rewrite set_bytes_twice. fold (fill4 (zlen bs)). exists T'.
  rewrite u16_id by (unfold uint16; lia). rewrite zlen_app in Hcap |- *. split; [|lia].
  rewrite BufferSetSize_fits.
  2: { unfold capacity, buf_capacity. packet_simpl. rewrite !zlen_app, be_bytes_length. lia. }
  packet_simpl. by rewrite <- !app_assoc.
Qed.

(** * Moving to headers of two bytes *)

(** The entries are taken from the last; before them is the room that the headers of the
    remaining ones will take. *)
Lemma promote_loop_spec base A : base = zlen A → ∀ es moved done room T s,
  s = A ++ exts_bytes false es ++ room ++ moved ++ T → zlen room = zlen es →
  base + zlen (exts_bytes true es) ≤ 65535 → Forall (λ e, uint8 e.1 ∧ uint8 (zlen e.2)) es →
  promote_loop (rev (layout false base es)) (zlen es) s done =
  Done (A ++ exts_bytes true es ++ moved ++ T, layout true base es ++ done).
Proof.
  intros Hb es. induction es as [|[id d] es IH] using rev_ind; intros moved done room T s Es Hroom Hr Hf.
  { cbn [exts_bytes flat_map length] in *. destruct room; [|cbn in Hroom; lia]. by rewrite Es. }
  apply Forall_app in Hf as [Hf Hf1]. apply Forall_cons_1 in Hf1 as [[Hid layout_lengthn] _]. cbn [fst snd] in Hid, layout_lengthn.
  rewrite exts_bytes_app in Es, Hr. cbn [exts_bytes flat_map] in Es, Hr.
  fold (exts_bytes false es) in Es. fold (exts_bytes true es) in Hr.
  rewrite app_nil_r in Es, Hr. unfold ext_bytes in Es. cbn [ext_header fst snd] in Es.
  rewrite zlen_app, ext_bytes_length in Hr. cbn [ext_hlen snd] in Hr.
  pose proof (exts_bytes_grow es) as Hg.
  rewrite layout_app, rev_app_distr. cbn [layout rev app promote_loop ext_hlen ext_offset ext_length ext_id].
  set (n := zlen (exts_bytes false es)) in *. rewrite length_app in Hroom |- *. cbn [length] in Hroom |- *.
  assert (bytes_eq : s = (A ++ exts_bytes false es ++ [id * 16 + (zlen d - 1)]) ++ d ++ (room ++ moved ++ T))
    by (rewrite Es; by rewrite <- !app_assoc).
  rewrite read_mem_done by (rewrite ?bytes_eq, ?zlen_app; cbn [length]; lia). cbn [mbind outcome_bind].
  assert (slice s (base + n + 1) (zlen d) = d) as ->.
  { rewrite bytes_eq, slice_app_r by (rewrite !zlen_app; cbn [length]; lia). by rewrite Nat2Z.id, take_app_length. }
  (* the region that is rewritten: the old header, the data and the room *)
  destruct (split_at ([id * 16 + (zlen d - 1)] ++ d ++ room) (zlen es)) as (r1 & R & ER & Hr1);
    [rewrite !zlen_app; lia|].
  assert (zlen R = 2 + zlen d) as HR.
  { apply (f_equal (λ l, zlen l)) in ER. rewrite !zlen_app in ER. cbn [length] in ER. lia. }
  destruct R as [|x1 [|x2 r4]]; cbn [length] in HR; [lia|lia|].
  assert (s = (A ++ exts_bytes false es ++ r1 ++ [x1] ++ [x2]) ++ r4 ++ (moved ++ T)) as Er.
  { rewrite Es. rewrite <- !app_assoc. do 2 f_equal. rewrite !app_assoc. do 2 f_equal. rewrite <- !app_assoc. exact ER. }
  rewrite (write_mem_at _ _ _ d _ _ Er) by (rewrite ?zlen_app; cbn [length]; lia). cbn [mbind outcome_bind].
  unfold write8. rewrite !u8_id by done.
  rewrite (write_mem_at _ (A ++ exts_bytes false es ++ r1 ++ [x1]) [x2] [zlen d] (d ++ moved ++ T));
    [|by rewrite <- !app_assoc|rewrite !zlen_app; cbn [length]; lia|done]. cbn [mbind outcome_bind].
  rewrite (write_mem_at _ (A ++ exts_bytes false es ++ r1) [x1] [id] ([zlen d] ++ d ++ moved ++ T));
    [|by rewrite <- !app_assoc|rewrite !zlen_app; cbn [length]; lia|done]. cbn [mbind outcome_bind].
  replace (Z.of_nat (length es + 1) - 1) with (zlen es) by lia.
  rewrite (IH ([id; zlen d] ++ d ++ moved) _ r1 T); [|by rewrite <- !app_assoc|lia|lia|done].
  f_equal. f_equal.
  - rewrite exts_bytes_app. cbn [exts_bytes flat_map]. unfold ext_bytes. cbn [ext_header fst snd].
    rewrite app_nil_r. by rewrite <- !app_assoc.
  - rewrite layout_app. cbn [layout ext_hlen]. rewrite <- app_assoc. cbn [app]. f_equal. f_equal. f_equal.
    rewrite u16_id by (unfold uint16; lia). lia.
Qed.

Lemma get_be_mid B pre x suf off : B = 2 ∨ B = 4 → zlen x = B → off = zlen pre →
  get_be B (pre ++ x ++ suf) off = get_be B x 0.
Proof.
  intros HB Hx ->. rewrite app_assoc, get_be_app by (rewrite ?zlen_app; lia).
  unfold get_be. rewrite !in_mem_true by (rewrite ?zlen_app; lia). f_equal.
  assert (∀ i, 0 ≤ i → (pre ++ x).[zlen pre + i] = x.[i]) as R.
  { intros i Hi. rewrite rd_app_r by lia. f_equal. lia. }
  pose proof (R 0 ltac:(lia)) as R0. rewrite Z.add_0_r in R0.
  destruct HB as [-> | ->]; unfold ReadBigEndian; cbn [Z.eqb Pos.eqb].
  - unfold ReadBigEndian_2. by rewrite R0, R by lia.
  - unfold ReadBigEndian_4, GetShl, Get. by rewrite R0, !R by lia.
Qed.

Lemma get_be_2 v pre suf off s : 0 ≤ v ≤ 65535 → s = pre ++ be_bytes 2 v ++ suf → off = zlen pre →
  get_be 2 s off = Done v.
Proof.
  intros Hv -> Ho. rewrite get_be_mid by (rewrite ?be_bytes_length; (done || by left)).
  pose proof (get_be_at 2 v [] [] 0) as H. cbn [app] in H. rewrite app_nil_r in H.
  apply H; [by left|lia|apply be_bytes_uint8|done].
Qed.

Lemma words_range n : 0 ≤ n → 4 * words n ≤ 65535 → 0 ≤ words n ≤ 65535.
Proof. intros. unfold words in *. zdiv. Qed.

(** The encoding up to the extensions. *)
Definition before_exts (b : Z) (c : Content) : list Z := [b] ++ fixed_tail c ++ csrc_bytes (c_csrcs c).

Lemma before_exts_length b c : zlen (before_exts b c) = 12 + 4 * zlen (c_csrcs c).
Proof. unfold before_exts. rewrite !zlen_app, fixed_tail_length, csrc_bytes_length. cbn [length]. lia. Qed.

Lemma encode_block c : c_exts c ≠ [] → c_payload c = [] → c_padding c = 0 →
  let bs := exts_bytes (c_two_byte c) (c_exts c) in
  encode c = before_exts (byte0 false true (zlen (c_csrcs c))) c ++ be_bytes 2 (profile (c_two_byte c)) ++
    be_bytes 2 (words (zlen bs)) ++ bs ++ fill4 (zlen bs).
Proof.
  intros Hne Ep Ed bs. rewrite encode_first. unfold first_byte, ext_block, before_exts. subst bs.
  destruct (c_exts c); [done|]. rewrite Ep, Ed. cbn [padding_bytes Z.ltb Z.compare app has_exts]. by rewrite <- !app_assoc, app_nil_r.
Qed.

(** A packet with extensions and nothing behind them, from its parts. *)
Lemma built_exts m c rest : c_exts c ≠ [] → c_payload c = [] → c_padding c = 0 →
  let bs := exts_bytes (c_two_byte c) (c_exts c) in
  built m c rest = MkRtp (c_marker c) (c_type c) 0 (c_seq c) (c_time c) (c_ssrc c)
    (ext_base (c_csrcs c) + 4 * words (zlen bs)) 0 m (layout (c_two_byte c) (ext_base (c_csrcs c)) (c_exts c)) (zlen bs)
    (MkBuffer (before_exts (byte0 false true (zlen (c_csrcs c))) c ++ be_bytes 2 (profile (c_two_byte c)) ++
       be_bytes 2 (words (zlen bs)) ++ bs ++ fill4 (zlen bs) ++ rest) (ext_base (c_csrcs c) + 4 * words (zlen bs))).
Proof.
  intros Hne Ep Ed bs. assert (zlen (header_bytes c) = ext_base (c_csrcs c) + 4 * words (zlen bs)) as Eh.
  { rewrite header_bytes_length, ext_block_length by done. unfold ext_base. fold bs. lia. }
  unfold built. rewrite (encode_length c), (encode_block c), Ep, Ed, Eh by (done || lia). fold bs. cbn [length].
  change (Z.of_nat 0) with 0. rewrite !Z.add_0_r. by rewrite <- !app_assoc.
Qed.

Lemma byte0_csrc_count padding exts n : 0 ≤ n ≤ 15 → Z.land (byte0 padding exts n) 0x0F = n.
Proof. intros Hn. by destruct (byte0_bits padding exts n Hn) as (_ & _ & _ & _ & H). Qed.

(** The packet in its parts: [B] is what is before the block. *)
Lemma promote_parts mem marker type seq time ssrc off m b B' W es T n sz base :
  let B := [b] ++ B' in
  Z.land b 0x0F = n → zlen B = 12 + 4 * n → base = 16 + 4 * n → zlen W = 2 → es ≠ [] →
  Forall (λ e, uint8 e.1 ∧ uint8 (zlen e.2)) es →
  base + 4 * words (zlen (exts_bytes true es)) ≤ base + zlen (exts_bytes false es) + zlen T ≤ 65535 →
  ∃ T', PromoteToTwoByteHeaderExtension mem (MkRtp marker type 0 seq time ssrc off 0 m (layout false base es)
      (zlen (exts_bytes false es)) (MkBuffer (B ++ be_bytes 2 0xBEDE ++ W ++ exts_bytes false es ++ T) sz)) =
    (let bs' := exts_bytes true es in let off' := base + 4 * words (zlen bs') in
    Done (MkRtp marker type 0 seq time ssrc off' 0 m (layout true base es) (zlen bs')
      (MkBuffer (B ++ be_bytes 2 0x1000 ++ be_bytes 2 (words (zlen bs')) ++ bs' ++ fill4 (zlen bs') ++ T') off'))) ∧
    zlen (exts_bytes true es) + zlen (fill4 (zlen (exts_bytes true es))) + zlen T' = zlen (exts_bytes false es) + zlen T.
Proof.
  intros B Hb HB Hbase HW Hne Hf Hcap. cbv zeta. pose proof (exts_bytes_grow es) as Hg.
  set (bs := exts_bytes false es) in *. set (bs' := exts_bytes true es) in *.
  pose proof (words_fill (zlen bs') ltac:(lia)) as [_ Hw].
  unfold PromoteToTwoByteHeaderExtension. cbn [bytes buffer_ storage extension_entries_ payload_size_].
  rewrite (read8_at _ [] b (B' ++ be_bytes 2 0xBEDE ++ W ++ bs ++ T)); [|unfold B; by rewrite <- app_assoc|done].
  cbn [mbind outcome_bind]. rewrite Hb, layout_length.
  replace (kFixedHeaderSize + n * 4 + 4) with base by (unfold kFixedHeaderSize; lia).
  assert ((zlen es >? 0) = true) as -> by (destruct es; [done|]; cbn [length]; rewrite Z.gtb_ltb; apply Z.ltb_lt; lia).
  cbn [negb orb Z.eqb].
  rewrite (get_be_2 0xBEDE B (W ++ bs ++ T)); [|lia|done|lia]. cbn [mbind outcome_bind].
  change (kOneByteExtensionProfileId =? 0xBEDE) with true. cbn [negb].
  destruct (split_at T (zlen es)) as (room & T1 & -> & Hroom); [lia|]. rewrite zlen_app in Hcap.
  rewrite (promote_loop_spec base (B ++ be_bytes 2 0xBEDE ++ W)) with (moved := []) (room := room) (T := T1);
    [|rewrite !zlen_app, !be_bytes_length; lia|by rewrite <- !app_assoc|done|fold bs'; lia|done].
  fold bs'. cbn [app]. rewrite app_nil_r. cbn [mbind outcome_bind].
  rewrite (WriteIntAt_at 2 _ B (be_bytes 2 0xBEDE) (W ++ bs' ++ T1)); [|lia|packet_simpl; by rewrite <- !app_assoc|lia|done].
  cbn [mbind outcome_bind]. change (Z.to_nat 2) with 2%nat. change kTwoByteExtensionProfileId with 0x1000.
  packet_simpl. rewrite layout_length.
  edestruct (finish_extensions_at mem) with (A := B) (P := be_bytes 2 0x1000) (W := W) (bs := bs') (T := T1)
    as (T' & E & HT'); [| | | | | |rewrite E]; [done|done|done|lia|cbn [extensions_size_]; lia| |].
  { unfold capacity, buf_capacity. cbn [buffer_ storage]. rewrite !zlen_app, !be_bytes_length. lia. }
  exists T'. split; [|rewrite zlen_app; lia]. packet_simpl. by replace (zlen bs + zlen es) with (zlen bs') by lia.
Qed.

Lemma promote_built mem m c rest : zlen (c_csrcs c) ≤ 15 → c_exts c ≠ [] → c_two_byte c = false → c_payload c = [] →
  c_padding c = 0 → Forall (λ e, uint8 e.1 ∧ uint8 (zlen e.2)) (c_exts c) →
  ext_base (c_csrcs c) + 4 * words (zlen (exts_bytes true (c_exts c))) ≤ capacity (built m c rest) ≤ 65535 →
  ∃ rest', PromoteToTwoByteHeaderExtension mem (built m c rest) = Done (built m (with_exts c true (c_exts c)) rest') ∧
    capacity (built m (with_exts c true (c_exts c)) rest') = capacity (built m c rest).
Proof.
  intros Hcs Hne Et Ep Ed Hf Hcap.
  pose proof (built_exts m c rest Hne Ep Ed) as Eb. rewrite Et in Eb. cbv zeta in Eb.
  pose proof (before_exts_length (byte0 false true (zlen (c_csrcs c))) c) as HB.
  destruct (promote_parts mem (c_marker c) (c_type c) (c_seq c) (c_time c) (c_ssrc c)
    (ext_base (c_csrcs c) + 4 * words (zlen (exts_bytes false (c_exts c)))) m
    (byte0 false true (zlen (c_csrcs c))) (fixed_tail c ++ csrc_bytes (c_csrcs c))
    (be_bytes 2 (words (zlen (exts_bytes false (c_exts c))))) (c_exts c)
    (fill4 (zlen (exts_bytes false (c_exts c))) ++ rest) (zlen (c_csrcs c))
    (ext_base (c_csrcs c) + 4 * words (zlen (exts_bytes false (c_exts c)))) (ext_base (c_csrcs c)))
    as (T' & E & HT); [apply byte0_csrc_count; lia|exact HB|done|done|done|done| |].
  { rewrite Eb in Hcap. unfold capacity, buf_capacity in Hcap. cbn [buffer_ storage] in Hcap.
    rewrite !zlen_app, !be_bytes_length, HB in Hcap. rewrite zlen_app. unfold ext_base in *. lia. }
  exists T'. pose proof (built_exts m (with_exts c true (c_exts c)) T' Hne Ep Ed) as Eb'.
  cbv zeta in Eb'. cbn [with_exts c_csrcs c_two_byte c_exts c_payload c_padding c_marker c_type c_seq c_time c_ssrc] in Eb'.
  split.
  - rewrite Eb, Eb'. exact E.
  - rewrite Eb, Eb'. unfold capacity, buf_capacity. cbn [buffer_ storage].
    change (before_exts _ (with_exts c true (c_exts c))) with (before_exts (byte0 false true (zlen (c_csrcs c))) c).
    rewrite !zlen_app, !be_bytes_length in *. lia.
Qed.

(** * Appending an extension *)

Lemma set_bytes_id p : set_bytes p (bytes p) = p.
Proof. by destruct p as [? ? ? ? ? ? ? ? ? ? ? []]. Qed.

(** The header of the block is there, or is written before the first extension. *)
Lemma open_block m c rest two_byte : zlen (c_csrcs c) ≤ 15 → c_payload c = [] → c_padding c = 0 →
  (c_exts c ≠ [] → c_two_byte c = two_byte) → Forall (λ e, 1 ≤ zlen e.2) (c_exts c) →
  let p := built m c rest in let base := ext_base (c_csrcs c) in let bs := exts_bytes two_byte (c_exts c) in
  base + zlen bs ≤ capacity p →
  ∃ W T, (if extensions_size_ p =? 0 then
            b ← read8 (bytes p) 0; p ← WriteAt p 0 (Z.lor b 0x10); WriteIntAt 2 p (base - 4) (profile two_byte)
          else Done p) =
    Done (set_bytes p (before_exts (byte0 false true (zlen (c_csrcs c))) c ++ be_bytes 2 (profile two_byte) ++ W ++ bs ++ T)) ∧
    zlen W = 2 ∧ base + zlen bs + zlen T = capacity p ∧ extensions_size_ p = zlen bs.
Proof.
  intros Hcs Ep Ed Et Hf p base bs Hcap. set (n := zlen (c_csrcs c)) in *. destruct (decide (c_exts c = [])) as [Ee|Hne].
  - assert (extensions_size_ p = 0) as -> by (unfold p, built; cbn [extensions_size_]; by rewrite Ee).
    cbn [Z.eqb]. unfold bs in *. rewrite Ee in *. cbn [exts_bytes flat_map length app] in *.
    assert (bytes p = [byte0 false false n] ++ (fixed_tail c ++ csrc_bytes (c_csrcs c)) ++ rest) as Eb.
    { unfold p. rewrite bytes_built, encode_first. unfold first_byte. rewrite Ep, Ed, Ee.
      cbn [ext_block padding_bytes Z.ltb Z.compare has_exts app]. by rewrite app_nil_r, <- !app_assoc. }
    assert (capacity p = base - 4 + zlen rest) as Hc'.
    { unfold capacity, buf_capacity. fold (bytes p). rewrite Eb, !zlen_app, fixed_tail_length, csrc_bytes_length.
      unfold base, ext_base. cbn [length]. lia. }
    destruct (split_at rest 2) as (P & r1 & E1 & HP); [lia|].
    assert (2 ≤ zlen r1) as Hr1 by (rewrite E1, zlen_app in Hc'; lia).
    destruct (split_at r1 2) as (W & T & E2 & HW); [lia|].
    rewrite (read8_at _ [] _ _ _ Eb) by done. cbn [mbind outcome_bind].
    rewrite (WriteAt_at p [] _ _ 0 _ Eb) by done. cbn [mbind outcome_bind].
    destruct (byte0_set_padding false false n ltac:(lia)) as (_ & _ & ->).
    rewrite (WriteIntAt_at 2 _ (before_exts (byte0 false true n) c) P (W ++ T)).
    2: lia. 2: { packet_simpl. rewrite E1, E2. unfold before_exts. by rewrite <- !app_assoc. }
    2: { rewrite before_exts_length. unfold base, ext_base. lia. } 2: done.
    exists W, T. split; [done|]. rewrite E1, E2, !zlen_app in Hc'. split_and!; [done|lia|done].
  - pose proof (built_exts m c rest Hne Ep Ed) as Eb. rewrite (Et Hne) in Eb. cbv zeta in Eb. fold bs base n in Eb. fold p in Eb.
    assert (extensions_size_ p = zlen bs) as Es by by rewrite Eb.
    assert (1 ≤ zlen bs) as Hpos.
    { unfold bs. destruct (c_exts c) as [|e es]; [done|]. cbn [exts_bytes flat_map]. rewrite zlen_app, ext_bytes_length.
      apply Forall_cons_1 in Hf as [He _]. destruct two_byte; cbn [ext_hlen]; lia. }
    destruct (Z.eqb_spec (extensions_size_ p) 0); [lia|].
    exists (be_bytes 2 (words (zlen bs))), (fill4 (zlen bs) ++ rest).
    assert (bytes p = before_exts (byte0 false true n) c ++ be_bytes 2 (profile two_byte) ++
      be_bytes 2 (words (zlen bs)) ++ bs ++ fill4 (zlen bs) ++ rest) as Ebytes by by rewrite Eb.
    rewrite <- Ebytes, set_bytes_id. split_and!; [done|done| |done].
    unfold capacity, buf_capacity. fold (bytes p). rewrite Ebytes, !zlen_app, !be_bytes_length, before_exts_length.
    unfold base, ext_base. lia.
Qed.

Lemma ext_header_write mem_p pre old suf two_byte base id len : bytes mem_p = pre ++ old ++ suf →
  zlen old = ext_hlen two_byte → base + extensions_size_ mem_p = zlen pre →
  1 ≤ id ≤ (if two_byte then 255 else 14) → 1 ≤ len ≤ (if two_byte then 255 else 16) →
  write_extension_header mem_p (profile two_byte) base id len =
  Done (set_bytes mem_p (pre ++ ext_header two_byte id len ++ suf)).
Proof.
  intros E Ho Hp Hid Hlen. unfold write_extension_header. destruct two_byte; cbn [profile ext_hlen ext_header] in *.
  - change (0x1000 =? kOneByteExtensionProfileId) with false. cbv iota.
    destruct old as [|x [|y [|]]]; cbn [length] in Ho; try lia.
    rewrite (WriteAt_at mem_p pre x ([y] ++ suf)); [|done|done]. cbn [mbind outcome_bind].
    rewrite (WriteAt_at _ (pre ++ [u8 (u8 id)]) y suf);
      [|packet_simpl; by rewrite <- app_assoc|rewrite zlen_app; cbn [length]; change (extensions_size_ (set_bytes _ _)) with (extensions_size_ mem_p); lia].
    rewrite set_bytes_twice, <- app_assoc, !u8_id by (unfold uint8; rewrite ?u8_id by (unfold uint8; lia); lia). done.
  - change (0xBEDE =? kOneByteExtensionProfileId) with true. cbv iota. destruct old as [|x [|]]; cbn [length] in Ho; try lia.
    rewrite (WriteAt_at mem_p pre x suf) by done. do 4 f_equal.
    rewrite (u8_id id), (u8_id (len - 1)) by (unfold uint8; lia).
    rewrite Z.shiftl_mul_pow2 by lia. change (2 ^ 4) with 16. rewrite (u8_id (id * 16)) by (unfold uint8; lia).
    rewrite Z.lor_comm. pose proof (lor_shiftl_disjoint (len - 1) id 4 ltac:(lia) ltac:(lia)) as L.
    rewrite Z.shiftl_mul_pow2 in L by lia. change (2 ^ 4) with 16 in L. rewrite L, u8_id by (unfold uint8; lia). f_equal. lia.
Qed.

(** An id and a length that fit the header. *)
Definition fits_header (two_byte : bool) (id len : Z) : Prop :=
  1 ≤ id ≤ (if two_byte then 255 else 14) ∧ 1 ≤ len ≤ (if two_byte then 255 else 16).

Lemma append_built mem m c rest two_byte id len num_csrc : zlen (c_csrcs c) ≤ 15 → c_payload c = [] → c_padding c = 0 →
  (c_exts c ≠ [] → c_two_byte c = two_byte) → Forall (λ e, 1 ≤ zlen e.2) (c_exts c) → fits_header two_byte id len →
  let p := built m c rest in let base := ext_base (c_csrcs c) in let bs := exts_bytes two_byte (c_exts c) in
  capacity p ≤ 65535 → (4 | capacity p) →
  let off := base + zlen bs + ext_hlen two_byte in
  if off + len <=? capacity p then
    ∃ g rest', zlen g = len ∧
      let c' := with_exts c two_byte (c_exts c ++ [(id, g)]) in
      append_extension mem p num_csrc base (profile two_byte) id len = Done (built m c' rest', Some (off, len)) ∧
      capacity (built m c' rest') = capacity p
  else append_extension mem p num_csrc base (profile two_byte) id len = Done (p, None).
Proof.
  intros Hcs Ep Ed Et Hf [Hid Hlen] p base bs Hmax [q Hq] off. unfold append_extension.
  assert ((if profile two_byte =? kOneByteExtensionProfileId then kOneByteExtensionHeaderLength
    else kTwoByteExtensionHeaderLength) = ext_hlen two_byte) as -> by by destruct two_byte.
  assert (1 ≤ ext_hlen two_byte ≤ 2) as Hh by (destruct two_byte; cbn; lia).
  assert (extensions_size_ p = zlen bs) as Es.
  { unfold p, built, bs. cbn [extensions_size_]. destruct (decide (c_exts c = [])) as [->|Hne]; [done|]. by rewrite Et. }
  rewrite Es, Z.gtb_ltb. destruct (Z.leb_spec (off + len) (capacity p)) as [Hfit|Hno].
  2: { destruct (Z.ltb_spec (capacity p) (base + (zlen bs + ext_hlen two_byte + len))); [done|lia]. }
  destruct (Z.ltb_spec (capacity p) (base + (zlen bs + ext_hlen two_byte + len))); [lia|].
  rewrite <- Es. edestruct (open_block m c rest two_byte Hcs Ep Ed Et Hf) as (W & T & E1 & HW & HT & _);
    [fold p base bs; lia|]. fold p base bs in E1, HT. rewrite E1. cbn [mbind outcome_bind]. clear E1.
  destruct (split_at T (ext_hlen two_byte)) as (h0 & T1 & -> & Hh0); [lia|]. rewrite zlen_app in HT.
  destruct (split_at T1 len) as (g & T2 & -> & Hg); [lia|]. rewrite zlen_app in HT.
  set (B := before_exts (byte0 false true (zlen (c_csrcs c))) c).
  assert (zlen B + 4 = base) as HB by (unfold B, base, ext_base; rewrite before_exts_length; lia).
  rewrite (ext_header_write _ (B ++ be_bytes 2 (profile two_byte) ++ W ++ bs) h0 (g ++ T2)).
  2: { packet_simpl. by rewrite <- !app_assoc. } 2: done.
  2: { change (extensions_size_ (set_bytes _ _)) with (extensions_size_ p). rewrite Es, !zlen_app, be_bytes_length. lia. }
  2: done. 2: done.
  cbn [mbind outcome_bind]. rewrite set_bytes_twice. change (extensions_size_ (set_bytes _ _)) with (extensions_size_ p).
  rewrite Es. rewrite (u8_id len), (u8_id id) by (unfold uint8; destruct two_byte; lia).
  rewrite u16_id by (unfold uint16; lia).
  set (es' := c_exts c ++ [(id, g)]).
  assert (exts_bytes two_byte es' = bs ++ ext_header two_byte id len ++ g) as Ebs.
  { unfold es'. rewrite exts_bytes_app. unfold bs. f_equal. cbn [exts_bytes flat_map]. rewrite app_nil_r.
    unfold ext_bytes. cbn [fst snd]. by rewrite Hg. }
  set (bs' := exts_bytes two_byte es') in *.
  assert (zlen bs' = zlen bs + ext_hlen two_byte + len) as Hbs'.
  { rewrite Ebs, !zlen_app, ext_header_length. lia. }
  pose proof (words_fill (zlen bs') ltac:(lia)) as [_ Hw].
  assert (base + 4 * words (zlen bs') ≤ capacity p) as Hroom by (unfold base, ext_base in *; lia).
  match goal with |- context [finish_extensions mem ?x base] => set (p2 := x) end.
  destruct (finish_extensions_at mem p2 B (be_bytes 2 (profile two_byte)) W bs' T2 base) as (T' & E2 & HT').
  { unfold p2. packet_simpl. rewrite Ebs. by rewrite <- !app_assoc. }
  { done. } { done. } { done. } { unfold p2. packet_simpl. lia. }
  { replace (capacity p2) with (capacity p); [lia|]. unfold p2, capacity at 2, buf_capacity. packet_simpl.
    rewrite !zlen_app, !be_bytes_length, ext_header_length. lia. }
  rewrite E2. cbn [mbind outcome_bind]. exists g, T'. split; [done|]. cbv zeta.
  rewrite (built_exts m (with_exts c two_byte es')).
  2: { unfold es'. cbn [with_exts c_exts]. by destruct (c_exts c). } 2: done. 2: done.
  cbn [with_exts c_csrcs c_two_byte c_exts c_payload c_padding c_marker c_type c_seq c_time c_ssrc].
  fold bs' base. change (before_exts _ (with_exts c two_byte es')) with B. split.
  - f_equal. f_equal.
    assert (layout two_byte base es' = layout (c_two_byte c) base (c_exts c) ++ [MkInfo id len (base + zlen bs + ext_hlen two_byte)]) as ->.
    { unfold es'. rewrite layout_app. cbn [layout]. rewrite Hg. f_equal.
      destruct (decide (c_exts c = [])) as [->|Hne]; [done|]. by rewrite Et. }
    unfold p2, p. packet_simpl. rewrite Ep, Ed. fold base. cbn [length]. f_equal. lia.
  - unfold capacity at 1, buf_capacity. cbn [buffer_ storage]. rewrite !zlen_app, !be_bytes_length. lia.
Qed.

(** * Allocation *)

Fixpoint find_ext (es : list (Z * list Z)) (id : Z) : option (list Z) :=
  match es with
  | [] => None
  | (i, d) :: es => if i =? id then Some d else find_ext es id
  end.

Lemma find_info_layout two_byte es id : ∀ base,
  match find_ext es id with
  | Some d => ∃ es1 es2, es = es1 ++ (id, d) :: es2 ∧ (id ∉ es1.*1) ∧ find_info (layout two_byte base es) id =
      Some (MkInfo id (zlen d) (base + zlen (exts_bytes two_byte es1) + ext_hlen two_byte))
  | None => (id ∉ es.*1) ∧ find_info (layout two_byte base es) id = None
  end.
Proof.
  induction es as [|[i x] es IH]; intros base; cbn [find_ext]; [split; [apply not_elem_of_nil|done]|].
  cbn [layout find_info ext_id]. destruct (Z.eqb_spec i id) as [->|Hne].
  { exists [], es. split; [done|]. split; [apply not_elem_of_nil|]. cbn [exts_bytes flat_map length].
    by rewrite Z.add_0_r. }
  specialize (IH (base + ext_hlen two_byte + zlen x)). destruct (find_ext es id) as [d|].
  - destruct IH as (es1 & es2 & -> & Hn & ->). exists ((i, x) :: es1), es2. split; [done|]. split.
    { cbn [fmap list_fmap fst]. apply not_elem_of_cons. split; [congruence|done]. }
    do 2 f_equal. cbn [exts_bytes flat_map]. rewrite zlen_app, ext_bytes_length. cbn [snd]. unfold exts_bytes. lia.
  - destruct IH as [Hn ->]. split; [|done]. cbn [fmap list_fmap fst]. apply not_elem_of_cons. split; [congruence|done].
Qed.

(** Which header an extension needs, and which all have when it has been added. *)
Definition needs_two_byte (id len : Z) : bool := (id >? 14) || (len >? 16) || (len =? 0).
Definition next_two_byte (c : Content) (id len : Z) : bool :=
  needs_two_byte id len || (has_exts (c_exts c) && c_two_byte c).

(** What the operations rely on. *)
Record content_ok (c : Content) : Prop := {
  co_csrcs : zlen (c_csrcs c) ≤ 15;
  co_padding : 0 ≤ c_padding c;
  co_exts : Forall (λ e, fits_header (c_two_byte c) e.1 (zlen e.2)) (c_exts c);
}.

Lemma exts_lengths two_byte (es : list (Z * list Z)) :
  Forall (λ e, fits_header two_byte e.1 (zlen e.2)) es → Forall (λ e, 1 ≤ zlen e.2) es.
Proof. intros H. eapply list.Forall_impl; [exact H|]. intros e [_ He]. lia. Qed.

Lemma exts_bytes_pos two_byte (es : list (Z * list Z)) :
  Forall (λ e, fits_header two_byte e.1 (zlen e.2)) es → es ≠ [] → 0 < zlen (exts_bytes two_byte es).
Proof.
  intros H Hne. destruct H as [|e es [_ He] _]; [done|]. cbn [exts_bytes flat_map]. rewrite zlen_app, ext_bytes_length.
  destruct two_byte; cbn [ext_hlen]; lia.
Qed.

Lemma fits_two (two : bool) id len : 1 ≤ id ≤ 255 → 1 ≤ len ≤ 255 → (needs_two_byte id len = true → two = true) →
  fits_header two id len.
Proof.
  intros Hid Hlen Hn. destruct two; [split; lia|]. destruct (needs_two_byte id len) eqn:E; [by specialize (Hn eq_refl)|].
  unfold needs_two_byte in E. split; lia.
Qed.

Section allocate.
Context (mem : Z → Z) (m : RtpHeaderExtensionMap) (c : Content) (rest : list Z) (id len : Z).
Let p := built m c rest.
Let base := ext_base (c_csrcs c).
Let two_byte := next_two_byte c id len.
Let off := base + zlen (exts_bytes two_byte (c_exts c)) + ext_hlen two_byte.

(** What a new extension does to the packet. *)
Definition allocated (result : outcome (RtpPacket * option (Z * Z))) : Prop :=
  if off + len <=? capacity p then
    ∃ g rest', zlen g = len ∧
      let c' := with_exts c two_byte (c_exts c ++ [(id, g)]) in
      result = Done (built m c' rest', Some (off, len)) ∧ capacity (built m c' rest') = capacity p
  else result = Done (p, None).

Context (Hok : content_ok c) (Hid : 1 ≤ id ≤ 255) (Hlen : 1 ≤ len ≤ 255) (Hmax : capacity p ≤ 65535)
  (Hdiv : (4 | capacity p)) (Ep : c_payload c = []) (Ed : c_padding c = 0).

(** The choice of the header. *)
Lemma allocate_start : (needs_two_byte id len = true → extmap_allow_mixed_ m = true) → find_ext (c_exts c) id = None →
  AllocateRawExtension mem p id len =
  if has_exts (c_exts c) && negb (c_two_byte c) && needs_two_byte id len then
    if base + (zlen (exts_bytes false (c_exts c)) + zlen (c_exts c) + 2 + len) >? capacity p then Done (p, None)
    else p ← PromoteToTwoByteHeaderExtension mem p; append_extension mem p (zlen (c_csrcs c)) base (profile true) id len
  else append_extension mem p (zlen (c_csrcs c)) base (profile two_byte) id len.
Proof using All.
  pose proof Hok as [Hcs _ Hf]. intros Hmixed Hfind. unfold AllocateRawExtension, FindExtensionInfo.
  pose proof (find_info_layout (c_two_byte c) (c_exts c) id base) as Hi. rewrite Hfind in Hi. destruct Hi as [_ Hi].
  change (extension_entries_ p) with (layout (c_two_byte c) base (c_exts c)). rewrite Hi.
  change (payload_size_ p) with (zlen (c_payload c)). change (padding_size_ p) with (c_padding c). rewrite Ep, Ed.
  cbn [length]. change (Z.of_nat 0 >? 0) with false. change (0 >? 0) with false. cbv iota.
  rewrite (read8_at (bytes p) [] (first_byte c) (fixed_tail c ++ csrc_bytes (c_csrcs c) ++
    ext_block (c_two_byte c) (c_exts c) ++ c_payload c ++ padding_bytes (c_padding c) ++ rest));
    [|unfold p; rewrite bytes_built, encode_first; by rewrite <- !app_assoc|done].
  cbn [mbind outcome_bind]. unfold first_byte. rewrite byte0_csrc_count by lia.
  replace (kFixedHeaderSize + zlen (c_csrcs c) * 4 + 4) with base by (unfold base, ext_base, kFixedHeaderSize; lia).
  change ((id >? kOneByteHeaderExtensionMaxId) || (len >? kOneByteHeaderExtensionMaxValueSize) || (len =? 0))
    with (needs_two_byte id len). change (extensions_ p) with m.
  assert (needs_two_byte id len && negb (extmap_allow_mixed_ m) = false) as ->.
  { destruct (needs_two_byte id len); [|done]. by rewrite Hmixed. }
  change (extensions_size_ p) with (zlen (exts_bytes (c_two_byte c) (c_exts c))). unfold two_byte, next_two_byte.
  destruct (decide (c_exts c = [])) as [Ee|Hne].
  { rewrite Ee. cbn [exts_bytes flat_map length Z.of_nat Z.gtb Z.compare has_exts andb orb]. rewrite orb_false_r.
    by destruct (needs_two_byte id len). }
  pose proof (exts_bytes_pos _ _ Hf Hne) as Hpos.
  assert ((zlen (exts_bytes (c_two_byte c) (c_exts c)) >? 0) = true) as -> by (rewrite Z.gtb_ltb; apply Z.ltb_lt; lia).
  replace (has_exts (c_exts c)) with true by by destruct (c_exts c).
  pose proof (built_exts m c rest Hne Ep Ed) as Eb. cbv zeta in Eb. fold p in Eb.
  rewrite (get_be_2 (profile (c_two_byte c)) (before_exts (byte0 false true (zlen (c_csrcs c))) c)
    (be_bytes 2 (words (zlen (exts_bytes (c_two_byte c) (c_exts c)))) ++ exts_bytes (c_two_byte c) (c_exts c) ++
     fill4 (zlen (exts_bytes (c_two_byte c) (c_exts c))) ++ rest));
    [|by destruct (c_two_byte c)|by rewrite Eb|rewrite before_exts_length; unfold base, ext_base; lia].
  cbn [mbind outcome_bind]. rewrite layout_length.
  destruct (c_two_byte c); cbn [andb orb negb]; [by rewrite orb_true_r|]. rewrite orb_false_r.
  by destruct (needs_two_byte id len).
Qed.

Lemma append_allocated two num_csrc : two_byte = two → (c_exts c ≠ [] → c_two_byte c = two) →
  (needs_two_byte id len = true → two = true) →
  allocated (append_extension mem p num_csrc base (profile two) id len).
Proof using All.
  pose proof Hok as [Hcs _ Hf]. intros E Ht Hn. unfold allocated, off. rewrite E.
  apply append_built; [done|done|done|done|by eapply exts_lengths|by apply fits_two|done|done].
Qed.

Lemma promote_allocated num_csrc : c_exts c ≠ [] → c_two_byte c = false → needs_two_byte id len = true →
  base + (zlen (exts_bytes false (c_exts c)) + zlen (c_exts c) + 2 + len) ≤ capacity p →
  allocated (p ← PromoteToTwoByteHeaderExtension mem p; append_extension mem p num_csrc base (profile true) id len).
Proof using All.
  pose proof Hok as [Hcs Hd Hf]. intros Hne Et Hn Hroom. pose proof (exts_bytes_grow (c_exts c)) as Hg.
  assert (two_byte = true) as E by (unfold two_byte, next_two_byte; by rewrite Hn).
  pose proof (words_fill (zlen (exts_bytes true (c_exts c))) ltac:(lia)) as [_ Hw].
  destruct (promote_built mem m c rest Hcs Hne Et Ep Ed) as (rest' & Epr & Hcap).
  { rewrite Et in Hf. eapply list.Forall_impl; [exact Hf|]. intros e [H1 H2]. unfold uint8. lia. }
  { fold p base. destruct Hdiv as [q Hq]. unfold base, ext_base in *. lia. }
  fold p in Hcap, Epr. rewrite Epr. cbn [mbind outcome_bind].
  pose proof (append_built mem m (with_exts c true (c_exts c)) rest' true id len num_csrc Hcs Ep Ed) as H.
  cbn [with_exts c_csrcs c_exts c_two_byte] in H. fold base in H. rewrite Hcap in H.
  unfold allocated, off. rewrite E. cbn [ext_hlen] in H |- *.
  specialize (H ltac:(done) ltac:(by eapply exts_lengths) (fits_two true id len Hid Hlen (λ _, eq_refl)) Hmax Hdiv).
  destruct (Z.leb_spec (base + zlen (exts_bytes true (c_exts c)) + 2 + len) (capacity p)); [exact H|lia].
Qed.

Lemma allocate_new : (needs_two_byte id len = true → extmap_allow_mixed_ m = true) → find_ext (c_exts c) id = None →
  allocated (AllocateRawExtension mem p id len).
Proof using All.
  intros Hmixed Hfind. rewrite allocate_start by done.
  destruct (has_exts (c_exts c) && negb (c_two_byte c) && needs_two_byte id len) eqn:E.
  - apply andb_prop in E as [E En]. apply andb_prop in E as [Ee Et]. apply negb_true_iff in Et.
    rewrite Z.gtb_ltb. pose proof (exts_bytes_grow (c_exts c)) as Hg.
    destruct (Z.ltb_spec (capacity p) (base + (zlen (exts_bytes false (c_exts c)) + zlen (c_exts c) + 2 + len))).
    + unfold allocated, off. replace two_byte with true by (unfold two_byte, next_two_byte; by rewrite En).
      cbn [ext_hlen]. destruct (Z.leb_spec (base + zlen (exts_bytes true (c_exts c)) + 2 + len) (capacity p)); [lia|done].
    + apply promote_allocated; try done. intros E. by rewrite E in Ee.
  - apply append_allocated; [done| |].
    + intros Hne. unfold two_byte, next_two_byte. replace (has_exts (c_exts c)) with true in * by by destruct (c_exts c).
      by destruct (c_two_byte c), (needs_two_byte id len).
    + unfold two_byte, next_two_byte. by intros ->.
Qed.
End allocate.

(** * Setting an extension *)

Lemma ext_block_split two_byte es1 id (d : list Z) es2 : ∃ pre suf, zlen pre = 4 + zlen (exts_bytes two_byte es1) + ext_hlen two_byte ∧
  ∀ d', zlen d' = zlen d → ext_block two_byte (es1 ++ (id, d') :: es2) = pre ++ d' ++ suf.
Proof.
  set (n := zlen (exts_bytes two_byte (es1 ++ (id, d) :: es2))).
  exists (be_bytes 2 (profile two_byte) ++ be_bytes 2 (words n) ++ exts_bytes two_byte es1 ++ ext_header two_byte id (zlen d)),
    (exts_bytes two_byte es2 ++ fill4 n). split.
  { rewrite !zlen_app, !be_bytes_length, ext_header_length. lia. }
  intros d' Hd. assert (exts_bytes two_byte (es1 ++ (id, d') :: es2) =
    exts_bytes two_byte es1 ++ (ext_header two_byte id (zlen d) ++ d') ++ exts_bytes two_byte es2) as E.
  { rewrite exts_bytes_app. f_equal. cbn [exts_bytes flat_map]. unfold ext_bytes at 1. cbn [fst snd]. by rewrite Hd. }
  assert (zlen (exts_bytes two_byte (es1 ++ (id, d') :: es2)) = n) as En.
  { unfold n. rewrite !exts_bytes_app, !zlen_app. cbn [exts_bytes flat_map]. rewrite !zlen_app, !ext_bytes_length.
    cbn [snd]. lia. }
  unfold ext_block. destruct (es1 ++ (id, d') :: es2) eqn:Ee; [by destruct es1|]. rewrite <- Ee in *. cbv zeta.
  rewrite En, E. by rewrite <- !app_assoc.
Qed.

Lemma layout_same two_byte es1 id (d d' : list Z) es2 base : zlen d' = zlen d →
  layout two_byte base (es1 ++ (id, d') :: es2) = layout two_byte base (es1 ++ (id, d) :: es2).
Proof. intros H. rewrite !layout_app. cbn [layout]. by rewrite H. Qed.

(** The data of an extension is overwritten where its entry says. *)
Lemma overwrite_built m c rest es1 id (d d' : list Z) es2 : c_exts c = es1 ++ (id, d) :: es2 → zlen d' = zlen d →
  WriteBytesAt (built m c rest) (ext_base (c_csrcs c) + zlen (exts_bytes (c_two_byte c) es1) + ext_hlen (c_two_byte c)) d' =
  Done (built m (with_exts c (c_two_byte c) (es1 ++ (id, d') :: es2)) rest) ∧
  zlen (encode (with_exts c (c_two_byte c) (es1 ++ (id, d') :: es2))) = zlen (encode c).
Proof.
  intros Ee Hd. destruct (ext_block_split (c_two_byte c) es1 id d es2) as (pre & suf & Hpre & Hsplit).
  set (A := before_exts (first_byte c) c). set (c' := with_exts c (c_two_byte c) (es1 ++ (id, d') :: es2)).
  set (Z1 := c_payload c ++ padding_bytes (c_padding c) ++ rest).
  assert (encode c ++ rest = (A ++ pre) ++ d ++ suf ++ Z1) as E.
  { rewrite encode_first, Ee, (Hsplit d eq_refl). unfold A, before_exts, Z1. by rewrite <- !app_assoc. }
  assert (has_exts (c_exts c') = has_exts (c_exts c)) as Hh.
  { unfold c'. cbn [with_exts c_exts]. rewrite Ee. by destruct es1. }
  assert (encode c' ++ rest = (A ++ pre) ++ d' ++ suf ++ Z1) as E'.
  { rewrite encode_first. unfold first_byte. rewrite Hh. unfold c'.
    cbn [with_exts c_exts c_two_byte c_csrcs c_payload c_padding]. rewrite (Hsplit d' Hd).
    unfold A, before_exts, Z1. by rewrite <- !app_assoc. }
  rewrite (WriteBytesAt_at _ (A ++ pre) d d' (suf ++ Z1)).
  2: exact E. 2: { rewrite zlen_app. unfold A. rewrite before_exts_length, Hpre. unfold ext_base. lia. } 2: done.
  assert (zlen (ext_block (c_two_byte c) (es1 ++ (id, d') :: es2)) = zlen (ext_block (c_two_byte c) (c_exts c))) as Hb.
  { rewrite Ee, (Hsplit d' Hd), (Hsplit d eq_refl), !zlen_app. lia. }
  assert (zlen (header_bytes c') = zlen (header_bytes c)) as Ehd.
  { rewrite !header_bytes_length. unfold c'. cbn [with_exts c_csrcs c_two_byte c_exts]. by rewrite Hb. }
  assert (zlen (encode c') = zlen (encode c)) as El.
  { pose proof (f_equal (λ l, zlen l) E) as L1. pose proof (f_equal (λ l, zlen l) E') as L2. cbv beta in L1, L2.
    rewrite !zlen_app in L1, L2. lia. }
  assert (zlen (exts_bytes (c_two_byte c) (es1 ++ (id, d') :: es2)) = zlen (exts_bytes (c_two_byte c) (c_exts c))) as Ebs.
  { rewrite Ee, !exts_bytes_app, !zlen_app. cbn [exts_bytes flat_map]. rewrite !zlen_app, !ext_bytes_length. cbn [snd]. lia. }
  split; [|done]. rewrite <- E'. f_equal. packet_simpl. rewrite Ehd, El. unfold c'.
  cbn [with_exts c_csrcs c_two_byte c_exts c_payload c_padding c_marker c_type c_seq c_time c_ssrc].
  by rewrite (layout_same (c_two_byte c) es1 id d d' es2 (ext_base (c_csrcs c)) Hd), <- Ee, Ebs.
Qed.

Fixpoint replace_ext (es : list (Z * list Z)) (id : Z) (data : list Z) : list (Z * list Z) :=
  match es with
  | [] => []
  | (i, d) :: es => if i =? id then (i, data) :: es else (i, d) :: replace_ext es id data
  end.

Lemma replace_ext_split es1 id d data es2 : (id ∉ es1.*1) →
  replace_ext (es1 ++ (id, d) :: es2) id data = es1 ++ (id, data) :: es2.
Proof.
  induction es1 as [|[i x] es1 IH]; intros H; cbn [app replace_ext]; [by rewrite Z.eqb_refl|].
  cbn [fmap list_fmap fst] in H. apply not_elem_of_cons in H as [H1 H2].
  destruct (Z.eqb_spec i id); [congruence|]. by rewrite IH.
Qed.

(** [SetRawExtension] on the contents: the data of an extension that is there is replaced if it
    has the same length, a new one is added before there is payload or padding and if it fits. *)
Definition spec_SetExtension (m : RtpHeaderExtensionMap) (cap : Z) (c : Content) (type : Z) (data : list Z)
  : Content * bool :=
  let len := zlen data in
  let id := GetId m type in
  if (len =? 0) || (255 <? len) || (id =? 0) ||
     (negb (extmap_allow_mixed_ m) && ((16 <? len) || (14 <? id))) then (c, false)
  else
    match find_ext (c_exts c) id with
    | Some d =>
        if zlen d =? len then (with_exts c (c_two_byte c) (replace_ext (c_exts c) id data), true) else (c, false)
    | None =>
        if (0 <? zlen (c_payload c)) || (0 <? c_padding c) then (c, false)
        else
          let two_byte := next_two_byte c id len in
          let exts := c_exts c ++ [(id, data)] in
          if ext_base (c_csrcs c) + zlen (exts_bytes two_byte exts) <=? cap
          then (with_exts c two_byte exts, true) else (c, false)
    end.

Lemma allocate_existing mem m c rest id len d : find_ext (c_exts c) id = Some d →
  ∃ es1 es2, c_exts c = es1 ++ (id, d) :: es2 ∧ (id ∉ es1.*1) ∧
    AllocateRawExtension mem (built m c rest) id len = Done (built m c rest,
      if zlen d =? len
      then Some (ext_base (c_csrcs c) + zlen (exts_bytes (c_two_byte c) es1) + ext_hlen (c_two_byte c), len) else None).
Proof.
  intros Ef. pose proof (find_info_layout (c_two_byte c) (c_exts c) id (ext_base (c_csrcs c))) as Hi. rewrite Ef in Hi.
  destruct Hi as (es1 & es2 & Ee & Hn & Hi). exists es1, es2. split; [done|]. split; [done|].
  unfold AllocateRawExtension, FindExtensionInfo, built at 1. cbn [extension_entries_]. rewrite Hi.
  cbn [ext_length ext_offset]. by destruct (zlen d =? len).
Qed.

Lemma allocate_refused mem m c rest id len : find_ext (c_exts c) id = None →
  (0 <? zlen (c_payload c)) || (0 <? c_padding c) = true →
  AllocateRawExtension mem (built m c rest) id len = Done (built m c rest, None).
Proof.
  intros Ef Hor. pose proof (find_info_layout (c_two_byte c) (c_exts c) id (ext_base (c_csrcs c))) as Hi. rewrite Ef in Hi.
  destruct Hi as [_ Hi]. unfold AllocateRawExtension, FindExtensionInfo, built at 1. cbn [extension_entries_]. rewrite Hi.
  rewrite !Z.gtb_ltb. change (payload_size_ (built m c rest)) with (zlen (c_payload c)).
  change (padding_size_ (built m c rest)) with (c_padding c).
  destruct (0 <? zlen (c_payload c)); [done|]. by destruct (0 <? c_padding c).
Qed.

Section set_extension.
Context (mem : Z → Z) (m : RtpHeaderExtensionMap) (c : Content) (rest : list Z) (id : Z) (data : list Z).
Context (Hok : content_ok c) (Hid : 1 ≤ id ≤ 255) (Hlen : 1 ≤ zlen data ≤ 255).
Let p := built m c rest.
Context (Hmax : capacity p ≤ 65535) (Hdiv : (4 | capacity p)).
Context (Hmixed : needs_two_byte id (zlen data) = true → extmap_allow_mixed_ m = true).

(** [memcpy] to the view that was allocated. *)
Definition fill_extension (result : RtpPacket * option (Z * Z)) : outcome (RtpPacket * bool) :=
  let '(p, v) := result in
  match v with
  | None => Done (p, false)
  | Some (off, n) => if n =? 0 then Done (p, false) else p ← WriteBytesAt p off data; Done (p, true)
  end.

(** The contents after the extension is set to the data. *)
Definition set_contents : Content * bool :=
  match find_ext (c_exts c) id with
  | Some d =>
      if zlen d =? zlen data then (with_exts c (c_two_byte c) (replace_ext (c_exts c) id data), true) else (c, false)
  | None =>
      if (0 <? zlen (c_payload c)) || (0 <? c_padding c) then (c, false)
      else
        let two_byte := next_two_byte c id (zlen data) in
        let exts := c_exts c ++ [(id, data)] in
        if ext_base (c_csrcs c) + zlen (exts_bytes two_byte exts) <=? capacity p
        then (with_exts c two_byte exts, true) else (c, false)
  end.

Lemma fill_existing d : find_ext (c_exts c) id = Some d → let '(c', ok) := set_contents in
  ∃ rest', (r ← AllocateRawExtension mem p id (zlen data); fill_extension r) = Done (built m c' rest', ok) ∧
    capacity (built m c' rest') = capacity p.
Proof using Hlen.
  clear - Hlen. intros Ef. unfold set_contents. rewrite Ef.
  destruct (allocate_existing mem m c rest id (zlen data) d Ef) as (es1 & es2 & Ee & Hn & E). unfold p. rewrite E.
  cbn [mbind outcome_bind fill_extension]. destruct (Z.eqb_spec (zlen d) (zlen data)) as [Ed|]; [|by exists rest].
  destruct (Z.eqb_spec (zlen data) 0); [lia|].
  destruct (overwrite_built m c rest es1 id d data es2 Ee ltac:(done)) as [Ew El]. rewrite Ew. cbn [mbind outcome_bind].
  exists rest. rewrite Ee, replace_ext_split by done. split; [done|]. by rewrite !capacity_built, El.
Qed.

Lemma fill_new : find_ext (c_exts c) id = None → let '(c', ok) := set_contents in
  ∃ rest', (r ← AllocateRawExtension mem p id (zlen data); fill_extension r) = Done (built m c' rest', ok) ∧
    capacity (built m c' rest') = capacity p.
Proof using Hok Hid Hlen Hmax Hdiv Hmixed.
  intros Ef. unfold set_contents. rewrite Ef. destruct ((0 <? zlen (c_payload c)) || (0 <? c_padding c)) eqn:Eor.
  { unfold p. rewrite (allocate_refused mem m c rest id _ Ef Eor). by exists rest. }
  pose proof Hok as [Hcs Hd Hf]. apply orb_false_iff in Eor as [Ep Ed].
  assert (c_payload c = []) as Ep' by (apply nil_length_inv; lia).
  assert (c_padding c = 0) as Ed' by lia.
  pose proof (allocate_new mem m c rest id (zlen data) Hok Hid Hlen Hmax Hdiv Ep' Ed' Hmixed Ef) as H.
  unfold allocated in H. fold p in H. set (two := next_two_byte c id (zlen data)) in *.
  cbv zeta. rewrite exts_bytes_app, zlen_app. cbn [exts_bytes flat_map]. rewrite app_nil_r, ext_bytes_length. cbn [snd].
  fold (exts_bytes two (c_exts c)). rewrite !Z.add_assoc.
  destruct (_ <=? capacity p); [|rewrite H; by exists rest].
  destruct H as (g & rest' & Hg & E & Hcap). rewrite E. cbn [mbind outcome_bind fill_extension].
  destruct (Z.eqb_spec (zlen data) 0); [lia|]. set (c1 := with_exts c two (c_exts c ++ [(id, g)])) in *.
  destruct (overwrite_built m c1 rest' (c_exts c) id g data [] eq_refl ltac:(done)) as [Ew El].
  unfold c1 in Ew, El. cbn [with_exts c_csrcs c_two_byte] in Ew, El. fold c1 in Ew, El. rewrite Ew. cbn [mbind outcome_bind].
  exists rest'. split; [done|]. rewrite <- Hcap, !capacity_built. f_equal. exact El.
Qed.
End set_extension.

Lemma SetRawExtension_built mem m c rest type data : content_ok c → 0 ≤ GetId m type ≤ 255 →
  capacity (built m c rest) ≤ 65535 → (4 | capacity (built m c rest)) →
  let '(c', ok) := spec_SetExtension m (capacity (built m c rest)) c type data in
  ∃ rest', SetRawExtension mem (built m c rest) type data = Done (built m c' rest', ok) ∧
    capacity (built m c' rest') = capacity (built m c rest).
Proof.
  intros Hok Hid Hmax Hdiv. unfold spec_SetExtension, SetRawExtension, AllocateExtension.
  change (extensions_ (built m c rest)) with m. set (id := GetId m type) in *. set (len := zlen data).
  set (mixed := extmap_allow_mixed_ m).
  unfold kMaxValueSize, kOneByteHeaderExtensionMaxValueSize, kOneByteHeaderExtensionMaxId, kInvalidId.
  rewrite !Z.gtb_ltb. set (bad := negb mixed && ((16 <? len) || (14 <? id))).
  destruct ((len =? 0) || (255 <? len) || (id =? 0) || bad) eqn:E1.
  { exists rest. split; [|done]. unfold bad in E1.
    destruct (len =? 0); [done|]. destruct (255 <? len); [done|].
    destruct mixed, (16 <? len), (id =? 0), (14 <? id); done. }
  assert (1 ≤ len ≤ 255 ∧ 1 ≤ id ≤ 255 ∧ (mixed = true ∨ (len ≤ 16 ∧ id ≤ 14))) as (Hlen & Hid1 & Hm).
  { unfold bad in E1. destruct mixed; cbn [negb andb] in E1; split_and!; (lia || (left; done) || (right; lia)). }
  replace ((len =? 0) || (255 <? len) || (negb mixed && (16 <? len))) with false.
  2: { symmetry. unfold bad in E1. destruct mixed; cbn [negb andb] in *; lia. }
  destruct (Z.eqb_spec id 0); [lia|]. replace (negb mixed && (14 <? id)) with false.
  2: { symmetry. unfold bad in E1. destruct mixed; cbn [negb andb] in *; lia. }
  assert (needs_two_byte id len = true → mixed = true) as Hn.
  { intros Hn. destruct Hm as [|[H1 H2]]; [done|]. unfold needs_two_byte in Hn. lia. }
  change (let '(c', ok) := set_contents m c rest id data in ∃ rest',
    (r ← AllocateRawExtension mem (built m c rest) id len; fill_extension data r) = Done (built m c' rest', ok) ∧
    capacity (built m c' rest') = capacity (built m c rest)).
  destruct (find_ext (c_exts c) id) as [d|] eqn:Ef; [by apply (fill_existing _ _ _ _ _ _ Hlen d)|by apply fill_new].
Qed.
