(* ===== verification/RtpRoundtrip.v ===== *)
(** RTP packets from building to parsing: modules/rtp_rtcp/source/rtp_packet.cc.

    Any sequence of the operations that fill a packet refines the specification on its contents,
    and the bytes of the packet parse to one that answers every query alike. *)
From S2P Require Import Prelude ByteIo Rtcp RtpExtensionMap RtpPacket RtpWire RtpEncode RtpBuild RtpExtend.

(** * Operations *)

Inductive BuildOp : Type :=
  | OpMarker (marker : bool)
  | OpPayloadType (payload_type : Z)
  | OpSequenceNumber (seq_no : Z)
  | OpTimestamp (timestamp : Z)
  | OpSsrc (ssrc : Z)
  | OpCsrcs (csrcs : list Z)
  | OpExtension (type : Z) (data : list Z)
  | OpPayload (data : list Z)
  | OpPadding (padding_bytes : Z).

Definition always (r : outcome RtpPacket) : outcome (RtpPacket * bool) := p ← r; Done (p, true).

Definition build_step (mem : Z → Z) (p : RtpPacket) (op : BuildOp) : outcome (RtpPacket * bool) :=
  match op with
  | OpMarker marker => always (SetMarker p marker)
  | OpPayloadType payload_type => always (SetPayloadType p payload_type)
  | OpSequenceNumber seq_no => always (SetSequenceNumber p seq_no)
  | OpTimestamp timestamp => always (SetTimestamp p timestamp)
  | OpSsrc ssrc => always (SetSsrc p ssrc)
  | OpCsrcs csrcs => always (SetCsrcs mem p csrcs)
  | OpExtension type data => SetRawExtension mem p type data
  | OpPayload data => always (WritePayload mem p data)
  | OpPadding padding_bytes => SetPadding mem p padding_bytes
  end.

Fixpoint build_run (mem : Z → Z) (p : RtpPacket) (ops : list BuildOp) : outcome (RtpPacket * list bool) :=
  match ops with
  | [] => Done (p, [])
  | op :: ops =>
      '(p, ok) ← build_step mem p op;
      '(p, oks) ← build_run mem p ops;
      Done (p, ok :: oks)
  end.

(** The same on the contents; the capacity is part of the state. *)
Record Model : Type := MkModel { content : Content; cap : Z }.

Definition spec_step (m : RtpHeaderExtensionMap) (s : Model) (op : BuildOp) : Model * bool :=
  let c := content s in
  let keep c := (MkModel c (cap s), true) in
  match op with
  | OpMarker marker => keep (with_marker c marker)
  | OpPayloadType payload_type => keep (with_type c payload_type)
  | OpSequenceNumber seq_no => keep (with_seq c seq_no)
  | OpTimestamp timestamp => keep (with_time c timestamp)
  | OpSsrc ssrc => keep (with_ssrc c ssrc)
  | OpCsrcs csrcs => keep (with_csrcs c csrcs)
  | OpExtension type data =>
      let '(c, ok) := spec_SetExtension m (cap s) c type data in (MkModel c (cap s), ok)
  | OpPayload data => (MkModel (with_payload c data) (Z.max (cap s) (zlen (header_bytes c) + zlen data)), true)
  | OpPadding n =>
      if zlen (header_bytes c) + zlen (c_payload c) + n <=? cap s then keep (with_padding c n) else (s, false)
  end.

Fixpoint spec_run (m : RtpHeaderExtensionMap) (s : Model) (ops : list BuildOp) : Model * list bool :=
  match ops with
  | [] => (s, [])
  | op :: ops => let '(s, ok) := spec_step m s op in let '(s, oks) := spec_run m s ops in (s, ok :: oks)
  end.

(** What the RTC_DCHECKs demand, and arguments of their types.  Extensions are set on packets
    whose capacity is a multiple of four, as the block is padded to that behind the check. *)
Definition allowed (s : Model) (op : BuildOp) : Prop :=
  let c := content s in
  match op with
  | OpMarker _ => True
  | OpPayloadType t => 0 ≤ t ≤ 127
  | OpSequenceNumber v => uint16 v
  | OpTimestamp v | OpSsrc v => uint32 v
  | OpCsrcs csrcs => c_exts c = [] ∧ c_payload c = [] ∧ c_padding c = 0 ∧ zlen csrcs ≤ 15 ∧
      12 + 4 * zlen csrcs ≤ cap s ∧ Forall uint32 csrcs
  | OpExtension type data => known_type type ∧ Forall uint8 data ∧ cap s ≤ 65535 ∧ cap s `mod` 4 = 0
  | OpPayload data => c_padding c = 0 ∧ Forall uint8 data
  | OpPadding n => uint8 n
  end.

#[export] Instance known_type_dec type : Decision (known_type type).
Proof. unfold known_type. apply _. Defined.
#[export] Instance allowed_dec s op : Decision (allowed s op).
Proof. destruct op; cbn [allowed]; apply _. Defined.

Fixpoint all_allowed (m : RtpHeaderExtensionMap) (s : Model) (ops : list BuildOp) : Prop :=
  match ops with
  | [] => True
  | op :: ops => allowed s op ∧ all_allowed m (spec_step m s op).1 ops
  end.

#[export] Instance all_allowed_dec m ops : ∀ s, Decision (all_allowed m s ops).
Proof. induction ops as [|op ops IH]; intros s; cbn [all_allowed]; apply _. Defined.

(** * The contents stay valid *)

Lemma valid_ok c : valid c → content_ok c.
Proof.
  intros []. split; [lia|unfold uint8 in *; lia|]. eapply list.Forall_impl; [exact v_exts|].
  intros e (H1 & H2 & _). by split.
Qed.

Lemma valid_empty : valid empty_content.
Proof. split; try done; try (unfold uint8, uint16, uint32; cbn; lia); by apply NoDup_nil_2 || by constructor. Qed.

(** Contents with the same extensions and CSRCs have headers of the same length. *)
Lemma header_length_same c c' : c_csrcs c' = c_csrcs c → c_two_byte c' = c_two_byte c → c_exts c' = c_exts c →
  zlen (header_bytes c') = zlen (header_bytes c).
Proof. intros E1 E2 E3. by rewrite !header_bytes_length, E1, E2, E3. Qed.

Lemma valid_fields c c' : valid c → 0 ≤ c_type c' ≤ 127 → uint16 (c_seq c') → uint32 (c_time c') → uint32 (c_ssrc c') →
  Forall uint8 (c_payload c') → uint8 (c_padding c') →
  c_csrcs c' = c_csrcs c → c_two_byte c' = c_two_byte c → c_exts c' = c_exts c → valid c'.
Proof.
  intros [] H1 H2 H3 H4 H5 H6 E1 E2 E3. pose proof (header_length_same c c' E1 E2 E3) as El.
  split; try done; by rewrite ?E1, ?E2, ?E3, ?El.
Qed.

Lemma valid_csrcs c csrcs : valid c → c_exts c = [] → zlen csrcs ≤ 15 → Forall uint32 csrcs → valid (with_csrcs c csrcs).
Proof.
  intros [] Ee Hl Hu. split; try done. rewrite header_bytes_length. cbn [with_csrcs c_csrcs c_exts c_two_byte].
  rewrite Ee. cbn [ext_block length]. lia.
Qed.

Lemma valid_extended c two_byte es : valid c → Forall (valid_ext two_byte) es → NoDup (es.*1) →
  ext_base (c_csrcs c) + 4 * words (zlen (exts_bytes two_byte es)) ≤ 65535 → valid (with_exts c two_byte es).
Proof.
  intros [] Hes Hn Hr. split; try done. rewrite header_bytes_length. cbn [with_exts c_csrcs c_exts c_two_byte].
  unfold ext_base in Hr. destruct (decide (es = [])) as [->|Hne]; [cbn [ext_block length]; lia|].
  rewrite ext_block_length by done. lia.
Qed.

Lemma valid_ext_promote two_byte e : valid_ext two_byte e → valid_ext true e.
Proof. intros (H1 & H2 & H3). split; [|split; [|done]]; destruct two_byte; lia. Qed.

Lemma replace_ext_ids es id data : (replace_ext es id data).*1 = es.*1.
Proof.
  induction es as [|[i d] es IH]; [done|]. cbn [replace_ext]. destruct (i =? id); [done|].
  cbn [fmap list_fmap fst]. by rewrite IH.
Qed.

Lemma find_ext_split es id d : find_ext es id = Some d → ∃ es1 es2, es = es1 ++ (id, d) :: es2 ∧ (id ∉ es1.*1).
Proof.
  intros Ef. pose proof (find_info_layout false es id 0) as H. rewrite Ef in H.
  destruct H as (es1 & es2 & E & Hn & _). by exists es1, es2.
Qed.

Lemma valid_replace c id d data : valid c → find_ext (c_exts c) id = Some d → zlen d = zlen data → Forall uint8 data →
  valid (with_exts c (c_two_byte c) (replace_ext (c_exts c) id data)).
Proof.
  intros Hv Ef Hd Hu. destruct (find_ext_split _ _ _ Ef) as (es1 & es2 & Ee & Hn). pose proof Hv as [].
  pose proof (v_room) as Hr. rewrite header_bytes_length in Hr.
  assert (c_exts c ≠ []) as Hne by (rewrite Ee; by destruct es1). rewrite ext_block_length in Hr by done.
  apply valid_extended; [done| |by rewrite replace_ext_ids|].
  - rewrite Ee in v_exts |- *. rewrite replace_ext_split by done. apply Forall_app in v_exts as [H1 H2].
    apply Forall_cons_1 in H2 as [(H3 & H4 & _) H2]. cbn [fst snd] in H3, H4.
    apply Forall_app_2; [done|]. constructor; [|done]. split; [done|]. cbn [snd]. rewrite <- Hd. done.
  - rewrite Ee, replace_ext_split by done. rewrite Ee in Hr. rewrite exts_bytes_app, zlen_app in Hr |- *.
    cbn [exts_bytes flat_map] in Hr |- *. rewrite zlen_app, ext_bytes_length in Hr |- *. cbn [snd] in Hr |- *.
    rewrite <- Hd. unfold ext_base. lia.
Qed.

Lemma valid_append c id data two_byte cap : valid c → find_ext (c_exts c) id = None →
  two_byte = next_two_byte c id (zlen data) → 1 ≤ id ≤ 255 → 1 ≤ zlen data ≤ 255 → Forall uint8 data → cap ≤ 65535 →
  (4 | cap) → ext_base (c_csrcs c) + zlen (exts_bytes two_byte (c_exts c ++ [(id, data)])) ≤ cap →
  valid (with_exts c two_byte (c_exts c ++ [(id, data)])).
Proof.
  intros Hv Ef Et Hid Hd Hu Hcap [q Hq] Hfit. pose proof Hv as [].
  pose proof (find_info_layout false (c_exts c) id 0) as Hi. rewrite Ef in Hi. destruct Hi as [Hi _].
  pose proof (words_fill (zlen (exts_bytes two_byte (c_exts c ++ [(id, data)]))) ltac:(lia)) as [_ Hw].
  apply valid_extended; [done| | |unfold ext_base in *; lia].
  - apply Forall_app_2.
    + destruct (c_exts c) as [|e es] eqn:Ee; [done|]. unfold next_two_byte in Et. rewrite Ee in Et. cbn [has_exts andb] in Et.
      destruct two_byte; [eapply list.Forall_impl; [exact v_exts|apply valid_ext_promote]|].
      symmetry in Et. apply orb_false_iff in Et as [_ Et]. by rewrite Et in v_exts.
    + constructor; [|done]. assert (needs_two_byte id (zlen data) = true → two_byte = true) as Hn.
      { intros Hn. by rewrite Et; unfold next_two_byte; rewrite Hn. }
      destruct (fits_two two_byte id (zlen data) Hid Hd Hn) as [F1 F2]. by split.
  - rewrite fmap_app. apply list.NoDup_app. split; [done|]. split; [|apply NoDup_singleton].
    intros x Hx Hx'. cbn [fmap list_fmap fst] in Hx'. apply list_elem_of_singleton in Hx' as ->. done.
Qed.

Lemma valid_SetExtension m cap c type data : map_ok m → known_type type → valid c → Forall uint8 data →
  cap ≤ 65535 → (4 | cap) → valid (spec_SetExtension m cap c type data).1.
Proof.
  intros Hm Hk Hv Hu Hcap Hdiv. pose proof (mo_range m Hm type Hk) as Hid. unfold kMaxId in Hid.
  unfold spec_SetExtension. cbv zeta. destruct (_ || _ || _ || _) eqn:E1; [done|].
  assert (1 ≤ zlen data ≤ 255 ∧ 1 ≤ GetId m type ≤ 255) as [Hd Hid'] by lia.
  destruct (find_ext (c_exts c) (GetId m type)) as [d|] eqn:Ef.
  - destruct (Z.eqb_spec (zlen d) (zlen data)); [|done]. cbn [fst]. by eapply valid_replace.
  - destruct ((0 <? zlen (c_payload c)) || (0 <? c_padding c)); [done|]. destruct (_ <=? cap) eqn:El; [|done].
    apply Z.leb_le in El. cbn [fst]. by eapply valid_append.
Qed.

Lemma valid_step m s op : map_ok m → valid (content s) → allowed s op → valid (content (spec_step m s op).1).
Proof.
  intros Hm Hv Ha. pose proof Hv as [].
  destruct op as [b|t|v|v|v|csrcs|type data|data|n]; cbn [allowed] in Ha; cbn [spec_step].
  1-5: apply (valid_fields (content s)); done.
  - destruct Ha as (H1 & _ & _ & H4 & _ & H6). by apply valid_csrcs.
  - destruct Ha as (H1 & H2 & H3 & H4). apply Z.mod_divide in H4; [|done].
    pose proof (valid_SetExtension m (cap s) (content s) type data Hm H1 Hv H2 H3 H4) as H.
    by destruct (spec_SetExtension _ _ _ _ _).
  - destruct Ha as [H1 H2]. by apply (valid_fields (content s)).
  - destruct (_ <=? _); [|done]. by apply (valid_fields (content s)).
Qed.

(** * The operations refine the specification *)

(** A packet that holds the contents and has the capacity. *)
Definition holds (m : RtpHeaderExtensionMap) (s : Model) (p : RtpPacket) : Prop :=
  ∃ rest, p = built m (content s) rest ∧ capacity p = cap s.

Lemma new_holds mem m n : 12 ≤ n → ∃ p, NewRtpPacket mem m n = Done p ∧ holds m (MkModel empty_content n) p.
Proof.
  intros Hn. unfold NewRtpPacket.
  assert (zlen (extend mem [] n) = n) as Hl.
  { unfold extend. cbn [app length]. rewrite length_map, length_seqZ. change (Z.of_nat 0) with 0. lia. }
  rewrite Clear_spec by (unfold capacity, buf_capacity; cbn [buffer_ NewBuffer storage]; lia).
  eexists. split; [done|]. exists (drop 12 (extend mem [] n)). split; [done|].
  unfold capacity, buf_capacity. cbn [buffer_ storage]. rewrite zlen_app.
  change (bytes _) with (extend mem [] n). rewrite length_drop. cbn [cap]. unfold cleared_bytes.
  cbn [length replicate]. lia.
Qed.

(** An operation that changes a field only. *)
Lemma field_holds m s c' rest r : 0 ≤ c_padding (content s) → capacity (built m (content s) rest) = cap s →
  r = Done (built m c' rest) → c_padding c' = c_padding (content s) → c_payload c' = c_payload (content s) →
  c_csrcs c' = c_csrcs (content s) → c_two_byte c' = c_two_byte (content s) → c_exts c' = c_exts (content s) →
  ∃ p', always r = Done (p', true) ∧ holds m (MkModel c' (cap s)) p'.
Proof.
  intros Hp Hcap -> E1 E2 E3 E4 E5. eexists. split; [done|]. exists rest. split; [done|].
  rewrite capacity_built in Hcap |- *. cbn [cap]. rewrite <- Hcap, !encode_length by lia.
  by rewrite E1, E2, (header_length_same (content s) c').
Qed.

Lemma step_holds mem m s op p : map_ok m → valid (content s) → allowed s op → holds m s p →
  let '(s', ok) := spec_step m s op in ∃ p', build_step mem p op = Done (p', ok) ∧ holds m s' p'.
Proof.
  intros Hm Hv Ha (rest & -> & Hcap). pose proof Hv as []. unfold uint8 in v_padding.
  destruct op as [b|t|v|v|v|csrcs|type data|data|n]; cbn [allowed] in Ha; cbn [spec_step build_step].
  - apply (field_holds m s _ rest); [lia|done|by apply SetMarker_built|done..].
  - apply (field_holds m s _ rest); [lia|done|by apply SetPayloadType_built|done..].
  - apply (field_holds m s _ rest); [lia|done|by apply SetSequenceNumber_built|done..].
  - apply (field_holds m s _ rest); [lia|done|by apply SetTimestamp_built|done..].
  - apply (field_holds m s _ rest); [lia|done|by apply SetSsrc_built|done..].
  - destruct Ha as (H1 & H2 & H3 & H4 & H5 & H6).
    destruct (SetCsrcs_built mem m (content s) rest csrcs) as (rest' & -> & Hc'); [lia|done|done|done|done|lia|].
    eexists. split; [done|]. exists rest'. split; [done|]. by rewrite Hc'.
  - destruct Ha as (H1 & H2 & H3 & H4). apply Z.mod_divide in H4; [|done]. pose proof (mo_range m Hm type H1) as Hid. unfold kMaxId in Hid.
    pose proof (SetRawExtension_built mem m (content s) rest type data (valid_ok _ Hv) Hid) as H.
    rewrite Hcap in H. specialize (H H3 H4). destruct (spec_SetExtension _ _ _ _ _) as [c' ok].
    destruct H as (rest' & -> & Hc'). eexists. split; [done|]. by exists rest'.
  - destruct Ha as [H1 H2]. destruct (WritePayload_built mem m (content s) rest data H1) as (rest' & -> & Hc').
    eexists. split; [done|]. exists rest'. split; [done|]. cbn [cap]. by rewrite Hc', Hcap.
  - destruct (SetPadding_built mem m (content s) rest n) as (rest' & E & Hc'); [lia|lia|done|]. rewrite Hcap in E, Hc'.
    destruct (_ <=? cap s); rewrite E; (eexists; split; [done|]; exists rest'; split; [done|]; by rewrite Hc').
Qed.

Lemma run_holds mem m ops : ∀ s p, map_ok m → valid (content s) → all_allowed m s ops → holds m s p →
  let '(s', oks) := spec_run m s ops in
  ∃ p', build_run mem p ops = Done (p', oks) ∧ holds m s' p' ∧ valid (content s').
Proof.
  induction ops as [|op ops IH]; intros s p Hm Hv Ha Hp; cbn [spec_run build_run]; [by exists p|].
  destruct Ha as [Ha1 Ha]. pose proof (valid_step m s op Hm Hv Ha1) as Hv1.
  pose proof (step_holds mem m s op p Hm Hv Ha1 Hp) as H. destruct (spec_step m s op) as [s1 ok].
  destruct H as (p1 & -> & Hp1). cbn [mbind outcome_bind fst] in *.
  specialize (IH s1 p1 Hm Hv1 Ha Hp1). destruct (spec_run m s1 ops) as [s2 oks].
  destruct IH as (p2 & -> & Hp2 & Hv2). by exists p2.
Qed.

(** A new packet that operations have filled. *)
Lemma run_new mem m n ops : map_ok m → 12 ≤ n → all_allowed m (MkModel empty_content n) ops →
  let '(s, oks) := spec_run m (MkModel empty_content n) ops in
  ∃ p0 rest, NewRtpPacket mem m n = Done p0 ∧ build_run mem p0 ops = Done (built m (content s) rest, oks) ∧
    capacity (built m (content s) rest) = cap s ∧ valid (content s).
Proof.
  intros Hm Hn Ha. destruct (new_holds mem m n Hn) as (p0 & E0 & H0).
  pose proof (run_holds mem m ops (MkModel empty_content n) p0 Hm valid_empty Ha H0) as H.
  destruct (spec_run m (MkModel empty_content n) ops) as [s oks].
  destruct H as (p & E & (rest & -> & Hcap) & Hv). by exists p0, rest.
Qed.

(** * Queries *)

Lemma read_csrcs_at cs : ∀ pre suf off, Forall uint32 cs → off = zlen pre →
  read_csrcs (length cs) (pre ++ csrc_bytes cs ++ suf) off = Done cs.
Proof.
  induction cs as [|x cs IH]; intros pre suf off Hu Ho; [done|]. apply Forall_cons_1 in Hu as [Hx Hu].
  cbn [length read_csrcs csrc_bytes flat_map]. fold (csrc_bytes cs). rewrite <- app_assoc.
  rewrite get_be_mid by (done || (by right) || by rewrite be_bytes_length).
  pose proof (get_be_at 4 x [] [] 0) as H. cbn [app] in H. rewrite app_nil_r in H.
  change (Z.to_nat 4) with 4%nat in H. unfold uint32 in Hx.
  rewrite H by (done || (by right) || lia || apply be_bytes_uint8). cbn [mbind outcome_bind].
  rewrite (app_assoc pre), IH by (done || (rewrite zlen_app, be_bytes_length; lia)). done.
Qed.

Lemma Csrcs_built m c rest : valid c → Csrcs (built m c rest) = Done (c_csrcs c).
Proof.
  intros []. unfold Csrcs. rewrite bytes_built.
  rewrite (read8_at _ [] (first_byte c) (fixed_tail c ++ csrc_bytes (c_csrcs c) ++
    ext_block (c_two_byte c) (c_exts c) ++ c_payload c ++ padding_bytes (c_padding c) ++ rest));
    [|rewrite encode_first; by rewrite <- !app_assoc|done].
  cbn [mbind outcome_bind]. unfold first_byte. rewrite byte0_csrc_count, Nat2Z.id by lia.
  rewrite encode_first, <- !app_assoc, app_assoc.
  apply read_csrcs_at; [apply v_csrcs|]. by rewrite zlen_app, fixed_tail_length.
Qed.

Lemma payload_built m c rest : payload (built m c rest) = c_payload c.
Proof.
  unfold payload. rewrite bytes_built. cbn [payload_offset_ payload_size_ built]. unfold encode.
  rewrite <- app_assoc, slice_app_r by done. by rewrite Nat2Z.id, <- app_assoc, take_app_length.
Qed.

Lemma packet_bytes_built m c rest : packet_bytes (built m c rest) = encode c.
Proof. unfold packet_bytes. rewrite bytes_built. cbn [buffer_ buf_size built]. by rewrite Nat2Z.id, take_app_length. Qed.

Lemma FindExtension_built m c rest type : FindExtension (built m c rest) type =
  if GetId m type =? 0 then None else find_ext (c_exts c) (GetId m type).
Proof.
  unfold FindExtension, kInvalidId, FindExtensionInfo. change (extensions_ (built m c rest)) with m.
  destruct (GetId m type =? 0); [done|]. set (id := GetId m type).
  change (extension_entries_ (built m c rest)) with (layout (c_two_byte c) (ext_base (c_csrcs c)) (c_exts c)).
  pose proof (find_info_layout (c_two_byte c) (c_exts c) id (ext_base (c_csrcs c))) as H.
  destruct (find_ext (c_exts c) id) as [d|]; [|by destruct H as [_ ->]].
  destruct H as (es1 & es2 & Ee & Hn & ->). cbn [ext_offset ext_length]. f_equal. rewrite bytes_built.
  destruct (ext_block_split (c_two_byte c) es1 id d es2) as (pre & suf & Hpre & Hsplit).
  assert (encode c ++ rest = (before_exts (first_byte c) c ++ pre) ++ d ++ suf ++ c_payload c ++
    padding_bytes (c_padding c) ++ rest) as E.
  { rewrite encode_first, Ee, (Hsplit d eq_refl). unfold before_exts. by rewrite <- !app_assoc. }
  rewrite E, slice_app_r; [by rewrite Nat2Z.id, take_app_length|].
  rewrite zlen_app, before_exts_length, Hpre. unfold ext_base. lia.
Qed.

(** Parsing the encoding of the contents gives a packet that holds them; only the size of the
    extensions, with which padding is counted, may differ. *)
Lemma Parse_encode mem m c q : valid c → extensions_ q = m → ∃ rest sz,
  Parse mem q (encode c) = Done (set_entries (built m c rest) (extension_entries_ (built m c rest)) sz, true).
Proof.
  intros Hv Eq. unfold Parse. destruct (ParseBuffer_encode q c Hv) as (sz & ->).
  cbn [mbind outcome_bind negb buffer_]. destruct (SetData_bytes mem (buffer_ q) (encode c)) as (rest & Es & Ez).
  exists rest, sz. f_equal. f_equal.
  destruct (SetData mem (buffer_ q) (encode c)) as [st n]. cbn [storage buf_size] in Es, Ez. by subst.
Qed.

(** * Theorems *)

(** C3: Building packets refines its specification.  From a new packet, any sequence of
    operations within their preconditions runs without an access outside the buffer and without
    a failed check, and reports success exactly where the specification does.  At the end the
    bytes of the packet are the encoding of the contents: the fields, the CSRCs, the header
    extensions with one-byte headers or, from the first one on that needs it, two-byte headers,
    the payload and the padding; and the queries return these contents. *)
Theorem rtp_build_refines mem m n ops : map_ok m → 12 ≤ n → all_allowed m (MkModel empty_content n) ops →
  let '(s, oks) := spec_run m (MkModel empty_content n) ops in
  let c := content s in
  ∃ p0 p, NewRtpPacket mem m n = Done p0 ∧ build_run mem p0 ops = Done (p, oks) ∧
    packet_bytes p = encode c ∧ size p = zlen (encode c) ∧ capacity p = cap s ∧
    marker_ p = c_marker c ∧ payload_type_ p = c_type c ∧ sequence_number_ p = c_seq c ∧ timestamp_ p = c_time c ∧
    ssrc_ p = c_ssrc c ∧ padding_size_ p = c_padding c ∧
    Csrcs p = Done (c_csrcs c) ∧ payload p = c_payload c ∧
    ∀ type, FindExtension p type = if GetId m type =? 0 then None else find_ext (c_exts c) (GetId m type).
Proof.
  intros Hm Hn Ha. pose proof (run_new mem m n ops Hm Hn Ha) as H.
  destruct (spec_run m (MkModel empty_content n) ops) as [s oks]. destruct H as (p0 & rest & E0 & E & Hcap & Hv).
  exists p0, (built m (content s) rest).
  pose proof (v_padding _ Hv) as Hpad. unfold uint8 in Hpad.
  split; [done|]. split; [done|]. split; [apply packet_bytes_built|]. split.
  { unfold size. cbn [payload_offset_ payload_size_ padding_size_ built]. rewrite encode_length by lia. done. }
  split; [done|]. do 6 (split; [done|]). split; [by apply Csrcs_built|]. split; [apply payload_built|].
  intros type. apply FindExtension_built.
Qed.

(** The operations of the witnesses: a packet with two CSRCs, two extensions of which the second
    needs a two-byte header, payload and padding. *)
Definition example_map : RtpHeaderExtensionMap :=
  foldl apply_op (NewExtensionMap true) [OpRegisterByType 3 kRtpExtensionAbsoluteSendTime; OpRegisterByType 20 kRtpExtensionMid].
Definition example_ops : list BuildOp :=
  [OpMarker true; OpPayloadType 96; OpSequenceNumber 7; OpTimestamp 1000; OpSsrc 42; OpCsrcs [1; 2];
   OpExtension kRtpExtensionAbsoluteSendTime [10; 11; 12]; OpExtension kRtpExtensionMid [65; 66];
   OpPayload [9; 8; 7]; OpPadding 2].

Lemma example_map_ok : map_ok example_map.
Proof. unfold example_map. cbn [foldl]. do 2 apply apply_op_ok. apply new_map_ok. Qed.

Lemma example_allowed : all_allowed example_map (MkModel empty_content 100) example_ops.
Proof. apply (bool_decide_eq_true_1 (all_allowed example_map (MkModel empty_content 100) example_ops)). by vm_compute. Qed.

Lemma rtp_build_refines_witness :
  let '(s, oks) := spec_run example_map (MkModel empty_content 100) example_ops in
  ∃ p0 p, NewRtpPacket (λ _, 0) example_map 100 = Done p0 ∧ build_run (λ _, 0) p0 example_ops = Done (p, oks) ∧
    packet_bytes p = encode (content s) ∧ payload p = [9; 8; 7] ∧ FindExtension p kRtpExtensionMid = Some [65; 66].
Proof.
  pose proof (rtp_build_refines (λ _, 0) example_map 100 example_ops example_map_ok ltac:(lia) example_allowed) as H.
  destruct (spec_run example_map (MkModel empty_content 100) example_ops) as [s oks] eqn:E. vm_compute in E.
  injection E as <- <-. destruct H as (p0 & p & E0 & E1 & Eb & _ & _ & _ & _ & _ & _ & _ & _ & _ & Hp & Hf).
  exists p0, p. split; [exact E0|]. split; [exact E1|]. split; [exact Eb|]. split; [exact Hp|].
  rewrite (Hf kRtpExtensionMid). vm_compute. reflexivity.
Defined.

(** C4: Packets survive the wire.  Whatever operations have filled a packet, parsing its bytes
    into any packet with the same map of extensions succeeds, and the packet parsed agrees with
    the one built on every field, the CSRCs, the payload, the padding and every header
    extension, whichever of the two header formats they were written in. *)
Theorem rtp_packet_roundtrip mem m n ops : map_ok m → 12 ≤ n → all_allowed m (MkModel empty_content n) ops →
  ∃ p0 p oks, NewRtpPacket mem m n = Done p0 ∧ build_run mem p0 ops = Done (p, oks) ∧
    ∀ mem' q, extensions_ q = m → ∃ q', Parse mem' q (packet_bytes p) = Done (q', true) ∧
      packet_bytes q' = packet_bytes p ∧ marker_ q' = marker_ p ∧ payload_type_ q' = payload_type_ p ∧
      sequence_number_ q' = sequence_number_ p ∧ timestamp_ q' = timestamp_ p ∧ ssrc_ q' = ssrc_ p ∧
      headers_size q' = headers_size p ∧ padding_size_ q' = padding_size_ p ∧
      Csrcs q' = Csrcs p ∧ payload q' = payload p ∧
      ∀ type, FindExtension q' type = FindExtension p type ∧ HasExtension q' type = HasExtension p type.
Proof.
  intros Hm Hn Ha. pose proof (run_new mem m n ops Hm Hn Ha) as H.
  destruct (spec_run m (MkModel empty_content n) ops) as [s oks]. destruct H as (p0 & rest & E0 & E & Hcap & Hv).
  set (c := content s) in *.
  exists p0, (built m c rest), oks. split; [done|]. split; [done|]. intros mem' q Eq.
  rewrite packet_bytes_built. destruct (Parse_encode mem' m c q Hv Eq) as (rest' & sz & ->). eexists. split; [done|].
  change (packet_bytes (set_entries (built m c rest') (extension_entries_ (built m c rest')) sz))
    with (packet_bytes (built m c rest')).
  change (Csrcs (set_entries (built m c rest') (extension_entries_ (built m c rest')) sz)) with (Csrcs (built m c rest')).
  change (payload (set_entries (built m c rest') (extension_entries_ (built m c rest')) sz)) with (payload (built m c rest')).
  rewrite packet_bytes_built, !Csrcs_built, !payload_built by done. do 10 (split; [done|]). intros type. split; [|done].
  change (FindExtension (built m c rest') type = FindExtension (built m c rest) type). by rewrite !FindExtension_built.
Qed.

Lemma rtp_packet_roundtrip_witness :
  ∃ p0 p oks, NewRtpPacket (λ _, 0) example_map 100 = Done p0 ∧ build_run (λ _, 0) p0 example_ops = Done (p, oks) ∧
    ∃ q', Parse (λ _, 1) (MkRtp false 0 0 0 0 0 0 0 example_map [] 0 (MkBuffer [] 0)) (packet_bytes p) = Done (q', true) ∧
      ssrc_ q' = ssrc_ p ∧ payload q' = payload p.
Proof.
  destruct (rtp_packet_roundtrip (λ _, 0) example_map 100 example_ops example_map_ok ltac:(lia) example_allowed)
    as (p0 & p & oks & E0 & E1 & H).
  exists p0, p, oks. split; [exact E0|]. split; [exact E1|].
  destruct (H (λ _, 1) (MkRtp false 0 0 0 0 0 0 0 example_map [] 0 (MkBuffer [] 0)) eq_refl)
    as (q' & E & _ & _ & _ & _ & _ & Hs & _ & _ & _ & Hp & _).
  exists q'. split; [exact E|]. split; [exact Hs|exact Hp].
Defined.
