(* ===== verification/RtpHeaderExtensions.v ===== *)
(** RTP header extensions: modules/rtp_rtcp/source/rtp_header_extensions.cc, and the templates
    [SetExtension] and [GetExtension] of modules/rtp_rtcp/source/rtp_packet.h.

    A class of static members [kId], [ValueSize], [Write] and [Parse] that is an argument of the
    templates is a record here.  [Write] fills the bytes of a view, [Parse] reads a view into a
    value that is passed; both report success.  What the templates rely on is the class
    [LawfulExtension], of which each extension is shown to be an instance; the theorems on
    packets are proved for every lawful extension. *)
From S2P Require Import Prelude ByteIo Rtcp FeedbackChunk RtpExtensionMap RtpPacket RtpWire RtpEncode RtpBuild RtpExtend.
From S2P Require Import RtpRoundtrip.

(** * Definitions *)

Record HeaderExtension (V : Type) : Type := MkExtension {
  kId : Z;
  initial : V;
  ValueSize : V → Z;
  Write : list Z → V → outcome (list Z * bool);
  ParseExt : list Z → V → outcome (V * bool);
}.
Arguments kId {V} _.
Arguments initial {V} _.
Arguments ValueSize {V} _ _.
Arguments Write {V} _ _ _.
Arguments ParseExt {V} _ _ _.

(** [ByteReader] of a type of [S] bytes at an offset, and the signed ones. *)
Definition get_uint (S B : Z) (s : list Z) (off : Z) : outcome Z :=
  if in_mem s off B then Done (ReadBigEndian S B s off) else OutOfBounds.
Definition get_sint (S B : Z) (s : list Z) (off : Z) : outcome Z :=
  if in_mem s off B then Done (ReadBigEndian_signed S B s off) else OutOfBounds.
Definition write_sint (S B : Z) (s : list Z) (off v : Z) : outcome (list Z) :=
  if in_mem s off B then Done (WriteBigEndian_signed S B s off v) else OutOfBounds.

(** ** Absolute send time *)

Definition AbsoluteSendTime_Parse (data : list Z) (time_24bits : Z) : outcome (Z * bool) :=
  if negb (zlen data =? 3) then Done (time_24bits, false)
  else v ← get_uint 4 3 data 0; Done (v, true).

Definition AbsoluteSendTime_Write (data : list Z) (time_24bits : Z) : outcome (list Z * bool) :=
  data ← write_be 3 data 0 time_24bits; Done (data, true).

Definition AbsoluteSendTime : HeaderExtension Z :=
  MkExtension Z kRtpExtensionAbsoluteSendTime 0 (λ _, 3) AbsoluteSendTime_Write AbsoluteSendTime_Parse.

(** The time in microseconds, as 6.18 fixed-point seconds, and back. *)
Definition To24Bits (time_us : Z) : Z := u32 (((Z.rem time_us (64 * 1000000)) ≪ 18) `quot` 1000000).
Definition To24Bits_Ntp (ntp_time : Z) : Z := Z.land (ntp_time ≫ 14) 0xFFFFFF.
Definition ToTimestamp (time_24bits : Z) : Z := (time_24bits * 1000000) ≫ 18.

(** ** Absolute capture time *)

Record AbsoluteCaptureTime : Type := MkCapture {
  absolute_capture_timestamp : Z; estimated_capture_clock_offset : option Z }.

Definition AbsoluteCaptureTime_Parse (data : list Z) (extension : AbsoluteCaptureTime)
  : outcome (AbsoluteCaptureTime * bool) :=
  if negb (zlen data =? 16) && negb (zlen data =? 8) then Done (extension, false)
  else
    t ← get_uint 8 8 data 0;
    let extension := MkCapture t (estimated_capture_clock_offset extension) in
    if negb (zlen data =? 8) then
      o ← get_sint 8 8 data 8; Done (MkCapture (absolute_capture_timestamp extension) (Some o), true)
    else Done (extension, true).

Definition AbsoluteCaptureTime_ValueSize (extension : AbsoluteCaptureTime) : Z :=
  match estimated_capture_clock_offset extension with Some _ => 16 | None => 8 end.

(** [value()] of an empty optional is a failed check. *)
Definition AbsoluteCaptureTime_Write (data : list Z) (extension : AbsoluteCaptureTime) : outcome (list Z * bool) :=
  data ← write_be 8 data 0 (absolute_capture_timestamp extension);
  if negb (zlen data =? 8) then
    match estimated_capture_clock_offset extension with
    | None => CheckFailed
    | Some o => data ← write_sint 8 8 data 8 o; Done (data, true)
    end
  else Done (data, true).

Definition AbsoluteCaptureTimeExtension : HeaderExtension AbsoluteCaptureTime :=
  MkExtension _ kRtpExtensionAbsoluteCaptureTime (MkCapture 0 None) AbsoluteCaptureTime_ValueSize
    AbsoluteCaptureTime_Write AbsoluteCaptureTime_Parse.

(** ** Audio levels *)

Record AudioLevel : Type := MkAudioLevel { voice_activity : bool; level : Z }.

Definition AudioLevel_Parse (data : list Z) (extension : AudioLevel) : outcome (AudioLevel * bool) :=
  if negb (zlen data =? 1) then Done (extension, false)
  else b ← read8 data 0; Done (MkAudioLevel (negb (Z.land b 0x80 =? 0)) (Z.land b 0x7F), true).

Definition AudioLevel_Write (data : list Z) (extension : AudioLevel) : outcome (list Z * bool) :=
  if negb (level extension >=? 0) || negb (level extension <=? 0x7f) then CheckFailed
  else data ← write8 data 0 (Z.lor (if voice_activity extension then 0x80 else 0) (level extension)); Done (data, true).

Definition AudioLevelExtension : HeaderExtension AudioLevel :=
  MkExtension _ kRtpExtensionAudioLevel (MkAudioLevel false 0) (λ _, 1) AudioLevel_Write AudioLevel_Parse.

Definition kRtpCsrcSize : Z := 15.

Definition CsrcAudioLevel_Parse (data : list Z) (csrc_audio_levels : list Z) : outcome (list Z * bool) :=
  if zlen data >? kRtpCsrcSize then Done (csrc_audio_levels, false)
  else Done (map (λ b, Z.land b 0x7F) data, true).

Definition CsrcAudioLevel_Write (data csrc_audio_levels : list Z) : outcome (list Z * bool) :=
  if negb (zlen csrc_audio_levels <=? kRtpCsrcSize) then CheckFailed
  else if negb (zlen csrc_audio_levels =? zlen data) then Done (data, false)
  else Done (map (λ b, Z.land b 0x7F) csrc_audio_levels, true).

Definition CsrcAudioLevel : HeaderExtension (list Z) :=
  MkExtension _ kRtpExtensionCsrcAudioLevel [] (λ v, zlen v) CsrcAudioLevel_Write CsrcAudioLevel_Parse.

(** ** Transmission offset and transport sequence numbers *)

Definition TransmissionOffset_Parse (data : list Z) (rtp_time : Z) : outcome (Z * bool) :=
  if negb (zlen data =? 3) then Done (rtp_time, false) else v ← get_sint 4 3 data 0; Done (v, true).
Definition TransmissionOffset_Write (data : list Z) (rtp_time : Z) : outcome (list Z * bool) :=
  data ← write_sint 4 3 data 0 rtp_time; Done (data, true).
Definition TransmissionOffset : HeaderExtension Z :=
  MkExtension Z kRtpExtensionTransmissionTimeOffset 0 (λ _, 3) TransmissionOffset_Write TransmissionOffset_Parse.

Definition TransportSequenceNumber_Parse (data : list Z) (transport_sequence_number : Z) : outcome (Z * bool) :=
  if negb (zlen data =? 2) then Done (transport_sequence_number, false)
  else v ← get_uint 2 2 data 0; Done (v, true).
Definition TransportSequenceNumber_Write (data : list Z) (transport_sequence_number : Z) : outcome (list Z * bool) :=
  data ← write_be 2 data 0 transport_sequence_number; Done (data, true).
Definition TransportSequenceNumber : HeaderExtension Z :=
  MkExtension Z kRtpExtensionTransportSequenceNumber 0 (λ _, 2) TransportSequenceNumber_Write
    TransportSequenceNumber_Parse.

Record FeedbackRequest : Type := MkFeedbackRequest { include_timestamps : bool; sequence_count : Z }.

Definition kIncludeTimestampsBit : Z := 1 ≪ 15.

(** The two output arguments are a pair. *)
Definition TransportSequenceNumberV2_Parse (data : list Z) (v : Z * option FeedbackRequest)
  : outcome (Z * option FeedbackRequest * bool) :=
  if negb (zlen data =? 4) && negb (zlen data =? 2) then Done (v, false)
  else
    seq ← get_uint 2 2 data 0;
    if zlen data =? 4 then
      raw ← get_uint 2 2 data 2;
      let include_timestamps := negb (Z.land raw kIncludeTimestampsBit =? 0) in
      let sequence_count := u16 (Z.land raw (Z.lnot kIncludeTimestampsBit)) in
      if negb (sequence_count =? 0) then Done (seq, Some (MkFeedbackRequest include_timestamps sequence_count), true)
      else Done (seq, None, true)
    else Done (seq, None, true).

Definition TransportSequenceNumberV2_Write (data : list Z) (v : Z * option FeedbackRequest) : outcome (list Z * bool) :=
  let '(seq, feedback_request) := v in
  data ← write_be 2 data 0 seq;
  match feedback_request with
  | None => Done (data, true)
  | Some r =>
      let raw := u16 (Z.lor (sequence_count r) (if include_timestamps r then kIncludeTimestampsBit else 0)) in
      data ← write_be 2 data 2 raw; Done (data, true)
  end.

Definition TransportSequenceNumberV2 : HeaderExtension (Z * option FeedbackRequest) :=
  MkExtension _ kRtpExtensionTransportSequenceNumber02 (0, None)
    (λ v, match v.2 with Some _ => 4 | None => 2 end) TransportSequenceNumberV2_Write TransportSequenceNumberV2_Parse.

(** ** Video orientation *)

Inductive VideoRotation : Type := kVideoRotation_0 | kVideoRotation_90 | kVideoRotation_180 | kVideoRotation_270.

Definition ConvertVideoRotationToCVOByte (rotation : VideoRotation) : Z :=
  match rotation with
  | kVideoRotation_0 => 0 | kVideoRotation_90 => 1 | kVideoRotation_180 => 2 | kVideoRotation_270 => 3
  end.

Definition ConvertCVOByteToVideoRotation (cvo_byte : Z) : VideoRotation :=
  let rotation_bits := Z.land cvo_byte 0x3 in
  if rotation_bits =? 0 then kVideoRotation_0 else if rotation_bits =? 1 then kVideoRotation_90
  else if rotation_bits =? 2 then kVideoRotation_180 else if rotation_bits =? 3 then kVideoRotation_270
  else kVideoRotation_0.

Definition VideoOrientation_Parse (data : list Z) (rotation : VideoRotation) : outcome (VideoRotation * bool) :=
  if negb (zlen data =? 1) then Done (rotation, false)
  else b ← read8 data 0; Done (ConvertCVOByteToVideoRotation b, true).
Definition VideoOrientation_Write (data : list Z) (rotation : VideoRotation) : outcome (list Z * bool) :=
  data ← write8 data 0 (ConvertVideoRotationToCVOByte rotation); Done (data, true).
Definition VideoOrientation : HeaderExtension VideoRotation :=
  MkExtension _ kRtpExtensionVideoRotation kVideoRotation_0 (λ _, 1) VideoOrientation_Write VideoOrientation_Parse.

Definition VideoOrientation_ParseByte (data : list Z) (value : Z) : outcome (Z * bool) :=
  if negb (zlen data =? 1) then Done (value, false) else b ← read8 data 0; Done (b, true).
Definition VideoOrientation_WriteByte (data : list Z) (value : Z) : outcome (list Z * bool) :=
  data ← write8 data 0 value; Done (data, true).
Definition VideoOrientationByte : HeaderExtension Z :=
  MkExtension Z kRtpExtensionVideoRotation 0 (λ _, 1) VideoOrientation_WriteByte VideoOrientation_ParseByte.

(** ** Playout delay *)

(** The limits, in microseconds as [TimeDelta] has them. *)
Record VideoPlayoutDelay : Type := MkPlayoutDelay { min_ : Z; max_ : Z }.

Definition kGranularity : Z := 10 * 1000.
Definition VideoPlayoutDelay_kMax : Z := kGranularity * 0xFFF.

(** The constructor clamps, [Set] refuses. *)
Definition NewVideoPlayoutDelay (min max : Z) : VideoPlayoutDelay :=
  let min := clamp 0 VideoPlayoutDelay_kMax min in MkPlayoutDelay min (clamp min VideoPlayoutDelay_kMax max).

Definition VideoPlayoutDelay_Set (d : VideoPlayoutDelay) (min max : Z) : VideoPlayoutDelay * bool :=
  if (0 <=? min) && (min <=? max) && (max <=? VideoPlayoutDelay_kMax) then (MkPlayoutDelay min max, true) else (d, false).

Definition PlayoutDelayLimits_Parse (data : list Z) (playout_delay : VideoPlayoutDelay)
  : outcome (VideoPlayoutDelay * bool) :=
  if negb (zlen data =? 3) then Done (playout_delay, false)
  else
    raw ← get_uint 4 3 data 0;
    let min_raw := u16 (raw ≫ 12) in
    let max_raw := u16 (Z.land raw 0xfff) in
    Done (VideoPlayoutDelay_Set playout_delay (min_raw * kGranularity) (max_raw * kGranularity)).

Definition PlayoutDelayLimits_Write (data : list Z) (playout_delay : VideoPlayoutDelay) : outcome (list Z * bool) :=
  let min_delay := min_ playout_delay `quot` kGranularity in
  let max_delay := max_ playout_delay `quot` kGranularity in
  data ← write_be 3 data 0 (Z.lor (min_delay ≪ 12) max_delay); Done (data, true).

Definition PlayoutDelayLimits : HeaderExtension VideoPlayoutDelay :=
  MkExtension _ kRtpExtensionPlayoutDelay (MkPlayoutDelay 0 VideoPlayoutDelay_kMax) (λ _, 3)
    PlayoutDelayLimits_Write PlayoutDelayLimits_Parse.

(** ** Video content type *)

Inductive VideoContentType : Type := UNSPECIFIED | SCREENSHARE.

Definition content_type_value (t : VideoContentType) : Z := match t with UNSPECIFIED => 0 | SCREENSHARE => 1 end.
Definition IsValidContentType (value : Z) : bool := value <? 1 ≪ 6.

Definition VideoContentType_Parse (data : list Z) (content_type : VideoContentType)
  : outcome (VideoContentType * bool) :=
  if zlen data =? 1 then
    b ← read8 data 0;
    if IsValidContentType b then Done (if Z.land b 1 =? 0 then UNSPECIFIED else SCREENSHARE, true)
    else Done (content_type, false)
  else Done (content_type, false).
Definition VideoContentType_Write (data : list Z) (content_type : VideoContentType) : outcome (list Z * bool) :=
  data ← write8 data 0 (content_type_value content_type); Done (data, true).
Definition VideoContentTypeExtension : HeaderExtension VideoContentType :=
  MkExtension _ kRtpExtensionVideoContentType UNSPECIFIED (λ _, 1) VideoContentType_Write VideoContentType_Parse.

(** ** Video timing *)

Record VideoSendTiming : Type := MkTiming {
  encode_start_delta_ms : Z; encode_finish_delta_ms : Z; packetization_finish_delta_ms : Z;
  pacer_exit_delta_ms : Z; network_timestamp_delta_ms : Z; network2_timestamp_delta_ms : Z; flags : Z }.

Definition kEncodeStartDeltaOffset : Z := 1.
Definition kEncodeFinishDeltaOffset : Z := 3.
Definition kPacketizationFinishDeltaOffset : Z := 5.
Definition kNetworkTimestampDeltaOffset : Z := 9.
Definition kNetwork2TimestampDeltaOffset : Z := 11.
Definition VideoTiming_kValueSizeBytes : Z := 13.

(** What is read behind the flags. *)
Definition VideoTiming_ParseDeltas (data : list Z) (off flags : Z) : outcome (VideoSendTiming * bool) :=
  encode_start ← get_uint 2 2 data (kEncodeStartDeltaOffset - off);
  encode_finish ← get_uint 2 2 data (kEncodeFinishDeltaOffset - off);
  packetization_finish ← get_uint 2 2 data (kPacketizationFinishDeltaOffset - off);
  pacer_exit ← get_uint 2 2 data (kPacerExitDeltaOffset - off);
  network_timestamp ← get_uint 2 2 data (kNetworkTimestampDeltaOffset - off);
  network2_timestamp ← get_uint 2 2 data (kNetwork2TimestampDeltaOffset - off);
  Done (MkTiming encode_start encode_finish packetization_finish pacer_exit network_timestamp network2_timestamp flags,
        true).

Definition VideoTiming_Parse (data : list Z) (timing : VideoSendTiming) : outcome (VideoSendTiming * bool) :=
  if zlen data =? VideoTiming_kValueSizeBytes - 1 then VideoTiming_ParseDeltas data 1 0
  else if zlen data =? VideoTiming_kValueSizeBytes then
    flags ← get_uint 1 1 data 0; VideoTiming_ParseDeltas data 0 flags
  else Done (timing, false).

Definition VideoTiming_Write (data : list Z) (timing : VideoSendTiming) : outcome (list Z * bool) :=
  data ← write_be 1 data 0 (flags timing);
  data ← write_be 2 data kEncodeStartDeltaOffset (encode_start_delta_ms timing);
  data ← write_be 2 data kEncodeFinishDeltaOffset (encode_finish_delta_ms timing);
  data ← write_be 2 data kPacketizationFinishDeltaOffset (packetization_finish_delta_ms timing);
  data ← write_be 2 data kPacerExitDeltaOffset (pacer_exit_delta_ms timing);
  data ← write_be 2 data kNetworkTimestampDeltaOffset (network_timestamp_delta_ms timing);
  data ← write_be 2 data kNetwork2TimestampDeltaOffset (network2_timestamp_delta_ms timing);
  Done (data, true).

(** One delta only. *)
Definition VideoTiming_WriteDelta (data : list Z) (time_delta_ms offset : Z) : outcome (list Z * bool) :=
  data ← write_be 2 data offset time_delta_ms; Done (data, true).

Definition VideoTimingExtension : HeaderExtension VideoSendTiming :=
  MkExtension _ kRtpExtensionVideoTiming (MkTiming 0 0 0 0 0 0 255) (λ _, VideoTiming_kValueSizeBytes)
    VideoTiming_Write VideoTiming_Parse.

(** ** Strings *)

Definition String_kMaxValueSizeBytes : Z := 16.

(** The bytes up to a zero, [strnlen] of them. *)
Fixpoint until_zero (data : list Z) : list Z :=
  match data with
  | [] => []
  | b :: data => if b =? 0 then [] else b :: until_zero data
  end.

Definition String_Parse (data : list Z) (str : list Z) : outcome (list Z * bool) :=
  match data with
  | [] => Done (str, false)
  | b :: _ => if b =? 0 then Done (str, false) else Done (until_zero data, true)
  end.

Definition String_Write (data str : list Z) : outcome (list Z * bool) :=
  if zlen str >? String_kMaxValueSizeBytes then Done (data, false)
  else data ← write_mem data 0 str; Done (data, true).

Definition BaseRtpStringExtension (id : Z) : HeaderExtension (list Z) :=
  MkExtension _ id [] (λ str, zlen str) String_Write String_Parse.
Definition RtpStreamId : HeaderExtension (list Z) := BaseRtpStringExtension kRtpExtensionRtpStreamId.
Definition RepairedRtpStreamId : HeaderExtension (list Z) := BaseRtpStringExtension kRtpExtensionRepairedRtpStreamId.
Definition RtpMid : HeaderExtension (list Z) := BaseRtpStringExtension kRtpExtensionMid.

(** ** Comfort noise and frame ids *)

Definition InbandComfortNoise_Parse (data : list Z) (level : option Z) : outcome (option Z * bool) :=
  if negb (zlen data =? 1) then Done (level, false)
  else b ← read8 data 0; Done (if negb (Z.land b 128 =? 0) then None else Some (Z.land b 127), true).

Definition InbandComfortNoise_Write (data : list Z) (level : option Z) : outcome (list Z * bool) :=
  data ← write8 data 0 0;
  match level with
  | None => Done (data, true)
  | Some l => if l >? 127 then Done (data, false) else data ← write8 data 0 (Z.lor 128 l); Done (data, true)
  end.

Definition InbandComfortNoiseExtension : HeaderExtension (option Z) :=
  MkExtension _ kRtpExtensionInbandComfortNoise None (λ _, 1) InbandComfortNoise_Write InbandComfortNoise_Parse.

Definition VideoFrameTrackingId_Parse (data : list Z) (video_frame_tracking_id : Z) : outcome (Z * bool) :=
  if negb (zlen data =? 2) then Done (video_frame_tracking_id, false) else v ← get_uint 2 2 data 0; Done (v, true).
Definition VideoFrameTrackingId_Write (data : list Z) (video_frame_tracking_id : Z) : outcome (list Z * bool) :=
  data ← write_be 2 data 0 video_frame_tracking_id; Done (data, true).
Definition VideoFrameTrackingIdExtension : HeaderExtension Z :=
  MkExtension Z kRtpExtensionVideoFrameTrackingId 0 (λ _, 2) VideoFrameTrackingId_Write VideoFrameTrackingId_Parse.

(** ** The templates of [RtpPacket] *)

Definition SetExtension {V} (mem : Z → Z) (E : HeaderExtension V) (p : RtpPacket) (v : V)
  : outcome (RtpPacket * bool) :=
  '(p, view) ← AllocateExtension mem p (kId E) (ValueSize E v);
  match view with
  | None => Done (p, false)
  | Some (off, n) =>
      if n =? 0 then Done (p, false)
      else
        data ← read_mem (bytes p) off n;
        '(data, ok) ← Write E data v;
        p ← WriteBytesAt p off data;
        Done (p, ok)
  end.

(** [None] is [nullopt]. *)
Definition GetExtension {V} (E : HeaderExtension V) (p : RtpPacket) : outcome (option V) :=
  match FindExtension p (kId E) with
  | None => Done None
  | Some raw =>
      if zlen raw =? 0 then Done None
      else '(v, ok) ← ParseExt E raw (initial E); Done (if ok : bool then Some v else None)
  end.

Definition ReserveExtension {V} (mem : Z → Z) (E : HeaderExtension V) (kValueSizeBytes : Z) (p : RtpPacket)
  : outcome (RtpPacket * bool) :=
  '(p, view) ← AllocateExtension mem p (kId E) kValueSizeBytes;
  match view with
  | None => Done (p, false)
  | Some (off, n) =>
      if n =? 0 then Done (p, false)
      else p ← WriteBytesAt p off (replicate (Z.to_nat kValueSizeBytes) 0); Done (p, true)
  end.

(** * What the templates rely on *)

Class LawfulExtension {V} (E : HeaderExtension V) (allowed_value : V → Prop) : Prop := {
  le_type : known_type (kId E);
  le_size : ∀ v, allowed_value v → 1 ≤ ValueSize E v ≤ 16;
  le_parse : ∀ data v, Forall uint8 data → ∃ r, ParseExt E data v = Done r;
  le_write : ∀ v, allowed_value v → ∃ data, zlen data = ValueSize E v ∧ Forall uint8 data ∧
    (∀ view, zlen view = ValueSize E v → Write E view v = Done (data, true)) ∧
    ParseExt E data (initial E) = Done (v, true);
}.

(** ** Reading and writing views *)

Lemma get_uint_done S B s off : 0 ≤ off → off + B ≤ zlen s → get_uint S B s off = Done (ReadBigEndian S B s off).
Proof. intros. unfold get_uint. by rewrite in_mem_true. Qed.

Lemma get_sint_done S B s off : 0 ≤ off → off + B ≤ zlen s → get_sint S B s off = Done (ReadBigEndian_signed S B s off).
Proof. intros. unfold get_sint. by rewrite in_mem_true. Qed.

Lemma get_uint_at S B s pre v suf off : s = pre ++ be_bytes (Z.to_nat B) v ++ suf → 1 ≤ B ≤ S → Forall uint8 pre →
  Forall uint8 suf → 0 ≤ v < 2 ^ (8 * B) → off = zlen pre → get_uint S B s off = Done v.
Proof.
  intros -> HB H1 H2 Hv ->. rewrite get_uint_done by (rewrite ?zlen_app, ?be_bytes_length; lia). f_equal.
  apply read_be; [done| |lia|rewrite !zlen_app, be_bytes_length; lia| |done].
  - by repeat apply Forall_app_2; [|apply be_bytes_uint8|].
  - rewrite slice_app_r by done. rewrite take_app_le by (rewrite be_bytes_length; lia).
    apply take_ge. rewrite be_bytes_length. lia.
Qed.

Lemma get_sint_at S B s pre v suf off : s = pre ++ be_bytes (Z.to_nat B) v ++ suf → 1 ≤ B ≤ S → S ≤ 8 → B = S ∨ B ≤ 3 → Forall uint8 pre → Forall uint8 suf →
  - 2 ^ (8 * B - 1) ≤ v < 2 ^ (8 * B - 1) → off = zlen pre →
  get_sint S B s off = Done v.
Proof.
  intros -> HB HS Hc H1 H2 Hv ->. rewrite get_sint_done by (rewrite ?zlen_app, ?be_bytes_length; lia). f_equal.
  unfold ReadBigEndian_signed. rewrite ReadBigEndian_value; [| |lia|lia|rewrite !zlen_app, be_bytes_length; lia].
  2: by repeat apply Forall_app_2; [|apply be_bytes_uint8|].
  rewrite slice_app_r, take_prefix, be_value_bytes, pow256, Z2Nat.id by (rewrite ?be_bytes_length; lia).
  by apply (signed_value S B v).
Qed.

Lemma write_be_at B s pre old suf off v : 1 ≤ B → s = pre ++ old ++ suf → off = zlen pre → zlen old = B →
  write_be B s off v = Done (pre ++ be_bytes (Z.to_nat B) v ++ suf).
Proof.
  intros HB -> -> Hl. rewrite write_be_done by (rewrite ?zlen_app; lia).
  by rewrite store_at by (rewrite ?be_bytes_length; lia).
Qed.

(** The digits of an integer reduced to its type. *)
Lemma be_bytes_mod n m v : (n ≤ m)%nat → be_bytes n (v `mod` 2 ^ (8 * Z.of_nat m)) = be_bytes n v.
Proof.
  induction n as [|n IH]; intros H; [done|]. cbn [be_bytes]. rewrite IH by lia. f_equal.
  rewrite !Z.shiftr_div_pow2 by lia. unfold u8. set (k := Z.of_nat m - Z.of_nat n - 1).
  assert (0 < 2 ^ (8 * Z.of_nat n) ∧ 0 < 2 ^ (8 * k)) as [P1 P2] by (split; apply Z.pow_pos_nonneg; lia).
  replace (2 ^ (8 * Z.of_nat m)) with (2 ^ (8 * Z.of_nat n) * (256 * 2 ^ (8 * k))).
  2: { change 256 with (2 ^ 8). rewrite <- !Z.pow_add_r by lia. f_equal. lia. }
  rewrite Z.rem_mul_r by lia. rewrite (Z.mul_comm (2 ^ (8 * Z.of_nat n))), Z.div_add by lia.
  rewrite (Z.div_small (v `mod` 2 ^ (8 * Z.of_nat n))) by (apply Z.mod_pos_bound; lia).
  rewrite Z.add_0_l, Z.rem_mul_r by lia. rewrite (Z.mul_comm 256), Z_mod_plus_full. by apply Z.mod_mod.
Qed.

Lemma write_sint_at S B s pre old suf off v : 1 ≤ B ≤ S → s = pre ++ old ++ suf → off = zlen pre → zlen old = B →
  write_sint S B s off v = Done (pre ++ be_bytes (Z.to_nat B) v ++ suf).
Proof.
  intros HB -> -> Hl. unfold write_sint. rewrite in_mem_true by (rewrite ?zlen_app; lia). f_equal.
  unfold WriteBigEndian_signed, ReinterpretAsUnsigned, to_U. rewrite WriteBigEndian_store by (rewrite ?zlen_app; lia).
  rewrite store_at by (rewrite ?be_bytes_length; lia).
  rewrite <- (Z2Nat.id S) by lia. by rewrite be_bytes_mod by lia.
Qed.

(** ** Each extension is lawful *)

Ltac known := unfold known_type, kRtpExtensionNumberOfExtensions; by vm_compute.

(** Whatever the reads of [Parse] return, it ends. *)
Ltac parse_ends :=
  repeat match goal with |- context [if ?b then _ else _] => destruct b eqn:? end;
  rewrite ?get_uint_done, ?get_sint_done, ?read8_done by lia; cbn [mbind outcome_bind]; by eauto.

(** An integer that fills the view. *)
Lemma write_be_full B view v : 1 ≤ B → zlen view = B → write_be B view 0 v = Done (be_bytes (Z.to_nat B) v).
Proof.
  intros HB Hl. rewrite (write_be_at B view [] view [] 0 v); [|done|by rewrite app_nil_r|done|done].
  by rewrite app_nil_r.
Qed.

Lemma write_sint_full S B view v : 1 ≤ B ≤ S → zlen view = B →
  write_sint S B view 0 v = Done (be_bytes (Z.to_nat B) v).
Proof.
  intros HB Hl. rewrite (write_sint_at S B view [] view [] 0 v); [|done|by rewrite app_nil_r|done|done].
  by rewrite app_nil_r.
Qed.

Lemma get_uint_full S B v : 1 ≤ B ≤ S → 0 ≤ v < 2 ^ (8 * B) → get_uint S B (be_bytes (Z.to_nat B) v) 0 = Done v.
Proof.
  intros HB Hv. by apply (get_uint_at S B _ [] v []); [rewrite app_nil_r|..].
Qed.

Lemma get_sint_full S B v : 1 ≤ B ≤ S → S ≤ 8 → B = S ∨ B ≤ 3 → - 2 ^ (8 * B - 1) ≤ v < 2 ^ (8 * B - 1) →
  get_sint S B (be_bytes (Z.to_nat B) v) 0 = Done v.
Proof.
  intros HB HS Hc Hv. by apply (get_sint_at S B _ [] v []); [rewrite app_nil_r|..].
Qed.

Lemma write8_full view v : zlen view = 1 → write8 view 0 v = Done [u8 v].
Proof. intros H. destruct view as [|x [|]]; cbn [length] in H; try lia. done. Qed.

(** An extension that is one unsigned integer. *)
Lemma uint_lawful (E : HeaderExtension Z) S B (P : Z → Prop) : known_type (kId E) → 1 ≤ B ≤ S → B ≤ 16 →
  (∀ v, P v → 0 ≤ v < 2 ^ (8 * B)) → (∀ v, ValueSize E v = B) →
  (∀ data v, Write E data v = data ← write_be B data 0 v; Done (data, true)) →
  (∀ data v, ParseExt E data v =
     if negb (zlen data =? B) then Done (v, false) else r ← get_uint S B data 0; Done (r, true)) →
  LawfulExtension E P.
Proof.
  intros Hk HB HB' HP Hs Hw Hr. split; [done|intros v _; rewrite Hs; lia|intros data v _; rewrite Hr; parse_ends|].
  intros v Hv. exists (be_bytes (Z.to_nat B) v). rewrite Hs, be_bytes_length. split; [lia|].
  split; [apply be_bytes_uint8|]. split.
  - intros view Hl. by rewrite Hw, write_be_full by lia.
  - rewrite Hr, be_bytes_length, Z2Nat.id, Z.eqb_refl by lia. cbn [negb]. by rewrite get_uint_full by (done || by apply HP).
Qed.

#[export] Instance AbsoluteSendTime_lawful : LawfulExtension AbsoluteSendTime (λ v, 0 ≤ v < 2 ^ 24).
Proof. apply (uint_lawful _ 4 3); [known|lia|lia|lia|done|done|done]. Qed.

#[export] Instance TransportSequenceNumber_lawful : LawfulExtension TransportSequenceNumber uint16.
Proof. apply (uint_lawful _ 2 2); [known|lia|lia|unfold uint16; lia|done|done|done]. Qed.

#[export] Instance VideoFrameTrackingId_lawful : LawfulExtension VideoFrameTrackingIdExtension uint16.
Proof. apply (uint_lawful _ 2 2); [known|lia|lia|unfold uint16; lia|done|done|done]. Qed.

#[export] Instance TransmissionOffset_lawful : LawfulExtension TransmissionOffset (λ v, - 2 ^ 23 ≤ v < 2 ^ 23).
Proof.
  split; [known|cbn; lia|intros data v _; cbn [ParseExt TransmissionOffset]; unfold TransmissionOffset_Parse; parse_ends|]. intros v Hv. exists (be_bytes 3 v). split; [done|].
  split; [apply be_bytes_uint8|]. cbn [Write ParseExt TransmissionOffset ValueSize initial]. split.
  - intros view Hl. unfold TransmissionOffset_Write. by rewrite (write_sint_full 4 3) by (done || lia).
  - unfold TransmissionOffset_Parse. rewrite be_bytes_length. cbn [negb Z.eqb Pos.eqb Z.of_nat Pos.of_succ_nat Pos.succ].
    by rewrite (get_sint_full 4 3) by (lia || (right; lia)).
Qed.

(** An extension of one byte. *)
Lemma byte_lawful {V} (E : HeaderExtension V) (to_byte : V → Z) (P : V → Prop) : known_type (kId E) →
  (∀ v, ValueSize E v = 1) → (∀ v, P v → uint8 (to_byte v)) →
  (∀ view v, P v → Write E view v = data ← write8 view 0 (to_byte v); Done (data, true)) →
  (∀ data v, Forall uint8 data → ∃ r, ParseExt E data v = Done r) →
  (∀ v, P v → ParseExt E [to_byte v] (initial E) = Done (v, true)) → LawfulExtension E P.
Proof.
  intros Hk Hs Hb Hw Hp Hr. split; [done|intros v _; rewrite Hs; lia|done|].
  intros v Hv. exists [to_byte v]. rewrite Hs. split; [done|]. split; [apply Forall_singleton; by apply Hb|]. split.
  - intros view Hl. rewrite Hw, write8_full by done. cbn [mbind outcome_bind]. by rewrite u8_id by by apply Hb.
  - by apply Hr.
Qed.

#[export] Instance AudioLevel_lawful : LawfulExtension AudioLevelExtension (λ v, 0 ≤ level v ≤ 127).
Proof.
  apply (byte_lawful _ (λ v, Z.lor (if voice_activity v then 0x80 else 0) (level v))); [known|done| | | |].
  - intros [act l] Hl. cbn [voice_activity level] in *.
    apply (check_range_dec (λ l, uint8 (Z.lor (if act then 128 else 0) l)) 0 128 l); [by destruct act; vm_compute|lia].
  - intros view v Hl. cbn [Write AudioLevelExtension]. unfold AudioLevel_Write.
    destruct (Z.geb_spec (level v) 0); [|lia]. destruct (Z.leb_spec (level v) 127); [done|lia].
  - intros data v _. cbn [ParseExt AudioLevelExtension]. unfold AudioLevel_Parse. parse_ends.
  - intros [act l] Hl. cbn [voice_activity level ParseExt AudioLevelExtension] in *. unfold AudioLevel_Parse.
    cbn [length negb Z.eqb Pos.eqb Z.of_nat Pos.of_succ_nat]. rewrite read8_done by (cbn; lia). cbn [mbind outcome_bind].
    change ([?x].[0]) with x. do 2 f_equal.
    assert (negb (Z.land (Z.lor (if act then 128 else 0) l) 128 =? 0) = act ∧ Z.land (Z.lor (if act then 128 else 0) l) 127 = l)
      as [-> ->]; [|done].
    apply (check_range_dec (λ l, negb (Z.land (Z.lor (if act then 128 else 0) l) 128 =? 0) = act ∧
      Z.land (Z.lor (if act then 128 else 0) l) 127 = l) 0 128 l); [by destruct act; vm_compute|lia].
Qed.

#[export] Instance VideoOrientation_lawful : LawfulExtension VideoOrientation (λ _, True).
Proof.
  apply (byte_lawful _ ConvertVideoRotationToCVOByte); [known|done|by intros []|done| |by intros []].
  intros data v _. cbn [ParseExt VideoOrientation]. unfold VideoOrientation_Parse. parse_ends.
Qed.

#[export] Instance VideoOrientationByte_lawful : LawfulExtension VideoOrientationByte uint8.
Proof.
  apply (byte_lawful _ (λ v, v)); [known|done|done|done| |done].
  intros data v _. cbn [ParseExt VideoOrientationByte]. unfold VideoOrientation_ParseByte. parse_ends.
Qed.

#[export] Instance VideoContentType_lawful : LawfulExtension VideoContentTypeExtension (λ _, True).
Proof.
  apply (byte_lawful _ content_type_value); [known|done|by intros []|done| |by intros []].
  intros data v _. cbn [ParseExt VideoContentTypeExtension]. unfold VideoContentType_Parse.
  destruct (Z.eqb_spec (zlen data) 1); [|by eauto]. rewrite read8_done by lia. cbn [mbind outcome_bind].
  destruct (IsValidContentType _); by eauto.
Qed.

Lemma land_127 v : 0 ≤ v ≤ 127 → Z.land v 0x7F = v.
Proof.
  intros Hv. pose proof (Z.land_ones v 7 ltac:(lia)) as E. change (Z.ones 7) with 127 in E. rewrite E.
  change (2 ^ 7) with 128. apply Z.mod_small. lia.
Qed.

#[export] Instance CsrcAudioLevel_lawful :
  LawfulExtension CsrcAudioLevel (λ v, 1 ≤ zlen v ≤ 15 ∧ Forall (λ l, 0 ≤ l ≤ 127) v).
Proof.
  split; [known|by intros v [Hv _]; cbn; lia| |].
  - intros data v _. cbn [ParseExt CsrcAudioLevel]. unfold CsrcAudioLevel_Parse. destruct (_ >? _); by eauto.
  - intros v [Hl Hf]. assert (map (λ b, Z.land b 127) v = v) as Em.
    { clear Hl. induction Hf as [|x v Hx Hf IH]; [done|]. cbn [map]. by rewrite IH, land_127. }
    exists v. cbn [ValueSize Write ParseExt CsrcAudioLevel] in *. split; [done|]. split.
    { eapply list.Forall_impl; [exact Hf|]. intros x Hx. cbv beta in Hx. unfold uint8. lia. }
    unfold CsrcAudioLevel_Write, CsrcAudioLevel_Parse, kRtpCsrcSize. split.
    + intros view Hv. destruct (Z.leb_spec (zlen v) 15); [|lia]. rewrite Hv, Z.eqb_refl. cbn [negb]. by rewrite Em.
    + rewrite Z.gtb_ltb. destruct (Z.ltb_spec 15 (zlen v)); [lia|]. by rewrite Em.
Qed.

Lemma split_view (view : list Z) n k : zlen view = n + k → 0 ≤ n → 0 ≤ k →
  ∃ a b, view = a ++ b ∧ zlen a = n ∧ zlen b = k.
Proof.
  intros H Hn Hk. destruct (split_at view n) as (a & b & -> & Ha); [lia|]. exists a, b. rewrite zlen_app in H.
  split_and!; [done|done|lia].
Qed.

Definition valid_feedback (v : Z * option FeedbackRequest) : Prop :=
  uint16 v.1 ∧ match v.2 with None => True | Some r => 1 ≤ sequence_count r < 2 ^ 15 end.

Lemma feedback_bits (b : bool) n : 0 ≤ n < 2 ^ 15 → let raw := u16 (Z.lor n (if b then kIncludeTimestampsBit else 0)) in
  uint16 raw ∧ negb (Z.land raw kIncludeTimestampsBit =? 0) = b ∧ u16 (Z.land raw (Z.lnot kIncludeTimestampsBit)) = n.
Proof.
  intros Hn raw. set (top := if b then kIncludeTimestampsBit else 0) in *.
  assert (raw = n + top) as ->.
  { unfold raw, top, kIncludeTimestampsBit. destruct b.
    - rewrite lor_shiftl_disjoint by lia. rewrite u16_id by (unfold uint16; lia). done.
    - rewrite Z.lor_0_r, u16_id by (unfold uint16; lia). lia. }
  assert (top = if b then 2 ^ 15 else 0) as -> by done. split; [unfold uint16; destruct b; lia|].
  change kIncludeTimestampsBit with (2 ^ 15). rewrite land_bit, negb_involutive by lia. split.
  - rewrite Z.testbit_odd, Z.shiftr_div_pow2 by lia. destruct b.
    + replace ((n + 2 ^ 15) `div` 2 ^ 15) with 1; [done|]. apply Z.div_unique with n; lia.
    + rewrite Z.add_0_r, Z.div_small by lia. done.
  - unfold u16. change 65536 with (2 ^ 16). rewrite <- Z.land_ones, <- Z.land_assoc by lia.
    change (Z.land (Z.lnot (2 ^ 15)) (Z.ones 16)) with (Z.ones 15). rewrite Z.land_ones by lia.
    symmetry. destruct b; [apply Z.mod_unique_pos with 1|apply Z.mod_unique_pos with 0]; lia.
Qed.

#[export] Instance TransportSequenceNumberV2_lawful : LawfulExtension TransportSequenceNumberV2 valid_feedback.
Proof.
  split; [known|by intros [seq [r|]] _; cbn; lia| |].
  - intros data v _. cbn [ParseExt TransportSequenceNumberV2]. unfold TransportSequenceNumberV2_Parse.
    destruct (negb (zlen data =? 4) && negb (zlen data =? 2)) eqn:E; [by eauto|].
    rewrite (get_uint_done 2 2 data 0) by lia. cbn [mbind outcome_bind].
    destruct (Z.eqb_spec (zlen data) 4); [|by eauto]. rewrite get_uint_done by lia. cbn [mbind outcome_bind].
    destruct (negb (_ =? 0)); by eauto.
  - intros [seq [r|]] [Hseq Hr]; cbn [fst snd] in Hseq, Hr; unfold uint16 in Hseq;
      cbn [ValueSize Write ParseExt TransportSequenceNumberV2 snd initial];
      unfold TransportSequenceNumberV2_Write, TransportSequenceNumberV2_Parse.
    + destruct (feedback_bits (include_timestamps r) (sequence_count r) ltac:(lia)) as (Hraw & Eb & En).
      set (raw := u16 _) in *. unfold uint16 in Hraw. exists (be_bytes 2 seq ++ be_bytes 2 raw). split; [done|].
      split; [apply Forall_app_2; apply be_bytes_uint8|]. split.
      * intros view Hv. destruct (split_view view 2 2) as (a & b & -> & Ha & Hb); [lia..|].
        rewrite (write_be_at 2 _ [] a b 0) by (done || lia). cbn [mbind outcome_bind].
        rewrite (write_be_at 2 _ (be_bytes 2 seq) b []) by (done || lia || by rewrite app_nil_r). cbn [mbind outcome_bind].
        by rewrite app_nil_r.
      * change (zlen (be_bytes 2 seq ++ be_bytes 2 raw)) with 4. cbn [negb andb Z.eqb Pos.eqb].
        rewrite (get_uint_at 2 2 _ [] seq (be_bytes 2 raw) 0) by (done || lia || apply be_bytes_uint8). cbn [mbind outcome_bind].
        rewrite (get_uint_at 2 2 _ (be_bytes 2 seq) raw [] 2) by (done || lia || apply be_bytes_uint8). cbn [mbind outcome_bind].
        rewrite Eb, En. destruct (Z.eqb_spec (sequence_count r) 0); [lia|]. by destruct r.
    + exists (be_bytes 2 seq). split; [done|]. split; [apply be_bytes_uint8|]. split.
      * intros view Hv. by rewrite write_be_full by (done || lia).
      * change (zlen (be_bytes 2 seq)) with 2. cbn [negb andb Z.eqb Pos.eqb].
        by rewrite (get_uint_full 2 2) by lia.
Qed.

Definition valid_capture (v : AbsoluteCaptureTime) : Prop :=
  uint64 (absolute_capture_timestamp v) ∧
  match estimated_capture_clock_offset v with None => True | Some o => - 2 ^ 63 ≤ o < 2 ^ 63 end.

Lemma capture_write view t o : zlen view = 16 →
  AbsoluteCaptureTime_Write view (MkCapture t (Some o)) = Done (be_bytes 8 t ++ be_bytes 8 o, true).
Proof.
  intros Hv. unfold AbsoluteCaptureTime_Write. cbn [absolute_capture_timestamp estimated_capture_clock_offset].
  destruct (split_view view 8 8) as (a & b & -> & Ha & Hb); [lia..|].
  rewrite (write_be_at 8 _ [] a b 0) by (done || lia). cbn [mbind outcome_bind app]. change (Z.to_nat 8) with 8%nat.
  rewrite zlen_app, be_bytes_length, Hb. change (Z.of_nat 8 + 8 =? 8) with false. cbn [negb].
  rewrite (write_sint_at 8 8 _ (be_bytes 8 t) b []) by (lia || by rewrite ?app_nil_r, ?be_bytes_length).
  cbn [mbind outcome_bind]. by rewrite app_nil_r.
Qed.

Lemma capture_parse data t o v : zlen data = 16 → get_uint 8 8 data 0 = Done t → get_sint 8 8 data 8 = Done o →
  AbsoluteCaptureTime_Parse data v = Done (MkCapture t (Some o), true).
Proof. intros Hl Et Eo. unfold AbsoluteCaptureTime_Parse. rewrite Hl, Et. cbn [mbind outcome_bind]. by rewrite Eo. Qed.

Lemma capture_fields t o : uint64 t → - 2 ^ 63 ≤ o < 2 ^ 63 → let data := be_bytes 8 t ++ be_bytes 8 o in
  zlen data = 16 ∧ get_uint 8 8 data 0 = Done t ∧ get_sint 8 8 data 8 = Done o.
Proof.
  intros Ht Ho data. unfold uint64 in Ht. split_and!.
  - unfold data. by rewrite zlen_app, !be_bytes_length.
  - apply (get_uint_at 8 8 _ [] t (be_bytes 8 o)); (lia || done || apply be_bytes_uint8).
  - apply (get_sint_at 8 8 _ (be_bytes 8 t) o []); (lia || (by left) || (by rewrite app_nil_r) || apply be_bytes_uint8 || done).
Qed.

Lemma capture_short view t v : uint64 t → zlen view = 8 → estimated_capture_clock_offset v = None →
  AbsoluteCaptureTime_Write view (MkCapture t None) = Done (be_bytes 8 t, true) ∧
  AbsoluteCaptureTime_Parse (be_bytes 8 t) v = Done (MkCapture t None, true).
Proof.
  intros Ht Hv En. unfold uint64 in Ht. unfold AbsoluteCaptureTime_Write, AbsoluteCaptureTime_Parse. split.
  - cbn [absolute_capture_timestamp]. rewrite write_be_full by (done || lia). cbn [mbind outcome_bind].
    rewrite be_bytes_length. done.
  - rewrite be_bytes_length. change (Z.of_nat 8) with 8. cbn [negb andb Z.eqb Pos.eqb].
    rewrite (get_uint_full 8 8) by lia. cbn [mbind outcome_bind]. by rewrite En.
Qed.

#[export] Instance AbsoluteCaptureTime_lawful : LawfulExtension AbsoluteCaptureTimeExtension valid_capture.
Proof.
  split; [known|by intros [t [o|]] _; cbn; lia| |].
  - intros data v _. cbn [ParseExt AbsoluteCaptureTimeExtension]. unfold AbsoluteCaptureTime_Parse.
    destruct (negb (zlen data =? 16) && negb (zlen data =? 8)) eqn:E; [by eauto|].
    rewrite get_uint_done by lia. cbn [mbind outcome_bind].
    destruct (Z.eqb_spec (zlen data) 8); [by eauto|]. cbn [negb]. rewrite get_sint_done by lia. by eauto.
  - intros [t [o|]] [Ht Ho]; cbn [absolute_capture_timestamp estimated_capture_clock_offset] in Ht, Ho.
    + exists (be_bytes 8 t ++ be_bytes 8 o). split; [by rewrite zlen_app, !be_bytes_length|].
      split; [apply Forall_app_2; apply be_bytes_uint8|]. split; [intros view Hv; by apply capture_write|].
      destruct (capture_fields t o Ht Ho) as (F1 & F2 & F3). by apply capture_parse.
    + exists (be_bytes 8 t). split; [by rewrite be_bytes_length|]. split; [apply be_bytes_uint8|].
      split; [intros view Hv; by apply (capture_short view t (MkCapture 0 None))|].
      by apply (capture_short (replicate 8 0) t (MkCapture 0 None)).
Qed.

(** The limits that can be sent are multiples of ten milliseconds. *)
Definition valid_playout (v : VideoPlayoutDelay) : Prop :=
  0 ≤ min_ v ≤ max_ v ∧ max_ v ≤ VideoPlayoutDelay_kMax ∧ min_ v `mod` kGranularity = 0 ∧ max_ v `mod` kGranularity = 0.

#[export] Instance PlayoutDelay_lawful : LawfulExtension PlayoutDelayLimits valid_playout.
Proof.
  split; [known|cbn; lia| |].
  - intros data v _. cbn [ParseExt PlayoutDelayLimits]. unfold PlayoutDelayLimits_Parse. parse_ends.
  - intros [lo hi] (H1 & H2 & H3 & H4). unfold VideoPlayoutDelay_kMax, kGranularity in *. cbn [min_ max_] in *.
    set (a := lo `quot` 10000). set (b := hi `quot` 10000).
    assert (lo = a * 10000 ∧ hi = b * 10000) as [Elo Ehi].
    { unfold a, b. rewrite !Z.quot_div_nonneg by lia. zdiv. }
    assert (0 ≤ a ≤ b ∧ b ≤ 4095) as (Ha & Hb) by lia.
    assert (Z.lor (a ≪ 12) b = b + a * 4096) as Eor.
    { rewrite Z.lor_comm. by rewrite lor_shiftl_disjoint by lia. }
    exists (be_bytes 3 (b + a * 4096)). cbn [ValueSize Write ParseExt PlayoutDelayLimits initial]. split; [done|].
    split; [apply be_bytes_uint8|]. unfold PlayoutDelayLimits_Write, PlayoutDelayLimits_Parse. cbn [min_ max_]. split.
    + intros view Hv. unfold kGranularity. change (10 * 1000) with 10000. fold a b. rewrite Eor.
      by rewrite write_be_full by (done || lia).
    + rewrite be_bytes_length. change (Z.of_nat 3 =? 3) with true. cbn [negb].
      rewrite (get_uint_full 4 3) by lia. cbn [mbind outcome_bind].
      assert ((b + a * 4096) ≫ 12 = a) as ->.
      { rewrite Z.shiftr_div_pow2 by lia. change (2 ^ 12) with 4096. zdiv. }
      assert (Z.land (b + a * 4096) 0xfff = b) as ->.
      { pose proof (Z.land_ones (b + a * 4096) 12 ltac:(lia)) as E. change (Z.ones 12) with 4095 in E. rewrite E.
        change (2 ^ 12) with 4096. zdiv. }
      rewrite !u16_id by (unfold uint16; lia). unfold VideoPlayoutDelay_Set, VideoPlayoutDelay_kMax, kGranularity.
      change (10 * 1000) with 10000. rewrite <- Elo, <- Ehi.
      destruct (Z.leb_spec 0 lo); [|lia]. destruct (Z.leb_spec lo hi); [|lia].
      destruct (Z.leb_spec hi (10000 * 4095)); [done|lia].
Qed.

(** The type keeps its invariant: limits in order and within the range, however it is made. *)
Lemma playout_delay_ok d lo hi : 0 ≤ min_ d ≤ max_ d ∧ max_ d ≤ VideoPlayoutDelay_kMax →
  let d1 := NewVideoPlayoutDelay lo hi in let d2 := (VideoPlayoutDelay_Set d lo hi).1 in
  (0 ≤ min_ d1 ≤ max_ d1 ∧ max_ d1 ≤ VideoPlayoutDelay_kMax) ∧ (0 ≤ min_ d2 ≤ max_ d2 ∧ max_ d2 ≤ VideoPlayoutDelay_kMax).
Proof.
  intros Hd d1 d2. split.
  - unfold d1, NewVideoPlayoutDelay. cbn [min_ max_].
    set (k := VideoPlayoutDelay_kMax). pose proof (clamp_range 0 k lo ltac:(done)).
    pose proof (clamp_range (clamp 0 k lo) k hi). lia.
  - unfold d2, VideoPlayoutDelay_Set. destruct (_ && _) eqn:E; cbn [fst min_ max_]; [|done]. lia.
Qed.

Definition valid_timing (v : VideoSendTiming) : Prop :=
  uint16 (encode_start_delta_ms v) ∧ uint16 (encode_finish_delta_ms v) ∧ uint16 (packetization_finish_delta_ms v) ∧
  uint16 (pacer_exit_delta_ms v) ∧ uint16 (network_timestamp_delta_ms v) ∧ uint16 (network2_timestamp_delta_ms v) ∧
  uint8 (flags v).

Definition timing_bytes (v : VideoSendTiming) : list Z :=
  be_bytes 1 (flags v) ++ be_bytes 2 (encode_start_delta_ms v) ++ be_bytes 2 (encode_finish_delta_ms v) ++
  be_bytes 2 (packetization_finish_delta_ms v) ++ be_bytes 2 (pacer_exit_delta_ms v) ++
  be_bytes 2 (network_timestamp_delta_ms v) ++ be_bytes 2 (network2_timestamp_delta_ms v).

Lemma timing_uint8 v : Forall uint8 (timing_bytes v).
Proof. unfold timing_bytes. do 6 (apply Forall_app_2; [apply be_bytes_uint8|]). apply be_bytes_uint8. Qed.

Lemma timing_write view v : zlen view = 13 → VideoTiming_Write view v = Done (timing_bytes v, true).
Proof.
  intros Hl.
  destruct view as [|x0 [|x1 [|x2 [|x3 [|x4 [|x5 [|x6 [|x7 [|x8 [|x9 [|x10 [|x11 [|x12 [|]]]]]]]]]]]]]];
    cbn [length] in Hl; try lia. done.
Qed.

Lemma timing_get v pre d suf off : timing_bytes v = pre ++ be_bytes 2 d ++ suf → uint16 d → off = zlen pre →
  get_uint 2 2 (timing_bytes v) off = Done d.
Proof.
  intros E Hd Ho. pose proof (timing_uint8 v) as Hu. rewrite E in Hu. apply Forall_app in Hu as [H1 H2].
  apply Forall_app in H2 as [_ H2]. unfold uint16 in Hd.
  apply (get_uint_at 2 2 _ pre d suf); (done || lia).
Qed.

(** [Parse] from the fields that are read. *)
Lemma timing_parse data v a b c d e f g : zlen data = 13 → get_uint 1 1 data 0 = Done g → get_uint 2 2 data 1 = Done a →
  get_uint 2 2 data 3 = Done b → get_uint 2 2 data 5 = Done c → get_uint 2 2 data 7 = Done d →
  get_uint 2 2 data 9 = Done e → get_uint 2 2 data 11 = Done f →
  VideoTiming_Parse data v = Done (MkTiming a b c d e f g, true).
Proof.
  intros Hl E0 E1 E2 E3 E4 E5 E6. unfold VideoTiming_Parse, VideoTiming_kValueSizeBytes. rewrite Hl, E0.
  cbn [Z.eqb Pos.eqb Z.sub Z.add Z.opp Z.pos_sub Pos.pred_double mbind outcome_bind].
  unfold VideoTiming_ParseDeltas, kEncodeStartDeltaOffset, kEncodeFinishDeltaOffset, kPacketizationFinishDeltaOffset,
    kPacerExitDeltaOffset, kNetworkTimestampDeltaOffset, kNetwork2TimestampDeltaOffset. rewrite !Z.sub_0_r.
  rewrite E1. cbn [mbind outcome_bind]. rewrite E2. cbn [mbind outcome_bind]. rewrite E3. cbn [mbind outcome_bind].
  rewrite E4. cbn [mbind outcome_bind]. rewrite E5. cbn [mbind outcome_bind]. by rewrite E6.
Qed.

#[export] Instance VideoTiming_lawful : LawfulExtension VideoTimingExtension valid_timing.
Proof.
  split; [known|cbn; unfold VideoTiming_kValueSizeBytes; lia| |].
  - intros data v _. cbn [ParseExt VideoTimingExtension]. unfold VideoTiming_Parse, VideoTiming_kValueSizeBytes,
      VideoTiming_ParseDeltas, kEncodeStartDeltaOffset, kEncodeFinishDeltaOffset, kPacketizationFinishDeltaOffset,
      kPacerExitDeltaOffset, kNetworkTimestampDeltaOffset, kNetwork2TimestampDeltaOffset.
    destruct (Z.eqb_spec (zlen data) (13 - 1)); [rewrite !get_uint_done by lia; by eauto|].
    destruct (Z.eqb_spec (zlen data) 13); [rewrite !get_uint_done by lia; by eauto|by eauto].
  - intros v (H1 & H2 & H3 & H4 & H5 & H6 & H7). exists (timing_bytes v).
    cbn [ValueSize Write ParseExt VideoTimingExtension initial]. split; [done|]. split; [apply timing_uint8|].
    split; [intros view Hv; by apply timing_write|].
    assert (v = MkTiming (encode_start_delta_ms v) (encode_finish_delta_ms v) (packetization_finish_delta_ms v)
      (pacer_exit_delta_ms v) (network_timestamp_delta_ms v) (network2_timestamp_delta_ms v) (flags v)) as Ev by by destruct v.
    rewrite Ev at 2. unfold uint8 in H7. set (b1 := be_bytes 1 (flags v)).
    set (b2 := be_bytes 2 (encode_start_delta_ms v)). set (b3 := be_bytes 2 (encode_finish_delta_ms v)).
    set (b4 := be_bytes 2 (packetization_finish_delta_ms v)). set (b5 := be_bytes 2 (pacer_exit_delta_ms v)).
    set (b6 := be_bytes 2 (network_timestamp_delta_ms v)).
    apply timing_parse; [done| |by apply (timing_get v b1 _ (b3 ++ b4 ++ b5 ++ b6 ++ be_bytes 2 (network2_timestamp_delta_ms v)))|
      by apply (timing_get v (b1 ++ b2) _ (b4 ++ b5 ++ b6 ++ be_bytes 2 (network2_timestamp_delta_ms v)))|
      by apply (timing_get v (b1 ++ b2 ++ b3) _ (b5 ++ b6 ++ be_bytes 2 (network2_timestamp_delta_ms v)))|
      by apply (timing_get v (b1 ++ b2 ++ b3 ++ b4) _ (b6 ++ be_bytes 2 (network2_timestamp_delta_ms v)))|
      by apply (timing_get v (b1 ++ b2 ++ b3 ++ b4 ++ b5) _ (be_bytes 2 (network2_timestamp_delta_ms v)))|
      by apply (timing_get v (b1 ++ b2 ++ b3 ++ b4 ++ b5 ++ b6) _ [])].
    pose proof (timing_uint8 v) as Hu. unfold timing_bytes in Hu. apply Forall_app in Hu as [_ Hu].
    by apply (get_uint_at 1 1 _ [] (flags v) (b2 ++ b3 ++ b4 ++ b5 ++ b6 ++ be_bytes 2 (network2_timestamp_delta_ms v)));
      [done|lia|done|exact Hu|lia|done].
Qed.

Lemma until_zero_all data : Forall (λ b, 1 ≤ b ≤ 255) data → until_zero data = data.
Proof.
  induction 1 as [|b data Hb _ IH]; [done|]. cbn [until_zero]. destruct (Z.eqb_spec b 0); [lia|]. by rewrite IH.
Qed.

Definition valid_string (s : list Z) : Prop := 1 ≤ zlen s ≤ 16 ∧ Forall (λ b, 1 ≤ b ≤ 255) s.

Lemma string_lawful id : known_type id → LawfulExtension (BaseRtpStringExtension id) valid_string.
Proof.
  intros Hk. split; [done|by intros v [Hv _]| |].
  - intros data v _. cbn [ParseExt BaseRtpStringExtension]. unfold String_Parse. destruct data as [|b data]; [by eauto|].
    destruct (b =? 0); by eauto.
  - intros s [Hl Hf]. exists s. cbn [ValueSize Write ParseExt BaseRtpStringExtension initial]. split; [done|]. split.
    { eapply list.Forall_impl; [exact Hf|]. intros x Hx. cbv beta in Hx. unfold uint8. lia. }
    unfold String_Write, String_Parse, String_kMaxValueSizeBytes. split.
    + intros view Hv. rewrite Z.gtb_ltb. destruct (Z.ltb_spec 16 (zlen s)); [lia|].
      rewrite (write_mem_at view [] view s []) by (rewrite ?app_nil_r; done). by rewrite app_nil_r.
    + rewrite until_zero_all by done. destruct s as [|b s]; [cbn in Hl; lia|]. apply Forall_cons_1 in Hf as [Hb _].
      by destruct (Z.eqb_spec b 0); [lia|].
Qed.

#[export] Instance RtpStreamId_lawful : LawfulExtension RtpStreamId valid_string.
Proof. apply string_lawful. known. Qed.
#[export] Instance RepairedRtpStreamId_lawful : LawfulExtension RepairedRtpStreamId valid_string.
Proof. apply string_lawful. known. Qed.
#[export] Instance RtpMid_lawful : LawfulExtension RtpMid valid_string.
Proof. apply string_lawful. known. Qed.

(** The comfort noise level is not an instance: [Write] sets the top bit where [Parse] takes it
    for an absent level, so a level is read as none and none as level zero. *)
Lemma comfort_noise_inverted l v : 0 ≤ l ≤ 127 → ∃ d0 d1,
  InbandComfortNoise_Write [0] (Some l) = Done (d1, true) ∧ InbandComfortNoise_Parse d1 v = Done (None, true) ∧
  InbandComfortNoise_Write [0] None = Done (d0, true) ∧ InbandComfortNoise_Parse d0 v = Done (Some 0, true).
Proof.
  intros Hl. exists [0], [u8 (Z.lor 128 l)]. unfold InbandComfortNoise_Write, InbandComfortNoise_Parse.
  rewrite !write8_full by done. cbn [mbind outcome_bind]. rewrite Z.gtb_ltb. destruct (Z.ltb_spec 127 l); [lia|].
  rewrite write8_full by done. split; [done|]. split; [|done]. cbn [mbind outcome_bind].
  change (negb (zlen [u8 (Z.lor 128 l)] =? 1)) with false. cbv iota. rewrite read8_done by (cbn; lia). cbn [mbind outcome_bind].
  change ([u8 (Z.lor 128 l)].[0]) with (u8 (Z.lor 128 l)).
  replace (negb (Z.land (u8 (Z.lor 128 l)) 128 =? 0)) with true; [done|]. symmetry.
  apply (check_range_dec (λ l, negb (Z.land (u8 (Z.lor 128 l)) 128 =? 0) = true) 0 128 l); [by vm_compute|lia].
Qed.

(** The fixed-point times: what a 24-bit time denotes is converted back to it, or to the one
    before as both conversions round down. *)
Lemma send_time_roundtrip t : 0 ≤ t < 2 ^ 24 → t - 1 ≤ To24Bits (ToTimestamp t) ≤ t.
Proof.
  intros Ht. unfold To24Bits, ToTimestamp. rewrite Z.shiftr_div_pow2, Z.shiftl_mul_pow2 by lia.
  change (2 ^ 18) with 262144. change (2 ^ 24) with 16777216 in Ht. set (us := (t * 1000000) `div` 262144).
  assert (0 ≤ us < 64 * 1000000 ∧ us * 262144 ≤ t * 1000000 < us * 262144 + 262144) as [H1 H2] by (unfold us; zdiv).
  rewrite Z.rem_small, Z.quot_div_nonneg by lia. unfold u32. zdiv.
Qed.

(** * Theorems *)

(** C17: Each header extension is written and parsed alike.  For the classes below the
    type is a known one and the size fits a one-byte header; [Parse] ends within the view on any
    bytes; and [Write] fills a view of that size, whatever was in it, with bytes that [Parse]
    reads as the value written: times and sequence numbers of their width, feedback requests
    with a count, audio levels of seven bits, playout delays in steps of ten milliseconds within
    their limits, timing frames, and strings of 1 to 16 bytes without zeros. *)
Theorem header_extensions_lawful :
  LawfulExtension AbsoluteSendTime (λ v, 0 ≤ v < 2 ^ 24) ∧
  LawfulExtension AbsoluteCaptureTimeExtension valid_capture ∧
  LawfulExtension AudioLevelExtension (λ v, 0 ≤ level v ≤ 127) ∧
  LawfulExtension CsrcAudioLevel (λ v, 1 ≤ zlen v ≤ 15 ∧ Forall (λ l, 0 ≤ l ≤ 127) v) ∧
  LawfulExtension TransmissionOffset (λ v, - 2 ^ 23 ≤ v < 2 ^ 23) ∧
  LawfulExtension TransportSequenceNumber uint16 ∧
  LawfulExtension TransportSequenceNumberV2 valid_feedback ∧
  LawfulExtension VideoOrientation (λ _, True) ∧
  LawfulExtension PlayoutDelayLimits valid_playout ∧
  LawfulExtension VideoContentTypeExtension (λ _, True) ∧
  LawfulExtension VideoTimingExtension valid_timing ∧
  LawfulExtension VideoFrameTrackingIdExtension uint16 ∧
  (LawfulExtension RtpStreamId valid_string ∧ LawfulExtension RepairedRtpStreamId valid_string ∧
   LawfulExtension RtpMid valid_string).
Proof. split_and!; apply _. Qed.
