(* ===== verification/RtpTypedExtensions.v ===== *)
(** Header extensions set and read through a packet: [SetExtension] and [GetExtension] of
    modules/rtp_rtcp/source/rtp_packet.h, for every extension that satisfies the laws of
    RtpHeaderExtensions. *)
From S2P Require Import Prelude ByteIo Rtcp RtpExtensionMap RtpPacket RtpWire RtpEncode RtpBuild RtpExtend.
From S2P Require Import RtpRoundtrip RtpHeaderExtensions.

(** * The view that is allocated *)

Ltac bind_inv H :=
  match type of H with
  | context [?x ≫= _] => destruct x; cbn [mbind outcome_bind] in H; try discriminate H
  end.

Lemma append_view mem p num_csrc base profile_id id len p' off n :
  append_extension mem p num_csrc base profile_id id len = Done (p', Some (off, n)) → n = u8 len.
Proof.
  unfold append_extension. set (h := if profile_id =? _ then _ else _). destruct (_ >? capacity p); [done|].
  intros H. bind_inv H. bind_inv H. bind_inv H. by injection H.
Qed.

Lemma allocate_view mem p id len p' off n : 1 ≤ len ≤ 255 →
  AllocateRawExtension mem p id len = Done (p', Some (off, n)) → n = len.
Proof.
  intros Hl. assert (u8 len = len) as Eu by (apply u8_id; unfold uint8; lia). unfold AllocateRawExtension.
  destruct (FindExtensionInfo p id) as [e|].
  { destruct (_ =? len); [|done]. intros H. by injection H. }
  destruct (payload_size_ p >? 0); [done|]. destruct (padding_size_ p >? 0); [done|]. intros H. bind_inv H.
  destruct (_ && negb _); [done|]. destruct (extensions_size_ p >? 0).
  - bind_inv H. destruct (_ && _) in H.
    + destruct (_ >? capacity p) in H; [done|]. bind_inv H. by apply append_view in H as ->.
    + by apply append_view in H as ->.
  - by apply append_view in H as ->.
Qed.

(** Setting an extension writes the bytes of its value. *)
Lemma SetExtension_raw {V} mem (E : HeaderExtension V) p v data r : zlen data = ValueSize E v →
  (∀ view, zlen view = ValueSize E v → Write E view v = Done (data, true)) →
  SetRawExtension mem p (kId E) data = Done r → SetExtension mem E p v = Done r.
Proof.
  intros Hl Hw. unfold SetRawExtension, SetExtension. rewrite Hl.
  destruct (AllocateExtension mem p (kId E) (ValueSize E v)) as [[p1 [[off n]|]]| | |] eqn:Ea; [|done..].
  cbn [mbind outcome_bind]. destruct (n =? 0); [done|]. intros H.
  assert (n = ValueSize E v) as ->.
  { unfold AllocateExtension in Ea. destruct (_ || _) eqn:Eb in Ea; [done|]. unfold kMaxValueSize in Eb.
    destruct (_ =? kInvalidId) in Ea; [done|]. destruct (_ && _) in Ea; [done|].
    eapply allocate_view; [|exact Ea]. rewrite <- Hl in Eb |- *. lia. }
  unfold WriteBytesAt, write_mem in H. destruct (in_mem (bytes p1) off (zlen data)) eqn:Ei; [|done].
  unfold read_mem. rewrite <- Hl, Ei. cbn [mbind outcome_bind]. unfold in_mem in Ei.
  rewrite Hw by (rewrite slice_length by lia; lia). cbn [mbind outcome_bind].
  unfold WriteBytesAt, write_mem. rewrite in_mem_true by lia. exact H.
Qed.

(** * Theorems *)

Section typed.
Context {V : Type} (E : HeaderExtension V) (allowed_value : V → Prop) `{!LawfulExtension E allowed_value}.
Context (m : RtpHeaderExtensionMap) (Hm : map_ok m).

Lemma GetExtension_built c rest v data : 1 ≤ zlen data → find_ext (c_exts c) (GetId m (kId E)) = Some data →
  GetId m (kId E) ≠ 0 → ParseExt E data (initial E) = Done (v, true) → GetExtension E (built m c rest) = Done (Some v).
Proof using.
  clear. intros Hl Hf Hid Hp. unfold GetExtension. rewrite FindExtension_built.
  destruct (Z.eqb_spec (GetId m (kId E)) 0); [done|]. rewrite Hf. destruct (Z.eqb_spec (zlen data) 0); [lia|].
  by rewrite Hp.
Qed.

Lemma find_replaced es id d data : find_ext es id = Some d → find_ext (replace_ext es id data) id = Some data.
Proof using.
  clear. induction es as [|[i x] es IH]; cbn [find_ext replace_ext]; [done|].
  destruct (i =? id) eqn:Ei; cbn [find_ext]; rewrite Ei; [done|exact IH].
Qed.

Lemma find_replaced_other es id id' data : id' ≠ id → find_ext (replace_ext es id data) id' = find_ext es id'.
Proof using.
  clear. intros Hne. induction es as [|[i x] es IH]; cbn [find_ext replace_ext]; [done|].
  destruct (Z.eqb_spec i id) as [->|]; cbn [find_ext]; [by destruct (Z.eqb_spec id id'); [congruence|]|].
  by rewrite IH.
Qed.

Lemma find_appended es id d id' : find_ext (es ++ [(id, d)]) id' =
  match find_ext es id' with Some x => Some x | None => if id =? id' then Some d else None end.
Proof using.
  clear. induction es as [|[i x] es IH]; [done|]. cbn [app find_ext]. by destruct (i =? id').
Qed.

(** The contents after an extension was set: it is there, and the others are as before. *)
Lemma spec_found cap c type data c' : spec_SetExtension m cap c type data = (c', true) →
  GetId m type ≠ 0 ∧ find_ext (c_exts c') (GetId m type) = Some data ∧
  ∀ id, id ≠ GetId m type → find_ext (c_exts c') id = find_ext (c_exts c) id.
Proof using.
  clear. unfold spec_SetExtension. destruct (_ || _ || _ || _) eqn:E1; [done|]. intros H. split; [lia|].
  destruct (find_ext (c_exts c) (GetId m type)) as [d|] eqn:Ef.
  - destruct (_ =? _) in H; [|done]. injection H as <-. cbn [with_exts c_exts]. split; [by eapply find_replaced|].
    intros id Hne. by apply find_replaced_other.
  - destruct (_ || _) in H; [done|]. destruct (_ <=? cap) in H; [|done]. injection H as <-. cbn [with_exts c_exts]. split.
    + by rewrite find_appended, Ef, Z.eqb_refl.
    + intros id Hne. rewrite find_appended. destruct (find_ext (c_exts c) id); [done|].
      by destruct (Z.eqb_spec (GetId m type) id); [congruence|].
Qed.

Lemma spec_unchanged cap c type data c' ok : spec_SetExtension m cap c type data = (c', ok) →
  c_payload c' = c_payload c ∧ (ok = false → c' = c).
Proof using.
  clear. unfold spec_SetExtension. cbv zeta. intros H.
  repeat first [ match type of H with context [match ?x with Some _ => _ | None => _ end] => destruct x end
               | match type of H with context [if ?b then _ else _] => destruct b end ];
    by injection H as <- <-.
Qed.

(** Room for one more extension, whichever header it takes. *)
Lemma spec_room cap c type data : content_ok c → 1 ≤ zlen data ≤ 16 → GetId m type ≠ 0 →
  (GetId m type ≤ 14 ∨ extmap_allow_mixed_ m = true) → find_ext (c_exts c) (GetId m type) = None →
  c_payload c = [] → c_padding c = 0 →
  zlen (header_bytes c) + zlen (c_exts c) + 6 + zlen data ≤ cap →
  (spec_SetExtension m cap c type data).2 = true.
Proof using.
  clear. intros [_ _ Hf] Hl Hid Hx Ef Ep Ed Hroom. unfold spec_SetExtension. rewrite Ef, Ep, Ed.
  destruct (Z.eqb_spec (zlen data) 0); [lia|]. destruct (Z.ltb_spec 255 (zlen data)); [lia|].
  destruct (Z.eqb_spec (GetId m type) 0); [done|]. destruct (Z.ltb_spec 16 (zlen data)); [lia|]. cbn [orb].
  replace (negb (extmap_allow_mixed_ m) && (14 <? GetId m type)) with false.
  2: { symmetry. destruct (extmap_allow_mixed_ m); [done|]. destruct Hx as [Hx|Hx]; [cbn [negb andb]; lia|done]. }
  cbn [length]. change (0 <? Z.of_nat 0) with false. change (0 <? 0) with false. cbn [orb].
  match goal with |- context [?a <=? cap] => destruct (Z.leb_spec a cap) as [|Hno]; [done|exfalso] end.
  set (two := next_two_byte c (GetId m type) (zlen data)) in *.
  assert (zlen (exts_bytes two (c_exts c)) ≤ zlen (exts_bytes (c_two_byte c) (c_exts c)) + zlen (c_exts c)) as Hg.
  { pose proof (exts_bytes_grow (c_exts c)). destruct two, (c_two_byte c); lia. }
  rewrite exts_bytes_app, zlen_app in Hno. cbn [exts_bytes flat_map] in Hno. rewrite app_nil_r, ext_bytes_length in Hno.
  fold (exts_bytes two (c_exts c)) in Hno. cbn [snd] in Hno. rewrite header_bytes_length in Hroom.
  assert (ext_hlen two ≤ 2) by by destruct two. unfold ext_base in Hno.
  destruct (decide (c_exts c = [])) as [Ee|Hne].
  - rewrite Ee in *. cbn [exts_bytes flat_map ext_block length] in *. lia.
  - rewrite ext_block_length in Hroom by done.
    pose proof (words_fill (zlen (exts_bytes (c_two_byte c) (c_exts c)))). lia.
Qed.
End typed.

(** C12: A header extension survives the packet.  Let [E] be any extension that satisfies the
    laws, and [v] a value it can carry.  On a packet filled by any operations, setting [E] to
    [v] ends without an access outside the buffer.  If it succeeds, the packet reads [v] back,
    and so does every packet parsed from its bytes.  It does succeed if the extension is
    registered and not yet set, payload and padding are still to come and there is room.  No
    other extension changes, nor does the payload. *)
Theorem header_extension_roundtrip {V} (E : HeaderExtension V) (P : V → Prop) `{!LawfulExtension E P} mem m n ops v :
  map_ok m → 12 ≤ n → all_allowed m (MkModel empty_content n) ops →
  (let s := (spec_run m (MkModel empty_content n) ops).1 in cap s ≤ 65535 ∧ cap s `mod` 4 = 0) → P v →
  ∃ p0 p oks p' ok, NewRtpPacket mem m n = Done p0 ∧ build_run mem p0 ops = Done (p, oks) ∧
    SetExtension mem E p v = Done (p', ok) ∧
    (ok = true → GetExtension E p' = Done (Some v) ∧
       ∀ mem' q, extensions_ q = m → ∃ q', Parse mem' q (packet_bytes p') = Done (q', true) ∧
         GetExtension E q' = Done (Some v)) ∧
    (IsRegistered m (kId E) = true → (GetId m (kId E) ≤ 14 ∨ extmap_allow_mixed_ m = true) →
       HasExtension p (kId E) = false → payload_size_ p = 0 → padding_size_ p = 0 →
       headers_size p + zlen (extension_entries_ p) + 6 + ValueSize E v ≤ capacity p → ok = true) ∧
    (∀ type, known_type type → type ≠ kId E → FindExtension p' type = FindExtension p type) ∧
    payload p' = payload p.
Proof.
  intros Hm Hn Ha Hcap Hv. pose proof (run_new mem m n ops Hm Hn Ha) as H.
  destruct (spec_run m (MkModel empty_content n) ops) as [s oks]. cbn [fst] in Hcap. destruct Hcap as [Hmax H4].
  destruct H as (p0 & rest & E0 & E1 & Hc & Hval). apply Z.mod_divide in H4; [|done]. set (c := content s) in *.
  destruct (le_write v Hv) as (data & Hl & Hu & Hw & Hp). pose proof (le_size v Hv) as Hsz. rewrite <- Hl in Hsz.
  pose proof (mo_range m Hm _ le_type) as Hid. unfold kMaxId in Hid.
  pose proof (SetRawExtension_built mem m c rest (kId E) data (valid_ok _ Hval) Hid) as Hset. rewrite Hc in Hset.
  specialize (Hset Hmax H4). destruct (spec_SetExtension m (cap s) c (kId E) data) as [c' ok] eqn:Es.
  destruct Hset as (rest' & Er & Hc').
  exists p0, (built m c rest), oks, (built m c' rest'), ok. split; [done|]. split; [done|].
  split; [by apply (SetExtension_raw mem E _ v data)|].
  pose proof (valid_SetExtension m (cap s) c (kId E) data Hm le_type Hval Hu Hmax H4) as Hval'. rewrite Es in Hval'.
  cbn [fst] in Hval'. split; [|split; [|split]].
  - intros ->. destruct (spec_found m _ _ _ _ _ Es) as (Hne & Hf & _).
    split; [by apply (GetExtension_built E m c' rest' v data); [lia|..]|].
    intros mem' q Eq. rewrite packet_bytes_built. destruct (Parse_encode mem' m c' q Hval' Eq) as (rest2 & sz & ->).
    eexists. split; [done|]. change (GetExtension E (built m c' rest2) = Done (Some v)).
    by apply (GetExtension_built E m c' rest2 v data); [lia|..].
  - intros Hreg Hx Hhas Hps Hpad Hroom. pose proof (spec_room m (cap s) c (kId E) data (valid_ok _ Hval) Hsz) as Hok.
    rewrite Es in Hok. cbn [snd] in Hok. unfold IsRegistered, kInvalidId in Hreg. apply negb_true_iff, Z.eqb_neq in Hreg.
    apply Hok; try done.
    + unfold HasExtension, FindExtensionInfo, kInvalidId in Hhas. change (extensions_ (built m c rest)) with m in Hhas.
      destruct (Z.eqb_spec (GetId m (kId E)) 0); [done|].
      change (extension_entries_ (built m c rest)) with (layout (c_two_byte c) (ext_base (c_csrcs c)) (c_exts c)) in Hhas.
      pose proof (find_info_layout (c_two_byte c) (c_exts c) (GetId m (kId E)) (ext_base (c_csrcs c))) as Hi.
      destruct (find_ext (c_exts c) (GetId m (kId E))); [|done]. destruct Hi as (? & ? & _ & _ & Hi). by rewrite Hi in Hhas.
    + apply nil_length_inv. cbn [payload_size_ built] in Hps. lia.
    + unfold headers_size in Hroom. cbn [payload_offset_ extension_entries_ built] in Hroom.
      rewrite layout_length, Hc, <- Hl in Hroom. exact Hroom.
  - intros type Hk Hne. rewrite !FindExtension_built. destruct (Z.eqb_spec (GetId m type) 0) as [|Hnz]; [done|].
    destruct ok; [|by rewrite (proj2 (spec_unchanged m _ _ _ _ _ _ Es) eq_refl)].
    destruct (spec_found m _ _ _ _ _ Es) as (_ & _ & Hoth). apply Hoth. intros Eid.
    apply Hne. by apply (mo_unique m Hm); [|apply le_type|..].
  - rewrite !payload_built. apply (spec_unchanged m _ _ _ _ _ _ Es).
Qed.

Lemma header_extension_roundtrip_witness :
  ∃ p0 p oks p', NewRtpPacket (λ _, 0) example_map 100 = Done p0 ∧
    build_run (λ _, 0) p0 [OpCsrcs [1; 2]; OpExtension kRtpExtensionMid [65; 66]] = Done (p, oks) ∧
    SetExtension (λ _, 0) AbsoluteSendTime p 0x123456 = Done (p', true) ∧
    GetExtension AbsoluteSendTime p' = Done (Some 0x123456).
Proof.
  set (ops := [OpCsrcs [1; 2]; OpExtension kRtpExtensionMid [65; 66]]).
  assert (all_allowed example_map (MkModel empty_content 100) ops) as Ha.
  { apply (bool_decide_eq_true_1 (all_allowed example_map (MkModel empty_content 100) ops)). vm_compute. reflexivity. }
  assert (let s := (spec_run example_map (MkModel empty_content 100) ops).1 in cap s ≤ 65535 ∧ cap s `mod` 4 = 0) as Hc
    by (vm_compute; split; [discriminate|reflexivity]).
  destruct (header_extension_roundtrip AbsoluteSendTime (λ v, 0 ≤ v < 2 ^ 24) (λ _, 0) example_map 100 ops 0x123456
    example_map_ok ltac:(lia) Ha Hc ltac:(split; [lia|reflexivity])) as (p0 & p & oks & p' & ok & E0 & E1 & E2 & Hg & _).
  pose proof E0 as F0. vm_compute in F0. injection F0 as <-.
  pose proof E1 as F1. vm_compute in F1. injection F1 as <- <-.
  pose proof E2 as F2. vm_compute in F2. injection F2 as <- <-.
  do 4 eexists. split; [exact E0|]. split; [exact E1|]. split; [exact E2|]. exact (proj1 (Hg eq_refl)).
Defined.
