(* ===== verification/RtpEdit.v ===== *)
(** Changing RTP packets that are complete: [ZeroMutableExtensions], [RemoveExtension] and
    [CopyHeaderFrom] of modules/rtp_rtcp/source/rtp_packet.cc on the packets of RtpBuild. *)
From S2P Require Import Prelude ByteIo Rtcp RtpExtensionMap RtpPacket RtpWire RtpEncode RtpBuild RtpExtend.
From S2P Require Import RtpRoundtrip RtpTypedExtensions.

(** * Extensions that change on the way *)

(** Which extensions the pacer fills, and what is kept of the data. *)
Definition is_mutable (type : Z) : bool :=
  (type =? kRtpExtensionTransportSequenceNumber) || (type =? kRtpExtensionTransportSequenceNumber02) ||
  (type =? kRtpExtensionTransmissionTimeOffset) || (type =? kRtpExtensionAbsoluteSendTime).

Definition zeroed_data (type : Z) (d : list Z) : list Z :=
  if type =? kRtpExtensionVideoTiming then take 7 d ++ replicate (length d - 7) 0
  else if is_mutable type then replicate (length d) 0 else d.

Definition zeroed (m : RtpHeaderExtensionMap) (e : Z * list Z) : Z * list Z := (e.1, zeroed_data (GetType m e.1) e.2).

Lemma zeroed_length m e : zlen (zeroed m e).2 = zlen e.2.
Proof.
  unfold zeroed, zeroed_data. cbn [snd]. destruct (_ =? _); [rewrite length_app, length_take, length_replicate; lia|].
  destruct (is_mutable _); [by rewrite length_replicate|done].
Qed.

(** Writing the end of some bytes is writing all of them. *)
Lemma write_end s off a w s' : slice s off (zlen a) = a → write_mem s off (a ++ w) = Done s' →
  write_mem s (off + zlen a) w = Done s'.
Proof.
  intros Ha. unfold write_mem, in_mem. rewrite zlen_app. destruct ((0 <=? off) && _) eqn:E; [|done].
  intros [= <-]. assert (0 ≤ off ∧ off + (zlen a + zlen w) ≤ zlen s) as [H1 H2] by lia.
  replace ((0 <=? off + zlen a) && (off + zlen a + zlen w <=? zlen s)) with true by lia. f_equal.
  destruct (split_at s off) as (pre & t & -> & Hp); [lia|]. rewrite slice_app_r in Ha by done.
  destruct (split_at t (zlen a)) as (a' & t2 & -> & Ha'); [rewrite zlen_app in H2; lia|].
  rewrite <- Ha', take_prefix in Ha by done. subst a'.
  destruct (split_at t2 (zlen w)) as (w' & t3 & -> & Hw'); [rewrite !zlen_app in H2; lia|].
  pose proof (store_at pre (a ++ w') (a ++ w) t3 off) as E1. pose proof (store_at (pre ++ a) w' w t3 (off + zlen a)) as E2.
  rewrite <- !app_assoc in E1, E2. rewrite E1, E2 by (rewrite ?zlen_app; lia). done.
Qed.

(** Overwriting the end of the data of an extension. *)
Lemma overwrite_end m c rest es1 id a b w es2 : c_exts c = es1 ++ (id, a ++ b) :: es2 → zlen w = zlen b →
  WriteBytesAt (built m c rest)
    (ext_base (c_csrcs c) + zlen (exts_bytes (c_two_byte c) es1) + ext_hlen (c_two_byte c) + zlen a) w =
  Done (built m (with_exts c (c_two_byte c) (es1 ++ (id, a ++ w) :: es2)) rest).
Proof.
  intros Ee Hw. destruct (overwrite_built m c rest es1 id (a ++ b) (a ++ w) es2 Ee) as [Eo _]; [by rewrite !zlen_app, Hw|].
  set (off := ext_base (c_csrcs c) + _ + _) in *. unfold WriteBytesAt in *.
  destruct (write_mem (bytes (built m c rest)) off (a ++ w)) as [s'| | |] eqn:E; cbn [mbind outcome_bind] in Eo; try done.
  rewrite (write_end _ off a w s'); [exact Eo| |done].
  destruct (ext_block_split (c_two_byte c) es1 id (a ++ b) es2) as (pre & suf & Hpre & Hsplit).
  rewrite bytes_built, encode_first, Ee, (Hsplit (a ++ b) eq_refl).
  replace (([first_byte c] ++ fixed_tail c ++ csrc_bytes (c_csrcs c) ++ (pre ++ (a ++ b) ++ suf) ++
    c_payload c ++ padding_bytes (c_padding c)) ++ rest) with
    ((before_exts (first_byte c) c ++ pre) ++ a ++ (b ++ suf ++ c_payload c ++ padding_bytes (c_padding c) ++ rest))
    by (unfold before_exts; by rewrite <- !app_assoc).
  rewrite slice_app_r; [by rewrite Nat2Z.id, take_app_length|].
  rewrite zlen_app, before_exts_length, Hpre. unfold off, ext_base. lia.
Qed.

Lemma with_exts_twice c t es t' es' : with_exts (with_exts c t es) t' es' = with_exts c t' es'.
Proof. done. Qed.

Lemma zero_loop_built m rest c : ∀ es2 es1 c0, c0 = with_exts c (c_two_byte c) (es1 ++ es2) →
  zero_loop (built m c0 rest) (layout (c_two_byte c) (ext_base (c_csrcs c) + zlen (exts_bytes (c_two_byte c) es1)) es2) =
  Done (built m (with_exts c (c_two_byte c) (es1 ++ map (zeroed m) es2)) rest).
Proof.
  induction es2 as [|[id d] es2 IH]; intros es1 c0 ->; [done|]. cbn [layout zero_loop ext_id ext_length ext_offset map].
  set (c0 := with_exts c (c_two_byte c) (es1 ++ (id, d) :: es2)). change (extensions_ (built m c0 rest)) with m.
  set (base := ext_base (c_csrcs c)). set (two := c_two_byte c) in *.
  assert (∀ d', zlen d' = zlen d → zeroed m (id, d) = (id, d') →
    zero_loop (built m (with_exts c two (es1 ++ (id, d') :: es2)) rest)
      (layout two (base + zlen (exts_bytes two es1) + ext_hlen two + zlen d) es2) =
    Done (built m (with_exts c two (es1 ++ zeroed m (id, d) :: map (zeroed m) es2)) rest)) as Hnext.
  { intros d' Hd ->. specialize (IH (es1 ++ [(id, d')]) _ eq_refl). rewrite <- !app_assoc in IH. cbn [app] in IH.
    rewrite exts_bytes_app, zlen_app in IH. cbn [exts_bytes flat_map] in IH. rewrite app_nil_r, ext_bytes_length in IH.
    cbn [snd] in IH. rewrite Hd in IH. fold (exts_bytes two es1) in IH.
    by replace (base + zlen (exts_bytes two es1) + ext_hlen two + zlen d)
      with (base + (zlen (exts_bytes two es1) + (ext_hlen two + zlen d))) by lia. }
  assert (∀ a b w, d = a ++ b → zlen w = zlen b → WriteBytesAt (built m c0 rest)
    (base + zlen (exts_bytes two es1) + ext_hlen two + zlen a) w =
    Done (built m (with_exts c two (es1 ++ (id, a ++ w) :: es2)) rest)) as Hw.
  { intros a b w Ed Hl. rewrite <- (with_exts_twice c two (es1 ++ (id, d) :: es2)).
    apply (overwrite_end m c0 rest es1 id a b w es2); [|done]. unfold c0. cbn [with_exts c_exts]. by rewrite Ed. }
  destruct (GetType m id =? kRtpExtensionVideoTiming) eqn:Et; [|destruct (is_mutable (GetType m id)) eqn:Em].
  - assert (zeroed m (id, d) = (id, take 7 d ++ replicate (length d - 7) 0)) as Ez
      by (unfold zeroed, zeroed_data; cbn [fst snd]; by rewrite Et).
    unfold kPacerExitDeltaOffset. destruct (Z.ltb_spec 7 (zlen d)) as [Hl|Hl].
    + pose proof (Hw (take 7 d) (drop 7 d) (replicate (Z.to_nat (zlen d - 7)) 0)) as E.
      rewrite length_take, Nat.min_l in E by lia. change (Z.of_nat 7) with 7 in E. rewrite E by (rewrite ?take_drop, ?length_replicate, ?length_drop; (done || lia)).
      cbn [mbind outcome_bind]. replace (Z.to_nat (zlen d - 7)) with (length d - 7)%nat by lia. apply Hnext; [|done].
      rewrite length_app, length_take, length_replicate. lia.
    + apply (Hnext d); [done|]. rewrite Ez. rewrite take_ge by lia. replace (length d - 7)%nat with 0%nat by lia.
      cbn [replicate]. by rewrite app_nil_r.
  - unfold is_mutable in Em. rewrite Em. pose proof (Hw [] d (replicate (Z.to_nat (zlen d)) 0)) as E. cbn [length app] in E.
    rewrite Z.add_0_r, Nat2Z.id in E. rewrite Nat2Z.id, E by (rewrite ?length_replicate; done). cbn [mbind outcome_bind].
    apply Hnext; [by rewrite length_replicate|]. unfold zeroed, zeroed_data, is_mutable. cbn [fst snd]. by rewrite Et, Em.
  - pose proof Em as Em'. unfold is_mutable in Em'. rewrite Em'. apply (Hnext d); [done|].
    unfold zeroed, zeroed_data. cbn [fst snd]. by rewrite Et, Em.
Qed.

Lemma ZeroMutableExtensions_built m c rest :
  ZeroMutableExtensions (built m c rest) = Done (built m (with_exts c (c_two_byte c) (map (zeroed m) (c_exts c))) rest).
Proof.
  pose proof (zero_loop_built m rest c (c_exts c) [] c) as H. cbn [exts_bytes flat_map length app] in H.
  rewrite Z.add_0_r in H. apply H. by destruct c.
Qed.

(** The data of an extension afterwards. *)
Lemma find_zeroed m es id : find_ext (map (zeroed m) es) id = zeroed_data (GetType m id) <$> find_ext es id.
Proof.
  induction es as [|[i d] es IH]; [done|]. unfold zeroed at 1. cbn [map find_ext fst snd].
  destruct (Z.eqb_spec i id) as [->|]; [done|exact IH].
Qed.

(** * Removing an extension *)

(** Two-byte headers are used if an extension needs one. *)
Definition needs (e : Z * list Z) : bool := needs_two_byte e.1 (zlen e.2).
Definition two_of (es : list (Z * list Z)) : bool := existsb needs es.
Definition remaining (es : list (Z * list Z)) (id : Z) : list (Z * list Z) :=
  List.filter (λ e, negb (e.1 =? id)) es.

(** What the remaining extensions take in the new packet, with its header and before they are
    filled up to words. *)
Definition exts_end (es : list (Z * list Z)) : Z := 16 + zlen (exts_bytes (two_of es) es).

(** The contents of the packet that is built anew.  The payload may grow the buffer, the padding
    may not. *)
Definition without (c : Content) (id : Z) : Content :=
  let es := remaining (c_exts c) id in
  let c' := MkContent (c_marker c) (c_type c) (c_seq c) (c_time c) (c_ssrc c) [] (two_of es) es (c_payload c) 0 in
  with_padding c' (if zlen (header_bytes c') + zlen (c_payload c) + c_padding c <=? 1500 then c_padding c else 0).

Definition sized (e : Z * list Z) : Prop := 1 ≤ e.1 ≤ 255 ∧ 1 ≤ zlen e.2 ≤ 255.

Lemma fits_two_of es : Forall sized es → Forall (λ e, fits_header (two_of es) e.1 (zlen e.2)) es.
Proof.
  intros H. apply List.Forall_forall. intros e He. pose proof (proj1 (List.Forall_forall _ _) H e He) as [H1 H2].
  apply fits_two; [done|done|]. intros Hn. unfold two_of. apply existsb_exists. by exists e.
Qed.

Lemma next_two_of c done id d : c_exts c = done → c_two_byte c = two_of done →
  next_two_byte c id (zlen d) = two_of (done ++ [(id, d)]).
Proof.
  intros Ee Et. unfold next_two_byte, two_of. rewrite Ee, Et, existsb_app. cbn [existsb]. unfold needs at 2. cbn [fst snd].
  rewrite orb_false_r, orb_comm. unfold two_of. by destruct done.
Qed.

Lemma read_ext m c rest es1 id d es2 : c_exts c = es1 ++ (id, d) :: es2 →
  read_mem (bytes (built m c rest))
    (ext_base (c_csrcs c) + zlen (exts_bytes (c_two_byte c) es1) + ext_hlen (c_two_byte c)) (zlen d) = Done d.
Proof.
  intros Ee. destruct (ext_block_split (c_two_byte c) es1 id d es2) as (pre & suf & Hpre & Hsplit).
  assert (bytes (built m c rest) = (before_exts (first_byte c) c ++ pre) ++ d ++
    (suf ++ c_payload c ++ padding_bytes (c_padding c) ++ rest)) as E.
  { rewrite bytes_built, encode_first, Ee, (Hsplit d eq_refl). unfold before_exts. by rewrite <- !app_assoc. }
  assert (ext_base (c_csrcs c) + zlen (exts_bytes (c_two_byte c) es1) + ext_hlen (c_two_byte c) =
    zlen (before_exts (first_byte c) c ++ pre)) as Eo.
  { rewrite zlen_app, before_exts_length, Hpre. unfold ext_base. lia. }
  pose proof (before_exts_length (first_byte c) c). rewrite Eo, E.
  rewrite read_mem_done by (rewrite ?zlen_app; lia).
  rewrite slice_app_r by done. by rewrite Nat2Z.id, take_app_length.
Qed.

Lemma find_ext_absent es id : (id ∉ es.*1) → find_ext es id = None.
Proof.
  intros H. destruct (find_ext es id) as [d|] eqn:E; [|done]. destruct (find_ext_split _ _ _ E) as (es1 & es2 & -> & _).
  destruct H. rewrite fmap_app. apply elem_of_app. right. left.
Qed.

Lemma two_of_app es es' : two_of (es ++ es') = two_of es || two_of es'.
Proof. apply existsb_app. Qed.

(** More extensions take more room. *)
Lemma exts_end_le es es' : exts_end es ≤ exts_end (es ++ es').
Proof.
  unfold exts_end. rewrite two_of_app, exts_bytes_app, zlen_app. pose proof (exts_bytes_grow es) as Hg.
  destruct (two_of es), (two_of es'); cbn [orb]; lia.
Qed.

(** One extension is copied to the new packet, or there is no room for it. *)
Lemma copy_one mem m c1 rest id d : c_csrcs c1 = [] → c_payload c1 = [] → c_padding c1 = 0 →
  c_two_byte c1 = two_of (c_exts c1) → Forall sized (c_exts c1) → sized (id, d) →
  (needs (id, d) = true → extmap_allow_mixed_ m = true) → (id ∉ (c_exts c1).*1) → capacity (built m c1 rest) = 1500 →
  let es := c_exts c1 ++ [(id, d)] in
  if exts_end es <=? 1500 then
    ∃ p2 off rest2, AllocateRawExtension mem (built m c1 rest) id (zlen d) = Done (p2, Some (off, zlen d)) ∧
      WriteBytesAt p2 off d = Done (built m (with_exts c1 (two_of es) es) rest2) ∧
      capacity (built m (with_exts c1 (two_of es) es) rest2) = 1500
  else AllocateRawExtension mem (built m c1 rest) id (zlen d) = Done (built m c1 rest, None).
Proof.
  intros Ec Ep Ed Et Hs [Hid Hd] Hmix Hnin Hcap es. cbn [fst snd] in Hid, Hd.
  assert (content_ok c1) as Hok by (split; [rewrite Ec; cbn; lia|lia|rewrite Et; by apply fits_two_of]).
  pose proof (allocate_new mem m c1 rest id (zlen d) Hok Hid Hd) as H. rewrite Hcap in H.
  specialize (H ltac:(lia) ltac:(by exists 375) Ep Ed Hmix (find_ext_absent _ _ Hnin)). unfold allocated in H.
  rewrite (next_two_of c1 (c_exts c1) id d eq_refl Et) in H. fold es in H. rewrite Ec, Hcap in H.
  change (ext_base []) with 16 in H. unfold exts_end.
  assert (16 + zlen (exts_bytes (two_of es) es) = 16 + zlen (exts_bytes (two_of es) (c_exts c1)) + ext_hlen (two_of es) + zlen d) as ->.
  { unfold es at 2. rewrite exts_bytes_app, zlen_app. cbn [exts_bytes flat_map]. rewrite app_nil_r, ext_bytes_length.
    cbn [snd]. fold (exts_bytes (two_of es) (c_exts c1)). lia. }
  destruct (_ <=? 1500); [|exact H]. destruct H as (g & rest' & Hg' & Ea & Hc'). eexists _, _, rest'. split; [exact Ea|].
  destruct (overwrite_built m (with_exts c1 (two_of es) (c_exts c1 ++ [(id, g)])) rest' (c_exts c1) id g d [] eq_refl) as [Ew El]; [done|].
  cbn [with_exts c_csrcs c_two_byte] in Ew, El. rewrite Ec in Ew. change (ext_base []) with 16 in Ew. split; [exact Ew|].
  rewrite capacity_built in Hc' |- *. rewrite <- Hc'. f_equal. exact El.
Qed.

Section copy.
Context (mem : Z → Z) (m : RtpHeaderExtensionMap) (c : Content) (rest : list Z) (id : Z).
Context (Hs : Forall sized (c_exts c)) (Hn : NoDup (c_exts c).*1).
Context (Hmix : Forall (λ e, needs e = true → extmap_allow_mixed_ m = true) (c_exts c)).

(** All are copied, or the loop ends with the first one without room. *)
Lemma copy_built c1 : c_csrcs c1 = [] → c_payload c1 = [] → c_padding c1 = 0 → ∀ es2 es1 done rest1 found,
  c_exts c = es1 ++ es2 → (∀ i, i ∈ done.*1 → i ∈ es1.*1) → Forall sized done →
  let c2 := with_exts c1 (two_of done) done in
  capacity (built m c2 rest1) = 1500 → exts_end done ≤ 1500 →
  let es := done ++ remaining es2 id in
  let result := copy_extensions mem (bytes (built m c rest))
      (layout (c_two_byte c) (ext_base (c_csrcs c) + zlen (exts_bytes (c_two_byte c) es1)) es2) id (built m c2 rest1) found in
  if exts_end es <=? 1500 then
    ∃ rest2, result = Done (Some (built m (with_exts c1 (two_of es) es) rest2), found || existsb (λ e, e.1 =? id) es2) ∧
      capacity (built m (with_exts c1 (two_of es) es) rest2) = 1500
  else ∃ found', result = Done (None, found').
Proof using All.
  intros Ec Ep Ed. induction es2 as [|[i d] es2 IH]; intros es1 dn rest1 found Ee Hsub Hd c2 Hcap Hfit es.
  { unfold es. cbn [remaining List.filter]. rewrite app_nil_r. destruct (Z.leb_spec (exts_end dn) 1500); [|lia].
    exists rest1. cbn [existsb layout copy_extensions]. rewrite orb_false_r. done. }
  assert (c_exts c = (es1 ++ [(i, d)]) ++ es2) as Ee' by (rewrite Ee; by rewrite <- app_assoc).
  assert (ext_base (c_csrcs c) + zlen (exts_bytes (c_two_byte c) (es1 ++ [(i, d)])) =
    ext_base (c_csrcs c) + zlen (exts_bytes (c_two_byte c) es1) + ext_hlen (c_two_byte c) + zlen d) as Eoff.
  { rewrite exts_bytes_app, zlen_app. cbn [exts_bytes flat_map]. rewrite app_nil_r, ext_bytes_length.
    cbn [snd]. unfold exts_bytes. lia. }
  pose proof (IH (es1 ++ [(i, d)])) as IHn. rewrite Eoff in IHn.
  assert (∀ l : list (Z * list Z), (∀ j, j ∈ l.*1 → j ∈ es1.*1) → ∀ j, j ∈ l.*1 → j ∈ (es1 ++ [(i, d)]).*1) as Hsub'.
  { intros l Hl j Hj. rewrite fmap_app. apply elem_of_app. left. by apply Hl. }
  cbn [layout copy_extensions ext_id ext_length ext_offset existsb fst]. unfold es. cbn [remaining List.filter fst].
  destruct (Z.eqb_spec i id) as [->|Hne]; cbn [negb].
  { rewrite orb_true_r. exact (IHn dn rest1 true Ee' (Hsub' _ Hsub) Hd Hcap Hfit). }
  assert (sized (i, d) ∧ (needs (i, d) = true → extmap_allow_mixed_ m = true) ∧ (i ∉ es1.*1)) as (Hs1 & Hm1 & Hni).
  { pose proof Hs as Hs'. pose proof Hmix as Hmix'. pose proof Hn as Hn'. rewrite Ee in Hs', Hmix', Hn'.
    apply Forall_app in Hs' as [_ Hs']. apply Forall_app in Hmix' as [_ Hmix'].
    apply Forall_cons_1 in Hs' as [Hs' _]. apply Forall_cons_1 in Hmix' as [Hmix' _].
    split; [done|]. split; [done|]. rewrite fmap_app in Hn'. apply list.NoDup_app in Hn' as (_ & Hn' & _).
    intros Hin. apply (Hn' i Hin). cbn [fmap list_fmap fst]. left. }
  pose proof (copy_one mem m c2 rest1 i d Ec Ep Ed eq_refl Hd Hs1 Hm1 (λ Hin, Hni (Hsub _ Hin)) Hcap) as H1.
  cbn [c2 with_exts c_exts] in H1. pose proof (exts_end_le (dn ++ [(i, d)]) (remaining es2 id)) as Hle.
  rewrite <- app_assoc in Hle. cbn [app] in Hle. fold (remaining es2 id).
  destruct (Z.leb_spec (exts_end (dn ++ [(i, d)])) 1500) as [Hr1|Hr1].
  - destruct H1 as (p2 & off & rest2 & Ea & Ew & Hc2). rewrite Ea. cbn [mbind outcome_bind]. rewrite Z.eqb_refl. cbn [negb].
    rewrite (read_ext m c rest es1 i d es2 Ee). cbn [mbind outcome_bind]. rewrite Ew. cbn [mbind outcome_bind orb].
    unfold c2 in Hc2 |- *. rewrite with_exts_twice in Hc2 |- *.
    pose proof (IHn (dn ++ [(i, d)]) rest2 found Ee') as H2. rewrite <- app_assoc in H2. cbn [app] in H2.
    apply H2; [|by apply Forall_app_2, Forall_singleton|exact Hc2|exact Hr1].
    intros j Hj. rewrite fmap_app in Hj |- *. apply elem_of_app in Hj as [Hj|Hj]; apply elem_of_app; [left; by apply Hsub|by right].
  - rewrite H1. cbn [mbind outcome_bind]. destruct Hs1 as [_ Hd1]. cbn [snd] in Hd1.
    destruct (Z.eqb_spec 0 (zlen d)); [lia|]. cbn [negb].
    destruct (Z.leb_spec (exts_end (dn ++ (i, d) :: remaining es2 id)) 1500); [lia|]. by exists found.
Qed.
End copy.

Lemma SetPayloadSize_0 mem m c rest : c_payload c = [] → c_padding c = 0 → SetPayloadSize mem (built m c rest) 0 = built m c rest.
Proof.
  intros Ep Ed. assert (zlen (header_bytes c) = zlen (encode c)) as El.
  { rewrite encode_length, Ep, Ed by lia. cbn [length]. lia. }
  unfold SetPayloadSize. rewrite BufferSetSize_fits.
  - packet_simpl. rewrite Z.add_0_r, El, Ep, Ed. done.
  - unfold capacity, buf_capacity. packet_simpl. rewrite zlen_app. lia.
Qed.

(** The payload and the padding of the new packet. *)
Lemma finish_copy mem m c2 rest2 pay pad : c_payload c2 = [] → c_padding c2 = 0 → c_csrcs c2 = [] → 0 ≤ pad ≤ 255 →
  capacity (built m c2 rest2) = 1500 → zlen (header_bytes c2) ≤ 1500 →
  let kept := if zlen (header_bytes c2) + zlen pay + pad <=? 1500 then pad else 0 in
  ∃ rest3, (new_packet ← (if zlen pay >? 0 then
              let new_packet := AllocatePayload mem (built m c2 rest2) (zlen pay) in
              WriteBytesAt new_packet (payload_offset_ new_packet) pay
            else Done (SetPayloadSize mem (built m c2 rest2) 0));
            '(new_packet, _) ← SetPadding mem new_packet pad; Done (new_packet, true)) =
    Done (built m (with_padding (with_payload c2 pay) kept) rest3, true).
Proof.
  intros Ep Ed Ec Hpad Hcap Hroom kept.
  assert (∃ rest', (if zlen pay >? 0 then
      let new_packet := AllocatePayload mem (built m c2 rest2) (zlen pay) in
      WriteBytesAt new_packet (payload_offset_ new_packet) pay
    else Done (SetPayloadSize mem (built m c2 rest2) 0)) = Done (built m (with_payload c2 pay) rest') ∧
    capacity (built m (with_payload c2 pay) rest') = Z.max 1500 (zlen (header_bytes c2) + zlen pay)) as (rest' & -> & Hc').
  { rewrite Z.gtb_ltb. destruct (Z.ltb_spec 0 (zlen pay)).
    - destruct (WritePayload_built mem m c2 rest2 pay Ed) as (rest' & E & Hc'). exists rest'. split; [exact E|].
      by rewrite Hc', Hcap.
    - assert (pay = []) as -> by (apply nil_length_inv; lia). exists rest2. rewrite SetPayloadSize_0 by done.
      assert (with_payload c2 [] = c2) as -> by (destruct c2; cbn in *; by subst). split; [done|]. cbn [length]. lia. }
  cbn [mbind outcome_bind].
  destruct (SetPadding_built mem m (with_payload c2 pay) rest' pad) as (rest3 & E & _);
    [cbn [with_payload c_csrcs]; rewrite Ec; cbn; lia|cbn [with_payload c_padding]; lia|done|].
  exists rest3. rewrite Hc' in E. cbn [with_payload c_payload] in E.
  change (zlen (header_bytes (with_payload c2 pay))) with (zlen (header_bytes c2)) in E. rewrite E. cbn [mbind outcome_bind].
  assert (with_padding (with_payload c2 pay) 0 = with_payload c2 pay) as E0 by (destruct c2; cbn in *; by subst).
  do 3 f_equal. unfold kept. destruct (Z.leb_spec (zlen (header_bytes c2) + zlen pay + pad) (Z.max 1500 (zlen (header_bytes c2) + zlen pay)));
    destruct (Z.leb_spec (zlen (header_bytes c2) + zlen pay + pad) 1500); try lia; try done.
  replace pad with 0 by lia. done.
Qed.

Lemma valid_sized c : valid c → Forall sized (c_exts c).
Proof.
  intros []. eapply list.Forall_impl; [exact v_exts|]. intros e (H1 & H2 & _). split; destruct (c_two_byte c); lia.
Qed.

(** Filled up to words, the extensions still fit: the room is a multiple of four. *)
Lemma header_room c : c_csrcs c = [] → c_two_byte c = two_of (c_exts c) → exts_end (c_exts c) ≤ 1500 → zlen (header_bytes c) ≤ 1500.
Proof.
  intros Ec Et Hr. rewrite header_bytes_length, Ec, Et. unfold exts_end in Hr. cbn [length].
  destruct (decide (c_exts c = [])) as [->|Hne]; [cbn; lia|]. rewrite ext_block_length by done.
  pose proof (words_fill (zlen (exts_bytes (two_of (c_exts c)) (c_exts c))) ltac:(lia)). lia.
Qed.

Section remove.
Context (mem : Z → Z) (m : RtpHeaderExtensionMap) (c : Content) (rest : list Z) (type : Z).
Let id := GetId m type.
Context (Hv : valid c).
Context (Hmix : Forall (λ e, needs e = true → extmap_allow_mixed_ m = true) (c_exts c)).

Lemma RemoveExtension_built :
  let found := negb (id =? 0) && existsb (λ e, e.1 =? id) (c_exts c) && (exts_end (remaining (c_exts c) id) <=? 1500) in
  ∃ p', RemoveExtension mem (built m c rest) type = Done (p', found) ∧
    if found then ∃ rest', p' = built m (without c id) rest' else p' = built m c rest.
Proof using All.
  intros found. unfold RemoveExtension. change (extensions_ (built m c rest)) with m. fold id. unfold kInvalidId.
  destruct (Z.eqb_spec id 0); [by exists (built m c rest)|]. unfold found. cbn [negb andb].
  pose proof Hv as []. unfold uint8 in v_padding.
  destruct (new_holds mem (NewExtensionMap false) 1500) as (p & E & rest0 & -> & Hcap); [lia|].
  unfold kDefaultPacketSize. rewrite E. cbn [mbind outcome_bind content cap] in *.
  rewrite SetMarker_built by (cbn; lia). cbn [mbind outcome_bind].
  rewrite SetPayloadType_built by (cbn; lia). cbn [mbind outcome_bind].
  rewrite SetSequenceNumber_built. cbn [mbind outcome_bind]. rewrite SetTimestamp_built. cbn [mbind outcome_bind].
  rewrite SetSsrc_built. cbn [mbind outcome_bind].
  match goal with |- context [IdentifyExtensions (built _ ?x rest0) m] => set (c1 := x) end.
  change (IdentifyExtensions (built (NewExtensionMap false) c1 rest0) m) with (built m c1 rest0).
  assert (capacity (built m c1 rest0) = 1500) as Hc1.
  { rewrite <- Hcap, !capacity_built. by rewrite !encode_length by (cbn; lia). }
  pose proof (copy_built mem m c rest id (valid_sized c Hv) v_ids Hmix c1 eq_refl eq_refl eq_refl (c_exts c) [] [] rest0 false
    eq_refl ltac:(done) ltac:(done) Hc1 ltac:(done)) as Hcopy.
  cbn [exts_bytes flat_map length app] in Hcopy. rewrite Z.add_0_r in Hcopy.
  change (with_exts c1 (two_of []) []) with c1 in Hcopy.
  change (extension_entries_ (built m c rest)) with (layout (c_two_byte c) (ext_base (c_csrcs c)) (c_exts c)).
  set (es := remaining (c_exts c) id) in *. destruct (Z.leb_spec (exts_end es) 1500) as [Hfit|Hfit].
  2: { destruct Hcopy as (found' & ->). cbn [mbind outcome_bind]. rewrite andb_false_r. by exists (built m c rest). }
  destruct Hcopy as (rest2 & -> & Hc2). cbn [mbind outcome_bind orb]. rewrite andb_true_r.
  destruct (existsb (λ e, e.1 =? id) (c_exts c)); [|by exists (built m c rest)]. cbn [negb].
  set (c2 := with_exts c1 _ _) in *. rewrite payload_built.
  destruct (finish_copy mem m c2 rest2 (c_payload c) (c_padding c) eq_refl eq_refl eq_refl v_padding Hc2) as (rest3 & Ef).
  { by apply header_room. }
  eexists. split; [exact Ef|]. by exists rest3.
Qed.
End remove.

(** Without extmap-allow-mixed no extension that needs a two-byte header gets into a packet. *)
Definition mixed_ok (m : RtpHeaderExtensionMap) (es : list (Z * list Z)) : Prop :=
  Forall (λ e, needs e = true → extmap_allow_mixed_ m = true) es.

Lemma mixed_ok_replace m es id d data : find_ext es id = Some d → zlen d = zlen data → mixed_ok m es →
  mixed_ok m (replace_ext es id data).
Proof.
  intros Ef Hd Hok. destruct (find_ext_split _ _ _ Ef) as (es1 & es2 & -> & Hn). unfold mixed_ok in *.
  rewrite replace_ext_split by done. apply Forall_app in Hok as [H1 H2]. apply Forall_cons_1 in H2 as [H2 H3].
  apply Forall_app_2; [done|]. constructor; [|done]. unfold needs in *. cbn [fst snd] in *. by rewrite <- Hd.
Qed.

Lemma mixed_ok_step m s op : mixed_ok m (c_exts (content s)) → mixed_ok m (c_exts (content (spec_step m s op).1)).
Proof.
  intros H. destruct op as [b|t|v|v|v|csrcs|type data|data|n]; cbn [spec_step]; try done; [|by destruct (_ <=? _)].
  destruct (spec_SetExtension m (cap s) (content s) type data) as [c' ok] eqn:E. cbn [fst content].
  unfold spec_SetExtension in E. cbv zeta in E. destruct (_ || _ || _ || _) eqn:E1; [by injection E as <- <-|].
  destruct (find_ext _ _) as [d|] eqn:Ef.
  - destruct (Z.eqb_spec (zlen d) (zlen data)); injection E as <- <-; [|done]. by apply (mixed_ok_replace _ _ _ d).
  - destruct ((0 <? _) || _); [by injection E as <- <-|]. destruct (_ <=? _); injection E as <- <-; [|done].
    apply Forall_app_2; [done|]. apply Forall_singleton. unfold needs, needs_two_byte. cbn [fst snd].
    destruct (extmap_allow_mixed_ m); [done|]. cbn [negb andb] in E1. intros Hn. lia.
Qed.

Lemma mixed_ok_run m ops : ∀ s, mixed_ok m (c_exts (content s)) → mixed_ok m (c_exts (content (spec_run m s ops).1)).
Proof.
  induction ops as [|op ops IH]; intros s H; [done|]. cbn [spec_run]. pose proof (mixed_ok_step m s op H) as H1.
  destruct (spec_step m s op) as [s1 ok]. specialize (IH s1 H1). by destruct (spec_run m s1 ops).
Qed.

Lemma find_remaining es id i : find_ext (remaining es id) i = if i =? id then None else find_ext es i.
Proof.
  unfold remaining. induction es as [|[j d] es IH]; [by destruct (i =? id)|]. cbn [List.filter fst find_ext].
  destruct (Z.eqb_spec j id) as [->|]; cbn [negb find_ext]; rewrite IH.
  - by destruct (Z.eqb_spec i id), (Z.eqb_spec id i).
  - destruct (Z.eqb_spec j i) as [->|]; [|done]. by destruct (Z.eqb_spec i id).
Qed.

Lemma existsb_find es id : existsb (λ e, e.1 =? id) es = bool_decide (is_Some (find_ext es id)).
Proof.
  induction es as [|[j d] es IH]; [done|]. cbn [existsb fst find_ext].
  destruct (Z.eqb_spec j id); [by rewrite bool_decide_true|exact IH].
Qed.

Lemma HasExtension_built m c rest type : HasExtension (built m c rest) type =
  negb (GetId m type =? 0) && existsb (λ e, e.1 =? GetId m type) (c_exts c).
Proof.
  unfold HasExtension, kInvalidId, FindExtensionInfo. change (extensions_ (built m c rest)) with m.
  destruct (GetId m type =? 0); [done|]. cbn [negb andb]. set (id := GetId m type). rewrite existsb_find.
  change (extension_entries_ (built m c rest)) with (layout (c_two_byte c) (ext_base (c_csrcs c)) (c_exts c)).
  pose proof (find_info_layout (c_two_byte c) (c_exts c) id (ext_base (c_csrcs c))) as H.
  destruct (find_ext (c_exts c) id) as [d|]; [|by destruct H as [_ ->]]. by destruct H as (? & ? & _ & _ & ->).
Qed.

Lemma remaining_Forall (P : Z * list Z → Prop) es id : Forall P es → Forall P (remaining es id).
Proof. intros H. apply List.Forall_forall. intros e He%filter_In. by eapply List.Forall_forall; [|apply He]. Qed.

(** What is left is valid. *)
Lemma valid_without c id : valid c → exts_end (remaining (c_exts c) id) ≤ 1500 → valid (without c id).
Proof.
  intros Hv Hroom. pose proof Hv as []. pose proof (header_room (without c id) eq_refl eq_refl Hroom) as Hr.
  assert (Forall sized (remaining (c_exts c) id)) as Hs by (apply remaining_Forall; by apply valid_sized).
  assert (Forall (λ e, Forall uint8 e.2) (remaining (c_exts c) id)) as Hu.
  { apply remaining_Forall. eapply list.Forall_impl; [exact v_exts|]. by intros e (_ & _ & H). }
  split; cbn [without with_padding c_type c_seq c_time c_ssrc c_csrcs c_exts c_two_byte c_payload c_padding]; try done.
  - pose proof (fits_two_of _ Hs) as Hf. apply List.Forall_forall. intros e He.
    pose proof (proj1 (List.Forall_forall _ _) Hf e He) as [F1 F2]. pose proof (proj1 (List.Forall_forall _ _) Hu e He) as F3.
    by split.
  - unfold remaining. clear -v_ids. induction (c_exts c) as [|e es IH]; [done|]. cbn [fmap list_fmap] in v_ids.
    apply list.NoDup_cons in v_ids as [Hn Hd]. specialize (IH Hd). cbn [List.filter]. destruct (negb (e.1 =? id)); [|done].
    cbn [fmap list_fmap]. apply list.NoDup_cons. split; [|done]. intros (x & Ex & Hx)%list_elem_of_fmap. apply Hn.
    apply list_elem_of_fmap. exists x. split; [done|]. apply list_elem_of_In in Hx. apply filter_In in Hx as [Hx _].
    by apply list_elem_of_In.
  - change (zlen (header_bytes (without c id)) ≤ 65535). lia.
  - by destruct (_ <=? 1500).
Qed.

Lemma zeroed_uint8 type d : Forall uint8 d → Forall uint8 (zeroed_data type d).
Proof.
  intros H. assert (∀ n, Forall uint8 (replicate n 0)) as Hz by (intros n; apply Forall_replicate; unfold uint8; lia).
  unfold zeroed_data. destruct (_ =? _); [apply Forall_app_2; [by apply Forall_take|apply Hz]|].
  by destruct (is_mutable _).
Qed.

Lemma zeroed_bytes_length m two_byte es : zlen (exts_bytes two_byte (map (zeroed m) es)) = zlen (exts_bytes two_byte es).
Proof.
  induction es as [|e es IH]; [done|]. cbn [map exts_bytes flat_map]. rewrite !zlen_app, !ext_bytes_length, zeroed_length.
  fold (exts_bytes two_byte (map (zeroed m) es)) (exts_bytes two_byte es). lia.
Qed.

Lemma valid_zeroed m c : valid c → valid (with_exts c (c_two_byte c) (map (zeroed m) (c_exts c))).
Proof.
  intros Hv. pose proof Hv as []. destruct (decide (c_exts c = [])) as [Ee|Hne]; [rewrite Ee; by destruct c; cbn in *; subst|].
  rewrite header_bytes_length, ext_block_length in v_room by done. apply valid_extended; [done| | |].
  - apply List.Forall_forall. intros e (x & <- & Hx)%in_map_iff.
    pose proof (proj1 (List.Forall_forall _ _) v_exts x Hx) as (H1 & H2 & H3).
    split; [exact H1|]. rewrite zeroed_length. split; [exact H2|]. by apply zeroed_uint8.
  - change (NoDup (fst <$> (zeroed m <$> c_exts c))). by rewrite <- list_fmap_compose.
  - rewrite zeroed_bytes_length. unfold ext_base. lia.
Qed.

(** * Theorems *)

(** C39: [ZeroMutableExtensions] erases what changes on the way and nothing else.  On a packet
    filled by any operations it stays within the buffer; the data of transport sequence numbers,
    transmission offsets and absolute send times become zeros, of video timing the fields from
    the pacer exit on, and every other extension, the CSRCs, the fields, the payload and the
    length are as before. *)
Theorem zero_mutable_extensions_spec mem m n ops : map_ok m → 12 ≤ n → all_allowed m (MkModel empty_content n) ops →
  ∃ p0 p oks p', NewRtpPacket mem m n = Done p0 ∧ build_run mem p0 ops = Done (p, oks) ∧
    ZeroMutableExtensions p = Done p' ∧
    (∀ type, known_type type → FindExtension p' type = zeroed_data type <$> FindExtension p type) ∧
    Csrcs p' = Csrcs p ∧ payload p' = payload p ∧ zlen (packet_bytes p') = zlen (packet_bytes p) ∧
    marker_ p' = marker_ p ∧ payload_type_ p' = payload_type_ p ∧ sequence_number_ p' = sequence_number_ p ∧
    timestamp_ p' = timestamp_ p ∧ ssrc_ p' = ssrc_ p ∧ padding_size_ p' = padding_size_ p ∧
    headers_size p' = headers_size p.
Proof.
  intros Hm Hn Ha. pose proof (run_new mem m n ops Hm Hn Ha) as H.
  destruct (spec_run m (MkModel empty_content n) ops) as [s oks]. destruct H as (p0 & rest & E0 & E & Hcap & Hv).
  set (c := content s) in *. pose proof (valid_zeroed m c Hv) as Hv'. pose proof (v_padding c Hv) as Hp. unfold uint8 in Hp.
  assert (zlen (header_bytes (with_exts c (c_two_byte c) (map (zeroed m) (c_exts c)))) = zlen (header_bytes c)) as El.
  { rewrite !header_bytes_length. cbn [with_exts c_csrcs c_two_byte c_exts].
    destruct (decide (c_exts c = [])) as [->|Hne]; [done|].
    rewrite !ext_block_length, zeroed_bytes_length by (done || by destruct (c_exts c)). done. }
  do 4 eexists. split; [exact E0|]. split; [exact E|]. split; [apply ZeroMutableExtensions_built|]. split.
  { intros type Hk. rewrite !FindExtension_built. destruct (Z.eqb_spec (GetId m type) 0) as [|Hne]; [done|].
    cbn [with_exts c_exts]. rewrite find_zeroed, GetType_GetId; [done..|].
    unfold IsRegistered, kInvalidId. apply negb_true_iff, Z.eqb_neq. done. }
  rewrite !Csrcs_built, !payload_built, !packet_bytes_built, !encode_length by (done || (cbn [with_exts c_padding]; lia)).
  cbn [with_exts c_payload c_padding]. rewrite El. do 9 (split; [done|]). exact El.
Qed.

Lemma zero_mutable_extensions_spec_witness :
  ∃ p0 p oks p', NewRtpPacket (λ _, 0) example_map 100 = Done p0 ∧ build_run (λ _, 0) p0 example_ops = Done (p, oks) ∧
    ZeroMutableExtensions p = Done p' ∧ FindExtension p' kRtpExtensionAbsoluteSendTime = Some [0; 0; 0] ∧
    FindExtension p' kRtpExtensionMid = Some [65; 66].
Proof.
  destruct (zero_mutable_extensions_spec (λ _, 0) example_map 100 example_ops example_map_ok ltac:(lia) example_allowed)
    as (p0 & p & oks & p' & E0 & E1 & E2 & Hf & _).
  pose proof (Hf kRtpExtensionAbsoluteSendTime (conj eq_refl eq_refl)) as F1.
  pose proof (Hf kRtpExtensionMid (conj eq_refl eq_refl)) as F2.
  pose proof E0 as G0. vm_compute in G0. injection G0 as <-.
  pose proof E1 as G1. vm_compute in G1. injection G1 as <- <-.
  do 4 eexists. split; [exact E0|]. split; [exact E1|]. split; [exact E2|]. split; [exact F1|exact F2].
Defined.

(** C16: [RemoveExtension] removes one header extension.  On a packet filled by any operations it
    stays within the buffers and reports success if and only if the extension is there and the
    others fit, with the fixed header, into a packet of the default size of 1500 bytes; otherwise
    the packet is as it was.  After success the extension is gone, the others, the fields and the
    payload are as before, the CSRCs are lost, and the bytes parse to the same again; the padding
    is kept if the new packet with it has at most 1500 bytes, and is lost otherwise. *)
Theorem remove_extension_spec mem m n ops type : map_ok m → 12 ≤ n → all_allowed m (MkModel empty_content n) ops →
  known_type type →
  let others := remaining (c_exts (content (spec_run m (MkModel empty_content n) ops).1)) (GetId m type) in
  ∃ p0 p oks p', NewRtpPacket mem m n = Done p0 ∧ build_run mem p0 ops = Done (p, oks) ∧
    let ok := HasExtension p type && (exts_end others <=? kDefaultPacketSize) in
    RemoveExtension mem p type = Done (p', ok) ∧
    if ok then
      (∀ type', known_type type' → FindExtension p' type' = if type' =? type then None else FindExtension p type') ∧
      Csrcs p' = Done [] ∧ payload p' = payload p ∧ marker_ p' = marker_ p ∧ payload_type_ p' = payload_type_ p ∧
      sequence_number_ p' = sequence_number_ p ∧ timestamp_ p' = timestamp_ p ∧ ssrc_ p' = ssrc_ p ∧
      padding_size_ p' = (if headers_size p' + zlen (payload p) + padding_size_ p <=? kDefaultPacketSize
                          then padding_size_ p else 0) ∧
      ∀ mem' q, extensions_ q = m → ∃ q', Parse mem' q (packet_bytes p') = Done (q', true) ∧
        payload q' = payload p ∧ padding_size_ q' = padding_size_ p' ∧
        ∀ type', FindExtension q' type' = FindExtension p' type'
    else p' = p.
Proof.
  intros Hm Hn Ha Hk. pose proof (run_new mem m n ops Hm Hn Ha) as H.
  pose proof (mixed_ok_run m ops (MkModel empty_content n) ltac:(by constructor)) as Hmix.
  destruct (spec_run m (MkModel empty_content n) ops) as [s oks]. destruct H as (p0 & rest & E0 & E & Hcap & Hv).
  cbn [fst] in Hmix |- *. set (c := content s) in *. set (others := remaining (c_exts c) (GetId m type)).
  destruct (RemoveExtension_built mem m c rest type Hv Hmix) as (p' & Er & Hp').
  exists p0, (built m c rest), oks, p'. split; [exact E0|]. split; [exact E|]. rewrite HasExtension_built. fold others in Er, Hp'.
  unfold kDefaultPacketSize. cbv zeta. split; [exact Er|]. destruct (_ && _) eqn:Ef; [|exact Hp']. destruct Hp' as (rest' & ->).
  apply andb_true_iff in Ef as [Ef Hroom%Z.leb_le]. apply andb_true_iff in Ef as [Ef _]. apply negb_true_iff, Z.eqb_neq in Ef.
  pose proof (valid_without c (GetId m type) Hv Hroom) as Hv'. split; [|split; [by rewrite Csrcs_built|]].
  - intros type' Hk'. rewrite !FindExtension_built. cbn [without with_padding c_exts]. rewrite find_remaining.
    destruct (Z.eqb_spec (GetId m type') 0); [by destruct (type' =? type)|].
    destruct (Z.eqb_spec (GetId m type') (GetId m type)) as [Eid|Hne].
    + assert (type' = type) as -> by (by apply (mo_unique m Hm)). by rewrite Z.eqb_refl.
    + destruct (Z.eqb_spec type' type) as [->|]; done.
  - rewrite !payload_built. do 7 (split; [done|]). intros mem' q Eq. rewrite packet_bytes_built.
    destruct (Parse_encode mem' m (without c (GetId m type)) q Hv' Eq) as (rest2 & sz & ->). eexists. split; [done|].
    change (payload (built m (without c (GetId m type)) rest2) = c_payload c ∧
      padding_size_ (built m (without c (GetId m type)) rest') = padding_size_ (built m (without c (GetId m type)) rest') ∧ ∀ type',
      FindExtension (built m (without c (GetId m type)) rest2) type' =
      FindExtension (built m (without c (GetId m type)) rest') type').
    split; [by rewrite payload_built|]. split; [done|]. intros type'. by rewrite !FindExtension_built.
Qed.

Lemma remove_extension_spec_witness :
  ∃ p0 p oks p', NewRtpPacket (λ _, 0) example_map 100 = Done p0 ∧ build_run (λ _, 0) p0 example_ops = Done (p, oks) ∧
    RemoveExtension (λ _, 0) p kRtpExtensionMid = Done (p', true) ∧
    FindExtension p' kRtpExtensionMid = None ∧ FindExtension p' kRtpExtensionAbsoluteSendTime = Some [10; 11; 12] ∧
    payload p' = [9; 8; 7].
Proof.
  destruct (remove_extension_spec (λ _, 0) example_map 100 example_ops kRtpExtensionMid example_map_ok ltac:(lia)
    example_allowed (conj eq_refl eq_refl)) as (p0 & p & oks & p' & E0 & E1 & E2 & H).
  pose proof E0 as G0. vm_compute in G0. injection G0 as <-.
  pose proof E1 as G1. vm_compute in G1. injection G1 as <- <-.
  match type of E2 with _ = Done (_, ?h) => assert (h = true) as Eh by (vm_compute; reflexivity); rewrite Eh in E2, H end.
  destruct H as (Hf & _ & Hp & _).
  pose proof (Hf kRtpExtensionMid (conj eq_refl eq_refl)) as F1.
  pose proof (Hf kRtpExtensionAbsoluteSendTime (conj eq_refl eq_refl)) as F2.
  do 4 eexists. split; [exact E0|]. split; [exact E1|]. split; [exact E2|]. split; [exact F1|]. split; [exact F2|exact Hp].
Defined.

Lemma CopyHeaderFrom_built m c rest q : c_padding c = 0 →
  CopyHeaderFrom q (built m c rest) = built m (with_payload c []) (c_payload c ++ rest).
Proof.
  intros Ep. unfold CopyHeaderFrom, headers_size, bytes. cbn [buffer_ storage built marker_ payload_type_ sequence_number_
    timestamp_ ssrc_ payload_offset_ extensions_ extension_entries_ extensions_size_]. unfold built.
  assert (encode c ++ rest = encode (with_payload c []) ++ c_payload c ++ rest ∧
    zlen (encode (with_payload c [])) = zlen (header_bytes c)) as [<- ->].
  { unfold encode. cbn [with_payload c_payload c_padding]. rewrite Ep. change (padding_bytes 0) with (@nil Z).
    rewrite !app_nil_r, <- app_assoc. done. }
  by cbn [with_payload c_marker c_type c_padding c_seq c_time c_ssrc c_two_byte c_csrcs c_exts c_payload length];
    rewrite Ep.
Qed.

(** C40: A packet with a copied header can be filled like a new one.  [CopyHeaderFrom] of a packet
    that is filled by any operations and has no padding gives a packet with the same fields,
    CSRCs and extensions and no payload, whose bytes are the header; and any operations from
    there on refine the specification as they do from a new packet. *)
Theorem copy_header_refines mem m n ops ops' q : map_ok m → 12 ≤ n → all_allowed m (MkModel empty_content n) ops →
  let s := (spec_run m (MkModel empty_content n) ops).1 in
  let s1 := MkModel (with_payload (content s) []) (cap s) in
  c_padding (content s) = 0 → all_allowed m s1 ops' →
  ∃ p0 p oks p', NewRtpPacket mem m n = Done p0 ∧ build_run mem p0 ops = Done (p, oks) ∧
    packet_bytes (CopyHeaderFrom q p) = header_bytes (content s) ∧ Csrcs (CopyHeaderFrom q p) = Csrcs p ∧
    (∀ type, FindExtension (CopyHeaderFrom q p) type = FindExtension p type) ∧
    build_run mem (CopyHeaderFrom q p) ops' = Done (p', (spec_run m s1 ops').2) ∧
    packet_bytes p' = encode (content (spec_run m s1 ops').1).
Proof.
  intros Hm Hn Ha s s1 Hpad Ha'. pose proof (run_new mem m n ops Hm Hn Ha) as H. subst s1 s.
  destruct (spec_run m (MkModel empty_content n) ops) as [s oks]. destruct H as (p0 & rest & E0 & E & Hcap & Hv).
  cbn [fst] in *. set (c := content s) in *. set (s1 := MkModel (with_payload c []) (cap s)) in *.
  assert (valid (with_payload c [])) as Hv1 by (pose proof Hv as []; by apply (valid_fields c)).
  assert (holds m s1 (built m (with_payload c []) (c_payload c ++ rest))) as Hh.
  { eexists. split; [done|]. rewrite <- (CopyHeaderFrom_built m c rest (built m c rest) Hpad). exact Hcap. }
  pose proof (run_holds mem m ops' s1 _ Hm Hv1 Ha' Hh) as H. destruct (spec_run m s1 ops') as [s2 oks2].
  destruct H as (p' & E' & (rest' & -> & _) & _). exists p0, (built m c rest), oks, (built m (content s2) rest').
  rewrite CopyHeaderFrom_built, !packet_bytes_built, !Csrcs_built by done. split; [exact E0|]. split; [exact E|].
  split. { unfold encode. cbn [with_payload c_payload c_padding]. rewrite Hpad. by rewrite app_nil_r. }
  split; [done|]. split; [|by split]. intros type. by rewrite !FindExtension_built.
Qed.

Lemma copy_header_refines_witness :
  let ops := [OpCsrcs [1; 2]; OpExtension kRtpExtensionMid [65; 66]; OpPayload [5; 6]] in
  let ops' := [OpExtension kRtpExtensionAbsoluteSendTime [1; 2; 3]; OpPayload [7]; OpPadding 3] in
  ∃ p0 p oks p', NewRtpPacket (λ _, 0) example_map 100 = Done p0 ∧ build_run (λ _, 0) p0 ops = Done (p, oks) ∧
    build_run (λ _, 0) (CopyHeaderFrom p0 p) ops' = Done (p', [true; true; true]) ∧
    packet_bytes p' = [178; 0; 0; 0; 0; 0; 0; 0; 0; 0; 0; 0; 0; 0; 0; 1; 0; 0; 0; 2; 16; 0; 0; 3;
                       20; 2; 65; 66; 3; 3; 1; 2; 3; 0; 0; 0; 7; 0; 0; 3].
Proof.
  intros ops ops'. set (s := (spec_run example_map (MkModel empty_content 100) ops).1).
  set (s1 := MkModel (with_payload (content s) []) (cap s)).
  assert (all_allowed example_map (MkModel empty_content 100) ops) as Ha.
  { apply (bool_decide_eq_true_1 (all_allowed example_map (MkModel empty_content 100) ops)). vm_compute. reflexivity. }
  assert (all_allowed example_map s1 ops') as Ha'.
  { apply (bool_decide_eq_true_1 (all_allowed example_map s1 ops')). vm_compute. reflexivity. }
  destruct (new_holds (λ _, 0) example_map 100 ltac:(lia)) as (q & Eq & _).
  destruct (copy_header_refines (λ _, 0) example_map 100 ops ops' q example_map_ok ltac:(lia) Ha eq_refl Ha')
    as (p0 & p & oks & p' & E0 & E1 & _ & _ & _ & E2 & E3).
  rewrite E0 in Eq. injection Eq as <-. exists p0, p, oks, p'. split; [exact E0|]. split; [exact E1|].
  split; [exact E2|]. rewrite E3. vm_compute. reflexivity.
Defined.

(** * Corner cases *)

(** A packet without contents, to parse into. *)
Definition blank (m : RtpHeaderExtensionMap) : RtpPacket := MkRtp false 0 0 0 0 0 0 0 m [] 0 (MkBuffer [] 0).

(** The header copied from a packet with padding keeps the padding bit, so a payload set
    afterwards loses its end to padding that is not there when the packet is parsed. *)
Lemma copied_padding_bit :
  (p0 ← NewRtpPacket (λ _, 0) example_map 100;
   '(p, _) ← build_run (λ _, 0) p0 [OpPayload [5; 6]; OpPadding 4];
   '(q, _) ← build_run (λ _, 0) (CopyHeaderFrom p0 p) [OpPayload [7; 8; 2]];
   '(r, ok) ← Parse (λ _, 0) (blank example_map) (packet_bytes q);
   Done (padding_size_ q, payload q, ok, padding_size_ r, payload r)) =
  Done (0, [7; 8; 2], true, 2, [7]).
Proof. vm_compute. reflexivity. Qed.

(** The result of [SetPadding] is ignored when an extension is removed: a packet that does not fit
    into the default size with its padding loses it, and the removal reports success. *)
Lemma removed_padding_lost :
  (p0 ← NewRtpPacket (λ _, 0) example_map 2000;
   '(p, oks) ← build_run (λ _, 0) p0 [OpExtension kRtpExtensionMid [65; 66]; OpPayload (replicate 1480 7); OpPadding 20];
   '(q, ok) ← RemoveExtension (λ _, 0) p kRtpExtensionMid;
   Done (oks, padding_size_ p, ok, padding_size_ q)) =
  Done ([true; true; true], 20, true, 0).
Proof. vm_compute. reflexivity. Qed.

(** The extension is checked against the capacity before it is padded to words: with 18 bytes of
    capacity the check admits an extension of 18 bytes in all, and the padding is written behind
    the buffer. *)
Lemma padded_past_capacity :
  (p0 ← NewRtpPacket (λ _, 0) example_map 18; SetRawExtension (λ _, 0) p0 kRtpExtensionAbsoluteSendTime [1]) =
  OutOfBounds.
Proof. vm_compute. reflexivity. Qed.

(** An empty extension that is received with two-byte headers cannot be copied when extensions
    of both kinds are not allowed, so removing another one fails a check. *)
Definition one_byte_map : RtpHeaderExtensionMap := fst (RegisterByType (NewExtensionMap false) 3 kRtpExtensionMid).
Definition two_byte_packet : list Z :=
  [144; 0; 0; 0; 0; 0; 0; 0; 0; 0; 0; 0; 16; 0; 0; 2; 1; 0; 3; 2; 65; 66; 0; 0].

Lemma remove_empty_neighbour :
  ('(p, ok) ← Parse (λ _, 0) (blank one_byte_map) two_byte_packet;
   Done (ok, FindExtension p kRtpExtensionMid)) = Done (true, Some [65; 66]) ∧
  ('(p, _) ← Parse (λ _, 0) (blank one_byte_map) two_byte_packet;
   RemoveExtension (λ _, 0) p kRtpExtensionMid) = CheckFailed.
Proof. split; vm_compute; reflexivity. Qed.
