(* ===== verification/RtcpFields.v ===== *)
(** Fields of RTCP packets one after the other: lemmas on checked reads of
    modules/rtp_rtcp/source/byte_io.h from bytes that are known field by field, and on checked
    writes that fill a packet from front to back. *)
From S2P Require Import Prelude ByteIo RtpExtensionMap RtpPacket RtpWire RtpEncode RtpBuild RtpExtend.
From S2P Require Import RtpRoundtrip RtpHeaderExtensions Rtcp.

(** * Reads *)

(** A read depends on the bytes that it covers only. *)
Lemma ReadBigEndian_local S B a l p q : 1 ≤ B → (∀ i, 0 ≤ i < B → a.[p + i] = l.[q + i]) →
  ReadBigEndian S B a p = ReadBigEndian S B l q.
Proof.
  intros HB H. assert (a.[p] = l.[q]) as H0 by (specialize (H 0 ltac:(lia)); by rewrite !Z.add_0_r in H).
  unfold ReadBigEndian. destruct (Z.eqb_spec B 1); [done|].
  destruct (Z.eqb_spec B 2). { unfold ReadBigEndian_2. by rewrite H0, H by lia. }
  destruct (Z.eqb_spec B 4). { unfold ReadBigEndian_4, GetShl, Get. by rewrite H0, !H by lia. }
  destruct (Z.eqb_spec B 8). { unfold ReadBigEndian_8, GetShl, Get. by rewrite H0, !H by lia. }
  unfold InternalReadBigEndian. apply for_up_ext. intros i s Hi. rewrite H by lia. done.
Qed.

Section reads.
Context (a l : list Z) (off : Z) (Hoff : zlen a ≤ off).

Lemma in_mem_skip n : in_mem (a ++ l) off n = in_mem l (off - zlen a) n.
Proof. unfold in_mem. rewrite zlen_app. destruct_cmp; try lia; done. Qed.

Lemma get_uint_skip S B : 1 ≤ B → get_uint S B (a ++ l) off = get_uint S B l (off - zlen a).
Proof.
  intros HB. unfold get_uint. rewrite in_mem_skip. destruct (in_mem _ _ _); [|done]. f_equal.
  apply ReadBigEndian_local; [done|]. intros i Hi. rewrite rd_app_r by lia. f_equal. lia.
Qed.

Lemma get_sint_skip S B : 1 ≤ B → get_sint S B (a ++ l) off = get_sint S B l (off - zlen a).
Proof.
  intros HB. unfold get_sint, ReadBigEndian_signed. rewrite in_mem_skip. destruct (in_mem _ _ _); [|done].
  rewrite (ReadBigEndian_local S B (a ++ l) l off (off - zlen a)); [done..|].
  intros i Hi. rewrite rd_app_r by lia. f_equal. lia.
Qed.

Lemma read8_skip : read8 (a ++ l) off = read8 l (off - zlen a).
Proof. unfold read8. rewrite in_mem_skip, rd_app_r by done. done. Qed.

Lemma read_mem_skip n : read_mem (a ++ l) off n = read_mem l (off - zlen a) n.
Proof.
  unfold read_mem, slice. rewrite in_mem_skip. destruct (in_mem _ _ _); [|done].
  rewrite drop_app_ge by lia. by replace (Z.to_nat off - length a)%nat with (Z.to_nat (off - zlen a)) by lia.
Qed.
End reads.

Lemma get_uint_prefix S B l k off : 1 ≤ B → off + B ≤ zlen l → get_uint S B (l ++ k) off = get_uint S B l off.
Proof.
  intros HB Hl. unfold get_uint. rewrite in_mem_app by done. destruct (in_mem l off B); [|done]. f_equal.
  apply ReadBigEndian_local; [done|]. intros i Hi. by rewrite rd_app_l by lia.
Qed.

(** The field at the front. *)
Lemma get_uint_head S B v l off : off = 0 → 1 ≤ B ≤ S → 0 ≤ v < 2 ^ (8 * B) →
  get_uint S B (be_bytes (Z.to_nat B) v ++ l) off = Done v.
Proof.
  intros -> HB Hv. rewrite get_uint_prefix by (rewrite ?be_bytes_length; lia). by apply get_uint_full.
Qed.

Lemma get_sint_head S B v l off : off = 0 → 1 ≤ B ≤ S → S ≤ 8 → B = S ∨ B ≤ 3 →
  - 2 ^ (8 * B - 1) ≤ v < 2 ^ (8 * B - 1) → get_sint S B (be_bytes (Z.to_nat B) v ++ l) off = Done v.
Proof.
  intros -> HB HS Hc Hv. rewrite <- (get_sint_full S B v) by done. unfold get_sint.
  rewrite in_mem_app by (rewrite be_bytes_length; lia). destruct (in_mem _ _ _); [|done]. f_equal.
  unfold ReadBigEndian_signed. rewrite (ReadBigEndian_local S B (_ ++ l) (be_bytes (Z.to_nat B) v) 0 0); [done|lia|].
  intros i Hi. rewrite rd_app_l by (rewrite be_bytes_length; lia). done.
Qed.

Lemma read8_head b l off : off = 0 → read8 (b :: l) off = Done b.
Proof. intros ->. rewrite read8_done by (cbn [length]; lia). done. Qed.

Lemma read_mem_head d l off n : off = 0 → n = zlen d → read_mem (d ++ l) off n = Done d.
Proof.
  intros -> ->. rewrite read_mem_done by (rewrite ?zlen_app; lia). f_equal. unfold slice.
  change (Z.to_nat 0) with 0%nat. rewrite drop_0, Nat2Z.id. apply take_app_length.
Qed.

Lemma read_mem_full d off n : off = 0 → n = zlen d → read_mem d off n = Done d.
Proof. intros. rewrite <- (app_nil_r d) at 1. by apply read_mem_head. Qed.

(** * Writes *)

(** The bytes [bs] are in place from [index] on. *)
Section writes.
Context (packet : list Z) (index : Z) (Hi : 0 ≤ index).

Lemma fill_mem bs pos w : pos = index + zlen bs → pos + zlen w ≤ zlen packet →
  write_mem (store packet index bs) pos w = Done (store packet index (bs ++ w)).
Proof.
  intros -> Hl. assert (zlen (store packet index bs) = zlen packet) as L by (rewrite store_length by lia; done).
  rewrite write_mem_done by lia. by rewrite store_app by lia.
Qed.

Lemma fill_be B bs pos v : 1 ≤ B → pos = index + zlen bs → pos + B ≤ zlen packet →
  write_be B (store packet index bs) pos v = Done (store packet index (bs ++ be_bytes (Z.to_nat B) v)).
Proof.
  intros HB -> Hl. assert (zlen (store packet index bs) = zlen packet) as L by (rewrite store_length by lia; done).
  rewrite write_be_done by lia. rewrite store_app by (rewrite ?be_bytes_length; lia). done.
Qed.

Lemma fill_sint S B bs pos v : 1 ≤ B ≤ S → pos = index + zlen bs → pos + B ≤ zlen packet →
  write_sint S B (store packet index bs) pos v = Done (store packet index (bs ++ be_bytes (Z.to_nat B) v)).
Proof.
  intros HB -> Hl. assert (zlen (store packet index bs) = zlen packet) as L by (rewrite store_length by lia; done).
  unfold write_sint. rewrite in_mem_true by lia. f_equal. unfold WriteBigEndian_signed, ReinterpretAsUnsigned, to_U.
  rewrite WriteBigEndian_store, store_app by (rewrite ?be_bytes_length; lia).
  rewrite <- (Z2Nat.id S) by lia. by rewrite be_bytes_mod by lia.
Qed.

Lemma fill8 bs pos v : pos = index + zlen bs → pos + 1 ≤ zlen packet →
  write8 (store packet index bs) pos v = Done (store packet index (bs ++ [u8 v])).
Proof. intros. unfold write8. apply fill_mem; [done|]. cbn [length]. lia. Qed.
End writes.

Lemma zlen_be_bytes B v : 0 ≤ B → zlen (be_bytes (Z.to_nat B) v) = B.
Proof. intros. rewrite be_bytes_length. lia. Qed.

(** ** Fields in sequence *)

(** An integer of [B] bytes. *)
Notation be B v := (be_bytes (Z.to_nat B) v).

(** What [f] writes behind other bytes. *)
Definition appends (f : list Z → Z → outcome (list Z)) (bs : list Z) : Prop :=
  ∀ packet index pre pos, 0 ≤ index → pos = index + zlen pre → pos + zlen bs ≤ zlen packet →
    f (store packet index pre) pos = Done (store packet index (pre ++ bs)).

(** Lengths and ranges of fields. *)
Ltac flen := rewrite ?zlen_app, ?be_bytes_length in *; cbn [length] in *; lia.
Ltac fval := solve [done | lia | unfold uint8, uint16, uint32, uint64 in *; lia].

(** Runs the writes of a program on a packet in the form [store packet index bytes]. *)
Ltac fill_one :=
  first [rewrite fill_be by flen | rewrite fill_sint by flen | rewrite fill8 by flen | rewrite fill_mem by flen];
  cbn [mbind outcome_bind].
Ltac fill_all := repeat fill_one; rewrite <- ?app_assoc.

(** Runs the reads of a program on bytes in the form [field ++ field ++ ...]. *)
Ltac skip_one :=
  first [rewrite get_uint_skip by flen | rewrite get_sint_skip by flen | rewrite read8_skip by flen |
         rewrite read_mem_skip by flen].
Ltac read_one :=
  repeat skip_one;
  first [rewrite get_uint_head by first [flen | fval] | rewrite get_sint_head by first [flen | fval | by right; fval | by left] |
         rewrite read8_head by flen | rewrite read_mem_head by flen];
  cbn [mbind outcome_bind].
Ltac read_all := repeat read_one.

(** [Forall uint8] of fields. *)
Lemma be_uint8 B v : Forall uint8 (be B v).
Proof. apply be_bytes_uint8. Qed.
Ltac fbytes := repeat apply Forall_app_2; try apply be_uint8; try done.
