(* ===== verification/RtcpKinds.v ===== *)
(** RTCP packets in general: modules/rtp_rtcp/source/rtcp_packet.cc and
    rtcp_packet/compound_packet.cc.

    Each class of packets overrides [BlockLength] and [Create] and has a [Parse].  Their [Create]s
    share one scheme: they hand over what is in the buffer until there is room, write the common
    header, and then the contents.  The record [RtcpKind] holds what is particular to a class;
    [PacketCreate] is the scheme.  What a class promises is [LawfulPacket]; compound packets are
    verified for all lawful classes.  Accesses are checked in the monad of RtpPacket; a parser
    may read the payload only that the common header announces. *)
From S2P Require Import Prelude ByteIo RtpExtensionMap RtpPacket RtpWire RtpHeaderExtensions Rtcp RtcpFields.

(** * Definitions *)

Record RtcpKind (V : Type) : Type := MkKind {
  pk_type : Z;
  pk_count : V → Z;
  pk_length : V → Z;
  pk_write : V → list Z → Z → outcome (list Z * Z);
  pk_parse : V → CommonHeader → outcome (V * bool);
}.
Arguments MkKind {V} _ _ _ _ _.
Arguments pk_type {V} _.
Arguments pk_count {V} _ _.
Arguments pk_length {V} _ _.
Arguments pk_write {V} _ _ _ _.
Arguments pk_parse {V} _ _ _.

(** The payload, without the padding. *)
Definition header_payload (h : CommonHeader) : list Z := take (Z.to_nat (payload_size h)) (payload h).

(** The loop in front; it ends at the latest with an empty buffer. *)
Fixpoint room_loop (fuel : nat) (block_length : Z) (packet : list Z) (index max_length : Z) (ready : list (list Z))
  : outcome (Z * list (list Z) * bool) :=
  match fuel with
  | O => OutOfFuel
  | S fuel =>
      if index + block_length >? max_length then
        let '(index, ready, ok) := OnBufferFull packet index ready in
        if negb ok then Done (index, ready, false) else room_loop fuel block_length packet index max_length ready
      else Done (index, ready, true)
  end.

Definition PacketHeaderLength (block_length : Z) : Z := (block_length - kHeaderLength) `div` 4.

(** The header and the contents. *)
Definition PacketWrite {V} (E : RtcpKind V) (v : V) (packet : list Z) (index : Z) : outcome (list Z * Z) :=
  if negb (in_mem packet index kHeaderLength) then OutOfBounds
  else
    let '(packet, index) :=
      CreateHeader (pk_count E v) (pk_type E) (PacketHeaderLength (pk_length E v)) false packet index in
    pk_write E v packet index.

Definition PacketCreate {V} (E : RtcpKind V) (v : V) (packet : list Z) (index max_length : Z) (ready : list (list Z))
  : outcome (list Z * Z * list (list Z) * bool) :=
  '(index, ready, ok) ← room_loop 2 (pk_length E v) packet index max_length ready;
  if negb ok then Done (packet, index, ready, false)
  else '(packet, index) ← PacketWrite E v packet index; Done (packet, index, ready, true).

(** A packet of any class. *)
Inductive AnyPacket : Type :=
  | Any {V : Type} (E : RtcpKind V) (v : V).

Definition packet_length (a : AnyPacket) : Z := match a with Any E v => pk_length E v end.

Definition Append (appended : list AnyPacket) (packet : AnyPacket) : list AnyPacket := appended ++ [packet].

Fixpoint CompoundCreate (appended : list AnyPacket) (packet : list Z) (index max_length : Z) (ready : list (list Z))
  : outcome (list Z * Z * list (list Z) * bool) :=
  match appended with
  | [] => Done (packet, index, ready, true)
  | Any E v :: appended =>
      '(packet, index, ready, ok) ← PacketCreate E v packet index max_length ready;
      if negb ok then Done (packet, index, ready, false)
      else CompoundCreate appended packet index max_length ready
  end.

Definition CompoundBlockLength (appended : list AnyPacket) : Z := foldr (λ a n, packet_length a + n) 0 appended.

(** [RtcpPacket::Build] with a callback; [buffer] is what the local array holds.  The packets
    handed over, and the result. *)
Definition CompoundBuild (appended : list AnyPacket) (buffer : list Z) (max_length : Z)
  : outcome (list (list Z) * bool) :=
  if negb (max_length <=? IP_PACKET_SIZE) then CheckFailed
  else
    '(packet, index, ready, ok) ← CompoundCreate appended buffer 0 max_length [];
    if negb ok then Done (ready, false)
    else let '(_, ready, ok) := OnBufferFull packet index ready in Done (ready, ok).

(** [RtcpPacket::Build] into a buffer of the length of the packet; there is no callback. *)
Definition CompoundBuildWhole (mem : Z → Z) (appended : list AnyPacket) : outcome (list Z) :=
  let size := CompoundBlockLength appended in
  '(packet, _, _, _) ← CompoundCreate appended (extend mem [] size) 0 size [];
  Done packet.

(** * What a class promises *)

Class LawfulPacket {V} (E : RtcpKind V) (P : V → Prop) : Prop := {
  lp_type : uint8 (pk_type E);
  lp_count : ∀ v, P v → 0 ≤ pk_count E v < 32;
  lp_length : ∀ v, P v → 4 ≤ pk_length E v ≤ 4 * 65536 ∧ pk_length E v `mod` 4 = 0;
  lp_body : ∀ v, P v → ∃ body, zlen body = pk_length E v - 4 ∧ Forall uint8 body ∧
    (∀ packet index, 0 ≤ index → index + zlen body ≤ zlen packet →
       pk_write E v packet index = Done (store packet index body, index + zlen body)) ∧
    (∀ v0 rest, pk_parse E v0 (MkHeader (pk_type E) (pk_count E v) 0 (zlen body) (body ++ rest)) = Done (v, true));
  lp_parse : ∀ v0 h, Forall uint8 (payload h) → 0 ≤ payload_size h ≤ zlen (payload h) →
    0 ≤ count_or_format h < 32 → ∃ r, pk_parse E v0 h = Done r;
}.

Lemma header_payload_all type count body rest : header_payload (MkHeader type count 0 (zlen body) (body ++ rest)) = body.
Proof. unfold header_payload. cbn [payload_size payload]. by rewrite Nat2Z.id, take_app_length. Qed.

Lemma header_payload_length h : 0 ≤ payload_size h ≤ zlen (payload h) → zlen (header_payload h) = payload_size h.
Proof. intros H. unfold header_payload. rewrite length_take. lia. Qed.

(** The laws from what is written, field by field. *)
Lemma lawful_intro {V} (E : RtcpKind V) (P : V → Prop) (bytes : V → list Z) : uint8 (pk_type E) →
  (∀ v, P v → 0 ≤ pk_count E v < 32 ∧ Forall uint8 (bytes v) ∧ pk_length E v = 4 + zlen (bytes v) ∧ pk_length E v ≤ 4 * 65536 ∧
     pk_length E v `mod` 4 = 0) →
  (∀ v, P v → ∀ packet index pre pos, 0 ≤ index → pos = index + zlen pre → pos + zlen (bytes v) ≤ zlen packet →
     pk_write E v (store packet index pre) pos = Done (store packet index (pre ++ bytes v), pos + zlen (bytes v))) →
  (∀ v v0 h, P v → header_payload h = bytes v → payload_size h = zlen (bytes v) → count_or_format h = pk_count E v →
     pk_parse E v0 h = Done (v, true)) →
  (∀ v0 h, Forall uint8 (header_payload h) → zlen (header_payload h) = payload_size h → 0 ≤ count_or_format h < 32 →
     ∃ r, pk_parse E v0 h = Done r) →
  LawfulPacket E P.
Proof.
  intros Ht Hb Hw Hp Hs. split; [done|intros v Hv; by apply Hb|intros v Hv; destruct (Hb v Hv) as (_ & _ & H & H' & Hm); split; [lia|done]| |].
  - intros v Hv. destruct (Hb v Hv) as (_ & Hu & H & _ & _). exists (bytes v). split; [lia|]. split; [done|]. split.
    + intros packet index Hi Hl. pose proof (Hw v Hv packet index [] index Hi) as E1. rewrite store_nil in E1.
      apply E1; cbn [length]; lia.
    + intros v0 rest. by apply Hp; [|apply header_payload_all|..].
  - intros v0 h Hu Hsz Hc. apply Hs; [by apply Forall_take|by apply header_payload_length|done].
Qed.

(** A class that is lawful for some contents is for fewer. *)
Lemma lawful_weaken {V} (E : RtcpKind V) (P Q : V → Prop) : LawfulPacket E P → (∀ v, Q v → P v) → LawfulPacket E Q.
Proof. intros [H1 H2 H3 H4 H5] H. split; [done|intros v Hv..|done]; [apply H2|apply H3|apply H4]; by apply H. Qed.

Definition lawful_any (a : AnyPacket) : Prop := match a with Any E v => ∃ P, LawfulPacket E P ∧ P v end.

(** What a receiver gets out of the bytes: header by header, each class parses its own. *)
Fixpoint received (bytes : list Z) (packets : list AnyPacket) : Prop :=
  match packets with
  | [] => bytes = []
  | Any E v :: packets =>
      let '(h, ok) := CommonHeader_Parse NewHeader bytes (zlen bytes) in
      ok = true ∧ packet_type h = pk_type E ∧ count_or_format h = pk_count E v ∧
      (∀ v0, pk_parse E v0 h = Done (v, true)) ∧
      received (drop (Z.to_nat (packet_size h)) bytes) packets
  end.

(** * One packet *)

(** The bytes of a packet. *)
Definition encodes (a : AnyPacket) (bs : list Z) : Prop :=
  match a with
  | Any E v => ∃ body, bs = header_bytes (pk_count E v) (pk_type E) (zlen body `div` 4) ++ body ∧
      zlen body = pk_length E v - 4 ∧ zlen body `mod` 4 = 0 ∧ zlen body < 4 * 65536 ∧ Forall uint8 body ∧
      uint8 (pk_type E) ∧ 0 ≤ pk_count E v < 32 ∧
      (∀ packet index, 0 ≤ index → index + zlen body ≤ zlen packet →
         pk_write E v packet index = Done (store packet index body, index + zlen body)) ∧
      (∀ v0 rest, pk_parse E v0 (MkHeader (pk_type E) (pk_count E v) 0 (zlen body) (body ++ rest)) = Done (v, true))
  end.

Lemma lawful_encodes a : lawful_any a → ∃ bs, encodes a bs.
Proof.
  destruct a as [V E v]. intros (P & HL & Hv). destruct (lp_length v Hv) as [Hl Hm].
  destruct (lp_body v Hv) as (body & Hb & Hu & Hw & Hp). eexists. exists body. split; [done|]. split; [done|].
  split; [zdiv|]. split; [lia|]. split; [done|]. split; [apply lp_type|]. split; [by apply lp_count|]. by split.
Qed.

Lemma encodes_length a bs : encodes a bs → zlen bs = packet_length a ∧ 4 ≤ zlen bs.
Proof.
  destruct a as [V E v]. intros (body & -> & Hb & _). rewrite zlen_app. change (zlen (header_bytes _ _ _)) with 4.
  cbn [packet_length]. lia.
Qed.

Lemma encodes_uint8 a bs : encodes a bs → Forall uint8 bs.
Proof.
  destruct a as [V E v]. intros (body & -> & _ & Hm & Hl & Hu & Ht & Hc & _). apply Forall_app_2; [|done].
  unfold header_bytes. unfold uint8 in Ht. repeat (apply Forall_cons_2; [unfold uint8; zdiv|]). apply Forall_nil_2.
Qed.

(** With room in the buffer. *)
Lemma PacketWrite_bytes {V} (E : RtcpKind V) v bs packet index : encodes (Any E v) bs → 0 ≤ index →
  index + zlen bs ≤ zlen packet → PacketWrite E v packet index = Done (store packet index bs, index + zlen bs).
Proof.
  intros (body & -> & Hb & Hm & Hl & Hu & Ht & Hc & Hw & Hp) Hi Hr. unfold PacketWrite.
  rewrite zlen_app in *. set (hd := header_bytes _ _ _) in *. assert (zlen hd = 4) as Eh by done.
  unfold kHeaderLength. rewrite in_mem_true by lia. cbn [negb].
  assert (PacketHeaderLength (pk_length E v) = zlen body `div` 4) as -> by (unfold PacketHeaderLength, kHeaderLength; by rewrite Hb).
  rewrite CreateHeader_bytes by (try zdiv; lia). fold hd.
  assert (zlen (store packet index hd) = zlen packet) as L by (rewrite store_length by lia; done).
  rewrite Hw by lia. pose proof (store_app packet hd body index Hi) as E1. rewrite Eh in E1. rewrite E1 by lia.
  rewrite Eh. by rewrite Z.add_assoc.
Qed.

Section create.
Context {V : Type} (E : RtcpKind V) (v : V) (bs : list Z) (He : encodes (Any E v) bs).

Lemma PacketCreate_room packet index max_length ready : 0 ≤ index → index + zlen bs ≤ max_length ≤ zlen packet →
  PacketCreate E v packet index max_length ready = Done (store packet index bs, index + zlen bs, ready, true).
Proof using He.
  intros Hi Hr. destruct (encodes_length _ _ He) as [El _]. cbn [packet_length] in El. unfold PacketCreate. cbn [room_loop].
  rewrite Z.gtb_ltb. destruct (Z.ltb_spec max_length (index + pk_length E v)); [lia|]. cbn [mbind outcome_bind negb].
  by rewrite (PacketWrite_bytes E v bs) by (done || lia).
Qed.

Lemma PacketCreate_flush packet index max_length ready : 0 < index → zlen bs ≤ max_length ≤ zlen packet →
  max_length < index + zlen bs → PacketCreate E v packet index max_length ready =
    Done (store packet 0 bs, zlen bs, ready ++ [take (Z.to_nat index) packet], true).
Proof using He.
  intros Hi Hr Hf. destruct (encodes_length _ _ He) as [El _]. cbn [packet_length] in El. unfold PacketCreate. cbn [room_loop].
  rewrite !Z.gtb_ltb. destruct (Z.ltb_spec max_length (index + pk_length E v)); [|lia].
  unfold OnBufferFull at 1. destruct (Z.eqb_spec index 0); [lia|]. cbn [negb].
  rewrite Z.gtb_ltb. destruct (Z.ltb_spec max_length (0 + pk_length E v)); [lia|]. cbn [mbind outcome_bind negb].
  rewrite (PacketWrite_bytes E v bs packet 0 He) by lia. by rewrite Z.add_0_l.
Qed.

Lemma PacketCreate_too_big packet index max_length ready : 0 ≤ index → max_length < zlen bs →
  PacketCreate E v packet index max_length ready =
    Done (packet, 0, if index =? 0 then ready else ready ++ [take (Z.to_nat index) packet], false).
Proof using He.
  intros Hi Hf. destruct (encodes_length _ _ He) as [El _]. cbn [packet_length] in El.
  unfold PacketCreate. cbn [room_loop]. rewrite !Z.gtb_ltb. destruct (Z.ltb_spec max_length (index + pk_length E v)); [|lia].
  unfold OnBufferFull. destruct (Z.eqb_spec index 0) as [->|]; cbn [negb mbind outcome_bind]; [done|].
  rewrite Z.gtb_ltb. destruct (Z.ltb_spec max_length (0 + pk_length E v)); [|lia]. done.
Qed.
End create.

(** The common header is parsed, and the contents are where the class looks for them. *)
Lemma header_parse h0 count type words body rest : 0 ≤ count < 32 → uint8 type → zlen body = 4 * words →
  0 ≤ words < 65536 → Forall uint8 body →
  let p := header_bytes count type words ++ body ++ rest in
  CommonHeader_Parse h0 p (zlen p) = (MkHeader type count 0 (zlen body) (body ++ rest), true).
Proof.
  intros Hc Ht Hb Hw Hu p. assert (zlen p = 4 + zlen body + zlen rest) as Lp.
  { unfold p. rewrite !zlen_app. change (zlen (header_bytes _ _ _)) with 4. lia. }
  unfold CommonHeader_Parse, kHeaderSizeBytes. destruct (Z.ltb_spec (zlen p) 4); [lia|].
  change (p.[0]) with (128 + count). change (p.[1]) with type.
  assert ((128 + count) ≫ 6 = 2 ∧ Z.land (128 + count) 0x20 = 0 ∧ Z.land (128 + count) 0x1F = count) as (-> & -> & ->).
  { apply (check_range_dec (λ c, (128 + c) ≫ 6 = 2 ∧ Z.land (128 + c) 0x20 = 0 ∧ Z.land (128 + c) 0x1F = c) 0 32);
      [by vm_compute|lia]. }
  cbn [Z.eqb negb Pos.eqb].
  assert (ReadBigEndian 2 2 p 2 = words) as ->.
  { assert (be_bytes 2 words = [words `div` 256; words `mod` 256]) as E.
    { cbn [be_bytes]. change (8 * Z.of_nat 1) with 8. change (8 * Z.of_nat 0) with 0.
      rewrite Z.shiftr_0_r, Z.shiftr_div_pow2 by lia. change (2 ^ 8) with 256.
      rewrite (u8_id (words `div` 256)); [done|]. unfold uint8. zdiv. }
    pose proof (get_uint_head 2 2 words (body ++ rest) 0 eq_refl ltac:(lia) ltac:(lia)) as Hg.
    change (Z.to_nat 2) with 2%nat in Hg. rewrite E in Hg. unfold get_uint in Hg.
    rewrite in_mem_true in Hg by (rewrite ?zlen_app; cbn [length]; lia). injection Hg as Hg.
    transitivity (ReadBigEndian 2 2 ([words `div` 256; words `mod` 256] ++ body ++ rest) 0); [|exact Hg].
    apply ReadBigEndian_local; [lia|]. intros i Hi.
    assert (i = 0 ∨ i = 1) as [-> | ->] by lia; done. }
  destruct (Z.ltb_spec (zlen p) (4 + words * 4)); [lia|]. by replace (words * 4) with (zlen body) by lia.
Qed.

Lemma received_app a bs packets rest : encodes a bs → received rest packets → received (bs ++ rest) (a :: packets).
Proof.
  intros He Hr. destruct a as [V E v]. destruct He as (body & -> & Hb & Hm & Hl & Hu & Ht & Hc & _ & Hp).
  cbn [received]. rewrite <- app_assoc. rewrite header_parse by (done || zdiv). split; [done|]. split; [done|]. split; [done|].
  split; [intros v0; apply Hp|]. unfold packet_size, kHeaderSizeBytes. cbn [payload_size padding_size].
  rewrite app_assoc. replace (Z.to_nat (4 + zlen body + 0)) with (length (header_bytes (pk_count E v) (pk_type E) (zlen body `div` 4) ++ body)).
  - by rewrite drop_app_length.
  - rewrite length_app. change (length (header_bytes (pk_count E v) (pk_type E) (zlen body `div` 4))) with 4%nat. lia.
Qed.
