(* ===== verification/RtcpReports.v ===== *)
(** Sender and receiver reports, source descriptions, goodbye and application packets:
    report_block.cc, sender_report.cc, receiver_report.cc, sdes.cc, bye.cc and app.cc of
    modules/rtp_rtcp/source/rtcp_packet.  Each class is shown to be lawful. *)
From S2P Require Import Prelude ByteIo RtpExtensionMap RtpPacket RtpWire RtpHeaderExtensions Rtcp RtcpFields RtcpKinds.

(** * Report blocks *)

Record ReportBlock : Type := MkBlock {
  source_ssrc_ : Z; fraction_lost_ : Z; cumulative_lost_ : Z; extended_high_seq_num_ : Z; jitter_ : Z;
  last_sr_ : Z; delay_since_last_sr_ : Z }.

Definition kReportBlockLength : Z := 24.
Definition NewReportBlock : ReportBlock := MkBlock 0 0 0 0 0 0 0.

(** [p] is where the block starts in the buffer. *)
Definition ReportBlock_Parse (b : ReportBlock) (buffer : list Z) (p length : Z) : outcome (ReportBlock * bool) :=
  if length <? kReportBlockLength then Done (b, false)
  else
    source_ssrc ← get_uint 4 4 buffer p;
    fraction_lost ← read8 buffer (p + 4);
    cumulative_lost ← get_sint 4 3 buffer (p + 5);
    extended_high_seq_num ← get_uint 4 4 buffer (p + 8);
    jitter ← get_uint 4 4 buffer (p + 12);
    last_sr ← get_uint 4 4 buffer (p + 16);
    delay_since_last_sr ← get_uint 4 4 buffer (p + 20);
    Done (MkBlock source_ssrc fraction_lost cumulative_lost extended_high_seq_num jitter last_sr delay_since_last_sr, true).

Definition ReportBlock_Create (b : ReportBlock) (buffer : list Z) (p : Z) : outcome (list Z) :=
  buffer ← write_be 4 buffer p (source_ssrc_ b);
  buffer ← write_be 1 buffer (p + 4) (fraction_lost_ b);
  buffer ← write_sint 4 3 buffer (p + 5) (cumulative_lost_ b);
  buffer ← write_be 4 buffer (p + 8) (extended_high_seq_num_ b);
  buffer ← write_be 4 buffer (p + 12) (jitter_ b);
  buffer ← write_be 4 buffer (p + 16) (last_sr_ b);
  write_be 4 buffer (p + 20) (delay_since_last_sr_ b).

Definition SetCumulativeLost (b : ReportBlock) (cumulative_lost : Z) : ReportBlock * bool :=
  if (cumulative_lost >=? 1 ≪ 23) || (cumulative_lost <? - (1 ≪ 23)) then (b, false)
  else (MkBlock (source_ssrc_ b) (fraction_lost_ b) cumulative_lost (extended_high_seq_num_ b) (jitter_ b)
          (last_sr_ b) (delay_since_last_sr_ b), true).

(** The other setters of a block. *)
Definition SetBlockSsrc (b : ReportBlock) (ssrc : Z) : ReportBlock :=
  MkBlock ssrc (fraction_lost_ b) (cumulative_lost_ b) (extended_high_seq_num_ b) (jitter_ b) (last_sr_ b) (delay_since_last_sr_ b).
Definition SetFractionLost (b : ReportBlock) (fraction_lost : Z) : ReportBlock :=
  MkBlock (source_ssrc_ b) fraction_lost (cumulative_lost_ b) (extended_high_seq_num_ b) (jitter_ b) (last_sr_ b) (delay_since_last_sr_ b).
Definition SetExtHighestSeqNum (b : ReportBlock) (ext_highest_seq_num : Z) : ReportBlock :=
  MkBlock (source_ssrc_ b) (fraction_lost_ b) (cumulative_lost_ b) ext_highest_seq_num (jitter_ b) (last_sr_ b) (delay_since_last_sr_ b).
Definition SetJitter (b : ReportBlock) (jitter : Z) : ReportBlock :=
  MkBlock (source_ssrc_ b) (fraction_lost_ b) (cumulative_lost_ b) (extended_high_seq_num_ b) jitter (last_sr_ b) (delay_since_last_sr_ b).
Definition SetLastSr (b : ReportBlock) (last_sr : Z) : ReportBlock :=
  MkBlock (source_ssrc_ b) (fraction_lost_ b) (cumulative_lost_ b) (extended_high_seq_num_ b) (jitter_ b) last_sr (delay_since_last_sr_ b).
Definition SetDelayLastSr (b : ReportBlock) (delay_last_sr : Z) : ReportBlock :=
  MkBlock (source_ssrc_ b) (fraction_lost_ b) (cumulative_lost_ b) (extended_high_seq_num_ b) (jitter_ b) (last_sr_ b) delay_last_sr.

(** The loops over the blocks of a report; every field of a block is assigned. *)
Fixpoint parse_blocks (n : nat) (buffer : list Z) (next_block : Z) : outcome (list ReportBlock) :=
  match n with
  | O => Done []
  | S n =>
      '(b, _) ← ReportBlock_Parse NewReportBlock buffer next_block kReportBlockLength;
      bs ← parse_blocks n buffer (next_block + kReportBlockLength);
      Done (b :: bs)
  end.

Fixpoint write_blocks (bs : list ReportBlock) (packet : list Z) (index : Z) : outcome (list Z * Z) :=
  match bs with
  | [] => Done (packet, index)
  | b :: bs => packet ← ReportBlock_Create b packet index; write_blocks bs packet (index + kReportBlockLength)
  end.

(** * Sender and receiver reports *)

(** [NtpTime] of system_wrappers/include/ntp_time.h is its 64-bit value. *)
Definition kFractionsPerSecond : Z := 0x100000000.
Definition NtpTime_Set (seconds fractions : Z) : Z := u64 (seconds * kFractionsPerSecond + fractions).
Definition NtpTime_seconds (ntp : Z) : Z := u32 (ntp `div` kFractionsPerSecond).
Definition NtpTime_fractions (ntp : Z) : Z := u32 (ntp `mod` kFractionsPerSecond).

Record SenderReport : Type := MkSr {
  sr_sender_ssrc : Z; ntp_ : Z; rtp_timestamp_ : Z; sender_packet_count_ : Z; sender_octet_count_ : Z;
  sr_report_blocks : list ReportBlock }.

Definition kMaxNumberOfReportBlocks : Z := 0x1f.
Definition kSenderBaseLength : Z := 24.

Definition SenderReport_Parse (r : SenderReport) (packet : CommonHeader) : outcome (SenderReport * bool) :=
  let report_block_count := count_or_format packet in
  if payload_size packet <? kSenderBaseLength + report_block_count * kReportBlockLength then Done (r, false)
  else
    let payload := header_payload packet in
    sender_ssrc ← get_uint 4 4 payload 0;
    secs ← get_uint 4 4 payload 4;
    frac ← get_uint 4 4 payload 8;
    rtp_timestamp ← get_uint 4 4 payload 12;
    sender_packet_count ← get_uint 4 4 payload 16;
    sender_octet_count ← get_uint 4 4 payload 20;
    blocks ← parse_blocks (Z.to_nat report_block_count) payload kSenderBaseLength;
    Done (MkSr sender_ssrc (NtpTime_Set secs frac) rtp_timestamp sender_packet_count sender_octet_count blocks, true).

Definition SenderReport_BlockLength (r : SenderReport) : Z :=
  kHeaderLength + kSenderBaseLength + zlen (sr_report_blocks r) * kReportBlockLength.

Definition SenderReport_Write (r : SenderReport) (packet : list Z) (index : Z) : outcome (list Z * Z) :=
  packet ← write_be 4 packet (index + 0) (sr_sender_ssrc r);
  packet ← write_be 4 packet (index + 4) (NtpTime_seconds (ntp_ r));
  packet ← write_be 4 packet (index + 8) (NtpTime_fractions (ntp_ r));
  packet ← write_be 4 packet (index + 12) (rtp_timestamp_ r);
  packet ← write_be 4 packet (index + 16) (sender_packet_count_ r);
  packet ← write_be 4 packet (index + 20) (sender_octet_count_ r);
  write_blocks (sr_report_blocks r) packet (index + kSenderBaseLength).

Definition SenderReport_AddReportBlock (r : SenderReport) (block : ReportBlock) : SenderReport * bool :=
  if zlen (sr_report_blocks r) >=? kMaxNumberOfReportBlocks then (r, false)
  else (MkSr (sr_sender_ssrc r) (ntp_ r) (rtp_timestamp_ r) (sender_packet_count_ r) (sender_octet_count_ r)
          (sr_report_blocks r ++ [block]), true).

Definition SenderReport_SetReportBlocks (r : SenderReport) (blocks : list ReportBlock) : SenderReport * bool :=
  if zlen blocks >? kMaxNumberOfReportBlocks then (r, false)
  else (MkSr (sr_sender_ssrc r) (ntp_ r) (rtp_timestamp_ r) (sender_packet_count_ r) (sender_octet_count_ r) blocks, true).

Definition SenderReport_SetSenderSsrc (r : SenderReport) (ssrc : Z) : SenderReport :=
  MkSr ssrc (ntp_ r) (rtp_timestamp_ r) (sender_packet_count_ r) (sender_octet_count_ r) (sr_report_blocks r).
Definition SetNtp (r : SenderReport) (ntp : Z) : SenderReport :=
  MkSr (sr_sender_ssrc r) ntp (rtp_timestamp_ r) (sender_packet_count_ r) (sender_octet_count_ r) (sr_report_blocks r).
Definition SetRtpTimestamp (r : SenderReport) (rtp_timestamp : Z) : SenderReport :=
  MkSr (sr_sender_ssrc r) (ntp_ r) rtp_timestamp (sender_packet_count_ r) (sender_octet_count_ r) (sr_report_blocks r).
Definition SetPacketCount (r : SenderReport) (packet_count : Z) : SenderReport :=
  MkSr (sr_sender_ssrc r) (ntp_ r) (rtp_timestamp_ r) packet_count (sender_octet_count_ r) (sr_report_blocks r).
Definition SetOctetCount (r : SenderReport) (octet_count : Z) : SenderReport :=
  MkSr (sr_sender_ssrc r) (ntp_ r) (rtp_timestamp_ r) (sender_packet_count_ r) octet_count (sr_report_blocks r).
Definition ClearReportBlocks (r : SenderReport) : SenderReport :=
  MkSr (sr_sender_ssrc r) (ntp_ r) (rtp_timestamp_ r) (sender_packet_count_ r) (sender_octet_count_ r) [].

Definition SenderReportKind : RtcpKind SenderReport :=
  MkKind 200 (λ r, zlen (sr_report_blocks r)) SenderReport_BlockLength SenderReport_Write SenderReport_Parse.

Record ReceiverReport : Type := MkRr { rr_sender_ssrc : Z; rr_report_blocks : list ReportBlock }.

Definition kRrBaseLength : Z := 4.

Definition ReceiverReport_Parse (r : ReceiverReport) (packet : CommonHeader) : outcome (ReceiverReport * bool) :=
  let report_blocks_count := count_or_format packet in
  if payload_size packet <? kRrBaseLength + report_blocks_count * kReportBlockLength then Done (r, false)
  else
    sender_ssrc ← get_uint 4 4 (header_payload packet) 0;
    blocks ← parse_blocks (Z.to_nat report_blocks_count) (header_payload packet) kRrBaseLength;
    Done (MkRr sender_ssrc blocks, true).

Definition ReceiverReport_BlockLength (r : ReceiverReport) : Z :=
  kHeaderLength + kRrBaseLength + zlen (rr_report_blocks r) * kReportBlockLength.

Definition ReceiverReport_Write (r : ReceiverReport) (packet : list Z) (index : Z) : outcome (list Z * Z) :=
  packet ← write_be 4 packet index (rr_sender_ssrc r);
  write_blocks (rr_report_blocks r) packet (index + kRrBaseLength).

Definition ReceiverReport_AddReportBlock (r : ReceiverReport) (block : ReportBlock) : ReceiverReport * bool :=
  if zlen (rr_report_blocks r) >=? kMaxNumberOfReportBlocks then (r, false)
  else (MkRr (rr_sender_ssrc r) (rr_report_blocks r ++ [block]), true).

Definition ReceiverReport_SetReportBlocks (r : ReceiverReport) (blocks : list ReportBlock) : ReceiverReport * bool :=
  if zlen blocks >? kMaxNumberOfReportBlocks then (r, false) else (MkRr (rr_sender_ssrc r) blocks, true).

Definition ReceiverReport_SetSenderSsrc (r : ReceiverReport) (ssrc : Z) : ReceiverReport := MkRr ssrc (rr_report_blocks r).

Definition ReceiverReportKind : RtcpKind ReceiverReport :=
  MkKind 201 (λ r, zlen (rr_report_blocks r)) ReceiverReport_BlockLength ReceiverReport_Write ReceiverReport_Parse.

(** * Goodbye *)

Record Bye : Type := MkBye { bye_sender_ssrc : Z; csrcs_ : list Z; reason_ : list Z }.

Definition kMaxNumberOfCsrcs : Z := 0x1f - 1.

Fixpoint read_ssrcs (n : nat) (payload : list Z) (p : Z) : outcome (list Z) :=
  match n with
  | O => Done []
  | S n => ssrc ← get_uint 4 4 payload p; ssrcs ← read_ssrcs n payload (p + 4); Done (ssrc :: ssrcs)
  end.

Fixpoint write_ssrcs (ssrcs : list Z) (packet : list Z) (index : Z) : outcome (list Z * Z) :=
  match ssrcs with
  | [] => Done (packet, index)
  | ssrc :: ssrcs => packet ← write_be 4 packet index ssrc; write_ssrcs ssrcs packet (index + 4)
  end.

(** The reason, if there is one, or [None] if its length is wrong. *)
Definition Bye_reason (payload : list Z) (payload_size src_count : Z) : outcome (option (list Z)) :=
  if payload_size >? 4 * src_count then
    reason_length ← read8 payload (4 * src_count);
    if payload_size - 4 * src_count <? 1 + reason_length then Done None
    else reason ← read_mem payload (4 * src_count + 1) reason_length; Done (Some reason)
  else Done (Some []).

Definition Bye_Parse (b : Bye) (packet : CommonHeader) : outcome (Bye * bool) :=
  let src_count := count_or_format packet in
  if payload_size packet <? 4 * src_count then Done (b, false)
  else
    let payload := header_payload packet in
    reason ← Bye_reason payload (payload_size packet) src_count;
    match reason with
    | None => Done (b, false)
    | Some reason =>
        if src_count =? 0 then Done (MkBye 0 [] reason, true)
        else
          sender_ssrc ← get_uint 4 4 payload 0;
          csrcs ← read_ssrcs (Z.to_nat (src_count - 1)) payload 4;
          Done (MkBye sender_ssrc csrcs reason, true)
    end.

Definition Bye_BlockLength (b : Bye) : Z :=
  let src_count := 1 + zlen (csrcs_ b) in
  let reason_size_in_32bits := if zlen (reason_ b) =? 0 then 0 else zlen (reason_ b) `div` 4 + 1 in
  kHeaderLength + 4 * (src_count + reason_size_in_32bits).

Definition Bye_Write (b : Bye) (packet : list Z) (index : Z) : outcome (list Z * Z) :=
  let index_end := index - kHeaderLength + Bye_BlockLength b in
  packet ← write_be 4 packet index (bye_sender_ssrc b);
  '(packet, index) ← write_ssrcs (csrcs_ b) packet (index + 4);
  if negb (zlen (reason_ b) =? 0) then
    let reason_length := u8 (zlen (reason_ b)) in
    packet ← write8 packet index reason_length;
    let index := index + 1 in
    packet ← write_mem packet index (take (Z.to_nat reason_length) (reason_ b));
    let index := index + reason_length in
    let bytes_to_pad := index_end - index in
    if bytes_to_pad >? 0 then
      packet ← write_mem packet index (replicate (Z.to_nat bytes_to_pad) 0); Done (packet, index + bytes_to_pad)
    else Done (packet, index)
  else Done (packet, index).

Definition Bye_SetCsrcs (b : Bye) (csrcs : list Z) : Bye * bool :=
  if zlen csrcs >? kMaxNumberOfCsrcs then (b, false) else (MkBye (bye_sender_ssrc b) csrcs (reason_ b), true).
Definition Bye_SetReason (b : Bye) (reason : list Z) : Bye := MkBye (bye_sender_ssrc b) (csrcs_ b) reason.

Definition Bye_SetSenderSsrc (b : Bye) (ssrc : Z) : Bye := MkBye ssrc (csrcs_ b) (reason_ b).

Definition ByeKind : RtcpKind Bye := MkKind 203 (λ b, 1 + zlen (csrcs_ b)) Bye_BlockLength Bye_Write Bye_Parse.

(** * Application packets *)

Record App : Type := MkApp { sub_type_ : Z; app_sender_ssrc : Z; name_ : Z; data_ : list Z }.

Definition kAppBaseLength : Z := 8.
Definition kMaxDataSize : Z := 0xffff * 4 - kAppBaseLength.

Definition App_Parse (a : App) (packet : CommonHeader) : outcome (App * bool) :=
  if payload_size packet <? kAppBaseLength then Done (a, false)
  else if negb (payload_size packet `mod` 4 =? 0) then Done (a, false)
  else
    sender_ssrc ← get_uint 4 4 (header_payload packet) 0;
    name ← get_uint 4 4 (header_payload packet) 4;
    data ← read_mem (header_payload packet) kAppBaseLength (payload_size packet - kAppBaseLength);
    Done (MkApp (count_or_format packet) sender_ssrc name data, true).

Definition App_BlockLength (a : App) : Z := kHeaderLength + kAppBaseLength + zlen (data_ a).

Definition App_Write (a : App) (packet : list Z) (index : Z) : outcome (list Z * Z) :=
  packet ← write_be 4 packet (index + 0) (app_sender_ssrc a);
  packet ← write_be 4 packet (index + 4) (name_ a);
  packet ← (if negb (zlen (data_ a) =? 0) then write_mem packet (index + 8) (data_ a) else Done packet);
  Done (packet, index + (8 + zlen (data_ a))).

Definition App_SetSubType (a : App) (subtype : Z) : App := MkApp subtype (app_sender_ssrc a) (name_ a) (data_ a).
Definition App_SetData (a : App) (data : list Z) : App := MkApp (sub_type_ a) (app_sender_ssrc a) (name_ a) data.

Definition App_SetName (a : App) (name : Z) : App := MkApp (sub_type_ a) (app_sender_ssrc a) name (data_ a).
Definition App_SetSenderSsrc (a : App) (ssrc : Z) : App := MkApp (sub_type_ a) ssrc (name_ a) (data_ a).

Definition AppKind : RtcpKind App := MkKind 204 sub_type_ App_BlockLength App_Write App_Parse.

(** * Source descriptions *)

Record Chunk : Type := MkChunk { chunk_ssrc : Z; cname : list Z }.
Record Sdes : Type := MkSdes { chunks_ : list Chunk; block_length_ : Z }.

Definition kTerminatorTag : Z := 0.
Definition kCnameTag : Z := 1.
Definition kMaxNumberOfChunks : Z := 0x1f.

Definition NewSdes : Sdes := MkSdes [] kHeaderLength.

Definition ChunkSize (chunk : Chunk) : Z :=
  let chunk_payload_size := 4 + 1 + 1 + zlen (cname chunk) in
  let padding_size := 4 - chunk_payload_size `mod` 4 in
  chunk_payload_size + padding_size.

(** The loop over the items of a chunk: where it ends and the name found, or [None] for an
    error.  Every turn takes two bytes at least. *)
Fixpoint sdes_items (fuel : nat) (data : list Z) (looking_at payload_end : Z) (found : option (list Z))
  : outcome (option (Z * option (list Z))) :=
  match fuel with
  | O => OutOfFuel
  | S fuel =>
      item_type ← read8 data looking_at;
      let looking_at := looking_at + 1 in
      if item_type =? kTerminatorTag then Done (Some (looking_at, found))
      else if looking_at >=? payload_end then Done None
      else
        item_length ← read8 data looking_at;
        let looking_at := looking_at + 1 in
        let kTerminatorSize := 1 in
        if looking_at + item_length + kTerminatorSize >? payload_end then Done None
        else if item_type =? kCnameTag then
          match found with
          | Some _ => Done None
          | None =>
              name ← read_mem data looking_at item_length;
              sdes_items fuel data (looking_at + item_length) payload_end (Some name)
          end
        else sdes_items fuel data (looking_at + item_length) payload_end found
  end.

(** The loop over the chunks, of which [remaining] are still expected: in every turn a chunk is
    stored or, without a name, no longer expected.  The chunks and the block length. *)
Fixpoint sdes_chunks (remaining : nat) (data : list Z) (looking_at payload_end : Z) (chunks : list Chunk)
    (block_length : Z) : outcome (option (list Chunk * Z)) :=
  match remaining with
  | O => Done (Some (chunks, block_length))
  | S remaining =>
      if payload_end - looking_at <? 8 then Done None
      else
        ssrc ← get_uint 4 4 data looking_at;
        items ← sdes_items (S (length data)) data (looking_at + 4) payload_end None;
        match items with
        | None => Done None
        | Some (looking_at, found) =>
            let next := looking_at + (payload_end - looking_at) `mod` 4 in
            match found with
            | Some name =>
                let chunk := MkChunk ssrc name in
                sdes_chunks remaining data next payload_end (chunks ++ [chunk]) (block_length + ChunkSize chunk)
            | None => sdes_chunks remaining data next payload_end chunks block_length
            end
        end
  end.

Definition Sdes_Parse (s : Sdes) (packet : CommonHeader) : outcome (Sdes * bool) :=
  r ← sdes_chunks (Z.to_nat (count_or_format packet)) (header_payload packet) 0 (payload_size packet) [] kHeaderLength;
  match r with
  | None => Done (s, false)
  | Some (chunks, block_length) => Done (MkSdes chunks block_length, true)
  end.

Definition AddCName (s : Sdes) (ssrc : Z) (name : list Z) : Sdes * bool :=
  if zlen (chunks_ s) >=? kMaxNumberOfChunks then (s, false)
  else
    let chunk := MkChunk ssrc name in
    (MkSdes (chunks_ s ++ [chunk]) (block_length_ s + ChunkSize chunk), true).

Fixpoint write_chunks (chunks : list Chunk) (packet : list Z) (index : Z) : outcome (list Z * Z) :=
  match chunks with
  | [] => Done (packet, index)
  | chunk :: chunks =>
      packet ← write_be 4 packet (index + 0) (chunk_ssrc chunk);
      packet ← write_be 1 packet (index + 4) kCnameTag;
      packet ← write_be 1 packet (index + 5) (u8 (zlen (cname chunk)));
      packet ← write_mem packet (index + 6) (cname chunk);
      let index := index + (6 + zlen (cname chunk)) in
      let padding_size := 4 - (6 + zlen (cname chunk)) `mod` 4 in
      packet ← write_mem packet index (replicate (Z.to_nat padding_size) 0);
      write_chunks chunks packet (index + padding_size)
  end.

Definition Sdes_Write (s : Sdes) (packet : list Z) (index : Z) : outcome (list Z * Z) :=
  let index_end := index - kHeaderLength + block_length_ s in
  '(packet, index) ← write_chunks (chunks_ s) packet index;
  if negb (index =? index_end) then CheckFailed else Done (packet, index).

Definition SdesKind : RtcpKind Sdes := MkKind 202 (λ s, zlen (chunks_ s)) block_length_ Sdes_Write Sdes_Parse.

(** * Reports are lawful *)

Record valid_block (b : ReportBlock) : Prop := {
  vb_ssrc : uint32 (source_ssrc_ b);
  vb_fraction : uint8 (fraction_lost_ b);
  vb_lost : - 2 ^ 23 ≤ cumulative_lost_ b < 2 ^ 23;
  vb_high : uint32 (extended_high_seq_num_ b);
  vb_jitter : uint32 (jitter_ b);
  vb_last : uint32 (last_sr_ b);
  vb_delay : uint32 (delay_since_last_sr_ b);
}.

Definition block_bytes (b : ReportBlock) : list Z :=
  be 4 (source_ssrc_ b) ++ be 1 (fraction_lost_ b) ++ be 3 (cumulative_lost_ b) ++ be 4 (extended_high_seq_num_ b) ++
  be 4 (jitter_ b) ++ be 4 (last_sr_ b) ++ be 4 (delay_since_last_sr_ b).

Lemma block_length b : zlen (block_bytes b) = 24.
Proof. unfold block_bytes. flen. Qed.

Lemma block_create b : appends (ReportBlock_Create b) (block_bytes b).
Proof.
  intros packet index pre pos Hi -> Hl. rewrite block_length in Hl. unfold ReportBlock_Create, block_bytes.
  fill_all. done.
Qed.

Lemma read8_be v l off : off = 0 → uint8 v → read8 (be 1 v ++ l) off = Done v.
Proof.
  intros -> Hv. change (be 1 v) with [u8 (v ≫ 0)]. rewrite Z.shiftr_0_r, u8_id by done. by apply read8_head.
Qed.

Lemma block_parse b b0 pre suf p : valid_block b → p = zlen pre →
  ReportBlock_Parse b0 (pre ++ block_bytes b ++ suf) p kReportBlockLength = Done (b, true).
Proof.
  intros [] ->. unfold ReportBlock_Parse, block_bytes. rewrite Z.ltb_irrefl. rewrite <- !app_assoc.
  read_one. repeat skip_one. rewrite read8_be by first [flen | done]. cbn [mbind outcome_bind]. read_all. by destruct b.
Qed.

Lemma write_blocks_bytes bs : ∀ packet index pre pos, 0 ≤ index → pos = index + zlen pre →
  pos + 24 * zlen bs ≤ zlen packet →
  write_blocks bs (store packet index pre) pos =
    Done (store packet index (pre ++ flat_map block_bytes bs), pos + 24 * zlen bs).
Proof.
  induction bs as [|b bs IH]; intros packet index pre pos Hi Hp Hl; cbn [write_blocks flat_map].
  { by rewrite app_nil_r, Z.add_0_r. }
  cbn [length] in Hl. rewrite block_create by (rewrite ?block_length; lia). cbn [mbind outcome_bind].
  unfold kReportBlockLength. rewrite IH by (rewrite ?zlen_app, ?block_length; lia). rewrite <- app_assoc.
  do 2 f_equal. cbn [length]. lia.
Qed.

Lemma report_blocks_length bs : zlen (flat_map block_bytes bs) = 24 * zlen bs.
Proof. induction bs as [|b bs IH]; [done|]. cbn [flat_map length]. rewrite zlen_app, block_length, IH. lia. Qed.

Lemma blocks_uint8 bs : Forall uint8 (flat_map block_bytes bs).
Proof. induction bs as [|b bs IH]; [by constructor|]. cbn [flat_map]. unfold block_bytes. fbytes. Qed.

Lemma parse_blocks_bytes bs : ∀ pre suf p, Forall valid_block bs → p = zlen pre →
  parse_blocks (length bs) (pre ++ flat_map block_bytes bs ++ suf) p = Done bs.
Proof.
  induction bs as [|b bs IH]; intros pre suf p Hv Hp; [done|]. apply Forall_cons_1 in Hv as [Hb Hv].
  cbn [length parse_blocks flat_map]. rewrite <- app_assoc. rewrite block_parse by done. cbn [mbind outcome_bind].
  unfold kReportBlockLength. rewrite app_assoc, IH by (done || (rewrite zlen_app, block_length; lia)). done.
Qed.

(** Blocks are read within the payload. *)
Lemma parse_blocks_done n buffer : ∀ p, 0 ≤ p → p + 24 * Z.of_nat n ≤ zlen buffer → ∃ bs, parse_blocks n buffer p = Done bs.
Proof.
  induction n as [|n IH]; intros p Hp Hl; [by exists []|]. cbn [parse_blocks]. unfold ReportBlock_Parse, kReportBlockLength.
  rewrite Z.ltb_irrefl, !get_uint_done, read8_done, get_sint_done by lia. cbn [mbind outcome_bind].
  destruct (IH (p + 24) ltac:(lia) ltac:(lia)) as (bs & ->). by eexists.
Qed.

Definition valid_sr (r : SenderReport) : Prop :=
  uint32 (sr_sender_ssrc r) ∧ uint64 (ntp_ r) ∧ uint32 (rtp_timestamp_ r) ∧ uint32 (sender_packet_count_ r) ∧
  uint32 (sender_octet_count_ r) ∧ Forall valid_block (sr_report_blocks r) ∧ zlen (sr_report_blocks r) ≤ 31.

Lemma ntp_parts ntp : uint64 ntp → uint32 (NtpTime_seconds ntp) ∧ uint32 (NtpTime_fractions ntp) ∧
  NtpTime_Set (NtpTime_seconds ntp) (NtpTime_fractions ntp) = ntp.
Proof.
  intros H. unfold NtpTime_seconds, NtpTime_fractions, NtpTime_Set, kFractionsPerSecond.
  split; [apply u32_range|]. split; [apply u32_range|]. unfold uint64 in H.
  rewrite (u32_id (ntp `div` _)) by (unfold uint32; zdiv). rewrite (u32_id (ntp `mod` _)) by (unfold uint32; zdiv).
  pose proof (Z_div_mod_eq_full ntp 0x100000000). rewrite u64_id; [lia|unfold uint64; lia].
Qed.

(** What [SenderReport_Write] stores. *)
Definition sr_bytes (r : SenderReport) : list Z :=
  be 4 (sr_sender_ssrc r) ++ be 4 (NtpTime_seconds (ntp_ r)) ++ be 4 (NtpTime_fractions (ntp_ r)) ++
  be 4 (rtp_timestamp_ r) ++ be 4 (sender_packet_count_ r) ++ be 4 (sender_octet_count_ r) ++
  flat_map block_bytes (sr_report_blocks r).

Lemma sr_bytes_length r : zlen (sr_bytes r) = 24 + 24 * zlen (sr_report_blocks r).
Proof. unfold sr_bytes. rewrite !zlen_app, report_blocks_length. flen. Qed.

#[export] Instance SenderReport_lawful : LawfulPacket SenderReportKind valid_sr.
Proof.
  apply (lawful_intro _ _ sr_bytes); [by vm_compute| | | |].
  - intros r (_ & _ & _ & _ & _ & _ & H). pose proof (sr_bytes_length r). cbn [pk_count pk_length SenderReportKind].
    unfold SenderReport_BlockLength, kHeaderLength, kSenderBaseLength, kReportBlockLength.
    split; [lia|]. split; [unfold sr_bytes; fbytes; apply blocks_uint8|]. split; [lia|]. split; [lia|]. zdiv.
  - intros r _ packet index pre pos Hi Hp Hl. rewrite sr_bytes_length in Hl |- *. cbn [pk_write SenderReportKind].
    unfold SenderReport_Write, sr_bytes, kSenderBaseLength. repeat fill_one. rewrite write_blocks_bytes by flen.
    rewrite <- !app_assoc. do 2 f_equal. lia.
  - intros r v0 h (H1 & H2 & H3 & H4 & H5 & H6 & H7) Hb Hs Hc. cbn [pk_parse pk_count SenderReportKind] in *.
    unfold SenderReport_Parse, kSenderBaseLength, kReportBlockLength. rewrite Hb, Hs, Hc, sr_bytes_length.
    destruct (Z.ltb_spec (24 + 24 * zlen (sr_report_blocks r)) (24 + zlen (sr_report_blocks r) * 24)); [lia|].
    destruct (ntp_parts _ H2) as (N1 & N2 & N3).
    pose proof (parse_blocks_bytes (sr_report_blocks r) (take 24 (sr_bytes r)) [] 24 H6) as Hp.
    replace (take 24 (sr_bytes r) ++ flat_map block_bytes (sr_report_blocks r) ++ []) with (sr_bytes r) in Hp.
    2: { rewrite app_nil_r. unfold sr_bytes. done. }
    rewrite Nat2Z.id, Hp by (rewrite length_take, ?(sr_bytes_length r); pose proof (sr_bytes_length r); lia).
    unfold sr_bytes. read_all. rewrite N3. by destruct r.
  - intros v0 h Hu L Hc. cbn [pk_parse SenderReportKind]. unfold SenderReport_Parse, kSenderBaseLength, kReportBlockLength.
    destruct (Z.ltb_spec (payload_size h) (24 + count_or_format h * 24)); [by eauto|].
    rewrite !get_uint_done by lia. cbn [mbind outcome_bind].
    destruct (parse_blocks_done (Z.to_nat (count_or_format h)) (header_payload h) 24) as (bs & ->); [lia|lia|]. by eauto.
Qed.

Definition valid_rr (r : ReceiverReport) : Prop :=
  uint32 (rr_sender_ssrc r) ∧ Forall valid_block (rr_report_blocks r) ∧ zlen (rr_report_blocks r) ≤ 31.

Definition rr_bytes (r : ReceiverReport) : list Z := be 4 (rr_sender_ssrc r) ++ flat_map block_bytes (rr_report_blocks r).

Lemma rr_bytes_length r : zlen (rr_bytes r) = 4 + 24 * zlen (rr_report_blocks r).
Proof. unfold rr_bytes. rewrite !zlen_app, report_blocks_length. flen. Qed.

#[export] Instance ReceiverReport_lawful : LawfulPacket ReceiverReportKind valid_rr.
Proof.
  apply (lawful_intro _ _ rr_bytes); [by vm_compute| | | |].
  - intros r (_ & _ & H). pose proof (rr_bytes_length r). cbn [pk_count pk_length ReceiverReportKind].
    unfold ReceiverReport_BlockLength, kHeaderLength, kRrBaseLength, kReportBlockLength.
    split; [lia|]. split; [unfold rr_bytes; fbytes; apply blocks_uint8|]. split; [lia|]. split; [lia|]. zdiv.
  - intros r _ packet index pre pos Hi Hp Hl. rewrite rr_bytes_length in Hl |- *. cbn [pk_write ReceiverReportKind].
    unfold ReceiverReport_Write, rr_bytes, kRrBaseLength. repeat fill_one. rewrite write_blocks_bytes by flen.
    rewrite <- !app_assoc. do 2 f_equal. lia.
  - intros r v0 h (H1 & H2 & H3) Hb Hs Hc. cbn [pk_parse pk_count ReceiverReportKind] in *.
    unfold ReceiverReport_Parse, kRrBaseLength, kReportBlockLength. rewrite Hb, Hs, Hc, rr_bytes_length.
    destruct (Z.ltb_spec (4 + 24 * zlen (rr_report_blocks r)) (4 + zlen (rr_report_blocks r) * 24)); [lia|].
    pose proof (parse_blocks_bytes (rr_report_blocks r) (be 4 (rr_sender_ssrc r)) [] 4 H2 ltac:(flen)) as Hp.
    rewrite app_nil_r in Hp. fold (rr_bytes r) in Hp. rewrite Nat2Z.id, Hp. unfold rr_bytes. read_all. by destruct r.
  - intros v0 h Hu L Hc. cbn [pk_parse ReceiverReportKind]. unfold ReceiverReport_Parse, kRrBaseLength, kReportBlockLength.
    destruct (Z.ltb_spec (payload_size h) (4 + count_or_format h * 24)); [by eauto|].
    rewrite !get_uint_done by lia. cbn [mbind outcome_bind].
    destruct (parse_blocks_done (Z.to_nat (count_or_format h)) (header_payload h) 4) as (bs & ->); [lia|lia|]. by eauto.
Qed.

(** * Goodbye is lawful *)

Definition ssrc_bytes (ssrcs : list Z) : list Z := flat_map (λ x, be 4 x) ssrcs.

Lemma ssrc_bytes_length ssrcs : zlen (ssrc_bytes ssrcs) = 4 * zlen ssrcs.
Proof. unfold ssrc_bytes. induction ssrcs as [|x l IH]; [done|]. cbn [flat_map length]. rewrite zlen_app, IH. flen. Qed.

Lemma ssrc_bytes_uint8 ssrcs : Forall uint8 (ssrc_bytes ssrcs).
Proof. unfold ssrc_bytes. induction ssrcs as [|x l IH]; [by constructor|]. cbn [flat_map]. fbytes. Qed.

Lemma write_ssrcs_bytes ssrcs : ∀ packet index pre pos, 0 ≤ index → pos = index + zlen pre →
  pos + 4 * zlen ssrcs ≤ zlen packet →
  write_ssrcs ssrcs (store packet index pre) pos =
    Done (store packet index (pre ++ ssrc_bytes ssrcs), pos + 4 * zlen ssrcs).
Proof.
  unfold ssrc_bytes. induction ssrcs as [|x l IH]; intros packet index pre pos Hi Hp Hl; cbn [write_ssrcs flat_map].
  { by rewrite app_nil_r, Z.add_0_r. }
  cbn [length] in Hl. fill_one. rewrite IH by flen. rewrite <- app_assoc. do 2 f_equal. cbn [length]. lia.
Qed.

Lemma read_ssrcs_bytes ssrcs : ∀ pre suf p, Forall uint32 ssrcs → p = zlen pre →
  read_ssrcs (length ssrcs) (pre ++ ssrc_bytes ssrcs ++ suf) p = Done ssrcs.
Proof.
  unfold ssrc_bytes. induction ssrcs as [|x l IH]; intros pre suf p Hv Hp; [done|]. apply Forall_cons_1 in Hv as [Hx Hv].
  cbn [length read_ssrcs flat_map]. rewrite <- app_assoc. read_one. rewrite app_assoc, IH by (done || flen). done.
Qed.

Lemma read_ssrcs_done n payload : ∀ p, 0 ≤ p → p + 4 * Z.of_nat n ≤ zlen payload → ∃ l, read_ssrcs n payload p = Done l.
Proof.
  induction n as [|n IH]; intros p Hp Hl; [by exists []|]. cbn [read_ssrcs]. rewrite get_uint_done by lia.
  cbn [mbind outcome_bind]. destruct (IH (p + 4) ltac:(lia) ltac:(lia)) as (l & ->). by eexists.
Qed.

Definition valid_bye (b : Bye) : Prop :=
  uint32 (bye_sender_ssrc b) ∧ Forall uint32 (csrcs_ b) ∧ zlen (csrcs_ b) ≤ kMaxNumberOfCsrcs ∧
  Forall uint8 (reason_ b) ∧ zlen (reason_ b) ≤ 255.

(** The reason with its length, filled up to words. *)
Definition reason_bytes (reason : list Z) : list Z :=
  if zlen reason =? 0 then []
  else [zlen reason] ++ reason ++ replicate (Z.to_nat (4 * (zlen reason `div` 4 + 1) - 1 - zlen reason)) 0.

Lemma reason_length reason :
  zlen (reason_bytes reason) = if zlen reason =? 0 then 0 else 4 * (zlen reason `div` 4 + 1).
Proof.
  unfold reason_bytes. destruct (_ =? _); [done|]. rewrite !zlen_app, length_replicate. cbn [length]. zdiv.
Qed.

Definition bye_bytes (b : Bye) : list Z := be 4 (bye_sender_ssrc b) ++ ssrc_bytes (csrcs_ b) ++ reason_bytes (reason_ b).

Lemma bye_bytes_length b : 4 + zlen (bye_bytes b) = Bye_BlockLength b.
Proof.
  unfold bye_bytes, Bye_BlockLength, kHeaderLength. rewrite !zlen_app, ssrc_bytes_length, reason_length.
  destruct (_ =? _); flen.
Qed.

Lemma bye_write b packet index pre pos : zlen (reason_ b) ≤ 255 → 0 ≤ index → pos = index + zlen pre →
  pos + zlen (bye_bytes b) ≤ zlen packet →
  Bye_Write b (store packet index pre) pos = Done (store packet index (pre ++ bye_bytes b), pos + zlen (bye_bytes b)).
Proof.
  intros Hr Hi Hp Hl. pose proof (bye_bytes_length b) as L. unfold Bye_Write. rewrite <- L. unfold bye_bytes in *.
  rewrite !zlen_app, ssrc_bytes_length, reason_length in *. unfold reason_bytes, kHeaderLength in *.
  rewrite be_bytes_length in *. destruct (Z.eqb_spec (zlen (reason_ b)) 0); cbn [negb].
  { fill_one. rewrite write_ssrcs_bytes by flen. cbn [mbind outcome_bind]. rewrite app_nil_r, <- !app_assoc.
    do 2 f_equal. lia. }
  assert (0 ≤ 4 * (zlen (reason_ b) `div` 4 + 1)) by zdiv.
  fill_one. rewrite write_ssrcs_bytes by flen. cbn [mbind outcome_bind].
  rewrite (u8_id (zlen (reason_ b))) by (unfold uint8; lia). rewrite Nat2Z.id, take_ge by lia.
  set (q := zlen (reason_ b) `div` 4 + 1) in *.
  assert (zlen (reason_ b) < 4 * q ≤ zlen (reason_ b) + 4) as Hq by (unfold q; zdiv).
  rewrite fill8 by (rewrite ?zlen_app, ?be_bytes_length, ?ssrc_bytes_length; cbn [length]; lia). cbn [mbind outcome_bind].
  rewrite fill_mem by (rewrite ?zlen_app, ?be_bytes_length, ?ssrc_bytes_length; cbn [length]; lia). cbn [mbind outcome_bind].
  rewrite (u8_id (zlen (reason_ b))) by (unfold uint8; lia).
  set (k := 4 * q - 1 - zlen (reason_ b)).
  replace (pos - 4 + _ - _) with k by (unfold k; lia). rewrite Z.gtb_ltb. destruct (Z.ltb_spec 0 k).
  - rewrite fill_mem by (rewrite ?zlen_app, ?be_bytes_length, ?ssrc_bytes_length, ?length_replicate; cbn [length]; lia).
    cbn [mbind outcome_bind]. rewrite <- !app_assoc. do 2 f_equal. lia.
  - replace (Z.to_nat k) with 0%nat by lia. cbn [replicate]. rewrite app_nil_r, <- !app_assoc. do 2 f_equal. lia.
Qed.

Lemma Bye_reason_bytes pre reason n : zlen pre = 4 * n → Forall uint8 reason → zlen reason ≤ 255 →
  Bye_reason (pre ++ reason_bytes reason) (zlen pre + zlen (reason_bytes reason)) n = Done (Some reason).
Proof.
  intros Hpre Hu Hr. rewrite reason_length. unfold Bye_reason, reason_bytes. rewrite Z.gtb_ltb.
  destruct (Z.eqb_spec (zlen reason) 0) as [E|Hne].
  { assert (reason = []) as -> by (apply nil_length_inv; lia).
    destruct (Z.ltb_spec (4 * n) (zlen pre + 0)); [lia|done]. }
  assert (zlen reason < 4 * (zlen reason `div` 4 + 1)) as Hq by zdiv.
  set (q := 4 * (zlen reason `div` 4 + 1)) in *. destruct (Z.ltb_spec (4 * n) (zlen pre + q)); [|lia].
  skip_one. change ([zlen reason] ++ ?l) with (zlen reason :: l). rewrite read8_head by lia. cbn [mbind outcome_bind].
  destruct (Z.ltb_spec (zlen pre + q - 4 * n) (1 + zlen reason)); [lia|].
  change (zlen reason :: ?l) with ([zlen reason] ++ l). do 2 skip_one. rewrite read_mem_head by flen. done.
Qed.

Lemma Bye_reason_done payload size n : zlen payload = size → 4 * n ≤ size → 0 ≤ n → Forall uint8 payload →
  ∃ r, Bye_reason payload size n = Done r.
Proof.
  intros Hl Hs Hn Hu. unfold Bye_reason. rewrite Z.gtb_ltb. destruct (Z.ltb_spec (4 * n) size); [|by eauto].
  rewrite read8_done by lia. cbn [mbind outcome_bind]. pose proof (rd_uint8 payload (4 * n) Hu) as Hb.
  destruct (Z.ltb_spec (size - 4 * n) (1 + payload.[4 * n])); [by eauto|].
  rewrite read_mem_done by lia. cbn [mbind outcome_bind]. by eauto.
Qed.

#[export] Instance Bye_lawful : LawfulPacket ByeKind valid_bye.
Proof.
  apply (lawful_intro _ _ bye_bytes); [by vm_compute| | | |].
  - intros b (_ & H2 & H3 & H4 & H5). unfold kMaxNumberOfCsrcs in H3. cbn [pk_count pk_length ByeKind]. split; [lia|].
    split.
    { unfold bye_bytes, reason_bytes. fbytes; [apply ssrc_bytes_uint8|]. destruct (_ =? _); [by constructor|].
      fbytes; [|apply Forall_replicate; unfold uint8; lia]. apply Forall_singleton. unfold uint8. lia. }
    split; [by rewrite bye_bytes_length|]. unfold Bye_BlockLength, kHeaderLength. split; [destruct (_ =? _); zdiv|].
    match goal with |- (4 + 4 * ?x) `mod` 4 = 0 => replace (4 + 4 * x) with ((1 + x) * 4) by lia end. apply Z_mod_mult.
  - intros b (_ & _ & _ & _ & H5) packet index pre pos Hi Hp Hl. by apply bye_write.
  - intros b v0 h (H1 & H2 & H3 & H4 & H5) Hb Hs Hc. cbn [pk_parse pk_count ByeKind] in *. unfold Bye_Parse.
    rewrite Hb, Hs, Hc. set (pre := be 4 (bye_sender_ssrc b) ++ ssrc_bytes (csrcs_ b)).
    assert (zlen pre = 4 * (1 + zlen (csrcs_ b))) as Lp by (unfold pre; rewrite zlen_app, ssrc_bytes_length; flen).
    assert (bye_bytes b = pre ++ reason_bytes (reason_ b)) as Eb by (unfold pre, bye_bytes; by rewrite <- app_assoc).
    rewrite Eb, zlen_app. pose proof (Bye_reason_bytes pre (reason_ b) _ Lp H4 H5) as Hr.
    destruct (Z.ltb_spec (zlen pre + zlen (reason_bytes (reason_ b))) (4 * (1 + zlen (csrcs_ b)))); [lia|].
    rewrite Hr. cbn [mbind outcome_bind]. destruct (Z.eqb_spec (1 + zlen (csrcs_ b)) 0); [lia|].
    replace (Z.to_nat (1 + zlen (csrcs_ b) - 1)) with (length (csrcs_ b)) by lia. unfold pre. rewrite <- app_assoc.
    read_one. rewrite read_ssrcs_bytes by (done || flen). by destruct b.
  - intros v0 h Hu L Hc. cbn [pk_parse ByeKind]. unfold Bye_Parse.
    destruct (Z.ltb_spec (payload_size h) (4 * count_or_format h)); [by eauto|].
    destruct (Bye_reason_done (header_payload h) (payload_size h) (count_or_format h)) as ([r|] & ->); [done|lia|lia|done| |by eauto].
    cbn [mbind outcome_bind]. destruct (Z.eqb_spec (count_or_format h) 0); [by eauto|].
    rewrite get_uint_done by lia. cbn [mbind outcome_bind].
    destruct (read_ssrcs_done (Z.to_nat (count_or_format h - 1)) (header_payload h) 4) as (l & ->); [lia|lia|]. by eauto.
Qed.

(** * Application packets are lawful *)

Definition valid_app (a : App) : Prop :=
  0 ≤ sub_type_ a < 32 ∧ uint32 (app_sender_ssrc a) ∧ uint32 (name_ a) ∧ Forall uint8 (data_ a) ∧
  zlen (data_ a) `mod` 4 = 0 ∧ zlen (data_ a) ≤ kMaxDataSize.

Definition app_bytes (a : App) : list Z := be 4 (app_sender_ssrc a) ++ be 4 (name_ a) ++ data_ a.

#[export] Instance App_lawful : LawfulPacket AppKind valid_app.
Proof.
  apply (lawful_intro _ _ app_bytes); [by vm_compute| | | |].
  - intros a (H1 & _ & _ & H4 & H5 & H6). unfold kMaxDataSize, kAppBaseLength in H6. cbn [pk_count pk_length AppKind].
    unfold App_BlockLength, app_bytes, kHeaderLength, kAppBaseLength. split; [done|]. split; [fbytes|]. split; [flen|].
    split; [lia|]. zdiv.
  - intros a _ packet index pre pos Hi Hp Hl. cbn [pk_write AppKind]. unfold App_Write, app_bytes in *.
    do 2 fill_one. destruct (Z.eqb_spec (zlen (data_ a)) 0) as [E|]; cbn [negb mbind outcome_bind].
    + assert (data_ a = []) as -> by (apply nil_length_inv; lia). rewrite !app_nil_r, <- !app_assoc. do 2 f_equal; flen.
    + fill_one. rewrite <- !app_assoc. do 2 f_equal; flen.
  - intros a v0 h (H1 & H2 & H3 & H4 & H5 & H6) Hb Hs Hc. cbn [pk_parse pk_count AppKind] in *. unfold App_Parse.
    rewrite Hb, Hs, Hc. unfold kAppBaseLength. assert (zlen (app_bytes a) = 8 + zlen (data_ a)) as L by (unfold app_bytes; flen).
    rewrite L. destruct (Z.ltb_spec (8 + zlen (data_ a)) 8); [lia|].
    destruct (Z.eqb_spec ((8 + zlen (data_ a)) `mod` 4) 0) as [|Hm]; [|destruct Hm; zdiv]. cbn [negb].
    unfold app_bytes. do 2 read_one. repeat skip_one. rewrite read_mem_full by flen. by destruct a.
  - intros v0 h Hu L Hc. cbn [pk_parse AppKind]. unfold App_Parse, kAppBaseLength.
    destruct (Z.ltb_spec (payload_size h) 8); [by eauto|]. destruct (negb _); [by eauto|].
    rewrite !get_uint_done, read_mem_done by lia. cbn [mbind outcome_bind]. by eauto.
Qed.

(** * Source descriptions are lawful *)

Definition valid_chunk (c : Chunk) : Prop := uint32 (chunk_ssrc c) ∧ Forall uint8 (cname c) ∧ zlen (cname c) ≤ 255.
Definition chunks_size (cs : list Chunk) : Z := foldr (λ c n, ChunkSize c + n) 0 cs.
Definition valid_sdes (s : Sdes) : Prop :=
  Forall valid_chunk (chunks_ s) ∧ zlen (chunks_ s) ≤ kMaxNumberOfChunks ∧ block_length_ s = 4 + chunks_size (chunks_ s).

(** [AddCName] keeps the block length. *)
Lemma chunks_size_app cs cs' : chunks_size (cs ++ cs') = chunks_size cs + chunks_size cs'.
Proof. induction cs as [|c cs IH]; [done|]. cbn [app chunks_size foldr] in *. unfold chunks_size in *. lia. Qed.

Lemma AddCName_valid s ssrc name : valid_sdes s → uint32 ssrc → Forall uint8 name → zlen name ≤ 255 →
  valid_sdes (AddCName s ssrc name).1.
Proof.
  intros (H1 & H2 & H3) Hs Hn Hl. unfold AddCName. destruct (Z.geb_spec (zlen (chunks_ s)) kMaxNumberOfChunks); [done|].
  cbn [fst]. split; [apply Forall_app_2; [done|by apply Forall_singleton]|]. cbn [chunks_ block_length_].
  rewrite zlen_app, chunks_size_app. cbn [length chunks_size foldr]. lia.
Qed.

Definition chunk_pad (c : Chunk) : Z := 4 - (6 + zlen (cname c)) `mod` 4.

Lemma chunk_pad_range c : 1 ≤ chunk_pad c ≤ 4 ∧ (6 + zlen (cname c) + chunk_pad c) `mod` 4 = 0 ∧
  ChunkSize c = 6 + zlen (cname c) + chunk_pad c.
Proof. unfold chunk_pad, ChunkSize. replace (4 + 1 + 1 + zlen (cname c)) with (6 + zlen (cname c)) by lia. zdiv. Qed.

Definition chunk_bytes (c : Chunk) : list Z :=
  be 4 (chunk_ssrc c) ++ be 1 kCnameTag ++ be 1 (zlen (cname c)) ++ cname c ++ replicate (Z.to_nat (chunk_pad c)) 0.

Lemma chunk_bytes_length c : zlen (chunk_bytes c) = ChunkSize c.
Proof.
  destruct (chunk_pad_range c) as (H1 & _ & ->). unfold chunk_bytes. rewrite !zlen_app, length_replicate. flen.
Qed.

Lemma chunks_bytes_length cs : zlen (flat_map chunk_bytes cs) = chunks_size cs ∧ chunks_size cs `mod` 4 = 0 ∧ 0 ≤ chunks_size cs.
Proof.
  induction cs as [|c cs IH]; [done|]. cbn [flat_map chunks_size foldr]. fold (chunks_size cs).
  rewrite zlen_app, chunk_bytes_length. destruct (chunk_pad_range c) as (H1 & H2 & H3). rewrite <- H3 in H2. split; [lia|]. zdiv.
Qed.

Lemma write_chunks_bytes cs : ∀ packet index pre pos, Forall valid_chunk cs → 0 ≤ index → pos = index + zlen pre →
  pos + chunks_size cs ≤ zlen packet → write_chunks cs (store packet index pre) pos =
    Done (store packet index (pre ++ flat_map chunk_bytes cs), pos + chunks_size cs).
Proof.
  induction cs as [|c cs IH]; intros packet index pre pos Hv Hi Hp Hl; cbn [write_chunks flat_map].
  { by rewrite app_nil_r, Z.add_0_r. }
  apply Forall_cons_1 in Hv as [(_ & _ & Hn) Hv]. cbn [chunks_size foldr] in *. fold (chunks_size cs) in *.
  destruct (chunk_pad_range c) as (H1 & _ & H3). destruct (chunks_bytes_length cs) as (_ & _ & H4).
  rewrite u8_id by (unfold uint8; lia). fold (chunk_pad c). do 3 fill_one. rewrite fill_mem by flen. cbn [mbind outcome_bind].
  rewrite fill_mem by (rewrite ?length_replicate; flen). cbn [mbind outcome_bind].
  rewrite IH; [|done|done|rewrite ?zlen_app, ?length_replicate; flen|lia].
  unfold chunk_bytes. rewrite <- !app_assoc. do 2 f_equal. lia.
Qed.

Lemma sdes_items_chunk c pre suf fuel : valid_chunk c → (2 ≤ fuel)%nat →
  let data := pre ++ chunk_bytes c ++ suf in
  sdes_items fuel data (zlen pre + 4) (zlen data) None = Done (Some (zlen pre + 7 + zlen (cname c), Some (cname c))).
Proof.
  intros (H1 & H2 & H3) Hf data. destruct (chunk_pad_range c) as (P1 & _ & P3).
  assert (zlen data = zlen pre + ChunkSize c + zlen suf) as L by (unfold data; rewrite !zlen_app, chunk_bytes_length; lia).
  assert (read8 data (zlen pre + 4) = Done kCnameTag) as R1.
  { unfold data, chunk_bytes. rewrite <- !app_assoc. repeat skip_one. by rewrite read8_be by first [flen | by vm_compute]. }
  assert (read8 data (zlen pre + 4 + 1) = Done (zlen (cname c))) as R2.
  { unfold data, chunk_bytes. rewrite <- !app_assoc. repeat skip_one. by rewrite read8_be by first [flen | unfold uint8; lia]. }
  assert (read_mem data (zlen pre + 4 + 1 + 1) (zlen (cname c)) = Done (cname c)) as R3.
  { unfold data, chunk_bytes. rewrite <- !app_assoc. repeat skip_one. by rewrite read_mem_head by flen. }
  assert (read8 data (zlen pre + 4 + 1 + 1 + zlen (cname c)) = Done 0) as R4.
  { unfold data, chunk_bytes. replace (Z.to_nat (chunk_pad c)) with (S (Z.to_nat (chunk_pad c - 1))) by lia.
    rewrite <- !app_assoc. repeat skip_one. cbn [replicate app]. by rewrite read8_head by flen. }
  destruct fuel as [|[|fuel]]; [lia|lia|]. rewrite L. generalize dependent data. intros data _ R1 R2 R3 R4.
  cbn [sdes_items]. rewrite R1. cbn [mbind outcome_bind]. change (kCnameTag =? kTerminatorTag) with false. cbv iota.
  destruct (Z.geb_spec (zlen pre + 4 + 1) (zlen pre + ChunkSize c + zlen suf)); [lia|]. rewrite R2. cbn [mbind outcome_bind].
  rewrite Z.gtb_ltb. destruct (Z.ltb_spec (zlen pre + ChunkSize c + zlen suf) (zlen pre + 4 + 1 + 1 + zlen (cname c) + 1)); [lia|].
  rewrite Z.eqb_refl, R3. cbn [mbind outcome_bind]. rewrite R4. cbn [mbind outcome_bind].
  change (0 =? kTerminatorTag) with true. cbv iota. do 3 f_equal. lia.
Qed.

Lemma sdes_chunks_bytes cs : ∀ pre done len, Forall valid_chunk cs → let data := pre ++ flat_map chunk_bytes cs in
  sdes_chunks (length cs) data (zlen pre) (zlen data) done len = Done (Some (done ++ cs, len + chunks_size cs)).
Proof.
  induction cs as [|c cs IH]; intros pre dn len Hv data; cbn [length sdes_chunks].
  { by rewrite app_nil_r, Z.add_0_r. }
  apply Forall_cons_1 in Hv as [Hc Hv]. destruct (chunk_pad_range c) as (P1 & P2 & P3).
  destruct (chunks_bytes_length cs) as (B1 & B2 & B3).
  assert (data = pre ++ chunk_bytes c ++ flat_map chunk_bytes cs) as Ed by done.
  assert (zlen data = zlen pre + ChunkSize c + chunks_size cs) as L by (rewrite Ed, !zlen_app, chunk_bytes_length; lia).
  destruct (Z.ltb_spec (zlen data - zlen pre) 8); [zdiv|].
  assert (get_uint 4 4 data (zlen pre) = Done (chunk_ssrc c)) as ->.
  { rewrite Ed. unfold chunk_bytes. rewrite <- !app_assoc. destruct Hc as (H1 & _). skip_one. rewrite get_uint_head by fval. done. }
  cbn [mbind outcome_bind]. pose proof (sdes_items_chunk c pre (flat_map chunk_bytes cs) (S (length data)) Hc ltac:(lia)) as E.
  cbv zeta in E. rewrite <- Ed in E. rewrite E. cbn [mbind outcome_bind].
  specialize (IH (pre ++ chunk_bytes c) (dn ++ [c]) (len + ChunkSize c) Hv). cbv zeta in IH.
  rewrite <- !app_assoc in IH. rewrite <- Ed in IH. rewrite zlen_app, chunk_bytes_length in IH.
  replace (zlen pre + 7 + zlen (cname c) + (zlen data - (zlen pre + 7 + zlen (cname c))) `mod` 4) with (zlen pre + ChunkSize c) by zdiv.
  destruct c as [ssrc name]. cbn [chunk_ssrc cname]. rewrite IH. cbn [app chunks_size foldr]. do 3 f_equal. unfold chunks_size. lia.
Qed.

(** Whatever the payload holds, the loops stay inside. *)
Lemma sdes_items_done data fuel : ∀ p found, Forall uint8 data → 0 ≤ p < zlen data → zlen data - p < Z.of_nat fuel →
  ∃ r, sdes_items fuel data p (zlen data) found = Done r ∧
    match r with Some (q, _) => p < q ≤ zlen data | None => True end.
Proof.
  induction fuel as [|fuel IH]; intros p found Hu Hp Hf; [lia|]. cbn [sdes_items]. rewrite (read8_done data p) by lia.
  cbn [mbind outcome_bind]. destruct (_ =? _); [eexists; split; [done|]; cbv iota; lia|].
  destruct (Z.geb_spec (p + 1) (zlen data)); [by exists None|]. rewrite read8_done by lia. cbn [mbind outcome_bind].
  pose proof (rd_uint8 data (p + 1) Hu) as Hb. set (n := data.[p + 1]) in *. rewrite Z.gtb_ltb.
  destruct (Z.ltb_spec (zlen data) (p + 1 + 1 + n + 1)); [by exists None|].
  assert (∀ f, ∃ r, sdes_items fuel data (p + 1 + 1 + n) (zlen data) f = Done r ∧
    match r with Some (q, _) => p < q ≤ zlen data | None => True end) as Hrec.
  { intros f. destruct (IH (p + 1 + 1 + n) f Hu ltac:(lia) ltac:(lia)) as (r & -> & Hr). exists r. split; [done|].
    destruct r as [[q ?]|]; [lia|done]. }
  destruct (_ =? _); [|apply Hrec]. destruct found; [by exists None|]. rewrite read_mem_done by lia. cbn [mbind outcome_bind]. apply Hrec.
Qed.

Lemma sdes_chunks_done data n : ∀ p cs len, Forall uint8 data → 0 ≤ p ≤ zlen data →
  ∃ r, sdes_chunks n data p (zlen data) cs len = Done r.
Proof.
  induction n as [|n IH]; intros p cs len Hu Hp; cbn [sdes_chunks]; [by eauto|].
  destruct (Z.ltb_spec (zlen data - p) 8); [by eauto|]. rewrite get_uint_done by lia. cbn [mbind outcome_bind].
  destruct (sdes_items_done data (S (length data)) (p + 4) None Hu) as (r & -> & Hr); [lia|lia|].
  cbn [mbind outcome_bind]. destruct r as [[q found]|]; [|by eauto].
  assert (0 ≤ q + (zlen data - q) `mod` 4 ≤ zlen data) as Hq by zdiv. destruct found; by apply IH.
Qed.

#[export] Instance Sdes_lawful : LawfulPacket SdesKind valid_sdes.
Proof.
  apply (lawful_intro _ _ (λ s, flat_map chunk_bytes (chunks_ s))); [by vm_compute| | | |].
  - intros s (H1 & H2 & H3). unfold kMaxNumberOfChunks in H2. cbn [pk_count pk_length SdesKind].
    destruct (chunks_bytes_length (chunks_ s)) as (-> & M & N). rewrite H3. split; [lia|]. split.
    { apply List.Forall_forall. intros b (c & Hc & Hb)%in_flat_map. revert b Hb. apply List.Forall_forall.
      pose proof (proj1 (List.Forall_forall _ _) H1 c Hc) as (_ & Hn & _). unfold chunk_bytes. fbytes.
      apply Forall_replicate. unfold uint8. lia. }
    split; [done|]. split; [|zdiv]. assert (chunks_size (chunks_ s) ≤ 268 * zlen (chunks_ s)); [|lia].
    clear -H1. induction (chunks_ s) as [|c cs IH]; [done|]. apply Forall_cons_1 in H1 as [(_ & _ & Hc) H1].
    specialize (IH H1). cbn [chunks_size foldr length]. fold (chunks_size cs). destruct (chunk_pad_range c) as (P1 & _ & ->). lia.
  - intros s (H1 & H2 & H3) packet index pre pos Hi Hp Hl. cbn [pk_write SdesKind]. unfold Sdes_Write, kHeaderLength.
    destruct (chunks_bytes_length (chunks_ s)) as (E & _). rewrite E in Hl |- *.
    rewrite write_chunks_bytes by done. cbn [mbind outcome_bind]. rewrite H3.
    destruct (Z.eqb_spec (pos + chunks_size (chunks_ s)) (pos - 4 + (4 + chunks_size (chunks_ s)))); [done|lia].
  - intros s v0 h (H1 & H2 & H3) Hb Hs Hc. cbn [pk_parse pk_count SdesKind] in *. unfold Sdes_Parse, kHeaderLength.
    rewrite Hb, Hs, Hc, Nat2Z.id. pose proof (sdes_chunks_bytes (chunks_ s) [] [] 4 H1) as E. cbv zeta in E.
    cbn [app length] in E. change (Z.of_nat 0) with 0 in E. rewrite E. cbn [mbind outcome_bind]. rewrite <- H3. by destruct s.
  - intros v0 h Hu L Hc. cbn [pk_parse SdesKind]. unfold Sdes_Parse. rewrite <- L.
    destruct (sdes_chunks_done (header_payload h) (Z.to_nat (count_or_format h)) 0 [] kHeaderLength Hu) as ([[cs n]|] & ->);
      [lia| |]; by eauto.
Qed.
