(* ===== verification/RtcpFeedback.v ===== *)
(** Feedback packets: psfb.cc, rtpfb.cc, pli.cc, rapid_resync_request.cc, fir.cc, remb.cc,
    tmmb_item.cc, tmmbr.cc, tmmbn.cc and loss_notification.cc of
    modules/rtp_rtcp/source/rtcp_packet.  Each class is shown to be lawful; bit rates survive if
    they are a mantissa shifted by an exponent. *)
From S2P Require Import Prelude SeqNum ByteIo RtpExtensionMap RtpPacket RtpWire RtpHeaderExtensions Rtcp RtcpFields RtcpKinds.
From S2P Require Import RtcpReports.

(** * Definitions *)

(** [Psfb] and [Rtpfb]: the sender and the media source. *)
Record FeedbackSsrcs : Type := MkSsrcs { fs_sender_ssrc : Z; fs_media_ssrc : Z }.

Definition kPsfbPacketType : Z := 206.
Definition kAfbMessageType : Z := 15.

Definition fs_ParseCommonFeedback (payload : list Z) : outcome FeedbackSsrcs :=
  sender ← get_uint 4 4 payload 0;
  media ← get_uint 4 4 payload 4;
  Done (MkSsrcs sender media).

Definition fs_CreateCommonFeedback (f : FeedbackSsrcs) (packet : list Z) (p : Z) : outcome (list Z) :=
  packet ← write_be 4 packet p (fs_sender_ssrc f); write_be 4 packet (p + 4) (fs_media_ssrc f).

Definition fs_SetSenderSsrc (f : FeedbackSsrcs) (ssrc : Z) : FeedbackSsrcs := MkSsrcs ssrc (fs_media_ssrc f).
Definition fs_SetMediaSsrc (f : FeedbackSsrcs) (ssrc : Z) : FeedbackSsrcs := MkSsrcs (fs_sender_ssrc f) ssrc.

(** ** Picture loss and rapid resynchronisation *)

Definition Pli_Parse (f : FeedbackSsrcs) (packet : CommonHeader) : outcome (FeedbackSsrcs * bool) :=
  if payload_size packet <? kCommonFeedbackLength then Done (f, false)
  else f ← fs_ParseCommonFeedback (header_payload packet); Done (f, true).

Definition Pli_Write (f : FeedbackSsrcs) (packet : list Z) (index : Z) : outcome (list Z * Z) :=
  packet ← fs_CreateCommonFeedback f packet index; Done (packet, index + kCommonFeedbackLength).

Definition PliKind : RtcpKind FeedbackSsrcs :=
  MkKind kPsfbPacketType (λ _, 1) (λ _, kHeaderLength + kCommonFeedbackLength) Pli_Write Pli_Parse.

Definition RapidResyncRequest_Parse (f : FeedbackSsrcs) (packet : CommonHeader) : outcome (FeedbackSsrcs * bool) :=
  if negb (payload_size packet =? kCommonFeedbackLength) then Done (f, false)
  else f ← fs_ParseCommonFeedback (header_payload packet); Done (f, true).

Definition RapidResyncRequestKind : RtcpKind FeedbackSsrcs :=
  MkKind kPacketType (λ _, 5) (λ _, kHeaderLength + kCommonFeedbackLength) Pli_Write RapidResyncRequest_Parse.

(** ** Full intra request *)

Record FirRequest : Type := MkRequest { req_ssrc : Z; seq_nr : Z }.
Record Fir : Type := MkFir { fir_ssrcs : FeedbackSsrcs; fir_items : list FirRequest }.

Definition kFciLength : Z := 8.

Fixpoint parse_requests (n : nat) (payload : list Z) (next_fci : Z) : outcome (list FirRequest) :=
  match n with
  | O => Done []
  | S n =>
      ssrc ← get_uint 4 4 payload next_fci;
      seq ← get_uint 1 1 payload (next_fci + 4);
      items ← parse_requests n payload (next_fci + kFciLength);
      Done (MkRequest ssrc seq :: items)
  end.

Definition Fir_Parse (f : Fir) (packet : CommonHeader) : outcome (Fir * bool) :=
  if payload_size packet <? kCommonFeedbackLength + kFciLength then Done (f, false)
  else if negb ((payload_size packet - kCommonFeedbackLength) `mod` kFciLength =? 0) then Done (f, false)
  else
    ssrcs ← fs_ParseCommonFeedback (header_payload packet);
    let number_of_fci_items := (payload_size packet - kCommonFeedbackLength) `div` kFciLength in
    items ← parse_requests (Z.to_nat number_of_fci_items) (header_payload packet) kCommonFeedbackLength;
    Done (MkFir ssrcs items, true).

Definition Fir_BlockLength (f : Fir) : Z := kHeaderLength + kCommonFeedbackLength + kFciLength * zlen (fir_items f).

Fixpoint write_requests (items : list FirRequest) (packet : list Z) (index : Z) : outcome (list Z * Z) :=
  match items with
  | [] => Done (packet, index)
  | r :: items =>
      packet ← write_be 4 packet index (req_ssrc r);
      packet ← write_be 1 packet (index + 4) (seq_nr r);
      packet ← write_be 3 packet (index + 5) 0;
      write_requests items packet (index + kFciLength)
  end.

Definition Fir_Write (f : Fir) (packet : list Z) (index : Z) : outcome (list Z * Z) :=
  let index_end := index - kHeaderLength + Fir_BlockLength f in
  packet ← fs_CreateCommonFeedback (fir_ssrcs f) packet index;
  '(packet, index) ← write_requests (fir_items f) packet (index + kCommonFeedbackLength);
  if negb (index =? index_end) then CheckFailed else Done (packet, index).

Definition AddRequestTo (f : Fir) (ssrc seq_num : Z) : Fir := MkFir (fir_ssrcs f) (fir_items f ++ [MkRequest ssrc seq_num]).

Definition FirKind : RtcpKind Fir := MkKind kPsfbPacketType (λ _, 4) Fir_BlockLength Fir_Write Fir_Parse.

(** ** Bit rates *)

(** [while (mantissa > kMaxMantissa) { mantissa >>= 1; ++exponent; }]; 64 bits need 64 turns. *)
Fixpoint normalize_loop (fuel : nat) (kMaxMantissa mantissa exponent : Z) : outcome (Z * Z) :=
  match fuel with
  | O => OutOfFuel
  | S fuel =>
      if mantissa >? kMaxMantissa then normalize_loop fuel kMaxMantissa (mantissa ≫ 1) (exponent + 1)
      else Done (mantissa, exponent)
  end.

(** ** Receiver estimated maximum bit rate *)

Record Remb : Type := MkRemb { remb_ssrcs : FeedbackSsrcs; remb_bitrate_bps : Z; ssrcs_ : list Z }.

Definition kMaxNumberOfSsrcs : Z := 0xff.
Definition kRembUniqueIdentifier : Z := 0x52454D42.

Definition Remb_Parse (r : Remb) (packet : CommonHeader) : outcome (Remb * bool) :=
  if payload_size packet <? 16 then Done (r, false)
  else
    let payload := header_payload packet in
    id ← get_uint 4 4 payload 8;
    if negb (kRembUniqueIdentifier =? id) then Done (r, false)
    else
      number_of_ssrcs ← read8 payload 12;
      if negb (payload_size packet =? kCommonFeedbackLength + (2 + number_of_ssrcs) * 4) then Done (r, false)
      else
        fb ← fs_ParseCommonFeedback payload;
        b13 ← read8 payload 13;
        low ← get_uint 2 2 payload 14;
        let exponent := b13 ≫ 2 in
        let mantissa := Z.lor (Z.land b13 0x03 ≪ 16) low in
        let bitrate := s64 (u64 (mantissa ≪ exponent)) in
        let shift_overflow := negb (u64 bitrate ≫ exponent =? mantissa) in
        if (bitrate <? 0) || shift_overflow then Done (MkRemb fb bitrate (ssrcs_ r), false)
        else
          ssrcs ← read_ssrcs (Z.to_nat number_of_ssrcs) payload 16;
          Done (MkRemb fb bitrate ssrcs, true).

Definition Remb_SetSsrcs (r : Remb) (ssrcs : list Z) : Remb * bool :=
  if zlen ssrcs >? kMaxNumberOfSsrcs then (r, false) else (MkRemb (remb_ssrcs r) (remb_bitrate_bps r) ssrcs, true).

Definition Remb_BlockLength (r : Remb) : Z := kHeaderLength + kCommonFeedbackLength + (2 + zlen (ssrcs_ r)) * 4.

Definition Remb_Write (r : Remb) (packet : list Z) (index : Z) : outcome (list Z * Z) :=
  packet ← fs_CreateCommonFeedback (remb_ssrcs r) packet index;
  let index := index + kCommonFeedbackLength in
  packet ← write_be 4 packet index kRembUniqueIdentifier;
  let index := index + 4 in
  '(mantissa, exponenta) ← normalize_loop 64 0x3ffff (u64 (remb_bitrate_bps r)) 0;
  packet ← write8 packet index (zlen (ssrcs_ r));
  packet ← write8 packet (index + 1) (Z.lor (exponenta ≪ 2) (mantissa ≫ 16));
  packet ← write_be 2 packet (index + 2) (Z.land mantissa 0xffff);
  write_ssrcs (ssrcs_ r) packet (index + 4).

Definition SetBitrateBps (r : Remb) (bitrate_bps : Z) : Remb := MkRemb (remb_ssrcs r) bitrate_bps (ssrcs_ r).

Definition RembKind : RtcpKind Remb :=
  MkKind kPsfbPacketType (λ _, kAfbMessageType) Remb_BlockLength Remb_Write Remb_Parse.

(** ** Temporary maximum media bit rate *)

Record TmmbItem : Type := MkTmmb { tmmb_ssrc : Z; tmmb_bitrate_bps : Z; packet_overhead : Z }.

Definition kTmmbItemLength : Z := 8.
Definition NewTmmbItem : TmmbItem := MkTmmb 0 0 0.

Definition TmmbItem_Parse (item : TmmbItem) (buffer : list Z) (p : Z) : outcome (TmmbItem * bool) :=
  ssrc ← get_uint 4 4 buffer p;
  compact ← get_uint 4 4 buffer (p + 4);
  let exponent := compact ≫ 26 in
  let mantissa := Z.land (compact ≫ 9) 0x1ffff in
  let overhead := Z.land compact 0x1ff in
  let bitrate := u64 (mantissa ≪ exponent) in
  if negb (bitrate ≫ exponent =? mantissa) then Done (MkTmmb ssrc bitrate (packet_overhead item), false)
  else Done (MkTmmb ssrc bitrate overhead, true).

Definition TmmbItem_Create (item : TmmbItem) (buffer : list Z) (p : Z) : outcome (list Z) :=
  '(mantissa, exponent) ← normalize_loop 64 0x1ffff (tmmb_bitrate_bps item) 0;
  buffer ← write_be 4 buffer p (tmmb_ssrc item);
  let compact := u32 (Z.lor (Z.lor (u32 (exponent ≪ 26)) (mantissa ≪ 9)) (packet_overhead item)) in
  write_be 4 buffer (p + 4) compact.

Definition set_ssrc (i : TmmbItem) (ssrc : Z) : TmmbItem := MkTmmb ssrc (tmmb_bitrate_bps i) (packet_overhead i).
Definition set_bitrate_bps (i : TmmbItem) (bitrate_bps : Z) : TmmbItem := MkTmmb (tmmb_ssrc i) bitrate_bps (packet_overhead i).
Definition set_packet_overhead (i : TmmbItem) (overhead : Z) : TmmbItem := MkTmmb (tmmb_ssrc i) (tmmb_bitrate_bps i) overhead.

Record Tmmb : Type := MkTmmbs { tmmb_ssrcs : FeedbackSsrcs; items_ : list TmmbItem }.

(** [items_.resize(n)] *)
Definition resize_items (items : list TmmbItem) (n : nat) : list TmmbItem :=
  take n items ++ replicate (n - length items) NewTmmbItem.

(** The loop of [Parse], which ends with the first item that is refused. *)
Fixpoint parse_tmmb (items : list TmmbItem) (payload : list Z) (next_item : Z) : outcome (list TmmbItem * bool) :=
  match items with
  | [] => Done ([], true)
  | item :: items =>
      '(item, ok) ← TmmbItem_Parse item payload next_item;
      if negb ok then Done (item :: items, false)
      else '(items, ok) ← parse_tmmb items payload (next_item + kTmmbItemLength); Done (item :: items, ok)
  end.

(** The end of both [Parse]s, which differ in the least number of items. *)
Definition Tmmb_ParseItems (t : Tmmb) (packet : CommonHeader) : outcome (Tmmb * bool) :=
  let items_size_bytes := payload_size packet - kCommonFeedbackLength in
  if negb (items_size_bytes `mod` kTmmbItemLength =? 0) then Done (t, false)
  else
    ssrcs ← fs_ParseCommonFeedback (header_payload packet);
    let number_of_items := items_size_bytes `div` kTmmbItemLength in
    '(items, ok) ← parse_tmmb (resize_items (items_ t) (Z.to_nat number_of_items)) (header_payload packet) kCommonFeedbackLength;
    Done (MkTmmbs ssrcs items, ok).

Definition Tmmbr_Parse (t : Tmmb) (packet : CommonHeader) : outcome (Tmmb * bool) :=
  if payload_size packet <? kCommonFeedbackLength + kTmmbItemLength then Done (t, false) else Tmmb_ParseItems t packet.
Definition Tmmbn_Parse (t : Tmmb) (packet : CommonHeader) : outcome (Tmmb * bool) :=
  if payload_size packet <? kCommonFeedbackLength then Done (t, false) else Tmmb_ParseItems t packet.

Definition AddTmmbr (t : Tmmb) (item : TmmbItem) : Tmmb := MkTmmbs (tmmb_ssrcs t) (items_ t ++ [item]).

Definition Tmmb_BlockLength (t : Tmmb) : Z := kHeaderLength + kCommonFeedbackLength + kTmmbItemLength * zlen (items_ t).

Fixpoint write_tmmb (items : list TmmbItem) (packet : list Z) (index : Z) : outcome (list Z * Z) :=
  match items with
  | [] => Done (packet, index)
  | item :: items => packet ← TmmbItem_Create item packet index; write_tmmb items packet (index + kTmmbItemLength)
  end.

Definition Tmmb_Write (t : Tmmb) (packet : list Z) (index : Z) : outcome (list Z * Z) :=
  let index_end := index - kHeaderLength + Tmmb_BlockLength t in
  packet ← fs_CreateCommonFeedback (tmmb_ssrcs t) packet index;
  '(packet, index) ← write_tmmb (items_ t) packet (index + kCommonFeedbackLength);
  if negb (index_end =? index) then CheckFailed else Done (packet, index).

Definition TmmbrKind : RtcpKind Tmmb := MkKind kPacketType (λ _, 3) Tmmb_BlockLength Tmmb_Write Tmmbr_Parse.
Definition TmmbnKind : RtcpKind Tmmb := MkKind kPacketType (λ _, 4) Tmmb_BlockLength Tmmb_Write Tmmbn_Parse.

(** ** Loss notification *)

Record LossNotification : Type := MkLoss {
  loss_ssrcs : FeedbackSsrcs; last_decoded_ : Z; last_received_ : Z; decodability_flag_ : bool }.

Definition kLossUniqueIdentifier : Z := 0x4C4E5446.
Definition kLossNotificationPayloadLength : Z := 8.

Definition LossNotification_Parse (l : LossNotification) (packet : CommonHeader) : outcome (LossNotification * bool) :=
  if payload_size packet <? kCommonFeedbackLength + kLossNotificationPayloadLength then Done (l, false)
  else
    let payload := header_payload packet in
    id ← get_uint 4 4 payload 8;
    if negb (id =? kLossUniqueIdentifier) then Done (l, false)
    else
      ssrcs ← fs_ParseCommonFeedback payload;
      last_decoded ← get_uint 2 2 payload 12;
      delta_and_decodability ← get_uint 2 2 payload 14;
      let last_received := u16 (last_decoded + (delta_and_decodability ≫ 1)) in
      Done (MkLoss ssrcs last_decoded last_received (negb (Z.land delta_and_decodability 0x0001 =? 0)), true).

Definition LossNotification_Write (l : LossNotification) (packet : list Z) (index : Z) : outcome (list Z * Z) :=
  packet ← fs_CreateCommonFeedback (loss_ssrcs l) packet index;
  let index := index + kCommonFeedbackLength in
  packet ← write_be 4 packet index kLossUniqueIdentifier;
  let index := index + 4 in
  packet ← write_be 2 packet index (last_decoded_ l);
  let index := index + 2 in
  let last_received_delta := u16 (last_received_ l - last_decoded_ l) in
  let delta_and_decodability := u16 (Z.lor (last_received_delta ≪ 1) (if decodability_flag_ l then 0x0001 else 0x0000)) in
  packet ← write_be 2 packet index delta_and_decodability;
  Done (packet, index + 2).

Definition LossNotification_Set (l : LossNotification) (last_decoded last_received : Z) (decodability_flag : bool)
  : LossNotification * bool :=
  let delta := u16 (last_received - last_decoded) in
  if delta >? 0x7fff then (l, false) else (MkLoss (loss_ssrcs l) last_decoded last_received decodability_flag, true).

Definition LossNotificationKind : RtcpKind LossNotification :=
  MkKind kPsfbPacketType (λ _, kAfbMessageType)
    (λ _, kHeaderLength + kCommonFeedbackLength + kLossNotificationPayloadLength)
    LossNotification_Write LossNotification_Parse.

(** * Common fields *)

Definition valid_ssrcs (f : FeedbackSsrcs) : Prop := uint32 (fs_sender_ssrc f) ∧ uint32 (fs_media_ssrc f).
Definition common_bytes (f : FeedbackSsrcs) : list Z := be 4 (fs_sender_ssrc f) ++ be 4 (fs_media_ssrc f).

Lemma common_length f : zlen (common_bytes f) = 8.
Proof. unfold common_bytes. flen. Qed.

Lemma common_uint8 f : Forall uint8 (common_bytes f).
Proof. unfold common_bytes. fbytes. Qed.

Lemma common_create f : appends (fs_CreateCommonFeedback f) (common_bytes f).
Proof.
  intros packet index pre pos Hi -> Hl. rewrite common_length in Hl. unfold fs_CreateCommonFeedback, common_bytes. fill_all. done.
Qed.

Lemma common_parse f suf : valid_ssrcs f → fs_ParseCommonFeedback (common_bytes f ++ suf) = Done f.
Proof. intros [H1 H2]. unfold fs_ParseCommonFeedback, common_bytes. rewrite <- app_assoc. read_all. by destruct f. Qed.

Lemma common_done payload : 8 ≤ zlen payload → ∃ f, fs_ParseCommonFeedback payload = Done f.
Proof. intros H. unfold fs_ParseCommonFeedback. rewrite !get_uint_done by lia. by eexists. Qed.

#[export] Instance Pli_lawful : LawfulPacket PliKind valid_ssrcs.
Proof.
  apply (lawful_intro _ _ common_bytes); [by vm_compute| | | |].
  - intros f _. rewrite common_length. split; [done|]. split; [apply common_uint8|done].
  - intros f _ packet index pre pos Hi Hp Hl. cbn [pk_write PliKind]. unfold Pli_Write.
    rewrite common_create by done. by rewrite common_length.
  - intros f v0 h Hv Hb Hs Hc. cbn [pk_parse PliKind]. unfold Pli_Parse. rewrite Hs, Hb, common_length. cbn [Z.ltb].
    pose proof (common_parse f [] Hv) as E. rewrite app_nil_r in E. by rewrite E.
  - intros v0 h Hu L Hc. cbn [pk_parse PliKind]. unfold Pli_Parse, kCommonFeedbackLength.
    destruct (Z.ltb_spec (payload_size h) 8); [by eauto|]. destruct (common_done (header_payload h)) as (f & ->); [lia|]. by eauto.
Qed.

#[export] Instance RapidResyncRequest_lawful : LawfulPacket RapidResyncRequestKind valid_ssrcs.
Proof.
  apply (lawful_intro _ _ common_bytes); [by vm_compute| | | |].
  - intros f _. rewrite common_length. split; [done|]. split; [apply common_uint8|done].
  - intros f _ packet index pre pos Hi Hp Hl. cbn [pk_write RapidResyncRequestKind]. unfold Pli_Write.
    rewrite common_create by done. by rewrite common_length.
  - intros f v0 h Hv Hb Hs Hc. cbn [pk_parse RapidResyncRequestKind]. unfold RapidResyncRequest_Parse.
    rewrite Hs, Hb, common_length. pose proof (common_parse f [] Hv) as E. rewrite app_nil_r in E. by rewrite E.
  - intros v0 h Hu L Hc. cbn [pk_parse RapidResyncRequestKind]. unfold RapidResyncRequest_Parse, kCommonFeedbackLength.
    destruct (Z.eqb_spec (payload_size h) 8); [|by eauto]. destruct (common_done (header_payload h)) as (f & ->); [lia|].
    cbn [negb]. by eauto.
Qed.

(** * Full intra requests *)

Definition valid_fir (f : Fir) : Prop :=
  valid_ssrcs (fir_ssrcs f) ∧ Forall (λ r, uint32 (req_ssrc r) ∧ uint8 (seq_nr r)) (fir_items f) ∧
  1 ≤ zlen (fir_items f) ≤ 1000.

Definition request_bytes (r : FirRequest) : list Z := be 4 (req_ssrc r) ++ be 1 (seq_nr r) ++ be 3 0.

Lemma requests_length items : zlen (flat_map request_bytes items) = 8 * zlen items.
Proof. induction items as [|r l IH]; [done|]. cbn [flat_map length]. rewrite zlen_app, IH. unfold request_bytes. flen. Qed.

Lemma requests_uint8 items : Forall uint8 (flat_map request_bytes items).
Proof. induction items as [|r l IH]; [by constructor|]. cbn [flat_map]. unfold request_bytes. fbytes. Qed.

Lemma write_requests_bytes items : ∀ packet index pre pos, 0 ≤ index → pos = index + zlen pre →
  pos + 8 * zlen items ≤ zlen packet → write_requests items (store packet index pre) pos =
    Done (store packet index (pre ++ flat_map request_bytes items), pos + 8 * zlen items).
Proof.
  induction items as [|r l IH]; intros packet index pre pos Hi Hp Hl; cbn [write_requests flat_map].
  { by rewrite app_nil_r, Z.add_0_r. }
  cbn [length] in Hl. do 3 fill_one. unfold kFciLength. rewrite IH by flen. unfold request_bytes. rewrite <- !app_assoc.
  do 2 f_equal. cbn [length]. lia.
Qed.

Lemma parse_requests_bytes items : ∀ pre suf p, Forall (λ r, uint32 (req_ssrc r) ∧ uint8 (seq_nr r)) items → p = zlen pre →
  parse_requests (length items) (pre ++ flat_map request_bytes items ++ suf) p = Done items.
Proof.
  induction items as [|r l IH]; intros pre suf p Hv Hp; [done|]. apply Forall_cons_1 in Hv as [[H1 H2] Hv].
  cbn [length parse_requests flat_map]. set (rest := flat_map request_bytes l ++ suf).
  assert (get_uint 4 4 (pre ++ request_bytes r ++ rest) p = Done (req_ssrc r)) as R1.
  { unfold request_bytes. rewrite <- !app_assoc. by read_one. }
  assert (get_uint 1 1 (pre ++ request_bytes r ++ rest) (p + 4) = Done (seq_nr r)) as R2.
  { unfold request_bytes. rewrite <- !app_assoc. by read_one. }
  rewrite <- app_assoc. fold rest. rewrite R1. cbn [mbind outcome_bind]. rewrite R2. cbn [mbind outcome_bind].
  unfold kFciLength. rewrite app_assoc. unfold rest. rewrite IH by (done || (unfold request_bytes; flen)). by destruct r.
Qed.

Lemma parse_requests_done n payload : ∀ p, 0 ≤ p → p + 8 * Z.of_nat n ≤ zlen payload → ∃ l, parse_requests n payload p = Done l.
Proof.
  induction n as [|n IH]; intros p Hp Hl; [by exists []|]. cbn [parse_requests].
  rewrite !get_uint_done by lia. cbn [mbind outcome_bind]. unfold kFciLength.
  destruct (IH (p + 8) ltac:(lia) ltac:(lia)) as (l & ->). by eexists.
Qed.

Definition fir_bytes (f : Fir) : list Z := common_bytes (fir_ssrcs f) ++ flat_map request_bytes (fir_items f).

Lemma fir_bytes_length f : zlen (fir_bytes f) = 8 + 8 * zlen (fir_items f).
Proof. unfold fir_bytes. by rewrite zlen_app, common_length, requests_length. Qed.

#[export] Instance Fir_lawful : LawfulPacket FirKind valid_fir.
Proof.
  apply (lawful_intro _ _ fir_bytes); [by vm_compute| | | |].
  - intros f (_ & _ & Hn). pose proof (fir_bytes_length f) as L. cbn [pk_count pk_length FirKind].
    unfold Fir_BlockLength, kHeaderLength, kCommonFeedbackLength, kFciLength. split; [done|].
    split; [unfold fir_bytes; fbytes; apply requests_uint8|]. split; [lia|]. split; [lia|]. zdiv.
  - intros f _ packet index pre pos Hi Hp Hl. rewrite fir_bytes_length in Hl |- *. cbn [pk_write FirKind].
    unfold Fir_Write, Fir_BlockLength, kHeaderLength, kCommonFeedbackLength, kFciLength, fir_bytes.
    rewrite common_create by (rewrite ?common_length; lia). cbn [mbind outcome_bind].
    rewrite write_requests_bytes by (rewrite ?zlen_app, ?common_length; lia). cbn [mbind outcome_bind].
    destruct (Z.eqb_spec (pos + 8 + 8 * zlen (fir_items f)) (pos - 4 + (4 + 8 + 8 * zlen (fir_items f)))); [|lia].
    cbn [negb]. rewrite <- !app_assoc. do 2 f_equal. lia.
  - intros f v0 h (H1 & H2 & Hn) Hb Hs Hc. cbn [pk_parse FirKind]. unfold Fir_Parse, kCommonFeedbackLength, kFciLength.
    rewrite Hb, Hs, fir_bytes_length. destruct (Z.ltb_spec (8 + 8 * zlen (fir_items f)) (8 + 8)); [lia|].
    replace (8 + 8 * zlen (fir_items f) - 8) with (zlen (fir_items f) * 8) by lia. rewrite Z_mod_mult, Z_div_mult, Nat2Z.id by lia.
    cbn [Z.eqb negb]. unfold fir_bytes. rewrite common_parse by done. cbn [mbind outcome_bind].
    pose proof (parse_requests_bytes (fir_items f) (common_bytes (fir_ssrcs f)) [] 8 H2) as E. rewrite app_nil_r in E.
    rewrite E by (by rewrite common_length). by destruct f.
  - intros v0 h Hu L Hc. cbn [pk_parse FirKind]. unfold Fir_Parse, kCommonFeedbackLength, kFciLength.
    destruct (Z.ltb_spec (payload_size h) (8 + 8)); [by eauto|]. destruct (negb _); [by eauto|].
    destruct (common_done (header_payload h)) as (f & ->); [lia|]. cbn [mbind outcome_bind].
    assert (0 ≤ (payload_size h - 8) `div` 8 ∧ 8 * ((payload_size h - 8) `div` 8) ≤ payload_size h - 8) as Hd by zdiv.
    destruct (parse_requests_done (Z.to_nat ((payload_size h - 8) `div` 8)) (header_payload h) 8) as (l & ->); [lia..|].
    by eauto.
Qed.

(** * Bit rates *)

(** The loop finds the least exponent with which the mantissa fits. *)
Lemma normalize_loop_spec K n : 0 ≤ K → ∀ v e, 0 ≤ v < (K + 1) * 2 ^ Z.of_nat n → ∃ k, 0 ≤ k ≤ Z.of_nat n ∧
  normalize_loop (S n) K v e = Done (v ≫ k, e + k) ∧ v ≫ k ≤ K ∧ (k = 0 ∨ K < v ≫ (k - 1)).
Proof.
  intros HK. induction n as [|n IH]; intros v e Hv; cbn [normalize_loop]; rewrite Z.gtb_ltb; destruct (Z.ltb_spec K v).
  1: { change (2 ^ Z.of_nat 0) with 1 in Hv. lia. }
  1, 3: exists 0; rewrite Z.shiftr_0_r, Z.add_0_r; repeat split; first [done | lia | by left].
  rewrite Nat2Z.inj_succ, Z.pow_succ_r in Hv by lia.
  assert (0 ≤ v ≫ 1 < (K + 1) * 2 ^ Z.of_nat n) as Hs.
  { rewrite shiftr_div by lia. change (2 ^ 1) with 2. split; [zdiv|]. apply Z.div_lt_upper_bound; lia. }
  destruct (IH (v ≫ 1) (e + 1) Hs) as (k & Hk & E & Hle & Hmin). exists (1 + k).
  rewrite Z.shiftr_shiftr in E, Hle by lia. cbn [normalize_loop] in E. split; [lia|].
  split; [rewrite E; do 2 f_equal; lia|]. split; [done|]. right.
  destruct (decide (k = 0)) as [->|Hk0]; [by rewrite Z.shiftr_0_r|]. destruct Hmin as [|Hmin]; [done|].
  rewrite Z.shiftr_shiftr in Hmin by lia. by replace (1 + k - 1) with (1 + (k - 1)) by lia.
Qed.

(** Rates that the mantissa and the exponent express exactly. *)
Definition representable (K v : Z) : Prop := ∃ m a, 0 ≤ m ≤ K ∧ 0 ≤ a ∧ v = m * 2 ^ a.

(** What the loop computes for a 64-bit rate. *)
Definition rate_fields (K v : Z) : Z * Z := match normalize_loop 64 K v 0 with Done r => r | _ => (0, 0) end.

Lemma rate_fields_exact K v : 1 ≤ K → uint64 v → representable K v →
  normalize_loop 64 K v 0 = Done (rate_fields K v) ∧ 0 ≤ (rate_fields K v).1 ≤ K ∧ 0 ≤ (rate_fields K v).2 ≤ 63 ∧
  v = (rate_fields K v).1 * 2 ^ (rate_fields K v).2.
Proof.
  intros HK Hv (m & a & Hm & Ha & ->). unfold uint64 in Hv.
  destruct (normalize_loop_spec K 63 ltac:(lia) (m * 2 ^ a) 0) as (k & Hk & E & Hle & Hmin).
  { change (Z.of_nat 63) with 63. split; [lia|]. nia. }
  unfold rate_fields. rewrite E. cbn [fst snd]. split; [done|]. rewrite Z.add_0_l. change (Z.of_nat 63) with 63 in Hk.
  assert (k ≤ a) as Hka.
  { destruct Hmin as [->|Hmin]; [done|]. destruct (decide (k ≤ a)) as [|Hn]; [done|]. exfalso.
    replace (k - 1) with (a + (k - 1 - a)) in Hmin by lia. rewrite <- Z.shiftr_shiftr, <- (shiftl_mul m a) in Hmin by lia.
    rewrite Z.shiftr_shiftl_l, Z.sub_diag, Z.shiftl_0_r in Hmin by lia. pose proof (shiftr_le m (k - 1 - a)). lia. }
  split; [split; [apply shiftr_nonneg; lia|done]|]. split; [done|].
  rewrite <- (shiftl_mul m a), Z.shiftr_shiftl_l, !shiftl_mul by lia.
  replace a with (a - k + k) at 1 by lia. rewrite Z.pow_add_r by lia. lia.
Qed.

(** ** Remb *)

Definition valid_remb (r : Remb) : Prop :=
  valid_ssrcs (remb_ssrcs r) ∧ 0 ≤ remb_bitrate_bps r < 2 ^ 63 ∧ representable 0x3ffff (remb_bitrate_bps r) ∧
  Forall uint32 (ssrcs_ r) ∧ zlen (ssrcs_ r) ≤ kMaxNumberOfSsrcs.

Definition remb_rate (r : Remb) : Z * Z := rate_fields 0x3ffff (remb_bitrate_bps r).

Definition remb_bytes (r : Remb) : list Z :=
  common_bytes (remb_ssrcs r) ++ be 4 kRembUniqueIdentifier ++ [u8 (zlen (ssrcs_ r))] ++
  [u8 (Z.lor ((remb_rate r).2 ≪ 2) ((remb_rate r).1 ≫ 16))] ++ be 2 (Z.land (remb_rate r).1 0xffff) ++ ssrc_bytes (ssrcs_ r).

Lemma remb_bytes_length r : zlen (remb_bytes r) = 16 + 4 * zlen (ssrcs_ r).
Proof. unfold remb_bytes. rewrite !zlen_app, common_length, ssrc_bytes_length. flen. Qed.

(** The exponent and the mantissa are in the three bytes. *)
Lemma remb_rate_fields r : valid_remb r → let m := (remb_rate r).1 in let e := (remb_rate r).2 in
  let b := u8 (Z.lor (e ≪ 2) (m ≫ 16)) in
  normalize_loop 64 0x3ffff (u64 (remb_bitrate_bps r)) 0 = Done (m, e) ∧ uint16 (Z.land m 0xffff) ∧
  b ≫ 2 = e ∧ Z.lor (Z.land b 0x03 ≪ 16) (Z.land m 0xffff) = m ∧
  s64 (u64 (m ≪ e)) = remb_bitrate_bps r ∧ u64 (remb_bitrate_bps r) ≫ e = m.
Proof.
  intros (_ & Hb & Hr & _ & _). cbn zeta. assert (uint64 (remb_bitrate_bps r)) as Hu by (unfold uint64; lia).
  destruct (rate_fields_exact 0x3ffff (remb_bitrate_bps r) ltac:(lia) Hu Hr) as (En & Hm & He & Ev). fold (remb_rate r) in *.
  destruct (remb_rate r) as [m e]. cbn [fst snd] in *.
  assert (u64 (remb_bitrate_bps r) = remb_bitrate_bps r) as Eu by (unfold u64; rewrite Z.mod_small by lia; done).
  assert (Z.land m 0xffff = m `mod` 65536) as Eland by (change 0xffff with (Z.ones 16); rewrite Z.land_ones by lia; done).
  assert (m ≫ 16 = m `div` 65536) as Eshr by (rewrite shiftr_div by lia; done).
  assert (u8 (Z.lor (e ≪ 2) (m ≫ 16)) = m `div` 65536 + e * 4) as ->.
  { rewrite Z.lor_comm, lor_shiftl_disjoint, Eshr by (rewrite ?Eshr; zdiv). change (2 ^ 2) with 4. unfold u8. rewrite Z.mod_small by zdiv. done. }
  rewrite Eu, Eland. split; [by rewrite En|]. split; [unfold uint16; zdiv|].
  split; [rewrite shiftr_div by lia; change (2 ^ 2) with 4; zdiv|].
  assert (Z.land (m `div` 65536 + e * 4) 3 = m `div` 65536) as ->.
  { change 3 with (Z.ones 2). rewrite Z.land_ones by lia. change (2 ^ 2) with 4. zdiv. }
  split; [rewrite Z.lor_comm, lor_shiftl_disjoint by zdiv; change (2 ^ 16) with 65536; zdiv|].
  rewrite shiftl_mul, <- Ev, Eu by lia. split; [unfold s64; rewrite Z.mod_small by lia; lia|].
  rewrite Ev, <- shiftl_mul, Z.shiftr_shiftl_l, Z.sub_diag by lia. by rewrite Z.shiftl_0_r.
Qed.

#[export] Instance Remb_lawful : LawfulPacket RembKind valid_remb.
Proof.
  apply (lawful_intro _ _ remb_bytes); [by vm_compute| | | |].
  - intros r (_ & _ & _ & _ & Hn). pose proof (remb_bytes_length r) as L. cbn [pk_count pk_length RembKind].
    unfold Remb_BlockLength, kHeaderLength, kCommonFeedbackLength, kMaxNumberOfSsrcs in *. split; [done|].
    split; [|split; [lia|]; split; [lia|zdiv]]. unfold remb_bytes. fbytes; try apply ssrc_bytes_uint8.
    all: apply Forall_singleton, u8_range.
  - intros r Hv packet index pre pos Hi Hp Hl. destruct (remb_rate_fields r Hv) as (En & _).
    rewrite remb_bytes_length in Hl |- *. cbn [pk_write RembKind]. unfold Remb_Write, kCommonFeedbackLength, remb_bytes.
    rewrite common_create by (rewrite ?common_length; lia). cbn [mbind outcome_bind].
    assert (zlen (common_bytes (remb_ssrcs r)) = 8) as Lc by apply common_length.
    fill_one. rewrite En. cbn [mbind outcome_bind]. do 3 fill_one. rewrite write_ssrcs_bytes by flen. rewrite <- !app_assoc.
    do 2 f_equal. lia.
  - intros r v0 h Hv Hb Hs Hc. destruct (remb_rate_fields r Hv) as (_ & Hlow & E1 & E2 & E3 & E4).
    destruct Hv as (H1 & Hrate & _ & Hu & Hn). unfold kMaxNumberOfSsrcs in Hn. cbn [pk_parse RembKind].
    unfold Remb_Parse. rewrite Hs, Hb, remb_bytes_length. destruct (Z.ltb_spec (16 + 4 * zlen (ssrcs_ r)) 16); [lia|].
    pose proof (common_length (remb_ssrcs r)) as Lc.
    assert (read_ssrcs (length (ssrcs_ r)) (remb_bytes r) 16 = Done (ssrcs_ r)) as R5.
    { pose proof (remb_bytes_length r) as L. revert L. unfold remb_bytes. rewrite !app_assoc. intros L.
      rewrite <- (app_nil_r (ssrc_bytes (ssrcs_ r))) at 1. apply read_ssrcs_bytes; [done|].
      rewrite zlen_app, ssrc_bytes_length in L. lia. }
    assert (get_uint 4 4 (remb_bytes r) 8 = Done kRembUniqueIdentifier) as -> by (unfold remb_bytes; by read_one).
    assert (read8 (remb_bytes r) 12 = Done (zlen (ssrcs_ r))) as R1.
    { unfold remb_bytes. repeat skip_one. rewrite u8_id by (unfold uint8; lia). by apply read8_head; flen. }
    assert (read8 (remb_bytes r) 13 = Done (u8 (Z.lor ((remb_rate r).2 ≪ 2) ((remb_rate r).1 ≫ 16)))) as R2.
    { unfold remb_bytes. repeat skip_one. by apply read8_head; flen. }
    assert (get_uint 2 2 (remb_bytes r) 14 = Done (Z.land (remb_rate r).1 0xffff)) as R3.
    { unfold remb_bytes. repeat skip_one. apply get_uint_head; [flen|lia|]. unfold uint16 in Hlow. cbn. lia. }
    cbn [mbind outcome_bind]. unfold kRembUniqueIdentifier at 1 2. cbn [Z.eqb Pos.eqb negb]. rewrite R1. cbn [mbind outcome_bind].
    unfold kCommonFeedbackLength. destruct (Z.eqb_spec (16 + 4 * zlen (ssrcs_ r)) (8 + (2 + zlen (ssrcs_ r)) * 4)); [|lia].
    cbn [negb]. assert (fs_ParseCommonFeedback (remb_bytes r) = Done (remb_ssrcs r)) as -> by (unfold remb_bytes; by apply common_parse).
    cbn [mbind outcome_bind]. rewrite R2. cbn [mbind outcome_bind]. rewrite R3. cbn [mbind outcome_bind].
    rewrite E1, E2, E3, E4, Z.eqb_refl. destruct (Z.ltb_spec (remb_bitrate_bps r) 0); [lia|]. cbn [orb negb].
    rewrite Nat2Z.id, R5. by destruct r.
  - intros v0 h Hu L Hc. cbn [pk_parse RembKind]. unfold Remb_Parse, kCommonFeedbackLength.
    destruct (Z.ltb_spec (payload_size h) 16); [by eauto|]. rewrite (get_uint_done 4 4 _ 8) by lia. cbn [mbind outcome_bind].
    destruct (negb _); [by eauto|]. rewrite !read8_done by lia. cbn [mbind outcome_bind].
    destruct (Z.eqb_spec (payload_size h) (8 + (2 + (header_payload h).[12]) * 4)) as [E|]; cbn [negb]; [|by eauto].
    destruct (common_done (header_payload h)) as (f & ->); [lia|]. cbn [mbind outcome_bind].
    rewrite get_uint_done by lia. cbn [mbind outcome_bind]. destruct (_ || _); [by eauto|].
    pose proof (rd_uint8 (header_payload h) 12 Hu) as H12.
    destruct (read_ssrcs_done (Z.to_nat ((header_payload h).[12])) (header_payload h) 16) as (l & ->); [lia..|]. by eauto.
Qed.

(** ** Tmmbr and Tmmbn *)

Definition valid_tmmb_item (i : TmmbItem) : Prop :=
  uint32 (tmmb_ssrc i) ∧ uint64 (tmmb_bitrate_bps i) ∧ representable 0x1ffff (tmmb_bitrate_bps i) ∧
  0 ≤ packet_overhead i ≤ 0x1ff.

Definition tmmb_compact (i : TmmbItem) : Z :=
  let '(m, e) := rate_fields 0x1ffff (tmmb_bitrate_bps i) in e * 2 ^ 26 + m * 2 ^ 9 + packet_overhead i.

Definition tmmb_bytes (i : TmmbItem) : list Z := be 4 (tmmb_ssrc i) ++ be 4 (tmmb_compact i).

Lemma tmmb_bytes_length i : zlen (tmmb_bytes i) = 8.
Proof. unfold tmmb_bytes. flen. Qed.

Lemma TmmbItem_Create_bytes i : valid_tmmb_item i → appends (TmmbItem_Create i) (tmmb_bytes i).
Proof.
  intros (_ & Hu & Hr & Ho) packet index pre pos Hi -> Hl. rewrite tmmb_bytes_length in Hl.
  destruct (rate_fields_exact 0x1ffff _ ltac:(lia) Hu Hr) as (En & Hm & He & _).
  unfold TmmbItem_Create, tmmb_bytes, tmmb_compact. rewrite En. destruct (rate_fields _ _) as [m e]. cbn [fst snd] in *.
  cbn [mbind outcome_bind]. fill_one.
  assert (u32 (Z.lor (Z.lor (u32 (e ≪ 26)) (m ≪ 9)) (packet_overhead i)) = e * 2 ^ 26 + m * 2 ^ 9 + packet_overhead i) as ->.
  { assert (u32 (e ≪ 26) = (e * 2 ^ 17) ≪ 9) as ->.
    { rewrite !shiftl_mul by lia. unfold u32. rewrite Z.mod_small by lia. lia. }
    rewrite <- Z.shiftl_lor, Z.lor_comm, lor_shiftl_disjoint by lia. rewrite Z.lor_comm.
    rewrite <- (shiftl_mul e 17), lor_shiftl_disjoint by lia. unfold u32. rewrite Z.mod_small by lia. lia. }
  fill_one. by rewrite <- app_assoc.
Qed.

Lemma TmmbItem_Parse_bytes item0 i pre suf p : valid_tmmb_item i → p = zlen pre →
  TmmbItem_Parse item0 (pre ++ tmmb_bytes i ++ suf) p = Done (i, true).
Proof.
  intros (Hs & Hu & Hr & Ho) Hp. destruct (rate_fields_exact 0x1ffff _ ltac:(lia) Hu Hr) as (_ & Hm & He & Ev).
  unfold TmmbItem_Parse, tmmb_bytes, tmmb_compact. destruct (rate_fields _ _) as [m e]. cbn [fst snd] in *. rewrite <- app_assoc.
  read_one. read_one. set (c := e * 2 ^ 26 + m * 2 ^ 9 + packet_overhead i).
  assert (c ≫ 26 = e) as -> by (unfold c; rewrite shiftr_div by lia; zdiv).
  assert (Z.land (c ≫ 9) 0x1ffff = m) as ->.
  { change 0x1ffff with (Z.ones 17). rewrite Z.land_ones, shiftr_div by lia. unfold c. change (2 ^ 17) with 131072. zdiv. }
  assert (Z.land c 0x1ff = packet_overhead i) as ->.
  { change 0x1ff with (Z.ones 9). rewrite Z.land_ones by lia. unfold c. change (2 ^ 9) with 512. zdiv. }
  rewrite shiftl_mul, <- Ev by lia. unfold uint64 in Hu. unfold u64. rewrite Z.mod_small by lia.
  assert (tmmb_bitrate_bps i ≫ e = m) as ->.
  { rewrite Ev, <- shiftl_mul, Z.shiftr_shiftl_l, Z.sub_diag by lia. apply Z.shiftl_0_r. }
  rewrite Z.eqb_refl. by destruct i.
Qed.

Definition valid_tmmb (t : Tmmb) : Prop :=
  valid_ssrcs (tmmb_ssrcs t) ∧ Forall valid_tmmb_item (items_ t) ∧ zlen (items_ t) ≤ 1000.

Lemma tmmbs_length items : zlen (flat_map tmmb_bytes items) = 8 * zlen items.
Proof. induction items as [|r l IH]; [done|]. cbn [flat_map length]. rewrite zlen_app, IH, tmmb_bytes_length. lia. Qed.

Lemma tmmbs_uint8 items : Forall uint8 (flat_map tmmb_bytes items).
Proof. induction items as [|r l IH]; [by constructor|]. cbn [flat_map]. unfold tmmb_bytes. fbytes. Qed.

Lemma write_tmmb_bytes items : ∀ packet index pre pos, Forall valid_tmmb_item items → 0 ≤ index → pos = index + zlen pre →
  pos + 8 * zlen items ≤ zlen packet → write_tmmb items (store packet index pre) pos =
    Done (store packet index (pre ++ flat_map tmmb_bytes items), pos + 8 * zlen items).
Proof.
  induction items as [|r l IH]; intros packet index pre pos Hv Hi Hp Hl; cbn [write_tmmb flat_map].
  { by rewrite app_nil_r, Z.add_0_r. }
  apply Forall_cons_1 in Hv as [H1 Hv]. cbn [length] in *. pose proof (tmmb_bytes_length r) as L.
  rewrite TmmbItem_Create_bytes by (done || lia). cbn [mbind outcome_bind]. unfold kTmmbItemLength.
  rewrite IH by (done || (rewrite ?zlen_app; lia)). rewrite <- !app_assoc. do 2 f_equal. lia.
Qed.

Lemma parse_tmmb_bytes items : ∀ items0 pre suf p, Forall valid_tmmb_item items → length items0 = length items → p = zlen pre →
  parse_tmmb items0 (pre ++ flat_map tmmb_bytes items ++ suf) p = Done (items, true).
Proof.
  induction items as [|r l IH]; intros [|r0 l0] pre suf p Hv Hl Hp; try done. apply Forall_cons_1 in Hv as [H1 Hv].
  cbn [parse_tmmb flat_map]. pose proof (tmmb_bytes_length r) as L. rewrite <- app_assoc, TmmbItem_Parse_bytes by done.
  cbn [mbind outcome_bind negb]. unfold kTmmbItemLength. rewrite app_assoc. injection Hl as Hl.
  rewrite IH by (done || (rewrite ?zlen_app; lia)). done.
Qed.

Lemma parse_tmmb_done items payload : ∀ p, 0 ≤ p → p + 8 * zlen items ≤ zlen payload → ∃ r, parse_tmmb items payload p = Done r.
Proof.
  induction items as [|i l IH]; intros p Hp Hl; [by eexists|]. cbn [parse_tmmb length] in *. unfold TmmbItem_Parse.
  rewrite !get_uint_done by lia. cbn [mbind outcome_bind]. unfold kTmmbItemLength.
  destruct (IH (p + 8) ltac:(lia) ltac:(lia)) as ([r ok] & E). destruct (negb _); cbn [mbind outcome_bind negb]; [by eexists|].
  rewrite E. by eexists.
Qed.

Lemma resize_length items n : length (resize_items items n) = n.
Proof. unfold resize_items. rewrite length_app, length_take, length_replicate. lia. Qed.

Definition tmmb_all_bytes (t : Tmmb) : list Z := common_bytes (tmmb_ssrcs t) ++ flat_map tmmb_bytes (items_ t).

Lemma tmmb_all_length t : zlen (tmmb_all_bytes t) = 8 + 8 * zlen (items_ t).
Proof. unfold tmmb_all_bytes. by rewrite zlen_app, common_length, tmmbs_length. Qed.

Section tmmb.
Context (least : Z) (type : Z) (Ht : uint8 type) (format : Z) (Hf : 0 ≤ format < 32).

(** Both classes, with the least number of items that is accepted. *)
Lemma Tmmb_lawful : LawfulPacket (MkKind type (λ _, format) Tmmb_BlockLength Tmmb_Write
    (λ t h, if payload_size h <? 8 + 8 * Z.max 0 least then Done (t, false) else Tmmb_ParseItems t h))
  (λ t, valid_tmmb t ∧ least ≤ zlen (items_ t)).
Proof using Ht Hf.
  apply (lawful_intro _ _ tmmb_all_bytes); [done| | | |]; cbn [pk_count pk_length pk_write pk_parse].
  - intros t ((_ & _ & Hn) & _). pose proof (tmmb_all_length t) as L.
    unfold Tmmb_BlockLength, kHeaderLength, kCommonFeedbackLength, kTmmbItemLength. split; [done|].
    split; [unfold tmmb_all_bytes; fbytes; apply tmmbs_uint8|]. split; [lia|]. split; [lia|]. zdiv.
  - intros t ((_ & Hv & _) & _) packet index pre pos Hi Hp Hl. rewrite tmmb_all_length in Hl |- *.
    unfold Tmmb_Write, Tmmb_BlockLength, kHeaderLength, kCommonFeedbackLength, kTmmbItemLength, tmmb_all_bytes.
    rewrite common_create by (rewrite ?common_length; lia). cbn [mbind outcome_bind].
    rewrite write_tmmb_bytes by (rewrite ?zlen_app, ?common_length; done || lia). cbn [mbind outcome_bind].
    destruct (Z.eqb_spec (pos - 4 + (4 + 8 + 8 * zlen (items_ t))) (pos + 8 + 8 * zlen (items_ t))); [|lia].
    cbn [negb]. rewrite <- !app_assoc. do 2 f_equal. lia.
  - intros t v0 h ((H1 & H2 & Hn) & Hle) Hb Hs Hc. unfold Tmmb_ParseItems, kCommonFeedbackLength, kTmmbItemLength.
    rewrite Hb, Hs, tmmb_all_length. destruct (Z.ltb_spec (8 + 8 * zlen (items_ t)) (8 + 8 * Z.max 0 least)); [lia|].
    replace (8 + 8 * zlen (items_ t) - 8) with (zlen (items_ t) * 8) by lia. rewrite Z_mod_mult, Z_div_mult, Nat2Z.id by lia.
    cbn [Z.eqb negb]. unfold tmmb_all_bytes. rewrite common_parse by done. cbn [mbind outcome_bind].
    pose proof (parse_tmmb_bytes (items_ t) (resize_items (items_ v0) (length (items_ t))) (common_bytes (tmmb_ssrcs t)) [] 8 H2)
      as E. rewrite app_nil_r in E. rewrite E by (by rewrite ?resize_length, ?common_length). by destruct t.
  - intros v0 h Hu L Hc. unfold Tmmb_ParseItems, kCommonFeedbackLength, kTmmbItemLength.
    destruct (Z.ltb_spec (payload_size h) (8 + 8 * Z.max 0 least)); [by eauto|]. destruct (negb _); [by eauto|].
    destruct (common_done (header_payload h)) as (f & ->); [lia|]. cbn [mbind outcome_bind].
    assert (0 ≤ (payload_size h - 8) `div` 8 ∧ 8 * ((payload_size h - 8) `div` 8) ≤ payload_size h - 8) as Hd by zdiv.
    destruct (parse_tmmb_done (resize_items (items_ v0) (Z.to_nat ((payload_size h - 8) `div` 8))) (header_payload h) 8)
      as ([l ok] & ->); [lia|rewrite resize_length; lia|]. by eauto.
Qed.
End tmmb.

#[export] Instance Tmmbr_lawful : LawfulPacket TmmbrKind (λ t, valid_tmmb t ∧ 1 ≤ zlen (items_ t)).
Proof. by apply (Tmmb_lawful 1 kPacketType). Qed.

#[export] Instance Tmmbn_lawful : LawfulPacket TmmbnKind valid_tmmb.
Proof.
  apply (lawful_weaken _ (λ t, valid_tmmb t ∧ 0 ≤ zlen (items_ t))); [by apply (Tmmb_lawful 0 kPacketType)|].
  intros t Ht. split; [done|lia].
Qed.

(** * Loss notifications *)

Definition valid_loss (l : LossNotification) : Prop :=
  valid_ssrcs (loss_ssrcs l) ∧ uint16 (last_decoded_ l) ∧ uint16 (last_received_ l) ∧
  u16 (last_received_ l - last_decoded_ l) ≤ 0x7fff.

(** What [Set] accepts can be sent. *)
Lemma Set_valid l decoded received flag : valid_ssrcs (loss_ssrcs l) → uint16 decoded → uint16 received →
  let '(l', ok) := LossNotification_Set l decoded received flag in
  if ok then valid_loss l' ∧ last_decoded_ l' = decoded ∧ last_received_ l' = received ∧ decodability_flag_ l' = flag else l' = l.
Proof.
  intros H1 H2 H3. unfold LossNotification_Set. rewrite Z.gtb_ltb. destruct (Z.ltb_spec 0x7fff (u16 (received - decoded))); [done|].
  split; [|done]. by split; [|split; [|split]].
Qed.

Definition loss_word (l : LossNotification) : Z :=
  u16 (last_received_ l - last_decoded_ l) * 2 + (if decodability_flag_ l then 1 else 0).

Definition loss_bytes (l : LossNotification) : list Z :=
  common_bytes (loss_ssrcs l) ++ be 4 kLossUniqueIdentifier ++ be 2 (last_decoded_ l) ++ be 2 (loss_word l).

Lemma loss_bytes_length l : zlen (loss_bytes l) = 16.
Proof. unfold loss_bytes. rewrite !zlen_app, common_length. flen. Qed.

#[export] Instance LossNotification_lawful : LawfulPacket LossNotificationKind valid_loss.
Proof.
  apply (lawful_intro _ _ loss_bytes); [by vm_compute| | | |]; cbn [pk_count pk_length pk_write pk_parse LossNotificationKind].
  - intros l _. rewrite loss_bytes_length. split; [done|]. split; [|done]. unfold loss_bytes. fbytes.
  - intros l (_ & _ & _ & Hd) packet index pre pos Hi Hp Hl. rewrite loss_bytes_length in Hl |- *.
    unfold LossNotification_Write, kCommonFeedbackLength, loss_bytes. rewrite common_create by (rewrite ?common_length; lia).
    cbn [mbind outcome_bind]. pose proof (common_length (loss_ssrcs l)) as Lc. pose proof (u16_range (last_received_ l - last_decoded_ l)) as H16.
    assert (u16 (Z.lor (u16 (last_received_ l - last_decoded_ l) ≪ 1) (if decodability_flag_ l then 1 else 0)) = loss_word l) as ->.
    { unfold loss_word. unfold uint16 in H16. rewrite Z.lor_comm, lor_shiftl_disjoint by (destruct (decodability_flag_ l); lia).
      rewrite u16_id by (unfold uint16; destruct (decodability_flag_ l); lia). lia. }
    do 3 fill_one. rewrite <- !app_assoc. do 2 f_equal. lia.
  - intros l v0 h (H1 & H2 & H3 & Hd) Hb Hs Hc. unfold LossNotification_Parse. rewrite Hs, Hb, loss_bytes_length.
    cbn [Z.ltb]. pose proof (common_length (loss_ssrcs l)) as Lc. pose proof (u16_range (last_received_ l - last_decoded_ l)) as H16.
    assert (0 ≤ loss_word l < 65536) as Hw by (unfold loss_word, uint16 in *; destruct (decodability_flag_ l); lia).
    assert (get_uint 4 4 (loss_bytes l) 8 = Done kLossUniqueIdentifier) as -> by (unfold loss_bytes; by read_one).
    assert (get_uint 2 2 (loss_bytes l) 12 = Done (last_decoded_ l)) as R1 by (unfold loss_bytes; by read_one).
    assert (get_uint 2 2 (loss_bytes l) 14 = Done (loss_word l)) as R2.
    { unfold loss_bytes. rewrite <- (app_nil_r (be 2 (loss_word l))). by read_one. }
    assert (fs_ParseCommonFeedback (loss_bytes l) = Done (loss_ssrcs l)) as R3 by (unfold loss_bytes; by apply common_parse).
    cbn [mbind outcome_bind]. rewrite Z.eqb_refl. cbn [negb]. rewrite R3. cbn [mbind outcome_bind]. rewrite R1. cbn [mbind outcome_bind].
    rewrite R2. cbn [mbind outcome_bind]. unfold kCommonFeedbackLength, kLossNotificationPayloadLength.
    assert (loss_word l ≫ 1 = u16 (last_received_ l - last_decoded_ l)) as ->.
    { rewrite shiftr_div by lia. change (2 ^ 1) with 2. unfold loss_word. destruct (decodability_flag_ l); zdiv. }
    assert (negb (Z.land (loss_word l) 1 =? 0) = decodability_flag_ l) as ->.
    { change 1 with (Z.ones 1). rewrite Z.land_ones by lia. change (2 ^ 1) with 2. unfold loss_word.
      destruct (decodability_flag_ l); [rewrite Z.add_comm, Z_mod_plus_full|rewrite Z.add_0_r, Z_mod_mult]; done. }
    assert (u16 (last_decoded_ l + u16 (last_received_ l - last_decoded_ l)) = last_received_ l) as ->.
    { unfold u16 in *. rewrite Zplus_mod_idemp_r. replace (last_decoded_ l + _) with (last_received_ l) by lia.
      unfold uint16 in H3. by rewrite Z.mod_small by lia. }
    by destruct l.
  - intros v0 h Hu L Hc. unfold LossNotification_Parse, kCommonFeedbackLength, kLossNotificationPayloadLength.
    destruct (Z.ltb_spec (payload_size h) (8 + 8)); [by eauto|]. rewrite (get_uint_done 4 4 _ 8) by lia. cbn [mbind outcome_bind].
    destruct (negb _); [by eauto|]. destruct (common_done (header_payload h)) as (f & ->); [lia|]. cbn [mbind outcome_bind].
    rewrite (get_uint_done 2 2 _ 12) by lia. cbn [mbind outcome_bind]. rewrite get_uint_done by lia. cbn [mbind outcome_bind].
    by eauto.
Qed.
