(* ===== verification/RtcpXr.v ===== *)
(** Extended reports: extended_reports.cc, rrtr.cc, dlrr.cc and target_bitrate.cc of
    modules/rtp_rtcp/source/rtcp_packet.  The class is shown to be lawful: the blocks are found
    again whichever of them are present, and any payload is parsed within its bounds. *)
From S2P Require Import Prelude ByteIo RtpExtensionMap RtpPacket RtpWire RtpHeaderExtensions Rtcp RtcpFields RtcpKinds.
From S2P Require Import RtcpReports.

(** * Definitions *)

(** ** Receiver reference time *)

Definition kRrtrBlockType : Z := 4.
Definition kRrtrBlockLength : Z := 2.
Definition kRrtrLength : Z := 4 * (kRrtrBlockLength + 1).

(** An [Rrtr] is its NTP time; [block] is where the block starts in the buffer. *)
Definition Rrtr_Parse (buffer : list Z) (block : Z) : outcome Z :=
  seconds ← get_uint 4 4 buffer (block + 4);
  fraction ← get_uint 4 4 buffer (block + 8);
  Done (NtpTime_Set seconds fraction).

Definition Rrtr_Create (ntp : Z) (buffer : list Z) (p : Z) : outcome (list Z) :=
  buffer ← write8 buffer p kRrtrBlockType;
  buffer ← write8 buffer (p + 1) 0;
  buffer ← write_be 2 buffer (p + 2) kRrtrBlockLength;
  buffer ← write_be 4 buffer (p + 4) (NtpTime_seconds ntp);
  write_be 4 buffer (p + 8) (NtpTime_fractions ntp).

(** ** Delay since the last receiver report *)

Record ReceiveTimeInfo : Type := MkTime { time_ssrc : Z; last_rr : Z; delay_since_last_rr : Z }.

Definition kDlrrBlockType : Z := 5.
Definition kDlrrHeaderLength : Z := 4.
Definition kSubBlockLength : Z := 12.

(** The loop of [Dlrr::Parse], which assigns every field of the [n] sub-blocks. *)
Fixpoint parse_sub_blocks (n : nat) (buffer : list Z) (read_at : Z) : outcome (list ReceiveTimeInfo) :=
  match n with
  | O => Done []
  | S n =>
      ssrc ← get_uint 4 4 buffer read_at;
      rr ← get_uint 4 4 buffer (read_at + 4);
      delay ← get_uint 4 4 buffer (read_at + 8);
      sub_blocks ← parse_sub_blocks n buffer (read_at + kSubBlockLength);
      Done (MkTime ssrc rr delay :: sub_blocks)
  end.

Definition Dlrr_Parse (sub_blocks : list ReceiveTimeInfo) (buffer : list Z) (block block_length_32bits : Z)
  : outcome (list ReceiveTimeInfo * bool) :=
  if negb (block_length_32bits `mod` 3 =? 0) then Done (sub_blocks, false)
  else
    sub_blocks ← parse_sub_blocks (Z.to_nat (block_length_32bits `div` 3)) buffer (block + kDlrrHeaderLength);
    Done (sub_blocks, true).

Definition Dlrr_BlockLength (sub_blocks : list ReceiveTimeInfo) : Z :=
  if zlen sub_blocks =? 0 then 0 else kDlrrHeaderLength + kSubBlockLength * zlen sub_blocks.

Fixpoint write_sub_blocks (sub_blocks : list ReceiveTimeInfo) (buffer : list Z) (write_at : Z) : outcome (list Z) :=
  match sub_blocks with
  | [] => Done buffer
  | b :: sub_blocks =>
      buffer ← write_be 4 buffer write_at (time_ssrc b);
      buffer ← write_be 4 buffer (write_at + 4) (last_rr b);
      buffer ← write_be 4 buffer (write_at + 8) (delay_since_last_rr b);
      write_sub_blocks sub_blocks buffer (write_at + kSubBlockLength)
  end.

Definition Dlrr_Create (sub_blocks : list ReceiveTimeInfo) (buffer : list Z) (p : Z) : outcome (list Z) :=
  if zlen sub_blocks =? 0 then Done buffer
  else
    buffer ← write8 buffer p kDlrrBlockType;
    buffer ← write8 buffer (p + 1) 0;
    buffer ← write_be 2 buffer (p + 2) (3 * zlen sub_blocks);
    write_sub_blocks sub_blocks buffer (p + kDlrrHeaderLength).

(** ** Target bit rates *)

Record BitrateItem : Type := MkBitrate { spatial_layer : Z; temporal_layer : Z; target_bitrate_kbps : Z }.

Definition kTargetBitrateBlockType : Z := 42.
Definition kBitrateItemSizeBytes : Z := 4.
Definition kTargetBitrateHeaderSizeBytes : Z := 4.

Definition AddTargetBitrate (bitrates : list BitrateItem) (spatial temporal kbps : Z) : list BitrateItem :=
  bitrates ++ [MkBitrate spatial temporal kbps].

(** The loop of [TargetBitrate::Parse], in which [AddTargetBitrate] appends to an empty list. *)
Fixpoint parse_bitrates (n : nat) (buffer : list Z) (index : Z) : outcome (list BitrateItem) :=
  match n with
  | O => Done []
  | S n =>
      layers ← read8 buffer index;
      bitrate_kbps ← get_uint 4 3 buffer (index + 1);
      bitrates ← parse_bitrates n buffer (index + kBitrateItemSizeBytes);
      Done (MkBitrate (Z.land (layers ≫ 4) 0x0F) (Z.land layers 0x0F) bitrate_kbps :: bitrates)
  end.

Definition TargetBitrate_Parse (buffer : list Z) (block block_length : Z) : outcome (list BitrateItem) :=
  let payload_size_bytes := block_length * 4 in
  let num_items := payload_size_bytes `div` kBitrateItemSizeBytes in
  parse_bitrates (Z.to_nat num_items) buffer (block + kTargetBitrateHeaderSizeBytes).

Definition TargetBitrate_BlockLength (bitrates : list BitrateItem) : Z :=
  kTargetBitrateHeaderSizeBytes + zlen bitrates * kBitrateItemSizeBytes.

Fixpoint write_bitrates (bitrates : list BitrateItem) (buffer : list Z) (index : Z) : outcome (list Z) :=
  match bitrates with
  | [] => Done buffer
  | item :: bitrates =>
      buffer ← write8 buffer index (Z.lor (spatial_layer item ≪ 4) (temporal_layer item));
      buffer ← write_be 3 buffer (index + 1) (target_bitrate_kbps item);
      write_bitrates bitrates buffer (index + kBitrateItemSizeBytes)
  end.

Definition TargetBitrate_Create (bitrates : list BitrateItem) (buffer : list Z) (p : Z) : outcome (list Z) :=
  buffer ← write8 buffer p kTargetBitrateBlockType;
  buffer ← write8 buffer (p + 1) 0;
  let block_length_words := u16 (TargetBitrate_BlockLength bitrates `div` 4 - 1) in
  buffer ← write_be 2 buffer (p + 2) block_length_words;
  write_bitrates bitrates buffer (p + kTargetBitrateHeaderSizeBytes).

(** ** The packet *)

Record ExtendedReports : Type := MkXr {
  xr_sender_ssrc : Z; rrtr_block_ : option Z; dlrr_block_ : list ReceiveTimeInfo;
  target_bitrate_ : option (list BitrateItem) }.

Definition kXrPacketType : Z := 207.
Definition kXrBaseLength : Z := 4.
Definition kMaxNumberOfDlrrItems : Z := 50.
Definition kBlockHeaderSizeBytes : Z := 4.

Definition ParseRrtrBlock (r : ExtendedReports) (buffer : list Z) (block block_length : Z) : outcome ExtendedReports :=
  if negb (block_length =? kRrtrBlockLength) then Done r
  else
    match rrtr_block_ r with
    | Some _ => Done r
    | None =>
        ntp ← Rrtr_Parse buffer block;
        Done (MkXr (xr_sender_ssrc r) (Some ntp) (dlrr_block_ r) (target_bitrate_ r))
    end.

Definition ParseDlrrBlock (r : ExtendedReports) (buffer : list Z) (block block_length : Z) : outcome ExtendedReports :=
  if negb (zlen (dlrr_block_ r) =? 0) then Done r
  else
    '(dlrr, _) ← Dlrr_Parse (dlrr_block_ r) buffer block block_length;
    Done (MkXr (xr_sender_ssrc r) (rrtr_block_ r) dlrr (target_bitrate_ r)).

Definition ParseTargetBitrateBlock (r : ExtendedReports) (buffer : list Z) (block block_length : Z)
  : outcome ExtendedReports :=
  bitrates ← TargetBitrate_Parse buffer block block_length;
  Done (MkXr (xr_sender_ssrc r) (rrtr_block_ r) (dlrr_block_ r) (Some bitrates)).

(** The [switch] on the type of a block. *)
Definition parse_xr_block (r : ExtendedReports) (buffer : list Z) (block block_type block_length : Z)
  : outcome ExtendedReports :=
  if block_type =? kRrtrBlockType then ParseRrtrBlock r buffer block block_length
  else if block_type =? kDlrrBlockType then ParseDlrrBlock r buffer block block_length
  else if block_type =? kTargetBitrateBlockType then ParseTargetBitrateBlock r buffer block block_length
  else Done r.

(** The loop over the blocks; every turn advances by a block header at least. *)
Fixpoint parse_xr_blocks (fuel : nat) (r : ExtendedReports) (payload : list Z) (current_block : Z)
  : outcome (ExtendedReports * bool) :=
  match fuel with
  | O => OutOfFuel
  | S fuel =>
      let packet_end := zlen payload in
      if current_block + kBlockHeaderSizeBytes <=? packet_end then
        block_type ← get_uint 1 1 payload current_block;
        block_length ← get_uint 2 2 payload (current_block + 2);
        let next_block := current_block + kBlockHeaderSizeBytes + block_length * 4 in
        if next_block >? packet_end then Done (r, false)
        else
          r ← parse_xr_block r payload current_block block_type block_length;
          parse_xr_blocks fuel r payload next_block
      else Done (r, true)
  end.

Definition ExtendedReports_Parse (r : ExtendedReports) (packet : CommonHeader) : outcome (ExtendedReports * bool) :=
  if payload_size packet <? kXrBaseLength then Done (r, false)
  else
    let payload := header_payload packet in
    sender_ssrc ← get_uint 4 4 payload 0;
    parse_xr_blocks (S (length payload)) (MkXr sender_ssrc None [] None) payload kXrBaseLength.

Definition ExtendedReports_SetSenderSsrc (r : ExtendedReports) (ssrc : Z) : ExtendedReports :=
  MkXr ssrc (rrtr_block_ r) (dlrr_block_ r) (target_bitrate_ r).
Definition SetRrtr (r : ExtendedReports) (rrtr : Z) : ExtendedReports :=
  MkXr (xr_sender_ssrc r) (Some rrtr) (dlrr_block_ r) (target_bitrate_ r).
Definition ExtendedReports_AddDlrrItem (r : ExtendedReports) (time_info : ReceiveTimeInfo) : ExtendedReports * bool :=
  if zlen (dlrr_block_ r) >=? kMaxNumberOfDlrrItems then (r, false)
  else (MkXr (xr_sender_ssrc r) (rrtr_block_ r) (dlrr_block_ r ++ [time_info]) (target_bitrate_ r), true).
Definition SetTargetBitrate (r : ExtendedReports) (bitrate : list BitrateItem) : ExtendedReports :=
  MkXr (xr_sender_ssrc r) (rrtr_block_ r) (dlrr_block_ r) (Some bitrate).

Definition RrtrLength (r : ExtendedReports) : Z := match rrtr_block_ r with Some _ => kRrtrLength | None => 0 end.
Definition DlrrLength (r : ExtendedReports) : Z := Dlrr_BlockLength (dlrr_block_ r).
Definition TargetBitrateLength (r : ExtendedReports) : Z :=
  match target_bitrate_ r with Some b => TargetBitrate_BlockLength b | None => 0 end.

Definition ExtendedReports_BlockLength (r : ExtendedReports) : Z :=
  kHeaderLength + kXrBaseLength + RrtrLength r + DlrrLength r + TargetBitrateLength r.

Definition ExtendedReports_Write (r : ExtendedReports) (packet : list Z) (index : Z) : outcome (list Z * Z) :=
  let index_end := index - kHeaderLength + ExtendedReports_BlockLength r in
  packet ← write_be 4 packet index (xr_sender_ssrc r);
  let index := index + 4 in
  '(packet, index) ←
    match rrtr_block_ r with
    | Some ntp => packet ← Rrtr_Create ntp packet index; Done (packet, index + kRrtrLength)
    | None => Done (packet, index)
    end;
  '(packet, index) ←
    (if negb (zlen (dlrr_block_ r) =? 0) then
       packet ← Dlrr_Create (dlrr_block_ r) packet index; Done (packet, index + Dlrr_BlockLength (dlrr_block_ r))
     else Done (packet, index));
  '(packet, index) ←
    match target_bitrate_ r with
    | Some b => packet ← TargetBitrate_Create b packet index; Done (packet, index + TargetBitrate_BlockLength b)
    | None => Done (packet, index)
    end;
  if negb (index =? index_end) then CheckFailed else Done (packet, index).

Definition ExtendedReportsKind : RtcpKind ExtendedReports :=
  MkKind kXrPacketType (λ _, 0) ExtendedReports_BlockLength ExtendedReports_Write ExtendedReports_Parse.

(** * Blocks *)

Definition xr_block (type words : Z) (content : list Z) : list Z := [type] ++ [0] ++ be 2 words ++ content.

Lemma xr_block_length type words content : zlen (xr_block type words content) = 4 + zlen content.
Proof. unfold xr_block. flen. Qed.

Lemma xr_block_uint8 type words content : uint8 type → Forall uint8 content → Forall uint8 (xr_block type words content).
Proof.
  intros. unfold xr_block. repeat apply Forall_app_2; [by apply Forall_singleton|by apply Forall_singleton|apply be_uint8|done].
Qed.

(** The header of a block is written in front of its contents. *)
Lemma fill_block type words packet index pre pos content (k : list Z → outcome (list Z)) : uint8 type → 0 ≤ index →
  pos = index + zlen pre → pos + 4 ≤ zlen packet →
  k (store packet index (pre ++ [type] ++ [0] ++ be 2 words)) = Done (store packet index ((pre ++ [type] ++ [0] ++ be 2 words) ++ content)) →
  (buffer ← write8 (store packet index pre) pos type; buffer ← write8 buffer (pos + 1) 0;
   buffer ← write_be 2 buffer (pos + 2) words; k buffer) = Done (store packet index (pre ++ xr_block type words content)).
Proof.
  intros Ht Hi Hp Hl Hk. do 3 fill_one. rewrite u8_id by done. change (u8 0) with 0. rewrite <- !app_assoc. rewrite Hk.
  unfold xr_block. by rewrite <- !app_assoc.
Qed.

(** ** Receiver reference time *)

Definition rrtr_bytes (ntp : Z) : list Z := xr_block 4 2 (be 4 (NtpTime_seconds ntp) ++ be 4 (NtpTime_fractions ntp)).

Lemma rrtr_length ntp : zlen (rrtr_bytes ntp) = 12.
Proof. unfold rrtr_bytes. rewrite xr_block_length. flen. Qed.

Lemma Rrtr_Create_bytes ntp : appends (Rrtr_Create ntp) (rrtr_bytes ntp).
Proof.
  intros packet index pre pos Hi Hp Hl. rewrite rrtr_length in Hl. unfold Rrtr_Create.
  apply (fill_block 4 2); [done..|lia|]. do 2 fill_one. by rewrite <- !app_assoc.
Qed.

Lemma Rrtr_Parse_bytes ntp pre suf p : uint64 ntp → p = zlen pre → Rrtr_Parse (pre ++ rrtr_bytes ntp ++ suf) p = Done ntp.
Proof.
  intros Hn Hp. destruct (ntp_parts ntp Hn) as (H1 & H2 & E). unfold Rrtr_Parse.
  assert (get_uint 4 4 (pre ++ rrtr_bytes ntp ++ suf) (p + 4) = Done (NtpTime_seconds ntp)) as ->.
  { unfold rrtr_bytes, xr_block. rewrite <- !app_assoc. by read_one. }
  assert (get_uint 4 4 (pre ++ rrtr_bytes ntp ++ suf) (p + 8) = Done (NtpTime_fractions ntp)) as R2.
  { unfold rrtr_bytes, xr_block. rewrite <- !app_assoc. by read_one. }
  cbn [mbind outcome_bind]. rewrite R2. cbn [mbind outcome_bind]. by rewrite E.
Qed.

(** ** Delays *)

Definition valid_time (t : ReceiveTimeInfo) : Prop := uint32 (time_ssrc t) ∧ uint32 (last_rr t) ∧ uint32 (delay_since_last_rr t).
Definition time_bytes (t : ReceiveTimeInfo) : list Z := be 4 (time_ssrc t) ++ be 4 (last_rr t) ++ be 4 (delay_since_last_rr t).
Definition dlrr_bytes (l : list ReceiveTimeInfo) : list Z :=
  if zlen l =? 0 then [] else xr_block 5 (3 * zlen l) (flat_map time_bytes l).

Lemma times_length l : zlen (flat_map time_bytes l) = 12 * zlen l.
Proof. induction l as [|t l IH]; [done|]. cbn [flat_map length]. rewrite zlen_app, IH. unfold time_bytes. flen. Qed.

Lemma dlrr_length l : zlen (dlrr_bytes l) = Dlrr_BlockLength l.
Proof.
  unfold dlrr_bytes, Dlrr_BlockLength. destruct (zlen l =? 0); [done|]. rewrite xr_block_length, times_length. done.
Qed.

Lemma dlrr_uint8 l : Forall uint8 (dlrr_bytes l).
Proof.
  unfold dlrr_bytes. destruct (_ =? _); [by constructor|]. apply xr_block_uint8; [done|].
  induction l as [|t l IH]; [by constructor|]. cbn [flat_map]. unfold time_bytes. fbytes.
Qed.

Lemma write_sub_blocks_bytes l : appends (write_sub_blocks l) (flat_map time_bytes l).
Proof.
  induction l as [|t l IH]; intros packet index pre pos Hi Hp Hl; cbn [write_sub_blocks flat_map]; [by rewrite app_nil_r|].
  rewrite times_length in Hl. cbn [length] in Hl. do 3 fill_one. unfold kSubBlockLength.
  rewrite IH by (rewrite ?times_length; flen). unfold time_bytes. by rewrite <- !app_assoc.
Qed.

Lemma Dlrr_Create_bytes l : appends (Dlrr_Create l) (dlrr_bytes l).
Proof.
  intros packet index pre pos Hi Hp Hl. rewrite dlrr_length in Hl. unfold Dlrr_Create, dlrr_bytes, Dlrr_BlockLength in *.
  destruct (zlen l =? 0); [by rewrite app_nil_r|]. unfold kDlrrHeaderLength, kSubBlockLength in *.
  apply (fill_block 5); [done..|lia|]. apply write_sub_blocks_bytes; rewrite ?times_length; flen.
Qed.

Lemma parse_sub_blocks_bytes l : ∀ pre suf p, Forall valid_time l → p = zlen pre →
  parse_sub_blocks (length l) (pre ++ flat_map time_bytes l ++ suf) p = Done l.
Proof.
  induction l as [|t l IH]; intros pre suf p Hv Hp; [done|]. apply Forall_cons_1 in Hv as [(H1 & H2 & H3) Hv].
  cbn [length parse_sub_blocks flat_map]. set (rest := flat_map time_bytes l ++ suf).
  assert (get_uint 4 4 (pre ++ time_bytes t ++ rest) p = Done (time_ssrc t)) as R1.
  { unfold time_bytes. rewrite <- !app_assoc. by read_one. }
  assert (get_uint 4 4 (pre ++ time_bytes t ++ rest) (p + 4) = Done (last_rr t)) as R2.
  { unfold time_bytes. rewrite <- !app_assoc. by read_one. }
  assert (get_uint 4 4 (pre ++ time_bytes t ++ rest) (p + 8) = Done (delay_since_last_rr t)) as R3.
  { unfold time_bytes. rewrite <- !app_assoc. by read_one. }
  rewrite <- app_assoc. fold rest. rewrite R1. cbn [mbind outcome_bind]. rewrite R2. cbn [mbind outcome_bind]. rewrite R3.
  cbn [mbind outcome_bind]. unfold kSubBlockLength. rewrite app_assoc. unfold rest.
  rewrite IH by (done || (unfold time_bytes; flen)). by destruct t.
Qed.

Lemma parse_sub_blocks_done n payload : ∀ p, 0 ≤ p → p + 12 * Z.of_nat n ≤ zlen payload →
  ∃ l, parse_sub_blocks n payload p = Done l.
Proof.
  induction n as [|n IH]; intros p Hp Hl; [by exists []|]. cbn [parse_sub_blocks].
  rewrite !get_uint_done by lia. cbn [mbind outcome_bind]. unfold kSubBlockLength.
  destruct (IH (p + 12) ltac:(lia) ltac:(lia)) as (l & ->). by eexists.
Qed.

(** ** Target bit rates *)

Definition valid_bitrate (i : BitrateItem) : Prop :=
  0 ≤ spatial_layer i ≤ 0x0F ∧ 0 ≤ temporal_layer i ≤ 0x0F ∧ 0 ≤ target_bitrate_kbps i ≤ 0x00FFFFFF.
Definition bitrate_bytes (i : BitrateItem) : list Z :=
  [u8 (Z.lor (spatial_layer i ≪ 4) (temporal_layer i))] ++ be 3 (target_bitrate_kbps i).
Definition target_bytes (l : list BitrateItem) : list Z := xr_block 42 (zlen l) (flat_map bitrate_bytes l).

Lemma bitrates_length l : zlen (flat_map bitrate_bytes l) = 4 * zlen l.
Proof. induction l as [|t l IH]; [done|]. cbn [flat_map]. rewrite zlen_app, IH. unfold bitrate_bytes. flen. Qed.

Lemma target_length l : zlen (target_bytes l) = TargetBitrate_BlockLength l.
Proof.
  unfold target_bytes, TargetBitrate_BlockLength, kTargetBitrateHeaderSizeBytes, kBitrateItemSizeBytes.
  rewrite xr_block_length, bitrates_length. lia.
Qed.

Lemma target_uint8 l : Forall uint8 (target_bytes l).
Proof.
  unfold target_bytes. apply xr_block_uint8; [done|]. induction l as [|t l IH]; [by constructor|]. cbn [flat_map]. unfold bitrate_bytes. fbytes.
  apply Forall_singleton, u8_range.
Qed.

Lemma write_bitrates_bytes l : appends (write_bitrates l) (flat_map bitrate_bytes l).
Proof.
  induction l as [|t l IH]; intros packet index pre pos Hi Hp Hl; cbn [write_bitrates flat_map]; [by rewrite app_nil_r|].
  rewrite bitrates_length in Hl. cbn [length] in Hl. do 2 fill_one. unfold kBitrateItemSizeBytes.
  rewrite IH by (rewrite ?bitrates_length; flen). unfold bitrate_bytes. by rewrite <- !app_assoc.
Qed.

Lemma TargetBitrate_Create_bytes l : zlen l < 65536 → appends (TargetBitrate_Create l) (target_bytes l).
Proof.
  intros Hn packet index pre pos Hi Hp Hl. rewrite target_length in Hl. unfold TargetBitrate_Create.
  unfold TargetBitrate_BlockLength, kTargetBitrateHeaderSizeBytes, kBitrateItemSizeBytes in *.
  assert (u16 ((4 + zlen l * 4) `div` 4 - 1) = zlen l) as ->.
  { replace (4 + zlen l * 4) with ((1 + zlen l) * 4) by lia. rewrite Z_div_mult by lia. rewrite u16_id; [lia|]. unfold uint16. lia. }
  apply (fill_block 42); [done..|lia|]. apply write_bitrates_bytes; rewrite ?bitrates_length; flen.
Qed.

(** The two layers are in one byte. *)
Lemma layers_split s t : 0 ≤ s ≤ 0x0F → 0 ≤ t ≤ 0x0F →
  Z.land (u8 (Z.lor (s ≪ 4) t) ≫ 4) 0x0F = s ∧ Z.land (u8 (Z.lor (s ≪ 4) t)) 0x0F = t.
Proof.
  intros Hs Ht. assert (u8 (Z.lor (s ≪ 4) t) = t + s * 16) as ->.
  { rewrite Z.lor_comm, lor_shiftl_disjoint by lia. apply u8_id. unfold uint8. lia. }
  change 0x0F with (Z.ones 4). rewrite !Z.land_ones, shiftr_div by lia. change (2 ^ 4) with 16. zdiv.
Qed.

Lemma parse_bitrates_bytes l : ∀ pre suf p, Forall valid_bitrate l → p = zlen pre →
  parse_bitrates (length l) (pre ++ flat_map bitrate_bytes l ++ suf) p = Done l.
Proof.
  induction l as [|t l IH]; intros pre suf p Hv Hp; [done|]. apply Forall_cons_1 in Hv as [(H1 & H2 & H3) Hv].
  cbn [length parse_bitrates flat_map]. set (rest := flat_map bitrate_bytes l ++ suf).
  assert (read8 (pre ++ bitrate_bytes t ++ rest) p = Done (u8 (Z.lor (spatial_layer t ≪ 4) (temporal_layer t)))) as R1.
  { unfold bitrate_bytes. rewrite <- !app_assoc. skip_one. by apply read8_head; flen. }
  assert (get_uint 4 3 (pre ++ bitrate_bytes t ++ rest) (p + 1) = Done (target_bitrate_kbps t)) as R2.
  { unfold bitrate_bytes. rewrite <- !app_assoc. repeat skip_one. apply get_uint_head; [flen|lia|cbn; lia]. }
  rewrite <- app_assoc. fold rest. rewrite R1. cbn [mbind outcome_bind]. rewrite R2. cbn [mbind outcome_bind].
  destruct (layers_split _ _ H1 H2) as [-> ->]. unfold kBitrateItemSizeBytes. rewrite app_assoc. unfold rest.
  rewrite IH by (done || (unfold bitrate_bytes; flen)). by destruct t.
Qed.

Lemma parse_bitrates_done n payload : ∀ p, 0 ≤ p → p + 4 * Z.of_nat n ≤ zlen payload →
  ∃ l, parse_bitrates n payload p = Done l.
Proof.
  induction n as [|n IH]; intros p Hp Hl; [by exists []|]. cbn [parse_bitrates].
  rewrite read8_done, get_uint_done by lia. cbn [mbind outcome_bind]. unfold kBitrateItemSizeBytes.
  destruct (IH (p + 4) ltac:(lia) ltac:(lia)) as (l & ->). by eexists.
Qed.

(** * The loop over the blocks *)

Lemma be_one t : uint8 t → be 1 t = [t].
Proof.
  intros Ht. change (Z.to_nat 1) with 1%nat. cbn [be_bytes]. change (8 * Z.of_nat 0) with 0. by rewrite Z.shiftr_0_r, u8_id.
Qed.

Section loop.
Context (pre suf : list Z).

Lemma xr_step f r type words content (p := pre ++ xr_block type words content ++ suf) :
  uint8 type → 0 ≤ words < 65536 → zlen content = 4 * words →
  parse_xr_blocks (S f) r p (zlen pre) =
    (r ← parse_xr_block r p (zlen pre) type words; parse_xr_blocks f r p (zlen (pre ++ xr_block type words content))).
Proof using Type.
  intros Ht Hw Hc. pose proof (xr_block_length type words content) as L.
  assert (zlen p = zlen pre + 4 + zlen content + zlen suf) as Lp by (unfold p; rewrite !zlen_app; lia).
  assert (get_uint 1 1 p (zlen pre) = Done type) as R1.
  { unfold p, xr_block. rewrite <- !app_assoc, <- (be_one type) by done. by read_one. }
  assert (get_uint 2 2 p (zlen pre + 2) = Done words) as R2.
  { unfold p, xr_block. rewrite <- !app_assoc. by read_one. }
  cbn [parse_xr_blocks]. unfold kBlockHeaderSizeBytes. destruct (Z.leb_spec (zlen pre + 4) (zlen p)); [|lia].
  rewrite R1. cbn [mbind outcome_bind]. rewrite R2. cbn [mbind outcome_bind]. rewrite Z.gtb_ltb.
  destruct (Z.ltb_spec (zlen p) (zlen pre + 4 + words * 4)); [lia|].
  replace (zlen (pre ++ _)) with (zlen pre + 4 + words * 4); [done|]. rewrite zlen_app. lia.
Qed.

Lemma xr_rrtr fuel r o (bs := from_option rrtr_bytes [] o) (p := pre ++ bs ++ suf) :
  (1 ≤ fuel)%nat → rrtr_block_ r = None → (∀ ntp, o = Some ntp → uint64 ntp) → ∃ f, (fuel ≤ S f)%nat ∧
  parse_xr_blocks fuel r p (zlen pre) =
    parse_xr_blocks f (MkXr (xr_sender_ssrc r) o (dlrr_block_ r) (target_bitrate_ r)) p (zlen (pre ++ bs)).
Proof using Type.
  intros Hf Hr Hv. destruct o as [ntp|]; cbn [from_option] in bs.
  - destruct fuel as [|f]; [lia|]. exists f. split; [lia|]. unfold p, bs, rrtr_bytes. rewrite xr_step by (done || flen). f_equal.
    unfold parse_xr_block. change (4 =? kRrtrBlockType) with true. unfold ParseRrtrBlock.
    change (negb (2 =? kRrtrBlockLength)) with false. cbn match. rewrite Hr. fold (rrtr_bytes ntp). rewrite Rrtr_Parse_bytes by auto. done.
  - exists fuel. split; [lia|]. unfold bs. rewrite app_nil_r. by destruct r; simplify_eq/=.
Qed.

Lemma xr_dlrr fuel r l (p := pre ++ dlrr_bytes l ++ suf) :
  (1 ≤ fuel)%nat → dlrr_block_ r = [] → Forall valid_time l → zlen l ≤ 50 → ∃ f, (fuel ≤ S f)%nat ∧
  parse_xr_blocks fuel r p (zlen pre) =
    parse_xr_blocks f (MkXr (xr_sender_ssrc r) (rrtr_block_ r) l (target_bitrate_ r)) p (zlen (pre ++ dlrr_bytes l)).
Proof using Type.
  intros Hf Hr Hv Hn. unfold p, dlrr_bytes. destruct (Z.eqb_spec (zlen l) 0) as [E|E].
  - exists fuel. split; [lia|]. apply length_zero_iff_nil in E || (assert (l = []) as -> by (apply length_zero_iff_nil; lia)).
    rewrite app_nil_r. by destruct r; simplify_eq/=.
  - destruct fuel as [|f]; [lia|]. exists f. split; [lia|]. rewrite xr_step by (done || rewrite ?times_length; lia). f_equal.
    unfold parse_xr_block. change (5 =? kRrtrBlockType) with false. change (5 =? kDlrrBlockType) with true. cbn match.
    unfold ParseDlrrBlock. rewrite Hr. cbn [length Z.of_nat Z.eqb negb]. unfold Dlrr_Parse.
    rewrite (Z.mul_comm 3), Z_mod_mult, Z_div_mult, Nat2Z.id by lia. cbn [Z.eqb negb]. unfold xr_block.
    rewrite <- !app_assoc. pose proof (parse_sub_blocks_bytes l (pre ++ [5] ++ [0] ++ be 2 (zlen l * 3)) suf
      (zlen pre + kDlrrHeaderLength) Hv) as R. rewrite <- !app_assoc in R. rewrite R by (unfold kDlrrHeaderLength; flen). done.
Qed.

Lemma xr_target fuel r o (bs := from_option target_bytes [] o) (p := pre ++ bs ++ suf) :
  (1 ≤ fuel)%nat → target_bitrate_ r = None → (∀ l, o = Some l → Forall valid_bitrate l ∧ zlen l ≤ 1000) →
  ∃ f, (fuel ≤ S f)%nat ∧ parse_xr_blocks fuel r p (zlen pre) =
    parse_xr_blocks f (MkXr (xr_sender_ssrc r) (rrtr_block_ r) (dlrr_block_ r) o) p (zlen (pre ++ bs)).
Proof using Type.
  intros Hf Hr Hv. destruct o as [l|]; cbn [from_option] in bs.
  - destruct (Hv l eq_refl) as [Hi Hn]. destruct fuel as [|f]; [lia|]. exists f. split; [lia|].
    unfold p, bs, target_bytes. rewrite xr_step by (done || rewrite ?bitrates_length; lia). f_equal.
    unfold parse_xr_block. change (42 =? kRrtrBlockType) with false. change (42 =? kDlrrBlockType) with false.
    change (42 =? kTargetBitrateBlockType) with true. cbn match. unfold ParseTargetBitrateBlock, TargetBitrate_Parse, kBitrateItemSizeBytes.
    rewrite Z_div_mult, Nat2Z.id by lia. unfold xr_block. rewrite <- !app_assoc.
    pose proof (parse_bitrates_bytes l (pre ++ [42] ++ [0] ++ be 2 (zlen l)) suf
      (zlen pre + kTargetBitrateHeaderSizeBytes) Hi) as R. rewrite <- !app_assoc in R.
    rewrite R by (unfold kTargetBitrateHeaderSizeBytes; flen). done.
  - exists fuel. split; [lia|]. unfold bs. rewrite app_nil_r. by destruct r; simplify_eq/=.
Qed.
End loop.

(** The loop ends within the payload, whatever the payload is. *)
Lemma parse_xr_blocks_done payload : Forall uint8 payload → ∀ fuel r cur, 0 ≤ cur →
  zlen payload - cur < Z.of_nat fuel → cur ≤ zlen payload → ∃ v, parse_xr_blocks fuel r payload cur = Done v.
Proof.
  intros Hu. induction fuel as [|f IH]; intros r cur Hc Hf Hl; [lia|]. cbn [parse_xr_blocks]. unfold kBlockHeaderSizeBytes.
  destruct (Z.leb_spec (cur + 4) (zlen payload)); [|by eauto].
  rewrite (get_uint_done 1 1) by lia. cbn [mbind outcome_bind]. rewrite (get_uint_done 2 2) by lia. cbn [mbind outcome_bind].
  set (type := ReadBigEndian 1 1 payload cur). set (words := ReadBigEndian 2 2 payload (cur + 2)).
  assert (0 ≤ words) as Hw.
  { unfold words. rewrite ReadBigEndian_value by (done || lia). by apply be_value_bound, Forall_take, Forall_drop. }
  rewrite Z.gtb_ltb. destruct (Z.ltb_spec (zlen payload) (cur + 4 + words * 4)); [by eauto|].
  assert (∃ r', parse_xr_block r payload cur type words = Done r') as (r' & ->).
  { unfold parse_xr_block. destruct (type =? _); [|destruct (type =? _); [|destruct (type =? _); [|by eauto]]].
    - unfold ParseRrtrBlock, kRrtrBlockLength. destruct (Z.eqb_spec words 2) as [E|]; cbn [negb]; [|by eauto].
      destruct (rrtr_block_ r); [by eauto|]. unfold Rrtr_Parse. rewrite !get_uint_done by lia. by eauto.
    - unfold ParseDlrrBlock, Dlrr_Parse, kDlrrHeaderLength. destruct (negb _); [by eauto|]. destruct (negb _); [by eauto|].
      assert (0 ≤ words `div` 3 ∧ 3 * (words `div` 3) ≤ words) as Hd by zdiv.
      destruct (parse_sub_blocks_done (Z.to_nat (words `div` 3)) payload (cur + 4)) as (l & ->); [lia..|]. by eauto.
    - unfold ParseTargetBitrateBlock, TargetBitrate_Parse, kBitrateItemSizeBytes, kTargetBitrateHeaderSizeBytes.
      rewrite Z_div_mult by lia. destruct (parse_bitrates_done (Z.to_nat words) payload (cur + 4)) as (l & ->); [lia..|]. by eauto. }
  cbn [mbind outcome_bind]. apply IH; lia.
Qed.

(** * The packet *)

Definition valid_xr (r : ExtendedReports) : Prop :=
  uint32 (xr_sender_ssrc r) ∧ (∀ ntp, rrtr_block_ r = Some ntp → uint64 ntp) ∧
  Forall valid_time (dlrr_block_ r) ∧ zlen (dlrr_block_ r) ≤ kMaxNumberOfDlrrItems ∧
  (∀ l, target_bitrate_ r = Some l → Forall valid_bitrate l ∧ zlen l ≤ 1000).

(** Items are added up to the limit of the class. *)
Lemma AddDlrrItem_valid r t : valid_xr r → valid_time t → valid_xr (ExtendedReports_AddDlrrItem r t).1.
Proof.
  intros (H1 & H2 & H3 & H4 & H5) Ht. unfold ExtendedReports_AddDlrrItem. rewrite Z.geb_leb.
  destruct (Z.leb_spec kMaxNumberOfDlrrItems (zlen (dlrr_block_ r))); cbn [fst]; [by split; [|split; [|split; [|split]]]|].
  split; [done|]. split; [done|]. split; [by apply Forall_app_2, Forall_singleton|]. split; [|done].
  cbn [dlrr_block_]. flen.
Qed.

Definition xr_bytes (r : ExtendedReports) : list Z :=
  be 4 (xr_sender_ssrc r) ++ from_option rrtr_bytes [] (rrtr_block_ r) ++ dlrr_bytes (dlrr_block_ r) ++
  from_option target_bytes [] (target_bitrate_ r).

Lemma rrtr_opt_length r : zlen (from_option rrtr_bytes [] (rrtr_block_ r)) = RrtrLength r.
Proof. unfold RrtrLength. destruct (rrtr_block_ r); [apply rrtr_length|done]. Qed.
Lemma target_opt_length r : zlen (from_option target_bytes [] (target_bitrate_ r)) = TargetBitrateLength r.
Proof. unfold TargetBitrateLength. destruct (target_bitrate_ r); [apply target_length|done]. Qed.

Lemma xr_bytes_length r : zlen (xr_bytes r) = 4 + RrtrLength r + DlrrLength r + TargetBitrateLength r.
Proof. unfold xr_bytes. rewrite !zlen_app, rrtr_opt_length, dlrr_length, target_opt_length. unfold DlrrLength. flen. Qed.

(** Lengths are whole words. *)
Lemma xr_lengths r : valid_xr r → ∃ w, 0 ≤ w ≤ 2000 ∧ RrtrLength r + DlrrLength r + TargetBitrateLength r = 4 * w.
Proof.
  intros (_ & _ & _ & Hn & Ht). unfold RrtrLength, DlrrLength, Dlrr_BlockLength, TargetBitrateLength, TargetBitrate_BlockLength.
  unfold kMaxNumberOfDlrrItems, kRrtrLength, kRrtrBlockLength, kDlrrHeaderLength, kSubBlockLength in *.
  unfold kTargetBitrateHeaderSizeBytes, kBitrateItemSizeBytes.
  exists ((match rrtr_block_ r with Some _ => 3 | None => 0 end) + (if zlen (dlrr_block_ r) =? 0 then 0 else 1 + 3 * zlen (dlrr_block_ r)) +
          match target_bitrate_ r with Some l => 1 + zlen l | None => 0 end).
  destruct (target_bitrate_ r) as [l|]; [destruct (Ht l eq_refl) as [_ Hl]|];
    destruct (rrtr_block_ r), (Z.eqb_spec (zlen (dlrr_block_ r)) 0); lia.
Qed.

Lemma xr_bytes_uint8 r : Forall uint8 (xr_bytes r).
Proof.
  unfold xr_bytes. fbytes; [|apply dlrr_uint8|].
  - destruct (rrtr_block_ r) as [ntp|]; [|by constructor]. cbn [from_option]. unfold rrtr_bytes. apply xr_block_uint8; [done|]. fbytes.
  - destruct (target_bitrate_ r) as [l|]; [apply target_uint8|by constructor].
Qed.

Lemma ExtendedReports_Write_bytes r packet index pre pos : valid_xr r → 0 ≤ index → pos = index + zlen pre →
  pos + zlen (xr_bytes r) ≤ zlen packet →
  ExtendedReports_Write r (store packet index pre) pos = Done (store packet index (pre ++ xr_bytes r), pos + zlen (xr_bytes r)).
Proof.
  intros (_ & _ & _ & _ & Ht) Hi Hp Hl. rewrite xr_bytes_length in Hl |- *. unfold ExtendedReports_Write.
  assert (0 ≤ RrtrLength r ∧ 0 ≤ DlrrLength r ∧ 0 ≤ TargetBitrateLength r) as (P1 & P2 & P3).
  { rewrite <- rrtr_opt_length, <- target_opt_length. unfold DlrrLength. rewrite <- dlrr_length. lia. }
  fill_one. set (pre1 := pre ++ be 4 (xr_sender_ssrc r)). assert (zlen pre1 = zlen pre + 4) as L1 by (unfold pre1; flen).
  set (b1 := from_option rrtr_bytes [] (rrtr_block_ r)). assert (zlen b1 = RrtrLength r) as Lb1 by apply rrtr_opt_length.
  set (b3 := from_option target_bytes [] (target_bitrate_ r)). assert (zlen b3 = TargetBitrateLength r) as Lb3 by apply target_opt_length.
  pose proof (dlrr_length (dlrr_block_ r)) as Lb2. fold (DlrrLength r) in Lb2.
  assert (match rrtr_block_ r with
          | Some ntp => packet0 ← Rrtr_Create ntp (store packet index pre1) (pos + 4); Done (packet0, pos + 4 + kRrtrLength)
          | None => Done (store packet index pre1, pos + 4) end = Done (store packet index (pre1 ++ b1), pos + 4 + RrtrLength r)) as ->.
  { unfold b1, RrtrLength in *. destruct (rrtr_block_ r) as [ntp|]; cbn [from_option] in *.
    - rewrite Rrtr_Create_bytes by (rewrite ?rrtr_length; unfold kRrtrLength, kRrtrBlockLength in *; lia). done.
    - by rewrite app_nil_r, Z.add_0_r. }
  cbn [mbind outcome_bind].
  assert ((if negb (zlen (dlrr_block_ r) =? 0)
           then packet0 ← Dlrr_Create (dlrr_block_ r) (store packet index (pre1 ++ b1)) (pos + 4 + RrtrLength r);
                Done (packet0, pos + 4 + RrtrLength r + Dlrr_BlockLength (dlrr_block_ r))
           else Done (store packet index (pre1 ++ b1), pos + 4 + RrtrLength r)) =
          Done (store packet index ((pre1 ++ b1) ++ dlrr_bytes (dlrr_block_ r)), pos + 4 + RrtrLength r + DlrrLength r)) as ->.
  { unfold DlrrLength, Dlrr_BlockLength in *. destruct (Z.eqb_spec (zlen (dlrr_block_ r)) 0) as [E|E]; cbn [negb].
    - rewrite (nil_length_inv (dlrr_bytes _)) by lia. by rewrite app_nil_r, Z.add_0_r.
    - rewrite Dlrr_Create_bytes by (rewrite ?zlen_app; lia). done. }
  cbn [mbind outcome_bind].
  assert (match target_bitrate_ r with
          | Some b => packet0 ← TargetBitrate_Create b (store packet index ((pre1 ++ b1) ++ dlrr_bytes (dlrr_block_ r)))
                        (pos + 4 + RrtrLength r + DlrrLength r);
                      Done (packet0, pos + 4 + RrtrLength r + DlrrLength r + TargetBitrate_BlockLength b)
          | None => Done (store packet index ((pre1 ++ b1) ++ dlrr_bytes (dlrr_block_ r)), pos + 4 + RrtrLength r + DlrrLength r) end =
          Done (store packet index (((pre1 ++ b1) ++ dlrr_bytes (dlrr_block_ r)) ++ b3),
                pos + 4 + RrtrLength r + DlrrLength r + TargetBitrateLength r)) as ->.
  { unfold b3, TargetBitrateLength in *. destruct (target_bitrate_ r) as [l|]; cbn [from_option] in *.
    - destruct (Ht l eq_refl) as [_ Hn]. rewrite TargetBitrate_Create_bytes by (rewrite ?target_length, ?zlen_app; lia). done.
    - by rewrite app_nil_r, Z.add_0_r. }
  cbn [mbind outcome_bind]. unfold ExtendedReports_BlockLength, kHeaderLength, kXrBaseLength.
  match goal with |- context [?a =? ?b] => destruct (Z.eqb_spec a b); [|lia] end. cbn [negb].
  unfold pre1, xr_bytes. fold b1 b3. rewrite <- !app_assoc. do 2 f_equal. lia.
Qed.

Lemma ExtendedReports_Parse_bytes r v0 h : valid_xr r → header_payload h = xr_bytes r → payload_size h = zlen (xr_bytes r) →
  ExtendedReports_Parse v0 h = Done (r, true).
Proof.
  intros (H1 & H2 & H3 & H4 & H5) Hb Hs. unfold ExtendedReports_Parse. rewrite Hb, Hs. pose proof (xr_bytes_length r) as L.
  assert (zlen (xr_bytes r) = 4 + zlen (from_option rrtr_bytes [] (rrtr_block_ r)) + zlen (dlrr_bytes (dlrr_block_ r)) +
          zlen (from_option target_bytes [] (target_bitrate_ r))) as L' by (unfold xr_bytes; flen).
  unfold kXrBaseLength. destruct (Z.ltb_spec (zlen (xr_bytes r)) 4); [lia|].
  assert (get_uint 4 4 (xr_bytes r) 0 = Done (xr_sender_ssrc r)) as -> by (unfold xr_bytes; by read_one).
  cbn [mbind outcome_bind]. set (fuel := S (length (xr_bytes r))). assert (5 ≤ fuel)%nat as Hf by lia. clearbody fuel.
  set (a := be 4 (xr_sender_ssrc r)). assert (zlen a = 4) as La by (unfold a; flen).
  set (b1 := from_option rrtr_bytes [] (rrtr_block_ r)) in *. set (b2 := dlrr_bytes (dlrr_block_ r)) in *.
  set (b3 := from_option target_bytes [] (target_bitrate_ r)) in *.
  destruct (xr_rrtr a (b2 ++ b3) fuel (MkXr (xr_sender_ssrc r) None [] None) (rrtr_block_ r)) as (f1 & Hf1 & E1); [lia|done|done|].
  destruct (xr_dlrr (a ++ b1) b3 f1 (MkXr (xr_sender_ssrc r) (rrtr_block_ r) [] None) (dlrr_block_ r)) as (f2 & Hf2 & E2);
    [lia|done..|].
  destruct (xr_target ((a ++ b1) ++ b2) [] f2 (MkXr (xr_sender_ssrc r) (rrtr_block_ r) (dlrr_block_ r) None) (target_bitrate_ r))
    as (f3 & Hf3 & E3); [lia|done|done|].
  fold b1 b2 b3 in E1, E2, E3. cbn [xr_sender_ssrc rrtr_block_ dlrr_block_ target_bitrate_] in E1, E2, E3.
  rewrite app_nil_r in E3. rewrite <- !app_assoc in E2. rewrite <- !app_assoc in E3. unfold xr_bytes. fold a b1 b2 b3. rewrite <- La at 1.
  rewrite E1, E2, E3. destruct f3 as [|f3]; [lia|]. cbn [parse_xr_blocks].
  match goal with |- context [?x <=? ?y] => destruct (Z.leb_spec x y) end; [unfold kBlockHeaderSizeBytes in *; lia|]. by destruct r.
Qed.

#[export] Instance ExtendedReports_lawful : LawfulPacket ExtendedReportsKind valid_xr.
Proof.
  apply (lawful_intro _ _ xr_bytes); [by vm_compute| | | |]; cbn [pk_count pk_length pk_write pk_parse ExtendedReportsKind].
  - intros r Hv. destruct (xr_lengths r Hv) as (w & Hw & E). rewrite xr_bytes_length.
    unfold ExtendedReports_BlockLength, kHeaderLength, kXrBaseLength. split; [done|]. split; [apply xr_bytes_uint8|].
    split; [lia|]. split; [lia|]. replace (_ + _) with ((2 + w) * 4) by lia. apply Z_mod_mult.
  - intros r Hv packet index pre pos. by apply ExtendedReports_Write_bytes.
  - intros r v0 h Hv Hb Hs _. by apply ExtendedReports_Parse_bytes.
  - intros v0 h Hu L Hc. unfold ExtendedReports_Parse, kXrBaseLength.
    destruct (Z.ltb_spec (payload_size h) 4); [by eauto|]. rewrite get_uint_done by lia. cbn [mbind outcome_bind].
    apply parse_xr_blocks_done; [done|lia..].
Qed.
