(* ===== verification/RtcpCompound.v ===== *)
(** Compound RTCP packets: what [CompoundPacket] and [RtcpPacket::Build] of
    modules/rtp_rtcp/source hand over for packets of any lawful class, and what a receiver gets
    out of it; that the classes are lawful. *)
From S2P Require Import Prelude ByteIo RtpExtensionMap RtpPacket RtpWire RtpHeaderExtensions Rtcp RtcpFields RtcpKinds.
From S2P Require Import RtcpReports RtcpFeedback RtcpXr.

(** * Specification *)

(** The packets are sent in groups; a group is closed by the first packet that would make it
    longer than [max_length].  The closed groups, and the last one. *)
Fixpoint group_packets (max_length : Z) (group : list AnyPacket) (packets : list AnyPacket)
  : list (list AnyPacket) * list AnyPacket :=
  match packets with
  | [] => ([], group)
  | a :: packets =>
      if max_length <? CompoundBlockLength group + packet_length a then
        let '(groups, last) := group_packets max_length [a] packets in (group :: groups, last)
      else group_packets max_length (group ++ [a]) packets
  end.

Definition compound_groups (max_length : Z) (packets : list AnyPacket) : list (list AnyPacket) :=
  let '(groups, last) := group_packets max_length [] packets in groups ++ match last with [] => [] | _ => [last] end.

(** What is handed over for a group. *)
Definition sent_as (max_length : Z) (chunk : list Z) (group : list AnyPacket) : Prop :=
  group ≠ [] ∧ zlen chunk = CompoundBlockLength group ∧ zlen chunk ≤ max_length ∧ received chunk group.

(** * Groups *)

Lemma group_packets_concat max_length packets : ∀ group,
  let '(groups, last) := group_packets max_length group packets in concat groups ++ last = group ++ packets.
Proof.
  induction packets as [|a packets IH]; intros group; cbn [group_packets]; [by rewrite app_nil_r|].
  destruct (_ <? _).
  - specialize (IH [a]). destruct (group_packets _ _ _) as [groups last]. cbn [concat]. by rewrite <- app_assoc, IH.
  - specialize (IH (group ++ [a])). destruct (group_packets _ _ _) as [groups last]. by rewrite IH, <- app_assoc.
Qed.

Lemma compound_groups_concat max_length packets : concat (compound_groups max_length packets) = packets.
Proof.
  unfold compound_groups. pose proof (group_packets_concat max_length packets []) as H.
  destruct (group_packets _ _ _) as [groups last]. rewrite concat_app. destruct last as [|a last]; cbn [concat] in *.
  - by rewrite app_nil_r in *.
  - by rewrite app_nil_r.
Qed.

Lemma group_packets_last max_length packets : ∀ group, group ++ packets ≠ [] → (group_packets max_length group packets).2 ≠ [].
Proof.
  induction packets as [|a packets IH]; intros group H; cbn [group_packets]; [by rewrite app_nil_r in H|]. destruct (_ <? _).
  - specialize (IH [a] ltac:(done)). by destruct (group_packets _ _ _).
  - apply IH. by destruct group.
Qed.

Lemma group_packets_app max_length p1 p2 : ∀ group, let '(g1, l1) := group_packets max_length group p1 in
  group_packets max_length group (p1 ++ p2) = let '(g2, l2) := group_packets max_length l1 p2 in (g1 ++ g2, l2).
Proof.
  induction p1 as [|a p1 IH]; intros group; cbn [group_packets app]; [by destruct (group_packets _ _ p2)|].
  destruct (_ <? _); [specialize (IH [a])|specialize (IH (group ++ [a]))];
    destruct (group_packets _ _ p1) as [g1 l1]; rewrite IH; destruct (group_packets _ l1 p2); done.
Qed.

(** The bytes of several packets. *)
Definition encodes_all (packets : list AnyPacket) (bytes : list Z) : Prop :=
  ∃ bss, Forall2 encodes packets bss ∧ bytes = concat bss.

Lemma encodes_all_snoc packets bytes a bs : encodes_all packets bytes → encodes a bs → encodes_all (packets ++ [a]) (bytes ++ bs).
Proof.
  intros (bss & H & ->) Ha. exists (bss ++ [bs]). split; [by apply Forall2_app, Forall2_cons_2, Forall2_nil_2|].
  rewrite concat_app. cbn [concat]. by rewrite app_nil_r.
Qed.

Lemma encodes_all_nil : encodes_all [] [].
Proof. exists []. by split; [constructor|]. Qed.

Lemma encodes_all_one a bs : encodes a bs → encodes_all [a] bs.
Proof. intros H. by apply (encodes_all_snoc [] [] a bs encodes_all_nil). Qed.

Lemma encodes_all_length packets bytes : encodes_all packets bytes →
  zlen bytes = CompoundBlockLength packets ∧ (packets ≠ [] → 0 < zlen bytes).
Proof.
  intros (bss & H & ->). unfold CompoundBlockLength. induction H as [|a bs packets bss Ha H IH]; [done|]. cbn [concat foldr].
  destruct (encodes_length _ _ Ha) as [E E4], IH as [IH _]. rewrite zlen_app, IH. split; [lia|]. intros _.
  rewrite <- IH. lia.
Qed.

Lemma encodes_all_received packets bytes : encodes_all packets bytes → received bytes packets.
Proof.
  intros (bss & H & ->). induction H as [|a bs packets bss Ha H IH]; [done|]. cbn [concat]. by apply received_app.
Qed.

Lemma encodes_all_sent max_length group chunk : encodes_all group chunk → group ≠ [] → zlen chunk ≤ max_length →
  sent_as max_length chunk group.
Proof. intros H Hg Hl. destruct (encodes_all_length _ _ H) as [E _]. split; [done|]. split; [done|]. split; [done|]. by apply encodes_all_received. Qed.

(** * Creation *)

Lemma take_store (base bytes : list Z) : zlen bytes ≤ zlen base → take (Z.to_nat (zlen bytes)) (store base 0 bytes) = bytes.
Proof. intros H. unfold store. change (Z.to_nat 0) with 0%nat. rewrite take_0, app_nil_l, Nat2Z.id. apply take_app_length. Qed.

Lemma store_store_front (base bytes bs : list Z) : zlen bytes + zlen bs ≤ zlen base →
  store (store base 0 bytes) (zlen bytes) bs = store base 0 (bytes ++ bs).
Proof. intros H. pose proof (store_app base bytes bs 0) as E. rewrite Z.add_0_l in E. by apply E; lia. Qed.

(** The loop hands over the closed groups; the last one is in the buffer. *)
Lemma CompoundCreate_groups max_length packets : Forall lawful_any packets → Forall (λ a, packet_length a ≤ max_length) packets →
  ∀ group bytes base ready, encodes_all group bytes → zlen bytes ≤ max_length ≤ zlen base →
  let '(groups, last) := group_packets max_length group packets in
  ∃ chunks bytes' base', Forall2 (sent_as max_length) chunks groups ∧ encodes_all last bytes' ∧
    zlen bytes' ≤ max_length ∧ zlen base' = zlen base ∧
    CompoundCreate packets (store base 0 bytes) (zlen bytes) max_length ready =
      Done (store base' 0 bytes', zlen bytes', ready ++ chunks, true).
Proof.
  induction packets as [|[V E v] packets IH]; intros Hlaw Hmax group bytes base ready He Hl; cbn [group_packets CompoundCreate].
  { exists [], bytes, base. rewrite app_nil_r. split_and!; [by constructor|done|lia|done|done]. }
  apply Forall_cons_1 in Hlaw as [Ha Hlaw]. apply Forall_cons_1 in Hmax as [Hm Hmax].
  destruct (lawful_encodes _ Ha) as (bs & Hbs). destruct (encodes_length _ _ Hbs) as [El E4].
  destruct (encodes_all_length _ _ He) as [Eg Hpos]. rewrite <- Eg, <- El. rewrite <- El in Hm.
  assert (zlen (store base 0 bytes) = zlen base) as Lb by (by rewrite store_length by lia).
  destruct (Z.ltb_spec max_length (zlen bytes + zlen bs)) as [Hlt|Hge].
  - assert (group ≠ []) as Hg by (intros ->; destruct He as (bss & H & ->); inversion H; subst; cbn [concat length] in *; lia).
    specialize (IH Hlaw Hmax [Any E v] bs (store base 0 bytes) (ready ++ [bytes]) (encodes_all_one _ _ Hbs) ltac:(lia)).
    destruct (group_packets _ _ _) as [groups last]. destruct IH as (chunks & bytes' & base' & H1 & H2 & H3 & H4 & H5).
    exists (bytes :: chunks), bytes', base'. split; [by apply Forall2_cons_2; [apply encodes_all_sent; [done..|lia]|]|]. split; [done|].
    split; [done|]. split; [lia|]. specialize (Hpos Hg).
    rewrite (PacketCreate_flush E v bs Hbs) by lia. rewrite take_store by lia. cbn [mbind outcome_bind negb].
    rewrite H5, <- app_assoc. done.
  - specialize (IH Hlaw Hmax (group ++ [Any E v]) (bytes ++ bs) base ready (encodes_all_snoc _ _ _ _ He Hbs) ltac:(rewrite zlen_app; lia)).
    destruct (group_packets _ _ _) as [groups last]. destruct IH as (chunks & bytes' & base' & H1 & H2 & H3 & H4 & H5).
    exists chunks, bytes', base'. split; [done|]. split; [done|]. split; [done|]. split; [done|].
    rewrite (PacketCreate_room E v bs Hbs) by lia. cbn [mbind outcome_bind negb].
    rewrite store_store_front by lia. rewrite zlen_app in H5. by rewrite H5.
Qed.

Lemma CompoundCreate_app max_length p1 p2 : ∀ packet index ready packet' index' ready',
  CompoundCreate p1 packet index max_length ready = Done (packet', index', ready', true) →
  CompoundCreate (p1 ++ p2) packet index max_length ready = CompoundCreate p2 packet' index' max_length ready'.
Proof.
  induction p1 as [|[V E v] p1 IH]; intros packet index ready packet' index' ready' H; cbn [CompoundCreate app] in *; [by simplify_eq|].
  destruct (PacketCreate E v packet index max_length ready) as [[[[pk i] rd] ok]| | |]; cbn [mbind outcome_bind] in *; try done.
  destruct ok; cbn [negb] in *; [|done]. by apply IH.
Qed.

(** From an empty buffer. *)
Lemma CompoundCreate_fresh max_length packets buffer : Forall lawful_any packets → Forall (λ a, packet_length a ≤ max_length) packets →
  0 ≤ max_length ≤ zlen buffer → let '(groups, last) := group_packets max_length [] packets in
  ∃ chunks bytes base, Forall2 (sent_as max_length) chunks groups ∧ encodes_all last bytes ∧ zlen bytes ≤ max_length ∧
    zlen base = zlen buffer ∧ CompoundCreate packets buffer 0 max_length [] = Done (store base 0 bytes, zlen bytes, chunks, true).
Proof.
  intros H1 H2 Hl. pose proof (CompoundCreate_groups max_length packets H1 H2 [] [] buffer [] encodes_all_nil) as H. rewrite store_nil in H. cbn [length app] in H. apply H. lia.
Qed.

(** What is handed over, with what is left in the buffer. *)
Lemma flush_groups max_length packets chunks groups last bytes base : group_packets max_length [] packets = (groups, last) →
  Forall2 (sent_as max_length) chunks groups → encodes_all last bytes → zlen bytes ≤ max_length → max_length ≤ zlen base →
  Forall2 (sent_as max_length)
    (if zlen bytes =? 0 then chunks else chunks ++ [take (Z.to_nat (zlen bytes)) (store base 0 bytes)]) (compound_groups max_length packets).
Proof.
  intros Eg H1 H2 Hm Hl. unfold compound_groups. rewrite Eg, take_store by lia. destruct (encodes_all_length _ _ H2) as [_ Hp].
  destruct last as [|a last].
  - destruct H2 as (bss & H & ->). inversion H; subst. by rewrite app_nil_r.
  - specialize (Hp ltac:(done)). destruct (Z.eqb_spec (zlen bytes) 0); [lia|].
    apply Forall2_app; [done|]. apply Forall2_cons_2; [|constructor]. by apply encodes_all_sent.
Qed.

(** All packets in a buffer of their length. *)
Lemma packet_length_pos packets : Forall lawful_any packets → 0 ≤ CompoundBlockLength packets ∧
  Forall (λ a, packet_length a ≤ CompoundBlockLength packets) packets.
Proof.
  intros H. induction H as [|a packets Ha H IH]; [by split; [|constructor]|]. unfold CompoundBlockLength in *. cbn [foldr].
  destruct (lawful_encodes _ Ha) as (bs & Hbs), (encodes_length _ _ Hbs) as [El E4], IH as [IH1 IH2].
  split; [lia|]. apply Forall_cons_2; [lia|]. eapply list.Forall_impl; [exact IH2|]. cbn beta. lia.
Qed.

Lemma CompoundBlockLength_snoc packets a : CompoundBlockLength (packets ++ [a]) = CompoundBlockLength packets + packet_length a.
Proof. unfold CompoundBlockLength. induction packets as [|b packets IH]; cbn [foldr app] in *; lia. Qed.

Lemma group_packets_whole max_length packets : ∀ group, Forall lawful_any packets →
  CompoundBlockLength group + CompoundBlockLength packets ≤ max_length → group_packets max_length group packets = ([], group ++ packets).
Proof.
  induction packets as [|a packets IH]; intros group Hlaw Hl; cbn [group_packets]; [by rewrite app_nil_r|].
  apply Forall_cons_1 in Hlaw as [_ Hlaw]. destruct (packet_length_pos packets Hlaw) as [Hp _].
  change (CompoundBlockLength (a :: packets)) with (packet_length a + CompoundBlockLength packets) in Hl.
  destruct (Z.ltb_spec max_length (CompoundBlockLength group + packet_length a)); [lia|].
  rewrite IH; [by rewrite <- app_assoc|done|]. rewrite CompoundBlockLength_snoc. lia.
Qed.

Lemma CompoundCreate_whole packets buffer : Forall lawful_any packets → zlen buffer = CompoundBlockLength packets →
  ∃ bytes, encodes_all packets bytes ∧ ∃ index ready,
    CompoundCreate packets buffer 0 (CompoundBlockLength packets) [] = Done (bytes, index, ready, true).
Proof.
  intros Hlaw Hb. destruct (packet_length_pos packets Hlaw) as [Hp Hmax].
  pose proof (CompoundCreate_fresh _ packets buffer Hlaw Hmax ltac:(lia)) as H. rewrite group_packets_whole in H by (done || (cbn; lia)).
  destruct H as (chunks & bytes & base & _ & H2 & H3 & H4 & H5). exists bytes. split; [done|]. exists (zlen bytes), chunks.
  rewrite H5. destruct (encodes_all_length _ _ H2) as [E _]. cbn [app] in E.
  assert (store base 0 bytes = bytes) as ->; [|done]. rewrite <- (take_store base bytes) at 2 by lia. symmetry. apply take_ge.
  rewrite store_length by lia. lia.
Qed.

(** * Claims *)

(** C10: Every class of packets keeps its promise: what it writes for valid contents has the
    announced length in whole words, fits the fields of the common header and is parsed back to
    the same contents, whatever the parser held before; and any payload is parsed without an
    access outside of it. *)
Theorem rtcp_packets_lawful :
  LawfulPacket SenderReportKind valid_sr ∧ LawfulPacket ReceiverReportKind valid_rr ∧ LawfulPacket SdesKind valid_sdes ∧
  LawfulPacket ByeKind valid_bye ∧ LawfulPacket AppKind valid_app ∧ LawfulPacket PliKind valid_ssrcs ∧
  LawfulPacket RapidResyncRequestKind valid_ssrcs ∧ LawfulPacket FirKind valid_fir ∧ LawfulPacket RembKind valid_remb ∧
  LawfulPacket TmmbrKind (λ t, valid_tmmb t ∧ 1 ≤ zlen (items_ t)) ∧ LawfulPacket TmmbnKind valid_tmmb ∧
  LawfulPacket LossNotificationKind valid_loss ∧ LawfulPacket ExtendedReportsKind valid_xr.
Proof. split_and!; apply _. Qed.

(** C9: Packets of lawful classes that fit into [max_length] are all sent, in their order: each
    buffer that is handed over has a group of packets that a receiver gets out of it again, a
    group is closed only by a packet that no longer fits, and no buffer is longer than
    [max_length].  Built into one buffer, the packets are received from it as well. *)
Theorem rtcp_compound_roundtrip packets buffer max_length mem : Forall lawful_any packets →
  Forall (λ a, packet_length a ≤ max_length) packets → zlen buffer = IP_PACKET_SIZE → 0 ≤ max_length ≤ IP_PACKET_SIZE →
  packets ≠ [] →
  (∃ chunks, CompoundBuild packets buffer max_length = Done (chunks, true) ∧
     Forall2 (sent_as max_length) chunks (compound_groups max_length packets) ∧
     concat (compound_groups max_length packets) = packets) ∧
  (∃ bytes, CompoundBuildWhole mem packets = Done bytes ∧ sent_as (CompoundBlockLength packets) bytes packets).
Proof.
  intros Hlaw Hmax Hb Hm Hne. split.
  - pose proof (CompoundCreate_fresh max_length packets buffer Hlaw Hmax ltac:(lia)) as H.
    pose proof (group_packets_last max_length packets [] Hne) as Hlast.
    destruct (group_packets max_length [] packets) as [groups last] eqn:Eg. cbn [snd] in Hlast.
    destruct H as (chunks & bytes & base & H1 & H2 & H3 & H4 & H5). destruct (encodes_all_length _ _ H2) as [_ Hp]. specialize (Hp Hlast).
    pose proof (flush_groups _ _ _ _ _ _ base Eg H1 H2 H3 ltac:(lia)) as Hf.
    unfold CompoundBuild. destruct (Z.leb_spec max_length IP_PACKET_SIZE); [|lia]. cbn [negb]. rewrite H5. cbn [mbind outcome_bind negb].
    unfold OnBufferFull. destruct (Z.eqb_spec (zlen bytes) 0); [lia|]. eexists. split; [done|]. split; [done|].
    apply compound_groups_concat.
  - set (size := CompoundBlockLength packets).
    pose proof (CompoundCreate_whole packets (extend mem [] size) Hlaw) as H. fold size in H.
    destruct H as (bytes & H1 & index & ready & H2); [unfold extend; cbn [app]; rewrite length_map, length_seqZ; cbn [length]; destruct (packet_length_pos packets Hlaw); lia|].
    unfold CompoundBuildWhole. fold size. rewrite H2. exists bytes. split; [done|].
    destruct (encodes_all_length _ _ H1) as [E _]. apply encodes_all_sent; [done..|]. fold size in E. lia.
Qed.

(** C19: A packet that is longer than [max_length] makes the build fail: the packets in front of
    it have been handed over all the same, grouped as if they were alone, and nothing of the
    packet or of what follows it is sent. *)
Theorem rtcp_compound_too_big before a after buffer max_length : Forall lawful_any (before ++ [a]) →
  Forall (λ p, packet_length p ≤ max_length) before → max_length < packet_length a →
  zlen buffer = IP_PACKET_SIZE → 0 ≤ max_length ≤ IP_PACKET_SIZE →
  ∃ chunks, CompoundBuild (before ++ a :: after) buffer max_length = Done (chunks, false) ∧
    Forall2 (sent_as max_length) chunks (compound_groups max_length before).
Proof.
  intros Hlaw Hmax Hbig Hb Hm. apply Forall_app in Hlaw as [Hlaw Ha]. apply Forall_cons_1 in Ha as [Ha _].
  pose proof (CompoundCreate_fresh max_length before buffer Hlaw Hmax ltac:(lia)) as H.
  destruct (group_packets max_length [] before) as [groups last] eqn:Eg.
  destruct H as (chunks & bytes & base & H1 & H2 & H3 & H4 & H5).
  pose proof (flush_groups _ _ _ _ _ _ base Eg H1 H2 H3 ltac:(lia)) as Hf.
  unfold CompoundBuild. destruct (Z.leb_spec max_length IP_PACKET_SIZE); [|lia]. cbn [negb].
  rewrite (CompoundCreate_app _ _ _ _ _ _ _ _ _ H5). destruct a as [V E v]. cbn [CompoundCreate].
  destruct (lawful_encodes _ Ha) as (bs & Hbs), (encodes_length _ _ Hbs) as [El _].
  rewrite (PacketCreate_too_big E v bs Hbs) by lia. cbn [mbind outcome_bind negb]. by eexists.
Qed.

(** ** Instances *)

Definition example_sr : SenderReport := MkSr 0x11111111 0x123456789abcdef0 0x77 100 20000 [MkBlock 1 2 (-3) 4 5 6 7].
Definition example_sdes : Sdes := (AddCName NewSdes 0x11111111 [97; 98; 64; 99]).1.
Definition example_remb : Remb := MkRemb (MkSsrcs 0x11111111 0) (0x2ffff * 2 ^ 5) [7; 8].
Definition example_fir : Fir := MkFir (MkSsrcs 0x11111111 0) [MkRequest 7 1].

Definition example_packets : list AnyPacket :=
  [Any SenderReportKind example_sr; Any SdesKind example_sdes; Any RembKind example_remb].

Lemma example_lawful : Forall lawful_any example_packets.
Proof.
  repeat apply Forall_cons_2; [| | |constructor].
  - exists valid_sr. split; [apply _|]. unfold valid_sr. split_and!; try done; [].
    apply Forall_singleton. by split.
  - exists valid_sdes. split; [apply _|]. apply AddCName_valid; [| |repeat constructor; done|done]; [|done].
    by split; [constructor|].
  - exists valid_remb. split; [apply _|]. unfold valid_remb. split_and!; try done; [by exists 0x2ffff, 5|repeat constructor; done].
Qed.

(** Two groups of the three packets. *)
Lemma rtcp_compound_roundtrip_witness :
  compound_groups 70 example_packets = [[Any SenderReportKind example_sr; Any SdesKind example_sdes]; [Any RembKind example_remb]] ∧
  ∃ chunks, CompoundBuild example_packets (replicate 1500 0) 70 = Done (chunks, true) ∧
    Forall2 (sent_as 70) chunks (compound_groups 70 example_packets).
Proof.
  split; [reflexivity|].
  destruct (rtcp_compound_roundtrip example_packets (replicate 1500 0) 70 (λ _, 0) example_lawful) as [(chunks & H1 & H2 & _) _].
  - repeat apply Forall_cons_2; [vm_compute; done..|constructor].
  - reflexivity.
  - split; vm_compute; discriminate.
  - discriminate.
  - exists chunks. exact (conj H1 H2).
Defined.

(** The report does not fit. *)
Lemma rtcp_compound_too_big_witness :
  ∃ chunks, CompoundBuild [Any SdesKind example_sdes; Any RembKind example_remb; Any SenderReportKind example_sr; Any FirKind example_fir]
      (replicate 1500 0) 40 = Done (chunks, false) ∧
    Forall2 (sent_as 40) chunks [[Any SdesKind example_sdes]; [Any RembKind example_remb]].
Proof.
  apply (rtcp_compound_too_big [Any SdesKind example_sdes; Any RembKind example_remb] (Any SenderReportKind example_sr)
           [Any FirKind example_fir] (replicate 1500 0) 40).
  - pose proof example_lawful as H. inversion_clear H as [|? ? H1 H']. inversion_clear H' as [|? ? H2 H'']. inversion_clear H'' as [|? ? H3 _].
    exact (Forall_cons_2 _ _ _ H2 (Forall_cons_2 _ _ _ H3 (Forall_cons_2 _ _ _ H1 (Forall_nil_2 _)))).
  - repeat apply Forall_cons_2; [vm_compute; discriminate..|constructor].
  - reflexivity.
  - reflexivity.
  - split; vm_compute; discriminate.
Defined.
