(* ===== verification/FecTables.v ===== *)
(** The packet masks of forward error correction: fec_private_tables_random.cc and
    fec_private_tables_bursty.cc of modules/rtp_rtcp/source.

    A mask for [m] media packets and [f] FEC packets is [f] rows of two bytes; bit [j] of row
    [i], from the left, says that FEC packet [i] protects media packet [j].  A table is its
    number of entries followed by the entries; the entry for [m] media packets is the number
    [m] followed by the masks for one to [m] FEC packets. *)
From S2P Require Import Prelude.

(** * fec_private_tables_random.cc *)

Definition kMaskRandom1_1 : list Z :=
  [0x80; 0x00].
Definition kMaskRandom2_1 : list Z :=
  [0xc0; 0x00].
Definition kMaskRandom2_2 : list Z :=
  [0xc0; 0x00; 0x80; 0x00].
Definition kMaskRandom3_1 : list Z :=
  [0xe0; 0x00].
Definition kMaskRandom3_2 : list Z :=
  [0xc0; 0x00; 0xa0; 0x00].
Definition kMaskRandom3_3 : list Z :=
  [0xc0; 0x00; 0xa0; 0x00; 0x60; 0x00].
Definition kMaskRandom4_1 : list Z :=
  [0xf0; 0x00].
Definition kMaskRandom4_2 : list Z :=
  [0xc0; 0x00; 0xb0; 0x00].
Definition kMaskRandom4_3 : list Z :=
  [0xc0; 0x00; 0xb0; 0x00; 0x60; 0x00].
Definition kMaskRandom4_4 : list Z :=
  [0xc0; 0x00; 0xa0; 0x00; 0x30; 0x00; 0x50; 0x00].
Definition kMaskRandom5_1 : list Z :=
  [0xf8; 0x00].
Definition kMaskRandom5_2 : list Z :=
  [0xa8; 0x00; 0xd0; 0x00].
Definition kMaskRandom5_3 : list Z :=
  [0xb0; 0x00; 0xc8; 0x00; 0x50; 0x00].
Definition kMaskRandom5_4 : list Z :=
  [0xc8; 0x00; 0xb0; 0x00; 0x50; 0x00; 0x28; 0x00].
Definition kMaskRandom5_5 : list Z :=
  [0xc0; 0x00; 0x30; 0x00; 0x18; 0x00; 0xa0; 0x00;
   0x48; 0x00].
Definition kMaskRandom6_1 : list Z :=
  [0xfc; 0x00].
Definition kMaskRandom6_2 : list Z :=
  [0xa8; 0x00; 0xd4; 0x00].
Definition kMaskRandom6_3 : list Z :=
  [0xd0; 0x00; 0x68; 0x00; 0xa4; 0x00].
Definition kMaskRandom6_4 : list Z :=
  [0xa8; 0x00; 0x58; 0x00; 0x64; 0x00; 0x94; 0x00].
Definition kMaskRandom6_5 : list Z :=
  [0xa8; 0x00; 0x84; 0x00; 0x64; 0x00; 0x90; 0x00;
   0x58; 0x00].
Definition kMaskRandom6_6 : list Z :=
  [0x98; 0x00; 0x64; 0x00; 0x50; 0x00; 0x14; 0x00;
   0xa8; 0x00; 0xe0; 0x00].
Definition kMaskRandom7_1 : list Z :=
  [0xfe; 0x00].
Definition kMaskRandom7_2 : list Z :=
  [0xd4; 0x00; 0xaa; 0x00].
Definition kMaskRandom7_3 : list Z :=
  [0xd0; 0x00; 0xaa; 0x00; 0x64; 0x00].
Definition kMaskRandom7_4 : list Z :=
  [0xd0; 0x00; 0xaa; 0x00; 0x64; 0x00; 0x1c; 0x00].
Definition kMaskRandom7_5 : list Z :=
  [0x0c; 0x00; 0xb0; 0x00; 0x1a; 0x00; 0xc4; 0x00;
   0x62; 0x00].
Definition kMaskRandom7_6 : list Z :=
  [0x8c; 0x00; 0x4a; 0x00; 0x64; 0x00; 0xd0; 0x00;
   0xa0; 0x00; 0x32; 0x00].
Definition kMaskRandom7_7 : list Z :=
  [0x4a; 0x00; 0x94; 0x00; 0x1a; 0x00; 0xc4; 0x00;
   0x28; 0x00; 0xc2; 0x00; 0x34; 0x00].
Definition kMaskRandom8_1 : list Z :=
  [0xff; 0x00].
Definition kMaskRandom8_2 : list Z :=
  [0xaa; 0x00; 0xd5; 0x00].
Definition kMaskRandom8_3 : list Z :=
  [0xc5; 0x00; 0x92; 0x00; 0x6a; 0x00].
Definition kMaskRandom8_4 : list Z :=
  [0x45; 0x00; 0xb4; 0x00; 0x6a; 0x00; 0x89; 0x00].
Definition kMaskRandom8_5 : list Z :=
  [0x8c; 0x00; 0x92; 0x00; 0x2b; 0x00; 0x51; 0x00;
   0x64; 0x00].
Definition kMaskRandom8_6 : list Z :=
  [0xa1; 0x00; 0x52; 0x00; 0x91; 0x00; 0x2a; 0x00;
   0xc4; 0x00; 0x4c; 0x00].
Definition kMaskRandom8_7 : list Z :=
  [0x15; 0x00; 0xc2; 0x00; 0x25; 0x00; 0x62; 0x00;
   0x58; 0x00; 0x8c; 0x00; 0xa3; 0x00].
Definition kMaskRandom8_8 : list Z :=
  [0x25; 0x00; 0x8a; 0x00; 0x91; 0x00; 0x68; 0x00;
   0x32; 0x00; 0x43; 0x00; 0xc4; 0x00; 0x1c; 0x00].
Definition kMaskRandom9_1 : list Z :=
  [0xff; 0x80].
Definition kMaskRandom9_2 : list Z :=
  [0xaa; 0x80; 0xd5; 0x00].
Definition kMaskRandom9_3 : list Z :=
  [0xa5; 0x00; 0xc8; 0x00; 0x52; 0x80].
Definition kMaskRandom9_4 : list Z :=
  [0xa2; 0x00; 0xc9; 0x00; 0x52; 0x80; 0x24; 0x80].
Definition kMaskRandom9_5 : list Z :=
  [0x8c; 0x00; 0x25; 0x00; 0x92; 0x80; 0x41; 0x80;
   0x58; 0x00].
Definition kMaskRandom9_6 : list Z :=
  [0x84; 0x80; 0x27; 0x00; 0x51; 0x80; 0x1a; 0x00;
   0x68; 0x00; 0x89; 0x00].
Definition kMaskRandom9_7 : list Z :=
  [0x8c; 0x00; 0x47; 0x00; 0x81; 0x80; 0x12; 0x80;
   0x58; 0x00; 0x28; 0x80; 0xb4; 0x00].
Definition kMaskRandom9_8 : list Z :=
  [0x2c; 0x00; 0x91; 0x00; 0x40; 0x80; 0x06; 0x80;
   0xc8; 0x00; 0x45; 0x00; 0x30; 0x80; 0xa2; 0x00].
Definition kMaskRandom9_9 : list Z :=
  [0x4c; 0x00; 0x62; 0x00; 0x91; 0x00; 0x42; 0x80;
   0xa4; 0x00; 0x13; 0x00; 0x30; 0x80; 0x88; 0x80;
   0x09; 0x00].
Definition kMaskRandom10_1 : list Z :=
  [0xff; 0xc0].
Definition kMaskRandom10_10 : list Z :=
  [0x4c; 0x00; 0x51; 0x00; 0xa0; 0x40; 0x04; 0xc0;
   0x03; 0x80; 0x86; 0x00; 0x29; 0x00; 0x42; 0x40;
   0x98; 0x00; 0x30; 0x80].
Definition kMaskRandom10_2 : list Z :=
  [0xaa; 0x80; 0xd5; 0x40].
Definition kMaskRandom10_3 : list Z :=
  [0xa4; 0x40; 0xc9; 0x00; 0x52; 0x80].
Definition kMaskRandom10_4 : list Z :=
  [0xca; 0x00; 0x32; 0x80; 0xa1; 0x40; 0x55; 0x00].
Definition kMaskRandom10_5 : list Z :=
  [0xca; 0x00; 0x32; 0x80; 0xa1; 0x40; 0x55; 0x00;
   0x08; 0xc0].
Definition kMaskRandom10_6 : list Z :=
  [0x0e; 0x00; 0x33; 0x00; 0x10; 0xc0; 0x45; 0x40;
   0x88; 0x80; 0xe0; 0x00].
Definition kMaskRandom10_7 : list Z :=
  [0x46; 0x00; 0x33; 0x00; 0x80; 0xc0; 0x0c; 0x40;
   0x28; 0x80; 0x94; 0x00; 0xc1; 0x00].
Definition kMaskRandom10_8 : list Z :=
  [0x2c; 0x00; 0x81; 0x80; 0xa0; 0x40; 0x05; 0x40;
   0x18; 0x80; 0xc2; 0x00; 0x22; 0x80; 0x50; 0x40].
Definition kMaskRandom10_9 : list Z :=
  [0x4c; 0x00; 0x23; 0x00; 0x88; 0xc0; 0x21; 0x40;
   0x52; 0x80; 0x94; 0x00; 0x26; 0x00; 0x48; 0x40;
   0x91; 0x80].
Definition kMaskRandom11_1 : list Z :=
  [0xff; 0xe0].
Definition kMaskRandom11_10 : list Z :=
  [0x64; 0x40; 0x51; 0x40; 0xa9; 0x00; 0x04; 0xc0;
   0xd0; 0x00; 0x82; 0x40; 0x21; 0x20; 0x0c; 0x20;
   0x4a; 0x00; 0x12; 0xa0].
Definition kMaskRandom11_11 : list Z :=
  [0x46; 0x40; 0x33; 0x20; 0x99; 0x00; 0x05; 0x80;
   0x80; 0xa0; 0x84; 0x40; 0x40; 0x60; 0x0a; 0x80;
   0x68; 0x00; 0x10; 0x20; 0x30; 0x40].
Definition kMaskRandom11_2 : list Z :=
  [0xec; 0xc0; 0x9b; 0xa0].
Definition kMaskRandom11_3 : list Z :=
  [0xca; 0xc0; 0xf1; 0x40; 0xb6; 0x20].
Definition kMaskRandom11_4 : list Z :=
  [0xc4; 0xc0; 0x31; 0x60; 0x4b; 0x20; 0x2c; 0xa0].
Definition kMaskRandom11_5 : list Z :=
  [0x86; 0x80; 0x23; 0x20; 0x16; 0x20; 0x4c; 0x20;
   0x41; 0xc0].
Definition kMaskRandom11_6 : list Z :=
  [0x64; 0x40; 0x51; 0x40; 0x0c; 0xa0; 0xa1; 0x20;
   0x12; 0xa0; 0x8a; 0x40].
Definition kMaskRandom11_7 : list Z :=
  [0x46; 0x40; 0x33; 0x20; 0x91; 0x80; 0xa4; 0x20;
   0x50; 0xa0; 0x84; 0xc0; 0x09; 0x60].
Definition kMaskRandom11_8 : list Z :=
  [0x0c; 0x80; 0x80; 0x60; 0xa0; 0x80; 0x05; 0x40;
   0x43; 0x00; 0x1a; 0x00; 0x60; 0x20; 0x14; 0x20].
Definition kMaskRandom11_9 : list Z :=
  [0x46; 0x40; 0x62; 0x60; 0x8c; 0x00; 0x01; 0x60;
   0x07; 0x80; 0xa0; 0x80; 0x18; 0xa0; 0x91; 0x00;
   0x78; 0x00].
Definition kMaskRandom12_1 : list Z :=
  [0xff; 0xf0].
Definition kMaskRandom12_10 : list Z :=
  [0x51; 0x40; 0x45; 0x10; 0x80; 0xd0; 0x24; 0x20;
   0x0a; 0x20; 0x00; 0xe0; 0xb8; 0x00; 0x09; 0x10;
   0x56; 0x00; 0xa2; 0x80].
Definition kMaskRandom12_11 : list Z :=
  [0x53; 0x60; 0x21; 0x30; 0x10; 0x90; 0x00; 0x70;
   0x0c; 0x10; 0x40; 0xc0; 0x6a; 0x00; 0x86; 0x00;
   0x24; 0x80; 0x89; 0x00; 0xc0; 0x20].
Definition kMaskRandom12_12 : list Z :=
  [0x10; 0x60; 0x02; 0x30; 0x40; 0x50; 0x21; 0x80;
   0x81; 0x10; 0x14; 0x80; 0x98; 0x00; 0x08; 0x90;
   0x62; 0x00; 0x24; 0x20; 0x8a; 0x00; 0x84; 0x40].
Definition kMaskRandom12_2 : list Z :=
  [0xec; 0xc0; 0x93; 0xb0].
Definition kMaskRandom12_3 : list Z :=
  [0x9b; 0x80; 0x4f; 0x10; 0x3c; 0x60].
Definition kMaskRandom12_4 : list Z :=
  [0x8b; 0x20; 0x14; 0xb0; 0x22; 0xd0; 0x45; 0x50].
Definition kMaskRandom12_5 : list Z :=
  [0x53; 0x60; 0x64; 0x20; 0x0c; 0xc0; 0x82; 0xa0;
   0x09; 0x30].
Definition kMaskRandom12_6 : list Z :=
  [0x51; 0x40; 0xc5; 0x10; 0x21; 0x80; 0x12; 0x30;
   0x08; 0xe0; 0x2e; 0x00].
Definition kMaskRandom12_7 : list Z :=
  [0x53; 0x60; 0x21; 0x30; 0x90; 0x90; 0x02; 0x50;
   0x06; 0xa0; 0x2c; 0x00; 0x88; 0x60].
Definition kMaskRandom12_8 : list Z :=
  [0x20; 0x60; 0x80; 0x30; 0x42; 0x40; 0x01; 0x90;
   0x14; 0x10; 0x0a; 0x80; 0x38; 0x00; 0xc5; 0x00].
Definition kMaskRandom12_9 : list Z :=
  [0x53; 0x60; 0xe4; 0x20; 0x24; 0x40; 0xa1; 0x10;
   0x18; 0x30; 0x03; 0x90; 0x8a; 0x10; 0x04; 0x90;
   0x00; 0xe0].
Definition kPacketMaskRandom1 : list Z :=
  1 :: kMaskRandom1_1.

Definition kPacketMaskRandom2 : list Z :=
  2 :: kMaskRandom2_1 ++ kMaskRandom2_2.

Definition kPacketMaskRandom3 : list Z :=
  3 :: kMaskRandom3_1 ++ kMaskRandom3_2 ++ kMaskRandom3_3.

Definition kPacketMaskRandom4 : list Z :=
  4 :: kMaskRandom4_1 ++ kMaskRandom4_2 ++ kMaskRandom4_3 ++ kMaskRandom4_4.

Definition kPacketMaskRandom5 : list Z :=
  5 :: kMaskRandom5_1 ++ kMaskRandom5_2 ++ kMaskRandom5_3 ++ kMaskRandom5_4 ++
  kMaskRandom5_5.

Definition kPacketMaskRandom6 : list Z :=
  6 :: kMaskRandom6_1 ++ kMaskRandom6_2 ++ kMaskRandom6_3 ++ kMaskRandom6_4 ++
  kMaskRandom6_5 ++ kMaskRandom6_6.

Definition kPacketMaskRandom7 : list Z :=
  7 :: kMaskRandom7_1 ++ kMaskRandom7_2 ++ kMaskRandom7_3 ++ kMaskRandom7_4 ++
  kMaskRandom7_5 ++ kMaskRandom7_6 ++ kMaskRandom7_7.

Definition kPacketMaskRandom8 : list Z :=
  8 :: kMaskRandom8_1 ++ kMaskRandom8_2 ++ kMaskRandom8_3 ++ kMaskRandom8_4 ++
  kMaskRandom8_5 ++ kMaskRandom8_6 ++ kMaskRandom8_7 ++ kMaskRandom8_8.

Definition kPacketMaskRandom9 : list Z :=
  9 :: kMaskRandom9_1 ++ kMaskRandom9_2 ++ kMaskRandom9_3 ++ kMaskRandom9_4 ++
  kMaskRandom9_5 ++ kMaskRandom9_6 ++ kMaskRandom9_7 ++ kMaskRandom9_8 ++ kMaskRandom9_9.

Definition kPacketMaskRandom10 : list Z :=
  10 :: kMaskRandom10_1 ++ kMaskRandom10_2 ++ kMaskRandom10_3 ++ kMaskRandom10_4 ++
  kMaskRandom10_5 ++ kMaskRandom10_6 ++ kMaskRandom10_7 ++ kMaskRandom10_8 ++
  kMaskRandom10_9 ++ kMaskRandom10_10.

Definition kPacketMaskRandom11 : list Z :=
  11 :: kMaskRandom11_1 ++ kMaskRandom11_2 ++ kMaskRandom11_3 ++ kMaskRandom11_4 ++
  kMaskRandom11_5 ++ kMaskRandom11_6 ++ kMaskRandom11_7 ++ kMaskRandom11_8 ++
  kMaskRandom11_9 ++ kMaskRandom11_10 ++ kMaskRandom11_11.

Definition kPacketMaskRandom12 : list Z :=
  12 :: kMaskRandom12_1 ++ kMaskRandom12_2 ++ kMaskRandom12_3 ++ kMaskRandom12_4 ++
  kMaskRandom12_5 ++ kMaskRandom12_6 ++ kMaskRandom12_7 ++ kMaskRandom12_8 ++
  kMaskRandom12_9 ++ kMaskRandom12_10 ++ kMaskRandom12_11 ++ kMaskRandom12_12.

Definition kPacketMaskRandomTbl : list Z :=
  12 :: kPacketMaskRandom1 ++ kPacketMaskRandom2 ++ kPacketMaskRandom3 ++
  kPacketMaskRandom4 ++ kPacketMaskRandom5 ++ kPacketMaskRandom6 ++ kPacketMaskRandom7 ++
  kPacketMaskRandom8 ++ kPacketMaskRandom9 ++ kPacketMaskRandom10 ++ kPacketMaskRandom11
  ++ kPacketMaskRandom12.

(** * fec_private_tables_bursty.cc *)

Definition kMaskBursty1_1 : list Z :=
  [0x80; 0x00].
Definition kMaskBursty2_1 : list Z :=
  [0xc0; 0x00].
Definition kMaskBursty2_2 : list Z :=
  [0x80; 0x00; 0xc0; 0x00].
Definition kMaskBursty3_1 : list Z :=
  [0xe0; 0x00].
Definition kMaskBursty3_2 : list Z :=
  [0xc0; 0x00; 0xa0; 0x00].
Definition kMaskBursty3_3 : list Z :=
  [0x80; 0x00; 0xc0; 0x00; 0x60; 0x00].
Definition kMaskBursty4_1 : list Z :=
  [0xf0; 0x00].
Definition kMaskBursty4_2 : list Z :=
  [0xa0; 0x00; 0xd0; 0x00].
Definition kMaskBursty4_3 : list Z :=
  [0xc0; 0x00; 0x60; 0x00; 0x90; 0x00].
Definition kMaskBursty4_4 : list Z :=
  [0x80; 0x00; 0xc0; 0x00; 0x60; 0x00; 0x30; 0x00].
Definition kMaskBursty5_1 : list Z :=
  [0xf8; 0x00].
Definition kMaskBursty5_2 : list Z :=
  [0xd0; 0x00; 0xa8; 0x00].
Definition kMaskBursty5_3 : list Z :=
  [0x70; 0x00; 0x90; 0x00; 0xc8; 0x00].
Definition kMaskBursty5_4 : list Z :=
  [0xc0; 0x00; 0x60; 0x00; 0x30; 0x00; 0x88; 0x00].
Definition kMaskBursty5_5 : list Z :=
  [0x80; 0x00; 0xc0; 0x00; 0x60; 0x00; 0x30; 0x00;
   0x18; 0x00].
Definition kMaskBursty6_1 : list Z :=
  [0xfc; 0x00].
Definition kMaskBursty6_2 : list Z :=
  [0xa8; 0x00; 0xd4; 0x00].
Definition kMaskBursty6_3 : list Z :=
  [0x94; 0x00; 0xc8; 0x00; 0x64; 0x00].
Definition kMaskBursty6_4 : list Z :=
  [0x60; 0x00; 0x38; 0x00; 0x88; 0x00; 0xc4; 0x00].
Definition kMaskBursty6_5 : list Z :=
  [0xc0; 0x00; 0x60; 0x00; 0x30; 0x00; 0x18; 0x00;
   0x84; 0x00].
Definition kMaskBursty6_6 : list Z :=
  [0x80; 0x00; 0xc0; 0x00; 0x60; 0x00; 0x30; 0x00;
   0x18; 0x00; 0x0c; 0x00].
Definition kMaskBursty7_1 : list Z :=
  [0xfe; 0x00].
Definition kMaskBursty7_2 : list Z :=
  [0xd4; 0x00; 0xaa; 0x00].
Definition kMaskBursty7_3 : list Z :=
  [0xc8; 0x00; 0x74; 0x00; 0x92; 0x00].
Definition kMaskBursty7_4 : list Z :=
  [0x38; 0x00; 0x8a; 0x00; 0xc4; 0x00; 0x62; 0x00].
Definition kMaskBursty7_5 : list Z :=
  [0x60; 0x00; 0x30; 0x00; 0x1c; 0x00; 0x84; 0x00;
   0xc2; 0x00].
Definition kMaskBursty7_6 : list Z :=
  [0xc0; 0x00; 0x60; 0x00; 0x30; 0x00; 0x18; 0x00;
   0x0c; 0x00; 0x82; 0x00].
Definition kMaskBursty7_7 : list Z :=
  [0x80; 0x00; 0xc0; 0x00; 0x60; 0x00; 0x30; 0x00;
   0x18; 0x00; 0x0c; 0x00; 0x06; 0x00].
Definition kMaskBursty8_1 : list Z :=
  [0xff; 0x00].
Definition kMaskBursty8_2 : list Z :=
  [0xaa; 0x00; 0xd5; 0x00].
Definition kMaskBursty8_3 : list Z :=
  [0x74; 0x00; 0x92; 0x00; 0xc9; 0x00].
Definition kMaskBursty8_4 : list Z :=
  [0x8a; 0x00; 0xc5; 0x00; 0x62; 0x00; 0x31; 0x00].
Definition kMaskBursty8_5 : list Z :=
  [0x30; 0x00; 0x1c; 0x00; 0x85; 0x00; 0xc2; 0x00;
   0x61; 0x00].
Definition kMaskBursty8_6 : list Z :=
  [0x60; 0x00; 0x30; 0x00; 0x18; 0x00; 0x0e; 0x00;
   0x82; 0x00; 0xc1; 0x00].
Definition kMaskBursty8_7 : list Z :=
  [0xc0; 0x00; 0x60; 0x00; 0x30; 0x00; 0x18; 0x00;
   0x0c; 0x00; 0x06; 0x00; 0x81; 0x00].
Definition kMaskBursty8_8 : list Z :=
  [0x80; 0x00; 0xc0; 0x00; 0x60; 0x00; 0x30; 0x00;
   0x18; 0x00; 0x0c; 0x00; 0x06; 0x00; 0x03; 0x00].
Definition kMaskBursty9_1 : list Z :=
  [0xff; 0x80].
Definition kMaskBursty9_2 : list Z :=
  [0xd5; 0x00; 0xaa; 0x80].
Definition kMaskBursty9_3 : list Z :=
  [0x92; 0x00; 0xc9; 0x00; 0x74; 0x80].
Definition kMaskBursty9_4 : list Z :=
  [0xc5; 0x00; 0x62; 0x00; 0x39; 0x00; 0x8a; 0x80].
Definition kMaskBursty9_5 : list Z :=
  [0x1c; 0x00; 0x85; 0x00; 0xc2; 0x80; 0x61; 0x00;
   0x30; 0x80].
Definition kMaskBursty9_6 : list Z :=
  [0x30; 0x00; 0x18; 0x00; 0x0e; 0x00; 0x82; 0x80;
   0xc1; 0x00; 0x60; 0x80].
Definition kMaskBursty9_7 : list Z :=
  [0x60; 0x00; 0x30; 0x00; 0x18; 0x00; 0x0c; 0x00;
   0x07; 0x00; 0x81; 0x00; 0xc0; 0x80].
Definition kMaskBursty9_8 : list Z :=
  [0xc0; 0x00; 0x60; 0x00; 0x30; 0x00; 0x18; 0x00;
   0x0c; 0x00; 0x06; 0x00; 0x03; 0x00; 0x80; 0x80].
Definition kMaskBursty9_9 : list Z :=
  [0x80; 0x00; 0xc0; 0x00; 0x60; 0x00; 0x30; 0x00;
   0x18; 0x00; 0x0c; 0x00; 0x06; 0x00; 0x03; 0x00;
   0x01; 0x80].
Definition kMaskBursty10_1 : list Z :=
  [0xff; 0xc0].
Definition kMaskBursty10_2 : list Z :=
  [0xaa; 0x80; 0xd5; 0x40].
Definition kMaskBursty10_3 : list Z :=
  [0xc9; 0x00; 0x74; 0x80; 0x92; 0x40].
Definition kMaskBursty10_4 : list Z :=
  [0x62; 0x00; 0x39; 0x00; 0x8a; 0x80; 0xc5; 0x40].
Definition kMaskBursty10_5 : list Z :=
  [0x85; 0x00; 0xc2; 0x80; 0x61; 0x40; 0x30; 0x80;
   0x18; 0x40].
Definition kMaskBursty10_6 : list Z :=
  [0x18; 0x00; 0x0e; 0x00; 0x82; 0x80; 0xc1; 0x40;
   0x60; 0x80; 0x30; 0x40].
Definition kMaskBursty10_7 : list Z :=
  [0x30; 0x00; 0x18; 0x00; 0x0c; 0x00; 0x07; 0x00;
   0x81; 0x40; 0xc0; 0x80; 0x60; 0x40].
Definition kMaskBursty10_8 : list Z :=
  [0x60; 0x00; 0x30; 0x00; 0x18; 0x00; 0x0c; 0x00;
   0x06; 0x00; 0x03; 0x00; 0x80; 0x80; 0xc0; 0x40].
Definition kMaskBursty10_9 : list Z :=
  [0xc0; 0x00; 0x60; 0x00; 0x30; 0x00; 0x18; 0x00;
   0x0c; 0x00; 0x06; 0x00; 0x03; 0x00; 0x01; 0x80;
   0x80; 0x40].
Definition kMaskBursty10_10 : list Z :=
  [0x80; 0x00; 0xc0; 0x00; 0x60; 0x00; 0x30; 0x00;
   0x18; 0x00; 0x0c; 0x00; 0x06; 0x00; 0x03; 0x00;
   0x01; 0x80; 0x00; 0xc0].
Definition kMaskBursty11_1 : list Z :=
  [0xff; 0xe0].
Definition kMaskBursty11_2 : list Z :=
  [0xd5; 0x40; 0xaa; 0xa0].
Definition kMaskBursty11_3 : list Z :=
  [0x74; 0x80; 0x92; 0x40; 0xc9; 0x20].
Definition kMaskBursty11_4 : list Z :=
  [0x39; 0x00; 0x8a; 0x80; 0xc5; 0x40; 0x62; 0x20].
Definition kMaskBursty11_5 : list Z :=
  [0xc2; 0xc0; 0x61; 0x00; 0x30; 0xa0; 0x1c; 0x40;
   0x85; 0x20].
Definition kMaskBursty11_6 : list Z :=
  [0x0e; 0x00; 0x82; 0x80; 0xc1; 0x40; 0x60; 0xa0;
   0x30; 0x40; 0x18; 0x20].
Definition kMaskBursty11_7 : list Z :=
  [0x18; 0x00; 0x0c; 0x00; 0x07; 0x00; 0x81; 0x40;
   0xc0; 0xa0; 0x60; 0x40; 0x30; 0x20].
Definition kMaskBursty11_8 : list Z :=
  [0x30; 0x00; 0x18; 0x00; 0x0c; 0x00; 0x06; 0x00;
   0x03; 0x40; 0x80; 0xa0; 0xc0; 0x40; 0x60; 0x20].
Definition kMaskBursty11_9 : list Z :=
  [0x60; 0x00; 0x30; 0x00; 0x18; 0x00; 0x0c; 0x00;
   0x06; 0x00; 0x03; 0x00; 0x01; 0x80; 0x80; 0x40;
   0xc0; 0x20].
Definition kMaskBursty11_10 : list Z :=
  [0xc0; 0x00; 0x60; 0x00; 0x30; 0x00; 0x18; 0x00;
   0x0c; 0x00; 0x06; 0x00; 0x03; 0x00; 0x01; 0x80;
   0x00; 0xc0; 0x80; 0x20].
Definition kMaskBursty11_11 : list Z :=
  [0x80; 0x00; 0xc0; 0x00; 0x60; 0x00; 0x30; 0x00;
   0x18; 0x00; 0x0c; 0x00; 0x06; 0x00; 0x03; 0x00;
   0x01; 0x80; 0x00; 0xc0; 0x00; 0x60].
Definition kMaskBursty12_1 : list Z :=
  [0xff; 0xf0].
Definition kMaskBursty12_2 : list Z :=
  [0xaa; 0xa0; 0xd5; 0x50].
Definition kMaskBursty12_3 : list Z :=
  [0x92; 0x40; 0xc9; 0x20; 0x74; 0x90].
Definition kMaskBursty12_4 : list Z :=
  [0x8a; 0x80; 0xc5; 0x40; 0x62; 0x20; 0x39; 0x10].
Definition kMaskBursty12_5 : list Z :=
  [0x61; 0x00; 0x30; 0xa0; 0x1c; 0x50; 0x85; 0x20;
   0xc2; 0x90].
Definition kMaskBursty12_6 : list Z :=
  [0x82; 0x90; 0xc1; 0x40; 0x60; 0xa0; 0x30; 0x50;
   0x18; 0x20; 0x0c; 0x10].
Definition kMaskBursty12_7 : list Z :=
  [0x0c; 0x00; 0x07; 0x00; 0x81; 0x40; 0xc0; 0xa0;
   0x60; 0x50; 0x30; 0x20; 0x18; 0x10].
Definition kMaskBursty12_8 : list Z :=
  [0x18; 0x00; 0x0c; 0x00; 0x06; 0x00; 0x03; 0x00;
   0x80; 0xa0; 0xc0; 0x50; 0x60; 0x20; 0x30; 0x10].
Definition kMaskBursty12_9 : list Z :=
  [0x30; 0x00; 0x18; 0x00; 0x0c; 0x00; 0x06; 0x00;
   0x03; 0x00; 0x01; 0x80; 0x80; 0x50; 0xc0; 0x20;
   0x60; 0x10].
Definition kMaskBursty12_10 : list Z :=
  [0x60; 0x00; 0x30; 0x00; 0x18; 0x00; 0x0c; 0x00;
   0x06; 0x00; 0x03; 0x00; 0x01; 0x80; 0x00; 0xc0;
   0x80; 0x20; 0xc0; 0x10].
Definition kMaskBursty12_11 : list Z :=
  [0xc0; 0x00; 0x60; 0x00; 0x30; 0x00; 0x18; 0x00;
   0x0c; 0x00; 0x06; 0x00; 0x03; 0x00; 0x01; 0x80;
   0x00; 0xc0; 0x00; 0x60; 0x80; 0x10].
Definition kMaskBursty12_12 : list Z :=
  [0x80; 0x00; 0xc0; 0x00; 0x60; 0x00; 0x30; 0x00;
   0x18; 0x00; 0x0c; 0x00; 0x06; 0x00; 0x03; 0x00;
   0x01; 0x80; 0x00; 0xc0; 0x00; 0x60; 0x00; 0x30].
Definition kPacketMaskBursty1 : list Z :=
  1 :: kMaskBursty1_1.

Definition kPacketMaskBursty2 : list Z :=
  2 :: kMaskBursty2_1 ++ kMaskBursty2_2.

Definition kPacketMaskBursty3 : list Z :=
  3 :: kMaskBursty3_1 ++ kMaskBursty3_2 ++ kMaskBursty3_3.

Definition kPacketMaskBursty4 : list Z :=
  4 :: kMaskBursty4_1 ++ kMaskBursty4_2 ++ kMaskBursty4_3 ++ kMaskBursty4_4.

Definition kPacketMaskBursty5 : list Z :=
  5 :: kMaskBursty5_1 ++ kMaskBursty5_2 ++ kMaskBursty5_3 ++ kMaskBursty5_4 ++
  kMaskBursty5_5.

Definition kPacketMaskBursty6 : list Z :=
  6 :: kMaskBursty6_1 ++ kMaskBursty6_2 ++ kMaskBursty6_3 ++ kMaskBursty6_4 ++
  kMaskBursty6_5 ++ kMaskBursty6_6.

Definition kPacketMaskBursty7 : list Z :=
  7 :: kMaskBursty7_1 ++ kMaskBursty7_2 ++ kMaskBursty7_3 ++ kMaskBursty7_4 ++
  kMaskBursty7_5 ++ kMaskBursty7_6 ++ kMaskBursty7_7.

Definition kPacketMaskBursty8 : list Z :=
  8 :: kMaskBursty8_1 ++ kMaskBursty8_2 ++ kMaskBursty8_3 ++ kMaskBursty8_4 ++
  kMaskBursty8_5 ++ kMaskBursty8_6 ++ kMaskBursty8_7 ++ kMaskBursty8_8.

Definition kPacketMaskBursty9 : list Z :=
  9 :: kMaskBursty9_1 ++ kMaskBursty9_2 ++ kMaskBursty9_3 ++ kMaskBursty9_4 ++
  kMaskBursty9_5 ++ kMaskBursty9_6 ++ kMaskBursty9_7 ++ kMaskBursty9_8 ++ kMaskBursty9_9.

Definition kPacketMaskBursty10 : list Z :=
  10 :: kMaskBursty10_1 ++ kMaskBursty10_2 ++ kMaskBursty10_3 ++ kMaskBursty10_4 ++
  kMaskBursty10_5 ++ kMaskBursty10_6 ++ kMaskBursty10_7 ++ kMaskBursty10_8 ++
  kMaskBursty10_9 ++ kMaskBursty10_10.

Definition kPacketMaskBursty11 : list Z :=
  11 :: kMaskBursty11_1 ++ kMaskBursty11_2 ++ kMaskBursty11_3 ++ kMaskBursty11_4 ++
  kMaskBursty11_5 ++ kMaskBursty11_6 ++ kMaskBursty11_7 ++ kMaskBursty11_8 ++
  kMaskBursty11_9 ++ kMaskBursty11_10 ++ kMaskBursty11_11.

Definition kPacketMaskBursty12 : list Z :=
  12 :: kMaskBursty12_1 ++ kMaskBursty12_2 ++ kMaskBursty12_3 ++ kMaskBursty12_4 ++
  kMaskBursty12_5 ++ kMaskBursty12_6 ++ kMaskBursty12_7 ++ kMaskBursty12_8 ++
  kMaskBursty12_9 ++ kMaskBursty12_10 ++ kMaskBursty12_11 ++ kMaskBursty12_12.

Definition kPacketMaskBurstyTbl : list Z :=
  12 :: kPacketMaskBursty1 ++ kPacketMaskBursty2 ++ kPacketMaskBursty3 ++
  kPacketMaskBursty4 ++ kPacketMaskBursty5 ++ kPacketMaskBursty6 ++ kPacketMaskBursty7 ++
  kPacketMaskBursty8 ++ kPacketMaskBursty9 ++ kPacketMaskBursty10 ++ kPacketMaskBursty11
  ++ kPacketMaskBursty12.
