(* ===== verification/FecMasks.v ===== *)
(** Packet masks of forward error correction: forward_error_correction_internal.cc of
    modules/rtp_rtcp/source.

    A mask is an array of rows, one per FEC packet, of [PacketMaskSize] bytes; column [j] of a
    row is bit [7 - j mod 8] of its byte [j / 8].  A pointer into an array is the array and an
    offset.  The theorem says that the masks generated for any numbers of packets, with equal
    or unequal protection, are usable: every FEC packet protects something, every media packet
    is protected, and no bit stands for a packet that does not exist. *)
From S2P Require Import Prelude FecTables.

(** * Definitions *)

Definition kUlpfecMaxMediaPackets : Z := 48.
Definition kUlpfecPacketMaskSizeLBitClear : Z := 2.
Definition kUlpfecPacketMaskSizeLBitSet : Z := 6.
Definition kFECPacketMaskMaxSize : Z := 288.
Definition kUlpfecMaxPacketMaskSize : Z := kUlpfecPacketMaskSizeLBitSet.

Inductive FecMaskType : Type := kFecMaskRandom | kFecMaskBursty.
Inductive ProtectionMode : Type := kModeNoOverlap | kModeOverlap | kModeBiasFirstPacket.

Definition PacketMaskSize (num_sequence_numbers : Z) : Z :=
  if num_sequence_numbers >? 8 * kUlpfecPacketMaskSizeLBitClear
  then kUlpfecPacketMaskSizeLBitSet else kUlpfecPacketMaskSizeLBitClear.

(** ** Tables *)

(** [entry] is the index of the pointer of the same name. *)
Definition LookUpInFecTable (table : list Z) (media_packet_index fec_index : Z) : list Z :=
  let '(entry, entry_size_increment) :=
    for_up 0 (Z.to_nat media_packet_index) (λ i s,
      let '(entry, entry_size_increment) := s in
      let entry_size_increment := if i =? 16 then 6 else entry_size_increment in
      let count := table.[entry] in
      let entry := entry + 1 in
      (for_up 0 (Z.to_nat count) (λ j e, e + entry_size_increment * (j + 1)) entry,
       entry_size_increment)) (1, 2) in
  let entry_size_increment := if media_packet_index =? 16 then 6 else entry_size_increment in
  let entry := entry + 1 in
  let entry :=
    for_up 0 (Z.to_nat fec_index) (λ i e, e + entry_size_increment * (i + 1)) entry in
  let size := entry_size_increment * (fec_index + 1) in
  slice table entry size.

Record PacketMaskTable : Type := MkMaskTable {
  table_ : list Z; fec_packet_mask_ : list Z;
}.

Definition PickTable (fec_mask_type : FecMaskType) (num_media_packets : Z) : list Z :=
  match fec_mask_type with
  | kFecMaskRandom => kPacketMaskRandomTbl
  | kFecMaskBursty =>
      if num_media_packets <=? kPacketMaskBurstyTbl.[0] then kPacketMaskBurstyTbl
      else kPacketMaskRandomTbl
  end.

(** The array of masks is not initialised by the constructor: its contents are a parameter. *)
Definition NewMaskTable (mem : list Z) (fec_mask_type : FecMaskType) (num_media_packets : Z)
  : PacketMaskTable := MkMaskTable (PickTable fec_mask_type num_media_packets) mem.

(** The byte of an interleaved mask: media packet [x] is protected by row
    [x mod num_fec_packets]. *)
Definition interleaved_byte (num_media_packets num_fec_packets row col : Z) : Z :=
  let bit k v :=
    if ((col * 8 + k) `mod` num_fec_packets =? row) && (col * 8 + k <? num_media_packets)
    then v else 0x00 in
  Z.lor (Z.lor (Z.lor (Z.lor (Z.lor (Z.lor (Z.lor
    (bit 0 0x80) (bit 1 0x40)) (bit 2 0x20)) (bit 3 0x10))
    (bit 4 0x08)) (bit 5 0x04)) (bit 6 0x02)) (bit 7 0x01).

Definition LookUp (t : PacketMaskTable) (num_media_packets num_fec_packets : Z)
  : PacketMaskTable * list Z :=
  if num_media_packets <=? 12 then
    (t, LookUpInFecTable (table_ t) (num_media_packets - 1) (num_fec_packets - 1))
  else
    let mask_length := PacketMaskSize num_media_packets in
    let mask :=
      for_up 0 (Z.to_nat num_fec_packets) (λ row m,
        for_up 0 (Z.to_nat mask_length) (λ col m,
          wr m (row * mask_length + col)
            (interleaved_byte num_media_packets num_fec_packets row col)) m)
        (fec_packet_mask_ t) in
    (MkMaskTable (table_ t) mask, slice mask 0 (num_fec_packets * mask_length)).

(** ** Unequal protection *)

Definition FitSubMask (num_mask_bytes num_sub_mask_bytes num_rows : Z)
    (sub_mask packet_mask : list Z) (p : Z) : list Z :=
  if num_mask_bytes =? num_sub_mask_bytes then
    store packet_mask p (slice sub_mask 0 (num_rows * num_sub_mask_bytes))
  else
    for_up 0 (Z.to_nat num_rows) (λ i m,
      let pkt_mask_idx := i * num_mask_bytes in
      let pkt_mask_idx2 := i * num_sub_mask_bytes in
      for_up 0 (Z.to_nat num_sub_mask_bytes) (λ j m,
        wr m (p + (pkt_mask_idx + j)) (sub_mask.[pkt_mask_idx2 + j])) m) packet_mask.

(** The loop over the bytes of a row runs backwards; [t] counts its turns. *)
Definition ShiftFitSubMask (num_mask_bytes res_mask_bytes num_column_shift end_row : Z)
    (sub_mask packet_mask : list Z) : list Z :=
  let num_bit_shifts := Z.rem num_column_shift 8 in
  let num_byte_shifts := num_column_shift ≫ 3 in
  for_up num_column_shift (Z.to_nat (end_row - num_column_shift)) (λ i m,
    let pkt_mask_idx := i * num_mask_bytes + res_mask_bytes - 1 + num_byte_shifts in
    let pkt_mask_idx2 := (i - num_column_shift) * res_mask_bytes + res_mask_bytes - 1 in
    let m :=
      if num_mask_bytes >? res_mask_bytes then
        wr m (pkt_mask_idx + 1) (u8 (sub_mask.[pkt_mask_idx2] ≪ (8 - num_bit_shifts)))
      else m in
    let m :=
      for_up 0 (Z.to_nat (res_mask_bytes - 1)) (λ t m,
        let shift_right_curr_byte := sub_mask.[pkt_mask_idx2 - t] ≫ num_bit_shifts in
        let shift_left_prev_byte :=
          u8 (sub_mask.[pkt_mask_idx2 - t - 1] ≪ (8 - num_bit_shifts)) in
        wr m (pkt_mask_idx - t) (Z.lor shift_right_curr_byte shift_left_prev_byte)) m in
    wr m (pkt_mask_idx - (res_mask_bytes - 1))
      (sub_mask.[pkt_mask_idx2 - (res_mask_bytes - 1)] ≫ num_bit_shifts)) packet_mask.

Definition RemainingPacketProtection
    (num_media_packets num_fec_remaining num_fec_for_imp_packets num_mask_bytes : Z)
    (mode : ProtectionMode) (packet_mask : list Z) (mask_table : PacketMaskTable)
  : PacketMaskTable * list Z :=
  match mode with
  | kModeNoOverlap =>
      let res_mask_bytes := PacketMaskSize (num_media_packets - num_fec_for_imp_packets) in
      let end_row := num_fec_for_imp_packets + num_fec_remaining in
      let '(mask_table, packet_mask_sub_21) :=
        LookUp mask_table (num_media_packets - num_fec_for_imp_packets) num_fec_remaining in
      (mask_table, ShiftFitSubMask num_mask_bytes res_mask_bytes num_fec_for_imp_packets end_row
                     packet_mask_sub_21 packet_mask)
  | _ =>
      let '(mask_table, packet_mask_sub_22) :=
        LookUp mask_table num_media_packets num_fec_remaining in
      let packet_mask :=
        FitSubMask num_mask_bytes num_mask_bytes num_fec_remaining packet_mask_sub_22
          packet_mask (num_fec_for_imp_packets * num_mask_bytes) in
      (mask_table,
       match mode with
       | kModeBiasFirstPacket =>
           for_up 0 (Z.to_nat num_fec_remaining) (λ i m,
             let pkt_mask_idx := i * num_mask_bytes in
             wr m pkt_mask_idx (Z.lor (m.[pkt_mask_idx]) (1 ≪ 7))) packet_mask
       | _ => packet_mask
       end)
  end.

Definition ImportantPacketProtection
    (num_fec_for_imp_packets num_imp_packets num_mask_bytes : Z)
    (packet_mask : list Z) (mask_table : PacketMaskTable) : PacketMaskTable * list Z :=
  let num_imp_mask_bytes := PacketMaskSize num_imp_packets in
  let '(mask_table, packet_mask_sub_1) :=
    LookUp mask_table num_imp_packets num_fec_for_imp_packets in
  (mask_table, FitSubMask num_mask_bytes num_imp_mask_bytes num_fec_for_imp_packets
                 packet_mask_sub_1 packet_mask 0).

(** Half of a small number of packets is exact in [float]; the conversion truncates. *)
Definition SetProtectionAllocation (num_media_packets num_fec_packets num_imp_packets : Z) : Z :=
  let max_num_fec_for_imp := Z.quot num_fec_packets 2 in
  let num_fec_for_imp_packets :=
    if num_imp_packets <? max_num_fec_for_imp then num_imp_packets else max_num_fec_for_imp in
  if (num_fec_packets =? 1) && (num_media_packets >? 2 * num_imp_packets) then 0
  else num_fec_for_imp_packets.

Definition UnequalProtectionMask
    (num_media_packets num_fec_packets num_imp_packets num_mask_bytes : Z)
    (packet_mask : list Z) (mask_table : PacketMaskTable) : PacketMaskTable * list Z :=
  let mode := kModeOverlap in
  let num_fec_for_imp_packets :=
    SetProtectionAllocation num_media_packets num_fec_packets num_imp_packets in
  let num_fec_remaining := num_fec_packets - num_fec_for_imp_packets in
  let '(mask_table, packet_mask) :=
    if num_fec_for_imp_packets >? 0 then
      ImportantPacketProtection num_fec_for_imp_packets num_imp_packets num_mask_bytes
        packet_mask mask_table
    else (mask_table, packet_mask) in
  if num_fec_remaining >? 0 then
    RemainingPacketProtection num_media_packets num_fec_remaining num_fec_for_imp_packets
      num_mask_bytes mode packet_mask mask_table
  else (mask_table, packet_mask).

Definition GeneratePacketMasks (num_media_packets num_fec_packets num_imp_packets : Z)
    (use_unequal_protection : bool) (mask_table : PacketMaskTable) (packet_mask : list Z)
  : PacketMaskTable * list Z :=
  let num_mask_bytes := PacketMaskSize num_media_packets in
  if negb use_unequal_protection || (num_imp_packets =? 0) then
    let '(mask_table, mask) := LookUp mask_table num_media_packets num_fec_packets in
    (mask_table, store packet_mask 0 mask)
  else
    UnequalProtectionMask num_media_packets num_fec_packets num_imp_packets num_mask_bytes
      packet_mask mask_table.

(** [memset(p, 0, n)] *)
Definition zero_first (mask : list Z) (n : Z) : list Z := store mask 0 (replicate (Z.to_nat n) 0).

(** ** Columns *)

Definition InsertZeroColumns (num_zeros : Z) (new_mask : list Z)
    (new_mask_bytes num_fec_packets new_bit_index : Z) : list Z :=
  for_up 0 (Z.to_nat num_fec_packets) (λ row m,
    let new_byte_index := row * new_mask_bytes + new_bit_index `div` 8 in
    let max_shifts := 7 - new_bit_index `mod` 8 in
    wr m new_byte_index (u8 (m.[new_byte_index] ≪ Z.min num_zeros max_shifts))) new_mask.

(** The new and the old mask.  That [new_bit_index] is inside the row of the new mask
    (RTC_CHECK_LT) is a hypothesis of the lemmas that follow the columns, and is discharged for
    the calls of the encoder. *)
Definition CopyColumn (new_mask : list Z) (new_mask_bytes : Z) (old_mask : list Z)
    (old_mask_bytes num_fec_packets new_bit_index old_bit_index : Z) : list Z * list Z :=
  for_up 0 (Z.to_nat num_fec_packets) (λ row s,
    let '(new_mask, old_mask) := s in
    let new_byte_index := row * new_mask_bytes + new_bit_index `div` 8 in
    let old_byte_index := row * old_mask_bytes + old_bit_index `div` 8 in
    let new_mask := wr new_mask new_byte_index
      (Z.lor (new_mask.[new_byte_index]) (Z.land (old_mask.[old_byte_index]) 0x80 ≫ 7)) in
    let new_mask :=
      if negb (new_bit_index `mod` 8 =? 7)
      then wr new_mask new_byte_index (u8 (new_mask.[new_byte_index] ≪ 1)) else new_mask in
    let old_mask := wr old_mask old_byte_index (u8 (old_mask.[old_byte_index] ≪ 1)) in
    (new_mask, old_mask)) (new_mask, old_mask).

(** * Usable masks *)

(** Column [j] of row [i] of a mask with rows of [bytes] bytes. *)
Definition mask_bit (mask : list Z) (bytes i j : Z) : bool :=
  Z.testbit (mask.[i * bytes + j `div` 8]) (7 - j `mod` 8).

(** A usable mask of [m] FEC packets for [n] media packets, with rows of [bytes] bytes. *)
Record good_mask (bytes n m : Z) (mask : list Z) : Prop := {
  mask_bytes : ∀ k, 0 ≤ k < m * bytes → uint8 (mask.[k]);
  mask_row : ∀ i, 0 ≤ i < m → ∃ j, 0 ≤ j < n ∧ mask_bit mask bytes i j = true;
  mask_column : ∀ j, 0 ≤ j < n → ∃ i, 0 ≤ i < m ∧ mask_bit mask bytes i j = true;
  mask_rest : ∀ i j, 0 ≤ i < m → n ≤ j < 8 * bytes → mask_bit mask bytes i j = false;
}.

Lemma PacketMaskSize_bound n : 1 ≤ n ≤ 48 → 2 ≤ PacketMaskSize n ≤ 6 ∧ n ≤ 8 * PacketMaskSize n.
Proof.
  intros. unfold PacketMaskSize, kUlpfecPacketMaskSizeLBitSet, kUlpfecPacketMaskSizeLBitClear.
  rewrite Z.gtb_ltb. destruct_ltb; lia.
Qed.

(** Only the rows of a mask matter. *)
Lemma good_mask_ext bytes n m mask mask' : 0 ≤ bytes → n ≤ 8 * bytes →
  (∀ k, 0 ≤ k < m * bytes → mask'.[k] = mask.[k]) →
  good_mask bytes n m mask → good_mask bytes n m mask'.
Proof.
  intros Hb Hn He [B R C T].
  assert (∀ i j, 0 ≤ i < m → 0 ≤ j < 8 * bytes →
    mask_bit mask' bytes i j = mask_bit mask bytes i j) as Hbit.
  { intros i j Hi Hj. unfold mask_bit. rewrite He; [done|].
    assert (0 ≤ j `div` 8 < bytes) by zdiv. nia. }
  split.
  - intros k Hk. rewrite He by done. by apply B.
  - intros i Hi. destruct (R i Hi) as (j & Hj & H). exists j. rewrite Hbit by lia. done.
  - intros j Hj. destruct (C j Hj) as (i & Hi & H). exists i. rewrite Hbit by lia. done.
  - intros i j Hi Hj. destruct (Z.leb_spec 0 j).
    + rewrite Hbit by lia. by apply T.
    + exfalso. destruct (R i Hi) as (j' & Hj' & _). lia.
Qed.

(** ** The tables *)

Definition some_range (p : Z → bool) (n : Z) : bool :=
  negb (check_range (λ x, negb (p x)) 0 (Z.to_nat n)).

Lemma check_range_none p lo n : check_range (λ x, negb (p x)) lo n = false →
  ∃ k, lo ≤ k < lo + Z.of_nat n ∧ p k = true.
Proof.
  revert lo. induction n as [|n IH]; simpl; intros lo H; [done|].
  destruct (p lo) eqn:E; [exists lo; split; [lia|done]|].
  destruct (IH (lo + 1) H) as (k & Hk & Hp). exists k. split; [lia|done].
Qed.

Lemma some_range_spec p n : 0 ≤ n → some_range p n = true → ∃ k, 0 ≤ k < n ∧ p k = true.
Proof.
  intros Hn H. apply negb_true_iff, check_range_none in H as (k & Hk & Hp).
  exists k. split; [lia|done].
Qed.

Definition good_maskb (bytes n m : Z) (mask : list Z) : bool :=
  check_range (λ k, bool_decide (uint8 (mask.[k]))) 0 (Z.to_nat (m * bytes)) &&
  check_range (λ i, some_range (mask_bit mask bytes i) n) 0 (Z.to_nat m) &&
  check_range (λ j, some_range (λ i, mask_bit mask bytes i j) m) 0 (Z.to_nat n) &&
  check_range (λ i, check_range (λ j, negb (mask_bit mask bytes i j)) n (Z.to_nat (8 * bytes - n)))
    0 (Z.to_nat m).

Lemma good_maskb_spec bytes n m mask : 0 ≤ bytes → 0 ≤ m → 0 ≤ n ≤ 8 * bytes →
  good_maskb bytes n m mask = true → good_mask bytes n m mask.
Proof.
  intros Hb Hm Hn H. apply andb_prop in H as [H T]. apply andb_prop in H as [H C].
  apply andb_prop in H as [B R]. split.
  - intros k Hk. apply (check_range_dec (λ k, uint8 (mask.[k])) 0 _ k B). lia.
  - intros i Hi. apply some_range_spec; [lia|]. apply (check_range_spec _ 0 _ i R). lia.
  - intros j Hj. apply (some_range_spec (λ i, mask_bit mask bytes i j)); [lia|].
    apply (check_range_spec _ 0 _ j C). lia.
  - intros i j Hi Hj. apply negb_true_iff.
    apply (check_range_spec _ n _ j (check_range_spec _ 0 _ i T ltac:(lia))). lia.
Qed.

(** Both tables hold usable masks for up to 12 media packets. *)
Definition fec_tables : list (list Z) := [kPacketMaskRandomTbl; kPacketMaskBurstyTbl].

Lemma PickTable_in ty n : In (PickTable ty n) fec_tables.
Proof. unfold PickTable, fec_tables, In. destruct ty; [|case_match]; auto. Qed.

Lemma LookUpInFecTable_good table n m : In table fec_tables → 1 ≤ m ≤ n → n ≤ 12 →
  zlen (LookUpInFecTable table (n - 1) (m - 1)) = m * 2 ∧
  good_mask 2 n m (LookUpInFecTable table (n - 1) (m - 1)).
Proof.
  intros Ht Hm Hn.
  assert (forallb (λ t, check_range (λ n, check_range (λ m,
    let mask := LookUpInFecTable t (n - 1) (m - 1) in
    (zlen mask =? m * 2) && good_maskb 2 n m mask) 1 (Z.to_nat n)) 1 12) fec_tables = true) as H
    by (vm_compute; reflexivity).
  rewrite forallb_forall in H. specialize (H table Ht).
  apply (check_range_spec _ _ _ n) in H; [|lia].
  apply (check_range_spec _ _ _ m) in H; [|lia]. simpl in H.
  apply andb_prop in H as [Hl H]. split; [lia|]. apply good_maskb_spec; [lia..|done].
Qed.

(** ** Interleaved masks *)

Lemma testbit_flag (b : bool) k p : 0 ≤ k → Z.testbit (if b then 2 ^ k else 0) p = b && (k =? p).
Proof.
  intros Hk. destruct b; simpl; [|apply Z.bits_0].
  destruct (Z.eqb_spec k p) as [->|]; [by apply Z.pow2_bits_true|by apply Z.pow2_bits_false].
Qed.

Lemma interleaved_bit n m i col k : 0 ≤ k < 8 →
  Z.testbit (interleaved_byte n m i col) (7 - k) =
  ((col * 8 + k) `mod` m =? i) && (col * 8 + k <? n).
Proof.
  intros Hk. unfold interleaved_byte. rewrite !Z.lor_spec.
  change 0x80 with (2 ^ 7). change 0x40 with (2 ^ 6). change 0x20 with (2 ^ 5).
  change 0x10 with (2 ^ 4). change 0x08 with (2 ^ 3). change 0x04 with (2 ^ 2).
  change 0x02 with (2 ^ 1). change 0x01 with (2 ^ 0). change 0x00 with 0.
  rewrite !testbit_flag by lia.
  assert (k = 0 ∨ k = 1 ∨ k = 2 ∨ k = 3 ∨ k = 4 ∨ k = 5 ∨ k = 6 ∨ k = 7) as Hcases by lia.
  repeat destruct Hcases as [->|Hcases]; [..|subst k];
    cbn; rewrite ?andb_false_r, ?andb_true_r, ?orb_false_r; reflexivity.
Qed.

Lemma interleaved_range n m i col : uint8 (interleaved_byte n m i col).
Proof.
  unfold interleaved_byte.
  repeat match goal with |- context [if ?b then _ else _] => destruct b end;
    split; vm_compute; discriminate.
Qed.

Lemma LookUp_interleaved t n m : 12 < n ≤ 48 → 1 ≤ m ≤ n →
  zlen (fec_packet_mask_ t) = kFECPacketMaskMaxSize →
  let '(t', mask) := LookUp t n m in
  table_ t' = table_ t ∧ zlen (fec_packet_mask_ t') = kFECPacketMaskMaxSize ∧
  zlen mask = m * PacketMaskSize n ∧ (∀ k, 0 ≤ k < zlen mask → uint8 (mask.[k])) ∧
  (∀ i j, 0 ≤ i < m → 0 ≤ j < 8 * PacketMaskSize n →
     mask_bit mask (PacketMaskSize n) i j = (j `mod` m =? i) && (j <? n)).
Proof.
  intros Hn Hm Hmem. unfold LookUp. destruct (Z.leb_spec n 12) as [?|Hn12]; [lia|].
  destruct (PacketMaskSize_bound n ltac:(lia)) as [Hb Hc].
  set (bytes := PacketMaskSize n) in *.
  set (mask := for_up 0 (Z.to_nat m) _ _).
  assert (length mask = length (fec_packet_mask_ t) ∧ ∀ i j, 0 ≤ i < m → 0 ≤ j < bytes →
    mask.[i * bytes + j] = interleaved_byte n m i j) as [Hl Hw].
  { destruct (for_rows_rd (interleaved_byte n m) 0 bytes bytes m (fec_packet_mask_ t)
      ltac:(lia) ltac:(lia) ltac:(lia) ltac:(unfold kFECPacketMaskMaxSize in *; nia))
      as (H1 & H2 & _). split; [exact H1|exact H2]. }
  assert (zlen (slice mask 0 (m * bytes)) = m * bytes) as Hs.
  { rewrite slice_length; unfold kFECPacketMaskMaxSize in *; nia. }
  assert (∀ k, 0 ≤ k < m * bytes → (slice mask 0 (m * bytes)).[k] =
    interleaved_byte n m (k `div` bytes) (k `mod` bytes)) as Hrd.
  { intros k Hk. rewrite rd_slice, Z.add_0_l by lia.
    rewrite <- Hw by (pose proof (Z.div_lt_upper_bound k bytes m ltac:(lia) ltac:(lia));
      pose proof (Z.div_pos k bytes ltac:(lia) ltac:(lia));
      pose proof (Z.mod_pos_bound k bytes ltac:(lia)); lia).
    f_equal. pose proof (Z.div_mod k bytes ltac:(lia)). lia. }
  cbn [table_ fec_packet_mask_]. rewrite Hs, Hl. split_and!; try done.
  - intros k Hk. rewrite Hrd by done. apply interleaved_range.
  - intros i j Hi Hj. unfold mask_bit. assert (0 ≤ j `div` 8 < bytes) by zdiv.
    rewrite Hrd by nia. rewrite Z.div_add_l, Z.div_small, Z.add_0_r by lia.
    rewrite Z.add_comm, Z.mod_add, Z.mod_small by lia.
    rewrite interleaved_bit by (apply Z.mod_pos_bound; lia).
    replace (j `div` 8 * 8 + j `mod` 8) with j by (pose proof (Z.div_mod j 8); lia). done.
Qed.

(** A table object: one of the two tables and an array for interleaved masks. *)
Definition wf_table (t : PacketMaskTable) : Prop :=
  In (table_ t) fec_tables ∧ zlen (fec_packet_mask_ t) = kFECPacketMaskMaxSize.

Lemma LookUp_good t n m : wf_table t → 1 ≤ n ≤ 48 → 1 ≤ m ≤ n →
  wf_table (LookUp t n m).1 ∧ zlen (LookUp t n m).2 = m * PacketMaskSize n ∧
  good_mask (PacketMaskSize n) n m (LookUp t n m).2.
Proof.
  intros [Ht Hmem] Hn Hm. destruct (Z.leb_spec n 12) as [Hs|Hs].
  - unfold LookUp. destruct (Z.leb_spec n 12); [|lia]. split; [done|].
    replace (PacketMaskSize n) with 2
      by (unfold PacketMaskSize; destruct (Z.gtb_spec n (8 * kUlpfecPacketMaskSizeLBitClear));
          unfold kUlpfecPacketMaskSizeLBitClear in *; lia).
    by apply LookUpInFecTable_good.
  - pose proof (LookUp_interleaved t n m ltac:(lia) Hm Hmem) as H.
    destruct (PacketMaskSize_bound n ltac:(lia)) as [Hb Hc].
    destruct (LookUp t n m) as [t' mask]. destruct H as (E1 & E2 & Hl & Hr & Hbit).
    simpl. split; [split; [by rewrite E1|done]|]. split; [done|]. split.
    + intros k Hk. apply Hr. lia.
    + intros i Hi. exists i. rewrite Hbit by lia.
      rewrite Z.mod_small, Z.eqb_refl by lia. destruct (Z.ltb_spec i n); [split; [lia|done]|lia].
    + intros j Hj. exists (j `mod` m). pose proof (Z.mod_pos_bound j m ltac:(lia)).
      rewrite Hbit, Z.eqb_refl by lia. destruct (Z.ltb_spec j n); [done|lia].
    + intros i j Hi Hj. rewrite Hbit by lia. destruct (Z.ltb_spec j n); [lia|].
      apply andb_false_r.
Qed.

(** ** Masks made of parts *)

Lemma FitSubMask_rd W w m sub mask p : 0 ≤ p → 0 ≤ m → 0 < w ≤ W → zlen sub = m * w →
  p + m * W ≤ zlen mask →
  let r := FitSubMask W w m sub mask p in
  length r = length mask ∧
  (∀ i j, 0 ≤ i < m → 0 ≤ j < w → r.[p + (i * W + j)] = sub.[i * w + j]) ∧
  (∀ k, (∀ i j, 0 ≤ i < m → 0 ≤ j < w → k ≠ p + (i * W + j)) → r.[k] = mask.[k]).
Proof.
  intros Hp Hm Hw Hs Hl. unfold FitSubMask. destruct (Z.eqb_spec W w) as [->|].
  - rewrite slice_all by lia. split; [apply store_length; lia|]. split.
    + intros i j Hi Hj. rewrite rd_store by lia. rewrite Hs.
      destruct (Z.leb_spec p (p + (i * w + j))), (Z.ltb_spec (p + (i * w + j)) (p + m * w));
        simpl; [f_equal; lia|nia..].
    + intros k Hk. rewrite rd_store by lia. rewrite Hs.
      destruct (Z.leb_spec p k), (Z.ltb_spec k (p + m * w)); simpl; try done.
      exfalso. apply (Hk ((k - p) `div` w) ((k - p) `mod` w)).
      * split; [apply Z.div_pos; lia|apply Z.div_lt_upper_bound; lia].
      * apply Z.mod_pos_bound. lia.
      * pose proof (Z.div_mod (k - p) w ltac:(lia)). lia.
  - destruct (for_rows_rd (λ i j, sub.[i * w + j]) p W w m mask) as (A & B & C); [lia..|].
    split_and!; [exact A|exact B|exact C].
Qed.

Lemma FitSubMask_bits W w m sub mask r0 : 0 ≤ r0 → 0 ≤ m → 0 < w ≤ W → zlen sub = m * w →
  (r0 + m) * W ≤ zlen mask →
  let r := FitSubMask W w m sub mask (r0 * W) in
  length r = length mask ∧
  (∀ i j, r0 ≤ i < r0 + m → 0 ≤ j < 8 * W → mask_bit r W i j =
     if j <? 8 * w then mask_bit sub w (i - r0) j else mask_bit mask W i j) ∧
  (∀ k, (k < r0 * W ∨ (r0 + m) * W ≤ k) → r.[k] = mask.[k]) ∧
  ((∀ k, 0 ≤ k < zlen sub → uint8 (sub.[k])) → (∀ k, uint8 (mask.[k])) → ∀ k, uint8 (r.[k])).
Proof.
  intros Hr Hm Hw Hs Hl.
  destruct (FitSubMask_rd W w m sub mask (r0 * W) ltac:(nia) Hm Hw Hs ltac:(nia)) as (A & B & C).
  cbv zeta. set (r := FitSubMask _ _ _ _ _ _) in *. split; [done|]. split_and!.
  - intros i j Hi Hj. unfold mask_bit. assert (0 ≤ j `div` 8 < W) by zdiv.
    destruct (Z.ltb_spec j (8 * w)).
    + replace (i * W + j `div` 8) with (r0 * W + ((i - r0) * W + j `div` 8)) by ring.
      rewrite B by zdiv. done.
    + rewrite C; [done|]. intros i' j' Hi' Hj' He.
      destruct (row_index_inj W i (j `div` 8) (r0 + i') j'); [lia..|].
      assert (w ≤ j `div` 8) by zdiv. lia.
  - intros k Hk. apply C. intros i j Hi Hj. nia.
  - intros Hsub Hmask k.
    destruct (decide (r0 * W ≤ k < (r0 + m) * W ∧ (k - r0 * W) `mod` W < w)) as [[Hk Hj]|Hk].
    + pose proof (Z.div_mod (k - r0 * W) W ltac:(lia)) as E.
      pose proof (Z.mod_pos_bound (k - r0 * W) W ltac:(lia)).
      assert (0 ≤ (k - r0 * W) `div` W < m)
        by (split; [apply Z.div_pos; lia|apply Z.div_lt_upper_bound; nia]).
      replace k with (r0 * W + ((k - r0 * W) `div` W * W + (k - r0 * W) `mod` W)) by lia.
      rewrite B by lia. apply Hsub. nia.
    + rewrite C; [done|]. intros i j Hi Hj ->. apply Hk. split; [nia|].
      replace (r0 * W + (i * W + j) - r0 * W) with (j + i * W) by ring.
      rewrite Z.mod_add, Z.mod_small by lia. lia.
Qed.

Lemma SetProtectionAllocation_bound n m imp : 1 ≤ m → 0 ≤ imp →
  0 ≤ SetProtectionAllocation n m imp ≤ imp ∧ 2 * SetProtectionAllocation n m imp ≤ m.
Proof.
  intros. unfold SetProtectionAllocation. rewrite Z.quot_div_nonneg by lia.
  assert (0 ≤ m `div` 2 ∧ 2 * (m `div` 2) ≤ m) by zdiv.
  destruct_ltb; destruct (_ && _); lia.
Qed.

Lemma PacketMaskSize_mono a b : a ≤ b → PacketMaskSize a ≤ PacketMaskSize b.
Proof.
  unfold PacketMaskSize, kUlpfecPacketMaskSizeLBitClear, kUlpfecPacketMaskSizeLBitSet.
  rewrite !Z.gtb_ltb. intros. repeat destruct_ltb; lia.
Qed.

(** The rows [lo .. hi) of a mask are usable rows for [n] media packets. *)
Definition good_rows (bytes n lo hi : Z) (mask : list Z) : Prop :=
  ∀ i, lo ≤ i < hi → (∃ j, 0 ≤ j < n ∧ mask_bit mask bytes i j = true) ∧
    (∀ j, n ≤ j < 8 * bytes → mask_bit mask bytes i j = false).

Lemma mask_bit_0 mask bytes i j : mask.[i * bytes + j `div` 8] = 0 → mask_bit mask bytes i j = false.
Proof. unfold mask_bit. intros ->. apply Z.bits_0. Qed.

Lemma ImportantPacketProtection_rows T n m t imp mask :
  let W := PacketMaskSize n in
  wf_table T → 1 ≤ n ≤ 48 → 1 ≤ t ≤ imp → imp ≤ n → t ≤ m → m * W ≤ zlen mask →
  (∀ k, 0 ≤ k < m * W → mask.[k] = 0) → (∀ k, uint8 (mask.[k])) →
  let '(T', mask') := ImportantPacketProtection t imp W mask T in
  wf_table T' ∧ length mask' = length mask ∧ good_rows W n 0 t mask' ∧
  (∀ k, uint8 (mask'.[k])) ∧ (∀ k, m * W ≤ k → mask'.[k] = mask.[k]).
Proof.
  intros W HT Hn Ht Himp Htm Hl H0 Hu. unfold ImportantPacketProtection.
  pose proof (PacketMaskSize_bound imp ltac:(lia)) as [Hwb Hwi].
  pose proof (PacketMaskSize_mono imp n Himp) as Hmono. fold W in Hmono.
  destruct (LookUp_good T imp t HT ltac:(lia) ltac:(lia)) as (HT' & Hls & Hg).
  destruct (LookUp T imp t) as [T' sub]. cbn [fst snd] in *.
  set (w := PacketMaskSize imp) in *.
  destruct (FitSubMask_bits W w t sub mask 0 ltac:(lia) ltac:(lia) ltac:(lia) Hls ltac:(nia))
    as (A & B & C & D). rewrite Z.mul_0_l in *.
  set (r := FitSubMask _ _ _ _ _ _) in *. split_and!; try done.
  - intros i Hi. rewrite Z.add_0_l in B. split.
    + destruct (mask_row _ _ _ _ Hg i ltac:(lia)) as (j & Hj & Hbit). exists j.
      split; [lia|]. rewrite B, Z.sub_0_r by lia. destruct (Z.ltb_spec j (8 * w)); [done|lia].
    + intros j Hj. rewrite B, Z.sub_0_r by lia. destruct (Z.ltb_spec j (8 * w)).
      * apply (mask_rest _ _ _ _ Hg); lia.
      * apply mask_bit_0, H0. assert (0 ≤ j `div` 8 < W) by zdiv. nia.
  - apply D; [|done]. intros k Hk. apply (mask_bytes _ _ _ _ Hg). lia.
  - intros k Hk. apply C. right. nia.
Qed.

Lemma UnequalProtectionMask_good T n m imp mask :
  let W := PacketMaskSize n in
  wf_table T → 1 ≤ n ≤ 48 → 1 ≤ m ≤ n → 0 ≤ imp ≤ n → m * W ≤ zlen mask →
  (∀ k, 0 ≤ k < m * W → mask.[k] = 0) → (∀ k, uint8 (mask.[k])) →
  let '(T', mask') := UnequalProtectionMask n m imp W mask T in
  wf_table T' ∧ length mask' = length mask ∧ good_mask W n m mask' ∧
  (∀ k, m * W ≤ k → mask'.[k] = mask.[k]).
Proof.
  intros W HT Hn Hm Himp Hl H0 Hu. unfold UnequalProtectionMask.
  pose proof (SetProtectionAllocation_bound n m imp ltac:(lia) ltac:(lia)) as [Ht1 Ht2].
  set (t := SetProtectionAllocation n m imp) in *.
  pose proof (PacketMaskSize_bound n ltac:(lia)) as [Hwb Hwn]. fold W in Hwb, Hwn.
  set (P := if t >? 0 then _ else _).
  assert (wf_table P.1 ∧ length P.2 = length mask ∧ good_rows W n 0 t P.2 ∧
    (∀ k, uint8 (P.2.[k])) ∧ (∀ k, m * W ≤ k → P.2.[k] = mask.[k])) as (HT1 & Hl1 & Hg1 & Hu1 & Ho1).
  { subst P. destruct (Z.gtb_spec t 0).
    - pose proof (ImportantPacketProtection_rows T n m t imp mask HT Hn ltac:(lia) ltac:(lia)
        ltac:(lia) Hl H0 Hu) as H'. fold W in H'.
      by destruct (ImportantPacketProtection t imp W mask T).
    - split_and!; try done. intros i Hi. lia. }
  destruct P as [T1 mask1]. cbn [fst snd] in *.
  destruct (Z.gtb_spec (m - t) 0); [|lia]. unfold RemainingPacketProtection.
  destruct (LookUp_good T1 n (m - t) HT1 Hn ltac:(lia)) as (HT2 & Hls & Hg2). fold W in Hls, Hg2.
  destruct (LookUp T1 n (m - t)) as [T2 sub]. cbn [fst snd] in *.
  destruct (FitSubMask_bits W W (m - t) sub mask1 t ltac:(lia) ltac:(lia) ltac:(lia) Hls
    ltac:(rewrite Hl1; nia)) as (A & B & C & D).
  set (r := FitSubMask _ _ _ _ _ _) in *. replace (t + (m - t)) with m in * by lia.
  assert (∀ i j, t ≤ i < m → 0 ≤ j < 8 * W → mask_bit r W i j = mask_bit sub W (i - t) j) as Bs.
  { intros i j Hi Hj. rewrite B by lia. destruct (Z.ltb_spec j (8 * W)); [done|lia]. }
  assert (∀ i j, 0 ≤ i < t → 0 ≤ j < 8 * W → mask_bit r W i j = mask_bit mask1 W i j) as Br.
  { intros i j Hi Hj. unfold mask_bit. rewrite C; [done|]. left.
    assert (0 ≤ j `div` 8 < W) by zdiv. nia. }
  split; [done|]. split; [congruence|]. split; [|intros k Hk; rewrite C, Ho1 by lia; done].
  assert (∀ k, 0 ≤ k < zlen sub → uint8 (sub.[k])) as Hus
    by (intros k Hk; apply (mask_bytes _ _ _ _ Hg2); lia).
  split.
  - intros k _. by apply D.
  - intros i Hi. destruct (Z.ltb_spec i t).
    + destruct (Hg1 i ltac:(lia)) as [(j & Hj & Hb) _]. exists j. rewrite Br by lia. done.
    + destruct (mask_row _ _ _ _ Hg2 (i - t) ltac:(lia)) as (j & Hj & Hb). exists j.
      rewrite Bs by lia. done.
  - intros j Hj. destruct (mask_column _ _ _ _ Hg2 j Hj) as (i & Hi & Hb). exists (t + i).
    split; [lia|]. rewrite Bs by lia. replace (t + i - t) with i by lia. done.
  - intros i j Hi Hj. destruct (Z.ltb_spec i t).
    + rewrite Br by lia. apply (proj2 (Hg1 i ltac:(lia))). lia.
    + rewrite Bs by lia. apply (mask_rest _ _ _ _ Hg2); lia.
Qed.

Lemma GeneratePacketMasks_good T n m imp uep mask :
  let W := PacketMaskSize n in
  wf_table T → 1 ≤ n ≤ 48 → 1 ≤ m ≤ n → 0 ≤ imp ≤ n → m * W ≤ zlen mask →
  (∀ k, 0 ≤ k < m * W → mask.[k] = 0) → (∀ k, uint8 (mask.[k])) →
  let '(T', mask') := GeneratePacketMasks n m imp uep T mask in
  wf_table T' ∧ length mask' = length mask ∧ good_mask W n m mask' ∧
  (∀ k, m * W ≤ k → mask'.[k] = mask.[k]).
Proof.
  intros W HT Hn Hm Himp Hl H0 Hu. unfold GeneratePacketMasks. destruct (negb uep || _).
  2: by apply UnequalProtectionMask_good.
  destruct (LookUp_good T n m HT Hn Hm) as (HT' & Hls & Hg). fold W in Hls, Hg.
  pose proof (PacketMaskSize_bound n ltac:(lia)) as [Hwb Hwn]. fold W in Hwb, Hwn.
  destruct (LookUp T n m) as [T' sub]. cbn [fst snd] in *.
  assert (∀ k, (store mask 0 sub).[k] =
    if (0 <=? k) && (k <? m * W) then sub.[k] else mask.[k]) as Hrd.
  { intros k. rewrite rd_store, Z.sub_0_r, Z.add_0_l, Hls by lia. done. }
  split; [done|]. split; [apply store_length; lia|]. split.
  - apply (good_mask_ext W n m sub); [lia..| |done].
    intros k Hk. rewrite Hrd. destruct (Z.leb_spec 0 k), (Z.ltb_spec k (m * W)); done || lia.
  - intros k Hk. rewrite Hrd. destruct (Z.ltb_spec k (m * W)); [lia|]. by rewrite andb_false_r.
Qed.

(** * Theorem *)

Lemma zero_first_rd mask n k : 0 ≤ n ≤ zlen mask →
  length (zero_first mask n) = length mask ∧
  (zero_first mask n).[k] = if (0 <=? k) && (k <? n) then 0 else mask.[k].
Proof.
  intros Hn. unfold zero_first. split; [apply store_length; rewrite ?length_replicate; lia|].
  rewrite rd_store by (rewrite ?length_replicate; lia). rewrite length_replicate, rd_replicate_0.
  rewrite Z2Nat.id by lia. done.
Qed.

(** Equal protection of many packets: FEC packet [i] protects every [m]-th packet from [i] on. *)
Lemma GeneratePacketMasks_interleaved t n m imp mask i j :
  zlen (fec_packet_mask_ t) = kFECPacketMaskMaxSize → 12 < n ≤ 48 → 1 ≤ m ≤ n →
  m * PacketMaskSize n ≤ zlen mask → 0 ≤ i < m → 0 ≤ j < n →
  mask_bit (GeneratePacketMasks n m imp false t mask).2 (PacketMaskSize n) i j = (j `mod` m =? i).
Proof.
  intros Ht Hn Hm Hl Hi Hj. pose proof (PacketMaskSize_bound n ltac:(lia)) as [Hwb Hwn].
  pose proof (LookUp_interleaved t n m Hn Hm Ht) as HI. unfold GeneratePacketMasks. cbn [negb orb].
  set (W := PacketMaskSize n) in *. destruct (LookUp t n m) as [t2 sub]. destruct HI as (_ & _ & Hls & _ & Hbit).
  cbn [snd]. unfold mask_bit. assert (0 ≤ j `div` 8 < W) by zdiv.
  rewrite rd_store, Z.sub_0_r, Z.add_0_l, Hls by nia.
  destruct (Z.leb_spec 0 (i * W + j `div` 8)), (Z.ltb_spec (i * W + j `div` 8) (m * W)); [|nia..].
  simpl. specialize (Hbit i j ltac:(lia) ltac:(lia)). unfold mask_bit in Hbit. rewrite Hbit.
  destruct (Z.ltb_spec j n); [by rewrite andb_true_r|lia].
Qed.

(** C21: for up to 48 media packets, any number of FEC packets up to that, any number of important
    packets, both kinds of masks and both kinds of protection, the masks that
    [GeneratePacketMasks] writes over a cleared array are usable: each FEC packet protects at
    least one media packet, each media packet is protected by some FEC packet, and no bit is
    set beyond the last media packet; nothing behind the masks is written.  With equal
    protection of more than 12 packets FEC packet [i] protects exactly the media packets
    congruent to [i]. *)
Theorem fec_masks_usable ty mem n m imp uep mask :
  zlen mem = kFECPacketMaskMaxSize → zlen mask = kFECPacketMaskMaxSize → Forall uint8 mask →
  1 ≤ n ≤ kUlpfecMaxMediaPackets → 1 ≤ m ≤ n → 0 ≤ imp ≤ n →
  let W := PacketMaskSize n in
  let mask' := (GeneratePacketMasks n m imp uep (NewMaskTable mem ty n)
                  (zero_first mask (m * W))).2 in
  length mask' = length mask ∧ good_mask W n m mask' ∧
  (∀ k, m * W ≤ k → mask'.[k] = mask.[k]) ∧
  (12 < n → uep = false → ∀ i j, 0 ≤ i < m → 0 ≤ j < n →
     mask_bit mask' W i j = (j `mod` m =? i)).
Proof.
  intros Hmem Hmask Hu Hn Hm Himp W. unfold kUlpfecMaxMediaPackets in Hn.
  pose proof (PacketMaskSize_bound n ltac:(lia)) as [Hwb Hwn]. fold W in Hwb, Hwn.
  assert (0 ≤ m * W ≤ zlen mask) as Hr by (rewrite Hmask; unfold kFECPacketMaskMaxSize; nia).
  destruct (zero_first_rd mask (m * W) 0 Hr) as [Hl _].
  assert (∀ k, uint8 (mask.[k])) as Hub by (intros; apply rd_Forall; [done|cint]).
  assert (wf_table (NewMaskTable mem ty n)) as HT by (split; [apply PickTable_in|done]).
  pose proof (GeneratePacketMasks_good (NewMaskTable mem ty n) n m imp uep
    (zero_first mask (m * W)) HT Hn Hm Himp) as H. cbv zeta in H. fold W in H.
  rewrite Hl in H. specialize (H ltac:(lia)).
  assert (H' : (∀ k, 0 ≤ k < m * W → (zero_first mask (m * W)).[k] = 0) ∧
    (∀ k, uint8 ((zero_first mask (m * W)).[k])) ∧
    (∀ k, m * W ≤ k → (zero_first mask (m * W)).[k] = mask.[k])).
  { repeat apply conj; intros k; try intros Hk; rewrite (proj2 (zero_first_rd mask _ k Hr));
      destruct (Z.leb_spec 0 k), (Z.ltb_spec k (m * W)); simpl; done || lia || cint || apply Hub. }
  destruct H' as (H1 & H2 & H3). specialize (H H1 H2). cbv zeta.
  destruct (GeneratePacketMasks _ _ _ _ _ _) as [T' mask'] eqn:E. cbn [snd] in *.
  destruct H as (_ & A & B & C).
  split; [done|]. split; [done|]. split; [intros k Hk; rewrite C, H3 by lia; done|].
  intros H12 -> i j Hi Hj.
  pose proof (GeneratePacketMasks_interleaved (NewMaskTable mem ty n) n m imp
    (zero_first mask (m * W)) i j Hmem ltac:(lia) Hm) as HB. fold W in HB.
  rewrite Hl, E in HB. by apply HB; lia.
Qed.

Lemma fec_masks_usable_witness :
  let mem := replicate 288 7 in
  let mask' := (GeneratePacketMasks 20 4 3 true (NewMaskTable mem kFecMaskBursty 20)
                  (zero_first mem (4 * 6))).2 in
  good_mask 6 20 4 mask' ∧
  slice mask' 0 12 = [0xc0; 0; 0; 0; 0; 0; 0xa0; 0; 0; 0; 0; 0] ∧ mask'.[24] = 7.
Proof.
  intros mem mask'.
  destruct (fec_masks_usable kFecMaskBursty mem 20 4 3 true mem eq_refl eq_refl
    ltac:(apply Forall_replicate; cint) ltac:(unfold kUlpfecMaxMediaPackets; lia) ltac:(lia)
    ltac:(lia)) as (_ & H & H' & _).
  split; [exact H|]. split; vm_compute; reflexivity.
Defined.
