(* ===== verification/FecPacket.v ===== *)
(** Packets of forward error correction and the recovery of one of them:
    forward_error_correction.cc of modules/rtp_rtcp/source, with the interface of the header
    formats in forward_error_correction.h.

    A packet is the list of its bytes, as many as [data.size()].  [SetSize] followed by
    [memset] of the new part is [grow].  A packet that protects others holds the exclusive or
    of their recovery fields: the first eight bytes of the header, with the length in place of
    the sequence number, and the payloads.  The lemma [RecoverPacket_exact] says that the one
    packet that is missing comes back byte for byte. *)
From S2P Require Import Prelude ByteIo Rtcp.

(** * Definitions *)

Definition kRtpHeaderSize : Z := 12.

(** A media packet that an FEC packet protects; [pp_pkt] is null while it is missing. *)
Record ProtectedPacket : Type := MkProtected {
  pp_ssrc : Z; pp_seq_num : Z; pp_pkt : option (list Z);
}.

Record ProtectedStream : Type := MkStream {
  ps_ssrc : Z; seq_num_base : Z; packet_mask_offset : Z; packet_mask_size : Z;
}.

Record ReceivedFecPacket : Type := MkFec {
  fec_ssrc : Z; fec_seq_num : Z;
  protected_packets : list ProtectedPacket;
  fec_header_size : Z;
  protected_streams : list ProtectedStream;
  protection_length : Z;
  fec_pkt : list Z;
}.

Record RecoveredPacket : Type := MkRecovered {
  r_ssrc : Z; r_seq_num : Z; was_recovered : bool; returned : bool; r_pkt : list Z;
}.

Definition ParseSequenceNumber (packet : list Z) : Z := u16 ((packet.[2] ≪ 8) + packet.[3]).
Definition ParseSsrc (packet : list Z) : Z :=
  u32 (add32 (add32 (add32 (shl32 (packet.[8]) 24) (packet.[9] ≪ 16)) (packet.[10] ≪ 8))
         (packet.[11])).

(** ** Exclusive or *)

Definition grow (data : list Z) (n : Z) : list Z :=
  data ++ replicate (Z.to_nat (n - zlen data)) 0.

Definition xor_at (dst : list Z) (i v : Z) : list Z := wr dst i (Z.lxor (dst.[i]) v).

Definition XorHeaders (src dst : list Z) : list Z :=
  let dst := xor_at dst 0 (src.[0]) in
  let dst := xor_at dst 1 (src.[1]) in
  let src_payload_length_network_order :=
    WriteBigEndian 2 [0; 0] 0 (u16 (zlen src - kRtpHeaderSize)) in
  let dst := xor_at dst 2 (src_payload_length_network_order.[0]) in
  let dst := xor_at dst 3 (src_payload_length_network_order.[1]) in
  let dst := xor_at dst 4 (src.[4]) in
  let dst := xor_at dst 5 (src.[5]) in
  let dst := xor_at dst 6 (src.[6]) in
  xor_at dst 7 (src.[7]).

Definition XorPayloads (src : list Z) (payload_length dst_offset : Z) (dst : list Z) : list Z :=
  let dst :=
    if dst_offset + payload_length >? zlen dst then grow dst (dst_offset + payload_length)
    else dst in
  for_up 0 (Z.to_nat payload_length) (λ i dst,
    wr dst (dst_offset + i) (Z.lxor (dst.[dst_offset + i]) (src.[kRtpHeaderSize + i]))) dst.

(** ** Recovery *)

(** The two copies fill the new packet. *)
Definition StartPacketRecovery (f : ReceivedFecPacket) : option (list Z) :=
  if zlen (fec_pkt f) <? fec_header_size f + protection_length f then None
  else if protection_length f >?
            Z.min (IP_PACKET_SIZE - kRtpHeaderSize) (IP_PACKET_SIZE - fec_header_size f) then None
  else Some (slice (fec_pkt f) 0 kRtpHeaderSize ++
             slice (fec_pkt f) (fec_header_size f) (protection_length f)).

Definition FinishPacketRecovery (data : list Z) (seq_num ssrc : Z) : option (list Z) :=
  let data := wr data 0 (Z.lor (data.[0]) 0x80) in
  let data := wr data 0 (Z.land (data.[0]) 0xbf) in
  let new_size := ReadBigEndian 2 2 data 2 + kRtpHeaderSize in
  if new_size >? IP_PACKET_SIZE - kRtpHeaderSize then None
  else
    let old_size := zlen data in
    let data := if new_size >? old_size then grow data new_size
                else take (Z.to_nat new_size) data in
    let data := WriteBigEndian 2 data 2 seq_num in
    Some (WriteBigEndian 4 data 8 ssrc).

(** The body of the loop of [RecoverPacket] on the data, sequence number and SSRC of the
    recovered packet; the last two are indeterminate (here 0) before the missing packet is met.
    Stored packets are RTP packets, so the length of the payload is not negative. *)
Definition recover_step (s : list Z * Z * Z) (protected_packet : ProtectedPacket)
  : list Z * Z * Z :=
  let '(data, seq_num, ssrc) := s in
  match pp_pkt protected_packet with
  | None => (data, pp_seq_num protected_packet, pp_ssrc protected_packet)
  | Some src =>
      let data := XorHeaders src data in
      (XorPayloads src (zlen src - kRtpHeaderSize) kRtpHeaderSize data, seq_num, ssrc)
  end.

Definition RecoverPacket (f : ReceivedFecPacket) : option RecoveredPacket :=
  match StartPacketRecovery f with
  | None => None
  | Some data =>
      let '(data, seq_num, ssrc) := foldl recover_step (data, 0, 0) (protected_packets f) in
      match FinishPacketRecovery data seq_num ssrc with
      | None => None
      | Some data => Some (MkRecovered ssrc seq_num true false data)
      end
  end.

(** 0, 1 or 2, which stands for two or more. *)
Fixpoint NumCoveredPacketsMissing_loop (packets_missing : Z) (l : list ProtectedPacket) : Z :=
  match l with
  | [] => packets_missing
  | p :: l =>
      match pp_pkt p with
      | None =>
          let packets_missing := packets_missing + 1 in
          if packets_missing >? 1 then packets_missing
          else NumCoveredPacketsMissing_loop packets_missing l
      | Some _ => NumCoveredPacketsMissing_loop packets_missing l
      end
  end.
Definition NumCoveredPacketsMissing (f : ReceivedFecPacket) : Z :=
  NumCoveredPacketsMissing_loop 0 (protected_packets f).

(** ** Header formats *)

(** [FecHeaderWriter::ProtectedStream] *)
Record WriterStream : Type := MkWriterStream {
  ws_ssrc : Z; ws_seq_num_base : Z; ws_packet_mask : list Z;
}.

(** The virtual functions and members of [FecHeaderReader] and [FecHeaderWriter].  The array of
    protected streams that [FinalizeFecHeader] takes has one element, which it checks. *)
Class FecHeaderFormat : Type := {
  max_tracked_media_packets : Z;
  max_fec_packets : Z;
  max_media_packets : Z;
  max_packet_overhead : Z;
  ReadFecHeader : ReceivedFecPacket → ReceivedFecPacket * bool;
  MinPacketMaskSize : list Z → Z → Z;
  FecHeaderSize : Z → Z;
  FinalizeFecHeader : WriterStream → list Z → list Z;
}.

(** * Exclusive or of packets *)

Lemma rd_beyond (l : list Z) i : zlen l ≤ i → l.[i] = 0.
Proof. intros. unfold rd. destruct (i <? 0); [done|]. apply nth_overflow. lia. Qed.

Lemma rd_grow data n i : (grow data n).[i] = data.[i].
Proof.
  unfold grow. destruct (Z.ltb_spec i (zlen data)); [by rewrite rd_app_l|].
  rewrite rd_app_r by done. rewrite rd_replicate_0, (rd_beyond data) by done. done.
Qed.

Lemma grow_length data n : zlen (grow data n) = Z.max (zlen data) n.
Proof. unfold grow. rewrite zlen_app, length_replicate. lia. Qed.

Lemma grow_uint8 data n : Forall uint8 data → Forall uint8 (grow data n).
Proof. intros. apply Forall_app. split; [done|]. apply Forall_replicate. cint. Qed.

Lemma lxor_uint8 a b : uint8 a → uint8 b → uint8 (Z.lxor a b).
Proof.
  unfold uint8. intros Ha Hb. split; [apply Z.lxor_nonneg; lia|].
  destruct (Z.eq_dec (Z.lxor a b) 0); [lia|]. apply Z.lt_succ_r.
  change (Z.succ 255) with (2 ^ 8). apply Z.log2_lt_pow2.
  { assert (0 ≤ Z.lxor a b) by (apply Z.lxor_nonneg; lia). lia. }
  eapply Z.le_lt_trans; [apply Z.log2_lxor; lia|]. apply Z.max_lub_lt.
  - destruct (Z.eq_dec a 0) as [->|]; [done|apply Z.log2_lt_pow2; lia].
  - destruct (Z.eq_dec b 0) as [->|]; [done|apply Z.log2_lt_pow2; lia].
Qed.

(** The recovery fields of a packet: byte [k] of the first eight of its header, with the length
    of the payload in place of the sequence number. *)
Definition recovery_head (p : list Z) (k : Z) : Z :=
  if k =? 2 then u8 (u16 (zlen p - kRtpHeaderSize) ≫ 8)
  else if k =? 3 then u8 (u16 (zlen p - kRtpHeaderSize)) else p.[k].

Definition is_bytes (p : list Z) : Prop := Forall uint8 p.

Lemma bytes_rd p i : is_bytes p → uint8 (p.[i]).
Proof. intros. apply rd_Forall; [done|cint]. Qed.

Lemma recovery_head_uint8 p k : is_bytes p → uint8 (recovery_head p k).
Proof.
  intros. unfold recovery_head. destruct (k =? 2); [apply u8_range|].
  destruct (k =? 3); [apply u8_range|by apply bytes_rd].
Qed.

Lemma xor_at_length dst i v : length (xor_at dst i v) = length dst.
Proof. apply wr_length. Qed.

Lemma rd_xor_at dst i v k : 0 ≤ i < zlen dst →
  (xor_at dst i v).[k] = if k =? i then Z.lxor (dst.[i]) v else dst.[k].
Proof.
  intros. unfold xor_at. destruct (Z.eqb_spec k i) as [->|]; [by rewrite rd_wr_eq|].
  by rewrite rd_wr_ne.
Qed.

Lemma XorHeaders_rd src dst : 8 ≤ zlen dst →
  length (XorHeaders src dst) = length dst ∧
  ∀ k, (XorHeaders src dst).[k] =
    if (0 <=? k) && (k <? 8) then Z.lxor (dst.[k]) (recovery_head src k) else dst.[k].
Proof.
  intros Hl. unfold XorHeaders. split; [by rewrite !xor_at_length|]. intros k.
  set (L := WriteBigEndian 2 _ _ _).
  assert (L.[0] = recovery_head src 2 ∧ L.[1] = recovery_head src 3) as [-> ->] by done.
  destruct (Z.leb_spec 0 k), (Z.ltb_spec k 8); cbn [andb].
  2-4: unfold xor_at; by rewrite !rd_wr_ne by lia.
  assert (k = 0 ∨ k = 1 ∨ k = 2 ∨ k = 3 ∨ k = 4 ∨ k = 5 ∨ k = 6 ∨ k = 7) as Hk by lia.
  repeat destruct Hk as [->|Hk]; [..|subst k];
    repeat (rewrite rd_xor_at by (rewrite ?xor_at_length; lia); cbn [Z.eqb Pos.eqb]); reflexivity.
Qed.

Lemma XorPayloads_rd src off dst : 12 ≤ zlen src → 0 ≤ off ≤ zlen dst →
  zlen (XorPayloads src (zlen src - kRtpHeaderSize) off dst) =
    Z.max (zlen dst) (off + zlen src - 12) ∧
  (∀ k, k < off → (XorPayloads src (zlen src - kRtpHeaderSize) off dst).[k] = dst.[k]) ∧
  (∀ i, 0 ≤ i → (XorPayloads src (zlen src - kRtpHeaderSize) off dst).[off + i] =
     Z.lxor (dst.[off + i]) (src.[12 + i])).
Proof.
  unfold kRtpHeaderSize. intros Hs Ho. unfold XorPayloads, kRtpHeaderSize.
  set (d := if _ >? _ then _ else _).
  assert (zlen d = Z.max (zlen dst) (off + zlen src - 12) ∧ ∀ i, d.[i] = dst.[i]) as [Hd Hrd].
  { subst d. destruct (Z.gtb_spec (off + (zlen src - 12)) (zlen dst)).
    - rewrite grow_length. split; [lia|]. intros. apply rd_grow.
    - split; [lia|done]. }
  destruct (for_wr_rd (λ i, off + i) (λ i v, Z.lxor v (src.[12 + i])) (Z.to_nat (zlen src - 12)) d)
    as (A & B & C); [intros; lia..|].
  split; [by rewrite A|]. split.
  - intros k Hk. rewrite C by lia. apply Hrd.
  - intros i Hi. destruct (Z.ltb_spec i (zlen src - 12)).
    + rewrite B by lia. by rewrite Hrd.
    + rewrite C by lia. rewrite Hrd. rewrite (rd_beyond src) by lia. by rewrite Z.lxor_0_r.
Qed.

Lemma Xor_bytes src n off dst : is_bytes src → is_bytes dst →
  is_bytes (XorPayloads src n off (XorHeaders src dst)).
Proof.
  intros Hs Hd. assert (∀ d i v, is_bytes d → uint8 v → is_bytes (xor_at d i v)) as Hx.
  { intros. apply wr_Forall; [done|]. by apply lxor_uint8; [apply bytes_rd|]. }
  assert (∀ i, uint8 (src.[i])) as Hr by (intros; by apply bytes_rd).
  assert (is_bytes (XorHeaders src dst)) as Hh.
  { unfold XorHeaders. set (L := WriteBigEndian 2 _ _ _).
    assert (∀ i, uint8 (L.[i])) as HL.
    { intros. apply bytes_rd. subst L. rewrite WriteBigEndian_store by done.
      apply store_Forall; [repeat constructor; lia|apply be_bytes_uint8]. }
    repeat (apply Hx; [|by first [apply Hr|apply HL]]). done. }
  unfold XorPayloads. apply (for_up_inv (λ _ d, is_bytes d)).
  - destruct (_ >? _); [by apply grow_uint8|done].
  - intros i d _ H. by apply Hx.
Qed.

(** One packet more in the exclusive or at offset [off]. *)
Lemma Xor_rd src off dst : 12 ≤ zlen src → 8 ≤ off ≤ zlen dst →
  let d := XorPayloads src (zlen src - kRtpHeaderSize) off (XorHeaders src dst) in
  zlen d = Z.max (zlen dst) (off + zlen src - 12) ∧
  (∀ k, 0 ≤ k < 8 → d.[k] = Z.lxor (dst.[k]) (recovery_head src k)) ∧
  (∀ k, 8 ≤ k < off → d.[k] = dst.[k]) ∧
  (∀ i, 0 ≤ i → d.[off + i] = Z.lxor (dst.[off + i]) (src.[12 + i])).
Proof.
  intros Hs Ho. destruct (XorHeaders_rd src dst ltac:(lia)) as [Hl Hh].
  destruct (XorPayloads_rd src off (XorHeaders src dst) Hs ltac:(lia)) as (A & B & C).
  cbv zeta. rewrite A, Hl. split_and!; [done|..].
  - intros k Hk. rewrite B, Hh by lia. by destruct (Z.leb_spec 0 k), (Z.ltb_spec k 8); try lia.
  - intros k Hk. rewrite B, Hh by lia. destruct (Z.ltb_spec k 8); [lia|]. by rewrite andb_false_r.
  - intros i Hi. rewrite C, Hh by lia. destruct (Z.ltb_spec (off + i) 8); [lia|].
    by rewrite andb_false_r.
Qed.

(** ** Parity *)

Definition parity {A} (f : A → Z) (l : list A) : Z := foldr (λ x a, Z.lxor (f x) a) 0 l.

Lemma parity_cons {A} (f : A → Z) x l : parity f (x :: l) = Z.lxor (f x) (parity f l).
Proof. done. Qed.

Lemma parity_app {A} (f : A → Z) l k : parity f (l ++ k) = Z.lxor (parity f l) (parity f k).
Proof.
  induction l as [|x l IH]; [done|].
  change ((x :: l) ++ k) with (x :: (l ++ k)). by rewrite !parity_cons, IH, Z.lxor_assoc.
Qed.

Lemma parity_lxor {A} (f g : A → Z) l :
  Z.lxor (parity f l) (parity g l) = parity (λ x, Z.lxor (f x) (g x)) l.
Proof.
  induction l as [|x l IH]; [done|]. rewrite !parity_cons, <- IH, !Z.lxor_assoc. f_equal.
  by rewrite <- !Z.lxor_assoc, (Z.lxor_comm (parity f l) (g x)).
Qed.

Lemma parity_zero {A} (f : A → Z) l : Forall (λ x, f x = 0) l → parity f l = 0.
Proof. induction 1 as [|x l Hx _ IH]; [done|]. by rewrite parity_cons, Hx, IH. Qed.

Lemma parity_ext {A} (f g : A → Z) l : Forall (λ x, f x = g x) l → parity f l = parity g l.
Proof. induction 1 as [|x l Hx _ IH]; [done|]. by rewrite !parity_cons, Hx, IH. Qed.

Lemma parity_uint8 {A} (f : A → Z) l : Forall (λ x, uint8 (f x)) l → uint8 (parity f l).
Proof. induction 1; [cbn; cint|]. by apply lxor_uint8. Qed.

Lemma parity_map {A B} (g : B → A) (f : A → Z) l : parity f (map g l) = parity (λ x, f (g x)) l.
Proof. induction l as [|x l IH]; [done|]. cbn [map]. by rewrite !parity_cons, IH. Qed.

(** * Recovery *)

(** What a stored packet contributes. *)
Definition on_pkt (f : list Z → Z) (pp : ProtectedPacket) : Z :=
  match pp_pkt pp with Some p => f p | None => 0 end.

Lemma recover_fold pl l d seq ssrc : is_bytes d → zlen d = 12 + pl → 0 ≤ pl →
  Forall (λ pp, ∀ p, pp_pkt pp = Some p → is_bytes p ∧ 12 ≤ zlen p ≤ 12 + pl) l →
  let d' := (foldl recover_step (d, seq, ssrc) l).1.1 in
  is_bytes d' ∧ zlen d' = 12 + pl ∧
  (∀ k, 0 ≤ k < 8 → d'.[k] = Z.lxor (d.[k]) (parity (on_pkt (λ p, recovery_head p k)) l)) ∧
  (∀ i, 0 ≤ i → d'.[12 + i] = Z.lxor (d.[12 + i]) (parity (on_pkt (λ p, p.[12 + i])) l)).
Proof.
  intros Hb Hd Hpl Hl. revert d seq ssrc Hb Hd. induction Hl as [|pp l Hp Hl IH]; intros d seq ssrc Hb Hd.
  { cbn. split_and!; try done; intros; by rewrite Z.lxor_0_r. }
  cbn [foldl]. destruct (pp_pkt pp) as [p|] eqn:E.
  - destruct (Hp p eq_refl) as [Hpb Hpl'].
    destruct (Xor_rd p 12 d ltac:(lia) ltac:(lia)) as (A & B & _ & C).
    set (d1 := XorPayloads _ _ _ _) in *.
    assert (recover_step (d, seq, ssrc) pp = (d1, seq, ssrc)) as ->
      by (unfold recover_step; by rewrite E).
    destruct (IH d1 seq ssrc) as (I1 & I2 & I3 & I4).
    { by apply Xor_bytes. } { lia. }
    split; [exact I1|]. split; [exact I2|]. split.
    + intros k Hk. rewrite parity_cons, <- Z.lxor_assoc. unfold on_pkt at 1. rewrite E, <- B by lia.
      exact (I3 k Hk).
    + intros i Hi. rewrite parity_cons, <- Z.lxor_assoc. unfold on_pkt at 1. rewrite E, <- C by lia.
      exact (I4 i Hi).
  - assert (recover_step (d, seq, ssrc) pp = (d, pp_seq_num pp, pp_ssrc pp)) as ->
      by (unfold recover_step; by rewrite E).
    destruct (IH d (pp_seq_num pp) (pp_ssrc pp) Hb Hd) as (I1 & I2 & I3 & I4).
    split; [done|]. split; [done|]. split; intros; rewrite parity_cons; unfold on_pkt at 1;
      rewrite E, Z.lxor_0_l; auto.
Qed.

(** Only the missing packet gives sequence number and SSRC. *)
Lemma recover_ids l d seq ssrc : Forall (λ pp, pp_pkt pp ≠ None) l →
  (foldl recover_step (d, seq, ssrc) l).1.2 = seq ∧ (foldl recover_step (d, seq, ssrc) l).2 = ssrc.
Proof.
  intros H. revert d seq ssrc. induction H as [|pp l Hp Hl IH]; intros d seq ssrc; [done|].
  cbn [foldl]. destruct (recover_step (d, seq, ssrc) pp) as [[d' seq'] ssrc'] eqn:E.
  unfold recover_step in E. destruct (pp_pkt pp); [|done]. injection E as <- <- <-. apply IH.
Qed.

(** ** The missing packet *)

(** A media packet as the sender has it: an RTP packet of version 2 with the given sequence
    number and SSRC, not larger than the receiver accepts a recovered packet. *)
Record media_packet (ssrc seq : Z) (p : list Z) : Prop := {
  media_bytes : is_bytes p;
  media_size : kRtpHeaderSize ≤ zlen p ≤ IP_PACKET_SIZE - kRtpHeaderSize;
  media_version : Z.land (p.[0]) 0xc0 = 0x80;
  media_seq : ParseSequenceNumber p = seq;
  media_ssrc : ParseSsrc p = ssrc;
}.

(** The data of an FEC packet, with its header read, are the parity of the packets it protects;
    [orig] gives the packet of a sequence number. *)
Record fec_encodes (orig : Z → list Z) (f : ReceivedFecPacket) : Prop := {
  enc_bytes : is_bytes (fec_pkt f);
  enc_header : kRtpHeaderSize ≤ fec_header_size f;
  enc_room : fec_header_size f + protection_length f ≤ zlen (fec_pkt f);
  enc_limit : 0 ≤ protection_length f ≤
    Z.min (IP_PACKET_SIZE - kRtpHeaderSize) (IP_PACKET_SIZE - fec_header_size f);
  enc_length : Forall (λ pp, zlen (orig (pp_seq_num pp)) - kRtpHeaderSize ≤ protection_length f)
    (protected_packets f);
  enc_head0 : Z.land ((fec_pkt f).[0]) 0x3f =
    Z.land (parity (λ pp, (orig (pp_seq_num pp)).[0]) (protected_packets f)) 0x3f;
  enc_head : ∀ k, 1 ≤ k < 8 → (fec_pkt f).[k] =
    parity (λ pp, recovery_head (orig (pp_seq_num pp)) k) (protected_packets f);
  enc_payload : ∀ i, 0 ≤ i < protection_length f → (fec_pkt f).[fec_header_size f + i] =
    parity (λ pp, (orig (pp_seq_num pp)).[12 + i]) (protected_packets f);
}.

(** The packets it protects are media packets of the stream [ssrc]; those present are right. *)
Definition protects (ssrc : Z) (orig : Z → list Z) (l : list ProtectedPacket) : Prop :=
  Forall (λ pp, media_packet ssrc (pp_seq_num pp) (orig (pp_seq_num pp)) ∧ pp_ssrc pp = ssrc ∧
    (pp_pkt pp = None ∨ pp_pkt pp = Some (orig (pp_seq_num pp)))) l.

(** The parity of all and the parity of those present leave the one that is missing. *)
Lemma parity_missing ssrc orig (f : list Z → Z) l1 pp0 l2 :
  protects ssrc orig (l1 ++ pp0 :: l2) → pp_pkt pp0 = None →
  Forall (λ pp, pp_pkt pp ≠ None) l1 → Forall (λ pp, pp_pkt pp ≠ None) l2 →
  Z.lxor (parity (λ pp, f (orig (pp_seq_num pp))) (l1 ++ pp0 :: l2))
    (parity (on_pkt f) (l1 ++ pp0 :: l2)) = f (orig (pp_seq_num pp0)).
Proof.
  intros Hp H0 H1 H2. rewrite parity_lxor, parity_app, parity_cons.
  assert (∀ l, protects ssrc orig l → Forall (λ pp, pp_pkt pp ≠ None) l →
    parity (λ pp, Z.lxor (f (orig (pp_seq_num pp))) (on_pkt f pp)) l = 0) as Hz.
  { intros l Hl Hn. unfold protects in Hl. apply parity_zero. apply list.Forall_forall. intros pp Hpp.
    rewrite list.Forall_forall in Hl, Hn. specialize (Hn pp Hpp).
    destruct (Hl pp Hpp) as (_ & _ & [E|E]); [done|]. unfold on_pkt. rewrite E.
    apply Z.lxor_nilpotent. }
  apply Forall_app in Hp as [Hp1 Hp2]. inversion Hp2; subst.
  rewrite !Hz by done. unfold on_pkt. by rewrite H0, Z.lxor_0_l, !Z.lxor_0_r.
Qed.

(** The first byte: version 2, the rest from the parity. *)
Lemma first_byte x y : uint8 x → uint8 y → Z.land x 0x3f = Z.land y 0x3f →
  Z.land y 0xc0 = 0x80 → Z.land (Z.lor x 0x80) 0xbf = y.
Proof.
  intros Hx Hy Hl Hv.
  assert (check_range (λ x, check_range (λ y, negb ((Z.land x 0x3f =? Z.land y 0x3f) &&
    (Z.land y 0xc0 =? 0x80)) || (Z.land (Z.lor x 0x80) 0xbf =? y)) 0 256) 0 256 = true) as H
    by (vm_compute; reflexivity).
  apply (check_range_spec _ _ _ x) in H; [|unfold uint8 in *; lia].
  apply (check_range_spec _ _ _ y) in H; [|unfold uint8 in *; lia].
  rewrite Hl, Hv, !Z.eqb_refl in H. simpl in H. lia.
Qed.

Lemma land_lxor_l a b c : Z.land (Z.lxor a b) c = Z.lxor (Z.land a c) (Z.land b c).
Proof.
  apply Z.bits_inj. intros n. rewrite !Z.land_spec, !Z.lxor_spec, !Z.land_spec.
  by destruct (Z.testbit a n), (Z.testbit b n), (Z.testbit c n).
Qed.

(** Bytes 2 and 3, and 8 to 11, of a media packet. *)
Lemma media_seq_bytes ssrc seq p : media_packet ssrc seq p → be_bytes 2 seq = slice p 2 2.
Proof.
  intros [Hb Hs _ <- _]. unfold kRtpHeaderSize in Hs.
  assert (slice p 2 2 = [p.[2]; p.[3]]) as ->.
  { rewrite !slice_cons by lia. by rewrite slice_0. }
  pose proof (bytes_rd p 2 Hb). pose proof (bytes_rd p 3 Hb). unfold uint8 in *.
  unfold ParseSequenceNumber. cbn [be_bytes]. rewrite Z.shiftr_0_r.
  rewrite shiftr_div, shiftl_mul by lia. unfold u8, u16.
  f_equal; [|f_equal]; simpl Z.of_nat; zdiv.
Qed.

Lemma media_ssrc_bytes ssrc seq p : media_packet ssrc seq p → be_bytes 4 ssrc = slice p 8 4.
Proof.
  intros [Hb Hs _ _ <-]. unfold kRtpHeaderSize in Hs.
  assert (slice p 8 4 = [p.[8]; p.[9]; p.[10]; p.[11]]) as ->.
  { rewrite !slice_cons by lia. by rewrite slice_0. }
  pose proof (bytes_rd p 8 Hb). pose proof (bytes_rd p 9 Hb). pose proof (bytes_rd p 10 Hb).
  pose proof (bytes_rd p 11 Hb). unfold uint8 in *.
  assert (ParseSsrc p = p.[8] * 2 ^ 24 + p.[9] * 2 ^ 16 + p.[10] * 2 ^ 8 + p.[11]) as ->.
  { unfold ParseSsrc, add32, shl32. rewrite !s32_add_l. rewrite !shiftl_mul by lia.
    unfold u32, s32. zdiv. }
  cbn [be_bytes]. rewrite Z.shiftr_0_r. rewrite !shiftr_div by lia. unfold u8.
  change (8 * Z.of_nat 3) with 24. change (8 * Z.of_nat 2) with 16. change (8 * Z.of_nat 1) with 8.
  f_equal; [zdiv|]. f_equal; [zdiv|]. f_equal; [zdiv|]. f_equal. zdiv.
Qed.

Lemma rd_resize (d : list Z) n i : 0 ≤ n → i < n →
  (if n >? zlen d then grow d n else take (Z.to_nat n) d).[i] = d.[i] ∧
  zlen (if n >? zlen d then grow d n else take (Z.to_nat n) d) = n.
Proof.
  intros Hn Hi. destruct (Z.gtb_spec n (zlen d)).
  - rewrite rd_grow, grow_length. split; [done|lia].
  - rewrite rd_take, length_take by lia. split; [done|lia].
Qed.

Lemma FinishPacketRecovery_exact ssrc seq d m : is_bytes d → 12 ≤ zlen d →
  media_packet ssrc seq m → Z.land (d.[0]) 0x3f = Z.land (m.[0]) 0x3f →
  (∀ k, 1 ≤ k < 8 → d.[k] = recovery_head m k) → (∀ i, 0 ≤ i → d.[12 + i] = m.[12 + i]) →
  FinishPacketRecovery d seq ssrc = Some m.
Proof.
  intros Hb Hl Hm H0 Hh Hp. pose proof Hm as [Hmb Hms Hmv _ _].
  unfold kRtpHeaderSize, IP_PACKET_SIZE in Hms. unfold FinishPacketRecovery.
  rewrite rd_wr_eq by lia. set (d2 := wr (wr d 0 _) 0 _).
  assert (is_bytes d2 ∧ length d2 = length d ∧ d2.[0] = m.[0] ∧ ∀ k, k ≠ 0 → d2.[k] = d.[k])
    as (B2 & L2 & D0 & D2).
  { assert (Z.land (Z.lor (d.[0]) 0x80) 0xbf = m.[0]) as E
      by (apply first_byte; auto using bytes_rd).
    subst d2. rewrite E. rewrite !wr_length. split_and!; [| done | |].
    - apply wr_Forall; [|by apply bytes_rd].
      assert (uint8 (Z.lor (d.[0]) 0x80)); [|by apply wr_Forall].
      pose proof (bytes_rd d 0 Hb) as [Hd0 Hd1]. split; [apply Z.lor_nonneg; lia|].
      assert (Z.lor (d.[0]) 0x80 < 2 ^ 8); [|lia]. apply Z.log2_lt_cancel.
      rewrite Z.log2_lor, Z.log2_pow2 by lia. apply Z.max_lub_lt; [|done].
      destruct (Z.eq_dec (d.[0]) 0) as [->|]; [done|]. apply Z.log2_lt_pow2; lia.
    - rewrite rd_wr_eq by (rewrite wr_length; lia). done.
    - intros k Hk. by rewrite !rd_wr_ne by done. }
  clearbody d2. assert (ReadBigEndian 2 2 d2 2 + kRtpHeaderSize = zlen m) as ->.
  { rewrite (read_be 2 2 d2 2 (zlen m - 12)); [unfold kRtpHeaderSize; lia|lia|done|lia|lia| |lia].
    rewrite !slice_cons, slice_0, !D2, !Hh by lia. unfold recovery_head. cbn [Z.eqb Pos.eqb].
    unfold kRtpHeaderSize. rewrite u16_id by cint. cbn [be_bytes Z.to_nat Pos.to_nat].
    unfold be_bytes. change (Z.to_nat 2) with 2%nat. cbn. rewrite Z.shiftr_0_r. done. }
  unfold IP_PACKET_SIZE, kRtpHeaderSize. destruct (Z.gtb_spec (zlen m) (1500 - 12)); [lia|].
  set (d3 := if _ >? _ then _ else _).
  assert (zlen d3 = zlen m ∧ ∀ i, i < zlen m → d3.[i] = d2.[i]) as [L3 D3].
  { split; [apply (rd_resize d2 (zlen m) (-1)); lia|]. intros i Hi. apply rd_resize; lia. }
  clearbody d3. f_equal.
  rewrite (WriteBigEndian_store 2) by lia. change (Z.to_nat 2) with 2%nat.
  rewrite (media_seq_bytes ssrc seq m Hm).
  assert (zlen (slice m 2 2) = 2) as S2 by (rewrite slice_length; lia).
  assert (zlen (slice m 8 4) = 4) as S4 by (rewrite slice_length; lia).
  assert (length (store d3 2 (slice m 2 2)) = length d3) as L4 by (apply store_length; lia).
  rewrite WriteBigEndian_store by (rewrite ?L4; lia). change (Z.to_nat 4) with 4%nat.
  rewrite (media_ssrc_bytes ssrc seq m Hm).
  apply list_rd_eq; [rewrite store_length; lia|]. rewrite store_length, L4, L3 by lia. intros i Hi.
  rewrite !rd_store by lia. rewrite S2, S4.
  destruct_cmp; try lia; rewrite ?rd_slice by lia; try (f_equal; lia); rewrite D3 by lia.
  all: destruct (Z.eq_dec i 0) as [->|]; [done|]; rewrite D2 by done.
  all: try (rewrite Hh by lia; unfold recovery_head;
            destruct (Z.eqb_spec i 2); [lia|]; destruct (Z.eqb_spec i 3); [lia|done]).
  all: replace i with (12 + (i - 12)) by lia; apply Hp; lia.
Qed.

(** An FEC packet with one missing packet gives it back exactly. *)
Lemma RecoverPacket_exact ssrc orig f l1 pp0 l2 :
  fec_encodes orig f → protected_packets f = l1 ++ pp0 :: l2 →
  protects ssrc orig (protected_packets f) → pp_pkt pp0 = None →
  Forall (λ pp, pp_pkt pp ≠ None) l1 → Forall (λ pp, pp_pkt pp ≠ None) l2 →
  RecoverPacket f =
    Some (MkRecovered ssrc (pp_seq_num pp0) true false (orig (pp_seq_num pp0))).
Proof.
  intros [Eb Ehd Er El Elen Eh0 Eh Ep] Hl Hp H0 H1 H2.
  unfold RecoverPacket, StartPacketRecovery. destruct (Z.ltb_spec (zlen (fec_pkt f))
    (fec_header_size f + protection_length f)); [lia|].
  rewrite Z.gtb_ltb. destruct (Z.ltb_spec (Z.min (IP_PACKET_SIZE - kRtpHeaderSize)
    (IP_PACKET_SIZE - fec_header_size f)) (protection_length f)); [lia|].
  unfold kRtpHeaderSize, IP_PACKET_SIZE in *.
  set (d0 := slice (fec_pkt f) 0 12 ++ slice (fec_pkt f) _ _).
  set (pl := protection_length f) in *. set (hs := fec_header_size f) in *.
  assert (zlen (slice (fec_pkt f) 0 12) = 12) as S12 by (rewrite slice_length; lia).
  assert (zlen d0 = 12 + pl) as L0 by (subst d0; rewrite zlen_app, S12, slice_length; lia).
  assert (∀ k, 0 ≤ k < 12 → d0.[k] = (fec_pkt f).[k]) as D0h.
  { intros k Hk. subst d0. rewrite rd_app_l, rd_slice by lia. f_equal. }
  assert (∀ i, 0 ≤ i < pl → d0.[12 + i] = (fec_pkt f).[hs + i]) as D0p.
  { intros i Hi. subst d0. rewrite rd_app_r, S12, rd_slice by lia. f_equal. lia. }
  assert (is_bytes d0) as B0
    by (apply Forall_app; split; apply Forall_take, Forall_drop, Eb).
  clearbody d0. destruct (recover_fold pl (protected_packets f) d0 0 0 B0 L0 ltac:(lia))
    as (B1 & L1 & D1h & D1p).
  { unfold protects in Hp. apply list.Forall_forall. intros pp Hpp p E.
    rewrite list.Forall_forall in Hp, Elen. destruct (Hp pp Hpp) as (M & _ & [E'|E']); [congruence|].
    assert (p = orig (pp_seq_num pp)) as -> by congruence. specialize (Elen pp Hpp).
    destruct M as [Mb Ms _ _ _]. unfold kRtpHeaderSize in Ms. split; [done|]. lia. }
  assert (media_packet ssrc (pp_seq_num pp0) (orig (pp_seq_num pp0)) ∧ pp_ssrc pp0 = ssrc)
    as [M Hssrc].
  { rewrite Hl in Hp. apply Forall_app in Hp as [_ Hp]. inversion Hp; subst. tauto. }
  assert ((foldl recover_step (d0, 0, 0) (protected_packets f)).1.2 = pp_seq_num pp0 ∧
    (foldl recover_step (d0, 0, 0) (protected_packets f)).2 = ssrc) as [I1 I2].
  { rewrite Hl, foldl_app. cbn [foldl].
    destruct (foldl recover_step (d0, 0, 0) l1) as [[d s] c]. unfold recover_step at 2 4.
    rewrite H0, Hssrc. by apply recover_ids. }
  destruct (foldl recover_step (d0, 0, 0) (protected_packets f)) as [[d1 s] c].
  cbn [fst snd] in *. subst s c. rewrite Hl in *.
  rewrite (FinishPacketRecovery_exact ssrc (pp_seq_num pp0) d1 (orig (pp_seq_num pp0)));
    [done|done|lia|done|..].
  - rewrite D1h, D0h by lia. rewrite land_lxor_l, Eh0, <- land_lxor_l. f_equal.
    exact (parity_missing ssrc orig (λ p, p.[0]) l1 pp0 l2 Hp H0 H1 H2).
  - intros k Hk. rewrite D1h, D0h, Eh by lia.
    exact (parity_missing ssrc orig (λ p, recovery_head p k) l1 pp0 l2 Hp H0 H1 H2).
  - intros i Hi. rewrite D1p by lia. destruct (Z.ltb_spec i pl).
    + rewrite D0p, Ep by lia.
      exact (parity_missing ssrc orig (λ p, p.[12 + i]) l1 pp0 l2 Hp H0 H1 H2).
    + rewrite <- (parity_missing ssrc orig (λ p, p.[12 + i]) l1 pp0 l2 Hp H0 H1 H2). f_equal.
      rewrite rd_beyond by lia. symmetry. apply parity_zero.
      apply (list.Forall_impl _ _ _ Elen). intros pp Hpp. apply rd_beyond. lia.
Qed.
