(* ===== verification/FecHeaders.v ===== *)
(** The two header formats of forward error correction: ulpfec_header_reader_writer.cc and
    flexfec_03_header_reader_writer.cc of modules/rtp_rtcp/source.

    Each is a value of [FecHeaderFormat].  The class [FecHeaderOk] states what the encoder
    and the decoder rely on: reading undoes writing, except for the bytes the header takes. *)
From S2P Require Import Prelude ByteIo Rtcp FecMasks FecPacket.

(** * Definitions *)

Definition set_header (f : ReceivedFecPacket) (header_size : Z) (streams : list ProtectedStream)
    (length : Z) (data : list Z) : ReceivedFecPacket :=
  MkFec (fec_ssrc f) (fec_seq_num f) (protected_packets f) header_size streams length data.

Definition set_data (f : ReceivedFecPacket) (data : list Z) : ReceivedFecPacket :=
  set_header f (fec_header_size f) (protected_streams f) (protection_length f) data.

Definition is_set (x mask : Z) : bool := negb (Z.land x mask =? 0).

(** ** ulpfec_header_reader_writer.cc *)

Module Ulpfec.
Definition kMaxMediaPackets : Z := 48.
Definition kMaxTrackedMediaPackets : Z := 4 * kMaxMediaPackets.
Definition kMaxFecPackets : Z := kMaxMediaPackets.
Definition kFecLevel0HeaderSize : Z := 10.
Definition kFecLevel1HeaderSizeLBitSet : Z := 2 + kUlpfecPacketMaskSizeLBitSet.
Definition kFecLevel1HeaderSizeLBitClear : Z := 2 + kUlpfecPacketMaskSizeLBitClear.
Definition kPacketMaskOffset : Z := kFecLevel0HeaderSize + 2.

Definition UlpfecHeaderSize (packet_mask_size : Z) : Z :=
  if packet_mask_size <=? kUlpfecPacketMaskSizeLBitClear
  then kFecLevel0HeaderSize + kFecLevel1HeaderSizeLBitClear
  else kFecLevel0HeaderSize + kFecLevel1HeaderSizeLBitSet.

Definition ReadFecHeader (f : ReceivedFecPacket) : ReceivedFecPacket * bool :=
  let data := fec_pkt f in
  if zlen data <? kPacketMaskOffset then (f, false)
  else
    let l_bit := is_set (data.[0]) 0x40 in
    let packet_mask_size :=
      if l_bit then kUlpfecPacketMaskSizeLBitSet else kUlpfecPacketMaskSizeLBitClear in
    let seq_num_base := ReadBigEndian 2 2 data 2 in
    let protection_length := ReadBigEndian 2 2 data 10 in
    let data := store data 2 (slice data 8 2) in
    (set_header f (UlpfecHeaderSize packet_mask_size)
       [MkStream (fec_ssrc f) seq_num_base kPacketMaskOffset packet_mask_size]
       protection_length data, true).

Definition FinalizeFecHeader (s : WriterStream) (data : list Z) : list Z :=
  let packet_mask := ws_packet_mask s in
  let packet_mask_size := zlen packet_mask in
  let data := wr data 0 (Z.land (data.[0]) 0x7f) in
  let l_bit := packet_mask_size =? kUlpfecPacketMaskSizeLBitSet in
  let data :=
    if l_bit then wr data 0 (Z.lor (data.[0]) 0x40) else wr data 0 (Z.land (data.[0]) 0xbf) in
  let data := store data 8 (slice data 2 2) in
  let data := WriteBigEndian 2 data 2 (ws_seq_num_base s) in
  let fec_header_size := UlpfecHeaderSize packet_mask_size in
  let data := WriteBigEndian 2 data 10 (u16 (zlen data - fec_header_size)) in
  store data 12 packet_mask.
End Ulpfec.

Definition UlpfecFormat : FecHeaderFormat := {|
  max_tracked_media_packets := Ulpfec.kMaxTrackedMediaPackets;
  max_fec_packets := Ulpfec.kMaxFecPackets;
  max_media_packets := Ulpfec.kMaxMediaPackets;
  max_packet_overhead := Ulpfec.kFecLevel0HeaderSize + Ulpfec.kFecLevel1HeaderSizeLBitSet;
  ReadFecHeader := Ulpfec.ReadFecHeader;
  MinPacketMaskSize := λ _ packet_mask_size, packet_mask_size;
  FecHeaderSize := Ulpfec.UlpfecHeaderSize;
  FinalizeFecHeader := Ulpfec.FinalizeFecHeader;
|}.

(** ** flexfec_03_header_reader_writer.cc *)

Module Flexfec03.
Definition kMaxMediaPackets : Z := 48.
Definition kMaxTrackedMediaPackets : Z := 4 * kMaxMediaPackets.
Definition kMaxFecPackets : Z := kMaxMediaPackets.
Definition kFlexfecPacketMaskSizes : list Z := [2; 6; 14].
Definition kBaseHeaderSize : Z := 12.
Definition kStreamSpecificHeaderSize : Z := 6.
Definition kHeaderSizes : list Z :=
  [kBaseHeaderSize + kStreamSpecificHeaderSize + kFlexfecPacketMaskSizes.[0];
   kBaseHeaderSize + kStreamSpecificHeaderSize + kFlexfecPacketMaskSizes.[1];
   kBaseHeaderSize + kStreamSpecificHeaderSize + kFlexfecPacketMaskSizes.[2]].
Definition kSsrcCount : Z := 1.
Definition kReservedBits : Z := 0.
Definition kPacketMaskOffset : Z := kBaseHeaderSize + kStreamSpecificHeaderSize.

Definition FlexfecHeaderSize (packet_mask_size : Z) : Z :=
  if packet_mask_size <=? kFlexfecPacketMaskSizes.[0] then kHeaderSizes.[0]
  else if packet_mask_size <=? kFlexfecPacketMaskSizes.[1] then kHeaderSizes.[1]
  else kHeaderSizes.[2].

(** The part of [ReadFecHeader] that removes the K-bits: the data and, unless the header is
    truncated or malformed, the size of the packet mask.  [m] is the offset of the mask. *)
Definition read_mask (data : list Z) (m : Z) : list Z * option Z :=
  let k_bit0 := is_set (data.[m + 0]) 0x80 in
  let mask_part0 := u16 (ReadBigEndian 2 2 data (m + 0) ≪ 1) in
  let data := WriteBigEndian 2 data (m + 0) mask_part0 in
  if k_bit0 then (data, Some (kFlexfecPacketMaskSizes.[0]))
  else if zlen data <? kHeaderSizes.[1] then (data, None)
  else
    let k_bit1 := is_set (data.[m + 2]) 0x80 in
    let bit15 := Z.land (data.[m + 2] ≫ 6) 0x01 in
    let data := wr data (m + 1) (Z.lor (data.[m + 1]) bit15) in
    let mask_part1 := u32 (ReadBigEndian 4 4 data (m + 2) ≪ 2) in
    let data := WriteBigEndian 4 data (m + 2) mask_part1 in
    if k_bit1 then (data, Some (kFlexfecPacketMaskSizes.[1]))
    else if zlen data <? kHeaderSizes.[2] then (data, None)
    else
      let k_bit2 := is_set (data.[m + 6]) 0x80 in
      if k_bit2 then
        let tail_bits := Z.land (data.[m + 6] ≫ 5) 0x03 in
        let data := wr data (m + 5) (Z.lor (data.[m + 5]) tail_bits) in
        let mask_part2 := u64 (ReadBigEndian 8 8 data (m + 6) ≪ 3) in
        (WriteBigEndian 8 data (m + 6) mask_part2, Some (kFlexfecPacketMaskSizes.[2]))
      else (data, None).

Definition ReadFecHeader (f : ReceivedFecPacket) : ReceivedFecPacket * bool :=
  let data := fec_pkt f in
  if zlen data <=? kBaseHeaderSize + kStreamSpecificHeaderSize then (f, false)
  else if is_set (data.[0]) 0x80 then (f, false)
  else if is_set (data.[0]) 0x40 then (f, false)
  else if negb (ReadBigEndian 1 1 data 8 =? 1) then (f, false)
  else
    let protected_ssrc := ReadBigEndian 4 4 data 12 in
    let seq_num_base := ReadBigEndian 2 2 data 16 in
    if zlen data <? kHeaderSizes.[0] then (f, false)
    else
      let '(data, packet_mask_size) := read_mask data kPacketMaskOffset in
      match packet_mask_size with
      | None => (set_data f data, false)
      | Some packet_mask_size =>
          let fec_header_size := FlexfecHeaderSize packet_mask_size in
          (set_header f fec_header_size
             [MkStream protected_ssrc seq_num_base kPacketMaskOffset packet_mask_size]
             (zlen data - fec_header_size) data, true)
      end.

Definition MinPacketMaskSize (packet_mask : list Z) (packet_mask_size : Z) : Z :=
  if (packet_mask_size =? kUlpfecPacketMaskSizeLBitClear) && (Z.land (packet_mask.[1]) 0x01 =? 0)
  then kFlexfecPacketMaskSizes.[0]
  else if packet_mask_size =? kUlpfecPacketMaskSizeLBitClear then kFlexfecPacketMaskSizes.[1]
  else if (packet_mask_size =? kUlpfecPacketMaskSizeLBitSet) && (Z.land (packet_mask.[5]) 0x03 =? 0)
  then kFlexfecPacketMaskSizes.[1]
  else kFlexfecPacketMaskSizes.[2].

Definition or_at (data : list Z) (i v : Z) : list Z := wr data i (Z.lor (data.[i]) v).

(** The packet mask with K-bits at offset [m]. *)
Definition write_mask (data : list Z) (m : Z) (packet_mask : list Z) : list Z :=
  if zlen packet_mask =? kUlpfecPacketMaskSizeLBitSet then
    let tmp_mask_part0 := ReadBigEndian 2 2 packet_mask 0 in
    let tmp_mask_part1 := ReadBigEndian 4 4 packet_mask 2 in
    let tmp_mask_part0 := tmp_mask_part0 ≫ 1 in
    let data := WriteBigEndian 2 data (m + 0) tmp_mask_part0 in
    let tmp_mask_part1 := tmp_mask_part1 ≫ 2 in
    let data := WriteBigEndian 4 data (m + 2) tmp_mask_part1 in
    let bit15 := is_set (packet_mask.[1]) 0x01 in
    let data := if bit15 then or_at data (m + 2) 0x40 else data in
    let bit46 := is_set (packet_mask.[5]) 0x02 in
    let bit47 := is_set (packet_mask.[5]) 0x01 in
    if negb bit46 && negb bit47 then or_at data (m + 2) 0x80
    else
      let data := store data (m + 6) (replicate 8 0) in
      let data := or_at data (m + 6) 0x80 in
      let data := if bit46 then or_at data (m + 6) 0x40 else data in
      if bit47 then or_at data (m + 6) 0x20 else data
  else if zlen packet_mask =? kUlpfecPacketMaskSizeLBitClear then
    let tmp_mask_part0 := ReadBigEndian 2 2 packet_mask 0 in
    let tmp_mask_part0 := tmp_mask_part0 ≫ 1 in
    let data := WriteBigEndian 2 data (m + 0) tmp_mask_part0 in
    let bit15 := is_set (packet_mask.[1]) 0x01 in
    if negb bit15 then or_at data (m + 0) 0x80
    else
      let data := store data (m + 2) (replicate 4 0) in
      let data := or_at data (m + 2) 0x80 in
      or_at data (m + 2) 0x40
  else data.

Definition FinalizeFecHeader (s : WriterStream) (data : list Z) : list Z :=
  let data := wr data 0 (Z.land (data.[0]) 0x7f) in
  let data := wr data 0 (Z.land (data.[0]) 0xbf) in
  let data := WriteBigEndian 1 data 8 kSsrcCount in
  let data := WriteBigEndian 3 data 9 kReservedBits in
  let data := WriteBigEndian 4 data 12 (ws_ssrc s) in
  let data := WriteBigEndian 2 data 16 (ws_seq_num_base s) in
  write_mask data kPacketMaskOffset (ws_packet_mask s).
End Flexfec03.

Definition Flexfec03Format : FecHeaderFormat := {|
  max_tracked_media_packets := Flexfec03.kMaxTrackedMediaPackets;
  max_fec_packets := Flexfec03.kMaxFecPackets;
  max_media_packets := Flexfec03.kMaxMediaPackets;
  max_packet_overhead := Flexfec03.kHeaderSizes.[2];
  ReadFecHeader := Flexfec03.ReadFecHeader;
  MinPacketMaskSize := Flexfec03.MinPacketMaskSize;
  FecHeaderSize := Flexfec03.FlexfecHeaderSize;
  FinalizeFecHeader := Flexfec03.FinalizeFecHeader;
|}.

(** * What the formats promise *)

(** A header that is accepted protects one stream: the check of the decoder cannot fail. *)
Lemma ReadFecHeader_one_stream (F : FecHeaderFormat) f f' : F = UlpfecFormat ∨ F = Flexfec03Format →
  ReadFecHeader f = (f', true) → length (protected_streams f') = 1%nat.
Proof.
  intros [-> | ->]; cbn [ReadFecHeader UlpfecFormat Flexfec03Format].
  - unfold Ulpfec.ReadFecHeader. intros E. case_match; by simplify_eq/=.
  - unfold Flexfec03.ReadFecHeader. intros E. repeat case_match; by simplify_eq/=.
Qed.

Definition mask_ok (mask : list Z) : Prop := is_bytes mask ∧ (zlen mask = 2 ∨ zlen mask = 6).

(** [f] is what the reader makes of [data] with the header [s] written into its first [hs]
    bytes: all but the header is as it was, the fields of the parity included. *)
Record header_read (s : WriterStream) (hs : Z) (data : list Z) (ssrc seq : Z)
    (f : ReceivedFecPacket) : Prop := {
  hr_ids : fec_ssrc f = ssrc ∧ fec_seq_num f = seq ∧ protected_packets f = [];
  hr_size : fec_header_size f = hs;
  hr_protection : protection_length f = zlen data - hs;
  hr_length : length (fec_pkt f) = length data;
  hr_bytes : is_bytes (fec_pkt f);
  hr_stream : ∃ off size,
    protected_streams f = [MkStream (ws_ssrc s) (ws_seq_num_base s) off size] ∧
    0 ≤ off ∧ off + size ≤ zlen data ∧ zlen (ws_packet_mask s) ≤ size ≤ 14 ∧
    ∀ k, 0 ≤ k < 8 * size → Z.testbit ((fec_pkt f).[off + k `div` 8]) (7 - k `mod` 8) =
      mask_bit (ws_packet_mask s) 0 0 k;
  hr_head0 : Z.land ((fec_pkt f).[0]) 0x3f = Z.land (data.[0]) 0x3f;
  hr_head : ∀ k, 1 ≤ k < 8 → (fec_pkt f).[k] = data.[k];
  hr_payload : ∀ k, hs ≤ k → (fec_pkt f).[k] = data.[k];
}.

Definition NewReceivedFec (ssrc seq : Z) (data : list Z) : ReceivedFecPacket :=
  MkFec ssrc seq [] 0 [] 0 data.

(** [carries_ssrc] says whether the header names the protected stream; otherwise it is the
    stream of the FEC packet. *)
Class FecHeaderOk (F : FecHeaderFormat) (carries_ssrc : bool) : Prop := {
  header_limits : max_media_packets = 48 ∧ max_fec_packets = 48 ∧ max_tracked_media_packets = 192;
  header_size_range : ∀ mask, mask_ok mask →
    14 ≤ FecHeaderSize (MinPacketMaskSize mask (zlen mask)) ≤ max_packet_overhead ∧
    max_packet_overhead ≤ 32;
  header_roundtrip : ∀ s data ssrc seq, mask_ok (ws_packet_mask s) → is_bytes data →
    uint32 (ws_ssrc s) → uint16 (ws_seq_num_base s) →
    (carries_ssrc = false → ssrc = ws_ssrc s) →
    let hs := FecHeaderSize (MinPacketMaskSize (ws_packet_mask s) (zlen (ws_packet_mask s))) in
    hs ≤ zlen data → zlen data - hs ≤ 65535 →
    length (FinalizeFecHeader s data) = length data ∧ is_bytes (FinalizeFecHeader s data) ∧
    ∃ f, ReadFecHeader (NewReceivedFec ssrc seq (FinalizeFecHeader s data)) = (f, true) ∧
      header_read s hs data ssrc seq f;
}.

(** * ULPFEC *)

Lemma byte_check (P : Z → bool) x : check_range P 0 256 = true → uint8 x → P x = true.
Proof. intros H Hx. apply (check_range_spec P 0 256 x H). unfold uint8 in Hx. lia. Qed.

(** The first byte: the two top bits are replaced, the others kept. *)
Lemma head_byte x (l : bool) : uint8 x →
  let y := if l then Z.lor (Z.land x 0x7f) 0x40 else Z.land (Z.land x 0x7f) 0xbf in
  uint8 y ∧ is_set y 0x40 = l ∧ is_set y 0x80 = false ∧ Z.land y 0x3f = Z.land x 0x3f.
Proof.
  intros Hx y.
  pose (P := λ x, let y := if l then Z.lor (Z.land x 0x7f) 0x40 else Z.land (Z.land x 0x7f) 0xbf in
    bool_decide (uint8 y) && Bool.eqb (is_set y 0x40) l && negb (is_set y 0x80) &&
    (Z.land y 0x3f =? Z.land x 0x3f)).
  assert (P x = true) as H by (apply byte_check; [subst P; destruct l; vm_compute; reflexivity|done]).
  subst P. cbv beta zeta in H. fold y in H.
  rewrite !andb_true_iff, negb_true_iff in H. destruct H as [[[H1 H2] H3] H4].
  apply bool_decide_eq_true_1 in H1. apply eqb_prop in H2. split_and!; [done..|lia].
Qed.

(** Reading a number just written. *)
Lemma read_stored S B d p v : 1 ≤ B ≤ S → is_bytes d → 0 ≤ p → p + B ≤ zlen d → 0 ≤ v < 2 ^ (8 * B) →
  (∀ i, 0 ≤ i < B → d.[p + i] = (be_bytes (Z.to_nat B) v).[i]) → ReadBigEndian S B d p = v.
Proof.
  intros HB Hd Hp Hl Hv He. apply read_be; try done.
  apply list_rd_eq; [rewrite slice_length, be_bytes_length; lia|].
  rewrite slice_length by lia. intros i Hi. rewrite rd_slice by lia. apply He. lia.
Qed.

Lemma write_be_length B d p v : 0 ≤ p → 1 ≤ B → p + B ≤ zlen d →
  length (WriteBigEndian B d p v) = length d.
Proof.
  intros. rewrite WriteBigEndian_store by done.
  by rewrite store_length by (rewrite ?be_bytes_length; lia).
Qed.

Lemma rd_write_be B d p v i : 0 ≤ p → 1 ≤ B → p + B ≤ zlen d →
  (WriteBigEndian B d p v).[i] =
    if (p <=? i) && (i <? p + B) then (be_bytes (Z.to_nat B) v).[i - p] else d.[i].
Proof.
  intros. rewrite WriteBigEndian_store by done.
  rewrite rd_store by (rewrite ?be_bytes_length; lia).
  rewrite be_bytes_length, Z2Nat.id by lia. done.
Qed.

Lemma write_be_bytes B d p v : 0 ≤ p → 1 ≤ B → p + B ≤ zlen d → is_bytes d →
  is_bytes (WriteBigEndian B d p v).
Proof.
  intros. rewrite WriteBigEndian_store by done. apply store_Forall; [done|apply be_bytes_uint8].
Qed.

Lemma mask_bit_row mask k : mask_bit mask 0 0 k = Z.testbit (mask.[k `div` 8]) (7 - k `mod` 8).
Proof. done. Qed.

Lemma wr_wr d i a b : wr (wr d i a) i b = wr d i b.
Proof. unfold wr. destruct (i <? 0); [done|]. apply list_insert_insert_eq. Qed.

Lemma rd_wr d i v k : 0 ≤ i < zlen d → (wr d i v).[k] = if k =? i then v else d.[k].
Proof.
  intros. destruct (Z.eqb_spec k i) as [->|]; [by rewrite rd_wr_eq|by rewrite rd_wr_ne].
Qed.

(** The bytes of a packet with a ULPFEC header. *)
Lemma Ulpfec_written s data : mask_ok (ws_packet_mask s) → is_bytes data →
  12 + zlen (ws_packet_mask s) ≤ zlen data →
  let mask := ws_packet_mask s in
  let D := Ulpfec.FinalizeFecHeader s data in
  length D = length data ∧ is_bytes D ∧
  (is_set (D.[0]) 0x40 = (zlen mask =? 6)) ∧ Z.land (D.[0]) 0x3f = Z.land (data.[0]) 0x3f ∧
  ∀ k, k ≠ 0 → D.[k] =
    if (12 <=? k) && (k <? 12 + zlen mask) then mask.[k - 12]
    else if (10 <=? k) && (k <? 12)
         then (be_bytes 2 (u16 (zlen data - (12 + zlen mask)))).[k - 10]
    else if (2 <=? k) && (k <? 4) then (be_bytes 2 (ws_seq_num_base s)).[k - 2]
    else if (8 <=? k) && (k <? 10) then data.[k - 6]
    else data.[k].
Proof.
  intros [Hmb Hml] Hd Hl mask D. fold mask in Hmb, Hml, Hl.
  assert (Ulpfec.UlpfecHeaderSize (zlen mask) = 12 + zlen mask) as Ehs.
  { unfold Ulpfec.UlpfecHeaderSize. destruct Hml as [-> | ->]; done. }
  subst D. unfold Ulpfec.FinalizeFecHeader. fold mask. rewrite Ehs.
  change kUlpfecPacketMaskSizeLBitSet with 6. rewrite rd_wr_eq, !wr_wr by lia.
  destruct (head_byte (data.[0]) (zlen mask =? 6) (bytes_rd _ _ Hd)) as (Y1 & Y2 & _ & Y4).
  set (d1 := if zlen mask =? 6 then _ else _).
  assert (d1 = wr data 0 (if zlen mask =? 6 then Z.lor (Z.land data.[0] 127) 64
    else Z.land (Z.land data.[0] 127) 191)) as -> by (subst d1; by destruct (zlen mask =? 6)).
  set (y := if zlen mask =? 6 then _ else _) in *. clearbody y.
  set (d1 := wr data 0 y).
  assert (length d1 = length data) as L1 by apply wr_length.
  assert (is_bytes d1) as B1 by (by apply wr_Forall).
  assert (zlen (slice d1 2 2) = 2) as S1 by (rewrite slice_length; lia).
  set (d2 := store d1 8 (slice d1 2 2)).
  assert (length d2 = length data) as L2 by (subst d2; rewrite store_length; lia).
  assert (is_bytes d2) as B2 by (apply store_Forall; [done|]; apply Forall_take, Forall_drop, B1).
  set (d3 := WriteBigEndian 2 d2 2 _).
  assert (length d3 = length data) as L3 by (subst d3; rewrite write_be_length; lia).
  assert (is_bytes d3) as B3 by (apply write_be_bytes; [lia..|done]). rewrite L3.
  set (d4 := WriteBigEndian 2 d3 10 _).
  assert (length d4 = length data) as L4 by (subst d4; rewrite write_be_length; lia).
  assert (is_bytes d4) as B4 by (apply write_be_bytes; [lia..|done]).
  assert (∀ k, (store d4 12 mask).[k] =
    if (12 <=? k) && (k <? 12 + zlen mask) then mask.[k - 12]
    else if (10 <=? k) && (k <? 12)
         then (be_bytes 2 (u16 (zlen data - (12 + zlen mask)))).[k - 10]
    else if (2 <=? k) && (k <? 4) then (be_bytes 2 (ws_seq_num_base s)).[k - 2]
    else if (8 <=? k) && (k <? 10) then data.[k - 6]
    else if k =? 0 then y else data.[k]) as Hrd.
  { intros k. rewrite rd_store by lia. subst d4 d3.
    rewrite !rd_write_be by lia.
    subst d2. rewrite rd_store, S1 by lia. subst d1. rewrite (rd_wr data 0 y k) by lia.
    change (10 + 2) with 12. change (2 + 2) with 4. change (8 + 2) with 10.
    repeat match goal with |- (if ?b then _ else _) = _ => destruct b eqn:?; [done|] end.
    destruct ((8 <=? k) && (k <? 10)) eqn:E; [|done].
    rewrite rd_slice, rd_wr_ne by lia. f_equal. lia. }
  split; [rewrite store_length; lia|]. split; [by apply store_Forall|].
  assert ((store d4 12 mask).[0] = y) as -> by (rewrite Hrd; done).
  split; [done|]. split; [done|]. intros k Hk. rewrite Hrd.
  destruct (Z.eqb_spec k 0); [done|]. done.
Qed.

#[export] Instance Ulpfec_ok : FecHeaderOk UlpfecFormat false.
Proof.
  split.
  - done.
  - intros mask [_ Hm]. cbn. unfold Ulpfec.UlpfecHeaderSize. destruct Hm as [-> | ->]; done.
  - intros s data ssrc seq Hm Hd Hs Hb Hssrc. specialize (Hssrc eq_refl). subst ssrc.
    cbn [FecHeaderSize MinPacketMaskSize FinalizeFecHeader ReadFecHeader UlpfecFormat].
    set (mask := ws_packet_mask s). set (hs := Ulpfec.UlpfecHeaderSize (zlen mask)). intros Hhs Hpl.
    assert (zlen mask = 2 ∨ zlen mask = 6) as Hml by apply Hm.
    assert (hs = 12 + zlen mask) as Ehs
      by (subst hs; unfold Ulpfec.UlpfecHeaderSize; destruct Hml as [-> | ->]; done).
    destruct (Ulpfec_written s data Hm Hd ltac:(fold mask; lia)) as (L & B & Y1 & Y2 & Hrd).
    fold mask in Y1, Hrd. set (D := Ulpfec.FinalizeFecHeader s data) in *. clearbody D.
    split; [done|]. split; [done|].
    unfold Ulpfec.ReadFecHeader, NewReceivedFec, set_header. cbn [fec_pkt].
    change Ulpfec.kPacketMaskOffset with 12. destruct (Z.ltb_spec (zlen D) 12); [lia|].
    rewrite Y1. set (size := if zlen mask =? 6 then _ else _).
    assert (size = zlen mask) as -> by (subst size; destruct Hml as [-> | ->]; done). fold hs.
    rewrite (read_stored 2 2 D 2 (ws_seq_num_base s))
      by first [lia | done | unfold uint16 in Hb; lia |
                intros i Hi; rewrite Hrd by lia; destruct_cmp; try lia; f_equal; lia].
    rewrite (read_stored 2 2 D 10 (zlen data - hs))
      by first [lia | done |
                intros i Hi; rewrite Hrd by lia; rewrite u16_id by (unfold uint16; lia);
                rewrite Ehs; destruct_cmp; try lia; f_equal; lia].
    assert (zlen (slice D 8 2) = 2) as S by (rewrite slice_length; lia).
    assert (∀ k, k ≠ 0 → (store D 2 (slice D 8 2)).[k] =
      if (12 <=? k) && (k <? 12 + zlen mask) then mask.[k - 12]
      else if (8 <=? k) && (k <? 12) then D.[k] else data.[k]) as Hr.
    { intros k Hk. rewrite rd_store, S by lia.
      destruct_cmp; try lia; try (rewrite Hrd by lia; destruct_cmp; try lia; done).
      rewrite rd_slice, Hrd by lia. destruct_cmp; try lia. f_equal. lia. }
    eexists. split; [reflexivity|]. split; cbn [fec_ssrc fec_seq_num protected_packets
      fec_header_size protection_length fec_pkt protected_streams].
    + done.
    + done.
    + done.
    + rewrite store_length; lia.
    + apply store_Forall; [done|]. apply Forall_take, Forall_drop, B.
    + exists 12, (zlen mask). fold mask. split_and!; [done|lia..|]. intros k Hk.
      rewrite mask_bit_row, Hr by zdiv. assert (0 ≤ k `div` 8 < zlen mask) by zdiv.
      destruct_cmp; try lia. do 2 f_equal. lia.
    + rewrite rd_store, S by lia. exact Y2.
    + intros k Hk. rewrite Hr by lia. destruct_cmp; lia || done.
    + intros k Hk. rewrite Hr by lia. destruct_cmp; lia || done.
Qed.

(** * FlexFEC *)

(** The header is written and read in place; these rules move an access to the part [l] of the
    packet into [l]. *)
Section part.
Context (d : list Z) (m : Z) (l : list Z).
Context (Hm : 0 ≤ m) (Hl : m + zlen l ≤ zlen d).

Lemma rd_part i : 0 ≤ i < zlen l → (store d m l).[m + i] = l.[i].
Proof.
  intros. rewrite rd_store by done. destruct_cmp; try lia. f_equal. lia.
Qed.

Lemma store_part i k : 0 ≤ i → i + zlen k ≤ zlen l →
  store (store d m l) (m + i) k = store d m (store l i k).
Proof.
  intros Hi Hk.
  assert (length (store l i k) = length l) as E by (apply store_length; lia).
  assert (length (store d m l) = length d) as E2 by (apply store_length; lia).
  apply list_rd_eq; [rewrite !store_length by (rewrite ?E, ?E2; lia); done|].
  intros j Hj. rewrite !rd_store by (rewrite ?E, ?E2; lia). rewrite E.
  destruct_cmp; try lia; try done; rewrite ?rd_store by lia; destruct_cmp; try lia;
    try done; f_equal; lia.
Qed.

Lemma wr_part i v : 0 ≤ i < zlen l → wr (store d m l) (m + i) v = store d m (wr l i v).
Proof.
  intros. rewrite <- !store_1 by (rewrite ?store_length; lia). apply store_part; simpl; lia.
Qed.

Lemma or_part i v : 0 ≤ i < zlen l →
  Flexfec03.or_at (store d m l) (m + i) v = store d m (Flexfec03.or_at l i v).
Proof. intros. unfold Flexfec03.or_at. by rewrite wr_part, rd_part by lia. Qed.

Lemma write_part B i v : 0 ≤ i → 1 ≤ B → i + B ≤ zlen l →
  WriteBigEndian B (store d m l) (m + i) v = store d m (WriteBigEndian B l i v).
Proof.
  intros. rewrite !WriteBigEndian_store by (rewrite ?store_length; lia).
  apply store_part; [lia|]. rewrite be_bytes_length. lia.
Qed.

Lemma read_part S B i : 0 ≤ i → 1 ≤ B ≤ S → i + B ≤ zlen l → is_bytes d → is_bytes l →
  ReadBigEndian S B (store d m l) (m + i) = be_value (slice l i B).
Proof.
  intros Hi HB Hil Hd Hb. rewrite ReadBigEndian_value; [|by apply store_Forall|lia|lia|rewrite store_length; lia].
  f_equal. apply list_rd_eq; [rewrite !slice_length; rewrite ?store_length; lia|].
  rewrite slice_length by (rewrite ?store_length; lia). intros j Hj.
  rewrite !rd_slice, <- Z.add_assoc, rd_part by lia. done.
Qed.
End part.

(** ** The packet mask with and without K-bits *)

Definition b2z (b : bool) : Z := if b then 1 else 0.

(** The mask as it is written: the K-bits that are clear, the bits shifted behind them, and the
    K-bit that ends the mask. *)
Definition flex_mask (mask : list Z) : list Z :=
  match mask with
  | [m0; m1] =>
      if m1 `mod` 2 =? 0 then [m0 `div` 2 + 128; m0 `mod` 2 * 128 + m1 `div` 2]
      else [m0 `div` 2; m0 `mod` 2 * 128 + m1 `div` 2; 192; 0; 0; 0]
  | [m0; m1; m2; m3; m4; m5] =>
      let head k := [m0 `div` 2; m0 `mod` 2 * 128 + m1 `div` 2;
         m2 `div` 4 + 64 * (m1 `mod` 2) + 128 * k; m2 `mod` 4 * 64 + m3 `div` 4;
         m3 `mod` 4 * 64 + m4 `div` 4; m4 `mod` 4 * 64 + m5 `div` 4] in
      if m5 `mod` 4 =? 0 then head 1
      else head 0 ++ [128 + 32 * (m5 `mod` 4); 0; 0; 0; 0; 0; 0; 0]
  | _ => []
  end.

(** Facts about single bytes, by computation. *)
Ltac byte_fact x P :=
  let H := fresh in
  assert (P x = true) as H by (apply (byte_check P); [vm_compute; reflexivity|assumption]);
  cbv beta in H; rewrite ?orb_true_iff, ?negb_true_iff, ?eqb_true_iff in H;
  first [exact H | clear - H; lia].

Lemma byte_flags x : uint8 x →
  is_set x 0x01 = negb (x `mod` 2 =? 0) ∧ (Z.land x 0x01 =? 0) = (x `mod` 2 =? 0) ∧
  (Z.land x 0x03 =? 0) = (x `mod` 4 =? 0) ∧ is_set x 0x02 = (2 <=? x `mod` 4) ∧
  is_set x 0x80 = (128 <=? x).
Proof.
  intros Hx. split_and!.
  - byte_fact x (λ x, Bool.eqb (is_set x 0x01) (negb (x `mod` 2 =? 0))).
  - byte_fact x (λ x, Bool.eqb (Z.land x 0x01 =? 0) (x `mod` 2 =? 0)).
  - byte_fact x (λ x, Bool.eqb (Z.land x 0x03 =? 0) (x `mod` 4 =? 0)).
  - byte_fact x (λ x, Bool.eqb (is_set x 0x02) (2 <=? x `mod` 4)).
  - byte_fact x (λ x, Bool.eqb (is_set x 0x80) (128 <=? x)).
Qed.

Lemma byte_fields x : uint8 x →
  Z.land (x ≫ 6) 0x01 = (x `div` 64) `mod` 2 ∧ Z.land (x ≫ 5) 0x03 = (x `div` 32) `mod` 4.
Proof.
  intros Hx. split.
  - byte_fact x (λ x, Z.land (x ≫ 6) 0x01 =? (x `div` 64) `mod` 2).
  - byte_fact x (λ x, Z.land (x ≫ 5) 0x03 =? (x `div` 32) `mod` 4).
Qed.

(** Setting bits that are clear is addition. *)
Lemma lor_low x v k : 0 ≤ k → 0 ≤ v < 2 ^ k → x `mod` 2 ^ k = 0 → Z.lor x v = x + v.
Proof.
  intros Hk Hv Hx. assert (x = (x `div` 2 ^ k) ≪ k) as E.
  { rewrite shiftl_mul by done. pose proof (Z.div_mod x (2 ^ k)). lia. }
  rewrite E at 1. rewrite Z.lor_comm, lor_shiftl_disjoint by done.
  rewrite <- shiftl_mul, <- E by done. lia.
Qed.

Lemma lor_high x k : 0 ≤ k → 0 ≤ x < 2 ^ k → Z.lor x (2 ^ k) = x + 2 ^ k.
Proof.
  intros Hk Hx. rewrite <- (Z.mul_1_l (2 ^ k)) at 1. rewrite <- shiftl_mul by done.
  rewrite lor_shiftl_disjoint by done. lia.
Qed.

Lemma be_value2 a b : be_value [a; b] = a * 256 + b.
Proof. cbn [be_value length]. change (256 ^ zlen [b]) with 256. change (256 ^ zlen []) with 1. lia. Qed.
Lemma be_value4 a b c d : be_value [a; b; c; d] = ((a * 256 + b) * 256 + c) * 256 + d.
Proof.
  cbn [be_value length]. change (256 ^ zlen [b; c; d]) with 16777216. change (256 ^ zlen [c; d]) with 65536.
  change (256 ^ zlen [d]) with 256. change (256 ^ zlen []) with 1. lia.
Qed.
Lemma be_bytes2 v : be_bytes 2 v = [(v `div` 256) `mod` 256; v `mod` 256].
Proof.
  cbn [be_bytes]. rewrite !shiftr_div by lia. unfold u8.
  change (8 * Z.of_nat 1) with 8. change (8 * Z.of_nat 0) with 0. by rewrite Z.div_1_r.
Qed.
Lemma be_bytes4 v : be_bytes 4 v =
  [(v `div` 16777216) `mod` 256; (v `div` 65536) `mod` 256; (v `div` 256) `mod` 256; v `mod` 256].
Proof.
  cbn [be_bytes]. rewrite !shiftr_div by lia. unfold u8. change (8 * Z.of_nat 3) with 24.
  change (8 * Z.of_nat 2) with 16. change (8 * Z.of_nat 1) with 8. change (8 * Z.of_nat 0) with 0.
  by rewrite Z.div_1_r.
Qed.

(** Shifting the two parts of a mask. *)
Lemma shift_part0 m0 m1 : uint8 m0 → uint8 m1 →
  be_bytes 2 (be_value [m0; m1] ≫ 1) = [m0 `div` 2; m0 `mod` 2 * 128 + m1 `div` 2].
Proof.
  unfold uint8. intros. rewrite be_value2, be_bytes2, shiftr_div by lia. change (2 ^ 1) with 2.
  f_equal; [zdiv|f_equal; zdiv].
Qed.

Lemma shift_part1 m2 m3 m4 m5 : uint8 m2 → uint8 m3 → uint8 m4 → uint8 m5 →
  be_bytes 4 (be_value [m2; m3; m4; m5] ≫ 2) =
  [m2 `div` 4; m2 `mod` 4 * 64 + m3 `div` 4; m3 `mod` 4 * 64 + m4 `div` 4; m4 `mod` 4 * 64 + m5 `div` 4].
Proof.
  unfold uint8. intros. rewrite be_value4, be_bytes4, shiftr_div by lia. change (2 ^ 2) with 4.
  f_equal; [zdiv|]. f_equal; [zdiv|]. f_equal; [zdiv|]. f_equal. zdiv.
Qed.

Lemma unshift_part0 m0 m1 k : uint8 m0 → uint8 m1 → 0 ≤ k ≤ 1 →
  be_bytes 2 (u16 (be_value [m0 `div` 2 + 128 * k; m0 `mod` 2 * 128 + m1 `div` 2] ≪ 1)) =
  [m0; m1 - m1 `mod` 2].
Proof.
  unfold uint8. intros. rewrite be_value2, be_bytes2, shiftl_mul by lia. change (2 ^ 1) with 2.
  unfold u16. f_equal; [zdiv|f_equal; zdiv].
Qed.

Lemma unshift_part1 m2 m3 m4 m5 c : uint8 m2 → uint8 m3 → uint8 m4 → uint8 m5 → 0 ≤ c ≤ 3 →
  be_bytes 4 (u32 (be_value [m2 `div` 4 + 64 * c; m2 `mod` 4 * 64 + m3 `div` 4;
    m3 `mod` 4 * 64 + m4 `div` 4; m4 `mod` 4 * 64 + m5 `div` 4] ≪ 2)) = [m2; m3; m4; m5 - m5 `mod` 4].
Proof.
  unfold uint8. intros. rewrite be_value4, be_bytes4, shiftl_mul by lia. change (2 ^ 2) with 4.
  unfold u32. f_equal; [zdiv|]. f_equal; [zdiv|]. f_equal; [zdiv|]. f_equal. zdiv.
Qed.

Lemma store_slice_id {A} (d : list A) m n : 0 ≤ m → 0 ≤ n → m + n ≤ zlen d → store d m (slice d m n) = d.
Proof.
  intros. unfold store. rewrite slice_length by lia. unfold slice.
  rewrite <- (take_drop (Z.to_nat m) d) at 4. f_equal.
  rewrite <- (take_drop (Z.to_nat n) (drop (Z.to_nat m) d)) at 2. f_equal. by rewrite drop_drop.
Qed.

Lemma store_explicit_2 (d : list Z) m : 0 ≤ m → m + 2 ≤ zlen d → ∃ x0 x1, d = store d m [x0; x1].
Proof.
  intros. pose proof (store_slice_id d m 2 ltac:(lia) ltac:(lia) ltac:(lia)) as E.
  assert (zlen (slice d m 2) = 2) as L by (rewrite slice_length; lia).
  destruct (slice d m 2) as [|x0 [|x1 [|]]]; cbn in L; try lia. by exists x0, x1.
Qed.

Lemma store_explicit_6 (d : list Z) m : 0 ≤ m → m + 6 ≤ zlen d →
  ∃ x0 x1 x2 x3 x4 x5, d = store d m [x0; x1; x2; x3; x4; x5].
Proof.
  intros. pose proof (store_slice_id d m 6 ltac:(lia) ltac:(lia) ltac:(lia)) as E.
  assert (zlen (slice d m 6) = 6) as L by (rewrite slice_length; lia).
  destruct (slice d m 6) as [|x0 [|x1 [|x2 [|x3 [|x4 [|x5 [|]]]]]]]; cbn in L; try lia.
  by exists x0, x1, x2, x3, x4, x5.
Qed.

Lemma store_explicit_14 (d : list Z) m : 0 ≤ m → m + 14 ≤ zlen d →
  ∃ x0 x1 x2 x3 x4 x5 l, length l = 8%nat ∧ d = store d m ([x0; x1; x2; x3; x4; x5] ++ l).
Proof.
  intros. pose proof (store_slice_id d m 14 ltac:(lia) ltac:(lia) ltac:(lia)) as E.
  assert (zlen (slice d m 14) = 14) as L by (rewrite slice_length; lia).
  destruct (slice d m 14) as [|x0 [|x1 [|x2 [|x3 [|x4 [|x5 l]]]]]]; cbn in L; try lia.
  exists x0, x1, x2, x3, x4, x5, l. split; [lia|done].
Qed.

Lemma write_2 v a b l : be_bytes 2 v = [a; b] → ∀ x0 x1, WriteBigEndian 2 (x0 :: x1 :: l) 0 v = a :: b :: l.
Proof.
  intros E x0 x1. rewrite WriteBigEndian_store by (simpl length; lia).
  change (Z.to_nat 2) with 2%nat. by rewrite E.
Qed.

Lemma write_4 v a b c e l : be_bytes 4 v = [a; b; c; e] → ∀ x0 x1 x2 x3 x4 x5,
  WriteBigEndian 4 (x0 :: x1 :: x2 :: x3 :: x4 :: x5 :: l) 2 v = x0 :: x1 :: a :: b :: c :: e :: l.
Proof.
  intros E x0 x1 x2 x3 x4 x5. rewrite WriteBigEndian_store by (simpl length; lia).
  change (Z.to_nat 4) with 4%nat. by rewrite E.
Qed.

Definition mask_size (mask : list Z) : Z := Flexfec03.MinPacketMaskSize mask (zlen mask).

(** Explicit lists of bytes. *)
Ltac explicit_bytes :=
  match goal with |- Forall uint8 _ => idtac | |- is_bytes _ => idtac end;
  repeat (apply List.Forall_cons; [first [assumption | cint]|]); apply List.Forall_nil.

Lemma or_at_0 a l v : Flexfec03.or_at (a :: l) 0 v = Z.lor a v :: l.
Proof. done. Qed.
Lemma or_at_2 a b c l v : Flexfec03.or_at (a :: b :: c :: l) 2 v = a :: b :: Z.lor c v :: l.
Proof. done. Qed.
Lemma or_at_6 a b c d e f g l v : Flexfec03.or_at (a :: b :: c :: d :: e :: f :: g :: l) 6 v =
  a :: b :: c :: d :: e :: f :: Z.lor g v :: l.
Proof. done. Qed.

(** One access to the mask part of a packet. *)
Ltac mask_step :=
  first [ rewrite write_part by (simpl length; lia)
        | rewrite or_part by (simpl length; lia)
        | rewrite store_part by (simpl length; lia)
        | rewrite wr_part by (simpl length; lia)
        | rewrite rd_part by (simpl length; lia) ].

Lemma write_mask_2 d m m0 m1 : uint8 m0 → uint8 m1 → 0 ≤ m →
  m + mask_size [m0; m1] ≤ zlen d →
  Flexfec03.write_mask d m [m0; m1] = store d m (flex_mask [m0; m1]).
Proof.
  intros H0 H1 Hm. unfold mask_size, Flexfec03.MinPacketMaskSize, Flexfec03.write_mask, flex_mask.
  change (zlen [m0; m1]) with 2. cbn [Z.eqb Pos.eqb kUlpfecPacketMaskSizeLBitSet
    kUlpfecPacketMaskSizeLBitClear andb]. change ([m0; m1].[1]) with m1.
  destruct (byte_flags m1 H1) as (F1 & F2 & _). rewrite F1, F2, negb_involutive.
  rewrite ReadBigEndian_value by first [explicit_bytes | simpl length; lia].
  change (slice [m0; m1] 0 2) with [m0; m1].
  pose proof (λ l, write_2 _ _ _ l (shift_part0 m0 m1 H0 H1)) as W2.
  assert (0 ≤ m0 `div` 2 < 128) by (unfold uint8 in *; zdiv).
  destruct (m1 `mod` 2 =? 0).
  - change (Flexfec03.kFlexfecPacketMaskSizes.[0]) with 2. intros Hl.
    destruct (store_explicit_2 d m Hm Hl) as (x0 & x1 & E).
    rewrite E at 1. mask_step. rewrite W2. mask_step. rewrite or_at_0.
    rewrite (lor_high _ 7) by lia. done.
  - change (Flexfec03.kFlexfecPacketMaskSizes.[1]) with 6. intros Hl.
    destruct (store_explicit_6 d m Hm Hl) as (x0 & x1 & x2 & x3 & x4 & x5 & E).
    rewrite E at 1. mask_step. rewrite W2. mask_step.
    change (store _ 2 (replicate 4 0)) with
      [m0 `div` 2; m0 `mod` 2 * 128 + m1 `div` 2; 0; 0; 0; 0].
    do 2 (mask_step; rewrite or_at_2). done.
Qed.

Lemma write_mask_6 d m m0 m1 m2 m3 m4 m5 : let mask := [m0; m1; m2; m3; m4; m5] in
  is_bytes mask → 0 ≤ m → m + mask_size mask ≤ zlen d →
  Flexfec03.write_mask d m mask = store d m (flex_mask mask).
Proof.
  intros mask Hb Hm. assert (∀ i, uint8 (mask.[i])) as Hu by (intros; by apply bytes_rd).
  pose proof (Hu 0 : uint8 m0) as H0. pose proof (Hu 1 : uint8 m1) as H1.
  pose proof (Hu 2 : uint8 m2) as H2. pose proof (Hu 3 : uint8 m3) as H3.
  pose proof (Hu 4 : uint8 m4) as H4. pose proof (Hu 5 : uint8 m5) as H5.
  unfold mask_size, Flexfec03.MinPacketMaskSize, Flexfec03.write_mask, flex_mask.
  change (zlen mask) with 6. subst mask. cbn [Z.eqb Pos.eqb kUlpfecPacketMaskSizeLBitSet
    kUlpfecPacketMaskSizeLBitClear andb]. change ([m0; m1; m2; m3; m4; m5].[1]) with m1.
  change ([m0; m1; m2; m3; m4; m5].[5]) with m5.
  destruct (byte_flags m1 H1) as (F1 & _). destruct (byte_flags m5 H5) as (G1 & _ & G3 & G4 & _).
  rewrite F1, G1, G3, G4.
  rewrite !ReadBigEndian_value by first [exact Hb | simpl length; lia].
  change (slice [m0; m1; m2; m3; m4; m5] 0 2) with [m0; m1].
  change (slice [m0; m1; m2; m3; m4; m5] 2 4) with [m2; m3; m4; m5].
  pose proof (λ l, write_2 _ _ _ l (shift_part0 m0 m1 H0 H1)) as W2.
  pose proof (λ l, write_4 _ _ _ _ _ l (shift_part1 m2 m3 m4 m5 H2 H3 H4 H5)) as W4.
  assert (0 ≤ m2 `div` 4 < 64) as Hd by (unfold uint8 in *; zdiv).
  assert (0 ≤ m1 `mod` 2 < 2) by (apply Z.mod_pos_bound; lia).
  assert (0 ≤ m5 `mod` 4 < 4) by (apply Z.mod_pos_bound; lia).
  assert (m5 `mod` 2 = (m5 `mod` 4) `mod` 2) as M5 by zdiv.
  assert (∀ e a b l, let x := if negb (m1 `mod` 2 =? 0)
    then Flexfec03.or_at (store e m (a :: b :: m2 `div` 4 :: l)) (m + 2) 0x40
    else store e m (a :: b :: m2 `div` 4 :: l) in
    m + zlen (a :: b :: m2 `div` 4 :: l) ≤ zlen e →
    x = store e m (a :: b :: m2 `div` 4 + 64 * (m1 `mod` 2) :: l)) as B15.
  { intros e a b l x Hl. subst x. destruct (Z.eqb_spec (m1 `mod` 2) 0) as [Ez|Ez]; cbn [negb].
    - rewrite Ez, Z.mul_0_r, Z.add_0_r. done.
    - rewrite or_part by (simpl length in *; lia). rewrite or_at_2, (lor_high _ 6) by lia.
      replace (m1 `mod` 2) with 1 by lia. done. }
  destruct (Z.eqb_spec (m5 `mod` 4) 0) as [Ez|Ez].
  - change (Flexfec03.kFlexfecPacketMaskSizes.[1]) with 6. intros Hl.
    rewrite M5, Ez. cbn [Z.leb Z.compare negb Z.eqb andb Z.modulo Z.div_eucl].
    destruct (store_explicit_6 d m Hm Hl) as (x0 & x1 & x2 & x3 & x4 & x5 & E).
    match goal with |- _ = ?r => set (R := r) end. rewrite E.
    mask_step. rewrite W2. mask_step. rewrite W4, B15 by (simpl length; lia).
    mask_step. rewrite or_at_2. rewrite (lor_high _ 7) by lia. done.
  - change (Flexfec03.kFlexfecPacketMaskSizes.[2]) with 14. intros Hl.
    destruct (store_explicit_14 d m Hm Hl) as (x0 & x1 & x2 & x3 & x4 & x5 & l & Ll & E).
    replace (negb (2 <=? m5 `mod` 4) && negb (negb (m5 `mod` 2 =? 0))) with false
      by (rewrite M5; destruct (Z.leb_spec 2 (m5 `mod` 4)), (Z.eqb_spec ((m5 `mod` 4) `mod` 2) 0);
          cbn; try done; zdiv).
    match goal with |- _ = ?r => set (R := r) end. rewrite E. cbn [app].
    mask_step. rewrite W2. mask_step. rewrite W4, B15 by (simpl length; lia).
    mask_step.
    assert (Hst : ∀ a0 a1 a2 a3 a4 a5, store (a0 :: a1 :: a2 :: a3 :: a4 :: a5 :: l) 6 (replicate 8 0) =
      [a0; a1; a2; a3; a4; a5; 0; 0; 0; 0; 0; 0; 0; 0]).
    { intros. do 8 (destruct l as [|? l]; [done|]). by destruct l. }
    rewrite Hst. mask_step. rewrite or_at_6, M5. change (Z.lor 0 0x80) with 128. subst R.
    cbn [app]. rewrite Z.mul_0_r, Z.add_0_r.
    assert (m5 `mod` 4 = 1 ∨ m5 `mod` 4 = 2 ∨ m5 `mod` 4 = 3) as [Em|[Em|Em]] by lia; rewrite Em.
    + change (2 <=? 1) with false. change (negb (1 `mod` 2 =? 0)) with true. cbv iota.
      mask_step. rewrite or_at_6. done.
    + change (2 <=? 2) with true. change (negb (2 `mod` 2 =? 0)) with false. cbv iota.
      mask_step. rewrite or_at_6. done.
    + change (2 <=? 3) with true. change (negb (3 `mod` 2 =? 0)) with true. cbv iota.
      do 2 (mask_step; rewrite or_at_6). done.
Qed.

(** What the reader leaves: the mask, padded with zeros to the size that was written. *)
Definition padded (mask : list Z) : list Z :=
  mask ++ replicate (Z.to_nat (mask_size mask - zlen mask)) 0.

Lemma write_8_0 a0 a1 a2 a3 a4 a5 l : length l = 8%nat →
  WriteBigEndian 8 (a0 :: a1 :: a2 :: a3 :: a4 :: a5 :: l) 6 0 =
  [a0; a1; a2; a3; a4; a5; 0; 0; 0; 0; 0; 0; 0; 0].
Proof.
  intros. rewrite WriteBigEndian_store by (simpl length; lia).
  do 8 (destruct l as [|? l]; [done|]). by destruct l.
Qed.

(** The bytes with bits shifted in. *)
Ltac flex_bytes := unfold uint8 in *; repeat match goal with |- _ ∧ _ => split end; zdiv.

(** The reader after the first K-bit is clear: both parts are shifted back; [k] is the second
    K-bit. *)
Lemma read_mask_long d m0 m1 m2 m3 m4 m5 k tail :
  is_bytes [m0; m1; m2; m3; m4; m5] → is_bytes tail → is_bytes d → 0 ≤ k ≤ 1 →
  18 + 6 + zlen tail ≤ zlen d →
  Flexfec03.read_mask (store d 18 ([m0 `div` 2; m0 `mod` 2 * 128 + m1 `div` 2;
    m2 `div` 4 + 64 * (m1 `mod` 2) + 128 * k; m2 `mod` 4 * 64 + m3 `div` 4;
    m3 `mod` 4 * 64 + m4 `div` 4; m4 `mod` 4 * 64 + m5 `div` 4] ++ tail)) 18 =
  let data := store d 18 ([m0; m1; m2; m3; m4; m5 - m5 `mod` 4] ++ tail) in
  if k =? 1 then (data, Some 6)
  else if zlen data <? 32 then (data, None)
  else if is_set (data.[24]) 0x80 then
    let data' := wr data 23 (Z.lor (data.[23]) (Z.land (data.[24] ≫ 5) 0x03)) in
    (WriteBigEndian 8 data' 24 (u64 (ReadBigEndian 8 8 data' 24 ≪ 3)), Some 14)
  else (data, None).
Proof.
  intros Hb Ht Hd Hk Hl.
  assert (∀ i, uint8 ([m0; m1; m2; m3; m4; m5].[i])) as Hu by (intros; by apply bytes_rd).
  pose proof (Hu 0 : uint8 m0) as H0. pose proof (Hu 1 : uint8 m1) as H1.
  pose proof (Hu 2 : uint8 m2) as H2. pose proof (Hu 3 : uint8 m3) as H3.
  pose proof (Hu 4 : uint8 m4) as H4. pose proof (Hu 5 : uint8 m5) as H5. clear Hu Hb.
  set (w0 := m0 `div` 2). set (w1 := m0 `mod` 2 * 128 + m1 `div` 2).
  set (w2 := m2 `div` 4 + 64 * (m1 `mod` 2) + 128 * k). set (w3 := m2 `mod` 4 * 64 + m3 `div` 4).
  set (w4 := m3 `mod` 4 * 64 + m4 `div` 4). set (w5 := m4 `mod` 4 * 64 + m5 `div` 4).
  assert (uint8 w0 ∧ uint8 w1 ∧ uint8 w2 ∧ uint8 w3 ∧ uint8 w4 ∧ uint8 w5)
    as (U0 & U1 & U2 & U3 & U4 & U5) by (subst w0 w1 w2 w3 w4 w5; flex_bytes).
  assert (w0 < 128 ∧ (w2 `div` 64) `mod` 2 = m1 `mod` 2 ∧ (128 <=? w2) = (k =? 1)) as (K0 & K1 & K2).
  { subst w0 w2. unfold uint8 in *. split; [zdiv|]. split; [zdiv|].
    destruct (Z.leb_spec 128 (m2 `div` 4 + 64 * (m1 `mod` 2) + 128 * k)), (Z.eqb_spec k 1);
      try done; exfalso; zdiv. }
  assert (∀ x y, uint8 x → uint8 y →
    is_bytes (x :: y :: w2 :: w3 :: w4 :: w5 :: tail)) as HW.
  { intros. repeat (apply List.Forall_cons; [assumption|]). exact Ht. }
  assert (W2 : ∀ l x0 x1, WriteBigEndian 2 (x0 :: x1 :: l) 0 (u16 (be_value [w0; w1] ≪ 1)) =
    m0 :: m1 - m1 `mod` 2 :: l).
  { intros l. apply write_2. pose proof (unshift_part0 m0 m1 0 H0 H1 ltac:(lia)) as E.
    rewrite Z.mul_0_r, Z.add_0_r in E. exact E. }
  assert (W4 : ∀ l x0 x1 x2 x3 x4 x5, WriteBigEndian 4 (x0 :: x1 :: x2 :: x3 :: x4 :: x5 :: l) 2
    (u32 (be_value [w2; w3; w4; w5] ≪ 2)) = x0 :: x1 :: m2 :: m3 :: m4 :: m5 - m5 `mod` 4 :: l).
  { intros l. apply write_4. subst w2. rewrite <- Z.add_assoc.
    replace (64 * (m1 `mod` 2) + 128 * k) with (64 * (m1 `mod` 2 + 2 * k)) by ring.
    apply unshift_part1; try done. pose proof (Z.mod_pos_bound m1 2). lia. }
  assert (uint8 (m1 - m1 `mod` 2) ∧ Z.lor (m1 - m1 `mod` 2) (m1 `mod` 2) = m1) as [UE E15].
  { split; [unfold uint8 in *; zdiv|]. rewrite (lor_low _ _ 1); [zdiv|lia|..].
    - change (2 ^ 1) with 2. apply Z.mod_pos_bound. lia.
    - change (2 ^ 1) with 2. zdiv. }
  clearbody w0 w1 w2 w3 w4 w5. cbn [app]. unfold Flexfec03.read_mask.
  rewrite rd_part by (simpl length; lia). change ((_ :: _).[0]) with w0.
  destruct (byte_flags _ U0) as (_ & _ & _ & _ & ->). destruct (Z.leb_spec 128 w0); [lia|].
  rewrite (read_part d 18 (_ :: _)) by first [assumption | by apply HW | simpl length; lia].
  change (slice (w0 :: w1 :: _) 0 2) with [w0; w1]. mask_step. rewrite W2.
  change (Flexfec03.kHeaderSizes.[1]) with 24. change (Flexfec03.kHeaderSizes.[2]) with 32.
  change (Flexfec03.kFlexfecPacketMaskSizes.[1]) with 6.
  change (Flexfec03.kFlexfecPacketMaskSizes.[2]) with 14.
  rewrite store_length by (simpl length; lia). destruct (Z.ltb_spec (zlen d) 24); [lia|].
  rewrite !rd_part by (simpl length; lia). change ((_ :: _ :: w2 :: _).[2]) with w2.
  change ((_ :: ?x :: _).[1]) with x.
  destruct (byte_flags _ U2) as (_ & _ & _ & _ & ->). destruct (byte_fields _ U2) as [-> _].
  rewrite K1, K2, E15. mask_step.
  change (wr (m0 :: _ :: ?l) 1 m1) with (m0 :: m1 :: l).
  rewrite (read_part d 18 (_ :: _)) by first [assumption | by apply HW | simpl length; lia].
  change (slice (m0 :: m1 :: w2 :: w3 :: w4 :: w5 :: _) 2 4) with [w2; w3; w4; w5].
  mask_step. rewrite W4. done.
Qed.
Lemma read_mask_2 d m0 m1 : uint8 m0 → uint8 m1 → is_bytes d → 18 + mask_size [m0; m1] ≤ zlen d →
  Flexfec03.read_mask (store d 18 (flex_mask [m0; m1])) 18 =
    (store d 18 (padded [m0; m1]), Some (mask_size [m0; m1])).
Proof.
  intros H0 H1 Hd. unfold mask_size, padded, mask_size, Flexfec03.MinPacketMaskSize, flex_mask.
  change (zlen [m0; m1]) with 2. cbn [Z.eqb Pos.eqb kUlpfecPacketMaskSizeLBitSet
    kUlpfecPacketMaskSizeLBitClear andb]. change ([m0; m1].[1]) with m1.
  destruct (byte_flags m1 H1) as (_ & F2 & _). rewrite F2.
  assert (uint8 (m0 `div` 2 + 128) ∧ uint8 (m0 `div` 2) ∧ 0 ≤ m0 `div` 2 < 128 ∧
    uint8 (m0 `mod` 2 * 128 + m1 `div` 2)) as (U1 & U2 & U3 & U4) by flex_bytes.
  destruct (Z.eqb_spec (m1 `mod` 2) 0) as [E1|E1].
  - change (Flexfec03.kFlexfecPacketMaskSizes.[0]) with 2. intros Hl. unfold Flexfec03.read_mask.
    rewrite rd_part by (simpl length; lia). change ((_ :: _).[0]) with (m0 `div` 2 + 128).
    destruct (byte_flags _ U1) as (_ & _ & _ & _ & ->).
    destruct (Z.leb_spec 128 (m0 `div` 2 + 128)); [|lia].
    rewrite (read_part d 18 [_; _]) by first [assumption | explicit_bytes | simpl length; lia].
    change (slice [?a; ?b] 0 2) with [a; b].
    mask_step. rewrite (write_2 _ _ _ _ (unshift_part0 m0 m1 1 H0 H1 ltac:(lia))).
    rewrite E1, Z.sub_0_r. done.
  - change (Flexfec03.kFlexfecPacketMaskSizes.[1]) with 6. intros Hl.
    pose proof (read_mask_long d m0 m1 0 0 0 0 1 []) as H. change (0 `mod` 4) with 0 in H.
    change (0 `div` 4) with 0 in H. replace (m1 `mod` 2) with 1 in H by zdiv.
    apply H; [explicit_bytes|constructor|done|lia|simpl length; lia].
Qed.

Lemma read_mask_6 d m0 m1 m2 m3 m4 m5 : let mask := [m0; m1; m2; m3; m4; m5] in
  is_bytes mask → is_bytes d → 18 + mask_size mask ≤ zlen d →
  Flexfec03.read_mask (store d 18 (flex_mask mask)) 18 =
    (store d 18 (padded mask), Some (mask_size mask)).
Proof.
  intros mask Hb Hd. assert (∀ i, uint8 (mask.[i])) as Hu by (intros; by apply bytes_rd).
  pose proof (Hu 5 : uint8 m5) as H5.
  unfold mask_size, padded, mask_size, Flexfec03.MinPacketMaskSize, flex_mask.
  change (zlen mask) with 6. subst mask. cbn [Z.eqb Pos.eqb kUlpfecPacketMaskSizeLBitSet
    kUlpfecPacketMaskSizeLBitClear andb]. change ([m0; m1; m2; m3; m4; m5].[5]) with m5.
  destruct (byte_flags m5 H5) as (_ & _ & F3 & _). rewrite F3.
  destruct (Z.eqb_spec (m5 `mod` 4) 0) as [E|E].
  - change (Flexfec03.kFlexfecPacketMaskSizes.[1]) with 6. intros Hl.
    rewrite <- (app_nil_r [_; _; _; _; _; _]) at 1.
    rewrite (read_mask_long d m0 m1 m2 m3 m4 m5 1 [] Hb) by first [done | constructor | simpl length; lia].
    cbn [Z.eqb Pos.eqb]. rewrite E, Z.sub_0_r. done.
  - change (Flexfec03.kFlexfecPacketMaskSizes.[2]) with 14. intros Hl.
    set (t := m5 `mod` 4) in *. assert (0 ≤ t < 4) as Ht by (apply Z.mod_pos_bound; lia).
    assert (uint8 (128 + 32 * t) ∧ ((128 + 32 * t) `div` 32) `mod` 4 = t ∧ 128 <= 128 + 32 * t)
      as (U & Et & Hk) by (unfold uint8; split; [lia|split; [zdiv|lia]]).
    rewrite (read_mask_long d m0 m1 m2 m3 m4 m5 0 [128 + 32 * t; 0; 0; 0; 0; 0; 0; 0] Hb)
      by first [done | explicit_bytes | simpl length; lia].
    fold t. cbn [Z.eqb app]. cbv zeta. rewrite store_length by (simpl length; lia).
    destruct (Z.ltb_spec (zlen d) 32); [lia|].
    change 24 with (18 + 6). change 23 with (18 + 5). rewrite !rd_part by (simpl length; lia).
    change ((_ :: _).[6]) with (128 + 32 * t). change ((_ :: _).[5]) with (m5 - t).
    destruct (byte_flags _ U) as (_ & _ & _ & _ & ->).
    destruct (Z.leb_spec 128 (128 + 32 * t)); [|lia]. destruct (byte_fields _ U) as [_ ->].
    rewrite Et. rewrite (lor_low _ _ 2) by (lia || (subst t; change (2 ^ 2) with 4; zdiv)).
    replace (m5 - t + t) with m5 by lia. rewrite wr_part by (simpl length; lia).
    change (wr (?a :: ?b :: ?c :: ?d :: ?e :: _ :: ?l) 5 m5) with (a :: b :: c :: d :: e :: m5 :: l).
    rewrite (read_part d 18 (_ :: _)) by first [lia | done | simpl length; lia |
      do 5 (apply List.Forall_cons; [first [apply (Hu 0) | apply (Hu 1) | apply (Hu 2) | apply (Hu 3) | apply (Hu 4)]|]);
      explicit_bytes].
    change (slice (m0 :: _) 6 8) with [128 + 32 * t; 0; 0; 0; 0; 0; 0; 0].
    assert (u64 (be_value [128 + 32 * t; 0; 0; 0; 0; 0; 0; 0] ≪ 3) = 0) as ->.
    { rewrite shiftl_mul by lia. unfold u64. cbn [be_value length].
      change (256 ^ zlen [0; 0; 0; 0; 0; 0; 0]) with (2 ^ 56). zdiv. }
    rewrite write_part by (simpl length; lia). rewrite write_8_0 by done. done.
Qed.

Lemma mask_cases mask : mask_ok mask →
  (∃ m0 m1, mask = [m0; m1] ∧ uint8 m0 ∧ uint8 m1) ∨
  (∃ m0 m1 m2 m3 m4 m5, mask = [m0; m1; m2; m3; m4; m5]).
Proof.
  intros [Hb [Hl|Hl]].
  - left. destruct mask as [|m0 [|m1 [|]]]; cbn in Hl; try lia. exists m0, m1.
    inversion Hb as [|? ? A B]; subst. inversion B; subst. done.
  - right. destruct mask as [|m0 [|m1 [|m2 [|m3 [|m4 [|m5 [|]]]]]]]; cbn in Hl; try lia.
    by exists m0, m1, m2, m3, m4, m5.
Qed.

Lemma mask_size_cases mask : mask_ok mask → (mask_size mask = 2 ∨ mask_size mask = 6 ∨ mask_size mask = 14) ∧
  zlen mask ≤ mask_size mask ∧ Flexfec03.FlexfecHeaderSize (mask_size mask) = 18 + mask_size mask.
Proof.
  intros [_ Hl]. unfold mask_size, Flexfec03.MinPacketMaskSize.
  destruct Hl as [-> | ->]; cbn [Z.eqb Pos.eqb kUlpfecPacketMaskSizeLBitSet
    kUlpfecPacketMaskSizeLBitClear andb]; destruct (_ =? 0); vm_compute; intuition congruence.
Qed.

Lemma flex_mask_ok mask : mask_ok mask → zlen (flex_mask mask) = mask_size mask ∧ is_bytes (flex_mask mask).
Proof.
  intros Hm. destruct (mask_cases mask Hm) as [(m0 & m1 & -> & H0 & H1)|(m0 & m1 & m2 & m3 & m4 & m5 & ->)].
  - unfold mask_size, Flexfec03.MinPacketMaskSize, flex_mask. change (zlen [m0; m1]) with 2.
    cbn [Z.eqb Pos.eqb kUlpfecPacketMaskSizeLBitSet kUlpfecPacketMaskSizeLBitClear andb].
    change ([m0; m1].[1]) with m1. destruct (byte_flags m1 H1) as (_ & -> & _).
    destruct (m1 `mod` 2 =? 0); (split; [done|]);
      repeat (apply List.Forall_cons; [unfold uint8 in *; zdiv|]); constructor.
  - destruct Hm as [Hb _].
    assert (∀ i, uint8 ([m0; m1; m2; m3; m4; m5].[i])) as Hu by (intros; by apply bytes_rd).
    pose proof (Hu 0 : uint8 m0) as H0. pose proof (Hu 1 : uint8 m1) as H1.
    pose proof (Hu 2 : uint8 m2) as H2. pose proof (Hu 3 : uint8 m3) as H3.
    pose proof (Hu 4 : uint8 m4) as H4. pose proof (Hu 5 : uint8 m5) as H5. clear Hu Hb.
    unfold mask_size, Flexfec03.MinPacketMaskSize, flex_mask.
    change (zlen [m0; m1; m2; m3; m4; m5]) with 6.
    cbn [Z.eqb Pos.eqb kUlpfecPacketMaskSizeLBitSet kUlpfecPacketMaskSizeLBitClear andb].
    change ([m0; m1; m2; m3; m4; m5].[5]) with m5. destruct (byte_flags m5 H5) as (_ & _ & -> & _).
    destruct (m5 `mod` 4 =? 0); (split; [done|]); cbn [app];
      repeat (apply List.Forall_cons; [unfold uint8 in *; zdiv|]); constructor.
Qed.

(** Writing a mask and reading it back. *)
Lemma flex_mask_roundtrip d mask : mask_ok mask → is_bytes d → 18 + mask_size mask ≤ zlen d →
  Flexfec03.write_mask d 18 mask = store d 18 (flex_mask mask) ∧
  Flexfec03.read_mask (store d 18 (flex_mask mask)) 18 =
    (store d 18 (padded mask), Some (mask_size mask)).
Proof.
  intros Hm Hd Hl. destruct (mask_cases mask Hm) as [(m0 & m1 & -> & H0 & H1)|(m0 & m1 & m2 & m3 & m4 & m5 & ->)].
  - split; [by apply write_mask_2|by apply read_mask_2].
  - destruct Hm as [Hb _]. split; [by apply write_mask_6|by apply read_mask_6].
Qed.

Lemma padded_ok mask : mask_ok mask → zlen (padded mask) = mask_size mask ∧ is_bytes (padded mask) ∧
  ∀ i, (padded mask).[i] = mask.[i].
Proof.
  intros Hm. destruct (mask_size_cases mask Hm) as (_ & Hl & _). unfold padded. split_and!.
  - rewrite zlen_app, length_replicate. lia.
  - apply Forall_app. split; [apply Hm|]. apply Forall_replicate. cint.
  - intros i. destruct (Z.ltb_spec i (zlen mask)); [by rewrite rd_app_l|].
    by rewrite rd_app_r, rd_replicate_0, rd_beyond by done.
Qed.

(** The bytes in front of the mask. *)
Lemma Flexfec_written s data : is_bytes data → 18 ≤ zlen data →
  ∃ d1, Flexfec03.FinalizeFecHeader s data = Flexfec03.write_mask d1 18 (ws_packet_mask s) ∧
  length d1 = length data ∧ is_bytes d1 ∧
  is_set (d1.[0]) 0x40 = false ∧ is_set (d1.[0]) 0x80 = false ∧
  Z.land (d1.[0]) 0x3f = Z.land (data.[0]) 0x3f ∧
  ∀ k, k ≠ 0 → d1.[k] =
    if (16 <=? k) && (k <? 18) then (be_bytes 2 (ws_seq_num_base s)).[k - 16]
    else if (12 <=? k) && (k <? 16) then (be_bytes 4 (ws_ssrc s)).[k - 12]
    else if (9 <=? k) && (k <? 12) then (be_bytes 3 0).[k - 9]
    else if (8 <=? k) && (k <? 9) then (be_bytes 1 1).[k - 8]
    else data.[k].
Proof.
  intros Hd Hl. unfold Flexfec03.FinalizeFecHeader.
  change Flexfec03.kSsrcCount with 1. change Flexfec03.kReservedBits with 0.
  change Flexfec03.kPacketMaskOffset with 18. rewrite rd_wr_eq, wr_wr by lia.
  destruct (head_byte (data.[0]) false (bytes_rd _ _ Hd)) as (Y1 & Y2 & Y3 & Y4).
  set (y := Z.land (Z.land _ _) 0xbf) in *. clearbody y.
  set (e0 := wr data 0 y).
  assert (length e0 = length data) as L0 by apply wr_length.
  assert (is_bytes e0) as B0 by (by apply wr_Forall).
  set (e1 := WriteBigEndian 1 e0 8 1).
  assert (length e1 = length data) as L1 by (subst e1; rewrite write_be_length; lia).
  assert (is_bytes e1) as B1 by (apply write_be_bytes; [lia..|done]).
  set (e2 := WriteBigEndian 3 e1 9 0).
  assert (length e2 = length data) as L2 by (subst e2; rewrite write_be_length; lia).
  assert (is_bytes e2) as B2 by (apply write_be_bytes; [lia..|done]).
  set (e3 := WriteBigEndian 4 e2 12 _).
  assert (length e3 = length data) as L3 by (subst e3; rewrite write_be_length; lia).
  assert (is_bytes e3) as B3 by (apply write_be_bytes; [lia..|done]).
  eexists. split; [reflexivity|].
  split; [rewrite write_be_length; lia|]. split; [apply write_be_bytes; [lia..|done]|].
  assert (∀ k, (WriteBigEndian 2 e3 16 (ws_seq_num_base s)).[k] =
    if (16 <=? k) && (k <? 18) then (be_bytes 2 (ws_seq_num_base s)).[k - 16]
    else if (12 <=? k) && (k <? 16) then (be_bytes 4 (ws_ssrc s)).[k - 12]
    else if (9 <=? k) && (k <? 12) then (be_bytes 3 0).[k - 9]
    else if (8 <=? k) && (k <? 9) then (be_bytes 1 1).[k - 8]
    else if k =? 0 then y else data.[k]) as Hrd.
  { intros k. rewrite rd_write_be by lia. subst e3. rewrite rd_write_be by lia.
    subst e2. rewrite rd_write_be by lia. subst e1. rewrite rd_write_be by lia.
    subst e0. rewrite rd_wr by lia. done. }
  assert ((WriteBigEndian 2 e3 16 (ws_seq_num_base s)).[0] = y) as -> by (rewrite Hrd; done).
  split_and!; try done. intros k Hk. rewrite Hrd. by destruct (Z.eqb_spec k 0).
Qed.

#[export] Instance Flexfec03_ok : FecHeaderOk Flexfec03Format true.
Proof.
  split.
  - done.
  - intros mask Hm. cbn [FecHeaderSize MinPacketMaskSize Flexfec03Format].
    destruct (mask_size_cases mask Hm) as (Hc & _ & E). unfold mask_size in *. rewrite E.
    change max_packet_overhead with 32. lia.
  - intros s data ssrc seq Hm Hd Hs Hb _.
    cbn [FecHeaderSize MinPacketMaskSize FinalizeFecHeader ReadFecHeader Flexfec03Format].
    set (mask := ws_packet_mask s). fold (mask_size mask).
    destruct (mask_size_cases mask Hm) as (Hc & Hml & Ehs). rewrite Ehs. intros Hhs Hpl.
    destruct (Flexfec_written s data Hd ltac:(lia)) as (d1 & -> & L & B & Y1 & Y2 & Y3 & Hrd).
    fold mask. destruct (flex_mask_roundtrip d1 mask Hm B ltac:(lia)) as [-> RM].
    destruct (flex_mask_ok mask Hm) as [Lf Bf]. destruct (padded_ok mask Hm) as (Lp & Bp & Rp).
    assert (length (store d1 18 (flex_mask mask)) = length data) as LD by (rewrite store_length; lia).
    assert (is_bytes (store d1 18 (flex_mask mask))) as BD by (by apply store_Forall).
    assert (∀ k, k < 18 → (store d1 18 (flex_mask mask)).[k] = d1.[k]) as RD.
    { intros k Hk. rewrite rd_store by lia. destruct_cmp; lia || done. }
    split; [done|]. split; [done|].
    unfold Flexfec03.ReadFecHeader, NewReceivedFec, set_header. cbn [fec_pkt].
    change Flexfec03.kPacketMaskOffset with 18.
    change (Flexfec03.kBaseHeaderSize + Flexfec03.kStreamSpecificHeaderSize) with 18.
    change (Flexfec03.kHeaderSizes.[0]) with 20.
    rewrite LD, RM. destruct (Z.leb_spec (zlen data) 18); [lia|].
    rewrite !(RD 0), Y1, Y2 by lia. rewrite (read_stored 1 1 _ 8 1)
      by first [lia | done | intros i Hi; rewrite RD, Hrd by lia; destruct_cmp; try lia; f_equal; lia].
    cbn [negb Z.eqb Pos.eqb].
    rewrite (read_stored 4 4 _ 12 (ws_ssrc s))
      by first [lia | done | unfold uint32 in Hs; lia |
                intros i Hi; rewrite RD, Hrd by lia; destruct_cmp; try lia; f_equal; lia].
    rewrite (read_stored 2 2 _ 16 (ws_seq_num_base s))
      by first [lia | done | unfold uint16 in Hb; lia |
                intros i Hi; rewrite RD, Hrd by lia; destruct_cmp; try lia; f_equal; lia].
    destruct (Z.ltb_spec (zlen data) 20); [lia|]. rewrite Ehs.
    assert (length (store d1 18 (padded mask)) = length data) as LP by (rewrite store_length; lia).
    assert (∀ k, k < 18 ∨ 18 + mask_size mask ≤ k → (store d1 18 (padded mask)).[k] = d1.[k]) as RP.
    { intros k Hk. rewrite rd_store by lia. rewrite Lp. destruct_cmp; lia || done. }
    eexists. split; [reflexivity|]. split; cbn [fec_ssrc fec_seq_num protected_packets
      fec_header_size protection_length fec_pkt protected_streams].
    + done.
    + done.
    + by rewrite LP.
    + done.
    + by apply store_Forall.
    + exists 18, (mask_size mask). fold mask. split_and!; [done|lia..|]. intros k Hk.
      rewrite mask_bit_row. assert (0 ≤ k `div` 8 < mask_size mask) by zdiv.
      rewrite rd_part, Rp by lia. done.
    + rewrite RP by lia. exact Y3.
    + intros k Hk. rewrite RP, Hrd by lia. destruct_cmp; lia || done.
    + intros k Hk. rewrite RP, Hrd by lia. destruct_cmp; lia || done.
Qed.
