(* ===== verification/FecEncode.v ===== *)
(** The encoder of forward error correction: [EncodeFec] and what it calls in
    forward_error_correction.cc of modules/rtp_rtcp/source.

    The encoder works with any header format ([FecHeaderFormat]).  Its theorem says what the
    packets it makes contain: the parity of the media packets that the mask selects, where the
    columns of the mask have been moved to the offsets of the sequence numbers. *)
From S2P Require Import Prelude ByteIo SeqNum Rtcp FecTables FecMasks FecPacket FecHeaders.

(** * Definitions *)

(** The members of [ForwardErrorCorrection] that the encoder uses. *)
Record FecEncoder : Type := MkEncoder {
  generated_fec_packets_ : list (list Z);
  packet_masks_ : list Z;
  tmp_packet_masks_ : list Z;
  packet_mask_size_ : Z;
}.

(** The arrays of masks are not initialised: their contents are parameters. *)
Definition NewEncoder {F : FecHeaderFormat} (mem1 mem2 : list Z) : FecEncoder :=
  MkEncoder (replicate (Z.to_nat max_fec_packets) []) mem1 mem2 0.

Definition NumFecPackets (num_media_packets protection_factor : Z) : Z :=
  let num_fec_packets := (num_media_packets * protection_factor + (1 ≪ 7)) ≫ 8 in
  if (protection_factor >? 0) && (num_fec_packets =? 0) then 1 else num_fec_packets.

Definition front (media_packets : list (list Z)) : list Z := hd [] media_packets.
Definition back (media_packets : list (list Z)) : list Z := List.last media_packets [].

(** The loop over the media packets behind the first; [masks] is the new and the old mask.  The
    result is the masks and [new_bit_index]. *)
Fixpoint insert_zeros_loop (max_media tmp_packet_mask_size packet_mask_size num_fec_packets : Z)
    (media_packets : list (list Z)) (prev_seq_num new_bit_index old_bit_index : Z)
    (masks : list Z * list Z) : list Z * list Z * Z :=
  match media_packets with
  | [] => (masks, new_bit_index)
  | media_packet :: rest =>
      if new_bit_index =? max_media then (masks, new_bit_index)
      else
        let seq_num := ParseSequenceNumber media_packet in
        let num_zeros_to_insert := u16 (seq_num - prev_seq_num - 1) in
        let '(tmp, old) := masks in
        let tmp :=
          if num_zeros_to_insert >? 0 then
            InsertZeroColumns num_zeros_to_insert tmp tmp_packet_mask_size num_fec_packets
              new_bit_index
          else tmp in
        let new_bit_index := new_bit_index + num_zeros_to_insert in
        let masks := CopyColumn tmp tmp_packet_mask_size old packet_mask_size num_fec_packets
                       new_bit_index old_bit_index in
        insert_zeros_loop max_media tmp_packet_mask_size packet_mask_size num_fec_packets
          rest seq_num (new_bit_index + 1) (old_bit_index + 1) masks
  end.

Definition set_masks (e : FecEncoder) (masks tmp : list Z) : FecEncoder :=
  MkEncoder (generated_fec_packets_ e) masks tmp (packet_mask_size_ e).

Definition InsertZerosInPacketMasks {F : FecHeaderFormat} (e : FecEncoder)
    (media_packets : list (list Z)) (num_fec_packets : Z) : FecEncoder * Z :=
  let num_media_packets := zlen media_packets in
  if num_media_packets <=? 1 then (e, num_media_packets)
  else
    let last_seq_num := ParseSequenceNumber (back media_packets) in
    let first_seq_num := ParseSequenceNumber (front media_packets) in
    let total_missing_seq_nums :=
      u64 (u16 (last_seq_num - first_seq_num) - num_media_packets + 1) in
    if total_missing_seq_nums =? 0 then (e, num_media_packets)
    else if u64 (total_missing_seq_nums + num_media_packets) >? max_media_packets then (e, -1)
    else
      let tmp_packet_mask_size :=
        PacketMaskSize (u64 (total_missing_seq_nums + num_media_packets)) in
      let tmp := zero_first (tmp_packet_masks_ e) (num_fec_packets * tmp_packet_mask_size) in
      let masks := CopyColumn tmp tmp_packet_mask_size (packet_masks_ e) (packet_mask_size_ e)
                     num_fec_packets 0 0 in
      let '(tmp, old, new_bit_index) :=
        insert_zeros_loop max_media_packets tmp_packet_mask_size (packet_mask_size_ e)
          num_fec_packets (tail media_packets) first_seq_num 1 1 masks in
      let tmp :=
        if negb (new_bit_index `mod` 8 =? 0) then
          for_up 0 (Z.to_nat num_fec_packets) (λ row tmp,
            let new_byte_index := row * tmp_packet_mask_size + new_bit_index `div` 8 in
            wr tmp new_byte_index (u8 (tmp.[new_byte_index] ≪ (7 - new_bit_index `mod` 8)))) tmp
        else tmp in
      (set_masks e (store old 0 (slice tmp 0 (num_fec_packets * tmp_packet_mask_size))) tmp,
       new_bit_index).

(** The inner loop of [GenerateFecPayloads]. *)
Fixpoint payload_loop (packet_masks : list Z) (fec_header_size : Z)
    (media_packets : list (list Z)) (prev_seq_num pkt_mask_idx media_pkt_idx : Z)
    (fec_packet : list Z) : list Z :=
  match media_packets with
  | [] => fec_packet
  | media_packet :: rest =>
      let fec_packet :=
        if is_set (packet_masks.[pkt_mask_idx]) (1 ≪ (7 - media_pkt_idx)) then
          let media_payload_length := zlen media_packet - kRtpHeaderSize in
          let fec_packet_length := fec_header_size + media_payload_length in
          let fec_packet :=
            if fec_packet_length >? zlen fec_packet then grow fec_packet fec_packet_length
            else fec_packet in
          let fec_packet := XorHeaders media_packet fec_packet in
          XorPayloads media_packet media_payload_length fec_header_size fec_packet
        else fec_packet in
      let '(media_pkt_idx, prev_seq_num) :=
        match rest with
        | [] => (media_pkt_idx, prev_seq_num)
        | next :: _ =>
            let seq_num := ParseSequenceNumber next in
            (media_pkt_idx + u16 (seq_num - prev_seq_num), seq_num)
        end in
      payload_loop packet_masks fec_header_size rest prev_seq_num
        (pkt_mask_idx + media_pkt_idx `div` 8) (media_pkt_idx `mod` 8) fec_packet
  end.

(** The row of the mask array for FEC packet [i]. *)
Definition mask_of (masks : list Z) (size i : Z) : list Z := slice masks (i * size) size.

Definition header_size {F : FecHeaderFormat} (packet_mask : list Z) : Z :=
  FecHeaderSize (MinPacketMaskSize packet_mask (zlen packet_mask)).

Definition generate_payload {F : FecHeaderFormat} (e : FecEncoder) (media_packets : list (list Z))
    (i : Z) (fec_packet : list Z) : list Z :=
  let pkt_mask_idx := i * packet_mask_size_ e in
  let fec_header_size := header_size (mask_of (packet_masks_ e) (packet_mask_size_ e) i) in
  payload_loop (packet_masks_ e) fec_header_size media_packets
    (ParseSequenceNumber (front media_packets)) pkt_mask_idx 0 fec_packet.

(** Loops over [generated_fec_packets_]. *)
Definition for_packets (num_fec_packets : Z) (f : Z → list Z → list Z) (e : FecEncoder)
  : FecEncoder :=
  MkEncoder
    (for_up 0 (Z.to_nat num_fec_packets) (λ i g, alter (f i) (Z.to_nat i) g)
       (generated_fec_packets_ e))
    (packet_masks_ e) (tmp_packet_masks_ e) (packet_mask_size_ e).

Definition GenerateFecPayloads {F : FecHeaderFormat} (e : FecEncoder)
    (media_packets : list (list Z)) (num_fec_packets : Z) : FecEncoder :=
  for_packets num_fec_packets (generate_payload e media_packets) e.

Definition FinalizeFecHeaders {F : FecHeaderFormat} (e : FecEncoder)
    (num_fec_packets media_ssrc seq_num_base : Z) : FecEncoder :=
  for_packets num_fec_packets (λ i fec_packet,
    FinalizeFecHeader (MkWriterStream media_ssrc seq_num_base
      (mask_of (packet_masks_ e) (packet_mask_size_ e) i)) fec_packet) e.

Definition set_mask_size (e : FecEncoder) (size : Z) : FecEncoder :=
  MkEncoder (generated_fec_packets_ e) (packet_masks_ e) (tmp_packet_masks_ e) size.

(** The encoder, the value returned and the FEC packets in the output list; [mem] is the
    indeterminate array of the local [mask_table]. *)
Definition EncodeFec {F : FecHeaderFormat} (mem : list Z) (e : FecEncoder)
    (media_packets : list (list Z)) (protection_factor num_important_packets : Z)
    (use_unequal_protection : bool) (fec_mask_type : FecMaskType)
  : FecEncoder * Z * list (list Z) :=
  let num_media_packets := zlen media_packets in
  if num_media_packets >? max_media_packets then (e, -1, [])
  else if existsb (λ p, zlen p <? kRtpHeaderSize) media_packets then (e, -1, [])
  else
    let num_fec_packets := NumFecPackets num_media_packets protection_factor in
    if num_fec_packets =? 0 then (e, 0, [])
    else
      let e := for_packets num_fec_packets (λ _ _, []) e in
      let mask_table := NewMaskTable mem fec_mask_type num_media_packets in
      let e := set_mask_size e (PacketMaskSize num_media_packets) in
      let masks := zero_first (packet_masks_ e) (num_fec_packets * packet_mask_size_ e) in
      let '(_, masks) :=
        GeneratePacketMasks num_media_packets num_fec_packets num_important_packets
          use_unequal_protection mask_table masks in
      let e := set_masks e masks (tmp_packet_masks_ e) in
      let '(e, num_mask_bits) := InsertZerosInPacketMasks e media_packets num_fec_packets in
      if num_mask_bits <? 0 then (e, -1, [])
      else
        let e := set_mask_size e (PacketMaskSize num_mask_bits) in
        let e := GenerateFecPayloads e media_packets num_fec_packets in
        let media_ssrc := ParseSsrc (front media_packets) in
        let seq_num_base := ParseSequenceNumber (front media_packets) in
        let e := FinalizeFecHeaders e num_fec_packets media_ssrc seq_num_base in
        (e, 0, take (Z.to_nat num_fec_packets) (generated_fec_packets_ e)).

(** * Columns of the masks *)

Lemma testbit_u8_shl x s p : 0 ≤ s → 0 ≤ p → Z.testbit (u8 (x ≪ s)) p = (p <? 8) && Z.testbit x (p - s).
Proof.
  intros Hs Hp. unfold u8. change 256 with (2 ^ 8). destruct (Z.ltb_spec p 8).
  - rewrite Z.mod_pow2_bits_low, Z.shiftl_spec by lia. done.
  - by rewrite Z.mod_pow2_bits_high by lia.
Qed.

Lemma testbit_top x p : 0 ≤ p → Z.testbit (Z.land x 0x80 ≫ 7) p = (p =? 0) && Z.testbit x 7.
Proof.
  intros Hp. rewrite Z.shiftr_spec, Z.land_spec by done. change 0x80 with (2 ^ 7).
  destruct (Z.eqb_spec p 0) as [->|]; [by rewrite andb_true_r|].
  rewrite Z.pow2_bits_false by lia. by rewrite andb_false_r.
Qed.

Lemma testbit_byte x p : uint8 x → 8 ≤ p → Z.testbit x p = false.
Proof.
  unfold uint8. intros Hx Hp. rewrite Z.testbit_false by lia.
  rewrite Z.div_small; [done|]. split; [lia|].
  apply Z.lt_le_trans with (2 ^ 8); [lia|]. apply Z.pow_le_mono_r; lia.
Qed.

(** One column copied, by rows. *)
Lemma CopyColumn_rd new W old w m nb ob : 0 ≤ m → 0 ≤ nb < 8 * W → 0 ≤ ob < 8 * w →
  m * W ≤ zlen new → m * w ≤ zlen old →
  let '(new', old') := CopyColumn new W old w m nb ob in
  length new' = length new ∧ length old' = length old ∧
  (∀ r b, 0 ≤ r < m → 0 ≤ b < W → new'.[r * W + b] =
     if b =? nb `div` 8 then
       let v := Z.lor (new.[r * W + b]) (Z.land (old.[r * w + ob `div` 8]) 0x80 ≫ 7) in
       if nb `mod` 8 =? 7 then v else u8 (v ≪ 1)
     else new.[r * W + b]) ∧
  (∀ r b, 0 ≤ r < m → 0 ≤ b < w → old'.[r * w + b] =
     if b =? ob `div` 8 then u8 (old.[r * w + b] ≪ 1) else old.[r * w + b]).
Proof.
  intros Hm Hnb Hob Hln Hlo. unfold CopyColumn. set (body := λ row s, _ : list Z * list Z).
  assert (0 ≤ nb `div` 8 < W) as Hnd by zdiv. assert (0 ≤ ob `div` 8 < w) as Hod by zdiv.
  set (v := λ r, Z.lor (new.[r * W + nb `div` 8]) (Z.land (old.[r * w + ob `div` 8]) 0x80 ≫ 7)).
  set (v' := λ r, if nb `mod` 8 =? 7 then v r else u8 (v r ≪ 1)).
  assert (H := for_up_inv (λ c s, length s.1 = length new ∧ length s.2 = length old ∧
    (∀ r b, 0 ≤ r < m → 0 ≤ b < W → s.1.[r * W + b] =
       if (b =? nb `div` 8) && (r <? c) then v' r else new.[r * W + b]) ∧
    (∀ r b, 0 ≤ r < m → 0 ≤ b < w → s.2.[r * w + b] =
       if (b =? ob `div` 8) && (r <? c) then u8 (old.[r * w + b] ≪ 1) else old.[r * w + b]))
    0 (Z.to_nat m) body (new, old)).
  rewrite Z.add_0_l, Z2Nat.id in H by lia.
  assert (∀ c s, 0 ≤ c < m → length s.1 = length new → length s.2 = length old →
    s.1.[c * W + nb `div` 8] = new.[c * W + nb `div` 8] →
    s.2.[c * w + ob `div` 8] = old.[c * w + ob `div` 8] →
    body c s = (wr s.1 (c * W + nb `div` 8) (v' c),
                wr s.2 (c * w + ob `div` 8) (u8 (old.[c * w + ob `div` 8] ≪ 1)))) as Hbody.
  { intros c [n o] Hc L1 L2 E1 E2. cbn [fst snd] in *. subst body v' v. cbn beta iota.
    rewrite rd_wr_eq, wr_wr, E1, E2 by (rewrite L1; nia).
    by destruct (nb `mod` 8 =? 7). }
  destruct (for_up 0 (Z.to_nat m) body (new, old)) as [new' old'].
  destruct H as (A & B & C & D).
  { cbn [fst snd]. split_and!; try done; intros r b Hr _;
      destruct (Z.ltb_spec r 0); try lia; by rewrite andb_false_r. }
  { intros c [n o] Hc (L1 & L2 & C & D). cbn [fst snd] in *.
    rewrite Hbody; cbn [fst snd]; [|lia|done|done|..].
    2,3: rewrite ?C, ?D by lia; destruct (Z.ltb_spec c c); try lia; by rewrite andb_false_r.
    rewrite !wr_length. split_and!; try done; intros r b Hr Hb.
    - destruct (decide (r = c ∧ b = nb `div` 8)) as [[-> ->]|Hne].
      + rewrite rd_wr_eq by (rewrite L1; nia). rewrite Z.eqb_refl.
        destruct (Z.ltb_spec c (c + 1)); [done|lia].
      + rewrite rd_wr_ne by (intros He; apply row_index_inj in He; lia). rewrite C by lia.
        destruct (Z.eqb_spec b (nb `div` 8)), (Z.ltb_spec r c), (Z.ltb_spec r (c + 1)); try done; lia.
    - destruct (decide (r = c ∧ b = ob `div` 8)) as [[-> ->]|Hne].
      + rewrite rd_wr_eq by (rewrite L2; nia). rewrite Z.eqb_refl.
        destruct (Z.ltb_spec c (c + 1)); [done|lia].
      + rewrite rd_wr_ne by (intros He; apply row_index_inj in He; lia). rewrite D by lia.
        destruct (Z.eqb_spec b (ob `div` 8)), (Z.ltb_spec r c), (Z.ltb_spec r (c + 1)); try done; lia. }
  cbn [fst snd] in *. split_and!; try done; intros r b Hr Hb.
  - rewrite C by done. destruct (Z.ltb_spec r m); [|lia]. rewrite andb_true_r.
    destruct (Z.eqb_spec b (nb `div` 8)) as [->|]; done.
  - rewrite D by done. destruct (Z.ltb_spec r m); [|lia]. by rewrite andb_true_r.
Qed.

(** A shift of byte [b0] in every row. *)
Lemma shift_rows_rd mask W m b0 s : 0 ≤ m → 0 ≤ b0 < W → m * W ≤ zlen mask →
  let r := for_up 0 (Z.to_nat m) (λ row x, wr x (row * W + b0) (u8 (x.[row * W + b0] ≪ s))) mask in
  length r = length mask ∧
  ∀ i b, 0 ≤ i < m → 0 ≤ b < W → r.[i * W + b] =
    if b =? b0 then u8 (mask.[i * W + b] ≪ s) else mask.[i * W + b].
Proof.
  intros Hm Hb Hl. pose proof (for_wr_rd (λ i, i * W + b0) (λ _ x, u8 (x ≪ s)) (Z.to_nat m) mask) as H.
  rewrite !Z2Nat.id in H by lia. destruct H as (A & B & C); [intros; nia| |].
  { intros i j Hi Hj He. apply (row_index_inj W i b0 j b0); lia. }
  split; [exact A|]. intros i b Hi Hbb. destruct (Z.eqb_spec b b0) as [->|]; [by apply B|].
  apply C. intros j Hj He. apply row_index_inj in He; lia.
Qed.

(** A row of the new mask while it is built: [T] gives its columns, [nb] of them are done.  The
    byte in progress is shifted to make room for one more column. *)
Definition new_row (T : Z → bool) (nb b p : Z) : bool :=
  if b <? nb `div` 8 then (p <? 8) && T (8 * b + 7 - p)
  else if b =? nb `div` 8 then (1 <=? p) && (p <=? nb `mod` 8) && T (8 * b + nb `mod` 8 - p)
  else false.

Definition new_rows (T : Z → Z → bool) (m W nb : Z) (mask : list Z) : Prop :=
  ∀ r b p, 0 ≤ r < m → 0 ≤ b < W → 0 ≤ p →
    Z.testbit (mask.[r * W + b]) p = new_row (T r) nb b p.

(** The old mask while its columns are shifted out. *)
Definition old_rows (orig : list Z) (m w ob : Z) (mask : list Z) : Prop :=
  ∀ r b p, 0 ≤ r < m → ob `div` 8 ≤ b < w → 0 ≤ p →
    Z.testbit (mask.[r * w + b]) p =
      if b =? ob `div` 8 then (p <? 8) && Z.testbit (orig.[r * w + b]) (p - ob `mod` 8)
      else Z.testbit (orig.[r * w + b]) p.

Ltac bool_cases :=
  repeat match goal with
  | |- context [?a <? ?b] => destruct (Z.ltb_spec a b)
  | |- context [?a <=? ?b] => destruct (Z.leb_spec a b)
  | |- context [?a =? ?b] => destruct (Z.eqb_spec a b)
  end; cbn [andb orb].

Lemma new_rows_zeros T m W nb nb' mask : 0 ≤ m → 0 ≤ nb < nb' → nb' < 8 * W → m * W ≤ zlen mask →
  (∀ r j, 0 ≤ r < m → nb ≤ j < nb' → T r j = false) → new_rows T m W nb mask →
  length (InsertZeroColumns (nb' - nb) mask W m nb) = length mask ∧
  new_rows T m W nb' (InsertZeroColumns (nb' - nb) mask W m nb).
Proof.
  intros Hm Hnb Hnb' Hl HT HR. unfold InsertZeroColumns.
  set (s := Z.min (nb' - nb) (7 - nb `mod` 8)).
  destruct (shift_rows_rd mask W m (nb `div` 8) s Hm ltac:(zdiv) Hl) as [A B].
  split; [exact A|]. intros r b p Hr Hb Hp. rewrite B by done.
  pose proof (Z.div_mod nb 8 ltac:(lia)) as E. pose proof (Z.mod_pos_bound nb 8 ltac:(lia)) as M.
  pose proof (Z.div_mod nb' 8 ltac:(lia)) as E'. pose proof (Z.mod_pos_bound nb' 8 ltac:(lia)) as M'.
  set (q := nb `div` 8) in *. set (c := nb `mod` 8) in *.
  set (q' := nb' `div` 8) in *. set (c' := nb' `mod` 8) in *.
  specialize (HT r). destruct (Z.eqb_spec b q) as [->|Hne].
  - rewrite testbit_u8_shl by lia. destruct (Z.ltb_spec p 8); cbn [andb].
    2: { unfold new_row. fold q' c'. bool_cases; done || lia. }
    destruct (Z.ltb_spec p s).
    { rewrite Z.testbit_neg_r by lia. symmetry. unfold new_row. fold q' c'.
      bool_cases; try done; try lia; apply HT; lia. }
    rewrite HR by lia. unfold new_row. fold q q' c c'.
    bool_cases; try done; try lia; try (f_equal; lia); try (symmetry; apply HT; lia); apply HT; lia.
  - rewrite HR by lia. unfold new_row. fold q q' c c'.
    bool_cases; try done; try lia; symmetry; apply HT; lia.
Qed.

Lemma rows_copy T m W nb new orig w ob old : 0 ≤ m → 0 ≤ nb < 8 * W → 0 ≤ ob < 8 * w →
  m * W ≤ zlen new → m * w ≤ zlen old → (∀ k, uint8 (orig.[k])) →
  (∀ r, 0 ≤ r < m → T r nb = mask_bit orig w r ob) →
  new_rows T m W nb new → old_rows orig m w ob old →
  let '(new', old') := CopyColumn new W old w m nb ob in
  length new' = length new ∧ length old' = length old ∧
  new_rows T m W (nb + 1) new' ∧ old_rows orig m w (ob + 1) old'.
Proof.
  intros Hm Hnb Hob Hln Hlo Hu HT HR HO. pose proof (CopyColumn_rd new W old w m nb ob Hm Hnb Hob Hln Hlo) as H.
  destruct (CopyColumn new W old w m nb ob) as [new' old']. destruct H as (A & B & C & D).
  split; [done|]. split; [done|].
  pose proof (Z.div_mod nb 8 ltac:(lia)) as E. pose proof (Z.mod_pos_bound nb 8 ltac:(lia)) as M.
  pose proof (Z.div_mod (nb + 1) 8 ltac:(lia)) as E'.
  pose proof (Z.mod_pos_bound (nb + 1) 8 ltac:(lia)) as M'.
  pose proof (Z.div_mod ob 8 ltac:(lia)) as F. pose proof (Z.mod_pos_bound ob 8 ltac:(lia)) as N.
  pose proof (Z.div_mod (ob + 1) 8 ltac:(lia)) as F'.
  pose proof (Z.mod_pos_bound (ob + 1) 8 ltac:(lia)) as N'.
  set (q := nb `div` 8) in *. set (c := nb `mod` 8) in *.
  set (q' := (nb + 1) `div` 8) in *. set (c' := (nb + 1) `mod` 8) in *. split.
  - intros r b p Hr Hb Hp. rewrite C by done. destruct (Z.eqb_spec b q) as [->|Hne].
    2: { rewrite HR by done. unfold new_row. fold q q' c c'. bool_cases; try done; lia. }
    cbv zeta. assert (∀ p, 0 ≤ p → Z.testbit (Z.lor (new.[r * W + q])
      (Z.land (old.[r * w + ob `div` 8]) 128 ≫ 7)) p = new_row (T r) nb q p || ((p =? 0) && T r nb)) as V.
    { intros p' Hp'. rewrite Z.lor_spec, HR, testbit_top by done. f_equal. f_equal.
      rewrite HO by lia. rewrite Z.eqb_refl. cbn [andb Z.ltb Z.compare Pos.compare Pos.compare_cont].
      rewrite HT by done. done. }
    destruct (Z.eqb_spec c 7) as [Ec|Ec].
    + rewrite V by done. unfold new_row. fold q q' c c'. replace nb with (8 * q + 7) by lia.
      bool_cases; try done; try lia; rewrite ?orb_false_r; f_equal; lia.
    + rewrite testbit_u8_shl by lia. destruct (Z.ltb_spec (p - 1) 0).
      { rewrite Z.testbit_neg_r by lia. rewrite andb_false_r. unfold new_row. fold q q' c c'.
        bool_cases; done || lia. }
      rewrite V by lia. unfold new_row. fold q q' c c'. replace nb with (8 * q + c) by lia.
      bool_cases; try done; try lia; rewrite ?orb_false_r; f_equal; lia.
  - intros r b p Hr Hb Hp. rewrite D by lia. destruct (Z.eqb_spec b (ob `div` 8)) as [->|Hne].
    + rewrite testbit_u8_shl by lia. destruct (Z.ltb_spec (p - 1) 0).
      * rewrite Z.testbit_neg_r by lia. rewrite andb_false_r.
        destruct (Z.eqb_spec (ob `div` 8) ((ob + 1) `div` 8)); [|lia].
        rewrite Z.testbit_neg_r by lia. by rewrite andb_false_r.
      * rewrite HO by lia. rewrite Z.eqb_refl.
        destruct (Z.eqb_spec (ob `div` 8) ((ob + 1) `div` 8)); [|lia].
        replace (p - 1 - ob `mod` 8) with (p - (ob + 1) `mod` 8) by lia.
        destruct (Z.ltb_spec p 8), (Z.ltb_spec (p - 1) 8); try done; lia.
    + rewrite HO by lia. destruct (Z.eqb_spec b (ob `div` 8)); [lia|].
      destruct (Z.eqb_spec b ((ob + 1) `div` 8)) as [->|]; [|done].
      replace ((ob + 1) `mod` 8) with 0 by lia. rewrite Z.sub_0_r.
      destruct (Z.ltb_spec p 8); [done|]. by apply testbit_byte.
Qed.

(** ** Sequence numbers *)

(** The distance of a packet from the first. *)
Definition offset (base : Z) (p : list Z) : Z := u16 (ParseSequenceNumber p - base).

Fixpoint ascending_from (base o : Z) (ps : list (list Z)) : Prop :=
  match ps with
  | [] => True
  | p :: ps => o < offset base p ∧ ascending_from base (offset base p) ps
  end.

(** Media packets in the order of their sequence numbers. *)
Definition ascending (media : list (list Z)) : Prop :=
  match media with [] => False | p :: ps => ascending_from (ParseSequenceNumber p) 0 ps end.

Lemma offset_range base p : 0 ≤ offset base p < 65536.
Proof. apply Z.mod_pos_bound. lia. Qed.

Lemma ParseSequenceNumber_range p : 0 ≤ ParseSequenceNumber p < 65536.
Proof. apply Z.mod_pos_bound. lia. Qed.

(** The gap in front of a packet. *)
Lemma offset_gap base prev p : u16 (prev - base) < offset base p →
  u16 (ParseSequenceNumber p - prev - 1) = offset base p - u16 (prev - base) - 1 ∧
  u16 (ParseSequenceNumber p - prev) = offset base p - u16 (prev - base).
Proof. unfold offset, u16. intros. split; zdiv. Qed.

Fixpoint last_offset (base o : Z) (ps : list (list Z)) : Z :=
  match ps with [] => o | p :: ps => last_offset base (offset base p) ps end.

Lemma last_offset_bound base o ps : ascending_from base o ps →
  o + zlen ps ≤ last_offset base o ps ∧
  Forall (λ p, o < offset base p ≤ last_offset base o ps) ps.
Proof.
  revert o. induction ps as [|p ps IH]; intros o H; [split; [simpl; lia|constructor]|].
  destruct H as [H1 H2]. destruct (IH _ H2) as [I1 I2]. cbn [last_offset].
  split; [cbn [length]; lia|]. constructor; [lia|].
  apply (list.Forall_impl _ _ _ I2). intros q Hq. lia.
Qed.

(** The column of the packet at distance [j], if there is one. *)
Fixpoint column (f : Z → bool) (k : Z) (offs : list Z) (j : Z) : bool :=
  match offs with
  | [] => false
  | o :: offs => if j =? o then f k else column f (k + 1) offs j
  end.

Lemma column_out f k offs j : ¬ In j offs → column f k offs j = false.
Proof.
  revert k. induction offs as [|o offs IH]; intros k H; [done|]. cbn [column].
  destruct (Z.eqb_spec j o) as [->|]; [exfalso; apply H; by left|].
  apply IH. intros Hi. apply H. by right.
Qed.

Lemma column_below f k base o ps j : ascending_from base o ps → j ≤ o →
  column f k (map (offset base) ps) j = false.
Proof.
  intros H Hj. apply column_out. intros Hi. apply in_map_iff in Hi as (p & <- & Hp).
  apply list_elem_of_In in Hp.
  destruct (last_offset_bound base o ps H) as [_ Hall]. rewrite list.Forall_forall in Hall.
  specialize (Hall p Hp). lia.
Qed.

(** Packets without gaps. *)
Lemma offsets_consecutive base o ps : ascending_from base o ps →
  last_offset base o ps = o + zlen ps → map (offset base) ps = seqZ (o + 1) (zlen ps).
Proof.
  revert o. induction ps as [|p ps IH]; intros o H E; [done|]. destruct H as [H1 H2].
  destruct (last_offset_bound base _ ps H2) as [B _]. cbn [last_offset] in E.
  cbn [length] in *. assert (offset base p = o + 1) as Ep by lia.
  cbn [map]. rewrite (IH _ H2) by lia. rewrite Ep. rewrite (seqZ_cons (o + 1)) by lia.
  f_equal. f_equal; lia.
Qed.

Lemma column_consecutive f k n o j : 0 ≤ n →
  column f k (seqZ o n) j = (o <=? j) && (j <? o + n) && f (k + (j - o)).
Proof.
  intros Hn. revert k o. pattern n. apply natlike_ind; [|clear n Hn; intros n Hn IH|done]; intros k o.
  - cbn [column seqZ]. destruct (Z.leb_spec o j), (Z.ltb_spec j (o + 0)); try done; lia.
  - rewrite seqZ_cons by lia. cbn [column]. rewrite Z.pred_succ, IH.
    replace (Z.succ o) with (o + 1) by lia. replace (Z.succ n) with (n + 1) by lia.
    destruct (Z.eqb_spec j o) as [->|].
    + replace (k + (o - o)) with k by lia. bool_cases; done || lia.
    + replace (k + 1 + (j - (o + 1))) with (k + (j - o)) by lia. bool_cases; done || lia.
Qed.

Lemma insert_zeros_rows T W w m base orig ps prev nb ob new old :
  0 ≤ m → 1 ≤ nb → m * W ≤ zlen new → m * w ≤ zlen old → (∀ k, uint8 (orig.[k])) →
  u16 (prev - base) = nb - 1 → ascending_from base (nb - 1) ps →
  last_offset base (nb - 1) ps < 8 * W → 8 * W ≤ 48 → 0 ≤ ob → ob + zlen ps ≤ 8 * w →
  (∀ r j, 0 ≤ r < m → nb ≤ j → T r j = column (mask_bit orig w r) ob (map (offset base) ps) j) →
  new_rows T m W nb new → old_rows orig m w ob old →
  let '(new', old', nb') := insert_zeros_loop 48 W w m ps prev nb ob (new, old) in
  length new' = length new ∧ length old' = length old ∧
  nb' = last_offset base (nb - 1) ps + 1 ∧ new_rows T m W nb' new'.
Proof.
  revert prev nb ob new old. induction ps as [|p ps IH];
    intros prev nb ob new old Hm Hnb Hln Hlo Hu Hprev Ha Hlast HW Hob Hobl HT HR HO.
  { cbn. split_and!; try done. lia. }
  destruct Ha as [Ha1 Ha2]. cbn [last_offset length] in *.
  destruct (last_offset_bound base _ ps Ha2) as [Hlb _].
  set (o := offset base p) in *. cbn [insert_zeros_loop].
  destruct (Z.eqb_spec nb 48); [lia|].
  destruct (offset_gap base prev p ltac:(fold o; lia)) as [Hz _]. fold o in Hz.
  rewrite Hz, Hprev. replace (o - (nb - 1) - 1) with (o - nb) by lia.
  set (new1 := if o - nb >? 0 then _ else _).
  assert (length new1 = length new ∧ new_rows T m W o new1) as [L1 R1].
  { subst new1. destruct (Z.gtb_spec (o - nb) 0).
    - apply new_rows_zeros; try done; try lia. intros r j Hr Hj. rewrite HT by lia.
      cbn [map column]. fold o. destruct (Z.eqb_spec j o); [lia|].
      apply column_below with o; [done|lia].
    - replace o with nb by lia. done. }
  clearbody new1. replace (nb + (o - nb)) with o by lia.
  pose proof (rows_copy T m W o new1 orig w ob old Hm ltac:(lia) ltac:(lia) ltac:(lia) ltac:(lia) Hu) as HC.
  destruct (CopyColumn new1 W old w m o ob) as [new2 old2].
  destruct HC as (L2 & L2' & R2 & O2); [|done|done|].
  { intros r Hr. rewrite HT by lia. cbn [map column]. fold o. by rewrite Z.eqb_refl. }
  specialize (IH (ParseSequenceNumber p) (o + 1) (ob + 1) new2 old2).
  destruct (insert_zeros_loop _ _ _ _ _ _ _ _ _) as [[new' old'] nb'].
  replace (o + 1 - 1) with o in IH by lia.
  destruct IH as (I1 & I2 & I3 & I4); try done; try lia.
  { intros r j Hr Hj. rewrite HT by lia. cbn [map column]. fold o.
    destruct (Z.eqb_spec j o); [lia|done]. }
  split_and!; try done; congruence.
Qed.

(** The columns are complete once the last byte is shifted. *)
Lemma new_rows_done T m W nb mask : 0 ≤ m → 1 ≤ nb ≤ 8 * W → m * W ≤ zlen mask →
  new_rows T m W nb mask →
  let mask' :=
    if negb (nb `mod` 8 =? 0) then
      for_up 0 (Z.to_nat m) (λ row tmp,
        wr tmp (row * W + nb `div` 8) (u8 (tmp.[row * W + nb `div` 8] ≪ (7 - nb `mod` 8)))) mask
    else mask in
  length mask' = length mask ∧
  ∀ r b p, 0 ≤ r < m → 0 ≤ b < W → 0 ≤ p →
    Z.testbit (mask'.[r * W + b]) p = (p <? 8) && (8 * b + 7 - p <? nb) && T r (8 * b + 7 - p).
Proof.
  intros Hm Hnb Hl HR. pose proof (Z.div_mod nb 8 ltac:(lia)) as E.
  pose proof (Z.mod_pos_bound nb 8 ltac:(lia)) as M. destruct (Z.eqb_spec (nb `mod` 8) 0) as [E0|E0]; cbn [negb].
  - split; [done|]. intros r b p Hr Hb Hp. rewrite HR by done. unfold new_row. rewrite E0.
    bool_cases; try done; lia.
  - destruct (shift_rows_rd mask W m (nb `div` 8) (7 - nb `mod` 8) Hm ltac:(lia) Hl) as [A B].
    split; [exact A|]. intros r b p Hr Hb Hp. rewrite B by done.
    destruct (Z.eqb_spec b (nb `div` 8)) as [->|Hne].
    + rewrite testbit_u8_shl by lia. destruct (Z.ltb_spec (p - (7 - nb `mod` 8)) 0).
      * rewrite Z.testbit_neg_r by lia. rewrite andb_false_r. bool_cases; try done; lia.
      * rewrite HR by lia. unfold new_row. bool_cases; try done; try lia; f_equal; lia.
    + rewrite HR by done. unfold new_row. bool_cases; try done; lia.
Qed.

Lemma testbit_bytes x : (∀ p, 8 ≤ p → Z.testbit x p = false) → uint8 x.
Proof.
  intros H. assert (0 ≤ x) as Hx.
  { apply Z.bits_iff_nonneg_ex. exists 8. intros p Hp. apply H. lia. }
  unfold uint8. split; [done|].
  assert (x = x `mod` 2 ^ 8) as ->.
  { apply Z.bits_inj'. intros p Hp. destruct (Z.ltb_spec p 8).
    - by rewrite Z.mod_pow2_bits_low by lia.
    - rewrite H, Z.mod_pow2_bits_high by lia. done. }
  pose proof (Z.mod_pos_bound x (2 ^ 8)). lia.
Qed.

(** The offsets of all media packets. *)
Definition offsets (media : list (list Z)) : list Z :=
  map (offset (ParseSequenceNumber (front media))) media.

Lemma last_seq base o ps : u16 (ParseSequenceNumber (List.last ps []) - base) = last_offset base o ps ∨ ps = [].
Proof.
  revert o. induction ps as [|p ps IH]; intros o; [by right|left]. cbn [last_offset].
  destruct ps as [|q ps]; [done|]. destruct (IH (offset base p)) as [E|E]; [exact E|done].
Qed.

Lemma InsertZerosInPacketMasks_spec {F : FecHeaderFormat} e media m :
  max_media_packets = 48 → ascending media → zlen media ≤ 48 → 1 ≤ m ≤ zlen media →
  packet_mask_size_ e = PacketMaskSize (zlen media) →
  good_mask (packet_mask_size_ e) (zlen media) m (packet_masks_ e) →
  (∀ k, uint8 ((packet_masks_ e).[k])) →
  zlen (packet_masks_ e) = 288 → zlen (tmp_packet_masks_ e) = 288 →
  let span := last_offset (ParseSequenceNumber (front media)) 0 (tail media) + 1 in
  let '(e', n) := InsertZerosInPacketMasks e media m in
  generated_fec_packets_ e' = generated_fec_packets_ e ∧
  if span <=? 48 then
    n = span ∧ zlen (packet_masks_ e') = 288 ∧
    (∀ r b, 0 ≤ r < m → 0 ≤ b < PacketMaskSize n → uint8 ((packet_masks_ e').[r * PacketMaskSize n + b])) ∧
    (∀ r j, 0 ≤ r < m → 0 ≤ j < 8 * PacketMaskSize n →
       mask_bit (packet_masks_ e') (PacketMaskSize n) r j =
       column (mask_bit (packet_masks_ e) (packet_mask_size_ e) r) 0 (offsets media) j)
  else n = -1.
Proof.
  intros HF Ha Hn Hm Hw Hg Hu Hl1 Hl2 span. destruct media as [|p0 ps]; [done|].
  unfold InsertZerosInPacketMasks. cbn [front hd tail] in *. set (base := ParseSequenceNumber p0) in *.
  set (n := zlen (p0 :: ps)) in *. assert (n = zlen ps + 1) as En by (subst n; cbn [length]; lia).
  unfold ascending in Ha. fold base in Ha.
  destruct (last_offset_bound base 0 ps Ha) as [Hlb Hall].
  assert (offset base p0 = 0) as Hp0 by (unfold offset, base; by rewrite Z.sub_diag).
  assert (offsets (p0 :: ps) = 0 :: map (offset base) ps) as Eoff.
  { unfold offsets. cbn [front hd map]. fold base. by rewrite Hp0. }
  (* no gaps *)
  assert (last_offset base 0 ps = zlen ps → ∀ r j, 0 ≤ r < m → 0 ≤ j < 8 * PacketMaskSize n →
    mask_bit (packet_masks_ e) (PacketMaskSize n) r j =
    column (mask_bit (packet_masks_ e) (packet_mask_size_ e) r) 0 (offsets (p0 :: ps)) j) as Hsame.
  { intros Hc r j Hr Hj. rewrite Eoff, (offsets_consecutive base 0 ps) by (done || lia).
    assert (0 :: seqZ (0 + 1) (zlen ps) = seqZ 0 n) as ->.
    { rewrite (seqZ_cons 0) by lia. f_equal. f_equal. lia. }
    rewrite column_consecutive by lia. rewrite Hw. replace (0 + (j - 0)) with j by lia.
    destruct (Z.ltb_spec j (0 + n)), (Z.leb_spec 0 j); cbn [andb]; try done; try lia.
    rewrite <- Hw. apply (mask_rest _ _ _ _ Hg); [done|]. rewrite Hw. lia. }
  assert (∀ r b, 0 ≤ r < m → 0 ≤ b < PacketMaskSize n →
    uint8 ((packet_masks_ e).[r * PacketMaskSize n + b])) as Hub by (intros; apply Hu).
  destruct (Z.leb_spec n 1).
  { split; [done|]. destruct ps as [|]; [|cbn [length] in En; lia]. subst span.
    cbn [last_offset Z.leb Z.compare]. split; [lia|]. split; [done|]. split; [done|]. by apply Hsame. }
  assert (u16 (ParseSequenceNumber (back (p0 :: ps)) - base) = last_offset base 0 ps) as ->.
  { destruct ps as [|q ps]; [cbn [length] in En; lia|].
    destruct (last_seq base 0 (q :: ps)) as [E|]; [exact E|done]. }
  assert (last_offset base 0 ps < 65536) as Hlr.
  { destruct ps as [|q ps]; [cbn [length] in En; lia|].
    destruct (last_seq base 0 (q :: ps)) as [<-|]; [apply Z.mod_pos_bound; lia|done]. }
  rewrite (u64_id (last_offset base 0 ps - n + 1)) by cint.
  destruct (Z.eqb_spec (last_offset base 0 ps - n + 1) 0) as [E0|E0].
  { split; [done|]. destruct (Z.leb_spec span 48); [|subst span; lia].
    split; [subst span; lia|]. split; [done|]. split; [done|]. apply Hsame. lia. }
  replace (last_offset base 0 ps - n + 1 + n) with span by (subst span; lia).
  rewrite u64_id by (subst span; cint). rewrite HF. rewrite Z.gtb_ltb.
  destruct (Z.ltb_spec 48 span) as [Hs|Hs].
  { destruct (Z.leb_spec span 48); [lia|]. done. }
  destruct (Z.leb_spec span 48); [|lia].
  destruct (PacketMaskSize_bound span ltac:(subst span; lia)) as [HW HWs].
  destruct (PacketMaskSize_bound n ltac:(lia)) as [Hw2 Hw3]. rewrite <- Hw in Hw2, Hw3.
  set (W := PacketMaskSize span) in *. set (w := packet_mask_size_ e) in *.
  assert (0 ≤ m * W ≤ 288 ∧ 0 ≤ m * w ≤ 288) as [HmW Hmw] by nia.
  set (T := λ r, column (mask_bit (packet_masks_ e) w r) 0 (offsets (p0 :: ps))).
  destruct (zero_first_rd (tmp_packet_masks_ e) (m * W) 0 ltac:(lia)) as [Lz _].
  assert (new_rows T m W 0 (zero_first (tmp_packet_masks_ e) (m * W))) as R0.
  { intros r b p Hr Hb Hp. rewrite (proj2 (zero_first_rd (tmp_packet_masks_ e) (m * W) (r * W + b) ltac:(lia))).
    assert (0 ≤ r * W + b < m * W) by nia.
    destruct (Z.leb_spec 0 (r * W + b)), (Z.ltb_spec (r * W + b) (m * W)); try lia.
    rewrite Z.bits_0. unfold new_row. change (0 `div` 8) with 0. change (0 `mod` 8) with 0.
    bool_cases; done || lia. }
  assert (old_rows (packet_masks_ e) m w 0 (packet_masks_ e)) as O0.
  { intros r b p Hr Hb Hp. change (0 `div` 8) with 0. change (0 `mod` 8) with 0.
    rewrite Z.sub_0_r. destruct (b =? 0); [|done]. destruct (Z.ltb_spec p 8); [done|].
    by apply testbit_byte. }
  pose proof (rows_copy T m W 0 (zero_first (tmp_packet_masks_ e) (m * W)) (packet_masks_ e) w 0
    (packet_masks_ e) ltac:(lia) ltac:(lia) ltac:(lia) ltac:(lia) ltac:(lia) Hu) as HC.
  destruct (CopyColumn _ W _ w m 0 0) as [new1 old1].
  destruct HC as (L1 & L1' & R1 & O1); [|done|done|].
  { intros r Hr. subst T. cbv beta. rewrite Eoff. done. }
  pose proof (insert_zeros_rows T W w m base (packet_masks_ e) ps base 1 1 new1 old1) as HL.
  change (1 - 1) with 0 in HL.
  destruct (insert_zeros_loop 48 W w m ps base 1 1 (new1, old1)) as [[new2 old2] nb].
  destruct HL as (L2 & L2' & -> & R2); try done; try lia.
  { intros r j Hr Hj. subst T. cbv beta. rewrite Eoff. cbn [column].
    destruct (Z.eqb_spec j 0); [lia|done]. }
  fold span in R2 |- *.
  destruct (new_rows_done T m W span new2 ltac:(lia) ltac:(subst span; lia) ltac:(lia) R2) as [L3 R3].
  set (new3 := if negb (span `mod` 8 =? 0) then _ else _) in *. clearbody new3.
  cbn [generated_fec_packets_ set_masks packet_masks_].
  assert (zlen (slice new3 0 (m * W)) = m * W) as Ls by (rewrite slice_length; lia).
  assert (∀ r b, 0 ≤ r < m → 0 ≤ b < W →
    (store old2 0 (slice new3 0 (m * W))).[r * W + b] = new3.[r * W + b]) as Hrd.
  { intros r b Hr Hb. assert (0 ≤ r * W + b < m * W) by nia. rewrite rd_store by lia. rewrite Ls.
    destruct_cmp; try lia. rewrite rd_slice by lia. f_equal. lia. }
  split; [done|]. split; [done|]. split; [rewrite store_length; lia|]. split.
  - intros r b Hr Hb. rewrite Hrd by done. apply testbit_bytes. intros p Hp.
    rewrite R3 by lia. destruct (Z.ltb_spec p 8); [lia|done].
  - intros r j Hr Hj. unfold mask_bit at 1. assert (0 ≤ j `div` 8 < W) by zdiv.
    pose proof (Z.div_mod j 8 ltac:(lia)). pose proof (Z.mod_pos_bound j 8 ltac:(lia)).
    rewrite Hrd, R3 by lia. replace (8 * (j `div` 8) + 7 - (7 - j `mod` 8)) with j by lia.
    destruct (Z.ltb_spec (7 - j `mod` 8) 8); [|lia]. cbn [andb]. fold (T r).
    destruct (Z.ltb_spec j span); [done|]. symmetry. subst T. cbv beta. apply column_out.
    rewrite Eoff. intros [Hi|Hi]; [subst span; lia|]. apply in_map_iff in Hi as (q & <- & Hq).
    rewrite list.Forall_forall in Hall. apply list_elem_of_In in Hq. specialize (Hall q Hq).
    subst span. lia.
Qed.

(** * Payloads *)

(** What the loop does with a packet that is selected. *)
Definition add_packet (hs : Z) (fec p : list Z) : list Z :=
  let n := hs + (zlen p - kRtpHeaderSize) in
  let fec := if n >? zlen fec then grow fec n else fec in
  XorPayloads p (zlen p - kRtpHeaderSize) hs (XorHeaders p fec).

(** The packets whose column is set. *)
Definition selected (bit : Z → bool) (base : Z) (media : list (list Z)) : list (list Z) :=
  filter (λ p, bit (offset base p) = true) media.

Lemma selected_ext bit bit' base media :
  (∀ p, In p media → bit (offset base p) = bit' (offset base p)) →
  selected bit base media = selected bit' base media.
Proof.
  unfold selected. induction media as [|p ps IH]; intros H; [done|].
  rewrite !filter_cons, IH by (intros; apply H; by right). rewrite (H p) by (by left). done.
Qed.

Lemma is_set_testbit x k : 0 ≤ k → is_set x (1 ≪ k) = Z.testbit x k.
Proof.
  intros Hk. unfold is_set. rewrite shiftl_mul, Z.mul_1_l by done.
  destruct (Z.testbit x k) eqn:E.
  - destruct (Z.eqb_spec (Z.land x (2 ^ k)) 0) as [H|]; [|done].
    assert (Z.testbit (Z.land x (2 ^ k)) k = true) as H'
      by (rewrite Z.land_spec, E, Z.pow2_bits_true by done; done).
    rewrite H, Z.bits_0 in H'. done.
  - destruct (Z.eqb_spec (Z.land x (2 ^ k)) 0) as [|H]; [done|]. exfalso. apply H.
    apply Z.bits_inj'. intros j Hj. rewrite Z.land_spec, Z.bits_0.
    destruct (Z.eq_dec j k) as [->|]; [by rewrite E|].
    rewrite Z.pow2_bits_false by lia. by rewrite andb_false_r.
Qed.

Lemma payload_loop_spec masks hs ms i base p ps fec :
  0 ≤ ms → 0 ≤ i → ascending_from base (offset base p) ps →
  payload_loop masks hs (p :: ps) (ParseSequenceNumber p) (i * ms + offset base p `div` 8)
    (offset base p `mod` 8) fec =
  foldl (add_packet hs) fec (selected (mask_bit masks ms i) base (p :: ps)).
Proof.
  intros Hms Hi. revert p fec. induction ps as [|q ps IH]; intros p fec Ha;
    pose proof (offset_range base p) as Ho; pose proof (Z.mod_pos_bound (offset base p) 8 ltac:(lia)) as Hmod.
  - cbn [payload_loop]. rewrite is_set_testbit by lia.
    fold (mask_bit masks ms i (offset base p)). unfold selected. rewrite filter_cons, filter_nil.
    destruct (mask_bit masks ms i (offset base p)) eqn:E; [|done].
    by destruct (decide (true = true)).
  - destruct Ha as [Ha1 Ha2].
    change (payload_loop masks hs (p :: q :: ps) ?a ?b ?c fec) with
      (let fec' := if is_set (masks.[b]) (1 ≪ (7 - c)) then add_packet hs fec p else fec in
       let o' := c + u16 (ParseSequenceNumber q - a) in
       payload_loop masks hs (q :: ps) (ParseSequenceNumber q) (b + o' `div` 8) (o' `mod` 8) fec').
    cbv zeta. rewrite is_set_testbit by lia. fold (mask_bit masks ms i (offset base p)).
    destruct (offset_gap base (ParseSequenceNumber p) q Ha1) as [_ Hg]. fold (offset base p) in Hg.
    rewrite Hg. pose proof (offset_range base q) as Hoq.
    replace (i * ms + offset base p `div` 8 + (offset base p `mod` 8 + (offset base q - offset base p)) `div` 8)
      with (i * ms + offset base q `div` 8) by zdiv.
    replace ((offset base p `mod` 8 + (offset base q - offset base p)) `mod` 8)
      with (offset base q `mod` 8) by zdiv.
    rewrite IH by done. unfold selected. rewrite (filter_cons _ p).
    destruct (mask_bit masks ms i (offset base p)) eqn:E.
    + by destruct (decide (true = true)).
    + by destruct (decide (false = true)).
Qed.

(** The longest payload. *)
Definition max_payload (ps : list (list Z)) : Z :=
  foldr (λ p m, Z.max (zlen p - kRtpHeaderSize) m) 0 ps.

Lemma max_payload_ge ps : 0 ≤ max_payload ps ∧ Forall (λ p, zlen p - kRtpHeaderSize ≤ max_payload ps) ps.
Proof.
  induction ps as [|p ps [IH1 IH2]]; [split; [done|constructor]|]. cbn [max_payload foldr].
  fold (max_payload ps). split; [lia|]. constructor; [lia|].
  apply (list.Forall_impl _ _ _ IH2). intros q Hq. lia.
Qed.

Lemma max_payload_le ps n : 0 ≤ n → Forall (λ p, zlen p - kRtpHeaderSize ≤ n) ps → max_payload ps ≤ n.
Proof. intros Hn. induction 1 as [|p ps H1 H2 IH]; [done|]. cbn. fold (max_payload ps). lia. Qed.

Lemma max_payload_app ps qs : max_payload (ps ++ qs) = Z.max (max_payload ps) (max_payload qs).
Proof.
  induction ps as [|p ps IH]; cbn [app max_payload foldr].
  - fold (max_payload qs). pose proof (proj1 (max_payload_ge qs)). lia.
  - fold (max_payload (ps ++ qs)). fold (max_payload ps). lia.
Qed.

(** [d] is the parity of [ps] with a header of [hs] bytes. *)
Record is_parity (hs : Z) (ps : list (list Z)) (d : list Z) : Prop := {
  par_bytes : is_bytes d;
  par_length : zlen d = match ps with [] => 0 | _ => hs + max_payload ps end;
  par_head : ∀ k, 0 ≤ k < 8 → d.[k] = parity (λ p, recovery_head p k) ps;
  par_payload : ∀ i, 0 ≤ i → d.[hs + i] = parity (λ p, p.[12 + i]) ps;
}.

Lemma add_packet_parity hs ps d p : 12 ≤ hs → is_bytes p → 12 ≤ zlen p →
  is_parity hs ps d → is_parity hs (ps ++ [p]) (add_packet hs d p).
Proof.
  intros Hhs Hp Hl [B L H P]. unfold add_packet, kRtpHeaderSize. set (d1 := if _ >? _ then _ else _).
  assert (is_bytes d1 ∧ zlen d1 = Z.max (zlen d) (hs + (zlen p - 12)) ∧ ∀ i, d1.[i] = d.[i]) as (B1 & L1 & R1).
  { subst d1. destruct (Z.gtb_spec (hs + (zlen p - 12)) (zlen d)).
    - rewrite grow_length. split_and!; [by apply grow_uint8|lia|intros; apply rd_grow].
    - split_and!; [done|lia|done]. }
  destruct (Xor_rd p hs d1 Hl ltac:(lia)) as (XL & XH & _ & XP).
  change (zlen p - kRtpHeaderSize) with (zlen p - 12) in *.
  split.
  - by apply Xor_bytes.
  - rewrite XL, L1, L, max_payload_app. cbn [max_payload foldr]. unfold kRtpHeaderSize.
    destruct ps as [|q ps]; cbn [app]; [cbn; lia|].
    pose proof (proj1 (max_payload_ge (q :: ps))). lia.
  - intros k Hk. rewrite XH, R1, H, parity_app by done. cbn [parity foldr]. by rewrite Z.lxor_0_r.
  - intros i Hi. rewrite XP, R1, P, parity_app by done. cbn [parity foldr]. by rewrite Z.lxor_0_r.
Qed.

Lemma foldl_add_parity hs ps : 12 ≤ hs → Forall (λ p, is_bytes p ∧ 12 ≤ zlen p) ps →
  is_parity hs ps (foldl (add_packet hs) [] ps).
Proof.
  intros Hhs. induction ps as [|p ps IH] using rev_ind; intros H.
  - split; [constructor|done|intros; by rewrite rd_beyond by (simpl; lia)|].
    intros i Hi. rewrite rd_beyond by (simpl; lia). done.
  - rewrite foldl_app. cbn [foldl]. apply Forall_app in H as [H1 H2]. inversion H2 as [|? ? [A B] ?]; subst.
    apply add_packet_parity; auto.
Qed.

(** * The encoder *)

Lemma for_packets_lookup m f e k : (k < Z.to_nat m)%nat →
  generated_fec_packets_ (for_packets m f e) !! k =
    f (Z.of_nat k) <$> generated_fec_packets_ e !! k.
Proof.
  intros Hk. unfold for_packets. cbn [generated_fec_packets_].
  set (body := λ (i : Z) (g : list (list Z)), alter (f i) (Z.to_nat i) g).
  assert (H := for_up_inv (λ c g, g !! k =
    if Z.of_nat k <? c then f (Z.of_nat k) <$> generated_fec_packets_ e !! k
    else generated_fec_packets_ e !! k) 0 (Z.to_nat m) body (generated_fec_packets_ e)).
  rewrite H; [by destruct (Z.ltb_spec (Z.of_nat k) (0 + Z.of_nat (Z.to_nat m))); [|lia]|..].
  - destruct (Z.ltb_spec (Z.of_nat k) 0); [lia|done].
  - intros i g Hi E. subst body. cbv beta. destruct (decide (k = Z.to_nat i)) as [->|].
    + rewrite list_lookup_alter_eq, E. rewrite Z2Nat.id by lia.
      destruct (Z.ltb_spec i i); [lia|]. by destruct (Z.ltb_spec i (i + 1)); [|lia].
    + rewrite list_lookup_alter_ne by done. rewrite E.
      destruct (Z.ltb_spec (Z.of_nat k) i), (Z.ltb_spec (Z.of_nat k) (i + 1)); done || lia.
Qed.

Lemma for_packets_length m f e :
  length (generated_fec_packets_ (for_packets m f e)) = length (generated_fec_packets_ e).
Proof.
  unfold for_packets. cbn [generated_fec_packets_].
  apply (for_up_inv (λ _ g, length g = length (generated_fec_packets_ e))); [done|].
  intros i g _ E. by rewrite length_alter.
Qed.

Lemma NumFecPackets_range n pf : 1 ≤ n ≤ 48 → 1 ≤ pf ≤ 255 → 1 ≤ NumFecPackets n pf ≤ n.
Proof.
  intros Hn Hp. unfold NumFecPackets. rewrite shiftr_div by lia. change (1 ≪ 7) with 128.
  assert (0 ≤ (n * pf + 128) `div` 2 ^ 8 ≤ n).
  { split; [apply Z.div_pos; nia|]. apply Z.lt_succ_r, Z.div_lt_upper_bound; nia. }
  rewrite Z.gtb_ltb. destruct (Z.ltb_spec 0 pf); [|lia]. cbn [andb].
  destruct (Z.eqb_spec ((n * pf + 128) `div` 2 ^ 8) 0); lia.
Qed.

(** ** The arrays of masks *)

Lemma bytes_of_rd l : (∀ k, uint8 (l.[k])) → is_bytes l.
Proof.
  intros H. apply list.Forall_forall. intros x Hx. apply list_elem_of_lookup in Hx as [k Hk].
  specialize (H (Z.of_nat k)). unfold rd in H. destruct (Z.ltb_spec (Z.of_nat k) 0); [lia|].
  rewrite Nat2Z.id, nth_lookup, Hk in H. exact H.
Qed.

(** An array of [n] bytes. *)
Definition buffer (n : nat) (l : list Z) : Prop := is_bytes l ∧ length l = n.

Lemma buffer_wr n l i v : buffer n l → uint8 v → buffer n (wr l i v).
Proof. intros [A B] H. split; [by apply wr_Forall|by rewrite wr_length]. Qed.

Lemma InsertZeroColumns_buffer n z l W m nb : buffer n l → buffer n (InsertZeroColumns z l W m nb).
Proof.
  intros H. unfold InsertZeroColumns. apply (for_up_inv (λ _ l, buffer n l)); [done|].
  intros i l' _ Hl. apply buffer_wr; [done|apply u8_range].
Qed.

Lemma CopyColumn_buffer n k new W old w m nb ob : buffer n new → buffer k old →
  buffer n (CopyColumn new W old w m nb ob).1 ∧ buffer k (CopyColumn new W old w m nb ob).2.
Proof.
  intros Hn Ho. unfold CopyColumn.
  apply (for_up_inv (λ _ s, buffer n s.1 ∧ buffer k s.2)); [done|].
  intros i [new' old'] _ [A B]. cbn [fst snd] in *. split; [|apply buffer_wr; [done|apply u8_range]].
  assert (uint8 (Z.lor (new'.[i * W + nb `div` 8]) (Z.land (old'.[i * w + ob `div` 8]) 0x80 ≫ 7))) as Hv.
  { apply testbit_bytes. intros p Hp. rewrite Z.lor_spec, testbit_top by lia.
    rewrite testbit_byte by (try done; apply bytes_rd; apply A).
    destruct (Z.eqb_spec p 0); [lia|done]. }
  destruct (negb _); repeat apply buffer_wr; try done; apply u8_range.
Qed.

Lemma insert_zeros_buffer n k M W w m ps prev nb ob masks : buffer n masks.1 → buffer k masks.2 →
  let r := insert_zeros_loop M W w m ps prev nb ob masks in buffer n r.1.1 ∧ buffer k r.1.2.
Proof.
  revert prev nb ob masks. induction ps as [|p ps IH]; intros prev nb ob [tmp old] Hn Hk; [done|].
  cbn [insert_zeros_loop fst snd] in *. destruct (nb =? M); [done|].
  set (tmp' := if _ >? 0 then _ else tmp).
  assert (buffer n tmp') as Hn' by (subst tmp'; destruct (_ >? 0); [by apply InsertZeroColumns_buffer|done]).
  destruct (CopyColumn_buffer n k tmp' W old w m (nb + u16 (ParseSequenceNumber p - prev - 1)) ob Hn' Hk).
  by apply IH.
Qed.

Lemma InsertZeros_buffers {F : FecHeaderFormat} e media m :
  buffer 288 (packet_masks_ e) → buffer 288 (tmp_packet_masks_ e) →
  0 ≤ m ≤ 48 → let e' := (InsertZerosInPacketMasks e media m).1 in
  buffer 288 (packet_masks_ e') ∧ buffer 288 (tmp_packet_masks_ e') ∧
  generated_fec_packets_ e' = generated_fec_packets_ e.
Proof.
  intros Hp Ht Hm. unfold InsertZerosInPacketMasks. destruct (_ <=? 1); [done|]. destruct (_ =? 0); [done|].
  destruct (_ >? max_media_packets); [done|]. set (W := PacketMaskSize _).
  assert (2 ≤ W ≤ 6) as HW by (subst W; unfold PacketMaskSize; destruct (_ >? _); vm_compute; split; discriminate).
  assert (buffer 288 (zero_first (tmp_packet_masks_ e) (m * W))) as Hz.
  { destruct Ht as [A B]. unfold zero_first. split.
    - apply store_Forall; [done|]. apply Forall_replicate. cint.
    - rewrite store_length by (rewrite ?length_replicate; nia). done. }
  destruct (CopyColumn_buffer 288 288 (zero_first (tmp_packet_masks_ e) (m * W)) W (packet_masks_ e)
    (packet_mask_size_ e) m 0 0 Hz Hp) as [C1 C2].
  destruct (CopyColumn _ _ _ _ _ _ _) as [new old].
  destruct (insert_zeros_buffer 288 288 max_media_packets W (packet_mask_size_ e) m (tail media)
    (ParseSequenceNumber (front media)) 1 1 (new, old) C1 C2) as [D1 D2].
  destruct (insert_zeros_loop _ _ _ _ _ _ _ _ _) as [[tmp old'] nb]. cbn [fst snd] in D1, D2.
  set (tmp' := if negb _ then _ else tmp).
  assert (buffer 288 tmp') as [E1 E2].
  { subst tmp'. destruct (negb _); [|done]. apply (for_up_inv (λ _ l, buffer 288 l)); [done|].
    intros i l' _ Hl. apply buffer_wr; [done|apply u8_range]. }
  cbn [fst packet_masks_ tmp_packet_masks_ set_masks generated_fec_packets_]. split; [|done].
  destruct D2 as [G1 G2]. split.
  - apply store_Forall; [done|]. unfold slice. by apply Forall_take, Forall_drop.
  - rewrite store_length; [done|lia|]. rewrite slice_length by nia. nia.
Qed.

(** The memory of an encoder. *)
Record encoder_ok {F : FecHeaderFormat} (e : FecEncoder) : Prop := {
  enc_packets : length (generated_fec_packets_ e) = Z.to_nat max_fec_packets;
  enc_masks : zlen (packet_masks_ e) = kUlpfecMaxMediaPackets * kUlpfecMaxPacketMaskSize;
  enc_masks_bytes : is_bytes (packet_masks_ e);
  enc_tmp : zlen (tmp_packet_masks_ e) = kUlpfecMaxMediaPackets * kUlpfecMaxPacketMaskSize;
  enc_tmp_bytes : is_bytes (tmp_packet_masks_ e);
}.

(** The distance covered by the media packets. *)
Definition span (media : list (list Z)) : Z :=
  last_offset (ParseSequenceNumber (front media)) 0 (tail media) + 1.

(** The FEC packets for [media]: packet [i] is the parity of the packets that [bit i] selects,
    with a header that tells which these are. *)
Record encoded {F : FecHeaderFormat} (ssrc : Z) (media : list (list Z)) (fecs : list (list Z))
    (bit : Z → Z → bool) : Prop := {
  ed_packet : ∀ i d, fecs !! i = Some d → ∃ mask raw,
    d = FinalizeFecHeader (MkWriterStream ssrc (ParseSequenceNumber (front media)) mask) raw ∧
    mask_ok mask ∧ span media ≤ 8 * zlen mask ∧
    (∀ j, 0 ≤ j < 8 * zlen mask → mask_bit mask 0 0 j = bit (Z.of_nat i) j) ∧
    is_parity (header_size mask)
      (selected (bit (Z.of_nat i)) (ParseSequenceNumber (front media)) media) raw;
  ed_columns : ∀ i j, bit i j = true → In j (offsets media);
  ed_nonempty : ∀ i, (i < length fecs)%nat → ∃ p, In p media ∧
    bit (Z.of_nat i) (offset (ParseSequenceNumber (front media)) p) = true;
  ed_covered : ∀ p, In p media → ∃ i, (i < length fecs)%nat ∧
    bit (Z.of_nat i) (offset (ParseSequenceNumber (front media)) p) = true;
}.

Lemma column_in f k offs j : column f k offs j = true → In j offs.
Proof.
  intros H. destruct (in_dec Z.eq_dec j offs) as [|Hn]; [done|]. by rewrite (column_out _ _ _ _ Hn) in H.
Qed.

Lemma column_nth f k base o ps i p : ascending_from base o ps → ps !! i = Some p →
  column f k (map (offset base) ps) (offset base p) = f (k + Z.of_nat i).
Proof.
  revert o k i. induction ps as [|q ps IH]; intros o k i Ha Hi; [done|]. destruct Ha as [Ha1 Ha2].
  cbn [map column]. destruct i as [|i]; cbn in Hi.
  - injection Hi as ->. rewrite Z.eqb_refl. f_equal. lia.
  - destruct (last_offset_bound base _ ps Ha2) as [_ Hall]. rewrite list.Forall_forall in Hall.
    specialize (Hall p ltac:(by eapply list_elem_of_lookup_2)).
    destruct (Z.eqb_spec (offset base p) (offset base q)); [lia|].
    rewrite (IH _ (k + 1) i Ha2 Hi). f_equal. lia.
Qed.

(** The column of the packet with index [i]. *)
Lemma column_media f media i p : ascending media → media !! i = Some p →
  column f 0 (offsets media) (offset (ParseSequenceNumber (front media)) p) = f (Z.of_nat i).
Proof.
  intros Ha Hi. destruct media as [|p0 ps]; [done|]. cbn [ascending] in Ha. unfold offsets.
  cbn [front hd map column]. set (base := ParseSequenceNumber p0) in *.
  assert (offset base p0 = 0) as E0 by (unfold offset, base; by rewrite Z.sub_diag).
  rewrite E0. destruct i as [|i]; cbn in Hi.
  - injection Hi as ->. rewrite E0. done.
  - destruct (last_offset_bound base 0 ps Ha) as [_ Hall]. rewrite list.Forall_forall in Hall.
    specialize (Hall p ltac:(by eapply list_elem_of_lookup_2)).
    destruct (Z.eqb_spec (offset base p) 0); [lia|].
    rewrite (column_nth f (0 + 1) base 0 ps i p Ha Hi). f_equal. lia.
Qed.

Lemma offsets_below media p : ascending media → In p media →
  0 ≤ offset (ParseSequenceNumber (front media)) p < span media.
Proof.
  destruct media as [|p0 ps]; [done|]. unfold span. cbn [ascending front hd tail].
  set (base := ParseSequenceNumber p0). intros Ha Hp. pose proof (offset_range base p).
  destruct (last_offset_bound base 0 ps Ha) as [H1 H2]. destruct Hp as [<-|Hp].
  - assert (offset base p0 = 0) as -> by (unfold offset, base; by rewrite Z.sub_diag). lia.
  - rewrite list.Forall_forall in H2. apply list_elem_of_In in Hp. specialize (H2 p Hp). lia.
Qed.

(** The rows of the mask array as masks of their own. *)
Lemma mask_of_ok masks W i : W = 2 ∨ W = 6 → 0 ≤ i → (i + 1) * W ≤ zlen masks →
  (∀ b, 0 ≤ b < W → uint8 (masks.[i * W + b])) →
  mask_ok (mask_of masks W i) ∧ zlen (mask_of masks W i) = W ∧
  ∀ j, 0 ≤ j < 8 * W → mask_bit (mask_of masks W i) 0 0 j = mask_bit masks W i j.
Proof.
  intros HW Hi Hl Hu. unfold mask_of.
  assert (zlen (slice masks (i * W) W) = W) as L by (rewrite slice_length; lia).
  split_and!; [|done|].
  - split; [|by rewrite L]. apply list.Forall_forall. intros x Hx.
    apply list_elem_of_lookup in Hx as [k Hk].
    assert (Z.of_nat k < W) as Hkw by (apply lookup_lt_Some in Hk; lia).
    pose proof (rd_lookup (slice masks (i * W) W) (Z.of_nat k) ltac:(lia)) as E.
    rewrite Nat2Z.id, Hk in E. injection E as ->. rewrite rd_slice by lia. apply Hu. lia.
  - intros j Hj. rewrite mask_bit_row. assert (0 ≤ j `div` 8 < W) by zdiv.
    rewrite rd_slice by lia. done.
Qed.

(** The packets of an encoder whose masks are in place. *)
Lemma encoder_packets {F : FecHeaderFormat} (c : bool) `{!FecHeaderOk F c} e media m ssrc bit :
  let W := packet_mask_size_ e in let base := ParseSequenceNumber (front media) in
  0 ≤ m ≤ zlen (generated_fec_packets_ e) →
  (∀ k, (k < Z.to_nat m)%nat → generated_fec_packets_ e !! k = Some []) →
  W = 2 ∨ W = 6 → m * W ≤ zlen (packet_masks_ e) →
  (∀ r b, 0 ≤ r < m → 0 ≤ b < W → uint8 ((packet_masks_ e).[r * W + b])) →
  (∀ r j, 0 ≤ r < m → 0 ≤ j < 8 * W → mask_bit (packet_masks_ e) W r j = bit r j) →
  Forall (λ p, is_bytes p ∧ 12 ≤ zlen p) media → ascending media → span media ≤ 8 * W →
  let fecs := take (Z.to_nat m) (generated_fec_packets_
    (FinalizeFecHeaders (GenerateFecPayloads e media m) m ssrc base)) in
  zlen fecs = m ∧ ∀ i d, fecs !! i = Some d → ∃ mask raw,
    d = FinalizeFecHeader (MkWriterStream ssrc base mask) raw ∧ mask_ok mask ∧
    span media ≤ 8 * zlen mask ∧
    (∀ j, 0 ≤ j < 8 * zlen mask → mask_bit mask 0 0 j = bit (Z.of_nat i) j) ∧
    is_parity (header_size mask) (selected (bit (Z.of_nat i)) base media) raw.
Proof.
  intros W base Hm H0 HW Hl Hu Hbit Hmedia Ha Hspan fecs.
  assert (zlen fecs = m) as Lf.
  { subst fecs. rewrite length_take. unfold FinalizeFecHeaders, GenerateFecPayloads.
    rewrite !for_packets_length. lia. }
  split; [done|]. intros i d Hi. assert (Z.of_nat i < m) as Him
    by (apply lookup_lt_Some in Hi; lia).
  subst fecs. rewrite lookup_take_lt in Hi by lia. unfold FinalizeFecHeaders in Hi.
  rewrite for_packets_lookup in Hi by lia. unfold GenerateFecPayloads in Hi.
  rewrite for_packets_lookup, H0 in Hi by lia.
  cbn [fmap option_fmap option_map packet_mask_size_ packet_masks_ for_packets] in Hi.
  injection Hi as <-. fold W.
  destruct (mask_of_ok (packet_masks_ e) W (Z.of_nat i) HW ltac:(lia) ltac:(nia)) as (Mok & Ml & Mb).
  { intros b Hb. apply Hu; lia. }
  eexists _, _. split; [reflexivity|]. split; [done|]. split; [by rewrite Ml|]. split.
  { intros j Hj. rewrite Ml in Hj. rewrite Mb, Hbit by lia. done. }
  unfold generate_payload. fold W base.
  destruct media as [|p0 ps]; [done|]. cbn [front hd ascending] in *.
  assert (offset base p0 = 0) as E0 by (unfold offset, base; by rewrite Z.sub_diag).
  pose proof (payload_loop_spec (packet_masks_ e) (header_size (mask_of (packet_masks_ e) W (Z.of_nat i)))
    W (Z.of_nat i) base p0 ps [] ltac:(lia) ltac:(lia) ltac:(by rewrite E0)) as EP.
  rewrite E0, Z.div_0_l, Z.mod_0_l, Z.add_0_r in EP by lia. fold base in EP. rewrite EP.
  assert (selected (mask_bit (packet_masks_ e) W (Z.of_nat i)) base (p0 :: ps) =
    selected (bit (Z.of_nat i)) base (p0 :: ps)) as ->.
  { apply selected_ext. intros p Hp. apply Hbit; [lia|]. pose proof (offsets_below (p0 :: ps) p Ha Hp) as Hb.
    cbn [front hd] in Hb. fold base in Hb. lia. }
  apply foldl_add_parity.
  - pose proof (header_size_range (F := F) (carries_ssrc := c) _ Mok) as [HH _]. unfold header_size. lia.
  - apply list.Forall_forall. intros p Hp. apply list_elem_of_filter in Hp as [_ Hp].
    rewrite list.Forall_forall in Hmedia. by apply Hmedia.
Qed.

(** FEC packet [i] of [m] protects the media packets at the places congruent to [i]. *)
Definition interleaved (media : list (list Z)) (bit : Z → Z → bool) (m : Z) : Prop :=
  ∀ i k p, 0 ≤ i < m → media !! k = Some p →
    bit i (offset (ParseSequenceNumber (front media)) p) = (Z.of_nat k `mod` m =? i).

(** What [EncodeFec] is given. *)
Record encode_args {F : FecHeaderFormat} (ssrc : Z) (mem : list Z) (e : FecEncoder)
    (media : list (list Z)) (pf imp : Z) : Prop := {
  ea_encoder : encoder_ok e;
  ea_mem : zlen mem = kFECPacketMaskMaxSize;
  ea_media : Forall (λ p, is_bytes p ∧ kRtpHeaderSize ≤ zlen p ∧ ParseSsrc p = ssrc) media;
  ea_ascending : ascending media;
  ea_count : zlen media ≤ kUlpfecMaxMediaPackets;
  ea_factor : 1 ≤ pf ≤ 255;
  ea_important : 0 ≤ imp ≤ zlen media;
}.

Lemma headers_fit (media : list (list Z)) : Forall (λ p, kRtpHeaderSize ≤ zlen p) media →
  existsb (λ p, zlen p <? kRtpHeaderSize) media = false.
Proof. induction 1 as [|p ps Hp Hps IH]; [done|]. cbn [existsb]. rewrite IH. lia. Qed.

(** The masks before the gaps in the sequence numbers are considered. *)
Lemma EncodeFec_masks {F : FecHeaderFormat} (c : bool) `{!FecHeaderOk F c}
    ssrc mem e media pf imp uep ty :
  encode_args ssrc mem e media pf imp →
  let n := zlen media in let m := NumFecPackets n pf in
  1 ≤ m ≤ n ∧ ∃ e1,
  EncodeFec mem e media pf imp uep ty =
    (let '(e2, num_mask_bits) := InsertZerosInPacketMasks e1 media m in
     if num_mask_bits <? 0 then (e2, -1, [])
     else
       let e3 := set_mask_size e2 (PacketMaskSize num_mask_bits) in
       let e4 := FinalizeFecHeaders (GenerateFecPayloads e3 media m) m
                   (ParseSsrc (front media)) (ParseSequenceNumber (front media)) in
       (e4, 0, take (Z.to_nat m) (generated_fec_packets_ e4))) ∧
  packet_mask_size_ e1 = PacketMaskSize n ∧ good_mask (packet_mask_size_ e1) n m (packet_masks_ e1) ∧
  (∀ k, uint8 ((packet_masks_ e1).[k])) ∧ zlen (packet_masks_ e1) = 288 ∧
  zlen (tmp_packet_masks_ e1) = 288 ∧ zlen (generated_fec_packets_ e1) = 48 ∧
  (∀ k, (k < Z.to_nat m)%nat → generated_fec_packets_ e1 !! k = Some []) ∧
  (12 < n → uep = false → ∀ i j, 0 ≤ i < m → 0 ≤ j < n →
     mask_bit (packet_masks_ e1) (packet_mask_size_ e1) i j = (j `mod` m =? i)) ∧
  is_bytes (packet_masks_ e1) ∧ tmp_packet_masks_ e1 = tmp_packet_masks_ e.
Proof.
  intros [[Ep Em Emb Et Etb] Hmem Hmedia Ha Hn Hpf Himp] n m. unfold kUlpfecMaxMediaPackets in Hn.
  destruct header_limits as (HL1 & HL2 & _). change (kUlpfecMaxMediaPackets * _) with 288 in *.
  assert (1 ≤ zlen media) as Hn1 by (destruct media; [done|cbn [length]; lia]).
  pose proof (NumFecPackets_range (zlen media) pf ltac:(lia) Hpf) as Hm.
  unfold EncodeFec. rewrite HL1. fold n in Hm, Hn, Hn1, Himp |- *. fold m in Hm |- *.
  split; [done|]. destruct (Z.gtb_spec n 48); [lia|].
  rewrite headers_fit by (apply (list.Forall_impl _ _ _ Hmedia); intros p (_ & Hp & _); exact Hp).
  destruct (Z.eqb_spec m 0); [lia|]. cbn [set_mask_size packet_mask_size_ packet_masks_ for_packets].
  set (W := PacketMaskSize n). destruct (PacketMaskSize_bound n ltac:(lia)) as [HW HWn]. fold W in HW, HWn.
  assert (0 ≤ m * W ≤ 288) as HmW by nia.
  assert (∀ k, uint8 ((packet_masks_ e).[k])) as Hu by (intros; by apply bytes_rd).
  pose proof (GeneratePacketMasks_good (NewMaskTable mem ty n) n m imp uep
    (zero_first (packet_masks_ e) (m * W)) (conj (PickTable_in ty n) Hmem) ltac:(lia) Hm Himp) as HG.
  cbv zeta in HG. fold W in HG.
  assert (∀ k, (zero_first (packet_masks_ e) (m * W)).[k] =
    if (0 <=? k) && (k <? m * W) then 0 else (packet_masks_ e).[k]) as Hz
    by (intros k; apply zero_first_rd; lia).
  rewrite (proj1 (zero_first_rd (packet_masks_ e) (m * W) 0 ltac:(lia))) in HG.
  specialize (HG ltac:(lia)).
  assert (HI : 12 < n → uep = false → ∀ i j, 0 ≤ i < m → 0 ≤ j < n →
    mask_bit (GeneratePacketMasks n m imp uep (NewMaskTable mem ty n)
      (zero_first (packet_masks_ e) (m * W))).2 W i j = (j `mod` m =? i)).
  { intros H12 -> i j Hi Hj. apply GeneratePacketMasks_interleaved; try done; try lia.
    rewrite (proj1 (zero_first_rd (packet_masks_ e) (m * W) 0 ltac:(lia))). fold W. lia. }
  destruct (GeneratePacketMasks _ _ _ _ _ _) as [T masks] in HG, HI |- *.
  destruct HG as (_ & Lm & Gm & Om).
  { intros k Hk. rewrite Hz. destruct_cmp; done || lia. }
  { intros k. rewrite Hz. destruct (_ && _); [cint|apply Hu]. }
  eexists. split; [reflexivity|].
  cbn [packet_mask_size_ packet_masks_ tmp_packet_masks_ set_masks set_mask_size].
  assert (∀ k, uint8 (masks.[k])) as Hmb.
  { intros k. destruct (Z.ltb_spec k (m * W)).
    - destruct (Z.leb_spec 0 k); [apply (mask_bytes _ _ _ _ Gm); lia|].
      unfold rd. destruct (Z.ltb_spec k 0); [cint|lia].
    - rewrite Om, Hz by lia. destruct (Z.ltb_spec k (m * W)); [lia|]. rewrite andb_false_r. apply Hu. }
  split; [done|]. split; [exact Gm|]. split; [done|]. split; [lia|]. split; [done|]. split.
  - change (zlen (generated_fec_packets_ (for_packets m (λ _ _, []) e)) = 48).
    rewrite for_packets_length, Ep, HL2. done.
  - split; [|split; [exact HI|split; [by apply bytes_of_rd|done]]]. intros k Hk. change (generated_fec_packets_ (for_packets m (λ _ _, []) e) !! k = Some []).
    rewrite for_packets_lookup by done.
    destruct (generated_fec_packets_ e !! k) eqn:E; [done|]. apply lookup_ge_None in E. lia.
Qed.

Lemma span_pos media : ascending media → 1 ≤ span media.
Proof.
  unfold span. destruct media as [|p0 ps]; [done|]. cbn [ascending front hd tail]. intros Ha.
  pose proof (proj1 (last_offset_bound _ _ _ Ha)). lia.
Qed.

Lemma EncodeFec_encoded {F : FecHeaderFormat} (c : bool) `{!FecHeaderOk F c}
    ssrc mem e media pf imp uep ty :
  encode_args ssrc mem e media pf imp → span media ≤ 48 →
  ∃ e' fecs bit, EncodeFec mem e media pf imp uep ty = (e', 0, fecs) ∧
    zlen fecs = NumFecPackets (zlen media) pf ∧ encoded ssrc media fecs bit ∧
    (12 < zlen media → uep = false → interleaved media bit (zlen fecs)).
Proof.
  intros Hargs Hspan.
  destruct (EncodeFec_masks c ssrc mem e media pf imp uep ty Hargs)
    as (Hm & e1 & -> & Hw & Gm & Hum & Lm & Lt & Lg & Hg & HIl & _).
  destruct Hargs as [_ _ Hmedia Ha Hn _ _]. destruct header_limits as (HL1 & _ & _).
  set (n := zlen media) in *. set (m := NumFecPackets n pf) in *.
  pose proof (InsertZerosInPacketMasks_spec e1 media m HL1 Ha Hn Hm Hw Gm Hum Lm Lt) as HI.
  cbv zeta in HI. fold (span media) in HI. pose proof (span_pos media Ha) as Hs1.
  destruct (InsertZerosInPacketMasks e1 media m) as [e2 num_bits]. destruct HI as [Eg HI].
  destruct (Z.leb_spec (span media) 48); [|lia]. destruct HI as (-> & Lm2 & Hub2 & Hbits).
  destruct (Z.ltb_spec (span media) 0); [lia|].
  destruct (PacketMaskSize_bound (span media) ltac:(lia)) as [HW2 HWs2].
  set (W2 := PacketMaskSize (span media)) in *. set (e3 := set_mask_size e2 W2).
  set (base := ParseSequenceNumber (front media)).
  set (bit := λ i, column (mask_bit (packet_masks_ e1) (packet_mask_size_ e1) i) 0 (offsets media)).
  assert (ParseSsrc (front media) = ssrc) as ->.
  { destruct media as [|p0 ps]; [done|]. inversion Hmedia as [|? ? Hp0 ?]; subst. apply Hp0. }
  destruct (encoder_packets c e3 media m ssrc bit) as [Lf Hf]; try done.
  { cbn [generated_fec_packets_ set_mask_size e3]. rewrite Eg. unfold kUlpfecMaxMediaPackets in Hn. lia. }
  { intros k Hk. cbn [generated_fec_packets_ set_mask_size e3]. rewrite Eg. by apply Hg. }
  { cbn. subst W2. unfold PacketMaskSize. destruct (_ >? _); [by right|by left]. }
  { cbn. unfold kUlpfecMaxMediaPackets in Hn. nia. }
  { apply (list.Forall_impl _ _ _ Hmedia). intros p (A & B & _). done. }
  eexists _, _, bit. split; [reflexivity|]. fold base in Lf, Hf |- *.
  set (fecs := take (Z.to_nat m) _) in *. clearbody fecs. split; [exact Lf|]. split; [split|].
  - exact Hf.
  - intros i j Hb. by apply column_in in Hb.
  - intros i Hi. fold base. destruct (mask_row _ _ _ _ Gm (Z.of_nat i) ltac:(lia)) as (j & Hj & Hb).
    destruct (lookup_lt_is_Some_2 media (Z.to_nat j) ltac:(lia)) as [p Hp].
    exists p. split; [by apply list_elem_of_In, list_elem_of_lookup_2 with (Z.to_nat j)|].
    subst bit base. cbv beta. rewrite (column_media _ media (Z.to_nat j) p Ha Hp).
    rewrite Z2Nat.id by lia. exact Hb.
  - intros p Hp. fold base. apply list_elem_of_In, list_elem_of_lookup in Hp as [k Hk].
    pose proof (lookup_lt_Some _ _ _ Hk).
    destruct (mask_column _ _ _ _ Gm (Z.of_nat k) ltac:(lia)) as (i & Hi & Hb).
    exists (Z.to_nat i). split; [lia|]. rewrite Z2Nat.id by lia. subst bit base. cbv beta.
    rewrite (column_media _ media k p Ha Hk). exact Hb.
  - intros H12 Hu i k p Hi Hk. pose proof (lookup_lt_Some _ _ _ Hk). rewrite Lf in Hi |- *.
    subst bit base. cbv beta. rewrite (column_media _ media k p Ha Hk). apply HIl; try done; lia.
Qed.

(** Media packets spread over more sequence numbers than a mask has columns. *)
Lemma EncodeFec_gap {F : FecHeaderFormat} (c : bool) `{!FecHeaderOk F c}
    ssrc mem e media pf imp uep ty :
  encode_args ssrc mem e media pf imp → 48 < span media →
  ∃ e', EncodeFec mem e media pf imp uep ty = (e', -1, []).
Proof.
  intros Hargs Hspan.
  destruct (EncodeFec_masks c ssrc mem e media pf imp uep ty Hargs)
    as (Hm & e1 & -> & Hw & Gm & Hum & Lm & Lt & _).
  destruct Hargs as [_ _ _ Ha Hn _ _]. destruct header_limits as (HL1 & _ & _).
  pose proof (InsertZerosInPacketMasks_spec e1 media _ HL1 Ha Hn Hm Hw Gm Hum Lm Lt) as HI.
  cbv zeta in HI. fold (span media) in HI.
  destruct (InsertZerosInPacketMasks e1 media _) as [e2 num_bits]. destruct HI as [_ HI].
  destruct (Z.leb_spec (span media) 48); [lia|]. subst num_bits. by exists e2.
Qed.

(** The encoder can be used again, whatever the outcome. *)
Lemma EncodeFec_encoder_ok {F : FecHeaderFormat} (c : bool) `{!FecHeaderOk F c}
    ssrc mem e media pf imp uep ty :
  encode_args ssrc mem e media pf imp → encoder_ok (EncodeFec mem e media pf imp uep ty).1.1.
Proof.
  intros Hargs.
  destruct (EncodeFec_masks c ssrc mem e media pf imp uep ty Hargs)
    as (Hm & e1 & -> & _ & _ & _ & Lm & Lt & Lg & _ & _ & Hmb & Etmp).
  destruct Hargs as [[_ _ _ _ Htb] _ _ _ Hn _ _]. destruct header_limits as (_ & HL2 & _).
  unfold kUlpfecMaxMediaPackets in Hn.
  destruct (InsertZeros_buffers e1 media (NumFecPackets (zlen media) pf)) as ((A1 & A2) & (B1 & B2) & Eg).
  { split; [done|lia]. } { rewrite Etmp in *. split; [done|lia]. } { lia. }
  destruct (InsertZerosInPacketMasks _ _ _) as [e2 nb]. cbn [fst] in *.
  destruct (nb <? 0); cbn [fst]; split; try done; unfold FinalizeFecHeaders, GenerateFecPayloads;
    cbn [packet_masks_ tmp_packet_masks_ for_packets set_mask_size];
    rewrite ?A2, ?B2, ?for_packets_length; cbn [generated_fec_packets_ set_mask_size]; rewrite ?Eg, ?HL2; try done; lia.
Qed.
