(* ===== verification/FecDecode.v ===== *)
(** The decoder of forward error correction: [DecodeFec] and what it calls in
    forward_error_correction.cc of modules/rtp_rtcp/source.

    The decoder keeps the FEC packets received; the caller keeps the list of recovered packets,
    which [DecodeFec] extends.  Packets are shared by pointer between the two lists and are not
    written once they are stored, so the model stores their bytes.  [ReadFecHeader] rewrites the
    buffer of an FEC packet before it is stored; each packet received is taken to have a buffer
    of its own, as the receivers make it.  The loop of
    [AttemptRecovery] starts again after each packet it recovers; it has fuel for as many turns
    as there are FEC packets, squared, and yields [None] without it, which
    [AttemptRecovery_total] excludes. *)
From S2P Require Import Prelude ByteIo SeqNum Rtcp FecTables FecMasks FecPacket FecHeaders.

(** * Definitions *)

Definition kOldSequenceThreshold : Z := 0x3fff.

Record ReceivedPacket : Type := MkReceived {
  rp_ssrc : Z; rp_seq_num : Z; is_fec : bool; rp_pkt : list Z;
}.

(** The members of [ForwardErrorCorrection] that the decoder uses. *)
Record FecDecoder : Type := MkDecoder {
  ssrc_ : Z; protected_media_ssrc_ : Z; received_fec_packets_ : list ReceivedFecPacket;
}.

Definition set_fec_packets (d : FecDecoder) (l : list ReceivedFecPacket) : FecDecoder :=
  MkDecoder (ssrc_ d) (protected_media_ssrc_ d) l.

Definition CreateUlpfec (ssrc : Z) : FecDecoder := MkDecoder ssrc ssrc [].
Definition CreateFlexfec (ssrc protected_media_ssrc : Z) : FecDecoder :=
  MkDecoder ssrc protected_media_ssrc [].

(** [SortablePacket::LessThan] on sequence numbers. *)
Definition LessThan (first second : Z) : bool := IsNewerSequenceNumber second first.

(** ** Sorted insertion *)

(** The search from the back for the position of [s], [None] if it is there already: the index
    in the list whose reversal is [rl]. *)
Fixpoint insert_pos {A} (seq : A → Z) (s : Z) (rl : list A) : option nat :=
  match rl with
  | [] => Some 0%nat
  | x :: rest =>
      if LessThan (seq x) s then Some (length rl)
      else if seq x =? s then None else insert_pos seq s rest
  end.

(** The search of [AttemptRecovery], which does not look for duplicates. *)
Fixpoint recovery_pos (s : Z) (rl : list RecoveredPacket) : nat :=
  match rl with
  | [] => 0%nat
  | x :: rest => if negb (LessThan s (r_seq_num x)) then length rl else recovery_pos s rest
  end.

Definition insert_at {A} (pos : nat) (x : A) (l : list A) : list A := take pos l ++ x :: drop pos l.

(** ** Links between media and FEC packets *)

Definition set_pkt (pp : ProtectedPacket) (pkt : list Z) : ProtectedPacket :=
  MkProtected (pp_ssrc pp) (pp_seq_num pp) (Some pkt).

Definition set_protected (f : ReceivedFecPacket) (l : list ProtectedPacket) : ReceivedFecPacket :=
  MkFec (fec_ssrc f) (fec_seq_num f) l (fec_header_size f) (protected_streams f)
    (protection_length f) (fec_pkt f).

(** [std::lower_bound] on the elements [first .. first + len). *)
Fixpoint lower_bound (fuel : nat) (less : ProtectedPacket → bool) (l : list ProtectedPacket)
    (first len : nat) : nat :=
  match fuel with
  | O => first
  | S fuel =>
      if (len =? 0)%nat then first
      else
        let half := (len / 2)%nat in
        let mid := (first + half)%nat in
        match l !! mid with
        | Some p =>
            if less p then lower_bound fuel less l (mid + 1) (len - half - 1)
            else lower_bound fuel less l first half
        | None => first
        end
  end.

Definition update_covering (packet : RecoveredPacket) (f : ReceivedFecPacket)
  : ReceivedFecPacket :=
  let l := protected_packets f in
  let i := lower_bound (length l) (λ p, LessThan (pp_seq_num p) (r_seq_num packet)) l 0 (length l) in
  match l !! i with
  | Some p =>
      if pp_seq_num p =? r_seq_num packet then set_protected f (<[i := set_pkt p (r_pkt packet)]> l)
      else f
  | None => f
  end.

Definition UpdateCoveringFecPackets (packet : RecoveredPacket) (l : list ReceivedFecPacket)
  : list ReceivedFecPacket := map (update_covering packet) l.

(** The walk over two sorted lists. *)
Fixpoint assign_recovered (ps : list ProtectedPacket) : list RecoveredPacket → list ProtectedPacket :=
  match ps with
  | [] => λ _, []
  | p :: ps' =>
      fix walk (rs : list RecoveredPacket) : list ProtectedPacket :=
        match rs with
        | [] => p :: ps'
        | r :: rs' =>
            if LessThan (pp_seq_num p) (r_seq_num r) then p :: assign_recovered ps' (r :: rs')
            else if LessThan (r_seq_num r) (pp_seq_num p) then walk rs'
            else set_pkt p (r_pkt r) :: assign_recovered ps' rs'
        end
  end.

Definition AssignRecoveredPackets (recovered_packets : list RecoveredPacket)
    (f : ReceivedFecPacket) : ReceivedFecPacket :=
  set_protected f (assign_recovered (protected_packets f) recovered_packets).

(** ** Packets received *)

Definition InsertMediaPacket (d : FecDecoder) (recovered_packets : list RecoveredPacket)
    (received_packet : ReceivedPacket) : FecDecoder * list RecoveredPacket :=
  match insert_pos r_seq_num (rp_seq_num received_packet) (rev recovered_packets) with
  | None => (d, recovered_packets)
  | Some pos =>
      let recovered_packet :=
        MkRecovered (rp_ssrc received_packet) (rp_seq_num received_packet) false true
          (rp_pkt received_packet) in
      (set_fec_packets d (UpdateCoveringFecPackets recovered_packet (received_fec_packets_ d)),
       insert_at pos recovered_packet recovered_packets)
  end.

(** The packet mask as protected packets. *)
Definition parse_mask (ssrc : Z) (s : ProtectedStream) (data : list Z) : list ProtectedPacket :=
  flat_map (λ byte_idx,
    let packet_mask := data.[packet_mask_offset s + byte_idx] in
    flat_map (λ bit_idx,
      if is_set packet_mask (1 ≪ (7 - bit_idx))
      then [MkProtected ssrc (u16 (seq_num_base s + (byte_idx ≪ 3) + bit_idx)) None]
      else []) (seqZ 0 8)) (seqZ 0 (packet_mask_size s)).

(** The FEC packet with its header read, or [None] where it is dropped.  The last case is the
    RTC_CHECK_EQ on the number of streams, which neither header reader can fail
    ([ReadFecHeader_one_stream]). *)
Definition parse_fec_packet {F : FecHeaderFormat} (d : FecDecoder)
    (received_packet : ReceivedPacket) : option ReceivedFecPacket :=
  let fec_packet := NewReceivedFec (rp_ssrc received_packet) (rp_seq_num received_packet)
                      (rp_pkt received_packet) in
  let '(fec_packet, ret) := ReadFecHeader fec_packet in
  if negb ret then None
  else
    match protected_streams fec_packet with
    | [s] =>
        if negb (ps_ssrc s =? protected_media_ssrc_ d) then None
        else if packet_mask_offset s + packet_mask_size s >? zlen (fec_pkt fec_packet) then None
        else Some (set_protected fec_packet
                     (parse_mask (protected_media_ssrc_ d) s (fec_pkt fec_packet)))
    | _ => None
    end.

Definition InsertFecPacket {F : FecHeaderFormat} (d : FecDecoder)
    (recovered_packets : list RecoveredPacket) (received_packet : ReceivedPacket) : FecDecoder :=
  match insert_pos fec_seq_num (rp_seq_num received_packet) (rev (received_fec_packets_ d)) with
  | None => d
  | Some pos =>
      match parse_fec_packet d received_packet with
      | None => d
      | Some fec_packet =>
          match protected_packets fec_packet with
          | [] => d
          | _ =>
              let fec_packet := AssignRecoveredPackets recovered_packets fec_packet in
              let l := insert_at pos fec_packet (received_fec_packets_ d) in
              set_fec_packets d (if zlen l >? max_fec_packets then tail l else l)
          end
      end
  end.

Definition DiscardOldRecoveredPackets {F : FecHeaderFormat}
    (recovered_packets : list RecoveredPacket) : list RecoveredPacket :=
  drop (Z.to_nat (zlen recovered_packets - max_tracked_media_packets)) recovered_packets.

Fixpoint discard_old_fec (seq_num : Z) (l : list ReceivedFecPacket) : list ReceivedFecPacket :=
  match l with
  | [] => []
  | f :: rest =>
      let seq_num_diff := MinDiff 16 0 seq_num (fec_seq_num f) in
      if seq_num_diff >? kOldSequenceThreshold then discard_old_fec seq_num rest else l
  end.

Definition InsertPacket {F : FecHeaderFormat} (d : FecDecoder)
    (recovered_packets : list RecoveredPacket) (received_packet : ReceivedPacket)
  : FecDecoder * list RecoveredPacket :=
  let d :=
    match received_fec_packets_ d with
    | f :: _ =>
        if rp_ssrc received_packet =? fec_ssrc f
        then set_fec_packets d
               (discard_old_fec (rp_seq_num received_packet) (received_fec_packets_ d))
        else d
    | [] => d
    end in
  let '(d, recovered_packets) :=
    if is_fec received_packet
    then (InsertFecPacket d recovered_packets received_packet, recovered_packets)
    else InsertMediaPacket d recovered_packets received_packet in
  (d, DiscardOldRecoveredPackets recovered_packets).

(** ** Recovery *)

Definition IsOldFecPacket (f : ReceivedFecPacket) (recovered_packets : list RecoveredPacket) : bool :=
  match List.rev recovered_packets with
  | [] => false
  | r :: _ =>
      let last_protected_seq_num :=
        match List.rev (protected_packets f) with [] => 0 | p :: _ => pp_seq_num p end in
      MinDiff 16 0 (r_seq_num r) last_protected_seq_num >? kOldSequenceThreshold
  end.

(** [before] and [after] are the FEC packets in front of the iterator and from it on. *)
Fixpoint attempt_loop {F : FecHeaderFormat} (fuel : nat) (before after : list ReceivedFecPacket)
    (recovered_packets : list RecoveredPacket) (num_recovered_packets : Z)
  : option (list ReceivedFecPacket * list RecoveredPacket * Z) :=
  match after with
  | [] => Some (before, recovered_packets, num_recovered_packets)
  | f :: rest =>
      match fuel with
      | O => None
      | S fuel =>
          let packets_missing := NumCoveredPacketsMissing f in
          if packets_missing =? 1 then
            match RecoverPacket f with
            | None => attempt_loop fuel before rest recovered_packets num_recovered_packets
            | Some r =>
                let recovered_packets :=
                  insert_at (recovery_pos (r_seq_num r) (rev recovered_packets)) r
                    recovered_packets in
                let recovered_packets := DiscardOldRecoveredPackets recovered_packets in
                attempt_loop fuel [] (UpdateCoveringFecPackets r (before ++ rest))
                  recovered_packets (num_recovered_packets + 1)
            end
          else if (packets_missing =? 0) || IsOldFecPacket f recovered_packets then
            attempt_loop fuel before rest recovered_packets num_recovered_packets
          else attempt_loop fuel (before ++ [f]) rest recovered_packets num_recovered_packets
      end
  end.

Definition AttemptRecovery {F : FecHeaderFormat} (d : FecDecoder)
    (recovered_packets : list RecoveredPacket) : option (FecDecoder * list RecoveredPacket * Z) :=
  let n := length (received_fec_packets_ d) in
  match attempt_loop (S n * S n) [] (received_fec_packets_ d) recovered_packets 0 with
  | None => None
  | Some (l, recovered_packets, num) => Some (set_fec_packets d l, recovered_packets, num)
  end.

Definition ResetState (d : FecDecoder) : FecDecoder * list RecoveredPacket :=
  (set_fec_packets d [], []).

Definition DecodeFec {F : FecHeaderFormat} (d : FecDecoder)
    (recovered_packets : list RecoveredPacket) (received_packet : ReceivedPacket)
  : option (FecDecoder * list RecoveredPacket * Z) :=
  let '(d, recovered_packets) :=
    if zlen recovered_packets =? max_tracked_media_packets then
      match List.rev recovered_packets with
      | [] => (d, recovered_packets)
      | back :: _ =>
          if (rp_ssrc received_packet =? r_ssrc back) &&
             (MinDiff 16 0 (rp_seq_num received_packet) (r_seq_num back) >?
                max_tracked_media_packets)
          then ResetState d else (d, recovered_packets)
      end
    else (d, recovered_packets) in
  let '(d, recovered_packets) := InsertPacket d recovered_packets received_packet in
  AttemptRecovery d recovered_packets.

(** * Termination *)

Lemma attempt_loop_total {F : FecHeaderFormat} fuel before after rec num :
  (length after + (length before + length after) * (length before + length after) ≤ fuel)%nat →
  attempt_loop fuel before after rec num ≠ None.
Proof.
  revert before after rec num. induction fuel as [|fuel IH]; intros before after rec num Hf;
    (destruct after as [|f rest]; [done|]); cbn [length] in Hf; [lia|]. cbn [attempt_loop].
  destruct (_ =? 1); [destruct (RecoverPacket f)|destruct (_ || _)]; apply IH;
    unfold UpdateCoveringFecPackets; rewrite ?length_map, ?length_app; cbn [length]; nia.
Qed.

Lemma AttemptRecovery_total {F : FecHeaderFormat} d rec : AttemptRecovery d rec ≠ None.
Proof.
  unfold AttemptRecovery. destruct (attempt_loop _ _ _ _ _) as [[[l r] n]|] eqn:E; [done|].
  exfalso. revert E. apply attempt_loop_total. cbn [length]. lia.
Qed.

(** * Sequence numbers *)

Lemma LessThan_equal a b : uint16 a → uint16 b → LessThan a b = false → LessThan b a = false → a = b.
Proof.
  unfold uint16, LessThan, IsNewerSequenceNumber. intros Ha Hb.
  rewrite !IsNewer_AheadOf by (simpl; lia).
  destruct (Z.eq_dec a b) as [|Hne]; [done|].
  rewrite (AheadOf_total 16 0 ltac:(split; lia) a b) by (done || (change (modulus 16 0) with 65536; lia)).
  by destruct (AheadOf 16 0 b a).
Qed.

(** * Updates of the links *)

(** A protected packet is as before, or has got the packet [get] gives for it. *)
Definition linked (get : Z → list Z → Prop) (pp pp' : ProtectedPacket) : Prop :=
  pp' = pp ∨ ∃ pkt, get (pp_seq_num pp) pkt ∧ pp' = set_pkt pp pkt.

Lemma linked_refl get l : Forall2 (linked get) l l.
Proof. induction l; constructor; [by left|done]. Qed.

Lemma linked_impl (get get' : Z → list Z → Prop) l l' : Forall2 (linked get) l l' →
  (∀ s pkt, get s pkt → get' s pkt) → Forall2 (linked get') l l'.
Proof.
  intros H Hi. induction H as [|x y l l' Hxy Hl IH]; constructor; [|done].
  destruct Hxy as [->|(pkt & Hg & ->)]; [by left|right; eauto].
Qed.

Lemma set_protected_id f : set_protected f (protected_packets f) = f.
Proof. by destruct f. Qed.

Lemma update_covering_linked r f : ∃ l', update_covering r f = set_protected f l' ∧
  Forall2 (linked (λ s pkt, s = r_seq_num r ∧ pkt = r_pkt r)) (protected_packets f) l'.
Proof.
  unfold update_covering. set (i := lower_bound _ _ _ _ _). set (l := protected_packets f).
  destruct (l !! i) as [p|] eqn:E.
  2: { exists l. split; [by rewrite set_protected_id|apply linked_refl]. }
  destruct (Z.eqb_spec (pp_seq_num p) (r_seq_num r)) as [Es|].
  2: { exists l. split; [by rewrite set_protected_id|apply linked_refl]. }
  eexists. split; [reflexivity|]. apply Forall2_same_length_lookup. split; [by rewrite length_insert|].
  intros k x y Hx Hy. destruct (decide (i = k)) as [<-|].
  - rewrite list_lookup_insert_eq in Hy by (by apply lookup_lt_Some in E).
    injection Hy as <-. right. exists (r_pkt r). assert (x = p) as -> by congruence. done.
  - rewrite list_lookup_insert_ne in Hy by done. left. congruence.
Qed.

Lemma assign_recovered_linked ps rs : Forall (λ pp, uint16 (pp_seq_num pp)) ps →
  Forall (λ r, uint16 (r_seq_num r)) rs →
  Forall2 (linked (λ s pkt, ∃ r, In r rs ∧ s = r_seq_num r ∧ pkt = r_pkt r)) ps (assign_recovered ps rs).
Proof.
  intros Hps. revert rs. induction Hps as [|p ps Hp Hps IH]; intros rs Hrs.
  { destruct rs; constructor. }
  induction Hrs as [|r rs Hr Hrs IHr]; [apply linked_refl|]. cbn [assign_recovered].
  destruct (LessThan (pp_seq_num p) (r_seq_num r)) eqn:E1.
  { constructor; [by left|]. apply (IH (r :: rs)). by constructor. }
  destruct (LessThan (r_seq_num r) (pp_seq_num p)) eqn:E2.
  { apply (linked_impl _ _ _ _ IHr). intros s pkt (r' & Hi & E). exists r'. split; [by right|done]. }
  constructor.
  - right. exists (r_pkt r). split; [|done]. exists r. split; [by left|].
    split; [|done]. by apply LessThan_equal.
  - apply (linked_impl _ _ _ _ (IH rs Hrs)). intros s pkt (r' & Hi & E). exists r'.
    split; [by right|done].
Qed.

Lemma linked_seq get l l' : Forall2 (linked get) l l' → map pp_seq_num l' = map pp_seq_num l.
Proof.
  induction 1 as [|x y l l' Hxy Hl IH]; [done|]. cbn [map]. rewrite IH. f_equal.
  destruct Hxy as [->|(pkt & _ & ->)]; done.
Qed.

(** * Packets missing *)

Definition missing (pp : ProtectedPacket) : Prop := pp_pkt pp = None.

Lemma missing_loop_1 l : NumCoveredPacketsMissing_loop 1 l = 1 → Forall (λ pp, pp_pkt pp ≠ None) l.
Proof.
  induction l as [|p l IH]; intros H; [constructor|]. cbn in H. destruct (pp_pkt p) eqn:E; [|done].
  constructor; [congruence|by apply IH].
Qed.

Lemma missing_loop_cases k l : k = 0 ∨ k = 1 →
  NumCoveredPacketsMissing_loop k l = k ∨ NumCoveredPacketsMissing_loop k l = 1 ∨
  NumCoveredPacketsMissing_loop k l = 2.
Proof.
  revert k. induction l as [|p l IH]; intros k Hk; [by left|]. cbn.
  destruct (pp_pkt p); [by apply IH|]. destruct Hk as [-> | ->]; cbn; [|auto].
  destruct (IH 1 ltac:(auto)) as [H|[H|H]]; auto.
Qed.

Lemma NumCovered_cases f :
  NumCoveredPacketsMissing f = 0 ∨ NumCoveredPacketsMissing f = 1 ∨ NumCoveredPacketsMissing f = 2.
Proof. apply missing_loop_cases. auto. Qed.

(** Exactly one packet is missing. *)
Lemma NumCovered_1 f : NumCoveredPacketsMissing f = 1 → ∃ l1 pp0 l2,
  protected_packets f = l1 ++ pp0 :: l2 ∧ missing pp0 ∧
  Forall (λ pp, pp_pkt pp ≠ None) l1 ∧ Forall (λ pp, pp_pkt pp ≠ None) l2.
Proof.
  unfold NumCoveredPacketsMissing. induction (protected_packets f) as [|p l IH]; intros H; [done|].
  cbn in H. destruct (pp_pkt p) eqn:E.
  - destruct (IH H) as (l1 & pp0 & l2 & -> & H0 & H1 & H2). exists (p :: l1), pp0, l2.
    split; [done|]. split; [done|]. split; [constructor; [congruence|done]|done].
  - exists [], p, l. split; [done|]. split; [done|]. split; [constructor|].
    by apply missing_loop_1.
Qed.

Lemma NumCovered_0 f : NumCoveredPacketsMissing f = 0 → Forall (λ pp, pp_pkt pp ≠ None) (protected_packets f).
Proof.
  unfold NumCoveredPacketsMissing. induction (protected_packets f) as [|p l IH]; intros H; [constructor|].
  cbn in H. destruct (pp_pkt p) eqn:E; [constructor; [congruence|by apply IH]|].
  change (NumCoveredPacketsMissing_loop 1 l = 0) in H.
  destruct (missing_loop_cases 1 l ltac:(auto)) as [E'|[E'|E']]; rewrite E' in H; done.
Qed.

(** Two packets are missing. *)
Lemma missing_loop_2 l : NumCoveredPacketsMissing_loop 1 l = 2 → ∃ p l1 l2, l = l1 ++ p :: l2 ∧ missing p.
Proof.
  induction l as [|p l IH]; intros H; [done|]. cbn in H. destruct (pp_pkt p) eqn:E.
  - destruct (IH H) as (q & l1 & l2 & -> & Hq). by exists q, (p :: l1), l2.
  - by exists p, [], l.
Qed.

Lemma NumCovered_2 f : NumCoveredPacketsMissing f = 2 → ∃ l1 p l2 q l3,
  protected_packets f = l1 ++ p :: l2 ++ q :: l3 ∧ missing p ∧ missing q.
Proof.
  unfold NumCoveredPacketsMissing. induction (protected_packets f) as [|p l IH]; intros H; [done|].
  cbn in H. destruct (pp_pkt p) eqn:E.
  - destruct (IH H) as (l1 & x & l2 & y & l3 & -> & Hx & Hy). by exists (p :: l1), x, l2, y, l3.
  - destruct (missing_loop_2 l H) as (q & l1 & l2 & -> & Hq). by exists [], p, l1, q, l2.
Qed.

(** * Soundness *)

Section sound.
Context {F : FecHeaderFormat} (ssrc : Z) (orig : Z → list Z).

Definition fec_good (f : ReceivedFecPacket) : Prop :=
  fec_encodes orig f ∧ protects ssrc orig (protected_packets f).

Definition rec_good (r : RecoveredPacket) : Prop :=
  r_ssrc r = ssrc ∧ r_pkt r = orig (r_seq_num r) ∧
  media_packet ssrc (r_seq_num r) (orig (r_seq_num r)).

Lemma media_seq_range s p : media_packet ssrc s p → uint16 s.
Proof. intros [_ _ _ <- _]. pose proof (u16_range ((p.[2] ≪ 8) + p.[3])). done. Qed.

Lemma fec_good_linked f l' : fec_good f →
  Forall2 (linked (λ s pkt, pkt = orig s)) (protected_packets f) l' → fec_good (set_protected f l').
Proof.
  intros [[Eb Ehd Er El Elen Eh0 Eh Ep] Hp] H. pose proof (linked_seq _ _ _ H) as Hs.
  assert (∀ g, parity (λ pp, g (pp_seq_num pp)) l' = parity (λ pp, g (pp_seq_num pp)) (protected_packets f)) as Hpar
    by (intros g; by rewrite <- !(parity_map pp_seq_num g), Hs).
  split.
  - split; cbn [fec_pkt fec_header_size protection_length protected_packets set_protected]; try done.
    + apply (List.Forall_map pp_seq_num (λ s, zlen (orig s) - kRtpHeaderSize ≤ protection_length f)).
      rewrite Hs. by apply (List.Forall_map pp_seq_num).
    + by rewrite (Hpar (λ s, (orig s).[0])).
    + intros k Hk. by rewrite (Hpar (λ s, recovery_head (orig s) k)), Eh.
    + intros i Hi. by rewrite (Hpar (λ s, (orig s).[12 + i])), Ep.
  - unfold protects in *. cbn [protected_packets set_protected]. clear - Hp H.
    induction H as [|x y l l' Hxy Hl IH]; [constructor|]. inversion Hp as [|? ? Hx Hl']; subst.
    constructor; [|by apply IH]. destruct Hxy as [->|(pkt & -> & ->)]; [done|].
    destruct Hx as (A & B & _). split; [done|]. split; [done|]. by right.
Qed.

Lemma update_covering_good r f : rec_good r → fec_good f → fec_good (update_covering r f).
Proof.
  intros (_ & Hr & _) Hf. destruct (update_covering_linked r f) as (l' & -> & H).
  apply fec_good_linked; [done|]. apply (linked_impl _ _ _ _ H). intros s pkt [-> ->]. exact Hr.
Qed.

Lemma fec_good_seqs f : fec_good f → Forall (λ pp, uint16 (pp_seq_num pp)) (protected_packets f).
Proof.
  intros [_ H]. apply (list.Forall_impl _ _ _ H). intros pp (M & _). by apply media_seq_range in M.
Qed.

Lemma AssignRecoveredPackets_good rec f : Forall rec_good rec → fec_good f →
  fec_good (AssignRecoveredPackets rec f).
Proof.
  intros Hr Hf. unfold AssignRecoveredPackets. apply fec_good_linked; [done|].
  eapply linked_impl; [apply assign_recovered_linked|].
  - by apply fec_good_seqs.
  - apply (list.Forall_impl _ _ _ Hr). intros r (_ & _ & M). by apply media_seq_range in M.
  - intros s pkt (r & Hi & -> & ->). rewrite list.Forall_forall in Hr.
    apply list_elem_of_In in Hi. by apply Hr.
Qed.

(** A packet recovered is the packet sent. *)
Lemma RecoverPacket_good f : fec_good f → NumCoveredPacketsMissing f = 1 →
  ∃ r, RecoverPacket f = Some r ∧ rec_good r ∧ was_recovered r = true ∧ returned r = false ∧
    ∃ pp, In pp (protected_packets f) ∧ missing pp ∧ r_seq_num r = pp_seq_num pp ∧
      Forall (λ q, q = pp ∨ pp_pkt q ≠ None) (protected_packets f).
Proof.
  intros [He Hp] H1. destruct (NumCovered_1 f H1) as (l1 & pp0 & l2 & E & M0 & N1 & N2).
  eexists. split; [exact (RecoverPacket_exact ssrc orig f l1 pp0 l2 He E Hp M0 N1 N2)|].
  assert (In pp0 (protected_packets f)) as Hin by (rewrite E; apply in_app_iff; right; by left).
  assert (media_packet ssrc (pp_seq_num pp0) (orig (pp_seq_num pp0))) as HM.
  { unfold protects in Hp. rewrite list.Forall_forall in Hp.
    apply (Hp pp0). by apply list_elem_of_In. }
  split; [done|]. split; [done|]. split; [done|]. exists pp0. split; [done|]. split; [done|].
  split; [done|]. rewrite E. apply Forall_app. split.
  - apply (list.Forall_impl _ _ _ N1). auto.
  - constructor; [by left|]. apply (list.Forall_impl _ _ _ N2). auto.
Qed.

(** ** The state *)

Context (limits : 0 ≤ max_fec_packets ∧ 0 ≤ max_tracked_media_packets).

Definition state_good (d : FecDecoder) (rec : list RecoveredPacket) : Prop :=
  protected_media_ssrc_ d = ssrc ∧ Forall fec_good (received_fec_packets_ d) ∧ Forall rec_good rec ∧
  zlen (received_fec_packets_ d) ≤ max_fec_packets ∧ zlen rec ≤ max_tracked_media_packets.

(** A packet from the sender: a media packet as it was sent, or an FEC packet whose data are the
    parity of the media packets its header names (or that is dropped). *)
Definition packet_good (rp : ReceivedPacket) : Prop :=
  if is_fec rp then
    ∀ d f, protected_media_ssrc_ d = ssrc → parse_fec_packet d rp = Some f → fec_good f
  else rp_ssrc rp = ssrc ∧ rp_pkt rp = orig (rp_seq_num rp) ∧
       media_packet ssrc (rp_seq_num rp) (orig (rp_seq_num rp)).

Lemma insert_at_Forall {A} (P : A → Prop) pos x l : P x → Forall P l → Forall P (insert_at pos x l).
Proof.
  intros Hx Hl. unfold insert_at. apply Forall_app. split; [by apply Forall_take|].
  constructor; [done|by apply Forall_drop].
Qed.

Lemma insert_at_length {A} pos (x : A) l : length (insert_at pos x l) = S (length l).
Proof.
  unfold insert_at. rewrite length_app. cbn [length]. rewrite length_take, length_drop. lia.
Qed.

Lemma DiscardOld_good rec : Forall rec_good rec →
  Forall rec_good (DiscardOldRecoveredPackets rec) ∧
  zlen (DiscardOldRecoveredPackets rec) ≤ max_tracked_media_packets.
Proof.
  intros H. unfold DiscardOldRecoveredPackets. split; [by apply Forall_drop|].
  rewrite length_drop. lia.
Qed.

Lemma update_all_good r l : rec_good r → Forall fec_good l →
  Forall fec_good (UpdateCoveringFecPackets r l).
Proof.
  intros Hr H. unfold UpdateCoveringFecPackets. apply List.Forall_map.
  apply (list.Forall_impl _ _ _ H). intros f. by apply update_covering_good.
Qed.

Lemma attempt_loop_good fuel before after rec num l rec' num' :
  Forall fec_good before → Forall fec_good after → Forall rec_good rec →
  zlen rec ≤ max_tracked_media_packets → Forall (λ f, NumCoveredPacketsMissing f = 2) before →
  attempt_loop fuel before after rec num = Some (l, rec', num') →
  Forall fec_good l ∧ Forall rec_good rec' ∧ zlen rec' ≤ max_tracked_media_packets ∧
  Forall (λ f, NumCoveredPacketsMissing f = 2) l ∧
  (length l ≤ length before + length after)%nat ∧ num ≤ num'.
Proof.
  revert before after rec num. induction fuel as [|fuel IH];
    intros before after rec num Hb Ha Hr Hl H2 E; (destruct after as [|f rest]; cbn [attempt_loop] in E;
    [injection E as <- <- <-; split_and!; try done; cbn [length]; lia|]); [done|].
  inversion Ha as [|? ? Hf Hrest]; subst. cbn [length].
  destruct (Z.eqb_spec (NumCoveredPacketsMissing f) 1) as [E1|E1].
  - destruct (RecoverPacket_good f Hf E1) as (r & Er & Hrg & _). rewrite Er in E.
    apply IH in E as (A & B & C & D & G & I); [|constructor| | | |constructor].
    + split_and!; try done; try lia. unfold UpdateCoveringFecPackets in G.
      rewrite length_map, length_app in G. cbn [length] in G. lia.
    + apply update_all_good; [done|]. by apply Forall_app.
    + apply DiscardOld_good. by apply insert_at_Forall.
    + apply DiscardOld_good. by apply insert_at_Forall.
  - destruct (_ || _) eqn:Eo.
    + apply IH in E as (A & B & C & D & G & I); try done. split_and!; try done; lia.
    + apply IH in E as (A & B & C & D & G & I); try done.
      * split_and!; try done. rewrite length_app in G. cbn [length] in G. lia.
      * apply Forall_app. split; [done|]. by constructor.
      * apply Forall_app. split; [done|]. constructor; [|constructor].
        apply orb_false_iff in Eo as [Eo _].
        destruct (NumCovered_cases f) as [E'|[E'|E']]; [|done|done]. rewrite E' in Eo. done.
Qed.

Lemma discard_old_fec_suffix s l : ∃ k, discard_old_fec s l = drop k l.
Proof.
  induction l as [|f l [k IH]]; [by exists 0%nat|]. cbn [discard_old_fec].
  destruct (_ >? _); [exists (S k); exact IH|by exists 0%nat].
Qed.

Lemma InsertFecPacket_good d rec rp : packet_good rp → is_fec rp = true → state_good d rec →
  state_good (InsertFecPacket d rec rp) rec.
Proof.
  intros Hp Hf (S1 & S2 & S3 & S4 & S5). unfold InsertFecPacket, packet_good in *. rewrite Hf in Hp.
  destruct (insert_pos _ _ _) as [pos|]; [|done].
  destruct (parse_fec_packet d rp) as [f|] eqn:E; [|done]. specialize (Hp d f S1 E).
  destruct (protected_packets f) as [|pp pps]; [done|].
  assert (Forall fec_good (insert_at pos (AssignRecoveredPackets rec f) (received_fec_packets_ d))) as HI
    by (apply insert_at_Forall; [by apply AssignRecoveredPackets_good|done]).
  assert (length (insert_at pos (AssignRecoveredPackets rec f) (received_fec_packets_ d)) =
    S (length (received_fec_packets_ d))) as HL by apply insert_at_length.
  set (l := insert_at _ _ _) in *. clearbody l. rewrite Z.gtb_ltb.
  split_and!; try done; cbn [received_fec_packets_ set_fec_packets];
    destruct (Z.ltb_spec max_fec_packets (zlen l)); try done.
  - destruct l; [done|]. by inversion HI.
  - destruct l; cbn [tail length] in *; lia.
Qed.

Lemma InsertMediaPacket_good d rec rp : packet_good rp → is_fec rp = false → state_good d rec →
  let '(d', rec') := InsertMediaPacket d rec rp in
  protected_media_ssrc_ d' = ssrc ∧ Forall fec_good (received_fec_packets_ d') ∧ Forall rec_good rec' ∧
  zlen (received_fec_packets_ d') ≤ max_fec_packets.
Proof.
  intros Hp Hf (S1 & S2 & S3 & S4 & S5). unfold InsertMediaPacket, packet_good in *. rewrite Hf in Hp.
  destruct (insert_pos _ _ _) as [pos|]; [|done].
  assert (rec_good (MkRecovered (rp_ssrc rp) (rp_seq_num rp) false true (rp_pkt rp))) as HR by exact Hp.
  split_and!; [done|by apply update_all_good|by apply insert_at_Forall|].
  cbn [received_fec_packets_ set_fec_packets]. unfold UpdateCoveringFecPackets. by rewrite length_map.
Qed.

Lemma InsertPacket_good d rec rp : packet_good rp → state_good d rec →
  let '(d', rec') := InsertPacket d rec rp in state_good d' rec'.
Proof.
  intros Hp HS. unfold InsertPacket. set (d1 := match received_fec_packets_ d with [] => _ | _ => _ end).
  assert (state_good d1 rec) as HS1.
  { subst d1. destruct (received_fec_packets_ d) as [|f l] eqn:E; [done|]. destruct (_ =? _); [|done].
    destruct (discard_old_fec_suffix (rp_seq_num rp) (f :: l)) as [k ->]. rewrite <- E.
    destruct HS as (S1 & S2 & S3 & S4 & S5). split_and!; try done; cbn [received_fec_packets_ set_fec_packets].
    - by apply Forall_drop.
    - rewrite length_drop. lia. }
  clearbody d1. destruct (is_fec rp) eqn:Ef.
  - pose proof (InsertFecPacket_good d1 rec rp Hp Ef HS1) as (S1 & S2 & S3 & S4 & S5).
    split_and!; try done; by apply DiscardOld_good.
  - pose proof (InsertMediaPacket_good d1 rec rp Hp Ef HS1) as H.
    destruct (InsertMediaPacket d1 rec rp) as [d' rec']. destruct H as (S1 & S2 & S3 & S4).
    split_and!; try done; by apply DiscardOld_good.
Qed.

Lemma DecodeFec_good d rec rp : packet_good rp → state_good d rec →
  ∃ d' rec' num, DecodeFec d rec rp = Some (d', rec', num) ∧ 0 ≤ num ∧ state_good d' rec' ∧
    Forall (λ f, NumCoveredPacketsMissing f = 2) (received_fec_packets_ d').
Proof.
  intros Hp HS. unfold DecodeFec.
  set (s := if zlen rec =? max_tracked_media_packets then _ else _).
  assert (state_good s.1 s.2) as HS1.
  { subst s. destruct (_ =? _); [|done]. destruct (List.rev rec); [done|]. destruct (_ && _); [|done].
    destruct HS as (S1 & S2 & S3 & S4 & S5). split_and!; try done; try constructor; cbn; lia. }
  destruct s as [d1 rec1]. cbn [fst snd] in HS1.
  pose proof (InsertPacket_good d1 rec1 rp Hp HS1) as HS2.
  destruct (InsertPacket d1 rec1 rp) as [d2 rec2]. destruct HS2 as (S1 & S2 & S3 & S4 & S5).
  pose proof (AttemptRecovery_total d2 rec2) as HT. unfold AttemptRecovery in *.
  destruct (attempt_loop _ _ _ _ _) as [[[l rec'] num]|] eqn:E; [|done].
  apply attempt_loop_good in E as (A & B & C & D & G & I); try done.
  eexists _, _, _. split; [reflexivity|]. split; [done|]. split; [|done].
  cbn [length] in G. split_and!; try done. cbn [received_fec_packets_ set_fec_packets]. lia.
Qed.
End sound.
