(* ===== verification/FecRecovery.v ===== *)
(** What the decoder of forward error correction recovers.

    FecDecode shows that no packet in the list of recovered packets is wrong; this file shows that
    none is missing.  Within one protected frame the sequence numbers lie in a window, where the
    order modulo 65536 is the order of the offsets, so that the sorted lists and the binary
    search of the decoder find every packet.  The invariant [session] then says that each
    protected packet is linked exactly when it is in the list of recovered packets, and that each
    FEC packet received is kept until all packets it protects are there. *)
From stdpp Require Import sorting.
From S2P Require Import Prelude ByteIo SeqNum Rtcp FecTables FecMasks FecPacket FecHeaders FecDecode.

(** * Sequence numbers of a window *)

Definition near (base s : Z) : Prop := uint16 s ∧ u16 (s - base) < 0x2000.

Lemma near_unwrap base s : near base s → s = (base + u16 (s - base)) `mod` 65536.
Proof. intros [Hs _]. unfold u16, uint16 in *. zdiv. Qed.

Lemma LessThan_near base a b : near base a → near base b →
  LessThan a b = (u16 (a - base) <? u16 (b - base)).
Proof.
  intros Ha Hb. unfold LessThan, IsNewerSequenceNumber. pose proof Ha as [Ra Na]. pose proof Hb as [Rb Nb].
  rewrite IsNewer_AheadOf by (unfold uint16 in *; simpl; lia).
  rewrite (near_unwrap base a Ha) at 1. rewrite (near_unwrap base b Hb) at 1.
  pose proof (u16_range (a - base)). pose proof (u16_range (b - base)).
  change 65536 with (modulus 16 0).
  rewrite AheadOf_near by first [by split; lia | change (modulus 16 0) with 65536; unfold uint16 in *; lia].
  destruct_cmp; lia || done.
Qed.

Lemma MinDiff_near base a b : near base a → near base b → MinDiff 16 0 a b ≤ kOldSequenceThreshold.
Proof.
  intros Ha Hb. pose proof Ha as [Ra Na]. pose proof Hb as [Rb Nb]. unfold kOldSequenceThreshold, MinDiff.
  assert (template_args 16 0) as args by (split; lia).
  rewrite (ForwardDiff_mod 16 0 args), (ReverseDiff_mod 16 0 args)
    by (change (modulus 16 0) with 65536; unfold uint16 in *; lia).
  change (modulus 16 0) with 65536. unfold u16, uint16 in *. zdiv.
Qed.

Lemma near_inj base a b : near base a → near base b → u16 (a - base) = u16 (b - base) → a = b.
Proof. intros Ha Hb E. rewrite (near_unwrap base a Ha), (near_unwrap base b Hb), E. done. Qed.

(** * Sorted insertion *)

Section sorted.
Context {A : Type} (seq : A → Z) (base : Z).

Definition key (x : A) : Z := u16 (seq x - base).
Definition in_order (l : list A) : Prop := StronglySorted Z.lt (map key l).
Definition window (l : list A) : Prop := Forall (λ x, near base (seq x)) l.

Lemma sorted_app (l k : list Z) : StronglySorted Z.lt (l ++ k) ↔
  StronglySorted Z.lt l ∧ StronglySorted Z.lt k ∧ (∀ x y, In x l → In y k → x < y).
Proof.
  induction l as [|a l IH]; cbn [app].
  { split; [intros H; split_and!; [constructor|done|done]|tauto]. }
  split.
  - intros H. inversion H as [|? ? Hs Ha]; subst. apply IH in Hs as (S1 & S2 & S3).
    apply Forall_app in Ha as [Ha Hk]. rewrite list.Forall_forall in Hk. split_and!; [by constructor|done|].
    intros x y [<-|Hx] Hy; [apply Hk; by apply list_elem_of_In|by apply S3].
  - intros (S1 & S2 & S3). inversion S1 as [|? ? Hs Ha]; subst. constructor.
    + apply IH. split_and!; try done. intros x y Hx Hy. apply S3; [by right|done].
    + apply Forall_app. split; [done|]. apply list.Forall_forall. intros y Hy. apply S3; [by left|].
      by apply list_elem_of_In.
Qed.

(** [x] put between what is below and what is above it. *)
Lemma in_order_insert l1 l2 x : in_order (l1 ++ l2) → Forall (λ y, key y < key x) l1 →
  Forall (λ y, key x < key y) l2 → in_order (l1 ++ x :: l2).
Proof.
  unfold in_order. rewrite !map_app. cbn [map]. rewrite !sorted_app. intros (S1 & S2 & S3) H1 H2.
  rewrite list.Forall_forall in H1. split_and!; [done| |].
  - constructor; [done|]. by apply List.Forall_map.
  - intros a b Ha [<-|Hb]; [|by apply S3]. apply in_map_iff in Ha as (y & <- & Hy). apply H1.
    by apply list_elem_of_In.
Qed.

Lemma in_order_snoc l x : in_order (l ++ [x]) → in_order l ∧ Forall (λ y, key y < key x) l.
Proof.
  unfold in_order. rewrite map_app, sorted_app. intros (S1 & _ & S3). split; [done|].
  apply list.Forall_forall. intros y Hy. apply S3; [|by left]. apply in_map. by apply list_elem_of_In.
Qed.

Lemma window_app l k : window (l ++ k) ↔ window l ∧ window k.
Proof. apply Forall_app. Qed.

(** The two searches: the packet is there, or it gets its place. *)
Lemma insert_pos_spec s l : in_order l → window l → near base s →
  match insert_pos seq s (rev l) with
  | None => In s (map seq l)
  | Some pos => ¬ In s (map seq l) ∧ ∃ l1 l2, l = l1 ++ l2 ∧ pos = length l1 ∧
      Forall (λ y, key y < u16 (s - base)) l1 ∧ Forall (λ y, u16 (s - base) < key y) l2
  end.
Proof.
  intros Ho Hw Hs. induction l as [|x l IH] using rev_ind.
  { split; [intros []|]. by exists [], []. }
  rewrite rev_app_distr. cbn [rev app insert_pos]. apply in_order_snoc in Ho as [Ho Hx].
  apply window_app in Hw as [Hw Hn]. inversion Hn as [|? ? Hnx _]; subst.
  rewrite (LessThan_near base) by done. rewrite list.Forall_forall in Hx.
  destruct (Z.ltb_spec (u16 (seq x - base)) (u16 (s - base))) as [Hlt|Hge].
  - split.
    + rewrite map_app, in_app_iff. intros [Hi|[<-|[]]]; [|lia]. apply in_map_iff in Hi as (y & <- & Hy).
      apply list_elem_of_In in Hy. specialize (Hx y Hy). unfold key in Hx. lia.
    + exists (l ++ [x]), []. split; [by rewrite app_nil_r|].
      split; [cbn [length]; rewrite length_rev, length_app; cbn [length]; lia|].
      split; [|constructor]. apply Forall_app. split; [|by constructor]. apply list.Forall_forall.
      intros y Hy. specialize (Hx y Hy). unfold key in *. lia.
  - destruct (Z.eqb_spec (seq x) s) as [<-|Hne]; [rewrite map_app, in_app_iff; right; by left|].
    assert (u16 (s - base) < key x) as Hlt.
    { assert (u16 (s - base) ≠ key x); [|unfold key in *; lia].
      intros E. apply Hne. symmetry. by apply (near_inj base). }
    specialize (IH Ho Hw). destruct (insert_pos seq s (rev l)) as [pos|].
    + destruct IH as (Hni & l1 & l2 & -> & -> & H1 & H2). split.
      * rewrite map_app, in_app_iff. intros [Hi|[E|[]]]; done.
      * exists l1, (l2 ++ [x]). rewrite app_assoc. split_and!; try done.
        apply Forall_app. split; [done|by constructor].
    + rewrite map_app, in_app_iff. by left.
Qed.

Lemma insert_at_app pos (x : A) l1 l2 : pos = length l1 → insert_at pos x (l1 ++ l2) = l1 ++ x :: l2.
Proof. intros ->. unfold insert_at. by rewrite take_app_length, drop_app_length. Qed.

(** Numbers in increasing order below [n] are at most [n]. *)
Lemma sorted_length (l : list Z) a n : StronglySorted Z.lt l → Forall (λ x, a ≤ x < n) l →
  a ≤ n → zlen l ≤ n - a.
Proof.
  intros Hs. revert a. induction Hs as [|x l Hs IH Hx]; intros a Hl Ha; [cbn; lia|].
  inversion Hl as [|? ? Hax Hl']; subst. cbn [length].
  assert (Forall (λ y, x + 1 ≤ y < n) l) as H.
  { apply list.Forall_forall. intros y Hy. rewrite list.Forall_forall in Hx, Hl'.
    specialize (Hx y Hy). specialize (Hl' y Hy). lia. }
  specialize (IH (x + 1) H). lia.
Qed.

End sorted.

Lemma recovery_pos_insert base s l : in_order r_seq_num base l → window r_seq_num base l →
  near base s → ¬ In s (map r_seq_num l) →
  insert_pos r_seq_num s (rev l) = Some (recovery_pos s (rev l)).
Proof.
  intros Ho Hw Hs. induction l as [|x l IH] using rev_ind; intros Hni; [done|].
  rewrite rev_app_distr. cbn [rev app insert_pos recovery_pos]. apply in_order_snoc in Ho as [Ho Hx].
  apply window_app in Hw as [Hw Hn]. inversion Hn as [|? ? Hnx _]; subst.
  rewrite map_app, in_app_iff in Hni. cbn [map In] in Hni.
  rewrite !(LessThan_near base) by done.
  assert (u16 (r_seq_num x - base) ≠ u16 (s - base)) as Hne.
  { intros E. apply Hni. right. left. by apply (near_inj base). }
  destruct (Z.eqb_spec (r_seq_num x) s) as [E|_]; [subst; tauto|].
  destruct (Z.ltb_spec (u16 (r_seq_num x - base)) (u16 (s - base)));
    destruct (Z.ltb_spec (u16 (s - base)) (u16 (r_seq_num x - base))); try lia; cbn [negb]; [done|].
  apply IH; tauto.
Qed.

(** * Links *)

(** [std::lower_bound] finds the first element that is not less. *)
Lemma lower_bound_spec fuel less l first len j : (len ≤ fuel)%nat → (first + len ≤ length l)%nat →
  (first ≤ j ≤ first + len)%nat →
  (∀ k p, (k < j)%nat → l !! k = Some p → less p = true) →
  (∀ k p, (j ≤ k)%nat → l !! k = Some p → less p = false) →
  lower_bound fuel less l first len = j.
Proof.
  revert first len. induction fuel as [|fuel IH]; intros first len Hf Hl Hj Hlo Hhi; cbn [lower_bound]; [lia|].
  destruct (Nat.eqb_spec len 0) as [->|Hne]; [lia|].
  assert (len / 2 < len)%nat as Hh by (apply Nat.div_lt; lia).
  destruct (l !! (first + len / 2)%nat) as [p|] eqn:E.
  2: { apply lookup_ge_None in E. lia. }
  destruct (decide (first + len / 2 < j)%nat) as [Hlt|Hge].
  - rewrite (Hlo _ p Hlt E). apply IH; try done; lia.
  - rewrite (Hhi _ p (proj1 (Nat.nlt_ge _ _) Hge) E). apply IH; try done; lia.
Qed.

Definition seqs (rec : list RecoveredPacket) : list Z := map r_seq_num rec.
Definition protected_seqs (f : ReceivedFecPacket) : list Z := map pp_seq_num (protected_packets f).

(** Exactly the packets that are not in the list of recovered packets lack their link. *)
Definition tracks (rec : list RecoveredPacket) (f : ReceivedFecPacket) : Prop :=
  Forall (λ pp, pp_pkt pp = None ↔ ¬ In (pp_seq_num pp) (seqs rec)) (protected_packets f).

Section links.
Context (base : Z).

Definition fec_ordered (f : ReceivedFecPacket) : Prop :=
  in_order pp_seq_num base (protected_packets f) ∧ window pp_seq_num base (protected_packets f).

Lemma in_order_lookup {A} (seq : A → Z) l j k x y : in_order seq base l → (j < k)%nat →
  l !! j = Some x → l !! k = Some y → key seq base x < key seq base y.
Proof.
  intros Ho Hjk Hx Hy. unfold in_order in Ho. rewrite <- (take_drop k l), map_app in Ho.
  apply sorted_app in Ho as (_ & _ & H). apply H; apply in_map, list_elem_of_In, list_elem_of_lookup.
  - exists j. by rewrite lookup_take_lt.
  - exists 0%nat. by rewrite lookup_drop, Nat.add_0_r.
Qed.

Lemma update_covering_hit r f j p : fec_ordered f → near base (r_seq_num r) →
  protected_packets f !! j = Some p → pp_seq_num p = r_seq_num r →
  update_covering r f = set_protected f (<[j := set_pkt p (r_pkt r)]> (protected_packets f)).
Proof.
  intros [Ho Hw] Hr Hp E. unfold update_covering.
  assert (∀ k q, protected_packets f !! k = Some q → near base (pp_seq_num q)) as Hn.
  { intros k q Hq. unfold window in Hw. rewrite list.Forall_forall in Hw.
    apply Hw, list_elem_of_lookup. by exists k. }
  rewrite (lower_bound_spec _ _ _ 0 _ j).
  - by rewrite Hp, E, Z.eqb_refl.
  - done.
  - lia.
  - apply lookup_lt_Some in Hp. lia.
  - intros k q Hk Hq. rewrite (LessThan_near base), <- E by (try done; by eapply Hn).
    pose proof (in_order_lookup _ _ _ _ _ _ Ho Hk Hq Hp). unfold key in *. lia.
  - intros k q Hk Hq. rewrite (LessThan_near base), <- E by (try done; by eapply Hn).
    destruct (decide (j = k)) as [<-|Hne]; [assert (q = p) as -> by congruence; lia|].
    pose proof (in_order_lookup _ _ j k _ _ Ho ltac:(lia) Hp Hq). unfold key in *. lia.
Qed.

Lemma update_covering_miss r f : ¬ In (r_seq_num r) (protected_seqs f) → update_covering r f = f.
Proof.
  intros H. unfold update_covering. destruct (_ !! _) as [p|] eqn:E; [|done].
  destruct (Z.eqb_spec (pp_seq_num p) (r_seq_num r)) as [Es|]; [|done]. exfalso. apply H.
  rewrite <- Es. unfold protected_seqs. apply in_map, list_elem_of_In, list_elem_of_lookup. eauto.
Qed.

Lemma update_covering_seqs r f : protected_seqs (update_covering r f) = protected_seqs f ∧
  fec_seq_num (update_covering r f) = fec_seq_num f ∧ fec_ssrc (update_covering r f) = fec_ssrc f.
Proof.
  destruct (update_covering_linked r f) as (l' & -> & H). split; [|done].
  unfold protected_seqs. cbn [protected_packets set_protected]. by eapply linked_seq.
Qed.

Lemma fec_ordered_seqs f g : protected_seqs f = protected_seqs g → fec_ordered f → fec_ordered g.
Proof.
  unfold protected_seqs, fec_ordered, in_order, window, key. intros E [Ho Hw].
  rewrite <- (map_map pp_seq_num (λ s, u16 (s - base))) in *. rewrite <- E. split; [done|].
  apply (List.Forall_map pp_seq_num (near base)). rewrite <- E. by apply (List.Forall_map pp_seq_num (near base)).
Qed.

(** The links follow the list of recovered packets. *)
Lemma update_covering_tracks rec rec' r f : fec_ordered f → near base (r_seq_num r) → tracks rec f →
  (∀ s, In s (seqs rec') ↔ s = r_seq_num r ∨ In s (seqs rec)) → tracks rec' (update_covering r f).
Proof.
  intros Hf Hr Ht Hin. unfold tracks in *.
  destruct (in_dec Z.eq_dec (r_seq_num r) (protected_seqs f)) as [Hi|Hni].
  - apply in_map_iff in Hi as (p & E & Hp). apply list_elem_of_In, list_elem_of_lookup in Hp as [j Hj].
    rewrite (update_covering_hit r f j p) by done. cbn [protected_packets set_protected].
    apply list.Forall_forall. intros pp Hpp. apply list_elem_of_lookup in Hpp as [k Hk].
    rewrite Hin. destruct (decide (j = k)) as [<-|Hne].
    + rewrite list_lookup_insert_eq in Hk by (by apply lookup_lt_Some in Hj).
      injection Hk as <-. cbn [set_pkt pp_pkt pp_seq_num]. split; [done|tauto].
    + rewrite list_lookup_insert_ne in Hk by done. rewrite list.Forall_forall in Ht.
      rewrite (Ht pp) by (apply list_elem_of_lookup; eauto).
      assert (pp_seq_num pp ≠ r_seq_num r); [|tauto]. rewrite <- E. intros E'.
      destruct Hf as [Ho _]. destruct (decide (j < k)%nat).
      * pose proof (in_order_lookup _ _ j k _ _ Ho ltac:(lia) Hj Hk). unfold key in *. rewrite E' in *. lia.
      * pose proof (in_order_lookup _ _ k j _ _ Ho ltac:(lia) Hk Hj). unfold key in *. rewrite E' in *. lia.
  - rewrite update_covering_miss by done. rewrite list.Forall_forall in Ht |- *. intros pp Hpp.
    rewrite (Ht pp Hpp), Hin. assert (pp_seq_num pp ≠ r_seq_num r); [|tauto]. intros E. apply Hni.
    rewrite <- E. unfold protected_seqs. by apply in_map, list_elem_of_In.
Qed.

Lemma assign_recovered_tracks ps rs : in_order pp_seq_num base ps → window pp_seq_num base ps →
  in_order r_seq_num base rs → window r_seq_num base rs → Forall missing ps →
  Forall (λ pp, pp_pkt pp = None ↔ ¬ In (pp_seq_num pp) (seqs rs)) (assign_recovered ps rs).
Proof.
  intros Hps Wps. revert rs. induction Wps as [|p ps Hp Wps IH]; intros rs Hrs Wrs Hm.
  { destruct rs; constructor. }
  inversion Hm as [|? ? Mp Ms]; subst. inversion Hps as [|? ? Sps Kp]; subst. specialize (IH Sps).
  apply (proj1 (List.Forall_map _ _ _)) in Kp. rewrite list.Forall_forall in Kp.
  induction Wrs as [|r rs Hr Wrs IHr].
  { cbn [assign_recovered]. unfold missing in *. constructor; [cbn; tauto|].
    apply (list.Forall_impl _ _ _ Ms). cbn. tauto. }
  inversion Hrs as [|? ? Srs Kr]; subst. specialize (IHr Srs).
  apply (proj1 (List.Forall_map _ _ _)) in Kr. rewrite list.Forall_forall in Kr.
  cbn [assign_recovered]. rewrite !(LessThan_near base) by done.
  assert (∀ x, x ∈ assign_recovered ps rs → key pp_seq_num base p < u16 (pp_seq_num x - base)) as Hres.
  { intros x Hx. assert (In (pp_seq_num x) (map pp_seq_num ps)) as Hi.
    { rewrite <- (linked_seq _ _ _ (assign_recovered_linked ps rs
        ltac:(apply (list.Forall_impl _ _ _ Wps); intros ? [? _]; done)
        ltac:(apply (list.Forall_impl _ _ _ Wrs); intros ? [? _]; done))).
      by apply in_map, list_elem_of_In. }
    apply in_map_iff in Hi as (y & <- & Hy). apply Kp. by apply list_elem_of_In. }
  unfold key in *.
  destruct (Z.ltb_spec (u16 (pp_seq_num p - base)) (u16 (r_seq_num r - base))) as [Hlt|Hge].
  - constructor.
    + split; [|by intros _]. intros _ [E|Hi]; [rewrite E in Hlt; lia|].
      apply in_map_iff in Hi as (y & E & Hy). apply list_elem_of_In in Hy. specialize (Kr y Hy).
      rewrite E in Kr. lia.
    + apply (IH (r :: rs)); [done| |done]. by constructor.
  - destruct (Z.ltb_spec (u16 (r_seq_num r - base)) (u16 (pp_seq_num p - base))) as [Hlt|Hge'].
    + assert (∀ x, x ∈ assign_recovered (p :: ps) rs → u16 (r_seq_num r - base) < u16 (pp_seq_num x - base)) as Hres'.
      { intros x Hx. assert (In (pp_seq_num x) (map pp_seq_num (p :: ps))) as Hi.
        { rewrite <- (linked_seq _ _ _ (assign_recovered_linked (p :: ps) rs
            ltac:(constructor; [by destruct Hp|apply (list.Forall_impl _ _ _ Wps); intros ? [? _]; done])
            ltac:(apply (list.Forall_impl _ _ _ Wrs); intros ? [? _]; done))).
          by apply in_map, list_elem_of_In. }
        destruct Hi as [<-|Hi]; [done|]. apply in_map_iff in Hi as (y & <- & Hy).
        apply list_elem_of_In in Hy. specialize (Kp y Hy). lia. }
      rewrite list.Forall_forall in IHr |- *. intros x Hx. rewrite (IHr x Hx). cbn [seqs map In].
      specialize (Hres' x Hx). assert (r_seq_num r ≠ pp_seq_num x) by (intros E; rewrite E in *; lia). tauto.
    + assert (pp_seq_num p = r_seq_num r) as E by (apply (near_inj base); [done|done|lia]).
      constructor; [cbn; rewrite E; split; [done|tauto]|]. specialize (IH rs Srs Wrs Ms).
      rewrite list.Forall_forall in IH |- *. intros x Hx. rewrite (IH x Hx). cbn [seqs map In].
      specialize (Hres x Hx). assert (r_seq_num r ≠ pp_seq_num x) by (intros E'; rewrite E, E' in *; lia). tauto.
Qed.

End links.

(** * The decoder on the packets of a frame *)

Section frame.
Context {F : FecHeaderFormat} (ssrc : Z) (orig : Z → list Z) (base : Z).
(** The FEC packets: their SSRC, the window of their sequence numbers, what each protects. *)
Context (rs qbase : Z) (sel : Z → list Z).
Context (limits : 48 ≤ max_fec_packets ∧ 48 < max_tracked_media_packets).
Context (frame_span : ∀ s, media_packet ssrc s (orig s) → u16 (s - base) < 48).

Definition fec_number (q : Z) : Prop :=
  uint16 q ∧ u16 (q - qbase) < 48 ∧ (rs = ssrc → near base q).

Definition fec_known (f : ReceivedFecPacket) : Prop :=
  fec_good ssrc orig f ∧ fec_ssrc f = rs ∧ fec_number (fec_seq_num f) ∧
  protected_seqs f = sel (fec_seq_num f) ∧ fec_ordered base f.

Record session (rec : list RecoveredPacket) (l : list ReceivedFecPacket) : Prop := {
  se_rec : Forall (rec_good ssrc orig) rec;
  se_rec_order : in_order r_seq_num base rec;
  se_fec : Forall fec_known l;
  se_fec_order : in_order fec_seq_num qbase l;
  se_tracks : Forall (tracks rec) l;
}.

(** An FEC packet is there, or all packets it protects are. *)
Definition kept (rec : list RecoveredPacket) (l : list ReceivedFecPacket) (q : Z) : Prop :=
  In q (map fec_seq_num l) ∨ (∀ s, In s (sel q) → In s (seqs rec)).

Lemma rec_near r : rec_good ssrc orig r → near base (r_seq_num r) ∧ u16 (r_seq_num r - base) < 48.
Proof.
  intros (_ & _ & M). pose proof (frame_span _ M). split; [|done]. split; [|lia].
  by apply media_seq_range in M.
Qed.

Lemma rec_window rec : Forall (rec_good ssrc orig) rec → window r_seq_num base rec.
Proof. intros H. apply (list.Forall_impl _ _ _ H). intros r Hr. by apply rec_near. Qed.

Lemma fec_window l : Forall fec_known l → window fec_seq_num qbase l.
Proof.
  intros H. apply (list.Forall_impl _ _ _ H). intros f (_ & _ & (A & B & _) & _). split; [done|lia].
Qed.

Lemma rec_short rec : Forall (rec_good ssrc orig) rec → in_order r_seq_num base rec → zlen rec ≤ 48.
Proof.
  intros Hr Ho. pose proof (sorted_length _ 0 48 Ho) as H. rewrite length_map in H. unfold in_order in *.
  enough (zlen rec ≤ 48 - 0) by lia. apply H; [|lia]. apply List.Forall_map.
  apply (list.Forall_impl _ _ _ Hr). intros r Hg. unfold key. pose proof (u16_range (r_seq_num r - base)).
  pose proof (proj2 (rec_near r Hg)). unfold uint16 in *. lia.
Qed.

Lemma fec_short l : Forall fec_known l → in_order fec_seq_num qbase l → zlen l ≤ 48.
Proof.
  intros Hr Ho. pose proof (sorted_length _ 0 48 Ho) as H. rewrite length_map in H.
  enough (zlen l ≤ 48 - 0) by lia. apply H; [|lia]. apply List.Forall_map.
  apply (list.Forall_impl _ _ _ Hr). intros f (_ & _ & (_ & B & _) & _). unfold key.
  pose proof (u16_range (fec_seq_num f - qbase)). unfold uint16 in *. lia.
Qed.

Lemma DiscardOld_none rec : zlen rec ≤ max_tracked_media_packets → DiscardOldRecoveredPackets rec = rec.
Proof.
  intros H. unfold DiscardOldRecoveredPackets.
  replace (Z.to_nat (zlen rec - max_tracked_media_packets)) with 0%nat by lia. done.
Qed.

(** A new packet in the list of recovered packets. *)
Lemma insert_recovered rec r pos : Forall (rec_good ssrc orig) rec → in_order r_seq_num base rec →
  rec_good ssrc orig r → insert_pos r_seq_num (r_seq_num r) (rev rec) = Some pos →
  let rec' := insert_at pos r rec in
  Forall (rec_good ssrc orig) rec' ∧ in_order r_seq_num base rec' ∧
  (∀ s, In s (seqs rec') ↔ s = r_seq_num r ∨ In s (seqs rec)) ∧ DiscardOldRecoveredPackets rec' = rec'.
Proof.
  intros Hg Ho Hr E rec'.
  pose proof (insert_pos_spec r_seq_num base (r_seq_num r) rec Ho (rec_window _ Hg) (proj1 (rec_near r Hr))) as H.
  rewrite E in H. destruct H as (_ & l1 & l2 & -> & Ep & H1 & H2).
  subst rec'. rewrite insert_at_app by done. apply Forall_app in Hg as [G1 G2].
  assert (Forall (rec_good ssrc orig) (l1 ++ r :: l2)) as HG by (apply Forall_app; split; [done|by constructor]).
  assert (in_order r_seq_num base (l1 ++ r :: l2)) as HO by (by apply in_order_insert).
  split_and!; [done|done| |].
  - intros s. unfold seqs. rewrite !map_app, !in_app_iff. cbn [map In]. intuition congruence.
  - apply DiscardOld_none. pose proof (rec_short _ HG HO). lia.
Qed.

Lemma in_order_remove {A} (seq : A → Z) b l1 x l2 : in_order seq b (l1 ++ x :: l2) → in_order seq b (l1 ++ l2).
Proof.
  unfold in_order. rewrite !map_app, !sorted_app. cbn [map]. intros (S1 & S2 & S3).
  inversion S2; subst. split_and!; try done. intros a c Ha Hc. apply S3; [done|by right].
Qed.

(** The FEC packets follow a new packet in the list. *)
Lemma update_session rec rec' r l : session rec l → rec_good ssrc orig r →
  Forall (rec_good ssrc orig) rec' → in_order r_seq_num base rec' →
  (∀ s, In s (seqs rec') ↔ s = r_seq_num r ∨ In s (seqs rec)) →
  session rec' (UpdateCoveringFecPackets r l) ∧
  map fec_seq_num (UpdateCoveringFecPackets r l) = map fec_seq_num l.
Proof.
  intros [S1 S2 S3 S4 S5] Hr G O Hin. pose proof (proj1 (rec_near r Hr)) as Hn.
  assert (map fec_seq_num (UpdateCoveringFecPackets r l) = map fec_seq_num l) as E.
  { unfold UpdateCoveringFecPackets. rewrite map_map. apply map_ext. intros f. apply update_covering_seqs. }
  split; [|done]. split; [done|done| | |].
  - unfold UpdateCoveringFecPackets. apply List.Forall_map. apply (list.Forall_impl _ _ _ S3).
    intros f (A & B & C & D & H). destruct (update_covering_seqs r f) as (E1 & E2 & E3).
    unfold fec_known. rewrite E1, E2, E3. split_and!; try done; [by apply update_covering_good|].
    by apply (fec_ordered_seqs base f).
  - unfold in_order, key in *. rewrite <- (map_map fec_seq_num (λ s, u16 (s - qbase))) in *. by rewrite E.
  - unfold UpdateCoveringFecPackets. apply List.Forall_map. rewrite list.Forall_forall in S3, S5 |- *.
    intros f Hf. apply (update_covering_tracks base rec); [by apply S3|done|by apply S5|done].
Qed.

Lemma session_remove rec l1 f l2 : session rec (l1 ++ f :: l2) → session rec (l1 ++ l2).
Proof.
  intros [S1 S2 S3 S4 S5]. apply Forall_app in S3 as [A1 A2], S5 as [B1 B2].
  inversion A2; inversion B2; subst. split; try done; [by apply Forall_app|by apply in_order_remove in S4|].
  by apply Forall_app.
Qed.

Lemma not_old rec f : Forall (rec_good ssrc orig) rec → fec_known f → protected_packets f ≠ [] →
  IsOldFecPacket f rec = false.
Proof.
  intros Hr (_ & _ & _ & _ & [_ Hw]) Hne. unfold IsOldFecPacket.
  destruct rec as [|r rec _] using rev_ind; [done|]. rewrite rev_app_distr. cbn [rev app].
  destruct (protected_packets f) as [|p l _] using rev_ind; [done|]. rewrite rev_app_distr. cbn [rev app].
  apply Forall_app in Hr as [_ Hr]. inversion Hr as [|? ? Hr1 _]; subst.
  apply window_app in Hw as [_ Hw]. inversion Hw as [|? ? Hp _]; subst.
  pose proof (MinDiff_near base _ _ (proj1 (rec_near r Hr1)) Hp). rewrite Z.gtb_ltb. lia.
Qed.

Lemma tracked rec f pp : tracks rec f → In pp (protected_packets f) → pp_pkt pp ≠ None →
  In (pp_seq_num pp) (seqs rec).
Proof.
  intros Ht Hpp Hn. unfold tracks in Ht. rewrite list.Forall_forall in Ht.
  destruct (in_dec Z.eq_dec (pp_seq_num pp) (seqs rec)) as [|Hni]; [done|]. exfalso. apply Hn.
  apply Ht; [by apply list_elem_of_In|done].
Qed.

(** An FEC packet leaves the list when what it protects is there. *)
Lemma kept_remove rec rec' l1 f l2 q : kept rec (l1 ++ f :: l2) q →
  (∀ s, In s (seqs rec) → In s (seqs rec')) → (∀ s, In s (sel (fec_seq_num f)) → In s (seqs rec')) →
  kept rec' (l1 ++ l2) q.
Proof.
  unfold kept. rewrite !map_app, !in_app_iff. cbn [map In].
  intros [[Hi|[<-|Hi]]|Hs] Hsub Hf; [tauto|by right|tauto|]. right. auto.
Qed.

(** ** The loop of [AttemptRecovery] *)

Lemma attempt_loop_session fuel before after rec num l rec' num' :
  session rec (before ++ after) → attempt_loop fuel before after rec num = Some (l, rec', num') →
  session rec' l ∧ (∀ s, In s (seqs rec) → In s (seqs rec')) ∧
  (∀ q, kept rec (before ++ after) q → kept rec' l q).
Proof.
  revert before after rec num. induction fuel as [|fuel IH]; intros before after rec num HS E;
    (destruct after as [|f rest]; cbn [attempt_loop] in E;
    [injection E as <- <- <-; rewrite app_nil_r in *; by split_and!|]); [done|].
  pose proof HS as [S1 S2 S3 S4 S5]. apply Forall_app in S3 as [_ S3], S5 as [_ S5].
  inversion S3 as [|? ? Hk _]; inversion S5 as [|? ? Ht _]; subst.
  pose proof Hk as (Hg & _ & _ & Hsel & _).
  destruct (Z.eqb_spec (NumCoveredPacketsMissing f) 1) as [E1|E1].
  - destruct (RecoverPacket_good ssrc orig f Hg E1) as (r & Er & Hr & _ & _ & pp & Hpp & Hm & Es & Hoth).
    rewrite Er in E. rewrite list.Forall_forall in Hoth.
    assert (¬ In (r_seq_num r) (seqs rec)) as Hni.
    { rewrite Es. unfold tracks in Ht. rewrite list.Forall_forall in Ht. apply (Ht pp); [|done].
      by apply list_elem_of_In. }
    destruct (insert_recovered rec r _ S1 S2 Hr (recovery_pos_insert base _ rec S2 (rec_window _ S1)
      (proj1 (rec_near r Hr)) Hni)) as (G & O & Hin & Hd). rewrite Hd in E.
    set (rec1 := insert_at _ r rec) in *. clearbody rec1.
    destruct (update_session rec rec1 r (before ++ rest) (session_remove _ _ _ _ HS) Hr G O Hin) as [HS1 Em].
    apply IH in E as (A & B & C); [|exact HS1]. split_and!; [done| |].
    + intros s Hs. apply B, Hin. by right.
    + intros q Hq. apply C. cbn [app]. unfold kept. rewrite Em.
      apply (kept_remove rec rec1 before f rest q Hq); [intros s Hs; apply Hin; by right|].
      rewrite <- Hsel. intros s Hs. apply in_map_iff in Hs as (x & <- & Hx). apply Hin.
      destruct (Hoth x) as [->|Hn]; [by apply list_elem_of_In|by left|right; by eapply tracked].
  - assert (protected_packets f = [] ∨ IsOldFecPacket f rec = false) as Hold.
    { destruct (protected_packets f) eqn:Ep; [by left|right]. apply not_old; [done|done|by rewrite Ep]. }
    destruct (Z.eqb_spec (NumCoveredPacketsMissing f) 0) as [E0|E0]; cbn [orb] in E.
    + apply IH in E as (A & B & C); [|by apply session_remove in HS]. split_and!; [done|done|].
      intros q Hq. apply C. apply (kept_remove rec rec before f rest q Hq); [done|].
      rewrite <- Hsel. intros s Hs. apply in_map_iff in Hs as (x & <- & Hx).
      pose proof (NumCovered_0 f E0) as Hn. rewrite list.Forall_forall in Hn.
      apply (tracked rec f); [done|done|apply Hn; by apply list_elem_of_In].
    + destruct Hold as [Ep|Hold]; [unfold NumCoveredPacketsMissing in E0; by rewrite Ep in E0|].
      rewrite Hold in E. rewrite cons_middle in HS |- *. rewrite app_assoc in HS |- *. by apply IH in E.
Qed.

(** ** A packet received *)

(** A media packet of the frame, or an FEC packet that protects packets of it. *)
Definition frame_packet (rp : ReceivedPacket) : Prop :=
  packet_good ssrc orig rp ∧
  (is_fec rp = true → rp_ssrc rp = rs ∧ ∃ f,
    (∀ d, protected_media_ssrc_ d = ssrc → parse_fec_packet d rp = Some f) ∧ fec_known f ∧
    fec_seq_num f = rp_seq_num rp ∧ protected_packets f ≠ [] ∧ Forall missing (protected_packets f)).

Definition arrived (rp : ReceivedPacket) (rec : list RecoveredPacket) (l : list ReceivedFecPacket) : Prop :=
  if is_fec rp then kept rec l (rp_seq_num rp) else In (rp_seq_num rp) (seqs rec).

Lemma InsertFecPacket_session d rec rp : frame_packet rp → is_fec rp = true →
  protected_media_ssrc_ d = ssrc → session rec (received_fec_packets_ d) →
  let l := received_fec_packets_ (InsertFecPacket d rec rp) in
  session rec l ∧ (∀ q, kept rec (received_fec_packets_ d) q → kept rec l q) ∧ kept rec l (rp_seq_num rp).
Proof.
  intros [_ Hp] Hf Hd HS. destruct (Hp Hf) as (_ & f & Hparse & Hk & Eq & Hne & Hm).
  pose proof HS as [S1 S2 S3 S4 S5]. pose proof Hk as (Hg & Hrs & HN & Hsel & Hof).
  pose proof Hof as [Ho Hw]. pose proof HN as (N1 & N2 & _).
  unfold InsertFecPacket. pose proof (insert_pos_spec fec_seq_num qbase (rp_seq_num rp) _ S4 (fec_window _ S3)
    ltac:(rewrite <- Eq; split; [done|lia])) as HI.
  destruct (insert_pos _ _ _) as [pos|]; [|by split_and!; [done|done|left]].
  destruct HI as (_ & l1 & l2 & El & -> & H1 & H2). rewrite (Hparse d Hd).
  destruct (protected_packets f) as [|pp pps] eqn:Epp; [done|].
  assert (tracks rec (AssignRecoveredPackets rec f)) as Ht.
  { unfold tracks, AssignRecoveredPackets. cbn [protected_packets set_protected].
    apply (assign_recovered_tracks base); try done; rewrite ?Epp; try done. by apply rec_window. }
  assert (fec_known (AssignRecoveredPackets rec f)) as Hk'.
  { assert (protected_seqs (AssignRecoveredPackets rec f) = protected_seqs f) as E.
    { unfold protected_seqs. cbn [AssignRecoveredPackets protected_packets set_protected].
      eapply linked_seq, assign_recovered_linked; [by apply (fec_good_seqs ssrc orig)|].
      apply (list.Forall_impl _ _ _ (rec_window _ S1)). by intros ? [? _]. }
    unfold fec_known. rewrite E. split; [by apply AssignRecoveredPackets_good|]. split; [done|]. split; [done|]. split; [done|].
    by apply (fec_ordered_seqs base f). }
  set (f' := AssignRecoveredPackets rec f) in *. assert (fec_seq_num f' = rp_seq_num rp) as Eq' by exact Eq.
  clearbody f'. rewrite El. rewrite insert_at_app by done. rewrite El in S3, S4, S5.
  assert (session rec (l1 ++ f' :: l2)) as HS'.
  { apply Forall_app in S3 as [A1 A2], S5 as [B1 B2].
    split; [done|done|apply Forall_app; split; [done|by constructor]| |apply Forall_app; split; [done|by constructor]].
    apply in_order_insert; [done|..]; unfold key in *; by rewrite Eq'. }
  pose proof (fec_short _ (se_fec _ _ HS') (se_fec_order _ _ HS')) as Hlen. rewrite Z.gtb_ltb.
  destruct (Z.ltb_spec max_fec_packets (zlen (l1 ++ f' :: l2))); [lia|].
  cbn [received_fec_packets_ set_fec_packets]. split_and!; [done| |].
  - intros q [Hi|Hi]; [|by right]. left. rewrite map_app, in_app_iff in *. cbn [map In]. tauto.
  - left. rewrite map_app, in_app_iff. right. left. exact Eq'.
Qed.

Lemma InsertMediaPacket_session d rec rp : frame_packet rp → is_fec rp = false →
  session rec (received_fec_packets_ d) →
  let '(d', rec') := InsertMediaPacket d rec rp in
  protected_media_ssrc_ d' = protected_media_ssrc_ d ∧ session rec' (received_fec_packets_ d') ∧
  (∀ s, In s (seqs rec) → In s (seqs rec')) ∧
  (∀ q, kept rec (received_fec_packets_ d) q → kept rec' (received_fec_packets_ d') q) ∧
  In (rp_seq_num rp) (seqs rec').
Proof.
  intros [Hp _] Hf HS. unfold packet_good in Hp. rewrite Hf in Hp. pose proof HS as [S1 S2 _ _ _].
  unfold InsertMediaPacket. set (r := MkRecovered _ _ _ _ _).
  assert (rec_good ssrc orig r) as Hr by exact Hp.
  pose proof (insert_pos_spec r_seq_num base (rp_seq_num rp) rec S2 (rec_window _ S1) (proj1 (rec_near r Hr))) as HI.
  destruct (insert_pos _ _ _) as [pos|] eqn:E; [|by split_and!].
  destruct (insert_recovered rec r pos S1 S2 Hr E) as (G & O & Hin & _).
  set (rec1 := insert_at pos r rec) in *. clearbody rec1.
  destruct (update_session rec rec1 r _ HS Hr G O Hin) as [HS1 Em].
  cbn [received_fec_packets_ set_fec_packets protected_media_ssrc_]. split_and!; [done|done| | |].
  - intros s Hs. apply Hin. by right.
  - intros q [Hq|Hq]; [left; by rewrite Em|right]. intros s Hs. apply Hin. right. by apply Hq.
  - apply Hin. by left.
Qed.

Lemma discard_nothing rp f l : frame_packet rp → Forall fec_known (f :: l) → rp_ssrc rp = fec_ssrc f →
  discard_old_fec (rp_seq_num rp) (f :: l) = f :: l.
Proof.
  intros [Hp Hq] Hl E. inversion Hl as [|? ? (_ & Ef & (N1 & N2 & N3) & _) _]; subst. cbn [discard_old_fec].
  assert (MinDiff 16 0 (rp_seq_num rp) (fec_seq_num f) ≤ kOldSequenceThreshold) as H.
  2: { rewrite Z.gtb_ltb. by destruct (Z.ltb_spec kOldSequenceThreshold (MinDiff 16 0 (rp_seq_num rp) (fec_seq_num f))); [lia|]. }
  destruct (is_fec rp) eqn:Ei.
  - destruct (Hq eq_refl) as (_ & g & _ & (_ & _ & (M1 & M2 & _) & _) & <- & _).
    apply (MinDiff_near qbase); (split; [done|lia]).
  - unfold packet_good in Hp. rewrite Ei in Hp. destruct Hp as (Es & _ & M).
    apply (MinDiff_near base); [|apply N3; congruence]. split; [by apply media_seq_range in M|].
    pose proof (frame_span _ M). lia.
Qed.

Lemma InsertPacket_session d rec rp : frame_packet rp →
  protected_media_ssrc_ d = ssrc → session rec (received_fec_packets_ d) →
  let '(d', rec') := InsertPacket d rec rp in
  protected_media_ssrc_ d' = ssrc ∧ session rec' (received_fec_packets_ d') ∧
  (∀ s, In s (seqs rec) → In s (seqs rec')) ∧
  (∀ q, kept rec (received_fec_packets_ d) q → kept rec' (received_fec_packets_ d') q) ∧
  arrived rp rec' (received_fec_packets_ d').
Proof.
  intros Hp Hd HS. unfold InsertPacket.
  assert (match received_fec_packets_ d with
          | [] => d
          | f :: _ => if rp_ssrc rp =? fec_ssrc f
              then set_fec_packets d (discard_old_fec (rp_seq_num rp) (received_fec_packets_ d)) else d
          end = d) as ->.
  { destruct (received_fec_packets_ d) as [|f l] eqn:E; [done|].
    destruct (Z.eqb_spec (rp_ssrc rp) (fec_ssrc f)); [|done].
    rewrite discard_nothing by (done || apply HS). rewrite <- E. by destruct d. }
  unfold arrived. destruct (is_fec rp) eqn:Ef.
  - destruct (InsertFecPacket_session d rec rp Hp Ef Hd HS) as (A & B & C).
    rewrite DiscardOld_none by (pose proof (rec_short _ (se_rec _ _ HS) (se_rec_order _ _ HS)); lia).
    split_and!; try done. unfold InsertFecPacket. destruct (insert_pos _ _ _); [|done].
    destruct (parse_fec_packet _ _); [|done]. by destruct (protected_packets _).
  - pose proof (InsertMediaPacket_session d rec rp Hp Ef HS) as H.
    destruct (InsertMediaPacket d rec rp) as [d' rec']. destruct H as (A & B & C & D & G).
    rewrite DiscardOld_none by (pose proof (rec_short _ (se_rec _ _ B) (se_rec_order _ _ B)); lia).
    split_and!; try done. congruence.
Qed.

Lemma session_state d rec : protected_media_ssrc_ d = ssrc → session rec (received_fec_packets_ d) →
  state_good ssrc orig d rec.
Proof.
  intros Hd HS. pose proof HS as [S1 S2 S3 S4 _]. pose proof (rec_short _ S1 S2). pose proof (fec_short _ S3 S4).
  split_and!; try done; try lia. apply (list.Forall_impl _ _ _ S3). by intros f [? _].
Qed.

Lemma DecodeFec_session d rec rp : frame_packet rp →
  protected_media_ssrc_ d = ssrc → session rec (received_fec_packets_ d) →
  ∃ d' rec' num, DecodeFec d rec rp = Some (d', rec', num) ∧
    protected_media_ssrc_ d' = ssrc ∧ session rec' (received_fec_packets_ d') ∧
    (∀ s, In s (seqs rec) → In s (seqs rec')) ∧
    (∀ q, kept rec (received_fec_packets_ d) q → kept rec' (received_fec_packets_ d') q) ∧
    arrived rp rec' (received_fec_packets_ d') ∧
    Forall (λ f, NumCoveredPacketsMissing f = 2) (received_fec_packets_ d').
Proof.
  intros Hp Hd HS. assert (0 ≤ max_fec_packets ∧ 0 ≤ max_tracked_media_packets) as Hl by lia.
  destruct (DecodeFec_good ssrc orig Hl d rec rp (proj1 Hp) (session_state _ _ Hd HS))
    as (d' & rec' & num & E & _ & _ & H2). exists d', rec', num. split; [done|].
  unfold DecodeFec in E. destruct (Z.eqb_spec (zlen rec) max_tracked_media_packets) as [El|_].
  { pose proof (rec_short _ (se_rec _ _ HS) (se_rec_order _ _ HS)). lia. }
  pose proof (InsertPacket_session d rec rp Hp Hd HS) as HI. destruct (InsertPacket d rec rp) as [d1 rec1].
  destruct HI as (I1 & I2 & I3 & I4 & I5). unfold AttemptRecovery in E.
  destruct (attempt_loop _ _ _ _ _) as [[[l r] n]|] eqn:EA; [|done]. injection E as <- <- <-.
  apply attempt_loop_session in EA as (A1 & A2 & A3); [|exact I2]. cbn [app] in A3.
  split_and!; try done; cbn [received_fec_packets_ set_fec_packets].
  - auto.
  - auto.
  - unfold arrived in *. destruct (is_fec rp); auto.
Qed.
End frame.

(** * Any sequence of packets *)

(** The caller's loop: every packet received goes to [DecodeFec] with the same list. *)
Fixpoint decode_all {F : FecHeaderFormat} (d : FecDecoder) (rec : list RecoveredPacket)
    (rps : list ReceivedPacket) : option (FecDecoder * list RecoveredPacket) :=
  match rps with
  | [] => Some (d, rec)
  | rp :: rps =>
      match DecodeFec d rec rp with
      | None => None
      | Some (d, rec, _) => decode_all d rec rps
      end
  end.

Lemma decode_all_good {F : FecHeaderFormat} ssrc orig rps d rec :
  0 ≤ max_fec_packets ∧ 0 ≤ max_tracked_media_packets →
  Forall (packet_good ssrc orig) rps → state_good ssrc orig d rec →
  ∃ d' rec', decode_all d rec rps = Some (d', rec') ∧ state_good ssrc orig d' rec'.
Proof.
  intros Hl Hr. revert d rec. induction Hr as [|rp rps Hp Hr IH]; intros d rec HS; [eauto|].
  destruct (DecodeFec_good ssrc orig Hl d rec rp Hp HS) as (d' & rec' & num & E & _ & HS' & _).
  cbn [decode_all]. rewrite E. by apply IH.
Qed.

Section run.
Context {F : FecHeaderFormat} (ssrc : Z) (orig : Z → list Z) (base rs qbase : Z) (sel : Z → list Z).
Context (limits : 48 ≤ max_fec_packets ∧ 48 < max_tracked_media_packets).
Context (frame_span : ∀ s, media_packet ssrc s (orig s) → u16 (s - base) < 48).

(** Every FEC packet received has all packets it protects recovered, or still lacks two. *)
Definition settled (rec : list RecoveredPacket) (q : Z) : Prop :=
  (∀ s, In s (sel q) → In s (seqs rec)) ∨
  ∃ s s', In s (sel q) ∧ In s' (sel q) ∧ s ≠ s' ∧ ¬ In s (seqs rec) ∧ ¬ In s' (seqs rec).

Lemma kept_settled rec l q : session ssrc orig base rs qbase sel rec l →
  Forall (λ f, NumCoveredPacketsMissing f = 2) l → kept sel rec l q → settled rec q.
Proof.
  intros [_ _ S3 _ S5] H2 [Hi|Hs]; [|by left]. right. apply in_map_iff in Hi as (f & <- & Hf).
  apply list_elem_of_In in Hf. rewrite list.Forall_forall in S3, S5, H2.
  destruct (S3 f Hf) as (_ & _ & _ & <- & Ho & _). specialize (S5 f Hf).
  destruct (NumCovered_2 f (H2 f Hf)) as (l1 & p & l2 & p' & l3 & E & Mp & Mp').
  unfold tracks in S5. rewrite list.Forall_forall in S5. unfold protected_seqs. rewrite E in *.
  exists (pp_seq_num p), (pp_seq_num p'). split_and!.
  - apply in_map, list_elem_of_In, elem_of_app. right. by left.
  - apply in_map, list_elem_of_In, elem_of_app. do 2 right. apply elem_of_app. right. by left.
  - unfold in_order in Ho. rewrite map_app in Ho. apply sorted_app in Ho as (_ & Ho & _).
    inversion Ho as [|? ? _ Hlt]; subst. apply (proj1 (List.Forall_map _ _ _)) in Hlt.
    apply Forall_app in Hlt as [_ Hlt]. inversion Hlt as [|? ? Hk _]; subst. unfold key in Hk.
    intros E'. rewrite E' in Hk. lia.
  - apply S5; [|done]. apply elem_of_app. right. by left.
  - apply S5; [|done]. apply elem_of_app. do 2 right. apply elem_of_app. right. by left.
Qed.

Definition arrivals (rps : list ReceivedPacket) (rec : list RecoveredPacket) (l : list ReceivedFecPacket) : Prop :=
  Forall (λ rp, arrived sel rp rec l) rps.

Lemma decode_all_session rps d rec : Forall (frame_packet ssrc orig base rs qbase sel) rps →
  protected_media_ssrc_ d = ssrc → session ssrc orig base rs qbase sel rec (received_fec_packets_ d) →
  Forall (λ f, NumCoveredPacketsMissing f = 2) (received_fec_packets_ d) →
  ∃ d' rec', decode_all d rec rps = Some (d', rec') ∧
    session ssrc orig base rs qbase sel rec' (received_fec_packets_ d') ∧
    (∀ s, In s (seqs rec) → In s (seqs rec')) ∧
    (∀ q, kept sel rec (received_fec_packets_ d) q → kept sel rec' (received_fec_packets_ d') q) ∧
    Forall (λ f, NumCoveredPacketsMissing f = 2) (received_fec_packets_ d') ∧
    arrivals rps rec' (received_fec_packets_ d').
Proof.
  intros Hr. revert d rec. induction Hr as [|rp rps Hp Hr IH]; intros d rec Hd HS H2.
  { exists d, rec. split_and!; try done. constructor. }
  destruct (DecodeFec_session ssrc orig base rs qbase sel limits frame_span d rec rp Hp Hd HS)
    as (d1 & rec1 & num & E & D1 & S1 & R1 & K1 & A1 & N1).
  destruct (IH d1 rec1 D1 S1 N1) as (d' & rec' & E' & HS' & HR & HK & HN & HA).
  exists d', rec'. cbn [decode_all]. rewrite E. split_and!; auto. constructor; [|done].
  unfold arrived in *. destruct (is_fec rp); auto.
Qed.
End run.
