(* ===== verification/FecSystem.v ===== *)
(** Forward error correction as a whole: what the encoder makes, the decoder understands.

    The first part joins encoder, header formats and decoder: every FEC packet of [EncodeFec] is
    parsed by the decoder into the parity of exactly the media packets it protects.  The
    theorems then follow the decoder over any sequence of packets. *)
From stdpp Require Import sorting.
From S2P Require Import Prelude ByteIo SeqNum Rtcp FecTables FecMasks FecPacket FecHeaders FecEncode FecDecode FecRecovery.

Definition kTransportOverhead : Z := 28.

(** * Sorted lists of numbers *)

Lemma sorted_ext (l k : list Z) : StronglySorted Z.lt l → StronglySorted Z.lt k →
  (∀ x, In x l ↔ In x k) → l = k.
Proof.
  intros Hl. revert k. induction Hl as [|x l Hl IH Hx]; intros k Hk E.
  { destruct k as [|y k]; [done|]. exfalso. apply (proj2 (E y)). by left. }
  inversion Hk as [|y k' Hk' Hy]; subst. { exfalso. apply (proj1 (E x)). by left. }
  rewrite list.Forall_forall in Hx, Hy.
  assert (x = y) as <-.
  { destruct (proj1 (E x) ltac:(by left)) as [|Hi]; [done|].
    destruct (proj2 (E y) ltac:(by left)) as [|Hj]; [done|].
    apply list_elem_of_In in Hi, Hj. specialize (Hx y Hj). specialize (Hy x Hi). lia. }
  f_equal. apply IH; [done|]. intros z. split; intros Hz.
  - destruct (proj1 (E z) ltac:(by right)) as [<-|]; [|done].
    apply list_elem_of_In in Hz. specialize (Hx x Hz). lia.
  - destruct (proj2 (E z) ltac:(by right)) as [<-|]; [|done].
    apply list_elem_of_In in Hz. specialize (Hy x Hz). lia.
Qed.

Lemma sorted_map_filter {A} (f : A → Z) (P : A → Prop) {HP : ∀ x, Decision (P x)} l :
  StronglySorted Z.lt (map f l) → StronglySorted Z.lt (map f (filter P l)).
Proof.
  induction l as [|x l IH]; intros H; [constructor|]. cbn [map] in H. inversion H as [|? ? Hs Hx]; subst.
  rewrite filter_cons. destruct (decide (P x)); [|by apply IH]. cbn [map]. constructor; [by apply IH|].
  apply List.Forall_map. apply (proj1 (List.Forall_map f _ _)) in Hx.
  apply list.Forall_forall. intros y Hy.
  apply list_elem_of_filter in Hy as [_ Hy]. rewrite list.Forall_forall in Hx. by apply Hx.
Qed.

Lemma seqZ_sorted a n : StronglySorted Z.lt (seqZ a n).
Proof.
  destruct (Z.ltb_spec n 0); [rewrite seqZ_nil by lia; constructor|].
  revert a. pattern n. apply natlike_ind; [constructor|intros m Hm IH|done]; intros a.
  rewrite seqZ_cons by lia. constructor; [rewrite Z.pred_succ; apply IH|].
  apply list.Forall_forall. intros x Hx. apply elem_of_seqZ in Hx. lia.
Qed.

Lemma ascending_sorted base o ps : ascending_from base o ps →
  StronglySorted Z.lt (o :: map (offset base) ps).
Proof.
  revert o. induction ps as [|p ps IH]; intros o H; [repeat constructor|]. destruct H as [H1 H2].
  specialize (IH _ H2). cbn [map]. constructor; [done|]. inversion IH as [|? ? Hs Hx]; subst.
  constructor; [done|]. apply (list.Forall_impl _ _ _ Hx). lia.
Qed.

(** * The packet mask *)

Lemma flat_map_bytes {A} (g : Z → list A) n : 0 ≤ n →
  flat_map (λ b, flat_map (λ i, g (8 * b + i)) (seqZ 0 8)) (seqZ 0 n) = flat_map g (seqZ 0 (8 * n)).
Proof.
  intros Hn. pattern n. apply natlike_ind; [done|intros m Hm IH|done].
  replace (Z.succ m) with (m + 1) by lia. rewrite (seqZ_app 0 m 1), flat_map_app, IH by lia.
  replace (8 * (m + 1)) with (8 * m + 8) by lia. rewrite (seqZ_app 0 (8 * m) 8), flat_map_app by lia.
  f_equal. rewrite !Z.add_0_l. cbn [flat_map seqZ seq Z.to_nat Pos.to_nat].
  change (seqZ m 1) with [0 + m]. cbn [flat_map]. rewrite app_nil_r, Z.add_0_l.
  assert (seqZ (8 * m) 8 = map (λ i, 8 * m + i) (seqZ 0 8)) as ->.
  { rewrite <- (Z.add_0_r (8 * m)) at 1. symmetry. apply fmap_add_seqZ. }
  rewrite !flat_map_concat_map, map_map. done.
Qed.

(** The mask parsed by the receiver: one protected packet for each column that is set. *)
Lemma parse_mask_columns ssrc s data (bit : Z → bool) : 0 ≤ packet_mask_size s →
  (∀ k, 0 ≤ k < 8 * packet_mask_size s →
     Z.testbit (data.[packet_mask_offset s + k `div` 8]) (7 - k `mod` 8) = bit k) →
  parse_mask ssrc s data =
    map (λ k, MkProtected ssrc (u16 (seq_num_base s + k)) None)
      (filter (λ k, bit k = true) (seqZ 0 (8 * packet_mask_size s))).
Proof.
  intros Hs Hbit. unfold parse_mask.
  pose (g := λ k, if Z.testbit (data.[packet_mask_offset s + k `div` 8]) (7 - k `mod` 8)
    then [MkProtected ssrc (u16 (seq_num_base s + k)) None] else []).
  transitivity (flat_map g (seqZ 0 (8 * packet_mask_size s))).
  - rewrite <- flat_map_bytes by done. rewrite !flat_map_concat_map. f_equal. apply map_ext. intros b.
    rewrite !flat_map_concat_map. f_equal. apply map_ext_in. intros i Hi.
    apply list_elem_of_In, elem_of_seqZ in Hi. rewrite is_set_testbit by lia. subst g. cbv beta.
    replace ((8 * b + i) `div` 8) with b by zdiv. replace ((8 * b + i) `mod` 8) with i by zdiv.
    rewrite shiftl_mul by lia. change (2 ^ 3) with 8.
    replace (seq_num_base s + b * 8 + i) with (seq_num_base s + (8 * b + i)) by lia. done.
  - assert (∀ l, (∀ k, In k l → 0 ≤ k < 8 * packet_mask_size s) → flat_map g l =
      map (λ k, MkProtected ssrc (u16 (seq_num_base s + k)) None) (filter (λ k, bit k = true) l)) as H.
    { induction l as [|k l IH]; intros Hk; [done|]. rewrite filter_cons. cbn [flat_map].
      rewrite IH by (intros; apply Hk; by right). subst g. cbv beta. rewrite Hbit by (apply Hk; by left).
      destruct (bit k) eqn:E.
      - by destruct (decide (true = true)).
      - by destruct (decide (false = true)). }
    apply H. intros k Hk. apply list_elem_of_In, elem_of_seqZ in Hk. lia.
Qed.

(** * From the encoder to the decoder *)

Lemma filter_map_columns mask size bit media : let base := ParseSequenceNumber (front media) in
  ascending media → span media ≤ 8 * zlen mask → zlen mask ≤ size →
  (∀ j, 0 ≤ j < 8 * zlen mask → mask_bit mask 0 0 j = bit j) →
  (∀ j, bit j = true → In j (offsets media)) →
  filter (λ k, mask_bit mask 0 0 k = true) (seqZ 0 (8 * size)) =
    map (offset base) (selected bit base media).
Proof.
  intros base Ha Hs Hl Hbit Hin. apply sorted_ext.
  - rewrite <- (map_id (filter _ _)). apply sorted_map_filter. rewrite map_id. apply seqZ_sorted.
  - apply sorted_map_filter. destruct media as [|p0 ps]; [done|]. cbn [ascending front hd] in *.
    cbn [map]. assert (offset base p0 = 0) as -> by (unfold offset, base; by rewrite Z.sub_diag).
    by apply ascending_sorted.
  - intros x. rewrite <- list_elem_of_In, list_elem_of_filter, elem_of_seqZ, in_map_iff. split.
    + intros [Hx Hr]. assert (x < 8 * zlen mask) as Hxl.
      { destruct (Z.ltb_spec x (8 * zlen mask)); [done|]. rewrite mask_bit_row in Hx.
        rewrite rd_beyond, Z.bits_0 in Hx by zdiv. done. }
      rewrite Hbit in Hx by lia. specialize (Hin x Hx). unfold offsets in Hin. fold base in Hin.
      apply in_map_iff in Hin as (p & <- & Hp). exists p. split; [done|].
      apply list_elem_of_In, list_elem_of_filter. split; [done|]. by apply list_elem_of_In.
    + intros (p & <- & Hp). apply list_elem_of_In, list_elem_of_filter in Hp as [Hb Hp].
      apply list_elem_of_In in Hp. pose proof (offsets_below media p Ha Hp) as Ho. fold base in Ho.
      split; [|lia]. rewrite Hbit by lia. exact Hb.
Qed.

(** A media packet that fits together with all headers. *)
Definition sendable {F : FecHeaderFormat} (ssrc : Z) (p : list Z) : Prop :=
  media_packet ssrc (ParseSequenceNumber p) p ∧
  zlen p + max_packet_overhead + kTransportOverhead ≤ IP_PACKET_SIZE.

(** The parity of the packets that [l] names is the parity of [ps]. *)
Lemma parity_protected ssrc orig (f : list Z → Z) ps :
  (∀ p, In p ps → orig (ParseSequenceNumber p) = p) →
  parity (λ pp, f (orig (pp_seq_num pp))) (map (λ p, MkProtected ssrc (ParseSequenceNumber p) None) ps) =
  parity f ps.
Proof.
  intros H. rewrite parity_map. cbn [pp_seq_num]. apply parity_ext. apply list.Forall_forall.
  intros p Hp. by rewrite H by (by apply list_elem_of_In).
Qed.

Lemma header_read_good {F : FecHeaderFormat} (c : bool) `{!FecHeaderOk F c}
    ssrc orig mask base raw rs q f ps :
  mask_ok mask → header_read (MkWriterStream ssrc base mask) (header_size mask) raw rs q f →
  is_parity (header_size mask) ps raw → ps ≠ [] → Forall (sendable ssrc) ps →
  (∀ p, In p ps → orig (ParseSequenceNumber p) = p) →
  fec_good ssrc orig
    (set_protected f (map (λ p, MkProtected ssrc (ParseSequenceNumber p) None) ps)).
Proof.
  intros Hm [_ Hsz Hpl Hlen Hb _ H0 Hh Hp] [Pb Pl Ph Pp] Hne Hs Ho.
  destruct (header_size_range (F := F) (carries_ssrc := c) mask Hm) as [[HH1 HH2] HH3].
  fold (header_size mask) in HH1, HH2. set (hs := header_size mask) in *.
  assert (zlen raw = hs + max_payload ps) as Er by (by destruct ps).
  destruct (max_payload_ge ps) as [Hmp0 Hmp].
  assert (max_payload ps ≤ IP_PACKET_SIZE - kTransportOverhead - max_packet_overhead - kRtpHeaderSize) as Hmax.
  { unfold kTransportOverhead, IP_PACKET_SIZE, kRtpHeaderSize in *. apply max_payload_le; [lia|].
    apply (list.Forall_impl _ _ _ Hs). intros p [_ Hp']. unfold kTransportOverhead, IP_PACKET_SIZE,
      kRtpHeaderSize in *. lia. }
  unfold kTransportOverhead, IP_PACKET_SIZE, kRtpHeaderSize in *. split.
  - split; cbn [fec_pkt fec_header_size protection_length protected_packets set_protected];
      unfold IP_PACKET_SIZE, kRtpHeaderSize; rewrite ?Hsz, ?Hpl; try done; try lia.
    + apply List.Forall_map. cbn [pp_seq_num]. rewrite Er. replace (hs + max_payload ps - hs) with (max_payload ps) by lia.
      apply list.Forall_forall. intros p Hpp. rewrite Ho by (by apply list_elem_of_In).
      rewrite list.Forall_forall in Hmp. by apply Hmp.
    + rewrite H0, (parity_protected ssrc orig (λ p, p.[0])) by done. rewrite Ph by lia. done.
    + intros k Hk. rewrite Hh by lia. rewrite (parity_protected ssrc orig (λ p, recovery_head p k)) by done.
      apply Ph. lia.
    + intros i Hi. rewrite Hp by lia. rewrite (parity_protected ssrc orig (λ p, p.[12 + i])) by done.
      apply Pp. lia.
  - unfold protects. cbn [protected_packets set_protected]. apply List.Forall_map. cbn [pp_seq_num pp_ssrc pp_pkt].
    apply list.Forall_forall. intros p Hpp. rewrite Ho by (by apply list_elem_of_In).
    rewrite list.Forall_forall in Hs. split; [by apply Hs|]. split; [done|]. by left.
Qed.

(** An FEC packet of the encoder at the decoder. *)
Lemma encoded_parsed {F : FecHeaderFormat} (c : bool) `{!FecHeaderOk F c}
    ssrc orig media fecs bit i data rs q :
  let base := ParseSequenceNumber (front media) in
  encoded ssrc media fecs bit → ascending media → Forall (sendable ssrc) media →
  (∀ p, In p media → orig (ParseSequenceNumber p) = p) →
  fecs !! i = Some data → (c = false → rs = ssrc) →
  ∃ f, (∀ d, protected_media_ssrc_ d = ssrc → parse_fec_packet d (MkReceived rs q true data) = Some f) ∧
    fec_good ssrc orig f ∧ fec_ssrc f = rs ∧ fec_seq_num f = q ∧ protected_packets f =
      map (λ p, MkProtected ssrc (ParseSequenceNumber p) None) (selected (bit (Z.of_nat i)) base media).
Proof.
  intros base [Hpk Hcol Hne _] Ha Hs Ho Hi Hrs.
  destruct (Hpk i data Hi) as (mask & raw & -> & Hm & Hspan & Hbit & Hpar).
  specialize (Hcol (Z.of_nat i)). specialize (Hne i ltac:(by apply lookup_lt_Some in Hi)).
  fold base in Hpar, Hne |- *. set (b := bit (Z.of_nat i)) in *. set (ps := selected b base media) in *.
  assert (ps ≠ []) as Hps.
  { destruct Hne as (p & Hp & Hb). intros E. assert (p ∈ ps) as Hpp; [|by rewrite E in Hpp; inversion Hpp].
    apply list_elem_of_filter. split; [done|by apply list_elem_of_In]. }
  assert (∀ p, In p ps → In p media) as Hsub.
  { intros p Hp. apply list_elem_of_In in Hp. apply list_elem_of_filter in Hp as [_ Hp].
    by apply list_elem_of_In. }
  assert (Forall (sendable ssrc) ps) as Hss.
  { apply list.Forall_forall. intros p Hp. rewrite list.Forall_forall in Hs. apply Hs.
    by apply list_elem_of_In, Hsub, list_elem_of_In. }
  assert (zlen raw = header_size mask + max_payload ps) as Lr
    by (pose proof (par_length _ _ _ Hpar) as E; by destruct ps).
  pose proof (proj1 (max_payload_ge ps)) as Hmp0.
  assert (max_payload ps ≤ 65535) as Hmp.
  { apply max_payload_le; [lia|]. apply (list.Forall_impl _ _ _ Hss).
    intros p [[_ Hz _ _ _] _]. unfold IP_PACKET_SIZE, kRtpHeaderSize in *. lia. }
  assert (uint32 ssrc ∧ uint16 base) as [U32 U16].
  { split.
    - destruct media as [|p0 pss]; [done|]. inversion Hs as [|? ? [[_ _ _ _ <-] _] _]; subst. apply u32_range.
    - apply u16_range. }
  destruct (header_roundtrip (F := F) (carries_ssrc := c) (MkWriterStream ssrc base mask) raw rs q
    Hm (par_bytes _ _ _ Hpar) U32 U16 Hrs) as (_ & _ & f & Hf & HR).
  { cbn. fold (header_size mask). lia. } { cbn. fold (header_size mask). lia. }
  cbn [ws_packet_mask] in HR. fold (header_size mask) in HR.
  pose proof (header_read_good c ssrc orig mask base raw rs q f ps Hm HR Hpar Hps Hss
    (λ p Hp, Ho p (Hsub p Hp))) as HG.
  destruct HR as [(I1 & I2 & I3) _ _ Hlen _ (off & size & Est & Hoff & Hroom & Hsize & Hbits) _ _ _].
  cbn [ws_ssrc ws_seq_num_base ws_packet_mask] in *.
  eexists. split; [|split; [exact HG|done]].
  intros d Hd. unfold parse_fec_packet. cbn [rp_ssrc rp_seq_num rp_pkt]. rewrite Hf, Est. cbn [negb ps_ssrc].
  rewrite Hd, Z.eqb_refl. cbn [negb packet_mask_offset packet_mask_size]. rewrite Hlen, Z.gtb_ltb.
  destruct (Z.ltb_spec (zlen raw) (off + size)); [lia|]. do 2 f_equal.
  rewrite (parse_mask_columns ssrc _ _ (mask_bit mask 0 0)) by (cbn; try lia; exact Hbits).
  cbn [packet_mask_size seq_num_base]. unfold ps.
  rewrite (filter_map_columns mask size b media) by (try done; lia). fold base. rewrite map_map.
  apply map_ext. intros p. f_equal. unfold offset, u16.
  pose proof (ParseSequenceNumber_range p). unfold uint16 in U16. zdiv.
Qed.

(** * Sender and receiver *)

(** The two header formats the library has. *)
Definition format (flexfec : bool) : FecHeaderFormat :=
  if flexfec then Flexfec03Format else UlpfecFormat.

#[export] Instance format_ok flexfec : FecHeaderOk (format flexfec) flexfec.
Proof. destruct flexfec; [apply Flexfec03_ok|apply Ulpfec_ok]. Qed.

Definition new_decoder (flexfec : bool) (fec_ssrc ssrc : Z) : FecDecoder :=
  if flexfec then CreateFlexfec fec_ssrc ssrc else CreateUlpfec ssrc.

(** A frame that was encoded: its media packets and its FEC packets. *)
Definition frame_sent (flexfec : bool) (ssrc : Z) (uep : bool) (media fecs : list (list Z)) : Prop :=
  let F := format flexfec in
  Forall (sendable ssrc) media ∧ ∃ mem e pf imp ty e', encode_args ssrc mem e media pf imp ∧
    EncodeFec mem e media pf imp uep ty = (e', 0, fecs).

(** A packet of the frame as the receiver gets it: without a header that names the protected
    stream the FEC packets belong to that stream. *)
Definition received_from (flexfec : bool) (ssrc : Z) (media fecs : list (list Z))
    (rp : ReceivedPacket) : Prop :=
  if is_fec rp then In (rp_pkt rp) fecs ∧ (flexfec = false → rp_ssrc rp = ssrc)
  else In (rp_pkt rp) media ∧ rp_ssrc rp = ssrc ∧ rp_seq_num rp = ParseSequenceNumber (rp_pkt rp).

Lemma frame_encoded flexfec ssrc uep media fecs : frame_sent flexfec ssrc uep media fecs →
  let F := format flexfec in
  ascending media ∧ span media ≤ 48 ∧ 1 ≤ zlen fecs ≤ 48 ∧
  ∃ bit, encoded ssrc media fecs bit ∧
    (12 < zlen media → uep = false → interleaved media bit (zlen fecs)).
Proof.
  intros (_ & mem & e & pf & imp & ty & e' & Ha & E) F. pose proof Ha as [_ _ _ Hasc Hn Hpf _].
  split; [done|]. destruct (Z.leb_spec (span media) 48) as [Hs|Hs].
  2: { destruct (EncodeFec_gap flexfec ssrc mem e media pf imp uep ty Ha Hs) as [e2 E2]. congruence. }
  split; [done|]. destruct (EncodeFec_encoded flexfec ssrc mem e media pf imp uep ty Ha Hs)
    as (e2 & fecs2 & bit & E2 & Hl & Henc & Hi). assert (fecs2 = fecs) as -> by congruence.
  unfold kUlpfecMaxMediaPackets in Hn.
  assert (1 ≤ zlen media) by (destruct media; [done|cbn [length]; lia]).
  pose proof (NumFecPackets_range (zlen media) pf ltac:(lia) Hpf). split; [lia|by exists bit].
Qed.

(** ** The packet of a sequence number *)

Definition packet_of (media : list (list Z)) (s : Z) : list Z :=
  default [] (List.find (λ p, ParseSequenceNumber p =? s) media).

Lemma packet_of_in media p : NoDup (map ParseSequenceNumber media) → In p media →
  packet_of media (ParseSequenceNumber p) = p.
Proof.
  unfold packet_of. induction media as [|x media IH]; [done|]. intros Hnd Hp. cbn [map] in Hnd.
  apply list.NoDup_cons in Hnd as [Hx Hnd]. cbn [List.find].
  destruct (Z.eqb_spec (ParseSequenceNumber x) (ParseSequenceNumber p)) as [E|E].
  - destruct Hp as [<-|Hp]; [done|]. exfalso. apply Hx. rewrite E. by apply list_elem_of_In, in_map.
  - destruct Hp as [<-|Hp]; [done|]. by apply IH.
Qed.

Lemma packet_of_media ssrc media s : media_packet ssrc s (packet_of media s) → In (packet_of media s) media.
Proof.
  intros [_ Hl _ _ _]. unfold packet_of in *. destruct (List.find _ media) as [p|] eqn:E.
  - by apply find_some in E as [? _].
  - cbn in Hl. unfold kRtpHeaderSize in Hl. lia.
Qed.

Lemma sorted_NoDup (l : list Z) : StronglySorted Z.lt l → NoDup l.
Proof.
  induction 1 as [|x l Hs IH Hx]; [constructor|]. constructor; [|done]. intros Hi.
  rewrite list.Forall_forall in Hx. specialize (Hx x Hi). lia.
Qed.

Lemma media_sorted media : ascending media → StronglySorted Z.lt (offsets media).
Proof.
  unfold offsets. destruct media as [|p0 ps]; [done|]. intros Ha. cbn [front hd map].
  set (base := ParseSequenceNumber p0).
  assert (offset base p0 = 0) as -> by (unfold offset, base; by rewrite Z.sub_diag).
  by apply ascending_sorted.
Qed.

Lemma ascending_NoDup media : ascending media → NoDup (map ParseSequenceNumber media).
Proof.
  intros Ha. apply media_sorted, sorted_NoDup in Ha. unfold offsets, offset in Ha.
  rewrite <- (map_map ParseSequenceNumber (λ s, u16 (s - ParseSequenceNumber (front media)))) in Ha.
  by apply NoDup_fmap_1 in Ha.
Qed.

(** ** No wrong packet *)

Lemma received_good flexfec ssrc uep media fecs orig rp : let F := format flexfec in
  frame_sent flexfec ssrc uep media fecs → received_from flexfec ssrc media fecs rp →
  (∀ p, In p media → orig (ParseSequenceNumber p) = p) → packet_good ssrc orig rp.
Proof.
  intros F Hsent Hr Ho. destruct (frame_encoded _ _ _ _ _ Hsent) as (Ha & _ & _ & bit & He & _).
  destruct Hsent as [Hs _]. unfold received_from, packet_good in *. destruct (is_fec rp) eqn:Ef.
  - destruct Hr as [Hi Hrs]. apply list_elem_of_In, list_elem_of_lookup in Hi as [i Hi].
    destruct (encoded_parsed flexfec ssrc orig media fecs bit i _ (rp_ssrc rp) (rp_seq_num rp) He Ha Hs Ho Hi Hrs)
      as (f & Hf & Hg & _). intros d f' Hd E. destruct rp as [a b c dd]. cbn in *. subst c.
    rewrite Hf in E by done. by injection E as <-.
  - destruct Hr as (Hi & E1 & E2). rewrite E2, Ho by done. split; [done|]. split; [done|].
    rewrite list.Forall_forall in Hs. by apply Hs, list_elem_of_In.
Qed.

(** ** No packet missing *)

(** FEC packets with consecutive sequence numbers from [q0] on in the stream [rs]. *)
Definition numbered (rs q0 : Z) (fecs : list (list Z)) (rp : ReceivedPacket) : Prop :=
  is_fec rp = true → rp_ssrc rp = rs ∧
    ∃ i, fecs !! i = Some (rp_pkt rp) ∧ rp_seq_num rp = u16 (q0 + Z.of_nat i).

(** The packets in the list of recovered packets. *)
Definition packets (rec : list RecoveredPacket) : list (list Z) := map r_pkt rec.

Section one_frame.
Context (flexfec : bool) (ssrc : Z) (uep : bool) (media fecs : list (list Z)) (rs q0 : Z).
Context (sent : frame_sent flexfec ssrc uep media fecs).
Context (fec_stream : flexfec = false → rs = ssrc).
Context (fec_near : rs = ssrc → u16 (q0 - ParseSequenceNumber (front media)) < 4096).
#[local] Instance frame_format : FecHeaderFormat := format flexfec.

Let base := ParseSequenceNumber (front media).
Let orig := packet_of media.

Context (bit : Z → Z → bool) (enc : encoded ssrc media fecs bit).

Let sel (q : Z) : list Z := map ParseSequenceNumber (selected (bit (u16 (q - q0))) base media).

Lemma frame_orig p : In p media → orig (ParseSequenceNumber p) = p.
Proof.
  intros Hp. apply packet_of_in; [|done]. apply ascending_NoDup. apply (frame_encoded _ _ _ _ _ sent).
Qed.

Lemma frame_offset p : In p media → 0 ≤ offset base p < 48.
Proof.
  intros Hp. destruct (frame_encoded _ _ _ _ _ sent) as (Ha & Hs & _).
  pose proof (offsets_below media p Ha Hp) as H. fold base in H. lia.
Qed.

Lemma frame_span s : media_packet ssrc s (orig s) → u16 (s - base) < 48.
Proof.
  intros M. pose proof (packet_of_media _ _ _ M) as Hi. pose proof (media_seq _ _ _ M) as E.
  pose proof (frame_offset _ Hi) as Ho. unfold offset in Ho. fold (orig s) in Ho. rewrite E in Ho. lia.
Qed.

Lemma selected_media b p : In p (selected b base media) ↔ In p media ∧ b (offset base p) = true.
Proof. unfold selected. rewrite <- !list_elem_of_In, list_elem_of_filter. tauto. Qed.

Lemma frame_received rp : received_from flexfec ssrc media fecs rp → numbered rs q0 fecs rp →
  frame_packet ssrc orig base rs q0 sel rp.
Proof.
  intros Hr Hn. split; [exact (received_good flexfec ssrc uep media fecs orig rp sent Hr frame_orig)|].
  intros Hf. destruct (Hn Hf) as (Ers & i & Hi & Eq). split; [done|].
  destruct (frame_encoded _ _ _ _ _ sent) as (Ha & Hsp & Hl & _).
  destruct (encoded_parsed flexfec ssrc orig media fecs bit i (rp_pkt rp) rs (rp_seq_num rp)
    enc Ha (proj1 sent) frame_orig Hi fec_stream) as (f & Hp & Hg & E1 & E2 & E3). fold base in E3.
  assert (u16 (rp_seq_num rp - q0) = Z.of_nat i) as Ei.
  { pose proof (lookup_lt_Some _ _ _ Hi). rewrite Eq. unfold u16. zdiv. }
  set (ps := selected (bit (Z.of_nat i)) base media) in *.
  assert (∀ p, In p ps → In p media) as Hsub by (intros p H; apply selected_media in H; tauto).
  exists f. split; [|split; [|split; [done|split]]].
  - intros d Hd. destruct rp as [a b c dd]. cbn in *. subst. by apply Hp.
  - split; [done|]. split; [done|]. split; [|split; [|split]].
    + rewrite E2. split; [rewrite Eq; apply u16_range|].
      pose proof (lookup_lt_Some _ _ _ Hi). split; [lia|]. intros Es. specialize (fec_near Es).
      fold base in fec_near. rewrite Eq. split; [apply u16_range|]. unfold u16 in *. zdiv.
    + unfold protected_seqs, sel. rewrite E3, map_map, E2, Ei. done.
    + unfold in_order, key. rewrite E3, map_map. cbn [pp_seq_num].
      apply (sorted_map_filter (offset base)). by apply media_sorted.
    + unfold window. rewrite E3. apply List.Forall_map. cbn [pp_seq_num]. apply list.Forall_forall.
      intros p Hpp. apply list_elem_of_In, Hsub, frame_offset in Hpp. unfold offset in Hpp.
      split; [apply u16_range|lia].
  - rewrite E3. destruct (ed_nonempty _ _ _ _ enc i ltac:(by apply lookup_lt_Some in Hi)) as (p & Hpm & Hb).
    intros E. apply map_eq_nil in E. assert (In p ps) as Hpp by (by apply selected_media).
    by rewrite E in Hpp.
  - rewrite E3. apply List.Forall_map. apply list.Forall_forall. done.
Qed.

(** The list of recovered packets is a part of the frame, in order. *)
Lemma frame_sublist rec : Forall (rec_good ssrc orig) rec → in_order r_seq_num base rec →
  packets rec = filter (λ p, p ∈ packets rec) media.
Proof.
  intros Hg Ho. destruct (frame_encoded _ _ _ _ _ sent) as (Ha & _).
  assert (∀ r, r ∈ rec → In (r_pkt r) media ∧ ParseSequenceNumber (r_pkt r) = r_seq_num r) as Hr.
  { intros r Hr. rewrite list.Forall_forall in Hg. destruct (Hg r Hr) as (_ & E & M). rewrite E.
    split; [by apply (packet_of_media ssrc)|by apply M]. }
  assert (map (offset base) (packets rec) = map (offset base) (filter (λ p, p ∈ packets rec) media)) as E.
  { apply sorted_ext.
    - unfold in_order, key, packets, offset in *. rewrite map_map.
      erewrite map_ext_in; [exact Ho|]. intros r Hi. cbv beta.
      by rewrite (proj2 (Hr r (proj2 (list_elem_of_In _ _) Hi))).
    - apply sorted_map_filter. by apply media_sorted.
    - intros x. rewrite !in_map_iff. split; intros (p & <- & Hp); exists p; (split; [done|]).
      + apply list_elem_of_In, list_elem_of_filter. split; [by apply list_elem_of_In|].
        unfold packets in Hp. apply in_map_iff in Hp as (r & <- & Hi). apply list_elem_of_In.
        by apply Hr, list_elem_of_In.
      + apply list_elem_of_In, list_elem_of_filter in Hp as [Hp _]. by apply list_elem_of_In. }
  assert (∀ l, (∀ p, In p l → In p media) → map (λ o, orig (u16 (base + o))) (map (offset base) l) = l) as Hback.
  { intros l Hl. rewrite map_map. rewrite <- (map_id l) at 2. apply map_ext_in. intros p Hp.
    replace (u16 (base + offset base p)) with (ParseSequenceNumber p); [by apply frame_orig, Hl|].
    unfold offset. pose proof (ParseSequenceNumber_range p). unfold u16. zdiv. }
  transitivity (map (λ o, orig (u16 (base + o))) (map (offset base) (packets rec))).
  - symmetry. apply Hback. intros p Hp. apply in_map_iff in Hp as (r & <- & Hi). by apply Hr, list_elem_of_In.
  - rewrite E. apply Hback. intros p Hp. apply list_elem_of_In, list_elem_of_filter in Hp as [_ Hp].
    by apply list_elem_of_In.
Qed.

Lemma packets_seqs rec p : Forall (rec_good ssrc orig) rec → In p media →
  In (ParseSequenceNumber p) (seqs rec) ↔ In p (packets rec).
Proof.
  intros Hg Hp. rewrite list.Forall_forall in Hg. unfold seqs, packets. rewrite !in_map_iff.
  split; intros (r & E & Hi); exists r; (split; [|done]);
    destruct (Hg r (proj2 (list_elem_of_In _ _) Hi)) as (_ & Er & M).
  - rewrite Er, E. by apply frame_orig.
  - rewrite <- E, Er. symmetry. by apply M.
Qed.

Lemma frame_run rps fec_ssrc : Forall (received_from flexfec ssrc media fecs) rps →
  Forall (numbered rs q0 fecs) rps →
  ∃ d rec, decode_all (new_decoder flexfec fec_ssrc ssrc) [] rps = Some (d, rec) ∧
    Forall (rec_good ssrc orig) rec ∧ packets rec = filter (λ p, p ∈ packets rec) media ∧
    (∀ rp, In rp rps → is_fec rp = false → In (rp_pkt rp) (packets rec)) ∧
    (∀ rp i p, In rp rps → is_fec rp = true → rp_seq_num rp = u16 (q0 + Z.of_nat i) → (i < length fecs)%nat →
       In p (selected (bit (Z.of_nat i)) base media) →
       (∀ p', In p' (selected (bit (Z.of_nat i)) base media) → p' ≠ p → In p' (packets rec)) →
       In p (packets rec)).
Proof.
  intros Hr Hn. destruct (header_limits (F := format flexfec) (carries_ssrc := flexfec)) as (_ & L2 & L3).
  assert (48 ≤ max_fec_packets ∧ 48 < max_tracked_media_packets) as HL by (unfold frame_format; rewrite L2, L3; lia).
  set (d0 := new_decoder flexfec fec_ssrc ssrc).
  assert (received_fec_packets_ d0 = [] ∧ protected_media_ssrc_ d0 = ssrc) as [E0 D0]
    by (subst d0; by destruct flexfec).
  destruct (decode_all_session ssrc orig base rs q0 sel HL frame_span rps d0 []) as
    (d & rec & E & HS & _ & _ & H2 & HA).
  - apply list.Forall_forall. intros rp Hi. rewrite list.Forall_forall in Hr, Hn. apply frame_received; auto.
  - done.
  - rewrite E0. split; constructor.
  - rewrite E0. constructor.
  - exists d, rec. split; [done|]. pose proof (se_rec _ _ _ _ _ _ _ _ HS) as Hg.
    split; [done|]. split; [apply frame_sublist; [done|apply HS]|].
    unfold arrivals in HA. rewrite list.Forall_forall in HA, Hr. unfold arrived in HA. split.
    + intros rp Hi Hf. apply list_elem_of_In in Hi. specialize (HA rp Hi). specialize (Hr rp Hi).
      unfold received_from in Hr. rewrite Hf in HA, Hr. destruct Hr as (Hm & _ & Es).
      rewrite Es in HA. by apply packets_seqs.
    + intros rp i p Hi Hf Eq Hlt Hp Hoth. apply list_elem_of_In in Hi. specialize (HA rp Hi).
      rewrite Hf in HA. destruct (frame_encoded _ _ _ _ _ sent) as (_ & _ & Hl & _).
      assert (u16 (rp_seq_num rp - q0) = Z.of_nat i) as Ei by (rewrite Eq; unfold u16; zdiv).
      apply (kept_settled ssrc orig base rs q0 sel rec _ _ HS H2) in HA. unfold settled, sel in HA. rewrite Ei in HA.
      assert (∀ x, In x (selected (bit (Z.of_nat i)) base media) → In x media) as Hsub
        by (intros x H; apply selected_media in H; tauto).
      destruct HA as [HA|(s & s' & Hs & Hs' & Hne & N & N')].
      * apply packets_seqs; [done|by apply Hsub|]. apply HA. by apply in_map.
      * apply in_map_iff in Hs as (x & <- & Hx), Hs' as (y & <- & Hy).
        rewrite packets_seqs in N, N' by auto. destruct (decide (x = p)) as [->|Hxp].
        -- exfalso. apply N', Hoth; [done|]. intros ->. done.
        -- exfalso. by apply N, Hoth.
Qed.
End one_frame.

Lemma filter_all {A} (P : A → Prop) `{!∀ x, Decision (P x)} (l : list A) : Forall P l → filter P l = l.
Proof.
  induction 1 as [|x l Hx Hl IH]; [done|]. rewrite filter_cons. destruct (decide (P x)); [by rewrite IH|done].
Qed.

(** * Claims *)

(** C20: the headers of both formats round trip.  The writer puts the protected stream, the base
    sequence number and the packet mask into the header without touching the parity behind it,
    and the reader gives them back: the same stream, base and columns of the mask, the length of
    the parity, and the fields of the recovered RTP header (all of the first 8 bytes but the two
    version bits) where [XorHeaders] put them. *)
Theorem fec_header_roundtrip (flexfec : bool) s data ssrc seq : let F := format flexfec in
  mask_ok (ws_packet_mask s) → is_bytes data → uint32 (ws_ssrc s) → uint16 (ws_seq_num_base s) →
  (flexfec = false → ssrc = ws_ssrc s) →
  let hs := header_size (ws_packet_mask s) in
  hs ≤ zlen data → zlen data - hs ≤ 65535 →
  14 ≤ hs ≤ max_packet_overhead ∧
  length (FinalizeFecHeader s data) = length data ∧ is_bytes (FinalizeFecHeader s data) ∧
  ∃ f, ReadFecHeader (NewReceivedFec ssrc seq (FinalizeFecHeader s data)) = (f, true) ∧
    header_read s hs data ssrc seq f.
Proof.
  intros F Hm Hb Hs Hq Hss hs Hl Hl2.
  split; [by apply (header_size_range (F := F) (carries_ssrc := flexfec))|].
  by apply (header_roundtrip (F := F) (carries_ssrc := flexfec)).
Qed.

(** C14: [EncodeFec] on every branch.  More than 48 media packets, or a packet without room for an
    RTP header: -1, and the encoder as it was.  Protection factor 0: no FEC packets, and 0.
    Media packets that spread over more than 48 sequence numbers: -1 and no FEC packets.
    Otherwise as many FEC packets as the protection factor asks for, each the parity of the
    media packets in its mask with a header for that mask, each media packet in some mask; with
    equal protection of more than 12 packets the masks interleave.  The encoder can be used
    again in all cases. *)
Theorem EncodeFec_contract (flexfec : bool) ssrc mem e media pf imp uep ty : let F := format flexfec in
  let r := EncodeFec mem e media pf imp uep ty in
  (kUlpfecMaxMediaPackets < zlen media → r = (e, -1, [])) ∧
  (zlen media ≤ kUlpfecMaxMediaPackets → Exists (λ p, zlen p < kRtpHeaderSize) media → r = (e, -1, [])) ∧
  (zlen media ≤ kUlpfecMaxMediaPackets → Forall (λ p, kRtpHeaderSize ≤ zlen p) media → pf = 0 →
     r = (e, 0, [])) ∧
  (encode_args ssrc mem e media pf imp →
     encoder_ok r.1.1 ∧
     (kUlpfecMaxMediaPackets < span media → r.1.2 = -1 ∧ r.2 = []) ∧
     (span media ≤ kUlpfecMaxMediaPackets →
        r.1.2 = 0 ∧ zlen r.2 = NumFecPackets (zlen media) pf ∧ 1 ≤ zlen r.2 ≤ zlen media ∧
        ∃ bit, encoded ssrc media r.2 bit ∧
          (12 < zlen media → uep = false → interleaved media bit (zlen r.2)))).
Proof.
  intros F r. destruct (header_limits (F := F) (carries_ssrc := flexfec)) as (L1 & _ & _).
  unfold kUlpfecMaxMediaPackets. split_and!.
  - intros Hn. subst r. unfold EncodeFec. rewrite L1, Z.gtb_ltb. by destruct (Z.ltb_spec 48 (zlen media)); [|lia].
  - intros Hn Hx. subst r. unfold EncodeFec. rewrite L1, Z.gtb_ltb. destruct (Z.ltb_spec 48 (zlen media)); [lia|].
    assert (existsb (λ p, zlen p <? kRtpHeaderSize) media = true) as ->; [|done].
    apply existsb_exists. apply list.Exists_exists in Hx as (p & Hp & Hl). exists p.
    split; [by apply list_elem_of_In|lia].
  - intros Hn Hx ->. subst r. unfold EncodeFec. rewrite L1, Z.gtb_ltb. destruct (Z.ltb_spec 48 (zlen media)); [lia|].
    rewrite headers_fit by done. unfold NumFecPackets. by rewrite Z.mul_0_r.
  - intros Ha. pose proof (EncodeFec_encoder_ok flexfec ssrc mem e media pf imp uep ty Ha) as Hok.
    split; [exact Hok|]. split.
    + intros Hs. destruct (EncodeFec_gap flexfec ssrc mem e media pf imp uep ty Ha Hs) as [e' E].
      subst r F. by rewrite E.
    + intros Hs. destruct (EncodeFec_encoded flexfec ssrc mem e media pf imp uep ty Ha Hs)
        as (e' & fecs & bit & E & Hl & He & Hi). subst r F. rewrite E. cbn [fst snd].
      destruct (EncodeFec_masks flexfec ssrc mem e media pf imp uep ty Ha) as [Hm _].
      split; [done|]. split; [done|]. split; [lia|by exists bit].
Qed.

(** C1: the decoder never yields a wrong packet.  The sender encodes any number of frames, with
    media packets whose sequence numbers are all different; the receiver gets any of their media
    and FEC packets, in any order, some not at all, some more than once, and gives each to
    [DecodeFec].  Then all calls return, and each packet in the list of recovered packets, be
    it received or recovered, is byte for byte a media packet that was sent, under its own
    sequence number and SSRC; at most 48 FEC packets and 192 media packets are kept. *)
Theorem fec_decoder_sound (flexfec : bool) ssrc fec_ssrc (frames : list (list (list Z) * list (list Z)))
    (rps : list ReceivedPacket) : let F := format flexfec in
  (∀ media fecs, In (media, fecs) frames → ∃ uep, frame_sent flexfec ssrc uep media fecs) →
  NoDup (map ParseSequenceNumber (flat_map fst frames)) →
  (∀ rp, In rp rps → ∃ media fecs, In (media, fecs) frames ∧ received_from flexfec ssrc media fecs rp) →
  ∃ d rec, decode_all (new_decoder flexfec fec_ssrc ssrc) [] rps = Some (d, rec) ∧
    (∀ r, In r rec → In (r_pkt r) (flat_map fst frames) ∧ r_ssrc r = ssrc ∧
       ParseSequenceNumber (r_pkt r) = r_seq_num r) ∧
    zlen (received_fec_packets_ d) ≤ 48 ∧ zlen rec ≤ 192.
Proof.
  intros F Hf Hnd Hr. set (all := flat_map fst frames) in *. set (orig := packet_of all).
  destruct (header_limits (F := F) (carries_ssrc := flexfec)) as (_ & L2 & L3).
  destruct (decode_all_good ssrc orig rps (new_decoder flexfec fec_ssrc ssrc) []) as (d & rec & E & HS).
  - rewrite L2, L3. lia.
  - apply list.Forall_forall. intros rp Hrp. destruct (Hr rp ltac:(by apply list_elem_of_In)) as (media & fecs & Hi & Hm).
    destruct (Hf media fecs Hi) as [uep Hs]. apply (received_good flexfec ssrc uep media fecs); [done|done|].
    intros p Hp. apply packet_of_in; [done|]. apply in_flat_map. by exists (media, fecs).
  - unfold state_good. rewrite L2, L3. destruct flexfec; (split_and!; [done|constructor..|cbn; lia|cbn; lia]).
  - exists d, rec. split; [done|]. destruct HS as (_ & _ & Hg & H1 & H2). rewrite L2 in H1. rewrite L3 in H2.
    split; [|done]. intros r Hi. rewrite list.Forall_forall in Hg.
    destruct (Hg r (proj2 (list_elem_of_In _ _) Hi)) as (Es & Ep & M). rewrite Ep.
    split; [by apply (packet_of_media ssrc)|]. split; [done|by apply M].
Qed.

(** C13: the decoder recovers all that can be had by one missing packet at a time.  From one frame
    the receiver gets media and FEC packets in any order, with losses and duplicates; the FEC
    packets carry consecutive sequence numbers, near those of the media packets if they are in
    the same stream.  Then the list of recovered packets is a part of the frame, in the order of
    the frame and without duplicates; it has all media packets received; and for each FEC packet
    received, if of the packets in its mask all but one are in the list, so is that one. *)
Theorem fec_decoder_complete (flexfec : bool) ssrc fec_ssrc uep media fecs rs q0
    (rps : list ReceivedPacket) : let F := format flexfec in
  frame_sent flexfec ssrc uep media fecs → (flexfec = false → rs = ssrc) →
  (rs = ssrc → u16 (q0 - ParseSequenceNumber (front media)) < 4096) →
  Forall (received_from flexfec ssrc media fecs) rps → Forall (numbered rs q0 fecs) rps →
  ∃ bit d rec, encoded ssrc media fecs bit ∧
    decode_all (new_decoder flexfec fec_ssrc ssrc) [] rps = Some (d, rec) ∧
    packets rec = filter (λ p, p ∈ packets rec) media ∧
    (∀ rp, In rp rps → is_fec rp = false → In (rp_pkt rp) (packets rec)) ∧
    (∀ rp i p, In rp rps → is_fec rp = true → rp_seq_num rp = u16 (q0 + Z.of_nat i) →
       (i < length fecs)%nat →
       let mask := selected (bit (Z.of_nat i)) (ParseSequenceNumber (front media)) media in
       In p mask → (∀ p', In p' mask → p' ≠ p → In p' (packets rec)) → In p (packets rec)).
Proof.
  intros F Hs Hrs Hq Hr Hn. destruct (frame_encoded _ _ _ _ _ Hs) as (_ & _ & _ & bit & He & _).
  destruct (frame_run flexfec ssrc uep media fecs rs q0 Hs Hrs Hq bit He rps fec_ssrc Hr Hn)
    as (d & rec & E & _ & H). by exists bit, d, rec.
Qed.

(** C2: lost packets come back.  All FEC packets of a frame arrive, and all media packets but
    those at [len] consecutive places, in any order and with any duplicates.  If one packet is
    lost ([len] is 1), or if the frame has more than 12 packets with equal protection and at
    most as many consecutive packets are lost as there are FEC packets, the list of recovered
    packets is exactly the frame. *)
Theorem fec_burst_recovery (flexfec : bool) ssrc fec_ssrc uep media fecs rs q0 (a len : nat)
    (rps : list ReceivedPacket) : let F := format flexfec in
  frame_sent flexfec ssrc uep media fecs → (flexfec = false → rs = ssrc) →
  (rs = ssrc → u16 (q0 - ParseSequenceNumber (front media)) < 4096) →
  Forall (received_from flexfec ssrc media fecs) rps → Forall (numbered rs q0 fecs) rps →
  (∀ i, (i < length fecs)%nat → ∃ rp, In rp rps ∧ is_fec rp = true ∧ rp_seq_num rp = u16 (q0 + Z.of_nat i)) →
  (∀ k p, media !! k = Some p → ¬ (a ≤ k < a + len)%nat → ∃ rp, In rp rps ∧ is_fec rp = false ∧ rp_pkt rp = p) →
  len = 1%nat ∨ (12 < zlen media ∧ uep = false ∧ (len ≤ length fecs)%nat) →
  ∃ d rec, decode_all (new_decoder flexfec fec_ssrc ssrc) [] rps = Some (d, rec) ∧ packets rec = media.
Proof.
  intros F Hs Hrs Hq Hr Hn Hfec Hmedia Hlen.
  destruct (frame_encoded _ _ _ _ _ Hs) as (Ha & _ & Hl & bit & He & Hint).
  destruct (frame_run flexfec ssrc uep media fecs rs q0 Hs Hrs Hq bit He rps fec_ssrc Hr Hn)
    as (d & rec & E & _ & Hsub & Hin & Hclose). exists d, rec. split; [done|].
  rewrite Hsub. apply filter_all. apply list.Forall_forall. intros p Hp.
  apply list_elem_of_In. pose proof Hp as [k Hk]%list_elem_of_lookup.
  assert (∀ k' p', media !! k' = Some p' → ¬ (a ≤ k' < a + len)%nat → In p' (packets rec)) as Hout.
  { intros k' p' Hk' Hno. destruct (Hmedia k' p' Hk' Hno) as (rp & Hi & Hf & <-). by apply Hin. }
  destruct (decide (a ≤ k < a + len)%nat) as [Hk1|]; [|by eapply Hout].
  destruct (ed_covered _ _ _ _ He p) as (i & Hi & Hb); [by apply list_elem_of_In|].
  destruct (Hfec i Hi) as (rp & Hrp & Hf & Eq). eapply (Hclose rp i p); try done.
  - apply list_elem_of_In, list_elem_of_filter. done.
  - intros p' Hp' Hne. apply list_elem_of_In, list_elem_of_filter in Hp' as [Hb' Hp'].
    apply list_elem_of_lookup in Hp' as [k' Hk']. apply (Hout k' p' Hk'). intros Hk1'.
    assert (k' ≠ k) as Hkk by (intros ->; congruence).
    destruct Hlen as [->|(H12 & Hu & Hlen)]; [lia|]. specialize (Hint H12 Hu).
    unfold interleaved in Hint. rewrite (Hint (Z.of_nat i) k p ltac:(lia) Hk) in Hb. rewrite (Hint (Z.of_nat i) k' p' ltac:(lia) Hk') in Hb'.
    apply Z.eqb_eq in Hb, Hb'. pose proof (Z.div_mod (Z.of_nat k) (zlen fecs) ltac:(lia)) as D.
    pose proof (Z.div_mod (Z.of_nat k') (zlen fecs) ltac:(lia)) as D'. rewrite Hb in D. rewrite Hb' in D'.
    destruct (Z.lt_trichotomy (Z.of_nat k `div` zlen fecs) (Z.of_nat k' `div` zlen fecs)) as [|[Eq'|]];
      [nia|rewrite Eq' in D; lia|nia].
Qed.

(** * Witnesses *)

(** Packets of stream 7 around the wrap of the sequence numbers, with a gap behind the second. *)
Definition sample_packet (s : Z) : list Z :=
  [0x90; 96; u16 s ≫ 8; u8 s; 0; 0; 1; 2; 0; 0; 0; 7] ++ replicate (Z.to_nat (s `mod` 3 + 1)) (u8 (5 * s)).

Definition sample_media (n : Z) : list (list Z) :=
  map sample_packet ([65530; 65531] ++ seqZ 65533 (n - 2)).

Definition sample_mem : list Z := replicate 288 0.

Definition sample_encode (flexfec : bool) (n pf : Z) : FecEncoder * Z * list (list Z) :=
  EncodeFec (F := format flexfec) sample_mem (NewEncoder (F := format flexfec) sample_mem sample_mem)
    (sample_media n) pf 0 false kFecMaskRandom.

Definition sample_fecs (flexfec : bool) (n pf : Z) : list (list Z) := (sample_encode flexfec n pf).2.

Lemma forall_check {A} (f : A → bool) (P : A → Prop) l : (∀ x, f x = true → P x) →
  forallb f l = true → Forall P l.
Proof. intros H E. rewrite forallb_forall in E. apply Forall_forall. auto. Qed.

Definition sendable_check (p : list Z) : bool :=
  forallb (λ x, (0 <=? x) && (x <=? 255)) p && (kRtpHeaderSize <=? zlen p) && (zlen p <=? 1000) &&
  (Z.land (p.[0]) 0xc0 =? 0x80) && (ParseSsrc p =? 7).

Lemma sendable_check_ok (flexfec : bool) p : sendable_check p = true →
  let F := format flexfec in sendable 7 p.
Proof.
  unfold sendable_check. rewrite !andb_true_iff. intros ((((A & B) & C) & D) & E). split; [split|].
  - apply (forall_check _ uint8 _) in A; [exact A|]. intros x Hx. unfold uint8. lia.
  - unfold IP_PACKET_SIZE, kRtpHeaderSize in *. lia.
  - lia.
  - done.
  - lia.
  - assert (@max_packet_overhead (format flexfec) ≤ 32) by (destruct flexfec; vm_compute; discriminate).
    unfold kTransportOverhead, IP_PACKET_SIZE. lia.
Qed.

Lemma sample_args (flexfec : bool) n pf : 3 ≤ n ≤ 48 → 1 ≤ pf ≤ 255 →
  forallb sendable_check (sample_media n) = true → ascending (sample_media n) →
  encode_args (F := format flexfec) 7 sample_mem (NewEncoder (F := format flexfec) sample_mem sample_mem)
    (sample_media n) pf 0.
Proof.
  intros Hn Hpf Hc Ha.
  assert (is_bytes sample_mem) as Hb by (apply Forall_replicate; cint).
  assert (zlen (sample_media n) = n) as Hl.
  { unfold sample_media. rewrite length_map, length_app, length_seqZ. cbn [length]. lia. }
  split; [|done| |done| |done|].
  - split; try done. destruct flexfec; done.
  - eapply forall_check; [|exact Hc]. intros p Hp. apply (sendable_check_ok true) in Hp as [[A B _ _ C] _].
    split; [done|]. split; [apply B|done].
  - unfold kUlpfecMaxMediaPackets. lia.
  - lia.
Qed.

Lemma sample_sent flexfec n pf : 3 ≤ n ≤ 48 → 1 ≤ pf ≤ 255 →
  forallb sendable_check (sample_media n) = true → ascending (sample_media n) →
  (sample_encode flexfec n pf).1.2 = 0 →
  frame_sent flexfec 7 false (sample_media n) (sample_fecs flexfec n pf).
Proof.
  intros Hn Hpf Hc Ha E. split.
  - eapply forall_check; [|exact Hc]. intros p. apply (sendable_check_ok flexfec).
  - exists sample_mem, (NewEncoder (F := format flexfec) sample_mem sample_mem), pf, 0, kFecMaskRandom,
      (sample_encode flexfec n pf).1.1.
    split; [by apply sample_args|]. unfold sample_fecs. rewrite <- E.
    change (EncodeFec _ _ _ _ _ _ _) with (sample_encode flexfec n pf). by destruct (sample_encode _ _ _) as [[? ?] ?].
Qed.

(** The media packets at the places [ks] and then all FEC packets, numbered from [q0] on. *)
Definition sample_received (flexfec : bool) (n pf rs q0 : Z) (ks : list nat) : list ReceivedPacket :=
  map (λ k, let p := nth k (sample_media n) [] in MkReceived 7 (ParseSequenceNumber p) false p) ks ++
  zip_with (λ i d, MkReceived rs (u16 (q0 + i)) true d)
    (seqZ 0 (zlen (sample_fecs flexfec n pf))) (sample_fecs flexfec n pf).

Lemma sample_received_ok flexfec n pf rs q0 ks : (flexfec = false → rs = 7) →
  Forall (λ k, (k < length (sample_media n))%nat) ks →
  Forall (received_from flexfec 7 (sample_media n) (sample_fecs flexfec n pf))
    (sample_received flexfec n pf rs q0 ks) ∧
  Forall (numbered rs q0 (sample_fecs flexfec n pf)) (sample_received flexfec n pf rs q0 ks).
Proof.
  intros Hrs Hk. unfold sample_received. set (fecs := sample_fecs flexfec n pf).
  assert (∀ rp, rp ∈ zip_with (λ i d, MkReceived rs (u16 (q0 + i)) true d) (seqZ 0 (zlen fecs)) fecs →
    ∃ i d, fecs !! i = Some d ∧ rp = MkReceived rs (u16 (q0 + Z.of_nat i)) true d) as Hz.
  { intros rp Hi. apply list_elem_of_lookup in Hi as [i Hi]. apply lookup_zip_with_Some in Hi as (x & d & -> & Hx & Hd).
    apply lookup_seqZ in Hx as [-> _]. by exists i, d. }
  split; apply Forall_app; split.
  - apply List.Forall_map. apply (list.Forall_impl _ _ _ Hk). intros k Hlt. split; [|done].
    cbn [rp_pkt]. by apply nth_In.
  - apply list.Forall_forall. intros rp Hi. destruct (Hz rp Hi) as (i & d & Hd & ->). split; [|done].
    by apply list_elem_of_In, list_elem_of_lookup_2 with i.
  - apply List.Forall_map. apply list.Forall_forall. done.
  - apply list.Forall_forall. intros rp Hi. destruct (Hz rp Hi) as (i & d & Hd & ->). intros _.
    split; [done|]. by exists i.
Qed.

Lemma sample_fecs_arrive flexfec n pf rs q0 ks i : (i < length (sample_fecs flexfec n pf))%nat →
  ∃ rp, In rp (sample_received flexfec n pf rs q0 ks) ∧ is_fec rp = true ∧
    rp_seq_num rp = u16 (q0 + Z.of_nat i).
Proof.
  intros Hi. unfold sample_received. set (fecs := sample_fecs flexfec n pf) in *.
  destruct (lookup_lt_is_Some_2 fecs i Hi) as [d Hd].
  exists (MkReceived rs (u16 (q0 + Z.of_nat i)) true d). split; [|done].
  apply in_app_iff. right. apply list_elem_of_In, list_elem_of_lookup. exists i.
  apply lookup_zip_with_Some. exists (Z.of_nat i), d. split; [done|]. split; [|done].
  apply lookup_seqZ. lia.
Qed.

Lemma sample_media_arrive flexfec n pf rs q0 ks k p : sample_media n !! k = Some p → In k ks →
  ∃ rp, In rp (sample_received flexfec n pf rs q0 ks) ∧ is_fec rp = false ∧ rp_pkt rp = p.
Proof.
  intros Hp Hk. unfold sample_received. eexists. split; [apply in_app_iff; left; apply in_map_iff; by exists k|].
  split; [done|]. cbn [rp_pkt]. by apply nth_lookup_Some.
Qed.

Ltac sample := vm_compute; repeat split; discriminate.

Lemma fec_header_roundtrip_witness :
  let s := MkWriterStream 7 65534 [0xa0; 0; 0; 1; 0; 0x40] in
  let data := replicate 40 0x55 in
  ∃ f, @ReadFecHeader (format true) (NewReceivedFec 9 100 (@FinalizeFecHeader (format true) s data)) = (f, true) ∧
    header_read s 24 data 9 100 f.
Proof.
  intros s data.
  destruct (fec_header_roundtrip true s data 9 100) as (_ & _ & _ & H).
  - split; [|by right]. repeat (constructor; [cint|]). constructor.
  - apply Forall_replicate. cint.
  - sample.
  - sample.
  - done.
  - vm_compute. discriminate.
  - vm_compute. discriminate.
  - exact H.
Defined.

Lemma EncodeFec_contract_witness :
  (sample_encode false 14 60).1.2 = 0 ∧ zlen (sample_fecs false 14 60) = 3 ∧
  ∃ bit, @encoded (format false) 7 (sample_media 14) (sample_fecs false 14 60) bit ∧
    interleaved (sample_media 14) bit 3.
Proof.
  pose proof (EncodeFec_contract false 7 sample_mem (NewEncoder (F := format false) sample_mem sample_mem)
    (sample_media 14) 60 0 false kFecMaskRandom) as (_ & _ & _ & H).
  destruct H as (_ & _ & H).
  - apply (sample_args false 14 60); [lia|lia|by vm_compute|sample].
  - destruct H as (H1 & H2 & _ & bit & He & Hi); [vm_compute; discriminate|].
    split; [exact H1|]. split; [exact H2|]. exists bit. split; [exact He|].
    change 3 with (NumFecPackets (zlen (sample_media 14)) 60). rewrite <- H2. apply Hi; [by vm_compute|done].
Defined.

(** A frame loses two packets, and both come back. *)
Lemma fec_decoder_sound_witness :
  let rps := sample_received true 5 150 9 1000 [4; 0; 4; 2]%nat in
  ∃ d rec, decode_all (F := format true) (new_decoder true 9 7) [] rps = Some (d, rec) ∧
    (∀ r, In r rec → In (r_pkt r) (sample_media 5)) ∧ map r_seq_num rec = [65530; 65531; 65533; 65534; 65535].
Proof.
  intros rps. destruct (fec_decoder_sound true 7 9 [(sample_media 5, sample_fecs true 5 150)] rps)
    as (d & rec & E & H & _).
  - intros media fecs [E|[]]. apply pair_equal_spec in E as [<- <-]. exists false.
    apply sample_sent; [lia|lia|by vm_compute|sample|by vm_compute].
  - cbn [flat_map fst]. rewrite app_nil_r. apply ascending_NoDup. sample.
  - intros rp Hi. exists (sample_media 5), (sample_fecs true 5 150). split; [by left|].
    pose proof (proj1 (sample_received_ok true 5 150 9 1000 [4; 0; 4; 2]%nat ltac:(done)
      ltac:(by apply (forall_check (λ k, (k <? 5)%nat) _ _ (λ k, proj1 (Nat.ltb_lt k 5))); vm_compute))) as HF.
    rewrite list.Forall_forall in HF. apply HF. by apply list_elem_of_In.
  - exists d, rec. split; [exact E|]. split; [intros r Hr; rewrite <- (app_nil_r (sample_media 5)); by apply H|].
    assert (option_map (λ x, map r_seq_num x.2) (Some (d, rec)) = Some [65530; 65531; 65533; 65534; 65535]) as C
      by (rewrite <- E; vm_compute; reflexivity).
    cbn [option_map snd] in C. congruence.
Defined.

Lemma fec_decoder_complete_witness :
  let rps := sample_received false 6 160 7 16 [5; 1; 1; 3]%nat in
  ∃ bit d rec, @encoded (format false) 7 (sample_media 6) (sample_fecs false 6 160) bit ∧
    decode_all (F := format false) (new_decoder false 7 7) [] rps = Some (d, rec) ∧
    packets rec = filter (λ p, p ∈ packets rec) (sample_media 6) ∧ length rps = 8%nat.
Proof.
  intros rps. destruct (sample_received_ok false 6 160 7 16 [5; 1; 1; 3]%nat ltac:(done)
    ltac:(by apply (forall_check (λ k, (k <? 6)%nat) _ _ (λ k, proj1 (Nat.ltb_lt k 6))); vm_compute)) as [HR HN].
  destruct (fec_decoder_complete false 7 7 false (sample_media 6) (sample_fecs false 6 160) 7 16 rps)
    as (bit & d & rec & H1 & H2 & H3 & _).
  - apply sample_sent; [lia|lia|by vm_compute|sample|by vm_compute].
  - done.
  - intros _. by vm_compute.
  - exact HR.
  - exact HN.
  - exists bit, d, rec. split; [exact H1|]. split; [exact H2|]. split; [exact H3|]. vm_compute. reflexivity.
Defined.

(** Three FEC packets for 14 media packets: three media packets in a row are lost. *)
Lemma fec_burst_recovery_witness :
  let rps := sample_received true 14 60 9 65535 [13; 12; 0; 1; 2; 3; 7; 8; 9; 11; 10]%nat in
  ∃ d rec, decode_all (F := format true) (new_decoder true 9 7) [] rps = Some (d, rec) ∧
    packets rec = sample_media 14.
Proof.
  intros rps. set (ks := [13; 12; 0; 1; 2; 3; 7; 8; 9; 11; 10]%nat) in rps.
  destruct (sample_received_ok true 14 60 9 65535 ks ltac:(done)
    ltac:(by apply (forall_check (λ k, (k <? 14)%nat) _ _ (λ k, proj1 (Nat.ltb_lt k 14))); vm_compute)) as [HR HN].
  apply (fec_burst_recovery true 7 9 false (sample_media 14) (sample_fecs true 14 60) 9 65535 4 3 rps).
  - apply sample_sent; [lia|lia|by vm_compute|sample|by vm_compute].
  - done.
  - done.
  - exact HR.
  - exact HN.
  - intros i. apply sample_fecs_arrive.
  - intros k p Hk Hno. apply (sample_media_arrive true 14 60 9 65535 ks k p Hk).
    assert (k < 14)%nat as Hlt by (apply lookup_lt_Some in Hk; exact Hk).
    do 14 (destruct k as [|k]; [first [lia|cbn; tauto]|]). lia.
  - right. split; [by vm_compute|]. split; [done|]. vm_compute. lia.
Defined.
